(* ===== verification/_CoqProject ===== *)
-Q . S2P
Prelude.v
Catalog.v
AppAccess.v
ObjectStore.v
RegistryTypes.v
Rfc3339.v
Rollouts.v
SourceVersions.v
InstallLocks.v
Heartbeats.v
FleetState.v
AutoDeploy.v
ChangeRequests.v
Materializations.v
RolloutOutcomes.v
RecoveryObserver.v
CatalogPoller.v
CatalogPollerSafety.v
CatalogPollerRestarts.v
CatalogPollerRollouts.v
AppSources.v
CredentialSelection.v
ToolNames.v
OperationPolicy.v
Retention.v
RegistryConfig.v
InstallValidation.v
RegistryIndex.v
RelyGuarantee.v
RegistryWriter.v
Installer.v
AutoDeployController.v
TurnScope.v
Principals.v
Permissions.v
AccessDecisions.v
InvocationContext.v
RequestHeaders.v
InvocationAuth.v
GuardedInvoker.v
RequestContexts.v
AppServer.v
BrokerCredentials.v
Schemas.v
CatalogResolution.v
GraphQL.v
Broker.v
OwnedResources.v
AgentWorkspace.v
HostedPool.v
HostedPoolInvariant.v
HostedPoolSafety.v
