(* ===== verification/Prelude.v ===== *)
(** * Gestalt: a verification library for the core of the [gestaltd] daemon

    [gestaltd] (Go, under [src/gestaltd]) hosts apps: it publishes and installs app
    versions across a fleet of instances, decides which operations of an app a user or
    an agent may call, and stores its state as rows of IndexedDB object stores.  This
    library models the parts that carry that logic and proves what each promises.

    ** The parts and how they interact

    - An app declares a _catalog_ of operations.  An _exposure policy_ restricts and
      renames them, a user's _access profile_ enables and disables them, and the
      _property names_ of their schemas are rewritten for language models.
    - A caller's _credentials_ are grouped by account and one is chosen per account.
    - Agents call back into the daemon: the _turn scope_ store remembers who created
      which session and turn.
    - Every call of an operation goes through an _invoker_.  The _guarded invoker_ bounds
      depth, recursion and rate and writes the audit trail around the _broker_.  The broker
      resolves the operation from the provider's catalogs (_catalog resolution_, _operation
      schemas_), authorizes it (_invocation authorization_: the scopes of the _principal_,
      the access profile, the app's policy, and the _access decisions_ of an external
      evaluator), chooses a connection, takes the caller's token from the _broker
      credentials_, applies _header overrides_ and lets the provider run it.  A raw _GraphQL_
      query is authorized field by field.  What all of them know about a call is the
      _invocation context_; a provider is handed a _request context_ and calls back through
      the _app server_, which restores it and decides what the provider may call.
    - Installing an app version takes a fleet-wide _install lock_, creates a _rollout_
      and mirrors the change into the version _retention_ catalog.  Instances write
      _heartbeats_; the _fleet state_ is projected from the fresh ones and drives the
      rollout to completion or failure; _auto-deploy settings_ decide whether a new
      version is installed by itself and are paused when a rollout failed.
      A _prune_ deletes the versions whose retention has passed.
    - Hosted agents run in instances of a runtime.  A _pool_ per provider starts, checks,
      replaces and drains the instances and routes sessions, turns and interactions to the
      one that has them; a session may ask for a _workspace_ of git checkouts, which the
      policy of the provider restricts.
    - Publishing writes a version's archives and entry to a bucket, then its retention
      row, and lists it in the app's _index_ last.  The _installer_ takes the lock, reads
      the version history (_change requests_), the current rollout, the _source version_
      and the registry, validates the candidate against the rest of the fleet, and
      creates the rollout and the request.  The _auto-deploy controller_ watches the
      index and asks the installer for each new version.
    - Every instance runs a _catalog poller_: it brings the instance to the versions of the
      catalog, records each step in its _materialization_ of the version, and moves rollouts
      on, by the materializations of the instances that enrolled or by the heartbeats; the
      _outcome_ of a rollout is recorded once.  A _recovery observer_ records when the fleet
      runs, stably, a version whose rollout had failed.

    ** Files, sources and what is proved

    - [Prelude] (this file): Go's [(value, error)] as [result] with its notation,
      [strings.TrimSpace] on UTF-8 bytes, prefixes, string order, sorting and
      compaction, times and durations, dynamically typed row values; the tactics and
      the hint database [gestalt].
    - [Catalog]: [core/catalog/catalog.go].  [Validate] accepts exactly the well-formed
      catalogs; [MergeTags] keeps every tag once up to case.
    - [AppAccess]: [core/app_access.go], [core/app_access_legacy.go],
      [internal/coredata/app_access_profiles.go] and the save of
      [internal/server/handlers_app_access.go].  A save does what the page shows and
      keeps the other choices; the conversion of a legacy allow-list is exact and never
      guesses; stored profiles read back.
    - [ObjectStore]: the interface of the object stores and the row accessors of
      [internal/coredata/convert.go].  A service method is a [prog], a tree of calls;
      [run] runs it alone, [exec] interleaves several, and [wp] is a weakest
      precondition calculus for the first.  The class [ObjectStore] is the promise of
      one store inside a larger database.
    - [RegistryTypes]: the records of [core/types.go] the services share.
    - [Rollouts]: [internal/coredata/app_rollouts.go].  Creating, moving and observing a
      rollout keep promises written in terms of what the service reads back, not of its code;
      operations follow the lifecycle;
      terminal rollouts are final; concurrent creates have one winner; a sequence of
      heartbeat evaluations completes or fails a rollout exactly when it should.
    - [InstallLocks]: [internal/coredata/app_version_install_locks.go].  Behaviour alone
      on every branch; mutual exclusion of distinct holders under every interleaving from a
      state without a lock row; and the interleaving that admits two holders when a stale
      row is there.
    - [Heartbeats]: [internal/coredata/gestaltd_instance_heartbeats.go].  Round trip,
      exact listing of the fresh heartbeats, all-or-nothing pruning.
    - [FleetState]: [internal/appregistry/fleet_state.go] and
      [internal/coredata/app_version_change_requests_projection.go].  The meaning of
      each state, the counters as a partition, independence of the order, and the
      projector proved against the class [FreshHeartbeats] which [Heartbeats] discharges.
    - [AutoDeploy]: [internal/coredata/app_auto_deploy_settings.go].  [UpdateForRollout]
      is atomic and exact; [Update] is right alone and loses updates when interleaved.
    - [CredentialSelection]: [core/credential_selection.go] and the account key of
      [core/credential_metadata.go].  The preference is a strict order, the choice does
      not depend on the listing order, one credential is kept per account, and the two
      grouping routines agree.
    - [ToolNames]: [core/toolschema/names.go].  Allocated names are fresh and valid and
      lead back to the raw names.
    - [OperationPolicy]: [services/apps/operationexposure/policy.go].  Which
      configurations are accepted, independence of the map order, and that the names a
      policy lists are the names it resolves.
    - [Retention]: [internal/appregistry/retention.go], [retention_prune.go] and the
      loop of [pruneAppRegistryRetention] in [internal/daemon/app_registry_retention.go].
      The windows in which a version may be selected; an invariant over all histories
      of publishes, deploys and prunes; what a prune round may delete.
    - [Rfc3339]: [time.Format] and [time.Parse] for RFC 3339, with the calendar; parsing
      reads back what formatting wrote.
    - [SourceVersions]: [internal/coredata/gestaltd_source_versions.go].  Active rollouts
      follow the source version; a deploy pause holds until its owner releases it;
      activation is all or nothing.
    - [ChangeRequests]: [internal/coredata/app_version_change_requests.go] and
      [app_version_change_requests_projection.go].  Requests read back; the latest one is
      the desired revision; following the cursors ends and reads the history once, when
      timestamps are whole seconds; otherwise a page skips requests.
    - [Materializations]: [internal/coredata/app_instance_materializations.go].  Every method
      refines a specification on the map of an instance's progress, or lists its entries.
    - [RolloutOutcomes]: [internal/coredata/app_version_rollout_outcomes.go] and
      [app_version_recovery_observations.go].  Facts are recorded once, whatever runs at the
      same time; a recovery is recorded exactly when the fence around it holds.
    - [RecoveryObserver]: [internal/appregistry/recovery_observer.go].  A recorded recovery
      was seen in consecutive passes that span the stability window.
    - [CatalogPoller]: [internal/appregistry/poller.go] over the interface of [restarter.go].
      [CatalogPollerSafety]: an app is stopped and started only when that is due, after the
      delay since the stop on record.
      [CatalogPollerRestarts]: a restart on record happened; and the stop time that is not
      forgotten.  [CatalogPollerRollouts]: rollouts are decided by the instances that enrolled
      or by the fresh heartbeats, and by the hook that is asked before a completion, composed
      with [Rollouts], [Heartbeats], [FleetState].
    - [AppSources]: [services/apps/source/source.go] and the source paths of
      [internal/appregistry/registry.go], with their round trip.
    - [RegistryConfig]: durations, retention and provider sources of
      [internal/config/config.go] and [app_registry_config.go]; where a duration in days
      overflows.
    - [InstallValidation]: [internal/appregistry/install_validator.go] and the constraints
      of [internal/providerregistry/registry.go].  A validated install keeps the
      requirements of all running versions met.
    - [RegistryIndex]: [internal/appregistry/registry.go] and [publish_validation.go].
      Upserting an entry changes exactly one row of the index and keeps it valid.
    - [RelyGuarantee]: a rely/guarantee logic for programs that share a state; [wpi_exec]
      turns proofs about one program into a fact about every interleaving.
    - [RegistryWriter]: [internal/appregistry/writer.go], [catalog_cas.go] and the bucket of
      [publish_gcs.go].  Whatever runs concurrently and fails, the index lists only
      versions whose objects and retention row are stored.
    - [Installer]: [internal/appregistry/installer.go].  What a successful and a failed
      install leave behind, from which version it came, and that the installed version becomes the desired one.
    - [AutoDeployController]: [internal/appregistry/autodeploy/controller.go].  As long
      as the database answers, a new version is asked for in every pass until the installer
      takes or rejects it; an app that is switched off is
      left alone; a failed rollout is handled once; and the failed write after which a
      version is never seen.  Its theorems are proved against the class [Collaborators],
      which the installer discharges.
    - [TurnScope]: [services/agents/agentturnscope/store.go].  Turn bindings are shared
      through pointers, modelled by a heap: every operation changes exactly the names
      of one binding; session scopes read back normalised.
    - [Principals]: [services/identity/principal] and [services/invocation/delegation.go].
      The canonical form; for which callers there is a subject to authorize, and which;
      a token's principal is the introspected subject; running as somebody else keeps
      exactly the caller's scopes.
    - [Permissions]: permission sets and scope strings of [principal.go], subject contexts of
      [services/appaccess/request_context.go] and the permissions of agent turns of
      [services/agents/agentmanager/manager.go].  Scope strings admit exactly the set they
      were written for and read back; what a turn may do in every case, exactly what its
      references name where they are exact; and three cases in which a set is not what its scopes say.
    - [AccessDecisions]: [authorization_check.go], [authorization_batch.go] and
      [authorization_resource.go] of [services/invocation], where the files below are as well.
      A batch fails closed and agrees with the single checks.
    - [InvocationContext]: [context.go], [catalog_context.go], [credential_mode.go],
      [connection_overrides.go], [errors.go]; the typed errors, and a provider as the record
      [Provider] of the methods of [core/provider.go], the optional interfaces as options.
    - [RequestHeaders]: [request_headers.go].  Only declared headers are overridden.
    - [InvocationAuth]: [authorizeInvocation] of [broker.go], [app_operation_policy.go],
      [app_access_resolver.go], [app_access_fallback.go], [invoke_authorization.go],
      [operation_surface.go] and the listing of [authorization_batch.go].  What an
      authorized invocation has passed; a filtered catalog is the invocable one, for an
      evaluator that answers and without private operations.
    - [GuardedInvoker]: [guarded.go], [ratelimit.go], [audit.go].  One audit entry for every
      call; bounded nesting; providers are limited independently.  The class of inner
      invokers it can wrap is [tame].
    - [RequestContexts]: [services/appaccess/request_context.go] and the wire forms of
      [internal/agentwire].  What of a context survives the trip through a
      provider, and what does not.
    - [AppServer]: [services/appaccess/app_server.go] and [workflow_authority.go].  What a
      provider that calls back may call, for whom, as whom, and that apps cannot recurse without end.
    - [BrokerCredentials]: the credentials of [broker.go], [broker_reconnect.go].  A call gets
      its own caller's token and the audit says which; only a refused grant is marked.
    - [Schemas]: [services/apps/declarative] and [capabilities.go].  The schema synthesized
      for an operation reads back as its parameters.
    - [CatalogResolution]: [catalog.go] and [catalog_selectors.go].  What a listing shows is
      what a call resolves to, for providers that do not resolve operations themselves.
    - [GraphQL]: [operation_graphql.go].  The walk over a query ends; a query reaches only
      fields whose operations admit the caller, unless no operation has a document.
    - [Broker]: [Invoke], [InvokeStream], [InvokeMaybeStream], [InvokeGraphQL] of [broker.go].
      Only cleared calls reach a provider; the three ways to invoke agree; the broker is
      [tame], so a guard can wrap it.
    - [OwnedResources]: a rely/guarantee logic whose processes own tokens, for invariants
      that count what the processes hold; [wpo_exec] is its [wpi_exec].
    - [AgentWorkspace]: [core/agent/workspace.go] and the workspace policy of the pool, with
      [path.Clean], [filepath.Rel] and [path.Match].  [ValidateWorkspace] accepts exactly the
      workspaces whose checkouts lie apart and inside; what the policy admits; two gaps.
    - [HostedPool]: [internal/bootstrap/hosted_agent_pool.go] and
      [hosted_runtime_compatibility.go]: the sections under the mutex and, as programs, the
      methods and goroutines.
    - [HostedPoolInvariant], [HostedPoolSafety]: under every interleaving calls drain before
      an instance is closed, the pool stays within its capacity, routes lead to open
      members, workspaces are prepared within the policy and drains end by their deadline;
      and three
      schedules that show gaps in the routing of creates and in launching.

    Paths are relative to [src/gestaltd].  Definitions keep the names of the source;
    record fields carry a two- or three-letter prefix of their record.

    ** Conventions of the model

    - A Go [error] is an inductive type per component with the source's cases; a method
      that mutates its receiver returns the new state; a nil pointer is [None], a nil
      slice is [[]], and a nil map is an empty one unless the code tells them apart.
    - Rows hold dynamically typed values, as the code stores them; the accessors fall
      back as the source does.  JSON columns are the values they denote.
    - Faults: every object-store call consumes one entry of a fault list and either
      takes effect or fails without effect; a transaction that fails leaves the rows
      unchanged.  Theorems are for every fault list, or say [benign] where they need
      calls to succeed.  [GetAll] lists rows in key order.
    - Interleaving: a schedule picks which of several programs makes its next call;
      theorems are for every schedule.  Methods under a mutex are single steps.
    - Times are integers of nanoseconds since Go's zero time, where the code rounds or
      saturates the model does; counters that Go keeps as [int] are unbounded since
      they are bounded by the number of rows.
    - Ranging over a Go map has no fixed order: functions that do take the enumeration,
      and theorems hold for every one.
    - Not in the repository or needing tables it does not have, hence parameters:
      [strings.ToLower] ([ToLower]), parsing a time from a string ([TimeParser]),
      decoding metadata JSON ([UnmarshalStrings]), the third-party semantic-version
      package ([IsValid], [Canonical], [Semver]) and the storage commands of a prune ([rm],
      [fresh]), JSON of row columns ([JSONCodec]), [fmt.Sprint] ([Sprinter]), path and
      URL escaping ([Codecs]), the answers of the registry, and local files.  In the files of
      invocation: [strings.ToUpper], [strings.EqualFold], parsing and making UUIDs
      ([uuid_Parse], [uuid_New]), [structpb] ([NewStruct], [StructFromMap], [AsMap], and [wide]
      for numbers beyond 53 bits), the token bucket ([NewLimiter], [AllowNow]), schema JSON
      ([Marshal], [Unmarshal]), the GraphQL parser and its [Document], the text of a foreign
      error ([Text], [ErrorFacts]), [url.Parse] ([ParseURL]), and, as records of functions, the
      evaluator, the identity and credential providers, the stores of users, profiles and
      policies, and the hosted instances and their runtime ([Outside]).
    - The catalog poller runs on a pair of the shared database and its own [Node], its memory
      and the runtime: an arbitrary state behind the record [Runtime], whose functions may
      change it and answer anything.  Its theorems read a log that wraps the runtime
      ([logged]) and holds its answers, those of the hook before a completion included.  A
      notification is an event of the loop.
    - Invocation: a [World] carries the clock, the audit log and its live entries, the limiters
      and a [rest] that providers and credential stores change; a context is a record of the
      values set on it.  An error is a chain of sentinels as [errors.Is] sees it, its text is
      not.  Spans, metrics and logging are left out.
    - Registry documents are the values they encode.  A call to the bucket takes effect,
      is refused, or takes effect and loses its answer; a write with a generation
      condition succeeds only on that generation.

    ** Fuel

    [ToolNames.runes] decodes with fuel [length], one rune taking at least one byte;
    the search for a free name has fuel [S (size used)], more candidates than names in
    use; a decimal number has twenty digits, enough for an unsigned 64-bit integer.
    Theorems show the results, so the fuel is enough.  The walk over a GraphQL query with
    [F] fragments and [S] selection sets has fuel [(F + 1) * (S + 1) + 1]: a path enters every
    fragment once and inline fragments nest, and [graphqlRootFields_total] shows it is enough.
    A listing is cut into slices with fuel the number of requests.  The wait for an instance
    to drain has one round more than there are polls until its deadline
    ([drainFuel_enough]); the other loops of the pool, which the code does not bound or bounds
    by a context, run for the rounds of [Ctx] or for any number of ticks, and no theorem says
    that they end.  [path.Match] has the length of the pattern, of which
    every round takes a byte.  All other recursion is structural.

    ** Not modelled

    The HTTP server, process start-up and supervision, configuration loading, provider
    hosting and generated RPC code are I/O and glue; the YAML and JSON decoders of the
    modelled records are standard-library reflection.  The stateless publish service and
    its upload signer, the heartbeat writer, the pending catalog, the
    observation of a stream's frames, the matching of an agent's tool
    references and the directory groups of the server are further candidates for this
    style.  [path_domain_scheduler.go] is not called.  The client SDKs and the
    command line live outside the daemon. *)

From stdpp Require Import base gmap strings list sorting sets.
From Stdlib Require Import ZArith Ascii SpecFloat Lia ZifyBool.

Set Default Goal Selector "!".

(** ** Results: Go's [(value, error)] pairs *)

Inductive result (E A : Type) : Type :=
  | Ok (a : A)
  | Err (e : E).
Arguments Ok {E A} _.
Arguments Err {E A} _.

Declare Scope go_scope.
Delimit Scope go_scope with go.

Definition rbind {E A B} (r : result E A) (f : A → result E B) : result E B :=
  match r with Ok a => f a | Err e => Err e end.

(** [if err != nil { return err }] *)
Notation "'let!' x := r 'in' k" := (rbind r (fun x => k))
  (at level 10, x pattern, r at level 100, k at level 200) : go_scope.
(** [if cond { return err }] *)
Notation "'fail_if' c 'with' e ;; k" := (if c then Err e else k)
  (at level 10, c at level 99, e at level 99, k at level 200) : go_scope.
Open Scope go_scope.

Definition is_ok {E A} (r : result E A) : bool :=
  match r with Ok _ => true | Err _ => false end.

Lemma rbind_ok {E A B} (r : result E A) (f : A → result E B) b :
  rbind r f = Ok b ↔ ∃ a, r = Ok a ∧ f a = Ok b.
Proof. destruct r; simpl; naive_solver. Qed.

Lemma fail_if_ok {X A} (c : bool) (e : X) (k : result X A) a :
  (fail_if c with e ;; k) = Ok a ↔ c = false ∧ k = Ok a.
Proof. destruct c; naive_solver. Qed.

Lemma rbind_err {E A B} (r : result E A) (f : A → result E B) e :
  rbind r f = Err e ↔ r = Err e ∨ ∃ a, r = Ok a ∧ f a = Err e.
Proof. destruct r; simpl; naive_solver. Qed.

(** [for _, x := range xs { if err := f(x); err != nil { return err } }] *)
Fixpoint each {E A} (f : A → result E unit) (xs : list A) : result E unit :=
  match xs with
  | [] => Ok tt
  | x :: xs => let! _ := f x in each f xs
  end.

Lemma each_ok {E A} (f : A → result E unit) xs :
  each f xs = Ok tt ↔ ∀ x, x ∈ xs → f x = Ok tt.
Proof.
  induction xs as [|x xs IH]; simpl; [set_solver|].
  rewrite rbind_ok. split.
  - intros ([] & Hx & Hxs). set_solver.
  - intros H. exists tt. split; [|apply IH]; set_solver.
Qed.

Lemma each_err {E A} (f : A → result E unit) xs e :
  each f xs = Err e ↔
  ∃ xs1 x xs2, xs = xs1 ++ x :: xs2 ∧ f x = Err e ∧ ∀ y, y ∈ xs1 → f y = Ok tt.
Proof.
  induction xs as [|x xs IH]; simpl.
  { split; [done|]. intros ([] & ? & ? & ? & _); done. }
  rewrite rbind_err. split.
  - intros [Hx|([] & Hx & Hxs)].
    + exists [], x, xs. set_solver.
    + apply IH in Hxs as (l1 & y & l2 & -> & ? & ?).
      exists (x :: l1), y, l2. set_solver.
  - intros ([|z l1] & y & l2 & Heq & Hy & Hl1); simplify_eq/=; [by left|].
    right. exists tt. split; [set_solver|]. apply IH.
    exists l1, y, l2. set_solver.
Qed.

(** ** Strings: Go strings are byte sequences *)

Abbreviation bytes := (list ascii).

Definition byte_in (lo hi : N) (a : ascii) : bool :=
  ((lo <=? N_of_ascii a) && (N_of_ascii a <=? hi))%N.
Definition byte_is (n : N) (a : ascii) : bool := (N_of_ascii a =? n)%N.

(** The UTF-8 encodings of the code points for which [unicode.IsSpace] holds,
    by encoded length: U+0009..U+000D and U+0020; U+0085 and U+00A0; U+1680,
    U+2000..U+200A, U+2028, U+2029, U+202F, U+205F and U+3000. *)
Definition space1 (a : ascii) : bool := byte_in 9 13 a || byte_is 32 a.
Definition space2 (a b : ascii) : bool :=
  byte_is 194 a && (byte_is 133 b || byte_is 160 b).
Definition space3 (a b c : ascii) : bool :=
  (byte_is 225 a && byte_is 154 b && byte_is 128 c)
  || (byte_is 226 a && byte_is 128 b
      && (byte_in 128 138 c || byte_is 168 c || byte_is 169 c || byte_is 175 c))
  || (byte_is 226 a && byte_is 129 b && byte_is 159 c)
  || (byte_is 227 a && byte_is 128 b && byte_is 128 c).

Section strip.
  Context (p1 : ascii → bool) (p2 : ascii → ascii → bool)
          (p3 : ascii → ascii → ascii → bool).

  (** Drop leading groups of one, two or three bytes while they match. *)
Fixpoint strip (l : bytes) : bytes :=
  match l with
  | [] => []
  | a :: l1 =>
      if p1 a then strip l1 else
      match l1 with
      | [] => l
      | b :: l2 =>
          if p2 a b then strip l2 else
          match l2 with
          | [] => l
          | c :: l3 => if p3 a b c then strip l3 else l
          end
      end
  end.

Definition starts (l : bytes) : bool :=
  match l with
  | [] => false
  | a :: l1 => p1 a ||
      match l1 with
      | [] => false
      | b :: l2 => p2 a b ||
          match l2 with [] => false | c :: _ => p3 a b c end
      end
  end.

Lemma strip_stop l : starts l = false → strip l = l.
Proof.
  destruct l as [|a [|b [|c l]]]; simpl; [done|..].
  - destruct (p1 a); done.
  - destruct (p1 a); simpl; [done|]. destruct (p2 a b); done.
  - destruct (p1 a); simpl; [done|]. destruct (p2 a b); simpl; [done|].
    by destruct (p3 a b c).
Qed.

Lemma strip_spec l : starts (strip l) = false ∧ ∃ k, l = k ++ strip l.
Proof.
  assert (H : ∀ n l, length l ≤ n →
            starts (strip l) = false ∧ ∃ k, l = k ++ strip l); [|by eapply H].
  clear l. induction n as [|n IH]; intros [|a l1] Hlen; simpl in Hlen; try lia.
  1,2: simpl; split; [done|by exists []].
  simpl. destruct (p1 a) eqn:E1.
  { destruct (IH l1) as [? [k Hk]]; [lia|]. split; [done|].
    exists (a :: k). simpl. by f_equal. }
  destruct l1 as [|b l2]; [simpl; rewrite E1; split; [done|by exists []]|].
  simpl in Hlen. destruct (p2 a b) eqn:E2.
  { destruct (IH l2) as [? [k Hk]]; [lia|]. split; [done|].
    exists (a :: b :: k). simpl. by do 2 f_equal. }
  destruct l2 as [|c l3]; [simpl; rewrite E1, E2; split; [done|by exists []]|].
  simpl in Hlen. destruct (p3 a b c) eqn:E3.
  { destruct (IH l3) as [? [k Hk]]; [lia|]. split; [done|].
    exists (a :: b :: c :: k). simpl. by do 3 f_equal. }
  simpl. rewrite E1, E2, E3. split; [done|by exists []].
Qed.

Lemma strip_idem l : strip (strip l) = strip l.
Proof. apply strip_stop, strip_spec. Qed.

Lemma starts_app l1 l2 : starts (l1 ++ l2) = false → starts l1 = false.
Proof.
  destruct l1 as [|a [|b [|c l1]]]; simpl; [done|..];
    rewrite ?orb_false_iff; tauto.
Qed.
End strip.

Definition trim_left (l : bytes) : bytes := strip space1 space2 space3 l.
Definition trim_right (l : bytes) : bytes :=
  reverse (strip space1 (λ b a, space2 a b) (λ c b a, space3 a b c) (reverse l)).

(** [strings.TrimSpace] *)
Definition TrimSpace (s : string) : string :=
  String.string_of_list_ascii (trim_right (trim_left (String.list_ascii_of_string s))).

Lemma trim_right_prefix l : ∃ k, l = trim_right l ++ k.
Proof.
  destruct (strip_spec space1 (λ b a, space2 a b) (λ c b a, space3 a b c) (reverse l))
    as [_ [k Hk]].
  exists (reverse k). unfold trim_right. rewrite <-reverse_app, <-Hk.
  by rewrite reverse_involutive.
Qed.

Lemma trim_left_right l : trim_left (trim_right (trim_left l)) = trim_right (trim_left l).
Proof.
  apply strip_stop.
  destruct (trim_right_prefix (trim_left l)) as [k Hk].
  apply (starts_app _ _ _ _ k). rewrite <-Hk. apply strip_spec.
Qed.

Lemma trim_right_idem l : trim_right (trim_right l) = trim_right l.
Proof. unfold trim_right. by rewrite reverse_involutive, strip_idem. Qed.

Lemma TrimSpace_idem s : TrimSpace (TrimSpace s) = TrimSpace s.
Proof.
  unfold TrimSpace. rewrite String.list_ascii_of_string_of_list_ascii.
  by rewrite trim_left_right, trim_right_idem.
Qed.

(** A string that [TrimSpace] leaves alone. *)
Definition trimmed (s : string) : bool := bool_decide (TrimSpace s = s).

Lemma trimmed_spec s : trimmed s = true ↔ TrimSpace s = s.
Proof. unfold trimmed. apply bool_decide_eq_true. Qed.

Lemma trimmed_TrimSpace s : trimmed (TrimSpace s) = true.
Proof. apply trimmed_spec, TrimSpace_idem. Qed.

Lemma string_cons_app x a b : String x a +:+ b = String x (a +:+ b).
Proof. done. Qed.

(** A printable ASCII byte is part of no white space. *)
Definition ink (a : ascii) : bool := byte_in 33 126 a.

Lemma ink_no_space a b c :
  ink a = true →
  space1 a = false ∧ space2 a b = false ∧ space2 b a = false
  ∧ space3 a b c = false ∧ space3 b a c = false ∧ space3 b c a = false.
Proof. unfold ink, space1, space2, space3, byte_in, byte_is. lia. Qed.

Definition ascii_text (s : string) : bool :=
  forallb (byte_in 0 127) (String.list_ascii_of_string s).
Definition ink_text (s : string) : bool :=
  forallb ink (String.list_ascii_of_string s).

Lemma ink_text_ascii s : ink_text s = true → ascii_text s = true.
Proof.
  unfold ink_text, ascii_text. rewrite !forallb_forall. intros H a Ha.
  specialize (H a Ha). revert H. unfold ink, byte_in. lia.
Qed.

Lemma starts_ink p2 p3 l :
  (∀ a b c, ink a = true → p2 a b = false ∧ p3 a b c = false) →
  Forall (λ a, ink a = true) l → starts space1 p2 p3 l = false.
Proof.
  intros Hp Hl. destruct Hl as [|a l Ha Hl]; [done|]. cbn.
  rewrite (proj1 (ink_no_space a a a Ha)).
  destruct l as [|b [|c l]]; cbn; [done|..]; destruct (Hp a b b Ha) as [-> _]; [done|].
  apply (Hp a b c Ha).
Qed.

Lemma TrimSpace_ink s : ink_text s = true → TrimSpace s = s.
Proof.
  unfold ink_text. rewrite forallb_forall. intros H.
  assert (Hs : Forall (λ a, ink a = true) (String.list_ascii_of_string s)).
  { apply List.Forall_forall. exact H. }
  unfold TrimSpace, trim_right, trim_left.
  rewrite (strip_stop _ _ _ (String.list_ascii_of_string s)).
  2:{ apply starts_ink; [|done]. intros a b c Ha. by destruct (ink_no_space a b c Ha) as (_&?&_&?&_). }
  rewrite strip_stop.
  2:{ apply starts_ink; [|by apply Forall_reverse].
      intros a b c Ha. split; [apply (ink_no_space a b b Ha)|apply (ink_no_space a c b Ha)]. }
  rewrite reverse_involutive. apply String.string_of_list_ascii_of_string.
Qed.

(** Text that starts with a printable byte and ends, after another one, in
    trimmed text is trimmed. *)
Lemma TrimSpace_joined x l c k :
  ink x = true → ink c = true → k ≠ "" → TrimSpace k = k →
  TrimSpace (String x (l +:+ String c k)) = String x (l +:+ String c k).
Proof.
  intros Hx Hc Hk Ht. unfold TrimSpace.
  set (w := String.list_ascii_of_string (String x (l +:+ String c k))).
  assert (Hw : ∃ l', w = x :: l' ++ c :: String.list_ascii_of_string k).
  { exists (String.list_ascii_of_string l). unfold w. simpl. f_equal.
    induction l as [|y l IH]; [done|]. rewrite string_cons_app. simpl. by rewrite IH. }
  destruct Hw as [l' Hw].
  assert (trim_left w = w) as ->.
  { apply strip_stop. rewrite Hw.
    destruct (l' ++ c :: String.list_ascii_of_string k) as [|b [|d r]]; simpl;
      rewrite ?(proj1 (ink_no_space x x x Hx)); [done|..];
      rewrite ?(proj1 (proj2 (ink_no_space x b b Hx))); [done|].
    by destruct (ink_no_space x b d Hx) as (_ & _ & _ & -> & _). }
  assert (trim_right w = w) as ->;
    [|unfold w; apply String.string_of_list_ascii_of_string].
  unfold trim_right. rewrite strip_stop; [apply reverse_involutive|].
  apply (f_equal String.list_ascii_of_string) in Ht. unfold TrimSpace in Ht.
  rewrite String.list_ascii_of_string_of_list_ascii in Ht.
  set (lk := String.list_ascii_of_string k) in *.
  assert (lk ≠ []) as Hlk.
  { intros E. apply Hk. rewrite <-(String.string_of_list_ascii_of_string k). fold lk. by rewrite E. }
  assert (Hr : trim_right lk = lk).
  { rewrite <-Ht. apply trim_right_idem. }
  assert (Hs : starts space1 (λ b a, space2 a b) (λ c b a, space3 a b c) (reverse lk) = false).
  { rewrite <-Hr. unfold trim_right. rewrite reverse_involutive. apply strip_spec. }
  rewrite Hw, reverse_cons, reverse_app, reverse_cons, <-!app_assoc.
  assert (reverse lk ≠ []) as Hn by (intros E; apply Hlk, (inj reverse); by rewrite E).
  destruct (reverse lk) as [|a [|b [|d r]]]; [done|..]; simpl in *;
    rewrite ?orb_false_iff in *; destruct_and?; repeat split; try done.
  - apply (ink_no_space c a a Hc).
  - destruct (reverse l' ++ [x]) as [|y ?]; [done|]. apply (ink_no_space c y a Hc).
  - apply (ink_no_space c b a Hc).
Qed.

Example TrimSpace_ascii : TrimSpace "  a b	 " = "a b".
Proof. reflexivity. Qed.

(** [strings.HasPrefix], [strings.TrimPrefix], [strings.CutPrefix] *)
Definition HasPrefix (s p : string) : bool := String.prefix p s.

Fixpoint drop_string (n : nat) (s : string) : string :=
  match n, s with
  | O, _ => s
  | S n, String _ s => drop_string n s
  | S _, EmptyString => EmptyString
  end.

Fixpoint take_string (n : nat) (s : string) : string :=
  match n, s with
  | O, _ => EmptyString
  | S n, String a s => String a (take_string n s)
  | S _, EmptyString => EmptyString
  end.

Definition CutPrefix (s p : string) : option string :=
  if HasPrefix s p then Some (drop_string (String.length p) s) else None.
Definition TrimPrefix (s p : string) : string := default s (CutPrefix s p).

(** [strings.TrimSuffix] *)
Definition TrimSuffix (s suffix : string) : string :=
  let n := String.length s - String.length suffix in
  if decide (String.substring n (String.length suffix) s = suffix) then String.substring 0 n s else s.

Lemma HasPrefix_app p s : HasPrefix (p +:+ s) p = true.
Proof.
  unfold HasPrefix. induction p as [|a p IH]; simpl; [by destruct s|].
  destruct (ascii_dec a a); [done|congruence].
Qed.

Lemma drop_string_app p s : drop_string (String.length p) (p +:+ s) = s.
Proof. by induction p as [|a p IH]; simpl. Qed.

Lemma HasPrefix_spec s p : HasPrefix s p = true ↔ ∃ r, s = p +:+ r.
Proof.
  split; [|intros [r ->]; apply HasPrefix_app].
  unfold HasPrefix. revert s. induction p as [|a p IH]; intros s H.
  { by exists s. }
  destruct s as [|b s]; simpl in H; [done|].
  destruct (ascii_dec a b) as [->|]; [|done].
  destruct (IH s H) as [r ->]. by exists r.
Qed.

Lemma CutPrefix_spec s p r : CutPrefix s p = Some r ↔ s = p +:+ r.
Proof.
  unfold CutPrefix. destruct (HasPrefix s p) eqn:E.
  - apply HasPrefix_spec in E as [r' ->]. rewrite drop_string_app.
    split; [intros [= ->]; done|]. by intros ->%(inj (String.append p)).
  - split; [done|]. intros ->. by rewrite HasPrefix_app in E.
Qed.

Lemma string_app_assoc (a b c : string) : a +:+ b +:+ c = (a +:+ b) +:+ c.
Proof.
  induction a as [|x a IH]; [done|]. by rewrite !string_cons_app, IH.
Qed.

Lemma string_app_nil_r (a : string) : a +:+ "" = a.
Proof. induction a as [|x a IH]; [done|]. by rewrite string_cons_app, IH. Qed.

Lemma string_length_app a b :
  String.length (a +:+ b) = String.length a + String.length b.
Proof.
  induction a as [|x a IH]; [done|]. rewrite string_cons_app. simpl. by rewrite IH.
Qed.

(** The parts around the last occurrence of a byte ([strings.LastIndex]). *)
Fixpoint CutLast (s : string) (sep : ascii) : option (string * string) :=
  match s with
  | EmptyString => None
  | String a s' =>
      match CutLast s' sep with
      | Some (l, r) => Some (String a l, r)
      | None => if decide (a = sep) then Some (EmptyString, s') else None
      end
  end.

Lemma CutLast_app l r sep :
  CutLast r sep = None → CutLast (l +:+ String sep r) sep = Some (l, r).
Proof.
  intros Hr. induction l as [|a l IH].
  - change (CutLast (String sep r) sep = Some (EmptyString, r)). simpl. rewrite Hr.
    by rewrite decide_True.
  - rewrite string_cons_app. simpl. by rewrite IH.
Qed.

(** Go's [<] on strings is bytewise. *)
Definition str_ltb (a b : string) : bool := String.ltb a b.

Lemma str_compare_refl a : String.compare a a = Eq.
Proof.
  pose proof (String.compare_antisym a a) as H.
  destruct (String.compare a a); simpl in H; congruence.
Qed.

Lemma str_ltb_le a b : str_ltb a b = true ↔ String.le a b ∧ a ≠ b.
Proof.
  unfold str_ltb, String.ltb, String.le, String.leb.
  destruct (String.compare a b) eqn:E; simpl.
  - apply String.compare_eq_iff in E as ->. split; [done|]. by intros [_ ?].
  - split; [|done]. intros _. split; [done|]. intros ->.
    by rewrite str_compare_refl in E.
  - split; [done|]. by intros [? _].
Qed.

Lemma str_ltb_irrefl a : str_ltb a a = false.
Proof. apply not_true_is_false. intros [_ ?]%str_ltb_le. done. Qed.

Lemma str_ltb_trans a b c :
  str_ltb a b = true → str_ltb b c = true → str_ltb a c = true.
Proof.
  rewrite !str_ltb_le. intros [H1 N1] [H2 N2]. split; [by etrans|].
  intros ->. apply N1. by apply (anti_symm String.le).
Qed.

Lemma str_ltb_total a b : a ≠ b → str_ltb a b = negb (str_ltb b a).
Proof.
  intros Hne. destruct (str_ltb b a) eqn:E; simpl.
  - apply not_true_is_false. intros H. apply (str_ltb_trans _ _ a) in H; [|done].
    by rewrite str_ltb_irrefl in H.
  - apply str_ltb_le. split; [|done].
    destruct (total String.le a b) as [|Hba]; [done|].
    assert (str_ltb b a = true) by (by apply str_ltb_le). congruence.
Qed.

(** [slices.Sort], [slices.Compact] and the pair of them on string slices. *)
Definition SortStrings (l : list string) : list string := merge_sort String.le l.

Fixpoint Compact (l : list string) : list string :=
  match l with
  | a :: (b :: _) as t => if decide (a = b) then Compact t else a :: Compact t
  | _ => l
  end.

Lemma SortStrings_perm l : SortStrings l ≡ₚ l.
Proof. apply merge_sort_Permutation. Qed.

Lemma SortStrings_sorted l : Sorted String.le (SortStrings l).
Proof. apply Sorted_merge_sort, _. Qed.

Lemma elem_of_SortStrings x l : x ∈ SortStrings l ↔ x ∈ l.
Proof. by rewrite SortStrings_perm. Qed.

(** Sorting forgets the order its input arrives in: a Go map's iteration
    order cannot show through it. *)
Lemma SortStrings_Permutation l1 l2 : l1 ≡ₚ l2 → SortStrings l1 = SortStrings l2.
Proof.
  intros H. apply (Sorted_unique String.le); try apply SortStrings_sorted.
  by rewrite !SortStrings_perm.
Qed.

Lemma elem_of_Compact x l : x ∈ Compact l ↔ x ∈ l.
Proof.
  induction l as [|a l IH]; [done|].
  destruct l as [|b l]; [done|]. change (x ∈ (if decide (a = b) then Compact (b :: l)
    else a :: Compact (b :: l)) ↔ x ∈ a :: b :: l).
  case_decide; [subst|]; rewrite ?elem_of_cons, IH, ?elem_of_cons; tauto.
Qed.

Lemma HdRel_Compact x l : HdRel String.le x l → HdRel String.le x (Compact l).
Proof.
  revert x. induction l as [|a l IH]; intros x H; [done|].
  destruct l as [|b l]; [done|]. simpl. inv H. case_decide; [subst; apply IH|];
    by constructor.
Qed.

Lemma Compact_sorted l :
  Sorted String.le l → Sorted String.le (Compact l) ∧ NoDup (Compact l).
Proof.
  intros Hs. apply Sorted_StronglySorted in Hs; [|apply _].
  enough (StronglySorted String.le (Compact l) ∧ NoDup (Compact l)) as [??]
    by eauto using StronglySorted_Sorted.
  induction Hs as [|a l Hs [IH1 IH2] Hall]; [split; constructor|].
  destruct l as [|b l]; [repeat constructor; set_solver|].
  change (Compact (a :: b :: l)) with
    (if decide (a = b) then Compact (b :: l) else a :: Compact (b :: l)).
  case_decide as Hab; [done|]. split.
  - constructor; [done|]. apply Forall_forall. intros y.
    rewrite elem_of_Compact. by apply Forall_forall.
  - constructor; [|done]. rewrite elem_of_Compact. intros Hin. apply Hab.
    apply StronglySorted_cons in Hs as [Hs' _].
    apply (anti_symm String.le); [apply Forall_cons in Hall; tauto|].
    apply elem_of_cons in Hin as [->|Hin]; [done|].
    rewrite Forall_forall in Hs'. auto.
Qed.

(** Two sorted duplicate-free slices with the same elements are equal. *)
Lemma sorted_nodup_ext l1 l2 :
  Sorted String.le l1 → NoDup l1 → Sorted String.le l2 → NoDup l2 →
  (∀ x, x ∈ l1 ↔ x ∈ l2) → l1 = l2.
Proof.
  intros. apply (Sorted_unique String.le); try done. by apply NoDup_Permutation.
Qed.

(** [slices.Contains] *)
Definition contains (l : list string) (x : string) : bool := bool_decide (x ∈ l).

Lemma contains_spec l x : contains l x = true ↔ x ∈ l.
Proof. apply bool_decide_eq_true. Qed.
Lemma contains_false l x : contains l x = false ↔ x ∉ l.
Proof. apply bool_decide_eq_false. Qed.

Lemma contains_ext l1 l2 x : (x ∈ l1 ↔ x ∈ l2) → contains l1 x = contains l2 x.
Proof. apply bool_decide_ext. Qed.

(** ** Time

    [time.Time] is the number of nanoseconds since Go's zero time
    (January 1, year 1, UTC), so the zero value is [0]; a location changes
    no comparison, and [UTC()] is the identity.  [time.Duration] is a number of
    nanoseconds. *)

Abbreviation time := Z (only parsing).
Abbreviation duration := Z (only parsing).

Definition zero_time : time := 0%Z.
Definition IsZero (t : time) : bool := (t =? 0)%Z.
Definition Before (a b : time) : bool := (a <? b)%Z.
Definition After (a b : time) : bool := (b <? a)%Z.
Definition Equal (a b : time) : bool := (a =? b)%Z.
Definition Millisecond : duration := 1000000%Z.
Definition Second : duration := (1000 * Millisecond)%Z.
Definition Minute : duration := (60 * Second)%Z.
Definition Hour : duration := (60 * Minute)%Z.
(** [Truncate] rounds down to a multiple of [d] since the zero time. *)
Definition Truncate (t : time) (d : duration) : time := (t - t mod d)%Z.

(** [Sub] saturates at the range of an int64 duration. *)
Definition Sub (a b : time) : duration :=
  Z.max (- 2 ^ 63) (Z.min (2 ^ 63 - 1) (a - b)).

Lemma Truncate_idem t d : (0 < d)%Z → Truncate (Truncate t d) d = Truncate t d.
Proof.
  intros Hd. unfold Truncate.
  assert ((t - t mod d) mod d = 0)%Z as ->; [|lia].
  rewrite Zminus_mod_idemp_r, Z.sub_diag. apply Z.mod_0_l. lia.
Qed.

Lemma Truncate_le t d : (0 < d)%Z → (Truncate t d ≤ t < Truncate t d + d)%Z.
Proof.
  intros Hd. unfold Truncate. pose proof (Z.mod_pos_bound t d Hd). lia.
Qed.

Lemma Truncate_mono a b d : (0 < d → a ≤ b → Truncate a d ≤ Truncate b d)%Z.
Proof.
  intros Hd Hab. unfold Truncate. rewrite !Z.mod_eq by lia.
  pose proof (Z.div_le_mono a b d Hd Hab). nia.
Qed.

(** ** Dynamic values: Go's [any]

    The dynamic types the sources switch on.  [AInt w] and [AUint w] are the
    signed and unsigned integer types, [w] being the width ([0] for [int] and
    [uint]); floats are IEEE values; [AOther] stands for a value of any other
    dynamic type, given by its [fmt.Sprint] text. *)
Inductive any : Type :=
  | ANil
  | ABool (b : bool)
  | AInt (w : N) (z : Z)
  | AUint (w : N) (z : Z)
  | AFloat (w : N) (f : spec_float)
  | AString (s : string)
  | ABytes (b : bytes)
  | ATime (t : time)
  | AList (l : list any)
  | AMap (m : list (string * any))
  | AOther (text : string).

(** ** Slices of strings deduplicated through a Go map *)

(** [strings.Split(s, sep)] for a one-byte separator. *)
Fixpoint Split (s : string) (sep : ascii) : list string :=
  match s with
  | EmptyString => [EmptyString]
  | String a s =>
      if decide (a = sep) then EmptyString :: Split s sep
      else match Split s sep with
           | [] => [String a EmptyString]
           | w :: ws => String a w :: ws
           end
  end.

Definition lower_ascii (a : ascii) : ascii :=
  if byte_in 65 90 a then ascii_of_N (N_of_ascii a + 32) else a.
Fixpoint lower_ascii_string (s : string) : string :=
  match s with
  | EmptyString => EmptyString
  | String a s => String (lower_ascii a) (lower_ascii_string s)
  end.

(** Sorting survives a map that respects the order on the elements at hand. *)
Lemma Sorted_map {A B} (R : relation A) (S : relation B) (f : A → B) l :
  (∀ a b, a ∈ l → b ∈ l → R a b → S (f a) (f b)) → Sorted R l → Sorted S (map f l).
Proof.
  intros HRS Hs. induction Hs as [|a l Hs IH Hd]; simpl; constructor.
  - apply IH. intros x y Hx Hy. apply HRS; by right.
  - destruct Hd as [|b l Hab]; simpl; constructor. apply HRS; [by left|by right; left|done].
Qed.

(** [strings.Cut(s, sep)] for a one-byte separator; [None] when it does not occur. *)
Fixpoint Cut (s : string) (sep : ascii) : option (string * string) :=
  match s with
  | EmptyString => None
  | String a s' =>
      if decide (a = sep) then Some (EmptyString, s')
      else match Cut s' sep with
           | Some (l, r) => Some (String a l, r)
           | None => None
           end
  end.

(** [strings.Contains(s, c)] for a one-byte string, [strings.ContainsAny(s, chars)]
    for ASCII characters, and [strings.HasSuffix(s, c)] for a one-byte string. *)
Fixpoint has_byte (s : string) (c : ascii) : bool :=
  match s with
  | EmptyString => false
  | String a s' => bool_decide (a = c) || has_byte s' c
  end.
Definition ContainsAny (s chars : string) : bool :=
  existsb (has_byte s) (String.list_ascii_of_string chars).
Fixpoint ends_with (s : string) (c : ascii) : bool :=
  match s with
  | EmptyString => false
  | String a EmptyString => bool_decide (a = c)
  | String _ s' => ends_with s' c
  end.

(** [strings.Fields]: the words between runs of white space. *)
Definition flush_word (word : bytes) : list string :=
  match word with [] => [] | _ => [String.string_of_list_ascii word] end.
Fixpoint fieldsLoop (l word : bytes) : list string :=
  match l with
  | [] => flush_word word
  | a :: l1 =>
      if space1 a then flush_word word ++ fieldsLoop l1 [] else
      match l1 with
      | [] => fieldsLoop l1 (word ++ [a])
      | b :: l2 =>
          if space2 a b then flush_word word ++ fieldsLoop l2 [] else
          match l2 with
          | [] => fieldsLoop l1 (word ++ [a])
          | c :: l3 => if space3 a b c then flush_word word ++ fieldsLoop l3 []
                       else fieldsLoop l1 (word ++ [a])
          end
      end
  end.
Definition Fields (s : string) : list string := fieldsLoop (String.list_ascii_of_string s) [].

(** [strings.Join]. *)
Fixpoint Join (l : list string) (sep : string) : string :=
  match l with
  | [] => ""
  | [s] => s
  | s :: l => s +:+ sep +:+ Join l sep
  end.

Lemma Cut_spec s c :
  match Cut s c with
  | Some (l, r) => s = l +:+ String c r ∧ has_byte l c = false
  | None => has_byte s c = false
  end.
Proof.
  induction s as [|a s IH]; simpl; [done|].
  destruct (decide (a = c)) as [->|Hne]; [done|].
  destruct (Cut s c) as [[l r]|].
  - destruct IH as [-> Hl]. rewrite string_cons_app. split; [done|].
    simpl. by rewrite bool_decide_false.
  - by rewrite bool_decide_false.
Qed.

Lemma Cut_app l r c : has_byte l c = false → Cut (l +:+ String c r) c = Some (l, r).
Proof.
  induction l as [|a l IH]; intros H.
  - change (Cut (String c r) c = Some (EmptyString, r)). simpl. by rewrite decide_True.
  - rewrite string_cons_app. simpl in *. apply orb_false_iff in H as [Ha Hl].
    apply bool_decide_eq_false in Ha. rewrite decide_False by done. by rewrite IH.
Qed.

Lemma Cut_None s c : has_byte s c = false → Cut s c = None.
Proof.
  intros H. pose proof (Cut_spec s c) as Hs. destruct (Cut s c) as [[l r]|]; [|done].
  destruct Hs as [-> _]. exfalso. clear -H. induction l as [|a l IH].
  - change (bool_decide (c = c) || has_byte r c = false) in H.
    by rewrite bool_decide_true in H.
  - rewrite string_cons_app in H. simpl in H. apply orb_false_iff in H as [_ H]. auto.
Qed.

(** ** Automation shared by the components *)

(** Split a boolean condition of the code into propositions. *)
Ltac bool_props :=
  repeat match goal with
  | H : _ && _ = true |- _ => apply andb_true_iff in H as [? ?]
  | H : _ || _ = false |- _ => apply orb_false_iff in H as [? ?]
  | H : negb _ = true |- _ => apply negb_true_iff in H
  | H : negb _ = false |- _ => apply negb_false_iff in H
  | H : bool_decide _ = true |- _ => apply bool_decide_eq_true in H
  | H : bool_decide _ = false |- _ => apply bool_decide_eq_false in H
  | H : contains _ _ = true |- _ => apply contains_spec in H
  | H : contains _ _ = false |- _ => apply contains_false in H
  end.

(** Case on the scrutinee of the outermost [if] of the goal. *)
Ltac case_if :=
  match goal with
  | |- context [if ?c then _ else _] => destruct c eqn:?
  end.

Create HintDb gestalt.
Create Rewrite HintDb gestalt.
#[export] Hint Rewrite TrimSpace_idem : gestalt.
#[export] Hint Resolve SortStrings_sorted trimmed_TrimSpace : gestalt.
