(* ===== verification/Catalog.v ===== *)
(** * Catalog: the operations an app exposes

    Models [gestaltd/core/catalog/catalog.go]: the catalog records, the
    exposure predicates, tag merging, cloning and the two validators.
    [strings.ToLower] needs the Unicode case tables, so it is the variable
    [ToLower] of the sections that use it and their theorems hold for every
    such function. *)

From stdpp Require Import base gmap strings list sorting sets.
From Stdlib Require Import ZArith Ascii Lia.
From S2P Require Import Prelude.

Set Default Goal Selector "!".

Module Catalog.

(** ** Data *)

(** [APIExposureMode] is a Go string type: a value outside the three constants
    is representable, and the validators reject it. *)
Definition APIExposureMode := string.
Definition APIExposurePublic : APIExposureMode := "true".
Definition APIExposurePrivate : APIExposureMode := "false".
Definition APIExposureBrowserSession : APIExposureMode := "browserSession".

Definition IsBrowserSession (m : APIExposureMode) : bool :=
  bool_decide (m = APIExposureBrowserSession).
Definition IsPublic (m : APIExposureMode) : bool :=
  bool_decide (m = APIExposurePublic) || bool_decide (m = APIExposureBrowserSession).

Record UnaryResponseSpec := { unary_Schema : option string }.
Record StreamResponseSpec := {
  stream_MediaType : string;
  stream_ItemSchema : option string }.
Record OperationResponseSpec := {
  resp_Unary : option UnaryResponseSpec;
  resp_Stream : option StreamResponseSpec }.

Definition IsStream (r : option OperationResponseSpec) : bool :=
  match r with
  | None => false
  | Some r => match resp_Stream r with Some _ => true | None => false end
  end.

Record CapabilityAnnotations := {
  ReadOnlyHint : option bool;
  IdempotentHint : option bool;
  DestructiveHint : option bool;
  OpenWorldHint : option bool }.

Record CatalogParameter := {
  param_Name : string;
  param_WireName : string;
  param_Type : string;
  param_Location : string;
  param_Description : string;
  param_Required : bool;
  param_Internal : bool;
  param_Default : any }.

Record CatalogOperation := {
  op_ID : string;
  op_ProviderID : string;
  op_Method : string;
  op_Path : string;
  op_Title : string;
  op_Description : string;
  op_InputSchema : option string;
  op_OutputSchema : option string;
  op_Response : option OperationResponseSpec;
  op_Annotations : CapabilityAnnotations;
  op_AllowedRoles : list string;
  op_Parameters : list CatalogParameter;
  op_RequiredScopes : list string;
  op_Tags : list string;
  op_ReadOnly : bool;
  op_Visible : option bool;
  op_API : option APIExposureMode;
  op_MCP : option bool;
  op_Transport : string;
  op_Query : string;
  op_OperationName : string }.

Record Catalog := {
  cat_Name : string;
  cat_DisplayName : string;
  cat_Description : string;
  cat_IconSVG : string;
  cat_BaseURL : string;
  cat_AuthStyle : string;
  cat_Headers : gmap string string;
  cat_Operations : list CatalogOperation }.

Definition no_annotations : CapabilityAnnotations :=
  {| ReadOnlyHint := None; IdempotentHint := None;
     DestructiveHint := None; OpenWorldHint := None |}.

(** The zero value [CatalogOperation{}] with an id. *)
Definition zero_operation (id : string) : CatalogOperation :=
  {| op_ID := id; op_ProviderID := ""; op_Method := ""; op_Path := "";
     op_Title := ""; op_Description := ""; op_InputSchema := None;
     op_OutputSchema := None; op_Response := None;
     op_Annotations := no_annotations; op_AllowedRoles := [];
     op_Parameters := []; op_RequiredScopes := []; op_Tags := [];
     op_ReadOnly := false; op_Visible := None; op_API := None; op_MCP := None;
     op_Transport := ""; op_Query := ""; op_OperationName := "" |}.

Definition set_AllowedRoles (o : CatalogOperation) (roles : list string) :=
  {| op_ID := op_ID o; op_ProviderID := op_ProviderID o; op_Method := op_Method o;
     op_Path := op_Path o; op_Title := op_Title o;
     op_Description := op_Description o; op_InputSchema := op_InputSchema o;
     op_OutputSchema := op_OutputSchema o; op_Response := op_Response o;
     op_Annotations := op_Annotations o; op_AllowedRoles := roles;
     op_Parameters := op_Parameters o; op_RequiredScopes := op_RequiredScopes o;
     op_Tags := op_Tags o; op_ReadOnly := op_ReadOnly o;
     op_Visible := op_Visible o; op_API := op_API o; op_MCP := op_MCP o;
     op_Transport := op_Transport o; op_Query := op_Query o;
     op_OperationName := op_OperationName o |}.

Definition set_Operations (c : Catalog) (ops : list CatalogOperation) : Catalog :=
  {| cat_Name := cat_Name c; cat_DisplayName := cat_DisplayName c;
     cat_Description := cat_Description c; cat_IconSVG := cat_IconSVG c;
     cat_BaseURL := cat_BaseURL c; cat_AuthStyle := cat_AuthStyle c;
     cat_Headers := cat_Headers c; cat_Operations := ops |}.

(** ** Exposure predicates and lookup *)

Definition OperationVisibleByDefault (o : CatalogOperation) : bool :=
  match op_Visible o with None => true | Some v => v end.

Definition OperationExposedOnAPI (o : CatalogOperation) : bool :=
  OperationVisibleByDefault o &&
  match op_API o with None => true | Some m => IsPublic m end.

Definition OperationExposedOnMCP (o : CatalogOperation) : bool :=
  OperationVisibleByDefault o &&
  match op_MCP o with None => true | Some b => b end.

Definition OperationIsReadOnly (o : CatalogOperation) : bool :=
  if op_ReadOnly o then true
  else match ReadOnlyHint (op_Annotations o) with None => false | Some b => b end.

Definition OperationByID (cat : option Catalog) (id : string) : option CatalogOperation :=
  match cat with
  | None => None
  | Some c =>
      if decide (TrimSpace id = "") then None
      else List.find (λ o, bool_decide (op_ID o = id)) (cat_Operations c)
  end.

(** [CloneCapabilityAnnotations] and [Clone] copy every slice and pointer;
    on immutable values a copy is the value itself, and only the nil headers
    map becomes an empty one, which [gmap] does not distinguish. *)
Definition CloneCapabilityAnnotations (a : CapabilityAnnotations) : CapabilityAnnotations :=
  {| ReadOnlyHint := ReadOnlyHint a; IdempotentHint := IdempotentHint a;
     DestructiveHint := DestructiveHint a; OpenWorldHint := OpenWorldHint a |}.

Definition cloneOperationResponseSpec (spec : option OperationResponseSpec)
    : option OperationResponseSpec :=
  match spec with
  | None => None
  | Some r =>
      Some {| resp_Unary :=
                (λ u, {| unary_Schema := unary_Schema u |}) <$> resp_Unary r;
              resp_Stream :=
                (λ s, {| stream_MediaType := stream_MediaType s;
                         stream_ItemSchema := stream_ItemSchema s |}) <$> resp_Stream r |}
  end.

(** ** Validation *)

Inductive CatalogError : Type :=
  | ErrNilCatalog
  | ErrNameRequired
  | ErrNoOperations (name : string)
  | ErrAuthStyle (name style : string)
  | ErrInvalidMode (name op mode : string)
  | ErrEmptyOperationID (name : string)
  | ErrInvalidOperationID (name op : string)
  | ErrDuplicateOperation (name op : string)
  | ErrEmptyParameterName (name op : string)
  | ErrMissingParameterType (name op param : string)
  | ErrEmptyRole (name op : string)
  | ErrDuplicateParameter (name op param : string).

Definition word_char (a : ascii) : bool :=
  byte_in 97 122 a || byte_in 65 90 a || byte_in 48 57 a || byte_is 95 a.

Definition segment_char (a : ascii) : bool := word_char a || byte_is 45 a.

(** The regular expression [validSegment]: one word character, or a word
    character, any number of word characters and hyphens, and a word
    character. *)
Definition validSegment (s : string) : bool :=
  match String.list_ascii_of_string s with
  | [] => false
  | a :: l =>
      word_char a &&
      match last l with
      | None => true
      | Some z => forallb segment_char l && word_char z
      end
  end.

Definition validateOperationID (id : string) : bool :=
  forallb validSegment (Split id ".").

Definition validateAPIExposureMode (name : string) (o : CatalogOperation)
    : result CatalogError unit :=
  match op_API o with
  | Some m =>
      if bool_decide (m ≠ APIExposurePublic) && bool_decide (m ≠ APIExposurePrivate)
         && bool_decide (m ≠ APIExposureBrowserSession)
      then Err (ErrInvalidMode name (op_ID o) m) else Ok tt
  | None => Ok tt
  end.

(** The loop over one operation's parameters in [Validate]. *)
Definition validateParameter (name op : string) (p : CatalogParameter)
    : result CatalogError unit :=
  if decide (TrimSpace (param_Name p) = "") then Err (ErrEmptyParameterName name op)
  else if decide (TrimSpace (param_Type p) = "")
       then Err (ErrMissingParameterType name op (param_Name p))
       else Ok tt.

(** The loop that rewrites [op.AllowedRoles] in place.  [kept] is the part of
    the backing array written so far ([roles]); on an empty entry the loop
    leaves the slice with [kept] over the first entries and the rest as it
    was. *)
Fixpoint normalizeRoles (all : list string) (seen : gset string)
    (kept todo : list string) : list string * bool :=
  match todo with
  | [] => (kept, true)
  | role :: todo =>
      let r := TrimSpace role in
      if decide (r = "") then (kept ++ drop (length kept) all, false)
      else if decide (r ∈ seen) then normalizeRoles all seen kept todo
      else normalizeRoles all ({[r]} ∪ seen) (kept ++ [r]) todo
  end.

Definition validateRoles (name : string) (o : CatalogOperation)
    : CatalogOperation * result CatalogError unit :=
  match op_AllowedRoles o with
  | [] => (o, Ok tt)
  | roles =>
      let '(roles', ok) := normalizeRoles roles ∅ [] roles in
      (set_AllowedRoles o roles',
       if ok then Ok tt else Err (ErrEmptyRole name (op_ID o)))
  end.

(** One iteration of [Validate]'s loop over the operations. *)
Definition validateOperation (name : string) (seen : gset string) (o : CatalogOperation)
    : CatalogOperation * result CatalogError unit :=
  match validateAPIExposureMode name o with
  | Err e => (o, Err e)
  | Ok _ =>
      if decide (TrimSpace (op_ID o) = "") then (o, Err (ErrEmptyOperationID name))
      else if negb (validateOperationID (op_ID o))
      then (o, Err (ErrInvalidOperationID name (op_ID o)))
      else if decide (op_ID o ∈ seen)
      then (o, Err (ErrDuplicateOperation name (op_ID o)))
      else match each (validateParameter name (op_ID o)) (op_Parameters o) with
           | Err e => (o, Err e)
           | Ok _ => validateRoles name o
           end
  end.

Fixpoint validateOperations (name : string) (seen : gset string)
    (ops : list CatalogOperation) : list CatalogOperation * result CatalogError unit :=
  match ops with
  | [] => ([], Ok tt)
  | o :: ops =>
      match validateOperation name seen o with
      | (o', Err e) => (o' :: ops, Err e)
      | (o', Ok _) =>
          let '(ops', r) := validateOperations name ({[op_ID o]} ∪ seen) ops in
          (o' :: ops', r)
      end
  end.

Section with_lower.
  Context (ToLower : string → string).

(** The inner loop of [MergeTags], over the concatenation of its groups. *)
Fixpoint mergeTagsLoop (seen : gset string) (tags : list string) : list string :=
  match tags with
  | [] => []
  | t :: tags =>
      let t := TrimSpace t in
      if decide (t = "") then mergeTagsLoop seen tags
      else if decide (ToLower t ∈ seen) then mergeTagsLoop seen tags
      else t :: mergeTagsLoop ({[ToLower t]} ∪ seen) tags
  end.

Definition MergeTags (groups : list (list string)) : list string :=
  mergeTagsLoop ∅ (concat groups).

Definition isValidAuthStyle (s : string) : bool :=
  contains [""; "bearer"; "raw"; "none"; "basic"] (ToLower (TrimSpace s)).

(** [Validate] returns its error and the catalog as its in-place edits leave
    it, on the error paths too. *)
Definition Validate (c : option Catalog) : option Catalog * result CatalogError unit :=
  match c with
  | None => (None, Err ErrNilCatalog)
  | Some c =>
      if decide (TrimSpace (cat_Name c) = "") then (Some c, Err ErrNameRequired)
      else if decide (cat_Operations c = [] :> list CatalogOperation)
      then (Some c, Err (ErrNoOperations (cat_Name c)))
      else if negb (isValidAuthStyle (cat_AuthStyle c))
      then (Some c, Err (ErrAuthStyle (cat_Name c) (cat_AuthStyle c)))
      else let '(ops, r) := validateOperations (cat_Name c) ∅ (cat_Operations c) in
           (Some (set_Operations c ops), r)
  end.
End with_lower.

(** [ValidateMCPCompat]: valid exposure modes and distinct parameter names. *)
Fixpoint checkDistinctParameters (name op : string) (seen : gset string)
    (ps : list CatalogParameter) : result CatalogError unit :=
  match ps with
  | [] => Ok tt
  | p :: ps =>
      if decide (param_Name p ∈ seen)
      then Err (ErrDuplicateParameter name op (param_Name p))
      else checkDistinctParameters name op ({[param_Name p]} ∪ seen) ps
  end.

Definition ValidateMCPCompat (c : Catalog) : result CatalogError unit :=
  each (λ o, let! _ := validateAPIExposureMode (cat_Name c) o in
             checkDistinctParameters (cat_Name c) (op_ID o) ∅ (op_Parameters o))
       (cat_Operations c).

Definition Clone (c : Catalog) : Catalog :=
  {| cat_Name := cat_Name c; cat_DisplayName := cat_DisplayName c;
     cat_Description := cat_Description c; cat_IconSVG := cat_IconSVG c;
     cat_BaseURL := cat_BaseURL c; cat_AuthStyle := cat_AuthStyle c;
     cat_Headers := map_fold (λ k v m, <[k := v]> m) ∅ (cat_Headers c);
     cat_Operations :=
       (λ o, {| op_ID := op_ID o; op_ProviderID := op_ProviderID o;
                op_Method := op_Method o; op_Path := op_Path o;
                op_Title := op_Title o; op_Description := op_Description o;
                op_InputSchema := op_InputSchema o;
                op_OutputSchema := op_OutputSchema o;
                op_Response := cloneOperationResponseSpec (op_Response o);
                op_Annotations := CloneCapabilityAnnotations (op_Annotations o);
                op_AllowedRoles := op_AllowedRoles o;
                op_Parameters := op_Parameters o;
                op_RequiredScopes := op_RequiredScopes o; op_Tags := op_Tags o;
                op_ReadOnly := op_ReadOnly o; op_Visible := op_Visible o;
                op_API := op_API o; op_MCP := op_MCP o;
                op_Transport := op_Transport o; op_Query := op_Query o;
                op_OperationName := op_OperationName o |}) <$> cat_Operations c |}.

Lemma cloneOperationResponseSpec_id r : cloneOperationResponseSpec r = r.
Proof. by destruct r as [[[[]|] [[]|]]|]. Qed.

Lemma Clone_id c : Clone c = c.
Proof.
  destruct c as [n dn d i b a h ops]. unfold Clone. simpl. f_equal.
  - apply (map_fold_weak_ind (λ r m, r = m)); [done|]. by intros ? ? ? ? _ ->.
  - induction ops as [|[] ops IH]; [done|]. simpl. f_equal; [|done].
    f_equal; [apply cloneOperationResponseSpec_id|].
    by match goal with a : CapabilityAnnotations |- _ => destruct a end.
Qed.

(** ** What a valid catalog is *)

Definition mode_ok (o : CatalogOperation) : Prop :=
  match op_API o with
  | None => True
  | Some m => m = APIExposurePublic ∨ m = APIExposurePrivate ∨ m = APIExposureBrowserSession
  end.

Record operation_ok (o : CatalogOperation) : Prop := {
  ok_mode : mode_ok o;
  ok_id : TrimSpace (op_ID o) ≠ "";
  ok_segments : ∀ seg, seg ∈ Split (op_ID o) "." → validSegment seg = true;
  ok_params : ∀ p, p ∈ op_Parameters o →
                TrimSpace (param_Name p) ≠ "" ∧ TrimSpace (param_Type p) ≠ "";
  ok_roles : ∀ r, r ∈ op_AllowedRoles o → TrimSpace r ≠ "" }.

Record catalog_ok (ToLower : string → string) (c : Catalog) : Prop := {
  cok_name : TrimSpace (cat_Name c) ≠ "";
  cok_nonempty : cat_Operations c ≠ [];
  cok_auth : isValidAuthStyle ToLower (cat_AuthStyle c) = true;
  cok_ids : NoDup (op_ID <$> cat_Operations c);
  cok_ops : ∀ o, o ∈ cat_Operations c → operation_ok o }.

(** An allowed-roles list as a successful [Validate] leaves it. *)
Definition roles_normal (rs : list string) : Prop :=
  NoDup rs ∧ ∀ r, r ∈ rs → TrimSpace r = r ∧ r ≠ "".

Lemma validateAPIExposureMode_ok name o :
  validateAPIExposureMode name o = Ok tt ↔ mode_ok o.
Proof.
  unfold validateAPIExposureMode, mode_ok. destruct (op_API o) as [m|]; [|done].
  repeat case_bool_decide; simpl; naive_solver.
Qed.

Lemma validateParameter_ok name op p :
  validateParameter name op p = Ok tt ↔
  TrimSpace (param_Name p) ≠ "" ∧ TrimSpace (param_Type p) ≠ "".
Proof. unfold validateParameter. repeat case_decide; naive_solver. Qed.

(** The role loop succeeds exactly when no entry is blank, and then it keeps
    the trimmed entries once each. *)
Lemma normalizeRoles_spec all seen kept todo rs ok :
  normalizeRoles all seen kept todo = (rs, ok) →
  (∀ r, r ∈ seen ↔ r ∈ kept) → roles_normal kept →
  (ok = true ↔ ∀ r, r ∈ todo → TrimSpace r ≠ "") ∧
  (ok = true → roles_normal rs ∧
     ∀ r, r ∈ rs ↔ r ∈ kept ∨ ∃ t, t ∈ todo ∧ TrimSpace t = r).
Proof.
  revert seen kept. induction todo as [|t todo IH]; intros seen kept Heq Hseen Hk.
  { injection Heq as <- <-. split; [set_solver|]. intros _. split; [done|set_solver]. }
  simpl in Heq. case_decide as Ht.
  { injection Heq as <- <-. split; [|done]. split; [done|]. set_solver. }
  case_decide as Hin.
  - destruct (IH _ _ Heq Hseen Hk) as [Hok Hrs]. split; [set_solver|].
    intros H%Hrs. destruct H as [? Hmem]. split; [done|]. intros r.
    rewrite Hmem. set_solver.
  - destruct (IH _ _ Heq) as [Hok Hrs]; [set_solver|..].
    { destruct Hk as [Hnd Hk]. split.
      - apply NoDup_app. split; [done|]. split; [set_solver|]. apply NoDup_singleton.
      - intros r [?| ->%list_elem_of_singleton]%elem_of_app; [by apply Hk|].
        by rewrite TrimSpace_idem. }
    split; [set_solver|]. intros H%Hrs. destruct H as [? Hmem]. split; [done|].
    intros r. rewrite Hmem. set_solver.
Qed.

(** On roles that are already normal the loop changes nothing. *)
Lemma normalizeRoles_stable all seen kept todo :
  (∀ r, r ∈ seen → r ∉ todo) → roles_normal todo →
  normalizeRoles all seen kept todo = (kept ++ todo, true).
Proof.
  revert seen kept. induction todo as [|t todo IH]; intros seen kept Hseen [Hnd Hn].
  { by rewrite app_nil_r. }
  simpl. apply NoDup_cons in Hnd as [Hnt Hnd].
  destruct (Hn t) as [-> Hne]; [set_solver|].
  rewrite decide_False by done. rewrite decide_False by set_solver.
  rewrite IH; [by rewrite <-app_assoc|set_solver|]. split; [done|set_solver].
Qed.

Lemma validateRoles_id name o : op_ID (validateRoles name o).1 = op_ID o.
Proof.
  unfold validateRoles. destruct (op_AllowedRoles o); [done|].
  by destruct (normalizeRoles _ _ _ _).
Qed.

Lemma validateRoles_spec name o o' r :
  validateRoles name o = (o', r) →
  (r = Ok tt ↔ ∀ x, x ∈ op_AllowedRoles o → TrimSpace x ≠ "") ∧
  (r = Ok tt → o' = set_AllowedRoles o (op_AllowedRoles o') ∧
     roles_normal (op_AllowedRoles o') ∧
     ∀ x, x ∈ op_AllowedRoles o' ↔ ∃ t, t ∈ op_AllowedRoles o ∧ TrimSpace t = x).
Proof.
  unfold validateRoles. destruct (op_AllowedRoles o) as [|r0 rs] eqn:Eo.
  { intros [= <- <-]. split; [set_solver|]. intros _.
    rewrite Eo. split; [by destruct o; simpl in *; subst|].
    split; [split; [constructor|set_solver]|set_solver]. }
  destruct (normalizeRoles (r0 :: rs) ∅ [] (r0 :: rs)) as [rs' ok] eqn:En.
  intros [= <- <-].
  destruct (normalizeRoles_spec _ _ _ _ _ _ En) as [Hok Hrs];
    [set_solver|split; [constructor|set_solver]|].
  destruct ok; (split; [rewrite <-Hok; naive_solver|]); [|done].
  intros _. destruct Hrs as [? Hm]; [done|]. simpl. split_and!; [done..|].
  intros x. rewrite Hm. set_solver.
Qed.

Lemma validateOperation_spec name seen o o' r :
  validateOperation name seen o = (o', r) →
  (r = Ok tt ↔ operation_ok o ∧ op_ID o ∉ seen) ∧
  (r = Ok tt → o' = set_AllowedRoles o (op_AllowedRoles o') ∧
     roles_normal (op_AllowedRoles o')).
Proof.
  unfold validateOperation.
  destruct (validateAPIExposureMode name o) as [[]|e] eqn:Em.
  2: { intros [= <- <-]. split; [|done]. split; [done|].
       intros [[Hm _ _ _ _] _]. apply (validateAPIExposureMode_ok name) in Hm. congruence. }
  apply validateAPIExposureMode_ok in Em.
  case_decide as Hid.
  { intros [= <- <-]. split; [|done]. split; [done|]. by intros [[] _]. }
  assert (Hseg : validateOperationID (op_ID o) = true ↔
    ∀ seg, seg ∈ Split (op_ID o) "." → validSegment seg = true).
  { unfold validateOperationID. rewrite forallb_forall.
    setoid_rewrite <-list_elem_of_In. done. }
  destruct (validateOperationID (op_ID o)) eqn:Ev; simpl.
  2: { intros [= <- <-]. split; [|done]. split; [done|].
       intros [[_ _ Hs _ _] _]. apply Hseg in Hs. congruence. }
  case_decide as Hin.
  { intros [= <- <-]. split; [|done]. split; [done|]. by intros [_ ?]. }
  destruct (each (validateParameter name (op_ID o)) (op_Parameters o)) as [[]|e] eqn:Ep.
  - rewrite each_ok in Ep. setoid_rewrite validateParameter_ok in Ep.
    intros [H1 H2]%validateRoles_spec.
    split; [|intros Hr; by destruct (H2 Hr) as (?&?&_)].
    rewrite H1. split; [|by intros [[] _]]. intros Hr. split; [|done].
    split; try done. by apply Hseg.
  - intros [= <- <-]. split; [|done]. split; [done|]. intros [[_ _ _ Hp _] _].
    apply each_err in Ep as (l1 & p & l2 & Hps & Herr & _).
    assert (validateParameter name (op_ID o) p = Ok tt); [|congruence].
    apply validateParameter_ok, Hp. rewrite Hps. set_solver.
Qed.

Lemma validateOperations_spec name seen ops ops' r :
  validateOperations name seen ops = (ops', r) →
  (r = Ok tt ↔ (∀ o, o ∈ ops → operation_ok o) ∧ NoDup (op_ID <$> ops) ∧
               ∀ o, o ∈ ops → op_ID o ∉ seen) ∧
  (r = Ok tt → Forall2 (λ o o', o' = set_AllowedRoles o (op_AllowedRoles o') ∧
                                roles_normal (op_AllowedRoles o')) ops ops').
Proof.
  revert seen ops' r. induction ops as [|o ops IH]; intros seen ops' r; simpl.
  { intros [= <- <-]. split; [|by constructor].
    split; [|done]. intros _. split_and!; [set_solver|constructor|set_solver]. }
  destruct (validateOperation name seen o) as [o' [[]|e]] eqn:Eo.
  - apply validateOperation_spec in Eo as [[Hok _] Ho]; specialize (Hok eq_refl).
    specialize (Ho eq_refl).
    destruct (validateOperations name _ ops) as [ops1 r1] eqn:Er.
    intros [= <- <-]. apply IH in Er as [IHok IHf]. split.
    + rewrite IHok, NoDup_cons. split.
      * intros (Hops & Hnd & Hfresh). split_and!; [set_solver|..|set_solver].
        { intros (o1 & Hid & Hin)%list_elem_of_fmap. eapply Hfresh; [done|]. set_solver. }
        done.
      * intros (Hops & [Hni Hnd] & Hfresh). split_and!; [set_solver|done|].
        intros o1 Hin. rewrite elem_of_union, elem_of_singleton. intros [Heq|?].
        { apply Hni. rewrite <-Heq. by apply list_elem_of_fmap_2. }
        by apply (Hfresh o1); [set_solver|].
    + intros Hr. constructor; [done|]. by apply IHf.
  - apply validateOperation_spec in Eo as [Hok _]. intros [= <- <-].
    split; [|done]. split; [done|]. intros (Hops & _ & Hfresh).
    assert (@Err CatalogError unit e = Ok tt) by (apply Hok; set_solver). done.
Qed.

Lemma set_AllowedRoles_ok o rs :
  operation_ok o → roles_normal rs → operation_ok (set_AllowedRoles o rs).
Proof.
  intros [] [_ Hn]. split; try done. simpl. intros r [-> ?]%Hn. done.
Qed.

(** [Validate] is a decision procedure for [catalog_ok]: it returns no error on
    exactly the catalogs that satisfy it. *)
Lemma Validate_iff ToLower c c' r :
  Validate ToLower (Some c) = (Some c', r) → (r = Ok tt ↔ catalog_ok ToLower c).
Proof.
  unfold Validate. case_decide as Hn.
  { intros [= <- <-]. split; [done|]. by intros []. }
  case_decide as Ho. { intros [= <- <-]. split; [done|]. by intros []. }
  destruct (isValidAuthStyle ToLower (cat_AuthStyle c)) eqn:Ea; simpl.
  2: { intros [= <- <-]. split; [done|]. intros []. congruence. }
  destruct (validateOperations _ _ _) as [ops r1] eqn:E.
  intros [= <- <-]. apply validateOperations_spec in E as [Hok _]. rewrite Hok.
  split; [intros (?&?&?); by split|intros []; split_and!; set_solver].
Qed.

(** What a successful [Validate] leaves: the same operations, in order, with
    their role lists normal. *)
Lemma Validate_result ToLower c c' :
  Validate ToLower (Some c) = (Some c', Ok tt) →
  ∃ ops, c' = set_Operations c ops ∧
    Forall2 (λ o o', o' = set_AllowedRoles o (op_AllowedRoles o') ∧
                     roles_normal (op_AllowedRoles o')) (cat_Operations c) ops.
Proof.
  unfold Validate. repeat (case_decide; [done|]). case_if; [done|].
  destruct (validateOperations _ _ _) as [ops r1] eqn:E.
  intros [= <- ->]. apply validateOperations_spec in E as [_ Hf]. eauto.
Qed.

Lemma Forall2_ids ops ops' :
  Forall2 (λ o o', o' = set_AllowedRoles o (op_AllowedRoles o') ∧
                   roles_normal (op_AllowedRoles o')) ops ops' →
  op_ID <$> ops' = op_ID <$> ops.
Proof. induction 1 as [|o o' ops ops' [-> _] _ IH]; [done|]. by f_equal/=. Qed.

Lemma validateOperations_stable name seen ops :
  (∀ o, o ∈ ops → operation_ok o ∧ roles_normal (op_AllowedRoles o)) →
  NoDup (op_ID <$> ops) → (∀ o, o ∈ ops → op_ID o ∉ seen) →
  validateOperations name seen ops = (ops, Ok tt).
Proof.
  intros Hops Hnd Hseen.
  destruct (validateOperations name seen ops) as [ops' r] eqn:E.
  pose proof E as [Hok Hf]%validateOperations_spec.
  assert (r = Ok tt) as -> by (apply Hok; naive_solver). f_equal. clear Hok Hf.
  revert seen ops' Hnd Hseen E. induction ops as [|o ops IH]; simpl;
    intros seen ops' Hnd Hseen E; [congruence|].
  destruct (validateOperation name seen o) as [o' [[]|e]] eqn:Eo; [|congruence].
  destruct (validateOperations name _ ops) as [ops1 r1] eqn:E1.
  injection E as <- ->. f_equal.
  - revert Eo. unfold validateOperation. repeat case_match; try congruence.
    unfold validateRoles. destruct (op_AllowedRoles o) as [|r0 rs] eqn:Er; [congruence|].
    rewrite normalizeRoles_stable; [|set_solver|rewrite <-Er; apply Hops; set_solver].
    intros [= <-]. simpl. destruct o; simpl in *; by subst.
  - apply NoDup_cons in Hnd as [Hni Hnd].
    eapply IH; [intros o1 ?; apply Hops; by right|done| |done].
    intros o1 Hin. rewrite elem_of_union, elem_of_singleton. intros [Heq|?].
    { apply Hni. rewrite <-Heq. by apply list_elem_of_fmap_2. }
    by apply (Hseen o1); [set_solver|].
Qed.

(**  [Catalog.Validate] accepts exactly the catalogs that satisfy
    [catalog_ok] (a name, at least one operation, a known auth style, unique
    well-formed operation ids, valid exposure modes, named and typed parameters,
    no blank role).  On success the operations keep their ids and order, every
    role list is trimmed and duplicate-free, and validating the result again
    changes nothing. *)
Theorem Validate_correct ToLower c c' r :
  Validate ToLower (Some c) = (Some c', r) →
  (r = Ok tt ↔ catalog_ok ToLower c) ∧
  (r = Ok tt →
     catalog_ok ToLower c' ∧
     op_ID <$> cat_Operations c' = op_ID <$> cat_Operations c ∧
     (∀ o, o ∈ cat_Operations c' → roles_normal (op_AllowedRoles o)) ∧
     Validate ToLower (Some c') = (Some c', Ok tt)).
Proof.
  intros E. pose proof (Validate_iff _ _ _ _ E) as Hiff. split; [done|].
  intros ->. pose proof (proj1 Hiff eq_refl) as Hc.
  destruct (Validate_result _ _ _ E) as (ops & -> & Hf). simpl.
  assert (Hops : ∀ o, o ∈ ops → operation_ok o ∧ roles_normal (op_AllowedRoles o)).
  { intros o (i & Hi)%list_elem_of_lookup.
    destruct (Forall2_lookup_r _ _ _ _ _ Hf Hi) as (o0 & Ho0 & -> & Hr).
    split; [|done]. apply set_AllowedRoles_ok; [|done].
    eapply cok_ops; [done|]. by eapply list_elem_of_lookup_2. }
  pose proof (Forall2_ids _ _ Hf) as Hids.
  assert (Hnil : ops ≠ []).
  { intros ->. apply (cok_nonempty _ _ Hc). by apply Forall2_length, nil_length_inv in Hf. }
  assert (Hnd : NoDup (op_ID <$> ops)) by (rewrite Hids; apply Hc).
  split_and!; [|done|intros o Ho; by apply Hops|].
  - destruct Hc. split; simpl; try done. intros o Ho. by apply Hops.
  - unfold Validate. simpl. rewrite !decide_False by (done || apply Hc).
    rewrite (cok_auth _ _ Hc). simpl.
    rewrite validateOperations_stable; [done|done|done|set_solver].
Qed.

Definition sample_operation : CatalogOperation :=
  set_AllowedRoles (zero_operation "issues.list") ["admin"; " admin "; "viewer"].
Definition sample_catalog : Catalog :=
  {| cat_Name := "github"; cat_DisplayName := ""; cat_Description := "";
     cat_IconSVG := ""; cat_BaseURL := ""; cat_AuthStyle := " Bearer ";
     cat_Headers := ∅; cat_Operations := [sample_operation; zero_operation "repos.get"] |}.

Lemma Validate_correct_witness :
  ∃ c', Validate lower_ascii_string (Some sample_catalog) = (Some c', Ok tt) ∧
        catalog_ok lower_ascii_string c'.
Proof.
  eexists. split; [vm_compute; reflexivity|].
  eapply (Validate_correct lower_ascii_string sample_catalog); [vm_compute; reflexivity|done].
Defined.

(** ** Tags *)

Section tags.
  Context (ToLower : string → string).

Lemma mergeTagsLoop_spec seen tags :
  NoDup (ToLower <$> mergeTagsLoop ToLower seen tags) ∧
  (∀ t, t ∈ mergeTagsLoop ToLower seen tags →
     TrimSpace t = t ∧ t ≠ "" ∧ ToLower t ∉ seen ∧ ∃ u, u ∈ tags ∧ t = TrimSpace u) ∧
  (∀ u, u ∈ tags → TrimSpace u ≠ "" → ToLower (TrimSpace u) ∉ seen →
     ToLower (TrimSpace u) ∈ ToLower <$> mergeTagsLoop ToLower seen tags).
Proof.
  revert seen. induction tags as [|t tags IH]; intros seen; simpl.
  { split_and!; [constructor|set_solver|set_solver]. }
  case_decide as Ht; [|case_decide as Hin].
  - destruct (IH seen) as (H1 & H2 & H3). split_and!; [done|..].
    + intros x (?&?&?&u&?&?)%H2. split_and!; [done..|]. exists u. split; [by right|done].
    + intros u [->|Hu]%elem_of_cons; [done|by apply H3].
  - destruct (IH seen) as (H1 & H2 & H3). split_and!; [done|..].
    + intros x (?&?&?&u&?&?)%H2. split_and!; [done..|]. exists u. split; [by right|done].
    + intros u [->|Hu]%elem_of_cons; [done|by apply H3].
  - destruct (IH ({[ToLower (TrimSpace t)]} ∪ seen)) as (H1 & H2 & H3).
    split_and!.
    + simpl. apply NoDup_cons. split; [|done].
      intros (x & Hx & (_&_&Hn&_)%H2)%list_elem_of_fmap. set_solver.
    + intros x [->|Hx]%elem_of_cons.
      * split_and!; [apply TrimSpace_idem|done|done|]. exists t. split; [by left|done].
      * apply H2 in Hx as (?&?&?&u&?&?). split_and!; [done..|set_solver|].
        exists u. split; [by right|done].
    + intros u Hu Hne Hns. simpl. apply elem_of_cons.
      destruct (decide (ToLower (TrimSpace u) = ToLower (TrimSpace t))); [by left|right].
      apply elem_of_cons in Hu as [->|Hu]; [done|]. apply H3; [done..|set_solver].
Qed.

Lemma mergeTagsLoop_stable seen tags :
  NoDup (ToLower <$> tags) → (∀ t, t ∈ tags → TrimSpace t = t ∧ t ≠ "" ∧ ToLower t ∉ seen) →
  mergeTagsLoop ToLower seen tags = tags.
Proof.
  revert seen. induction tags as [|t tags IH]; intros seen Hnd Ht; [done|]. simpl.
  apply NoDup_cons in Hnd as [Hni Hnd].
  destruct (Ht t) as (-> & Hne & Hns); [by left|].
  rewrite !decide_False by done. f_equal. apply IH; [done|].
  intros u Hu. destruct (Ht u) as (?&?&?); [by right|]. split_and!; [done..|].
  rewrite elem_of_union, elem_of_singleton. intros [Heq|?]; [|done].
  apply Hni. rewrite <-Heq. by apply list_elem_of_fmap_2.
Qed.

(** [MergeTags] keeps every non-blank tag up to case: the result has no two
    tags with the same lower-case form, each is a trimmed non-empty input tag,
    every non-blank input tag is represented, and merging a merged list is the
    identity. *)
Theorem MergeTags_correct groups :
  let out := MergeTags ToLower groups in
  NoDup (ToLower <$> out) ∧
  (∀ t, t ∈ out → t ≠ "" ∧ ∃ u, u ∈ concat groups ∧ t = TrimSpace u) ∧
  (∀ u, u ∈ concat groups → TrimSpace u ≠ "" →
     ToLower (TrimSpace u) ∈ ToLower <$> out) ∧
  MergeTags ToLower [out] = out.
Proof.
  simpl. destruct (mergeTagsLoop_spec ∅ (concat groups)) as (H1 & H2 & H3).
  split_and!; [done|..].
  - intros t (?&?&_&?)%H2. done.
  - intros u ??. apply H3; [done..|set_solver].
  - unfold MergeTags at 1. simpl. rewrite app_nil_r.
    apply mergeTagsLoop_stable; [done|]. intros t (?&?&?&_)%H2. done.
Qed.
End tags.
End Catalog.
