(* ===== verification/AppAccess.v ===== *)
(** * AppAccess: a user's per-app choice of operations

    Models [gestaltd/core/app_access.go] and [app_access_legacy.go] (profiles
    of decisions relative to an app's defaults, their legacy form and its
    read-time conversion), the save computation of
    [internal/server/handlers_app_access.go] and the profile rows of
    [internal/coredata/app_access_profiles.go]. *)

From stdpp Require Import base gmap strings list sorting sets.
From Stdlib Require Import ZArith Ascii Lia.
From S2P Require Import Prelude Catalog.

Set Default Goal Selector "!".
Import Catalog.

Module AppAccess.

Definition GraphQLCapabilityID : string := "graphql".

Record AppAccessProfile := {
  SubjectID : string;
  App : string;
  DisabledOperations : list string;
  ExtraOperations : list string;
  LegacyEnabledOperations : list string;
  Legacy : bool;
  DefaultsInitialized : bool;
  UpdatedAt : time }.

Record AppAccessDefaults := {
  Configured : bool;
  Listed : list string;
  listedSet : option (gset string) }.

(** ** Sets and sorted unions of ids *)

Definition trimmedSet (ids : list string) : gset string :=
  foldl (λ set id, let id := TrimSpace id in
                   if decide (id = "") then set else {[id]} ∪ set) ∅ ids.

Definition sortedUnique (ids : list string) : list string :=
  match ids with [] => [] | _ => Compact (SortStrings ids) end.

Definition MergeAppAccessIDs (a b : list string) : list string :=
  sortedUnique (foldl (λ merged id, let id := TrimSpace id in
                       if decide (id = "") then merged else merged ++ [id]) [] (a ++ b)).

(** ** Defaults *)

(** [prov] is what the provider's [DefaultAppAccessOperations] returns, when it
    implements that interface. *)
Definition AppAccessDefaultsFor (prov : option (list string * bool)) : AppAccessDefaults :=
  match prov with
  | Some (listed, true) =>
      {| Configured := true; Listed := listed; listedSet := Some (trimmedSet listed) |}
  | _ => {| Configured := false; Listed := []; listedSet := None |}
  end.

Definition Includes (d : AppAccessDefaults) (o : CatalogOperation) : bool :=
  if Configured d then
    let id := TrimSpace (op_ID o) in
    match listedSet d with
    | Some s => bool_decide (id ∈ s)
    | None => existsb (λ listed, bool_decide (TrimSpace listed = id)) (Listed d)
    end
  else OperationVisibleByDefault o.

Definition Operations (d : AppAccessDefaults) (cat : option Catalog) : list string :=
  match cat with
  | None => []
  | Some c => SortStrings (op_ID <$> filter (λ o, Includes d o = true) (cat_Operations c))
  end.

(** ** Decisions *)

Definition allowsID (p : AppAccessProfile) (id : string) (defaultOn : bool) : bool :=
  if Legacy p then contains (LegacyEnabledOperations p) id
  else if contains (ExtraOperations p) id then true
  else defaultOn && negb (contains (DisabledOperations p) id).

Definition Allows (p : option AppAccessProfile) (o : CatalogOperation)
    (d : AppAccessDefaults) : bool :=
  match p with
  | None => true
  | Some p => allowsID p (TrimSpace (op_ID o)) (Includes d o)
  end.

Definition AllowsUnlisted (p : option AppAccessProfile) (id : string) : bool :=
  match p with
  | None => true
  | Some p => allowsID p (TrimSpace id) false
  end.

Inductive ProfileError : Type := ErrLegacyHoldsDecisions | ErrRelativeHoldsLegacy.

Definition ValidateProfile (p : option AppAccessProfile) : result ProfileError unit :=
  match p with
  | None => Ok tt
  | Some p =>
      if Legacy p then
        if (0 <? length (DisabledOperations p)) || (0 <? length (ExtraOperations p))
        then Err ErrLegacyHoldsDecisions else Ok tt
      else if 0 <? length (LegacyEnabledOperations p)
           then Err ErrRelativeHoldsLegacy else Ok tt
  end.

Definition NewRelativeAppAccessProfile (subjectID app : string)
    (disabled extra : list string) (updatedAt : time) : AppAccessProfile :=
  {| SubjectID := subjectID; App := app;
     DisabledOperations := MergeAppAccessIDs disabled [];
     ExtraOperations := MergeAppAccessIDs extra [];
     LegacyEnabledOperations := []; Legacy := false;
     DefaultsInitialized := true; UpdatedAt := updatedAt |}.

Definition NewLegacyAppAccessProfile (subjectID app : string)
    (enabled : list string) (updatedAt : time) : AppAccessProfile :=
  {| SubjectID := subjectID; App := app;
     DisabledOperations := []; ExtraOperations := [];
     LegacyEnabledOperations := MergeAppAccessIDs enabled []; Legacy := true;
     DefaultsInitialized := true; UpdatedAt := updatedAt |}.

Definition catalogOperations (p : option AppAccessProfile) (cat : option Catalog)
    (d : AppAccessDefaults) (allowed : bool) : list string :=
  match cat with
  | None => []
  | Some c =>
      SortStrings (op_ID <$> filter (λ o, Allows p o d = allowed) (cat_Operations c))
  end.
Definition EnabledOperations p cat d := catalogOperations p cat d true.
Definition DeniedOperations p cat d := catalogOperations p cat d false.

(** The two accumulators of the loop of [AppAccessOverrides]. *)
Definition overrideStep (want : gset string) (d : AppAccessDefaults)
    (acc : list string * list string) (o : CatalogOperation)
    : list string * list string :=
  let '(disabled, extra) := acc in
  let on := bool_decide (op_ID o ∈ want) in
  let isDefault := Includes d o in
  if isDefault && negb on then (disabled ++ [op_ID o], extra)
  else if negb isDefault && on then (disabled, extra ++ [op_ID o])
  else acc.

Definition AppAccessOverrides (enabled : list string) (cat : option Catalog)
    (d : AppAccessDefaults) : list string * list string :=
  match cat with
  | None => ([], [])
  | Some c =>
      let want : gset string := list_to_set (TrimSpace <$> enabled) in
      let '(disabled, extra) := foldl (overrideStep want d) ([], []) (cat_Operations c) in
      (SortStrings disabled, SortStrings extra)
  end.

Definition catalogIDs (cat : option Catalog) : list string :=
  match cat with None => [] | Some c => op_ID <$> cat_Operations c end.

Definition OverridesOutside (p : option AppAccessProfile) (cat static : option Catalog)
    : list string * list string :=
  match p with
  | None => ([], [])
  | Some p =>
      let listed : gset string := list_to_set (catalogIDs cat) in
      let outside := filter (λ id, id ∉ listed) in
      if negb (Legacy p) then
        (outside (DisabledOperations p), outside (ExtraOperations p))
      else
        (filter (λ id, id ∉ LegacyEnabledOperations p) (outside (catalogIDs static)),
         outside (LegacyEnabledOperations p))
  end.

(** The decisions the settings page's save writes: the page's overrides plus
    the kept decisions about operations the page did not offer
    ([handlers_app_access.go]); [page] is the catalog the page showed, [static]
    the provider's own. *)
Definition saveOverrides (enabled : list string) (page static : option Catalog)
    (d : AppAccessDefaults) (existing : option AppAccessProfile)
    : list string * list string :=
  let '(disabled, extra) := AppAccessOverrides enabled page d in
  let '(keptDisabled, keptExtra) := OverridesOutside existing page static in
  (MergeAppAccessIDs disabled keptDisabled, MergeAppAccessIDs extra keptExtra).

(** ** Legacy allow-lists *)

Inductive legacyDecision := legacyFollowsDefault | legacyOptOut | legacyOptIn.

#[export] Instance legacyDecision_eq_dec : EqDecision legacyDecision.
Proof. solve_decision. Defined.

Definition classifyLegacyOperation (id : string) (inCatalog : gmap string CatalogOperation)
    (d : AppAccessDefaults) (enabled existed : bool) : legacyDecision :=
  match inCatalog !! id with
  | None =>
      if enabled then legacyOptIn
      else if existed || bool_decide (id = GraphQLCapabilityID) then legacyOptOut
      else legacyFollowsDefault
  | Some op =>
      if Includes d op && negb enabled && existed then legacyOptOut
      else if negb (Includes d op) && enabled then legacyOptIn
      else legacyFollowsDefault
  end.

(** The catalog by trimmed id; a later operation with the same id wins. *)
Definition inCatalogMap (cat : Catalog) : gmap string CatalogOperation :=
  foldl (λ m o, <[TrimSpace (op_ID o) := o]> m) ∅ (cat_Operations cat).

Definition legacyIDs (cat : Catalog) (enabled existed : gset string) : gset string :=
  {[GraphQLCapabilityID]} ∪ existed ∪ enabled ∪ dom (inCatalogMap cat).

(** The classification loop over a Go map, whose iteration order is
    unspecified: [order] is the order the runtime happens to use. *)
Definition convertLegacyIn (order : list string) (p : AppAccessProfile) (cat : Catalog)
    (d : AppAccessDefaults) (enabled existed : gset string) : AppAccessProfile :=
  let decision id :=
    classifyLegacyOperation id (inCatalogMap cat) d
      (bool_decide (id ∈ enabled)) (bool_decide (id ∈ existed)) in
  {| SubjectID := SubjectID p; App := App p;
     DisabledOperations :=
       sortedUnique (filter (λ id, decision id = legacyOptOut) order);
     ExtraOperations :=
       sortedUnique (filter (λ id, decision id = legacyOptIn) order);
     LegacyEnabledOperations := []; Legacy := false;
     DefaultsInitialized := DefaultsInitialized p; UpdatedAt := UpdatedAt p |}.
Definition convertLegacy (p : AppAccessProfile) (cat : Catalog) (d : AppAccessDefaults)
    (enabled existed : gset string) : AppAccessProfile :=
  convertLegacyIn (elements (legacyIDs cat enabled existed)) p cat d enabled existed.

Definition ConvertLegacyAppAccessProfile (p : option AppAccessProfile) (cat : option Catalog)
    (d : AppAccessDefaults) (existedAt : list string) : option AppAccessProfile :=
  match p, cat with
  | Some q, Some c =>
      if Legacy q then
        Some (convertLegacy q c d (trimmedSet (LegacyEnabledOperations q)) (trimmedSet existedAt))
      else p
  | _, _ => p
  end.

Inductive LegacyKeptReason :=
  | LegacyConverted | LegacyKeptNotLegacy | LegacyKeptNoCatalog
  | LegacyKeptNoHistory | LegacyKeptHistoryError | LegacyKeptHistoryIncomplete.

Definition historyCoversEnabled (cat : Catalog) (enabled existed : gset string) : bool :=
  forallb (λ o, let id := TrimSpace (op_ID o) in
                if bool_decide (id ∈ enabled) then bool_decide (id ∈ existed) else true)
          (cat_Operations cat).

(** [OperationHistory.OperationsAt] is an interface of the caller's: an answer
    is an error, or the ids with the [known] flag. *)
Definition OperationHistory (E : Type) := string → time → result E (list string * bool).

Definition ResolveLegacyAppAccessProfile {E} (history : option (OperationHistory E))
    (profile : option AppAccessProfile) (cat : option Catalog) (d : AppAccessDefaults)
    : option AppAccessProfile * LegacyKeptReason * option E :=
  match profile with
  | None => (profile, LegacyKeptNotLegacy, None)
  | Some p =>
      if negb (Legacy p) then (profile, LegacyKeptNotLegacy, None) else
      match cat with
      | None => (profile, LegacyKeptNoCatalog, None)
      | Some c =>
          match history with
          | None => (profile, LegacyKeptNoHistory, None)
          | Some operationsAt =>
              match operationsAt (App p) (UpdatedAt p) with
              | Err e => (profile, LegacyKeptHistoryError, Some e)
              | Ok (existedAt, known) =>
                  if negb known then (profile, LegacyKeptNoHistory, None) else
                  let enabled := trimmedSet (LegacyEnabledOperations p) in
                  let existed := trimmedSet existedAt in
                  if negb (historyCoversEnabled c enabled existed)
                  then (profile, LegacyKeptHistoryIncomplete, None)
                  else (Some (convertLegacy p c d enabled existed), LegacyConverted, None)
              end
          end
      end
  end.

(** ** Profile rows

    The JSON text of the [enabled_operations] column is represented by what it
    decodes to: the versioned object of the current format, the bare array of
    the legacy one, the empty column, or text neither decoder accepts. *)

Inductive EnabledColumn :=
  | ColEmpty
  | ColObject (version : Z) (disabled extra : list string)
  | ColArray (operations : list string)
  | ColMalformed.

Record ProfileRow := {
  row_id : string;
  row_subject_id : string;
  row_app : string;
  row_enabled_operations : EnabledColumn;
  row_defaults_initialized : bool;
  row_updated_at : time }.

Definition appAccessProfileKeySep : string := String (ascii_of_N 31) "".
Definition appAccessPayloadVersion : Z := 1.

Inductive StoreError :=
  | ErrKeyRequired | ErrDecodePayload | ErrUnsupportedVersion (v : Z)
  | ErrInvalidProfile (e : ProfileError).

Definition validateAppAccessProfileKey (subjectID app : string)
    : result StoreError (string * string * string) :=
  let subjectID := TrimSpace subjectID in
  let app := TrimSpace app in
  if bool_decide (subjectID = "") || bool_decide (app = "") then Err ErrKeyRequired
  else Ok (subjectID +:+ appAccessProfileKeySep +:+ app, subjectID, app).

Fixpoint normalizeOperationsLoop (seen : gset string) (ops : list string) : list string :=
  match ops with
  | [] => []
  | o :: ops =>
      let o := TrimSpace o in
      if decide (o = "") then normalizeOperationsLoop seen ops
      else if decide (o ∈ seen) then normalizeOperationsLoop seen ops
      else o :: normalizeOperationsLoop ({[o]} ∪ seen) ops
  end.

Definition normalizeAppAccessOperations (ops : list string) : list string :=
  match ops with
  | [] => []
  | _ => SortStrings (normalizeOperationsLoop ∅ ops)
  end.

Definition appAccessProfileRecord (p : AppAccessProfile) : ProfileRow :=
  {| row_id := TrimSpace (SubjectID p) +:+ appAccessProfileKeySep +:+ TrimSpace (App p);
     row_subject_id := TrimSpace (SubjectID p);
     row_app := TrimSpace (App p);
     row_enabled_operations :=
       ColObject appAccessPayloadVersion
         (normalizeAppAccessOperations (DisabledOperations p))
         (normalizeAppAccessOperations (ExtraOperations p));
     row_defaults_initialized := DefaultsInitialized p;
     row_updated_at := Truncate (UpdatedAt p) Millisecond |}.

Definition recordToAppAccessProfile (r : ProfileRow) : result StoreError AppAccessProfile :=
  let! p := match row_enabled_operations r with
            | ColObject v disabled extra =>
                if negb (v =? appAccessPayloadVersion)%Z then Err (ErrUnsupportedVersion v)
                else Ok (NewRelativeAppAccessProfile (row_subject_id r) (row_app r)
                           disabled extra (row_updated_at r))
            | ColArray ops =>
                Ok (NewLegacyAppAccessProfile (row_subject_id r) (row_app r) ops (row_updated_at r))
            | ColEmpty =>
                Ok (NewLegacyAppAccessProfile (row_subject_id r) (row_app r) [] (row_updated_at r))
            | ColMalformed => Err ErrDecodePayload
            end in
  match ValidateProfile (Some p) with
  | Ok _ => Ok p
  | Err e => Err (ErrInvalidProfile e)
  end.

(** [GetAppAccessProfile], [EnsureAppAccessDefaults] and
    [SetAppAccessOverrides] over the object store, whose calls succeed; [now] is
    the clock reading. *)
Definition GetAppAccessProfile (db : gmap string ProfileRow) (subjectID app : string)
    : result StoreError (option AppAccessProfile) :=
  let! (key, subjectID, app) := validateAppAccessProfileKey subjectID app in
  match db !! key with
  | None => Ok None
  | Some rec =>
      let! p := recordToAppAccessProfile rec in
      Ok (Some {| SubjectID := subjectID; App := app;
                  DisabledOperations := DisabledOperations p;
                  ExtraOperations := ExtraOperations p;
                  LegacyEnabledOperations := LegacyEnabledOperations p;
                  Legacy := Legacy p; DefaultsInitialized := DefaultsInitialized p;
                  UpdatedAt := UpdatedAt p |})
  end.

Definition emptyProfile (subjectID app : string) (now : time) : AppAccessProfile :=
  {| SubjectID := subjectID; App := app; DisabledOperations := [];
     ExtraOperations := []; LegacyEnabledOperations := []; Legacy := false;
     DefaultsInitialized := true; UpdatedAt := Truncate now Millisecond |}.

Definition EnsureAppAccessDefaults (db : gmap string ProfileRow) (subjectID app : string)
    (now : time) : gmap string ProfileRow * result StoreError (option AppAccessProfile) :=
  match validateAppAccessProfileKey subjectID app with
  | Err e => (db, Err e)
  | Ok (key, subjectID, app) =>
      let profile := emptyProfile subjectID app now in
      let row := appAccessProfileRecord profile in
      match db !! row_id row with
      | None => (<[row_id row := row]> db, Ok (Some profile))
      | Some _ => (db, GetAppAccessProfile db subjectID app)
      end
  end.

Definition SetAppAccessOverrides (db : gmap string ProfileRow) (subjectID app : string)
    (disabled extra : list string) (now : time)
    : gmap string ProfileRow * result StoreError AppAccessProfile :=
  match validateAppAccessProfileKey subjectID app with
  | Err e => (db, Err e)
  | Ok (key, subjectID, app) =>
      let profile :=
        {| SubjectID := subjectID; App := app;
           DisabledOperations := normalizeAppAccessOperations disabled;
           ExtraOperations := normalizeAppAccessOperations extra;
           LegacyEnabledOperations := []; Legacy := false;
           DefaultsInitialized := true; UpdatedAt := Truncate now Millisecond |} in
      let row := appAccessProfileRecord profile in
      (<[row_id row := row]> db, Ok profile)
  end.

(** ** Lemmas on id sets and sorted unions *)

Lemma elem_of_trimmedSet x ids :
  x ∈ trimmedSet ids ↔ x ≠ "" ∧ ∃ y, y ∈ ids ∧ TrimSpace y = x.
Proof.
  unfold trimmedSet.
  assert (H : ∀ acc : gset string, x ∈ foldl (λ set id, if decide (TrimSpace id = "") then set
                              else {[TrimSpace id]} ∪ set) acc ids ↔
              x ∈ acc ∨ x ≠ "" ∧ ∃ y, y ∈ ids ∧ TrimSpace y = x).
  { induction ids as [|i ids IH]; intros acc; simpl; [set_solver|].
    rewrite IH. case_decide; set_solver. }
  rewrite H. set_solver.
Qed.

Lemma sortedUnique_spec ids :
  Sorted String.le (sortedUnique ids) ∧ NoDup (sortedUnique ids) ∧
  ∀ x, x ∈ sortedUnique ids ↔ x ∈ ids.
Proof.
  destruct ids as [|i ids]; [split_and!; [constructor..|done]|].
  unfold sortedUnique.
  destruct (Compact_sorted (SortStrings (i :: ids))) as [??]; [apply SortStrings_sorted|].
  split_and!; [done..|]. intros x. by rewrite elem_of_Compact, elem_of_SortStrings.
Qed.

Lemma elem_of_sortedUnique x ids : x ∈ sortedUnique ids ↔ x ∈ ids.
Proof. apply sortedUnique_spec. Qed.

(** Equal contents give equal results, whatever the order and multiplicity. *)
Lemma sortedUnique_ext l1 l2 : (∀ x, x ∈ l1 ↔ x ∈ l2) → sortedUnique l1 = sortedUnique l2.
Proof.
  intros H. apply sorted_nodup_ext; try apply sortedUnique_spec.
  intros x. by rewrite !elem_of_sortedUnique.
Qed.

Lemma elem_of_MergeAppAccessIDs x a b :
  x ∈ MergeAppAccessIDs a b ↔ x ≠ "" ∧ ∃ y, (y ∈ a ∨ y ∈ b) ∧ TrimSpace y = x.
Proof.
  unfold MergeAppAccessIDs. rewrite elem_of_sortedUnique.
  assert (H : ∀ (l acc : list string), x ∈ foldl (λ m id, if decide (TrimSpace id = "") then m
                              else m ++ [TrimSpace id]) acc l ↔
              x ∈ acc ∨ x ≠ "" ∧ ∃ y, y ∈ l ∧ TrimSpace y = x).
  { induction l as [|i l IH]; intros acc; simpl; [set_solver|].
    rewrite IH. case_decide; set_solver. }
  rewrite H. setoid_rewrite elem_of_app. set_solver.
Qed.

Lemma normalizeOperationsLoop_spec seen ops :
  NoDup (normalizeOperationsLoop seen ops) ∧
  ∀ x, x ∈ normalizeOperationsLoop seen ops ↔
       x ≠ "" ∧ x ∉ seen ∧ ∃ y, y ∈ ops ∧ TrimSpace y = x.
Proof.
  revert seen. induction ops as [|o ops IH]; intros seen; simpl.
  { split; [constructor|set_solver]. }
  case_decide; [|case_decide].
  - destruct (IH seen) as [? Hm]. split; [done|]. intros x. rewrite Hm. set_solver.
  - destruct (IH seen) as [? Hm]. split; [done|]. intros x. rewrite Hm. set_solver.
  - destruct (IH ({[TrimSpace o]} ∪ seen)) as [? Hm]. split.
    + apply NoDup_cons. split; [|done]. rewrite Hm. set_solver.
    + intros x. rewrite elem_of_cons, Hm.
      destruct (decide (x = TrimSpace o)); set_solver.
Qed.

(** The two normalisers of the code, [core.MergeAppAccessIDs] and
    [coredata.normalizeAppAccessOperations], compute the same slice. *)
Lemma normalize_is_merge ops : normalizeAppAccessOperations ops = MergeAppAccessIDs ops [].
Proof.
  destruct ops as [|o ops]; [done|].
  destruct (normalizeOperationsLoop_spec ∅ (o :: ops)) as [Hnd Hm].
  unfold normalizeAppAccessOperations.
  apply sorted_nodup_ext; [apply SortStrings_sorted|by rewrite SortStrings_perm|..].
  1,2: apply sortedUnique_spec.
  intros x. rewrite elem_of_SortStrings, Hm, elem_of_MergeAppAccessIDs. set_solver.
Qed.

(** Ids as the store and the constructors leave them. *)
Definition ids_normal (l : list string) : Prop :=
  Sorted String.le l ∧ NoDup l ∧ ∀ x, x ∈ l → TrimSpace x = x ∧ x ≠ "".

Lemma MergeAppAccessIDs_normal a b : ids_normal (MergeAppAccessIDs a b).
Proof.
  split_and!; [apply sortedUnique_spec..|].
  intros x (? & y & _ & <-)%elem_of_MergeAppAccessIDs. by rewrite TrimSpace_idem.
Qed.

Lemma MergeAppAccessIDs_id l : ids_normal l → MergeAppAccessIDs l [] = l.
Proof.
  intros (? & ? & Hn). apply sorted_nodup_ext; [apply MergeAppAccessIDs_normal..|done|done|].
  intros x. rewrite elem_of_MergeAppAccessIDs. split.
  - intros (? & y & [Hy|?] & <-); [|set_solver]. by destruct (Hn y Hy) as [-> _].
  - intros Hx. destruct (Hn x Hx). split; [done|]. exists x. auto.
Qed.

(** The persistence layer's [normalizeAppAccessOperations] and the core's
    [MergeAppAccessIDs] agree on every slice: both return the sorted,
    duplicate-free list of the trimmed non-blank entries. *)
Theorem normalizers_agree ops :
  normalizeAppAccessOperations ops = MergeAppAccessIDs ops [] ∧
  ids_normal (normalizeAppAccessOperations ops) ∧
  normalizeAppAccessOperations (normalizeAppAccessOperations ops)
    = normalizeAppAccessOperations ops.
Proof.
  rewrite !normalize_is_merge. pose proof (MergeAppAccessIDs_normal ops []) as H.
  split_and!; [done|done|by apply MergeAppAccessIDs_id].
Qed.

(** ** Overrides round trip *)

(** A catalog whose operation ids are trimmed, non-empty and unique, as
    [Catalog.Validate] guarantees of an accepted one. *)
Definition clean_catalog (c : Catalog) : Prop :=
  NoDup (op_ID <$> cat_Operations c) ∧
  ∀ o, o ∈ cat_Operations c → TrimSpace (op_ID o) = op_ID o ∧ op_ID o ≠ "".

Lemma overrides_fold want d ops dis ext :
  foldl (overrideStep want d) (dis, ext) ops =
  (dis ++ (op_ID <$> filter (λ o, Includes d o = true ∧ op_ID o ∉ want) ops),
   ext ++ (op_ID <$> filter (λ o, Includes d o = false ∧ op_ID o ∈ want) ops)).
Proof.
  revert dis ext. induction ops as [|o ops IH]; intros dis ext; simpl.
  { by rewrite !app_nil_r. }
  rewrite !filter_cons.
  destruct (Includes d o) eqn:Ei; case_bool_decide; simpl; rewrite IH;
    repeat case_decide; try naive_solver; simpl; by rewrite <-?app_assoc.
Qed.

Lemma elem_of_overrides enabled c d :
  let '(disabled, extra) := AppAccessOverrides enabled (Some c) d in
  (∀ x, x ∈ disabled ↔ ∃ o, o ∈ cat_Operations c ∧ op_ID o = x ∧
          Includes d o = true ∧ x ∉ TrimSpace <$> enabled) ∧
  (∀ x, x ∈ extra ↔ ∃ o, o ∈ cat_Operations c ∧ op_ID o = x ∧
          Includes d o = false ∧ x ∈ TrimSpace <$> enabled).
Proof.
  unfold AppAccessOverrides. rewrite overrides_fold. simpl.
  split; intros x; rewrite elem_of_SortStrings, list_elem_of_fmap;
    setoid_rewrite list_elem_of_filter; setoid_rewrite elem_of_list_to_set; naive_solver.
Qed.

(** The invariant of stored profiles: normal id lists, and only the lists of
    the profile's own format ([AppAccessProfile.Validate]). *)
Record profile_ok (p : AppAccessProfile) : Prop := {
  pok_disabled : ids_normal (DisabledOperations p);
  pok_extra : ids_normal (ExtraOperations p);
  pok_legacy : ids_normal (LegacyEnabledOperations p);
  pok_valid : ValidateProfile (Some p) = Ok tt }.

Lemma ids_normal_nil : ids_normal [].
Proof. split_and!; [constructor..|set_solver]. Qed.

Lemma clean_unique c o1 o2 :
  clean_catalog c → o1 ∈ cat_Operations c → o2 ∈ cat_Operations c →
  op_ID o1 = op_ID o2 → o1 = o2.
Proof.
  intros [Hnd _] (i & Hi)%list_elem_of_lookup (j & Hj)%list_elem_of_lookup Heq.
  assert (i = j) as ->; [|congruence].
  eapply NoDup_lookup; [done|..]; rewrite list_lookup_fmap;
    [rewrite Hi|rewrite Hj]; simpl; [done|by f_equal].
Qed.

Lemma outside_not_listed (id : string) (l : list string) page :
  id ∈ filter (λ id, id ∉ (list_to_set (catalogIDs (Some page)) : gset string)) l →
  id ∉ op_ID <$> cat_Operations page.
Proof. rewrite list_elem_of_filter, elem_of_list_to_set. by intros [? _]. Qed.

(** Membership of a trimmed id in the merge of an override list and a kept
    list whose own ids are trimmed. *)
Lemma elem_of_merge_clean x a b :
  (∀ y, y ∈ a ∨ y ∈ b → TrimSpace y = y) → x ≠ "" →
  x ∈ MergeAppAccessIDs a b ↔ x ∈ a ∨ x ∈ b.
Proof.
  intros Ht Hx. rewrite elem_of_MergeAppAccessIDs. split.
  - intros (_ & y & Hy & <-). by rewrite (Ht y Hy).
  - intros H. split; [done|]. exists x. split; [done|]. by apply Ht.
Qed.

Lemma OverridesOutside_trimmed p page static :
  profile_ok p → (∀ c, static = Some c → clean_catalog c) →
  let '(kd, ke) := OverridesOutside (Some p) (Some page) static in
  ∀ y, y ∈ kd ∨ y ∈ ke → TrimSpace y = y ∧ y ∉ op_ID <$> cat_Operations page.
Proof.
  intros [(_&_&Hd) (_&_&He) (_&_&Hl) _] Hs. unfold OverridesOutside.
  destruct (Legacy p); simpl; intros y [Hy|Hy].
  - apply list_elem_of_filter in Hy as [_ Hy]. split; [|by eapply outside_not_listed].
    apply list_elem_of_filter in Hy as [_ Hy]. destruct static as [c|]; simpl in Hy; [|set_solver].
    apply list_elem_of_fmap in Hy as (o & -> & Ho). by apply (Hs c).
  - split; [|by eapply outside_not_listed]. apply list_elem_of_filter in Hy as [_ Hy].
    by apply Hl.
  - split; [|by eapply outside_not_listed]. apply list_elem_of_filter in Hy as [_ Hy].
    by apply Hd.
  - split; [|by eapply outside_not_listed]. apply list_elem_of_filter in Hy as [_ Hy].
    by apply He.
Qed.

Lemma saved_lists enabled page static d p disabled extra x :
  clean_catalog page → profile_ok p → (∀ c, static = Some c → clean_catalog c) →
  saveOverrides enabled (Some page) static d (Some p) = (disabled, extra) → x ≠ "" →
  (x ∈ disabled ↔ x ∈ (AppAccessOverrides enabled (Some page) d).1 ∨
                  x ∈ (OverridesOutside (Some p) (Some page) static).1) ∧
  (x ∈ extra ↔ x ∈ (AppAccessOverrides enabled (Some page) d).2 ∨
               x ∈ (OverridesOutside (Some p) (Some page) static).2).
Proof.
  intros Hpage Hp Hs. unfold saveOverrides.
  pose proof (elem_of_overrides enabled page d) as Ho.
  pose proof (OverridesOutside_trimmed p page static Hp Hs) as Hk.
  destruct (AppAccessOverrides enabled (Some page) d) as [dis ext].
  destruct (OverridesOutside (Some p) (Some page) static) as [kd ke].
  destruct Ho as [Hdis Hext]. intros [= <- <-] Hx. simpl.
  split; apply elem_of_merge_clean; try done; intros y [Hy|Hy].
  - apply Hdis in Hy as (o & Ho & <- & _). by apply Hpage.
  - apply Hk. by left.
  - apply Hext in Hy as (o & Ho & <- & _). by apply Hpage.
  - apply Hk. by right.
Qed.

Section save.
  Context (enabled : list string) (page static : Catalog) (d : AppAccessDefaults)
          (p : AppAccessProfile) (subject app : string) (now : time)
          (disabled extra : list string).
  Context (Hpage : clean_catalog page) (Hstatic : clean_catalog static)
          (Hp : profile_ok p)
          (Hsave : saveOverrides enabled (Some page) (Some static) d (Some p)
                     = (disabled, extra)).
Let saved := NewRelativeAppAccessProfile subject app disabled extra now.

Lemma saved_members x :
  x ≠ "" →
  (x ∈ DisabledOperations saved ↔
     x ∈ (AppAccessOverrides enabled (Some page) d).1 ∨
     x ∈ (OverridesOutside (Some p) (Some page) (Some static)).1) ∧
  (x ∈ ExtraOperations saved ↔
     x ∈ (AppAccessOverrides enabled (Some page) d).2 ∨
     x ∈ (OverridesOutside (Some p) (Some page) (Some static)).2).
Proof.
  intros Hx.
  assert (Hs : ∀ c, Some static = Some c → clean_catalog c) by (by intros c [= <-]).
  pose proof (saved_lists _ _ _ _ _ _ _ x Hpage Hp Hs Hsave Hx) as [<- <-].
  unfold saved, NewRelativeAppAccessProfile, saveOverrides in *. simpl.
  destruct (AppAccessOverrides _ _ _), (OverridesOutside _ _ _).
  injection Hsave as <- <-.
  by rewrite !MergeAppAccessIDs_id by apply MergeAppAccessIDs_normal.
Qed.

Lemma saved_in_page o :
  o ∈ cat_Operations page →
  Allows (Some saved) o d = bool_decide (op_ID o ∈ TrimSpace <$> enabled).
Proof.
  intros Ho. destruct (proj2 Hpage o Ho) as [Htrim Hne].
  destruct (saved_members _ Hne) as [Hd He].
  assert (Hs : ∀ c, Some static = Some c → clean_catalog c) by (by intros c [= <-]).
  pose proof (OverridesOutside_trimmed p page (Some static) Hp Hs) as Hk.
  pose proof (elem_of_overrides enabled page d) as Hov.
  destruct (AppAccessOverrides _ _ _) as [dis ext]. destruct Hov as [Hdis Hext].
  destruct (OverridesOutside _ _ _) as [kd ke]. simpl in *.
  assert (Hnk : op_ID o ∉ kd ∧ op_ID o ∉ ke).
  { assert (op_ID o ∈ op_ID <$> cat_Operations page) by (by apply list_elem_of_fmap_2).
    split; intros Hin; by destruct (Hk (op_ID o)); [auto|]. }
  unfold allowsID. simpl. rewrite Htrim.
  case_if; bool_props; [|case_bool_decide].
  - rewrite bool_decide_true; [done|].
    apply He in Heqb as [(o' & _ & _ & _ & ?)%Hext|?]; [done|tauto].
  - assert (Includes d o = true) as ->.
    { destruct (Includes d o) eqn:Ei; [done|]. exfalso. apply Heqb, He. left.
      apply Hext. eauto. }
    simpl. apply negb_true_iff, contains_false. rewrite Hd.
    intros [(o' & _ & _ & _ & ?)%Hdis|?]; tauto.
  - destruct (Includes d o) eqn:Ei; [|done]. simpl.
    apply negb_false_iff, contains_spec. apply Hd. left. apply Hdis. eauto.
Qed.

Lemma saved_outside_page o :
  o ∈ cat_Operations static → op_ID o ∉ op_ID <$> cat_Operations page →
  Allows (Some saved) o d = Allows (Some p) o d.
Proof.
  intros Ho Hout. destruct (proj2 Hstatic o Ho) as [Htrim Hne].
  destruct (saved_members _ Hne) as [Hd He].
  pose proof (elem_of_overrides enabled page d) as Hov.
  destruct (AppAccessOverrides _ _ _) as [dis ext]. destruct Hov as [Hdis Hext].
  assert (Hn : op_ID o ∉ dis ∧ op_ID o ∉ ext).
  { split; [intros (o' & ? & Heq & _)%Hdis|intros (o' & ? & Heq & _)%Hext];
      apply Hout; rewrite <-Heq; by apply list_elem_of_fmap_2. }
  assert (Hl : ∀ l : list string, op_ID o ∈ filter (λ id, id ∉ (list_to_set
      (catalogIDs (Some page)) : gset string)) l ↔ op_ID o ∈ l).
  { intros l. rewrite list_elem_of_filter, elem_of_list_to_set. simpl. tauto. }
  simpl in Hl. assert (op_ID o ∈ op_ID <$> cat_Operations static) by (by apply list_elem_of_fmap_2).
  revert Hd He. unfold OverridesOutside, Allows, allowsID. rewrite Htrim. simpl.
  destruct (Legacy p) eqn:El; simpl; intros Hd He; rewrite Hl in He.
  - rewrite list_elem_of_filter, Hl in Hd.
    destruct (contains (LegacyEnabledOperations p) (op_ID o)) eqn:Ec; bool_props.
    + case_if; [done|]; bool_props. tauto.
    + case_if; bool_props; [tauto|]. apply andb_false_iff. right.
      apply negb_false_iff, contains_spec, Hd. by right.
  - rewrite Hl in Hd. simpl in Hn.
    assert (contains (ExtraOperations saved) (op_ID o)
              = contains (ExtraOperations p) (op_ID o)) as Hx by (apply contains_ext; tauto).
    assert (contains (DisabledOperations saved) (op_ID o)
              = contains (DisabledOperations p) (op_ID o)) as Hx' by (apply contains_ext; tauto).
    simpl in Hx, Hx'. by rewrite Hx, Hx'.
Qed.
End save.

(**  Saving the settings page does what the page shows: after a save, every
    operation the page offered is on exactly when the user selected it, and
    every operation of the app's own catalog that the page did not offer keeps
    the answer the stored profile gave, whether that profile was legacy or
    relative. *)
Theorem save_respects_choices enabled page static d p subject app now disabled extra :
  clean_catalog page → clean_catalog static → profile_ok p →
  saveOverrides enabled (Some page) (Some static) d (Some p) = (disabled, extra) →
  let saved := NewRelativeAppAccessProfile subject app disabled extra now in
  profile_ok saved ∧
  (∀ o, o ∈ cat_Operations page →
     Allows (Some saved) o d = bool_decide (op_ID o ∈ TrimSpace <$> enabled)) ∧
  (∀ o, o ∈ cat_Operations static → op_ID o ∉ op_ID <$> cat_Operations page →
     Allows (Some saved) o d = Allows (Some p) o d).
Proof.
  intros. split_and!.
  - split; [apply MergeAppAccessIDs_normal..|apply ids_normal_nil|done].
  - intros o Ho. by apply (saved_in_page enabled page static d p).
  - intros o Ho Hout. by apply (saved_outside_page enabled page static d p).
Qed.

Definition op (id : string) (visible : bool) : CatalogOperation :=
  {| op_ID := id; op_ProviderID := ""; op_Method := ""; op_Path := "";
     op_Title := ""; op_Description := ""; op_InputSchema := None;
     op_OutputSchema := None; op_Response := None;
     op_Annotations := no_annotations; op_AllowedRoles := [];
     op_Parameters := []; op_RequiredScopes := []; op_Tags := [];
     op_ReadOnly := false; op_Visible := Some visible; op_API := None; op_MCP := None;
     op_Transport := ""; op_Query := ""; op_OperationName := "" |}.
Definition catalog_of (ops : list CatalogOperation) : Catalog :=
  set_Operations sample_catalog ops.

Lemma clean_catalog_of ops :
  bool_decide (NoDup (op_ID <$> ops)) = true →
  forallb (λ o, trimmed (op_ID o) && bool_decide (op_ID o ≠ "")) ops = true →
  clean_catalog (catalog_of ops).
Proof.
  rewrite bool_decide_eq_true, forallb_forall. intros Hnd H. split; [done|].
  intros o Ho. assert (Hin : In o ops) by (by apply list_elem_of_In).
  specialize (H o Hin). simpl in H. bool_props. by rewrite <-trimmed_spec.
Qed.

(** A legacy profile with [a] enabled, the page offering [a] and [b] with only
    [b] selected, and [c] an operation the page did not offer. *)
Lemma save_respects_choices_witness :
  let page := catalog_of [op "a" true; op "b" false] in
  let static := catalog_of [op "a" true; op "b" false; op "c" true] in
  let p := NewLegacyAppAccessProfile "u" "x" ["a"] 0 in
  let d := AppAccessDefaultsFor None in
  Allows (Some (NewRelativeAppAccessProfile "u" "x" ["a"; "c"] ["b"] 5)) (op "c" true) d
    = Allows (Some p) (op "c" true) d.
Proof.
  intros page static p d.
  destruct (save_respects_choices ["b"] page static d p "u" "x" 5%Z ["a"; "c"] ["b"])
    as (_ & _ & H).
  - by apply clean_catalog_of.
  - by apply clean_catalog_of.
  - split; [apply ids_normal_nil..|apply MergeAppAccessIDs_normal|reflexivity].
  - vm_compute. reflexivity.
  - apply H; [set_solver|]. apply (bool_decide_eq_false _). reflexivity.
Defined.

(** ** Converting a legacy profile *)

Lemma inCatalogMap_fold ops (m : gmap string CatalogOperation) :
  NoDup (op_ID <$> ops) → (∀ o, o ∈ ops → TrimSpace (op_ID o) = op_ID o) →
  ∀ id, foldl (λ m o, <[TrimSpace (op_ID o) := o]> m) m ops !! id =
        match List.find (λ o, bool_decide (op_ID o = id)) ops with
        | Some o => Some o | None => m !! id end.
Proof.
  revert m. induction ops as [|o ops IH]; intros m Hnd Ht id; [done|].
  apply NoDup_cons in Hnd as [Hni Hnd]. simpl.
  rewrite IH; [|done|intros o' ?; apply Ht; by right].
  rewrite (Ht o) by (by left). case_bool_decide as Hid; simpl.
  - subst id. destruct (List.find _ ops) as [o'|] eqn:Ef; [|by rewrite lookup_insert_eq].
    apply List.find_some in Ef as [Hin Heq]. bool_props. exfalso. apply Hni.
    rewrite <-Heq. apply list_elem_of_fmap_2. by apply list_elem_of_In.
  - destruct (List.find _ ops); [done|]. by rewrite lookup_insert_ne.
Qed.

Lemma inCatalogMap_lookup c id :
  clean_catalog c →
  (∀ o, inCatalogMap c !! id = Some o ↔ o ∈ cat_Operations c ∧ op_ID o = id).
Proof.
  intros Hc o. unfold inCatalogMap.
  rewrite inCatalogMap_fold, lookup_empty by (apply Hc || (intros ? ?; by apply Hc)).
  destruct (List.find _ _) as [o'|] eqn:Ef.
  - apply List.find_some in Ef as [Hin Heq]. bool_props.
    apply list_elem_of_In in Hin. split; [by intros [= <-]|].
    intros [Ho Hid]. f_equal. eapply clean_unique; [done..|]. congruence.
  - split; [done|]. intros [Ho%list_elem_of_In Hid].
    apply (List.find_none _ _ Ef) in Ho. bool_props. done.
Qed.

(** The order in which the runtime walks the id map does not matter. *)
Lemma convertLegacyIn_order order p c d enabled existed :
  order ≡ₚ elements (legacyIDs c enabled existed) →
  convertLegacyIn order p c d enabled existed = convertLegacy p c d enabled existed.
Proof.
  intros Hperm. unfold convertLegacy, convertLegacyIn.
  f_equal; apply sortedUnique_ext; intros x;
    by rewrite !list_elem_of_filter, Hperm.
Qed.

Lemma convertLegacy_mem p c d enabled existed x :
  let q := convertLegacy p c d enabled existed in
  let k := classifyLegacyOperation x (inCatalogMap c) d
             (bool_decide (x ∈ enabled)) (bool_decide (x ∈ existed)) in
  (x ∈ DisabledOperations q ↔ k = legacyOptOut) ∧
  (x ∈ ExtraOperations q ↔ k = legacyOptIn).
Proof.
  unfold convertLegacy, convertLegacyIn. simpl.
  rewrite !elem_of_sortedUnique, !list_elem_of_filter, elem_of_elements.
  set (k := classifyLegacyOperation _ _ _ _ _).
  assert (k ≠ legacyFollowsDefault → x ∈ legacyIDs c enabled existed) as Hin.
  2: { split; (split; [by intros [? _]|]); intros Hk; (split; [done|]);
       apply Hin; by rewrite Hk. }
  unfold k, classifyLegacyOperation, legacyIDs.
  destruct (inCatalogMap c !! x) as [o|] eqn:E.
  { apply elem_of_dom_2 in E. set_solver. }
  repeat case_bool_decide; simpl; set_solver.
Qed.

(** Converting a legacy allow-list reads it exactly.  For an operation of
    the current catalog the converted profile answers: on if the list enabled
    it, off if it existed when the list was saved and was not enabled, and its
    default otherwise (it was added later); so for every operation that existed
    then the answer is the legacy list's own.  An operation outside the catalog
    is on exactly when the list enabled it.  The result does not depend on the
    order the runtime iterates the id map. *)
Theorem convertLegacy_exact p c d existedAt order :
  profile_ok p → Legacy p = true → clean_catalog c →
  let enabled := trimmedSet (LegacyEnabledOperations p) in
  let existed := trimmedSet existedAt in
  order ≡ₚ elements (legacyIDs c enabled existed) →
  let q := convertLegacyIn order p c d enabled existed in
  (∀ o, o ∈ cat_Operations c →
     Allows (Some q) o d =
       Allows (Some p) o d || (Includes d o && negb (bool_decide (op_ID o ∈ existed)))) ∧
  (∀ o, o ∈ cat_Operations c → op_ID o ∈ existed →
     Allows (Some q) o d = Allows (Some p) o d) ∧
  (∀ id, TrimSpace id ∉ op_ID <$> cat_Operations c →
     AllowsUnlisted (Some q) id = AllowsUnlisted (Some p) id).
Proof.
  intros Hp Hl Hc enabled existed Horder q. unfold q. clear q.
  rewrite convertLegacyIn_order by done.
  assert (Hen : ∀ x, bool_decide (x ∈ enabled) = contains (LegacyEnabledOperations p) x).
  { intros x. apply bool_decide_ext. unfold enabled. rewrite elem_of_trimmedSet.
    destruct (pok_legacy _ Hp) as (_ & _ & Hn). split.
    - intros (? & y & Hy & <-). by destruct (Hn y Hy) as [-> _].
    - intros Hx. destruct (Hn x Hx). eauto. }
  assert (Hq : ∀ o, o ∈ cat_Operations c →
     Allows (Some (convertLegacy p c d enabled existed)) o d =
       Allows (Some p) o d || (Includes d o && negb (bool_decide (op_ID o ∈ existed)))).
  { intros o Ho. destruct (proj2 Hc o Ho) as [Ht Hne].
    destruct (convertLegacy_mem p c d enabled existed (op_ID o)) as [Hdis Hext].
    unfold Allows, allowsID. rewrite Ht, Hl.
    change (Legacy (convertLegacy p c d enabled existed)) with false. cbv iota.
    unfold contains at 1 2. rewrite (bool_decide_ext _ _ Hdis), (bool_decide_ext _ _ Hext).
    unfold classifyLegacyOperation.
    rewrite (proj2 (inCatalogMap_lookup c (op_ID o) Hc o)) by done. rewrite Hen.
    destruct (Includes d o), (contains _ _), (bool_decide (op_ID o ∈ existed)); done. }
  split_and!; [done|..].
  - intros o Ho Hex. rewrite (Hq o Ho), (bool_decide_true (op_ID o ∈ existed)) by done.
    simpl. by rewrite andb_false_r, orb_false_r.
  - intros id Hid. unfold AllowsUnlisted, allowsID. rewrite Hl.
    change (Legacy (convertLegacy p c d enabled existed)) with false. cbv iota.
    destruct (convertLegacy_mem p c d enabled existed (TrimSpace id)) as [_ Hext].
    unfold contains at 1. rewrite (bool_decide_ext _ _ Hext), <-Hen.
    unfold classifyLegacyOperation.
    destruct (inCatalogMap c !! TrimSpace id) as [o|] eqn:E.
    { apply inCatalogMap_lookup in E as [Ho Heq]; [|done]. exfalso. apply Hid.
      rewrite <-Heq. by apply list_elem_of_fmap_2. }
    rewrite andb_false_l. repeat case_bool_decide; simpl; done.
Qed.

Lemma convertLegacy_exact_witness :
  let c := catalog_of [op "a" true; op "b" true; op "new" true] in
  let p := NewLegacyAppAccessProfile "u" "x" ["a"] 0 in
  let d := AppAccessDefaultsFor None in
  let q := convertLegacyIn ["new"; "b"; "a"; "graphql"] p c d {["a"]}
             (trimmedSet ["a"; "b"]) in
  Allows (Some q) (op "b" true) d = false ∧ Allows (Some q) (op "new" true) d = true ∧
  AllowsUnlisted (Some q) "graphql" = AllowsUnlisted (Some p) "graphql".
Proof.
  intros c p d q. split; [vm_compute; reflexivity|]. split; [vm_compute; reflexivity|].
  destruct (convertLegacy_exact p c d ["a"; "b"] ["new"; "b"; "a"; "graphql"])
    as (_ & _ & H).
  - split; [apply ids_normal_nil..|apply MergeAppAccessIDs_normal|reflexivity].
  - reflexivity.
  - by apply clean_catalog_of.
  - apply NoDup_Permutation; [apply (bool_decide_eq_true _); vm_compute; reflexivity
                             |apply NoDup_elements|].
    intros x. rewrite elem_of_elements.
    assert (legacyIDs c (trimmedSet (LegacyEnabledOperations p)) (trimmedSet ["a"; "b"])
              = {["new"; "b"; "a"; "graphql"]}) as -> by (vm_compute; reflexivity).
    set_solver.
  - apply H. apply (bool_decide_eq_false _). reflexivity.
Defined.

(** ** Reading a legacy profile *)

Lemma historyCoversEnabled_spec c enabled existed :
  clean_catalog c →
  historyCoversEnabled c enabled existed = true ↔
  ∀ o, o ∈ cat_Operations c → op_ID o ∈ enabled → op_ID o ∈ existed.
Proof.
  intros [_ Hc]. unfold historyCoversEnabled. rewrite forallb_forall.
  setoid_rewrite <-list_elem_of_In. split.
  - intros H o Ho Hen. specialize (H o Ho). simpl in H.
    rewrite (proj1 (Hc o Ho)), (bool_decide_true (op_ID o ∈ enabled)) in H by done.
    by bool_props.
  - intros H o Ho. simpl. rewrite (proj1 (Hc o Ho)).
    case_bool_decide; [|done]. apply bool_decide_eq_true. by apply H.
Qed.

(**  The read-time view of a legacy profile never guesses: the profile comes
    back unchanged for every reason but [LegacyConverted], and that one is
    returned exactly when the profile is legacy, the catalog is present, the
    history answers without error for the save time and contains every enabled
    operation the catalog still has. *)
Theorem ResolveLegacy_reasons {E} (history : option (OperationHistory E)) p c d r reason err :
  clean_catalog c →
  ResolveLegacyAppAccessProfile history (Some p) (Some c) d = (r, reason, err) →
  (reason ≠ LegacyConverted → r = Some p) ∧
  (is_Some err ↔ reason = LegacyKeptHistoryError) ∧
  (reason = LegacyConverted ↔
     Legacy p = true ∧ ∃ operationsAt existedAt,
       history = Some operationsAt ∧ operationsAt (App p) (UpdatedAt p) = Ok (existedAt, true) ∧
       (∀ o, o ∈ cat_Operations c → op_ID o ∈ trimmedSet (LegacyEnabledOperations p) →
             op_ID o ∈ trimmedSet existedAt) ∧
       r = ConvertLegacyAppAccessProfile (Some p) (Some c) d existedAt).
Proof.
  intros Hc. unfold ResolveLegacyAppAccessProfile, ConvertLegacyAppAccessProfile.
  destruct (Legacy p) eqn:El; simpl.
  2: { intros [= <- <- <-]. split_and!; [done|by split; [intros []|]|naive_solver]. }
  destruct history as [h|]; simpl.
  2: { intros [= <- <- <-]. split_and!; [done|by split; [intros []|]|naive_solver]. }
  destruct (h (App p) (UpdatedAt p)) as [[existedAt known]|e] eqn:Eh.
  2: { intros [= <- <- <-]. split_and!; [done|by split|].
       split; [done|]. intros (_ & h' & ex & [= <-] & Hex & _). congruence. }
  destruct known; simpl.
  2: { intros [= <- <- <-]. split_and!; [done|by split; [intros []|]|].
       split; [done|]. intros (_ & h' & ex & [= <-] & Hex & _). congruence. }
  destruct (historyCoversEnabled _ _ _) eqn:Ecov; simpl; intros [= <- <- <-].
  - rewrite historyCoversEnabled_spec in Ecov by done.
    split_and!; [done|by split; [intros []|]|]. split; [|done]. intros _. eauto 10.
  - split_and!; [done|by split; [intros []|]|]. split; [done|].
    intros (_ & h' & ex & [= <-] & Hex & Hcov & _). rewrite Eh in Hex.
    injection Hex as <-. apply historyCoversEnabled_spec in Hcov; [congruence|done].
Qed.

Lemma ResolveLegacy_reasons_witness :
  let c := catalog_of [op "a" true; op "b" true] in
  let p := NewLegacyAppAccessProfile "u" "x" ["a"] 7 in
  let history : OperationHistory unit := λ _ _, Ok (["b"], true) in
  ResolveLegacyAppAccessProfile (Some history) (Some p) (Some c)
    (AppAccessDefaultsFor None) = (Some p, LegacyKeptHistoryIncomplete, None) ∧
  Some p = Some p.
Proof.
  intros c p history.
  assert (E : ResolveLegacyAppAccessProfile (Some history) (Some p) (Some c)
    (AppAccessDefaultsFor None) = (Some p, LegacyKeptHistoryIncomplete, None))
    by (vm_compute; reflexivity).
  split; [exact E|].
  apply (ResolveLegacy_reasons (Some history) p c (AppAccessDefaultsFor None)
           (Some p) LegacyKeptHistoryIncomplete None); [|exact E|discriminate].
  by apply clean_catalog_of.
Defined.

(** The set built by [AppAccessDefaultsFor] and the scan that literals fall back
    to answer alike for every operation with a non-blank id. *)
Lemma Includes_set_scan listed o :
  TrimSpace (op_ID o) ≠ "" →
  Includes (AppAccessDefaultsFor (Some (listed, true))) o =
  Includes {| Configured := true; Listed := listed; listedSet := None |} o.
Proof.
  intros Hne. unfold Includes. simpl. apply eq_true_iff_eq.
  rewrite bool_decide_eq_true, elem_of_trimmedSet, existsb_exists. split.
  - intros (_ & y & Hy & Heq). exists y. split; [by apply list_elem_of_In|].
    by apply bool_decide_eq_true.
  - intros (y & Hy & Heq). bool_props. split; [done|]. exists y.
    split; [by apply list_elem_of_In|done].
Qed.

(** ** Persistence *)


(** Reading back a row gives the profile that was written, for the profiles the
    service writes: relative, normal, at millisecond precision. *)
Lemma profile_row_roundtrip p :
  profile_ok p → Legacy p = false → DefaultsInitialized p = true →
  TrimSpace (SubjectID p) = SubjectID p → TrimSpace (App p) = App p →
  Truncate (UpdatedAt p) Millisecond = UpdatedAt p →
  recordToAppAccessProfile (appAccessProfileRecord p) = Ok p.
Proof.
  intros [Hd He _ Hv] Hl Hi Hs Ha Hu. unfold recordToAppAccessProfile. simpl.
  unfold NewRelativeAppAccessProfile.
  rewrite !normalize_is_merge, !(MergeAppAccessIDs_id (MergeAppAccessIDs _ _))
    by apply MergeAppAccessIDs_normal.
  rewrite !MergeAppAccessIDs_id, Hs, Ha, Hu by done.
  destruct p as [s a dd ee l [] i u]; simpl in *; [done|]. subst i.
  unfold ValidateProfile in Hv. simpl in Hv.
  destruct l as [|x l]; simpl in Hv; [done|]. by destruct (0 <? S (length l)).
Qed.

Lemma validateAppAccessProfileKey_ok subject app key s a :
  validateAppAccessProfileKey subject app = Ok (key, s, a) →
  s = TrimSpace subject ∧ a = TrimSpace app ∧ s ≠ "" ∧ a ≠ "" ∧
  key = s +:+ appAccessProfileKeySep +:+ a ∧ TrimSpace s = s ∧ TrimSpace a = a ∧
  validateAppAccessProfileKey s a = Ok (key, s, a).
Proof.
  unfold validateAppAccessProfileKey.
  destruct (bool_decide (TrimSpace subject = "")) eqn:Es; [done|].
  destruct (bool_decide (TrimSpace app = "")) eqn:Ea; [done|]. simpl.
  intros [= <- <- <-]. rewrite !TrimSpace_idem, Es, Ea. by bool_props.
Qed.

(** The profile store round-trips: after [SetAppAccessOverrides] the
    stored profile is the one returned, a read gives it back with exactly the
    normalised decisions, and no other key's row changes; and
    [EnsureAppAccessDefaults] never changes an existing row, while on a missing
    one it stores a profile that follows the defaults. *)
Theorem profile_store_roundtrip db subject app disabled extra now db' p :
  SetAppAccessOverrides db subject app disabled extra now = (db', Ok p) →
  GetAppAccessProfile db' subject app = Ok (Some p) ∧
  profile_ok p ∧
  DisabledOperations p = MergeAppAccessIDs disabled [] ∧
  ExtraOperations p = MergeAppAccessIDs extra [] ∧
  (∀ key, key ≠ TrimSpace subject +:+ appAccessProfileKeySep +:+ TrimSpace app →
          db' !! key = db !! key) ∧
  (∀ later, EnsureAppAccessDefaults db' subject app later = (db', Ok (Some p))).
Proof.
  unfold SetAppAccessOverrides, GetAppAccessProfile, EnsureAppAccessDefaults.
  destruct (validateAppAccessProfileKey subject app) as [[[key s] a]|] eqn:Ek; [|done].
  pose proof (validateAppAccessProfileKey_ok _ _ _ _ _ Ek) as
    (-> & -> & _ & _ & -> & _ & _ & Ek').
  set (q := {| SubjectID := _ |}). intros [= <- <-].
  assert (Hq : profile_ok q).
  { split; simpl; rewrite ?normalize_is_merge;
      [apply MergeAppAccessIDs_normal..|apply ids_normal_nil|done]. }
  assert (Hrow : recordToAppAccessProfile (appAccessProfileRecord q) = Ok q).
  { apply profile_row_roundtrip; simpl; try done; try apply TrimSpace_idem.
    by apply Truncate_idem. }
  split_and!; [|done|by apply normalize_is_merge..| |].
  - unfold rbind at 1. rewrite !TrimSpace_idem, lookup_insert_eq, Hrow. done.
  - intros key Hkey. rewrite !TrimSpace_idem. by rewrite lookup_insert_ne.
  - intros later. simpl row_id. rewrite !TrimSpace_idem, lookup_insert_eq.
    unfold GetAppAccessProfile. rewrite Ek'. unfold rbind at 1.
    by rewrite lookup_insert_eq, Hrow.
Qed.

Lemma profile_store_roundtrip_witness :
  ∃ db' p, SetAppAccessOverrides ∅ " user:1 " "github" ["b"; " a"; "b"] [] 1500000%Z = (db', Ok p) ∧
    GetAppAccessProfile db' "user:1" "github" = Ok (Some p) ∧
    DisabledOperations p = ["a"; "b"].
Proof.
  eexists _, _. split; [vm_compute; reflexivity|]. split; [|reflexivity].
  apply (profile_store_roundtrip ∅ " user:1 " "github" ["b"; " a"; "b"] [] 1500000%Z).
  vm_compute. reflexivity.
Defined.
End AppAccess.
