(* ===== verification/ObjectStore.v ===== *)
(** * ObjectStore: records, store calls, transactions and interleavings

    The services of [gestaltd/internal/coredata] keep their rows in IndexedDB
    object stores ([sdk/go/indexeddb/interfaces.go]); the backend is a provider
    outside the repository.  This file states what they rely on: a store maps
    the [id] column to a record, a call may fail without effect, and a
    read-write transaction is atomic.

    A service method is a [prog]: a tree of atomic calls on the database, so
    that the same definition can be run alone ([run]) and interleaved with
    others at the granularity of its calls ([exec]).  It also models the typed
    accessors of [internal/coredata/convert.go]. *)

From stdpp Require Import base gmap strings list sorting sets.
From Stdlib Require Import ZArith Ascii SpecFloat Lia.
From S2P Require Import Prelude.

Set Default Goal Selector "!".

(** ** Programs of atomic calls *)

Inductive prog (W A : Type) : Type :=
  | Ret (a : A)
  | Call (B : Type) (c : W → B * W) (k : B → prog W A).
Arguments Ret {W A} _.
Arguments Call {W A} B _ _.

Fixpoint pbind {W A B} (f : A → prog W B) (m : prog W A) : prog W B :=
  match m with
  | Ret a => f a
  | Call C c k => Call C c (λ x, pbind f (k x))
  end.

#[export] Instance prog_ret {W} : MRet (prog W) := λ _, Ret.
#[export] Instance prog_bind {W} : MBind (prog W) := λ _ _, pbind.

Definition atomic {W A} (c : W → A * W) : prog W A := Call A c Ret.

Fixpoint run {W A} (m : prog W A) (w : W) : A * W :=
  match m with
  | Ret a => (a, w)
  | Call B c k => let '(b, w') := c w in run (k b) w'
  end.

Lemma run_bind {W A B} (f : A → prog W B) m w :
  run (m ≫= f) w = let '(a, w') := run m w in run (f a) w'.
Proof.
  unfold mbind, prog_bind. revert w.
  induction m as [a|C c k IH]; intros w; simpl; [done|].
  destruct (c w) as [b w']. apply IH.
Qed.

Lemma run_atomic {W A} (c : W → A * W) w : run (atomic c) w = c w.
Proof. simpl. by destruct (c w). Qed.

(** ** Interleaving

    A configuration is the shared database and one program per process; a
    schedule names the process that makes its next call. *)
Definition config W A : Type := W * list (prog W A).

Definition sched_step {W A} (i : nat) (cfg : config W A) : config W A :=
  let '(w, ts) := cfg in
  match ts !! i with
  | Some (Call B c k) => let '(b, w') := c w in (w', <[i := k b]> ts)
  | _ => cfg
  end.

Fixpoint exec {W A} (schedule : list nat) (cfg : config W A) : config W A :=
  match schedule with
  | [] => cfg
  | i :: schedule => exec schedule (sched_step i cfg)
  end.

(** The same as a step relation. *)
Inductive cstep {W A} : config W A → config W A → Prop :=
  | cstep_call w ts i B c k b w' :
      ts !! i = Some (Call B c k) → c w = (b, w') →
      cstep (w, ts) (w', <[i := k b]> ts).

Definition result_of {W A} (m : prog W A) : option A :=
  match m with Ret a => Some a | Call _ _ _ => None end.

Lemma exec_reachable {W A} schedule (cfg : config W A) :
  rtc cstep cfg (exec schedule cfg).
Proof.
  revert cfg. induction schedule as [|i s IH]; intros [w ts]; simpl; [done|].
  destruct (ts !! i) as [[a|B c k]|] eqn:E; [apply IH| |apply IH].
  destruct (c w) as [b w'] eqn:Ec.
  eapply rtc_l; [|apply IH]. by eapply cstep_call.
Qed.

(** Programs of at most one call: a process running one takes its whole effect
    in the step that the schedule gives it. *)
Definition single_call {W A} (m : prog W A) : Prop :=
  match m with Ret _ => True | Call _ _ k => ∀ b, ∃ a, k b = Ret a end.

Lemma sched_step_single {W A} i w (ts : list (prog W A)) m :
  ts !! i = Some m → single_call m →
  sched_step i (w, ts) = ((run m w).2, <[i := Ret (run m w).1]> ts).
Proof.
  intros Hi Hm. unfold sched_step. rewrite Hi. destruct m as [a|B c k]; simpl.
  - by rewrite list_insert_id.
  - destruct (c w) as [b w'] eqn:E. simpl. destruct (Hm b) as [a ->]. done.
Qed.

(** ** Records and their accessors *)

Abbreviation idbRecord := (gmap string any).

(** [time.Parse] with the two layouts the accessors try in turn, yielding the
    zero time on failure. *)
Class TimeParser := ParseTime : string → time.

Definition string_of_bytes (b : bytes) : string := String.string_of_list_ascii b.

Definition recString (rec : idbRecord) (key : string) : string :=
  match rec !! key with
  | Some (AString s) => s
  | Some (ABytes b) => string_of_bytes b
  | _ => ""
  end.

Definition recTime `{TimeParser} (rec : idbRecord) (key : string) : time :=
  match rec !! key with
  | Some (ATime t) => t
  | Some (AString s) => ParseTime s
  | _ => zero_time
  end.

Definition recBool (rec : idbRecord) (key : string) : bool :=
  match rec !! key with
  | Some (ABool b) => b
  | _ => false
  end.

(** Conversion of a float to an integer truncates toward zero. *)
Definition float_trunc (f : spec_float) : Z :=
  match f with
  | S754_finite s m e =>
      let a := (if 0 <=? e then Z.pos m * 2 ^ e else Z.pos m / 2 ^ (- e))%Z in
      if s then (- a)%Z else a
  | _ => 0%Z
  end.

Definition recordInt (rec : idbRecord) (key : string) : Z :=
  match rec !! key with
  | Some (AInt w n) =>
      if bool_decide (w = 0 ∨ w = 32 ∨ w = 64)%N then n else 0%Z
  | Some (AFloat w f) => if bool_decide (w = 64)%N then float_trunc f else 0%Z
  | _ => 0%Z
  end.

(** ** Calls *)

Inductive DBError := ErrNotFound | ErrAlreadyExists | ErrIO.

#[export] Instance DBError_eq_dec : EqDecision DBError.
Proof. solve_decision. Defined.

(** A database with pending faults: the head of [faults] says whether the next
    call fails. *)
Record Env (W : Type) := mkEnv { contents : W; faults : list bool }.
Arguments mkEnv {W} _ _.
Arguments contents {W} _.
Arguments faults {W} _.

Definition pop_fault {W} (env : Env W) : bool * Env W :=
  match faults env with
  | [] => (false, env)
  | b :: fs => (b, mkEnv (contents env) fs)
  end.

(** Run an operation on the contents unless the call fails. *)
Definition fallible {W A} (f : W → result DBError A * W) (env : Env W)
    : result DBError A * Env W :=
  let '(fault, env) := pop_fault env in
  if fault then (Err ErrIO, env)
  else let '(r, w) := f (contents env) in (r, mkEnv w (faults env)).

(** One object store of a database: where its rows are. *)
Class ObjectStore (W : Type) := {
  rows : W → gmap string idbRecord;
  with_rows : gmap string idbRecord → W → W;
  rows_with : ∀ m w, rows (with_rows m w) = m;
  with_with : ∀ m1 m2 w, with_rows m1 (with_rows m2 w) = with_rows m1 w;
  with_id : ∀ w, with_rows (rows w) w = w }.

Definition record_id (rec : idbRecord) : string := recString rec "id".

Definition key_le (a b : string * idbRecord) : Prop := String.le a.1 b.1.
#[export] Instance key_le_dec a b : Decision (key_le a b) := _.

(** The rows in the order of their keys. *)
Definition sorted_rows (m : gmap string idbRecord) : list idbRecord :=
  (merge_sort key_le (map_to_list m)).*2.

Lemma elem_of_sorted_rows m rec : rec ∈ sorted_rows m ↔ ∃ k, m !! k = Some rec.
Proof.
  unfold sorted_rows. rewrite list_elem_of_fmap. setoid_rewrite merge_sort_Permutation.
  split.
  - intros ([k r] & -> & H%elem_of_map_to_list). by exists k.
  - intros [k Hk%elem_of_map_to_list]. by exists (k, rec).
Qed.

(** Rows stored under their own identifiers are listed once. *)
Lemma NoDup_sorted_rows m :
  (∀ key rec, m !! key = Some rec → record_id rec = key) → NoDup (record_id <$> sorted_rows m).
Proof.
  intros Hwf. unfold sorted_rows.
  rewrite (fmap_Permutation record_id _ (map_to_list m).*2).
  2:{ apply fmap_Permutation, merge_sort_Permutation. }
  rewrite <-list_fmap_compose.
  rewrite (list_fmap_ext _ fst).
  - apply NoDup_fst_map_to_list.
  - intros i [k rec] Hi. apply list_elem_of_lookup_2, elem_of_map_to_list in Hi. cbn. by apply Hwf.
Qed.

Section calls.
  Context {W : Type} `{OS : ObjectStore W}.

Definition get_row (key : string) (w : W) : result DBError idbRecord * W :=
  (match rows w !! key with Some rec => Ok rec | None => Err ErrNotFound end, w).
Definition add_row (rec : idbRecord) (w : W) : result DBError unit * W :=
  match rows w !! record_id rec with
  | Some _ => (Err ErrAlreadyExists, w)
  | None => (Ok tt, with_rows (<[record_id rec := rec]> (rows w)) w)
  end.
Definition put_row (rec : idbRecord) (w : W) : result DBError unit * W :=
  (Ok tt, with_rows (<[record_id rec := rec]> (rows w)) w).
Definition delete_row (key : string) (w : W) : result DBError unit * W :=
  (Ok tt, with_rows (delete key (rows w)) w).
Definition all_rows (w : W) : result DBError (list idbRecord) * W :=
  (Ok (sorted_rows (rows w)), w).

(** [GetAll(ctx, key, 1)]: the rows whose primary key is [key]. *)
Definition rows_at (key : string) (w : W) : result DBError (list idbRecord) * W :=
  (Ok (match rows w !! key with Some rec => [rec] | None => [] end), w).

Definition Get (key : string) : prog (Env W) (result DBError idbRecord) :=
  atomic (fallible (get_row key)).
Definition Add (rec : idbRecord) : prog (Env W) (result DBError unit) :=
  atomic (fallible (add_row rec)).
Definition Put (rec : idbRecord) : prog (Env W) (result DBError unit) :=
  atomic (fallible (put_row rec)).
Definition Delete (key : string) : prog (Env W) (result DBError unit) :=
  atomic (fallible (delete_row key)).
Definition GetAll : prog (Env W) (result DBError (list idbRecord)) :=
  atomic (fallible all_rows).
Definition GetAllAt (key : string) : prog (Env W) (result DBError (list idbRecord)) :=
  atomic (fallible (rows_at key)).

(** [Index(...).GetAll(ctx, query)]: the rows whose index key satisfies the query, in
    the order of the index keys and then of the primary keys. *)
Definition select (p : idbRecord → bool) (w : W) : list idbRecord :=
  filter (λ rec, p rec = true) (sorted_rows (rows w)).
Definition IndexGetAll (p : idbRecord → bool) : prog (Env W) (result DBError (list idbRecord)) :=
  atomic (fallible (λ w, (Ok (select p w), w))).
Definition IndexGetAllBy (le : relation idbRecord) `{∀ a b, Decision (le a b)} (p : idbRecord → bool)
    : prog (Env W) (result DBError (list idbRecord)) :=
  atomic (fallible (λ w, (Ok (merge_sort le (select p w)), w))).

Lemma elem_of_select p w rec :
  rec ∈ select p w ↔ p rec = true ∧ ∃ k, rows w !! k = Some rec.
Proof. unfold select. by rewrite list_elem_of_filter, elem_of_sorted_rows. Qed.

(** A row under a new key adds itself to a query it satisfies, and nothing else. *)
Lemma select_add p w rec :
  rows w !! record_id rec = None →
  select p (with_rows (<[record_id rec := rec]> (rows w)) w)
  ≡ₚ (if p rec then [rec] else []) ++ select p w.
Proof.
  intros Hnew. unfold select, sorted_rows. rewrite rows_with.
  rewrite !merge_sort_Permutation, map_to_list_insert by done.
  rewrite fmap_cons. cbn [snd]. destruct (p rec) eqn:E;
    [by rewrite filter_cons_True|by rewrite filter_cons_False by congruence].
Qed.
End calls.

Definition Commit {W} : prog (Env W) (result DBError unit) :=
  atomic (fallible (λ w, (Ok tt, w))).

(** A read-write transaction: the body runs as one atomic step and says whether
    it committed; otherwise the deferred [Abort] discards its writes. *)
Definition Transaction {W A} (body : prog (Env W) (A * bool))
    : prog (Env W) (result DBError A) :=
  atomic (λ env,
    let '(fault, env0) := pop_fault env in
    if fault then (Err ErrIO, env0)
    else let '((a, committed), env1) := run body env0 in
         (Ok a, if committed then env1 else mkEnv (contents env0) (faults env1))).

Lemma run_Transaction {W A} (body : prog (Env W) (A * bool)) env :
  run (Transaction body) env =
  let '(fault, env0) := pop_fault env in
  if fault then (Err ErrIO, env0)
  else let '((a, committed), env1) := run body env0 in
       (Ok a, if committed then env1 else mkEnv (contents env0) (faults env1)).
Proof. apply run_atomic. Qed.

(** The store with nothing else in the database. *)
#[export] Program Instance single_store : ObjectStore (gmap string idbRecord) :=
  {| rows m := m; with_rows m _ := m |}.
Solve Obligations with done.

(** Two stores side by side, for transactions that span both. *)
Definition left_store W1 W2 `{ObjectStore W1} : ObjectStore (W1 * W2).
Proof.
  refine {| rows w := rows w.1; with_rows m w := (with_rows m w.1, w.2) |}.
  - intros m [w1 w2]. simpl. apply rows_with.
  - intros m1 m2 [w1 w2]. simpl. f_equal. apply with_with.
  - intros [w1 w2]. simpl. f_equal. apply with_id.
Defined.
Definition right_store W1 W2 `{ObjectStore W2} : ObjectStore (W1 * W2).
Proof.
  refine {| rows w := rows w.2; with_rows m w := (w.1, with_rows m w.2) |}.
  - intros m [w1 w2]. simpl. apply rows_with.
  - intros m1 m2 [w1 w2]. simpl. f_equal. apply with_with.
  - intros [w1 w2]. simpl. f_equal. apply with_id.
Defined.

(** Two object stores of one database share no row. *)
Class Apart {W} (s1 s2 : ObjectStore W) : Prop := {
  apart_left : ∀ m w, rows (ObjectStore := s1) (with_rows (ObjectStore := s2) m w)
                      = rows (ObjectStore := s1) w;
  apart_right : ∀ m w, rows (ObjectStore := s2) (with_rows (ObjectStore := s1) m w)
                       = rows (ObjectStore := s2) w }.

#[export] Instance left_right_apart W1 W2 (s1 : ObjectStore W1) (s2 : ObjectStore W2) :
  Apart (left_store W1 W2) (right_store W1 W2).
Proof. by split. Qed.

#[export] Instance right_left_apart W1 W2 (s1 : ObjectStore W1) (s2 : ObjectStore W2) :
  Apart (right_store W1 W2) (left_store W1 W2).
Proof. by split. Qed.

#[export] Instance left_left_apart W1 W2 (s1 s2 : ObjectStore W1) :
  Apart s1 s2 → Apart (left_store W1 W2 (H := s1)) (left_store W1 W2 (H := s2)).
Proof. intros [H1 H2]. split; intros m [w1 w2]; cbn; auto. Qed.

#[export] Instance right_right_apart W1 W2 (s1 s2 : ObjectStore W2) :
  Apart s1 s2 → Apart (right_store W1 W2 (H := s1)) (right_store W1 W2 (H := s2)).
Proof. intros [H1 H2]. split; intros m [w1 w2]; cbn; auto. Qed.

(** ** Reasoning about runs: weakest preconditions

    [wp m Q w] says that running [m] alone from [w] ends in a result and a
    database satisfying [Q].  The rules of the calls are demonic in the faults: a
    call either fails with [ErrIO] and leaves the contents alone, which cannot
    happen when the environment is [benign], or has its effect. *)

Definition wp {W A} (m : prog W A) (Q : A → W → Prop) (w : W) : Prop :=
  Q (run m w).1 (run m w).2.

Definition benign {W} (env : Env W) : Prop := Forall (λ b, b = false) (faults env).

Lemma wp_ret {W A} (a : A) Q (w : W) : Q a w → wp (mret a) Q w.
Proof. done. Qed.

Lemma wp_bind {W A B} (m : prog W A) (f : A → prog W B) Q w :
  wp m (λ a, wp (f a) Q) w → wp (m ≫= f) Q w.
Proof. unfold wp. rewrite run_bind. by destruct (run m w). Qed.

Lemma wp_mono {W A} (m : prog W A) (Q R : A → W → Prop) w :
  wp m Q w → (∀ a w', Q a w' → R a w') → wp m R w.
Proof. unfold wp. auto. Qed.

Lemma wp_conj {W A} (m : prog W A) (Q R : A → W → Prop) w :
  wp m Q w → wp m R w → wp m (λ a w', Q a w' ∧ R a w') w.
Proof. unfold wp. auto. Qed.

Lemma pop_fault_spec {W} (env : Env W) b env' :
  pop_fault env = (b, env') →
  contents env' = contents env ∧ (benign env → b = false ∧ benign env').
Proof.
  unfold pop_fault, benign. destruct (faults env) as [|c fs] eqn:E; intros [= <- <-].
  - split; [done|]. rewrite E. done.
  - split; [done|]. simpl. rewrite Forall_cons. naive_solver.
Qed.

Lemma wp_fallible {W A} (f : W → result DBError A * W) Q (env : Env W) :
  (∀ env', ¬ benign env → contents env' = contents env → Q (Err ErrIO) env') →
  (∀ env', (benign env → benign env') → contents env' = (f (contents env)).2 →
           Q (f (contents env)).1 env') →
  wp (atomic (fallible f)) Q env.
Proof.
  intros Hio Hok. unfold wp. rewrite run_atomic. unfold fallible.
  destruct (pop_fault env) as [[] env0] eqn:E; apply pop_fault_spec in E as [Hc Hb]; simpl.
  - apply Hio; [|done]. by intros [? _]%Hb.
  - rewrite <-Hc in Hok. destruct (f (contents env0)) as [r w]. simpl in *.
    apply Hok; [|done]. by intros [_ ?]%Hb.
Qed.

Section wp_calls.
  Context {W : Type} `{OS : ObjectStore W}.

Lemma wp_Get key Q (env : Env W) :
  (∀ env', ¬ benign env → contents env' = contents env → Q (Err ErrIO) env') →
  (∀ env', (benign env → benign env') → contents env' = contents env →
     Q (match rows (contents env) !! key with
        | Some rec => Ok rec | None => Err ErrNotFound end) env') →
  wp (Get key) Q env.
Proof. exact (wp_fallible (get_row key) Q env). Qed.

Lemma wp_Add rec Q (env : Env W) :
  (∀ env', ¬ benign env → contents env' = contents env → Q (Err ErrIO) env') →
  (∀ env', (benign env → benign env') → is_Some (rows (contents env) !! record_id rec) →
     contents env' = contents env → Q (Err ErrAlreadyExists) env') →
  (∀ env', (benign env → benign env') → rows (contents env) !! record_id rec = None →
     contents env' = with_rows (<[record_id rec := rec]> (rows (contents env))) (contents env) →
     Q (Ok tt) env') →
  wp (Add rec) Q env.
Proof.
  intros Hio Hex Hok. apply wp_fallible; [done|]. unfold add_row.
  destruct (rows (contents env) !! record_id rec) eqn:E; simpl; eauto.
Qed.

Lemma wp_Put rec Q (env : Env W) :
  (∀ env', ¬ benign env → contents env' = contents env → Q (Err ErrIO) env') →
  (∀ env', (benign env → benign env') →
     contents env' = with_rows (<[record_id rec := rec]> (rows (contents env))) (contents env) →
     Q (Ok tt) env') →
  wp (Put rec) Q env.
Proof. exact (wp_fallible (put_row rec) Q env). Qed.

Lemma wp_Delete key Q (env : Env W) :
  (∀ env', ¬ benign env → contents env' = contents env → Q (Err ErrIO) env') →
  (∀ env', (benign env → benign env') →
     contents env' = with_rows (delete key (rows (contents env))) (contents env) →
     Q (Ok tt) env') →
  wp (Delete key) Q env.
Proof. exact (wp_fallible (delete_row key) Q env). Qed.

Lemma wp_GetAll Q (env : Env W) :
  (∀ env', ¬ benign env → contents env' = contents env → Q (Err ErrIO) env') →
  (∀ env', (benign env → benign env') → contents env' = contents env →
     Q (Ok (sorted_rows (rows (contents env)))) env') →
  wp GetAll Q env.
Proof. exact (wp_fallible (all_rows) Q env). Qed.

Lemma wp_GetAllAt key Q (env : Env W) :
  (∀ env', ¬ benign env → contents env' = contents env → Q (Err ErrIO) env') →
  (∀ env', (benign env → benign env') → contents env' = contents env →
     Q (Ok (match rows (contents env) !! key with Some rec => [rec] | None => [] end)) env') →
  wp (GetAllAt key) Q env.
Proof. exact (wp_fallible (rows_at key) Q env). Qed.

Lemma wp_IndexGetAll p Q (env : Env W) :
  (∀ env', ¬ benign env → contents env' = contents env → Q (Err ErrIO) env') →
  (∀ env', (benign env → benign env') → contents env' = contents env →
     Q (Ok (select p (contents env))) env') →
  wp (IndexGetAll p) Q env.
Proof. exact (wp_fallible (λ w, (Ok (select p w), w)) Q env). Qed.

Lemma wp_IndexGetAllBy le `{∀ a b, Decision (le a b)} p Q (env : Env W) :
  (∀ env', ¬ benign env → contents env' = contents env → Q (Err ErrIO) env') →
  (∀ env', (benign env → benign env') → contents env' = contents env →
     Q (Ok (merge_sort le (select p (contents env)))) env') →
  wp (IndexGetAllBy le p) Q env.
Proof. exact (wp_fallible (λ w, (Ok (merge_sort le (select p w)), w)) Q env). Qed.

Lemma wp_Commit Q (env : Env W) :
  (∀ env', ¬ benign env → contents env' = contents env → Q (Err ErrIO) env') →
  (∀ env', (benign env → benign env') → contents env' = contents env → Q (Ok tt) env') →
  wp Commit Q env.
Proof. exact (wp_fallible (λ w, (Ok tt, w)) Q env). Qed.

Lemma wp_Transaction {A} (body : prog (Env W) (A * bool)) Q (env : Env W) :
  (∀ env', ¬ benign env → contents env' = contents env → Q (Err ErrIO) env') →
  (∀ env0, (benign env → benign env0) → contents env0 = contents env →
     wp body (λ r env1, ∀ env2, (benign env1 → benign env2) →
                contents env2 = (if r.2 then contents env1 else contents env) →
                Q (Ok r.1) env2) env0) →
  wp (Transaction body) Q env.
Proof.
  intros Hio Hok. unfold wp. rewrite run_Transaction.
  destruct (pop_fault env) as [[] env0] eqn:E; apply pop_fault_spec in E as [Hc Hb]; simpl.
  - apply Hio; [|done]. by intros [? _]%Hb.
  - specialize (Hok env0). unfold wp in Hok.
    destruct (run body env0) as [[a []] env1]; simpl in *;
      (apply Hok; [by intros [_ ?]%Hb|done|done|]); simpl; congruence.
Qed.
End wp_calls.

#[global] Arguments pbind : simpl never.
#[global] Arguments mbind {_ _ _ _} _ _ : simpl never.

(** Walk through a program call by call. *)
Ltac wp_step :=
  lazymatch goal with
  | |- wp (mret _) _ _ => apply wp_ret
  | |- wp (Ret _) _ _ => apply wp_ret
  | |- wp (_ ≫= _) _ _ => apply wp_bind
  | |- wp (Get _) _ _ => apply wp_Get
  | |- wp (Add _) _ _ => apply wp_Add
  | |- wp (Put _) _ _ => apply wp_Put
  | |- wp (Delete _) _ _ => apply wp_Delete
  | |- wp GetAll _ _ => apply wp_GetAll
  | |- wp (GetAllAt _) _ _ => apply wp_GetAllAt
  | |- wp (IndexGetAll _) _ _ => apply wp_IndexGetAll
  | |- wp (IndexGetAllBy _ _) _ _ => apply wp_IndexGetAllBy
  | |- wp Commit _ _ => apply wp_Commit
  | |- wp (Transaction _) _ _ => apply wp_Transaction
  end.

(** ** Frames

    [keeps R m] says that every call of [m] changes the contents only along [R],
    whatever the faults.  A program that never calls on a store leaves its rows alone; a
    program of reads leaves the contents alone. *)

Section keeps.
  Context {W : Type} (R : relation W) `{!PreOrder R}.

Inductive keeps {A} : prog (Env W) A → Prop :=
  | keeps_ret a : keeps (Ret a)
  | keeps_call B c k :
      (∀ env, R (contents env) (contents (c env).2) ∧ (benign env → benign (c env).2)) →
      (∀ b, keeps (k b)) → keeps (Call B c k).

Lemma keeps_run {A} (m : prog (Env W) A) env :
  keeps m → R (contents env) (contents (run m env).2) ∧ (benign env → benign (run m env).2).
Proof.
  intros Hm. revert env. induction Hm as [a|B c k Hc Hk IH]; intros env; [done|].
  cbn. destruct (Hc env) as [HR Hb]. destruct (c env) as [b env']. cbn in *.
  destruct (IH b env') as [HR' Hb']. split; [by etrans|auto].
Qed.

Lemma keeps_bind {A B} (m : prog (Env W) A) (f : A → prog (Env W) B) :
  keeps m → (∀ a, keeps (f a)) → keeps (m ≫= f).
Proof.
  intros Hm Hf. unfold mbind, prog_bind.
  induction Hm as [a|C c k Hc Hk IH]; [apply Hf|]. cbn. by constructor.
Qed.

Lemma keeps_fallible {A} (f : W → result DBError A * W) :
  (∀ w, R w (f w).2) → keeps (atomic (fallible f)).
Proof.
  intros Hf. constructor; [|constructor]. intros env. unfold fallible.
  destruct (pop_fault env) as [[] env0] eqn:E; apply pop_fault_spec in E as [Hc Hb]; cbn.
  - rewrite Hc. split; [done|]. by intros [? _]%Hb.
  - specialize (Hf (contents env0)). rewrite Hc in *.
    destruct (f (contents env)) as [r w]. split; [done|]. by intros [_ ?]%Hb.
Qed.

Lemma keeps_Transaction {A} (body : prog (Env W) (A * bool)) :
  keeps body → keeps (Transaction body).
Proof.
  intros Hbody. constructor; [|constructor]. intros env.
  destruct (pop_fault env) as [[] env0] eqn:E; apply pop_fault_spec in E as [Hc Hb]; cbn.
  - rewrite Hc. split; [done|]. by intros [? _]%Hb.
  - destruct (keeps_run body env0 Hbody) as [HR Hb']. rewrite Hc in *.
    destruct (run body env0) as [[a []] env']; cbn in *; (split; [done|]); intros [_ ?]%Hb; auto.
Qed.

(** A program that keeps [R] can be followed without looking inside. *)
Lemma wp_keeps {A} (m : prog (Env W) A) (Q : A → Env W → Prop) env :
  keeps m →
  (∀ a env', R (contents env) (contents env') → (benign env → benign env') → Q a env') →
  wp m Q env.
Proof. intros Hm HQ. destruct (keeps_run m env Hm). by apply HQ. Qed.
End keeps.

Lemma keeps_mono {W A} (R R' : relation W) (m : prog (Env W) A) :
  (∀ w w', R w w' → R' w w') → keeps R m → keeps R' m.
Proof.
  intros HR Hm. induction Hm as [a|B c k Hc Hk IH]; constructor; [|done].
  intros env. destruct (Hc env). auto.
Qed.

Definition same_rows {W} (s : ObjectStore W) (w w' : W) : Prop :=
  rows (ObjectStore := s) w' = rows (ObjectStore := s) w.

#[export] Instance same_rows_preorder {W} (s : ObjectStore W) : PreOrder (same_rows s).
Proof. split; [done|]. intros w1 w2 w3 H1 H2. unfold same_rows in *. congruence. Qed.

Abbreviation frames s := (keeps (same_rows s)).
Abbreviation quiet := (keeps eq).

(** Writes on another store. *)
Section frames.
  Context {W : Type} (s t : ObjectStore W) `{!Apart s t}.

Lemma frames_Put rec : frames s (Put (OS := t) rec).
Proof. apply keeps_fallible; [apply _|]. intros w. apply (apart_left (s1 := s)). Qed.
Lemma frames_Delete key : frames s (Delete (OS := t) key).
Proof. apply keeps_fallible; [apply _|]. intros w. apply (apart_left (s1 := s)). Qed.
Lemma frames_Add rec : frames s (Add (OS := t) rec).
Proof.
  apply keeps_fallible; [apply _|]. intros w. unfold same_rows, add_row.
  destruct (rows w !! record_id rec); cbn; [done|]. apply (apart_left (s1 := s)).
Qed.
End frames.

Ltac keeps_step :=
  lazymatch goal with
  | |- keeps _ (mret _) => apply keeps_ret
  | |- keeps _ (Ret _) => apply keeps_ret
  | |- keeps _ (_ ≫= _) => apply keeps_bind; [|intros ?]
  | |- keeps _ (Get _) => apply keeps_fallible; [apply _|done]
  | |- keeps _ GetAll => apply keeps_fallible; [apply _|done]
  | |- keeps _ (GetAllAt _) => apply keeps_fallible; [apply _|done]
  | |- keeps _ (IndexGetAll _) => apply keeps_fallible; [apply _|done]
  | |- keeps _ (IndexGetAllBy _ _) => apply keeps_fallible; [apply _|done]
  | |- keeps _ Commit => apply keeps_fallible; [apply _|done]
  | |- keeps _ (Put _) => apply frames_Put; apply _
  | |- keeps _ (Delete _) => apply frames_Delete; apply _
  | |- keeps _ (Add _) => apply frames_Add; apply _
  | |- keeps _ (Transaction _) => apply keeps_Transaction; [apply _|]
  | |- keeps _ (match ?x with _ => _ end) => destruct x
  | |- keeps _ (if ?x then _ else _) => destruct x
  end.
