(* ===== verification/RegistryTypes.v ===== *)
(** * RegistryTypes: the app-registry records of [gestaltd/core/types.go]

    Rollouts, heartbeats, fleet projections and auto-deploy settings.  The Go
    state and mode types are string types: rows may hold any string, so they
    are strings here too, with the source's constants. *)

From stdpp Require Import base gmap strings list sorting sets.
From Stdlib Require Import ZArith Ascii Lia.
From S2P Require Import Prelude.

Set Default Goal Selector "!".

(** ** Instance heartbeats *)

Definition GestaltdInstanceAppState := string.
Definition InstanceAppRunning : GestaltdInstanceAppState := "running".
Definition InstanceAppStarting : GestaltdInstanceAppState := "starting".
Definition InstanceAppNotRunning : GestaltdInstanceAppState := "not_running".
Definition InstanceAppError : GestaltdInstanceAppState := "error".
Definition InstanceAppUnknown : GestaltdInstanceAppState := "unknown".

Record GestaltdInstanceAppHeartbeat := {
  ah_State : GestaltdInstanceAppState;
  ah_DesiredVersion : string;
  ah_RunningVersion : string;
  ah_ObservedAt : time;
  ah_LastError : string }.

Record GestaltdInstanceHeartbeat := {
  hb_InstanceID : string;
  hb_SourceVersion : string;
  hb_StartedAt : time;
  hb_HeartbeatAt : time;
  hb_Apps : gmap string GestaltdInstanceAppHeartbeat }.

(** ** Fleet projections *)

Inductive AppFleetState :=
  | FleetHealthy | FleetConverging | FleetDegraded | FleetUnknown.

Inductive AppFleetReplicaClass :=
  | ClassOnDesired | ClassNotRunning | ClassMismatched | ClassError.

#[export] Instance AppFleetState_eq_dec : EqDecision AppFleetState.
Proof. solve_decision. Defined.
#[export] Instance AppFleetReplicaClass_eq_dec : EqDecision AppFleetReplicaClass.
Proof. solve_decision. Defined.

Record AppFleetReplicaObservation := {
  ro_InstanceID : string;
  ro_StartedAt : time;
  ro_HeartbeatAt : time;
  ro_AppState : GestaltdInstanceAppState;
  ro_RunningVersion : string;
  ro_ObservedDesiredVersion : string;
  ro_ObservedAt : time;
  ro_LastError : string;
  ro_Class : AppFleetReplicaClass }.

Record AppFleetProjection := {
  fp_App : string;
  fp_State : AppFleetState;
  fp_SourceVersion : string;
  fp_DesiredVersion : string;
  fp_MinimumHealthyInstances : Z;
  fp_LiveInstances : Z;
  fp_RunningDesiredVersion : Z;
  fp_NotRunning : Z;
  fp_Mismatched : Z;
  fp_Errors : Z;
  fp_HeartbeatTTL : duration;
  fp_EvaluatedAt : time;
  fp_Replicas : list AppFleetReplicaObservation }.

(** ** Rollouts *)

Definition AppRolloutState := string.
Definition RolloutEnrolling : AppRolloutState := "enrolling".
Definition RolloutRestarting : AppRolloutState := "restarting".
Definition RolloutComplete : AppRolloutState := "complete".
Definition RolloutFailed : AppRolloutState := "failed".

Definition AppRolloutMode := string.
Definition ModeEnrollment : AppRolloutMode := "enrollment".
Definition ModeHeartbeat : AppRolloutMode := "heartbeat".

Record AppRolloutFailureSummary := {
  fs_LiveInstances : Z;
  fs_MinimumHealthyInstances : Z;
  fs_RunningDesiredVersion : Z;
  fs_NotRunning : Z;
  fs_Mismatched : Z;
  fs_Errors : Z;
  fs_SourceVersion : string;
  fs_Version : string;
  fs_EvaluatedAt : time }.

Record AppRollout := {
  r_App : string;
  r_Version : string;
  r_State : AppRolloutState;
  r_Mode : AppRolloutMode;
  r_TargetSourceVersion : string;
  r_MinimumHealthyInstances : Z;
  r_CreatedAt : time;
  r_EnrollmentEndsAt : time;
  r_Deadline : time;
  r_HealthySince : time;
  r_HeartbeatEvaluatedAt : time;
  r_CompletedAt : time;
  r_FailedAt : time;
  r_FailureSummary : option AppRolloutFailureSummary }.

#[export] Instance AppRolloutFailureSummary_eq_dec : EqDecision AppRolloutFailureSummary.
Proof. solve_decision. Defined.
#[export] Instance AppRollout_eq_dec : EqDecision AppRollout.
Proof. solve_decision. Defined.

(** ** Auto-deploy settings *)

Definition AppAutoDeployPauseReason := string.
Definition PauseReasonRolloutFailed : AppAutoDeployPauseReason := "rollout_failed".

Record AppAutoDeploySettings := {
  ad_App : string;
  ad_Enabled : bool;
  ad_Paused : bool;
  ad_PauseReason : AppAutoDeployPauseReason;
  ad_PendingVersion : string;
  ad_LastSeenVersion : string;
  ad_LastError : string;
  ad_LastFailedRolloutAt : time }.

(** ** Installations, change requests and the source version *)

Record AppInstallation := {
  ai_AppName : string; ai_Version : string; ai_SourceRepository : string; ai_SourceRef : string;
  ai_Registry : string; ai_ProviderReleaseURL : string; ai_ArtifactChecksums : gmap string string;
  ai_InstalledBy : string; ai_InstalledAt : time; ai_UpdatedAt : time }.

Record AppVersionChangeRequest := {
  cr_ID : string;
  cr_App : string;
  cr_FromVersion : string;
  cr_ToVersion : string;
  cr_Actor : string;
  cr_Timestamp : time;
  cr_FromVersionDeployableUntil : option time;
  cr_Metadata : gmap string any }.

Record GestaltdSourceVersionState := {
  sv_CurrentSourceVersion : string;
  sv_MinimumHealthyInstances : Z;
  sv_UpdatedAt : time;
  sv_TemporalWorkersPromotedSourceVersion : string;
  sv_TemporalWorkersPromotedAt : time;
  sv_AppDeployPauseOwner : string;
  sv_AppDeployPauseToken : string }.
