(* ===== verification/Rfc3339.v ===== *)
(** * Rfc3339: the text form of times

    The sources print times with [Format(time.RFC3339)] and
    [Format(time.RFC3339Nano)] and read them with [time.Parse].  This file models
    those functions of the Standard Library on UTC times: the proleptic Gregorian
    calendar counted in days since January 1 of year 1, the printer, and the
    parser with its leniencies (a one-digit hour, a comma before the fraction, any
    number of fraction digits, a numeric zone).  It proves that reading what was
    printed gives the time back, truncated to the second for [time.RFC3339]. *)

From stdpp Require Import base gmap strings list option pretty.
From Stdlib Require Import ZArith Ascii Lia.
From S2P Require Import Prelude ObjectStore.

Set Default Goal Selector "!".

Module Rfc3339.
Local Open Scope Z_scope.

(** ** The calendar *)

Definition isLeap (year : Z) : bool :=
  (year mod 4 =? 0) && (negb (year mod 100 =? 0) || (year mod 400 =? 0)).

Definition month_lengths (leap : bool) : list Z :=
  [31; if leap then 29 else 28; 31; 30; 31; 30; 31; 31; 30; 31; 30; 31].

Definition daysIn (month year : Z) : Z :=
  nth (Z.to_nat (month - 1)) (month_lengths (isLeap year)) 0.

(** The days before a year and before a month of it. *)
Definition daysBeforeYear (year : Z) : Z :=
  let y := year - 1 in 365 * y + y / 4 - y / 100 + y / 400.

Definition sum_days (l : list Z) : Z := foldr Z.add 0 l.

Definition daysSinceEpoch (year month day : Z) : Z :=
  daysBeforeYear year
  + sum_days (take (Z.to_nat (month - 1)) (month_lengths (isLeap year))) + (day - 1).

(** Find the month and the day of the month of a day of the year. *)
Fixpoint monthDay (month : Z) (lengths : list Z) (yday : Z) : Z * Z :=
  match lengths with
  | [] => (month, yday + 1)
  | l :: lengths => if yday <? l then (month, yday + 1)
                    else monthDay (month + 1) lengths (yday - l)
  end.

(** Whole cycles of 400, 100, 4 and 1 years are taken off in turn; the last
    century of 400 years and the last year of 4 are one day longer. *)
Definition yearDay (days : Z) : Z * Z :=
  let n400 := days / 146097 in let d400 := days mod 146097 in
  let n100 := Z.min 3 (d400 / 36524) in let d100 := d400 - 36524 * n100 in
  let n4 := d100 / 1461 in let d4 := d100 mod 1461 in
  let n1 := Z.min 3 (d4 / 365) in
  (400 * n400 + 100 * n100 + 4 * n4 + n1 + 1, d4 - 365 * n1).

Definition civil (days : Z) : Z * Z * Z :=
  let '(year, yday) := yearDay days in
  let '(month, day) := monthDay 1 (month_lengths (isLeap year)) yday in
  (year, month, day).

(** ** Digits *)

Definition digit (d : Z) : ascii := ascii_of_N (Z.to_N (48 + d)).
Definition digit_val (a : ascii) : option Z :=
  if byte_in 48 57 a then Some (Z.of_N (N_of_ascii a) - 48) else None.

(** [appendInt]: at least [width] digits. *)
Fixpoint fixed_digits (width : nat) (n : Z) (rest : string) : string :=
  match width with
  | O => rest
  | S width => fixed_digits width (n / 10) (String (digit (n mod 10)) rest)
  end.

Definition appendInt (n : Z) (width : nat) (rest : string) : string :=
  let '(sign, n) := if n <? 0 then ("-", - n) else ("", n) in
  sign +:+ (if n <? 10 ^ Z.of_nat width then fixed_digits width n rest
            else pretty (Z.to_N n) +:+ rest).

(** The digits of a fraction of [width] places, without trailing zeros. *)
Fixpoint frac_digits (width : nat) (n : Z) (rest : string) : string :=
  match width with
  | O => rest
  | S width =>
      if n =? 0 then rest
      else let p := 10 ^ Z.of_nat width in
           String (digit (n / p)) (frac_digits width (n mod p) rest)
  end.

(** ** Printing *)

Definition day_ns : Z := 24 * Hour.

Definition clock (t : time) : Z * Z * Z * Z :=
  let ns := t mod day_ns in
  (ns / Hour, ns mod Hour / Minute, ns mod Minute / Second, ns mod Second).

Definition FormatTime (nano : bool) (t : time) : string :=
  let '(year, month, day) := civil (t / day_ns) in
  let '(hour, min, sec, nsec) := clock t in
  appendInt year 4 (String "-" (appendInt month 2 (String "-" (appendInt day 2 (String "T"
    (appendInt hour 2 (String ":" (appendInt min 2 (String ":" (appendInt sec 2
      (if nano && negb (nsec =? 0) then String "." (frac_digits 9 nsec "Z") else "Z"))))))))))).

Definition FormatRFC3339 : time → string := FormatTime false.
Definition FormatRFC3339Nano : time → string := FormatTime true.

(** ** Parsing *)

Fixpoint cutspace (s : string) : string :=
  match s with
  | String a s' => if decide (a = " "%char) then cutspace s' else s
  | EmptyString => s
  end.

(** A separator of the layout; a space stands for any number of them. *)
Definition skip (c : ascii) (s : string) : option string :=
  match s with
  | String a s =>
      if decide (a = c) then Some (if decide (c = " "%char) then cutspace s else s) else None
  | EmptyString => None
  end.

(** [getnum]: two digits, or one when [fixed] is false. *)
Definition getnum (fixed : bool) (s : string) : option (Z * string) :=
  match s with
  | String a s =>
      d ← digit_val a;
      match s with
      | String b s' =>
          match digit_val b with
          | Some e => Some (10 * d + e, s')
          | None => if fixed then None else Some (d, s)
          end
      | EmptyString => if fixed then None else Some (d, s)
      end
  | EmptyString => None
  end.

Definition getyear (s : string) : option (Z * string) :=
  '(hi, s) ← getnum true s; '(lo, s) ← getnum true s; Some (100 * hi + lo, s).

(** The digits of a fraction: nine count, the rest are read over. *)
Fixpoint frac_val (width : nat) (s : string) : Z * string :=
  match s with
  | String a s' =>
      match digit_val a with
      | Some d =>
          let '(v, rest) := frac_val (pred width) s' in
          (match width with O => v | S w => d * 10 ^ Z.of_nat w + v end, rest)
      | None => (0, s)
      end
  | EmptyString => (0, s)
  end.

Definition getfrac (s : string) : Z * string :=
  match s with
  | String p (String a _ as s') =>
      if (byte_is 46 p || byte_is 44 p) && byte_in 48 57 a then frac_val 9 s' else (0, s)
  | _ => (0, s)
  end.

(** The zone: [Z], or a signed offset of at most 24 hours and 60 minutes. *)
Definition getzone (s : string) : option (Z * string) :=
  match s with
  | String "Z" s => Some (0, s)
  | String sign s =>
      '(hh, s) ← getnum true s; s ← skip ":" s; '(mm, s) ← getnum true s;
      if (24 <? hh) || (60 <? mm) then None
      else let offset := (hh * 60 + mm) * 60 in
           if byte_is 43 sign then Some (offset, s)
           else if byte_is 45 sign then Some (- offset, s) else None
  | EmptyString => None
  end.

Definition in_range (lo n hi : Z) : bool := (lo <=? n) && (n <=? hi).

(** A date, a separator, a time of day, and a zone where the layout has one. *)
Definition ParseLayout (sep : ascii) (zoned : bool) (s : string) : option time :=
  '(year, s) ← getyear s; s ← skip "-" s;
  '(month, s) ← getnum true s; s ← skip "-" s;
  '(day, s) ← getnum true s; s ← skip sep s;
  '(hour, s) ← getnum false s; s ← skip ":" s;
  '(min, s) ← getnum true s; s ← skip ":" s;
  '(sec, s) ← getnum true s;
  let '(nsec, s) := getfrac s in
  '(offset, s) ← (if zoned then getzone s else Some (0, s));
  if bool_decide (s = "") && in_range 1 month 12 && in_range 1 day (daysIn month year)
     && in_range 0 hour 23 && in_range 0 min 59 && in_range 0 sec 59
  then Some (daysSinceEpoch year month day * day_ns
             + hour * Hour + min * Minute + sec * Second + nsec - offset * Second)
  else None.

(** [time.Parse] with [time.RFC3339] reads the same texts as with
    [time.RFC3339Nano]: a fraction is accepted under both layouts. *)
Definition ParseRFC3339 : string → option time := ParseLayout "T" true.

(** [time.Parse("2006-01-02 15:04:05", s)] *)
Definition ParseDateTime : string → option time := ParseLayout " " false.

(** The text case of [recTime]. *)
#[export] Instance go_time_parser : TimeParser := λ s,
  match ParseRFC3339 s with
  | Some t => t
  | None => default zero_time (ParseDateTime s)
  end.

Example format_zero : FormatRFC3339 0 = "0001-01-01T00:00:00Z".
Proof. vm_compute. reflexivity. Qed.
Example format_max : FormatRFC3339Nano (825813 * 24 * Hour - 1000000) = "2261-12-31T23:59:59.999Z".
Proof. vm_compute. reflexivity. Qed.
Example parse_zone : ParseRFC3339 "2024-02-29T9:30:00,5+01:30"
  = ParseRFC3339 "2024-02-29T08:00:00.500Z".
Proof. vm_compute. reflexivity. Qed.
Example parse_bad_day : ParseRFC3339 "2023-02-29T09:30:00Z" = None.
Proof. vm_compute. reflexivity. Qed.

(** ** The calendar is a bijection *)

(** Linear arithmetic with division and remainder by constants. *)
Ltac div_lia := Z.to_euclidean_division_equations; lia.

Lemma yearDay_spec days year yday :
  yearDay days = (year, yday) →
  daysBeforeYear year + yday = days ∧ 0 ≤ yday < (if isLeap year then 366 else 365)
  ∧ (0 ≤ days → 1 ≤ year) ∧ (days < 3652059 → year ≤ 9999).
Proof.
  unfold yearDay. intros [= <- <-].
  set (n400 := days / 146097). set (d400 := days mod 146097).
  set (n100 := Z.min 3 (d400 / 36524)). set (d100 := d400 - 36524 * n100).
  set (n4 := d100 / 1461). set (d4 := d100 mod 1461). set (n1 := Z.min 3 (d4 / 365)).
  assert (Hd : days = 146097 * n400 + d400 ∧ 0 ≤ d400 < 146097)
    by (unfold n400, d400; div_lia).
  assert (H100 : 0 ≤ n100 ≤ 3 ∧ 0 ≤ d100 ≤ 36524 ∧ (n100 < 3 → d100 < 36524))
    by (unfold d100, n100; div_lia).
  assert (H4 : d100 = 1461 * n4 + d4 ∧ 0 ≤ d4 < 1461 ∧ 0 ≤ n4 ≤ 24) by (unfold n4, d4; div_lia).
  assert (H1 : 0 ≤ n1 ≤ 3 ∧ 0 ≤ d4 - 365 * n1 ≤ 365 ∧ (n1 < 3 → d4 - 365 * n1 < 365))
    by (unfold n1; div_lia).
  assert (Hd100 : d400 = 36524 * n100 + d100) by (unfold d100; div_lia).
  clearbody n400 d400 n100 d100 n4 d4 n1.
  unfold daysBeforeYear, isLeap.
  set (y := 400 * n400 + 100 * n100 + 4 * n4 + n1).
  assert (y / 4 = 100 * n400 + 25 * n100 + n4) by (unfold y; div_lia).
  assert (y / 100 = 4 * n400 + n100) by (unfold y; div_lia).
  assert (y / 400 = n400) by (unfold y; div_lia).
  replace (y + 1 - 1) with y by lia.
  split; [unfold y in *; div_lia|]. split; [|unfold y; lia].
  split; [lia|].
  destruct ((y + 1) mod 4 =? 0) eqn:E4, ((y + 1) mod 100 =? 0) eqn:E100,
    ((y + 1) mod 400 =? 0) eqn:E400; cbn [andb orb negb];
    rewrite ?Z.eqb_eq, ?Z.eqb_neq in *; unfold y in *; div_lia.
Qed.

Lemma monthDay_spec lengths : ∀ m0 yday month day,
  monthDay m0 lengths yday = (month, day) → 0 ≤ yday < sum_days lengths →
  ∃ k, month = m0 + Z.of_nat k ∧ (k < length lengths)%nat ∧ 1 ≤ day ≤ nth k lengths 0
       ∧ sum_days (take k lengths) + (day - 1) = yday.
Proof.
  induction lengths as [|l ls IH]; intros m0 yday month day; cbn; [lia|].
  destruct (yday <? l) eqn:E; intros H Hb.
  - injection H as <- <-. exists O. cbn. lia.
  - destruct (IH _ _ _ _ H) as (k & -> & Hk & Hd & Hs); [unfold sum_days in *; lia|].
    exists (S k). cbn. unfold sum_days in *. lia.
Qed.

Lemma sum_month_lengths leap :
  sum_days (month_lengths leap) = if leap then 366 else 365.
Proof. by destruct leap. Qed.

(** What [civil] finds is a date of the calendar, and the day it started from. *)
Lemma civil_spec days year month day :
  civil days = (year, month, day) →
  daysSinceEpoch year month day = days
  ∧ 1 ≤ month ≤ 12 ∧ 1 ≤ day ≤ daysIn month year ∧ day ≤ 31
  ∧ (0 ≤ days → 1 ≤ year) ∧ (days < 3652059 → year ≤ 9999).
Proof.
  unfold civil. destruct (yearDay days) as [y yd] eqn:Ey.
  destruct (monthDay 1 _ yd) as [m d] eqn:Em. intros [= <- <- <-].
  apply yearDay_spec in Ey as (Hdays & Hyd & Hlo & Hhi).
  apply monthDay_spec in Em as (k & -> & Hk & Hd & Hs);
    [|rewrite sum_month_lengths; by destruct (isLeap y)].
  unfold daysSinceEpoch, daysIn. replace (Z.to_nat (1 + Z.of_nat k - 1)) with k by lia.
  assert (nth k (month_lengths (isLeap y)) 0 ≤ 31).
  { do 12 (destruct k as [|k]; [cbn; destruct (isLeap y); lia|]). cbn. by destruct k. }
  change (length (month_lengths (isLeap y))) with 12%nat in Hk. lia.
Qed.

Example calendar : civil (daysSinceEpoch 2024 2 29) = (2024, 2, 29).
Proof. vm_compute. reflexivity. Qed.

(** ** Digits read back *)

Lemma bind_Some_eq {A B} (x : A) (f : A → option B) : Some x ≫= f = f x.
Proof. done. Qed.

Lemma digit_val_digit d : 0 ≤ d < 10 → digit_val (digit d) = Some d.
Proof.
  intros Hd. unfold digit_val, digit, byte_in.
  rewrite N_ascii_embedding by lia.
  replace (_ && _)%bool with true; [f_equal; lia|].
  symmetry. apply andb_true_iff. rewrite !N.leb_le. lia.
Qed.

Lemma byte_in_digit d : 0 ≤ d < 10 → byte_in 48 57 (digit d) = true.
Proof.
  intros Hd. apply digit_val_digit in Hd. unfold digit_val in Hd. by destruct (byte_in _ _ _).
Qed.

Lemma getnum_digits b d e rest :
  0 ≤ d < 10 → 0 ≤ e < 10 →
  getnum b (String (digit d) (String (digit e) rest)) = Some (10 * d + e, rest).
Proof.
  intros Hd He. unfold getnum. by rewrite !digit_val_digit.
Qed.

Lemma appendInt_fixed n width rest :
  0 ≤ n < 10 ^ Z.of_nat width → appendInt n width rest = fixed_digits width n rest.
Proof.
  intros Hn. unfold appendInt. rewrite (proj2 (Z.ltb_ge n 0)) by lia.
  by rewrite (proj2 (Z.ltb_lt n _)) by lia.
Qed.

Lemma getnum_fixed b n rest :
  0 ≤ n < 100 → getnum b (appendInt n 2 rest) = Some (n, rest).
Proof.
  intros Hn. rewrite appendInt_fixed by done. cbn [fixed_digits].
  rewrite getnum_digits by div_lia. do 2 f_equal. div_lia.
Qed.

Lemma getyear_fixed n rest :
  0 ≤ n < 10000 → getyear (appendInt n 4 rest) = Some (n, rest).
Proof.
  intros Hn. rewrite appendInt_fixed by done. cbn [fixed_digits]. unfold getyear.
  rewrite getnum_digits by div_lia. rewrite bind_Some_eq. rewrite getnum_digits by div_lia.
  rewrite bind_Some_eq. do 2 f_equal. div_lia.
Qed.

Lemma frac_val_digits width : ∀ n,
  0 ≤ n < 10 ^ Z.of_nat width → frac_val width (frac_digits width n "Z") = (n, "Z").
Proof.
  induction width as [|w IH]; intros n Hn.
  { cbn in *. f_equal. lia. }
  cbn [frac_digits]. destruct (n =? 0) eqn:E; [cbn; f_equal; lia|].
  cbn [frac_val].
  set (p := 10 ^ Z.of_nat w) in *.
  assert (Hp : 10 ^ Z.of_nat (S w) = 10 * p) by (unfold p; rewrite Nat2Z.inj_succ, Z.pow_succ_r; lia).
  assert (0 < p) by (apply Z.pow_pos_nonneg; lia). rewrite Hp in Hn.
  rewrite digit_val_digit.
  2:{ split; [apply Z.div_pos; lia|apply Z.div_lt_upper_bound; lia]. }
  cbn [pred]. rewrite IH by (apply Z.mod_pos_bound; lia).
  f_equal. pose proof (Z.div_mod n p). lia.
Qed.

Lemma getfrac_digits n :
  0 ≤ n < Second →
  getfrac (if negb (n =? 0) then String "." (frac_digits 9 n "Z") else "Z") = (n, "Z").
Proof.
  intros Hn. destruct (n =? 0) eqn:E; cbn [negb]; [apply Z.eqb_eq in E as ->; done|].
  assert (Hf : frac_digits 9 n "Z" =
    String (digit (n / 10 ^ 8)) (frac_digits 8 (n mod 10 ^ 8) "Z")).
  { cbn [frac_digits]. by rewrite E. }
  unfold getfrac. rewrite Hf, byte_in_digit, <-Hf.
  2:{ unfold Second, Millisecond in Hn. div_lia. }
  cbn [byte_is andb orb]. change (byte_is 46 "." || byte_is 44 ".") with true. cbn [andb].
  apply (frac_val_digits 9). done.
Qed.

(** ** Reading what was printed *)

Definition max_year : time := 3652059 * day_ns.

Lemma civil_year t year month day :
  0 ≤ t < max_year → civil (t / day_ns) = (year, month, day) → 1 ≤ year ≤ 9999.
Proof.
  intros Ht Hc. apply civil_spec in Hc as (_ & _ & _ & _ & Hlo & Hhi).
  assert (0 ≤ t / day_ns < 3652059); [|lia].
  unfold max_year in Ht. split; [apply Z.div_pos|apply Z.div_lt_upper_bound];
    unfold day_ns, Hour, Minute, Second, Millisecond in *; lia.
Qed.

(** The text starts with a digit. *)
Lemma FormatTime_head nano t :
  0 ≤ t < max_year → ∃ a rest, FormatTime nano t = String a rest ∧ ink a = true.
Proof.
  intros Ht. unfold FormatTime. destruct (civil (t / day_ns)) as [[y m] d] eqn:Ec.
  apply civil_year in Ec; [|done]. destruct (clock t) as [[[hh mm] ss] ns].
  rewrite appendInt_fixed by (cbn; lia). cbn [fixed_digits].
  eexists _, _. split; [done|].
  assert (Hd : 0 ≤ y / 10 / 10 / 10 mod 10 < 10) by (apply Z.mod_pos_bound; lia).
  apply byte_in_digit in Hd. revert Hd. unfold ink, byte_in. lia.
Qed.

(** The text is printable. *)
Lemma ink_digit d : 0 ≤ d < 10 → ink (digit d) = true.
Proof. intros H%byte_in_digit. revert H. unfold ink, byte_in. lia. Qed.

Lemma ink_cons a s : ink_text (String a s) = ink a && ink_text s.
Proof. done. Qed.

Lemma ink_fixed width : ∀ n rest, ink_text (fixed_digits width n rest) = ink_text rest.
Proof.
  induction width as [|w IH]; intros n rest; [done|]. cbn [fixed_digits]. rewrite IH, ink_cons.
  rewrite ink_digit; [done|]. apply Z.mod_pos_bound. lia.
Qed.

Lemma ink_frac width : ∀ n rest,
  0 ≤ n < 10 ^ Z.of_nat width → ink_text (frac_digits width n rest) = ink_text rest.
Proof.
  induction width as [|w IH]; intros n rest Hn; [done|]. cbn [frac_digits].
  destruct (n =? 0); [done|]. rewrite ink_cons.
  rewrite Nat2Z.inj_succ, Z.pow_succ_r in Hn by lia.
  assert (0 < 10 ^ Z.of_nat w) by (apply Z.pow_pos_nonneg; lia).
  rewrite IH by (apply Z.mod_pos_bound; lia). rewrite ink_digit; [done|].
  split; [apply Z.div_pos; lia|apply Z.div_lt_upper_bound; lia].
Qed.

Lemma clock_bounds t hh mm ss ns :
  clock t = (hh, mm, ss, ns) →
  0 ≤ hh ≤ 23 ∧ 0 ≤ mm ≤ 59 ∧ 0 ≤ ss ≤ 59 ∧ 0 ≤ ns < Second
  ∧ t mod day_ns = hh * Hour + mm * Minute + ss * Second + ns.
Proof.
  unfold clock, day_ns, Hour, Minute, Second, Millisecond. intros [= <- <- <- <-]. div_lia.
Qed.

Lemma FormatTime_ink nano t : 0 ≤ t < max_year → ink_text (FormatTime nano t) = true.
Proof.
  intros Ht. unfold FormatTime. destruct (civil (t / day_ns)) as [[y m] d] eqn:Ec.
  pose proof (civil_year _ _ _ _ Ht Ec). apply civil_spec in Ec as (_ & Hm & Hd & Hd31 & _).
  destruct (clock t) as [[[hh mm] ss] ns] eqn:Eclock.
  apply clock_bounds in Eclock as (? & ? & ? & ? & _).
  rewrite !appendInt_fixed by (cbn; lia).
  repeat (rewrite ink_fixed || rewrite ink_cons; cbn [ink byte_in andb]).
  destruct (nano && negb (ns =? 0)); [|done]. rewrite ink_cons. by rewrite ink_frac.
Qed.

(** A time from year 1 to year 9999 reads back, truncated to the second when the
    fraction is not printed. *)
Lemma Parse_Format nano t :
  0 ≤ t < max_year →
  ParseRFC3339 (FormatTime nano t) = Some (if nano then t else Truncate t Second).
Proof.
  intros Ht. unfold FormatTime.
  destruct (civil (t / day_ns)) as [[y m] d] eqn:Ec.
  pose proof (civil_year _ _ _ _ Ht Ec) as Hy.
  apply civil_spec in Ec as (Hdays & Hm & Hd & Hd31 & _).
  destruct (clock t) as [[[hh mm] ss] ns] eqn:Eclock.
  apply clock_bounds in Eclock as (Hhh & Hmm & Hss & Hns & Hmod).
  assert (Hfrac : getfrac (if nano && negb (ns =? 0) then String "." (frac_digits 9 ns "Z") else "Z")
            = (if nano then ns else 0, "Z")).
  { destruct nano; cbn [andb]; [by apply getfrac_digits|done]. }
  unfold ParseRFC3339, ParseLayout.
  rewrite getyear_fixed, bind_Some_eq by lia. cbn [skip].
  repeat first [rewrite decide_True by done; rewrite decide_False by done; rewrite bind_Some_eq
               |rewrite getnum_fixed, bind_Some_eq by lia; cbn [skip]].
  rewrite Hfrac. cbn [getzone]. rewrite bind_Some_eq.
  unfold in_range. rewrite bool_decide_eq_true_2 by done.
  rewrite !(proj2 (Z.leb_le _ _)) by lia. cbn [andb]. f_equal.
  rewrite Hdays. pose proof (Z.div_mod t day_ns ltac:(done)) as Hdm.
  destruct nano; [lia|]. unfold Truncate.
  enough (t mod Second = ns) by lia.
  rewrite (Z.mul_comm day_ns) in Hdm. rewrite Hdm, Hmod.
  unfold day_ns, Hour, Minute, Second, Millisecond in *. div_lia.
Qed.

End Rfc3339.
