(* ===== verification/Rollouts.v ===== *)
(** * Rollouts: the app rollout state machine

    Models [gestaltd/internal/coredata/app_rollouts.go]: the rows, validation
    and normalisation of a rollout, and every method of [AppRolloutService] as a
    program of object-store calls.  [configured] is the nil check on the
    service, [now] what [time.Now] returns during the call. *)

From stdpp Require Import base gmap strings list sorting sets.
From Stdlib Require Import ZArith Ascii Lia.
From S2P Require Import Prelude ObjectStore RegistryTypes.

Set Default Goal Selector "!".

Module Rollouts.

Inductive RolloutError :=
  | ErrNotConfigured
  | ErrAppRequired
  | ErrRolloutNotFound
  | ErrRecordRequired
  | ErrAppAndVersionRequired
  | ErrInitialState
  | ErrTimesNotOrdered
  | ErrHeartbeatTargetRequired
  | ErrInvalidMode (mode : string)
  | ErrExpectedRequired
  | ErrStabilityWindow
  | ErrInvalidTarget (state : string)
  | ErrAppRolloutActive
  | ErrAppRolloutEpochMismatch
  | ErrAppRolloutVersionMismatch
  | ErrStore (e : DBError).

Record HeartbeatRolloutEvaluation := {
  ev_Healthy : bool;
  ev_StabilityWindow : duration;
  ev_EvaluatedAt : time;
  ev_FailureSummary : AppRolloutFailureSummary }.

(** ** Pure helpers *)

Definition isActiveRolloutState (s : AppRolloutState) : bool :=
  bool_decide (s = RolloutEnrolling) || bool_decide (s = RolloutRestarting).

Definition normalizedRolloutTime (now value : time) : time :=
  Truncate (if IsZero value then now else value) Millisecond.

Definition effectiveMode (m : AppRolloutMode) : AppRolloutMode :=
  if decide (m = "") then ModeEnrollment else m.

Definition validateAppRollout (r : option AppRollout) : result RolloutError unit :=
  match r with
  | None => Err ErrRecordRequired
  | Some r =>
      fail_if bool_decide (TrimSpace (r_App r) = "") || bool_decide (TrimSpace (r_Version r) = "")
        with ErrAppAndVersionRequired ;;
      let mode := effectiveMode (r_Mode r) in
      if decide (mode = ModeEnrollment) then
        fail_if bool_decide (r_State r ≠ RolloutEnrolling) with ErrInitialState ;;
        fail_if IsZero (r_CreatedAt r)
                || negb (After (r_EnrollmentEndsAt r) (r_CreatedAt r))
                || negb (After (r_Deadline r) (r_EnrollmentEndsAt r))
          with ErrTimesNotOrdered ;;
        Ok tt
      else if decide (mode = ModeHeartbeat) then
        fail_if bool_decide (r_State r ≠ RolloutRestarting) with ErrInitialState ;;
        fail_if IsZero (r_CreatedAt r) || negb (After (r_Deadline r) (r_CreatedAt r))
          with ErrTimesNotOrdered ;;
        fail_if bool_decide (TrimSpace (r_TargetSourceVersion r) = "")
                || (r_MinimumHealthyInstances r <=? 0)%Z
          with ErrHeartbeatTargetRequired ;;
        Ok tt
      else Err (ErrInvalidMode mode)
  end.

Definition normalizeAppRollout (now : time) (r : AppRollout) : AppRollout :=
  {| r_App := TrimSpace (r_App r);
     r_Version := TrimSpace (r_Version r);
     r_State := r_State r;
     r_Mode := effectiveMode (r_Mode r);
     r_TargetSourceVersion := TrimSpace (r_TargetSourceVersion r);
     r_MinimumHealthyInstances := r_MinimumHealthyInstances r;
     r_CreatedAt := normalizedRolloutTime now (r_CreatedAt r);
     r_EnrollmentEndsAt := normalizedRolloutTime now (r_EnrollmentEndsAt r);
     r_Deadline := normalizedRolloutTime now (r_Deadline r);
     r_HealthySince := r_HealthySince r;
     r_HeartbeatEvaluatedAt := r_HeartbeatEvaluatedAt r;
     r_CompletedAt := r_CompletedAt r;
     r_FailedAt := r_FailedAt r;
     r_FailureSummary := r_FailureSummary r |}.

(** ** Rows

    The [failure_summary] column goes through [encoding/json]; a JSON object is
    represented by its fields, its numbers and timestamps by the values they
    denote. *)

Definition summary_json (s : AppRolloutFailureSummary) : any :=
  AMap [("live_instances", AInt 0 (fs_LiveInstances s));
        ("minimum_healthy_instances", AInt 0 (fs_MinimumHealthyInstances s));
        ("running_desired_version", AInt 0 (fs_RunningDesiredVersion s));
        ("not_running", AInt 0 (fs_NotRunning s));
        ("mismatched", AInt 0 (fs_Mismatched s));
        ("errors", AInt 0 (fs_Errors s));
        ("source_version", AString (fs_SourceVersion s));
        ("version", AString (fs_Version s));
        ("evaluated_at", ATime (fs_EvaluatedAt s))].

Fixpoint json_field (m : list (string * any)) (k : string) : option any :=
  match m with
  | [] => None
  | (k', v) :: m => if decide (k = k') then Some v else json_field m k
  end.
Definition json_int (m : list (string * any)) (k : string) : option Z :=
  match json_field m k with
  | None => Some 0%Z | Some (AInt _ z) => Some z | Some _ => None end.
Definition json_string (m : list (string * any)) (k : string) : option string :=
  match json_field m k with
  | None => Some "" | Some (AString s) => Some s | Some _ => None end.
Definition json_time (m : list (string * any)) (k : string) : option time :=
  match json_field m k with
  | None => Some zero_time | Some (ATime t) => Some t | Some _ => None end.

Definition summary_of_json (v : any) : option AppRolloutFailureSummary :=
  match v with
  | AMap m =>
      live ← json_int m "live_instances";
      minimum ← json_int m "minimum_healthy_instances";
      running ← json_int m "running_desired_version";
      notRunning ← json_int m "not_running";
      mismatched ← json_int m "mismatched";
      errors ← json_int m "errors";
      source ← json_string m "source_version";
      version ← json_string m "version";
      evaluatedAt ← json_time m "evaluated_at";
      Some {| fs_LiveInstances := live; fs_MinimumHealthyInstances := minimum;
              fs_RunningDesiredVersion := running; fs_NotRunning := notRunning;
              fs_Mismatched := mismatched; fs_Errors := errors;
              fs_SourceVersion := source; fs_Version := version;
              fs_EvaluatedAt := evaluatedAt |}
  | _ => None
  end.

Definition set_time (key : string) (t : time) (rec : idbRecord) : idbRecord :=
  if IsZero t then rec else <[key := ATime t]> rec.

Definition appRolloutRecord (r : AppRollout) : idbRecord :=
  let rec : idbRecord :=
    <["id" := AString (r_App r)]> (<["app" := AString (r_App r)]>
    (<["version" := AString (r_Version r)]> (<["state" := AString (r_State r)]>
    (<["rollout_mode" := AString (r_Mode r)]>
    (<["target_source_version" := AString (r_TargetSourceVersion r)]>
    (<["minimum_healthy_instances" := AInt 0 (r_MinimumHealthyInstances r)]>
    (<["created_at" := ATime (r_CreatedAt r)]>
    (<["enrollment_ends_at" := ATime (r_EnrollmentEndsAt r)]>
    (<["deadline" := ATime (r_Deadline r)]> ∅))))))))) in
  let rec := set_time "completed_at" (r_CompletedAt r) rec in
  let rec := set_time "failed_at" (r_FailedAt r) rec in
  let rec := set_time "healthy_since" (r_HealthySince r) rec in
  let rec := set_time "heartbeat_evaluated_at" (r_HeartbeatEvaluatedAt r) rec in
  match r_FailureSummary r with
  | Some s => <["failure_summary" := summary_json s]> rec
  | None => rec
  end.

Definition recordToAppRollout `{TimeParser} (rec : idbRecord) : AppRollout :=
  {| r_App := recString rec "app";
     r_Version := recString rec "version";
     r_State := recString rec "state";
     r_Mode := effectiveMode (recString rec "rollout_mode");
     r_TargetSourceVersion := recString rec "target_source_version";
     r_MinimumHealthyInstances := recordInt rec "minimum_healthy_instances";
     r_CreatedAt := recTime rec "created_at";
     r_EnrollmentEndsAt := recTime rec "enrollment_ends_at";
     r_Deadline := recTime rec "deadline";
     r_HealthySince := recTime rec "healthy_since";
     r_HeartbeatEvaluatedAt := recTime rec "heartbeat_evaluated_at";
     r_CompletedAt := recTime rec "completed_at";
     r_FailedAt := recTime rec "failed_at";
     r_FailureSummary := rec !! "failure_summary" ≫= summary_of_json |}.

(** ** The transition functions on one rollout *)

Definition set_state (r : AppRollout) (state : AppRolloutState)
    (completed failed : time) (summary : option AppRolloutFailureSummary) : AppRollout :=
  {| r_App := r_App r; r_Version := r_Version r; r_State := state; r_Mode := r_Mode r;
     r_TargetSourceVersion := r_TargetSourceVersion r;
     r_MinimumHealthyInstances := r_MinimumHealthyInstances r;
     r_CreatedAt := r_CreatedAt r; r_EnrollmentEndsAt := r_EnrollmentEndsAt r;
     r_Deadline := r_Deadline r; r_HealthySince := r_HealthySince r;
     r_HeartbeatEvaluatedAt := r_HeartbeatEvaluatedAt r;
     r_CompletedAt := completed; r_FailedAt := failed; r_FailureSummary := summary |}.

Definition set_observation (r : AppRollout) (healthySince evaluatedAt : time) : AppRollout :=
  {| r_App := r_App r; r_Version := r_Version r; r_State := r_State r; r_Mode := r_Mode r;
     r_TargetSourceVersion := r_TargetSourceVersion r;
     r_MinimumHealthyInstances := r_MinimumHealthyInstances r;
     r_CreatedAt := r_CreatedAt r; r_EnrollmentEndsAt := r_EnrollmentEndsAt r;
     r_Deadline := r_Deadline r; r_HealthySince := healthySince;
     r_HeartbeatEvaluatedAt := evaluatedAt;
     r_CompletedAt := r_CompletedAt r; r_FailedAt := r_FailedAt r;
     r_FailureSummary := r_FailureSummary r |}.

(** The state switch at the end of [transition]. *)
Definition applyState (now : time) (r : AppRollout) (state : AppRolloutState) (at_ : time)
    : result RolloutError AppRollout :=
  if decide (state = RolloutComplete) then
    Ok (set_state r state (normalizedRolloutTime now at_) (r_FailedAt r) None)
  else if decide (state = RolloutFailed) then
    Ok (set_state r state (r_CompletedAt r) (normalizedRolloutTime now at_) (r_FailureSummary r))
  else if decide (state = RolloutRestarting) then
    Ok (set_state r state (r_CompletedAt r) (r_FailedAt r) (r_FailureSummary r))
  else Err (ErrInvalidTarget state).

Definition complete_summary (r : AppRollout) (s : AppRolloutFailureSummary) (evaluatedAt : time)
    : AppRolloutFailureSummary :=
  {| fs_LiveInstances := fs_LiveInstances s;
     fs_MinimumHealthyInstances := r_MinimumHealthyInstances r;
     fs_RunningDesiredVersion := fs_RunningDesiredVersion s;
     fs_NotRunning := fs_NotRunning s; fs_Mismatched := fs_Mismatched s;
     fs_Errors := fs_Errors s;
     fs_SourceVersion := TrimSpace (r_TargetSourceVersion r);
     fs_Version := TrimSpace (r_Version r);
     fs_EvaluatedAt := evaluatedAt |}.

(** The part of [EvaluateHeartbeatRollout] that applies one observation to a
    restarting rollout. *)
Definition applyObservation (r : AppRollout) (ev : HeartbeatRolloutEvaluation)
    (evaluatedAt : time) : AppRollout * bool :=
  let healthySince :=
    if ev_Healthy ev then
      if IsZero (r_HealthySince r) then evaluatedAt else r_HealthySince r
    else zero_time in
  let r := set_observation r healthySince evaluatedAt in
  let stableAt := (healthySince + ev_StabilityWindow ev)%Z in
  if ev_Healthy ev && negb (IsZero healthySince)
     && negb (Before evaluatedAt stableAt) && negb (After stableAt (r_Deadline r))
  then (set_state r RolloutComplete evaluatedAt zero_time None, true)
  else if negb (Before evaluatedAt (r_Deadline r))
  then (set_state r RolloutFailed zero_time evaluatedAt
          (Some (complete_summary r (ev_FailureSummary ev) evaluatedAt)), true)
  else (r, false).

Definition sameEpoch (r expected : AppRollout) : bool :=
  Equal (r_CreatedAt r) (r_CreatedAt expected)
  && bool_decide (TrimSpace (r_TargetSourceVersion r) = TrimSpace (r_TargetSourceVersion expected))
  && bool_decide (r_Mode r = r_Mode expected).

(** ** The service *)

Section service.
  Context `{TP : TimeParser} {W : Type} `{OS : ObjectStore W}.
  Local Abbreviation M A := (prog (Env W) A).

  (** Commit and return [a], or report the commit's failure. *)
Definition finish {A} (a : A) : M (result RolloutError A * bool) :=
  c ← Commit;
  mret (match c with
        | Ok _ => (Ok a, true)
        | Err e => (Err (ErrStore e), false)
        end).

Definition in_transaction {A} (body : M (result RolloutError A * bool))
    : M (result RolloutError A) :=
  t ← Transaction body;
  mret (match t with Ok r => r | Err e => Err (ErrStore e) end).

Definition GetRollout (configured : bool) (app : string) : M (result RolloutError AppRollout) :=
  if negb configured then mret (Err ErrNotConfigured) else
  let app := TrimSpace app in
  if decide (app = "") then mret (Err ErrAppRequired) else
  g ← Get app;
  mret (match g with
        | Err ErrNotFound => Err ErrRolloutNotFound
        | Err e => Err (ErrStore e)
        | Ok rec => Ok (recordToAppRollout rec)
        end).

Definition Create (configured : bool) (now : time) (rollout : option AppRollout)
    : M (result RolloutError AppRollout) :=
  if negb configured then mret (Err ErrNotConfigured) else
  match validateAppRollout rollout, rollout with
  | Err e, _ => mret (Err e)
  | Ok _, None => mret (Err ErrRecordRequired)
  | Ok _, Some rollout =>
      let rollout := normalizeAppRollout now rollout in
      in_transaction (
        existing ← GetAllAt (r_App rollout);
        match existing with
        | Err e => mret (Err (ErrStore e), false)
        | Ok (rec :: _) =>
            if isActiveRolloutState (r_State (recordToAppRollout rec))
            then mret (Err ErrAppRolloutActive, false)
            else p ← Put (appRolloutRecord rollout);
                 match p with
                 | Err e => mret (Err (ErrStore e), false)
                 | Ok _ => finish rollout
                 end
        | Ok [] =>
            a ← Add (appRolloutRecord rollout);
            match a with
            | Err ErrAlreadyExists => mret (Err ErrAppRolloutActive, false)
            | Err e => mret (Err (ErrStore e), false)
            | Ok _ => finish rollout
            end
        end)
  end.

Definition activeRollouts (recs : list idbRecord) : list AppRollout :=
  filter (λ r, isActiveRolloutState (r_State r) = true) (map recordToAppRollout recs).

Definition ListActive (configured : bool) : M (result RolloutError (list AppRollout)) :=
  if negb configured then mret (Err ErrNotConfigured) else
  recs ← GetAll;
  mret (match recs with
        | Err e => Err (ErrStore e)
        | Ok recs => Ok (activeRollouts recs)
        end).

Definition recentTerminal (since : time) (r : AppRollout) : bool :=
  let terminalAt := if decide (r_State r = RolloutFailed) then r_FailedAt r else r_CompletedAt r in
  negb (IsZero terminalAt) && negb (Before terminalAt since).

Definition activeOrRecent (since : time) (recs : list idbRecord) : list AppRollout :=
  filter (λ r, isActiveRolloutState (r_State r) || recentTerminal since r = true)
         (map recordToAppRollout recs).

Definition ListActiveAndRecentTerminal (configured : bool) (since : time)
    : M (result RolloutError (list AppRollout)) :=
  if negb configured then mret (Err ErrNotConfigured) else
  recs ← GetAll;
  mret (match recs with
        | Err e => Err (ErrStore e)
        | Ok recs => Ok (activeOrRecent since recs)
        end).

Definition transition (configured : bool) (now : time) (app version : string)
    (state : AppRolloutState) (at_ : time) (expected : option AppRollout)
    : M (result RolloutError AppRollout) :=
  if negb configured then mret (Err ErrNotConfigured) else
  let app := TrimSpace app in
  let version := TrimSpace version in
  if bool_decide (app = "") || bool_decide (version = "")
  then mret (Err ErrAppAndVersionRequired) else
  in_transaction (
    g ← Get app;
    match g with
    | Err e => mret (Err (ErrStore e), false)
    | Ok rec =>
        let rollout := recordToAppRollout rec in
        if bool_decide (TrimSpace (r_Version rollout) ≠ version)
        then mret (Err ErrAppRolloutVersionMismatch, false)
        else if match expected with Some x => negb (sameEpoch rollout x) | None => false end
        then mret (Err ErrAppRolloutEpochMismatch, false)
        else if bool_decide (r_State rollout = state) then finish rollout
        else if negb (isActiveRolloutState (r_State rollout)) then finish rollout
        else match applyState now rollout state at_ with
             | Err e => mret (Err e, false)
             | Ok rollout =>
                 p ← Put (appRolloutRecord rollout);
                 match p with
                 | Err e => mret (Err (ErrStore e), false)
                 | Ok _ => finish rollout
                 end
             end
    end).

Definition MarkRestarting configured now app version :=
  transition configured now app version RolloutRestarting zero_time None.
Definition MarkComplete configured now app version completedAt :=
  transition configured now app version RolloutComplete completedAt None.
Definition MarkFailed configured now app version failedAt :=
  transition configured now app version RolloutFailed failedAt None.

Definition transitionForRollout (configured : bool) (now : time) (expected : option AppRollout)
    (state : AppRolloutState) (at_ : time) : M (result RolloutError AppRollout) :=
  match expected with
  | None => mret (Err ErrExpectedRequired)
  | Some x => transition configured now (r_App x) (r_Version x) state at_ expected
  end.
Definition MarkRestartingForRollout configured now expected :=
  transitionForRollout configured now expected RolloutRestarting zero_time.
Definition MarkCompleteForRollout configured now expected completedAt :=
  transitionForRollout configured now expected RolloutComplete completedAt.
Definition MarkFailedForRollout configured now expected failedAt :=
  transitionForRollout configured now expected RolloutFailed failedAt.

Definition EvaluateHeartbeatRollout (configured : bool) (now : time)
    (expected : option AppRollout) (ev : HeartbeatRolloutEvaluation)
    : M (result RolloutError (AppRollout * bool)) :=
  if negb configured then mret (Err ErrNotConfigured) else
  match expected with
  | None => mret (Err ErrExpectedRequired)
  | Some expected =>
      if (ev_StabilityWindow ev <=? 0)%Z then mret (Err ErrStabilityWindow) else
      let evaluatedAt := normalizedRolloutTime now (ev_EvaluatedAt ev) in
      in_transaction (
        g ← Get (TrimSpace (r_App expected));
        match g with
        | Err e => mret (Err (ErrStore e), false)
        | Ok rec =>
            let rollout := recordToAppRollout rec in
            if bool_decide (TrimSpace (r_Version rollout) ≠ TrimSpace (r_Version expected))
               || negb (Equal (r_CreatedAt rollout) (r_CreatedAt expected))
               || bool_decide (TrimSpace (r_TargetSourceVersion rollout)
                               ≠ TrimSpace (r_TargetSourceVersion expected))
               || bool_decide (r_Mode rollout ≠ ModeHeartbeat)
               || bool_decide (r_Mode expected ≠ ModeHeartbeat)
            then mret (Err ErrAppRolloutEpochMismatch, false)
            else if bool_decide (r_State rollout ≠ RolloutRestarting)
                 || (negb (IsZero (r_HeartbeatEvaluatedAt rollout))
                     && Before evaluatedAt (r_HeartbeatEvaluatedAt rollout))
            then finish (rollout, false)
            else let '(rollout, transitioned) := applyObservation rollout ev evaluatedAt in
                 p ← Put (appRolloutRecord rollout);
                 match p with
                 | Err e => mret (Err (ErrStore e), false)
                 | Ok _ => finish (rollout, transitioned)
                 end
        end)
  end.
End service.

(** ** Rows round-trip *)

Lemma summary_roundtrip s : summary_of_json (summary_json s) = Some s.
Proof. by destruct s. Qed.

Lemma effectiveMode_idem m : effectiveMode (effectiveMode m) = effectiveMode m.
Proof. unfold effectiveMode. repeat case_decide; done. Qed.

Lemma lookup_set_time key t rec k :
  set_time key t rec !! k =
  if decide (key = k) then (if IsZero t then rec !! k else Some (ATime t)) else rec !! k.
Proof.
  unfold set_time. destruct (IsZero t); case_decide; subst; try done.
  - apply lookup_insert_eq.
  - by apply lookup_insert_ne.
Qed.

(** The columns of a row, written as lookups. *)
Lemma appRolloutRecord_lookup r k :
  appRolloutRecord r !! k =
  if decide ("failure_summary" = k) then summary_json <$> r_FailureSummary r
  else if decide ("heartbeat_evaluated_at" = k) then
    (if IsZero (r_HeartbeatEvaluatedAt r) then None else Some (ATime (r_HeartbeatEvaluatedAt r)))
  else if decide ("healthy_since" = k) then
    (if IsZero (r_HealthySince r) then None else Some (ATime (r_HealthySince r)))
  else if decide ("failed_at" = k) then
    (if IsZero (r_FailedAt r) then None else Some (ATime (r_FailedAt r)))
  else if decide ("completed_at" = k) then
    (if IsZero (r_CompletedAt r) then None else Some (ATime (r_CompletedAt r)))
  else if decide ("id" = k) then Some (AString (r_App r))
  else if decide ("app" = k) then Some (AString (r_App r))
  else if decide ("version" = k) then Some (AString (r_Version r))
  else if decide ("state" = k) then Some (AString (r_State r))
  else if decide ("rollout_mode" = k) then Some (AString (r_Mode r))
  else if decide ("target_source_version" = k) then Some (AString (r_TargetSourceVersion r))
  else if decide ("minimum_healthy_instances" = k) then Some (AInt 0 (r_MinimumHealthyInstances r))
  else if decide ("created_at" = k) then Some (ATime (r_CreatedAt r))
  else if decide ("enrollment_ends_at" = k) then Some (ATime (r_EnrollmentEndsAt r))
  else if decide ("deadline" = k) then Some (ATime (r_Deadline r))
  else None.
Proof.
  unfold appRolloutRecord.
  destruct (r_FailureSummary r); rewrite ?lookup_insert, !lookup_set_time, !lookup_insert, lookup_empty;
    repeat match goal with
    | |- context [decide (?x = k)] => destruct (decide (x = k)) as [<-|]; [done|]
    end; done.
Qed.

Lemma recordToAppRollout_record `{TimeParser} r :
  recordToAppRollout (appRolloutRecord r) =
  {| r_App := r_App r; r_Version := r_Version r; r_State := r_State r;
     r_Mode := effectiveMode (r_Mode r);
     r_TargetSourceVersion := r_TargetSourceVersion r;
     r_MinimumHealthyInstances := r_MinimumHealthyInstances r;
     r_CreatedAt := r_CreatedAt r; r_EnrollmentEndsAt := r_EnrollmentEndsAt r;
     r_Deadline := r_Deadline r; r_HealthySince := r_HealthySince r;
     r_HeartbeatEvaluatedAt := r_HeartbeatEvaluatedAt r;
     r_CompletedAt := r_CompletedAt r; r_FailedAt := r_FailedAt r;
     r_FailureSummary := r_FailureSummary r |}.
Proof.
  unfold recordToAppRollout, recString, recTime, recordInt.
  rewrite !appRolloutRecord_lookup. simpl.
  assert (Hz : ∀ t, match (if IsZero t then None else Some (ATime t)) with
    | Some (ATime t) => t | Some (AString s) => ParseTime s | _ => zero_time end = t).
  { intros t. unfold IsZero. destruct (Z.eqb_spec t 0); [by subst|done]. }
  f_equal; try done; try apply Hz.
  destruct (r_FailureSummary r); [|done]. apply summary_roundtrip.
Qed.

(** ** Abstract specification

    The database as the map from apps to rollouts, and each operation as a
    function of that map: its answer, and the rollout it writes, if any. *)

Definition outcome (A : Type) : Type := result RolloutError (A * option AppRollout).

Definition spec_create (configured : bool) (now : time) (rollout : option AppRollout)
    (st : string → option AppRollout) : outcome AppRollout :=
  fail_if negb configured with ErrNotConfigured ;;
  let! _ := validateAppRollout rollout in
  match rollout with
  | None => Err ErrRecordRequired
  | Some rollout =>
      let r := normalizeAppRollout now rollout in
      match st (r_App r) with
      | Some old => fail_if isActiveRolloutState (r_State old) with ErrAppRolloutActive ;;
                    Ok (r, Some r)
      | None => Ok (r, Some r)
      end
  end.

Definition spec_transition (configured : bool) (now : time) (app version : string)
    (state : AppRolloutState) (at_ : time) (expected : option AppRollout)
    (st : string → option AppRollout) : outcome AppRollout :=
  fail_if negb configured with ErrNotConfigured ;;
  fail_if bool_decide (TrimSpace app = "") || bool_decide (TrimSpace version = "")
    with ErrAppAndVersionRequired ;;
  match st (TrimSpace app) with
  | None => Err (ErrStore ErrNotFound)
  | Some r =>
      fail_if bool_decide (TrimSpace (r_Version r) ≠ TrimSpace version)
        with ErrAppRolloutVersionMismatch ;;
      fail_if match expected with Some x => negb (sameEpoch r x) | None => false end
        with ErrAppRolloutEpochMismatch ;;
      if bool_decide (r_State r = state) || negb (isActiveRolloutState (r_State r))
      then Ok (r, None)
      else let! r' := applyState now r state at_ in Ok (r', Some r')
  end.

(** An observation [ev] that is not older than the last one recorded reaches a
    restarting heartbeat rollout of the expected epoch. *)
Definition matchesExpected (r expected : AppRollout) : bool :=
  bool_decide (TrimSpace (r_Version r) = TrimSpace (r_Version expected))
  && Equal (r_CreatedAt r) (r_CreatedAt expected)
  && bool_decide (TrimSpace (r_TargetSourceVersion r) = TrimSpace (r_TargetSourceVersion expected))
  && bool_decide (r_Mode r = ModeHeartbeat) && bool_decide (r_Mode expected = ModeHeartbeat).

Definition accepts (r : AppRollout) (evaluatedAt : time) : bool :=
  bool_decide (r_State r = RolloutRestarting)
  && (IsZero (r_HeartbeatEvaluatedAt r) || negb (Before evaluatedAt (r_HeartbeatEvaluatedAt r))).

Definition spec_evaluate (configured : bool) (now : time) (expected : option AppRollout)
    (ev : HeartbeatRolloutEvaluation) (st : string → option AppRollout)
    : outcome (AppRollout * bool) :=
  fail_if negb configured with ErrNotConfigured ;;
  match expected with
  | None => Err ErrExpectedRequired
  | Some x =>
      fail_if (ev_StabilityWindow ev <=? 0)%Z with ErrStabilityWindow ;;
      let evaluatedAt := normalizedRolloutTime now (ev_EvaluatedAt ev) in
      match st (TrimSpace (r_App x)) with
      | None => Err (ErrStore ErrNotFound)
      | Some r =>
          fail_if negb (matchesExpected r x) with ErrAppRolloutEpochMismatch ;;
          if accepts r evaluatedAt
          then let a := applyObservation r ev evaluatedAt in Ok (a, Some a.1)
          else Ok ((r, false), None)
      end
  end.

Section refinement.
  Context `{TP : TimeParser} {W : Type} `{OS : ObjectStore W}.

(** The rollouts a database holds. *)
Definition stored (w : W) (app : string) : option AppRollout :=
  recordToAppRollout <$> rows w !! app.

Definition write (r : option AppRollout) (w : W) : W :=
  match r with
  | None => w
  | Some r => with_rows (<[r_App r := appRolloutRecord r]> (rows w)) w
  end.

(** The answer and the write are those of [o]; when a call to the database
    failed, the answer is an error and nothing was written. *)
Definition answers {A} (o : outcome A) (env : Env W) (res : result RolloutError A)
    (env' : Env W) : Prop :=
  (benign env → benign env') ∧
  match res, o with
  | Ok a, Ok (a', r) => a = a' ∧ contents env' = write r (contents env)
  | Ok _, Err _ => False
  | Err e, o => contents env' = contents env ∧
                (benign env → match o with Err e' => e = e' | Ok _ => False end)
  end.

(** [m] implements [spec], whatever the database holds. *)
Definition refines {A} (m : prog (Env W) (result RolloutError A))
    (spec : (string → option AppRollout) → outcome A) : Prop :=
  ∀ env, wp m (answers (spec (stored (contents env))) env) env.

Lemma record_id_row r : record_id (appRolloutRecord r) = r_App r.
Proof. unfold record_id, recString. rewrite appRolloutRecord_lookup. done. Qed.

Lemma stored_write r w app :
  r_Mode r ≠ "" →
  stored (write (Some r) w) app = if decide (r_App r = app) then Some r else stored w app.
Proof.
  intros Hm. unfold stored, write. rewrite rows_with, lookup_insert.
  case_decide; simpl; [|done]. rewrite recordToAppRollout_record. f_equal.
  unfold effectiveMode. rewrite decide_False by done. by destruct r.
Qed.

(** Reading the row of an app is reading the abstract map. *)
Lemma stored_row w app :
  stored w app = match rows w !! app with
                 | Some rec => Some (recordToAppRollout rec) | None => None end.
Proof. unfold stored. by destruct (rows w !! app). Qed.

(** What the body of a transaction leaves: it commits with the answer and the
    write of [o], or aborts, with the error of [o] unless a call failed. *)
Definition body_post {A} (o : outcome A) (w : W) (good : Prop)
    (r : result RolloutError A * bool) (env : Env W) : Prop :=
  (good → benign env) ∧
  match r with
  | (Ok a, c) => c = true ∧ ∃ wr, o = Ok (a, wr) ∧ contents env = write wr w
  | (Err e, c) => c = false ∧ (good → match o with Err e' => e = e' | Ok _ => False end)
  end.

Lemma body_fault {A} (o : outcome A) w (good : Prop) (env : Env W) :
  ¬ good → body_post o w good (Err (ErrStore ErrIO), false) env.
Proof. intros H. split; [tauto|by split]. Qed.

Lemma body_error {A} (e : RolloutError) w (good : Prop) (env : Env W) :
  (good → benign env) → body_post (A := A) (Err e) w good (Err e, false) env.
Proof. by split. Qed.

Lemma wp_finish {A} (a : A) wr (w : W) (good : Prop) (env : Env W) :
  contents env = write wr w → (good → benign env) →
  wp (finish a) (body_post (Ok (a, wr)) w good) env.
Proof.
  intros Hc Hg. unfold finish. wp_step. wp_step; intros env' Hb Hc'; wp_step.
  - apply body_fault. tauto.
  - split; [tauto|]. split; [done|]. exists wr. split; [done|]. congruence.
Qed.

Lemma wp_put_finish {A} (a : A) r (w : W) (good : Prop) (env : Env W) :
  contents env = w → (good → benign env) →
  wp (p ← Put (appRolloutRecord r);
      match p with Err e => mret (Err (ErrStore e), false) | Ok _ => finish a end)
     (body_post (Ok (a, Some r)) w good) env.
Proof.
  intros <- Hg. wp_step. wp_step; intros env' Hb Hc; rewrite ?record_id_row in Hc.
  - wp_step. apply body_fault. tauto.
  - apply wp_finish; [done|tauto].
Qed.

Lemma wp_in_transaction {A} (body : prog (Env W) (result RolloutError A * bool))
    (o : outcome A) (env : Env W) :
  (∀ env0, (benign env → benign env0) → contents env0 = contents env →
     wp body (body_post o (contents env) (benign env)) env0) →
  wp (in_transaction body) (answers o env) env.
Proof.
  intros Hbody. unfold in_transaction. wp_step. wp_step.
  - intros env' Hb Hc. wp_step. by split.
  - intros env0 Hb Hc. eapply wp_mono; [by apply Hbody|].
    intros [[a|e] c] env1 [Hg H] env2 Hb2 Hc2; wp_step; (split; [tauto|]); simpl in *.
    + destruct H as (-> & wr & -> & Hw). split; [done|]. congruence.
    + by destruct H as [-> He].
Qed.

Lemma GetRollout_refines configured app :
  refines (GetRollout configured app) (λ st,
    fail_if negb configured with ErrNotConfigured ;;
    fail_if bool_decide (TrimSpace app = "") with ErrAppRequired ;;
    match st (TrimSpace app) with
    | Some r => Ok (r, None)
    | None => Err ErrRolloutNotFound
    end).
Proof.
  intros env. unfold GetRollout. destruct configured; cbn [negb]; [|by wp_step].
  case_decide as E; [rewrite bool_decide_true by done; by wp_step|].
  rewrite bool_decide_false by done. wp_step. wp_step; intros env' Hb Hc; wp_step; [by split|].
  split; [done|]. rewrite stored_row. by destruct (rows _ !! _).
Qed.

Lemma Create_refines configured now rollout :
  refines (Create configured now rollout) (spec_create configured now rollout).
Proof.
  intros env. unfold Create, spec_create.
  destruct configured; cbn [negb]; [|by wp_step].
  destruct (validateAppRollout rollout) as [[]|e]; cbn [rbind]; [|by wp_step].
  destruct rollout as [r0|]; [|by wp_step].
  generalize (normalizeAppRollout now r0); intros r.
  apply wp_in_transaction. intros env0 Hb Hc. wp_step. wp_step; intros env1 Hb1 Hc1.
  { wp_step. apply body_fault. tauto. }
  rewrite stored_row, <-Hc. destruct (rows (contents env0) !! r_App r) as [rec|] eqn:E.
  - destruct (isActiveRolloutState _) eqn:Ea; [wp_step; apply body_error; tauto|].
    apply wp_put_finish; tauto.
  - wp_step. wp_step; intros env2 Hb2; rewrite ?record_id_row, ?Hc1.
    + intros _. wp_step. apply body_fault. tauto.
    + intros [rec Hrec]. congruence.
    + intros _ Hc2. apply wp_finish; [done|tauto].
Qed.

Lemma transition_refines configured now app version state at_ expected :
  refines (transition configured now app version state at_ expected)
          (spec_transition configured now app version state at_ expected).
Proof.
  intros env. unfold transition, spec_transition.
  destruct configured; cbn [negb]; [|by wp_step].
  destruct (bool_decide (TrimSpace app = "") || _); [by wp_step|].
  apply wp_in_transaction. intros env0 Hb Hc. wp_step. wp_step; intros env1 Hb1 Hc1.
  { wp_step. apply body_fault. tauto. }
  rewrite stored_row, <-Hc.
  destruct (rows (contents env0) !! TrimSpace app) as [rec|] eqn:E; [|wp_step; apply body_error; tauto].
  destruct (bool_decide (TrimSpace _ ≠ _)); [wp_step; apply body_error; tauto|].
  destruct (match expected with Some _ => _ | None => _ end); [wp_step; apply body_error; tauto|].
  destruct (bool_decide (_ = state)); cbn [orb]; [apply wp_finish; [done|tauto]|].
  destruct (isActiveRolloutState _); cbn [negb orb]; [|apply wp_finish; [done|tauto]].
  destruct (applyState now _ state at_) as [r|e]; cbn [rbind]; [|wp_step; apply body_error; tauto].
  apply wp_put_finish; tauto.
Qed.

Lemma EvaluateHeartbeatRollout_refines configured now expected ev :
  refines (EvaluateHeartbeatRollout configured now expected ev)
          (spec_evaluate configured now expected ev).
Proof.
  intros env. unfold EvaluateHeartbeatRollout, spec_evaluate.
  destruct configured; cbn [negb]; [|by wp_step].
  destruct expected as [x|]; [|by wp_step].
  destruct (_ <=? 0)%Z; [by wp_step|].
  apply wp_in_transaction. intros env0 Hb Hc. wp_step. wp_step; intros env1 Hb1 Hc1.
  { wp_step. apply body_fault. tauto. }
  rewrite stored_row, <-Hc.
  destruct (rows (contents env0) !! TrimSpace (r_App x)) as [rec|] eqn:E; [|wp_step; apply body_error; tauto].
  generalize (recordToAppRollout rec); intros r.
  generalize (normalizedRolloutTime now (ev_EvaluatedAt ev)); intros t.
  match goal with |- wp (if ?b then _ else _) _ _ =>
    replace b with (negb (matchesExpected r x)) end.
  2: { unfold matchesExpected. rewrite !negb_andb, !bool_decide_not. done. }
  destruct (matchesExpected r x); cbn [negb]; [|wp_step; apply body_error; tauto].
  match goal with |- wp (if ?b then _ else _) _ _ =>
    replace b with (negb (accepts r t)) end.
  2: { unfold accepts. rewrite negb_andb, negb_orb, negb_involutive, !bool_decide_not. done. }
  destruct (accepts r t); cbn [negb]; [|apply wp_finish; [done|tauto]].
  destruct (applyObservation r ev t) as [r' tr]. apply wp_put_finish; tauto.
Qed.
End refinement.

(** ** What the service promises

    The same operations described apart from the code: a creation by a list of
    rules of which the first violated one is the answer, and the rollout an
    operation leaves by its fields. *)

Definition asked_mode (r : AppRollout) : AppRolloutMode :=
  match r_Mode r with EmptyString => ModeEnrollment | mode => mode end.

(** Rollouts are stamped to the millisecond, unset times with the current one. *)
Definition stamp (now t : time) : time :=
  let t := if (t =? 0)%Z then now else t in (t - t mod 1000000)%Z.

Definition creation_rules (r : AppRollout) : list (bool * RolloutError) :=
  let blank s := bool_decide (TrimSpace s = "") in
  let heartbeat := bool_decide (asked_mode r = ModeHeartbeat) in
  let enrollment := bool_decide (asked_mode r = ModeEnrollment) in
  let first := if heartbeat then RolloutRestarting else RolloutEnrolling in
  let in_order := if heartbeat then (r_CreatedAt r <? r_Deadline r)%Z
                  else (r_CreatedAt r <? r_EnrollmentEndsAt r)%Z
                       && (r_EnrollmentEndsAt r <? r_Deadline r)%Z in
  [ (blank (r_App r) || blank (r_Version r), ErrAppAndVersionRequired);
    (negb (heartbeat || enrollment), ErrInvalidMode (asked_mode r));
    (negb (bool_decide (r_State r = first)), ErrInitialState);
    ((r_CreatedAt r =? 0)%Z || negb in_order, ErrTimesNotOrdered);
    (heartbeat && (blank (r_TargetSourceVersion r) || (r_MinimumHealthyInstances r <=? 0)%Z),
     ErrHeartbeatTargetRequired) ].

Fixpoint first_violation (rules : list (bool * RolloutError)) : result RolloutError unit :=
  match rules with
  | [] => Ok tt
  | (violated, e) :: rules => if violated then Err e else first_violation rules
  end.

Definition entered_rollout (now : time) (r : AppRollout) : AppRollout :=
  {| r_App := TrimSpace (r_App r); r_Version := TrimSpace (r_Version r); r_State := r_State r;
     r_Mode := asked_mode r; r_TargetSourceVersion := TrimSpace (r_TargetSourceVersion r);
     r_MinimumHealthyInstances := r_MinimumHealthyInstances r;
     r_CreatedAt := stamp now (r_CreatedAt r);
     r_EnrollmentEndsAt := stamp now (r_EnrollmentEndsAt r);
     r_Deadline := stamp now (r_Deadline r);
     r_HealthySince := r_HealthySince r; r_HeartbeatEvaluatedAt := r_HeartbeatEvaluatedAt r;
     r_CompletedAt := r_CompletedAt r; r_FailedAt := r_FailedAt r;
     r_FailureSummary := r_FailureSummary r |}.

(** A rollout with its progress replaced. *)
Definition progressed (r : AppRollout) (state : AppRolloutState)
    (healthySince evaluatedAt completedAt failedAt : time)
    (summary : option AppRolloutFailureSummary) : AppRollout :=
  {| r_App := r_App r; r_Version := r_Version r; r_State := state; r_Mode := r_Mode r;
     r_TargetSourceVersion := r_TargetSourceVersion r;
     r_MinimumHealthyInstances := r_MinimumHealthyInstances r;
     r_CreatedAt := r_CreatedAt r; r_EnrollmentEndsAt := r_EnrollmentEndsAt r;
     r_Deadline := r_Deadline r; r_HealthySince := healthySince;
     r_HeartbeatEvaluatedAt := evaluatedAt; r_CompletedAt := completedAt;
     r_FailedAt := failedAt; r_FailureSummary := summary |}.

(** Completion forgets a failure summary; the time of the end is stamped. *)
Definition moved_rollout (now : time) (r : AppRollout) (state : AppRolloutState) (at_ : time)
    : option AppRollout :=
  let go := progressed r state (r_HealthySince r) (r_HeartbeatEvaluatedAt r) in
  if bool_decide (state = RolloutComplete) then Some (go (stamp now at_) (r_FailedAt r) None)
  else if bool_decide (state = RolloutFailed)
  then Some (go (r_CompletedAt r) (stamp now at_) (r_FailureSummary r))
  else if bool_decide (state = RolloutRestarting)
  then Some (go (r_CompletedAt r) (r_FailedAt r) (r_FailureSummary r))
  else None.

(** An observation at [t]: the healthy run goes on, starts or ends; it completes
    the rollout when it has lasted for the window, which ended by the deadline;
    otherwise an observation at or after the deadline fails it. *)
Definition observed_rollout (r : AppRollout) (ev : HeartbeatRolloutEvaluation) (t : time)
    : AppRollout * bool :=
  let since := if ev_Healthy ev
               then (if (r_HealthySince r =? 0)%Z then t else r_HealthySince r) else 0%Z in
  let covered := (since + ev_StabilityWindow ev)%Z in
  let found := ev_FailureSummary ev in
  if ev_Healthy ev && negb (since =? 0)%Z && (covered <=? t)%Z && (covered <=? r_Deadline r)%Z
  then (progressed r RolloutComplete since t t 0%Z None, true)
  else if (r_Deadline r <=? t)%Z
  then (progressed r RolloutFailed since t 0%Z t
          (Some {| fs_LiveInstances := fs_LiveInstances found;
                   fs_MinimumHealthyInstances := r_MinimumHealthyInstances r;
                   fs_RunningDesiredVersion := fs_RunningDesiredVersion found;
                   fs_NotRunning := fs_NotRunning found; fs_Mismatched := fs_Mismatched found;
                   fs_Errors := fs_Errors found;
                   fs_SourceVersion := TrimSpace (r_TargetSourceVersion r);
                   fs_Version := TrimSpace (r_Version r); fs_EvaluatedAt := t |}), true)
  else (progressed r (r_State r) since t (r_CompletedAt r) (r_FailedAt r) (r_FailureSummary r),
        false).

Definition active (r : AppRollout) : bool :=
  bool_decide (r_State r ∈ [RolloutEnrolling; RolloutRestarting]).

Definition promised_create (configured : bool) (now : time) (rollout : option AppRollout)
    (st : string → option AppRollout) : outcome AppRollout :=
  if configured then
    match rollout with
    | None => Err ErrRecordRequired
    | Some r =>
        let! _ := first_violation (creation_rules r) in
        let taken := match st (TrimSpace (r_App r)) with
                     | Some old => active old | None => false end in
        if taken then Err ErrAppRolloutActive
        else Ok (entered_rollout now r, Some (entered_rollout now r))
    end
  else Err ErrNotConfigured.

(** A rollout of the expected epoch; without an expectation, any. *)
Definition same_epoch (r : AppRollout) (expected : option AppRollout) : bool :=
  match expected with
  | None => true
  | Some x => (r_CreatedAt r =? r_CreatedAt x)%Z
              && bool_decide (TrimSpace (r_TargetSourceVersion r)
                              = TrimSpace (r_TargetSourceVersion x))
              && bool_decide (r_Mode r = r_Mode x)
  end.

Definition promised_transition (configured : bool) (now : time) (app version : string)
    (state : AppRolloutState) (at_ : time) (expected : option AppRollout)
    (st : string → option AppRollout) : outcome AppRollout :=
  if configured then
    if bool_decide (TrimSpace app = "" ∨ TrimSpace version = "")
    then Err ErrAppAndVersionRequired
    else match st (TrimSpace app) with
    | None => Err (ErrStore ErrNotFound)
    | Some r =>
        if bool_decide (TrimSpace (r_Version r) = TrimSpace version) then
          if same_epoch r expected then
            if bool_decide (r_State r ≠ state) && active r then
              match moved_rollout now r state at_ with
              | Some r' => Ok (r', Some r')
              | None => Err (ErrInvalidTarget state)
              end
            else Ok (r, None)
          else Err ErrAppRolloutEpochMismatch
        else Err ErrAppRolloutVersionMismatch
    end
  else Err ErrNotConfigured.

(** An observation counts for a restarting heartbeat rollout of the expected
    epoch unless a later one was recorded. *)
Definition promised_evaluate (configured : bool) (now : time) (expected : option AppRollout)
    (ev : HeartbeatRolloutEvaluation) (st : string → option AppRollout)
    : outcome (AppRollout * bool) :=
  if configured then
    match expected with
    | None => Err ErrExpectedRequired
    | Some x =>
        if (0 <? ev_StabilityWindow ev)%Z then
          let t := stamp now (ev_EvaluatedAt ev) in
          match st (TrimSpace (r_App x)) with
          | None => Err (ErrStore ErrNotFound)
          | Some r =>
              if same_epoch r (Some x) && bool_decide (r_Mode r = ModeHeartbeat)
                 && bool_decide (TrimSpace (r_Version r) = TrimSpace (r_Version x)) then
                if bool_decide (r_State r = RolloutRestarting)
                   && ((r_HeartbeatEvaluatedAt r =? 0)%Z || (r_HeartbeatEvaluatedAt r <=? t)%Z)
                then Ok (observed_rollout r ev t, Some (observed_rollout r ev t).1)
                else Ok ((r, false), None)
              else Err ErrAppRolloutEpochMismatch
          end
        else Err ErrStabilityWindow
    end
  else Err ErrNotConfigured.

Section promises.
  Context `{TP : TimeParser} {W : Type} `{OS : ObjectStore W}.

(** [m] keeps the promise [spec]: whatever the database holds, a successful
    answer is the promised one and afterwards the service reads back exactly the
    promised rollout for its app and what it read before for every other app,
    no other table being touched; an error changes nothing and, when no call to
    the database fails, is the promised one. *)
Definition keeps_promise {A} (m : prog (Env W) (result RolloutError A))
    (spec : (string → option AppRollout) → outcome A) : Prop :=
  ∀ env, let '(res, env') := run m env in
  (benign env → benign env') ∧
  match res, spec (stored (contents env)) with
  | Ok a, Ok (a', written) =>
      a = a' ∧ (∃ rs, contents env' = with_rows rs (contents env)) ∧
      ∀ app, stored (contents env') app
             = match written with
               | Some r => if decide (r_App r = app) then Some r else stored (contents env) app
               | None => stored (contents env) app
               end
  | Ok _, Err _ => False
  | Err e, promised =>
      contents env' = contents env ∧
      (benign env → match promised with Err e' => e = e' | Ok _ => False end)
  end.

(** A promise is kept by an implementation of the same function of the store
    whose writes have a mode. *)
Lemma refines_keeps {A} (m : prog (Env W) (result RolloutError A)) spec promised :
  refines m spec →
  (∀ st, spec st = promised st) →
  (∀ w a r, spec (stored w) = Ok (a, Some r) → r_Mode r ≠ "") →
  keeps_promise m promised.
Proof.
  intros Hm Heq Hmode env. pose proof (Hm env) as H. unfold wp in H.
  destruct (run m env) as [res env']. destruct H as [Hb H]. split; [done|].
  pose proof (Hmode (contents env)) as Hr. rewrite <-Heq. cbn [fst snd] in H.
  destruct res as [a|e]; [|done]. destruct (spec (stored _)) as [[a' [r|]]|]; [| |done].
  - destruct H as [-> ->]. split_and!; [done|by eexists|].
    intros app. by rewrite stored_write by (by eapply Hr).
  - destruct H as [-> ->]. split_and!; [done| |done]. exists (rows (contents env)).
    by rewrite with_id.
Qed.

Lemma effectiveMode_some m : effectiveMode m ≠ "".
Proof. unfold effectiveMode. by case_decide. Qed.

Lemma asked_mode_effective r : asked_mode r = effectiveMode (r_Mode r).
Proof. unfold asked_mode, effectiveMode. by destruct (r_Mode r). Qed.

Lemma stored_mode w app r : stored w app = Some r → r_Mode r ≠ "".
Proof. unfold stored. intros (rec & _ & ->)%fmap_Some. apply effectiveMode_some. Qed.

Lemma active_state r : active r = isActiveRolloutState (r_State r).
Proof.
  unfold active, isActiveRolloutState. apply eq_bool_prop_intro.
  rewrite Is_true_true, bool_decide_eq_true. rewrite Is_true_true, orb_true_iff, !bool_decide_eq_true.
  rewrite !elem_of_cons, elem_of_nil. tauto.
Qed.

Lemma creation_rules_correct r :
  first_violation (creation_rules r) = validateAppRollout (Some r).
Proof.
  unfold validateAppRollout, creation_rules. rewrite asked_mode_effective. cbv zeta.
  cbn [first_violation]. unfold IsZero, After.
  destruct (bool_decide _ || _); [done|]. rewrite !bool_decide_not.
  destruct (decide (effectiveMode (r_Mode r) = ModeEnrollment)) as [->|He].
  - rewrite (bool_decide_eq_false_2 (ModeEnrollment = ModeHeartbeat)),
      (bool_decide_eq_true_2 (ModeEnrollment = ModeEnrollment)) by done.
    cbn [orb negb andb]. destruct (bool_decide _); [|done]. cbn [negb].
    rewrite negb_andb, !orb_assoc. by destruct (_ || _).
  - rewrite (bool_decide_eq_false_2 (effectiveMode (r_Mode r) = ModeEnrollment) He).
    destruct (decide (effectiveMode (r_Mode r) = ModeHeartbeat)) as [->|Hh].
    + rewrite bool_decide_true by done. done.
    + by rewrite bool_decide_false by done.
Qed.

Lemma entered_rollout_correct now r : entered_rollout now r = normalizeAppRollout now r.
Proof. unfold entered_rollout. by rewrite asked_mode_effective. Qed.

Lemma promised_create_correct c now rollout st :
  spec_create c now rollout st = promised_create c now rollout st.
Proof.
  unfold spec_create, promised_create. destruct c; [|done]. cbn [negb].
  destruct rollout as [r|]; [|done]. rewrite creation_rules_correct, entered_rollout_correct.
  destruct (validateAppRollout _); [|done]. cbn [rbind normalizeAppRollout r_App].
  destruct (st _) as [old|]; [|done]. rewrite active_state. by destruct (isActiveRolloutState _).
Qed.

Lemma moved_rollout_correct now r state at_ :
  applyState now r state at_ = match moved_rollout now r state at_ with
                               | Some r' => Ok r' | None => Err (ErrInvalidTarget state) end.
Proof. unfold applyState, moved_rollout. repeat (case_decide; [by rewrite bool_decide_true by done|];
  rewrite bool_decide_false by done). done. Qed.

Lemma same_epoch_correct r expected :
  match expected with Some x => negb (sameEpoch r x) | None => false end
  = negb (same_epoch r expected).
Proof. by destruct expected. Qed.

Lemma promised_transition_correct c now app version state at_ expected st :
  spec_transition c now app version state at_ expected st
  = promised_transition c now app version state at_ expected st.
Proof.
  unfold spec_transition, promised_transition. destruct c; [|done]. cbn [negb].
  rewrite bool_decide_or. destruct (_ || _); [done|].
  destruct (st _) as [r|]; [|done]. rewrite same_epoch_correct, active_state, !bool_decide_not.
  destruct (bool_decide (TrimSpace _ = _)); [|done]. cbn [negb].
  destruct (same_epoch r expected); [|done]. cbn [negb].
  destruct (bool_decide _), (isActiveRolloutState _); try done. cbn [orb andb negb].
  rewrite moved_rollout_correct. by destruct (moved_rollout _ _ _ _).
Qed.

Lemma observed_rollout_correct r ev t : observed_rollout r ev t = applyObservation r ev t.
Proof.
  unfold observed_rollout, applyObservation, IsZero, Before, After, zero_time. cbv zeta.
  cbn [r_Deadline set_observation]. rewrite <-!Z.leb_antisym.
  by repeat case_if.
Qed.

Lemma promised_evaluate_correct c now expected ev st :
  spec_evaluate c now expected ev st = promised_evaluate c now expected ev st.
Proof.
  unfold spec_evaluate, promised_evaluate. destruct c; [|done]. cbn [negb].
  destruct expected as [x|]; [|done]. rewrite Z.leb_antisym.
  destruct (0 <? _)%Z; [|done]. cbn [negb]. change (stamp now) with (normalizedRolloutTime now).
  destruct (st _) as [r|]; [|done].
  rewrite observed_rollout_correct.
  replace (same_epoch r (Some x) && bool_decide (r_Mode r = ModeHeartbeat)
           && bool_decide (TrimSpace (r_Version r) = TrimSpace (r_Version x)))
    with (matchesExpected r x).
  2: { apply eq_bool_prop_intro. rewrite !Is_true_true. unfold matchesExpected, same_epoch, Equal.
       rewrite !andb_true_iff, !bool_decide_eq_true. intuition congruence. }
  destruct (matchesExpected r x); [|done]. cbn [negb].
  unfold accepts, IsZero, Before. by rewrite <-Z.leb_antisym.
Qed.

(** The writes of the three operations have a mode. *)
Lemma spec_create_mode c now rollout st a r :
  spec_create c now rollout st = Ok (a, Some r) → r_Mode r ≠ "".
Proof.
  rewrite promised_create_correct. unfold promised_create.
  destruct c; [|done]. destruct rollout as [x|]; [|done].
  destruct (first_violation _); [|done]. cbn [rbind]. case_match; [done|].
  intros [= _ <-]. cbn. rewrite asked_mode_effective. apply effectiveMode_some.
Qed.

Lemma moved_rollout_mode now r state at_ r' :
  moved_rollout now r state at_ = Some r' → r_Mode r' = r_Mode r.
Proof. unfold moved_rollout. by repeat case_match; intros [= <-]. Qed.

Lemma spec_transition_mode c now app version state at_ expected w a r :
  spec_transition c now app version state at_ expected (stored w) = Ok (a, Some r) → r_Mode r ≠ "".
Proof.
  rewrite promised_transition_correct. unfold promised_transition.
  destruct c; [|done]. case_match; [done|].
  destruct (stored w _) as [r0|] eqn:Hs; [|done]. apply stored_mode in Hs.
  case_match; [|done]. case_match; [|done]. case_match; [|done].
  destruct (moved_rollout _ _ _ _) eqn:Hm; [|done]. intros [= _ <-].
  by rewrite (moved_rollout_mode _ _ _ _ _ Hm).
Qed.

Lemma observed_rollout_mode r ev t : r_Mode (observed_rollout r ev t).1 = r_Mode r.
Proof. unfold observed_rollout. cbv zeta. by repeat case_match. Qed.

Lemma spec_evaluate_mode c now expected ev w a r :
  spec_evaluate c now expected ev (stored w) = Ok (a, Some r) → r_Mode r ≠ "".
Proof.
  rewrite promised_evaluate_correct. unfold promised_evaluate.
  destruct c; [|done]. destruct expected as [x|]; [|done]. case_match; [|done].
  cbv zeta. destruct (stored w _) as [r0|] eqn:Hs; [|done]. apply stored_mode in Hs.
  case_match; [|done]. case_match; [|done]. intros [= _ <-].
  by rewrite observed_rollout_mode.
Qed.
End promises.

(** ** The lifecycle of an app's rollout *)

Definition terminal (r : AppRollout) : Prop :=
  r_State r = RolloutComplete ∨ r_State r = RolloutFailed.

(** What distinguishes one rollout from another: everything but its progress. *)
Definition identity (r : AppRollout) :=
  (r_App r, r_Version r, r_Mode r, r_TargetSourceVersion r, r_MinimumHealthyInstances r,
   r_CreatedAt r, r_EnrollmentEndsAt r, r_Deadline r).

(** Progress of one rollout. *)
Inductive advance (r r' : AppRollout) : Prop :=
  | adv_restart :
      r_State r = RolloutEnrolling → r_State r' = RolloutRestarting →
      identity r' = identity r → advance r r'
  | adv_observe :
      r_State r = RolloutRestarting → r_State r' = RolloutRestarting →
      r_Mode r = ModeHeartbeat → identity r' = identity r →
      (r_HeartbeatEvaluatedAt r ≤ r_HeartbeatEvaluatedAt r' ∨ r_HeartbeatEvaluatedAt r = 0)%Z →
      advance r r'
  | adv_finish :
      isActiveRolloutState (r_State r) = true → terminal r' →
      identity r' = identity r → advance r r'.

(** The history of an app: rollouts that advance and, once terminal, are
    replaced. *)
Inductive lifecycle : option AppRollout → option AppRollout → Prop :=
  | lc_create old r :
      (∀ r0, old = Some r0 → terminal r0) → isActiveRolloutState (r_State r) = true →
      lifecycle old (Some r)
  | lc_advance r r' : advance r r' → lifecycle (Some r) (Some r').

(** A stored rollout that the service wrote. *)
Record wf_rollout (app : string) (r : AppRollout) : Prop := {
  wf_app : r_App r = app;
  wf_app_nonempty : app ≠ "";
  wf_app_trimmed : TrimSpace app = app;
  wf_version : r_Version r ≠ "" ∧ TrimSpace (r_Version r) = r_Version r;
  wf_mode : r_Mode r = ModeEnrollment ∨ r_Mode r = ModeHeartbeat;
  wf_state : isActiveRolloutState (r_State r) = true ∨ terminal r;
  wf_heartbeat_state : r_Mode r = ModeHeartbeat → r_State r ≠ RolloutEnrolling;
  wf_times : (r_CreatedAt r ≤ r_Deadline r)%Z;
  wf_summary : r_State r = RolloutComplete → r_FailureSummary r = None }.

Definition wf_store (st : string → option AppRollout) : Prop :=
  ∀ app r, st app = Some r → wf_rollout app r.

Lemma active_cases s :
  isActiveRolloutState s = true ↔ s = RolloutEnrolling ∨ s = RolloutRestarting.
Proof. unfold isActiveRolloutState. by rewrite orb_true_iff, !bool_decide_eq_true. Qed.

Lemma advance_not_terminal r r' : advance r r' → ¬ terminal r.
Proof.
  assert (Ha : isActiveRolloutState (r_State r) = true → ¬ terminal r).
  { rewrite active_cases. unfold terminal. by intros [-> | ->] [?|?]. }
  intros [H _ _|H _ _ _ _|H _ _]; apply Ha; try done; apply active_cases; tauto.
Qed.

(** *** Creation *)

(** The accepted initial rollouts. *)
Lemma validate_cases r :
  validateAppRollout (Some r) = Ok tt →
  TrimSpace (r_App r) ≠ "" ∧ TrimSpace (r_Version r) ≠ "" ∧
  (effectiveMode (r_Mode r) = ModeEnrollment ∧ r_State r = RolloutEnrolling
   ∨ effectiveMode (r_Mode r) = ModeHeartbeat ∧ r_State r = RolloutRestarting) ∧
  r_CreatedAt r ≠ 0%Z ∧ (r_CreatedAt r < r_Deadline r)%Z.
Proof.
  unfold validateAppRollout, IsZero, After. intros H.
  destruct (bool_decide (TrimSpace (r_App r) = "") || _) eqn:Ea; [done|]. bool_props.
  split_and!; [done|done| |..]; repeat case_decide; try done;
    repeat match type of H with
    | (if ?c then _ else _) = _ => destruct c eqn:?; [done|]
    end; bool_props; first [tauto | lia].
Qed.

Lemma normalized_le now c d :
  (0 ≤ now → c ≠ 0 → c < d → normalizedRolloutTime now c ≤ normalizedRolloutTime now d)%Z.
Proof.
  intros Hnow Hc Hd. unfold normalizedRolloutTime, IsZero.
  rewrite (proj2 (Z.eqb_neq c 0)) by done.
  destruct (Z.eqb_spec d 0); apply Truncate_mono; unfold Millisecond; lia.
Qed.

Lemma validate_wf now r :
  validateAppRollout (Some r) = Ok tt → (0 ≤ now)%Z →
  wf_rollout (TrimSpace (r_App r)) (normalizeAppRollout now r) ∧
  isActiveRolloutState (r_State (normalizeAppRollout now r)) = true.
Proof.
  intros (Ha & Hv & Hms & Hc & Hd)%validate_cases Hnow.
  split; [|apply active_cases; cbn; tauto].
  constructor; cbn [normalizeAppRollout r_App r_Version r_Mode r_State r_CreatedAt
                    r_Deadline r_FailureSummary]; auto using TrimSpace_idem, normalized_le.
  - tauto.
  - left. apply active_cases. tauto.
  - intros Hm Hs. destruct Hms as [[Hm' _]|[_ Hs']]; [by rewrite Hm in Hm'|by rewrite Hs in Hs'].
  - destruct Hms as [[_ ->]|[_ ->]]; done.
Qed.

(** *** What a write does to one app's rollout *)

(** Writes that the lifecycle allows and that keep the store well formed. *)
Definition good_write (st : string → option AppRollout) (r : AppRollout) : Prop :=
  lifecycle (st (r_App r)) (Some r) ∧ wf_rollout (r_App r) r.
Definition good_advance (st : string → option AppRollout) (r : AppRollout) : Prop :=
  (∃ old, st (r_App r) = Some old ∧ advance old r) ∧ wf_rollout (r_App r) r.

Lemma good_advance_write st r : good_advance st r → good_write st r.
Proof. intros [(old & Hs & Ha) Hwf]. split; [|done]. rewrite Hs. by constructor. Qed.

Lemma spec_create_good configured now rollout st a r :
  wf_store st → (0 ≤ now)%Z →
  spec_create configured now rollout st = Ok (a, Some r) → good_write st r.
Proof.
  intros Hst Hnow. unfold spec_create. destruct configured; [|done]. cbn [negb].
  destruct (validateAppRollout rollout) as [[]|] eqn:Hv; [|done].
  destruct rollout as [r0|]; [|done]. cbn [rbind].
  destruct (validate_wf now r0 Hv Hnow) as [Hwf Hact].
  intros H. assert (r = normalizeAppRollout now r0 ∧
    ∀ old, st (r_App r) = Some old → isActiveRolloutState (r_State old) = false) as [-> Hold].
  { destruct (st _) as [old|] eqn:E in H.
    - destruct (isActiveRolloutState (r_State old)) eqn:Ea; [done|].
      injection H as _ <-. split; [done|]. intros old'. rewrite E. by intros [= <-].
    - injection H as _ <-. split; [done|]. intros old'. by rewrite E. }
  split; [|exact Hwf].
  apply lc_create; [|done]. intros old Hs.
  destruct (wf_state _ _ (Hst _ _ Hs)) as [Ha|Ht]; [|done].
  by rewrite (Hold _ Hs) in Ha.
Qed.

Lemma applyState_wf now app r state at_ r' :
  wf_rollout app r → isActiveRolloutState (r_State r) = true → r_State r ≠ state →
  applyState now r state at_ = Ok r' →
  wf_rollout app r' ∧ advance r r'.
Proof.
  intros [] Ha Hne. unfold applyState. pose proof (proj1 (active_cases _) Ha) as Ha'.
  repeat case_decide; try done; intros [= <-]; subst.
  - split; [|by apply adv_finish; [|left|]]. constructor; cbn; auto. right. by left.
  - split; [|by apply adv_finish; [|right|]]. constructor; cbn; auto; [|done]. right. by right.
  - split; [constructor; cbn; auto; done|]. apply adv_restart; tauto.
Qed.

Lemma spec_transition_good configured now app version state at_ expected st a r :
  wf_store st →
  spec_transition configured now app version state at_ expected st = Ok (a, Some r) →
  good_advance st r.
Proof.
  intros Hst. unfold spec_transition. destruct configured; [|done]. cbn [negb].
  destruct (_ || _); [done|]. destruct (st (TrimSpace app)) as [r0|] eqn:E; [|done].
  destruct (bool_decide _); [done|]. destruct (match expected with Some _ => _ | _ => _ end); [done|].
  destruct (_ || _) eqn:Eg; [done|]. apply orb_false_iff in Eg as [Hne Ha]. bool_props.
  destruct (applyState now r0 state at_) as [r'|] eqn:Hap; [|done]. cbn [rbind].
  intros [= _ <-]. pose proof (Hst _ _ E) as Hwf.
  destruct (applyState_wf _ _ _ _ _ _ Hwf Ha Hne Hap) as [Hwf' Hlc].
  pose proof (wf_app _ _ Hwf') as Happ. split; [exists r0; by rewrite Happ|by rewrite Happ].
Qed.

Lemma applyObservation_wf app r ev t :
  wf_rollout app r → accepts r t = true → r_Mode r = ModeHeartbeat →
  wf_rollout app (applyObservation r ev t).1 ∧
  advance r (applyObservation r ev t).1.
Proof.
  intros [] Hacc Hm. unfold accepts, IsZero, Before in Hacc. bool_props.
  assert (Ha : isActiveRolloutState (r_State r) = true) by (apply active_cases; by right).
  unfold applyObservation. repeat case_if; cbn [fst];
    (split; [constructor; cbn; auto; try done; right; by (left + right)|]);
    (apply adv_finish; [done|by (left + right)|done]) || apply adv_observe; try done;
    cbn; lia.
Qed.

Lemma spec_evaluate_good configured now expected ev st a r :
  wf_store st → spec_evaluate configured now expected ev st = Ok (a, Some r) → good_advance st r.
Proof.
  intros Hst. unfold spec_evaluate. destruct configured; [|done]. cbn [negb].
  destruct expected as [x|]; [|done]. destruct (_ <=? 0)%Z; [done|].
  destruct (st (TrimSpace (r_App x))) as [r0|] eqn:E; [|done].
  destruct (matchesExpected r0 x) eqn:Hm; [|done]. cbn [negb].
  destruct (accepts r0 _) eqn:Hacc; [|done]. intros [= _ <-].
  unfold matchesExpected in Hm. bool_props.
  pose proof (Hst _ _ E) as Hwf.
  destruct (applyObservation_wf _ _ ev _ Hwf Hacc) as [Hwf' Hlc]; [done|].
  pose proof (wf_app _ _ Hwf') as Happ. split; [exists r0; by rewrite Happ|by rewrite Happ].
Qed.

(** ** Sequences of operations *)

(** The state-changing requests; every [Mark] method is a transition. *)
Inductive op :=
  | OpCreate (configured : bool) (now : time) (rollout : option AppRollout)
  | OpTransition (configured : bool) (now : time) (app version : string)
      (state : AppRolloutState) (at_ : time) (expected : option AppRollout)
  | OpEvaluate (configured : bool) (now : time) (expected : option AppRollout)
      (ev : HeartbeatRolloutEvaluation).

Definition op_now (o : op) : time :=
  match o with
  | OpCreate _ now _ | OpTransition _ now _ _ _ _ _ | OpEvaluate _ now _ _ => now
  end.

Definition is_create (o : op) : bool := match o with OpCreate _ _ _ => true | _ => false end.

Section sequences.
  Context `{TP : TimeParser} {W : Type} `{OS : ObjectStore W}.

Definition op_step (env : Env W) (o : op) : Env W :=
  match o with
  | OpCreate c now r => (run (Create c now r) env).2
  | OpTransition c now app version state at_ x =>
      (run (transition c now app version state at_ x) env).2
  | OpEvaluate c now x ev => (run (EvaluateHeartbeatRollout c now x ev) env).2
  end.

Definition run_ops (ops : list op) (env : Env W) : Env W := foldl op_step env ops.

(** The rollout an operation writes when no call fails. *)
Definition op_write (o : op) (st : string → option AppRollout) : option AppRollout :=
  let written {A} (r : outcome A) := match r with Ok (_, w) => w | Err _ => None end in
  match o with
  | OpCreate c now r => written (spec_create c now r st)
  | OpTransition c now app version state at_ x =>
      written (spec_transition c now app version state at_ x st)
  | OpEvaluate c now x ev => written (spec_evaluate c now x ev st)
  end.

Lemma refines_effect {A} (m : prog (Env W) (result RolloutError A)) spec env :
  refines m spec →
  contents (run m env).2 = contents env ∨
  ∃ a r, spec (stored (contents env)) = Ok (a, Some r) ∧
         contents (run m env).2 = write (Some r) (contents env).
Proof.
  intros H. specialize (H env) as [_ H].
  destruct (run m env) as [[a|e] env']; simpl in *; [|by left; apply H].
  destruct (spec _) as [[a' [r|]]|] eqn:E; [|by left; apply H|done].
  right. exists a', r. by destruct H as [-> ->].
Qed.

Lemma op_effect o env :
  contents (op_step env o) = contents env ∨
  ∃ r, op_write o (stored (contents env)) = Some r ∧
       contents (op_step env o) = write (Some r) (contents env).
Proof.
  destruct o; simpl;
    [ destruct (refines_effect _ _ env (Create_refines configured now rollout))
        as [H|(a & r & Hs & H)]
    | destruct (refines_effect _ _ env
        (transition_refines configured now app version state at_ expected))
        as [H|(a & r & Hs & H)]
    | destruct (refines_effect _ _ env (EvaluateHeartbeatRollout_refines configured now expected ev))
        as [H|(a & r & Hs & H)] ]; auto; right; exists r; by rewrite Hs.
Qed.

Lemma op_write_good o st r :
  wf_store st → (0 ≤ op_now o)%Z → op_write o st = Some r → good_write st r.
Proof.
  intros Hst Hnow. destruct o; simpl in *;
    [ destruct (spec_create _ _ _ _) as [[a w]|] eqn:E; [|done]
    | destruct (spec_transition _ _ _ _ _ _ _ _) as [[a w]|] eqn:E; [|done]
    | destruct (spec_evaluate _ _ _ _ _) as [[a w]|] eqn:E; [|done] ];
    intros ->; eauto using spec_create_good, good_advance_write, spec_transition_good, spec_evaluate_good.
Qed.

Lemma wf_mode_nonempty app r : wf_rollout app r → r_Mode r ≠ "".
Proof. intros [? ? ? ? [-> | ->]]; done. Qed.

Lemma op_step_lifecycle o env :
  wf_store (stored (contents env)) → (0 ≤ op_now o)%Z →
  wf_store (stored (contents (op_step env o))) ∧
  ∀ app, rtc lifecycle (stored (contents env) app) (stored (contents (op_step env o)) app).
Proof.
  intros Hst Hnow. destruct (op_effect o env) as [-> | (r & Hw & ->)]; [done|].
  destruct (op_write_good _ _ _ Hst Hnow Hw) as [Hlc Hwf].
  pose proof (wf_mode_nonempty _ _ Hwf) as Hm.
  split; [intros app r'|intros app]; rewrite stored_write by done; case_decide; subst.
  - by intros [= <-].
  - apply Hst.
  - by apply rtc_once.
  - done.
Qed.

Lemma run_ops_lifecycle ops env :
  wf_store (stored (contents env)) → Forall (λ o, 0 ≤ op_now o)%Z ops →
  wf_store (stored (contents (run_ops ops env))) ∧
  ∀ app, rtc lifecycle (stored (contents env) app) (stored (contents (run_ops ops env)) app).
Proof.
  unfold run_ops. revert env. induction ops as [|o ops IH]; intros env Hst Hf; [by split|].
  apply Forall_cons in Hf as [Ho Hops].
  destruct (op_step_lifecycle o env Hst Ho) as [Hst' Hlc].
  destruct (IH _ Hst' Hops) as [Hst'' Hlc']. split; [done|].
  intros app. eapply rtc_trans; [apply Hlc|apply Hlc'].
Qed.

(** Only creation writes over a terminal rollout. *)
Lemma op_write_terminal o st r :
  is_create o = false → wf_store st → op_write o st = Some r → good_advance st r.
Proof.
  intros Hc Hst Hw. destruct o; simpl in *; [done| |].
  - destruct (spec_transition _ _ _ _ _ _ _ _) as [[a w]|] eqn:E; [subst|done].
    by eapply spec_transition_good.
  - destruct (spec_evaluate _ _ _ _ _) as [[a w]|] eqn:E; [subst|done].
    by eapply spec_evaluate_good.
Qed.

Lemma op_step_terminal o env app r :
  is_create o = false → wf_store (stored (contents env)) →
  stored (contents env) app = Some r → terminal r →
  wf_store (stored (contents (op_step env o))) ∧
  stored (contents (op_step env o)) app = Some r.
Proof.
  intros Hc Hst Hr Ht. destruct (op_effect o env) as [-> | (r' & Hw & ->)]; [done|].
  destruct (op_write_terminal _ _ _ Hc Hst Hw) as [(old & Ho & Ha) Hwf].
  pose proof (wf_mode_nonempty _ _ Hwf) as Hm.
  assert (Hne : r_App r' ≠ app).
  { intros <-. rewrite Hr in Ho. injection Ho as ->. by apply advance_not_terminal in Ha. }
  split; [intros app' r''|]; rewrite stored_write by done; case_decide; subst.
  - by intros [= <-].
  - apply Hst.
  - done.
  - done.
Qed.

(** *** Concurrent creation *)

Lemma single_call_Create configured now rollout :
  single_call (Create (W := W) configured now rollout).
Proof.
  unfold Create. destruct configured; [|done]. cbn [negb].
  destruct (validateAppRollout rollout); [|done]. destruct rollout; [|done].
  intros b. eexists. reflexivity.
Qed.

(** What a run of [Create] says and leaves for app [app]. *)
Lemma Create_exclusive now r env app :
  TrimSpace (r_App r) = app →
  match (run (Create true now (Some r)) env).1 with
  | Ok new =>
      (∀ old, stored (contents env) app = Some old → isActiveRolloutState (r_State old) = false) ∧
      stored (contents (run (Create true now (Some r)) env).2) app = Some new ∧
      isActiveRolloutState (r_State new) = true
  | Err _ => contents (run (Create true now (Some r)) env).2 = contents env
  end.
Proof.
  intros <-. destruct (Create_refines true now (Some r) env) as [_ H].
  destruct (run _ env) as [[new|e] env']; simpl in *; [|by apply H].
  unfold spec_create in H. cbn [negb] in H.
  destruct (validateAppRollout (Some r)) as [[]|] eqn:Hv; [|done].
  destruct (validate_wf 0 r Hv) as [Hwf Hact]; [done|].
  pose proof (wf_mode_nonempty _ _ Hwf) as Hm. cbn [rbind] in H.
  change (r_App (normalizeAppRollout now r)) with (TrimSpace (r_App r)) in H.
  assert (Hw : new = normalizeAppRollout now r → contents env' = write (Some new) (contents env) →
     stored (contents env') (TrimSpace (r_App r)) = Some new ∧
     isActiveRolloutState (r_State new) = true).
  { intros -> ->. rewrite stored_write by exact Hm. by rewrite decide_True by done. }
  destruct (stored (contents env) (TrimSpace (r_App r))) as [old|] eqn:E.
  - destruct (isActiveRolloutState (r_State old)) eqn:Ea; [done|].
    destruct H as [-> H]. split; [|by apply Hw]. by intros ? [= <-].
  - destruct H as [-> H]. split; [done|by apply Hw].
Qed.
End sequences.

Section concurrent_create.
  Context `{TP : TimeParser} {W : Type} `{OS : ObjectStore W}.
  Variable app : string.
  Variable reqs : list (time * AppRollout).
  Hypothesis same_app : ∀ q, q ∈ reqs → TrimSpace (r_App q.2) = app.

Definition request (q : time * AppRollout) : prog (Env W) (result RolloutError AppRollout) :=
  Create true q.1 (Some q.2).

(** Every process has not started, has failed, or holds the app's active
    rollout, and then it is the only one. *)
Definition creating (cfg : config (Env W) (result RolloutError AppRollout)) : Prop :=
  (∀ i t, cfg.2 !! i = Some t →
     (∃ q, q ∈ reqs ∧ t = request q) ∨ (∃ res, t = Ret res)) ∧
  (∀ i r, cfg.2 !! i = Some (Ret (Ok r)) →
     stored (contents cfg.1) app = Some r ∧ isActiveRolloutState (r_State r) = true ∧
     ∀ j r', cfg.2 !! j = Some (Ret (Ok r')) → j = i).

Lemma request_not_ok q r : request q ≠ Ret (Ok r).
Proof.
  unfold request, Create. cbn [negb]. by destruct (validateAppRollout _).
Qed.

Lemma creating_step i cfg : creating cfg → creating (sched_step i cfg).
Proof.
  destruct cfg as [env ts]. intros [Hall Hok].
  destruct (ts !! i) as [t|] eqn:Hi; [|by unfold sched_step; rewrite Hi].
  destruct (Hall i t Hi) as [(q & Hq & ->)|[res ->]]; [|by unfold sched_step; rewrite Hi].
  rewrite (sched_step_single _ _ _ _ Hi) by apply single_call_Create.
  pose proof (Create_exclusive q.1 q.2 env app (same_app q Hq)) as Hex.
  fold (request q) in Hex. simpl in Hall, Hok.
  destruct (run (request q) env) as [res env']. simpl in *.
  assert (Hlook : ∀ j t, <[i := Ret res]> ts !! j = Some t →
            j = i ∧ t = Ret res ∨ j ≠ i ∧ ts !! j = Some t).
  { intros j t. destruct (decide (j = i)) as [->|Hne].
    - rewrite list_lookup_insert_eq by (by eapply lookup_lt_Some). naive_solver.
    - rewrite list_lookup_insert_ne by done. naive_solver. }
  split; simpl.
  { intros j t [[-> ->]|[_ Hj]]%Hlook; [right; eauto|by eapply Hall]. }
  intros j r Hj. destruct res as [new|e].
  - destruct Hex as (Hno & Hst & Hact).
    assert (Honly : ∀ k r', ts !! k = Some (Ret (Ok r')) → False).
    { intros k r' Hk. destruct (Hok k r' Hk) as (Hs & Ha & _).
      by rewrite (Hno _ Hs) in Ha. }
    destruct (Hlook _ _ Hj) as [[-> [= ->]]|[_ Hj']]; [|by destruct (Honly _ _ Hj')].
    split_and!; [done|done|]. intros k r' [[-> _]|[_ Hk]]%Hlook; [done|by destruct (Honly _ _ Hk)].
  - destruct (Hlook _ _ Hj) as [[_ [=]]|[_ Hj']].
    destruct (Hok _ _ Hj') as (Hs & Ha & Hu). rewrite Hex. split_and!; [done|done|].
    intros k r' [[_ [=]]|[_ Hk]]%Hlook. by eapply Hu.
Qed.

Lemma creating_exec schedule cfg : creating cfg → creating (exec schedule cfg).
Proof.
  revert cfg. induction schedule as [|i s IH]; intros cfg H; [done|].
  by apply IH, creating_step.
Qed.

Lemma creating_init env : creating (env, request <$> reqs).
Proof.
  split; simpl.
  - intros i t. rewrite list_lookup_fmap. intros (q & Hq & ->)%fmap_Some.
    left. exists q. split; [by eapply list_elem_of_lookup_2|done].
  - intros i r. rewrite list_lookup_fmap. intros (q & _ & Heq)%fmap_Some.
    by destruct (request_not_ok q r).
Qed.
End concurrent_create.

(** ** The history of a heartbeat rollout

    A sequence of observations of one epoch, each made at its own time. *)

Definition observation : Type := time * HeartbeatRolloutEvaluation.
Definition obs_at (o : observation) : time := normalizedRolloutTime o.1 (ev_EvaluatedAt o.2).
Definition obs_healthy (o : observation) : Prop := ev_Healthy o.2 = true.

Definition observe (r : AppRollout) (o : observation) : AppRollout :=
  if accepts r (obs_at o) then (applyObservation r o.2 (obs_at o)).1 else r.

(** The observations end in a run of healthy ones that starts at [t]. *)
Definition healthy_since (t : time) (obs : list observation) : Prop :=
  ∃ pre o run, obs = pre ++ o :: run ∧ Forall obs_healthy (o :: run) ∧ obs_at o = t.

(** A healthy run that covers [window], which closes by [deadline]. *)
Definition stable (window : duration) (deadline : time) (obs : list observation) : Prop :=
  ∃ t final, healthy_since t obs ∧ last obs = Some final ∧
    (t + window ≤ obs_at final)%Z ∧ (t + window ≤ deadline)%Z.

Definition overdue (deadline : time) (obs : list observation) : Prop :=
  ∃ final, last obs = Some final ∧ (deadline ≤ obs_at final)%Z.

Definition decisive window deadline obs : Prop :=
  stable window deadline obs ∨ overdue deadline obs.

Definition undecided window deadline (obs : list observation) : Prop :=
  ∀ p, p `prefix_of` obs → ¬ decisive window deadline p.

(** [p] is the shortest decisive prefix of [obs], and ends in [final]. *)
Definition decision window deadline (obs p : list observation) (final : observation) : Prop :=
  p `prefix_of` obs ∧ last p = Some final ∧ decisive window deadline p ∧
  ∀ q, q `prefix_of` p → q ≠ p → ¬ decisive window deadline q.

(** What the observations [obs] mean for a rollout in state [r]: completed by the
    first stable run, failed by the first observation at or after the deadline
    without one, still restarting otherwise. *)
Definition verdict window deadline (obs : list observation) (r : AppRollout) : Prop :=
  (r_State r = RolloutRestarting ∧ undecided window deadline obs) ∨
  (∃ p final, decision window deadline obs p final ∧ stable window deadline p ∧
     r_State r = RolloutComplete ∧ r_CompletedAt r = obs_at final) ∨
  (∃ p final, decision window deadline obs p final ∧ ¬ stable window deadline p ∧
     r_State r = RolloutFailed ∧ r_FailedAt r = obs_at final).

Section history.
  Context (r0 : AppRollout) (window : duration).
  Hypothesis fresh : r_State r0 = RolloutRestarting ∧ r_HealthySince r0 = 0%Z ∧
                     r_HeartbeatEvaluatedAt r0 = 0%Z.
  Abbreviation deadline := (r_Deadline r0).

(** Observations come in time order and share the stability window. *)
Definition ordered (obs : list observation) : Prop :=
  StronglySorted Z.le (map obs_at obs) ∧
  Forall (λ o, 0 < obs_at o ∧ ev_StabilityWindow o.2 = window)%Z obs.

(** The start of the healthy run at the end of [obs], zero when there is none. *)
Definition run_start (obs : list observation) : time :=
  foldl (λ since o, if ev_Healthy o.2 then if IsZero since then obs_at o else since
                    else zero_time) zero_time obs.

Lemma run_start_snoc obs o :
  run_start (obs ++ [o]) =
  if ev_Healthy o.2 then if IsZero (run_start obs) then obs_at o else run_start obs
  else zero_time.
Proof. unfold run_start. by rewrite foldl_app. Qed.

Lemma ordered_snoc obs o :
  ordered (obs ++ [o]) →
  ordered obs ∧ (0 < obs_at o)%Z ∧ ev_StabilityWindow o.2 = window ∧
  ∀ o', o' ∈ obs → (obs_at o' ≤ obs_at o)%Z.
Proof.
  intros [Hs Hf]. rewrite map_app in Hs. apply Forall_app in Hf as [Hf [[Ho Hw] _]%Forall_cons].
  split_and!; try done.
  - split; [|done]. by eapply StronglySorted_app_1_l.
  - intros o' Ho'. eapply StronglySorted_app_1_elem_of; [exact Hs| |apply list_elem_of_singleton; done].
    by apply list_elem_of_fmap_2.
Qed.

Lemma healthy_since_snoc t obs o :
  healthy_since t (obs ++ [o]) ↔
  obs_healthy o ∧ (t = obs_at o ∨ healthy_since t obs).
Proof.
  split.
  - intros (pre & o' & run & Heq & Hall & <-).
    destruct run as [|x run] using rev_ind.
    + apply app_inj_tail in Heq as [-> ->]. apply Forall_cons in Hall as [? _]. auto.
    + rewrite app_comm_cons, app_assoc in Heq. apply app_inj_tail in Heq as [-> ->].
      rewrite app_comm_cons, Forall_app, Forall_singleton in Hall. destruct Hall as [Hall Hx].
      split; [done|]. right. by exists pre, o', run.
  - intros [Ho [->|(pre & o' & run & -> & Hall & <-)]].
    + exists obs, o, []. by repeat constructor.
    + exists pre, o', (run ++ [o]). rewrite <-app_assoc. split_and!; [done| |done].
      rewrite app_comm_cons, Forall_app, Forall_singleton. done.
Qed.

(** [run_start] is the earliest start of a healthy run at the end. *)
Lemma run_start_spec obs :
  ordered obs →
  run_start obs = 0%Z ∧ (∀ t, ¬ healthy_since t obs) ∨
  (0 < run_start obs)%Z ∧ healthy_since (run_start obs) obs ∧
    ∀ t, healthy_since t obs → (run_start obs ≤ t)%Z.
Proof.
  induction obs as [|o obs IH] using rev_ind; intros Hord.
  { left. split; [done|]. intros t ([|] & x & run & [=] & _). }
  apply ordered_snoc in Hord as (Hord & Hpos & _ & Hle). specialize (IH Hord).
  rewrite run_start_snoc. unfold IsZero.
  destruct (ev_Healthy o.2) eqn:Eh.
  - right. destruct IH as [[-> Hno]|(Hp & Hs & Hmin)].
    + simpl. split_and!; [done| |].
      * apply healthy_since_snoc. by split; [|left].
      * intros t [_ [->|Ht]]%healthy_since_snoc; [lia|]. by apply Hno in Ht.
    + rewrite (proj2 (Z.eqb_neq _ 0)) by lia. split_and!; [done| |].
      * apply healthy_since_snoc. by split; [|right].
      * intros t [_ [->|Ht]]%healthy_since_snoc; [|by apply Hmin].
        destruct Hs as (pre & o' & run & Heq & _ & <-). apply Hle. subst. set_solver.
  - left. split; [done|]. intros t [Ho _]%healthy_since_snoc. unfold obs_healthy in Ho. congruence.
Qed.

Lemma stable_snoc obs o :
  ordered (obs ++ [o]) →
  stable window deadline (obs ++ [o]) ↔
  let t := run_start (obs ++ [o]) in
  ev_Healthy o.2 = true ∧ t ≠ 0%Z ∧ (t + window ≤ obs_at o ∧ t + window ≤ deadline)%Z.
Proof.
  intros Hord. pose proof (run_start_spec _ Hord) as Hspec. unfold stable. cbv zeta.
  setoid_rewrite last_snoc. split.
  - intros (t & final & Ht & [= <-] & Hle).
    pose proof Ht as [Ho _]%healthy_since_snoc.
    destruct Hspec as [[_ Hno]|(Hp & _ & Hmin)]; [by apply Hno in Ht|].
    apply Hmin in Ht. split; [done|]. lia.
  - intros (Ho & Hne & Hle). exists (run_start (obs ++ [o])), o.
    destruct Hspec as [[? _]|(_ & ? & _)]; [done|]. destruct Hle. by split_and!.
Qed.

Lemma overdue_snoc obs o : overdue deadline (obs ++ [o]) ↔ (deadline ≤ obs_at o)%Z.
Proof.
  unfold overdue. setoid_rewrite last_snoc. split; [by intros (? & [= <-] & ?)|by exists o].
Qed.

(** The state of a rollout that no observation has decided. *)
Definition pending (obs : list observation) (r : AppRollout) : Prop :=
  r_State r = RolloutRestarting ∧ undecided window deadline obs ∧
  r_HealthySince r = run_start obs ∧ r_Deadline r = deadline ∧
  (r_HeartbeatEvaluatedAt r = 0%Z ∨ ∃ o, o ∈ obs ∧ r_HeartbeatEvaluatedAt r = obs_at o).

Definition decided (obs : list observation) (r : AppRollout) : Prop :=
  r_State r ≠ RolloutRestarting ∧ verdict window deadline obs r.

Lemma prefix_snoc (p obs : list observation) o :
  p `prefix_of` obs ++ [o] → p `prefix_of` obs ∨ p = obs ++ [o].
Proof.
  intros [k Hk]. destruct k as [|x k] using rev_ind.
  - right. by rewrite app_nil_r in Hk.
  - left. rewrite app_assoc in Hk. apply app_inj_tail in Hk as [-> _]. by apply prefix_app_r.
Qed.

Lemma decision_snoc obs o p final :
  decision window deadline obs p final → decision window deadline (obs ++ [o]) p final.
Proof. intros (Hp & H). split; [by apply prefix_app_r|done]. Qed.

Lemma decided_snoc obs o r : decided obs r → decided (obs ++ [o]) (observe r o).
Proof.
  intros [Hne Hv]. unfold observe, accepts. rewrite bool_decide_false by done. cbn [andb].
  split; [done|]. destruct Hv as [[? _]|[(p & f & Hd & H)|(p & f & Hd & H)]]; [done| |].
  - right; left. exists p, f. by split; [apply decision_snoc|].
  - right; right. exists p, f. by split; [apply decision_snoc|].
Qed.

Lemma decision_here obs o :
  undecided window deadline obs → decisive window deadline (obs ++ [o]) →
  decision window deadline (obs ++ [o]) (obs ++ [o]) o.
Proof.
  intros Hu Hd. split_and!; [done|apply last_snoc|done|].
  intros q [Hq|Hq]%prefix_snoc Hne; [by apply Hu|done].
Qed.

(** The completion test of the code, on an ordered history. *)
Lemma completion_test obs o :
  ordered (obs ++ [o]) →
  let t := run_start (obs ++ [o]) in
  ev_Healthy o.2 && negb (IsZero t) && negb (Before (obs_at o) (t + window))
    && negb (After (t + window) deadline) = true
  ↔ stable window deadline (obs ++ [o]).
Proof.
  intros Hord t. rewrite (stable_snoc _ _ Hord). cbv zeta. fold t.
  unfold IsZero, Before, After.
  rewrite !andb_true_iff, !negb_true_iff, !Z.ltb_ge, Z.eqb_neq. tauto.
Qed.

Lemma pending_accepts obs o r :
  ordered (obs ++ [o]) → pending obs r → accepts r (obs_at o) = true.
Proof.
  intros (_ & _ & _ & Hle)%ordered_snoc (Hs & _ & _ & _ & Hev).
  unfold accepts, IsZero, Before. rewrite bool_decide_true by done. simpl.
  destruct Hev as [->|(o' & Ho' & ->)]; [done|]. apply orb_true_iff. right.
  by apply negb_true_iff, Z.ltb_ge, Hle.
Qed.

Lemma pending_snoc obs o r :
  ordered (obs ++ [o]) → pending obs r →
  pending (obs ++ [o]) (observe r o) ∨ decided (obs ++ [o]) (observe r o).
Proof.
  intros Hord Hp. unfold observe. rewrite (pending_accepts _ _ _ Hord Hp).
  destruct Hp as (Hs & Hu & Hh & Hdl & _).
  pose proof (completion_test _ _ Hord) as Hst. cbv zeta in Hst.
  pose proof (overdue_snoc obs o) as Hov.
  pose proof (ordered_snoc _ _ Hord) as (_ & _ & Hw & _).
  unfold applyObservation. cbv zeta. rewrite Hh, <-run_start_snoc, Hw.
  cbn [set_observation r_Deadline]. rewrite Hdl.
  destruct (_ && _ && _ && _); [|destruct (negb (Before _ deadline)) eqn:Eo].
  - right. split; [done|]. pose proof (proj1 Hst eq_refl).
    right; left. exists (obs ++ [o]), o. split; [|done]. apply decision_here; [done|by left].
  - right. unfold Before in Eo. apply negb_true_iff, Z.ltb_ge in Eo. split; [done|].
    right; right. exists (obs ++ [o]), o. split; [|split; [|done]].
    + apply decision_here; [done|]. right. by apply Hov.
    + by rewrite <-Hst.
  - left. unfold Before in Eo. apply negb_false_iff, Z.ltb_lt in Eo. split_and!; [done| |done|done|].
    + intros q [Hq| ->]%prefix_snoc; [by apply Hu|]. intros [Hq|Hq]; [|apply Hov in Hq; lia].
      by apply Hst in Hq.
    + right. exists o. split; [set_solver|done].
Qed.

Lemma observe_verdict obs :
  ordered obs → verdict window deadline obs (foldl observe r0 obs).
Proof.
  intros Hord.
  assert (H : pending obs (foldl observe r0 obs) ∨ decided obs (foldl observe r0 obs)).
  { induction obs as [|o obs IH] using rev_ind.
    - left. destruct fresh as (? & ? & ?). split_and!; auto.
      intros p ->%prefix_nil_inv [(? & ? & _ & [=] & _)|(? & [=] & _)].
    - rewrite foldl_app. simpl. pose proof (ordered_snoc _ _ Hord) as (Hord' & _).
      destruct (IH Hord') as [H|H]; [by apply pending_snoc|right; by apply decided_snoc]. }
  destruct H as [(? & ? & _)|[_ ?]]; [|done]. by left.
Qed.
End history.

(** *** Evaluating through the service *)

Section evaluations.
  Context `{TP : TimeParser} {W : Type} `{OS : ObjectStore W}.

Definition evaluate_step (x : AppRollout) (env : Env W) (o : observation) : Env W :=
  (run (EvaluateHeartbeatRollout true o.1 (Some x) o.2) env).2.

Lemma observe_identity r o : identity (observe r o) = identity r.
Proof.
  unfold observe. case_if; [|done]. unfold applyObservation. repeat case_if; done.
Qed.

Lemma matchesExpected_identity r r' x :
  identity r' = identity r → matchesExpected r' x = matchesExpected r x.
Proof. unfold identity, matchesExpected. intros [= _ Hv Hm Ht _ Hc _ _]. by rewrite Hv, Hm, Ht, Hc. Qed.

Lemma evaluate_step_store x env o r :
  benign env → (0 < ev_StabilityWindow o.2)%Z →
  stored (contents env) (TrimSpace (r_App x)) = Some r → r_App r = TrimSpace (r_App x) →
  matchesExpected r x = true →
  benign (evaluate_step x env o) ∧
  stored (contents (evaluate_step x env o)) (TrimSpace (r_App x)) = Some (observe r o).
Proof.
  intros Hb Hw Hs Ha Hm. unfold evaluate_step.
  destruct (EvaluateHeartbeatRollout_refines true o.1 (Some x) o.2 env) as [Hben H].
  split; [by apply Hben|]. revert H. unfold spec_evaluate. cbn [negb].
  rewrite (proj2 (Z.leb_gt _ _)) by done. rewrite Hs, Hm. cbn [negb].
  pose proof (observe_identity r o) as Hid. revert Hid. unfold observe, obs_at.
  destruct (run _ env) as [res env']. cbn [fst snd].
  destruct (accepts r _) eqn:Hacc; intros Hid; destruct res as [a|e]; try (by intros [_ []]);
    intros [_ ->]; [|done].
  unfold identity in Hid. injection Hid as Happ _ Hmode _.
  rewrite stored_write.
  - by rewrite Happ, decide_True by done.
  - rewrite Hmode. unfold matchesExpected in Hm. bool_props. by match goal with H : r_Mode r = _ |- _ => rewrite H end.
Qed.

Lemma evaluations_store x obs env r :
  benign env → Forall (λ o, 0 < ev_StabilityWindow o.2)%Z obs →
  stored (contents env) (TrimSpace (r_App x)) = Some r → r_App r = TrimSpace (r_App x) →
  matchesExpected r x = true →
  stored (contents (foldl (evaluate_step x) env obs)) (TrimSpace (r_App x))
  = Some (foldl observe r obs).
Proof.
  revert env r. induction obs as [|o obs IH]; intros env r Hb Hw Hs Ha Hm; [done|].
  apply Forall_cons in Hw as [Hw Hws]. simpl.
  destruct (evaluate_step_store x env o r) as [Hb' Hs']; [done..|].
  apply IH; try done.
  - pose proof (observe_identity r o) as Hid. unfold identity in Hid. by injection Hid as ->.
  - by rewrite (matchesExpected_identity r) by apply observe_identity.
Qed.
End evaluations.

(** ** Properties *)

Section properties.
  Context `{TP : TimeParser} {W : Type} `{OS : ObjectStore W}.

(** C1.  Refinement: [Create], every state transition and
    [EvaluateHeartbeatRollout] keep the promises that specify them on the map from
    apps to rollouts.  Whatever the database holds and whichever calls fail, a
    successful answer is the promised one, and afterwards the service reads back
    exactly the promised rollout, field by field, for its app, and what it read
    before for every other app; an error leaves the database as it was, and with
    no failing call it is the promised error. *)
Theorem rollout_service_refines c now rollout app version state at_ expected ev :
  keeps_promise (W := W) (Create c now rollout) (promised_create c now rollout) ∧
  keeps_promise (W := W) (transition c now app version state at_ expected)
                (promised_transition c now app version state at_ expected) ∧
  keeps_promise (W := W) (EvaluateHeartbeatRollout c now expected ev)
                (promised_evaluate c now expected ev).
Proof.
  split_and!; eapply refines_keeps;
    eauto using Create_refines, transition_refines, EvaluateHeartbeatRollout_refines,
      promised_create_correct, promised_transition_correct, promised_evaluate_correct,
      spec_create_mode, spec_transition_mode, spec_evaluate_mode.
Qed.

(** Invariant and state machine: any sequence of operations, with any
    database faults, keeps every stored rollout well formed and moves each app's
    rollout along the lifecycle only: enrolling to restarting, restarting to
    restarting on a heartbeat observation that is not older, an active rollout to
    a terminal state, always with the same identity, and a new rollout only where
    there was none or a terminal one. *)
Theorem operations_follow_lifecycle ops (env : Env W) :
  wf_store (stored (contents env)) → Forall (λ o, 0 ≤ op_now o)%Z ops →
  wf_store (stored (contents (run_ops ops env))) ∧
  ∀ app, rtc lifecycle (stored (contents env) app) (stored (contents (run_ops ops env)) app).
Proof. apply run_ops_lifecycle. Qed.

(** Safety: a complete or failed rollout is final: no sequence of
    transitions and evaluations changes anything of it. *)
Theorem terminal_rollouts_are_final ops (env : Env W) app r :
  wf_store (stored (contents env)) → Forall (λ o, is_create o = false) ops →
  stored (contents env) app = Some r → terminal r →
  stored (contents (run_ops ops env)) app = Some r.
Proof.
  unfold run_ops. revert env. induction ops as [|o ops IH]; intros env Hst Hf Hr Ht; [done|].
  apply Forall_cons in Hf as [Ho Hops].
  destruct (op_step_terminal o env app r Ho Hst Hr Ht) as [Hst' Hr']. by apply IH.
Qed.

(** Concurrency: when any number of processes create a rollout of the same
    app, under every schedule and with any database faults at most one succeeds,
    and while it is active its rollout is the one stored. *)
Theorem concurrent_creates_have_one_winner app (reqs : list (time * AppRollout)) schedule
    (env : Env W) i r :
  (∀ q, q ∈ reqs → TrimSpace (r_App q.2) = app) →
  (exec schedule (env, request <$> reqs)).2 !! i = Some (Ret (Ok r)) →
  stored (contents (exec schedule (env, request <$> reqs)).1) app = Some r ∧
  ∀ j r', (exec schedule (env, request <$> reqs)).2 !! j = Some (Ret (Ok r')) → j = i.
Proof.
  intros Happ Hi.
  pose proof (creating_exec app reqs Happ schedule _ (creating_init app reqs env)) as [_ Hok].
  destruct (Hok i r Hi) as (Hs & _ & Hu). done.
Qed.

(** C10.  Functional behaviour over a history: from a fresh heartbeat rollout, a
    sequence of evaluations in time order completes it exactly at the first
    observation that ends a healthy run covering the stability window whose end
    is not after the deadline, fails it exactly at the first observation at or
    after the deadline with no such run, and otherwise leaves it restarting. *)
Theorem heartbeat_verdict (env : Env W) x r window obs :
  benign env → stored (contents env) (TrimSpace (r_App x)) = Some r →
  r_App r = TrimSpace (r_App x) → matchesExpected r x = true →
  r_State r = RolloutRestarting ∧ r_HealthySince r = 0%Z ∧ r_HeartbeatEvaluatedAt r = 0%Z →
  (0 < window)%Z → ordered window obs →
  ∃ r', stored (contents (foldl (evaluate_step x) env obs)) (TrimSpace (r_App x)) = Some r' ∧
        identity r' = identity r ∧ verdict window (r_Deadline r) obs r'.
Proof.
  intros Hb Hs Ha Hm Hf Hw Hord. exists (foldl observe r obs). split_and!.
  - apply evaluations_store; try done. destruct Hord as [_ Hall].
    eapply Forall_impl; [exact Hall|]. simpl. intros o [_ ->]. done.
  - clear. revert r. induction obs as [|o obs IH]; intros r; [done|].
    simpl. by rewrite IH, observe_identity.
  - by apply observe_verdict.
Qed.
End properties.

(** ** Examples *)

Definition no_parser : TimeParser := λ _, zero_time.
#[local] Existing Instance no_parser.

Definition sample_heartbeat : AppRollout :=
  {| r_App := " billing "; r_Version := "v2"; r_State := RolloutRestarting; r_Mode := ModeHeartbeat;
     r_TargetSourceVersion := "abc"; r_MinimumHealthyInstances := 1;
     r_CreatedAt := Hour; r_EnrollmentEndsAt := 0; r_Deadline := (2 * Hour)%Z;
     r_HealthySince := 0; r_HeartbeatEvaluatedAt := 0; r_CompletedAt := 0; r_FailedAt := 0;
     r_FailureSummary := None |}.

Definition sample_evaluation (healthy : bool) (at_ : time) : HeartbeatRolloutEvaluation :=
  {| ev_Healthy := healthy; ev_StabilityWindow := Minute; ev_EvaluatedAt := at_;
     ev_FailureSummary := {| fs_LiveInstances := 0; fs_MinimumHealthyInstances := 0;
       fs_RunningDesiredVersion := 0; fs_NotRunning := 0; fs_Mismatched := 0; fs_Errors := 0;
       fs_SourceVersion := ""; fs_Version := ""; fs_EvaluatedAt := 0 |} |}.

Definition empty_env : Env (gmap string idbRecord) := mkEnv ∅ [].
Definition created_env : Env (gmap string idbRecord) :=
  (run (Create true Hour (Some sample_heartbeat)) empty_env).2.
Definition sample_created : AppRollout := normalizeAppRollout Hour sample_heartbeat.

Definition sample_observations : list observation :=
  [(0%Z, sample_evaluation true (Hour + Second));
   (0%Z, sample_evaluation true (Hour + Second + Minute))]%Z.

Lemma empty_wf : wf_store (stored (contents empty_env)).
Proof. by intros app r. Qed.

Lemma operations_follow_lifecycle_witness :
  wf_store (stored (contents (run_ops
    [OpCreate true Hour (Some sample_heartbeat);
     OpEvaluate true 0 (Some sample_created) (sample_evaluation true (Hour + Second))]%Z empty_env))).
Proof.
  apply (operations_follow_lifecycle
    [OpCreate true Hour (Some sample_heartbeat);
     OpEvaluate true 0 (Some sample_created) (sample_evaluation true (Hour + Second))]%Z empty_env).
  - apply empty_wf.
  - by repeat constructor.
Defined.

Lemma concurrent_creates_have_one_winner_witness :
  stored (contents (exec [1; 0] (empty_env,
    request <$> [(Hour, sample_heartbeat); (Hour, sample_heartbeat)])).1) "billing"
  = Some sample_created.
Proof.
  apply (concurrent_creates_have_one_winner "billing"
           [(Hour, sample_heartbeat); (Hour, sample_heartbeat)] [1; 0] empty_env 1).
  - intros q. rewrite !elem_of_cons, elem_of_nil. by intros [-> | [-> | []]].
  - vm_compute. reflexivity.
Defined.

Lemma heartbeat_verdict_witness :
  ∃ r', stored (contents (foldl (evaluate_step sample_created) created_env sample_observations))
          "billing" = Some r' ∧
        identity r' = identity sample_created ∧
        verdict Minute (2 * Hour)%Z sample_observations r'.
Proof.
  apply (heartbeat_verdict created_env sample_created sample_created Minute sample_observations).
  - by constructor.
  - vm_compute. reflexivity.
  - vm_compute. reflexivity.
  - vm_compute. reflexivity.
  - done.
  - done.
  - split.
    + repeat (apply SSorted_cons || apply SSorted_nil || apply Forall_nil_2 || apply Forall_cons_2).
      apply Z.leb_le. vm_compute. reflexivity.
    + repeat (apply Forall_nil_2 || apply Forall_cons_2); (split; [apply Z.ltb_lt|]);
        vm_compute; reflexivity.
Defined.

(** The stored rollout after the two observations is complete. *)
Example heartbeat_completes :
  r_State <$> stored (contents (foldl (evaluate_step sample_created) created_env
                                      sample_observations)) "billing" = Some RolloutComplete.
Proof. vm_compute. reflexivity. Qed.

Definition completed_env : Env (gmap string idbRecord) :=
  foldl (evaluate_step sample_created) created_env sample_observations.
Definition sample_completed : AppRollout := foldl observe sample_created sample_observations.

Lemma terminal_rollouts_are_final_witness :
  stored (contents (run_ops
    [OpTransition true Hour "billing" "v2" RolloutFailed 0 None]%Z completed_env)) "billing"
  = Some sample_completed.
Proof.
  apply (terminal_rollouts_are_final
    [OpTransition true Hour "billing" "v2" RolloutFailed 0 None]%Z completed_env).
  - refine (proj1 (run_ops_lifecycle
      [OpCreate true Hour (Some sample_heartbeat);
       OpEvaluate true 0 (Some sample_created) (sample_evaluation true (Hour + Second));
       OpEvaluate true 0 (Some sample_created) (sample_evaluation true (Hour + Second + Minute))]%Z
      empty_env empty_wf _)).
    by repeat constructor.
  - by repeat constructor.
  - vm_compute. reflexivity.
  - by left.
Defined.
End Rollouts.
