(* ===== verification/SourceVersions.v ===== *)
(** * SourceVersions: the deployed source version and the rollouts that target it

    Models [gestaltd/internal/coredata/gestaltd_source_versions.go].  One row holds the
    source version the fleet should run, how many healthy instances a heartbeat rollout
    needs, which version the workers were promoted for, and who paused app deploys.
    Activating a version moves the active rollouts to it in the same transaction, and
    admitted rollouts are created against it.

    [now] is what [time.Now] returns during a call, [configured] the nil checks. *)

From stdpp Require Import base gmap strings list sorting sets.
From Stdlib Require Import ZArith Ascii Lia.
From S2P Require Import Prelude ObjectStore RegistryTypes Rollouts.

Set Default Goal Selector "!".

Module SourceVersions.

Definition gestaltdSourceVersionStateID : string := "gestaltd".
Definition defaultHeartbeatRolloutMinimumHealthyInstances : Z := 1.

Inductive SourceVersionError :=
  | ErrNotConfigured
  | ErrRecordRequired
  | ErrNotFoundState
  | ErrGestaltdSourceVersionUnavailable
  | ErrAppDeployPaused
  | ErrAppDeployPauseConflict
  | ErrSourceVersionRequired
  | ErrInvalidWindows
  | ErrInvalidRolloutMode (mode : AppRolloutMode)
  | ErrMinimumProvidedTwice
  | ErrMinimumNegative
  | ErrHeartbeatMinimumNotPositive
  | ErrMinimumUnavailable
  | ErrOwnerAndTokenRequired
  | ErrInvalidRollout (e : Rollouts.RolloutError)
  | ErrAppRolloutActive
  | ErrStore (e : DBError).

Definition zero_state : GestaltdSourceVersionState :=
  {| sv_CurrentSourceVersion := ""; sv_MinimumHealthyInstances := 0; sv_UpdatedAt := zero_time;
     sv_TemporalWorkersPromotedSourceVersion := ""; sv_TemporalWorkersPromotedAt := zero_time;
     sv_AppDeployPauseOwner := ""; sv_AppDeployPauseToken := "" |}.

(** ** Rows *)

Definition normalizedSourceVersionTime (now value : time) : time :=
  Truncate (if IsZero value then now else value) Millisecond.

Definition gestaltdSourceVersionStateRecord (now : time) (s : GestaltdSourceVersionState) : idbRecord :=
  <["id" := AString gestaltdSourceVersionStateID]>
  (<["current_source_version" := AString (TrimSpace (sv_CurrentSourceVersion s))]>
  (<["minimum_healthy_instances" := AInt 0 (sv_MinimumHealthyInstances s)]>
  (<["updated_at" := ATime (normalizedSourceVersionTime now (sv_UpdatedAt s))]>
  (<["temporal_workers_promoted_source_version" :=
       AString (TrimSpace (sv_TemporalWorkersPromotedSourceVersion s))]>
  (<["temporal_workers_promoted_at" :=
       ATime (normalizedSourceVersionTime now (sv_TemporalWorkersPromotedAt s))]>
  (<["app_deploy_pause_owner" := AString (TrimSpace (sv_AppDeployPauseOwner s))]>
  (<["app_deploy_pause_token" := AString (TrimSpace (sv_AppDeployPauseToken s))]> ∅))))))).

Definition recordToGestaltdSourceVersionState `{TimeParser} (rec : idbRecord)
    : GestaltdSourceVersionState :=
  {| sv_CurrentSourceVersion := recString rec "current_source_version";
     sv_MinimumHealthyInstances := recordInt rec "minimum_healthy_instances";
     sv_UpdatedAt := recTime rec "updated_at";
     sv_TemporalWorkersPromotedSourceVersion :=
       recString rec "temporal_workers_promoted_source_version";
     sv_TemporalWorkersPromotedAt := recTime rec "temporal_workers_promoted_at";
     sv_AppDeployPauseOwner := recString rec "app_deploy_pause_owner";
     sv_AppDeployPauseToken := recString rec "app_deploy_pause_token" |}.

Definition set_current (s : GestaltdSourceVersionState) (current : string) (minimum : Z)
    (updatedAt : time) : GestaltdSourceVersionState :=
  {| sv_CurrentSourceVersion := current; sv_MinimumHealthyInstances := minimum;
     sv_UpdatedAt := updatedAt;
     sv_TemporalWorkersPromotedSourceVersion := sv_TemporalWorkersPromotedSourceVersion s;
     sv_TemporalWorkersPromotedAt := sv_TemporalWorkersPromotedAt s;
     sv_AppDeployPauseOwner := sv_AppDeployPauseOwner s;
     sv_AppDeployPauseToken := sv_AppDeployPauseToken s |}.

Definition set_promoted (s : GestaltdSourceVersionState) (version : string) (at_ : time)
    : GestaltdSourceVersionState :=
  {| sv_CurrentSourceVersion := sv_CurrentSourceVersion s;
     sv_MinimumHealthyInstances := sv_MinimumHealthyInstances s; sv_UpdatedAt := sv_UpdatedAt s;
     sv_TemporalWorkersPromotedSourceVersion := version; sv_TemporalWorkersPromotedAt := at_;
     sv_AppDeployPauseOwner := sv_AppDeployPauseOwner s;
     sv_AppDeployPauseToken := sv_AppDeployPauseToken s |}.

Definition set_pause (s : GestaltdSourceVersionState) (owner token : string)
    : GestaltdSourceVersionState :=
  {| sv_CurrentSourceVersion := sv_CurrentSourceVersion s;
     sv_MinimumHealthyInstances := sv_MinimumHealthyInstances s; sv_UpdatedAt := sv_UpdatedAt s;
     sv_TemporalWorkersPromotedSourceVersion := sv_TemporalWorkersPromotedSourceVersion s;
     sv_TemporalWorkersPromotedAt := sv_TemporalWorkersPromotedAt s;
     sv_AppDeployPauseOwner := owner; sv_AppDeployPauseToken := token |}.

(** ** Admission and activation, on values *)

(** The rollout an admission creates for the state it read. *)
Definition targeted (s : GestaltdSourceVersionState) (r : AppRollout) (minimum : Z) : AppRollout :=
  {| r_App := r_App r; r_Version := r_Version r; r_State := r_State r; r_Mode := r_Mode r;
     r_TargetSourceVersion := TrimSpace (sv_CurrentSourceVersion s);
     r_MinimumHealthyInstances := minimum;
     r_CreatedAt := r_CreatedAt r; r_EnrollmentEndsAt := r_EnrollmentEndsAt r;
     r_Deadline := r_Deadline r; r_HealthySince := r_HealthySince r;
     r_HeartbeatEvaluatedAt := r_HeartbeatEvaluatedAt r; r_CompletedAt := r_CompletedAt r;
     r_FailedAt := r_FailedAt r; r_FailureSummary := r_FailureSummary r |}.

Definition pendingRollout (s : GestaltdSourceVersionState) (r : AppRollout)
    : result SourceVersionError AppRollout :=
  if bool_decide (r_Mode r = ModeHeartbeat) then
    fail_if (sv_MinimumHealthyInstances s <=? 0)%Z with ErrMinimumUnavailable ;;
    Ok (targeted s r (sv_MinimumHealthyInstances s))
  else Ok (targeted s r (r_MinimumHealthyInstances r)).

(** The arguments of an activation after validation. *)
Record activation := {
  ac_sourceVersion : string;
  ac_at : time;
  ac_retry : bool;
  ac_enrollmentWindow : duration;
  ac_rolloutTimeout : duration;
  ac_rolloutMode : AppRolloutMode;
  ac_minimumProvided : bool;
  ac_minimum : Z }.

Definition validateActivation (now : time) (sourceVersion : string) (at_ : time) (retry : bool)
    (enrollmentWindow rolloutTimeout : duration) (rolloutMode : AppRolloutMode)
    (minimumHealthyInstances : list Z) : result SourceVersionError activation :=
  let sourceVersion := TrimSpace sourceVersion in
  fail_if bool_decide (sourceVersion = "") with ErrSourceVersionRequired ;;
  let at_ := normalizedSourceVersionTime now at_ in
  fail_if (enrollmentWindow <=? 0)%Z || (rolloutTimeout <=? enrollmentWindow)%Z
    with ErrInvalidWindows ;;
  let rolloutMode := if bool_decide (rolloutMode = "") then ModeEnrollment else rolloutMode in
  fail_if bool_decide (rolloutMode ≠ ModeEnrollment) && bool_decide (rolloutMode ≠ ModeHeartbeat)
    with ErrInvalidRolloutMode rolloutMode ;;
  fail_if bool_decide (1 < length minimumHealthyInstances) with ErrMinimumProvidedTwice ;;
  let minimumProvided := bool_decide (length minimumHealthyInstances = 1) in
  let requested := default 0%Z (head minimumHealthyInstances) in
  fail_if (requested <? 0)%Z with ErrMinimumNegative ;;
  fail_if bool_decide (rolloutMode = ModeHeartbeat) && minimumProvided && (requested <=? 0)%Z
    with ErrHeartbeatMinimumNotPositive ;;
  let requested :=
    if bool_decide (rolloutMode = ModeHeartbeat) && negb minimumProvided
    then defaultHeartbeatRolloutMinimumHealthyInstances else requested in
  Ok {| ac_sourceVersion := sourceVersion; ac_at := at_; ac_retry := retry;
        ac_enrollmentWindow := enrollmentWindow; ac_rolloutTimeout := rolloutTimeout;
        ac_rolloutMode := rolloutMode; ac_minimumProvided := minimumProvided;
        ac_minimum := requested |}.

Definition sourceChanged (a : activation) (s : GestaltdSourceVersionState) : bool :=
  bool_decide (TrimSpace (sv_CurrentSourceVersion s) ≠ ac_sourceVersion a).

Definition effectiveMinimumHealthy (a : activation) (s : GestaltdSourceVersionState) : Z :=
  if negb (ac_minimumProvided a) && negb (sourceChanged a s)
     && (0 <? sv_MinimumHealthyInstances s)%Z
  then sv_MinimumHealthyInstances s else ac_minimum a.

Definition minimumChanged (a : activation) (s : GestaltdSourceVersionState) : bool :=
  negb (sv_MinimumHealthyInstances s =? effectiveMinimumHealthy a s)%Z.

(** Whether the activation moves a rollout, and what it becomes. *)
Definition retarget (a : activation) (s : GestaltdSourceVersionState) (r : AppRollout) : bool :=
  if ac_retry a && bool_decide (TrimSpace (r_TargetSourceVersion r) = ac_sourceVersion a)
  then Rollouts.isActiveRolloutState (r_State r)
       || (bool_decide (r_State r = RolloutFailed) && negb (IsZero (r_FailedAt r))
           && negb (Before (r_FailedAt r) (sv_UpdatedAt s)))
  else (sourceChanged a s || minimumChanged a s) && Rollouts.isActiveRolloutState (r_State r).

Definition retargeted (a : activation) (s : GestaltdSourceVersionState) (r : AppRollout) : AppRollout :=
  let heartbeat := bool_decide (ac_rolloutMode a = ModeHeartbeat) in
  {| r_App := r_App r; r_Version := r_Version r;
     r_State := if heartbeat then RolloutRestarting else RolloutEnrolling;
     r_Mode := ac_rolloutMode a;
     r_TargetSourceVersion := ac_sourceVersion a;
     r_MinimumHealthyInstances := if heartbeat then effectiveMinimumHealthy a s else 0%Z;
     r_CreatedAt := ac_at a;
     r_EnrollmentEndsAt := (ac_at a + ac_enrollmentWindow a)%Z;
     r_Deadline := (ac_at a + ac_rolloutTimeout a)%Z;
     r_HealthySince := zero_time; r_HeartbeatEvaluatedAt := zero_time;
     r_CompletedAt := zero_time; r_FailedAt := zero_time; r_FailureSummary := None |}.

Definition activated (a : activation) (s : GestaltdSourceVersionState) : GestaltdSourceVersionState :=
  set_current s (ac_sourceVersion a) (effectiveMinimumHealthy a s)
    (if sourceChanged a s || minimumChanged a s || ac_retry a || IsZero (sv_UpdatedAt s)
     then ac_at a else sv_UpdatedAt s).

(** ** The service

    [states] is the store of the one state row, [rollouts] that of the rollouts. *)

Section service.
  Context `{TP : TimeParser} {W : Type} (states rollouts : ObjectStore W).
  Local Abbreviation M A := (prog (Env W) A).

Definition in_transaction {A} (body : M (result SourceVersionError A * bool))
    : M (result SourceVersionError A) :=
  t ← Transaction body;
  mret (match t with Ok r => r | Err e => Err (ErrStore e) end).

(** [tx.Commit] and return. *)
Definition commit {A} (a : A) : M (result SourceVersionError A * bool) :=
  c ← Commit;
  mret (match c with Ok _ => (Ok a, true) | Err e => (Err (ErrStore e), false) end).

Definition abort {A} (e : SourceVersionError) : M (result SourceVersionError A * bool) :=
  mret (Err e, false).

Definition GetState (configured : bool) : M (result SourceVersionError GestaltdSourceVersionState) :=
  if negb configured then mret (Err ErrNotConfigured) else
  g ← Get (OS := states) gestaltdSourceVersionStateID;
  mret (match g with
        | Err ErrNotFound => Err ErrNotFoundState
        | Err e => Err (ErrStore e)
        | Ok rec => Ok (recordToGestaltdSourceVersionState rec)
        end).

Definition CurrentForAdmission (configured : bool) : M (result SourceVersionError string) :=
  s ← GetState configured;
  mret (match s with
        | Err ErrNotFoundState => Err ErrGestaltdSourceVersionUnavailable
        | Err e => Err e
        | Ok s => let current := TrimSpace (sv_CurrentSourceVersion s) in
                  if bool_decide (current = "") then Err ErrGestaltdSourceVersionUnavailable
                  else Ok current
        end).

(** The write of an admitted rollout. *)
Definition admitRollout (rollout : AppRollout) : M (result SourceVersionError AppRollout * bool) :=
  existing ← GetAllAt (OS := rollouts) (r_App rollout);
  match existing with
  | Err e => abort (ErrStore e)
  | Ok (rec :: _) =>
      if Rollouts.isActiveRolloutState (r_State (Rollouts.recordToAppRollout rec))
      then abort ErrAppRolloutActive
      else p ← Put (OS := rollouts) (Rollouts.appRolloutRecord rollout);
           match p with Err e => abort (ErrStore e) | Ok _ => commit rollout end
  | Ok [] =>
      p ← Add (OS := rollouts) (Rollouts.appRolloutRecord rollout);
      match p with
      | Err ErrAlreadyExists => abort ErrAppRolloutActive
      | Err e => abort (ErrStore e)
      | Ok _ => commit rollout
      end
  end.

Definition CreateAppRollout (configured : bool) (now : time) (rollout : option AppRollout)
    : M (result SourceVersionError AppRollout) :=
  if negb configured then mret (Err ErrNotConfigured) else
  match rollout with
  | None => mret (Err ErrRecordRequired)
  | Some rollout =>
      in_transaction (
        g ← Get (OS := states) gestaltdSourceVersionStateID;
        match g with
        | Err ErrNotFound => abort ErrGestaltdSourceVersionUnavailable
        | Err e => abort (ErrStore e)
        | Ok rec =>
            let state := recordToGestaltdSourceVersionState rec in
            if bool_decide (TrimSpace (sv_AppDeployPauseOwner state) ≠ "")
            then abort ErrAppDeployPaused
            else if bool_decide (TrimSpace (sv_CurrentSourceVersion state) = "")
            then abort ErrGestaltdSourceVersionUnavailable
            else match pendingRollout state rollout with
                 | Err e => abort e
                 | Ok pending =>
                     match Rollouts.validateAppRollout (Some pending) with
                     | Err e => abort (ErrInvalidRollout e)
                     | Ok _ => admitRollout (Rollouts.normalizeAppRollout now pending)
                     end
                 end
        end)
  end.

(** The loop over the rollouts of an activation. *)
Fixpoint retargetAll (a : activation) (s : GestaltdSourceVersionState) (recs : list idbRecord)
    : M (result DBError unit) :=
  match recs with
  | [] => mret (Ok tt)
  | rec :: recs =>
      let rollout := Rollouts.recordToAppRollout rec in
      if retarget a s rollout then
        p ← Put (OS := rollouts) (Rollouts.appRolloutRecord (retargeted a s rollout));
        match p with Err e => mret (Err e) | Ok _ => retargetAll a s recs end
      else retargetAll a s recs
  end.

Definition retargetRollouts (a : activation) (s : GestaltdSourceVersionState)
    : M (result DBError unit) :=
  if sourceChanged a s || minimumChanged a s || ac_retry a then
    recs ← GetAll (OS := rollouts);
    match recs with Err e => mret (Err e) | Ok recs => retargetAll a s recs end
  else mret (Ok tt).

Definition writeState (now : time) (s : GestaltdSourceVersionState)
    : M (result SourceVersionError GestaltdSourceVersionState * bool) :=
  p ← Put (OS := states) (gestaltdSourceVersionStateRecord now s);
  match p with Err e => abort (ErrStore e) | Ok _ => commit s end.

(** [GetAll(ctx, id, 1)], a missing row being the zero state. *)
Definition stateOf (recs : list idbRecord) : GestaltdSourceVersionState :=
  match recs with
  | rec :: _ => recordToGestaltdSourceVersionState rec
  | [] => zero_state
  end.

Definition ActivateWithRolloutMode (configured : bool) (now : time) (sourceVersion : string)
    (at_ : time) (retry : bool) (enrollmentWindow rolloutTimeout : duration)
    (rolloutMode : AppRolloutMode) (minimumHealthyInstances : list Z)
    : M (result SourceVersionError GestaltdSourceVersionState) :=
  if negb configured then mret (Err ErrNotConfigured) else
  match validateActivation now sourceVersion at_ retry enrollmentWindow rolloutTimeout rolloutMode
          minimumHealthyInstances with
  | Err e => mret (Err e)
  | Ok a =>
      in_transaction (
        recs ← GetAllAt (OS := states) gestaltdSourceVersionStateID;
        match recs with
        | Err e => abort (ErrStore e)
        | Ok recs =>
            let state := stateOf recs in
            t ← retargetRollouts a state;
            match t with
            | Err e => abort (ErrStore e)
            | Ok _ => writeState now (activated a state)
            end
        end)
  end.

Definition Activate (configured : bool) (now : time) (sourceVersion : string) (at_ : time)
    (retry : bool) (enrollmentWindow rolloutTimeout : duration) (minimumHealthyInstances : list Z) :=
  ActivateWithRolloutMode configured now sourceVersion at_ retry enrollmentWindow rolloutTimeout
    ModeEnrollment minimumHealthyInstances.

Definition changeAppDeployPause (configured : bool) (now : time) (owner token : string)
    (acquire : bool) : M (result SourceVersionError GestaltdSourceVersionState) :=
  let owner := TrimSpace owner in
  let token := TrimSpace token in
  if bool_decide (owner = "" ∨ token = "") then mret (Err ErrOwnerAndTokenRequired) else
  if negb configured then mret (Err ErrNotConfigured) else
  in_transaction (
    g ← Get (OS := states) gestaltdSourceVersionStateID;
    match g with
    | Err ErrNotFound => abort ErrGestaltdSourceVersionUnavailable
    | Err e => abort (ErrStore e)
    | Ok rec =>
        let state := recordToGestaltdSourceVersionState rec in
        if bool_decide (sv_AppDeployPauseOwner state ≠ "" ∧
                        (sv_AppDeployPauseOwner state ≠ owner ∨ sv_AppDeployPauseToken state ≠ token))
        then abort ErrAppDeployPauseConflict
        else writeState now (if acquire then set_pause state owner token else set_pause state "" "")
    end).

Definition AcquireAppDeployPause configured now owner token :=
  changeAppDeployPause configured now owner token true.
Definition ReleaseAppDeployPause configured now owner token :=
  changeAppDeployPause configured now owner token false.

Definition TemporalWorkersPromotedForSourceVersion (configured : bool) (sourceVersion : string)
    : M (result SourceVersionError bool) :=
  if negb configured then mret (Err ErrNotConfigured) else
  let sourceVersion := TrimSpace sourceVersion in
  if bool_decide (sourceVersion = "") then mret (Err ErrSourceVersionRequired) else
  s ← GetState configured;
  mret (match s with
        | Err ErrNotFoundState => Ok false
        | Err e => Err e
        | Ok s => Ok (bool_decide (TrimSpace (sv_TemporalWorkersPromotedSourceVersion s) = sourceVersion)
                      && negb (IsZero (sv_TemporalWorkersPromotedAt s)))
        end).

Definition MarkTemporalWorkersPromoted (configured : bool) (now : time) (sourceVersion : string)
    (at_ : time) : M (result SourceVersionError GestaltdSourceVersionState) :=
  if negb configured then mret (Err ErrNotConfigured) else
  let sourceVersion := TrimSpace sourceVersion in
  if bool_decide (sourceVersion = "") then mret (Err ErrSourceVersionRequired) else
  let at_ := normalizedSourceVersionTime now at_ in
  in_transaction (
    recs ← GetAllAt (OS := states) gestaltdSourceVersionStateID;
    match recs with
    | Err e => abort (ErrStore e)
    | Ok recs =>
        let state := stateOf recs in
        if bool_decide (TrimSpace (sv_TemporalWorkersPromotedSourceVersion state) = sourceVersion)
           && negb (IsZero (sv_TemporalWorkersPromotedAt state))
        then commit state
        else writeState now (set_promoted state sourceVersion at_)
    end).
End service.

(** ** What the operations do to the database *)

Section effects.
  Context `{TP : TimeParser} {W : Type} (states rollouts : ObjectStore W).

(** The state the database holds; a missing row is the zero state. *)
Definition state_row (w : W) : option idbRecord :=
  rows (ObjectStore := states) w !! gestaltdSourceVersionStateID.
Definition state_at (w : W) : GestaltdSourceVersionState :=
  match state_row w with
  | Some rec => recordToGestaltdSourceVersionState rec
  | None => zero_state
  end.

(** The state as it reads back after it was written. *)
Definition normalizedState (now : time) (s : GestaltdSourceVersionState) : GestaltdSourceVersionState :=
  {| sv_CurrentSourceVersion := TrimSpace (sv_CurrentSourceVersion s);
     sv_MinimumHealthyInstances := sv_MinimumHealthyInstances s;
     sv_UpdatedAt := normalizedSourceVersionTime now (sv_UpdatedAt s);
     sv_TemporalWorkersPromotedSourceVersion := TrimSpace (sv_TemporalWorkersPromotedSourceVersion s);
     sv_TemporalWorkersPromotedAt := normalizedSourceVersionTime now (sv_TemporalWorkersPromotedAt s);
     sv_AppDeployPauseOwner := TrimSpace (sv_AppDeployPauseOwner s);
     sv_AppDeployPauseToken := TrimSpace (sv_AppDeployPauseToken s) |}.

Lemma state_roundtrip now s :
  recordToGestaltdSourceVersionState (gestaltdSourceVersionStateRecord now s) = normalizedState now s.
Proof. done. Qed.

Definition put_state (now : time) (s : GestaltdSourceVersionState) (w : W) : W :=
  with_rows (ObjectStore := states)
    (<[gestaltdSourceVersionStateID := gestaltdSourceVersionStateRecord now s]>
       (rows (ObjectStore := states) w)) w.

Lemma state_at_put now s w : state_at (put_state now s w) = normalizedState now s.
Proof. unfold state_at, state_row, put_state. by rewrite rows_with, lookup_insert_eq. Qed.

(** A transaction that succeeds had the effect of its body; one that fails had none. *)
Definition effect {A} (P : A → W → W → Prop) (w : W) (r : result SourceVersionError A) (env : Env W)
    : Prop :=
  match r with Ok a => P a w (contents env) | Err _ => contents env = w end.
Definition body_effect {A} (P : A → W → W → Prop) (w : W)
    (r : result SourceVersionError A * bool) (env : Env W) : Prop :=
  match r with (Ok a, c) => c = true ∧ P a w (contents env) | (Err _, c) => c = false end.

Lemma wp_transaction {A} (P : A → W → W → Prop) (body : prog (Env W) _) (env : Env W) :
  (∀ env0, contents env0 = contents env → wp body (body_effect P (contents env)) env0) →
  wp (in_transaction body) (effect P (contents env)) env.
Proof.
  intros Hbody. unfold in_transaction. wp_step. wp_step; intros env0 _ Hc.
  - wp_step. exact Hc.
  - eapply wp_mono; [by apply Hbody|]. intros [[a|e] c] env1 H env2 _ Hc2; wp_step; cbn in *.
    + destruct H as [-> H]. by rewrite Hc2.
    + by rewrite H in Hc2.
Qed.

Lemma wp_abort {A} (P : A → W → W → Prop) w e (env : Env W) : wp (abort e) (body_effect P w) env.
Proof. by unfold abort; wp_step. Qed.

Lemma wp_commit {A} (P : A → W → W → Prop) w (a : A) (env : Env W) :
  P a w (contents env) → wp (commit a) (body_effect P w) env.
Proof.
  intros HP. unfold commit. wp_step. wp_step; intros env' _ Hc; wp_step; [done|].
  split; [done|]. by rewrite Hc.
Qed.

Lemma wp_writeState (P : GestaltdSourceVersionState → W → W → Prop) w now s (env : Env W) :
  P s w (put_state now s (contents env)) → wp (writeState states now s) (body_effect P w) env.
Proof.
  intros HP. unfold writeState. wp_step. wp_step; intros env' _ Hc; [apply wp_abort|].
  apply wp_commit. by rewrite Hc.
Qed.

(** *** Admission *)

Definition admitted (now : time) (r0 r : AppRollout) (w w' : W) : Prop :=
  ∃ pending,
    TrimSpace (sv_AppDeployPauseOwner (state_at w)) = "" ∧
    TrimSpace (sv_CurrentSourceVersion (state_at w)) ≠ "" ∧
    pendingRollout (state_at w) r0 = Ok pending ∧
    Rollouts.validateAppRollout (Some pending) = Ok tt ∧
    r = Rollouts.normalizeAppRollout now pending ∧
    (∀ old, Rollouts.stored (OS := rollouts) w (r_App r) = Some old →
            Rollouts.isActiveRolloutState (r_State old) = false) ∧
    w' = Rollouts.write (OS := rollouts) (Some r) w.

Lemma wp_admit r (P : AppRollout → W → W → Prop) (env : Env W) :
  ((∀ old, Rollouts.stored (OS := rollouts) (contents env) (r_App r) = Some old →
           Rollouts.isActiveRolloutState (r_State old) = false) →
   P r (contents env) (Rollouts.write (OS := rollouts) (Some r) (contents env))) →
  wp (admitRollout rollouts r) (body_effect P (contents env)) env.
Proof.
  intros HP. unfold admitRollout. wp_step. wp_step; intros env1 _ Hc1; [apply wp_abort|].
  rewrite Rollouts.stored_row in HP.
  destruct (rows (contents env) !! r_App r) as [rec|].
  - destruct (Rollouts.isActiveRolloutState _) eqn:Ea; [apply wp_abort|].
    wp_step. wp_step; intros env2 _ Hc2; [apply wp_abort|]. apply wp_commit.
    rewrite Hc2, Hc1, Rollouts.record_id_row. apply HP. by intros old [= <-].
  - wp_step. wp_step; intros env2 _; [intros _; apply wp_abort|intros _ _; apply wp_abort|].
    intros _ Hc2. apply wp_commit. rewrite Hc2, Hc1, Rollouts.record_id_row. by apply HP.
Qed.

Lemma wp_CreateAppRollout c now r0 (env : Env W) :
  wp (CreateAppRollout states rollouts c now (Some r0)) (effect (admitted now r0) (contents env)) env.
Proof.
  unfold CreateAppRollout. destruct c; cbn [negb]; [|by wp_step].
  apply wp_transaction. intros env0 Hc0. wp_step. wp_step; intros env1 _ Hc1; [apply wp_abort|].
  rewrite Hc0. fold (state_row (contents env)).
  destruct (state_row (contents env)) as [rec|] eqn:E; [|apply wp_abort].
  assert (recordToGestaltdSourceVersionState rec = state_at (contents env)) as Hst
    by (unfold state_at; by rewrite E).
  rewrite Hst. case_bool_decide as Hp; [apply wp_abort|].
  case_bool_decide as Hcur; [apply wp_abort|].
  destruct (pendingRollout _ r0) as [pending|e] eqn:Epend; [|apply wp_abort].
  destruct (Rollouts.validateAppRollout _) as [[]|e] eqn:Ev; [|apply wp_abort].
  rewrite <-Hc0, <-Hc1. apply wp_admit. rewrite Hc1, Hc0. intros Hold. by exists pending.
Qed.

(** *** The deploy pause *)

Definition pause_changed (now : time) (owner token : string) (acquire : bool)
    (s : GestaltdSourceVersionState) (w w' : W) : Prop :=
  let cur := state_at w in
  is_Some (state_row w) ∧
  (sv_AppDeployPauseOwner cur = "" ∨
   sv_AppDeployPauseOwner cur = TrimSpace owner ∧ sv_AppDeployPauseToken cur = TrimSpace token) ∧
  s = (if acquire then set_pause cur (TrimSpace owner) (TrimSpace token) else set_pause cur "" "") ∧
  w' = put_state now s w.

Lemma wp_changeAppDeployPause c now owner token acquire (env : Env W) :
  wp (changeAppDeployPause states c now owner token acquire)
     (effect (pause_changed now owner token acquire) (contents env)) env.
Proof.
  unfold changeAppDeployPause. case_bool_decide; [by wp_step|]. destruct c; cbn [negb]; [|by wp_step].
  apply wp_transaction. intros env0 Hc0. wp_step. wp_step; intros env1 _ Hc1; [apply wp_abort|].
  rewrite Hc0. unfold pause_changed, state_at. fold (state_row (contents env)).
  destruct (state_row (contents env)) as [rec|] eqn:E; [|apply wp_abort].
  case_bool_decide as Hcf; [apply wp_abort|]. apply wp_writeState. rewrite E, Hc1, Hc0.
  split; [by eexists|]. split; [|done].
  destruct (decide (sv_AppDeployPauseOwner (recordToGestaltdSourceVersionState rec) = "")); [by left|right].
  split; apply dec_stable; tauto.
Qed.

(** *** Promotion of the workers *)

Definition promoted_to (now : time) (version : string) (at_ : time)
    (s : GestaltdSourceVersionState) (w w' : W) : Prop :=
  s = state_at w ∧ w' = w ∨
  s = set_promoted (state_at w) (TrimSpace version) (normalizedSourceVersionTime now at_) ∧
  w' = put_state now s w.

Lemma stateOf_row w :
  stateOf (match state_row w with Some rec => [rec] | None => [] end) = state_at w.
Proof. unfold state_at. by destruct (state_row w). Qed.

Lemma wp_MarkTemporalWorkersPromoted c now version at_ (env : Env W) :
  wp (MarkTemporalWorkersPromoted states c now version at_)
     (effect (promoted_to now version at_) (contents env)) env.
Proof.
  unfold MarkTemporalWorkersPromoted. destruct c; cbn [negb]; [|by wp_step].
  case_bool_decide; [by wp_step|].
  apply wp_transaction. intros env0 Hc0. wp_step. wp_step; intros env1 _ Hc1; [apply wp_abort|].
  rewrite Hc0. fold (state_row (contents env)). rewrite stateOf_row.
  destruct (_ && _).
  - apply wp_commit. left. split; [done|]. congruence.
  - apply wp_writeState. right. split; [done|]. congruence.
Qed.
End effects.

(** *** Activation *)

Section activation_effect.
  Context `{TP : TimeParser} {W : Type} (states rollouts : ObjectStore W).
  Context (a : activation) (s : GestaltdSourceVersionState).

Definition moved (r : AppRollout) : AppRollout := if retarget a s r then retargeted a s r else r.

Definition retargetRow (m : gmap string idbRecord) (rec : idbRecord) : gmap string idbRecord :=
  let r := Rollouts.recordToAppRollout rec in
  if retarget a s r then <[r_App r := Rollouts.appRolloutRecord (retargeted a s r)]> m else m.

Lemma retargetRow_rows rec w :
  (if retarget a s (Rollouts.recordToAppRollout rec)
   then with_rows (ObjectStore := rollouts)
          (<[record_id (Rollouts.appRolloutRecord (retargeted a s (Rollouts.recordToAppRollout rec)))
             := Rollouts.appRolloutRecord (retargeted a s (Rollouts.recordToAppRollout rec))]>
             (rows (ObjectStore := rollouts) w)) w
   else w) =
  with_rows (ObjectStore := rollouts) (retargetRow (rows (ObjectStore := rollouts) w) rec) w.
Proof.
  unfold retargetRow. destruct (retarget _ _ _); [|symmetry; apply with_id].
  by rewrite Rollouts.record_id_row.
Qed.

Lemma wp_retargetAll recs (env : Env W) :
  wp (retargetAll rollouts a s recs) (λ r env', r = Ok tt →
    contents env' = with_rows (ObjectStore := rollouts)
      (foldl retargetRow (rows (ObjectStore := rollouts) (contents env)) recs) (contents env)) env.
Proof.
  revert env. induction recs as [|rec recs IH]; intros env; cbn [retargetAll foldl].
  { wp_step. intros _. symmetry. apply with_id. }
  pose proof (retargetRow_rows rec (contents env)) as Hrow.
  assert (Hnext : ∀ env1 : Env W, contents env1 = with_rows (ObjectStore := rollouts)
              (retargetRow (rows (ObjectStore := rollouts) (contents env)) rec) (contents env) →
    wp (retargetAll rollouts a s recs) (λ r env', r = Ok tt →
      contents env' = with_rows (ObjectStore := rollouts) (foldl retargetRow
        (retargetRow (rows (ObjectStore := rollouts) (contents env)) rec) recs) (contents env)) env1).
  { intros env1 Hc1. eapply wp_mono; [apply IH|]. cbn. intros r env' H Hr. rewrite (H Hr), Hc1.
    by rewrite rows_with, with_with. }
  destruct (retarget a s _).
  - wp_step. wp_step; intros env1 _ Hc1; [by wp_step|]. apply Hnext. by rewrite Hc1.
  - by apply Hnext.
Qed.

Definition app_of (rec : idbRecord) : string := r_App (Rollouts.recordToAppRollout rec).

Lemma foldl_retargetRow m recs app :
  (∀ rec, rec ∈ recs → m !! app_of rec = Some rec) →
  foldl retargetRow m recs !! app =
    match m !! app with
    | Some rec => if bool_decide (app ∈ app_of <$> recs) && retarget a s (Rollouts.recordToAppRollout rec)
                  then Some (Rollouts.appRolloutRecord (retargeted a s (Rollouts.recordToAppRollout rec)))
                  else Some rec
    | None => None
    end.
Proof.
  induction recs as [|x recs IH] using rev_ind; intros Hkey.
  { cbn. by destruct (m !! app). }
  rewrite foldl_app. cbn [foldl]. unfold retargetRow at 1. fold (app_of x).
  assert (Hx := Hkey x ltac:(apply elem_of_app; right; by left)).
  assert (IH' := IH (λ rec H, Hkey rec ltac:(apply elem_of_app; by left))). clear IH.
  rewrite fmap_app. cbn [fmap list_fmap].
  destruct (decide (app = app_of x)) as [->|Hne].
  - rewrite (bool_decide_eq_true_2 (app_of x ∈ _ ++ _)) by (apply elem_of_app; right; by left).
    rewrite Hx. cbn [andb]. destruct (retarget a s (Rollouts.recordToAppRollout x)) eqn:Ex;
      [by rewrite lookup_insert_eq|]. rewrite IH', Hx, Ex. by rewrite andb_false_r.
  - assert (Hf : foldl retargetRow m recs !! app =
      (if retarget a s (Rollouts.recordToAppRollout x)
       then <[app_of x := Rollouts.appRolloutRecord (retargeted a s (Rollouts.recordToAppRollout x))]>
              (foldl retargetRow m recs) else foldl retargetRow m recs) !! app)
      by (destruct (retarget a s _); [by rewrite lookup_insert_ne|done]).
    rewrite <-Hf, IH'. destruct (m !! app); [|done].
    rewrite (bool_decide_ext (app ∈ app_of <$> recs) (app ∈ (app_of <$> recs) ++ [app_of x])); [done|].
    rewrite elem_of_app, list_elem_of_singleton. tauto.
Qed.

(** Every row of a well-formed store is filed under its app. *)
Lemma retarget_stored w app :
  Rollouts.wf_store (Rollouts.stored (OS := rollouts) w) → ac_rolloutMode a ≠ "" →
  Rollouts.stored (OS := rollouts)
    (with_rows (ObjectStore := rollouts)
       (foldl retargetRow (rows (ObjectStore := rollouts) w)
              (sorted_rows (rows (ObjectStore := rollouts) w))) w) app
  = moved <$> Rollouts.stored (OS := rollouts) w app.
Proof.
  intros Hwf Hmode. unfold Rollouts.stored at 1. rewrite rows_with, foldl_retargetRow.
  - rewrite Rollouts.stored_row. destruct (rows w !! app) as [rec|] eqn:E; [|done].
    cbn [fmap option_fmap option_map]. assert (Hs : Rollouts.stored (OS := rollouts) w app = Some (Rollouts.recordToAppRollout rec))
      by (by rewrite Rollouts.stored_row, E).
    rewrite bool_decide_eq_true_2; swap 1 2.
    { rewrite <-(Rollouts.wf_app _ _ (Hwf _ _ Hs)). apply (list_elem_of_fmap_2 app_of).
      apply elem_of_sorted_rows. by exists app. }
    cbn [andb].
    unfold moved. destruct (retarget a s _); [|done].
    change (Some (Rollouts.recordToAppRollout (Rollouts.appRolloutRecord
      (retargeted a s (Rollouts.recordToAppRollout rec)))) = Some (retargeted a s (Rollouts.recordToAppRollout rec))).
    f_equal. rewrite Rollouts.recordToAppRollout_record. unfold Rollouts.effectiveMode.
    cbn [r_Mode retargeted]. by rewrite decide_False by done.
  - intros rec (k & Hk)%elem_of_sorted_rows.
    assert (Hs : Rollouts.stored (OS := rollouts) w k = Some (Rollouts.recordToAppRollout rec))
      by (by rewrite Rollouts.stored_row, Hk).
    unfold app_of. by rewrite (Rollouts.wf_app _ _ (Hwf _ _ Hs)).
Qed.
End activation_effect.

Section activate.
  Context `{TP : TimeParser} {W : Type} (states rollouts : ObjectStore W).

Definition flagged (a : activation) (s : GestaltdSourceVersionState) : bool :=
  sourceChanged a s || minimumChanged a s || ac_retry a.

(** The rollouts' rows after the loop. *)
Definition retargetedRows (a : activation) (s : GestaltdSourceVersionState) (w : W) : W :=
  if flagged a s
  then with_rows (ObjectStore := rollouts)
         (foldl (retargetRow a s) (rows (ObjectStore := rollouts) w)
                (sorted_rows (rows (ObjectStore := rollouts) w))) w
  else w.

Definition activation_done (now : time) (a : activation) (s : GestaltdSourceVersionState) (w w' : W)
    : Prop :=
  s = activated a (state_at states w) ∧
  w' = put_state states now s (retargetedRows a (state_at states w) w).

Lemma wp_ActivateWithRolloutMode c now version at_ retry window timeout mode minimum (env : Env W) :
  wp (ActivateWithRolloutMode states rollouts c now version at_ retry window timeout mode minimum)
     (effect (λ s w w', ∃ a, validateActivation now version at_ retry window timeout mode minimum = Ok a ∧
                             activation_done now a s w w') (contents env)) env.
Proof.
  unfold ActivateWithRolloutMode. destruct c; cbn [negb]; [|by wp_step].
  destruct (validateActivation _ _ _ _ _ _ _ _) as [a|e] eqn:Ea; [|by wp_step].
  apply wp_transaction. intros env0 Hc0. wp_step. wp_step; intros env1 _ Hc1; [apply wp_abort|].
  rewrite Hc0. fold (state_row states (contents env)). rewrite stateOf_row.
  set (s := state_at states (contents env)).
  assert (Hret : wp (retargetRollouts rollouts a s) (λ r env2, r = Ok tt →
            contents env2 = retargetedRows a s (contents env1)) env1).
  { unfold retargetRollouts, retargetedRows. fold (flagged a s). destruct (flagged a s); [|by wp_step].
    wp_step. wp_step; intros env2 _ Hc2; [by wp_step|]. rewrite <-Hc2. apply wp_retargetAll. }
  wp_step. eapply wp_mono; [exact Hret|]. cbn. intros [[]|e] env2 H2; [|apply wp_abort].
  apply wp_writeState. exists a. split; [done|]. split; [done|]. fold s. rewrite (H2 eq_refl). congruence.
Qed.

Context `{!Apart states rollouts}.

Lemma state_row_rollouts m w :
  state_at states (with_rows (ObjectStore := rollouts) m w) = state_at states w.
Proof. unfold state_at, state_row. by rewrite apart_left. Qed.

Lemma stored_put_state now s w app :
  Rollouts.stored (OS := rollouts) (put_state states now s w) app
  = Rollouts.stored (OS := rollouts) w app.
Proof. unfold Rollouts.stored, put_state. by rewrite apart_right. Qed.

Lemma not_flagged a s r : flagged a s = false → moved a s r = r.
Proof.
  unfold flagged, moved, retarget. intros [[-> ->]%orb_false_iff ->]%orb_false_iff. done.
Qed.

Lemma validated_mode now version at_ retry window timeout mode minimum a :
  validateActivation now version at_ retry window timeout mode minimum = Ok a →
  (ac_rolloutMode a = ModeEnrollment ∨ ac_rolloutMode a = ModeHeartbeat) ∧
  (0 < ac_enrollmentWindow a < ac_rolloutTimeout a)%Z ∧
  TrimSpace (ac_sourceVersion a) = ac_sourceVersion a ∧ ac_sourceVersion a ≠ "" ∧
  (ac_rolloutMode a = ModeHeartbeat → 0 < ac_minimum a)%Z.
Proof.
  unfold validateActivation. case_bool_decide as Hv; [done|].
  destruct (_ || _) eqn:Ew; [done|]. apply orb_false_iff in Ew as [Hw1%Z.leb_gt Hw2%Z.leb_gt].
  set (md := if bool_decide (mode = "") then _ else _).
  destruct (bool_decide (md ≠ ModeEnrollment) && _) eqn:Em; [done|].
  destruct (bool_decide (1 < length minimum)); [done|].
  destruct (default 0%Z (head minimum) <? 0)%Z eqn:En; [done|].
  destruct (bool_decide (md = ModeHeartbeat) && _ && _) eqn:Eh; [done|]. intros [= <-].
  cbn [ac_rolloutMode ac_enrollmentWindow ac_rolloutTimeout ac_sourceVersion ac_minimum].
  apply andb_false_iff in Em. rewrite !bool_decide_eq_false in Em. split_and!; try done; try lia.
  - destruct Em as [Em|Em]; apply dec_stable in Em; tauto.
  - apply TrimSpace_idem.
  - intros Hm. rewrite (bool_decide_eq_true_2 _ Hm) in *. cbn [andb] in *.
    destruct (bool_decide (length _ = 1)); cbn [andb negb] in *; [|done]. by apply Z.leb_gt in Eh.
Qed.

Lemma activated_stored now a s w w' app :
  Rollouts.wf_store (Rollouts.stored (OS := rollouts) w) → ac_rolloutMode a ≠ "" →
  activation_done now a s w w' →
  state_at states w' = normalizedState now s ∧
  Rollouts.stored (OS := rollouts) w' app
  = moved a (state_at states w) <$> Rollouts.stored (OS := rollouts) w app.
Proof.
  intros Hwf Hm [-> ->]. split; [apply state_at_put|]. rewrite stored_put_state.
  unfold retargetedRows. destruct (flagged a (state_at states w)) eqn:Ef.
  - by apply retarget_stored.
  - destruct (Rollouts.stored (OS := rollouts) w app) as [r|]; [|done].
    change (Some r = Some (moved a (state_at states w) r)). by rewrite not_flagged.
Qed.

Lemma retargeted_wf a s app r :
  Rollouts.wf_rollout app r →
  (ac_rolloutMode a = ModeEnrollment ∨ ac_rolloutMode a = ModeHeartbeat) →
  (0 < ac_enrollmentWindow a < ac_rolloutTimeout a)%Z →
  Rollouts.wf_rollout app (retargeted a s r) ∧
  Rollouts.isActiveRolloutState (r_State (retargeted a s r)) = true.
Proof.
  intros [] Hm Hw. unfold retargeted. split.
  - constructor; cbn; try done.
    + left. by case_bool_decide.
    + intros ->. by rewrite bool_decide_eq_true_2 by done.
    + lia.
  - cbn. by case_bool_decide.
Qed.
End activate.

(** ** Sequences of operations

    Every method is one transaction, so a sequence is also any interleaving of calls. *)

Inductive sv_op :=
  | SvCreate (configured : bool) (now : time) (rollout : option AppRollout)
  | SvActivate (configured : bool) (now : time) (version : string) (at_ : time) (retry : bool)
      (window timeout : duration) (mode : AppRolloutMode) (minimum : list Z)
  | SvPause (configured : bool) (now : time) (owner token : string) (acquire : bool)
  | SvPromote (configured : bool) (now : time) (version : string) (at_ : time)
  | SvRollout (o : Rollouts.op).

Definition sv_now (o : sv_op) : time :=
  match o with
  | SvCreate _ now _ | SvActivate _ now _ _ _ _ _ _ _ | SvPause _ now _ _ _ | SvPromote _ now _ _ => now
  | SvRollout o => Rollouts.op_now o
  end.

(** Rollouts are created through the admission only. *)
Definition admissible (o : sv_op) : Prop :=
  (0 ≤ sv_now o)%Z ∧ match o with SvRollout o => Rollouts.is_create o = false | _ => True end.

Section sequences.
  Context `{TP : TimeParser} {W : Type} (states rollouts : ObjectStore W) `{!Apart states rollouts}.

Definition sv_step (env : Env W) (o : sv_op) : Env W :=
  match o with
  | SvCreate c now r => (run (CreateAppRollout states rollouts c now r) env).2
  | SvActivate c now v at_ retry window timeout mode minimum =>
      (run (ActivateWithRolloutMode states rollouts c now v at_ retry window timeout mode minimum) env).2
  | SvPause c now owner token acquire =>
      (run (changeAppDeployPause states c now owner token acquire) env).2
  | SvPromote c now v at_ => (run (MarkTemporalWorkersPromoted states c now v at_) env).2
  | SvRollout o => Rollouts.op_step (OS := rollouts) env o
  end.

Definition run_sv (ops : list sv_op) (env : Env W) : Env W := foldl sv_step env ops.

(** What a step did, if it did anything. *)
Inductive changed (w w' : W) : sv_op → Prop :=
  | ch_create c now r0 r : admitted states rollouts now r0 r w w' → changed w w' (SvCreate c now (Some r0))
  | ch_activate c now v at_ retry window timeout mode minimum a s :
      validateActivation now v at_ retry window timeout mode minimum = Ok a →
      activation_done states rollouts now a s w w' →
      changed w w' (SvActivate c now v at_ retry window timeout mode minimum)
  | ch_pause c now owner token acquire s :
      pause_changed states now owner token acquire s w w' →
      changed w w' (SvPause c now owner token acquire)
  | ch_promote c now v at_ s : promoted_to states now v at_ s w w' → changed w w' (SvPromote c now v at_)
  | ch_rollout o r :
      Rollouts.op_write o (Rollouts.stored (OS := rollouts) w) = Some r →
      w' = Rollouts.write (OS := rollouts) (Some r) w → changed w w' (SvRollout o).

Lemma effect_changed {A} (m : prog (Env W) (result SourceVersionError A)) P o (env : Env W) :
  wp m (effect P (contents env)) env →
  (∀ a w', P a (contents env) w' → changed (contents env) w' o) →
  contents (run m env).2 = contents env ∨ changed (contents env) (contents (run m env).2) o.
Proof.
  unfold wp. intros H HP. destruct (run m env) as [[a|e] env']; cbn in *; [right; by eapply HP|by left].
Qed.

Lemma sv_step_changed env o :
  contents (sv_step env o) = contents env ∨ changed (contents env) (contents (sv_step env o)) o.
Proof.
  destruct o as [c now [r0|]|c now v at_ retry window timeout mode minimum|c now owner token acquire
                |c now v at_|o]; cbn [sv_step].
  - eapply effect_changed; [apply wp_CreateAppRollout|]. intros r w' H. by eapply ch_create.
  - left. by destruct c.
  - eapply effect_changed; [apply wp_ActivateWithRolloutMode|]. intros s w' (a & Ha & H).
    by eapply ch_activate.
  - eapply effect_changed; [apply wp_changeAppDeployPause|]. intros s w' H. by eapply ch_pause.
  - eapply effect_changed; [apply wp_MarkTemporalWorkersPromoted|]. intros s w' H. by eapply ch_promote.
  - destruct (Rollouts.op_effect (OS := rollouts) o env) as [H|(r & Hw & H)]; [by left|right].
    by eapply ch_rollout.
Qed.

(** *** Active rollouts follow the state *)

Definition follows (s : GestaltdSourceVersionState) (r : AppRollout) : Prop :=
  r_TargetSourceVersion r = TrimSpace (sv_CurrentSourceVersion s) ∧
  (r_Mode r = ModeHeartbeat → r_MinimumHealthyInstances r = sv_MinimumHealthyInstances s).

Definition in_step (w : W) : Prop :=
  Rollouts.wf_store (Rollouts.stored (OS := rollouts) w) ∧
  ∀ app r, Rollouts.stored (OS := rollouts) w app = Some r →
    Rollouts.isActiveRolloutState (r_State r) = true → follows (state_at states w) r.

Lemma follows_state s s' r :
  sv_CurrentSourceVersion s' = sv_CurrentSourceVersion s ∨
    sv_CurrentSourceVersion s' = TrimSpace (sv_CurrentSourceVersion s) →
  sv_MinimumHealthyInstances s' = sv_MinimumHealthyInstances s → follows s r → follows s' r.
Proof. unfold follows. intros [-> | ->] ->; by rewrite ?TrimSpace_idem. Qed.

Lemma in_step_put w now s :
  in_step w → sv_CurrentSourceVersion s = sv_CurrentSourceVersion (state_at states w) →
  sv_MinimumHealthyInstances s = sv_MinimumHealthyInstances (state_at states w) →
  in_step (put_state states now s w).
Proof.
  intros [Hwf Hact] Hc Hm. split.
  - intros app r. rewrite (stored_put_state states rollouts). apply Hwf.
  - intros app r. rewrite (stored_put_state states rollouts), state_at_put. intros Hr Ha.
    eapply follows_state; [right; cbn; by rewrite Hc|done|by eapply Hact].
Qed.

Lemma in_step_write w r :
  in_step w → Rollouts.wf_rollout (r_App r) r →
  (Rollouts.isActiveRolloutState (r_State r) = true → follows (state_at states w) r) →
  in_step (Rollouts.write (OS := rollouts) (Some r) w).
Proof.
  intros [Hwf Hact] Hr Hf. pose proof (Rollouts.wf_mode_nonempty _ _ Hr) as Hm. split.
  - intros app r'. rewrite Rollouts.stored_write by done. case_decide; [by intros [= <-]; subst|apply Hwf].
  - intros app r'. rewrite Rollouts.stored_write by done. unfold Rollouts.write.
    rewrite (state_row_rollouts states rollouts). case_decide; [by intros [= <-]|]. by apply Hact.
Qed.

Lemma admitted_follows now r0 r w w' :
  (0 ≤ now)%Z → in_step w → admitted states rollouts now r0 r w w' → in_step w'.
Proof.
  intros Hnow Hin (pending & _ & _ & Hp & Hv & -> & _ & ->).
  destruct (Rollouts.validate_wf now pending Hv Hnow) as [Hwf _].
  apply in_step_write; [done|exact Hwf|]. intros _. unfold pendingRollout in Hp.
  unfold follows. case_bool_decide as Hm.
  - destruct (_ <=? 0)%Z; [done|]. injection Hp as <-.
    split; [apply TrimSpace_idem|done].
  - injection Hp as <-. split; [apply TrimSpace_idem|].
    cbn [Rollouts.normalizeAppRollout r_Mode targeted]. unfold Rollouts.effectiveMode.
    case_decide; [done|]. intros ?. by destruct Hm.
Qed.

Lemma activation_follows now v at_ retry window timeout mode minimum a s w w' :
  validateActivation now v at_ retry window timeout mode minimum = Ok a →
  in_step w → activation_done states rollouts now a s w w' → in_step w'.
Proof.
  intros (Hm & Hw & Htr & _ & _)%validated_mode [Hwf Hact] Hdone.
  assert (Hm0 : ac_rolloutMode a ≠ "") by (by destruct Hm as [-> | ->]).
  pose proof (λ app, activated_stored states rollouts now a s w w' app Hwf Hm0 Hdone) as Hst.
  destruct (Hst "") as [Hs _]. destruct Hdone as [-> _].
  assert (Hcase : ∀ app r', Rollouts.stored (OS := rollouts) w' app = Some r' →
            ∃ r, Rollouts.stored (OS := rollouts) w app = Some r ∧ r' = moved a (state_at states w) r).
  { intros app r'. rewrite (proj2 (Hst app)). intros (r & Hr & ->)%fmap_Some. by exists r. }
  split.
  - intros app r' (r & Hr & ->)%Hcase. unfold moved. destruct (retarget _ _ r); [|by apply Hwf].
    by apply retargeted_wf; [apply Hwf|..].
  - intros app r' (r & Hr & ->)%Hcase. rewrite Hs. intros Ha.
    set (s := state_at states w) in *.
    assert (Hfol : ∀ x, follows (normalizedState now (activated a s)) x ↔
              r_TargetSourceVersion x = ac_sourceVersion a ∧
              (r_Mode x = ModeHeartbeat → r_MinimumHealthyInstances x = effectiveMinimumHealthy a s)).
    { intros x. unfold follows. cbn [normalizedState activated set_current sv_CurrentSourceVersion
        sv_MinimumHealthyInstances]. by rewrite !Htr. }
    assert (Hret : follows (normalizedState now (activated a s)) (retargeted a s r)).
    { apply Hfol. cbn [retargeted r_TargetSourceVersion r_Mode r_MinimumHealthyInstances].
      split; [done|]. intros ->. by rewrite bool_decide_eq_true_2. }
    unfold moved in *. destruct (retarget a s r) eqn:Ert; [done|]. apply Hfol.
    revert Ert. unfold retarget. rewrite Ha. cbn [orb]. destruct (_ && bool_decide _); [done|].
    rewrite andb_true_r. intros [Hsc Hmc]%orb_false_iff. unfold sourceChanged in Hsc.
    apply bool_decide_eq_false, dec_stable in Hsc.
    unfold minimumChanged in Hmc. apply negb_false_iff, Z.eqb_eq in Hmc.
    rewrite <-Hsc, <-Hmc. by apply (Hact app r Hr).
Qed.

Lemma rollout_step_follows o r w :
  Rollouts.is_create o = false → in_step w →
  Rollouts.op_write o (Rollouts.stored (OS := rollouts) w) = Some r →
  in_step (Rollouts.write (OS := rollouts) (Some r) w).
Proof.
  intros Hc Hin Hw. destruct Hin as [Hwf Hact].
  destruct (Rollouts.op_write_terminal _ _ _ Hc Hwf Hw) as [(old & Hold & Hadv) Hr].
  apply in_step_write; [by split|done|]. intros _.
  assert (Hf : Rollouts.isActiveRolloutState (r_State old) = true ∧
               Rollouts.identity r = Rollouts.identity old).
  { destruct Hadv as [Hs _ Hid|Hs _ _ Hid _|Hs _ Hid]; split; try done; apply Rollouts.active_cases; tauto. }
  destruct Hf as [Ha [= _ _ Hm Ht Hmin _ _ _]]. unfold follows. rewrite Ht, Hm, Hmin.
  by apply (Hact (r_App r)).
Qed.

Lemma sv_step_in_step env o : admissible o → in_step (contents env) → in_step (contents (sv_step env o)).
Proof.
  intros [Hnow Hc] Hin. destruct (sv_step_changed env o) as [->|Hch]; [done|].
  revert Hch. generalize (contents (sv_step env o)). intros w' Hch. revert Hnow Hc. destruct Hch as [c now r0 r H|c now v at_ retry window timeout mode minimum a s Ha H
    |c now owner token acquire s (_ & _ & -> & ->)|c now v at_ s H|o' r Hw ->]; cbn; intros Hnow Hc.
  - by eapply admitted_follows.
  - by eapply activation_follows.
  - by apply in_step_put; [|destruct acquire..].
  - destruct H as [[_ ->]|[-> ->]]; [done|]. by apply in_step_put.
  - by eapply rollout_step_follows.
Qed.
(** *** The deploy pause *)

Definition paused_by (w : W) (owner token : string) : Prop :=
  sv_AppDeployPauseOwner (state_at states w) = owner ∧
  sv_AppDeployPauseToken (state_at states w) = token.

(** The release by the owner itself. *)
Definition releases (owner token : string) (o : sv_op) : Prop :=
  match o with
  | SvPause _ _ owner' token' acquire =>
      acquire = false ∧ TrimSpace owner' = owner ∧ TrimSpace token' = token
  | _ => False
  end.

Lemma paused_put w now s owner token :
  TrimSpace owner = owner → TrimSpace token = token →
  sv_AppDeployPauseOwner s = owner → sv_AppDeployPauseToken s = token →
  paused_by (put_state states now s w) owner token.
Proof. unfold paused_by. rewrite state_at_put. cbn. by intros ? ? -> ->. Qed.

Lemma sv_step_paused env o owner token :
  TrimSpace owner = owner → TrimSpace token = token → owner ≠ "" →
  paused_by (contents env) owner token → ¬ releases owner token o →
  paused_by (contents (sv_step env o)) owner token.
Proof.
  intros Ho Ht Hne Hp Hnr. destruct (sv_step_changed env o) as [->|Hch]; [done|].
  revert Hch. generalize (contents (sv_step env o)). intros w' Hch.
  assert (Hrow : ∀ m, paused_by (with_rows (ObjectStore := rollouts) m (contents env)) owner token)
    by (intros m; unfold paused_by; by rewrite (state_row_rollouts states rollouts)).
  destruct Hp as [Hpo Hpt]. revert Hnr.
  destruct Hch as [c now r0 r (p & _ & _ & _ & _ & _ & _ & ->)
    |c now v at_ retry window timeout mode minimum a s Ha [-> ->]
    |c now owner' token' acquire s (_ & Hcur & -> & ->)|c now v at_ s [[_ ->]|[-> ->]]|o' r Hw ->];
    cbn [releases]; intros Hnr; try done.
  - apply Hrow.
  - by apply paused_put.
  - destruct Hcur as [H|[H1 H2]]; [congruence|].
    destruct acquire; [apply paused_put; cbn; congruence|]. destruct Hnr. split_and!; congruence.
  - by apply paused_put.
  - apply Hrow.
Qed.

Lemma run_sv_paused ops env owner token :
  TrimSpace owner = owner → TrimSpace token = token → owner ≠ "" →
  paused_by (contents env) owner token → Forall (λ o, ¬ releases owner token o) ops →
  paused_by (contents (run_sv ops env)) owner token.
Proof.
  intros Ho Ht Hne. revert env. induction ops as [|o ops IH]; intros env Hp Hf; [done|].
  apply Forall_cons in Hf as [Hno Hf]. apply IH; [|done]. by apply sv_step_paused.
Qed.

Lemma run_sv_in_step ops env :
  Forall admissible ops → in_step (contents env) → in_step (contents (run_sv ops env)).
Proof.
  revert env. induction ops as [|o ops IH]; intros env Hf Hin; [done|].
  apply Forall_cons in Hf as [Ho Hf]. apply IH; [done|]. by apply sv_step_in_step.
Qed.
End sequences.

(** ** Properties *)

Section properties.
  Context `{TP : TimeParser} {W : Type} (states rollouts : ObjectStore W) `{!Apart states rollouts}.

(** C35.  Rollouts and the source version stay in step.  From a database in which they
    are, any sequence of admissions, activations, pauses, promotions and rollout
    transitions, with any faults, keeps every active rollout targeting the current
    source version, heartbeat rollouts waiting for the minimum of healthy instances the
    state asks for, and every stored rollout well formed. *)
Theorem active_rollouts_follow_source ops (env : Env W) :
  Forall admissible ops → in_step states rollouts (contents env) →
  let w := contents (run_sv states rollouts ops env) in
  ∀ app r, Rollouts.stored (OS := rollouts) w app = Some r →
    Rollouts.wf_rollout app r ∧
    (Rollouts.isActiveRolloutState (r_State r) = true →
     r_TargetSourceVersion r = TrimSpace (sv_CurrentSourceVersion (state_at states w)) ∧
     (r_Mode r = ModeHeartbeat →
      r_MinimumHealthyInstances r = sv_MinimumHealthyInstances (state_at states w))).
Proof.
  intros Hops Hin w app r Hr.
  destruct (run_sv_in_step states rollouts ops env Hops Hin) as [Hwf Hact].
  split; [by apply Hwf|]. intros Ha. by apply (Hact app r).
Qed.

(** A deploy pause holds until its owner releases it.  Whatever other operations
    run meanwhile, the pause stays with the same owner and token, every admission is
    refused without a write, and so is every acquire or release by another owner or
    with another token. *)
Theorem deploy_pause_holds ops (env : Env W) owner token :
  TrimSpace owner = owner → TrimSpace token = token → owner ≠ "" →
  paused_by states (contents env) owner token →
  Forall (λ o, ¬ releases owner token o) ops →
  let env' := run_sv states rollouts ops env in
  paused_by states (contents env') owner token ∧
  (∀ c now r, let res := run (CreateAppRollout states rollouts c now r) env' in
     is_ok res.1 = false ∧ contents res.2 = contents env') ∧
  (∀ c now owner' token' acquire,
     (TrimSpace owner', TrimSpace token') ≠ (owner, token) →
     let res := run (changeAppDeployPause states c now owner' token' acquire) env' in
     is_ok res.1 = false ∧ contents res.2 = contents env').
Proof.
  intros Ho Ht Hne Hp Hops env'.
  assert (Hp' : paused_by states (contents env') owner token) by (by apply run_sv_paused).
  destruct Hp' as [Hpo Hpt]. split; [done|]. split.
  - intros c now [r|]; [|by destruct c]. pose proof (wp_CreateAppRollout states rollouts c now r env') as H.
    unfold wp in H. cbn zeta. destruct (run _ env') as [[a|e] env2]; cbn in *; [|done].
    destruct H as (p & H & _). rewrite Hpo, Ho in H. done.
  - intros c now owner' token' acquire Hd.
    pose proof (wp_changeAppDeployPause states c now owner' token' acquire env') as H.
    unfold wp in H. cbn zeta. destruct (run _ env') as [[a|e] env2]; cbn in *; [|done].
    destruct H as (_ & [H|[H1 H2]] & _); [congruence|]. destruct Hd. congruence.
Qed.

(** An activation is all or nothing and exact: when it succeeds, the state names
    the new version and every rollout was moved to it exactly when it was active and
    the version or the minimum changed, or a retry asked for the rollouts of that
    version that are active or failed since the last change; when it fails, for
    whatever reason, nothing was written. *)
Theorem Activate_exact c now version at_ retry window timeout mode minimum (env : Env W) :
  Rollouts.wf_store (Rollouts.stored (OS := rollouts) (contents env)) →
  wp (ActivateWithRolloutMode states rollouts c now version at_ retry window timeout mode minimum)
    (λ res env',
      match res with
      | Err _ => contents env' = contents env
      | Ok s => ∃ a, validateActivation now version at_ retry window timeout mode minimum = Ok a ∧
          let old := state_at states (contents env) in
          state_at states (contents env') = normalizedState now (activated a old) ∧
          ∀ app, Rollouts.stored (OS := rollouts) (contents env') app =
            match Rollouts.stored (OS := rollouts) (contents env) app with
            | Some r => Some (if retarget a old r then retargeted a old r else r)
            | None => None
            end
      end) env.
Proof.
  intros Hwf. eapply wp_mono; [apply wp_ActivateWithRolloutMode|].
  intros [s|e] env'; [|done]. cbn [effect]. intros (a & Ha & Hdone). exists a. split; [done|].
  destruct (validated_mode _ _ _ _ _ _ _ _ _ Ha) as (Hm & _).
  assert (Hm0 : ac_rolloutMode a ≠ "") by (by destruct Hm as [-> | ->]).
  pose proof (λ app, activated_stored states rollouts now a s _ _ app Hwf Hm0 Hdone) as Hst.
  destruct (Hst "") as [Hs _]. destruct Hdone as [-> _]. split; [done|].
  intros app. rewrite (proj2 (Hst app)). by destruct (Rollouts.stored _ app).
Qed.
End properties.

(** ** Examples *)

Definition no_parser : TimeParser := λ _, zero_time.
#[local] Existing Instance no_parser.
Definition two_stores := gmap string idbRecord * gmap string idbRecord : Type.
Definition state_store : ObjectStore two_stores := left_store _ _.
Definition rollout_store : ObjectStore two_stores := right_store _ _.
Definition empty_env : Env two_stores := mkEnv (∅, ∅) [].

Definition sample_rollout : AppRollout :=
  {| r_App := "billing"; r_Version := "2.0.0"; r_State := RolloutRestarting; r_Mode := ModeHeartbeat;
     r_TargetSourceVersion := ""; r_MinimumHealthyInstances := 0; r_CreatedAt := Hour;
     r_EnrollmentEndsAt := 0; r_Deadline := (2 * Hour)%Z; r_HealthySince := 0;
     r_HeartbeatEvaluatedAt := 0; r_CompletedAt := 0; r_FailedAt := 0; r_FailureSummary := None |}.

Definition activate (version : string) : sv_op :=
  SvActivate true Hour version Hour false Minute Hour ModeHeartbeat [2%Z].
Definition sample_ops : list sv_op :=
  [activate "v1"; SvCreate true Hour (Some sample_rollout); activate "v2"].

Lemma empty_in_step : in_step state_store rollout_store (contents empty_env).
Proof.
  assert (Hnone : ∀ app, Rollouts.stored (OS := rollout_store) (contents empty_env) app = None)
    by (intros app; unfold Rollouts.stored; cbn; by rewrite lookup_empty).
  split; intros app r Hr; by rewrite Hnone in Hr.
Qed.

Lemma active_rollouts_follow_source_witness :
  ∃ r, Rollouts.stored (OS := rollout_store)
         (contents (run_sv state_store rollout_store sample_ops empty_env)) "billing" = Some r ∧
       r_State r = RolloutRestarting ∧ r_TargetSourceVersion r = "v2".
Proof.
  assert (Hadm : Forall admissible sample_ops)
    by (repeat constructor; vm_compute; discriminate).
  pose proof (active_rollouts_follow_source state_store rollout_store sample_ops empty_env Hadm
                empty_in_step "billing") as H.
  assert (Hcur : sv_CurrentSourceVersion (state_at state_store
            (contents (run_sv state_store rollout_store sample_ops empty_env))) = "v2")
    by (vm_compute; reflexivity).
  assert (Hst : (r_State <$> Rollouts.stored (OS := rollout_store)
            (contents (run_sv state_store rollout_store sample_ops empty_env)) "billing")
          = Some RolloutRestarting) by (vm_compute; reflexivity).
  apply fmap_Some in Hst as (r & Hr & Hrs). exists r. split; [done|]. split; [done|].
  destruct (H r Hr) as [_ Hact]. rewrite <-Hrs in Hact. destruct (Hact eq_refl) as [-> _].
  rewrite Hcur. reflexivity.
Defined.

Definition paused_env : Env two_stores :=
  run_sv state_store rollout_store
    [activate "v1"; SvPause true Hour "deploy" "token" true] empty_env.

Lemma deploy_pause_holds_witness :
  is_ok (run (CreateAppRollout state_store rollout_store true Hour (Some sample_rollout))
    (run_sv state_store rollout_store [activate "v2"] paused_env)).1 = false.
Proof.
  refine (proj1 (proj1 (proj2 (deploy_pause_holds state_store rollout_store [activate "v2"] paused_env
    "deploy" "token" eq_refl eq_refl _ _ _)) true Hour (Some sample_rollout))).
  - discriminate.
  - split; vm_compute; reflexivity.
  - constructor; [by intros []|constructor].
Defined.

Lemma Activate_exact_witness :
  state_at state_store (contents (run (ActivateWithRolloutMode state_store rollout_store true Hour "v1" Hour
    false Minute Hour ModeHeartbeat [2%Z]) empty_env).2)
  = {| sv_CurrentSourceVersion := "v1"; sv_MinimumHealthyInstances := 2; sv_UpdatedAt := Hour;
       sv_TemporalWorkersPromotedSourceVersion := ""; sv_TemporalWorkersPromotedAt := Hour;
       sv_AppDeployPauseOwner := ""; sv_AppDeployPauseToken := "" |}.
Proof.
  pose proof (Activate_exact state_store rollout_store true Hour "v1" Hour false Minute Hour
    ModeHeartbeat [2%Z] empty_env (proj1 empty_in_step)) as H. unfold wp in H.
  assert (Hok : is_ok (run (ActivateWithRolloutMode state_store rollout_store true Hour "v1" Hour
    false Minute Hour ModeHeartbeat [2%Z]) empty_env).1 = true) by (vm_compute; reflexivity).
  destruct (run _ empty_env) as [[s|e] env']; [|discriminate Hok].
  destruct H as (a & Ha & Hs & _). cbn [snd] in *. rewrite Hs.
  assert (validateActivation Hour "v1" Hour false Minute Hour ModeHeartbeat [2%Z] =
    Ok {| ac_sourceVersion := "v1"; ac_at := Hour; ac_retry := false; ac_enrollmentWindow := Minute;
          ac_rolloutTimeout := Hour; ac_rolloutMode := ModeHeartbeat; ac_minimumProvided := true;
          ac_minimum := 2 |}) as Hv by (vm_compute; reflexivity).
  rewrite Hv in Ha. injection Ha as <-. vm_compute. reflexivity.
Defined.
End SourceVersions.
