(* ===== verification/InstallLocks.v ===== *)
(** * InstallLocks: the fleet-wide install admission lock

    Models [gestaltd/internal/coredata/app_version_install_locks.go].  [Acquire]
    and [Release] are sequences of separate object-store calls, not
    transactions, so both their behaviour alone and their interleavings are
    studied. *)

From stdpp Require Import base gmap strings list sorting sets.
From Stdlib Require Import ZArith Ascii Lia.
From S2P Require Import Prelude ObjectStore.

Set Default Goal Selector "!".

Module InstallLocks.

Inductive LockError :=
  | ErrNotConfigured
  | ErrAppAndVersionRequired
  | ErrHolderRequired
  | ErrAppVersionInstallLockHeld
  | ErrStore (e : DBError).

#[export] Instance LockError_eq_dec : EqDecision LockError.
Proof. solve_decision. Defined.

Definition DefaultAppVersionInstallLockTTL : duration := (15 * Minute)%Z.

Record AppVersionInstallLock := {
  lock_App : string;
  lock_Version : string;
  lock_Holder : string;
  lock_AcquiredAt : time;
  lock_ExpiresAt : time }.

Definition appVersionInstallLockKey (app : string) : string := TrimSpace app.

Definition lockRecord (key app version holder : string) (acquiredAt expiresAt : time) : idbRecord :=
  <["id" := AString key]> (<["app" := AString app]> (<["version" := AString version]>
  (<["holder" := AString holder]> (<["acquired_at" := ATime acquiredAt]>
  (<["expires_at" := ATime expiresAt]> ∅))))).

Definition recordToAppVersionInstallLock `{TimeParser} (rec : idbRecord) : AppVersionInstallLock :=
  {| lock_App := recString rec "app";
     lock_Version := recString rec "version";
     lock_Holder := recString rec "holder";
     lock_AcquiredAt := recTime rec "acquired_at";
     lock_ExpiresAt := recTime rec "expires_at" |}.

Section service.
  Context `{TP : TimeParser} {W : Type} `{OS : ObjectStore W}.
  Local Abbreviation M A := (prog (Env W) A).

(** [Delete] for which a missing row is not an error. *)
Definition deleteLock (key : string) : M (result LockError unit) :=
  d ← Delete key;
  mret (match d with
        | Ok _ | Err ErrNotFound => Ok tt
        | Err e => Err (ErrStore e)
        end).

Fixpoint clearStale (key app holder : string) (now : time) (recs : list idbRecord)
    : M (result LockError bool) :=
  match recs with
  | [] => mret (Ok false)
  | rec :: recs =>
      let current := recordToAppVersionInstallLock rec in
      if bool_decide (TrimSpace (lock_App current) ≠ app) then clearStale key app holder now recs
      else
        let recordID := recString rec "id" in
        if After (lock_ExpiresAt current) now then
          if bool_decide (recordID = key) && bool_decide (lock_Holder current = holder)
          then mret (Ok true)
          else mret (Err ErrAppVersionInstallLockHeld)
        else
          d ← deleteLock recordID;
          match d with
          | Err e => mret (Err e)
          | Ok _ => clearStale key app holder now recs
          end
  end.

Definition clearStaleAndCheckAppLocks (key app holder : string) (now : time)
    : M (result LockError bool) :=
  recs ← GetAll;
  match recs with
  | Err e => mret (Err (ErrStore e))
  | Ok recs => clearStale key app holder now recs
  end.

Definition tryAddLock (key app version holder : string) (acquiredAt expiresAt : time)
    : M (result DBError unit) :=
  Add (lockRecord key app version holder acquiredAt expiresAt).

Definition putLock (key app version holder : string) (acquiredAt expiresAt : time)
    : M (result LockError unit) :=
  p ← Put (lockRecord key app version holder acquiredAt expiresAt);
  mret (match p with Ok _ => Ok tt | Err e => Err (ErrStore e) end).

(** [Acquire] after the first insertion found the key taken. *)
Definition acquireExisting (key app version holder : string) (now expiresAt : time)
    : M (result LockError unit) :=
  g ← Get key;
  match g with
  | Err ErrNotFound =>
      a ← tryAddLock key app version holder now expiresAt;
      mret (match a with Ok _ => Ok tt | Err e => Err (ErrStore e) end)
  | Err e => mret (Err (ErrStore e))
  | Ok existing =>
      let current := recordToAppVersionInstallLock existing in
      if bool_decide (lock_Holder current = holder) then
        if After (lock_ExpiresAt current) now then mret (Ok tt)
        else putLock key app version holder now expiresAt
      else if After (lock_ExpiresAt current) now then mret (Err ErrAppVersionInstallLockHeld)
      else
        d ← deleteLock key;
        match d with
        | Err e => mret (Err e)
        | Ok _ =>
            a ← tryAddLock key app version holder now expiresAt;
            mret (match a with
                  | Ok _ => Ok tt
                  | Err ErrAlreadyExists => Err ErrAppVersionInstallLockHeld
                  | Err e => Err (ErrStore e)
                  end)
        end
  end.

(** [Acquire] after the stale rows were cleared. *)
Definition acquireFresh (key app version holder : string) (now expiresAt : time)
    : M (result LockError unit) :=
  a ← tryAddLock key app version holder now expiresAt;
  match a with
  | Ok _ => mret (Ok tt)
  | Err ErrAlreadyExists => acquireExisting key app version holder now expiresAt
  | Err e => mret (Err (ErrStore e))
  end.

(** [clock] is what [time.Now] returns. *)
Definition Acquire (configured : bool) (clock : time) (app version holder : string)
    (ttl : duration) : M (result LockError unit) :=
  if negb configured then mret (Err ErrNotConfigured) else
  let app := TrimSpace app in
  let version := TrimSpace version in
  let holder := TrimSpace holder in
  if bool_decide (app = "") || bool_decide (version = "")
  then mret (Err ErrAppAndVersionRequired) else
  if bool_decide (holder = "") then mret (Err ErrHolderRequired) else
  let ttl := if (ttl <=? 0)%Z then DefaultAppVersionInstallLockTTL else ttl in
  let now := Truncate clock Millisecond in
  let expiresAt := (now + ttl)%Z in
  let key := appVersionInstallLockKey app in
  owned ← clearStaleAndCheckAppLocks key app holder now;
  match owned with
  | Err e => mret (Err e)
  | Ok true => mret (Ok tt)
  | Ok false => acquireFresh key app version holder now expiresAt
  end.

Definition Release (configured : bool) (app version holder : string) : M (result LockError unit) :=
  if negb configured then mret (Ok tt) else
  let app := TrimSpace app in
  let version := TrimSpace version in
  let holder := TrimSpace holder in
  if bool_decide (app = "") || bool_decide (version = "") || bool_decide (holder = "")
  then mret (Ok tt) else
  let key := appVersionInstallLockKey app in
  g ← Get key;
  match g with
  | Err ErrNotFound => mret (Ok tt)
  | Err e => mret (Err (ErrStore e))
  | Ok existing =>
      if bool_decide (TrimSpace (lock_Holder (recordToAppVersionInstallLock existing)) ≠ holder)
      then mret (Ok tt)
      else deleteLock key
  end.
End service.

(** ** Locks in the database *)

Section locks.
  Context `{TP : TimeParser} {W : Type} `{OS : ObjectStore W}.

(** The row [rec] locks [app]; it is live at [now]. *)
Definition locks (app : string) (rec : idbRecord) : bool :=
  bool_decide (TrimSpace (lock_App (recordToAppVersionInstallLock rec)) = app).
Definition live (now : time) (rec : idbRecord) : bool :=
  After (lock_ExpiresAt (recordToAppVersionInstallLock rec)) now.
Definition owned_by (app holder : string) (rec : idbRecord) : bool :=
  bool_decide (record_id rec = app) &&
  bool_decide (lock_Holder (recordToAppVersionInstallLock rec) = holder).

(** Rows are stored under their ids, and the row under an app's name locks it. *)
Definition wf_locks (app : string) (m : gmap string idbRecord) : Prop :=
  (∀ k rec, m !! k = Some rec → record_id rec = k) ∧
  (∀ rec, m !! app = Some rec → locks app rec = true).

(** [m'] is [m] without some rows that lock [app] and are not live at [now]. *)
Definition swept (app : string) (now : time) (m m' : gmap string idbRecord) : Prop :=
  m' ⊆ m ∧ ∀ k rec, m !! k = Some rec → m' !! k = None → locks app rec = true ∧ live now rec = false.

Lemma swept_refl app now m : swept app now m m.
Proof. split; [done|]. intros k rec H1 H2. congruence. Qed.

Lemma swept_delete app now m m' k rec :
  swept app now m m' → m !! k = Some rec → locks app rec = true → live now rec = false →
  swept app now m (delete k m').
Proof.
  intros [Hsub Hdel] Hk Hl Hlive. split; [by etrans; [apply delete_subseteq|]|].
  intros k' rec' Hk' Hn. destruct (decide (k = k')) as [<-|Hne].
  - rewrite Hk in Hk'. by injection Hk' as <-.
  - rewrite lookup_delete_ne in Hn by done. eauto.
Qed.

Lemma wp_deleteLock key (env : Env W) Q :
  (∀ env', ¬ benign env → contents env' = contents env → Q (Err (ErrStore ErrIO)) env') →
  (∀ env', (benign env → benign env') → rows (contents env') = delete key (rows (contents env)) →
           contents env' = with_rows (delete key (rows (contents env))) (contents env) →
           Q (Ok tt) env') →
  wp (deleteLock key) Q env.
Proof.
  intros Hio Hok. unfold deleteLock. wp_step. wp_step; intros env' Hb Hc; wp_step.
  - by apply Hio.
  - apply Hok; [done| |done]. by rewrite Hc, rows_with.
Qed.

(** What the sweep over the rows [recs] reports; the database held [m] before
    the sweep and [m1] when it reached [recs]. *)
Definition sweep_post (app holder : string) (now : time) (m m1 : gmap string idbRecord)
    (recs : list idbRecord) (good : Prop) (res : result LockError bool) (env : Env W) : Prop :=
  (good → benign env) ∧ swept app now m (rows (contents env)) ∧ rows (contents env) ⊆ m1 ∧
  match res with
  | Ok true => ∃ rec, rec ∈ recs ∧ locks app rec = true ∧ live now rec = true ∧
                      owned_by app holder rec = true
  | Err ErrAppVersionInstallLockHeld =>
      ∃ rec, rec ∈ recs ∧ locks app rec = true ∧ live now rec = true ∧
             owned_by app holder rec = false
  | Ok false => ∀ rec, rec ∈ recs → locks app rec = true →
                       live now rec = false ∧ rows (contents env) !! record_id rec = None
  | Err _ => ¬ good
  end.

(** A row that does not lock the app, or is stale and now deleted, is skipped. *)
Lemma sweep_post_cons app holder now m m1 m2 rec recs good res env :
  sweep_post app holder now m m2 recs good res env → m2 ⊆ m1 →
  (locks app rec = true → live now rec = false ∧ m2 !! record_id rec = None) →
  sweep_post app holder now m m1 (rec :: recs) good res env.
Proof.
  intros (Hg & Hsw & Hsub & H) Hm Hrec. split_and!; [done|done|by etrans|].
  destruct res as [[]|[]]; try done.
  - destruct H as (r & Hr & H). exists r. by split; [right|].
  - intros r [->|Hr]%elem_of_cons Hl; [|by apply H].
    destruct (Hrec Hl) as [? Hn]. split; [done|]. by eapply lookup_weaken_None.
  - destruct H as (r & Hr & H). exists r. by split; [right|].
Qed.

Lemma wp_clearStale app holder now m recs (good : Prop) (env : Env W) :
  (∀ rec, rec ∈ recs → m !! record_id rec = Some rec) →
  swept app now m (rows (contents env)) → (good → benign env) →
  wp (clearStale app app holder now recs)
     (sweep_post app holder now m (rows (contents env)) recs good) env.
Proof.
  revert env. induction recs as [|rec recs IH]; intros env Hin Hsw Hg; cbn [clearStale].
  { wp_step. split_and!; [done..|]. by intros rec ?%elem_of_nil. }
  assert (Hrec : m !! record_id rec = Some rec) by (apply Hin; by left).
  assert (Hrecs : ∀ rec', rec' ∈ recs → m !! record_id rec' = Some rec') by (intros; apply Hin; by right).
  cbv zeta. fold (record_id rec).
  case_bool_decide as Happ.
  { eapply wp_mono; [by apply IH|]. intros res env' Hp.
    eapply sweep_post_cons; [exact Hp|done|]. intros Hl. unfold locks in Hl. by bool_props. }
  assert (Hl : locks app rec = true) by (by apply bool_decide_eq_true).
  fold (live now rec) (owned_by app holder rec).
  destruct (live now rec) eqn:Hlive.
  { destruct (owned_by app holder rec) eqn:Hown; wp_step; (split_and!; [done..|]);
      exists rec; (split; [by left|done]). }
  wp_step. apply wp_deleteLock; intros env1 Hb.
  { intros Hc. wp_step. rewrite <-Hc in Hsw |- *. split_and!; [tauto|done|done|tauto]. }
  intros Hr _. eapply wp_mono; [apply IH; [done| |tauto]|].
  - rewrite Hr. by eapply swept_delete.
  - intros res env' Hp. eapply sweep_post_cons; [exact Hp| |]; rewrite Hr.
    + apply delete_subseteq.
    + intros _. split; [done|]. apply lookup_delete_eq.
Qed.

(** *** Acquiring alone *)

Definition lockTTL (ttl : duration) : duration :=
  if (ttl <=? 0)%Z then DefaultAppVersionInstallLockTTL else ttl.

Definition lockRow (clock : time) (app version holder : string) (ttl : duration) : idbRecord :=
  lockRecord app app version holder (Truncate clock Millisecond)
             (Truncate clock Millisecond + lockTTL ttl)%Z.

Lemma record_id_lock key app version holder t1 t2 :
  record_id (lockRecord key app version holder t1 t2) = key.
Proof. done. Qed.

(** What [Acquire] leaves, with [m] the rows before and [now] its clock. *)
Definition acquire_post (app holder : string) (now : time) (lock : idbRecord)
    (m : gmap string idbRecord) (good : Prop) (res : result LockError unit) (env : Env W) : Prop :=
  let m' := rows (contents env) in
  match res with
  | Ok _ =>
      (** it already held the lock: only stale rows went *)
      swept app now m m' ∧
        (∃ k rec, m !! k = Some rec ∧ locks app rec = true ∧ live now rec = true ∧
                  owned_by app holder rec = true) ∨
      (** it took the lock: nobody had a live one, and its row is now the only
          one of the app *)
      (∀ k rec, m !! k = Some rec → locks app rec = true → live now rec = false) ∧
        m' = <[app := lock]> (filter (λ kr, locks app kr.2 = false) m)
  | Err ErrAppVersionInstallLockHeld =>
      swept app now m m' ∧
      ∃ k rec, m !! k = Some rec ∧ locks app rec = true ∧ live now rec = true ∧
               owned_by app holder rec = false
  | Err _ => ¬ good ∧ swept app now m m'
  end.

Lemma swept_all app now m m' :
  swept app now m m' →
  (∀ k rec, m !! k = Some rec → locks app rec = true → live now rec = false ∧ m' !! k = None) →
  m' = filter (λ kr, locks app kr.2 = false) m.
Proof.
  intros [Hsub Hdel] Hall. apply map_eq. intros k. apply option_eq. intros rec.
  rewrite map_lookup_filter_Some. simpl. split.
  - intros Hk'. pose proof (lookup_weaken _ _ _ _ Hk' Hsub) as Hk. split; [done|].
    destruct (locks app rec) eqn:Hl; [|done]. destruct (Hall _ _ Hk Hl). congruence.
  - intros [Hk Hl]. destruct (m' !! k) as [rec'|] eqn:Hk'.
    + pose proof (lookup_weaken _ _ _ _ Hk' Hsub). congruence.
    + destruct (Hdel _ _ Hk Hk'). congruence.
Qed.

Lemma wp_Acquire clock app0 version0 holder0 ttl (env : Env W) :
  let app := TrimSpace app0 in
  let version := TrimSpace version0 in
  let holder := TrimSpace holder0 in
  app ≠ "" → version ≠ "" → holder ≠ "" → wf_locks app (rows (contents env)) →
  wp (Acquire true clock app0 version0 holder0 ttl)
     (acquire_post app holder (Truncate clock Millisecond)
        (lockRow clock app version holder ttl) (rows (contents env)) (benign env)) env.
Proof.
  intros app version holder Ha' Hv' Hh' [Hid Hkey]. unfold Acquire. cbv zeta. cbn [negb].
  unfold appVersionInstallLockKey. rewrite TrimSpace_idem. fold app version holder.
  rewrite !bool_decide_false by done. cbn [orb].
  fold (lockTTL ttl). set (now := Truncate clock Millisecond). set (m := rows (contents env)).
  assert (Hrows : ∀ rec, rec ∈ sorted_rows m → m !! record_id rec = Some rec).
  { intros rec [k Hk]%elem_of_sorted_rows. by rewrite (Hid _ _ Hk). }
  wp_step. unfold clearStaleAndCheckAppLocks. wp_step. wp_step; intros env1 Hb1 Hc1.
  { wp_step. wp_step. split; [tauto|]. rewrite Hc1. apply swept_refl. }
  eapply wp_mono.
  { apply (wp_clearStale app holder now m _ (benign env)); [exact Hrows| |exact Hb1].
    rewrite Hc1. apply swept_refl. }
  intros [[]|e] env2 (Hg & Hsw & _ & H).
  - wp_step. left. split; [done|]. destruct H as (rec & [k Hk]%elem_of_sorted_rows & H). eauto.
  - assert (Hall : ∀ k rec, m !! k = Some rec → locks app rec = true →
              live now rec = false ∧ rows (contents env2) !! k = None).
    { intros k rec Hk Hl. rewrite <-(Hid _ _ Hk). apply H; [|done].
      apply elem_of_sorted_rows. eauto. }
    assert (Hnone : rows (contents env2) !! app = None).
    { destruct (m !! app) as [rec|] eqn:E; [by eapply Hall; eauto|].
      destruct Hsw as [Hsub _]. by eapply lookup_weaken_None. }
    unfold acquireFresh, tryAddLock. wp_step.
    wp_step; intros env3 Hb3; rewrite ?record_id_lock.
    + intros Hc3. wp_step. split; [tauto|]. by rewrite Hc3.
    + rewrite Hnone. by intros [? [=]].
    + intros _ Hc3. wp_step. right. split; [intros; by eapply Hall|].
      rewrite Hc3, rows_with. f_equal. by eapply swept_all.
  - wp_step. destruct e; try (by split); [split; [done|]].
    destruct H as (rec & [k Hk]%elem_of_sorted_rows & H). eauto.
Qed.
End locks.

(** ** Concurrent acquisition *)

Record request := {
  rq_clock : time; rq_app : string; rq_version : string; rq_holder : string; rq_ttl : duration }.

Definition rq_now (q : request) : time := Truncate (rq_clock q) Millisecond.
Definition rq_expires (q : request) : time := (rq_now q + lockTTL (rq_ttl q))%Z.

Section concurrent.
  Context `{TP : TimeParser} {W : Type} `{OS : ObjectStore W}.
  Local Abbreviation M A := (prog (Env W) A).
  Variable app : string.
  Variable reqs : list request.
  Hypothesis same_app : ∀ q, q ∈ reqs → TrimSpace (rq_app q) = app.
  Hypothesis distinct : ∀ i j q q', reqs !! i = Some q → reqs !! j = Some q' →
    TrimSpace (rq_holder q) = TrimSpace (rq_holder q') → i = j.
  Hypothesis in_time : ∀ q q', q ∈ reqs → q' ∈ reqs → (rq_now q < rq_expires q')%Z.

Definition acquire (q : request) : M (result LockError unit) :=
  Acquire true (rq_clock q) (rq_app q) (rq_version q) (rq_holder q) (rq_ttl q).

Definition row_of (q : request) : idbRecord :=
  lockRow (rq_clock q) app (TrimSpace (rq_version q)) (TrimSpace (rq_holder q)) (rq_ttl q).

(** The points where a process waits for its next call. *)
Definition at_list (q : request) : M (result LockError unit) :=
  owned ← clearStaleAndCheckAppLocks app app (TrimSpace (rq_holder q)) (rq_now q);
  match owned with
  | Err e => mret (Err e)
  | Ok true => mret (Ok tt)
  | Ok false => acquireFresh app app (TrimSpace (rq_version q)) (TrimSpace (rq_holder q))
                             (rq_now q) (rq_expires q)
  end.
Definition at_add (q : request) : M (result LockError unit) :=
  acquireFresh app app (TrimSpace (rq_version q)) (TrimSpace (rq_holder q))
               (rq_now q) (rq_expires q).
Definition at_get (q : request) : M (result LockError unit) :=
  acquireExisting app app (TrimSpace (rq_version q)) (TrimSpace (rq_holder q))
                  (rq_now q) (rq_expires q).

Lemma acquire_start q :
  q ∈ reqs → acquire q = at_list q ∨ ∃ e, acquire q = Ret (Err e).
Proof.
  intros Hq. unfold acquire, Acquire, at_list. cbn [negb].
  unfold appVersionInstallLockKey. rewrite TrimSpace_idem, (same_app q Hq).
  destruct (_ || _); [right; by eexists|]. destruct (bool_decide _); [right; by eexists|]. by left.
Qed.

(** The database holds no lock of the app but possibly that of one request. *)
Definition db_ok (m : gmap string idbRecord) : Prop :=
  (∀ k rec, m !! k = Some rec → k ≠ app → locks app rec = false) ∧
  (∀ rec, m !! app = Some rec → ∃ q, q ∈ reqs ∧ rec = row_of q).

Definition holds (q : request) (m : gmap string idbRecord) : Prop :=
  ∃ rec, m !! app = Some rec ∧
         lock_Holder (recordToAppVersionInstallLock rec) = TrimSpace (rq_holder q).

Definition thread_ok (m : gmap string idbRecord) (q : request) (t : M (result LockError unit)) : Prop :=
  t = at_list q ∨ t = at_add q ∨ (t = at_get q ∧ is_Some (m !! app)) ∨
  (∃ e, t = Ret (Err e)) ∨ (t = Ret (Ok tt) ∧ holds q m).

Lemma clearStale_skip key holder now recs :
  (∀ rec, rec ∈ recs → locks app rec = false) →
  clearStale (W := W) key app holder now recs = Ret (Ok false).
Proof.
  induction recs as [|rec recs IH]; intros Hall; [done|]. cbn [clearStale]. cbv zeta.
  assert (Hl : locks app rec = false) by (apply Hall; by left).
  apply bool_decide_eq_false in Hl. rewrite bool_decide_true by done.
  apply IH. intros r Hr. apply Hall. by right.
Qed.

Lemma row_of_locks q : TrimSpace app = app → locks app (row_of q) = true.
Proof. intros H. by apply bool_decide_eq_true. Qed.

(** A sweep that meets the lock of [q'] ends there. *)
Lemma clearStale_meet q q' recs :
  TrimSpace app = app → q ∈ reqs → q' ∈ reqs →
  (∀ rec, rec ∈ recs → locks app rec = false ∨ rec = row_of q') → row_of q' ∈ recs →
  clearStale (W := W) app app (TrimSpace (rq_holder q)) (rq_now q) recs
  = Ret (if decide (TrimSpace (rq_holder q') = TrimSpace (rq_holder q))
         then Ok true else Err ErrAppVersionInstallLockHeld).
Proof.
  intros Happ Hq Hq'. induction recs as [|rec recs IH]; intros Hall Hin.
  { by apply elem_of_nil in Hin. }
  cbn [clearStale]. cbv zeta. destruct (Hall rec) as [Hl | ->]; [by left| |].
  - rewrite bool_decide_true by (by apply bool_decide_eq_false in Hl). apply IH.
    + intros r Hr. apply Hall. by right.
    + apply elem_of_cons in Hin as [<-|Hin]; [|done]. by rewrite row_of_locks in Hl.
  - rewrite bool_decide_false.
    2: { intros H. apply H. pose proof (row_of_locks q' Happ) as Hl. by apply bool_decide_eq_true in Hl. }
    replace (After _ _) with true.
    2: { symmetry. apply Z.ltb_lt. by apply in_time. }
    change (recString (row_of q') "id") with app.
    change (lock_Holder (recordToAppVersionInstallLock (row_of q'))) with (TrimSpace (rq_holder q')).
    rewrite bool_decide_true by done. cbn [andb]. case_bool_decide; case_decide; done.
Qed.

(** *** The invariant is kept by every step *)

Definition inv (cfg : config (Env W) (result LockError unit)) : Prop :=
  db_ok (rows (contents cfg.1)) ∧
  ∀ i t, cfg.2 !! i = Some t → ∃ q, reqs !! i = Some q ∧ thread_ok (rows (contents cfg.1)) q t.

Lemma fallible_cases {A} (f : W → result DBError A * W) (env : Env W) :
  (∃ env', fallible f env = (Err ErrIO, env') ∧ contents env' = contents env) ∨
  (∃ env', fallible f env = ((f (contents env)).1, env') ∧ contents env' = (f (contents env)).2).
Proof.
  unfold fallible. destruct (pop_fault env) as [[] env0] eqn:E;
    apply pop_fault_spec in E as [Hc _]; [left; eauto|right].
  rewrite <-Hc. destruct (f (contents env0)) as [r w]. by eexists.
Qed.

(** What one call of process [q] does to the database and to the process. *)
Lemma list_step q (env : Env W) :
  TrimSpace app = app → q ∈ reqs → db_ok (rows (contents env)) →
  ∃ B c k, at_list q = Call B c k ∧ ∃ b env', c env = (b, env') ∧
    contents env' = contents env ∧ thread_ok (rows (contents env)) q (k b).
Proof.
  intros Happ Hq [Hother Hkey]. do 3 eexists. split; [reflexivity|].
  destruct (fallible_cases all_rows env) as [(env' & -> & Hc)|(env' & -> & Hc)];
    do 2 eexists; (split; [reflexivity|]); (split; [exact Hc|]); simpl.
  { right; right; right; left. by eexists. }
  destruct (rows (contents env) !! app) as [rec|] eqn:E.
  - destruct (Hkey _ eq_refl) as (q' & Hq' & ->).
    rewrite (clearStale_meet q q'); try done.
    + simpl. case_decide; right; right; right; [right|left; by eexists]. split; [done|]. by exists (row_of q').
    + intros r [k Hk]%elem_of_sorted_rows. destruct (decide (k = app)) as [->|Hne].
      * right. congruence.
      * left. by eapply Hother.
    + apply elem_of_sorted_rows. by exists app.
  - rewrite clearStale_skip; [by right; left|].
    intros r [k Hk]%elem_of_sorted_rows. eapply Hother; [done|]. intros ->. congruence.
Qed.

Lemma add_step q (env : Env W) :
  q ∈ reqs → db_ok (rows (contents env)) →
  ∃ B c k, at_add q = Call B c k ∧ ∃ b env', c env = (b, env') ∧
    thread_ok (rows (contents env')) q (k b) ∧
    (contents env' = contents env ∨
     rows (contents env) !! app = None ∧
     rows (contents env') = <[app := row_of q]> (rows (contents env))).
Proof.
  intros Hq _. do 3 eexists. split; [reflexivity|].
  destruct (fallible_cases (add_row (row_of q)) env) as [(env' & Hf & Hc)|(env' & Hf & Hc)];
    fold (row_of q) in *; do 2 eexists; (split; [exact Hf|]).
  { split; [|by left]. right; right; right; left. by eexists. }
  revert Hc. unfold add_row. change (record_id (row_of q)) with app.
  destruct (rows (contents env) !! app) eqn:E; simpl; intros Hc.
  - split; [|by left]. right; right; left. split; [done|]. rewrite Hc, E. done.
  - rewrite Hc, rows_with. split; [|by right]. right; right; right; right. split; [done|].
    exists (row_of q). by rewrite lookup_insert_eq.
Qed.

Lemma get_step q (env : Env W) :
  q ∈ reqs → db_ok (rows (contents env)) → is_Some (rows (contents env) !! app) →
  ∃ B c k, at_get q = Call B c k ∧ ∃ b env', c env = (b, env') ∧
    contents env' = contents env ∧ thread_ok (rows (contents env)) q (k b).
Proof.
  intros Hq [_ Hkey] [rec Hrec]. do 3 eexists. split; [reflexivity|].
  destruct (fallible_cases (get_row app) env) as [(env' & -> & Hc)|(env' & -> & Hc)];
    do 2 eexists; (split; [reflexivity|]); (split; [exact Hc|]).
  { right; right; right; left. by eexists. }
  destruct (Hkey _ Hrec) as (q' & Hq' & ->). simpl. rewrite Hrec. cbv zeta.
  change (lock_Holder (recordToAppVersionInstallLock (row_of q'))) with (TrimSpace (rq_holder q')).
  replace (After _ _) with true by (symmetry; apply Z.ltb_lt; by apply in_time).
  case_bool_decide as Hh; simpl; right; right; right; [right|left; by eexists].
  split; [done|]. by exists (row_of q').
Qed.

Lemma thread_ok_grow m q q' t :
  m !! app = None → thread_ok m q t → thread_ok (<[app := row_of q']> m) q t.
Proof.
  intros Hn [H|[H|[[_ [? H]]|[H|[_ (? & H & _)]]]]]; try congruence.
  - by left.
  - by right; left.
  - by right; right; right; left.
Qed.

Lemma thread_step q t (env : Env W) :
  TrimSpace app = app → q ∈ reqs → db_ok (rows (contents env)) →
  thread_ok (rows (contents env)) q t →
  (∃ res, t = Ret res) ∨
  ∃ B c k, t = Call B c k ∧ ∃ b env', c env = (b, env') ∧
    thread_ok (rows (contents env')) q (k b) ∧
    (contents env' = contents env ∨
     rows (contents env) !! app = None ∧
     rows (contents env') = <[app := row_of q]> (rows (contents env))).
Proof.
  intros Happ Hq Hdb [->|[->|[[-> Hsome]|[[e ->]|[-> _]]]]]; try (by left; eexists); right.
  - destruct (list_step q env Happ Hq Hdb) as (B & c & k & Hp & b & env' & Hc & Heq & Hok).
    exists B, c, k. split; [done|]. exists b, env'. rewrite Heq. auto.
  - by apply add_step.
  - destruct (get_step q env Hq Hdb Hsome) as (B & c & k & Hp & b & env' & Hc & Heq & Hok).
    exists B, c, k. split; [done|]. exists b, env'. rewrite Heq. auto.
Qed.

Lemma db_ok_grow m q : q ∈ reqs → db_ok m → db_ok (<[app := row_of q]> m).
Proof.
  intros Hq [Hother Hkey]. split.
  - intros k rec Hk Hne. rewrite lookup_insert_ne in Hk by done. eauto.
  - intros rec. rewrite lookup_insert_eq. intros [= <-]. eauto.
Qed.

Lemma inv_step i cfg : TrimSpace app = app → inv cfg → inv (sched_step i cfg).
Proof.
  destruct cfg as [env ts]. intros Happ [Hdb Hts]. simpl in *. unfold sched_step.
  destruct (ts !! i) as [t|] eqn:Hi; [|done].
  destruct (Hts i t Hi) as (q & Hqi & Hok).
  assert (Hq : q ∈ reqs) by (by eapply list_elem_of_lookup_2).
  destruct (thread_step q t env Happ Hq Hdb Hok)
    as [[res ->]|(B & c & k & -> & b & env' & -> & Hok' & Heff)]; [done|].
  assert (Hothers : ∀ j t', ts !! j = Some t' → ∃ q', reqs !! j = Some q' ∧
            thread_ok (rows (contents env')) q' t').
  { intros j t' Hj. destruct (Hts j t' Hj) as (q' & Hq' & Ht'). exists q'. split; [done|].
    destruct Heff as [->|[Hn ->]]; [done|by apply thread_ok_grow]. }
  split; simpl.
  - destruct Heff as [->|[_ ->]]; [done|by apply db_ok_grow].
  - intros j t' Hj. destruct (decide (i = j)) as [<-|Hne].
    + rewrite list_lookup_insert_eq in Hj by (by eapply lookup_lt_Some). injection Hj as <-. eauto.
    + rewrite list_lookup_insert_ne in Hj by done. eauto.
Qed.

Lemma inv_exec schedule cfg : TrimSpace app = app → inv cfg → inv (exec schedule cfg).
Proof.
  intros Happ. revert cfg. induction schedule as [|i s IH]; intros cfg H; [done|].
  by apply IH, inv_step.
Qed.

Lemma inv_init env :
  (∀ k rec, rows (contents env) !! k = Some rec → locks app rec = false) →
  rows (contents env) !! app = None → inv (env, acquire <$> reqs).
Proof.
  intros Hno Hn. split; simpl.
  - split; [eauto|]. intros rec. by rewrite Hn.
  - intros i t. rewrite list_lookup_fmap. intros (q & Hq & ->)%fmap_Some. exists q. split; [done|].
    destruct (acquire_start q) as [->|[e ->]].
    + by eapply list_elem_of_lookup_2.
    + by left.
    + right; right; right; left. by eexists.
Qed.

Lemma inv_winner cfg i : inv cfg → cfg.2 !! i = Some (Ret (Ok tt)) →
  ∃ q, reqs !! i = Some q ∧ holds q (rows (contents cfg.1)).
Proof.
  intros [_ Hts] Hi. destruct (Hts _ _ Hi) as (q & Hq & Hok). exists q. split; [done|].
  destruct Hok as [[=]|[[=]|[[[=] _]|[[e [=]]|[_ H]]]]]. done.
Qed.
End concurrent.

(** ** Properties *)

Section properties.
  Context `{TP : TimeParser} {W : Type} `{OS : ObjectStore W}.

(**  Functional behaviour of [Acquire] running alone, on every branch and with
    any failing calls: it answers "held" only when the app has a live lock that is
    not the caller's; it succeeds either because the caller already holds a live
    lock, or by replacing the app's stale rows with a fresh lock when no live one
    existed; any other answer needs a failed call.  In every case the only rows
    it removes are stale locks of the app. *)
Theorem Acquire_correct clock app0 version0 holder0 ttl (env : Env W) :
  let app := TrimSpace app0 in
  let version := TrimSpace version0 in
  let holder := TrimSpace holder0 in
  app ≠ "" → version ≠ "" → holder ≠ "" → wf_locks app (rows (contents env)) →
  wp (Acquire true clock app0 version0 holder0 ttl)
     (acquire_post app holder (Truncate clock Millisecond)
        (lockRow clock app version holder ttl) (rows (contents env)) (benign env)) env.
Proof. apply wp_Acquire. Qed.

(** C16.  Mutual exclusion of install locks under every interleaving.  When there is no lock
    row of the app, live or stale, and the requests for it come from pairwise distinct
    holders, with clocks before the time at which any of them would expire, then whatever
    the schedule and the failing calls at most one [Acquire] succeeds, and the stored lock
    is its holder's.  (A holder that asks again is let in again, by design.) *)
Theorem Acquire_excludes app reqs schedule (env : Env W) i :
  TrimSpace app = app →
  (∀ q, q ∈ reqs → TrimSpace (rq_app q) = app) →
  (∀ i j q q', reqs !! i = Some q → reqs !! j = Some q' →
     TrimSpace (rq_holder q) = TrimSpace (rq_holder q') → i = j) →
  (∀ q q', q ∈ reqs → q' ∈ reqs → (rq_now q < rq_expires q')%Z) →
  (∀ k rec, rows (contents env) !! k = Some rec → locks app rec = false) →
  rows (contents env) !! app = None →
  (exec schedule (env, acquire <$> reqs)).2 !! i = Some (Ret (Ok tt)) →
  (∃ q, reqs !! i = Some q ∧
        holds app q (rows (contents (exec schedule (env, acquire <$> reqs)).1))) ∧
  ∀ j, (exec schedule (env, acquire <$> reqs)).2 !! j = Some (Ret (Ok tt)) → j = i.
Proof.
  intros Happ Hsame Hdist Htime Hno Hn Hi.
  pose proof (inv_exec app reqs Htime schedule _ Happ
                (inv_init app reqs Hsame env Hno Hn)) as Hinv.
  destruct (inv_winner app reqs _ i Hinv Hi) as (q & Hq & Hh). split; [eauto|].
  intros j Hj. destruct (inv_winner app reqs _ j Hinv Hj) as (q' & Hq' & Hh').
  destruct Hh as (rec & Hrec & Hholder), Hh' as (rec' & Hrec' & Hholder').
  apply (Hdist j i q' q Hq' Hq). congruence.
Qed.

(** Isolation of [Release]: it never fails but for a failed call, removes at
    most the row under the app's name, and that row only when the stored holder
    is the caller. *)
Theorem Release_only_own configured app0 version0 holder0 (env : Env W) :
  let app := TrimSpace app0 in
  let holder := TrimSpace holder0 in
  wp (Release configured app0 version0 holder0) (λ res env',
    (benign env → res = Ok tt) ∧
    (contents env' = contents env ∨
     ∃ rec, rows (contents env) !! app = Some rec ∧
       TrimSpace (lock_Holder (recordToAppVersionInstallLock rec)) = holder ∧
       contents env' = with_rows (delete app (rows (contents env))) (contents env)) ∧
    (benign env → configured = true → app ≠ "" → TrimSpace version0 ≠ "" → holder ≠ "" →
     (∀ rec, rows (contents env) !! app = Some rec →
        TrimSpace (lock_Holder (recordToAppVersionInstallLock rec)) = holder) →
     rows (contents env') !! app = None)) env.
Proof.
  intros app holder. unfold Release. destruct configured; cbn [negb].
  2: { wp_step. split_and!; [done|by left|done]. }
  cbv zeta. unfold appVersionInstallLockKey. rewrite TrimSpace_idem. fold app holder.
  destruct (bool_decide (app = "") || _ || _) eqn:Eg.
  { wp_step. split_and!; [done|by left|]. rewrite !orb_true_iff, !bool_decide_eq_true in Eg. tauto. }
  wp_step. wp_step; intros env1 Hb1 Hc1.
  { wp_step. split_and!; [done|by left|done]. }
  destruct (rows (contents env) !! app) as [rec|] eqn:E.
  2: { wp_step. split_and!; [done|by left|]. intros. by rewrite Hc1. }
  set (h := TrimSpace (lock_Holder _)). destruct (bool_decide (h ≠ holder)) eqn:Hne.
  { apply bool_decide_eq_true in Hne. wp_step. split_and!; [done|by left|].
    intros _ _ _ _ _ Hall. by destruct Hne; apply Hall. }
  apply bool_decide_eq_false, dec_stable in Hne.
  apply wp_deleteLock; intros env2 Hb2.
  - intros Hc2. split_and!; [intros; exfalso; tauto|left; congruence|intros; exfalso; tauto].
  - intros Hr2 Hc2. rewrite Hc1 in Hr2, Hc2. split_and!; [done|right; by exists rec|].
    intros. rewrite Hr2. apply lookup_delete_eq.
Qed.
End properties.

(** ** Examples *)

Definition no_parser : TimeParser := λ _, zero_time.
#[local] Existing Instance no_parser.

Definition sample_request (holder : string) : request :=
  {| rq_clock := Hour; rq_app := "billing"; rq_version := "v2"; rq_holder := holder; rq_ttl := 0 |}.
Definition sample_requests : list request := [sample_request "node-a"; sample_request "node-b"].
Definition empty_locks : Env (gmap string idbRecord) := mkEnv ∅ [].

Lemma Acquire_correct_witness :
  wp (Acquire true Hour "billing" "v2" " node-a" 0)
     (acquire_post (TrimSpace "billing") (TrimSpace " node-a") (Truncate Hour Millisecond)
        (lockRow Hour (TrimSpace "billing") (TrimSpace "v2") (TrimSpace " node-a") 0)
        (rows (contents empty_locks)) (benign empty_locks)) empty_locks.
Proof.
  apply (Acquire_correct Hour "billing" "v2" " node-a" 0 empty_locks); [vm_compute; discriminate..|].
  split; [intros k rec Hk|intros rec Hk]; by destruct (lookup_empty_Some (M := gmap string) _ _ Hk).
Defined.

Lemma Acquire_excludes_witness :
  ∃ q, sample_requests !! 1 = Some q ∧
       holds "billing" q (rows (contents
         (exec [0; 1; 1; 0; 0; 0] (empty_locks, acquire <$> sample_requests)).1)).
Proof.
  apply (Acquire_excludes "billing" sample_requests [0; 1; 1; 0; 0; 0] empty_locks 1).
  - done.
  - intros q. unfold sample_requests. rewrite !elem_of_cons, elem_of_nil. by intros [-> | [-> | []]].
  - intros [|[|?]] [|[|?]] ? ? [= <-] [= <-]; vm_compute; done.
  - intros q q'. unfold sample_requests. rewrite !elem_of_cons, !elem_of_nil.
    intros [-> | [-> | []]] [-> | [-> | []]]; refine (proj1 (Z.ltb_lt _ _) _); vm_compute; reflexivity.
  - done.
  - done.
  - vm_compute. reflexivity.
Defined.

(** A row left by a holder that is gone, expired at every clock used here. *)
Definition stale_locks : Env (gmap string idbRecord) :=
  mkEnv {[ "billing" := lockRow 0 "billing" "v1" "node-z" 1 ]} [].

(** Without the hypothesis that no stale row is left, mutual exclusion
    fails: both processes list the expired row, the first deletes it and takes the
    lock, and the second's delete, which names only the key, removes that fresh
    lock, so that both are admitted. *)
Theorem stale_lock_admits_two :
  ∃ schedule, (result_of <$> (exec schedule (stale_locks, acquire <$> sample_requests)).2)
              = [Some (Ok tt); Some (Ok tt)] ∧
  (∀ k rec, rows (contents stale_locks) !! k = Some rec → live (rq_now (sample_request "")) rec = false).
Proof.
  exists [0; 1; 0; 0; 1; 1]. split; [vm_compute; reflexivity|].
  intros k rec. simpl. rewrite lookup_singleton_Some. by intros [_ <-].
Qed.
End InstallLocks.
