(* ===== verification/Heartbeats.v ===== *)
(** * Heartbeats: the rows by which instances report that they are alive

    Models [gestaltd/internal/coredata/gestaltd_instance_heartbeats.go]: the
    validation and the row of a heartbeat, and every method of
    [GestaltdInstanceHeartbeatService] as a program of object-store calls. *)

From stdpp Require Import base gmap strings list sorting sets.
From Stdlib Require Import ZArith Ascii Lia.
From S2P Require Import Prelude ObjectStore RegistryTypes.

Set Default Goal Selector "!".

Module Heartbeats.

Inductive HeartbeatError :=
  | ErrNotConfigured
  | ErrInstanceRequired
  | ErrSourceVersionRequired
  | ErrHeartbeatNotFound
  | ErrRecordRequired
  | ErrInstanceAndSourceRequired
  | ErrTimesRequired
  | ErrHeartbeatBeforeStart
  | ErrStore (e : DBError).

(** ** The row of a heartbeat *)

Definition normalizedHeartbeatTime (value : time) : time := Truncate value Millisecond.

Definition set_observed (o : GestaltdInstanceAppHeartbeat) (t : time) : GestaltdInstanceAppHeartbeat :=
  {| ah_State := ah_State o; ah_DesiredVersion := ah_DesiredVersion o;
     ah_RunningVersion := ah_RunningVersion o; ah_ObservedAt := t;
     ah_LastError := ah_LastError o |}.

(** A nil map is read like an empty one. *)
Definition cloneHeartbeatApps (apps : gmap string GestaltdInstanceAppHeartbeat)
    : gmap string GestaltdInstanceAppHeartbeat :=
  (λ o, set_observed o (normalizedHeartbeatTime (ah_ObservedAt o))) <$> apps.

(** [encoding/json] on the struct: an [omitempty] field is left out when empty,
    and a missing field or one of another type reads as the zero value. *)
Definition omitempty (key value : string) : list (string * any) :=
  if decide (value = "") then [] else [(key, AString value)].

Definition app_json (o : GestaltdInstanceAppHeartbeat) : any :=
  AMap ([("state", AString (ah_State o))]
        ++ omitempty "desired_version" (ah_DesiredVersion o)
        ++ omitempty "running_version" (ah_RunningVersion o)
        ++ [("observed_at", ATime (ah_ObservedAt o))]
        ++ omitempty "last_error" (ah_LastError o)).

Fixpoint object_field (m : list (string * any)) (k : string) : option any :=
  match m with
  | [] => None
  | (k', v) :: m => if decide (k = k') then Some v else object_field m k
  end.
Definition field_string (m : list (string * any)) (k : string) : string :=
  match object_field m k with Some (AString s) => s | _ => "" end.
Definition field_time (m : list (string * any)) (k : string) : time :=
  match object_field m k with Some (ATime t) => t | _ => zero_time end.

Definition app_of_json (v : any) : GestaltdInstanceAppHeartbeat :=
  let m := match v with AMap m => m | _ => [] end in
  {| ah_State := field_string m "state";
     ah_DesiredVersion := field_string m "desired_version";
     ah_RunningVersion := field_string m "running_version";
     ah_ObservedAt := field_time m "observed_at";
     ah_LastError := field_string m "last_error" |}.

Definition heartbeatAppsJSONValue (apps : gmap string GestaltdInstanceAppHeartbeat) : any :=
  AMap (map (λ kv, (kv.1, app_json kv.2)) (map_to_list apps)).

Definition apps_of_json (v : option any) : gmap string GestaltdInstanceAppHeartbeat :=
  match v with
  | Some (AMap m) => list_to_map (map (λ kv, (kv.1, app_of_json kv.2)) m)
  | _ => ∅
  end.

Definition gestaltdInstanceHeartbeatRecord (heartbeat : option GestaltdInstanceHeartbeat)
    : result HeartbeatError (idbRecord * GestaltdInstanceHeartbeat) :=
  match heartbeat with
  | None => Err ErrRecordRequired
  | Some heartbeat =>
      let normalized :=
        {| hb_InstanceID := TrimSpace (hb_InstanceID heartbeat);
           hb_SourceVersion := TrimSpace (hb_SourceVersion heartbeat);
           hb_StartedAt := normalizedHeartbeatTime (hb_StartedAt heartbeat);
           hb_HeartbeatAt := normalizedHeartbeatTime (hb_HeartbeatAt heartbeat);
           hb_Apps := cloneHeartbeatApps (hb_Apps heartbeat) |} in
      fail_if bool_decide (hb_InstanceID normalized = "")
              || bool_decide (hb_SourceVersion normalized = "")
        with ErrInstanceAndSourceRequired ;;
      fail_if IsZero (hb_StartedAt heartbeat) || IsZero (hb_HeartbeatAt heartbeat)
        with ErrTimesRequired ;;
      fail_if Before (hb_HeartbeatAt normalized) (hb_StartedAt normalized)
        with ErrHeartbeatBeforeStart ;;
      Ok (<["id" := AString (hb_InstanceID normalized)]>
          (<["instance_id" := AString (hb_InstanceID normalized)]>
          (<["source_version" := AString (hb_SourceVersion normalized)]>
          (<["started_at" := ATime (hb_StartedAt normalized)]>
          (<["heartbeat_at" := ATime (hb_HeartbeatAt normalized)]>
          (<["apps" := heartbeatAppsJSONValue (hb_Apps normalized)]> ∅))))) : idbRecord,
          normalized)
  end.

Definition recordToGestaltdInstanceHeartbeat `{TimeParser} (rec : idbRecord)
    : GestaltdInstanceHeartbeat :=
  {| hb_InstanceID := recString rec "instance_id";
     hb_SourceVersion := recString rec "source_version";
     hb_StartedAt := recTime rec "started_at";
     hb_HeartbeatAt := recTime rec "heartbeat_at";
     hb_Apps := apps_of_json (rec !! "apps") |}.

Definition recordsToGestaltdInstanceHeartbeats `{TimeParser} (recs : list idbRecord)
    : list GestaltdInstanceHeartbeat := map recordToGestaltdInstanceHeartbeat recs.

(** ** Index queries

    A row is in an index when its columns hold keys: the source version a
    string, the heartbeat time a time.  A query returns the rows of a range of
    index keys in the order of those keys. *)

(** [time.Date(2262, 1, 1, 0, 0, 0, 0, time.UTC)], in days since the zero time. *)
Definition indexedDBMaxTime : time := (825813 * 24 * Hour)%Z.

Definition key_source (rec : idbRecord) : option string :=
  match rec !! "source_version" with Some (AString s) => Some s | _ => None end.
Definition key_heartbeat (rec : idbRecord) : option time :=
  match rec !! "heartbeat_at" with Some (ATime t) => Some t | _ => None end.

Definition by_source_version (s : string) (rec : idbRecord) : bool :=
  bool_decide (key_source rec = Some s).
Definition by_source_version_heartbeat_at (s : string) (lo hi : time) (rec : idbRecord) : bool :=
  bool_decide (key_source rec = Some s) &&
  match key_heartbeat rec with Some t => (lo <=? t)%Z && (t <=? hi)%Z | None => false end.
Definition by_heartbeat_at_before (cutoff : time) (rec : idbRecord) : bool :=
  match key_heartbeat rec with Some t => (t <? cutoff)%Z | None => false end.

Definition heartbeat_le (a b : idbRecord) : Prop :=
  (default zero_time (key_heartbeat a) ≤ default zero_time (key_heartbeat b))%Z.
#[export] Instance heartbeat_le_dec a b : Decision (heartbeat_le a b).
Proof. unfold heartbeat_le. apply _. Defined.

Section service.
  Context `{TP : TimeParser} {W : Type} `{OS : ObjectStore W}.
  Local Abbreviation M A := (prog (Env W) A).

Definition GetHeartbeat (configured : bool) (instanceID : string)
    : M (result HeartbeatError GestaltdInstanceHeartbeat) :=
  if negb configured then mret (Err ErrNotConfigured) else
  let instanceID := TrimSpace instanceID in
  if decide (instanceID = "") then mret (Err ErrInstanceRequired) else
  g ← Get instanceID;
  mret (match g with
        | Err ErrNotFound => Err ErrHeartbeatNotFound
        | Err e => Err (ErrStore e)
        | Ok rec => Ok (recordToGestaltdInstanceHeartbeat rec)
        end).

Definition listed (recs : result DBError (list idbRecord))
    : result HeartbeatError (list GestaltdInstanceHeartbeat) :=
  match recs with
  | Err e => Err (ErrStore e)
  | Ok recs => Ok (recordsToGestaltdInstanceHeartbeats recs)
  end.

Definition ListHeartbeats (configured : bool)
    : M (result HeartbeatError (list GestaltdInstanceHeartbeat)) :=
  if negb configured then mret (Err ErrNotConfigured) else
  recs ← GetAll; mret (listed recs).

Definition ListBySourceVersion (configured : bool) (sourceVersion : string)
    : M (result HeartbeatError (list GestaltdInstanceHeartbeat)) :=
  if negb configured then mret (Err ErrNotConfigured) else
  let sourceVersion := TrimSpace sourceVersion in
  if decide (sourceVersion = "") then mret (Err ErrSourceVersionRequired) else
  recs ← IndexGetAll (by_source_version sourceVersion); mret (listed recs).

Definition ListFreshBySourceVersion (configured : bool) (sourceVersion : string) (cutoff : time)
    : M (result HeartbeatError (list GestaltdInstanceHeartbeat)) :=
  if negb configured then mret (Err ErrNotConfigured) else
  let sourceVersion := TrimSpace sourceVersion in
  if decide (sourceVersion = "") then mret (Err ErrSourceVersionRequired) else
  recs ← IndexGetAllBy heartbeat_le (by_source_version_heartbeat_at sourceVersion cutoff indexedDBMaxTime);
  mret (listed recs).

Definition Upsert (configured : bool) (heartbeat : option GestaltdInstanceHeartbeat)
    : M (result HeartbeatError GestaltdInstanceHeartbeat) :=
  if negb configured then mret (Err ErrNotConfigured) else
  match gestaltdInstanceHeartbeatRecord heartbeat with
  | Err e => mret (Err e)
  | Ok (rec, normalized) =>
      p ← Put rec;
      mret (match p with Ok _ => Ok normalized | Err e => Err (ErrStore e) end)
  end.

Definition DeleteHeartbeat (configured : bool) (instanceID : string) : M (result HeartbeatError unit) :=
  if negb configured then mret (Err ErrNotConfigured) else
  let instanceID := TrimSpace instanceID in
  if decide (instanceID = "") then mret (Err ErrInstanceRequired) else
  d ← Delete instanceID;
  mret (match d with Ok _ => Ok tt | Err e => Err (ErrStore e) end).

(** The loop of [PruneBefore]: the number of rows deleted, and the error that
    stopped it. *)
Fixpoint pruneRows (pruned : Z) (recs : list idbRecord) : M (Z * option HeartbeatError) :=
  match recs with
  | [] => mret (pruned, None)
  | rec :: recs =>
      let instanceID := recString rec "instance_id" in
      if decide (instanceID = "") then pruneRows pruned recs
      else
        d ← Delete instanceID;
        match d with
        | Ok _ | Err ErrNotFound => pruneRows (pruned + 1) recs
        | Err e => mret (pruned, Some (ErrStore e))
        end
  end.

Definition PruneBefore (configured : bool) (cutoff : time) : M (Z * option HeartbeatError) :=
  if negb configured then mret (0%Z, Some ErrNotConfigured) else
  t ← Transaction (
    recs ← IndexGetAllBy heartbeat_le (by_heartbeat_at_before cutoff);
    match recs with
    | Err e => mret ((0%Z, Some (ErrStore e)), false)
    | Ok recs =>
        r ← pruneRows 0 recs;
        match r with
        | (pruned, Some e) => mret ((pruned, Some e), false)
        | (pruned, None) =>
            c ← Commit;
            mret (match c with
                  | Ok _ => ((pruned, None), true)
                  | Err e => ((pruned, Some (ErrStore e)), false)
                  end)
        end
    end);
  mret (match t with Ok r => r | Err e => (0%Z, Some (ErrStore e)) end).
End service.

(** ** Rows round-trip *)

Lemma app_json_roundtrip o : app_of_json (app_json o) = o.
Proof.
  destruct o as [state desired running observed err].
  unfold app_of_json, app_json, omitempty. simpl.
  repeat case_decide; subst; done.
Qed.

Lemma apps_json_roundtrip apps : apps_of_json (Some (heartbeatAppsJSONValue apps)) = apps.
Proof.
  unfold heartbeatAppsJSONValue. cbn [apps_of_json]. rewrite map_map. simpl.
  rewrite (map_ext _ id), map_id; [apply list_to_map_to_list|].
  intros [k o]. simpl. by rewrite app_json_roundtrip.
Qed.

(** A row that [Upsert] wrote under [key] for the heartbeat [hb]. *)
Definition heartbeat_row (key : string) (rec : idbRecord) (hb : GestaltdInstanceHeartbeat) : Prop :=
  ∃ h, gestaltdInstanceHeartbeatRecord (Some h) = Ok (rec, hb) ∧ hb_InstanceID hb = key.

Lemma heartbeat_row_facts `{TimeParser} key rec hb :
  heartbeat_row key rec hb →
  recordToGestaltdInstanceHeartbeat rec = hb ∧ record_id rec = key ∧
  recString rec "instance_id" = key ∧ key ≠ "" ∧
  key_source rec = Some (hb_SourceVersion hb) ∧ key_heartbeat rec = Some (hb_HeartbeatAt hb) ∧
  TrimSpace key = key.
Proof.
  intros (h & Hrec & <-). unfold gestaltdInstanceHeartbeatRecord in Hrec.
  destruct (_ || _) eqn:E1 in Hrec; [done|]. destruct (_ || _) in Hrec; [done|].
  destruct (Before _ _) in Hrec; [done|]. injection Hrec as <- <-. bool_props.
  split_and!; try done; [|apply TrimSpace_idem].
  unfold recordToGestaltdInstanceHeartbeat. rewrite !lookup_insert_ne, lookup_insert_eq by done.
  by rewrite apps_json_roundtrip.
Qed.

(** ** Stores of heartbeats *)

Definition wf_heartbeats (m : gmap string idbRecord) : Prop :=
  ∀ k rec, m !! k = Some rec → ∃ hb, heartbeat_row k rec hb.

Section stores.
  Context `{TP : TimeParser} {W : Type} `{OS : ObjectStore W}.

Definition heartbeats (m : gmap string idbRecord) : gmap string GestaltdInstanceHeartbeat :=
  recordToGestaltdInstanceHeartbeat <$> m.

(** The keys of some rows, as [PruneBefore] computes them. *)
Definition instance_ids (recs : list idbRecord) : list string :=
  map (λ rec, recString rec "instance_id") recs.

Lemma delete_filter (m : gmap string idbRecord) k ids :
  filter (λ kr, kr.1 ∉ ids) (delete k m) = filter (λ kr, kr.1 ∉ k :: ids) m.
Proof.
  apply map_eq. intros i. apply option_eq. intros rec.
  rewrite !map_lookup_filter_Some, lookup_delete_Some, not_elem_of_cons. simpl. naive_solver.
Qed.

Lemma wp_pruneRows pruned recs (good : Prop) (env : Env W) :
  Forall (λ rec, recString rec "instance_id" ≠ "") recs → (good → benign env) →
  wp (pruneRows pruned recs) (λ r env',
    (good → r.2 = None ∧ benign env') ∧
    (r.2 = None → r.1 = (pruned + Z.of_nat (length recs))%Z ∧
       contents env' = with_rows (filter (λ kr, kr.1 ∉ instance_ids recs) (rows (contents env)))
                                 (contents env))) env.
Proof.
  revert pruned env. induction recs as [|rec recs IH]; intros pruned env Hf Hg; cbn [pruneRows].
  - wp_step. split; [auto|]. intros _. split; [simpl; lia|].
    rewrite map_filter_id; [by rewrite with_id|]. intros k r _. apply not_elem_of_nil.
  - apply Forall_cons in Hf as [Hne Hf]. rewrite decide_False by done.
    wp_step. wp_step; intros env1 Hb1 Hc1.
    { wp_step. split; [tauto|done]. }
    eapply wp_mono; [apply IH; [done|tauto]|].
    intros r env2 [Hgood Hdone]. split; [done|]. intros Hr. destruct (Hdone Hr) as [Hn Hc2].
    split; [rewrite Hn; simpl length; lia|].
    rewrite Hc2, Hc1, rows_with, with_with. cbn [instance_ids map]. f_equal. apply delete_filter.
Qed.

(** The rows that survive a pruning. *)
Definition keep_since (cutoff : time) (m : gmap string idbRecord) : gmap string idbRecord :=
  filter (λ kr, by_heartbeat_at_before cutoff kr.2 = false) m.

Lemma pruned_rows cutoff (w : W) :
  wf_heartbeats (rows w) →
  filter (λ kr, kr.1 ∉ instance_ids (merge_sort heartbeat_le (select (by_heartbeat_at_before cutoff) w)))
         (rows w) = keep_since cutoff (rows w).
Proof.
  intros Hwf. apply map_eq. intros k. apply option_eq. intros rec.
  unfold keep_since. rewrite !map_lookup_filter_Some. simpl.
  assert (Hid : ∀ k rec, rows w !! k = Some rec → recString rec "instance_id" = k).
  { intros k' r Hr. destruct (Hwf _ _ Hr) as [hb Hhb]. by eapply heartbeat_row_facts. }
  split; intros [Hk H]; (split; [done|]).
  - destruct (by_heartbeat_at_before cutoff rec) eqn:E; [|done]. destruct H.
    apply list_elem_of_fmap. exists rec. split; [by rewrite (Hid _ _ Hk)|].
    rewrite merge_sort_Permutation. apply elem_of_select. eauto.
  - intros (r & Hr & Hin)%list_elem_of_fmap.
    rewrite merge_sort_Permutation in Hin. apply elem_of_select in Hin as [Hb [k' Hk']].
    rewrite (Hid _ _ Hk') in Hr. congruence.
Qed.

(** The heartbeats that a fresh query reports. *)
Definition fresh_for (source : string) (cutoff : time) (hb : GestaltdInstanceHeartbeat) : Prop :=
  hb_SourceVersion hb = source ∧ (cutoff ≤ hb_HeartbeatAt hb ≤ indexedDBMaxTime)%Z.

Lemma fresh_key key rec hb source cutoff :
  heartbeat_row key rec hb →
  by_source_version_heartbeat_at source cutoff indexedDBMaxTime rec = true ↔
  fresh_for source cutoff hb.
Proof.
  intros (_ & _ & _ & _ & Hs & Ht & _)%heartbeat_row_facts.
  unfold by_source_version_heartbeat_at, fresh_for. rewrite Hs, Ht.
  rewrite !andb_true_iff, bool_decide_eq_true, !Z.leb_le. naive_solver.
Qed.

Lemma sorted_rows_NoDup m : (∀ k rec, m !! k = Some rec → record_id rec = k) → NoDup (sorted_rows m).
Proof.
  intros Hid. unfold sorted_rows.
  assert (Hp : merge_sort key_le (map_to_list m) ≡ₚ map_to_list m) by apply merge_sort_Permutation.
  apply NoDup_fmap_2_strong.
  - intros [k1 r1] [k2 r2] H1 H2 Heq. simpl in Heq. subst r2.
    rewrite Hp in H1, H2. apply elem_of_map_to_list in H1, H2.
    by rewrite <-(Hid _ _ H1), <-(Hid _ _ H2).
  - rewrite Hp. apply NoDup_map_to_list.
Qed.

Lemma wf_record_id m :
  wf_heartbeats m → ∀ k rec, m !! k = Some rec → record_id rec = k.
Proof. intros Hwf k rec [hb Hhb]%Hwf. by eapply heartbeat_row_facts. Qed.

(** What a fresh query returns: the fresh heartbeats of the store, each once, the
    oldest first. *)
Definition fresh_list (source : string) (cutoff : time) (m : gmap string idbRecord)
    (l : list GestaltdInstanceHeartbeat) : Prop :=
  (∀ hb, hb ∈ l ↔ (∃ k, heartbeats m !! k = Some hb) ∧ fresh_for source cutoff hb) ∧
  NoDup (map hb_InstanceID l) ∧
  Sorted (λ a b, hb_HeartbeatAt a ≤ hb_HeartbeatAt b)%Z l.

Lemma select_fresh_list source cutoff (w : W) :
  wf_heartbeats (rows w) →
  fresh_list source cutoff (rows w) (recordsToGestaltdInstanceHeartbeats
    (merge_sort heartbeat_le
       (select (by_source_version_heartbeat_at source cutoff indexedDBMaxTime) w))).
Proof.
  intros Hwf. set (p := by_source_version_heartbeat_at source cutoff indexedDBMaxTime).
  set (recs := merge_sort heartbeat_le (select p w)).
  assert (Hp : recs ≡ₚ select p w) by apply merge_sort_Permutation.
  assert (Hin : ∀ rec, rec ∈ recs → p rec = true ∧ ∃ k hb, rows w !! k = Some rec ∧
                  heartbeat_row k rec hb).
  { intros rec Hrec. rewrite Hp in Hrec. apply elem_of_select in Hrec as [Hpr [k Hk]].
    split; [done|]. destruct (Hwf _ _ Hk) as [hb Hhb]. eauto. }
  unfold recordsToGestaltdInstanceHeartbeats. split_and!.
  - intros hb0. rewrite list_elem_of_fmap. unfold heartbeats. setoid_rewrite lookup_fmap. split.
    + intros (rec & -> & (Hpr & k & hb & Hk & Hrow)%Hin).
      pose proof (heartbeat_row_facts _ _ _ Hrow) as [-> _].
      split; [exists k; rewrite Hk; simpl; f_equal; by eapply heartbeat_row_facts|].
      by eapply fresh_key.
    + intros [[k (rec & Hk & ->)%fmap_Some] Hf]. exists rec. split; [done|].
      rewrite Hp. apply elem_of_select. split; [|eauto].
      destruct (Hwf _ _ Hk) as [hb Hrow].
      pose proof (heartbeat_row_facts _ _ _ Hrow) as [Hhb _]. rewrite Hhb in Hf.
      by eapply fresh_key.
  - rewrite map_map. apply NoDup_fmap_2_strong.
    + intros r1 r2 (_ & k1 & h1 & Hk1 & Hr1)%Hin (_ & k2 & h2 & Hk2 & Hr2)%Hin.
      pose proof (heartbeat_row_facts _ _ _ Hr1) as (-> & _).
      pose proof (heartbeat_row_facts _ _ _ Hr2) as (-> & _).
      destruct Hr1 as (? & _ & ->), Hr2 as (? & _ & ->). congruence.
    + rewrite Hp. apply NoDup_filter, sorted_rows_NoDup, wf_record_id, Hwf.
  - apply (Sorted_map heartbeat_le).
    + intros r1 r2 (_ & k1 & h1 & _ & Hr1)%Hin (_ & k2 & h2 & _ & Hr2)%Hin. unfold heartbeat_le.
      pose proof (heartbeat_row_facts _ _ _ Hr1) as (-> & _ & _ & _ & _ & -> & _).
      by pose proof (heartbeat_row_facts _ _ _ Hr2) as (-> & _ & _ & _ & _ & -> & _).
    + apply Sorted_merge_sort. intros a b. unfold heartbeat_le. lia.
Qed.
End stores.

(** ** Properties *)

Section properties.
  Context `{TP : TimeParser} {W : Type} `{OS : ObjectStore W}.

Lemma wf_insert m key rec hb :
  wf_heartbeats m → heartbeat_row key rec hb → wf_heartbeats (<[key := rec]> m).
Proof. intros Hwf Hrow k r. rewrite lookup_insert. case_decide; subst; [|apply Hwf]. naive_solver. Qed.

Lemma Upsert_spec configured heartbeat (env : Env W) :
  wf_heartbeats (rows (contents env)) →
  wp (Upsert configured heartbeat) (λ res env',
    wf_heartbeats (rows (contents env')) ∧
    match res with
    | Ok hb =>
        heartbeats (rows (contents env')) = <[hb_InstanceID hb := hb]> (heartbeats (rows (contents env)))
        ∧ wp (GetHeartbeat true (hb_InstanceID hb))
             (λ g _, benign env' → g = Ok hb) env'
    | Err _ => contents env' = contents env
    end) env.
Proof.
  intros Hwf. unfold Upsert. destruct configured; cbn [negb]; [|by wp_step].
  destruct (gestaltdInstanceHeartbeatRecord heartbeat) as [[rec hb]|e] eqn:E; [|by wp_step].
  destruct heartbeat as [h|]; [|done].
  assert (Hrow : heartbeat_row (hb_InstanceID hb) rec hb) by (exists h; by split).
  pose proof (heartbeat_row_facts _ _ _ Hrow) as (Hto & Hid & _ & Hne & _ & _ & Htrim).
  wp_step. wp_step; intros env1 Hb1 Hc1; wp_step; [by rewrite Hc1|].
  rewrite Hc1, rows_with, Hid. split; [by eapply wf_insert|]. split.
  - unfold heartbeats. by rewrite fmap_insert, Hto.
  - unfold GetHeartbeat. cbn [negb].
    rewrite Htrim, decide_False by done. wp_step. wp_step; intros env2 Hb2 Hc2; wp_step; [done|].
    intros _. rewrite Hc1, rows_with, Hid, lookup_insert_eq. by rewrite Hto.
Qed.

(** Round trip: a heartbeat that [Upsert] accepts is the one a later [Get]
    of its instance returns, normalised; the other instances' heartbeats are
    untouched and the store stays well formed.  A rejected or failed [Upsert]
    changes nothing. *)
Theorem Upsert_then_Get configured heartbeat (env : Env W) :
  wf_heartbeats (rows (contents env)) →
  wp (Upsert configured heartbeat) (λ res env',
    wf_heartbeats (rows (contents env')) ∧
    match res with
    | Ok hb =>
        heartbeats (rows (contents env')) = <[hb_InstanceID hb := hb]> (heartbeats (rows (contents env)))
        ∧ wp (GetHeartbeat true (hb_InstanceID hb))
             (λ g _, benign env' → g = Ok hb) env'
    | Err _ => contents env' = contents env
    end) env.
Proof. apply Upsert_spec. Qed.

(** [ListFreshBySourceVersion] returns exactly the stored heartbeats of the
    source version whose time is at or after the cutoff (and within the range of
    the index), each instance once and the oldest first; only a failed call makes
    it fail. *)
Theorem ListFresh_exact source cutoff (env : Env W) :
  wf_heartbeats (rows (contents env)) → TrimSpace source ≠ "" →
  wp (ListFreshBySourceVersion true source cutoff) (λ res env',
    contents env' = contents env ∧
    match res with
    | Ok l => fresh_list (TrimSpace source) cutoff (rows (contents env)) l
    | Err _ => ¬ benign env
    end) env.
Proof.
  intros Hwf Hs. unfold ListFreshBySourceVersion. cbn [negb]. rewrite decide_False by done.
  wp_step. wp_step; intros env1 Hb Hc; wp_step; (split; [done|]).
  - done.
  - by apply select_fresh_list.
Qed.

(** [PruneBefore] is all or nothing: when it reports success it has removed
    exactly the heartbeats older than the cutoff and reports their number; when it
    reports an error the store is as it was; with no failed call it succeeds. *)
Theorem PruneBefore_atomic cutoff (env : Env W) :
  wf_heartbeats (rows (contents env)) →
  wp (PruneBefore true cutoff) (λ r env',
    (benign env → r.2 = None) ∧
    match r with
    | (n, None) =>
        n = Z.of_nat (length (select (by_heartbeat_at_before cutoff) (contents env))) ∧
        rows (contents env') = keep_since cutoff (rows (contents env)) ∧
        wf_heartbeats (rows (contents env'))
    | (_, Some _) => contents env' = contents env
    end) env.
Proof.
  intros Hwf. unfold PruneBefore. cbn [negb]. wp_step. wp_step.
  { intros env' Hb Hc. wp_step. by split. }
  intros env0 Hb Hc. wp_step. wp_step; intros env1 Hb1 Hc1.
  { wp_step. intros env2 _ Hc2. wp_step. simpl in *. split; [tauto|done]. }
  wp_step. eapply wp_mono.
  { apply (wp_pruneRows 0 _ (benign env)); [|tauto]. apply Forall_forall. intros rec Hin.
    rewrite merge_sort_Permutation in Hin. apply elem_of_select in Hin as [_ [k Hk]].
    rewrite Hc in Hk. destruct (Hwf _ _ Hk) as [hb Hrow].
    pose proof (heartbeat_row_facts _ _ _ Hrow) as (_ & _ & -> & ? & _). done. }
  intros [n [e|]] env2 [Hgood Hdone]; simpl in *.
  { wp_step. intros env3 _ Hc3. wp_step. split; [|done]. by intros [? _]%Hgood. }
  destruct (Hdone eq_refl) as [-> Hc2]. wp_step. wp_step; intros env3 Hb3 Hc3; wp_step;
    intros env4 _ Hc4; wp_step; simpl in *.
  - split; [|done]. intros [_ ?]%Hgood. by destruct Hb3.
  - split; [done|]. rewrite Hc4, Hc3, Hc2, rows_with, Hc1, Hc.
    rewrite pruned_rows by done. split; [|split; [done|]].
    + by rewrite merge_sort_Permutation.
    + intros k rec [Hk _]%map_lookup_filter_Some. by apply Hwf.
Qed.
End properties.

(** ** Examples *)

Definition no_parser : TimeParser := λ _, zero_time.
#[local] Existing Instance no_parser.

Definition sample_heartbeat (id : string) (at_ : time) : GestaltdInstanceHeartbeat :=
  {| hb_InstanceID := id; hb_SourceVersion := "abc"; hb_StartedAt := Minute; hb_HeartbeatAt := at_;
     hb_Apps := {[ "billing" := {| ah_State := InstanceAppRunning; ah_DesiredVersion := "";
                     ah_RunningVersion := "v2"; ah_ObservedAt := at_; ah_LastError := "" |} ]} |}.
Definition empty_store : Env (gmap string idbRecord) := mkEnv ∅ [].
Definition sample_store : Env (gmap string idbRecord) :=
  (run (Upsert true (Some (sample_heartbeat "b" (2 * Minute)%Z)))
       (run (Upsert true (Some (sample_heartbeat "a" Hour))) empty_store).2).2.

Lemma empty_store_wf : wf_heartbeats (rows (contents empty_store)).
Proof. intros k rec H. by destruct (lookup_empty_Some (M := gmap string) _ _ H). Qed.

Lemma sample_store_wf : wf_heartbeats (rows (contents sample_store)).
Proof. apply Upsert_spec, Upsert_spec, empty_store_wf. Qed.

Lemma Upsert_then_Get_witness :
  wf_heartbeats (rows (contents
    (run (Upsert true (Some (sample_heartbeat " a" Hour))) empty_store).2)).
Proof.
  destruct (Upsert_then_Get true (Some (sample_heartbeat " a" Hour)) empty_store empty_store_wf)
    as [H _]. exact H.
Defined.

Lemma ListFresh_exact_witness :
  fresh_list (TrimSpace " abc") (3 * Minute)%Z (rows (contents sample_store))
    [sample_heartbeat "a" Hour].
Proof.
  destruct (ListFresh_exact " abc" (3 * Minute)%Z sample_store sample_store_wf) as [_ H].
  - vm_compute. discriminate.
  - revert H. generalize (fresh_list (TrimSpace " abc") (3 * Minute)%Z (rows (contents sample_store))).
    intros P H. vm_compute in H |- *. exact H.
Defined.

Lemma PruneBefore_atomic_witness :
  (run (PruneBefore true Hour) sample_store).1.2 = None ∧
  wf_heartbeats (rows (contents sample_store)).
Proof.
  split; [|apply sample_store_wf].
  destruct (PruneBefore_atomic Hour sample_store sample_store_wf) as [H _]. apply H. constructor.
Defined.
End Heartbeats.
