(* ===== verification/FleetState.v ===== *)
(** * FleetState: what the fleet's heartbeats say about an app

    Models [gestaltd/internal/appregistry/fleet_state.go]: the projection of
    fresh heartbeats to counters and a state, and the projector that loads its
    inputs through the Go interfaces [FleetChangeRequests],
    [FleetSourceVersions], [FleetHeartbeats] and [FleetRollouts].  The heartbeat
    store's promise is the class [FreshHeartbeats], which the service of
    [Heartbeats.v] discharges.  The choice of the desired version is
    [LatestKnownVersion] of
    [coredata/app_version_change_requests_projection.go]. *)

From stdpp Require Import base gmap strings list sorting sets.
From Stdlib Require Import ZArith Ascii Lia.
From S2P Require Import Prelude ObjectStore RegistryTypes Heartbeats.

Set Default Goal Selector "!".

Module FleetState.

(** ** The pure projection *)

Record FleetEvaluation := {
  fe_App : string;
  fe_DesiredVersion : string;
  fe_SourceVersion : string;
  fe_MinimumHealthyInstances : Z;
  fe_Cutoff : time;
  fe_EvaluatedAt : time;
  fe_Heartbeats : list (option GestaltdInstanceHeartbeat);
  fe_ActiveRollout : option AppRollout }.

Definition rolloutMatches (rollout : option AppRollout) (app version sourceVersion : string)
    (now : time) : bool :=
  match rollout with
  | None => false
  | Some r =>
      (bool_decide (r_State r = RolloutEnrolling) || bool_decide (r_State r = RolloutRestarting))
      && bool_decide (TrimSpace (r_App r) = app)
      && bool_decide (TrimSpace (r_Version r) = version)
      && bool_decide (TrimSpace (r_TargetSourceVersion r) = sourceVersion)
      && After (r_Deadline r) now
  end.

(** The replica a live heartbeat contributes: the body of the loop. *)
Definition replicaOf (app desiredVersion : string) (hb : GestaltdInstanceHeartbeat)
    : AppFleetReplicaObservation :=
  match hb_Apps hb !! app with
  | None =>
      {| ro_InstanceID := TrimSpace (hb_InstanceID hb); ro_StartedAt := hb_StartedAt hb;
         ro_HeartbeatAt := hb_HeartbeatAt hb; ro_AppState := InstanceAppUnknown;
         ro_RunningVersion := ""; ro_ObservedDesiredVersion := ""; ro_ObservedAt := zero_time;
         ro_LastError := ""; ro_Class := ClassError |}
  | Some o =>
      let running := TrimSpace (ah_RunningVersion o) in
      let class :=
        if bool_decide (ah_State o = InstanceAppRunning)
           && bool_decide (running = desiredVersion) && bool_decide (desiredVersion ≠ "")
        then ClassOnDesired
        else if bool_decide (ah_State o = InstanceAppError)
                || bool_decide (ah_State o = InstanceAppUnknown) then ClassError
        else if bool_decide (ah_State o = InstanceAppStarting)
                || bool_decide (ah_State o = InstanceAppNotRunning) then ClassNotRunning
        else ClassMismatched in
      {| ro_InstanceID := TrimSpace (hb_InstanceID hb); ro_StartedAt := hb_StartedAt hb;
         ro_HeartbeatAt := hb_HeartbeatAt hb; ro_AppState := ah_State o;
         ro_RunningVersion := running;
         ro_ObservedDesiredVersion := TrimSpace (ah_DesiredVersion o);
         ro_ObservedAt := ah_ObservedAt o; ro_LastError := TrimSpace (ah_LastError o);
         ro_Class := class |}
  end.

Definition isLive (sourceVersion : string) (cutoff : time) (hb : option GestaltdInstanceHeartbeat)
    : bool :=
  match hb with
  | None => false
  | Some hb => bool_decide (TrimSpace (hb_SourceVersion hb) = sourceVersion)
               && negb (Before (hb_HeartbeatAt hb) cutoff)
  end.

(** Counters and replicas while the loop runs. *)
Record tally := {
  tl_Live : Z; tl_Running : Z; tl_NotRunning : Z; tl_Mismatched : Z; tl_Errors : Z;
  tl_Replicas : list AppFleetReplicaObservation }.

Definition zero_tally : tally :=
  {| tl_Live := 0; tl_Running := 0; tl_NotRunning := 0; tl_Mismatched := 0; tl_Errors := 0;
     tl_Replicas := [] |}.

Definition countReplica (t : tally) (r : AppFleetReplicaObservation) : tally :=
  let bump c := if decide (ro_Class r = c) then 1%Z else 0%Z in
  {| tl_Live := tl_Live t + 1;
     tl_Running := tl_Running t + bump ClassOnDesired;
     tl_NotRunning := tl_NotRunning t + bump ClassNotRunning;
     tl_Mismatched := tl_Mismatched t + bump ClassMismatched;
     tl_Errors := tl_Errors t + bump ClassError;
     tl_Replicas := tl_Replicas t ++ [r] |}.

Definition tallyHeartbeat (app desiredVersion sourceVersion : string) (cutoff : time)
    (t : tally) (hb : option GestaltdInstanceHeartbeat) : tally :=
  match hb with
  | Some h => if isLive sourceVersion cutoff hb then countReplica t (replicaOf app desiredVersion h)
              else t
  | None => t
  end.

(** Newest heartbeat first, then instance id. *)
Definition replica_le (a b : AppFleetReplicaObservation) : Prop :=
  (ro_HeartbeatAt b < ro_HeartbeatAt a)%Z ∨
  ro_HeartbeatAt a = ro_HeartbeatAt b ∧ String.le (ro_InstanceID a) (ro_InstanceID b).
#[export] Instance replica_le_dec a b : Decision (replica_le a b).
Proof. unfold replica_le. apply _. Defined.

Definition sortFleetReplicas (replicas : list AppFleetReplicaObservation)
    : list AppFleetReplicaObservation := merge_sort replica_le replicas.

Definition EvaluateFleetState (input : FleetEvaluation) : AppFleetProjection :=
  let app := TrimSpace (fe_App input) in
  let desiredVersion := TrimSpace (fe_DesiredVersion input) in
  let sourceVersion := TrimSpace (fe_SourceVersion input) in
  let evaluatedAt := fe_EvaluatedAt input in
  let minimum := fe_MinimumHealthyInstances input in
  let t := foldl (tallyHeartbeat app desiredVersion sourceVersion (fe_Cutoff input))
                 zero_tally (fe_Heartbeats input) in
  let validBasis :=
    bool_decide (desiredVersion ≠ "") && bool_decide (sourceVersion ≠ "") && (0 <? minimum)%Z in
  let state :=
    if negb validBasis || (tl_Live t <? minimum)%Z then FleetUnknown
    else if (minimum <=? tl_Running t)%Z && (tl_Mismatched t =? 0)%Z && (tl_Errors t =? 0)%Z
    then FleetHealthy
    else FleetDegraded in
  let state :=
    if validBasis && bool_decide (state ≠ FleetHealthy)
       && rolloutMatches (fe_ActiveRollout input) app desiredVersion sourceVersion evaluatedAt
    then FleetConverging else state in
  {| fp_App := app; fp_State := state; fp_SourceVersion := sourceVersion;
     fp_DesiredVersion := desiredVersion; fp_MinimumHealthyInstances := minimum;
     fp_LiveInstances := tl_Live t; fp_RunningDesiredVersion := tl_Running t;
     fp_NotRunning := tl_NotRunning t; fp_Mismatched := tl_Mismatched t;
     fp_Errors := tl_Errors t;
     fp_HeartbeatTTL :=
       if negb (IsZero (fe_Cutoff input)) && negb (IsZero evaluatedAt)
       then Sub evaluatedAt (fe_Cutoff input) else 0%Z;
     fp_EvaluatedAt := evaluatedAt;
     fp_Replicas := sortFleetReplicas (tl_Replicas t) |}.

(** ** The desired version *)

(** The replacement test of the loop of [LatestKnownInstallation]. *)
Definition newer (candidate latest : AppInstallation) : bool :=
  After (ai_UpdatedAt candidate) (ai_UpdatedAt latest)
  || (Equal (ai_UpdatedAt candidate) (ai_UpdatedAt latest)
      && str_ltb (TrimSpace (ai_Version latest)) (TrimSpace (ai_Version candidate))).

Definition LatestKnownInstallation (installations : list (option AppInstallation))
    : option AppInstallation :=
  match installations with
  | [] => None
  | first :: rest =>
      foldl (λ latest installation,
        match installation, latest with
        | None, _ => latest
        | Some i, None => Some i
        | Some i, Some l => if newer i l then Some i else Some l
        end) first rest
  end.

Definition LatestKnownVersion (installations : list (option AppInstallation)) : string :=
  match LatestKnownInstallation installations with
  | None => ""
  | Some latest => TrimSpace (ai_Version latest)
  end.

(** ** The projector *)

Inductive FetchError := FetchNotFound | FetchFailed.

Inductive FleetError :=
  | ErrProjectorNotConfigured
  | ErrAppRequired
  | ErrRolloutRequired
  | ErrTTLNotPositive
  | ErrLoad (e : FetchError).

Section projector.
  Context {W : Type}.
  Local Abbreviation M A := (prog W A).

(** The Go interfaces of the projector; a missing one is a nil interface. *)
Record FleetProjector := {
  pj_ListKnownVersionsByApp : option (string → M (result FetchError (list (option AppInstallation))));
  pj_SourceVersions : option (M (result FetchError GestaltdSourceVersionState));
  pj_ListFresh : option (string → time → M (result FetchError (list GestaltdInstanceHeartbeat)));
  pj_Rollouts : option (string → M (result FetchError AppRollout));
  pj_HeartbeatTTL : duration;
  pj_Now : time }.

Definition set_ttl (p : AppFleetProjection) (ttl : duration) : AppFleetProjection :=
  {| fp_App := fp_App p; fp_State := fp_State p; fp_SourceVersion := fp_SourceVersion p;
     fp_DesiredVersion := fp_DesiredVersion p;
     fp_MinimumHealthyInstances := fp_MinimumHealthyInstances p;
     fp_LiveInstances := fp_LiveInstances p;
     fp_RunningDesiredVersion := fp_RunningDesiredVersion p; fp_NotRunning := fp_NotRunning p;
     fp_Mismatched := fp_Mismatched p; fp_Errors := fp_Errors p; fp_HeartbeatTTL := ttl;
     fp_EvaluatedAt := fp_EvaluatedAt p; fp_Replicas := fp_Replicas p |}.

(** The last reads of [Project]: fresh heartbeats of a known source version, and
    the rollout, which may be missing. *)
Definition loadFresh
    (fresh : string → time → M (result FetchError (list GestaltdInstanceHeartbeat)))
    (sourceVersion : string) (cutoff : time) : M (result FetchError (list GestaltdInstanceHeartbeat)) :=
  if decide (sourceVersion = "") then mret (Ok []) else fresh sourceVersion cutoff.

Definition loadRollout (rollouts : option (string → M (result FetchError AppRollout))) (app : string)
    : M (result FetchError (option AppRollout)) :=
  match rollouts with
  | None => mret (Ok None)
  | Some get =>
      r ← get app;
      mret (match r with
            | Ok r => Ok (Some r)
            | Err FetchNotFound => Ok None
            | Err e => Err e
            end)
  end.

Definition Project (p : option FleetProjector) (app : string)
    : M (result FleetError AppFleetProjection) :=
  match p with
  | Some {| pj_ListKnownVersionsByApp := Some listKnown; pj_SourceVersions := Some sourceVersions;
            pj_ListFresh := Some fresh; pj_Rollouts := rollouts; pj_HeartbeatTTL := ttl;
            pj_Now := now |} =>
      let app := TrimSpace app in
      if decide (app = "") then mret (Err ErrAppRequired) else
      if (ttl <=? 0)%Z then mret (Err ErrTTLNotPositive) else
      known ← listKnown app;
      match known with
      | Err e => mret (Err (ErrLoad e))
      | Ok known =>
          let desiredVersion := LatestKnownVersion known in
          state ← sourceVersions;
          match state with
          | Err FetchNotFound =>
              mret (Ok (set_ttl (EvaluateFleetState
                {| fe_App := app; fe_DesiredVersion := desiredVersion; fe_SourceVersion := "";
                   fe_MinimumHealthyInstances := 0; fe_Cutoff := (now - ttl)%Z;
                   fe_EvaluatedAt := now; fe_Heartbeats := []; fe_ActiveRollout := None |}) ttl))
          | Err e => mret (Err (ErrLoad e))
          | Ok state =>
              let sourceVersion := TrimSpace (sv_CurrentSourceVersion state) in
              hbs ← loadFresh fresh sourceVersion (now - ttl)%Z;
              match hbs with
              | Err e => mret (Err (ErrLoad e))
              | Ok hbs =>
                  rollout ← loadRollout rollouts app;
                  match rollout with
                  | Err e => mret (Err (ErrLoad e))
                  | Ok rollout =>
                      mret (Ok (set_ttl (EvaluateFleetState
                        {| fe_App := app; fe_DesiredVersion := desiredVersion;
                           fe_SourceVersion := sourceVersion;
                           fe_MinimumHealthyInstances := sv_MinimumHealthyInstances state;
                           fe_Cutoff := (now - ttl)%Z; fe_EvaluatedAt := now;
                           fe_Heartbeats := map Some hbs; fe_ActiveRollout := rollout |}) ttl))
                  end
              end
          end
      end
  | _ => mret (Err ErrProjectorNotConfigured)
  end.

(** The evaluation [ProjectForRollout] makes from the rollout's own snapshot. *)
Definition rolloutEvaluation (r : AppRollout) (now : time) (ttl : duration)
    (hbs : list GestaltdInstanceHeartbeat) : FleetEvaluation :=
  {| fe_App := TrimSpace (r_App r); fe_DesiredVersion := r_Version r;
     fe_SourceVersion := r_TargetSourceVersion r;
     fe_MinimumHealthyInstances := r_MinimumHealthyInstances r;
     fe_Cutoff := (now - ttl)%Z; fe_EvaluatedAt := now;
     fe_Heartbeats := map Some hbs; fe_ActiveRollout := None |}.

Definition ProjectForRollout (p : option FleetProjector) (rollout : option AppRollout)
    : M (result FleetError AppFleetProjection) :=
  match p with
  | Some {| pj_ListFresh := Some fresh; pj_HeartbeatTTL := ttl; pj_Now := now |} =>
      match rollout with
      | None => mret (Err ErrRolloutRequired)
      | Some r =>
          let app := TrimSpace (r_App r) in
          if decide (app = "") then mret (Err ErrAppRequired) else
          if bool_decide (r_Mode r ≠ ModeHeartbeat)
             || bool_decide (TrimSpace (r_TargetSourceVersion r) = "")
             || (r_MinimumHealthyInstances r <=? 0)%Z
          then Project p app
          else if (ttl <=? 0)%Z then mret (Err ErrTTLNotPositive) else
          hbs ← fresh (r_TargetSourceVersion r) (now - ttl)%Z;
          mret (match hbs with
                | Err e => Err (ErrLoad e)
                | Ok hbs => Ok (set_ttl (EvaluateFleetState (rolloutEvaluation r now ttl hbs)) ttl)
                end)
      end
  | _ => mret (Err ErrProjectorNotConfigured)
  end.
End projector.
Arguments FleetProjector : clear implicits.

(** ** The loop, in closed form *)

(** The live heartbeats of an evaluation, and their replicas. *)
Definition live (input : FleetEvaluation) : list GestaltdInstanceHeartbeat :=
  omap (λ hb, if isLive (TrimSpace (fe_SourceVersion input)) (fe_Cutoff input) hb then hb else None)
       (fe_Heartbeats input).
Definition replicas (input : FleetEvaluation) : list AppFleetReplicaObservation :=
  map (replicaOf (TrimSpace (fe_App input)) (TrimSpace (fe_DesiredVersion input))) (live input).
Definition count (c : AppFleetReplicaClass) (rs : list AppFleetReplicaObservation) : Z :=
  Z.of_nat (length (filter (λ r, ro_Class r = c) rs)).

Definition add_replicas (t : tally) (rs : list AppFleetReplicaObservation) : tally :=
  {| tl_Live := tl_Live t + Z.of_nat (length rs);
     tl_Running := tl_Running t + count ClassOnDesired rs;
     tl_NotRunning := tl_NotRunning t + count ClassNotRunning rs;
     tl_Mismatched := tl_Mismatched t + count ClassMismatched rs;
     tl_Errors := tl_Errors t + count ClassError rs;
     tl_Replicas := tl_Replicas t ++ rs |}.

Lemma count_cons c r rs :
  count c (r :: rs) = ((if decide (ro_Class r = c) then 1 else 0) + count c rs)%Z.
Proof. unfold count. rewrite filter_cons. case_decide; simpl; lia. Qed.

Lemma add_replicas_nil t : add_replicas t [] = t.
Proof. destruct t. unfold add_replicas, count. simpl. by rewrite !Z.add_0_r, app_nil_r. Qed.

Lemma add_replicas_cons t r rs :
  add_replicas (countReplica t r) rs = add_replicas t (r :: rs).
Proof.
  unfold add_replicas, countReplica. cbn [tl_Live tl_Running tl_NotRunning tl_Mismatched tl_Errors
    tl_Replicas length]. rewrite !count_cons, <-app_assoc. f_equal; lia.
Qed.

Lemma tally_spec app desired source cutoff hbs t :
  foldl (tallyHeartbeat app desired source cutoff) t hbs =
  add_replicas t (map (replicaOf app desired)
    (omap (λ hb, if isLive source cutoff hb then hb else None) hbs)).
Proof.
  revert t. induction hbs as [|hb hbs IH]; intros t; simpl; [by rewrite add_replicas_nil|].
  rewrite IH. destruct hb as [hb|]; [|done]. cbn [tallyHeartbeat].
  destruct (isLive source cutoff (Some hb)); [|done]. apply add_replicas_cons.
Qed.

Definition final_tally (input : FleetEvaluation) : tally :=
  foldl (tallyHeartbeat (TrimSpace (fe_App input)) (TrimSpace (fe_DesiredVersion input))
           (TrimSpace (fe_SourceVersion input)) (fe_Cutoff input))
        zero_tally (fe_Heartbeats input).

Lemma final_tally_spec input : final_tally input = add_replicas zero_tally (replicas input).
Proof. apply tally_spec. Qed.

Lemma count_zero c rs : count c rs = 0%Z ↔ ∀ r, r ∈ rs → ro_Class r ≠ c.
Proof.
  induction rs as [|r rs IH]; [split; [intros _ r ?%elem_of_nil|]; done|].
  rewrite count_cons. assert (0 ≤ count c rs)%Z by (unfold count; lia).
  setoid_rewrite elem_of_cons. case_decide; split; [lia|naive_solver|naive_solver|].
  intros Hall. assert (count c rs = 0%Z) as ->; [|done]. apply IH. auto.
Qed.

Lemma count_total rs :
  Z.of_nat (length rs) =
  (count ClassOnDesired rs + count ClassNotRunning rs + count ClassMismatched rs
   + count ClassError rs)%Z.
Proof.
  induction rs as [|r rs IH]; [done|]. rewrite !count_cons. cbn [length].
  destruct (ro_Class r); repeat case_decide; (done || lia).
Qed.

(** The basis a verdict needs, and what makes a fleet healthy. *)
Definition valid_basis (input : FleetEvaluation) : Prop :=
  TrimSpace (fe_DesiredVersion input) ≠ "" ∧ TrimSpace (fe_SourceVersion input) ≠ "" ∧
  (0 < fe_MinimumHealthyInstances input)%Z.
Definition healthy (input : FleetEvaluation) : Prop :=
  valid_basis input ∧
  (fe_MinimumHealthyInstances input ≤ count ClassOnDesired (replicas input))%Z ∧
  ∀ r, r ∈ replicas input → ro_Class r = ClassOnDesired ∨ ro_Class r = ClassNotRunning.
Definition enough_live (input : FleetEvaluation) : Prop :=
  (fe_MinimumHealthyInstances input ≤ Z.of_nat (length (live input)))%Z.
Definition converging (input : FleetEvaluation) : Prop :=
  rolloutMatches (fe_ActiveRollout input) (TrimSpace (fe_App input))
    (TrimSpace (fe_DesiredVersion input)) (TrimSpace (fe_SourceVersion input))
    (fe_EvaluatedAt input) = true.

Lemma bad_classes rs :
  count ClassMismatched rs = 0%Z ∧ count ClassError rs = 0%Z ↔
  ∀ r, r ∈ rs → ro_Class r = ClassOnDesired ∨ ro_Class r = ClassNotRunning.
Proof.
  rewrite !count_zero. split.
  - intros [H1 H2] r Hr. specialize (H1 r Hr). specialize (H2 r Hr).
    destruct (ro_Class r); auto; done.
  - intros H. split; intros r Hr Hc; destruct (H r Hr) as [E|E]; congruence.
Qed.

Lemma count_le_length c rs : (count c rs ≤ Z.of_nat (length rs))%Z.
Proof. unfold count. pose proof (length_filter (λ r, ro_Class r = c) rs). lia. Qed.

(** The state, as a case analysis. *)
Lemma state_cases input :
  fp_State (EvaluateFleetState input) = FleetHealthy ∧ healthy input ∨
  fp_State (EvaluateFleetState input) = FleetConverging ∧
    valid_basis input ∧ ¬ healthy input ∧ converging input ∨
  fp_State (EvaluateFleetState input) = FleetUnknown ∧
    ¬ (valid_basis input ∧ enough_live input) ∧ ¬ (valid_basis input ∧ converging input) ∨
  fp_State (EvaluateFleetState input) = FleetDegraded ∧
    valid_basis input ∧ enough_live input ∧ ¬ healthy input ∧ ¬ converging input.
Proof.
  unfold EvaluateFleetState. cbv zeta. fold (final_tally input). rewrite final_tally_spec.
  cbn [fp_State add_replicas tl_Live tl_Running tl_Mismatched tl_Errors zero_tally].
  rewrite !Z.add_0_l.
  set (v := bool_decide _ && bool_decide _ && _).
  assert (Hv : v = true ↔ valid_basis input).
  { unfold v, valid_basis. rewrite !andb_true_iff, !bool_decide_eq_true, Z.ltb_lt. tauto. }
  set (h := (_ <=? _)%Z && (_ =? 0)%Z && (_ =? 0)%Z).
  assert (Hh : healthy input ↔ v = true ∧ h = true).
  { unfold healthy, h. rewrite <-bad_classes, Hv, !andb_true_iff, Z.leb_le, !Z.eqb_eq. tauto. }
  assert (Hl : enough_live input ↔ (Z.of_nat (length (replicas input))
                <? fe_MinimumHealthyInstances input)%Z = false).
  { unfold enough_live, replicas. rewrite length_map, Z.ltb_ge. done. }
  assert (Hhl : h = true → enough_live input).
  { unfold h. rewrite !andb_true_iff, Z.leb_le. intros [[H _] _]. unfold enough_live.
    pose proof (count_le_length ClassOnDesired (replicas input)) as Hc.
    unfold replicas in Hc at 2. rewrite length_map in Hc. lia. }
  unfold converging. set (c := rolloutMatches _ _ _ _ _) in *.
  assert (T : true = true) by done. assert (F : false ≠ true) by done.
  assert (F' : true ≠ false) by done. clearbody v h c.
  destruct v, (_ <? _)%Z, h, c; simpl; rewrite ?Hh;
    first [ left; split; [done|tauto] | right; left; split; [done|tauto]
          | right; right; left; split; [done|tauto] | right; right; right; split; [done|tauto] ].
Qed.

(** ** Order of the heartbeats *)

#[export] Instance replica_le_total : Total replica_le.
Proof.
  intros a b. unfold replica_le.
  destruct (Z.lt_total (ro_HeartbeatAt a) (ro_HeartbeatAt b)) as [H|[H|H]]; auto.
  destruct (total String.le (ro_InstanceID a) (ro_InstanceID b)); auto.
Qed.

#[export] Instance replica_le_trans : Transitive replica_le.
Proof.
  intros a b c. unfold replica_le. intros [H1|[H1 H1']] [H2|[H2 H2']]; try (left; lia).
  right. split; [congruence|]. by etrans.
Qed.

Lemma sortFleetReplicas_Permutation rs rs' :
  rs ≡ₚ rs' → NoDup (map ro_InstanceID rs) → sortFleetReplicas rs = sortFleetReplicas rs'.
Proof.
  intros Hp Hnd. unfold sortFleetReplicas.
  apply (Sorted_unique_strong replica_le); try apply Sorted_merge_sort, _.
  - intros x y Hx Hy Hxy Hyx. rewrite merge_sort_Permutation in Hx, Hy. rewrite <-Hp in Hy.
    assert (Hid : ro_InstanceID x = ro_InstanceID y).
    { destruct Hxy as [?|[? ?]], Hyx as [?|[? ?]]; try lia. by apply (anti_symm String.le). }
    apply list_elem_of_lookup in Hx as [i Hi], Hy as [j Hj].
    assert (i = j) as <-; [|congruence].
    eapply NoDup_lookup; [exact Hnd| |]; rewrite list_lookup_fmap; [by rewrite Hi|].
    by rewrite Hj, Hid.
  - by rewrite !merge_sort_Permutation.
Qed.

Lemma count_Permutation c rs rs' : rs ≡ₚ rs' → count c rs = count c rs'.
Proof. intros H. unfold count. by rewrite H. Qed.

Lemma replica_id app desired hb :
  ro_InstanceID (replicaOf app desired hb) = TrimSpace (hb_InstanceID hb).
Proof. unfold replicaOf. by destruct (hb_Apps hb !! app). Qed.

(** ** Properties of the projection *)

(** The counters of a projection partition the live replicas: every live
    heartbeat appears once among the replicas, sorted by recency and instance,
    each counter is the number of replicas of its class, and the classes add up to
    the number of live instances. *)
Theorem fleet_counters_partition input :
  let p := EvaluateFleetState input in
  fp_Replicas p ≡ₚ replicas input ∧ Sorted replica_le (fp_Replicas p) ∧
  fp_LiveInstances p = Z.of_nat (length (live input)) ∧
  fp_RunningDesiredVersion p = count ClassOnDesired (fp_Replicas p) ∧
  fp_NotRunning p = count ClassNotRunning (fp_Replicas p) ∧
  fp_Mismatched p = count ClassMismatched (fp_Replicas p) ∧
  fp_Errors p = count ClassError (fp_Replicas p) ∧
  fp_LiveInstances p =
    (fp_RunningDesiredVersion p + fp_NotRunning p + fp_Mismatched p + fp_Errors p)%Z.
Proof.
  cbv zeta. unfold EvaluateFleetState. cbv zeta. fold (final_tally input).
  rewrite final_tally_spec.
  cbn [fp_Replicas fp_LiveInstances fp_RunningDesiredVersion fp_NotRunning fp_Mismatched fp_Errors
       add_replicas tl_Live tl_Running tl_NotRunning tl_Mismatched tl_Errors tl_Replicas zero_tally].
  rewrite app_nil_l, !Z.add_0_l. unfold sortFleetReplicas.
  rewrite !(count_Permutation _ _ _ (merge_sort_Permutation replica_le (replicas input))).
  split_and!; try done.
  - apply merge_sort_Permutation.
  - apply Sorted_merge_sort, _.
  - unfold replicas. by rewrite length_map.
  - apply count_total.
Qed.

(** The state says what it should: healthy exactly when the basis is valid,
    at least the minimum of instances run the desired version and no live replica
    is mismatched or in error; converging exactly when a fleet that is not healthy
    has a valid basis and a matching rollout in progress; otherwise unknown when
    the basis is invalid or too few instances are live, and degraded when enough
    are. *)
Theorem fleet_state_meaning input :
  let state := fp_State (EvaluateFleetState input) in
  (state = FleetHealthy ↔ healthy input) ∧
  (state = FleetConverging ↔ valid_basis input ∧ ¬ healthy input ∧ converging input) ∧
  (state = FleetUnknown ↔ ¬ (valid_basis input ∧ enough_live input)
                          ∧ ¬ (valid_basis input ∧ converging input)) ∧
  (state = FleetDegraded ↔ valid_basis input ∧ enough_live input ∧ ¬ healthy input
                           ∧ ¬ converging input).
Proof.
  cbv zeta.
  assert (Hhl : healthy input → valid_basis input ∧ enough_live input).
  { intros (Hv & Hc & _). split; [done|]. unfold enough_live.
    pose proof (count_le_length ClassOnDesired (replicas input)) as H.
    unfold replicas in H at 2. rewrite length_map in H. lia. }
  destruct (state_cases input) as [[-> H]|[[-> H]|[[-> H]|[-> H]]]];
    (split_and!; split; intros H'; [try done; tauto..]).
Qed.

(**  The projection does not depend on the order in which the heartbeats are
    listed, when the live instances have distinct names. *)
Theorem fleet_order_irrelevant input hbs :
  fe_Heartbeats input ≡ₚ hbs → NoDup (map (λ hb, TrimSpace (hb_InstanceID hb)) (live input)) →
  EvaluateFleetState input =
  EvaluateFleetState {| fe_App := fe_App input; fe_DesiredVersion := fe_DesiredVersion input;
    fe_SourceVersion := fe_SourceVersion input;
    fe_MinimumHealthyInstances := fe_MinimumHealthyInstances input;
    fe_Cutoff := fe_Cutoff input; fe_EvaluatedAt := fe_EvaluatedAt input;
    fe_Heartbeats := hbs; fe_ActiveRollout := fe_ActiveRollout input |}.
Proof.
  intros Hp Hnd. unfold EvaluateFleetState. cbv zeta.
  cbn [fe_App fe_DesiredVersion fe_SourceVersion fe_Cutoff fe_Heartbeats fe_EvaluatedAt
       fe_MinimumHealthyInstances fe_ActiveRollout].
  rewrite !tally_spec. fold (live input).
  set (rs' := map _ (omap _ hbs)). fold (replicas input).
  assert (Hr : replicas input ≡ₚ rs').
  { unfold replicas, rs', live. by rewrite Hp. }
  assert (Hs : sortFleetReplicas (replicas input) = sortFleetReplicas rs').
  { apply sortFleetReplicas_Permutation; [done|]. unfold replicas. rewrite map_map.
    erewrite map_ext; [exact Hnd|]. intros hb. simpl. apply replica_id. }
  cbn [add_replicas tl_Live tl_Running tl_NotRunning tl_Mismatched tl_Errors tl_Replicas zero_tally].
  rewrite !app_nil_l, !(count_Permutation _ _ _ Hr), Hs, (Permutation_length Hr). done.
Qed.

(** ** The interface to the heartbeat store *)

(** What the projector is promised about the heartbeats it lists: exactly the
    stored ones of the source version that are fresh, each once. *)
Class FreshHeartbeats (W : Type) := {
  known_heartbeats : W → gmap string GestaltdInstanceHeartbeat;
  heartbeats_ok : W → Prop;
  list_fresh : string → time → prog (Env W) (result FetchError (list GestaltdInstanceHeartbeat));
  list_fresh_spec source cutoff env :
    heartbeats_ok (contents env) → TrimSpace source ≠ "" →
    wp (list_fresh source cutoff) (λ res env',
      contents env' = contents env ∧
      match res with
      | Ok l =>
          (∀ hb, hb ∈ l ↔ (∃ k, known_heartbeats (contents env) !! k = Some hb) ∧
                          Heartbeats.fresh_for (TrimSpace source) cutoff hb) ∧
          NoDup (map hb_InstanceID l)
      | Err _ => ¬ benign env
      end) env }.

(** The heartbeat service keeps that promise. *)
Section implementation.
  Context `{TP : TimeParser} {W : Type} `{OS : ObjectStore W}.

Definition service_list_fresh (source : string) (cutoff : time)
    : prog (Env W) (result FetchError (list GestaltdInstanceHeartbeat)) :=
  r ← Heartbeats.ListFreshBySourceVersion true source cutoff;
  mret (match r with
        | Ok l => Ok l
        | Err Heartbeats.ErrHeartbeatNotFound => Err FetchNotFound
        | Err _ => Err FetchFailed
        end).

Lemma service_list_fresh_spec source cutoff (env : Env W) :
  Heartbeats.wf_heartbeats (rows (contents env)) → TrimSpace source ≠ "" →
  wp (service_list_fresh source cutoff) (λ res env',
    contents env' = contents env ∧
    match res with
    | Ok l =>
        (∀ hb, hb ∈ l ↔ (∃ k, Heartbeats.heartbeats (rows (contents env)) !! k = Some hb) ∧
                        Heartbeats.fresh_for (TrimSpace source) cutoff hb) ∧
        NoDup (map hb_InstanceID l)
    | Err _ => ¬ benign env
    end) env.
Proof.
  intros Hwf Hs. unfold service_list_fresh, Heartbeats.ListFreshBySourceVersion. cbn [negb].
  rewrite decide_False by done. wp_step. wp_step.
  wp_step; intros env1 Hb Hc; wp_step; wp_step; (split; [done|]).
  - done.
  - by destruct (Heartbeats.select_fresh_list (TrimSpace source) cutoff _ Hwf) as (H1 & H2 & _).
Qed.

#[export] Instance service_FreshHeartbeats : FreshHeartbeats W :=
  {| known_heartbeats w := Heartbeats.heartbeats (rows w);
     heartbeats_ok w := Heartbeats.wf_heartbeats (rows w);
     list_fresh := service_list_fresh;
     list_fresh_spec := service_list_fresh_spec |}.
End implementation.

Lemma live_fresh r now ttl hbs :
  (∀ hb, hb ∈ hbs → Heartbeats.fresh_for (TrimSpace (r_TargetSourceVersion r)) (now - ttl)%Z hb) →
  live (rolloutEvaluation r now ttl hbs) = hbs.
Proof.
  unfold live. cbn [rolloutEvaluation fe_SourceVersion fe_Cutoff fe_Heartbeats].
  induction hbs as [|hb hbs IH]; intros Hall; [done|]. simpl.
  destruct (Hall hb) as [Hs [Hlo _]]; [by left|].
  rewrite Hs, TrimSpace_idem, bool_decide_true by done. unfold Before.
  rewrite (proj2 (Z.ltb_ge _ _)) by lia. simpl. f_equal. apply IH. intros. apply Hall. by right.
Qed.

Lemma count_map {A} c (f : A → AppFleetReplicaObservation) l :
  count c (map f l) = Z.of_nat (length (filter (λ x, ro_Class (f x) = c) l)).
Proof.
  induction l as [|x l IH]; [done|]. cbn [map]. rewrite count_cons, IH, filter_cons.
  case_decide; simpl length; lia.
Qed.

Lemma live_instances input :
  fp_LiveInstances (EvaluateFleetState input) = Z.of_nat (length (live input)).
Proof.
  unfold EvaluateFleetState. cbv zeta. fold (final_tally input). rewrite final_tally_spec.
  cbn [fp_LiveInstances add_replicas tl_Live zero_tally]. unfold replicas. by rewrite length_map.
Qed.

Lemma healthy_state input : fp_State (EvaluateFleetState input) = FleetHealthy ↔ healthy input.
Proof.
  destruct (state_cases input) as [[-> H]|[[-> H]|[[-> H]|[-> H]]]]; try tauto;
    (split; [done|]); intros Hh; exfalso; try tauto.
  destruct H as [H _]. apply H. split; [apply Hh|]. destruct Hh as (_ & Hc & _).
  unfold enough_live. pose proof (count_le_length ClassOnDesired (replicas input)) as Hle.
  unfold replicas in Hle at 2. rewrite length_map in Hle. lia.
Qed.

(** *** The order on installations *)

Lemma newer_irrefl i : newer i i = false.
Proof.
  unfold newer, After, Equal. rewrite Z.ltb_irrefl, str_ltb_irrefl, andb_false_r. done.
Qed.

Lemma newer_below a b c : newer a b = true → newer c b = false → newer c a = false.
Proof.
  unfold newer, After, Equal. intros H1 H2. apply not_true_is_false. intros H3.
  revert H1 H2 H3. rewrite orb_false_iff, !orb_true_iff, andb_false_iff, !andb_true_iff.
  rewrite !Z.ltb_lt, Z.ltb_ge, !Z.eqb_eq, Z.eqb_neq.
  intros [Hab|[Hab Vab]] [Hcb Vcb] [Hca|[Hca Vca]]; try lia.
  destruct Vcb as [?|Vcb]; [lia|]. assert (E : str_ltb (TrimSpace (ai_Version b))
    (TrimSpace (ai_Version c)) = true) by (by eapply str_ltb_trans). congruence.
Qed.

(** C22.  [ProjectForRollout] judges a heartbeat rollout by its own snapshot and
    the whole heartbeat store: with any store that keeps the interface's promise,
    and unless a call fails, it reports as live exactly the instances with a fresh
    heartbeat for the rollout's source version, and calls the fleet healthy
    exactly when at least the rollout's minimum of them run its version and none
    of them is mismatched or in error. *)
Theorem ProjectForRollout_judges_store `{FreshHeartbeats W} (env : Env W) proj (r : AppRollout) :
  heartbeats_ok (contents env) → benign env →
  pj_ListFresh proj = Some list_fresh → (0 < pj_HeartbeatTTL proj)%Z →
  TrimSpace (r_App r) ≠ "" → TrimSpace (r_Version r) ≠ "" → r_Mode r = ModeHeartbeat →
  TrimSpace (r_TargetSourceVersion r) ≠ "" → (0 < r_MinimumHealthyInstances r)%Z →
  let class hb := ro_Class (replicaOf (TrimSpace (r_App r)) (TrimSpace (r_Version r)) hb) in
  let counted hb := (∃ k, known_heartbeats (contents env) !! k = Some hb) ∧
    Heartbeats.fresh_for (TrimSpace (r_TargetSourceVersion r))
      (pj_Now proj - pj_HeartbeatTTL proj)%Z hb in
  wp (ProjectForRollout (Some proj) (Some r)) (λ res env',
    contents env' = contents env ∧
    ∃ p l, res = Ok p ∧ NoDup (map hb_InstanceID l) ∧ (∀ hb, hb ∈ l ↔ counted hb) ∧
      fp_LiveInstances p = Z.of_nat (length l) ∧
      (fp_State p = FleetHealthy ↔
       (r_MinimumHealthyInstances r
          ≤ Z.of_nat (length (filter (λ hb, class hb = ClassOnDesired) l)))%Z ∧
       ∀ hb, counted hb → class hb = ClassOnDesired ∨ class hb = ClassNotRunning)) env.
Proof.
  intros Hok Hben Hfresh Httl Happ Hver Hmode Hsrc Hmin class counted.
  destruct proj as [known sources fresh rollouts ttl now].
  cbn [pj_ListFresh pj_HeartbeatTTL pj_Now] in *. subst fresh.
  unfold ProjectForRollout. rewrite decide_False by done.
  rewrite Hmode, !bool_decide_false by (done || tauto). cbn [orb].
  rewrite !(proj2 (Z.leb_gt _ _)) by done. wp_step.
  eapply wp_mono; [by apply list_fresh_spec|].
  intros [l|e] env1 [Hc Hl]; [|done]. destruct Hl as [Hl Hnd]. wp_step. split; [done|].
  set (input := rolloutEvaluation r now ttl l).
  assert (Hlive : live input = l). { apply live_fresh. intros hb Hhb. by apply Hl. }
  exists (set_ttl (EvaluateFleetState input) ttl), l. split_and!; [done|done|apply Hl| |].
  - cbn [set_ttl fp_LiveInstances]. by rewrite live_instances, Hlive.
  - cbn [set_ttl fp_State]. rewrite healthy_state. unfold healthy, replicas.
    rewrite Hlive, count_map. unfold input.
    cbn [rolloutEvaluation fe_App fe_DesiredVersion fe_MinimumHealthyInstances].
    rewrite TrimSpace_idem. fold class. split.
    + intros (_ & Hcount & Hall). split; [done|]. intros hb Hhb%Hl. apply Hall.
      apply list_elem_of_fmap. by exists hb.
    + intros [Hcount Hall]. split_and!; [by split_and!|done|].
      intros rep (hb & -> & Hhb)%list_elem_of_fmap. by apply Hall, Hl.
Qed.

(** [LatestKnownInstallation] picks a maximum: it is one of the listed
    installations, and none of the others was updated later, or at the same time
    with a greater version; it finds one whenever the list has one. *)
Theorem LatestKnown_is_maximum (l : list (option AppInstallation)) :
  match LatestKnownInstallation l with
  | Some i => Some i ∈ l ∧ ∀ j, Some j ∈ l → newer j i = false
  | None => ∀ j, Some j ∉ l
  end.
Proof.
  destruct l as [|first rest]; [by intros j ?%elem_of_nil|]. simpl.
  induction rest as [|x rest IH] using rev_ind; simpl.
  - destruct first as [i|]; [|by intros j ?%list_elem_of_singleton].
    split; [by left|]. intros j [= ->]%list_elem_of_singleton. apply newer_irrefl.
  - rewrite foldl_app, app_comm_cons. cbn [foldl].
    assert (Hsnoc : ∀ j, Some j ∈ (first :: rest) ++ [x] ↔ Some j ∈ first :: rest ∨ x = Some j).
    { intros j. rewrite elem_of_app, list_elem_of_singleton. naive_solver. }
    destruct x as [i|], (foldl _ first rest) as [l|].
    + destruct IH as [Hin Hmax]. destruct (newer i l) eqn:E.
      * split; [apply Hsnoc; by right|]. intros j [Hj|[= ->]]%Hsnoc; [|apply newer_irrefl].
        eapply newer_below; [exact E|by apply Hmax].
      * split; [apply Hsnoc; by left|]. intros j [Hj|[= ->]]%Hsnoc; [by apply Hmax|done].
    + split; [apply Hsnoc; by right|].
      intros j [Hj|[= ->]]%Hsnoc; [by apply IH in Hj|apply newer_irrefl].
    + destruct IH as [Hin Hmax]. split; [apply Hsnoc; by left|]. intros j [Hj|[=]]%Hsnoc. by apply Hmax.
    + intros j [Hj|[=]]%Hsnoc. by apply IH in Hj.
Qed.

(** ** Examples *)

Definition sample_evaluation (hbs : list (option GestaltdInstanceHeartbeat)) : FleetEvaluation :=
  {| fe_App := "billing"; fe_DesiredVersion := "v2"; fe_SourceVersion := "abc";
     fe_MinimumHealthyInstances := 1; fe_Cutoff := Minute; fe_EvaluatedAt := Hour;
     fe_Heartbeats := hbs; fe_ActiveRollout := None |}.

Definition sample_a := Heartbeats.sample_heartbeat "a" (2 * Minute)%Z.
Definition sample_b := Heartbeats.sample_heartbeat "b" Hour.

Lemma fleet_order_irrelevant_witness :
  EvaluateFleetState (sample_evaluation [Some sample_a; None; Some sample_b]) =
  EvaluateFleetState (sample_evaluation [None; Some sample_b; Some sample_a]).
Proof.
  apply (fleet_order_irrelevant (sample_evaluation [Some sample_a; None; Some sample_b])
           [None; Some sample_b; Some sample_a]).
  - cbn [sample_evaluation fe_Heartbeats].
    apply (Permutation_cons_append [None; Some sample_b] (Some sample_a)).
  - vm_compute. apply (bool_decide_unpack _). vm_compute. exact I.
Defined.

Definition sample_rollout : AppRollout :=
  {| r_App := "billing"; r_Version := "v2"; r_State := RolloutRestarting; r_Mode := ModeHeartbeat;
     r_TargetSourceVersion := "abc"; r_MinimumHealthyInstances := 2;
     r_CreatedAt := Hour; r_EnrollmentEndsAt := 0; r_Deadline := (2 * Hour)%Z;
     r_HealthySince := 0; r_HeartbeatEvaluatedAt := 0; r_CompletedAt := 0; r_FailedAt := 0;
     r_FailureSummary := None |}.

#[local] Existing Instance Heartbeats.no_parser.

Definition sample_projector : FleetProjector (Env (gmap string idbRecord)) :=
  {| pj_ListKnownVersionsByApp := None; pj_SourceVersions := None; pj_ListFresh := Some list_fresh;
     pj_Rollouts := None; pj_HeartbeatTTL := Hour; pj_Now := Hour |}.

Lemma ProjectForRollout_judges_store_witness :
  ∃ p, (run (ProjectForRollout (Some sample_projector) (Some sample_rollout))
            Heartbeats.sample_store).1 = Ok p.
Proof.
  destruct (ProjectForRollout_judges_store (H := service_FreshHeartbeats)
              Heartbeats.sample_store sample_projector sample_rollout Heartbeats.sample_store_wf)
    as (_ & p & l & H & _); try done.
  - constructor.
  - by exists p.
Defined.
End FleetState.
