(* ===== verification/AutoDeploy.v ===== *)
(** * AutoDeploy: per-app auto-deploy settings

    Models [gestaltd/internal/coredata/app_auto_deploy_settings.go].  [Update]
    reads and writes with separate calls; [UpdateForRollout] reads the app's
    rollout and writes its settings in one transaction over two stores. *)

From stdpp Require Import base gmap strings list sorting sets.
From Stdlib Require Import ZArith Ascii Lia.
From S2P Require Import Prelude ObjectStore RegistryTypes Rollouts.

Set Default Goal Selector "!".

Module AutoDeploy.

Inductive SettingsError (E : Type) :=
  | ErrNotConfigured
  | ErrAppRequired
  | ErrUpdateRequired
  | ErrRolloutRequired
  | ErrSettingsNotFound
  | ErrUpdate (e : E)
  | ErrStore (e : DBError).
Arguments ErrNotConfigured {E}.
Arguments ErrAppRequired {E}.
Arguments ErrUpdateRequired {E}.
Arguments ErrRolloutRequired {E}.
Arguments ErrSettingsNotFound {E}.
Arguments ErrUpdate {E} _.
Arguments ErrStore {E} _.

(** ** Rows *)

Definition normalizeAppAutoDeploySettings (s : AppAutoDeploySettings) : AppAutoDeploySettings :=
  {| ad_App := TrimSpace (ad_App s);
     ad_Enabled := ad_Enabled s;
     ad_Paused := ad_Paused s;
     ad_PauseReason := TrimSpace (ad_PauseReason s);
     ad_PendingVersion := TrimSpace (ad_PendingVersion s);
     ad_LastSeenVersion := TrimSpace (ad_LastSeenVersion s);
     ad_LastError := TrimSpace (ad_LastError s);
     ad_LastFailedRolloutAt :=
       if IsZero (ad_LastFailedRolloutAt s) then ad_LastFailedRolloutAt s
       else Truncate (ad_LastFailedRolloutAt s) Millisecond |}.

Definition appAutoDeploySettingsRecord (s : AppAutoDeploySettings) : idbRecord :=
  <["id" := AString (ad_App s)]> (<["app" := AString (ad_App s)]>
  (<["enabled" := ABool (ad_Enabled s)]> (<["paused" := ABool (ad_Paused s)]>
  (<["pause_reason" := AString (ad_PauseReason s)]>
  (<["pending_version" := AString (ad_PendingVersion s)]>
  (<["last_seen_version" := AString (ad_LastSeenVersion s)]>
  (<["last_error" := AString (ad_LastError s)]>
  (<["last_failed_rollout_at" := ATime (ad_LastFailedRolloutAt s)]> ∅)))))))).

Definition recordToAppAutoDeploySettings `{TimeParser} (rec : idbRecord) : AppAutoDeploySettings :=
  {| ad_App := recString rec "app";
     ad_Enabled := recBool rec "enabled";
     ad_Paused := recBool rec "paused";
     ad_PauseReason := recString rec "pause_reason";
     ad_PendingVersion := recString rec "pending_version";
     ad_LastSeenVersion := recString rec "last_seen_version";
     ad_LastError := recString rec "last_error";
     ad_LastFailedRolloutAt := recTime rec "last_failed_rollout_at" |}.

Definition emptySettings (app : string) : AppAutoDeploySettings :=
  {| ad_App := app; ad_Enabled := false; ad_Paused := false; ad_PauseReason := "";
     ad_PendingVersion := ""; ad_LastSeenVersion := ""; ad_LastError := "";
     ad_LastFailedRolloutAt := zero_time |}.

Definition set_app (app : string) (s : AppAutoDeploySettings) : AppAutoDeploySettings :=
  {| ad_App := app; ad_Enabled := ad_Enabled s; ad_Paused := ad_Paused s;
     ad_PauseReason := ad_PauseReason s; ad_PendingVersion := ad_PendingVersion s;
     ad_LastSeenVersion := ad_LastSeenVersion s; ad_LastError := ad_LastError s;
     ad_LastFailedRolloutAt := ad_LastFailedRolloutAt s |}.

Definition sameAppRolloutIdentity (a b : option AppRollout) : bool :=
  match a, b with
  | Some a, Some b =>
      bool_decide (TrimSpace (r_App a) = TrimSpace (r_App b))
      && bool_decide (TrimSpace (r_Version a) = TrimSpace (r_Version b))
      && bool_decide (r_Mode a = r_Mode b)
      && bool_decide (TrimSpace (r_TargetSourceVersion a)
                      = TrimSpace (r_TargetSourceVersion b))
      && Equal (r_CreatedAt a) (r_CreatedAt b)
  | _, _ => false
  end.

(** ** The service

    [settings] and [rollouts] are the two object stores; the caller's [update]
    mutates the settings it is given or refuses. *)

Section service.
  Context `{TP : TimeParser} {W : Type} (settings rollouts : ObjectStore W) {E : Type}.
  Local Abbreviation M A := (prog (Env W) A).
  Local Abbreviation update_fn := (AppAutoDeploySettings → result E AppAutoDeploySettings).

(** Creating the object store again changes no row. *)
Definition EnsureStore : M (result DBError unit) := atomic (fallible (λ w, (Ok tt, w))).

Definition GetSettings (configured : bool) (app : string)
    : M (result (SettingsError E) AppAutoDeploySettings) :=
  if negb configured then mret (Err ErrNotConfigured) else
  let app := TrimSpace app in
  if decide (app = "") then mret (Err ErrAppRequired) else
  g ← Get (OS := settings) app;
  mret (match g with
        | Err ErrNotFound => Err ErrSettingsNotFound
        | Err e => Err (ErrStore e)
        | Ok rec => Ok (recordToAppAutoDeploySettings rec)
        end).

Definition ListAll (configured : bool)
    : M (result (SettingsError E) (list AppAutoDeploySettings)) :=
  if negb configured then mret (Err ErrNotConfigured) else
  recs ← GetAll (OS := settings);
  mret (match recs with
        | Err e => Err (ErrStore e)
        | Ok recs => Ok (map recordToAppAutoDeploySettings recs)
        end).

(** What is written back after [update] accepted. *)
Definition finalSettings (app : string) (s : AppAutoDeploySettings) : AppAutoDeploySettings :=
  normalizeAppAutoDeploySettings (set_app app s).

Definition Update (configured : bool) (app : string) (update : option update_fn)
    : M (result (SettingsError E) AppAutoDeploySettings) :=
  if negb configured then mret (Err ErrNotConfigured) else
  let app := TrimSpace app in
  if decide (app = "") then mret (Err ErrAppRequired) else
  match update with
  | None => mret (Err ErrUpdateRequired)
  | Some update =>
      e ← EnsureStore;
      match e with
      | Err e => mret (Err (ErrStore e))
      | Ok _ =>
          g ← Get (OS := settings) app;
          match g with
          | Err ((ErrIO | ErrAlreadyExists) as e) => mret (Err (ErrStore e))
          | Ok _ | Err ErrNotFound =>
              let current := match g with
                             | Ok rec => recordToAppAutoDeploySettings rec
                             | Err _ => emptySettings app
                             end in
              match update current with
              | Err e => mret (Err (ErrUpdate e))
              | Ok s =>
                  let s := finalSettings app s in
                  p ← Put (OS := settings) (appAutoDeploySettingsRecord s);
                  mret (match p with Ok _ => Ok s | Err e => Err (ErrStore e) end)
              end
          end
      end
  end.

(** The transaction of [UpdateForRollout]; [None] when nothing was updated. *)
Definition updateForRolloutTx (app : string) (expected : AppRollout) (update : update_fn)
    : M (result (SettingsError E) (option AppAutoDeploySettings) * bool) :=
  let unchanged :=
    c ← Commit;
    mret (match c with Ok _ => (Ok None, true) | Err e => (Err (ErrStore e), false) end) in
  r ← Get (OS := rollouts) app;
  match r with
  | Err ErrNotFound => unchanged
  | Err e => mret (Err (ErrStore e), false)
  | Ok rolloutRec =>
      let currentRollout := Rollouts.recordToAppRollout rolloutRec in
      if negb (sameAppRolloutIdentity (Some currentRollout) (Some expected))
         || bool_decide (r_State currentRollout ≠ RolloutFailed)
      then unchanged
      else
        g ← Get (OS := settings) app;
        match g with
        | Err ((ErrIO | ErrAlreadyExists) as e) => mret (Err (ErrStore e), false)
        | Ok _ | Err ErrNotFound =>
            let current := match g with
                           | Ok rec => recordToAppAutoDeploySettings rec
                           | Err _ => emptySettings app
                           end in
            match update current with
            | Err e => mret (Err (ErrUpdate e), false)
            | Ok s =>
                let s := finalSettings app s in
                p ← Put (OS := settings) (appAutoDeploySettingsRecord s);
                match p with
                | Err e => mret (Err (ErrStore e), false)
                | Ok _ =>
                    c ← Commit;
                    mret (match c with
                          | Ok _ => (Ok (Some s), true)
                          | Err e => (Err (ErrStore e), false)
                          end)
                end
            end
        end
  end.

Definition UpdateForRollout (configured : bool) (expected : option AppRollout)
    (update : option update_fn)
    : M (result (SettingsError E) (option AppAutoDeploySettings)) :=
  if negb configured then mret (Err ErrNotConfigured) else
  match expected, update with
  | None, _ => mret (Err ErrRolloutRequired)
  | Some _, None => mret (Err ErrUpdateRequired)
  | Some expected, Some update =>
      let app := TrimSpace (r_App expected) in
      if decide (app = "") then mret (Err ErrAppRequired) else
      e ← EnsureStore;
      match e with
      | Err e => mret (Err (ErrStore e))
      | Ok _ =>
          t ← Transaction (updateForRolloutTx app expected update);
          mret (match t with Ok r => r | Err e => Err (ErrStore e) end)
      end
  end.
End service.

(** ** Rows round-trip *)

Lemma settings_roundtrip `{TimeParser} s :
  recordToAppAutoDeploySettings (appAutoDeploySettingsRecord s) = s.
Proof. by destruct s. Qed.

Lemma finalSettings_app app s : TrimSpace app = app → ad_App (finalSettings app s) = app.
Proof. done. Qed.

Section facts.
  Context `{TP : TimeParser} {W : Type} (settings rollouts : ObjectStore W) {E : Type}.
  Local Abbreviation update_fn := (AppAutoDeploySettings → result E AppAutoDeploySettings).

(** The settings of an app: a missing row means the initial ones. *)
Definition settings_of (w : W) (app : string) : AppAutoDeploySettings :=
  match rows (ObjectStore := settings) w !! app with
  | Some rec => recordToAppAutoDeploySettings rec
  | None => emptySettings app
  end.

Definition put_settings (app : string) (s : AppAutoDeploySettings) (w : W) : W :=
  with_rows (ObjectStore := settings)
    (<[app := appAutoDeploySettingsRecord s]> (rows (ObjectStore := settings) w)) w.

Lemma settings_of_put app app' s w :
  settings_of (put_settings app s w) app' = if decide (app = app') then s else settings_of w app'.
Proof.
  unfold settings_of, put_settings. rewrite rows_with, lookup_insert.
  case_decide; [apply settings_roundtrip|done].
Qed.

Lemma wp_EnsureStore Q (env : Env W) :
  (∀ env', ¬ benign env → contents env' = contents env → Q (Err ErrIO) env') →
  (∀ env', (benign env → benign env') → contents env' = contents env → Q (Ok tt) env') →
  wp EnsureStore Q env.
Proof. exact (wp_fallible (λ w, (Ok tt, w)) Q env). Qed.

Lemma wp_Update app update (env : Env W) :
  let app' := TrimSpace app in
  app' ≠ "" →
  wp (Update (E := E) settings true app (Some update)) (λ res env',
    match res with
    | Ok s => ∃ s0, update (settings_of (contents env) app') = Ok s0 ∧ s = finalSettings app' s0 ∧
                    contents env' = put_settings app' s (contents env)
    | Err e => contents env' = contents env ∧
               (benign env → ∃ e0, e = ErrUpdate e0 ∧
                  update (settings_of (contents env) app') = Err e0)
    end) env.
Proof.
  intros app' Hne. unfold Update. cbn [negb]. fold app'. rewrite decide_False by done.
  wp_step. apply wp_EnsureStore; intros env1 Hb1 Hc1; [by wp_step|].
  wp_step. wp_step; intros env2 Hb2 Hc2; [wp_step; split; [congruence|tauto]|].
  assert (Hcur : match rows (ObjectStore := settings) (contents env1) !! app' with
            | Some rec => recordToAppAutoDeploySettings rec | None => emptySettings app' end
            = settings_of (contents env) app') by (by rewrite Hc1).
  destruct (rows (ObjectStore := settings) (contents env1) !! app') as [rec|]; rewrite Hcur;
    (destruct (update _) as [s0|e0]; [|wp_step; split; [congruence|eauto]]);
    wp_step; (wp_step; intros env3 Hb3 Hc3; wp_step; [split; [congruence|tauto]|]);
    exists s0; (split_and!; [done..|]); rewrite Hc3, Hc2, Hc1; unfold put_settings;
    by replace (record_id _) with app' by (symmetry; apply TrimSpace_idem).
Qed.

(** The condition under which [UpdateForRollout] acts. *)
Definition current_failure (w : W) (expected : AppRollout) : Prop :=
  ∃ rec, rows (ObjectStore := rollouts) w !! TrimSpace (r_App expected) = Some rec ∧
    sameAppRolloutIdentity (Some (Rollouts.recordToAppRollout rec)) (Some expected) = true ∧
    r_State (Rollouts.recordToAppRollout rec) = RolloutFailed.

Definition tx_post (app : string) (expected : AppRollout) (update : update_fn) (w : W) (good : Prop)
    (r : result (SettingsError E) (option AppAutoDeploySettings) * bool) (env : Env W) : Prop :=
  match r with
  | (Ok (Some s), c) => c = true ∧ current_failure w expected ∧
      ∃ s0, update (settings_of w app) = Ok s0 ∧ s = finalSettings app s0 ∧
            contents env = put_settings app s w
  | (Ok None, c) => c = true ∧ ¬ current_failure w expected ∧ contents env = w
  | (Err e, c) => c = false ∧ (good → current_failure w expected ∧ ∃ e0, e = ErrUpdate e0 ∧
      update (settings_of w app) = Err e0)
  end.

Lemma wp_updateForRolloutTx expected update (env : Env W) (good : Prop) :
  let app := TrimSpace (r_App expected) in
  (good → benign env) →
  wp (updateForRolloutTx settings rollouts app expected update)
     (tx_post app expected update (contents env) good) env.
Proof.
  intros app Hg. unfold updateForRolloutTx.
  wp_step. wp_step; intros env1 Hb1 Hc1; [wp_step; split; [done|tauto]|].
  assert (Hun : ¬ current_failure (contents env) expected →
    wp (c ← Commit; mret (match c with Ok _ => (Ok None, true) | Err e => (Err (ErrStore e), false) end))
       (tx_post app expected update (contents env) good) env1).
  { intros Hno. wp_step. wp_step; intros env2 Hb2 Hc2; wp_step; (split; [done|]); [tauto|].
    split; [done|congruence]. }
  unfold current_failure in Hun. fold app in Hun.
  destruct (rows (ObjectStore := rollouts) (contents env) !! app) as [rrec|] eqn:Er.
  2: { apply Hun. intros (rec & [=] & _). }
  destruct (negb _ || _) eqn:Ematch.
  { apply Hun. intros (rec & [= <-] & Hs & Hf). revert Ematch. rewrite Hs, Hf. done. }
  apply orb_false_iff in Ematch as [Hsame%negb_false_iff Hf%bool_decide_eq_false%dec_stable].
  assert (Hcf : current_failure (contents env) expected) by (by exists rrec).
  wp_step. wp_step; intros env2 Hb2 Hc2; [wp_step; split; [done|tauto]|].
  assert (Hcur : match rows (ObjectStore := settings) (contents env1) !! app with
            | Some rec => recordToAppAutoDeploySettings rec | None => emptySettings app end
            = settings_of (contents env) app) by (by rewrite Hc1).
  destruct (rows (ObjectStore := settings) (contents env1) !! app) as [rec|]; rewrite Hcur;
    (destruct (update _) as [s0|e0] eqn:Eu; [|wp_step; split; eauto]);
    wp_step; (wp_step; intros env3 Hb3 Hc3; [wp_step; split; [done|tauto]|]);
    wp_step; (wp_step; intros env4 Hb4 Hc4; wp_step; (split; [done|]); [tauto|]);
    (split; [done|]); exists s0; (split_and!; [done..|]); rewrite Hc4, Hc3, Hc2, Hc1; unfold put_settings;
    by replace (record_id _) with app by (symmetry; apply TrimSpace_idem).
Qed.
End facts.

(** ** Properties *)

Section properties.
  Context `{TP : TimeParser} {W : Type} (settings rollouts : ObjectStore W) {E : Type}.
  Local Abbreviation update_fn := (AppAutoDeploySettings → result E AppAutoDeploySettings).

(** [UpdateForRollout] acts only on the failure it was called for: it
    applies the update exactly when the stored rollout of the app is the expected
    one and has failed, reading and writing the app's settings and nothing else;
    when another rollout has taken its place, or it has not failed, nothing is
    written; an error writes nothing, and comes from the update itself unless a
    call failed. *)
Theorem UpdateForRollout_exact expected (update : update_fn) (env : Env W) :
  let app := TrimSpace (r_App expected) in
  app ≠ "" →
  wp (UpdateForRollout settings rollouts true (Some expected) (Some update)) (λ res env',
    match res with
    | Ok (Some s) => current_failure rollouts (contents env) expected ∧
        ∃ s0, update (settings_of settings (contents env) app) = Ok s0 ∧ s = finalSettings app s0 ∧
              contents env' = put_settings settings app s (contents env) ∧
              settings_of settings (contents env') app = s
    | Ok None => ¬ current_failure rollouts (contents env) expected ∧ contents env' = contents env
    | Err e => contents env' = contents env ∧
        (benign env → current_failure rollouts (contents env) expected ∧
           ∃ e0, e = ErrUpdate e0 ∧ update (settings_of settings (contents env) app) = Err e0)
    end) env.
Proof.
  intros app Hne. unfold UpdateForRollout. cbn [negb]. fold app. rewrite decide_False by done.
  wp_step. apply wp_EnsureStore; intros env1 Hb1 Hc1; [by wp_step|].
  wp_step. wp_step.
  { intros env2 Hb2 Hc2. wp_step. split; [congruence|tauto]. }
  intros env2 Hb2 Hc2. eapply wp_mono.
  { apply (wp_updateForRolloutTx settings rollouts expected update env2 (benign env)). tauto. }
  rewrite Hc2, Hc1. intros [[[s|]|e] c] env3; simpl.
  - intros (-> & Hcf & s0 & Hu & -> & Hc3) env4 _ Hc4. wp_step. split; [done|].
    exists s0. rewrite Hc4, Hc3. split_and!; [done..|]. by rewrite settings_of_put, decide_True by done.
  - intros (-> & Hcf & Hc3) env4 _ Hc4. wp_step. split; [done|congruence].
  - intros [-> He] env4 _ Hc4. wp_step. split; [congruence|done].
Qed.

(** [Update] running alone applies the caller's function to the stored
    settings, or to disabled ones when the app has none, and stores the result
    normalised under the app's name, where it reads back unchanged; a refusal of
    the function or a failed call leaves the database as it was. *)
Theorem Update_alone app (update : update_fn) (env : Env W) :
  let app' := TrimSpace app in
  app' ≠ "" →
  wp (Update settings true app (Some update)) (λ res env',
    match res with
    | Ok s => ∃ s0, update (settings_of settings (contents env) app') = Ok s0 ∧
                s = finalSettings app' s0 ∧ ∀ other,
                settings_of settings (contents env') other =
                if decide (app' = other) then s else settings_of settings (contents env) other
    | Err e => contents env' = contents env ∧
        (benign env → ∃ e0, e = ErrUpdate e0 ∧
           update (settings_of settings (contents env) app') = Err e0)
    end) env.
Proof.
  intros app' Hne. eapply wp_mono; [by apply wp_Update|].
  intros [s|e] env'; [|done]. intros (s0 & Hu & -> & ->). exists s0. split_and!; [done..|].
  intros other. apply settings_of_put.
Qed.
End properties.

(** ** Examples *)

Definition no_parser : TimeParser := λ _, zero_time.
#[local] Existing Instance no_parser.
Definition one_store : ObjectStore (gmap string idbRecord) := single_store.
Definition two_stores := gmap string idbRecord * gmap string idbRecord : Type.
Definition settings_store : ObjectStore two_stores := left_store _ _.
Definition rollouts_store : ObjectStore two_stores := right_store _ _.

Definition enable (s : AppAutoDeploySettings) : result unit AppAutoDeploySettings :=
  Ok {| ad_App := ad_App s; ad_Enabled := true; ad_Paused := ad_Paused s;
        ad_PauseReason := ad_PauseReason s; ad_PendingVersion := ad_PendingVersion s;
        ad_LastSeenVersion := ad_LastSeenVersion s; ad_LastError := ad_LastError s;
        ad_LastFailedRolloutAt := ad_LastFailedRolloutAt s |}.
Definition pause (s : AppAutoDeploySettings) : result unit AppAutoDeploySettings :=
  Ok {| ad_App := ad_App s; ad_Enabled := ad_Enabled s; ad_Paused := true;
        ad_PauseReason := PauseReasonRolloutFailed; ad_PendingVersion := ad_PendingVersion s;
        ad_LastSeenVersion := ad_LastSeenVersion s; ad_LastError := ad_LastError s;
        ad_LastFailedRolloutAt := ad_LastFailedRolloutAt s |}.

Definition sample_failed : AppRollout :=
  {| r_App := "billing"; r_Version := "v2"; r_State := RolloutFailed; r_Mode := ModeHeartbeat;
     r_TargetSourceVersion := "abc"; r_MinimumHealthyInstances := 2;
     r_CreatedAt := Hour; r_EnrollmentEndsAt := 0; r_Deadline := (2 * Hour)%Z;
     r_HealthySince := 0; r_HeartbeatEvaluatedAt := 0; r_CompletedAt := 0;
     r_FailedAt := (2 * Hour)%Z; r_FailureSummary := None |}.
Definition sample_env : Env two_stores :=
  mkEnv (∅, {[ "billing" := Rollouts.appRolloutRecord sample_failed ]}) [].

Definition sample_paused : AppAutoDeploySettings :=
  {| ad_App := "billing"; ad_Enabled := false; ad_Paused := true;
     ad_PauseReason := PauseReasonRolloutFailed; ad_PendingVersion := "";
     ad_LastSeenVersion := ""; ad_LastError := ""; ad_LastFailedRolloutAt := 0 |}.
Definition sample_enabled : AppAutoDeploySettings :=
  {| ad_App := "billing"; ad_Enabled := true; ad_Paused := false; ad_PauseReason := "";
     ad_PendingVersion := ""; ad_LastSeenVersion := ""; ad_LastError := "";
     ad_LastFailedRolloutAt := 0 |}.

Lemma UpdateForRollout_exact_witness :
  settings_of settings_store (contents (run (UpdateForRollout settings_store rollouts_store true
    (Some sample_failed) (Some pause)) sample_env).2) (TrimSpace "billing") = sample_paused.
Proof.
  assert (Hne : TrimSpace "billing" ≠ "") by (vm_compute; discriminate).
  pose proof (UpdateForRollout_exact settings_store rollouts_store sample_failed pause sample_env Hne)
    as H. unfold wp in H.
  assert (Hr : (run (UpdateForRollout settings_store rollouts_store true (Some sample_failed)
             (Some pause)) sample_env).1 = Ok (Some sample_paused)) by (vm_compute; reflexivity).
  rewrite Hr in H. destruct H as (_ & s0 & _ & _ & _ & H). exact H.
Defined.

Lemma Update_alone_witness :
  settings_of one_store (contents (run (Update one_store true " billing" (Some enable)) (mkEnv ∅ [])).2)
    (TrimSpace " billing") = sample_enabled.
Proof.
  assert (Hne : TrimSpace " billing" ≠ "") by (vm_compute; discriminate).
  pose proof (Update_alone one_store " billing" enable (mkEnv ∅ []) Hne) as H. unfold wp in H.
  assert (Hr : (run (Update one_store true " billing" (Some enable)) (mkEnv ∅ [])).1
               = Ok sample_enabled) by (vm_compute; reflexivity).
  rewrite Hr in H. destruct H as (s0 & _ & _ & H).
  specialize (H (TrimSpace " billing")). rewrite decide_True in H by done. exact H.
Defined.

(** [Update] is not atomic, although its comment says so: two concurrent
    calls, one enabling auto-deploy and one pausing it, can both succeed and leave
    settings that neither order of the two produces, because the second write
    overwrites the first. *)
Theorem Update_loses_update :
  ∃ schedule w ts,
    exec schedule (mkEnv ∅ [], [Update one_store true "billing" (Some enable);
                                Update one_store true "billing" (Some pause)]) = (w, ts) ∧
    map (λ t, fmap is_ok (result_of t)) ts = [Some true; Some true] ∧
    (ad_Enabled (settings_of one_store (contents w) "billing"),
     ad_Paused (settings_of one_store (contents w) "billing")) = (false, true) ∧
    ∀ first second, [first; second] = [enable; pause] ∨ [first; second] = [pause; enable] →
      let alone u e := (run (Update one_store true "billing" (Some u)) e).2 in
      let end_ := alone second (alone first (mkEnv ∅ [])) in
      (ad_Enabled (settings_of one_store (contents end_) "billing"),
       ad_Paused (settings_of one_store (contents end_) "billing")) = (true, true).
Proof.
  exists [0; 1; 0; 1; 0; 1]. do 2 eexists. split; [reflexivity|].
  split; [vm_compute; reflexivity|]. split; [vm_compute; reflexivity|].
  intros f g [[= -> ->]|[= -> ->]]; vm_compute; reflexivity.
Qed.
End AutoDeploy.
