(* ===== verification/ChangeRequests.v ===== *)
(** * ChangeRequests: the history of desired app versions

    Models [gestaltd/internal/coredata/app_version_change_requests.go] and
    [app_version_change_requests_projection.go].  Every change of the version an app
    should run is appended as a request; the known versions of an app, its desired
    version and the revision that asked for it are projections of that history, which
    operators read page by page.

    The slices of the service hold no nil pointers, since they are built from rows, so
    they are lists of requests here; an absent metadata map reads as an empty one.
    [now] and [newID] are what [time.Now] and [uuid.NewString] return during a call.
    JSON text and the text of values that are not strings are the classes
    [JSONCodec] and [Sprinter]. *)

From stdpp Require Import base gmap strings list sorting sets.
From Stdlib Require Import ZArith Ascii Lia.
From S2P Require Import Prelude ObjectStore RegistryTypes Rfc3339 Heartbeats FleetState.

Set Default Goal Selector "!".

(** The index bound and the choice of the desired version are shared with the
    components that read the history. *)
Import Rfc3339(FormatRFC3339, FormatRFC3339Nano, ParseRFC3339).
Import Heartbeats(indexedDBMaxTime).
Import FleetState(LatestKnownInstallation, LatestKnownVersion).

Module ChangeRequests.

Definition DefaultAppVersionChangeRequestPageLimit : Z := 50.
Definition MaxAppVersionChangeRequestPageLimit : Z := 100.

Record AppVersionChangeRequestPage := {
  pg_Requests : list AppVersionChangeRequest;
  pg_NextCursor : string }.

Record AppDesiredRevision := {
  dr_App : string;
  dr_Version : string;
  dr_ChangeRequestID : string }.

Inductive ChangeRequestError :=
  | ErrNotConfigured
  | ErrRequestRequired
  | ErrAppRequired
  | ErrFromVersionRequired
  | ErrToVersionRequired
  | ErrAppAndVersionRequired
  | ErrInvalidCursor
  | ErrStore (e : DBError).

(** ** Metadata values *)

(** [encoding/json]: [Marshal] to text and [Unmarshal] into a [map[string]any].
    Maps of ASCII strings, nested once, survive the trip.  A decoded object is
    represented with its keys in the order of [map_to_list]. *)
Definition strings_value (m : gmap string string) : any :=
  AMap (prod_map id AString <$> map_to_list m).

Definition plain_value (v : any) : Prop :=
  (∃ s, v = AString s ∧ ascii_text s = true)
  ∨ (∃ m, v = strings_value m ∧ m ≠ ∅ ∧
          map_Forall (λ k s, ascii_text k = true ∧ ascii_text s = true) m).

Definition plain_map (m : gmap string any) : Prop :=
  map_Forall (λ k v, ascii_text k = true ∧ plain_value v) m.

Class JSONCodec := {
  Marshal : any → option bytes;
  UnmarshalMap : bytes → option (gmap string any);
  Unmarshal_Marshal m : plain_map m →
    ∃ text, Marshal (AMap (map_to_list m)) = Some text ∧ text ≠ [] ∧ UnmarshalMap text = Some m }.

(** [fmt.Sprint] *)
Class Sprinter := {
  Sprint : any → string;
  Sprint_string s : Sprint (AString s) = s }.

Definition recJSON `{JSONCodec} (rec : idbRecord) (key : string) : bytes :=
  match rec !! key with
  | None | Some ANil => []
  | Some (ABytes raw) => raw
  | Some (AString raw) => String.list_ascii_of_string raw
  | Some v => default [] (Marshal v)
  end.

Definition recAnyMap `{JSONCodec} (rec : idbRecord) (key : string) : gmap string any :=
  let raw := recJSON rec key in
  if decide (raw = []) then ∅ else default ∅ (UnmarshalMap raw).

(** An empty map is stored as nil, at every depth. *)
Fixpoint jsonValue (v : any) : any :=
  match v with
  | AMap [] => ANil
  | AMap m => AMap (map (λ '(k, x), (k, jsonValue x)) m)
  | _ => v
  end.

(** The values of [any] have no decidable equality; a stored nil reads as absent. *)
Definition metaValue (metadata : gmap string any) (key : string) : option any :=
  match metadata !! key with
  | None | Some ANil => None
  | Some v => Some v
  end.

Definition stringMeta `{Sprinter} (metadata : gmap string any) (key : string) : string :=
  match metaValue metadata key with
  | None => ""
  | Some (AString s) => TrimSpace s
  | Some v => TrimSpace (Sprint v)
  end.

(** A [map[string]string] is a map of string values, which [Sprint] keeps. *)
Definition stringMapMeta `{Sprinter} (metadata : gmap string any) (key : string)
    : gmap string string :=
  match metaValue metadata key with
  | Some (AMap m) => list_to_map (prod_map id Sprint <$> m)
  | _ => ∅
  end.

(** Both layouts the source tries read the same texts. *)
Definition timeMeta `{Sprinter} (metadata : gmap string any) (key : string) : option time :=
  let raw := stringMeta metadata key in
  if decide (raw = "") then None
  else parsed ← ParseRFC3339 raw; Some (Truncate parsed Millisecond).

Definition appVersionChangeRequestMetaRegistry := "registry".
Definition appVersionChangeRequestMetaSourceRepository := "source_repository".
Definition appVersionChangeRequestMetaSourceRef := "source_ref".
Definition appVersionChangeRequestMetaProviderReleaseURL := "provider_release_url".
Definition appVersionChangeRequestMetaArtifactChecksums := "artifact_checksums".
Definition appVersionChangeRequestMetaInstalledAt := "installed_at".

Definition ChangeRequestMetadata (installation : option AppInstallation) : gmap string any :=
  match installation with
  | None => ∅
  | Some i =>
      let metadata : gmap string any :=
        <[appVersionChangeRequestMetaRegistry := AString (TrimSpace (ai_Registry i))]>
        (<[appVersionChangeRequestMetaSourceRepository := AString (TrimSpace (ai_SourceRepository i))]>
        (<[appVersionChangeRequestMetaSourceRef := AString (TrimSpace (ai_SourceRef i))]>
        (<[appVersionChangeRequestMetaProviderReleaseURL :=
             AString (TrimSpace (ai_ProviderReleaseURL i))]> ∅))) in
      let metadata :=
        if decide (ai_ArtifactChecksums i = ∅) then metadata
        else <[appVersionChangeRequestMetaArtifactChecksums :=
                 strings_value (ai_ArtifactChecksums i)]> metadata in
      if IsZero (ai_InstalledAt i) then metadata
      else <[appVersionChangeRequestMetaInstalledAt :=
               AString (FormatRFC3339Nano (ai_InstalledAt i))]> metadata
  end.

(** ** Requests as rows *)

Definition changeRequestRecord (id app fromVersion toVersion actor : string) (timestamp : time)
    (deployableUntil : option time) (metadata : gmap string any) : idbRecord :=
  let rec : idbRecord :=
    <["id" := AString id]>
    (<["app" := AString app]>
    (<["from_version" := AString fromVersion]>
    (<["to_version" := AString toVersion]>
    (<["actor" := AString actor]>
    (<["timestamp" := ATime timestamp]>
    (<["metadata_json" := jsonValue (AMap (map_to_list metadata))]> ∅)))))) in
  match deployableUntil with
  | Some until =>
      if IsZero until then rec
      else <["from_version_deployable_until" := ATime (Truncate until Millisecond)]> rec
  | None => rec
  end.

Definition recordToAppVersionChangeRequest `{TimeParser, JSONCodec} (rec : idbRecord)
    : AppVersionChangeRequest :=
  let value := recTime rec "from_version_deployable_until" in
  {| cr_ID := recString rec "id";
     cr_App := recString rec "app";
     cr_FromVersion := recString rec "from_version";
     cr_ToVersion := recString rec "to_version";
     cr_Actor := recString rec "actor";
     cr_Timestamp := recTime rec "timestamp";
     cr_FromVersionDeployableUntil := if IsZero value then None else Some value;
     cr_Metadata := recAnyMap rec "metadata_json" |}.

(** ** Ordering and cursors *)

(** Newest first; requests of one instant by descending identifier. *)
Definition request_ge (left right : AppVersionChangeRequest) : Prop :=
  (cr_Timestamp right < cr_Timestamp left)%Z
  ∨ (cr_Timestamp left = cr_Timestamp right ∧ String.le (cr_ID right) (cr_ID left)).
#[export] Instance request_ge_dec l r : Decision (request_ge l r) := _.

Definition sortChangeRequestsDesc : list AppVersionChangeRequest → list AppVersionChangeRequest :=
  merge_sort request_ge.

Definition parseAppVersionChangeRequestCursor (cursor : string)
    : result ChangeRequestError (time * string) :=
  let cursor := TrimSpace cursor in
  if decide (cursor = "") then Ok (zero_time, "") else
  match CutLast cursor ":" with
  | None | Some ("", _) => Err ErrInvalidCursor
  | Some (stamp, rest) =>
      match ParseRFC3339 stamp with
      | None => Err ErrInvalidCursor
      | Some timestamp =>
          let id := TrimSpace rest in
          if decide (id = "") then Err ErrInvalidCursor else Ok (timestamp, id)
      end
  end.

Definition formatAppVersionChangeRequestCursor (timestamp : time) (id : string) : string :=
  FormatRFC3339 timestamp +:+ ":" +:+ TrimSpace id.

Definition changeRequestBeforeCursor (request : AppVersionChangeRequest) (cursorTime : time)
    (cursorID : string) : bool :=
  if After (cr_Timestamp request) cursorTime then false
  else if Before (cr_Timestamp request) cursorTime then true
  else str_ltb (cr_ID request) cursorID.

(** The limit a page uses. *)
Definition pageLimit (limit : Z) : nat :=
  let limit := if (limit <=? 0)%Z then DefaultAppVersionChangeRequestPageLimit else limit in
  Z.to_nat (if (MaxAppVersionChangeRequestPageLimit <? limit)%Z
            then MaxAppVersionChangeRequestPageLimit else limit).

(** The rest of [ListRequestsByAppPage] once the requests are listed. *)
Definition changeRequestPage (requests : list AppVersionChangeRequest) (limit : Z) (cursor : string)
    : result ChangeRequestError AppVersionChangeRequestPage :=
  let requests := sortChangeRequestsDesc requests in
  let! parsed := parseAppVersionChangeRequestCursor cursor in
  let '(cursorTime, cursorID) := parsed in
  let limit := pageLimit limit in
  let filtered :=
    filter (λ request,
      IsZero cursorTime || changeRequestBeforeCursor request cursorTime cursorID = true) requests in
  Ok (if decide (limit < length filtered)
      then match filtered !! (limit - 1) with
           | Some last =>
               {| pg_Requests := take limit filtered;
                  pg_NextCursor :=
                    formatAppVersionChangeRequestCursor (cr_Timestamp last) (cr_ID last) |}
           | None => {| pg_Requests := filtered; pg_NextCursor := "" |}
           end
      else {| pg_Requests := filtered; pg_NextCursor := "" |}).

(** The newest request for a version, by time and then by identifier. *)
Definition latestStep (desiredVersion : string) (latest : string * time)
    (request : AppVersionChangeRequest) : string * time :=
  let '(latestID, latestTime) := latest in
  if negb (bool_decide (TrimSpace (cr_ToVersion request) = desiredVersion)) then latest
  else if bool_decide (latestID = "") || After (cr_Timestamp request) latestTime
          || (Equal (cr_Timestamp request) latestTime && str_ltb latestID (cr_ID request))
  then (cr_ID request, cr_Timestamp request) else latest.

Definition latestDesiredRevisionID (requests : list AppVersionChangeRequest) (desiredVersion : string)
    : string :=
  let desiredVersion := TrimSpace desiredVersion in
  if decide (desiredVersion = "") then ""
  else (foldl (latestStep desiredVersion) ("", zero_time) requests).1.

(** ** Projections *)

Definition installationFromChangeRequest `{Sprinter} (request : AppVersionChangeRequest)
    : AppInstallation :=
  let requestedAt := Truncate (cr_Timestamp request) Millisecond in
  let metadata := cr_Metadata request in
  let installedAt :=
    default requestedAt (timeMeta metadata appVersionChangeRequestMetaInstalledAt) in
  {| ai_AppName := TrimSpace (cr_App request);
     ai_Version := TrimSpace (cr_ToVersion request);
     ai_SourceRepository := stringMeta metadata appVersionChangeRequestMetaSourceRepository;
     ai_SourceRef := stringMeta metadata appVersionChangeRequestMetaSourceRef;
     ai_Registry := stringMeta metadata appVersionChangeRequestMetaRegistry;
     ai_ProviderReleaseURL := stringMeta metadata appVersionChangeRequestMetaProviderReleaseURL;
     ai_ArtifactChecksums := stringMapMeta metadata appVersionChangeRequestMetaArtifactChecksums;
     ai_InstalledBy := TrimSpace (cr_Actor request);
     ai_InstalledAt := if IsZero installedAt then requestedAt else installedAt;
     ai_UpdatedAt := requestedAt |}.

Definition InstallationFromChangeRequest `{Sprinter} (request : option AppVersionChangeRequest)
    : option AppInstallation := installationFromChangeRequest <$> request.

Definition version_key (appName version : string) : string :=
  appName +:+ String Ascii.zero version.

(** Keep, per app and version, the installation of the newest request. *)
Definition knownStep `{Sprinter} (byAppVersion : gmap string AppInstallation)
    (request : AppVersionChangeRequest) : gmap string AppInstallation :=
  let appName := TrimSpace (cr_App request) in
  let version := TrimSpace (cr_ToVersion request) in
  if bool_decide (appName = "") || bool_decide (version = "") then byAppVersion else
  let installation := installationFromChangeRequest request in
  let key := version_key appName version in
  match byAppVersion !! key with
  | Some existing =>
      if After (ai_UpdatedAt installation) (ai_UpdatedAt existing)
      then <[key := installation]> byAppVersion else byAppVersion
  | None => <[key := installation]> byAppVersion
  end.

Definition installation_le (a b : AppInstallation) : Prop :=
  (ai_AppName a ≠ ai_AppName b ∧ String.le (ai_AppName a) (ai_AppName b))
  ∨ (ai_AppName a = ai_AppName b ∧ String.le (ai_Version a) (ai_Version b)).
#[export] Instance installation_le_dec a b : Decision (installation_le a b) := _.

Definition knownVersionsFromRequests `{Sprinter} (requests : list AppVersionChangeRequest)
    : list AppInstallation :=
  merge_sort installation_le (map_to_list (foldl knownStep ∅ requests)).*2.

(** Append to the slice of a key. *)
Definition push {A} (byKey : gmap string (list A)) (key : string) (x : A) : gmap string (list A) :=
  if decide (key = "") then byKey
  else <[key := default [] (byKey !! key) ++ [x]]> byKey.

Definition revision_le (a b : AppDesiredRevision) : Prop := String.le (dr_App a) (dr_App b).
#[export] Instance revision_le_dec a b : Decision (revision_le a b) := _.

Definition desiredRevisions `{Sprinter} (requests : list AppVersionChangeRequest)
    : list AppDesiredRevision :=
  let installationsByApp :=
    foldl (λ m i, push m (TrimSpace (ai_AppName i)) i) ∅ (knownVersionsFromRequests requests) in
  let requestsByApp := foldl (λ m r, push m (TrimSpace (cr_App r)) r) ∅ requests in
  merge_sort revision_le
    ((λ '(app, installations),
        let version := LatestKnownVersion (Some <$> installations) in
        {| dr_App := app; dr_Version := version;
           dr_ChangeRequestID :=
             latestDesiredRevisionID (default [] (requestsByApp !! app)) version |})
     <$> map_to_list installationsByApp).

(** ** Index keys *)

Definition key_app (rec : idbRecord) : option string :=
  match rec !! "app" with Some (AString s) => Some s | _ => None end.
Definition key_to_version (rec : idbRecord) : option string :=
  match rec !! "to_version" with Some (AString s) => Some s | _ => None end.
Definition key_timestamp (rec : idbRecord) : option time :=
  match rec !! "timestamp" with Some (ATime t) => Some t | _ => None end.

Definition by_app_timestamp (app : string) (hi : time) (rec : idbRecord) : bool :=
  bool_decide (key_app rec = Some app) &&
  match key_timestamp rec with Some t => (t <=? hi)%Z | None => false end.
Definition by_app_to_version (app version : string) (rec : idbRecord) : bool :=
  bool_decide (key_app rec = Some app) && bool_decide (key_to_version rec = Some version).

Definition timestamp_le (a b : idbRecord) : Prop :=
  (default zero_time (key_timestamp a) ≤ default zero_time (key_timestamp b))%Z.
#[export] Instance timestamp_le_dec a b : Decision (timestamp_le a b).
Proof. unfold timestamp_le. apply _. Defined.

(** ** The service *)

Section service.
  Context `{TP : TimeParser, JC : JSONCodec, SP : Sprinter} {W : Type} `{OS : ObjectStore W}.
  Local Abbreviation M A := (prog (Env W) A).

Definition AppendRequest (now : time) (newID : string) (request : option AppVersionChangeRequest)
    : M (result ChangeRequestError AppVersionChangeRequest) :=
  match request with
  | None => mret (Err ErrRequestRequired)
  | Some request =>
      let appName := TrimSpace (cr_App request) in
      if decide (appName = "") then mret (Err ErrAppRequired) else
      let fromVersion := TrimSpace (cr_FromVersion request) in
      if decide (fromVersion = "") then mret (Err ErrFromVersionRequired) else
      let toVersion := TrimSpace (cr_ToVersion request) in
      if decide (toVersion = "") then mret (Err ErrToVersionRequired) else
      let id := if decide (TrimSpace (cr_ID request) = "") then newID
                else TrimSpace (cr_ID request) in
      let timestamp :=
        Truncate (if IsZero (cr_Timestamp request) then now else cr_Timestamp request) Millisecond in
      let rec := changeRequestRecord id appName fromVersion toVersion (TrimSpace (cr_Actor request))
                   timestamp (cr_FromVersionDeployableUntil request) (cr_Metadata request) in
      a ← Add rec;
      mret (match a with
            | Ok _ => Ok (recordToAppVersionChangeRequest rec)
            | Err e => Err (ErrStore e)
            end)
  end.

Definition ListRequestsByApp (appName : string)
    : M (result ChangeRequestError (list AppVersionChangeRequest)) :=
  let appName := TrimSpace appName in
  if decide (appName = "") then mret (Err ErrAppRequired) else
  recs ← IndexGetAllBy timestamp_le (by_app_timestamp appName indexedDBMaxTime);
  mret (match recs with
        | Ok recs => Ok (map recordToAppVersionChangeRequest recs)
        | Err e => Err (ErrStore e)
        end).

Definition ListRequestsByAppPage (appName : string) (limit : Z) (cursor : string)
    : M (result ChangeRequestError AppVersionChangeRequestPage) :=
  requests ← ListRequestsByApp appName;
  mret (let! requests := requests in changeRequestPage requests limit cursor).

Definition LatestDesiredRevisionID (appName desiredVersion : string)
    : M (result ChangeRequestError string) :=
  requests ← ListRequestsByApp appName;
  mret (let! requests := requests in Ok (latestDesiredRevisionID requests desiredVersion)).

Definition LatestRevisionIDForVersion (appName version : string)
    : M (result ChangeRequestError string) :=
  requests ← ListRequestsByApp appName;
  mret (let! requests := requests in Ok (latestDesiredRevisionID requests version)).

Definition HasKnownVersion (appName version : string) : M (result ChangeRequestError bool) :=
  let appName := TrimSpace appName in
  let version := TrimSpace version in
  if bool_decide (appName = "") || bool_decide (version = "")
  then mret (Err ErrAppAndVersionRequired) else
  recs ← IndexGetAll (by_app_to_version appName version);
  mret (match recs with
        | Ok recs => Ok (bool_decide (0 < length recs))
        | Err e => Err (ErrStore e)
        end).

Definition listAllRequests : M (result DBError (list AppVersionChangeRequest)) :=
  recs ← GetAll;
  mret (let! recs := recs in Ok (map recordToAppVersionChangeRequest recs)).

Definition ListKnownVersionsByApp (configured : bool) (appName : string)
    : M (result ChangeRequestError (list AppInstallation)) :=
  if negb configured then mret (Err ErrNotConfigured) else
  requests ← ListRequestsByApp appName;
  mret (let! requests := requests in Ok (knownVersionsFromRequests requests)).

Definition ListAllKnownVersions (configured : bool)
    : M (result ChangeRequestError (list AppInstallation)) :=
  if negb configured then mret (Err ErrNotConfigured) else
  requests ← listAllRequests;
  mret (match requests with
        | Ok requests => Ok (knownVersionsFromRequests requests)
        | Err e => Err (ErrStore e)
        end).

Definition ListDesiredRevisions (configured : bool)
    : M (result ChangeRequestError (list AppDesiredRevision)) :=
  if negb configured then mret (Err ErrNotConfigured) else
  requests ← listAllRequests;
  mret (match requests with
        | Ok requests => Ok (desiredRevisions requests)
        | Err e => Err (ErrStore e)
        end).

(** A client that follows the cursors until a page has none. *)
Fixpoint history (fuel : nat) (appName : string) (limit : Z) (cursor : string)
    : M (option (result ChangeRequestError (list AppVersionChangeRequest))) :=
  match fuel with
  | O => mret None
  | S fuel =>
      page ← ListRequestsByAppPage appName limit cursor;
      match page with
      | Err e => mret (Some (Err e))
      | Ok page =>
          if decide (pg_NextCursor page = "") then mret (Some (Ok (pg_Requests page)))
          else rest ← history fuel appName limit (pg_NextCursor page);
               mret (match rest with
                     | Some (Ok rest) => Some (Ok (pg_Requests page ++ rest))
                     | Some (Err e) => Some (Err e)
                     | None => None
                     end)
      end
  end.
End service.

(** ** Cursors read back *)

Lemma parse_format_cursor t id :
  (0 ≤ t < Rfc3339.max_year)%Z → id ≠ "" → TrimSpace id = id → CutLast id ":" = None →
  parseAppVersionChangeRequestCursor (formatAppVersionChangeRequestCursor t id)
  = Ok (Truncate t Second, id).
Proof.
  intros Ht Hid Htrim Hcolon.
  unfold parseAppVersionChangeRequestCursor, formatAppVersionChangeRequestCursor.
  destruct (Rfc3339.FormatTime_head false t Ht) as (a & rest & Hf & Ha).
  fold FormatRFC3339 in Hf. rewrite Htrim.
  change (":" +:+ id) with (String ":" id).
  assert (Hs : TrimSpace (FormatRFC3339 t +:+ String ":" id) = FormatRFC3339 t +:+ String ":" id).
  { rewrite Hf, string_cons_app. by apply TrimSpace_joined. }
  rewrite Hs. rewrite decide_False by (by rewrite Hf).
  rewrite CutLast_app by done.
  rewrite Hf at 1. rewrite Hf, <-Hf at 1.
  pose proof (Rfc3339.Parse_Format false t Ht) as Hp.
  fold FormatRFC3339 in Hp. rewrite Hp, Htrim. by rewrite decide_False.
Qed.

Lemma format_cursor_nonempty t id :
  (0 ≤ t < Rfc3339.max_year)%Z → formatAppVersionChangeRequestCursor t id ≠ "".
Proof.
  intros Ht. unfold formatAppVersionChangeRequestCursor.
  destruct (Rfc3339.FormatTime_head false t Ht) as (a & rest & Hf & _).
  fold FormatRFC3339 in Hf. by rewrite Hf.
Qed.

(** ** Pages *)

#[export] Instance request_ge_trans : Transitive request_ge.
Proof.
  intros a b c. unfold request_ge. intros [?|[? Hab]] [?|[? Hbc]]; [left; lia..|].
  right. split; [lia|]. by etrans.
Qed.
#[export] Instance request_ge_total : Total request_ge.
Proof.
  intros a b. unfold request_ge.
  destruct (Z.lt_trichotomy (cr_Timestamp a) (cr_Timestamp b)) as [?|[?|?]]; [auto| |auto].
  destruct (total String.le (cr_ID a) (cr_ID b)); auto.
Qed.

(** Strictly later in the descending order. *)
Definition request_gt (a b : AppVersionChangeRequest) : Prop :=
  (cr_Timestamp b < cr_Timestamp a)%Z
  ∨ (cr_Timestamp a = cr_Timestamp b ∧ str_ltb (cr_ID b) (cr_ID a) = true).

Lemma request_gt_irrefl a : ¬ request_gt a a.
Proof. intros [?|[_ H]]; [lia|]. by rewrite str_ltb_irrefl in H. Qed.

Lemma request_gt_asymm a b : request_gt a b → ¬ request_gt b a.
Proof.
  intros [?|[? H1]] [?|[? H2]]; [lia..|].
  pose proof (str_ltb_trans _ _ _ H1 H2) as H3. by rewrite str_ltb_irrefl in H3.
Qed.

Lemma sort_perm l : sortChangeRequestsDesc l ≡ₚ l.
Proof. apply merge_sort_Permutation. Qed.

Lemma strengthen_sorted l :
  StronglySorted request_ge l → NoDup (cr_ID <$> l) → StronglySorted request_gt l.
Proof.
  induction 1 as [|a l Hs IH Ha]; [constructor|].
  rewrite fmap_cons, NoDup_cons. intros [Hn Hd]. constructor; [by apply IH|].
  apply Forall_forall. intros b Hb.
  assert (cr_ID b ≠ cr_ID a).
  { intros E. apply Hn. rewrite <-E. by apply list_elem_of_fmap_2. }
  eapply Forall_forall in Ha as [?|[? ?]]; [by left| |exact Hb].
  right. split; [done|]. by apply str_ltb_le.
Qed.

Lemma sort_strict l :
  NoDup (cr_ID <$> l) → StronglySorted request_gt (sortChangeRequestsDesc l).
Proof.
  intros Hn. apply strengthen_sorted; [apply (StronglySorted_merge_sort _ _)|].
  by rewrite (fmap_Permutation cr_ID _ _ (sort_perm l)).
Qed.

Lemma before_cursor_gt a b :
  changeRequestBeforeCursor b (cr_Timestamp a) (cr_ID a) = true ↔ request_gt a b.
Proof.
  unfold changeRequestBeforeCursor, request_gt, After, Before.
  destruct (Z.ltb_spec (cr_Timestamp a) (cr_Timestamp b)); [split; [done|lia]|].
  destruct (Z.ltb_spec (cr_Timestamp b) (cr_Timestamp a)); [split; auto|].
  split; [|intros [?|[_ ?]]; [lia|done]]. right. split; [lia|done].
Qed.

Lemma filter_all {A} (P : A → Prop) `{∀ x, Decision (P x)} (l : list A) :
  (∀ x, x ∈ l → P x) → filter P l = l.
Proof.
  induction l as [|a l IH]; intros Hl; [done|].
  rewrite filter_cons_True, IH by set_solver. done.
Qed.

Lemma filter_none {A} (P : A → Prop) `{∀ x, Decision (P x)} (l : list A) :
  (∀ x, x ∈ l → ¬ P x) → filter P l = [].
Proof.
  induction l as [|a l IH]; intros Hl; [done|].
  rewrite filter_cons_False, IH by set_solver. done.
Qed.

(** What a page keeps after the last request of the previous one. *)
Lemma filter_after (P : AppVersionChangeRequest → Prop) `{∀ x, Decision (P x)} l1 last l2 :
  (∀ r, P r ↔ request_gt last r) →
  StronglySorted request_gt (l1 ++ last :: l2) → filter P (l1 ++ last :: l2) = l2.
Proof.
  intros HP Hs. rewrite filter_app, filter_cons_False.
  2:{ rewrite HP. apply request_gt_irrefl. }
  assert (Hl2 : ∀ r, r ∈ l2 → request_gt last r).
  { apply StronglySorted_app_1_r in Hs.
    apply StronglySorted_cons in Hs as [Hs _]. by apply Forall_forall. }
  assert (Hl1 : ∀ r, r ∈ l1 → request_gt r last).
  { intros r Hr. eapply StronglySorted_app_1_elem_of; [done..|by left]. }
  rewrite (filter_all P l2) by (intros r Hr; apply HP; auto).
  rewrite (filter_none P l1); [done|]. intros r Hr. rewrite HP. by apply request_gt_asymm, Hl1.
Qed.

(** A request that a cursor can name: a whole second and an identifier that is a
    trimmed text without a colon. *)
Definition addressable (r : AppVersionChangeRequest) : Prop :=
  (0 < cr_Timestamp r < Rfc3339.max_year)%Z ∧ Truncate (cr_Timestamp r) Second = cr_Timestamp r
  ∧ cr_ID r ≠ "" ∧ TrimSpace (cr_ID r) = cr_ID r ∧ CutLast (cr_ID r) ":" = None.

(** [cursor] asks for the requests [rest] of the sorted history. *)
Inductive cursor_at (sorted : list AppVersionChangeRequest) :
    string → list AppVersionChangeRequest → Prop :=
  | cursor_start : cursor_at sorted "" sorted
  | cursor_after l1 last l2 :
      sorted = l1 ++ last :: l2 →
      cursor_at sorted
        (formatAppVersionChangeRequestCursor (cr_Timestamp last) (cr_ID last)) l2.

Lemma pageLimit_bounds limit : 1 ≤ pageLimit limit ≤ 100.
Proof.
  unfold pageLimit, DefaultAppVersionChangeRequestPageLimit, MaxAppVersionChangeRequestPageLimit.
  destruct (limit <=? 0)%Z eqn:E1; [cbn; lia|].
  destruct (100 <? limit)%Z eqn:E2; lia.
Qed.

Lemma cursor_at_suffix sorted cursor rest :
  cursor_at sorted cursor rest → ∃ l, sorted = l ++ rest.
Proof. destruct 1 as [|l1 last l2 ->]; [by exists []|]. exists (l1 ++ [last]). by rewrite <-app_assoc. Qed.

Lemma changeRequestPage_spec requests limit cursor rest :
  NoDup (cr_ID <$> requests) → (∀ r, r ∈ requests → addressable r) →
  cursor_at (sortChangeRequestsDesc requests) cursor rest →
  ∃ page, changeRequestPage requests limit cursor = Ok page
    ∧ pg_Requests page = take (pageLimit limit) rest
    ∧ if decide (pageLimit limit < length rest)
      then pg_NextCursor page ≠ ""
           ∧ cursor_at (sortChangeRequestsDesc requests) (pg_NextCursor page)
               (drop (pageLimit limit) rest)
      else pg_NextCursor page = "".
Proof.
  intros Hnd Haddr Hcur. unfold changeRequestPage.
  pose proof (sort_strict requests Hnd) as Hsorted.
  assert (Haddr' : ∀ r, r ∈ sortChangeRequestsDesc requests → addressable r).
  { intros r. rewrite sort_perm. apply Haddr. }
  set (sorted := sortChangeRequestsDesc requests) in *. clearbody sorted. clear requests Hnd Haddr.
  assert (Hfilter : ∃ ct ci, parseAppVersionChangeRequestCursor cursor = Ok (ct, ci)
    ∧ filter (λ r, IsZero ct || changeRequestBeforeCursor r ct ci = true) sorted = rest).
  { destruct Hcur as [|l1 last l2 Hl].
    - exists zero_time, "". split; [done|]. by apply filter_all.
    - destruct (Haddr' last) as (Ht & Hsec & Hid & Htrim & Hcolon); [rewrite Hl; set_solver|].
      exists (cr_Timestamp last), (cr_ID last). rewrite parse_format_cursor, Hsec by (done || lia).
      split; [done|]. rewrite Hl. apply filter_after; [|by rewrite <-Hl].
      intros r. unfold IsZero. rewrite (proj2 (Z.eqb_neq _ _)) by lia. apply before_cursor_gt. }
  destruct Hfilter as (ct & ci & -> & Hfilter). cbn [rbind]. rewrite Hfilter.
  pose proof (pageLimit_bounds limit). set (n := pageLimit limit) in *. clearbody n.
  destruct (cursor_at_suffix _ _ _ Hcur) as [l Hl].
  destruct (decide (n < length rest)) as [Hn|Hn].
  2:{ eexists. split; [done|]. split; [|done]. symmetry. apply take_ge. cbn. lia. }
  destruct (lookup_lt_is_Some_2 rest (n - 1)) as [last Hlast]; [lia|]. rewrite Hlast.
  eexists. split; [done|]. split; [done|]. cbn [pg_NextCursor].
  assert (Hin : last ∈ sorted) by (rewrite Hl; apply list_elem_of_lookup_2 in Hlast; set_solver).
  destruct (Haddr' last Hin) as (Ht & _). split; [apply format_cursor_nonempty; lia|].
  apply (cursor_after _ (l ++ take (n - 1) rest)).
  replace n with (S (n - 1)) at 2 by lia.
  by rewrite Hl, <-app_assoc, take_drop_middle.
Qed.

(** ** The rows of a store *)

Section store.
  Context `{TP : TimeParser, JC : JSONCodec, SP : Sprinter} {W : Type} `{OS : ObjectStore W}.
  Implicit Type w : W.

(** The requests [ListRequestsByApp] lists for a trimmed app name. *)
Definition requests_of (app : string) (w : W) : list AppVersionChangeRequest :=
  map recordToAppVersionChangeRequest
    (merge_sort timestamp_le (select (by_app_timestamp app indexedDBMaxTime) w)).

(** Every row is stored under its own identifier and has the index columns. *)
Definition wf_requests (w : W) : Prop :=
  ∀ key rec, rows w !! key = Some rec →
    record_id rec = key ∧ is_Some (key_app rec) ∧ is_Some (key_to_version rec)
    ∧ is_Some (key_timestamp rec).

Lemma NoDup_requests_of app w : wf_requests w → NoDup (cr_ID <$> requests_of app w).
Proof.
  intros Hwf. unfold requests_of.
  change (map recordToAppVersionChangeRequest) with (fmap (M := list) recordToAppVersionChangeRequest).
  rewrite <-list_fmap_compose. change (cr_ID ∘ recordToAppVersionChangeRequest) with record_id.
  rewrite (fmap_Permutation record_id _ _ (merge_sort_Permutation _ _)). unfold select.
  eapply sublist_NoDup; [apply NoDup_sorted_rows; intros k r Hr; by apply (Hwf k)|].
  apply fmap_sublist, sublist_filter.
Qed.

Lemma wp_ListRequestsByApp app Q (env : Env W) :
  TrimSpace app ≠ "" →
  (∀ env', ¬ benign env → contents env' = contents env → Q (Err (ErrStore ErrIO)) env') →
  (∀ env', (benign env → benign env') → contents env' = contents env →
     Q (Ok (requests_of (TrimSpace app) (contents env))) env') →
  wp (ListRequestsByApp app) Q env.
Proof.
  intros Happ Hio Hok. unfold ListRequestsByApp. rewrite decide_False by done.
  wp_step. wp_step; intros; wp_step; auto.
Qed.

Lemma wp_history app limit env : ∀ fuel cursor rest,
  TrimSpace app ≠ "" → benign env → wf_requests (contents env) →
  (∀ r, r ∈ requests_of (TrimSpace app) (contents env) → addressable r) →
  cursor_at (sortChangeRequestsDesc (requests_of (TrimSpace app) (contents env))) cursor rest →
  length rest < fuel →
  wp (history fuel app limit cursor)
     (λ r env', r = Some (Ok rest) ∧ contents env' = contents env ∧ benign env') env.
Proof.
  intros fuel. revert env. induction fuel as [|fuel IH];
    intros env cursor rest Happ Hb Hwf Haddr Hcur Hfuel; [lia|].
  cbn [history]. apply wp_bind. unfold ListRequestsByAppPage. apply wp_bind.
  apply wp_ListRequestsByApp; [done|by intros|]. intros env' Hb' Hc. apply wp_ret.
  destruct (changeRequestPage_spec _ limit _ _ (NoDup_requests_of _ _ Hwf) Haddr Hcur)
    as (page & Hpage & Hreqs & Hnext).
  cbn [rbind]. rewrite Hpage.
  destruct (decide (pageLimit limit < length rest)) as [Hlt|Hge].
  - destruct Hnext as [Hne Hcur']. rewrite decide_False by done. apply wp_bind.
    eapply wp_mono.
    + rewrite <-Hc in Hwf, Haddr, Hcur'.
      eapply (IH env'); [done|by apply Hb'|done|done|exact Hcur'|].
      rewrite length_drop. pose proof (pageLimit_bounds limit). lia.
    + intros a env'' (-> & Hc'' & Hb''). apply wp_ret.
      rewrite Hreqs, take_drop. split; [done|]. split; [congruence|done].
  - rewrite decide_True by done. apply wp_ret. split; [|by auto].
    rewrite Hreqs, take_ge by lia. done.
Qed.

(**  Following the cursors from the first page reads an app's whole history, newest
    first and every request once, within one page more than there are requests; no page
    exceeds the limit, and nothing is written.  It needs identifiers a cursor can carry
    and timestamps of whole seconds, since a cursor drops the fraction. *)
Theorem history_terminates app limit fuel (env : Env W) :
  TrimSpace app ≠ "" → benign env → wf_requests (contents env) →
  (∀ r, r ∈ requests_of (TrimSpace app) (contents env) → addressable r) →
  length (requests_of (TrimSpace app) (contents env)) < fuel →
  ∃ requests, (run (history fuel app limit "") env).1 = Some (Ok requests)
    ∧ requests ≡ₚ requests_of (TrimSpace app) (contents env)
    ∧ StronglySorted request_gt requests
    ∧ contents (run (history fuel app limit "") env).2 = contents env.
Proof.
  intros Happ Hb Hwf Haddr Hfuel.
  destruct (wp_history app limit env fuel "" _ Happ Hb Hwf Haddr (cursor_start _)) as (Hr & Hc & _).
  { by rewrite (Permutation_length (sort_perm _)). }
  eexists. split; [exact Hr|]. split; [apply sort_perm|]. split; [|exact Hc].
  by apply sort_strict, NoDup_requests_of.
Qed.

(** ** The newest request of a version *)

Definition asks_for (version : string) (r : AppVersionChangeRequest) : Prop :=
  TrimSpace (cr_ToVersion r) = version.

Lemma latestStep_spec version l :
  (∀ r, r ∈ l → cr_ID r ≠ "") →
  match foldl (latestStep version) ("", zero_time) l with
  | (id, t) =>
      (id = "" ∧ ∀ r, r ∈ l → ¬ asks_for version r)
      ∨ ∃ x, x ∈ l ∧ asks_for version x ∧ id = cr_ID x ∧ t = cr_Timestamp x
             ∧ ∀ r, r ∈ l → asks_for version r → ¬ request_gt r x
  end.
Proof.
  induction l as [|r l IH] using rev_ind; intros Hid; cbn.
  { left. split; [done|]. by intros r ?%elem_of_nil. }
  specialize (IH ltac:(intros; apply Hid; set_solver)).
  rewrite foldl_app. cbn [foldl]. destruct (foldl _ _ l) as [id t].
  unfold latestStep, asks_for in *. destruct (decide (TrimSpace (cr_ToVersion r) = version)) as [Hv|Hv].
  2:{ rewrite bool_decide_eq_false_2 by done. cbn [negb].
      destruct IH as [[-> Hno]|(x & Hx & Hxv & -> & -> & Hmax)]; [left|right].
      - split; [done|]. intros y [?| ->%list_elem_of_singleton]%elem_of_app; auto.
      - exists x. split_and!; [set_solver|done..|].
        intros y [?| ->%list_elem_of_singleton]%elem_of_app; auto. }
  rewrite bool_decide_eq_true_2 by done. cbn [negb].
  destruct IH as [[-> Hno]|(x & Hx & Hxv & -> & -> & Hmax)].
  - rewrite bool_decide_eq_true_2 by done. cbn [orb]. right. exists r. split_and!; [set_solver|done..|].
    intros y [Hy| ->%list_elem_of_singleton]%elem_of_app Hyv; [by destruct (Hno y Hy)|].
    apply request_gt_irrefl.
  - rewrite bool_decide_eq_false_2 by (apply Hid; set_solver). cbn [orb].
    assert (Hc : After (cr_Timestamp r) (cr_Timestamp x)
        || Equal (cr_Timestamp r) (cr_Timestamp x) && str_ltb (cr_ID x) (cr_ID r) = true
        ↔ request_gt r x).
    { unfold After, Equal, request_gt. rewrite orb_true_iff, andb_true_iff, Z.ltb_lt, Z.eqb_eq. done. }
    case_if; right.
    + assert (Heqb' : request_gt r x) by (by apply Hc). exists r. split_and!; [set_solver|done..|].
      intros y [Hy| ->%list_elem_of_singleton]%elem_of_app Hyv; [|apply request_gt_irrefl].
      intros Hg. apply (Hmax y Hy Hyv). revert Hg Heqb'. unfold request_gt.
      intros [?|[? ?]] [?|[? ?]]; [left; lia..|]. right. split; [lia|]. by eapply str_ltb_trans.
    + exists x. split_and!; [set_solver|done..|].
      intros y [Hy| ->%list_elem_of_singleton]%elem_of_app Hyv; [auto|].
      by rewrite <-Hc.
Qed.

(** The request that is later than all others for its version is the one found. *)
Lemma latestDesiredRevisionID_newest requests r :
  (∀ x, x ∈ requests → cr_ID x ≠ "") → r ∈ requests → TrimSpace (cr_ToVersion r) ≠ "" →
  (∀ x, x ∈ requests → x ≠ r → request_gt r x) →
  latestDesiredRevisionID requests (TrimSpace (cr_ToVersion r)) = cr_ID r.
Proof.
  intros Hid Hr Hv Hnew. unfold latestDesiredRevisionID. rewrite TrimSpace_idem, decide_False by done.
  pose proof (latestStep_spec (TrimSpace (cr_ToVersion r)) requests Hid) as H.
  destruct (foldl _ _ requests) as [id t]. destruct H as [[_ Hno]|(x & Hx & Hxv & -> & _ & Hmax)].
  - by destruct (Hno r Hr).
  - cbn. destruct (decide (cr_ID x = cr_ID r)) as [|Hne]; [done|].
    destruct (Hmax r Hr eq_refl). apply Hnew; [done|congruence].
Qed.

(** ** Known versions *)

Lemma version_key_inj app v1 v2 : version_key app v1 = version_key app v2 → v1 = v2.
Proof. unfold version_key. intros H%(inj (String.append app)). by injection H. Qed.

Definition request_key (r : AppVersionChangeRequest) : string :=
  version_key (TrimSpace (cr_App r)) (TrimSpace (cr_ToVersion r)).
Definition names_version (r : AppVersionChangeRequest) : Prop :=
  TrimSpace (cr_App r) ≠ "" ∧ TrimSpace (cr_ToVersion r) ≠ "".

Lemma knownStep_spec (l : list AppVersionChangeRequest) :
  let m := foldl knownStep ∅ l in
  (∀ key i, m !! key = Some i →
     ∃ r, r ∈ l ∧ names_version r ∧ key = request_key r ∧ i = installationFromChangeRequest r)
  ∧ (∀ r, r ∈ l → names_version r →
       ∃ i, m !! request_key r = Some i
            ∧ (ai_UpdatedAt (installationFromChangeRequest r) ≤ ai_UpdatedAt i)%Z).
Proof.
  induction l as [|r l IH] using rev_ind; cbn.
  { split; [done|]. by intros r ?%elem_of_nil. }
  rewrite foldl_app. cbn [foldl]. set (m := foldl knownStep ∅ l) in *. destruct IH as [IH1 IH2].
  unfold knownStep. fold (request_key r).
  destruct (bool_decide (TrimSpace (cr_App r) = "") || bool_decide (TrimSpace (cr_ToVersion r) = ""))
    eqn:En.
  { assert (¬ names_version r) as Hn.
    { intros [??]. apply orb_true_iff in En as [?|?]; bool_props; done. }
    split.
    - intros key i Hi. destruct (IH1 key i Hi) as (x & ? & ? & ? & ?). exists x. set_solver.
    - intros x [?| ->%list_elem_of_singleton]%elem_of_app ?; auto. done. }
  assert (names_version r) as Hr by (bool_props; done).
  set (ir := installationFromChangeRequest r).
  assert (Hsnoc : ∀ key i, m !! key = Some i →
     ∃ x, x ∈ l ++ [r] ∧ names_version x ∧ key = request_key x ∧ i = installationFromChangeRequest x).
  { intros key i Hi. destruct (IH1 key i Hi) as (x & ? & ? & ? & ?). exists x. set_solver. }
  destruct (m !! request_key r) as [old|] eqn:Eold; [destruct (After _ _) eqn:Ea|].
  - apply Z.ltb_lt in Ea. split.
    + intros key i [[<- <-]|[_ Hi]]%lookup_insert_Some; [|auto]. exists r. set_solver.
    + intros x [Hx| ->%list_elem_of_singleton]%elem_of_app Hxn.
      * destruct (decide (request_key x = request_key r)) as [E|E].
        -- exists ir. rewrite E, lookup_insert_eq. split; [done|].
           destruct (IH2 x Hx Hxn) as (i & Hi & Hle). rewrite E in Hi.
           assert (i = old) as -> by congruence. etrans; [exact Hle|]. apply Z.lt_le_incl, Ea.
        -- rewrite lookup_insert_ne by done. auto.
      * exists ir. by rewrite lookup_insert_eq.
  - apply Z.ltb_ge in Ea. split; [auto|].
    intros x [Hx| ->%list_elem_of_singleton]%elem_of_app Hxn; [auto|]. by exists old.
  - split.
    + intros key i [[<- <-]|[_ Hi]]%lookup_insert_Some; [|auto]. exists r. set_solver.
    + intros x [Hx| ->%list_elem_of_singleton]%elem_of_app Hxn.
      * destruct (IH2 x Hx Hxn) as (i & Hi & Hle). exists i. split; [|done].
        rewrite lookup_insert_ne; [done|]. congruence.
      * exists ir. by rewrite lookup_insert_eq.
Qed.

Lemma elem_of_known i l :
  i ∈ knownVersionsFromRequests l ↔ ∃ key, foldl knownStep ∅ l !! key = Some i.
Proof.
  unfold knownVersionsFromRequests. rewrite merge_sort_Permutation, list_elem_of_fmap. split.
  - intros ([k x] & -> & H%elem_of_map_to_list). by exists k.
  - intros [k H%elem_of_map_to_list]. by exists (k, i).
Qed.

(** In the history of one app, the newest request gives the desired version. *)
Lemma LatestKnownVersion_newest requests app r :
  (∀ x, x ∈ requests → cr_App x = app) → TrimSpace app ≠ "" →
  r ∈ requests → TrimSpace (cr_ToVersion r) ≠ "" →
  (∀ x, x ∈ requests → x ≠ r →
     (Truncate (cr_Timestamp x) Millisecond < Truncate (cr_Timestamp r) Millisecond)%Z) →
  LatestKnownVersion (Some <$> knownVersionsFromRequests requests) = TrimSpace (cr_ToVersion r).
Proof.
  intros Happ Hne Hr Hv Hnew.
  pose proof (knownStep_spec requests) as [H1 H2].
  destruct (H2 r Hr) as (i & Hi & Hle); [by split; [rewrite Happ|]|].
  assert (Hri : i ∈ knownVersionsFromRequests requests) by (apply elem_of_known; eauto).
  pose proof (FleetState.LatestKnown_is_maximum (Some <$> knownVersionsFromRequests requests)) as Hmax.
  unfold LatestKnownVersion. destruct (LatestKnownInstallation _) as [best|].
  2:{ destruct (Hmax i). by apply list_elem_of_fmap_2. }
  destruct Hmax as [Hbest Hmax].
  apply list_elem_of_fmap in Hbest as (best' & [= <-] & Hbest).
  apply elem_of_known in Hbest as [key Hkey].
  destruct (H1 _ _ Hkey) as (x & Hx & _ & _ & ->).
  specialize (Hmax i ltac:(by apply list_elem_of_fmap_2)).
  destruct (H1 _ _ Hi) as (y & Hy & _ & Hky & ->).
  cbn [ai_Version installationFromChangeRequest ai_UpdatedAt] in *. rewrite TrimSpace_idem.
  assert (Hyr : TrimSpace (cr_ToVersion y) = TrimSpace (cr_ToVersion r)).
  { unfold request_key in Hky. rewrite (Happ r Hr), (Happ y Hy) in Hky. by apply version_key_inj in Hky. }
  destruct (bool_decide_reflect (TrimSpace (cr_ToVersion x) = TrimSpace (cr_ToVersion r))); [done|].
  assert (x ≠ r) by congruence. specialize (Hnew x Hx ltac:(done)).
  unfold FleetState.newer in Hmax. apply orb_false_iff in Hmax as [Hmax _].
  unfold After in Hmax. cbn [ai_UpdatedAt installationFromChangeRequest] in Hmax.
  apply Z.ltb_ge in Hmax. lia.
Qed.

(** ** Appending *)

(** The identifier and the time an appended request gets. *)
Definition appended_id (newID : string) (r : AppVersionChangeRequest) : string :=
  if decide (TrimSpace (cr_ID r) = "") then newID else TrimSpace (cr_ID r).
Definition appended_at (now : time) (r : AppVersionChangeRequest) : time :=
  Truncate (if IsZero (cr_Timestamp r) then now else cr_Timestamp r) Millisecond.
Definition appended (now : time) (newID : string) (r : AppVersionChangeRequest) : idbRecord :=
  changeRequestRecord (appended_id newID r) (TrimSpace (cr_App r)) (TrimSpace (cr_FromVersion r))
    (TrimSpace (cr_ToVersion r)) (TrimSpace (cr_Actor r)) (appended_at now r)
    (cr_FromVersionDeployableUntil r) (cr_Metadata r).

Lemma appended_lookup now newID r :
  appended now newID r !! "id" = Some (AString (appended_id newID r))
  ∧ appended now newID r !! "app" = Some (AString (TrimSpace (cr_App r)))
  ∧ appended now newID r !! "to_version" = Some (AString (TrimSpace (cr_ToVersion r)))
  ∧ appended now newID r !! "actor" = Some (AString (TrimSpace (cr_Actor r)))
  ∧ appended now newID r !! "timestamp" = Some (ATime (appended_at now r))
  ∧ appended now newID r !! "metadata_json"
    = Some (jsonValue (AMap (map_to_list (cr_Metadata r)))).
Proof.
  unfold appended, changeRequestRecord.
  destruct (cr_FromVersionDeployableUntil r) as [u|]; [destruct (IsZero u)|];
    (split_and!; by simplify_map_eq).
Qed.

Lemma appended_fields now newID r :
  let x := recordToAppVersionChangeRequest (appended now newID r) in
  record_id (appended now newID r) = appended_id newID r
  ∧ cr_ID x = appended_id newID r ∧ cr_App x = TrimSpace (cr_App r)
  ∧ cr_ToVersion x = TrimSpace (cr_ToVersion r) ∧ cr_Actor x = TrimSpace (cr_Actor r)
  ∧ cr_Timestamp x = appended_at now r.
Proof.
  destruct (appended_lookup now newID r) as (H1 & H2 & H3 & H4 & H5 & _).
  cbn [cr_ID cr_App cr_ToVersion cr_Actor cr_Timestamp recordToAppVersionChangeRequest].
  unfold record_id, recString, recTime. by rewrite H1, H2, H3, H4, H5.
Qed.

Definition valid_request (r : AppVersionChangeRequest) : Prop :=
  TrimSpace (cr_App r) ≠ "" ∧ TrimSpace (cr_FromVersion r) ≠ "" ∧ TrimSpace (cr_ToVersion r) ≠ "".

(** Appending with any faults: an error writes nothing, and has a reason. *)
Lemma wp_AppendRequest_faults now newID r Q (env : Env W) :
  (∀ e env', (benign env → benign env') → contents env' = contents env →
     ¬ (benign env ∧ valid_request r ∧ rows (contents env) !! appended_id newID r = None) →
     Q (Err e) env') →
  (∀ env', (benign env → benign env') → valid_request r →
     rows (contents env) !! appended_id newID r = None →
     contents env' = with_rows (<[appended_id newID r := appended now newID r]>
                                  (rows (contents env))) (contents env) →
     Q (Ok (recordToAppVersionChangeRequest (appended now newID r))) env') →
  wp (AppendRequest now newID (Some r)) Q env.
Proof.
  intros Herr Hok. cbn [AppendRequest].
  unfold valid_request in *.
  destruct (decide (TrimSpace (cr_App r) = "")) as [|Ha]; [wp_step; apply Herr; tauto|].
  destruct (decide (TrimSpace (cr_FromVersion r) = "")) as [|Hf]; [wp_step; apply Herr; tauto|].
  destruct (decide (TrimSpace (cr_ToVersion r) = "")) as [|Ht]; [wp_step; apply Herr; tauto|].
  fold (appended_id newID r) (appended_at now r) (appended now newID r).
  destruct (appended_fields now newID r) as (Hrid & _).
  wp_step. wp_step.
  - intros env' Hb Hc. wp_step. apply Herr; tauto.
  - intros env' Hb [rec Hrec] Hc. rewrite Hrid in Hrec. wp_step. apply Herr; [done|done|].
    intros (_ & _ & ?). congruence.
  - intros env' Hb Hnew Hc. rewrite Hrid in *. wp_step. by apply Hok.
Qed.

Lemma wp_AppendRequest now newID r Q (env : Env W) :
  valid_request r → benign env → rows (contents env) !! appended_id newID r = None →
  (∀ env', benign env' →
     contents env' = with_rows (<[appended_id newID r := appended now newID r]>
                                  (rows (contents env))) (contents env) →
     Q (Ok (recordToAppVersionChangeRequest (appended now newID r))) env') →
  wp (AppendRequest now newID (Some r)) Q env.
Proof.
  intros Hvalid Hb Hnew Hok. apply wp_AppendRequest_faults; [tauto|]. auto.
Qed.

Lemma requests_of_append now newID r app w :
  rows w !! appended_id newID r = None →
  (appended_at now r ≤ indexedDBMaxTime)%Z →
  requests_of app (with_rows (<[appended_id newID r := appended now newID r]> (rows w)) w)
  ≡ₚ (if decide (app = TrimSpace (cr_App r))
      then [recordToAppVersionChangeRequest (appended now newID r)] else [])
     ++ requests_of app w.
Proof.
  intros Hnew Hmax. destruct (appended_fields now newID r) as (Hrid & _).
  destruct (appended_lookup now newID r) as (_ & Happ & _ & _ & Hts & _).
  unfold requests_of. rewrite !merge_sort_Permutation, <-Hrid, select_add by (by rewrite Hrid).
  rewrite map_app. f_equiv. unfold by_app_timestamp, key_app, key_timestamp.
  rewrite Happ, Hts. destruct (decide (app = TrimSpace (cr_App r))) as [->|Hne].
  - rewrite bool_decide_eq_true_2 by done. by rewrite (proj2 (Z.leb_le _ _)).
  - by rewrite bool_decide_eq_false_2 by congruence.
Qed.

Lemma requests_of_app app w r :
  r ∈ requests_of app w → cr_App r = app ∧ (cr_Timestamp r ≤ indexedDBMaxTime)%Z.
Proof.
  unfold requests_of. intros (rec & -> & Hrec)%list_elem_of_fmap.
  rewrite merge_sort_Permutation in Hrec. apply elem_of_select in Hrec as [Hp _].
  unfold by_app_timestamp, key_app, key_timestamp in Hp. apply andb_true_iff in Hp as [Hp Ht].
  bool_props. cbn [cr_App cr_Timestamp recordToAppVersionChangeRequest]. unfold recString, recTime.
  destruct (rec !! "app") as [[]|]; try done. destruct (rec !! "timestamp") as [[]|]; try done.
  apply Z.leb_le in Ht. split; [congruence|done].
Qed.

Lemma requests_of_id app w r :
  wf_requests w → r ∈ requests_of app w → is_Some (rows w !! cr_ID r).
Proof.
  intros Hwf. unfold requests_of. intros (rec & -> & Hrec)%list_elem_of_fmap.
  rewrite merge_sort_Permutation in Hrec. apply elem_of_select in Hrec as [_ [k Hk]].
  cbn [cr_ID recordToAppVersionChangeRequest]. fold (record_id rec).
  destruct (Hwf k rec Hk) as [-> _]. eauto.
Qed.

Lemma wf_requests_append now newID r w :
  wf_requests w →
  wf_requests (with_rows (<[appended_id newID r := appended now newID r]> (rows w)) w).
Proof.
  intros Hwf key rec. rewrite rows_with. intros [[<- <-]|[_ ?]]%lookup_insert_Some; [|by apply Hwf].
  destruct (appended_fields now newID r) as (Hrid & _).
  destruct (appended_lookup now newID r) as (_ & Happ & Hto & _ & Hts & _).
  unfold key_app, key_to_version, key_timestamp. rewrite Happ, Hto, Hts. eauto.
Qed.

(** The newest of an app's requests gives its desired version and revision. *)
Lemma newest_decides old app x w :
  requests_of app w ≡ₚ x :: old →
  wf_requests w → rows w !! "" = None → TrimSpace app = app → app ≠ "" →
  TrimSpace (cr_ToVersion x) ≠ "" →
  Truncate (cr_Timestamp x) Millisecond = cr_Timestamp x →
  (∀ y, y ∈ old → (cr_Timestamp y < cr_Timestamp x)%Z) →
  LatestKnownVersion (Some <$> knownVersionsFromRequests (requests_of app w))
    = TrimSpace (cr_ToVersion x)
  ∧ latestDesiredRevisionID (requests_of app w) (TrimSpace (cr_ToVersion x)) = cr_ID x.
Proof.
  intros Hperm Hwf Hempty Htrim Happ Hto Htr Hlater.
  set (l := requests_of app w) in *.
  assert (Hx : x ∈ l) by (rewrite Hperm; by left).
  assert (Hold : ∀ y, y ∈ l → y ≠ x → (cr_Timestamp y < cr_Timestamp x)%Z).
  { intros y. rewrite Hperm. intros [?|?]%elem_of_cons ?; [done|auto]. }
  split.
  - apply (LatestKnownVersion_newest l app); [|by rewrite Htrim|done|done|].
    + intros y Hy. by destruct (requests_of_app _ _ _ Hy).
    + intros y Hy Hne. rewrite Htr.
      pose proof (Truncate_le (cr_Timestamp y) Millisecond ltac:(done)).
      specialize (Hold y Hy Hne). lia.
  - apply latestDesiredRevisionID_newest; [|done|done|].
    + intros y Hy E. destruct (requests_of_id _ _ _ Hwf Hy) as [rec Hrec]. congruence.
    + intros y Hy Hne. left. auto.
Qed.

(** So does a request appended later than the others. *)
Lemma append_decides now newID r w :
  wf_requests w → rows w !! "" = None → appended_id newID r ≠ "" →
  rows w !! appended_id newID r = None → (appended_at now r ≤ indexedDBMaxTime)%Z →
  TrimSpace (cr_App r) ≠ "" → TrimSpace (cr_ToVersion r) ≠ "" →
  (∀ x, x ∈ requests_of (TrimSpace (cr_App r)) w → (cr_Timestamp x < appended_at now r)%Z) →
  let w' := with_rows (<[appended_id newID r := appended now newID r]> (rows w)) w in
  let requests := requests_of (TrimSpace (cr_App r)) w' in
  LatestKnownVersion (Some <$> knownVersionsFromRequests requests) = TrimSpace (cr_ToVersion r)
  ∧ latestDesiredRevisionID requests (TrimSpace (cr_ToVersion r)) = appended_id newID r.
Proof.
  intros Hwf Hempty Hid Hnew Hmax Ha Ht Hlater. cbn zeta.
  destruct (appended_fields now newID r) as (Hrid & Hxid & Hxapp & Hxto & _ & Hxts).
  pose proof (requests_of_append now newID r (TrimSpace (cr_App r)) w Hnew Hmax) as Hperm.
  rewrite decide_True in Hperm by done.
  destruct (newest_decides _ _ _ _ Hperm) as [Hknown Hrev];
    rewrite ?Hxid, ?Hxto, ?Hxts, ?TrimSpace_idem; try done.
  - by apply wf_requests_append.
  - by rewrite rows_with, lookup_insert_ne.
  - unfold appended_at. by apply Truncate_idem.
  - rewrite Hxto, TrimSpace_idem in Hknown, Hrev. by rewrite Hxid in Hrev.
Qed.

Lemma length_pos_elem {A} (a : A) (l : list A) : a ∈ l → 0 < length l.
Proof. destruct l; [by intros ?%elem_of_nil|]. cbn. lia. Qed.

(** A request appended later than every other request of its app decides what the
    fleet should run: the app's latest known version becomes the one it asks for, its
    identifier is the latest revision of that version, the version counts as known, and
    the history of every other app stays as it was. *)
Theorem AppendRequest_becomes_desired now newID r (env : Env W) :
  valid_request r → benign env → wf_requests (contents env) →
  rows (contents env) !! "" = None → appended_id newID r ≠ "" →
  rows (contents env) !! appended_id newID r = None →
  (appended_at now r ≤ indexedDBMaxTime)%Z →
  (∀ x, x ∈ requests_of (TrimSpace (cr_App r)) (contents env) →
        (cr_Timestamp x < appended_at now r)%Z) →
  let env' := (run (AppendRequest now newID (Some r)) env).2 in
  (∃ known, (run (ListKnownVersionsByApp true (cr_App r)) env').1 = Ok known
     ∧ LatestKnownVersion (Some <$> known) = TrimSpace (cr_ToVersion r))
  ∧ (run (LatestDesiredRevisionID (cr_App r) (cr_ToVersion r)) env').1 = Ok (appended_id newID r)
  ∧ (run (HasKnownVersion (cr_App r) (cr_ToVersion r)) env').1 = Ok true
  ∧ (∀ app, app ≠ TrimSpace (cr_App r) →
       requests_of app (contents env') ≡ₚ requests_of app (contents env))
  ∧ wf_requests (contents env').
Proof.
  intros Hvalid Hb Hwf Hempty Hid Hnew Hmax Hlater. cbn zeta.
  pattern (run (AppendRequest now newID (Some r)) env).2.
  match goal with |- ?P _ => apply (wp_AppendRequest now newID r (λ _, P) env Hvalid Hb Hnew) end.
  intros env' Hb' Hc. destruct Hvalid as (Ha & _ & Ht).
  destruct (append_decides now newID r (contents env)) as [Hknown Hrev]; try done. rewrite <-Hc in *.
  assert (Hwf' : wf_requests (contents env')) by (rewrite Hc; by apply wf_requests_append).
  split_and!; [..|done].
  - change (wp (ListKnownVersionsByApp true (cr_App r))
      (λ k _, ∃ known, k = Ok known ∧
         LatestKnownVersion (Some <$> known) = TrimSpace (cr_ToVersion r)) env').
    unfold ListKnownVersionsByApp. cbn [negb]. apply wp_bind.
    apply wp_ListRequestsByApp; [done|done|]. intros env'' _ _. apply wp_ret. by eexists.
  - change (wp (LatestDesiredRevisionID (cr_App r) (cr_ToVersion r))
      (λ k _, k = Ok (appended_id newID r)) env').
    unfold LatestDesiredRevisionID. apply wp_bind.
    apply wp_ListRequestsByApp; [done|done|]. intros env'' _ _. apply wp_ret. cbn [rbind].
    f_equal. unfold latestDesiredRevisionID in *. by rewrite TrimSpace_idem in Hrev.
  - change (wp (HasKnownVersion (cr_App r) (cr_ToVersion r)) (λ k _, k = Ok true) env').
    unfold HasKnownVersion. rewrite !bool_decide_eq_false_2 by done. cbn [orb].
    wp_step. wp_step; [done|]. intros env'' _ _. wp_step. f_equal. apply bool_decide_eq_true_2.
    apply length_pos_elem with (appended now newID r). apply elem_of_select. split.
    + destruct (appended_lookup now newID r) as (_ & Happ & Hto & _).
      unfold by_app_to_version, key_app, key_to_version. rewrite Happ, Hto.
      by rewrite !bool_decide_eq_true_2.
    + exists (appended_id newID r). by rewrite Hc, rows_with, lookup_insert_eq.
  - intros app Happ. rewrite Hc, (requests_of_append now newID r app) by done.
    by rewrite decide_False.
Qed.

(** ** What an installation records *)

Lemma jsonValue_strings m : m ≠ ∅ → jsonValue (strings_value m) = strings_value m.
Proof.
  intros Hm. unfold strings_value. destruct (map_to_list m) as [|[k s] l] eqn:E.
  { by apply map_to_list_empty_iff in E. }
  cbn. f_equal. f_equal. clear E. induction l as [|[k' s'] l IH]; [done|]. cbn. f_equal. exact IH.
Qed.

Lemma jsonValue_plain m : plain_map m → m ≠ ∅ →
  jsonValue (AMap (map_to_list m)) = AMap (map_to_list m).
Proof.
  intros Hp Hm. destruct (map_to_list m) as [|p l] eqn:E; [by apply map_to_list_empty_iff in E|].
  change (AMap (map (λ '(k, x), (k, jsonValue x)) (p :: l)) = AMap (p :: l)). rewrite <-E. f_equal.
  rewrite <-(List.map_id (map_to_list m)) at 2. apply map_ext_in. intros [k v] Hin.
  apply list_elem_of_In, elem_of_map_to_list in Hin.
  destruct (Hp k v Hin) as [_ [(s & -> & _)|(c & -> & Hc & _)]]; [done|].
  by rewrite jsonValue_strings.
Qed.

Lemma recAnyMap_plain rec m :
  plain_map m → m ≠ ∅ →
  rec !! "metadata_json" = Some (jsonValue (AMap (map_to_list m))) →
  recAnyMap rec "metadata_json" = m.
Proof.
  intros Hp Hm Hrec. rewrite jsonValue_plain in Hrec by done. unfold recAnyMap, recJSON. rewrite Hrec.
  destruct (Unmarshal_Marshal m Hp) as (text & Htext & Hne & Hback). rewrite Htext.
  change (default [] (Some text)) with text. rewrite decide_False by done. by rewrite Hback.
Qed.

(** An installation whose texts are ASCII and whose date can be printed. *)
Definition recordable (i : AppInstallation) : Prop :=
  ascii_text (TrimSpace (ai_Registry i)) = true
  ∧ ascii_text (TrimSpace (ai_SourceRepository i)) = true
  ∧ ascii_text (TrimSpace (ai_SourceRef i)) = true
  ∧ ascii_text (TrimSpace (ai_ProviderReleaseURL i)) = true
  ∧ map_Forall (λ k s, ascii_text k = true ∧ ascii_text s = true) (ai_ArtifactChecksums i)
  ∧ (Millisecond ≤ ai_InstalledAt i < Rfc3339.max_year)%Z.

Lemma ChangeRequestMetadata_plain i :
  recordable i →
  plain_map (ChangeRequestMetadata (Some i)) ∧ ChangeRequestMetadata (Some i) ≠ ∅.
Proof.
  intros (H1 & H2 & H3 & H4 & H5 & H6). cbn [ChangeRequestMetadata].
  assert (Ht : ascii_text (FormatRFC3339Nano (ai_InstalledAt i)) = true).
  { apply ink_text_ascii, Rfc3339.FormatTime_ink. unfold Millisecond in H6. lia. }
  unfold plain_map. split.
  - case_if; [|apply map_Forall_insert_2; [split; [done|]; left; eauto|]];
      (destruct (decide (ai_ArtifactChecksums i = ∅)) as [|Hc];
       [|apply map_Forall_insert_2; [split; [done|]; right; eauto|]]);
      repeat (apply map_Forall_insert_2; [split; [done|]; left; eauto|]); apply map_Forall_empty.
  - case_if; [|apply insert_non_empty]. case_decide; apply insert_non_empty.
Qed.

Lemma stringMapMeta_strings (m : gmap string string) :
  list_to_map (M := gmap string string) (prod_map id Sprint <$> (prod_map id AString <$> map_to_list m)) = m.
Proof.
  rewrite <-list_fmap_compose.
  rewrite (list_fmap_ext _ id); [by rewrite list_fmap_id, list_to_map_to_list|].
  intros k [a b] _. cbn. by rewrite Sprint_string.
Qed.

Lemma read_metadata i :
  recordable i →
  let m := ChangeRequestMetadata (Some i) in
  stringMeta m appVersionChangeRequestMetaRegistry = TrimSpace (ai_Registry i)
  ∧ stringMeta m appVersionChangeRequestMetaSourceRepository = TrimSpace (ai_SourceRepository i)
  ∧ stringMeta m appVersionChangeRequestMetaSourceRef = TrimSpace (ai_SourceRef i)
  ∧ stringMeta m appVersionChangeRequestMetaProviderReleaseURL = TrimSpace (ai_ProviderReleaseURL i)
  ∧ stringMapMeta m appVersionChangeRequestMetaArtifactChecksums = ai_ArtifactChecksums i
  ∧ timeMeta m appVersionChangeRequestMetaInstalledAt
    = Some (Truncate (ai_InstalledAt i) Millisecond).
Proof.
  intros (_ & _ & _ & _ & _ & Ht). unfold Millisecond in Ht.
  assert (Ht' : (0 ≤ ai_InstalledAt i < Rfc3339.max_year)%Z) by lia.
  cbn [ChangeRequestMetadata]. unfold IsZero. rewrite (proj2 (Z.eqb_neq _ _)) by lia.
  pose proof (TrimSpace_ink _ (Rfc3339.FormatTime_ink true _ Ht')) as Htrim.
  pose proof (Rfc3339.Parse_Format true _ Ht') as Hparse.
  destruct (Rfc3339.FormatTime_head true _ Ht') as (a & rest & Hhead & _).
  fold FormatRFC3339Nano in Htrim, Hparse, Hhead.
  unfold timeMeta, stringMapMeta, stringMeta, metaValue.
  destruct (decide (ai_ArtifactChecksums i = ∅)) as [Hc|Hc]; split_and!;
    simplify_map_eq; rewrite ?TrimSpace_idem; try done.
  - rewrite Htrim, decide_False by (by rewrite Hhead). by rewrite Hparse.
  - apply stringMapMeta_strings.
  - rewrite Htrim, decide_False by (by rewrite Hhead). by rewrite Hparse.
Qed.

(** The installation that later reads reconstruct from an appended request is the
    one the installer recorded in its metadata, through the row and its JSON column:
    source, release and checksums unchanged up to surrounding white space, the
    installation time to the millisecond, the app, version and actor of the request. *)
Theorem recorded_installation_reads_back now newID r i (env : Env W) :
  valid_request r → benign env → rows (contents env) !! appended_id newID r = None →
  recordable i → cr_Metadata r = ChangeRequestMetadata (Some i) →
  ∃ stored, (run (AppendRequest now newID (Some r)) env).1 = Ok stored
    ∧ InstallationFromChangeRequest (Some stored) = Some
        {| ai_AppName := TrimSpace (cr_App r); ai_Version := TrimSpace (cr_ToVersion r);
           ai_SourceRepository := TrimSpace (ai_SourceRepository i);
           ai_SourceRef := TrimSpace (ai_SourceRef i); ai_Registry := TrimSpace (ai_Registry i);
           ai_ProviderReleaseURL := TrimSpace (ai_ProviderReleaseURL i);
           ai_ArtifactChecksums := ai_ArtifactChecksums i;
           ai_InstalledBy := TrimSpace (cr_Actor r);
           ai_InstalledAt := Truncate (ai_InstalledAt i) Millisecond;
           ai_UpdatedAt := appended_at now r |}.
Proof.
  intros Hvalid Hb Hnew Hi Hmeta.
  pattern (run (AppendRequest now newID (Some r)) env).1.
  match goal with |- ?P _ => apply (wp_AppendRequest now newID r (λ a _, P a) env Hvalid Hb Hnew) end.
  intros env' _ _. eexists. split; [done|].
  destruct (appended_fields now newID r) as (_ & _ & Hxapp & Hxto & Hxactor & Hxts).
  destruct (appended_lookup now newID r) as (_ & _ & _ & _ & _ & Hjson).
  set (x := recordToAppVersionChangeRequest (appended now newID r)) in *.
  assert (Hm : cr_Metadata x = ChangeRequestMetadata (Some i)).
  { destruct (ChangeRequestMetadata_plain i Hi). rewrite <-Hmeta in *.
    by apply (recAnyMap_plain (appended now newID r)). }
  destruct (read_metadata i Hi) as (E1 & E2 & E3 & E4 & E5 & E6).
  unfold InstallationFromChangeRequest, installationFromChangeRequest. cbn [fmap option_fmap option_map].
  rewrite Hm, Hxapp, Hxto, Hxactor, Hxts, E1, E2, E3, E4, E5, E6, !TrimSpace_idem.
  unfold appended_at. rewrite Truncate_idem by done. cbn [from_option id].
  destruct Hi as (_ & _ & _ & _ & _ & Ht). unfold IsZero.
  pose proof (Truncate_mono _ _ Millisecond ltac:(done) (proj1 Ht)) as Hmono.
  rewrite (proj2 (Z.eqb_neq (Truncate (ai_InstalledAt i) Millisecond) 0)); [done|].
  change (Truncate Millisecond Millisecond) with Millisecond in Hmono. unfold Millisecond in *. lia.
Qed.
End store.

(** ** Cursors forget fractions of a second *)

Lemma page_requests_filtered requests limit cursor ct ci page r :
  parseAppVersionChangeRequestCursor cursor = Ok (ct, ci) →
  changeRequestPage requests limit cursor = Ok page → r ∈ pg_Requests page →
  IsZero ct || changeRequestBeforeCursor r ct ci = true.
Proof.
  intros Hparse. unfold changeRequestPage. rewrite Hparse. cbn [rbind]. intros [= <-].
  set (filtered := filter _ _).
  enough (r ∈ filtered → IsZero ct || changeRequestBeforeCursor r ct ci = true) as Hin.
  { destruct (decide _); [|done]. destruct (filtered !! _); [|done]. cbn [pg_Requests].
    intros Hr%elem_of_take. destruct Hr as (i & Hi & _). by eapply Hin, list_elem_of_lookup_2. }
  unfold filtered. by intros [? _]%list_elem_of_filter.
Qed.

(** A request made within the same second as the last one of a page, after the
    second began, is not on the page that the cursor leads to: the cursor carries the
    second only, and such a request is later than it.  Since timestamps keep
    milliseconds, a client that pages through the history misses it. *)
Theorem page_skips_same_second requests limit last x :
  (Second ≤ cr_Timestamp last < Rfc3339.max_year)%Z →
  cr_ID last ≠ "" → TrimSpace (cr_ID last) = cr_ID last → CutLast (cr_ID last) ":" = None →
  Truncate (cr_Timestamp x) Second = Truncate (cr_Timestamp last) Second →
  cr_Timestamp x ≠ Truncate (cr_Timestamp x) Second →
  ∃ page,
    changeRequestPage requests limit
      (formatAppVersionChangeRequestCursor (cr_Timestamp last) (cr_ID last)) = Ok page
    ∧ x ∉ pg_Requests page.
Proof.
  intros Ht Hid Htrim Hcolon Hsame Hfrac. unfold Second, Millisecond in Ht.
  assert (Hparse := parse_format_cursor (cr_Timestamp last) (cr_ID last) ltac:(lia) Hid Htrim Hcolon).
  destruct (changeRequestPage requests limit _) as [page|e] eqn:Hpage.
  2:{ unfold changeRequestPage in Hpage. by rewrite Hparse in Hpage. }
  exists page. split; [done|]. intros Hx.
  pose proof (page_requests_filtered _ _ _ _ _ _ _ Hparse Hpage Hx) as Hb.
  pose proof (Truncate_mono _ _ Second ltac:(done) (proj1 Ht : (Second ≤ _)%Z)) as Hpos.
  pose proof (Truncate_le (cr_Timestamp x) Second ltac:(done)) as Hle.
  change (Truncate Second Second) with Second in Hpos.
  revert Hb. unfold IsZero, changeRequestBeforeCursor, After, Second, Millisecond in *.
  rewrite (proj2 (Z.eqb_neq _ 0)) by lia. by rewrite (proj2 (Z.ltb_lt _ _)) by lia.
Qed.

(** ** Concrete histories *)

(** A codec with the law of [encoding/json], over an encoding of plain maps as bits. *)
Fixpoint bits (p : positive) : bytes :=
  match p with
  | xH => ["."%char]
  | xO p => "0"%char :: bits p
  | xI p => "1"%char :: bits p
  end.
Fixpoint unbits (b : bytes) : positive :=
  match b with
  | "0"%char :: b => xO (unbits b)
  | "1"%char :: b => xI (unbits b)
  | _ => xH
  end.

Lemma unbits_bits p : unbits (bits p) = p.
Proof. induction p as [p IH|p IH|]; cbn; by rewrite ?IH. Qed.

Local Abbreviation plain := (string + gmap string string)%type.

Definition to_plain (v : any) : plain :=
  match v with
  | AString s => inl s
  | AMap l => inr (list_to_map (prod_map id (λ x, match x with AString s => s | _ => "" end) <$> l))
  | _ => inl ""
  end.
Definition of_plain (p : plain) : any :=
  match p with inl s => AString s | inr m => strings_value m end.

Lemma of_to_plain v : plain_value v → of_plain (to_plain v) = v.
Proof.
  intros [(s & -> & _)|(m & -> & _)]; [done|]. unfold strings_value, to_plain, of_plain.
  rewrite <-list_fmap_compose, (list_fmap_ext _ id); [|by intros k [] _].
  by rewrite list_fmap_id, list_to_map_to_list.
Qed.

Definition bit_marshal (v : any) : option bytes :=
  match v with
  | AMap l =>
      Some (bits (encode (list_to_map (prod_map id to_plain <$> l) : gmap string plain)))
  | _ => None
  end.
Definition bit_unmarshal (b : bytes) : option (gmap string any) :=
  match (decode (unbits b) : option (gmap string plain)) with
  | Some m => Some (of_plain <$> m)
  | None => None
  end.

Lemma bit_unmarshal_marshal m : plain_map m →
  ∃ text, bit_marshal (AMap (map_to_list m)) = Some text ∧ text ≠ [] ∧ bit_unmarshal text = Some m.
Proof.
  intros Hm. eexists. split; [done|]. split; [by destruct (encode _)|].
  unfold bit_unmarshal. rewrite unbits_bits, decode_encode. f_equal.
  rewrite list_to_map_fmap, list_to_map_to_list, <-map_fmap_compose.
  rewrite (map_fmap_ext _ id), map_fmap_id; [done|].
  intros k v Hv. apply of_to_plain. by apply (Hm k).
Qed.

Definition bit_codec : JSONCodec :=
  {| Marshal := bit_marshal; UnmarshalMap := bit_unmarshal;
     Unmarshal_Marshal := bit_unmarshal_marshal |}.

Definition plain_sprint (v : any) : string :=
  match v with AString s | AOther s => s | _ => "<value>" end.
Definition plain_sprinter : Sprinter := {| Sprint := plain_sprint; Sprint_string _ := eq_refl |}.

#[local] Existing Instances Rfc3339.go_time_parser bit_codec plain_sprinter.

Definition demo_time : time := (739000 * 24 * Hour)%Z.

Definition demo_row (id to : string) (timestamp : time) : idbRecord :=
  changeRequestRecord id "shop" "none" to "ada" timestamp None ∅.

Definition demo_store : gmap string idbRecord :=
  <["r1" := demo_row "r1" "1.0.0" demo_time]>
  (<["r2" := demo_row "r2" "1.1.0" (demo_time + Second)]> ∅).

Definition demo_request (id to : string) (timestamp : time) (metadata : gmap string any)
    : AppVersionChangeRequest :=
  {| cr_ID := id; cr_App := "shop"; cr_FromVersion := "none"; cr_ToVersion := to; cr_Actor := "ada";
     cr_Timestamp := timestamp; cr_FromVersionDeployableUntil := None; cr_Metadata := metadata |}.

Lemma demo_wf : wf_requests demo_store.
Proof.
  intros key rec. unfold demo_store, rows, single_store.
  intros [[<- <-]|[_ [[<- <-]|[_ H]]%lookup_insert_Some]]%lookup_insert_Some;
    [split_and!; [done|by eexists..]..|by rewrite lookup_empty in H].
Qed.

Lemma demo_requests :
  requests_of "shop" demo_store
  = [demo_request "r1" "1.0.0" demo_time ∅; demo_request "r2" "1.1.0" (demo_time + Second) ∅].
Proof. vm_compute. reflexivity. Qed.

(** Pages of one request walk through both requests of the history. *)
Lemma history_terminates_witness :
  ∃ requests,
    (run (history 3 " shop" 1 "") (mkEnv demo_store [])).1 = Some (Ok requests)
    ∧ requests ≡ₚ requests_of (TrimSpace " shop") (contents (mkEnv demo_store [])).
Proof.
  destruct (history_terminates " shop" 1 3 (mkEnv demo_store [])) as (l & H1 & H2 & _).
  - done.
  - by apply Forall_nil.
  - apply demo_wf.
  - change (TrimSpace " shop") with "shop". cbn [contents]. rewrite demo_requests.
    intros r [->|[->|[]%elem_of_nil]%elem_of_cons]%elem_of_cons; vm_compute; done.
  - change (TrimSpace " shop") with "shop". cbn [contents]. rewrite demo_requests. cbn. lia.
  - exists l. split; [exact H1|exact H2].
Defined.

(** A third request, later than both, becomes the desired version. *)
Lemma AppendRequest_becomes_desired_witness :
  let r := demo_request "r3" "1.2.0" (demo_time + 2 * Second) ∅ in
  let env' := (run (AppendRequest demo_time "fresh" (Some r)) (mkEnv demo_store [])).2 in
  (run (LatestDesiredRevisionID "shop" "1.2.0") env').1 = Ok "r3"
  ∧ ∃ known, (run (ListKnownVersionsByApp true "shop") env').1 = Ok known
     ∧ LatestKnownVersion (Some <$> known) = "1.2.0".
Proof.
  destruct (AppendRequest_becomes_desired demo_time "fresh"
    (demo_request "r3" "1.2.0" (demo_time + 2 * Second) ∅) (mkEnv demo_store []))
    as (Hknown & Hrev & _).
  - done.
  - by apply Forall_nil.
  - apply demo_wf.
  - done.
  - done.
  - done.
  - vm_compute. done.
  - change (TrimSpace (cr_App _)) with "shop". cbn [contents]. rewrite demo_requests.
    intros r [->|[->|[]%elem_of_nil]%elem_of_cons]%elem_of_cons; vm_compute; done.
  - split; [exact Hrev|exact Hknown].
Defined.

Definition demo_installation : AppInstallation :=
  {| ai_AppName := "shop"; ai_Version := "1.2.0"; ai_SourceRepository := "git.example/shop";
     ai_SourceRef := "main "; ai_Registry := "internal"; ai_ProviderReleaseURL := "";
     ai_ArtifactChecksums := <["linux" := "ab12"]> ∅; ai_InstalledBy := "ada";
     ai_InstalledAt := demo_time + 1; ai_UpdatedAt := demo_time |}.

(** The installation recorded in the metadata is read back with its checksums. *)
Lemma recorded_installation_reads_back_witness :
  ∃ stored i,
    (run (AppendRequest demo_time "fresh"
            (Some (demo_request "r3" "1.2.0" 0 (ChangeRequestMetadata (Some demo_installation)))))
         (mkEnv demo_store [])).1 = Ok stored
    ∧ InstallationFromChangeRequest (Some stored) = Some i
    ∧ ai_ArtifactChecksums i = <["linux" := "ab12"]> ∅ ∧ ai_InstalledAt i = demo_time.
Proof.
  destruct (recorded_installation_reads_back demo_time "fresh"
    (demo_request "r3" "1.2.0" 0 (ChangeRequestMetadata (Some demo_installation)))
    demo_installation (mkEnv demo_store [])) as (stored & H1 & H2).
  - done.
  - by apply Forall_nil.
  - done.
  - unfold recordable. split_and!; [done..| |vm_compute; done|vm_compute; done].
    apply map_Forall_insert_2; [done|apply map_Forall_empty].
  - done.
  - exists stored. eexists. split; [exact H1|]. split; [exact H2|]. by split.
Defined.

(** Two requests of one second, pages of one request: the older one is on neither. *)
Lemma page_skips_same_second_witness :
  let a := demo_request "r1" "1.0.0" (demo_time + 250 * Millisecond) ∅ in
  let b := demo_request "r2" "1.1.0" (demo_time + 750 * Millisecond) ∅ in
  changeRequestPage [a; b] 1 ""
    = Ok {| pg_Requests := [b];
            pg_NextCursor := formatAppVersionChangeRequestCursor (cr_Timestamp b) (cr_ID b) |}
  ∧ ∃ page,
      changeRequestPage [a; b] 1 (formatAppVersionChangeRequestCursor (cr_Timestamp b) (cr_ID b))
        = Ok page ∧ a ∉ pg_Requests page.
Proof.
  split; [vm_compute; reflexivity|].
  apply (page_skips_same_second _ 1
    (demo_request "r2" "1.1.0" (demo_time + 750 * Millisecond) ∅)
    (demo_request "r1" "1.0.0" (demo_time + 250 * Millisecond) ∅)); try done; vm_compute; done.
Defined.

End ChangeRequests.
