(* ===== verification/Materializations.v ===== *)
(** * Materializations: how far each instance has got with each app version

    Models [gestaltd/internal/coredata/app_instance_materializations.go]: the rows in which
    an instance notes that it acknowledged, materialized, stopped and restarted a version,
    and every method of [AppInstanceMaterializationService] as a program of object-store
    calls.  [configured] is the nil check on the service, [now] what [time.Now] returns
    during the call and [newID] the identifier [uuid.NewString] makes.

    The store has a unique index on instance, app and version: the database refuses a row
    whose index key another row has. *)

From stdpp Require Import base gmap strings list sorting sets.
From Stdlib Require Import ZArith Ascii Lia.
From S2P Require Import Prelude ObjectStore.

Set Default Goal Selector "!".

Module Materializations.

Record AppInstanceMaterialization := {
  mt_InstanceID : string;
  mt_SourceVersion : string;
  mt_App : string;
  mt_Version : string;
  mt_AcknowledgedAt : time;
  mt_MaterializedAt : time;
  mt_StoppedAt : time;
  mt_RestartedAt : time;
  mt_AttemptCount : Z;
  mt_LastErrorAt : time;
  mt_LastErrorMessage : string }.

Inductive MaterializationError :=
  | ErrNotConfigured
  | ErrInstanceRequired
  | ErrAppAndVersionRequired
  | ErrKeyRequired
  | ErrRecordRequired
  | ErrStore (e : DBError).

Definition recordToAppInstanceMaterialization `{TimeParser} (rec : idbRecord)
    : AppInstanceMaterialization :=
  {| mt_InstanceID := recString rec "instance_id";
     mt_SourceVersion := recString rec "source_version";
     mt_App := recString rec "app";
     mt_Version := recString rec "version";
     mt_AcknowledgedAt := recTime rec "acknowledged_at";
     mt_MaterializedAt := recTime rec "materialized_at";
     mt_StoppedAt := recTime rec "stopped_at";
     mt_RestartedAt := recTime rec "restarted_at";
     mt_AttemptCount := recordInt rec "attempt_count";
     mt_LastErrorAt := recTime rec "last_error_at";
     mt_LastErrorMessage := recString rec "last_error_message" |}.

(** ** Index keys *)

Abbreviation mat_key := (string * string * string)%type.

Definition column (rec : idbRecord) (name : string) : option string :=
  match rec !! name with Some (AString s) => Some s | _ => None end.

(** A row is in the unique index when its three columns hold strings. *)
Definition key_of (rec : idbRecord) : option mat_key :=
  i ← column rec "instance_id"; a ← column rec "app"; v ← column rec "version"; Some (i, a, v).

Definition by_instance (instanceID : string) (rec : idbRecord) : bool :=
  bool_decide (column rec "instance_id" = Some instanceID).
Definition by_app_version (app version : string) (rec : idbRecord) : bool :=
  bool_decide (column rec "app" = Some app) && bool_decide (column rec "version" = Some version).
Definition by_instance_app_version (k : mat_key) (rec : idbRecord) : bool :=
  bool_decide (key_of rec = Some k).

(** The key a caller names. *)
Definition trimmed_key (instanceID app version : string) : mat_key :=
  (TrimSpace instanceID, TrimSpace app, TrimSpace version).
Definition incomplete (k : mat_key) : bool :=
  bool_decide (k.1.1 = "") || bool_decide (k.1.2 = "") || bool_decide (k.2 = "").

(** ** Times *)

Definition normalizedMaterializationTime (now value : time) : time :=
  Truncate (if IsZero value then now else value) Millisecond.

Definition acknowledgedAtForRollout (now requested rolloutCreatedAt : time) : time :=
  let acknowledgedAt := normalizedMaterializationTime now requested in
  if IsZero rolloutCreatedAt || negb (Before acknowledgedAt rolloutCreatedAt)
  then acknowledgedAt
  else Truncate rolloutCreatedAt Millisecond.

(** ** Edits of a row *)

(** What [acknowledge] stores over progress that an earlier rollout left. *)
Definition resetRow (rec : idbRecord) (sourceVersion : string) (acknowledgedAt : time) : idbRecord :=
  let rec := if decide (sourceVersion = "") then rec
             else <["source_version" := AString sourceVersion]> rec in
  let rec := <["acknowledged_at" := ATime acknowledgedAt]> rec in
  let rec := delete "restarted_at" (delete "stopped_at" (delete "materialized_at" rec)) in
  let rec := <["attempt_count" := AInt 0 0]> rec in
  delete "last_error_message" (delete "last_error_at" rec).

Definition newRow (newID : string) (k : mat_key) (sourceVersion : string) (acknowledgedAt : time)
    : idbRecord :=
  <["id" := AString newID]> (<["instance_id" := AString k.1.1]>
  (<["source_version" := AString sourceVersion]> (<["app" := AString k.1.2]>
  (<["version" := AString k.2]> (<["acknowledged_at" := ATime acknowledgedAt]>
  (<["attempt_count" := AInt 0 0]> ∅)))))).

Definition failedRow (rec : idbRecord) (now failedAt : time) (message : string) : idbRecord :=
  let rec := <["attempt_count" := AInt 0 (recordInt rec "attempt_count" + 1)]> rec in
  let rec := <["last_error_at" := ATime (normalizedMaterializationTime now failedAt)]> rec in
  <["last_error_message" := AString (TrimSpace message)]> rec.

Section service.
  Context `{TP : TimeParser} {W : Type} `{OS : ObjectStore W}.
  Local Abbreviation M A := (prog (Env W) A).

(** [Add] on a store whose unique index already has the key of the row. *)
Definition add_unique (rec : idbRecord) (w : W) : result DBError unit * W :=
  match key_of rec with
  | Some k => if decide (select (by_instance_app_version k) w = []) then add_row rec w
              else (Err ErrAlreadyExists, w)
  | None => add_row rec w
  end.
Definition AddUnique (rec : idbRecord) : M (result DBError unit) := atomic (fallible (add_unique rec)).

Definition findByInstanceAppVersion (instanceID app version : string)
    : M (result MaterializationError idbRecord) :=
  let k := trimmed_key instanceID app version in
  if incomplete k then mret (Err ErrKeyRequired) else
  recs ← IndexGetAll (by_instance_app_version k);
  mret (match recs with
        | Err e => Err (ErrStore e)
        | Ok [] => Err (ErrStore ErrNotFound)
        | Ok (rec :: _) => Ok rec
        end).

Definition HasAcknowledged (configured : bool) (instanceID app version : string)
    : M (result MaterializationError bool) :=
  if negb configured then mret (Err ErrNotConfigured) else
  found ← findByInstanceAppVersion instanceID app version;
  mret (match found with
        | Err (ErrStore ErrNotFound) => Ok false
        | Err e => Err e
        | Ok _ => Ok true
        end).

Definition GetMaterialization (configured : bool) (instanceID app version : string)
    : M (result MaterializationError AppInstanceMaterialization) :=
  if negb configured then mret (Err ErrNotConfigured) else
  found ← findByInstanceAppVersion instanceID app version;
  mret (let! rec := found in Ok (recordToAppInstanceMaterialization rec)).

Definition listed (recs : result DBError (list idbRecord))
    : result MaterializationError (list AppInstanceMaterialization) :=
  match recs with
  | Err e => Err (ErrStore e)
  | Ok recs => Ok (map recordToAppInstanceMaterialization recs)
  end.

Definition ListByInstance (configured : bool) (instanceID : string)
    : M (result MaterializationError (list AppInstanceMaterialization)) :=
  if negb configured then mret (Err ErrNotConfigured) else
  let instanceID := TrimSpace instanceID in
  if decide (instanceID = "") then mret (Err ErrInstanceRequired) else
  recs ← IndexGetAll (by_instance instanceID); mret (listed recs).

Definition ListByAppVersion (configured : bool) (app version : string)
    : M (result MaterializationError (list AppInstanceMaterialization)) :=
  if negb configured then mret (Err ErrNotConfigured) else
  let app := TrimSpace app in
  let version := TrimSpace version in
  if bool_decide (app = "") || bool_decide (version = "")
  then mret (Err ErrAppAndVersionRequired) else
  recs ← IndexGetAll (by_app_version app version); mret (listed recs).

(** Store the row and answer with what it holds. *)
Definition putAndReturn (rec : idbRecord) (m : AppInstanceMaterialization)
    : M (result MaterializationError AppInstanceMaterialization) :=
  p ← Put rec;
  mret (match p with Ok _ => Ok m | Err e => Err (ErrStore e) end).

(** [acknowledge] when the row exists. *)
Definition reacknowledge (now : time) (existing : idbRecord) (sourceVersion : string)
    (requested rolloutCreatedAt : time) : M (result MaterializationError AppInstanceMaterialization) :=
  let sourceVersionAdded :=
    bool_decide (mt_SourceVersion (recordToAppInstanceMaterialization existing) = "")
    && bool_decide (sourceVersion ≠ "") in
  let existing := if sourceVersionAdded then <["source_version" := AString sourceVersion]> existing
                  else existing in
  let current := recordToAppInstanceMaterialization existing in
  if IsZero rolloutCreatedAt || negb (Before (mt_AcknowledgedAt current) rolloutCreatedAt) then
    if sourceVersionAdded then putAndReturn existing current else mret (Ok current)
  else
    let existing := resetRow existing sourceVersion
                      (acknowledgedAtForRollout now requested rolloutCreatedAt) in
    putAndReturn existing (recordToAppInstanceMaterialization existing).

Definition acknowledge (configured : bool) (now : time) (newID : string)
    (materialization : option AppInstanceMaterialization) (rolloutCreatedAt : time)
    : M (result MaterializationError AppInstanceMaterialization) :=
  if negb configured then mret (Err ErrNotConfigured) else
  match materialization with
  | None => mret (Err ErrRecordRequired)
  | Some m =>
      let sourceVersion := TrimSpace (mt_SourceVersion m) in
      let k := trimmed_key (mt_InstanceID m) (mt_App m) (mt_Version m) in
      if incomplete k then mret (Err ErrKeyRequired) else
      found ← findByInstanceAppVersion k.1.1 k.1.2 k.2;
      match found with
      | Ok existing => reacknowledge now existing sourceVersion (mt_AcknowledgedAt m) rolloutCreatedAt
      | Err (ErrStore ErrNotFound) =>
          let rec := newRow newID k sourceVersion
                       (acknowledgedAtForRollout now (mt_AcknowledgedAt m) rolloutCreatedAt) in
          a ← AddUnique rec;
          match a with
          | Ok _ => mret (Ok (recordToAppInstanceMaterialization rec))
          | Err ErrAlreadyExists =>
              existing ← findByInstanceAppVersion k.1.1 k.1.2 k.2;
              mret (let! existing := existing in Ok (recordToAppInstanceMaterialization existing))
          | Err e => mret (Err (ErrStore e))
          end
      | Err e => mret (Err e)
      end
  end.

Definition Acknowledge configured now newID materialization :=
  acknowledge configured now newID materialization zero_time.
Definition AcknowledgeForRollout configured now newID materialization (rolloutCreatedAt : time) :=
  acknowledge configured now newID materialization (Truncate rolloutCreatedAt Millisecond).

Definition updateTimestamps (configured : bool) (instanceID app version : string)
    (mutate : idbRecord → idbRecord) : M (result MaterializationError AppInstanceMaterialization) :=
  if negb configured then mret (Err ErrNotConfigured) else
  found ← findByInstanceAppVersion instanceID app version;
  match found with
  | Err e => mret (Err e)
  | Ok rec => putAndReturn (mutate rec) (recordToAppInstanceMaterialization (mutate rec))
  end.

(** The closures of the three methods below. *)
Definition stamp (key : string) (now value : time) (rec : idbRecord) : idbRecord :=
  <[key := ATime (normalizedMaterializationTime now value)]> rec.

Definition MarkMaterialized configured now instanceID app version (materializedAt : time) :=
  updateTimestamps configured instanceID app version (stamp "materialized_at" now materializedAt).
Definition MarkStopped configured now instanceID app version (stoppedAt : time) :=
  updateTimestamps configured instanceID app version (stamp "stopped_at" now stoppedAt).
Definition MarkRestarted configured now instanceID app version (restartedAt : time) :=
  updateTimestamps configured instanceID app version (stamp "restarted_at" now restartedAt).

Definition RecordFailure (configured : bool) (now : time) (instanceID app version : string)
    (failedAt : time) (message : string)
    : M (result MaterializationError AppInstanceMaterialization) :=
  if negb configured then mret (Err ErrNotConfigured) else
  t ← Transaction (
    recs ← IndexGetAll (by_instance_app_version (trimmed_key instanceID app version));
    match recs with
    | Err e => mret (Err (ErrStore e), false)
    | Ok [] => mret (Err (ErrStore ErrNotFound), false)
    | Ok (rec :: _) =>
        let rec := failedRow rec now failedAt message in
        p ← Put rec;
        match p with
        | Err e => mret (Err (ErrStore e), false)
        | Ok _ =>
            c ← Commit;
            mret (match c with
                  | Ok _ => (Ok (recordToAppInstanceMaterialization rec), true)
                  | Err e => (Err (ErrStore e), false)
                  end)
        end
    end);
  mret (match t with Ok r => r | Err e => Err (ErrStore e) end).
End service.

(** ** What the edits do to the fields *)

Definition set_source (m : AppInstanceMaterialization) (source : string) : AppInstanceMaterialization :=
  {| mt_InstanceID := mt_InstanceID m; mt_SourceVersion := source; mt_App := mt_App m;
     mt_Version := mt_Version m; mt_AcknowledgedAt := mt_AcknowledgedAt m;
     mt_MaterializedAt := mt_MaterializedAt m; mt_StoppedAt := mt_StoppedAt m;
     mt_RestartedAt := mt_RestartedAt m; mt_AttemptCount := mt_AttemptCount m;
     mt_LastErrorAt := mt_LastErrorAt m; mt_LastErrorMessage := mt_LastErrorMessage m |}.

(** A row on which nothing but the acknowledgement has happened. *)
Definition fresh (k : mat_key) (source : string) (acknowledgedAt : time) : AppInstanceMaterialization :=
  {| mt_InstanceID := k.1.1; mt_SourceVersion := source; mt_App := k.1.2; mt_Version := k.2;
     mt_AcknowledgedAt := acknowledgedAt; mt_MaterializedAt := zero_time;
     mt_StoppedAt := zero_time; mt_RestartedAt := zero_time; mt_AttemptCount := 0;
     mt_LastErrorAt := zero_time; mt_LastErrorMessage := "" |}.

Definition set_failure (m : AppInstanceMaterialization) (failedAt : time) (message : string)
    : AppInstanceMaterialization :=
  {| mt_InstanceID := mt_InstanceID m; mt_SourceVersion := mt_SourceVersion m; mt_App := mt_App m;
     mt_Version := mt_Version m; mt_AcknowledgedAt := mt_AcknowledgedAt m;
     mt_MaterializedAt := mt_MaterializedAt m; mt_StoppedAt := mt_StoppedAt m;
     mt_RestartedAt := mt_RestartedAt m; mt_AttemptCount := mt_AttemptCount m + 1;
     mt_LastErrorAt := failedAt; mt_LastErrorMessage := message |}.

(** The progress columns. *)
Inductive mark := Materialized | Stopped | Restarted.
Definition mark_column (k : mark) : string :=
  match k with
  | Materialized => "materialized_at" | Stopped => "stopped_at" | Restarted => "restarted_at"
  end.
Definition set_mark (k : mark) (m : AppInstanceMaterialization) (t : time) : AppInstanceMaterialization :=
  {| mt_InstanceID := mt_InstanceID m; mt_SourceVersion := mt_SourceVersion m; mt_App := mt_App m;
     mt_Version := mt_Version m; mt_AcknowledgedAt := mt_AcknowledgedAt m;
     mt_MaterializedAt := match k with Materialized => t | _ => mt_MaterializedAt m end;
     mt_StoppedAt := match k with Stopped => t | _ => mt_StoppedAt m end;
     mt_RestartedAt := match k with Restarted => t | _ => mt_RestartedAt m end;
     mt_AttemptCount := mt_AttemptCount m; mt_LastErrorAt := mt_LastErrorAt m;
     mt_LastErrorMessage := mt_LastErrorMessage m |}.

Definition mark_time (k : mark) (m : AppInstanceMaterialization) : time :=
  match k with Materialized => mt_MaterializedAt m | Stopped => mt_StoppedAt m | Restarted => mt_RestartedAt m end.

(** Look through the edits of a row. *)
Ltac row_lookups :=
  repeat first [case_decide | rewrite lookup_insert_eq | rewrite lookup_insert_ne by done
               | rewrite lookup_delete_eq | rewrite lookup_delete_ne by done].

(** Solve an equation between the readings of an edited row. *)
Ltac edited_row :=
  unfold recordToAppInstanceMaterialization, recString, recTime, recordInt; cbn; f_equal;
  row_lookups; done.

Section edits.
  Context `{TP : TimeParser}.

Lemma read_source rec source :
  recordToAppInstanceMaterialization (<["source_version" := AString source]> rec)
  = set_source (recordToAppInstanceMaterialization rec) source.
Proof. edited_row. Qed.

Lemma read_stamp k now t rec :
  recordToAppInstanceMaterialization (stamp (mark_column k) now t rec)
  = set_mark k (recordToAppInstanceMaterialization rec) (normalizedMaterializationTime now t).
Proof. unfold stamp. destruct k; edited_row. Qed.

Lemma read_failed rec now t message :
  recordToAppInstanceMaterialization (failedRow rec now t message)
  = set_failure (recordToAppInstanceMaterialization rec) (normalizedMaterializationTime now t)
      (TrimSpace message).
Proof. unfold failedRow. edited_row. Qed.

Lemma read_new newID k source t :
  recordToAppInstanceMaterialization (newRow newID k source t) = fresh k source t.
Proof. unfold newRow. edited_row. Qed.

Lemma read_columns rec k :
  key_of rec = Some k →
  mt_InstanceID (recordToAppInstanceMaterialization rec) = k.1.1 ∧
  mt_App (recordToAppInstanceMaterialization rec) = k.1.2 ∧
  mt_Version (recordToAppInstanceMaterialization rec) = k.2.
Proof.
  unfold key_of, column, recordToAppInstanceMaterialization, recString. cbn.
  destruct (rec !! "instance_id") as [[]|]; cbn; try done.
  destruct (rec !! "app") as [[]|]; cbn; try done.
  destruct (rec !! "version") as [[]|]; cbn; try done. by intros [= <-].
Qed.

Lemma read_reset rec k source t :
  key_of rec = Some k →
  recordToAppInstanceMaterialization (resetRow rec source t)
  = fresh k (if decide (source = "") then mt_SourceVersion (recordToAppInstanceMaterialization rec)
             else source) t.
Proof.
  intros (H1 & H2 & H3)%read_columns. unfold fresh. rewrite <-H1, <-H2, <-H3.
  unfold resetRow. edited_row.
Qed.
End edits.

(** An edit that keeps the identifier and the key of the row. *)
Definition same_place (rec rec' : idbRecord) : Prop :=
  record_id rec' = record_id rec ∧ key_of rec' = key_of rec.

Ltac same_place_tac :=
  unfold same_place, record_id, recString, key_of, column; row_lookups; done.

Lemma same_place_source rec source : same_place rec (<["source_version" := AString source]> rec).
Proof. same_place_tac. Qed.
Lemma same_place_stamp k now t rec : same_place rec (stamp (mark_column k) now t rec).
Proof. unfold stamp. destruct k; same_place_tac. Qed.
Lemma same_place_failed rec now t message : same_place rec (failedRow rec now t message).
Proof. unfold failedRow. same_place_tac. Qed.
Lemma same_place_reset rec source t : same_place rec (resetRow rec source t).
Proof. unfold resetRow. same_place_tac. Qed.
Lemma same_place_trans r1 r2 r3 : same_place r1 r2 → same_place r2 r3 → same_place r1 r3.
Proof. unfold same_place. intuition congruence. Qed.

Lemma and_iff_compat_l_strong (P Q R : Prop) : (P → Q ↔ R) → (P ∧ Q) ↔ (P ∧ R).
Proof. tauto. Qed.

(** ** The abstract state

    The materialization of each instance, app and version. *)

Section stores.
  Context `{TP : TimeParser} {W : Type} `{OS : ObjectStore W}.
  Local Abbreviation M A := (prog (Env W) A).

(** Rows are where their identifier says and have a key, of their own. *)
Definition wf_mats (w : W) : Prop :=
  (∀ id rec, rows w !! id = Some rec → record_id rec = id ∧ is_Some (key_of rec)) ∧
  (∀ id1 id2 r1 r2 k, rows w !! id1 = Some r1 → rows w !! id2 = Some r2 →
     key_of r1 = Some k → key_of r2 = Some k → id1 = id2).

Definition row_of (w : W) (k : mat_key) : option idbRecord :=
  head (select (by_instance_app_version k) w).
Definition stored (w : W) (k : mat_key) : option AppInstanceMaterialization :=
  recordToAppInstanceMaterialization <$> row_of w k.

Lemma elem_of_select_key w k rec :
  rec ∈ select (by_instance_app_version k) w ↔ key_of rec = Some k ∧ ∃ id, rows w !! id = Some rec.
Proof. rewrite elem_of_select. unfold by_instance_app_version. by rewrite bool_decide_eq_true. Qed.

Lemma row_of_Some w k rec :
  wf_mats w →
  row_of w k = Some rec ↔ key_of rec = Some k ∧ rows w !! record_id rec = Some rec.
Proof.
  intros [Hid Hk]. unfold row_of.
  assert (Hall : ∀ r, r ∈ select (by_instance_app_version k) w ↔
                      key_of r = Some k ∧ rows w !! record_id r = Some r).
  { intros r. rewrite elem_of_select_key. split; [|intros [? ?]; eauto].
    intros (Hr & id & Hrow). by rewrite (proj1 (Hid _ _ Hrow)). }
  rewrite <-Hall. destruct (select _ w) as [|r rs].
  - split; [done|]. by intros ?%not_elem_of_nil.
  - cbn. split; [intros [= ->]; apply list_elem_of_here|].
    intros [H1 H2]%Hall. destruct (proj1 (Hall r) (list_elem_of_here _ _)) as [H3 H4].
    rewrite (Hk _ _ _ _ _ H2 H4 H1 H3) in H2. congruence.
Qed.

Lemma row_of_None w k :
  row_of w k = None ↔ select (by_instance_app_version k) w = [].
Proof. unfold row_of. by destruct (select _ w). Qed.

(** What a listing by app and version shows. *)
Lemma elem_of_listed w app version m :
  wf_mats w →
  m ∈ map recordToAppInstanceMaterialization (select (by_app_version app version) w)
  ↔ ∃ instance, stored w (instance, app, version) = Some m.
Proof.
  intros Hwf. rewrite list_elem_of_fmap. unfold stored. setoid_rewrite fmap_Some. split.
  - intros (rec & -> & [Hp [id Hr]]%elem_of_select). destruct Hwf as [Hid Hk] eqn:E.
    destruct (Hid _ _ Hr) as [<- [[[i a] v] Hkey]]. exists i, rec. split; [|done].
    apply row_of_Some; [done|]. split; [|done]. rewrite Hkey. unfold by_app_version in Hp.
    revert Hp Hkey. unfold key_of.
    destruct (column rec "instance_id"), (column rec "app"), (column rec "version"); cbn; try done.
    intros Hp [= <- <- <-]. bool_props. congruence.
  - intros (i & rec & [Hkey Hr]%row_of_Some & ->); [|done]. exists rec. split; [done|].
    apply elem_of_select. split; [|eauto]. revert Hkey. unfold key_of, by_app_version.
    destruct (column rec "instance_id"), (column rec "app"), (column rec "version"); cbn; try done.
    intros [= -> -> ->]. by rewrite !bool_decide_eq_true_2.
Qed.

(** What a listing by instance shows. *)
Lemma elem_of_listed_instance w instance m :
  wf_mats w →
  m ∈ map recordToAppInstanceMaterialization (select (by_instance instance) w)
  ↔ ∃ k, k.1.1 = instance ∧ stored w k = Some m.
Proof.
  intros Hwf. rewrite list_elem_of_fmap. unfold stored. setoid_rewrite fmap_Some. split.
  - intros (rec & -> & [Hp [id Hr]]%elem_of_select).
    destruct (proj1 Hwf _ _ Hr) as [<- [k Hkey]]. exists k. split.
    + unfold by_instance in Hp. bool_props. revert Hkey. unfold key_of. rewrite Hp.
      destruct (column rec "app"), (column rec "version"); cbn; try done. by intros [= <-].
    + exists rec. split; [|done]. by apply row_of_Some.
  - intros (k & <- & rec & [Hkey Hr]%row_of_Some & ->); [|done]. exists rec. split; [done|].
    apply elem_of_select. split; [|eauto]. revert Hkey. unfold key_of, by_instance.
    destruct (column rec "instance_id"), (column rec "app"), (column rec "version"); cbn; try done.
    intros [= <-]. by rewrite bool_decide_eq_true_2.
Qed.

(** A listing shows a row once. *)
Lemma listed_once w p :
  wf_mats w → NoDup (map recordToAppInstanceMaterialization (select p w)).
Proof.
  intros [Hid Hk]. apply NoDup_fmap_2_strong.
  - intros x y [_ [id1 H1]]%elem_of_select [_ [id2 H2]]%elem_of_select Heq.
    destruct (Hid _ _ H1) as [_ [k1 Hk1]], (Hid _ _ H2) as [_ [k2 Hk2]].
    destruct (read_columns x k1 Hk1) as (E1 & E2 & E3), (read_columns y k2 Hk2) as (F1 & F2 & F3).
    rewrite Heq in E1, E2, E3. assert (k1 = k2) as <-.
    { destruct k1 as [[]], k2 as [[]]. cbn in *. congruence. }
    rewrite (Hk _ _ _ _ _ H1 H2 Hk1 Hk2) in H1. congruence.
  - unfold select. apply NoDup_filter. apply (NoDup_fmap_1 record_id).
    apply NoDup_sorted_rows. intros id rec Hr. by apply Hid.
Qed.

Lemma stored_key w k m :
  wf_mats w → stored w k = Some m →
  mt_InstanceID m = k.1.1 ∧ mt_App m = k.1.2 ∧ mt_Version m = k.2.
Proof.
  unfold stored. intros Hwf. destruct (row_of w k) as [rec|] eqn:E; [|done].
  intros [= <-]. apply read_columns, (row_of_Some w k rec); done.
Qed.

(** Writing an edited row over the row of [k]. *)
Lemma put_in_place w k rec rec' :
  wf_mats w → row_of w k = Some rec → same_place rec rec' →
  let w' := with_rows (<[record_id rec' := rec']> (rows w)) w in
  wf_mats w' ∧
  ∀ k', stored w' k' = if decide (k' = k) then Some (recordToAppInstanceMaterialization rec')
                       else stored w k'.
Proof.
  intros Hwf Hrow [Hid' Hkey'] w'.
  pose proof (proj1 (row_of_Some w k rec Hwf) Hrow) as [Hk Hr]. rewrite Hk in Hkey'.
  assert (Hwf' : wf_mats w').
  { destruct Hwf as [Hid Huniq]. unfold w'. split; rewrite rows_with.
    - intros id r. destruct (decide (id = record_id rec')) as [->|Hne].
      + rewrite lookup_insert_eq. intros [= <-]. eauto.
      + rewrite lookup_insert_ne by done. apply Hid.
    - intros id1 id2 r1 r2 k' H1 H2 Hk1 Hk2. rewrite Hid' in H1, H2.
      destruct (decide (id1 = record_id rec)) as [->|N1], (decide (id2 = record_id rec)) as [->|N2];
        rewrite ?lookup_insert_eq, ?lookup_insert_ne in H1 by done;
        rewrite ?lookup_insert_eq, ?lookup_insert_ne in H2 by done; [done| | |].
      + injection H1 as <-. apply (Huniq _ _ rec r2 k); [done|done|done|congruence].
      + injection H2 as <-. apply (Huniq _ _ r1 rec k); [done|done|congruence|done].
      + by eapply Huniq. }
  split; [done|]. intros k'. unfold stored. case_decide as Hkk.
  - subst. replace (row_of w' k) with (Some rec'); [done|]. symmetry.
    apply row_of_Some; [done|]. split; [done|]. unfold w'. by rewrite rows_with, lookup_insert_eq.
  - f_equal. apply option_eq. intros r. rewrite !row_of_Some by done. unfold w'. rewrite rows_with.
    apply and_iff_compat_l_strong. intros Hkr.
    destruct (decide (record_id r = record_id rec')) as [E|Hne]; [|by rewrite lookup_insert_ne].
    rewrite E, lookup_insert_eq, Hid', Hr. split; intros [= ->]; congruence.
Qed.

(** Adding a row with a new identifier and a new key. *)
Lemma add_new w k rec :
  wf_mats w → row_of w k = None → key_of rec = Some k → rows w !! record_id rec = None →
  let w' := with_rows (<[record_id rec := rec]> (rows w)) w in
  wf_mats w' ∧
  ∀ k', stored w' k' = if decide (k' = k) then Some (recordToAppInstanceMaterialization rec)
                       else stored w k'.
Proof.
  intros Hwf Hrow Hk Hnew w'.
  assert (Hno : ∀ id r, rows w !! id = Some r → key_of r ≠ Some k).
  { intros id r Hr Hkr. apply row_of_None in Hrow.
    assert (r ∈ select (by_instance_app_version k) w) as Hin by (apply elem_of_select_key; eauto).
    rewrite Hrow in Hin. by apply not_elem_of_nil in Hin. }
  assert (Hwf' : wf_mats w').
  { destruct Hwf as [Hid Huniq]. unfold w'. split; rewrite rows_with.
    - intros id r. destruct (decide (id = record_id rec)) as [->|Hne].
      + rewrite lookup_insert_eq. intros [= <-]. eauto.
      + rewrite lookup_insert_ne by done. apply Hid.
    - intros id1 id2 r1 r2 k' H1 H2 Hk1 Hk2.
      destruct (decide (id1 = record_id rec)) as [->|N1], (decide (id2 = record_id rec)) as [->|N2];
        rewrite ?lookup_insert_eq, ?lookup_insert_ne in H1 by done;
        rewrite ?lookup_insert_eq, ?lookup_insert_ne in H2 by done; [done| | |].
      + injection H1 as <-. destruct (Hno _ _ H2). congruence.
      + injection H2 as <-. destruct (Hno _ _ H1). congruence.
      + by eapply Huniq. }
  split; [done|]. intros k'. unfold stored. case_decide as Hkk.
  - subst. replace (row_of w' k) with (Some rec); [done|]. symmetry.
    apply row_of_Some; [done|]. split; [done|]. unfold w'. by rewrite rows_with, lookup_insert_eq.
  - f_equal. apply option_eq. intros r. rewrite !row_of_Some by done. unfold w'. rewrite rows_with.
    apply and_iff_compat_l_strong. intros Hkr.
    destruct (decide (record_id r = record_id rec)) as [E|Hne]; [|by rewrite lookup_insert_ne].
    rewrite E, lookup_insert_eq, Hnew. split; [intros [= ->]; congruence|done].
Qed.

(** ** What the methods promise

    A specification maps the materialization stored for a key to the answer and to what is
    stored next. *)

Abbreviation spec A := (option AppInstanceMaterialization →
                        result MaterializationError A * option AppInstanceMaterialization)%type.

(** What running a method may end with: the answer and the store that [f] says, or a failed
    call and an unchanged store. *)
Definition outcome {A} (k : mat_key) (f : spec A) (env : Env W)
    (r : result MaterializationError A) (env' : Env W) : Prop :=
  (benign env → benign env') ∧
  ((¬ benign env ∧ r = Err (ErrStore ErrIO) ∧ contents env' = contents env) ∨
   (r = (f (stored (contents env) k)).1 ∧ wf_mats (contents env') ∧
    ∀ k', stored (contents env') k' = if decide (k' = k) then (f (stored (contents env) k)).2
                                      else stored (contents env) k')).

(** [m] implements [f] on the key [k]. *)
Definition implements {A} (m : M (result MaterializationError A)) (k : mat_key) (f : spec A)
    (env : Env W) : Prop := wp m (outcome k f env) env.

Definition spec_get : spec AppInstanceMaterialization := λ st,
  (match st with Some m => Ok m | None => Err (ErrStore ErrNotFound) end, st).

Definition spec_has : spec bool := λ st, (Ok (bool_decide (is_Some st)), st).

Definition spec_edit (f : AppInstanceMaterialization → AppInstanceMaterialization)
    : spec AppInstanceMaterialization := λ st,
  match st with
  | Some m => (Ok (f m), Some (f m))
  | None => (Err (ErrStore ErrNotFound), None)
  end.

(** An acknowledgement fills in a missing source version, and starts afresh where there is no
    row or the row was acknowledged before the rollout. *)
Definition spec_acknowledge (now : time) (k : mat_key) (source : string)
    (requested rolloutCreatedAt : time) : spec AppInstanceMaterialization := λ st,
  let started := fresh k source (acknowledgedAtForRollout now requested rolloutCreatedAt) in
  let answer m := (Ok m, Some m) in
  match st with
  | None => answer started
  | Some m =>
      if IsZero rolloutCreatedAt || negb (Before (mt_AcknowledgedAt m) rolloutCreatedAt)
      then answer (if decide (mt_SourceVersion m = "") then set_source m source else m)
      else answer (if decide (source = "") then set_source started (mt_SourceVersion m) else started)
  end.

Lemma set_source_same m source : mt_SourceVersion m = source → set_source m source = m.
Proof. intros <-. by destruct m. Qed.

Lemma outcome_io {A} k (f : spec A) env env' :
  ¬ benign env → contents env' = contents env → outcome k f env (Err (ErrStore ErrIO)) env'.
Proof. intros Hb Hc. split; [done|]. by left. Qed.

Lemma outcome_same {A} k (f : spec A) env env' r :
  wf_mats (contents env) → (benign env → benign env') → contents env' = contents env →
  f (stored (contents env) k) = (r, stored (contents env) k) → outcome k f env r env'.
Proof.
  intros Hwf Hb Hc Hf. split; [done|]. right. rewrite Hf, Hc. split_and!; [done..|].
  intros k'. by case_decide; subst.
Qed.

Lemma outcome_put k rec rec' (f : spec AppInstanceMaterialization) env env' :
  wf_mats (contents env) → (benign env → benign env') → row_of (contents env) k = Some rec →
  same_place rec rec' →
  f (Some (recordToAppInstanceMaterialization rec))
  = (Ok (recordToAppInstanceMaterialization rec'), Some (recordToAppInstanceMaterialization rec')) →
  contents env' = with_rows (<[record_id rec' := rec']> (rows (contents env))) (contents env) →
  outcome k f env (Ok (recordToAppInstanceMaterialization rec')) env'.
Proof.
  intros Hwf Hb Hrow Hp Hf Hc. split; [done|]. right. unfold stored at 1 3. rewrite Hrow. cbn.
  rewrite Hf, Hc. split; [done|]. by apply (put_in_place _ k rec rec').
Qed.

(** Looking a row up. *)
Lemma wp_find instanceID app version Q (env : Env W) :
  incomplete (trimmed_key instanceID app version) = false →
  (∀ env', ¬ benign env → contents env' = contents env → Q (Err (ErrStore ErrIO)) env') →
  (∀ env', (benign env → benign env') → contents env' = contents env →
     Q (match row_of (contents env) (trimmed_key instanceID app version) with
        | Some rec => Ok rec | None => Err (ErrStore ErrNotFound) end) env') →
  wp (findByInstanceAppVersion instanceID app version) Q env.
Proof.
  intros Hk Hio Hok. unfold findByInstanceAppVersion. rewrite Hk. do 2 wp_step.
  - intros env' Hb Hc. wp_step. by apply Hio.
  - intros env' Hb Hc. wp_step. specialize (Hok env' Hb Hc). revert Hok. unfold row_of.
    by destruct (select _ _).
Qed.

(** Storing an edited row. *)
Lemma wp_putAndReturn k rec rec' (f : spec AppInstanceMaterialization) (env env0 : Env W) :
  wf_mats (contents env) → contents env0 = contents env → (benign env → benign env0) →
  row_of (contents env) k = Some rec → same_place rec rec' →
  f (Some (recordToAppInstanceMaterialization rec))
  = (Ok (recordToAppInstanceMaterialization rec'), Some (recordToAppInstanceMaterialization rec')) →
  wp (putAndReturn rec' (recordToAppInstanceMaterialization rec')) (outcome k f env) env0.
Proof.
  intros Hwf Hc Hb Hrow Hp Hf. unfold putAndReturn. do 2 wp_step; intros env' Hb' Hc'; wp_step.
  - apply outcome_io; [tauto|congruence].
  - eapply outcome_put; try done; [tauto|]. congruence.
Qed.

Lemma GetMaterialization_implements instanceID app version (env : Env W) :
  wf_mats (contents env) → incomplete (trimmed_key instanceID app version) = false →
  implements (GetMaterialization true instanceID app version) (trimmed_key instanceID app version)
    spec_get env.
Proof.
  intros Hwf Hk. unfold implements, GetMaterialization. cbn [negb]. wp_step. apply wp_find; [done| |];
    intros env' Hb Hc; wp_step.
  - by apply outcome_io.
  - apply outcome_same; [done..|]. unfold stored. by destruct (row_of _ _).
Qed.

Lemma HasAcknowledged_implements instanceID app version (env : Env W) :
  wf_mats (contents env) → incomplete (trimmed_key instanceID app version) = false →
  implements (HasAcknowledged true instanceID app version) (trimmed_key instanceID app version)
    spec_has env.
Proof.
  intros Hwf Hk. unfold implements, HasAcknowledged. cbn [negb]. wp_step. apply wp_find; [done| |];
    intros env' Hb Hc; wp_step.
  - by apply outcome_io.
  - apply outcome_same; [done..|]. unfold spec_has, stored. by destruct (row_of _ _).
Qed.

(** A listing answers with the materializations of the keys [shown], each once, or reports
    a failed call; it changes nothing. *)
Definition lists (m : M (result MaterializationError (list AppInstanceMaterialization)))
    (shown : mat_key → Prop) (env : Env W) : Prop :=
  wp m (λ r env', (benign env → benign env') ∧ contents env' = contents env ∧
    ((¬ benign env ∧ r = Err (ErrStore ErrIO)) ∨
     ∃ ms, r = Ok ms ∧ NoDup ms ∧
       ∀ m, m ∈ ms ↔ ∃ k, shown k ∧ stored (contents env) k = Some m)) env.

Lemma wp_listing p (shown : mat_key → Prop) (env : Env W) :
  wf_mats (contents env) →
  (∀ m, m ∈ map recordToAppInstanceMaterialization (select p (contents env))
        ↔ ∃ k, shown k ∧ stored (contents env) k = Some m) →
  lists (recs ← IndexGetAll p; mret (listed recs)) shown env.
Proof.
  intros Hwf Hp. unfold lists. do 2 wp_step; intros env' Hb Hc; wp_step.
  - split_and!; [tauto|done|]. left. by split; [tauto|].
  - split_and!; [tauto|done|]. right. eexists. split_and!; [done|by apply listed_once|exact Hp].
Qed.

Lemma ListByInstance_lists instanceID (env : Env W) :
  wf_mats (contents env) → TrimSpace instanceID ≠ "" →
  lists (ListByInstance true instanceID) (λ k, k.1.1 = TrimSpace instanceID) env.
Proof.
  intros Hwf Hi. unfold ListByInstance. cbn [negb]. rewrite decide_False by done.
  apply wp_listing; [done|]. intros m. by apply elem_of_listed_instance.
Qed.

Lemma ListByAppVersion_lists app version (env : Env W) :
  wf_mats (contents env) → TrimSpace app ≠ "" → TrimSpace version ≠ "" →
  lists (ListByAppVersion true app version)
        (λ k, k.1.2 = TrimSpace app ∧ k.2 = TrimSpace version) env.
Proof.
  intros Hwf Ha Hv. unfold ListByAppVersion. cbn [negb].
  rewrite !bool_decide_eq_false_2 by done. cbn [orb].
  apply wp_listing; [done|]. intros m. rewrite elem_of_listed by done. split.
  - intros [i Hs]. by exists (i, TrimSpace app, TrimSpace version).
  - intros ([[i a] v] & [H1 H2] & Hs). exists i. cbn in H1, H2. by subst.
Qed.

Lemma updateTimestamps_implements mutate f instanceID app version (env : Env W) :
  wf_mats (contents env) → incomplete (trimmed_key instanceID app version) = false →
  (∀ rec, same_place rec (mutate rec)) →
  (∀ rec, recordToAppInstanceMaterialization (mutate rec) = f (recordToAppInstanceMaterialization rec)) →
  implements (updateTimestamps true instanceID app version mutate)
    (trimmed_key instanceID app version) (spec_edit f) env.
Proof.
  intros Hwf Hk Hp Hf. unfold implements, updateTimestamps. cbn [negb]. wp_step. apply wp_find; [done| |];
    intros env' Hb Hc.
  - wp_step. by apply outcome_io.
  - destruct (row_of _ _) as [rec|] eqn:E.
    + eapply wp_putAndReturn; try done. cbn. by rewrite Hf.
    + wp_step. apply outcome_same; [done..|]. unfold stored. by rewrite E.
Qed.

Lemma mark_implements k now t instanceID app version (env : Env W) :
  wf_mats (contents env) → incomplete (trimmed_key instanceID app version) = false →
  implements (updateTimestamps true instanceID app version (stamp (mark_column k) now t))
    (trimmed_key instanceID app version)
    (spec_edit (λ m, set_mark k m (normalizedMaterializationTime now t))) env.
Proof.
  intros. apply updateTimestamps_implements; [done|done| |].
  - intros rec. apply same_place_stamp.
  - intros rec. apply read_stamp.
Qed.

Lemma RecordFailure_implements now instanceID app version failedAt message (env : Env W) :
  wf_mats (contents env) →
  implements (RecordFailure true now instanceID app version failedAt message)
    (trimmed_key instanceID app version)
    (spec_edit (λ m, set_failure m (normalizedMaterializationTime now failedAt) (TrimSpace message)))
    env.
Proof.
  intros Hwf. unfold implements, RecordFailure. cbn [negb]. wp_step. wp_step.
  { intros env' Hb Hc. wp_step. by apply outcome_io. }
  intros env0 Hb0 Hc0.
  assert (Hfail : ∀ (env1 : Env W), ¬ benign env →
    wp (mret (Err (ErrStore ErrIO), false) : M (result _ _ * bool)) (λ r env2, ∀ env3, (benign env2 → benign env3) →
      contents env3 = (if r.2 then contents env2 else contents env) →
      wp (mret r.1) (outcome (trimmed_key instanceID app version)
        (spec_edit (λ m, set_failure m (normalizedMaterializationTime now failedAt)
                           (TrimSpace message))) env) env3) env1).
  { intros env1 Hn. wp_step. intros env2 Hb2 Hc2. wp_step. by apply outcome_io. }
  do 2 wp_step; intros env1 Hb1 Hc1; [apply Hfail; tauto|].
  rewrite Hc0. destruct (select _ _) as [|rec rs] eqn:E.
  { wp_step. intros env2 Hb2 Hc2. wp_step. apply outcome_same; [done|tauto|done|].
    unfold stored, row_of. by rewrite E. }
  do 2 wp_step; intros env2 Hb2 Hc2; [apply Hfail; tauto|].
  do 2 wp_step; intros env3 Hb3 Hc3; [apply Hfail; tauto|].
  wp_step. intros env4 Hb4 Hc4. wp_step. eapply outcome_put.
  - done.
  - tauto.
  - unfold row_of. by rewrite E.
  - apply same_place_failed.
  - cbn. by rewrite read_failed.
  - cbn in Hc4. congruence.
Qed.

Lemma trimmed_key_idem instanceID app version :
  let k := trimmed_key instanceID app version in trimmed_key k.1.1 k.1.2 k.2 = k.
Proof. intros k. unfold k, trimmed_key. cbn [fst snd]. by rewrite !TrimSpace_idem. Qed.

Lemma key_of_new newID k source t : key_of (newRow newID k source t) = Some k.
Proof. by destruct k as [[i a] v]. Qed.

(** The row exists. *)
Lemma reacknowledge_implements now k source requested created rec (env env0 : Env W) :
  wf_mats (contents env) → contents env0 = contents env → (benign env → benign env0) →
  row_of (contents env) k = Some rec →
  wp (reacknowledge now rec source requested created)
     (outcome k (spec_acknowledge now k source requested created) env) env0.
Proof.
  intros Hwf Hc Hb Hrow. set (m := recordToAppInstanceMaterialization rec).
  assert (Hst : stored (contents env) k = Some m) by (unfold stored; by rewrite Hrow).
  assert (Hkey : key_of rec = Some k) by (by apply (row_of_Some _ _ _ Hwf)).
  unfold reacknowledge. fold m.
  destruct (bool_decide (mt_SourceVersion m = "") && bool_decide (source ≠ "")) eqn:Eadd; bool_props.
  - rename H into Hm, H0 into Hs.
    destruct (IsZero created || _) eqn:Etime; rewrite read_source in Etime;
      cbn [mt_AcknowledgedAt set_source] in Etime; fold m in Etime.
    + eapply wp_putAndReturn; [done..|apply same_place_source|]. fold m. cbn [spec_acknowledge]. rewrite Etime, decide_True, read_source by done. done.
    + eapply wp_putAndReturn; [done..| |].
      * eapply same_place_trans; [apply same_place_source|apply same_place_reset].
      * fold m. cbn [spec_acknowledge]. rewrite Etime, (decide_False (P := source = "")) by done.
        rewrite (read_reset _ k) by (rewrite <-Hkey; apply same_place_source).
        by rewrite decide_False.
  - fold m. destruct (IsZero created || _) eqn:Etime; fold m in Etime.
    + wp_step. apply outcome_same; [done..|]. rewrite Hst. cbn [spec_acknowledge]. rewrite Etime.
      case_decide as Hm; [|done]. apply andb_false_iff in Eadd as [E|E]; bool_props; [done|].
      destruct (decide (source = "")) as [->|]; [|tauto]. by rewrite set_source_same.
    + eapply wp_putAndReturn; [done..|apply same_place_reset|].
      fold m. cbn [spec_acknowledge]. rewrite Etime, (read_reset _ k) by done. fold m.
      by destruct (decide (source = "")).
Qed.

Lemma acknowledge_implements now newID m created (env : Env W) :
  let k := trimmed_key (mt_InstanceID m) (mt_App m) (mt_Version m) in
  wf_mats (contents env) → incomplete k = false → rows (contents env) !! newID = None →
  implements (acknowledge true now newID (Some m) created) k
    (spec_acknowledge now k (TrimSpace (mt_SourceVersion m)) (mt_AcknowledgedAt m) created) env.
Proof.
  intros k Hwf Hk Hnew. unfold implements, acknowledge. cbn [negb]. fold k. rewrite Hk.
  assert (Hkk : trimmed_key k.1.1 k.1.2 k.2 = k) by apply trimmed_key_idem.
  clearbody k. wp_step. apply wp_find; rewrite ?Hkk; [done| |]; intros env0 Hb0 Hc0.
  { wp_step. by apply outcome_io. }
  destruct (row_of _ _) as [rec|] eqn:Hrow; [by apply reacknowledge_implements|].
  wp_step. unfold AddUnique. apply wp_fallible; intros env1 Hb1 Hc1; rewrite Hc0 in *.
  { wp_step. apply outcome_io; [tauto|congruence]. }
  unfold add_unique in Hc1 |- *. rewrite key_of_new in *.
  rewrite decide_True in Hc1 |- * by (by apply row_of_None).
  assert (Hid : ∀ source t, record_id (newRow newID k source t) = newID) by done.
  unfold add_row in Hc1 |- *. rewrite Hid, Hnew in *. cbn [fst snd] in *. wp_step.
  rewrite read_new. split; [tauto|]. right. unfold stored at 1 3. rewrite Hrow. split; [done|].
  cbn [spec_acknowledge fmap option_fmap option_map snd].
  edestruct (add_new (contents env) k (newRow newID k (TrimSpace (mt_SourceVersion m))
    (acknowledgedAtForRollout now (mt_AcknowledgedAt m) created))) as [H1 H2];
    [done..|apply key_of_new|by rewrite Hid|].
  rewrite Hid, <-Hc1 in H1, H2. split; [done|]. intros k'. by rewrite H2, read_new.
Qed.

(** ** Which methods touch the marks

    [gentle_but x k]: no entry but that of [k] gets mark [x], or gets it at another time. *)
Definition gentle_but (x : mark) (k0 : mat_key → Prop) (w w' : W) : Prop :=
  wf_mats w' ∧
  ∀ k m', stored w' k = Some m' → mark_time x m' ≠ zero_time → k0 k ∨
    ∃ m, stored w k = Some m ∧ mark_time x m = mark_time x m'.
Abbreviation gentle x := (gentle_but x (λ _, False)).

Lemma gentle_same x k0 w w' : wf_mats w → w' = w → gentle_but x k0 w w'.
Proof. intros Hwf ->. split; [done|]. intros k m' Hm _. right. eauto. Qed.

(** Any implementation of a specification that leaves the mark of its own entry alone. *)
Lemma outcome_gentle {A} x (k0 : mat_key → Prop) k (f : spec A) env r env' :
  wf_mats (contents env) → outcome k f env r env' →
  (∀ st m', (f st).2 = Some m' → mark_time x m' ≠ zero_time → k0 k ∨
     ∃ m, st = Some m ∧ mark_time x m = mark_time x m') →
  gentle_but x k0 (contents env) (contents env').
Proof.
  intros Hwf [_ [(_ & _ & Hc)|(_ & Hwf' & Hst)]] Hf; [by apply gentle_same|]. split; [done|].
  intros k' m' Hm Hr. rewrite Hst in Hm. case_decide; [subst; by apply Hf|]. right. eauto.
Qed.

Lemma key_required instanceID app version mutate (env : Env W) :
  incomplete (trimmed_key instanceID app version) = true →
  run (GetMaterialization true instanceID app version) env = (Err ErrKeyRequired, env) ∧
  run (updateTimestamps true instanceID app version mutate) env = (Err ErrKeyRequired, env).
Proof.
  intros Hk. unfold GetMaterialization, updateTimestamps, findByInstanceAppVersion. cbn [negb].
  by rewrite !run_bind, Hk.
Qed.

Lemma mark_gentle x mk now t instanceID app version (env : Env W) :
  wf_mats (contents env) →
  wp (updateTimestamps true instanceID app version (stamp (mark_column mk) now t))
     (λ r env', gentle_but x (λ k, mk = x ∧ k = trimmed_key instanceID app version)
                  (contents env) (contents env')) env.
Proof.
  intros Hwf. destruct (incomplete (trimmed_key instanceID app version)) eqn:Hk.
  { unfold wp. rewrite (proj2 (key_required _ _ _ _ _ Hk)). by apply gentle_same. }
  eapply wp_mono; [by apply mark_implements|]. intros r env' Ho. eapply outcome_gentle; [done..|].
  intros [m|] m'; [|done]. intros [= <-] _. destruct x, mk; first [by left|right; by eauto].
Qed.

Lemma RecordFailure_gentle x now instanceID app version failedAt message (env : Env W) :
  wf_mats (contents env) →
  wp (RecordFailure true now instanceID app version failedAt message)
     (λ r env', gentle x (contents env) (contents env')) env.
Proof.
  intros Hwf. eapply wp_mono; [by apply RecordFailure_implements|]. intros r env' Ho.
  eapply outcome_gentle; [done..|]. intros [m|] m'; [|done]. intros [= <-] _. right. destruct x; by eauto.
Qed.

Lemma spec_acknowledge_gentle x now k source requested created st m' :
  (spec_acknowledge now k source requested created st).2 = Some m' →
  mark_time x m' ≠ zero_time → ∃ m, st = Some m ∧ mark_time x m = mark_time x m'.
Proof.
  unfold spec_acknowledge. destruct st as [m|]; [|intros [= <-]; by destruct x].
  destruct (_ || _); [|case_decide; intros [= <-]; by destruct x].
  intros [= <-] _. exists m. case_decide; by destruct x.
Qed.

Lemma acknowledge_gentle x now newID m created (env : Env W) :
  wf_mats (contents env) →
  wp (acknowledge true now newID (Some m) created) (λ r env', gentle x (contents env) (contents env')) env.
Proof.
  intros Hwf. set (k := trimmed_key (mt_InstanceID m) (mt_App m) (mt_Version m)).
  destruct (incomplete k) eqn:Hk.
  { unfold acknowledge. cbn [negb]. fold k. rewrite Hk. wp_step. by apply gentle_same. }
  destruct (rows (contents env) !! newID) as [other|] eqn:Hnew.
  2: { eapply wp_mono; [by apply acknowledge_implements|]. intros r env' Ho.
       eapply outcome_gentle; [done..|]. intros st m' H1 H2. right.
       by eapply spec_acknowledge_gentle. }
  unfold acknowledge. cbn [negb]. fold k. rewrite Hk.
  assert (Hkk : trimmed_key k.1.1 k.1.2 k.2 = k) by apply trimmed_key_idem.
  clearbody k. wp_step. apply wp_find; rewrite ?Hkk; [done| |]; intros env0 Hb0 Hc0.
  { wp_step. by apply gentle_same. }
  destruct (row_of _ _) as [rec|] eqn:Hrow.
  { eapply wp_mono; [by apply (reacknowledge_implements _ k _ _ _ _ env)|]. intros r env' Ho.
    eapply outcome_gentle; [done..|]. intros st m' H1 H2. right. by eapply spec_acknowledge_gentle. }
  wp_step. unfold AddUnique. apply wp_fallible; intros env1 Hb1 Hc1; rewrite Hc0 in *.
  { wp_step. by apply gentle_same. }
  unfold add_unique in Hc1 |- *. rewrite key_of_new in *.
  rewrite decide_True in Hc1 |- * by (by apply row_of_None).
  unfold add_row in Hc1 |- *. change (record_id _) with newID in *. rewrite Hnew in *. cbn [fst snd] in *.
  wp_step. apply wp_find; rewrite ?Hkk; [done| |]; intros env2 Hb2 Hc2; wp_step;
    apply gentle_same; congruence.
Qed.

(** C21. The service keeps a map from instances, apps and versions to materializations.
    Whatever calls to the database fail, every method, asked for a complete key, answers
    and stores what its specification says, or reports the failed call and leaves the store
    as it was: [HasAcknowledged] tells whether there is an entry, [Get] reads it, the two
    listings show exactly the entries of an instance and of a version of an app, each once,
    the three marks set one time, [RecordFailure] counts one more
    attempt, and an acknowledgement keeps the entry if it was acknowledged since the
    rollout began, filling in only a missing source version, and otherwise starts afresh.
    No method changes another entry. *)
Theorem materialization_service_refines now newID m created mk t failedAt message (env : Env W) :
  let k := trimmed_key (mt_InstanceID m) (mt_App m) (mt_Version m) in
  let source := TrimSpace (mt_SourceVersion m) in
  wf_mats (contents env) → incomplete k = false → rows (contents env) !! newID = None →
  implements (HasAcknowledged true (mt_InstanceID m) (mt_App m) (mt_Version m)) k spec_has env ∧
  implements (GetMaterialization true (mt_InstanceID m) (mt_App m) (mt_Version m)) k spec_get env ∧
  lists (ListByInstance true (mt_InstanceID m)) (λ k', k'.1.1 = k.1.1) env ∧
  lists (ListByAppVersion true (mt_App m) (mt_Version m)) (λ k', k'.1.2 = k.1.2 ∧ k'.2 = k.2) env ∧
  implements (updateTimestamps true (mt_InstanceID m) (mt_App m) (mt_Version m)
                (stamp (mark_column mk) now t)) k
    (spec_edit (λ m, set_mark mk m (normalizedMaterializationTime now t))) env ∧
  implements (RecordFailure true now (mt_InstanceID m) (mt_App m) (mt_Version m) failedAt message) k
    (spec_edit (λ m, set_failure m (normalizedMaterializationTime now failedAt) (TrimSpace message)))
    env ∧
  implements (acknowledge true now newID (Some m) created) k
    (spec_acknowledge now k source (mt_AcknowledgedAt m) created) env.
Proof.
  intros k source Hwf Hk Hnew.
  assert (TrimSpace (mt_InstanceID m) ≠ "" ∧ TrimSpace (mt_App m) ≠ "" ∧ TrimSpace (mt_Version m) ≠ "")
    as (Hi & Ha & Hv) by (unfold incomplete, k in Hk; cbn in Hk; bool_props; tauto).
  split_and!.
  - by apply HasAcknowledged_implements.
  - by apply GetMaterialization_implements.
  - by apply ListByInstance_lists.
  - by apply ListByAppVersion_lists.
  - by apply mark_implements.
  - by apply RecordFailure_implements.
  - by apply acknowledge_implements.
Qed.
End stores.

(** ** Witness *)

Definition sample (ack : time) : AppInstanceMaterialization := fresh ("i1", "crm", "1.2.0") "s1" ack.
Definition sample_row : idbRecord :=
  stamp "restarted_at" 0 Hour (newRow "m1" ("i1", "crm", "1.2.0") "s1" Minute).
Definition sample_store : gmap string idbRecord := {["m1" := sample_row]}.

Lemma sample_wf : wf_mats sample_store.
Proof.
  split.
  - intros id rec. cbn. unfold sample_store. intros [<- <-]%lookup_singleton_Some. split; [done|by eexists].
  - intros id1 id2 r1 r2 k. cbn. unfold sample_store.
    intros [<- <-]%lookup_singleton_Some [<- <-]%lookup_singleton_Some. done.
Qed.

(** The row was restarted for a rollout of the first hour; a rollout created in the second
    one starts it afresh. *)
Lemma materialization_service_refines_witness :
  let no_parser : TimeParser := λ _, zero_time in
  (run (AcknowledgeForRollout true (3 * Hour) "m2" (Some (sample (3 * Hour))) (2 * Hour))
       (mkEnv sample_store [])).1 = Ok (sample (3 * Hour)) ∧
  implements (acknowledge true (3 * Hour) "m2" (Some (sample (3 * Hour))) (2 * Hour))
    ("i1", "crm", "1.2.0")
    (spec_acknowledge (3 * Hour) ("i1", "crm", "1.2.0") "s1" (3 * Hour) (2 * Hour))
    (mkEnv sample_store []).
Proof.
  intros no_parser. split; [by vm_compute|].
  apply (materialization_service_refines (3 * Hour) "m2" (sample (3 * Hour)) (2 * Hour)
           Restarted 0 0 "" (mkEnv sample_store [])); [apply sample_wf|done|done].
Defined.
End Materializations.
