(* ===== verification/RolloutOutcomes.v ===== *)
(** * RolloutOutcomes: how rollouts ended, and recoveries of failed ones

    Models [gestaltd/internal/coredata/app_version_rollout_outcomes.go] and
    [app_version_recovery_observations.go]: two stores of facts that are written once.  The
    outcome of a change request's rollout is recorded when the rollout ends; a recovery is
    recorded when the fleet is found running a version whose rollout had failed.  The
    recovery is _fenced_: one transaction over four stores checks that the request is still
    the desired one, that its rollout failed and that the source version is the observed
    one. *)

From stdpp Require Import base gmap strings list sorting sets.
From Stdlib Require Import ZArith Ascii Lia.
From S2P Require Import Prelude ObjectStore RegistryTypes Rfc3339 FleetState SourceVersions ChangeRequests.

Set Default Goal Selector "!".

Module RolloutOutcomes.
Import FleetState(LatestKnownVersion).

Record AppVersionRolloutOutcome := {
  oc_ID : string; oc_App : string; oc_Version : string; oc_CompletedAt : time; oc_FailedAt : time }.

Inductive OutcomeError :=
  | ErrNotConfigured
  | ErrIDRequired
  | ErrOutcomeNotFound
  | ErrIDAppAndVersionRequired
  | ErrOneTimestamp
  | ErrEnsureStore (e : DBError)
  | ErrRecordRequired
  | ErrFieldsRequired
  | ErrRecoveredAtRequired
  | ErrNegativeCounts
  | ErrStore (e : DBError).

Definition recordToAppVersionRolloutOutcome `{TimeParser} (rec : idbRecord) : AppVersionRolloutOutcome :=
  {| oc_ID := recString rec "id"; oc_App := recString rec "app"; oc_Version := recString rec "version";
     oc_CompletedAt := recTime rec "completed_at"; oc_FailedAt := recTime rec "failed_at" |}.

(** A terminal time is stored when it is set. *)
Definition set_terminal (key : string) (t : time) (rec : idbRecord) : idbRecord :=
  if IsZero t then rec else <[key := ATime (Truncate t Millisecond)]> rec.

Definition outcomeRecord (id app version : string) (completedAt failedAt : time) : idbRecord :=
  set_terminal "failed_at" failedAt (set_terminal "completed_at" completedAt
    (<["id" := AString id]> (<["app" := AString app]> (<["version" := AString version]> ∅)))).

Section outcomes.
  Context `{TP : TimeParser} {W : Type} `{OS : ObjectStore W}.
  Local Abbreviation M A := (prog (Env W) A).

(** Creating a store that exists has no effect. *)
Definition EnsureStore (configured : bool) : M (result OutcomeError unit) :=
  if negb configured then mret (Err ErrNotConfigured) else
  c ← atomic (fallible (λ w, (Ok tt, w)));
  mret (match c with Ok _ => Ok tt | Err e => Err (ErrEnsureStore e) end).

Definition GetOutcome (configured : bool) (changeRequestID : string)
    : M (result OutcomeError AppVersionRolloutOutcome) :=
  if negb configured then mret (Err ErrNotConfigured) else
  let changeRequestID := TrimSpace changeRequestID in
  if decide (changeRequestID = "") then mret (Err ErrIDRequired) else
  g ← Get changeRequestID;
  mret (match g with
        | Err ErrNotFound => Err ErrOutcomeNotFound
        | Err e => Err (ErrStore e)
        | Ok rec => Ok (recordToAppVersionRolloutOutcome rec)
        end).

Fixpoint getEach (ids : list string) (out : gmap string AppVersionRolloutOutcome)
    : M (result OutcomeError (gmap string AppVersionRolloutOutcome)) :=
  match ids with
  | [] => mret (Ok out)
  | id :: ids =>
      let id := TrimSpace id in
      if decide (id = "") then getEach ids out else
      outcome ← GetOutcome true id;
      match outcome with
      | Err ErrOutcomeNotFound => getEach ids out
      | Err e => mret (Err e)
      | Ok outcome => getEach ids (<[id := outcome]> out)
      end
  end.
Definition GetManyOutcomes (configured : bool) (ids : list string)
    : M (result OutcomeError (gmap string AppVersionRolloutOutcome)) :=
  if negb configured then mret (Err ErrNotConfigured) else getEach ids ∅.

Definition recordOutcome (configured : bool) (changeRequestID app version : string)
    (completedAt failedAt : time) : M (result OutcomeError unit) :=
  if negb configured then mret (Err ErrNotConfigured) else
  let changeRequestID := TrimSpace changeRequestID in
  let app := TrimSpace app in
  let version := TrimSpace version in
  if bool_decide (changeRequestID = "") || bool_decide (app = "") || bool_decide (version = "")
  then mret (Err ErrIDAppAndVersionRequired) else
  if Bool.eqb (IsZero completedAt) (IsZero failedAt) then mret (Err ErrOneTimestamp) else
  ensured ← EnsureStore configured;
  match ensured with
  | Err e => mret (Err e)
  | Ok _ =>
      existing ← GetOutcome configured changeRequestID;
      match existing with
      | Ok _ => mret (Ok tt)
      | Err ErrOutcomeNotFound =>
          a ← Add (outcomeRecord changeRequestID app version completedAt failedAt);
          mret (match a with
                | Ok _ | Err ErrAlreadyExists => Ok tt
                | Err e => Err (ErrStore e)
                end)
      | Err e => mret (Err e)
      end
  end.

Definition RecordComplete configured changeRequestID app version completedAt :=
  recordOutcome configured changeRequestID app version completedAt zero_time.
Definition RecordFailed configured changeRequestID app version failedAt :=
  recordOutcome configured changeRequestID app version zero_time failedAt.
End outcomes.

(** ** Recoveries *)

Record AppVersionRecoveryObservation := {
  ob_ID : string; ob_App : string; ob_Version : string; ob_RecoveredAt : time;
  ob_SourceVersion : string; ob_LiveInstances : Z; ob_MinimumHealthyInstances : Z }.

Definition observationRow (o : AppVersionRecoveryObservation) : idbRecord :=
  <["id" := AString (ob_ID o)]> (<["app" := AString (ob_App o)]>
  (<["version" := AString (ob_Version o)]> (<["recovered_at" := ATime (ob_RecoveredAt o)]>
  (<["source_version" := AString (ob_SourceVersion o)]>
  (<["live_instances" := AInt 0 (ob_LiveInstances o)]>
  (<["minimum_healthy_instances" := AInt 0 (ob_MinimumHealthyInstances o)]> ∅)))))).

Definition normalizedObservation (o : AppVersionRecoveryObservation) : AppVersionRecoveryObservation :=
  {| ob_ID := TrimSpace (ob_ID o); ob_App := TrimSpace (ob_App o);
     ob_Version := TrimSpace (ob_Version o);
     ob_RecoveredAt := Truncate (ob_RecoveredAt o) Millisecond;
     ob_SourceVersion := TrimSpace (ob_SourceVersion o);
     ob_LiveInstances := ob_LiveInstances o;
     ob_MinimumHealthyInstances := ob_MinimumHealthyInstances o |}.

Definition appVersionRecoveryObservationRecord (observation : option AppVersionRecoveryObservation)
    : result OutcomeError (idbRecord * AppVersionRecoveryObservation) :=
  match observation with
  | None => Err ErrRecordRequired
  | Some o =>
      let normalized := normalizedObservation o in
      fail_if bool_decide (ob_ID normalized = "") || bool_decide (ob_App normalized = "")
              || bool_decide (ob_Version normalized = "")
              || bool_decide (ob_SourceVersion normalized = "")
        with ErrFieldsRequired ;;
      fail_if IsZero (ob_RecoveredAt o) with ErrRecoveredAtRequired ;;
      fail_if (ob_LiveInstances normalized <? 0)%Z || (ob_MinimumHealthyInstances normalized <? 0)%Z
        with ErrNegativeCounts ;;
      Ok (observationRow normalized, normalized)
  end.

Definition recordToAppVersionRecoveryObservation `{TimeParser} (rec : idbRecord)
    : AppVersionRecoveryObservation :=
  {| ob_ID := recString rec "id"; ob_App := recString rec "app"; ob_Version := recString rec "version";
     ob_RecoveredAt := recTime rec "recovered_at"; ob_SourceVersion := recString rec "source_version";
     ob_LiveInstances := recordInt rec "live_instances";
     ob_MinimumHealthyInstances := recordInt rec "minimum_healthy_instances" |}.

(** The query of the index [by_app]. *)
Definition by_app (app : string) (rec : idbRecord) : bool :=
  bool_decide (ChangeRequests.key_app rec = Some app).

(** The fences that depend on the rows of the other stores. *)
Definition isCurrent `{TimeParser, ChangeRequests.JSONCodec, ChangeRequests.Sprinter}
    (n : AppVersionRecoveryObservation) (requests : list idbRecord) : bool :=
  let changeRequests := map ChangeRequests.recordToAppVersionChangeRequest requests in
  let desiredVersion :=
    LatestKnownVersion (Some <$> ChangeRequests.knownVersionsFromRequests changeRequests) in
  bool_decide (desiredVersion = ob_Version n)
  && bool_decide (ChangeRequests.latestDesiredRevisionID changeRequests desiredVersion = ob_ID n).
Definition hasFailed `{TimeParser} (n : AppVersionRecoveryObservation) (rec : idbRecord) : bool :=
  let outcome := recordToAppVersionRolloutOutcome rec in
  bool_decide (oc_App outcome = ob_App n) && bool_decide (oc_Version outcome = ob_Version n)
  && negb (IsZero (oc_FailedAt outcome)) && IsZero (oc_CompletedAt outcome).
Definition sourceMatches `{TimeParser} (n : AppVersionRecoveryObservation) (rec : idbRecord) : bool :=
  let source := SourceVersions.recordToGestaltdSourceVersionState rec in
  bool_decide (TrimSpace (sv_CurrentSourceVersion source) = ob_SourceVersion n)
  && (sv_MinimumHealthyInstances source =? ob_MinimumHealthyInstances n)%Z.

Section recoveries.
  Context `{TP : TimeParser, JC : ChangeRequests.JSONCodec, SP : ChangeRequests.Sprinter}.
  Context {W : Type} (recoveries requests outcomes sources : ObjectStore W).
  Local Abbreviation M A := (prog (Env W) A).

Definition GetObservation (configured : bool) (changeRequestID : string)
    : M (result OutcomeError AppVersionRecoveryObservation) :=
  if negb configured then mret (Err ErrNotConfigured) else
  let changeRequestID := TrimSpace changeRequestID in
  if decide (changeRequestID = "") then mret (Err ErrIDRequired) else
  g ← Get (OS := recoveries) changeRequestID;
  mret (match g with
        | Err ErrNotFound => Err ErrOutcomeNotFound
        | Err e => Err (ErrStore e)
        | Ok rec => Ok (recordToAppVersionRecoveryObservation rec)
        end).

Fixpoint getEachObservation (ids : list string) (out : gmap string AppVersionRecoveryObservation)
    : M (result OutcomeError (gmap string AppVersionRecoveryObservation)) :=
  match ids with
  | [] => mret (Ok out)
  | id :: ids =>
      let id := TrimSpace id in
      if decide (id = "") then getEachObservation ids out else
      observation ← GetObservation true id;
      match observation with
      | Err ErrOutcomeNotFound => getEachObservation ids out
      | Err e => mret (Err e)
      | Ok observation => getEachObservation ids (<[id := observation]> out)
      end
  end.
Definition GetManyObservations (configured : bool) (ids : list string)
    : M (result OutcomeError (gmap string AppVersionRecoveryObservation)) :=
  if negb configured then mret (Err ErrNotConfigured) else getEachObservation ids ∅.

Definition RecordObservation (configured : bool) (observation : option AppVersionRecoveryObservation)
    : M (result OutcomeError AppVersionRecoveryObservation) :=
  if negb configured then mret (Err ErrNotConfigured) else
  match appVersionRecoveryObservationRecord observation with
  | Err e => mret (Err e)
  | Ok (rec, normalized) =>
      a ← Add (OS := recoveries) rec;
      match a with
      | Ok _ => mret (Ok normalized)
      | Err ErrAlreadyExists => GetObservation configured (ob_ID normalized)
      | Err e => mret (Err (ErrStore e))
      end
  end.

(** How the transaction ends: with an answer, or by finding that another one was faster. *)
Abbreviation recorded := (option AppVersionRecoveryObservation * bool)%type.
Inductive attempt := Answer (r : result OutcomeError recorded) | Overtaken.

Definition stale : attempt * bool := (Answer (Ok (None, false)), false).

(** Adding and committing, once all fences hold. *)
Definition addObservation (rec : idbRecord) (normalized : AppVersionRecoveryObservation)
    : M (attempt * bool) :=
  a ← Add (OS := recoveries) rec;
  match a with
  | Err ErrAlreadyExists => mret (Overtaken, false)
  | Err e => mret (Answer (Err (ErrStore e)), false)
  | Ok _ =>
      c ← Commit;
      mret (match c with
            | Ok _ => (Answer (Ok (Some normalized, true)), true)
            | Err ErrAlreadyExists => (Overtaken, false)
            | Err e => (Answer (Err (ErrStore e)), false)
            end)
  end.

Definition fenced (rec : idbRecord) (n : AppVersionRecoveryObservation) : M (attempt * bool) :=
  existing ← Get (OS := recoveries) (ob_ID n);
  match existing with
  | Ok existing => mret (Answer (Ok (Some (recordToAppVersionRecoveryObservation existing), true)), false)
  | Err ErrNotFound =>
      reqs ← IndexGetAll (OS := requests) (by_app (ob_App n));
      match reqs with
      | Err e => mret (Answer (Err (ErrStore e)), false)
      | Ok reqs =>
          if negb (isCurrent n reqs) then mret stale else
          outcome ← Get (OS := outcomes) (ob_ID n);
          match outcome with
          | Err ErrNotFound => mret stale
          | Err e => mret (Answer (Err (ErrStore e)), false)
          | Ok outcome =>
              if negb (hasFailed n outcome) then mret stale else
              source ← Get (OS := sources) SourceVersions.gestaltdSourceVersionStateID;
              match source with
              | Err ErrNotFound => mret stale
              | Err e => mret (Answer (Err (ErrStore e)), false)
              | Ok source =>
                  if negb (sourceMatches n source) then mret stale else addObservation rec n
              end
          end
      end
  | Err e => mret (Answer (Err (ErrStore e)), false)
  end.

Definition RecordIfCurrentFailed (configured : bool)
    (observation : option AppVersionRecoveryObservation) : M (result OutcomeError recorded) :=
  if negb configured then mret (Err ErrNotConfigured) else
  match appVersionRecoveryObservationRecord observation with
  | Err e => mret (Err e)
  | Ok (rec, normalized) =>
      t ← Transaction (fenced rec normalized);
      match t with
      | Err e => mret (Err (ErrStore e))
      | Ok (Answer r) => mret r
      | Ok Overtaken =>
          existing ← GetObservation configured (ob_ID normalized);
          mret (let! existing := existing in Ok (Some existing, true))
      end
  end.
End recoveries.

(** ** Recorded facts are final *)

(** Rows are added and nothing else. *)
Definition grows {W} (s : ObjectStore W) (w w' : W) : Prop :=
  rows (ObjectStore := s) w ⊆ rows (ObjectStore := s) w'.
#[export] Instance grows_preorder {W} (s : ObjectStore W) : PreOrder (grows s).
Proof. split; [intros w; unfold grows; reflexivity|]. intros w1 w2 w3. unfold grows. apply transitivity. Qed.

Lemma same_grows {W} (s : ObjectStore W) w w' : same_rows s w w' → grows s w w'.
Proof. unfold same_rows, grows. intros ->. reflexivity. Qed.

Section final.
  Context {W : Type} (s : ObjectStore W).

Lemma grows_Add rec : keeps (grows s) (Add (OS := s) rec).
Proof.
  apply keeps_fallible; [apply _|]. intros w. unfold grows, add_row.
  destruct (rows w !! record_id rec) eqn:E; cbn; [reflexivity|]. rewrite rows_with. by apply insert_subseteq.
Qed.

Lemma keeps_call_inv {A} (R : relation W) (m : prog (Env W) A) :
  keeps R m →
  match m with
  | Ret _ => True
  | Call _ c k =>
      (∀ env, R (contents env) (contents (c env).2)) ∧ ∀ b, keeps R (k b)
  end.
Proof. intros [a|B c k Hc Hk]; [done|]. split; [|done]. intros env. apply Hc. Qed.

(** Whatever the schedule, programs that keep a relation keep it together. *)
Lemma exec_keeps {A} (R : relation W) `{!PreOrder R} schedule (env : Env W) (ts : list (prog (Env W) A)) :
  Forall (keeps R) ts → R (contents env) (contents (exec schedule (env, ts)).1).
Proof.
  revert env ts. induction schedule as [|i schedule IH]; intros env ts Hts; [done|]. cbn [exec].
  destruct (sched_step i (env, ts)) as [env' ts'] eqn:E. unfold sched_step in E.
  destruct (ts !! i) as [[a|B c k]|] eqn:Hi; [by simplify_eq; apply IH| |by simplify_eq; apply IH].
  pose proof (proj1 (Forall_lookup _ _) Hts _ _ Hi) as [Hc Hk]%keeps_call_inv.
  pose proof (Hc env) as HR. destruct (c env) as [b env1]. injection E as <- <-.
  etrans; [exact HR|]. apply IH. by apply Forall_insert.
Qed.
End final.

Lemma grows_Add_apart {W} (s t : ObjectStore W) `{!Apart s t} rec : keeps (grows s) (Add (OS := t) rec).
Proof. eapply keeps_mono; [apply same_grows|]. by apply frames_Add. Qed.

Ltac grows_step :=
  first [apply grows_Add | apply grows_Add_apart; apply _ | apply keeps_fallible; [apply _|done] | keeps_step].

Section final_services.
  Context `{TP : TimeParser, JC : ChangeRequests.JSONCodec, SP : ChangeRequests.Sprinter}.
  Context {W : Type} (recoveries requests outcomes sources : ObjectStore W).
  Context `{!Apart recoveries outcomes, !Apart outcomes recoveries}.

(** The calls that write the two stores. *)
Inductive call :=
  | CallRecordComplete (id app version : string) (completedAt : time)
  | CallRecordFailed (id app version : string) (failedAt : time)
  | CallRecordObservation (observation : option AppVersionRecoveryObservation)
  | CallRecordIfCurrentFailed (observation : option AppVersionRecoveryObservation).

Definition run_call (c : call) : prog (Env W) unit :=
  match c with
  | CallRecordComplete id app version t =>
      _ ← RecordComplete (OS := outcomes) true id app version t; mret tt
  | CallRecordFailed id app version t =>
      _ ← RecordFailed (OS := outcomes) true id app version t; mret tt
  | CallRecordObservation o => _ ← RecordObservation recoveries true o; mret tt
  | CallRecordIfCurrentFailed o =>
      _ ← RecordIfCurrentFailed recoveries requests outcomes sources true o; mret tt
  end.

Lemma run_call_grows c :
  keeps (grows outcomes) (run_call c) ∧ keeps (grows recoveries) (run_call c).
Proof.
  split; destruct c; cbn [run_call];
    unfold RecordComplete, RecordFailed, recordOutcome, EnsureStore, GetOutcome, RecordObservation,
      RecordIfCurrentFailed, fenced, addObservation, GetObservation; repeat grows_step.
Qed.

(** C37. Facts are recorded once: whatever calls run at the same time, in whatever order their
    steps are taken and whatever fails, an outcome and a recovery that are stored stay
    stored, unchanged. *)
Theorem recorded_facts_are_final (calls : list call) schedule (env : Env W) :
  let env' := (exec schedule (env, run_call <$> calls)).1 in
  grows outcomes (contents env) (contents env') ∧ grows recoveries (contents env) (contents env').
Proof.
  split; (apply exec_keeps; [apply _|]); apply Forall_fmap, Forall_forall; intros c _; apply run_call_grows.
Qed.
End final_services.

(** ** What is recorded *)

Section exact.
  Context `{TP : TimeParser, JC : ChangeRequests.JSONCodec, SP : ChangeRequests.Sprinter}.
  Context {W : Type} (recoveries requests outcomes sources : ObjectStore W).

(** The fence: the observation describes the desired revision of its app, whose rollout
    failed, at the current source version. *)
Definition fence (n : AppVersionRecoveryObservation) (w : W) : bool :=
  isCurrent n (select (OS := requests) (by_app (ob_App n)) w)
  && (match rows (ObjectStore := outcomes) w !! ob_ID n with
      | Some o => hasFailed n o | None => false end)
  && (match rows (ObjectStore := sources) w !! SourceVersions.gestaltdSourceVersionStateID with
      | Some s => sourceMatches n s | None => false end).

Definition with_observation (n : AppVersionRecoveryObservation) (w : W) : W :=
  with_rows (ObjectStore := recoveries)
    (<[ob_ID n := observationRow n]> (rows (ObjectStore := recoveries) w)) w.

(** What the call answers and stores. *)
Definition spec_recovery (n : AppVersionRecoveryObservation) (w : W)
    : result OutcomeError (option AppVersionRecoveryObservation * bool) * W :=
  match rows (ObjectStore := recoveries) w !! ob_ID n with
  | Some earlier => (Ok (Some (recordToAppVersionRecoveryObservation earlier), true), w)
  | None => if fence n w then (Ok (Some n, true), with_observation n w) else (Ok (None, false), w)
  end.

(** An attempt answers what the specification says, or reports a failed call. *)
Definition attempted (n : AppVersionRecoveryObservation) (w : W) (env : Env W)
    (r : attempt * bool) (env' : Env W) : Prop :=
  (benign env → benign env') ∧
  ((¬ benign env ∧ r = (Answer (Err (ErrStore ErrIO)), false)) ∨
   (r.1 = Answer (spec_recovery n w).1 ∧ contents env' = (spec_recovery n w).2 ∧
    (r.2 = false → (spec_recovery n w).2 = w))).

Lemma attempted_same n w (env env' : Env W) a :
  (benign env → benign env') → contents env' = w → spec_recovery n w = (a, w) →
  attempted n w env (Answer a, false) env'.
Proof. intros Hb Hc Hs. split; [done|]. right. rewrite Hs. by split_and!. Qed.

Lemma wp_fenced n (env : Env W) :
  wp (fenced recoveries requests outcomes sources (observationRow n) n)
     (attempted n (contents env) env) env.
Proof.
  set (w := contents env).
  assert (Hio : ∀ env0 : Env W, ¬ benign env →
    wp (mret (Answer (Err (ErrStore ErrIO)), false)) (attempted n w env) env0).
  { intros env0 Hn. wp_step. split; [done|]. by left. }
  assert (Hstale : ∀ env0 : Env W, (benign env → benign env0) → contents env0 = w →
    rows (ObjectStore := recoveries) w !! ob_ID n = None → fence n w = false →
    wp (mret stale) (attempted n w env) env0).
  { intros env0 Hb Hc Hr Hf. wp_step. apply attempted_same; [done..|].
    unfold spec_recovery. by rewrite Hr, Hf. }
  unfold fenced. do 2 wp_step; intros env1 Hb1 Hc1; [by apply Hio|].
  fold w in Hc1 |- *. destruct (rows w !! ob_ID n) as [rec|] eqn:Hrow.
  { wp_step. apply attempted_same; [done..|]. unfold spec_recovery. by rewrite Hrow. }
  do 2 wp_step; intros env2 Hb2 Hc2; [apply Hio; tauto|]. rewrite Hc1.
  destruct (isCurrent n _) eqn:Hcur; cbn [negb];
    [|apply Hstale; [tauto|congruence|done|unfold fence; by rewrite Hcur]].
  do 2 wp_step; intros env3 Hb3 Hc3; [apply Hio; tauto|].
  rewrite Hc2, Hc1. destruct (rows (ObjectStore := outcomes) w !! ob_ID n) as [o|] eqn:Ho;
    [|apply Hstale; [tauto|congruence|done|unfold fence; by rewrite Ho, Hcur]].
  destruct (hasFailed n o) eqn:Hfail; cbn [negb];
    [|apply Hstale; [tauto|congruence|done|unfold fence; by rewrite Ho, Hfail, Hcur]].
  do 2 wp_step; intros env4 Hb4 Hc4; [apply Hio; tauto|]. rewrite Hc3, Hc2, Hc1.
  destruct (rows (ObjectStore := sources) w !! _) as [st|] eqn:Hst;
    [|apply Hstale; [tauto|congruence|done|unfold fence; by rewrite Hst, andb_false_r]].
  destruct (sourceMatches n st) eqn:Hsm; cbn [negb];
    [|apply Hstale; [tauto|congruence|done|unfold fence; by rewrite Hst, Hsm, andb_false_r]].
  assert (Hf : fence n w = true) by (unfold fence; by rewrite Hcur, Ho, Hfail, Hst, Hsm).
  assert (Hc : contents env4 = w) by congruence.
  unfold addObservation. do 2 wp_step; [intros env5 Hb5 Hc5; apply Hio; tauto| |].
  { intros env5 Hb5 [x Hx] Hc5. exfalso. rewrite Hc in Hx. change (record_id _) with (ob_ID n) in Hx.
    congruence. }
  intros env5 Hb5 _ Hc5. do 2 wp_step; intros env6 Hb6 Hc6; [apply Hio; tauto|]. wp_step.
  split; [tauto|]. right. unfold spec_recovery. rewrite Hrow, Hf. split_and!; [done| |done].
  by rewrite Hc6, Hc5, Hc.
Qed.

(** Recording a recovery is exact and all or nothing.  Unless a call to the database
    fails, the observation is stored exactly when there is none for its change request and
    the fence holds; then it is returned as recorded, an earlier one is returned as it is,
    and otherwise the answer is that nothing was recorded.  When a call fails, nothing
    changes. *)
Lemma RecordIfCurrentFailed_exact o rec n (env : Env W) :
  appVersionRecoveryObservationRecord (Some o) = Ok (rec, n) →
  wp (RecordIfCurrentFailed recoveries requests outcomes sources true (Some o)) (λ r env',
    (benign env → benign env') ∧
    ((¬ benign env ∧ r = Err (ErrStore ErrIO) ∧ contents env' = contents env) ∨
     (r = (spec_recovery n (contents env)).1 ∧ contents env' = (spec_recovery n (contents env)).2))) env.
Proof.
  intros Hrec. unfold RecordIfCurrentFailed. cbn [negb]. rewrite Hrec.
  assert (rec = observationRow n) as ->.
  { cbn in Hrec. destruct (_ || _) in Hrec; [done|]. destruct (IsZero _) in Hrec; [done|].
    destruct (_ || _) in Hrec; [done|]. by injection Hrec as <- <-. }
  do 2 wp_step; [intros env1 Hb1 Hc1; wp_step; split; [done|]; by left|].
  intros env0 Hb0 Hc0. eapply wp_mono; [apply wp_fenced|].
  intros [a c] env1 [Hb1 Ha] env2 Hb2 Hc2. cbn [fst snd] in *.
  destruct Ha as [[Hn [= -> ->]]|(-> & Hc1 & Hsame)]; wp_step; (split; [tauto|]).
  - left. tauto.
  - right. rewrite Hc0 in *. split; [done|]. destruct c; [congruence|]. by rewrite Hsame.
Qed.
End exact.

(** ** Witness

    Two instances race to record that a rollout completed and that it failed: the first
    outcome stays. *)
#[local] Existing Instances Rfc3339.go_time_parser ChangeRequests.bit_codec ChangeRequests.plain_sprinter.
Abbreviation table := (gmap string idbRecord).
Definition race_outcomes : ObjectStore (table * table) := left_store table table.
Definition race_recoveries : ObjectStore (table * table) := right_store table table.
Definition race : list call :=
  [CallRecordComplete "r1" "billing" "v2" Hour; CallRecordFailed "r1" "billing" "v2" (2 * Hour)%Z].
Definition race_end : Env (table * table) :=
  (exec [0; 0; 1; 1; 0; 1; 1; 0]
     (mkEnv (∅, ∅) [], run_call race_recoveries race_outcomes race_outcomes race_outcomes <$> race)).1.

Lemma recorded_facts_are_final_witness :
  grows race_outcomes (∅, ∅) (contents race_end) ∧ grows race_recoveries (∅, ∅) (contents race_end).
Proof.
  assert (Apart race_recoveries race_outcomes) by (split; done).
  assert (Apart race_outcomes race_recoveries) by (split; done).
  apply (recorded_facts_are_final race_recoveries race_outcomes race_outcomes race_outcomes race
           [0; 0; 1; 1; 0; 1; 1; 0] (mkEnv (∅, ∅) [])).
Defined.
End RolloutOutcomes.
