(* ===== verification/RecoveryObserver.v ===== *)
(** * RecoveryObserver: noticing that the fleet recovered from a failed rollout

    Models [gestaltd/internal/appregistry/recovery_observer.go].  A pass samples the fleet
    once: for every app whose desired revision has a failed rollout it evaluates the fleet
    state, and an app that stays healthy for the stability window has its recovery recorded
    by the fenced transaction of RolloutOutcomes.v.  What the observer remembers between
    passes is since when each app has been healthy, and which recoveries are done. *)

From stdpp Require Import base gmap strings list sorting sets.
From Stdlib Require Import ZArith Ascii Lia.
From S2P Require Import Prelude ObjectStore RegistryTypes Heartbeats FleetState SourceVersions.
From S2P Require Import ChangeRequests RolloutOutcomes Rfc3339.

Set Default Goal Selector "!".

Module RecoveryObserver.
Import FleetState(FleetEvaluation).
#[local] Existing Instance Heartbeats.heartbeat_le_dec.
Import ChangeRequests(AppDesiredRevision).
Import RolloutOutcomes(AppVersionRecoveryObservation).

Record recoveryStability := {
  rs_changeRequestID : string; rs_version : string; rs_sourceVersion : string;
  rs_minimum : Z; rs_healthySince : time }.

(** Which services are set, the configuration, and what is remembered. [ro_Busy] says that
    another pass holds the mutex. *)
Record Observer := {
  ro_Configured : bool;
  ro_HeartbeatTTL : duration;
  ro_StabilityWindow : duration;
  ro_Interval : duration;
  ro_Busy : bool;
  ro_healthy : gmap string recoveryStability;
  ro_completed : gset string }.

Definition NewRecoveryObserver (configured : bool) (ttl window interval : duration) : Observer :=
  {| ro_Configured := configured; ro_HeartbeatTTL := ttl; ro_StabilityWindow := window;
     ro_Interval := interval; ro_Busy := false; ro_healthy := ∅; ro_completed := ∅ |}.

Definition set_healthy (f : gmap string recoveryStability → gmap string recoveryStability)
    (o : Observer) : Observer :=
  {| ro_Configured := ro_Configured o; ro_HeartbeatTTL := ro_HeartbeatTTL o;
     ro_StabilityWindow := ro_StabilityWindow o; ro_Interval := ro_Interval o;
     ro_Busy := ro_Busy o; ro_healthy := f (ro_healthy o); ro_completed := ro_completed o |}.

Definition reset (app : string) : Observer → Observer := set_healthy (delete app).
Definition resetAll : Observer → Observer := set_healthy (λ _, ∅).
Definition resetUnseen (seen : gset string) : Observer → Observer :=
  set_healthy (filter (λ kv, kv.1 ∈ seen)).
Definition isCompleted (o : Observer) (id : string) : bool := bool_decide (id ∈ ro_completed o).
Definition markCompleted (id : string) (o : Observer) : Observer :=
  {| ro_Configured := ro_Configured o; ro_HeartbeatTTL := ro_HeartbeatTTL o;
     ro_StabilityWindow := ro_StabilityWindow o; ro_Interval := ro_Interval o;
     ro_Busy := ro_Busy o; ro_healthy := ro_healthy o; ro_completed := {[id]} ∪ ro_completed o |}.

(** The same revision at the same source version and capacity. *)
Definition same_epoch (a b : recoveryStability) : bool :=
  bool_decide (rs_changeRequestID a = rs_changeRequestID b)
  && bool_decide (rs_version a = rs_version b)
  && bool_decide (rs_sourceVersion a = rs_sourceVersion b)
  && (rs_minimum a =? rs_minimum b)%Z.

Definition since (s : recoveryStability) (t : time) : recoveryStability :=
  {| rs_changeRequestID := rs_changeRequestID s; rs_version := rs_version s;
     rs_sourceVersion := rs_sourceVersion s; rs_minimum := rs_minimum s; rs_healthySince := t |}.

Definition advance (o : Observer) (app : string) (next : recoveryStability) (now : time)
    : time * bool * Observer :=
  match ro_healthy o !! app with
  | Some current =>
      if same_epoch current next then (rs_healthySince current, true, o)
      else (now, false, set_healthy <[app := since next now]> o)
  | None => (now, false, set_healthy <[app := since next now]> o)
  end.

Definition DefaultAppRegistryHeartbeatInterval : duration := (15 * Second)%Z.
Definition interval (o : Observer) : duration :=
  if (0 <? ro_Interval o)%Z then ro_Interval o else DefaultAppRegistryHeartbeatInterval.

Inductive ObserverError :=
  | ErrObserverNotConfigured
  | ErrTTLNotPositive
  | ErrWindowNotPositive
  | ErrDesiredVersions (e : ChangeRequests.ChangeRequestError)
  | ErrSourceState (e : SourceVersions.SourceVersionError)
  | ErrHeartbeats (e : Heartbeats.HeartbeatError)
  | ErrOutcome (app : string) (e : RolloutOutcomes.OutcomeError)
  | ErrPersist (app : string) (e : RolloutOutcomes.OutcomeError)
  | ErrJoined (errs : list ObserverError).

(** What all apps of a pass are judged by. *)
Record sample := {
  sm_now : time; sm_ttl : duration; sm_source : string; sm_minimum : Z;
  sm_heartbeats : list GestaltdInstanceHeartbeat }.

Definition evaluation (s : sample) (app version : string) : FleetEvaluation :=
  {| FleetState.fe_App := app; FleetState.fe_DesiredVersion := version;
     FleetState.fe_SourceVersion := sm_source s;
     FleetState.fe_MinimumHealthyInstances := sm_minimum s;
     FleetState.fe_Cutoff := (sm_now s - sm_ttl s)%Z; FleetState.fe_EvaluatedAt := sm_now s;
     FleetState.fe_Heartbeats := map Some (sm_heartbeats s);
     FleetState.fe_ActiveRollout := None |}.

(** The outcome the desired revision must have. *)
Definition failedOutcome (app version : string) (oc : RolloutOutcomes.AppVersionRolloutOutcome) : bool :=
  negb (IsZero (RolloutOutcomes.oc_FailedAt oc)) && IsZero (RolloutOutcomes.oc_CompletedAt oc)
  && bool_decide (TrimSpace (RolloutOutcomes.oc_App oc) = app)
  && bool_decide (TrimSpace (RolloutOutcomes.oc_Version oc) = version).

Section observer.
  Context `{TP : TimeParser, JC : ChangeRequests.JSONCodec, SP : ChangeRequests.Sprinter}.
  Context {W : Type} (recoveries requests outcomes sources heartbeats : ObjectStore W).
  Local Abbreviation M A := (prog (Env W) A).

(** The end of the loop's body, once the app is found healthy. *)
Definition observeHealthy (o : Observer) (s : sample) (app version id : string) (live : Z)
    : M (option ObserverError * Observer) :=
  let '(healthySince, stable, o) :=
    advance o app {| rs_changeRequestID := id; rs_version := version; rs_sourceVersion := sm_source s;
                     rs_minimum := sm_minimum s; rs_healthySince := zero_time |} (sm_now s) in
  if negb stable || (Sub (sm_now s) healthySince <? ro_StabilityWindow o)%Z then mret (None, o) else
  r ← RolloutOutcomes.RecordIfCurrentFailed recoveries requests outcomes sources true
        (Some {| RolloutOutcomes.ob_ID := id; RolloutOutcomes.ob_App := app;
                 RolloutOutcomes.ob_Version := version; RolloutOutcomes.ob_RecoveredAt := sm_now s;
                 RolloutOutcomes.ob_SourceVersion := sm_source s;
                 RolloutOutcomes.ob_LiveInstances := live;
                 RolloutOutcomes.ob_MinimumHealthyInstances := sm_minimum s |});
  mret (match r with
        | Err e => (Some (ErrPersist app e), o)
        | Ok (_, recorded) =>
            (None, if recorded : bool then markCompleted id (reset app o) else reset app o)
        end).

(** The body of the loop over the desired revisions. *)
Definition observeApp (o : Observer) (s : sample) (desired : AppDesiredRevision)
    : M (option ObserverError * Observer) :=
  let app := TrimSpace (ChangeRequests.dr_App desired) in
  let version := TrimSpace (ChangeRequests.dr_Version desired) in
  let id := TrimSpace (ChangeRequests.dr_ChangeRequestID desired) in
  if bool_decide (id = "") || isCompleted o id then mret (None, reset app o) else
  outcome ← RolloutOutcomes.GetOutcome (OS := outcomes) true id;
  match outcome with
  | Err RolloutOutcomes.ErrOutcomeNotFound => mret (None, reset app o)
  | Err e => mret (Some (ErrOutcome app e), reset app o)
  | Ok outcome =>
      if negb (failedOutcome app version outcome) then mret (None, reset app o) else
      let projection := FleetState.EvaluateFleetState (evaluation s app version) in
      if bool_decide (fp_State projection ≠ FleetHealthy) then mret (None, reset app o) else
      observeHealthy o s app version id (fp_LiveInstances projection)
  end.

Fixpoint observeEach (o : Observer) (s : sample) (desired : list AppDesiredRevision)
    : M (list ObserverError * Observer) :=
  match desired with
  | [] => mret ([], o)
  | d :: desired =>
      out ← observeApp o s d;
      rest ← observeEach out.2 s desired;
      mret (match out.1 with Some e => e :: rest.1 | None => rest.1 end, rest.2)
  end.

Definition ObserveOnce (o : Observer) (now : time) : M (result ObserverError unit * Observer) :=
  if negb (ro_Configured o) then mret (Err ErrObserverNotConfigured, o) else
  if ro_Busy o then mret (Ok tt, o) else
  let now := Truncate now Millisecond in
  if (ro_HeartbeatTTL o <=? 0)%Z then mret (Err ErrTTLNotPositive, o) else
  if (ro_StabilityWindow o <=? 0)%Z then mret (Err ErrWindowNotPositive, o) else
  desired ← ChangeRequests.ListDesiredRevisions (OS := requests) true;
  match desired with
  | Err e => mret (Err (ErrDesiredVersions e), resetAll o)
  | Ok desired =>
      source ← SourceVersions.GetState sources true;
      match source with
      | Err SourceVersions.ErrNotFoundState => mret (Ok tt, resetAll o)
      | Err e => mret (Err (ErrSourceState e), resetAll o)
      | Ok source =>
          let sourceVersion := TrimSpace (sv_CurrentSourceVersion source) in
          let minimum := sv_MinimumHealthyInstances source in
          if bool_decide (sourceVersion = "") || (minimum <=? 0)%Z then mret (Ok tt, resetAll o) else
          hbs ← Heartbeats.ListFreshBySourceVersion (OS := heartbeats) true sourceVersion
                  (now - ro_HeartbeatTTL o)%Z;
          match hbs with
          | Err e => mret (Err (ErrHeartbeats e), resetAll o)
          | Ok hbs =>
              out ← observeEach o {| sm_now := now; sm_ttl := ro_HeartbeatTTL o;
                                     sm_source := sourceVersion; sm_minimum := minimum;
                                     sm_heartbeats := hbs |} desired;
              mret (match out.1 with [] => Ok tt | errs => Err (ErrJoined errs) end,
                    resetUnseen (list_to_set (map (λ d, TrimSpace (ChangeRequests.dr_App d)) desired))
                      out.2)
          end
      end
  end.

(** The loop: a pass once [Ready] is closed and one for every tick; errors are logged. *)
Fixpoint loop (o : Observer) (ticks : list time) : M Observer :=
  match ticks with
  | [] => mret o
  | now :: ticks => out ← ObserveOnce o now; loop out.2 ticks
  end.
End observer.

(** ** What a pass sees *)

Section passes.
  Context `{TP : TimeParser, JC : ChangeRequests.JSONCodec, SP : ChangeRequests.Sprinter}.
  Context {W : Type} (recoveries requests outcomes sources heartbeats : ObjectStore W).
  Context `{!Apart outcomes recoveries}.
  Local Abbreviation M A := (prog (Env W) A).
  Local Abbreviation recovered w := (rows (ObjectStore := recoveries) w).

Definition desired_of (w : W) : list AppDesiredRevision :=
  ChangeRequests.desiredRevisions
    (map ChangeRequests.recordToAppVersionChangeRequest (sorted_rows (rows (ObjectStore := requests) w))).
Definition fresh_of (w : W) (source : string) (cutoff : time) : list GestaltdInstanceHeartbeat :=
  Heartbeats.recordsToGestaltdInstanceHeartbeats
    (merge_sort Heartbeats.heartbeat_le (select (OS := heartbeats)
       (Heartbeats.by_source_version_heartbeat_at source cutoff Heartbeats.indexedDBMaxTime) w)).
Definition sample_of (w : W) (ttl : duration) (now : time) (source : string) (minimum : Z) : sample :=
  {| sm_now := now; sm_ttl := ttl; sm_source := source; sm_minimum := minimum;
     sm_heartbeats := fresh_of w source (now - ttl)%Z |}.

(** At [now] the database shows the revision [st] of [app] as desired, its rollout as failed,
    its source version as the current one, and the fleet as healthy on it. *)
Definition sees (ttl : duration) (now : time) (w : W) (app : string) (st : recoveryStability) : Prop :=
  (∃ d, d ∈ desired_of w ∧ TrimSpace (ChangeRequests.dr_App d) = app ∧
        TrimSpace (ChangeRequests.dr_Version d) = rs_version st ∧
        TrimSpace (ChangeRequests.dr_ChangeRequestID d) = rs_changeRequestID st) ∧
  (∃ row, rows (ObjectStore := sources) w !! SourceVersions.gestaltdSourceVersionStateID = Some row ∧
        TrimSpace (sv_CurrentSourceVersion (SourceVersions.recordToGestaltdSourceVersionState row))
        = rs_sourceVersion st ∧
        sv_MinimumHealthyInstances (SourceVersions.recordToGestaltdSourceVersionState row)
        = rs_minimum st) ∧
  (∃ row, rows (ObjectStore := outcomes) w !! rs_changeRequestID st = Some row ∧
        failedOutcome app (rs_version st) (RolloutOutcomes.recordToAppVersionRolloutOutcome row) = true) ∧
  FleetState.healthy (evaluation (sample_of w ttl now (rs_sourceVersion st) (rs_minimum st))
                        app (rs_version st)).

(** The observation that a pass records for [st]. *)
Definition observes (now : time) (app : string) (st : recoveryStability) (row : idbRecord) : Prop :=
  let o := RolloutOutcomes.recordToAppVersionRecoveryObservation row in
  RolloutOutcomes.ob_ID o = rs_changeRequestID st ∧ RolloutOutcomes.ob_App o = app ∧
  RolloutOutcomes.ob_Version o = rs_version st ∧
  RolloutOutcomes.ob_SourceVersion o = rs_sourceVersion st ∧
  RolloutOutcomes.ob_MinimumHealthyInstances o = rs_minimum st ∧
  RolloutOutcomes.ob_RecoveredAt o = now.

(** ** One pass

    [w] is the database when the pass begins, [o0] the observer. *)
Section pass.
  Context (o0 : Observer) (w : W) (now : time) (source : string) (minimum : Z).
  Context (source_trimmed : TrimSpace source = source).
  Context (window_positive : (0 < ro_StabilityWindow o0)%Z).
  Context (now_truncated : Truncate now Millisecond = now).
  Context (source_row : ∃ row,
    rows (ObjectStore := sources) w !! SourceVersions.gestaltdSourceVersionStateID = Some row ∧
    TrimSpace (sv_CurrentSourceVersion (SourceVersions.recordToGestaltdSourceVersionState row)) = source ∧
    sv_MinimumHealthyInstances (SourceVersions.recordToGestaltdSourceVersionState row) = minimum).
  Local Abbreviation s := (sample_of w (ro_HeartbeatTTL o0) now source minimum).
  Local Abbreviation seen := (sees (ro_HeartbeatTTL o0) now w).

(** A row that this pass added: the app was remembered as healthy for the window. *)
Definition added (id : string) (row : idbRecord) : Prop :=
  recovered w !! id = None ∧
  ∃ app st, ro_healthy o0 !! app = Some st ∧ seen app st ∧ id = rs_changeRequestID st ∧
    (ro_StabilityWindow o0 ≤ Sub now (rs_healthySince st))%Z ∧ observes now app st row.

(** What holds between two turns of the loop, the apps of [done] being done. *)
Record turn_inv (finished : gset string) (o : Observer) (env : Env W) : Prop := {
  ti_ttl : ro_HeartbeatTTL o = ro_HeartbeatTTL o0;
  ti_window : ro_StabilityWindow o = ro_StabilityWindow o0;
  ti_flags : ro_Configured o = ro_Configured o0 ∧ ro_Busy o = ro_Busy o0;
  ti_outcomes : rows (ObjectStore := outcomes) (contents env) = rows (ObjectStore := outcomes) w;
  ti_origin app st : ro_healthy o !! app = Some st →
    ro_healthy o0 !! app = Some st ∨ rs_healthySince st = now;
  ti_seen app st : ro_healthy o !! app = Some st → app ∈ finished → seen app st;
  ti_grows : RolloutOutcomes.grows recoveries w (contents env);
  ti_rows id row : recovered (contents env) !! id = Some row → recovered w !! id = Some row ∨ added id row }.

Lemma turn_inv_reset finished o env env' app :
  turn_inv finished o env → contents env' = contents env →
  turn_inv ({[app]} ∪ finished) (reset app o) env'.
Proof.
  intros [] Hc. split; cbn; try rewrite Hc; try done.
  - intros app' st [? H]%lookup_delete_Some. eauto.
  - intros app' st [? H]%lookup_delete_Some. set_solver.
Qed.

Lemma turn_inv_completed finished o env id :
  turn_inv finished o env → turn_inv finished (markCompleted id o) env.
Proof. intros []. by split. Qed.

(** Two states of the same epoch are seen alike. *)
Lemma sees_epoch app st st' : same_epoch st st' = true → seen app st' → seen app st.
Proof.
  unfold same_epoch, sees. intros H Hs. bool_props. apply Z.eqb_eq in H0.
  destruct st, st'; cbn in *; subst. exact Hs.
Qed.

Lemma turn_inv_finish finished o env app :
  turn_inv finished o env → (∀ st, ro_healthy o !! app = Some st → seen app st) →
  turn_inv ({[app]} ∪ finished) o env.
Proof.
  intros [] Happ. split; try done. intros app' st Hst Hin.
  destruct (decide (app' = app)) as [->|]; [by apply Happ|]. apply ti_seen0; set_solver.
Qed.

Lemma turn_inv_contents finished o env env' :
  turn_inv finished o env → contents env' = contents env → turn_inv finished o env'.
Proof. intros [] Hc. split; try rewrite Hc; done. Qed.

(** Remembering the app, or finding it remembered. *)
Lemma turn_inv_advance finished o env app st t stable o' :
  turn_inv finished o env → seen app st → advance o app st now = (t, stable, o') →
  turn_inv ({[app]} ∪ finished) o' env ∧
  (stable = true → o' = o ∧ ∃ cur, ro_healthy o !! app = Some cur ∧ t = rs_healthySince cur ∧
                                   same_epoch cur st = true).
Proof.
  intros Hinv Hs. unfold advance.
  assert (Hput : turn_inv ({[app]} ∪ finished) (set_healthy <[app := since st now]> o) env).
  { destruct Hinv. split; cbn; try done.
    - intros app' st' [[<- <-]|[? H]]%lookup_insert_Some; [by right|eauto].
    - intros app' st' [[<- <-]|[? H]]%lookup_insert_Some Hin; [|apply ti_seen0; set_solver].
      eapply sees_epoch; [|exact Hs]. unfold same_epoch. cbn.
      by rewrite !bool_decide_eq_true_2, Z.eqb_refl. }
  destruct (ro_healthy o !! app) as [cur|] eqn:Hcur; [|by intros [= <- <- <-]].
  destruct (same_epoch cur st) eqn:He; [|by intros [= <- <- <-]].
  intros [= <- <- <-]. split; [|by eauto 10].
  apply turn_inv_finish; [done|]. rewrite Hcur. intros st' [= <-]. by eapply sees_epoch.
Qed.

(** A recovery that the transaction may have stored. *)
Lemma wp_record finished o env app st healthySince id version live :
  turn_inv finished o env → seen app st → ro_healthy o !! app = Some st →
  healthySince = rs_healthySince st → TrimSpace app = app → TrimSpace version = version →
  TrimSpace id = id → id = rs_changeRequestID st → version = rs_version st →
  source = rs_sourceVersion st → minimum = rs_minimum st →
  (ro_StabilityWindow o0 ≤ Sub now healthySince)%Z →
  wp (RolloutOutcomes.RecordIfCurrentFailed recoveries requests outcomes sources true
        (Some {| RolloutOutcomes.ob_ID := id; RolloutOutcomes.ob_App := app;
                 RolloutOutcomes.ob_Version := version; RolloutOutcomes.ob_RecoveredAt := now;
                 RolloutOutcomes.ob_SourceVersion := source;
                 RolloutOutcomes.ob_LiveInstances := live;
                 RolloutOutcomes.ob_MinimumHealthyInstances := minimum |}))
    (λ _ env', turn_inv finished o env') env.
Proof.
  intros Hinv Hs Hst -> Ha Hv Hi Eid Ev Es Em Hw. set (ob := RolloutOutcomes.Build_AppVersionRecoveryObservation _ _ _ _ _ _ _).
  destruct (RolloutOutcomes.appVersionRecoveryObservationRecord (Some ob)) as [[rec n]|e] eqn:Hrec.
  2: { unfold RolloutOutcomes.RecordIfCurrentFailed. cbn [negb]. rewrite Hrec. by wp_step. }
  eapply wp_mono; [by eapply RolloutOutcomes.RecordIfCurrentFailed_exact|].
  assert (n = ob) as ->.
  { cbn -[TrimSpace Truncate] in Hrec. destruct (_ || _) in Hrec; [done|].
    destruct (IsZero _) in Hrec; [done|]. destruct (_ || _) in Hrec; [done|]. injection Hrec as _ <-.
    unfold RolloutOutcomes.normalizedObservation, ob. cbn -[TrimSpace Truncate].
    by rewrite Ha, Hv, Hi, now_truncated, source_trimmed. }
  intros r env' [_ [(_ & _ & Hc)|[_ Hc]]]; [by eapply turn_inv_contents|].
  unfold RolloutOutcomes.spec_recovery in Hc.
  destruct (rows (contents env) !! _) as [earlier|] eqn:Hnew; [by eapply turn_inv_contents|].
  destruct (RolloutOutcomes.fence _ _ _ _ _); [|by eapply turn_inv_contents].
  cbn [snd RolloutOutcomes.ob_ID ob] in Hnew, Hc. unfold RolloutOutcomes.with_observation in Hc.
  destruct Hinv. split; rewrite ?Hc, ?(apart_left (s1 := outcomes)), ?rows_with; try done.
  - unfold RolloutOutcomes.grows. rewrite rows_with. etrans; [exact ti_grows0|].
    by apply insert_subseteq.
  - intros id' row [[<- <-]|[? H]]%lookup_insert_Some; [|by apply ti_rows0]. right.
    split.
    { destruct (recovered w !! id) eqn:E; [|done]. apply (lookup_weaken _ _ _ _ E) in ti_grows0. congruence. }
    exists app, st. assert (Hold : ro_healthy o0 !! app = Some st).
    { destruct (ti_origin0 _ _ Hst) as [?|E]; [done|]. rewrite E in Hw. unfold Sub in Hw. lia. }
    by split_and!.
Qed.

Lemma wp_observeHealthy finished o env app version id live :
  turn_inv finished o env → TrimSpace app = app → TrimSpace version = version → TrimSpace id = id →
  (let st := {| rs_changeRequestID := id; rs_version := version; rs_sourceVersion := source;
                rs_minimum := minimum; rs_healthySince := zero_time |} in seen app st) →
  wp (observeHealthy recoveries requests outcomes sources o s app version id live)
     (λ r env', turn_inv ({[app]} ∪ finished) r.2 env') env.
Proof.
  intros Hinv Ha Hv Hi Hs. unfold observeHealthy. cbn [sm_source sm_minimum sm_now sample_of].
  destruct (advance _ _ _ _) as [[t stable] o'] eqn:Hadv.
  destruct (turn_inv_advance _ _ _ _ _ _ _ _ Hinv Hs Hadv) as [Hinv' Hst].
  destruct (negb stable || _) eqn:Hwait; [by wp_step|]. bool_props. apply Z.ltb_ge in H0.
  destruct (Hst H) as (-> & cur & Hcur & -> & He). rewrite (ti_window _ _ _ Hinv) in H0.
  wp_step. eapply wp_mono.
  - eapply (wp_record finished o env app cur); try done.
    + by eapply sees_epoch.
    + unfold same_epoch in He. bool_props. done.
    + unfold same_epoch in He. bool_props. done.
    + unfold same_epoch in He. bool_props. done.
    + unfold same_epoch in He. bool_props. symmetry. by apply Z.eqb_eq.
  - intros r env' Hr. wp_step. destruct r as [[ob [|]]|e]; cbn [snd].
    + apply turn_inv_completed. by eapply turn_inv_reset.
    + by eapply turn_inv_reset.
    + apply turn_inv_finish; [done|]. rewrite Hcur. intros st [= <-]. by eapply sees_epoch.
Qed.

Lemma wp_observeApp finished o env d :
  turn_inv finished o env → d ∈ desired_of w →
  wp (observeApp recoveries requests outcomes sources o s d)
     (λ r env', turn_inv ({[TrimSpace (ChangeRequests.dr_App d)]} ∪ finished) r.2 env') env.
Proof.
  intros Hinv Hd. unfold observeApp.
  destruct (_ || _) eqn:Hskip; [wp_step; by eapply turn_inv_reset|]. bool_props.
  unfold RolloutOutcomes.GetOutcome. cbn [negb]. rewrite TrimSpace_idem, decide_False by done.
  do 3 wp_step; intros env1 Hb Hc.
  { wp_step. cbn match. wp_step. by eapply turn_inv_reset. }
  wp_step. rewrite (ti_outcomes _ _ _ Hinv).
  destruct (rows (ObjectStore := outcomes) w !! _) as [row|] eqn:Hrow; cbn match; [|wp_step; by eapply turn_inv_reset].
  destruct (failedOutcome _ _ _) eqn:Hfail; cbn [negb]; [|wp_step; by eapply turn_inv_reset].
  case_bool_decide as Hstate; [wp_step; by eapply turn_inv_reset|].
  apply wp_observeHealthy; try apply TrimSpace_idem; [by eapply turn_inv_contents|].
  unfold sees. split_and!; cbn [rs_changeRequestID rs_version rs_sourceVersion rs_minimum].
  - by exists d.
  - exact source_row.
  - by exists row.
  - apply FleetState.healthy_state. by destruct (decide (fp_State (FleetState.EvaluateFleetState
      (evaluation s (TrimSpace (ChangeRequests.dr_App d)) (TrimSpace (ChangeRequests.dr_Version d))))
      = FleetHealthy)).
Qed.

Lemma wp_observeEach finished o env ds :
  turn_inv finished o env → (∀ d, d ∈ ds → d ∈ desired_of w) →
  wp (observeEach recoveries requests outcomes sources o s ds)
     (λ r env', turn_inv (list_to_set (map (λ d, TrimSpace (ChangeRequests.dr_App d)) ds) ∪ finished)
                  r.2 env') env.
Proof.
  revert finished o env. induction ds as [|d ds IH]; intros finished o env Hinv Hds; cbn [observeEach].
  - wp_step. cbn. by rewrite union_empty_l_L.
  - wp_step. eapply wp_mono; [apply wp_observeApp; [done|apply Hds; left]|]. intros r env1 Hr.
    wp_step. eapply wp_mono; [apply IH; [exact Hr|intros d' Hd'; apply Hds; by right]|].
    intros r' env2 Hr'. wp_step. cbn [snd map list_to_set list_to_set_singleton].
    replace (_ ∪ finished) with
      (list_to_set (map (λ d, TrimSpace (ChangeRequests.dr_App d)) ds)
       ∪ ({[TrimSpace (ChangeRequests.dr_App d)]} ∪ finished)); [done|]. set_solver.
Qed.
End pass.

(** ** Sequences of passes *)

Definition runnable (o : Observer) : Prop :=
  ro_Configured o = true ∧ ro_Busy o = false ∧ (0 < ro_HeartbeatTTL o)%Z ∧
  (0 < ro_StabilityWindow o)%Z.

(** What a pass leaves behind: an app is remembered as healthy only if this pass saw it, with
    the beginning it had or the time of this pass. *)
Record pass_post (o : Observer) (now : time) (w : W) (o' : Observer) (env' : Env W) : Prop := {
  pp_runnable : runnable o';
  pp_config : ro_HeartbeatTTL o' = ro_HeartbeatTTL o ∧ ro_StabilityWindow o' = ro_StabilityWindow o;
  pp_healthy app st : ro_healthy o' !! app = Some st →
    sees (ro_HeartbeatTTL o) now w app st ∧
    (ro_healthy o !! app = Some st ∨ rs_healthySince st = now);
  pp_rows id row : recovered (contents env') !! id = Some row →
    recovered w !! id = Some row ∨ added o w now id row }.

Lemma pass_post_reset o now env env' :
  runnable o → contents env' = contents env → pass_post o now (contents env) (resetAll o) env'.
Proof. intros Ho Hc. split; cbn; [done|done|done|]. rewrite Hc. by left. Qed.

Lemma wp_ObserveOnce o now (env : Env W) :
  runnable o →
  wp (ObserveOnce recoveries requests outcomes sources heartbeats o now)
     (λ r env', pass_post o (Truncate now Millisecond) (contents env) r.2 env') env.
Proof.
  intros Ho. pose proof Ho as (Hc & Hb & Ht & Hw). unfold ObserveOnce. rewrite Hc, Hb. cbn [negb].
  rewrite !(proj2 (Z.leb_gt _ _)) by done.
  assert (Htr : Truncate (Truncate now Millisecond) Millisecond = Truncate now Millisecond)
    by (by apply Truncate_idem).
  set (t := Truncate now Millisecond) in *. clearbody t.
  unfold ChangeRequests.ListDesiredRevisions, ChangeRequests.listAllRequests. cbn [negb].
  do 4 wp_step; intros env1 Hb1 Hc1; do 2 wp_step; cbn [rbind]; cbn match;
    [wp_step; by apply pass_post_reset|].
  unfold SourceVersions.GetState. cbn [negb].
  do 3 wp_step; intros env2 Hb2 Hc2; wp_step; cbn match; [wp_step; apply pass_post_reset; congruence|].
  rewrite Hc1. destruct (rows (ObjectStore := sources) (contents env) !! _) as [row|] eqn:Hrow;
    cbn match; [|wp_step; apply pass_post_reset; congruence].
  destruct (_ || _) eqn:Hsrc; [wp_step; apply pass_post_reset; congruence|]. bool_props.
  unfold Heartbeats.ListFreshBySourceVersion. cbn [negb]. rewrite TrimSpace_idem, decide_False by done.
  do 3 wp_step; intros env3 Hb3 Hc3; wp_step; cbn [Heartbeats.listed]; cbn match; [wp_step; apply pass_post_reset; congruence|].
  assert (Hcont : contents env3 = contents env) by congruence. rewrite Hc2, Hc1.
  wp_step. eapply wp_mono.
  - apply (wp_observeEach o (contents env) t
      (TrimSpace (sv_CurrentSourceVersion (SourceVersions.recordToGestaltdSourceVersionState row)))
      (sv_MinimumHealthyInstances (SourceVersions.recordToGestaltdSourceVersionState row))
      (TrimSpace_idem _) Hw Htr) with (finished := ∅).
    + by exists row.
    + split; unfold RolloutOutcomes.grows; rewrite ?Hcont; try done; [by left|by left].
    + intros d Hd. exact Hd.
  - intros r env4 Hr. wp_step. cbn [snd]. destruct Hr. cbn [resetUnseen set_healthy].
    split; cbn; [|done| |done].
    + unfold runnable. cbn. destruct ti_flags0 as [-> ->]. by rewrite ti_ttl0, ti_window0.
    + intros app st [Hst Hin]%map_lookup_filter_Some. cbn in Hin.
      split; [|by apply ti_origin0].
      apply ti_seen0; [exact Hst|]. apply elem_of_union_l. exact Hin.
Qed.

Definition pass_result (o : Observer) (p : time * Env W)
    : (result ObserverError unit * Observer) * Env W :=
  run (ObserveOnce recoveries requests outcomes sources heartbeats o p.1) p.2.

(** The observer after some passes; between them the database changes at will. *)
Definition after (o : Observer) (ps : list (time * Env W)) : Observer :=
  foldl (λ o p, (pass_result o p).1.2) o ps.

Definition sees_at (o : Observer) (p : time * Env W) (app : string) (st : recoveryStability) : Prop :=
  sees (ro_HeartbeatTTL o) (Truncate p.1 Millisecond) (contents p.2) app st.

(** An app is remembered as healthy since a pass from which on every pass saw it. *)
Lemma remembered o ps :
  runnable o → ro_healthy o = ∅ →
  (runnable (after o ps) ∧ ro_HeartbeatTTL (after o ps) = ro_HeartbeatTTL o ∧
   ro_StabilityWindow (after o ps) = ro_StabilityWindow o) ∧
  ∀ app st, ro_healthy (after o ps) !! app = Some st →
    ∃ ps1 q ps2, ps = ps1 ++ q :: ps2 ∧ rs_healthySince st = Truncate q.1 Millisecond ∧
      ∀ p, p ∈ q :: ps2 → sees_at o p app st.
Proof.
  intros Ho He. induction ps as [|p ps [(IHr & IHt & IHw) IH]] using rev_ind.
  { cbn. rewrite He. split; [done|]. intros app st. by rewrite lookup_empty. }
  unfold after. rewrite foldl_app. fold (after o ps). cbn [foldl].
  pose proof (wp_ObserveOnce (after o ps) p.1 p.2 IHr) as [Hr Hc Hh _].
  fold (pass_result (after o ps) p) in Hr, Hc, Hh. rewrite IHt, IHw in *. split; [done|].
  intros app st Hst. destruct (Hh _ _ Hst) as [Hsees [Hold|Hnow]].
  - destruct (IH _ _ Hold) as (ps1 & q & ps2 & -> & Hq & Hall). exists ps1, q, (ps2 ++ [p]).
    split; [by rewrite <-app_assoc|]. split; [done|]. intros p' Hp'.
    rewrite app_comm_cons in Hp'. apply elem_of_app in Hp' as [?| ->%list_elem_of_singleton]; [auto|done].
  - exists ps, p, []. split_and!; [done..|]. by intros p' ->%list_elem_of_singleton.
Qed.

(** C20. A recovery is recorded only after the fleet was healthy for the stability window.
    Whatever happens to the database between passes and whatever calls fail, when a pass of
    the observer stores a recovery there is an earlier pass, at least a stability window ago,
    such that this pass and every pass since saw the same change request as the desired
    revision of the app, its rollout failed, the same source version and capacity in force,
    and the fleet healthy on that version; and the stored observation says just that. *)
Theorem recovery_needs_stability o ps now (env : Env W) id row :
  runnable o → ro_healthy o = ∅ →
  recovered (contents env) !! id = None →
  recovered (contents (pass_result (after o ps) (now, env)).2) !! id = Some row →
  ∃ app st ps1 q ps2, ps = ps1 ++ q :: ps2 ∧
    (ro_StabilityWindow o ≤ Sub (Truncate now Millisecond) (Truncate q.1 Millisecond))%Z ∧
    id = rs_changeRequestID st ∧ observes (Truncate now Millisecond) app st row ∧
    ∀ p, p ∈ q :: ps2 ++ [(now, env)] → sees_at o p app st.
Proof.
  intros Ho He Hnone Hrow. destruct (remembered o ps Ho He) as [(Hr & Ht & Hw) Hrem].
  destruct (wp_ObserveOnce (after o ps) now env Hr) as [_ _ _ Hrows].
  destruct (Hrows _ _ Hrow) as [?|(_ & app & st & Hst & Hsees & Hid & Hwin & Hob)]; [congruence|].
  destruct (Hrem _ _ Hst) as (ps1 & q & ps2 & Heq & Hq & Hall). rewrite Hw, Hq in Hwin.
  rewrite Ht in Hsees. exists app, st, ps1, q, ps2. split_and!; try done.
  intros p Hp. rewrite app_comm_cons in Hp.
  apply elem_of_app in Hp as [?| ->%list_elem_of_singleton]; [auto|exact Hsees].
Qed.
End passes.

(** ** Witness

    Two instances run the version whose rollout failed; the second pass, ten minutes after
    the first, records the recovery. *)

Abbreviation table := (gmap string idbRecord).
Definition db : Type := (table * table) * (table * table) * table.
#[local] Instance requests_at : ObjectStore db :=
  left_store ((table * table) * (table * table)) table (H := left_store (table * table) (table * table) (H := left_store table table)).
#[local] Instance outcomes_at : ObjectStore db :=
  left_store ((table * table) * (table * table)) table (H := left_store (table * table) (table * table) (H := right_store table table)).
#[local] Instance sources_at : ObjectStore db :=
  left_store ((table * table) * (table * table)) table (H := right_store (table * table) (table * table) (H := left_store table table)).
#[local] Instance heartbeats_at : ObjectStore db :=
  left_store ((table * table) * (table * table)) table (H := right_store (table * table) (table * table) (H := right_store table table)).
#[local] Instance recoveries_at : ObjectStore db := right_store ((table * table) * (table * table)) table.

#[local] Existing Instances Rfc3339.go_time_parser ChangeRequests.bit_codec ChangeRequests.plain_sprinter.

Definition sample_state : GestaltdSourceVersionState :=
  {| sv_CurrentSourceVersion := "abc"; sv_MinimumHealthyInstances := 2; sv_UpdatedAt := Minute;
     sv_TemporalWorkersPromotedSourceVersion := ""; sv_TemporalWorkersPromotedAt := 0;
     sv_AppDeployPauseOwner := ""; sv_AppDeployPauseToken := "" |}.
Definition sample_db : db :=
  (({["r1" := ChangeRequests.changeRequestRecord "r1" "billing" "v1" "v2" "ada" Minute None ∅]},
    {["r1" := RolloutOutcomes.outcomeRecord "r1" "billing" "v2" zero_time (3 * Minute)]}),
   ({[SourceVersions.gestaltdSourceVersionStateID :=
       SourceVersions.gestaltdSourceVersionStateRecord Minute sample_state]},
    rows (contents Heartbeats.sample_store)), ∅).
Definition sample_observer : Observer := NewRecoveryObserver true (2 * Hour) (5 * Minute) 0.
Definition sample_row : idbRecord :=
  RolloutOutcomes.observationRow
    {| RolloutOutcomes.ob_ID := "r1"; RolloutOutcomes.ob_App := "billing";
       RolloutOutcomes.ob_Version := "v2"; RolloutOutcomes.ob_RecoveredAt := Hour + 10 * Minute;
       RolloutOutcomes.ob_SourceVersion := "abc"; RolloutOutcomes.ob_LiveInstances := 2;
       RolloutOutcomes.ob_MinimumHealthyInstances := 2 |}.
Definition sample_pass (o : Observer) (p : time * Env db) :=
  pass_result recoveries_at requests_at outcomes_at sources_at heartbeats_at o p.

Lemma recovery_needs_stability_witness :
  let first := (Hour, mkEnv sample_db []) in
  rows (ObjectStore := recoveries_at)
    (contents (sample_pass (sample_pass sample_observer first).1.2
                 ((Hour + 10 * Minute)%Z, mkEnv sample_db [])).2) !! "r1" = Some sample_row ∧
  ∃ app st, sees_at requests_at outcomes_at sources_at heartbeats_at sample_observer first app st.
Proof.
  split; [vm_cast_no_check (eq_refl (Some sample_row))|].
  destruct (recovery_needs_stability recoveries_at requests_at outcomes_at sources_at heartbeats_at
    sample_observer [(Hour, mkEnv sample_db [])] (Hour + 10 * Minute)%Z (mkEnv sample_db []) "r1" sample_row)
    as (app & st & ps1 & q & ps2 & Heq & _ & _ & _ & Hall).
  - done.
  - done.
  - by vm_compute.
  - vm_cast_no_check (eq_refl (Some sample_row)).
  - exists app, st. apply Hall. destruct ps1 as [|q' [|]]; simplify_eq/=. apply list_elem_of_here.
Defined.
End RecoveryObserver.
