(* ===== verification/CatalogPoller.v ===== *)
(** * CatalogPoller: bringing an instance to the desired versions, and rollouts to their end

    Models [gestaltd/internal/appregistry/poller.go].  Every instance of the fleet polls the
    catalog.  For each app it acknowledges the desired version, downloads it, stops the running
    app, waits for the restart delay and starts the new version, recording each step in its
    materialization; and it moves the app's rollout on: from enrolling to restarting, and to
    its end when the enrolled instances have restarted or the fleet is stably healthy, or when
    the deadline passes.

    The database [D] is shared; the rest of the world is local to the instance: the poller's
    own memory [Node] and the runtime, a state [X] behind the interfaces [AppRestarter] and
    [Materializer] and the clock, all in the record [Runtime].  Everything behind them may
    change the runtime, since other goroutines run as well.  Passes follow each other: the
    loop is one goroutine and [passMu] keeps other passes out. *)

From stdpp Require Import base gmap strings list sorting sets.
From Stdlib Require Import ZArith Ascii Lia.
From S2P Require Import Prelude ObjectStore RegistryTypes Heartbeats FleetState Rollouts.
From S2P Require Import ChangeRequests Materializations RolloutOutcomes.

Set Default Goal Selector "!".

Module CatalogPoller.
Import FleetState(LatestKnownVersion, FleetEvaluation, EvaluateFleetState).
Import Materializations(AppInstanceMaterialization, mt_App, mt_Version, mt_SourceVersion,
  mt_AcknowledgedAt, mt_MaterializedAt, mt_StoppedAt, mt_RestartedAt, mt_AttemptCount).

(** ** The identity of an instance *)

(** [EqualFold] and [newID] are [strings.EqualFold] and [uuid.NewString]. *)
Definition resolveInstanceID (EqualFold : string → string → bool) (newID : string)
    (instanceIDEnv hostname : string) : string :=
  let v := TrimSpace instanceIDEnv in
  if decide (v = "") then
    let host := TrimSpace hostname in
    if bool_decide (host ≠ "") && negb (EqualFold host "localhost") then host else newID
  else v.
Definition ResolveSourceVersion (sourceVersionEnv : string) : string := TrimSpace sourceVersionEnv.

(** ** Installations *)

Definition update_le (left right : AppInstallation) : Prop :=
  (ai_UpdatedAt left < ai_UpdatedAt right)%Z
  ∨ (ai_UpdatedAt left = ai_UpdatedAt right ∧ String.le (ai_Version left) (ai_Version right)).
#[export] Instance update_le_dec a b : Decision (update_le a b) := _.

Definition groupInstallationsByApp (known : list AppInstallation) : gmap string (list AppInstallation) :=
  merge_sort update_le <$> foldl (λ m i, ChangeRequests.push m (TrimSpace (ai_AppName i)) i) ∅ known.

Definition findInstallation (installations : list AppInstallation) (version : string)
    : option AppInstallation :=
  let version := TrimSpace version in
  head (filter (λ i, TrimSpace (ai_Version i) = version) installations).

(** ** Configuration, memory and runtime *)

(** The boolean fields say which services are set. *)
Record Poller := {
  cp_ChangeRequests : bool;
  cp_Materializations : bool;
  cp_Rollouts : bool;
  cp_RolloutOutcomes : bool;
  cp_Heartbeats : bool;
  cp_AppMaterializer : bool;
  cp_AppRestarter : bool;
  cp_InstanceID : string;
  cp_SourceVersion : string;
  cp_Interval : duration;
  cp_RestartDelay : duration;
  cp_DisableRestartDelay : bool;
  cp_MaxReconcileAttempts : Z;
  cp_HeartbeatTTL : duration;
  cp_HealthyStabilityWindow : duration;
  cp_HeartbeatEvaluationInterval : duration }.

Definition set_identity (instanceID sourceVersion : string) (p : Poller) : Poller :=
  {| cp_ChangeRequests := cp_ChangeRequests p; cp_Materializations := cp_Materializations p;
     cp_Rollouts := cp_Rollouts p; cp_RolloutOutcomes := cp_RolloutOutcomes p;
     cp_Heartbeats := cp_Heartbeats p; cp_AppMaterializer := cp_AppMaterializer p;
     cp_AppRestarter := cp_AppRestarter p; cp_InstanceID := instanceID;
     cp_SourceVersion := sourceVersion; cp_Interval := cp_Interval p;
     cp_RestartDelay := cp_RestartDelay p; cp_DisableRestartDelay := cp_DisableRestartDelay p;
     cp_MaxReconcileAttempts := cp_MaxReconcileAttempts p; cp_HeartbeatTTL := cp_HeartbeatTTL p;
     cp_HealthyStabilityWindow := cp_HealthyStabilityWindow p;
     cp_HeartbeatEvaluationInterval := cp_HeartbeatEvaluationInterval p |}.

Definition NewCatalogPoller (cfg : Poller) : Poller :=
  set_identity (TrimSpace (cp_InstanceID cfg)) (TrimSpace (cp_SourceVersion cfg)) cfg.

(** A missing identity is resolved when the loop starts; without its services it does not. *)
Definition Start (resolved : string) (p : Poller) : option Poller :=
  if cp_ChangeRequests p && cp_Materializations p && cp_Rollouts p
  then Some (if decide (TrimSpace (cp_InstanceID p) = "")
             then set_identity resolved (cp_SourceVersion p) p else p)
  else None.

Definition DefaultCatalogPollInterval : duration := Minute.
Definition DefaultCatalogRestartDelay : duration := Minute.
Definition pollInterval (p : Poller) : duration :=
  if (0 <? cp_Interval p)%Z then cp_Interval p else DefaultCatalogPollInterval.
Definition heartbeatEvaluationInterval (p : Poller) : duration :=
  if (0 <? cp_HeartbeatEvaluationInterval p)%Z then cp_HeartbeatEvaluationInterval p else 0%Z.
Definition restartDelay (p : Poller) : duration :=
  if cp_DisableRestartDelay p then 0%Z
  else if (0 <? cp_RestartDelay p)%Z then cp_RestartDelay p else DefaultCatalogRestartDelay.
Definition maxReconcileAttempts (p : Poller) : Z :=
  if (0 <? cp_MaxReconcileAttempts p)%Z then cp_MaxReconcileAttempts p else 3%Z.

(** The memory of the poller: when it stopped each app, the apps a pass is working on, and
    the materializations that the current pass has loaded, which its steps share. *)
Record Node (X : Type) := mkNode {
  nd_stoppedAt : gmap string time;
  nd_inflight : gset string;
  nd_cache : gmap (string * string) AppInstanceMaterialization;
  nd_runtime : X }.
Arguments mkNode {X} _ _ _ _.
Arguments nd_stoppedAt {X} _.
Arguments nd_inflight {X} _.
Arguments nd_cache {X} _.
Arguments nd_runtime {X} _.

Inductive RuntimeError := RuntimeFailed.

(** What a pass asks of its instance.  A missing optional interface is [None]; a channel that
    is closed answers [true]. *)
Record Runtime (X : Type) := {
  rt_Now : X → time * X;
  rt_NewID : X → string * X;
  rt_BootstrapReady : X → bool * X;
  rt_RestartReady : X → bool * X;
  rt_Configured : string → X → bool * X;
  rt_Restartable : string → X → result RuntimeError bool * X;
  rt_AcceptsRegistry : option (string → string → X → bool * X);
  rt_RunningVersion : option (string → X → option string * X);
  rt_StopApp : string → X → result RuntimeError unit * X;
  rt_StartApp : string → string → X → result RuntimeError unit * X;
  rt_Ensure : AppInstallation → X → result RuntimeError bool * X;
  rt_PackageReady : string → string → X → bool * X;
  rt_PruneSuperseded : string → string → X → result RuntimeError unit * X;
  rt_SupersededPruned : string → string → X → result RuntimeError bool * X;
  rt_BeforeRolloutComplete : option (string → string → X → result RuntimeError bool * X);
  rt_OnRolloutTerminal : option (string → X → unit * X);
  rt_AbortRestarts : X → unit * X }.
Arguments rt_Now {X} _.
Arguments rt_NewID {X} _.
Arguments rt_BootstrapReady {X} _.
Arguments rt_RestartReady {X} _.
Arguments rt_Configured {X} _.
Arguments rt_Restartable {X} _.
Arguments rt_AcceptsRegistry {X} _.
Arguments rt_RunningVersion {X} _.
Arguments rt_StopApp {X} _.
Arguments rt_StartApp {X} _.
Arguments rt_Ensure {X} _.
Arguments rt_PackageReady {X} _.
Arguments rt_PruneSuperseded {X} _.
Arguments rt_SupersededPruned {X} _.
Arguments rt_BeforeRolloutComplete {X} _.
Arguments rt_OnRolloutTerminal {X} _.
Arguments rt_AbortRestarts {X} _.

Inductive PollerError :=
  | ErrPollerNotConfigured
  | ErrInstanceIDRequired
  | ErrEvaluatorNotConfigured
  | ErrHeartbeatsNotConfigured
  | ErrHeartbeatTiming
  | ErrSelectDesired (app : string)
  | ErrFindDesired (app : string)
  | ErrRegistryMismatch (app : string)
  | ErrMaterializerRequired (app : string)
  | ErrRuntime (step : string) (e : RuntimeError)
  | ErrKnown (e : ChangeRequests.ChangeRequestError)
  | ErrMaterialization (e : Materializations.MaterializationError)
  | ErrRollout (e : Rollouts.RolloutError)
  | ErrHeartbeat (e : Heartbeats.HeartbeatError)
  | ErrJoined (errs : list PollerError).

(** [if err != nil { return ... }] after a call; [wrap] is the [%w] of the message. *)
Definition attempt {W E F A B} (wrap : E → F) (m : prog W (result E A)) (k : A → prog W (result F B))
    : prog W (result F B) :=
  r ← m; match r with Ok a => k a | Err e => mret (Err (wrap e)) end.
Notation "'let?' x := m 'or' wrap 'in' k" := (attempt wrap m (fun x => k))
  (at level 10, x pattern, m at level 100, wrap at level 100, k at level 200) : go_scope.

Section poller.
  Context `{TP : TimeParser, JC : ChangeRequests.JSONCodec, SP : ChangeRequests.Sprinter}.
  Context {D X : Type} (requests0 mats0 rollouts0 outcomes0 heartbeats0 : ObjectStore D).
  Context (order : ∀ A : Type, gmap string A → list (string * A)).
  Context (ErrorText : PollerError → string).
  Context (p : Poller) (rt : Runtime X).
  Local Abbreviation W := (D * Node X)%type.
  Local Abbreviation M A := (prog (Env W) A).
  Local Abbreviation requests := (left_store D (Node X) (H := requests0)).
  Local Abbreviation mats := (left_store D (Node X) (H := mats0)).
  Local Abbreviation rollouts := (left_store D (Node X) (H := rollouts0)).
  Local Abbreviation outcomes := (left_store D (Node X) (H := outcomes0)).
  Local Abbreviation heartbeats := (left_store D (Node X) (H := heartbeats0)).

(** A step on the local part of the world. *)
Definition local {A} (f : Node X → A * Node X) : M A :=
  atomic (λ env, let '(a, n) := f (contents env).2 in (a, mkEnv ((contents env).1, n) (faults env))).
Definition runtime {A} (f : X → A * X) : M A :=
  local (λ n, let '(a, x) := f (nd_runtime n) in
              (a, mkNode (nd_stoppedAt n) (nd_inflight n) (nd_cache n) x)).

Definition Now : M time := runtime (λ x, let '(t, x) := rt_Now rt x in (Truncate t Millisecond, x)).
Definition RunningVersion (app : string) : M (option string) :=
  match rt_RunningVersion rt with Some f => runtime (f app) | None => mret None end.

(** ** The poller's memory *)

Definition beginInflight (key : string) : M bool :=
  local (λ n, if decide (key ∈ nd_inflight n) then (false, n)
              else (true, mkNode (nd_stoppedAt n) ({[key]} ∪ nd_inflight n) (nd_cache n) (nd_runtime n))).
Definition endInflight (key : string) : M unit :=
  local (λ n, (tt, mkNode (nd_stoppedAt n) (nd_inflight n ∖ {[key]}) (nd_cache n) (nd_runtime n))).
Definition localStoppedAt (app : string) : M (option time) := local (λ n, (nd_stoppedAt n !! app, n)).
Definition rememberStoppedAt (app : string) (value : time) : M time :=
  local (λ n, match nd_stoppedAt n !! app with
              | Some existing => (existing, n)
              | None => (value, mkNode (<[app := value]> (nd_stoppedAt n)) (nd_inflight n)
                                  (nd_cache n) (nd_runtime n))
              end).
Definition forgetStoppedAt (app : string) : M unit :=
  local (λ n, (tt, mkNode (delete app (nd_stoppedAt n)) (nd_inflight n) (nd_cache n) (nd_runtime n))).
Definition cached (key : string * string) : M (option AppInstanceMaterialization) :=
  local (λ n, (nd_cache n !! key, n)).
Definition cache (key : string * string) (m : AppInstanceMaterialization) : M unit :=
  local (λ n, (tt, mkNode (nd_stoppedAt n) (nd_inflight n) (<[key := m]> (nd_cache n)) (nd_runtime n))).
Definition newCache (ms : gmap (string * string) AppInstanceMaterialization) : M unit :=
  local (λ n, (tt, mkNode (nd_stoppedAt n) (nd_inflight n) ms (nd_runtime n))).

(** ** Steps on the materializations *)

Definition getMaterialization (instanceID app version : string) :=
  Materializations.GetMaterialization (OS := mats) true instanceID app version.

Definition ensureAcknowledged (instanceID appName version : string) (rolloutCreatedAt : time)
    : M (result PollerError AppInstanceMaterialization) :=
  let key := (TrimSpace appName, TrimSpace version) in
  existing ← cached key;
  let created := Truncate rolloutCreatedAt Millisecond in
  match match existing with
        | Some e =>
            let sourceVersionPresent := bool_decide (TrimSpace (cp_SourceVersion p) = "")
                                        || bool_decide (TrimSpace (mt_SourceVersion e) ≠ "") in
            let acknowledgementCurrent := IsZero created || negb (Before (mt_AcknowledgedAt e) created) in
            if sourceVersionPresent && acknowledgementCurrent then Some e else None
        | None => None
        end with
  | Some e => mret (Ok e)
  | None =>
      (* the truncation stays when there was an earlier row *)
      let created := match existing with Some _ => created | None => rolloutCreatedAt end in
      acknowledgedAt ← Now;
      newID ← runtime (rt_NewID rt);
      let input := {| Materializations.mt_InstanceID := instanceID;
                      Materializations.mt_SourceVersion := TrimSpace (cp_SourceVersion p);
                      Materializations.mt_App := appName; Materializations.mt_Version := version;
                      Materializations.mt_AcknowledgedAt := acknowledgedAt;
                      Materializations.mt_MaterializedAt := zero_time;
                      Materializations.mt_StoppedAt := zero_time;
                      Materializations.mt_RestartedAt := zero_time;
                      Materializations.mt_AttemptCount := 0;
                      Materializations.mt_LastErrorAt := zero_time;
                      Materializations.mt_LastErrorMessage := "" |} in
      let? m := (if IsZero created
                 then Materializations.Acknowledge (OS := mats) true acknowledgedAt newID (Some input)
                 else Materializations.AcknowledgeForRollout (OS := mats) true acknowledgedAt newID
                        (Some input) created) or ErrMaterialization in
      _ ← cache key m;
      mret (Ok m)
  end.

(** The loop over the pending installations of [markPendingStopped] and [markAllRestarted]. *)
Fixpoint markPendingStopped (instanceID appName : string) (pending : list AppInstallation)
    (stoppedAt : time) : M (result PollerError unit) :=
  match pending with
  | [] => mret (Ok tt)
  | installation :: pending =>
      let version := TrimSpace (ai_Version installation) in
      if decide (version = "") then markPendingStopped instanceID appName pending stoppedAt else
      let? m := getMaterialization instanceID appName version or ErrMaterialization in
      if negb (IsZero (mt_StoppedAt m)) then markPendingStopped instanceID appName pending stoppedAt else
      let? _ := Materializations.MarkStopped (OS := mats) true stoppedAt instanceID appName version
                  stoppedAt or ErrMaterialization in
      markPendingStopped instanceID appName pending stoppedAt
  end.

Fixpoint markAllRestarted (instanceID appName : string) (pending : list AppInstallation)
    (restartedAt : time) : M (result PollerError unit) :=
  match pending with
  | [] => mret (Ok tt)
  | installation :: pending =>
      let version := TrimSpace (ai_Version installation) in
      let? m := getMaterialization instanceID appName version or ErrMaterialization in
      if negb (IsZero (mt_RestartedAt m)) then markAllRestarted instanceID appName pending restartedAt else
      let? _ := Materializations.MarkRestarted (OS := mats) true restartedAt instanceID appName version
                  restartedAt or ErrMaterialization in
      markAllRestarted instanceID appName pending restartedAt
  end.
Definition markCatalogConverged := markAllRestarted.

Fixpoint earliestOf (instanceID appName : string) (pending : list AppInstallation)
    (earliest : option time) : M (result PollerError (option time)) :=
  match pending with
  | [] => mret (Ok earliest)
  | installation :: pending =>
      let version := TrimSpace (ai_Version installation) in
      if decide (version = "") then earliestOf instanceID appName pending earliest else
      let? m := getMaterialization instanceID appName version or ErrMaterialization in
      earliestOf instanceID appName pending
        (if IsZero (mt_StoppedAt m) then earliest
         else match earliest with
              | Some e => if Before (mt_StoppedAt m) e then Some (mt_StoppedAt m) else Some e
              | None => Some (mt_StoppedAt m)
              end)
  end.
Definition earliestStoppedAt (instanceID appName : string) (pending : list AppInstallation)
    : M (result PollerError (option time)) :=
  earliest ← localStoppedAt appName; earliestOf instanceID appName pending earliest.

Definition ensureDesiredMaterialized (instanceID : string) (desired : AppInstallation)
    : M (result PollerError unit) :=
  let appName := TrimSpace (ai_AppName desired) in
  let version := TrimSpace (ai_Version desired) in
  if bool_decide (appName = "") || bool_decide (version = "")
     || bool_decide (TrimSpace (ai_Registry desired) = "") then mret (Ok tt) else
  if negb (cp_AppMaterializer p) then mret (Err (ErrMaterializerRequired appName)) else
  let? m := getMaterialization instanceID appName version or ErrMaterialization in
  let? changed := runtime (rt_Ensure rt desired) or ErrRuntime "materialize" in
  if negb changed && negb (IsZero (mt_MaterializedAt m)) then mret (Ok tt) else
  materializedAt ← Now;
  let? _ := Materializations.MarkMaterialized (OS := mats) true materializedAt instanceID appName
              version materializedAt or ErrMaterialization in
  mret (Ok tt).

Definition desiredVersionMaterialized (instanceID : string) (desired : AppInstallation)
    : M (result PollerError bool) :=
  if decide (TrimSpace (ai_Registry desired) = "") then mret (Ok true) else
  let appName := TrimSpace (ai_AppName desired) in
  let version := TrimSpace (ai_Version desired) in
  let? m := getMaterialization instanceID appName version or ErrMaterialization in
  if IsZero (mt_MaterializedAt m) || negb (cp_AppMaterializer p) then mret (Ok false) else
  ready ← runtime (rt_PackageReady rt appName version); mret (Ok ready).

Definition pruneSuperseded (appName desiredVersion : string) : M (result PollerError unit) :=
  if negb (cp_AppMaterializer p) then mret (Ok tt) else
  let? _ := runtime (rt_PruneSuperseded rt appName desiredVersion) or ErrRuntime "prune" in mret (Ok tt).
Definition supersededPruned (appName desiredVersion : string) : M (result PollerError bool) :=
  if negb (cp_AppMaterializer p) then mret (Ok true) else
  let? pruned := runtime (rt_SupersededPruned rt appName desiredVersion) or ErrRuntime "inspect" in
  mret (Ok pruned).

(** ** The end of a rollout *)

(** Recording an outcome; errors are logged only.  Metrics are left out. *)
Definition recordRolloutOutcome (rollout : AppRollout) : M unit :=
  if negb (cp_RolloutOutcomes p && cp_ChangeRequests p) then mret tt else
  let completedAt := if decide (r_State rollout = RolloutComplete) then r_CompletedAt rollout else zero_time in
  let failedAt := if decide (r_State rollout = RolloutFailed) then r_FailedAt rollout else zero_time in
  if IsZero completedAt && IsZero failedAt then mret tt else
  id ← ChangeRequests.LatestRevisionIDForVersion (OS := requests) (r_App rollout) (r_Version rollout);
  match id with
  | Err _ => mret tt
  | Ok id =>
      if decide (id = "") then mret tt else
      _ ← (if negb (IsZero completedAt)
           then RolloutOutcomes.RecordComplete (OS := outcomes) true id (r_App rollout) (r_Version rollout)
                  completedAt
           else RolloutOutcomes.RecordFailed (OS := outcomes) true id (r_App rollout) (r_Version rollout)
                  failedAt);
      mret tt
  end.

Definition notifyRolloutTerminal (app : string) : M unit :=
  match rt_OnRolloutTerminal rt with Some f => runtime (f (TrimSpace app)) | None => mret tt end.

Definition prepareRolloutCompletion (rollout : AppRollout) : M (result PollerError bool) :=
  match rt_BeforeRolloutComplete rt with
  | None => mret (Ok true)
  | Some f =>
      let? ready := runtime (f (r_App rollout) (r_Version rollout)) or ErrRuntime "prepare" in
      mret (Ok ready)
  end.

(** What follows a transition to a terminal state; an epoch mismatch is no error. *)
Definition concluded (updated : result Rollouts.RolloutError AppRollout)
    : M (result PollerError bool) :=
  match updated with
  | Err Rollouts.ErrAppRolloutEpochMismatch => mret (Ok false)
  | Err e => mret (Err (ErrRollout e))
  | Ok updated => _ ← recordRolloutOutcome updated; _ ← notifyRolloutTerminal (r_App updated); mret (Ok true)
  end.

(** An instance is in the cohort when it acknowledged while the rollout enrolled. *)
Definition enrolled (rollout : AppRollout) (m : AppInstanceMaterialization) : bool :=
  negb (Before (mt_AcknowledgedAt m) (r_CreatedAt rollout))
  && Before (mt_AcknowledgedAt m) (r_EnrollmentEndsAt rollout)
  && let target := TrimSpace (r_TargetSourceVersion rollout) in
     bool_decide (target = "") || bool_decide (TrimSpace (mt_SourceVersion m) = target).
Definition restartedInTime (rollout : AppRollout) (m : AppInstanceMaterialization) : bool :=
  negb (Before (mt_RestartedAt m) (r_CreatedAt rollout))
  && negb (After (mt_RestartedAt m) (r_Deadline rollout)).

(** The loop over the cohort: whether it has converged, and how many members it counted. *)
Fixpoint cohortLoop (rollout : AppRollout) (ms : list AppInstanceMaterialization) (count : Z)
    : bool * Z :=
  match ms with
  | [] => (true, count)
  | m :: ms =>
      if negb (enrolled rollout m) then cohortLoop rollout ms count
      else if negb (restartedInTime rollout m) then (false, (count + 1)%Z)
      else cohortLoop rollout ms (count + 1)%Z
  end.
Definition cohortConverged (rollout : AppRollout) (ms : list AppInstanceMaterialization) : bool :=
  let '(converged, count) := cohortLoop rollout ms 0 in
  if (count =? 0)%Z then false else converged.

Definition heartbeatEvaluation (rollout : AppRollout) (now : time)
    (hbs : list GestaltdInstanceHeartbeat) : FleetEvaluation :=
  {| FleetState.fe_App := r_App rollout; FleetState.fe_DesiredVersion := r_Version rollout;
     FleetState.fe_SourceVersion := r_TargetSourceVersion rollout;
     FleetState.fe_MinimumHealthyInstances := r_MinimumHealthyInstances rollout;
     FleetState.fe_Cutoff := (now - cp_HeartbeatTTL p)%Z; FleetState.fe_EvaluatedAt := now;
     FleetState.fe_Heartbeats := map Some hbs; FleetState.fe_ActiveRollout := None |}.

Definition failureSummary (projection : AppFleetProjection) : AppRolloutFailureSummary :=
  {| fs_LiveInstances := fp_LiveInstances projection; fs_MinimumHealthyInstances := 0;
     fs_RunningDesiredVersion := fp_RunningDesiredVersion projection;
     fs_NotRunning := fp_NotRunning projection; fs_Mismatched := fp_Mismatched projection;
     fs_Errors := fp_Errors projection; fs_SourceVersion := ""; fs_Version := "";
     fs_EvaluatedAt := zero_time |}.

(** The last part of [updateHeartbeatRolloutOutcome]. *)
Definition evaluateHeartbeats (rollout : AppRollout) (now : time) (projection : AppFleetProjection)
    (healthy : bool) : M (result PollerError bool) :=
  r ← Rollouts.EvaluateHeartbeatRollout (OS := rollouts) true now (Some rollout)
        {| Rollouts.ev_Healthy := healthy;
           Rollouts.ev_StabilityWindow := cp_HealthyStabilityWindow p;
           Rollouts.ev_EvaluatedAt := now;
           Rollouts.ev_FailureSummary := failureSummary projection |};
  match r with
  | Err e => concluded (Err e)
  | Ok (_, false) => mret (Ok false)
  | Ok (updated, true) => concluded (Ok updated)
  end.

(** The part after the heartbeats are listed. *)
Definition judgeHeartbeats (rollout : AppRollout) (now : time) (hbs : list GestaltdInstanceHeartbeat)
    : M (result PollerError bool) :=
  let projection := EvaluateFleetState (heartbeatEvaluation rollout now hbs) in
  let healthy := bool_decide (fp_State projection = FleetHealthy) in
  let stableAt := (r_HealthySince rollout + cp_HealthyStabilityWindow p)%Z in
  if healthy && negb (IsZero (r_HealthySince rollout)) && negb (Before now stableAt)
     && negb (After stableAt (r_Deadline rollout))
  then
    prepared ← prepareRolloutCompletion rollout;
    match prepared with
    | Err e => if Before now (r_Deadline rollout) then mret (Err e)
               else evaluateHeartbeats rollout now projection false
    | Ok false => mret (Ok false)
    | Ok true => evaluateHeartbeats rollout now projection healthy
    end
  else evaluateHeartbeats rollout now projection healthy.

Definition updateHeartbeatRolloutOutcome (rollout : AppRollout) : M (result PollerError bool) :=
  if negb (cp_Heartbeats p) then mret (Err ErrHeartbeatsNotConfigured) else
  if (cp_HeartbeatTTL p <=? 0)%Z || (cp_HealthyStabilityWindow p <=? 0)%Z
  then mret (Err ErrHeartbeatTiming) else
  now ← Now;
  let? hbs := Heartbeats.ListFreshBySourceVersion (OS := heartbeats) true
                (r_TargetSourceVersion rollout) (now - cp_HeartbeatTTL p)%Z or ErrHeartbeat in
  judgeHeartbeats rollout now hbs.

(** The last part of [updateRolloutOutcome]: failing a rollout that is overdue. *)
Definition failOverdue (rollout : AppRollout) : M (result PollerError bool) :=
  now ← Now;
  if Before now (r_Deadline rollout) then mret (Ok false) else
  failedAt ← Now;
  updated ← Rollouts.MarkFailedForRollout (OS := rollouts) true failedAt (Some rollout) failedAt;
  concluded updated.

Definition updateRolloutOutcome (rollout : AppRollout) : M (result PollerError bool) :=
  if decide (r_Mode rollout = ModeHeartbeat) then updateHeartbeatRolloutOutcome rollout else
  let? ms := Materializations.ListByAppVersion (OS := mats) true (r_App rollout) (r_Version rollout)
               or ErrMaterialization in
  if cohortConverged rollout ms then
    prepared ← prepareRolloutCompletion rollout;
    match prepared with
    | Err e => now ← Now;
               if Before now (r_Deadline rollout) then mret (Err e) else failOverdue rollout
    | Ok false => failOverdue rollout
    | Ok true =>
        completedAt ← Now;
        updated ← Rollouts.MarkCompleteForRollout (OS := rollouts) true completedAt (Some rollout)
                    completedAt;
        concluded updated
    end
  else failOverdue rollout.

(** ** Reconciling an app *)

(** What the part about the rollout hands to the part about this instance. *)
Record Phase := {
  ph_rollout : option AppRollout; ph_restartBlocked : bool;
  ph_materialization : option AppInstanceMaterialization; ph_version : string }.

(** A rollout whose version the catalog does not list. *)
Definition rolloutWithoutVersion (rollout : AppRollout) : M (result PollerError unit) :=
  if decide (r_Mode rollout = ModeHeartbeat)
  then let? _ := updateHeartbeatRolloutOutcome rollout or id in mret (Ok tt)
  else let? _ := failOverdue rollout or id in mret (Ok tt).

(** Restarting begins when the enrollment has ended; [None] is an epoch mismatch. *)
Definition endEnrollment (rollout : AppRollout) : M (result PollerError (option (AppRollout * bool))) :=
  if decide (r_State rollout = RolloutEnrolling) then
    now ← Now;
    if Before now (r_EnrollmentEndsAt rollout) then mret (Ok (Some (rollout, true))) else
    updated ← Rollouts.MarkRestartingForRollout (OS := rollouts) true now (Some rollout);
    mret (match updated with
          | Ok r => Ok (Some (r, false))
          | Err Rollouts.ErrAppRolloutEpochMismatch => Ok None
          | Err e => Err (ErrRollout e)
          end)
  else mret (Ok (Some (rollout, false))).

Definition rolloutPhase (instanceID appName : string) (installations : list AppInstallation)
    (configured : bool) (rollout : AppRollout) : M (result PollerError (option Phase)) :=
  let version := TrimSpace (r_Version rollout) in
  match findInstallation installations version with
  | None => let? _ := rolloutWithoutVersion rollout or id in mret (Ok None)
  | Some _ =>
      let? materialization :=
        (if configured : bool
         then let? m := ensureAcknowledged instanceID appName version (r_CreatedAt rollout) or id in
              mret (Ok (Some m))
         else mret (Ok None)) or id in
      let? advanced := endEnrollment rollout or id in
      match advanced with
      | None => mret (Ok None)
      | Some (rollout, blocked) =>
          let? terminal :=
            (if decide (r_State rollout = RolloutRestarting) then updateRolloutOutcome rollout
             else mret (Ok false)) or id in
          mret (Ok (Some {| ph_rollout := if terminal : bool then None else Some rollout;
                            ph_restartBlocked := blocked; ph_materialization := materialization;
                            ph_version := version |}))
      end
  end.

(** At the retry limit the poller only notes that the desired version runs after all. *)
Definition settleAtLimit (instanceID appName driver : string) (desired : AppInstallation)
    : M (result PollerError unit) :=
  if negb (bool_decide (is_Some (rt_RunningVersion rt))) then mret (Ok tt) else
  running ← RunningVersion appName;
  let? materialized := desiredVersionMaterialized instanceID desired or id in
  let? pruned := supersededPruned appName driver or id in
  if bool_decide (running = Some driver) && materialized && pruned
  then now ← Now; markAllRestarted instanceID appName [desired] now
  else mret (Ok tt).

(** Stopping the app unless it is stopped; the time since when it is. *)
Definition ensureStopped (instanceID appName driver : string) (desired : AppInstallation)
    : M (result PollerError time) :=
  let? stopped := earliestStoppedAt instanceID appName [desired] or id in
  running ← RunningVersion appName;
  let alreadyStopped := match running with
                        | Some v => if decide (v = driver) then stopped else None
                        | None => stopped
                        end in
  match alreadyStopped with
  | Some stoppedAt => mret (Ok stoppedAt)
  | None =>
      let? _ := runtime (rt_StopApp rt appName) or ErrRuntime "stop" in
      now ← Now;
      stoppedAt ← rememberStoppedAt appName now;
      mret (Ok stoppedAt)
  end.

Definition restart (instanceID appName driver : string) (desired : AppInstallation)
    (rollout : option AppRollout) : M (result PollerError unit) :=
  let? stoppedAt := ensureStopped instanceID appName driver desired or id in
  let? _ := markPendingStopped instanceID appName [desired] stoppedAt or id in
  let delay := restartDelay p in
  waiting ← (if (0 <? delay)%Z then now ← Now; mret (Sub now stoppedAt <? delay)%Z else mret false);
  if waiting : bool then mret (Ok tt) else
  let? _ := runtime (rt_StartApp rt appName driver) or ErrRuntime "start" in
  let? _ := pruneSuperseded appName driver or id in
  restartedAt ← Now;
  let? _ := markAllRestarted instanceID appName [desired] restartedAt or id in
  _ ← forgetStoppedAt appName;
  match rollout with
  | Some r => if decide (r_State r = RolloutRestarting)
              then let? _ := updateRolloutOutcome r or id in mret (Ok tt)
              else mret (Ok tt)
  | None => mret (Ok tt)
  end.

(** Bringing the instance to [desired], whose materialization is [m]. *)
Definition converge (instanceID appName driver : string) (desired : AppInstallation)
    (m : AppInstanceMaterialization) (rollout : option AppRollout) (restartBlocked : bool)
    : M (result PollerError unit) :=
  let retryLimitReached := (maxReconcileAttempts p <=? mt_AttemptCount m)%Z in
  if negb (cp_AppRestarter p) then mret (Ok tt) else
  let? restartable := runtime (rt_Restartable rt appName) or ErrRuntime "restartable" in
  if negb restartable then
    if restartBlocked then mret (Ok tt) else
    convergedAt ← Now; markCatalogConverged instanceID appName [desired] convergedAt
  else
  let? _ := ensureDesiredMaterialized instanceID desired or id in
  if restartBlocked then mret (Ok tt) else
  if retryLimitReached then settleAtLimit instanceID appName driver desired else
  running ← RunningVersion appName;
  if decide (running = Some driver) then
    let? _ := pruneSuperseded appName driver or id in
    now ← Now; markAllRestarted instanceID appName [desired] now
  else
  ready ← runtime (rt_RestartReady rt);
  if negb ready then mret (Ok tt) else
  restart instanceID appName driver desired rollout.

(** The registry of an installation must be the configured one, where the restarter says. *)
Definition acceptsRegistry (appName registry : string) : M bool :=
  if negb (cp_AppRestarter p) then mret true else
  match rt_AcceptsRegistry rt with Some f => runtime (f appName registry) | None => mret true end.

Definition reconcileInstance (instanceID appName : string) (installations : list AppInstallation)
    (ph : Phase) : M (result PollerError unit) :=
  let driver := LatestKnownVersion (Some <$> installations) in
  if decide (driver = "") then mret (Err (ErrSelectDesired appName)) else
  match findInstallation installations driver with
  | None => mret (Err (ErrFindDesired appName))
  | Some desired =>
      let? m := (match ph_materialization ph with
                 | Some m => if decide (ph_version ph = driver) then mret (Ok m)
                             else ensureAcknowledged instanceID appName driver (ai_UpdatedAt desired)
                 | None => ensureAcknowledged instanceID appName driver (ai_UpdatedAt desired)
                 end) or id in
      if negb (IsZero (mt_RestartedAt m)) then mret (Ok tt) else
      accepted ← acceptsRegistry appName (ai_Registry desired);
      if negb accepted then mret (Err (ErrRegistryMismatch appName)) else
      converge instanceID appName driver desired m (ph_rollout ph) (ph_restartBlocked ph)
  end.

Definition reconcileLocked (instanceID appName : string) (configured : bool)
    (installations : list AppInstallation) (rollout : option AppRollout)
    : M (result PollerError unit) :=
  let? ph := (match rollout with
              | Some r => rolloutPhase instanceID appName installations configured r
              | None => mret (Ok (Some {| ph_rollout := None; ph_restartBlocked := false;
                                          ph_materialization := None; ph_version := "" |}))
              end) or id in
  match ph with
  | None => mret (Ok tt)
  | Some ph =>
      if negb configured || bool_decide (installations = []) then mret (Ok tt)
      else reconcileInstance instanceID appName installations ph
  end.

Definition reconcileApp (instanceID appName : string) (installations : list AppInstallation)
    (rollout : option AppRollout) : M (result PollerError unit) :=
  let appName := TrimSpace appName in
  if decide (appName = "") then mret (Ok tt) else
  configured ← (if cp_AppRestarter p then runtime (rt_Configured rt appName) else mret true);
  begun ← beginInflight appName;
  if negb begun then mret (Ok tt) else
  r ← reconcileLocked instanceID appName configured installations rollout;
  _ ← endInflight appName;
  mret r.

(** ** Passes *)

Definition recordFailure (instanceID appName : string) (installations : list AppInstallation)
    (reconcileErr : PollerError) : M PollerError :=
  let version := LatestKnownVersion (Some <$> installations) in
  if decide (version = "") then mret reconcileErr else
  failedAt ← Now;
  r ← Materializations.RecordFailure (OS := mats) true failedAt instanceID appName version failedAt
        (ErrorText reconcileErr);
  mret (match r with
        | Ok _ => reconcileErr
        | Err e => ErrJoined [reconcileErr; ErrMaterialization e]
        end).

Fixpoint reconcileKnown (instanceID : string) (byApp : list (string * list AppInstallation))
    (activeByApp : gmap string AppRollout) : M (list PollerError * gmap string AppRollout) :=
  match byApp with
  | [] => mret ([], activeByApp)
  | (appName, installations) :: byApp =>
      r ← reconcileApp instanceID appName installations (activeByApp !! appName);
      errs ← (match r with
              | Ok _ => mret []
              | Err e => e ← recordFailure instanceID appName installations e; mret [e]
              end);
      rest ← reconcileKnown instanceID byApp (delete appName activeByApp);
      mret (errs ++ rest.1, rest.2)
  end.

Fixpoint reconcileActive (instanceID : string) (active : list (string * AppRollout))
    : M (list PollerError) :=
  match active with
  | [] => mret []
  | (appName, rollout) :: active =>
      r ← reconcileApp instanceID appName [] (Some rollout);
      rest ← reconcileActive instanceID active;
      mret (match r with Ok _ => rest | Err e => e :: rest end)
  end.

Definition join (errs : list PollerError) : result PollerError unit :=
  match errs with [] => Ok tt | _ => Err (ErrJoined errs) end.

Definition materializationKey (m : AppInstanceMaterialization) : string * string :=
  (TrimSpace (mt_App m), TrimSpace (mt_Version m)).

(** Later entries of a slice replace earlier ones with the same key. *)
Definition byKey (ms : list AppInstanceMaterialization)
    : gmap (string * string) AppInstanceMaterialization :=
  foldl (λ out m, <[materializationKey m := m]> out) ∅ ms.
Definition activeRolloutsByApp (active : list AppRollout) : gmap string AppRollout :=
  foldl (λ out r, if decide (TrimSpace (r_App r) = "") then out else <[TrimSpace (r_App r) := r]> out)
        ∅ active.

Definition ReconcileOnce : M (result PollerError unit) :=
  if negb (cp_ChangeRequests p && cp_Materializations p && cp_Rollouts p)
  then mret (Err ErrPollerNotConfigured) else
  ready ← runtime (rt_BootstrapReady rt);
  if negb ready then mret (Ok tt) else
  let instanceID := TrimSpace (cp_InstanceID p) in
  if decide (instanceID = "") then mret (Err ErrInstanceIDRequired) else
  let? known := ChangeRequests.ListAllKnownVersions (OS := requests) true or ErrKnown in
  let? ms := Materializations.ListByInstance (OS := mats) true instanceID or ErrMaterialization in
  _ ← newCache (byKey ms);
  let? active := Rollouts.ListActive (OS := rollouts) true or ErrRollout in
  out ← reconcileKnown instanceID (order _ (groupInstallationsByApp known)) (activeRolloutsByApp active);
  errs ← reconcileActive instanceID (order _ out.2);
  mret (join (out.1 ++ errs)).

Fixpoint evaluateEach (active : list AppRollout) : M (list PollerError) :=
  match active with
  | [] => mret []
  | rollout :: active =>
      if decide (r_Mode rollout = ModeHeartbeat) then
        r ← updateHeartbeatRolloutOutcome rollout;
        rest ← evaluateEach active;
        mret (match r with Ok _ => rest | Err e => e :: rest end)
      else evaluateEach active
  end.

Definition EvaluateHeartbeatRolloutsOnce : M (result PollerError unit) :=
  if negb (cp_Rollouts p) then mret (Err ErrEvaluatorNotConfigured) else
  ready ← runtime (rt_BootstrapReady rt);
  if negb ready then mret (Ok tt) else
  let? active := Rollouts.ListActive (OS := rollouts) true or ErrRollout in
  errs ← evaluateEach active;
  mret (join errs).

(** The loop: a pass when the daemon is up, on every tick and for every notification, and
    evaluations on the ticks of their own.  A notification that comes while one waits is
    dropped: [notified] is the channel of one. *)
Inductive event := Notified | Woken | Ticked | HeartbeatTicked.

Definition turn (notified : bool) (e : event) : M bool :=
  match e with
  | Notified => mret true
  | Woken => if notified then _ ← ReconcileOnce; mret false else mret false
  | Ticked => _ ← ReconcileOnce; mret notified
  | HeartbeatTicked =>
      if (0 <? heartbeatEvaluationInterval p)%Z
      then _ ← EvaluateHeartbeatRolloutsOnce; mret notified else mret notified
  end.
Fixpoint turns (notified : bool) (events : list event) : M unit :=
  match events with
  | [] => mret tt
  | e :: events => notified ← turn notified e; turns notified events
  end.
Definition loop (events : list event) : M unit := _ ← ReconcileOnce; turns false events.

(** After the loop has ended. *)
Definition Stop : M unit := if cp_AppRestarter p then runtime (rt_AbortRestarts rt) else mret tt.
End poller.
End CatalogPoller.
