(* ===== verification/CatalogPollerSafety.v ===== *)
(** * CatalogPollerSafety: when the poller may stop and start an app

    Theorems about CatalogPoller.v.  To speak about what a pass asked of its instance the
    runtime is wrapped so that it keeps a log ([logged]); the poller cannot see the log.
    [tr] is a program logic for passes: it tracks the log and the poller's memory and leaves
    the database to change in any way and to fail in any way.  [wp] is used where the
    contents of the database matter. *)

From stdpp Require Import base gmap strings list sorting sets.
From Stdlib Require Import ZArith Ascii Lia.
From S2P Require Import Prelude ObjectStore RegistryTypes Heartbeats FleetState Rollouts.
From S2P Require Import ChangeRequests Materializations RolloutOutcomes CatalogPoller.

Set Default Goal Selector "!".

Module CatalogPollerSafety.
Import CatalogPoller.
Import FleetState(LatestKnownVersion).
Import Materializations(AppInstanceMaterialization, mark(..), mat_key, wf_mats, stored, gentle_but, trimmed_key).

(** ** The log of the runtime *)

Inductive entry :=
  | LClock (t : time)
  | LRestartReady (ready : bool)
  | LConfigured (app : string) (configured : bool)
  | LRestartable (app : string) (r : result RuntimeError bool)
  | LRunning (app : string) (version : option string)
  | LEnsure (installation : AppInstallation) (r : result RuntimeError bool)
  | LPrepare (r : result RuntimeError bool)
  | LStop (app : string) (r : result RuntimeError unit)
  | LStart (app version : string) (r : result RuntimeError unit).

(** The calls that take an app down or bring it up. *)
Definition is_call (e : entry) : bool :=
  match e with LStop _ _ | LStart _ _ _ => true | _ => false end.
Definition calls (l : list entry) : list entry := filter (λ e, is_call e = true) l.

Lemma calls_app l1 l2 : calls (l1 ++ l2) = calls l1 ++ calls l2.
Proof. apply filter_app. Qed.

Lemma calls_clock t l : calls (LClock t :: l) = calls l.
Proof. done. Qed.

Lemma calls_start app v r l : calls (LStart app v r :: l) = LStart app v r :: calls l.
Proof. done. Qed.

Section wrapper.
  Context {X : Type}.

(** The same call with an entry for its answer, and without one. *)
Definition logging {A} (f : X → A * X) (e : A → entry) : X * list entry → A * (X * list entry) :=
  λ '(x, l), let '(a, x) := f x in (a, (x, l ++ [e a])).
Definition unlogged {A} (f : X → A * X) : X * list entry → A * (X * list entry) :=
  λ '(x, l), let '(a, x) := f x in (a, (x, l)).

Definition logged (rt : Runtime X) : Runtime (X * list entry) :=
  {| rt_Now := logging (rt_Now rt) LClock;
     rt_NewID := unlogged (rt_NewID rt);
     rt_BootstrapReady := unlogged (rt_BootstrapReady rt);
     rt_RestartReady := logging (rt_RestartReady rt) LRestartReady;
     rt_Configured app := logging (rt_Configured rt app) (LConfigured app);
     rt_Restartable app := logging (rt_Restartable rt app) (LRestartable app);
     rt_AcceptsRegistry := (λ f app registry, unlogged (f app registry)) <$> rt_AcceptsRegistry rt;
     rt_RunningVersion := (λ f app, logging (f app) (LRunning app)) <$> rt_RunningVersion rt;
     rt_StopApp app := logging (rt_StopApp rt app) (LStop app);
     rt_StartApp app v := logging (rt_StartApp rt app v) (LStart app v);
     rt_Ensure i := logging (rt_Ensure rt i) (LEnsure i);
     rt_PackageReady app v := unlogged (rt_PackageReady rt app v);
     rt_PruneSuperseded app v := unlogged (rt_PruneSuperseded rt app v);
     rt_SupersededPruned app v := unlogged (rt_SupersededPruned rt app v);
     rt_BeforeRolloutComplete := (λ f app v, logging (f app v) LPrepare) <$> rt_BeforeRolloutComplete rt;
     rt_OnRolloutTerminal := (λ f app, unlogged (f app)) <$> rt_OnRolloutTerminal rt;
     rt_AbortRestarts := unlogged (rt_AbortRestarts rt) |}.
End wrapper.

(** ** Calls to the database leave the instance alone *)

Definition node_same {D N} (w w' : D * N) : Prop := w'.2 = w.2.
#[export] Instance node_same_preorder {D N} : PreOrder (@node_same D N).
Proof. split; [done|]. intros w1 w2 w3 H1 H2. unfold node_same in *. congruence. Qed.

Abbreviation on_db := (keeps node_same).

Section on_db.
  Context {D N : Type} (s : ObjectStore D).
  Local Abbreviation st := (left_store D N (H := s)).

Lemma on_db_Put rec : on_db (Put (OS := st) rec).
Proof. by apply keeps_fallible; [apply _|]. Qed.
Lemma on_db_Add rec : on_db (Add (OS := st) rec).
Proof.
  apply keeps_fallible; [apply _|]. intros w. unfold add_row.
  by destruct (rows w !! record_id rec).
Qed.
Lemma on_db_AddUnique rec : on_db (Materializations.AddUnique (OS := st) rec).
Proof.
  apply keeps_fallible; [apply _|]. intros w. unfold Materializations.add_unique, add_row.
  destruct (Materializations.key_of rec); [case_decide|]; try done; by destruct (rows w !! record_id rec).
Qed.
End on_db.

Ltac on_db_tac :=
  repeat first [apply on_db_Put | apply on_db_Add | apply on_db_AddUnique
               | apply keeps_fallible; [apply _|done] | keeps_step].

Section services.
  Context `{TP : TimeParser, JC : ChangeRequests.JSONCodec, SP : ChangeRequests.Sprinter}.
  Context {D N : Type} (s : ObjectStore D).
  Local Abbreviation st := (left_store D N (H := s)).

Lemma on_db_GetMaterialization i a v :
  on_db (Materializations.GetMaterialization (OS := st) true i a v).
Proof. unfold Materializations.GetMaterialization, Materializations.findByInstanceAppVersion. on_db_tac. Qed.
Lemma on_db_updateTimestamps i a v f :
  on_db (Materializations.updateTimestamps (OS := st) true i a v f).
Proof.
  unfold Materializations.updateTimestamps, Materializations.findByInstanceAppVersion,
    Materializations.putAndReturn. on_db_tac.
Qed.
Lemma on_db_acknowledge now id m created :
  on_db (Materializations.acknowledge (OS := st) true now id m created).
Proof.
  unfold Materializations.acknowledge, Materializations.findByInstanceAppVersion,
    Materializations.reacknowledge, Materializations.putAndReturn. on_db_tac.
Qed.
Lemma on_db_RecordFailure now i a v t text :
  on_db (Materializations.RecordFailure (OS := st) true now i a v t text).
Proof. unfold Materializations.RecordFailure. on_db_tac. Qed.
Lemma on_db_ListByInstance i : on_db (Materializations.ListByInstance (OS := st) true i).
Proof. unfold Materializations.ListByInstance. on_db_tac. Qed.
Lemma on_db_ListByAppVersion a v : on_db (Materializations.ListByAppVersion (OS := st) true a v).
Proof. unfold Materializations.ListByAppVersion. on_db_tac. Qed.
Lemma on_db_ListActive : on_db (Rollouts.ListActive (OS := st) true).
Proof. unfold Rollouts.ListActive. on_db_tac. Qed.
Lemma on_db_transition now x state at_ :
  on_db (Rollouts.transitionForRollout (OS := st) true now x state at_).
Proof.
  unfold Rollouts.transitionForRollout, Rollouts.transition, Rollouts.in_transaction, Rollouts.finish.
  on_db_tac.
Qed.
Lemma on_db_Evaluate now x ev : on_db (Rollouts.EvaluateHeartbeatRollout (OS := st) true now x ev).
Proof.
  unfold Rollouts.EvaluateHeartbeatRollout, Rollouts.in_transaction, Rollouts.finish. on_db_tac.
Qed.
Lemma on_db_ListFresh source cutoff :
  on_db (Heartbeats.ListFreshBySourceVersion (OS := st) true source cutoff).
Proof. unfold Heartbeats.ListFreshBySourceVersion. on_db_tac. Qed.
Lemma on_db_LatestRevision a v : on_db (ChangeRequests.LatestRevisionIDForVersion (OS := st) a v).
Proof. unfold ChangeRequests.LatestRevisionIDForVersion, ChangeRequests.ListRequestsByApp. on_db_tac. Qed.
Lemma on_db_ListKnown : on_db (ChangeRequests.ListAllKnownVersions (OS := st) true).
Proof. unfold ChangeRequests.ListAllKnownVersions, ChangeRequests.listAllRequests. on_db_tac. Qed.
Lemma on_db_recordOutcome id a v t1 t2 :
  on_db (RolloutOutcomes.recordOutcome (OS := st) true id a v t1 t2).
Proof.
  unfold RolloutOutcomes.recordOutcome, RolloutOutcomes.EnsureStore, RolloutOutcomes.GetOutcome. on_db_tac.
Qed.
End services.

Create HintDb on_db.
#[export] Hint Resolve on_db_GetMaterialization on_db_updateTimestamps on_db_acknowledge
  on_db_RecordFailure on_db_ListByInstance on_db_ListByAppVersion on_db_ListActive on_db_transition
  on_db_Evaluate on_db_ListFresh on_db_LatestRevision on_db_ListKnown on_db_recordOutcome : on_db.

(** ** Which calls leave the materializations alone *)

Section off.
  Context `{TP : TimeParser, JC : ChangeRequests.JSONCodec, SP : ChangeRequests.Sprinter}.
  Context {D N : Type} (mats0 s : ObjectStore D).
  Local Abbreviation st := (left_store D N (H := s)).
  Local Abbreviation mt := (left_store D N (H := mats0)).

(** [off_mats] for a node of any kind. *)
Definition off (w w' : D * N) : Prop := node_same w w' ∧ same_rows mt w w'.
#[export] Instance off_preorder : PreOrder off.
Proof.
  split; [by split|]. intros w1 w2 w3 [H1 H2] [H3 H4]. unfold off. split; by etrans.
Qed.

Lemma off_read {A} (f : D * N → result DBError A * (D * N)) :
  (∀ w, (f w).2 = w) → keeps off (atomic (fallible f)).
Proof. intros Hf. apply keeps_fallible; [apply _|]. intros w. by rewrite Hf. Qed.

Lemma off_Put `{!Apart mats0 s} rec : keeps off (Put (OS := st) rec).
Proof.
  apply keeps_fallible; [apply _|]. intros w. split; [done|].
  apply (apart_left (s1 := mt) (s2 := st)).
Qed.
Lemma off_Add `{!Apart mats0 s} rec : keeps off (Add (OS := st) rec).
Proof.
  apply keeps_fallible; [apply _|]. intros w. unfold add_row.
  destruct (rows w !! record_id rec); cbn [snd]; [done|]. split; [done|].
  apply (apart_left (s1 := mt) (s2 := st)).
Qed.
End off.

Ltac off_tac :=
  repeat first
    [ apply off_Put; apply _ | apply off_Add; apply _ | apply off_read; done
    | apply keeps_ret | apply keeps_bind; [|intros ?] | apply keeps_Transaction; [apply _|]
    | match goal with
      | |- keeps _ (match ?x with _ => _ end) => destruct x
      | |- keeps _ (if ?x then _ else _) => destruct x
      end ].

Section off_services.
  Context `{TP : TimeParser, JC : ChangeRequests.JSONCodec, SP : ChangeRequests.Sprinter}.
  Context {D N : Type} (mats0 s : ObjectStore D).
  Local Abbreviation st := (left_store D N (H := s)).

Lemma off_GetMaterialization i a v :
  keeps (off mats0) (Materializations.GetMaterialization (OS := st) true i a v).
Proof. unfold Materializations.GetMaterialization, Materializations.findByInstanceAppVersion. off_tac. Qed.
Lemma off_ListByInstance i : keeps (off mats0) (Materializations.ListByInstance (OS := st) true i).
Proof. unfold Materializations.ListByInstance. off_tac. Qed.
Lemma off_ListByAppVersion a v :
  keeps (off mats0) (Materializations.ListByAppVersion (OS := st) true a v).
Proof. unfold Materializations.ListByAppVersion. off_tac. Qed.
Lemma off_ListActive : keeps (off mats0) (Rollouts.ListActive (OS := st) true).
Proof. unfold Rollouts.ListActive. off_tac. Qed.
Lemma off_ListFresh source cutoff :
  keeps (off mats0) (Heartbeats.ListFreshBySourceVersion (OS := st) true source cutoff).
Proof. unfold Heartbeats.ListFreshBySourceVersion. off_tac. Qed.
Lemma off_LatestRevision a v :
  keeps (off mats0) (ChangeRequests.LatestRevisionIDForVersion (OS := st) a v).
Proof. unfold ChangeRequests.LatestRevisionIDForVersion, ChangeRequests.ListRequestsByApp. off_tac. Qed.
Lemma off_ListKnown : keeps (off mats0) (ChangeRequests.ListAllKnownVersions (OS := st) true).
Proof. unfold ChangeRequests.ListAllKnownVersions, ChangeRequests.listAllRequests. off_tac. Qed.

Context `{!Apart mats0 s}.

Lemma off_transition now x state at_ :
  keeps (off mats0) (Rollouts.transitionForRollout (OS := st) true now x state at_).
Proof.
  unfold Rollouts.transitionForRollout, Rollouts.transition, Rollouts.in_transaction, Rollouts.finish.
  off_tac.
Qed.
Lemma off_Evaluate now x ev :
  keeps (off mats0) (Rollouts.EvaluateHeartbeatRollout (OS := st) true now x ev).
Proof.
  unfold Rollouts.EvaluateHeartbeatRollout, Rollouts.in_transaction, Rollouts.finish. off_tac.
Qed.
Lemma off_recordOutcome id a v t1 t2 :
  keeps (off mats0) (RolloutOutcomes.recordOutcome (OS := st) true id a v t1 t2).
Proof.
  unfold RolloutOutcomes.recordOutcome, RolloutOutcomes.EnsureStore, RolloutOutcomes.GetOutcome. off_tac.
Qed.
End off_services.

Create HintDb off.
#[export] Hint Resolve off_GetMaterialization off_ListByInstance off_ListByAppVersion off_ListActive
  off_ListFresh off_LatestRevision off_ListKnown off_transition off_Evaluate off_recordOutcome : off.

(** ** A logic for the log and the memory *)

(** The memory of the poller, all of [Node] but the runtime, with the database. *)
Record memory (D : Type) := {
  me_stoppedAt : gmap string time; me_inflight : gset string;
  me_cache : gmap (string * string) AppInstanceMaterialization; me_db : D }.
Arguments me_stoppedAt {D}. Arguments me_inflight {D}. Arguments me_cache {D}. Arguments me_db {D}.
Definition memory_of {D X} (w : D * Node X) : memory D :=
  {| me_stoppedAt := nd_stoppedAt w.2; me_inflight := nd_inflight w.2; me_cache := nd_cache w.2;
     me_db := w.1 |}.
Definition set_db {D} (d : D) (μ : memory D) : memory D :=
  {| me_stoppedAt := me_stoppedAt μ; me_inflight := me_inflight μ; me_cache := me_cache μ; me_db := d |}.

Section trace.
  Context `{TP : TimeParser} {D X : Type} (mats : ObjectStore D).
  Local Abbreviation W := (D * Node (X * list entry))%type.
  Local Abbreviation M A := (prog (Env W) A).
  Local Abbreviation memory := (memory D).
  Local Abbreviation materializations := (left_store D (Node (X * list entry)) (H := mats)).

Definition log_of (env : Env W) : list entry := (nd_runtime (contents env).2).2.
Definition mem_of (env : Env W) : memory := memory_of (contents env).

(** Run from memory [μ], [m] ends with an answer, new entries of the log and a memory that
    satisfy [Q]. *)
Definition tr {A} (μ : memory) (m : M A) (Q : A → list entry → memory → Prop) : Prop :=
  ∀ env, mem_of env = μ →
    wp m (λ r env', ∃ l, log_of env' = log_of env ++ l ∧ Q r l (mem_of env')) env.

Lemma tr_ret {A} μ (a : A) (Q : A → list entry → memory → Prop) : Q a [] μ → tr μ (mret a) Q.
Proof. intros H env <-. wp_step. exists []. by rewrite app_nil_r. Qed.

Lemma tr_mono {A} μ (m : M A) (P Q : A → list entry → memory → Prop) :
  tr μ m P → (∀ a l μ', P a l μ' → Q a l μ') → tr μ m Q.
Proof. intros Hm HPQ env Hμ. eapply wp_mono; [exact (Hm env Hμ)|]. intros a env' (l & ? & ?). eauto. Qed.

Lemma tr_bind {A B} μ (m : M A) (f : A → M B) P (Q : B → list entry → memory → Prop) :
  tr μ m P → (∀ a l μ', P a l μ' → tr μ' (f a) (λ b l' μ'', Q b (l ++ l') μ'')) → tr μ (m ≫= f) Q.
Proof.
  intros Hm Hf env Hμ. wp_step. eapply wp_mono; [exact (Hm env Hμ)|]. intros a env1 (l & Hl & HP).
  eapply wp_mono; [exact (Hf a l _ HP env1 eq_refl)|]. intros b env2 (l' & Hl' & HQ). exists (l ++ l').
  by rewrite Hl', Hl, app_assoc.
Qed.

Lemma tr_attempt {E F A B} μ (wrap : E → F) (m : M (result E A)) (k : A → M (result F B)) P
    (Q : result F B → list entry → memory → Prop) :
  tr μ m P →
  (∀ a l μ', P (Ok a) l μ' → tr μ' (k a) (λ b l' μ'', Q b (l ++ l') μ'')) →
  (∀ e l μ', P (Err e) l μ' → Q (Err (wrap e)) l μ') →
  tr μ (attempt wrap m k) Q.
Proof.
  intros Hm Hk He. unfold attempt. eapply tr_bind; [exact Hm|]. intros [a|e] l μ' HP; [by apply Hk|].
  apply tr_ret. rewrite app_nil_r. by apply He.
Qed.

Lemma tr_and {A} μ (m : M A) (P1 P2 Q : A → list entry → memory → Prop) :
  tr μ m P1 → tr μ m P2 → (∀ a l μ', P1 a l μ' ∧ P2 a l μ' → Q a l μ') → tr μ m Q.
Proof.
  intros H1 H2 HQ env Hμ. specialize (H1 env Hμ). specialize (H2 env Hμ). unfold wp in *.
  destruct (run m env) as [a env']. destruct H1 as (l & Hl & H1), H2 as (l2 & Hl2 & H2).
  rewrite Hl in Hl2. apply app_inv_head in Hl2. subst l2. eauto.
Qed.

(** Calls to the database, about which [P] tells more. *)
Lemma tr_db {A} μ (m : M A) (P : A → W → W → Prop) (Q : A → list entry → memory → Prop) :
  on_db m →
  (∀ env, mem_of env = μ → wp m (λ a env', P a (contents env) (contents env')) env) →
  (∀ a d n n', memory_of (D := D) (X := X * list entry) (me_db μ, n) = μ → n' = n →
     P a (me_db μ, n) (d, n') → Q a [] (set_db d μ)) →
  tr μ m Q.
Proof.
  intros Hm HP HQ env Hμ. specialize (HP env Hμ). unfold wp in *.
  pose proof (proj1 (keeps_run node_same m env Hm)) as Hn. destruct (run m env) as [a env'].
  cbn in *. exists []. unfold node_same in Hn. destruct env as [[d n] fs], env' as [[d' n'] fs'].
  unfold log_of, mem_of in *. cbn in *. subst n' μ. rewrite app_nil_r. split; [done|].
  by eapply (HQ a d' n n).
Qed.

(** Steps on the instance. *)
Lemma tr_local {A} μ (f : Node (X * list entry) → A * Node (X * list entry))
    (Q : A → list entry → memory → Prop) :
  (∀ d n, memory_of (d, n) = μ → ∃ l, (nd_runtime (f n).2).2 = (nd_runtime n).2 ++ l ∧
          Q (f n).1 l (memory_of (d, (f n).2))) →
  tr μ (local f) Q.
Proof.
  intros Hf env Hμ. unfold wp, local. rewrite run_atomic. destruct env as [[d n] fs].
  destruct (Hf d n Hμ) as (l & Hl & HQ). cbn. destruct (f n) as [a n'].
  exists l. by split.
Qed.

Lemma tr_logging {A} μ (f : X → A * X) (e : A → entry) (Q : A → list entry → memory → Prop) :
  (∀ a, Q a [e a] μ) → tr μ (runtime (logging f e)) Q.
Proof.
  intros HQ. apply tr_local. intros d [st fl ca [x l]] <-. cbn. destruct (f x) as [a x']. cbn. eauto.
Qed.

Lemma tr_unlogged {A} μ (f : X → A * X) (Q : A → list entry → memory → Prop) :
  (∀ a, Q a [] μ) → tr μ (runtime (unlogged f)) Q.
Proof.
  intros HQ. apply tr_local. intros d [st fl ca [x l]] <-. cbn. destruct (f x) as [a x']. cbn.
  exists []. by rewrite app_nil_r.
Qed.

(** *** Silent programs

    They make no call that stops or starts an app, leave the memory of stops as it is, and
    record no stop in a materialization. *)

Definition same_stops (μ μ' : memory) : Prop :=
  me_stoppedAt μ' = me_stoppedAt μ ∧
  (wf_mats (OS := mats) (me_db μ) →
   gentle_but (OS := mats) Stopped (λ _, False) (me_db μ) (me_db μ')).

#[export] Instance same_stops_preorder : PreOrder same_stops.
Proof.
  split.
  - intros μ. split; [done|]. intros Hwf. by apply Materializations.gentle_same.
  - intros μ1 μ2 μ3 [H12 G12] [H23 G23]. split; [congruence|]. intros Hwf.
    destruct (G12 Hwf) as [Hwf2 G1]. destruct (G23 Hwf2) as [Hwf3 G2]. split; [done|].
    intros k m3 H3 Hz. destruct (G2 _ _ H3 Hz) as [[]|(m2 & H2 & Heq2)]. rewrite <-Heq2 in Hz.
    destruct (G1 _ _ H2 Hz) as [[]|(m1 & H1 & Heq1)]. right. exists m1. split; [done|congruence].
Qed.

Definition silent {A} (m : M A) : Prop := ∀ μ, tr μ m (λ _ l μ', calls l = [] ∧ same_stops μ μ').

Lemma silent_ret {A} (a : A) : silent (mret a).
Proof. intros μ. by apply tr_ret. Qed.
Lemma silent_bind {A B} (m : M A) (f : A → M B) : silent m → (∀ a, silent (f a)) → silent (m ≫= f).
Proof.
  intros Hm Hf μ. eapply tr_bind; [apply Hm|]. intros a l μ' [Hl Hs].
  eapply tr_mono; [apply Hf|]. intros b l' μ'' [Hl' Hs'].
  rewrite calls_app, Hl, Hl'. split; [done|by etrans].
Qed.
Lemma silent_attempt {E F A B} (wrap : E → F) (m : M (result E A)) (k : A → M (result F B)) :
  silent m → (∀ a, silent (k a)) → silent (attempt wrap m k).
Proof.
  intros Hm Hk. apply silent_bind; [done|]. intros [a|e]; [apply Hk|apply silent_ret].
Qed.
Lemma silent_gentle {A} (m : M A) :
  on_db m →
  (∀ env, wf_mats (OS := materializations) (contents env) →
     wp m (λ _ env', gentle_but (OS := materializations) Stopped (λ _, False) (contents env) (contents env')) env) →
  silent m.
Proof.
  intros Hm Hg μ. eapply (tr_db _ _ (λ _ w w', wf_mats (OS := materializations) w →
    gentle_but (OS := materializations) Stopped (λ _, False) w w')); [done| |].
  - intros env _. pose proof (Hg env) as H. unfold wp in *. destruct (run m env). exact H.
  - intros a d n n' _ _ H. split; [done|]. split; [done|]. exact H.
Qed.
Lemma off_stored w w' : off mats w w' → wf_mats (OS := materializations) w →
  wf_mats (OS := materializations) w' ∧
  ∀ k, stored (OS := materializations) w' k = stored (OS := materializations) w k.
Proof.
  intros [_ Hr] Hwf. unfold same_rows in Hr. unfold wf_mats, stored, Materializations.row_of, select in *.
  by rewrite Hr.
Qed.
Lemma silent_off {A} (m : M A) : keeps (off mats) m → silent m.
Proof.
  intros Hm. apply silent_gentle.
  - eapply keeps_mono; [|exact Hm]. by intros w w' [? _].
  - intros env Hwf. eapply (wp_keeps (off mats)); [exact Hm|]. intros a env' Hoff _.
    destruct (off_stored _ _ Hoff Hwf) as [Hwf' Hst]. split; [done|]. intros k m' Hm' _.
    rewrite Hst in Hm'. right. eauto.
Qed.
Lemma silent_logging {A} (f : X → A * X) (e : A → entry) :
  (∀ a, is_call (e a) = false) → silent (runtime (logging f e)).
Proof.
  intros He μ. apply tr_logging. intros a. split; [|done]. unfold calls.
  by rewrite filter_cons_False by (rewrite He; done).
Qed.
Lemma silent_unlogged {A} (f : X → A * X) : silent (runtime (unlogged f)).
Proof. intros μ. by apply tr_unlogged. Qed.
Lemma silent_local {A} (f : Node (X * list entry) → A * Node (X * list entry)) :
  (∀ n, nd_runtime (f n).2 = nd_runtime n ∧ nd_stoppedAt (f n).2 = nd_stoppedAt n) → silent (local f).
Proof.
  intros Hf μ. apply tr_local. intros d n <-. destruct (Hf n) as [Hr Hs]. exists [].
  rewrite Hr, app_nil_r. split; [done|]. split; [done|]. split; [exact Hs|].
  intros Hwf. by apply Materializations.gentle_same.
Qed.

(** *** The rules for the usual steps *)

Lemma tr_silent {A} μ (m : M A) (Q : A → list entry → memory → Prop) :
  silent m → (∀ a l μ', calls l = [] → same_stops μ μ' → Q a l μ') → tr μ m Q.
Proof. intros Hm HQ. eapply tr_mono; [apply Hm|]. intros a l μ' [? ?]. auto. Qed.
Lemma tr_bind_silent {A B} μ (m : M A) (f : A → M B) (Q : B → list entry → memory → Prop) :
  silent m →
  (∀ a l μ', calls l = [] → same_stops μ μ' →
     tr μ' (f a) (λ b l' μ'', Q b (l ++ l') μ'')) → tr μ (m ≫= f) Q.
Proof. intros Hm Hf. eapply tr_bind; [apply Hm|]. intros a l μ' [? ?]. auto. Qed.
Lemma tr_attempt_silent {E F A B} μ (wrap : E → F) (m : M (result E A)) (k : A → M (result F B))
    (Q : result F B → list entry → memory → Prop) :
  silent m →
  (∀ a l μ', calls l = [] → same_stops μ μ' →
     tr μ' (k a) (λ b l' μ'', Q b (l ++ l') μ'')) →
  (∀ e l μ', calls l = [] → same_stops μ μ' → Q (Err (wrap e)) l μ') →
  tr μ (attempt wrap m k) Q.
Proof. intros Hm Hk He. eapply tr_attempt; [apply Hm| |]; intros a l μ' [? ?]; auto. Qed.
Lemma tr_attempt_logging {E F A B} μ (wrap : E → F) (f : X → result E A * X) (e : result E A → entry)
    (k : A → M (result F B)) (Q : result F B → list entry → memory → Prop) :
  (∀ a, tr μ (k a) (λ b l' μ'', Q b (e (Ok a) :: l') μ'')) →
  (∀ err, Q (Err (wrap err)) [e (Err err)] μ) →
  tr μ (attempt wrap (runtime (logging f e)) k) Q.
Proof.
  intros Hk He. eapply (tr_attempt _ _ _ _ (λ r l μ', l = [e r] ∧ μ' = μ)).
  - by apply tr_logging.
  - intros a l μ' [-> ->]. apply Hk.
  - intros err l μ' [-> ->]. apply He.
Qed.
Lemma tr_bind_logging {A B} μ (f : X → A * X) (e : A → entry) (k : A → M B)
    (Q : B → list entry → memory → Prop) :
  (∀ a, tr μ (k a) (λ b l' μ'', Q b (e a :: l') μ'')) → tr μ (runtime (logging f e) ≫= k) Q.
Proof.
  intros Hk. eapply (tr_bind _ _ _ (λ a l μ', l = [e a] ∧ μ' = μ)).
  - by apply tr_logging.
  - intros a l μ' [-> ->]. apply Hk.
Qed.
End trace.

Create HintDb silent.

Ltac silent_step :=
  lazymatch goal with
  | |- silent _ (mret _) => apply silent_ret
  | |- silent _ (attempt _ _ _) => apply silent_attempt; [|intros ?]
  | |- silent _ (_ ≫= _) => apply silent_bind; [|intros ?]
  | |- silent _ (runtime _) => first [apply silent_unlogged | apply silent_logging; done]
  | |- silent _ (match ?x with _ => _ end) => destruct x eqn:?
  | |- silent _ (if ?x then _ else _) => destruct x eqn:?
  | |- silent _ _ => solve [eauto with silent | apply silent_off; solve [eauto with off]]
  end.


(** ** The parts of a pass *)

Section poller.
  Context `{TP : TimeParser, JC : ChangeRequests.JSONCodec, SP : ChangeRequests.Sprinter}.
  Context {D X : Type} (requests mats rollouts outcomes heartbeats : ObjectStore D).
  Context `{!Apart mats rollouts, !Apart mats outcomes}.
  Context (order : ∀ A : Type, gmap string A → list (string * A)).
  Context (ErrorText : PollerError → string).
  Context (p : Poller) (rt : Runtime X).
  Local Abbreviation W := (D * Node (X * list entry))%type.
  Local Abbreviation M A := (prog (Env W) A).
  Local Abbreviation lrt := (logged rt).
  Local Abbreviation memory := (memory D).
  Local Abbreviation silent m := (silent mats m).
  Local Abbreviation same_stops := (same_stops mats).

Lemma tr_Now μ (Q : time → list entry → memory → Prop) :
  (∀ t, Q (Truncate t Millisecond) [LClock t] μ) → tr μ (Now (D := D) lrt : M time) Q.
Proof.
  intros HQ. apply tr_local. intros d [st fl ca [x l]] <-. cbn. destruct (rt_Now rt x) as [t x']. cbn. eauto.
Qed.
Lemma tr_bind_Now {B} μ (k : time → M B) (Q : B → list entry → memory → Prop) :
  (∀ t, tr μ (k (Truncate t Millisecond)) (λ b l' μ'', Q b (LClock t :: l') μ'')) →
  tr μ (Now (D := D) lrt ≫= k) Q.
Proof.
  intros Hk. eapply (tr_bind _ _ _ (λ a l μ', ∃ t, a = Truncate t Millisecond ∧ l = [LClock t] ∧ μ' = μ)).
  - apply tr_Now. eauto.
  - intros a l μ' (t & -> & -> & ->). apply Hk.
Qed.
Lemma silent_Now : silent (Now (D := D) lrt : M time).
Proof. intros μ. by apply tr_Now. Qed.

Lemma tr_RunningVersion μ app (Q : option string → list entry → memory → Prop) :
  (rt_RunningVersion rt = None → Q None [] μ) →
  (∀ v, is_Some (rt_RunningVersion rt) → Q v [LRunning app v] μ) →
  tr μ (RunningVersion (D := D) lrt app) Q.
Proof.
  intros HN HS. unfold RunningVersion. cbn [logged rt_RunningVersion].
  destruct (rt_RunningVersion rt) as [f|]; cbn [fmap option_fmap option_map].
  - apply tr_logging. intros v. by apply HS.
  - by apply tr_ret, HN.
Qed.
Lemma silent_RunningVersion app : silent (RunningVersion (D := D) lrt app).
Proof. intros μ. by apply tr_RunningVersion. Qed.

Lemma silent_cached key : silent (cached (D := D) (X := X * list entry) key).
Proof. by apply silent_local. Qed.
Lemma silent_cache key m : silent (cache (D := D) (X := X * list entry) key m).
Proof. by apply silent_local. Qed.
Lemma silent_localStoppedAt app : silent (localStoppedAt (D := D) (X := X * list entry) app).
Proof. by apply silent_local. Qed.
Hint Resolve silent_Now silent_RunningVersion silent_cached silent_cache silent_localStoppedAt : silent.

Lemma silent_get i a v : silent (getMaterialization (X := X * list entry) mats i a v).
Proof. apply silent_off, off_GetMaterialization. Qed.
Lemma silent_acknowledge now id m created :
  silent (Materializations.acknowledge (OS := left_store D (Node (X * list entry)) (H := mats))
            true now id (Some m) created).
Proof. apply silent_gentle; [apply on_db_acknowledge|]. intros. by apply Materializations.acknowledge_gentle. Qed.
Lemma silent_mark mk now t i a v :
  mk ≠ Stopped →
  silent (Materializations.updateTimestamps (OS := left_store D (Node (X * list entry)) (H := mats))
            true i a v (Materializations.stamp (Materializations.mark_column mk) now t)).
Proof.
  intros Hmk. apply silent_gentle; [apply on_db_updateTimestamps|]. intros env Hwf.
  eapply wp_mono; [by apply Materializations.mark_gentle|]. intros r env' [Hwf' H]. split; [done|].
  intros k m' H1 H2. destruct (H _ _ H1 H2) as [[? _]|?]; [done|by right].
Qed.
Lemma silent_MarkMaterialized now i a v t :
  silent (Materializations.MarkMaterialized (OS := left_store D (Node (X * list entry)) (H := mats))
            true now i a v t).
Proof. by apply (silent_mark Materialized). Qed.
Lemma silent_MarkRestarted now i a v t :
  silent (Materializations.MarkRestarted (OS := left_store D (Node (X * list entry)) (H := mats))
            true now i a v t).
Proof. by apply (silent_mark Restarted). Qed.
Lemma silent_RecordFailure now i a v t text :
  silent (Materializations.RecordFailure (OS := left_store D (Node (X * list entry)) (H := mats))
            true now i a v t text).
Proof. apply silent_gentle; [apply on_db_RecordFailure|]. intros. by apply Materializations.RecordFailure_gentle. Qed.
Hint Resolve silent_get silent_acknowledge silent_MarkMaterialized silent_MarkRestarted
  silent_RecordFailure : silent.

Lemma silent_ensureAcknowledged i a v created : silent (ensureAcknowledged mats p lrt i a v created).
Proof.
  unfold ensureAcknowledged, Materializations.Acknowledge, Materializations.AcknowledgeForRollout.
  repeat silent_step.
Qed.
Lemma silent_markAllRestarted i a pending t :
  silent (markAllRestarted (X := X * list entry) mats i a pending t).
Proof. induction pending; cbn [markAllRestarted]; repeat silent_step. Qed.
Lemma silent_earliest i a pending : silent (earliestStoppedAt (X := X * list entry) mats i a pending).
Proof.
  unfold earliestStoppedAt. silent_step; [silent_step|]. rename a0 into e. revert e.
  induction pending; intros e; cbn [earliestOf]; repeat silent_step.
Qed.
Lemma silent_ensureDesiredMaterialized i d : silent (ensureDesiredMaterialized mats p lrt i d).
Proof.
  unfold ensureDesiredMaterialized. repeat silent_step.
Qed.
Lemma silent_desiredVersionMaterialized i d : silent (desiredVersionMaterialized mats p lrt i d).
Proof. unfold desiredVersionMaterialized. repeat silent_step. Qed.
Lemma silent_prune a v : silent (pruneSuperseded (D := D) p lrt a v).
Proof. unfold pruneSuperseded. repeat silent_step. Qed.
Lemma silent_pruned a v : silent (supersededPruned (D := D) p lrt a v).
Proof. unfold supersededPruned. repeat silent_step. Qed.
Hint Resolve silent_ensureAcknowledged silent_markAllRestarted silent_earliest
  silent_ensureDesiredMaterialized silent_desiredVersionMaterialized silent_prune silent_pruned : silent.

Lemma silent_recordRolloutOutcome r :
  silent (recordRolloutOutcome (X := X * list entry) requests outcomes p r).
Proof.
  unfold recordRolloutOutcome, RolloutOutcomes.RecordComplete, RolloutOutcomes.RecordFailed.
  repeat silent_step.
Qed.
Lemma silent_notify a : silent (notifyRolloutTerminal (D := D) lrt a).
Proof.
  unfold notifyRolloutTerminal. cbn [logged rt_OnRolloutTerminal].
  destruct (rt_OnRolloutTerminal rt); cbn [fmap option_fmap option_map]; repeat silent_step.
Qed.
Lemma silent_prepare r : silent (prepareRolloutCompletion (D := D) lrt r).
Proof.
  unfold prepareRolloutCompletion. cbn [logged rt_BeforeRolloutComplete].
  destruct (rt_BeforeRolloutComplete rt); cbn [fmap option_fmap option_map]; repeat silent_step.
Qed.
Hint Resolve silent_recordRolloutOutcome silent_notify silent_prepare : silent.
Lemma silent_concluded r : silent (concluded requests outcomes p lrt r).
Proof. unfold concluded. repeat silent_step. Qed.
Hint Resolve silent_concluded : silent.
Lemma silent_failOverdue r : silent (failOverdue requests rollouts outcomes p lrt r).
Proof. unfold failOverdue, Rollouts.MarkFailedForRollout. repeat silent_step. Qed.
Hint Resolve silent_failOverdue : silent.
Lemma silent_evaluateHeartbeats r now pr h :
  silent (evaluateHeartbeats requests rollouts outcomes p lrt r now pr h).
Proof. unfold evaluateHeartbeats. repeat silent_step. Qed.
Hint Resolve silent_evaluateHeartbeats : silent.
Lemma silent_updateHeartbeat r :
  silent (updateHeartbeatRolloutOutcome requests rollouts outcomes heartbeats p lrt r).
Proof. unfold updateHeartbeatRolloutOutcome, judgeHeartbeats. repeat silent_step. Qed.
Hint Resolve silent_updateHeartbeat : silent.
Lemma silent_updateRolloutOutcome r :
  silent (updateRolloutOutcome requests mats rollouts outcomes heartbeats p lrt r).
Proof. unfold updateRolloutOutcome, Rollouts.MarkCompleteForRollout. repeat silent_step. Qed.
Hint Resolve silent_updateRolloutOutcome : silent.
Lemma silent_settleAtLimit i a driver d : silent (settleAtLimit mats p lrt i a driver d).
Proof. unfold settleAtLimit. repeat silent_step. Qed.
Hint Resolve silent_settleAtLimit : silent.
Lemma silent_recordFailure i a insts e : silent (recordFailure mats ErrorText lrt i a insts e).
Proof. unfold recordFailure. repeat silent_step. Qed.

(** *** When an app is stopped and started *)

(** The desired version is on disk. *)
Definition on_disk (desired : AppInstallation) (l : list entry) : Prop :=
  TrimSpace (ai_AppName desired) = "" ∨ TrimSpace (ai_Version desired) = "" ∨
  TrimSpace (ai_Registry desired) = "" ∨ ∃ changed, LEnsure desired (Ok changed) ∈ l.

(** The materialization of the version to run says when the app was stopped for it. *)
Definition recorded (d : D) (k : mat_key) (s : time) : Prop :=
  wf_mats (OS := mats) d →
  ∃ m, stored (OS := mats) d k = Some m ∧ Materializations.mt_StoppedAt m = s ∧ s ≠ zero_time.

(** The calls that a pass may make for [app], which the poller remembers as stopped since
    [stopped] when it does, and which is on record as stopped at the times of [rec]: at most
    one stop and one start, of the driver version.  A start comes when the restart delay has
    passed since the stop [s] that the pass goes by. *)
Inductive due (stopped : option time) (rec : time → Prop) (app driver : string) (l : list entry) : Prop :=
  | due_stop r : calls l = [LStop app r] → due stopped rec app driver l
  | due_start r s :
      calls l = [LStart app driver r] →
      stopped = Some s ∨ rec s →
      (∀ s0, stopped = Some s0 → (s ≤ s0)%Z) →
      ((0 < restartDelay p)%Z → ∃ l1 t2 l2, l = l1 ++ [LClock t2; LStart app driver r] ++ l2 ∧
         (restartDelay p ≤ Sub (Truncate t2 Millisecond) s)%Z) →
      due stopped rec app driver l
  | due_both r l1 t1 l2 :
      calls l = [LStop app (Ok tt); LStart app driver r] →
      l = l1 ++ [LStop app (Ok tt); LClock t1] ++ l2 →
      ((0 < restartDelay p)%Z → ∃ t2 l3, l2 = LClock t2 :: l3 ∧
         (restartDelay p ≤ Sub (Truncate t2 Millisecond)
                             (default (Truncate t1 Millisecond) stopped))%Z) →
      due stopped rec app driver l.

Lemma due_app stopped (rec rec' : time → Prop) app driver l0 l l' :
  (∀ s, rec' s → rec s) →
  calls l0 = [] → calls l' = [] → due stopped rec' app driver l → due stopped rec app driver (l0 ++ l ++ l').
Proof.
  intros Hrec H0 H' Hd. assert (Hc : calls (l0 ++ l ++ l') = calls l)
    by (by rewrite !calls_app, H0, H', app_nil_r).
  destruct Hd as [r H|r s H Hs Hle Ht|r l1 t1 l2 H -> Ht].
  - eapply due_stop. by rewrite Hc.
  - eapply due_start; [by rewrite Hc|naive_solver|done|]. intros Hp.
    destruct (Ht Hp) as (l1 & t2 & l2 & -> & Hd). exists (l0 ++ l1), t2, (l2 ++ l').
    by rewrite <-!app_assoc.
  - eapply (due_both _ _ _ _ _ r (l0 ++ l1) t1 (l2 ++ l')); [by rewrite Hc|by rewrite <-!app_assoc|].
    intros Hp. destruct (Ht Hp) as (t2 & l3 & -> & Hle). by exists t2, (l3 ++ l').
Qed.
Lemma due_before stopped (rec rec' : time → Prop) app driver l0 l :
  (∀ s, rec' s → rec s) →
  calls l0 = [] → due stopped rec' app driver l → due stopped rec app driver (l0 ++ l).
Proof. intros Hr H0 Hd. rewrite <-(app_nil_r (l0 ++ l)), <-app_assoc. by eapply due_app. Qed.

(** What is on record after a silent program was there before. *)
Lemma recorded_before μ μ' k s : same_stops μ μ' → recorded (me_db μ') k s → recorded (me_db μ) k s.
Proof.
  intros [_ Hg] Hr Hwf. destruct (Hg Hwf) as [Hwf' Hst]. destruct (Hr Hwf') as (m' & Hm' & <- & Hz).
  destruct (Hst _ _ Hm' Hz) as [[]|(m & Hm & Heq)]. eauto.
Qed.

Definition due_in (μ : memory) (i app : string) (driver : string) (desired : AppInstallation) :=
  due (me_stoppedAt μ !! app) (recorded (me_db μ) (trimmed_key i app (TrimSpace (ai_Version desired))))
      app driver.

Lemma due_in_before μ μ' i app driver desired l0 l l' :
  same_stops μ μ' → calls l0 = [] → calls l' = [] →
  due_in μ' i app driver desired l → due_in μ i app driver desired (l0 ++ l ++ l').
Proof.
  intros Hs H0 H'. unfold due_in. rewrite (proj1 Hs). apply due_app; [|done..].
  intros s. by apply recorded_before.
Qed.

Lemma tr_ensureDesiredMaterialized μ i desired :
  tr μ (ensureDesiredMaterialized mats p lrt i desired) (λ r l μ',
    calls l = [] ∧ same_stops μ μ' ∧ (is_ok r = true → on_disk desired l)).
Proof.
  unfold ensureDesiredMaterialized. destruct (_ || _ || _) eqn:Hblank.
  { apply tr_ret. split_and!; [done..|]. intros _. unfold on_disk.
    apply orb_true_iff in Hblank as [[H|H]%orb_true_iff|H]; apply bool_decide_eq_true in H; tauto. }
  destruct (negb _); [by apply tr_ret|].
  apply (tr_attempt_silent mats); [apply silent_get| |by intros].
  intros m l μ' Hl Hs. apply tr_attempt_logging; [|intros e; by rewrite calls_app, Hl].
  intros changed. assert (Hdisk : ∀ l', on_disk desired (l ++ LEnsure desired (Ok changed) :: l'))
    by (intros l'; right; right; right; exists changed; set_solver).
  assert (Hc : ∀ l', calls (l ++ LEnsure desired (Ok changed) :: l') = calls l')
    by (intros l'; by rewrite calls_app, Hl).
  destruct (_ && _); [by apply tr_ret; rewrite Hc|].
  apply (tr_silent mats).
  - apply (silent_bind mats (Now lrt)); [apply silent_Now|]. intros t.
    apply silent_attempt; [apply silent_MarkMaterialized|intros; apply silent_ret].
  - intros r l' μ2 Hl' Hs'. rewrite Hc. split_and!; [done|by etrans|auto].
Qed.

Lemma tr_get μ i a v :
  tr μ (getMaterialization (X := X * list entry) mats i a v) (λ r l μ',
    calls l = [] ∧ same_stops μ μ' ∧
    ∀ m, r = Ok m → wf_mats (OS := mats) (me_db μ) →
         stored (OS := mats) (me_db μ) (trimmed_key i a v) = Some m).
Proof.
  apply (tr_and _ _ (λ r l μ', (calls l = [] ∧ same_stops μ μ'))
    (λ r l μ', ∀ m, r = Ok m → wf_mats (OS := mats) (me_db μ) →
         stored (OS := mats) (me_db μ) (trimmed_key i a v) = Some m)); [apply silent_get| |tauto].
  set (st := left_store D (Node (X * list entry)) (H := mats)).
  eapply (tr_db _ _ (λ r w w', ∀ m, r = Ok m → wf_mats (OS := st) w →
    stored (OS := st) w (trimmed_key i a v) = Some m)); [apply on_db_GetMaterialization| |].
  - intros env _. unfold wp. destruct (run _ env) as [r env'] eqn:Hrun. cbn [fst snd]. intros m -> Hwf.
    destruct (Materializations.incomplete (trimmed_key i a v)) eqn:Hk.
    { unfold getMaterialization in Hrun.
      rewrite (proj1 (Materializations.key_required (OS := st) i a v (λ r, r) env Hk)) in Hrun. done. }
    pose proof (Materializations.GetMaterialization_implements (OS := st) i a v env Hwf Hk) as H.
    unfold Materializations.implements, wp, getMaterialization in *. fold st in Hrun. rewrite Hrun in H.
    destruct H as [_ [(_ & H & _)|(H & _)]]; [done|]. unfold Materializations.spec_get in H.
    destruct (stored _ _); cbn in H; congruence.
  - intros r d n n' _ _ H m Hm Hwf. exact (H m Hm Hwf).
Qed.

(** The stop that a pass goes by when it finds the app down: the earlier one of the stop
    that the poller remembers and the one on record. *)
Definition found (μ : memory) (i app : string) (desired : AppInstallation) (s : time) : Prop :=
  (me_stoppedAt μ !! app = Some s ∨
   recorded (me_db μ) (trimmed_key i app (TrimSpace (ai_Version desired))) s) ∧
  ∀ s0, me_stoppedAt μ !! app = Some s0 → (s ≤ s0)%Z.

Lemma tr_earliest μ i app desired :
  tr μ (earliestStoppedAt (X := X * list entry) mats i app [desired]) (λ r l μ',
    calls l = [] ∧ same_stops μ μ' ∧ ∀ s, r = Ok (Some s) → found μ i app desired s).
Proof.
  unfold earliestStoppedAt.
  eapply (tr_bind _ _ _ (λ e l μ', e = me_stoppedAt μ !! app ∧ l = [] ∧ μ' = μ)).
  { apply tr_local. intros d n <-. exists []. by rewrite app_nil_r. }
  intros e l μ1 (-> & -> & ->). cbn [earliestOf]. case_decide as Hv.
  { apply tr_ret. split_and!; [done..|]. intros s [= Hs]. split; [by left|]. intros s0 Hs0.
    rewrite Hs in Hs0. injection Hs0. lia. }
  eapply tr_attempt; [apply tr_get| |by intros e l μ' (Hl & Hs & _)].
  intros m l μ' (Hl & Hs & Hm). apply tr_ret. rewrite app_nil_r. split_and!; [done..|].
  intros s [= Heq]. specialize (Hm m eq_refl). unfold IsZero, Before in Heq.
  assert (Hrec : Materializations.mt_StoppedAt m ≠ zero_time → recorded (me_db μ)
            (trimmed_key i app (TrimSpace (ai_Version desired))) (Materializations.mt_StoppedAt m))
    by (intros Hz Hwf; exists m; auto).
  unfold found. revert Heq. destruct (Materializations.mt_StoppedAt m =? 0)%Z eqn:Ez.
  { intros ->. split; [by left|]. intros s0 [= <-]. lia. }
  apply Z.eqb_neq in Ez. destruct (me_stoppedAt μ !! app) as [s0|].
  2: { intros [= <-]. split; [by right; auto|]. done. }
  destruct (_ <? _)%Z eqn:Elt; intros [= <-].
  - apply Z.ltb_lt in Elt. split; [auto|]. intros s1 [= <-]. lia.
  - split; [auto|]. intros s1 [= <-]. lia.
Qed.

Lemma tr_ensureStopped μ i app driver desired :
  tr μ (ensureStopped mats lrt i app driver desired) (λ r l μ',
    match r with
    | Err _ => calls l = [] ∨ ∃ r, calls l = [LStop app r]
    | Ok s => (calls l = [] ∧ found μ i app desired s) ∨
        ∃ l1 t, l = l1 ++ [LStop app (Ok tt); LClock t] ∧ calls l1 = [] ∧
                s = default (Truncate t Millisecond) (me_stoppedAt μ !! app)
    end).
Proof.
  unfold ensureStopped. eapply tr_attempt; [apply tr_earliest| |intros e l μ' (Hl & _); by left].
  intros stopped l μ1 (Hl & Hs & Hfound). apply (tr_bind_silent mats); [apply silent_RunningVersion|].
  intros running l1 μ2 Hl1 Hs1.
  assert (Hc : ∀ l', calls (l ++ l1 ++ l') = calls l') by (intros l'; by rewrite !calls_app, Hl, Hl1).
  destruct (match running with Some _ => _ | None => _ end) as [s|] eqn:Hdown.
  { apply tr_ret. left. rewrite Hc. split; [done|]. apply Hfound.
    destruct running; [case_decide|]; congruence. }
  apply tr_attempt_logging; [|intros e; right; exists (Err e); by rewrite Hc].
  intros []. apply tr_bind_Now. intros t.
  eapply (tr_bind _ _ _ (λ s l _, l = [] ∧ s = default (Truncate t Millisecond) (me_stoppedAt μ2 !! app))).
  - apply tr_local. intros d n <-. exists []. rewrite app_nil_r. cbn. by destruct (nd_stoppedAt n !! app).
  - intros s l4 μ5 [-> ->]. apply tr_ret. right. exists (l ++ l1), t.
    rewrite <-(proj1 Hs), <-(proj1 Hs1).
    split_and!; [by rewrite <-!app_assoc|by rewrite calls_app, Hl, Hl1|done].
Qed.

Lemma on_db_markPendingStopped i a pending t :
  on_db (markPendingStopped (X := X * list entry) mats i a pending t).
Proof.
  induction pending; cbn [markPendingStopped]; unfold attempt, Materializations.MarkStopped, getMaterialization;
    repeat first [solve [eauto with on_db] | keeps_step].
Qed.

(** What follows a successful start makes no calls. *)
Lemma tr_after_start μ i app driver desired rollout :
  tr μ (let? _ := pruneSuperseded p lrt app driver or id in
        restartedAt ← Now lrt;
        let? _ := markAllRestarted (X := X * list entry) mats i app [desired] restartedAt or id in
        _ ← forgetStoppedAt app;
        match rollout with
        | Some r => if decide (r_State r = RolloutRestarting)
                    then let? _ := updateRolloutOutcome requests mats rollouts outcomes heartbeats p lrt r
                           or id in mret (Ok tt)
                    else mret (Ok tt)
        | None => mret (Ok tt)
        end)
    (λ (_ : result PollerError unit) l _, calls l = []).
Proof.
  apply (tr_attempt_silent mats); [apply silent_prune| |done]. intros [] l1 μ1 Hl1 _.
  apply tr_bind_Now. intros t. apply (tr_attempt_silent mats); [apply silent_markAllRestarted| |].
  - intros [] l2 μ2 Hl2 _. eapply (tr_bind _ _ _ (λ _ l _, l = [])).
    + apply tr_local. intros d n <-. exists []. by rewrite app_nil_r.
    + intros [] l3 μ3 ->. apply (tr_silent mats).
      * repeat silent_step.
      * intros r l4 μ4 Hl4 _. by rewrite calls_app, calls_clock, !calls_app, Hl1, Hl2, Hl4.
  - intros e l2 μ2 Hl2 _. by rewrite calls_app, calls_clock, Hl1, Hl2.
Qed.

Lemma tr_restart μ i app driver desired rollout :
  tr μ (restart requests mats rollouts outcomes heartbeats p lrt i app driver desired rollout)
    (λ r l μ', calls l = [] ∨ due_in μ i app driver desired l).
Proof.
  unfold restart, due_in. eapply tr_attempt; [apply tr_ensureStopped| |].
  2: { intros e l μ' [H|[r H]]; [by left|]. right. by eapply due_stop. }
  intros s l μ1 Hstop.
  eapply (tr_attempt _ _ _ _ (λ _ l _, l = [])).
  { apply (tr_db _ _ (λ _ _ _, True)); [apply on_db_markPendingStopped| |done].
    done. }
  2: { intros e l' μ' ->. rewrite app_nil_r. destruct Hstop as [[H _]|(l1 & t & -> & H & _)]; [by left|].
       right. eapply due_stop. by rewrite calls_app, H. }
  intros [] l' μ2 ->.
  eapply (tr_bind _ _ _ (λ w l _,
    (l = [] ∧ (restartDelay p ≤ 0)%Z) ∨
    (∃ t2, l = [LClock t2] ∧ w = (Sub (Truncate t2 Millisecond) s <? restartDelay p)%Z))).
  { destruct (0 <? restartDelay p)%Z eqn:Hd.
    - apply tr_bind_Now. intros t2. apply tr_ret. right. eauto.
    - apply tr_ret. left. split; [done|]. by apply Z.ltb_ge. }
  intros waiting lw μ3 Hw.
  assert (Hcw : calls lw = []) by (by destruct Hw as [[-> _]|(t2 & -> & _)]).
  assert (Hc : ∀ l', calls (l ++ [] ++ lw ++ l') = calls l ++ calls l')
    by (intros l'; by rewrite !calls_app, Hcw).
  destruct waiting.
  { apply tr_ret. rewrite Hc, app_nil_r. destruct Hstop as [[H _]|(l1 & t & -> & H & _)]; [by left|].
    right. eapply due_stop. by rewrite Hc, calls_app, H. }
  assert (Hwait : (0 < restartDelay p)%Z → ∃ t2, lw = [LClock t2] ∧
            (restartDelay p ≤ Sub (Truncate t2 Millisecond) s)%Z).
  { intros Hpos. destruct Hw as [[_ Hneg]|(t2 & -> & Hlt)]; [lia|]. exists t2. split; [done|].
    symmetry in Hlt. by apply Z.ltb_ge in Hlt. }
  enough (Hstart : ∀ r l', calls l' = [] →
    due_in μ i app driver desired (l ++ [] ++ lw ++ LStart app driver r :: l')).
  { apply tr_attempt_logging.
    - intros []. eapply tr_mono; [apply tr_after_start|]. intros r l' μ' Hl'. right. by apply Hstart.
    - intros e. right. by apply Hstart. }
  intros r l' Hl'. destruct Hstop as [[H [Hs Hle]]|(l1 & t & -> & H & ->)].
  - eapply due_start; [by rewrite Hc, H, calls_start, Hl'|exact Hs|exact Hle|].
    intros Hpos. destruct (Hwait Hpos) as (t2 & -> & Hd). by exists l, t2, l'.
  - eapply due_both with (l1 := l1).
    + by rewrite Hc, calls_app, H, calls_start, Hl'.
    + cbn [Datatypes.app]. rewrite <-!app_assoc. reflexivity.
    + intros Hpos. destruct (Hwait Hpos) as (t2 & -> & Hd). by exists t2, (LStart app driver r :: l').
Qed.

(** What a pass has found out before it makes a call: the app can be restarted here, the
    instance is ready for it, another version runs or none, and the desired one is on disk. *)
Record allowed (app driver : string) (desired : AppInstallation) (l : list entry) : Prop := {
  al_restartable : LRestartable app (Ok true) ∈ l;
  al_ready : LRestartReady true ∈ l;
  al_running : is_Some (rt_RunningVersion rt) → ∃ v, LRunning app v ∈ l ∧ v ≠ Some driver;
  al_disk : on_disk desired l }.

Lemma on_disk_mono desired l l' : l ⊆ l' → on_disk desired l → on_disk desired l'.
Proof. unfold on_disk. intros Hl [H|[H|[H|[c H]]]]; [tauto..|]. eauto 6. Qed.

Lemma allowed_mono app driver desired l l' : l ⊆ l' → allowed app driver desired l → allowed app driver desired l'.
Proof.
  intros Hl []. split; [by apply Hl|by apply Hl| |by eapply on_disk_mono].
  intros H. destruct (al_running0 H) as (v & Hv & Hne). eauto.
Qed.

Lemma tr_converge μ i app driver desired m rollout blocked :
  tr μ (converge requests mats rollouts outcomes heartbeats p lrt i app driver desired m rollout blocked)
    (λ r l μ', calls l = [] ∨
       (cp_AppRestarter p = true ∧ blocked = false ∧
        (Materializations.mt_AttemptCount m < maxReconcileAttempts p)%Z ∧
        allowed app driver desired l ∧ due_in μ i app driver desired l)).
Proof.
  unfold converge. destruct (cp_AppRestarter p); cbn [negb]; [|apply tr_ret; by left].
  apply tr_attempt_logging; [|intros e; by left]. intros restartable.
  destruct restartable; cbn [negb].
  2: { destruct blocked; [apply tr_ret; by left|].
       apply (tr_silent mats); [apply silent_bind; [apply silent_Now|intros; apply silent_markAllRestarted]|].
       intros r l μ' Hl _. by left. }
  eapply tr_attempt; [apply tr_ensureDesiredMaterialized| |].
  2: { intros e l μ' (Hl & _). by left. }
  intros [] l1 μ1 (Hl1 & Hs1 & Hdisk). destruct blocked; [apply tr_ret; left; by rewrite app_nil_r|].
  destruct (_ <=? _)%Z eqn:Hmax.
  { apply (tr_silent mats); [apply silent_settleAtLimit|]. intros r l μ' Hl _. left.
    change (calls (l1 ++ l) = []). by rewrite calls_app, Hl1, Hl. }
  apply Z.leb_gt in Hmax.
  eapply (tr_bind _ _ _ (λ v l μ', calls l = [] ∧ same_stops μ1 μ' ∧
    (is_Some (rt_RunningVersion rt) → l = [LRunning app v]))).
  { apply tr_RunningVersion.
    - intros HN. split_and!; [done..|]. rewrite HN. by intros [? ?].
    - by intros v Hv. }
  intros running l2 μ2 (Hl2 & Hs2 & Hrun). case_decide as Hdriver.
  { apply (tr_silent mats).
    - apply silent_attempt; [apply silent_prune|intros]. apply silent_bind; [apply silent_Now|intros].
      apply silent_markAllRestarted.
    - intros r l μ' Hl _. left. change (calls (l1 ++ l2 ++ l) = []). by rewrite !calls_app, Hl1, Hl2, Hl. }
  apply tr_bind_logging. intros ready. destruct ready; cbn [negb].
  2: { apply tr_ret. left. change (calls (l1 ++ l2 ++ [LRestartReady false]) = []).
       by rewrite !calls_app, Hl1, Hl2. }
  eapply tr_mono; [apply tr_restart|]. cbn beta. intros r l μ' Hr.
  assert (Hc : ∀ l', calls (LRestartable app (Ok true) :: l1 ++ l2 ++ LRestartReady true :: l')
                     = calls l').
  { intros l'. change (calls (l1 ++ l2 ++ LRestartReady true :: l') = calls l').
    by rewrite !calls_app, Hl1, Hl2. }
  destruct Hr as [Hr|Hr]; [left; by rewrite Hc|]. right. split_and!; try done.
  - split; [set_solver|set_solver| |].
    + intros HS. exists running. split; [rewrite (Hrun HS); set_solver|done].
    + eapply on_disk_mono; [|by apply Hdisk]. set_solver.
  - apply (due_in_before μ _ _ _ _ _ (LRestartable app (Ok true) :: l1 ++ l2 ++ [LRestartReady true]) _ [])
      in Hr; [|by etrans|by apply Hc|done].
    cbn in Hr. rewrite app_nil_r in Hr. rewrite <-!app_assoc in Hr. exact Hr.
Qed.

Lemma tr_acceptsRegistry a registry : silent (acceptsRegistry (D := D) p lrt a registry).
Proof.
  unfold acceptsRegistry. cbn [logged rt_AcceptsRegistry].
  destruct (rt_AcceptsRegistry rt); cbn [fmap option_fmap option_map]; repeat silent_step.
Qed.

Lemma tr_reconcileInstance μ i app installations ph :
  tr μ (reconcileInstance requests mats rollouts outcomes heartbeats p lrt i app installations ph)
    (λ r l μ', calls l = [] ∨
       ∃ driver desired, driver = LatestKnownVersion (Some <$> installations) ∧
         findInstallation installations driver = Some desired ∧
         cp_AppRestarter p = true ∧ ph_restartBlocked ph = false ∧
         allowed app driver desired l ∧ due_in μ i app driver desired l).
Proof.
  unfold reconcileInstance. case_decide; [apply tr_ret; by left|].
  destruct (findInstallation _ _) as [desired|] eqn:Hd; [|apply tr_ret; by left].
  apply (tr_attempt_silent mats); [repeat silent_step| |intros; by left]. intros m l1 μ1 Hl1 Hs1.
  destruct (negb (IsZero _)); [apply tr_ret; left; by rewrite app_nil_r|].
  apply (tr_bind_silent mats); [apply tr_acceptsRegistry|]. intros accepted l2 μ2 Hl2 Hs2.
  assert (Hc : ∀ l, calls (l1 ++ l2 ++ l) = calls l) by (intros l; by rewrite !calls_app, Hl1, Hl2).
  destruct accepted; cbn [negb]; [|apply tr_ret; left; by rewrite Hc].
  eapply tr_mono; [apply tr_converge|]. cbn beta. intros r l μ' [Hl|(Hr & Hb & _ & Ha & Hdue)];
    [left; by rewrite Hc|right].
  exists (LatestKnownVersion (Some <$> installations)), desired. split_and!; try done.
  - eapply allowed_mono; [|exact Ha]. set_solver.
  - apply (due_in_before μ _ _ _ _ _ (l1 ++ l2) _ []) in Hdue; [|by etrans|by rewrite calls_app, Hl1, Hl2|done].
    rewrite app_nil_r in Hdue. by rewrite <-app_assoc in Hdue.
Qed.

(** The enrollment of [rollout] is over, or it is not enrolling. *)
Definition not_enrolling (rollout : AppRollout) (l : list entry) : Prop :=
  r_State rollout = RolloutEnrolling →
  ∃ t, LClock t ∈ l ∧ (r_EnrollmentEndsAt rollout ≤ Truncate t Millisecond)%Z.

Lemma tr_endEnrollment μ rollout :
  tr μ (endEnrollment rollouts lrt rollout) (λ r l μ',
    calls l = [] ∧ same_stops μ μ' ∧
    ∀ r', r = Ok (Some (r', false)) → not_enrolling rollout l).
Proof.
  unfold endEnrollment. case_decide as Hst.
  - apply tr_bind_Now. intros t. destruct (Before _ _) eqn:Hb.
    { apply tr_ret. by split_and!. }
    apply (tr_silent mats).
    + apply silent_bind; [by apply silent_off, off_transition|intros; apply silent_ret].
    + intros r l μ' Hl Hs. split_and!; [by rewrite calls_clock|done|]. intros r' _ _.
      exists t. split; [set_solver|]. unfold Before in Hb. by apply Z.ltb_ge in Hb.
  - apply tr_ret. split_and!; [done..|]. intros r' _ H. done.
Qed.

Lemma tr_rolloutPhase μ i app installations configured rollout :
  tr μ (rolloutPhase requests mats rollouts outcomes heartbeats p lrt i app installations configured rollout)
    (λ r l μ', calls l = [] ∧ same_stops μ μ' ∧
       ∀ ph, r = Ok (Some ph) → ph_restartBlocked ph = false → not_enrolling rollout l).
Proof.
  unfold rolloutPhase. destruct (findInstallation _ _).
  2: { apply (tr_attempt_silent mats); [unfold rolloutWithoutVersion; repeat silent_step| |by intros; split_and!].
       intros [] l μ' Hl Hs. apply tr_ret. by rewrite app_nil_r. }
  apply (tr_attempt_silent mats); [destruct configured; repeat silent_step| |by intros; split_and!].
  intros m l1 μ1 Hl1 Hs1. eapply tr_attempt; [apply tr_endEnrollment| |].
  2: { intros e l μ' (Hl & Hs & _). rewrite calls_app, Hl1, Hl. split_and!; [done|by etrans|done]. }
  assert (H2 : ∀ μ2, same_stops μ1 μ2 → same_stops μ μ2) by (intros; by etrans).
  intros advanced l2 μ2 (Hl2 & Hs2 & Hadv).
  assert (Hc : ∀ l, calls (l1 ++ l2 ++ l) = calls l) by (intros l; by rewrite !calls_app, Hl1, Hl2).
  destruct advanced as [[rollout' blocked]|]; [|apply tr_ret; rewrite app_nil_r, calls_app, Hl1, Hl2; split_and!; [done|by auto|done]].
  apply (tr_attempt_silent mats); [repeat silent_step| |].
  - intros terminal l3 μ3 Hl3 Hs3. apply tr_ret. rewrite Hc, app_nil_r, Hl3.
    split_and!; [done|apply H2; by etrans|]. intros ph [= <-]. cbn. intros -> Henr.
    destruct (Hadv _ eq_refl Henr) as (t & Ht & Hle). exists t. split; [set_solver|done].
  - intros e l3 μ3 Hl3 Hs3. rewrite Hc, Hl3. split_and!; [done|apply H2; by etrans|done].
Qed.

(** What a pass over an app may do on its instance. *)
Definition disciplined (app : string) (installations : list AppInstallation)
    (rollout : option AppRollout) (i : string) (μ : memory) (l : list entry) : Prop :=
  ∃ driver desired, driver = LatestKnownVersion (Some <$> installations) ∧
    findInstallation installations driver = Some desired ∧
    LConfigured app true ∈ l ∧ allowed app driver desired l ∧
    (∀ r, rollout = Some r → not_enrolling r l) ∧ due_in μ i app driver desired l.

Lemma tr_reconcileApp μ i appName installations rollout :
  tr μ (reconcileApp requests mats rollouts outcomes heartbeats p lrt i appName installations rollout)
    (λ r l μ', calls l = [] ∨
       disciplined (TrimSpace appName) installations rollout i μ l).
Proof.
  unfold reconcileApp. case_decide; [apply tr_ret; by left|].
  set (app := TrimSpace appName) in *. clearbody app.
  eapply (tr_bind _ _ _ (λ c l μ', calls l = [] ∧ same_stops μ μ' ∧
    (cp_AppRestarter p = true → l = [LConfigured app c]))).
  { destruct (cp_AppRestarter p); [by apply tr_logging|by apply tr_ret]. }
  intros configured l1 μ1 (Hl1 & Hs1 & Hconf).
  apply (tr_bind_silent mats).
  { apply silent_local. intros n. by case_decide. }
  intros begun l2 μ2 Hl2 Hs2. destruct begun; cbn [negb].
  2: { apply tr_ret. left. by rewrite !calls_app, Hl1, Hl2. }
  eapply (tr_bind _ _ _ (λ r l μ', calls l = [] ∨ (configured = true ∧ cp_AppRestarter p = true ∧
    ∃ driver desired, driver = LatestKnownVersion (Some <$> installations) ∧
      findInstallation installations driver = Some desired ∧ allowed app driver desired l ∧
      (∀ r, rollout = Some r → not_enrolling r l) ∧ due_in μ i app driver desired l))).
  - unfold reconcileLocked. eapply (tr_attempt _ _ _ _ (λ r l μ', calls l = [] ∧
      same_stops μ2 μ' ∧ ∀ ph, r = Ok (Some ph) → ph_restartBlocked ph = false →
        ∀ r, rollout = Some r → not_enrolling r l)).
    + destruct rollout as [r|]; [|apply tr_ret; by split_and!].
      eapply tr_mono; [apply tr_rolloutPhase|]. intros ph l μ' (Hl & Hs & Hph). split_and!; [done..|].
      intros ph' -> Hb r' [= <-]. by eapply Hph.
    + intros ph l3 μ3 (Hl3 & Hs3 & Hph). destruct ph as [ph|]; [|apply tr_ret; left; by rewrite app_nil_r].
      destruct configured; cbn [negb orb]; [|apply tr_ret; left; by rewrite app_nil_r].
      destruct (bool_decide _); [apply tr_ret; left; by rewrite app_nil_r|].
      eapply tr_mono; [apply tr_reconcileInstance|]. cbn beta.
      intros r l4 μ4 [Hl4|(driver & desired & Hd & Hf & Hr & Hb & Ha & Hdue)].
      { left. by rewrite calls_app, Hl3, Hl4. }
      right. split_and!; [done..|]. exists driver, desired. split_and!; [done..| | |].
      * eapply allowed_mono; [|exact Ha]. set_solver.
      * intros r' Hr'. intros Henr. destruct (Hph _ eq_refl Hb _ Hr' Henr) as (t & Ht & Hle).
        exists t. split; [set_solver|done].
      * apply (due_in_before μ _ _ _ _ _ l3 _ []) in Hdue; [|by etrans; [|etrans]|done|done].
        by rewrite app_nil_r in Hdue.
    + intros e l3 μ3 (Hl3 & _). by left.
  - intros r l3 μ3 Hpost. apply (tr_bind_silent mats).
    { by apply silent_local. }
    intros [] l4 μ4 Hl4 _. apply tr_ret. rewrite app_nil_r.
    destruct Hpost as [Hl3|(-> & Hr & driver & desired & Hd & Hf & Ha & He & Hdue)].
    { left. by rewrite !calls_app, Hl1, Hl2, Hl3, Hl4. }
    right. exists driver, desired.
    assert (Hsub : l3 ⊆ l1 ++ l2 ++ l3 ++ l4) by set_solver.
    split_and!; [done|done| | | |].
    + rewrite (Hconf Hr). set_solver.
    + by eapply allowed_mono.
    + intros r' Hr' Henr. destruct (He _ Hr' Henr) as (t & Ht & Hle). exists t. split; [set_solver|done].
    + rewrite app_assoc. by apply (due_in_before μ μ); [|by rewrite calls_app, Hl1, Hl2| |].
Qed.

(** C3. A pass over an app takes it down or brings it up only when that is due.  Whatever
    calls to the database fail, the calls that a pass makes to its restarter for the app are:
    none; one stop; one start of the version that is to run; or a stop followed by that
    start.  A start comes only when the clock, read just before it, says that the restart
    delay has passed since the stop the pass goes by.  That is the stop which the poller
    remembers for the app, and without one the stop that the pass has just made; a pass
    that does not stop the app goes by the earlier one of the stop remembered and the one
    that the materialization of the version to run had on record when the pass began.
    (A stop that the poller should have forgotten counts too, as
    [stale_stop_skips_the_delay] shows.)  A pass makes any of these calls only after it has
    seen that the app is configured here and can be restarted, that the instance is ready,
    that another version runs or none, that the desired version is on disk, and that the
    enrollment of the app's rollout is over. *)
Theorem stops_and_starts_are_due i appName installations rollout (env : Env W) :
  let env' := (run (reconcileApp requests mats rollouts outcomes heartbeats p lrt
                      i appName installations rollout) env).2 in
  let app := TrimSpace appName in
  wf_mats (OS := mats) (contents env).1 →
  ∃ l, log_of env' = log_of env ++ l ∧
    (calls l = [] ∨
     ∃ driver desired, driver = LatestKnownVersion (Some <$> installations) ∧
       findInstallation installations driver = Some desired ∧
       LConfigured app true ∈ l ∧ allowed app driver desired l ∧
       (∀ r, rollout = Some r → not_enrolling r l) ∧
       due (nd_stoppedAt (contents env).2 !! app)
           (λ s, ∃ m, stored (OS := mats) (contents env).1
                        (trimmed_key i app (TrimSpace (ai_Version desired))) = Some m ∧
                      Materializations.mt_StoppedAt m = s ∧ s ≠ zero_time)
           app driver l).
Proof.
  intros env' app Hwf. subst env'.
  pose proof (tr_reconcileApp (mem_of env) i appName installations rollout env eq_refl) as H.
  unfold wp in H. destruct (run _ env) as [r env'].
  destruct H as (l & Hl & H). exists l. split; [done|].
  destruct H as [H|(driver & desired & Hd & Hf & Hc & Ha & He & Hdue)]; [by left|right].
  exists driver, desired. split_and!; [done..|].
  eapply (due_before _ _ _ _ _ [] l); [|done|exact Hdue]. intros s Hs. by apply Hs.
Qed.
End poller.
End CatalogPollerSafety.
