(* ===== verification/CatalogPollerRestarts.v ===== *)
(** * CatalogPollerRestarts: what the poller reports is what happened, and decides rollouts

    More theorems about CatalogPoller.v.  A materialization says that its version was restarted
    only if the instance does run it; a rollout is decided by the instances that enrolled, or
    by the state of the fleet. *)

From stdpp Require Import base gmap strings list sorting sets.
From Stdlib Require Import ZArith Ascii Lia.
From S2P Require Import Prelude ObjectStore RegistryTypes Heartbeats FleetState Rollouts.
From S2P Require Import Rfc3339 ChangeRequests Materializations RolloutOutcomes CatalogPoller CatalogPollerSafety.

Set Default Goal Selector "!".

Module CatalogPollerRestarts.
Import CatalogPoller CatalogPollerSafety.
Import FleetState(LatestKnownVersion).
Import Materializations(AppInstanceMaterialization, mark(..), mat_key, wf_mats, stored, gentle_but, trimmed_key).

(** ** Evidence

    The log shows that an instance runs a version, or that the app is not restarted here. *)
Definition evidence (instanceID : string) (l : list entry) (k : mat_key) : Prop :=
  k.1.1 = instanceID ∧
  (LRestartable k.1.2 (Ok false) ∈ l ∨ LRunning k.1.2 (Some k.2) ∈ l ∨ LStart k.1.2 k.2 (Ok tt) ∈ l).

Lemma evidence_mono i l l' k : l ⊆ l' → evidence i l k → evidence i l' k.
Proof. unfold evidence. set_solver. Qed.

Section logic.
  Context `{TP : TimeParser} {D X : Type} (mats0 : ObjectStore D) (instanceID : string) (b : list entry).
  Local Abbreviation W := (D * Node (X * list entry))%type.
  Local Abbreviation M A := (prog (Env W) A).
  Local Abbreviation mats := (left_store D (Node (X * list entry)) (H := mats0)).

(** Entries became restarted only with evidence in [l]. *)
Definition earned (l : list entry) : W → W → Prop := gentle_but (OS := mats) Restarted (evidence instanceID l).

(** [b] is the log when the pass begins.  From a log [b ++ l], [m] ends in a longer one that
    satisfies [Q], and what became restarted on the way is earned. *)
Definition sf {A} (l : list entry) (m : M A) (Q : A → list entry → Prop) : Prop :=
  ∀ env, wf_mats (OS := mats) (contents env) → log_of env = b ++ l →
    wp m (λ r env', ∃ l', l `prefix_of` l' ∧ log_of env' = b ++ l' ∧
                          earned l' (contents env) (contents env') ∧ Q r l') env.

Lemma earned_trans l l' w1 w2 w3 : l ⊆ l' → earned l w1 w2 → earned l' w2 w3 → earned l' w1 w3.
Proof.
  intros Hl [_ H12] [Hwf H23]. split; [done|]. intros k m3 H3 Hr.
  destruct (H23 _ _ H3 Hr) as [He|(m2 & H2 & Heq)]; [by left|].
  rewrite <-Heq in Hr. destruct (H12 _ _ H2 Hr) as [He|(m1 & H1 & Heq')].
  - left. by eapply evidence_mono.
  - right. exists m1. split; [done|congruence].
Qed.

Lemma sf_ret {A} l (a : A) (Q : A → list entry → Prop) : Q a l → sf l (mret a) Q.
Proof.
  intros HQ env Hwf Hl. wp_step. exists l. split_and!; [done|done| |done].
  by apply Materializations.gentle_same.
Qed.

Lemma sf_mono {A} l (m : M A) (P Q : A → list entry → Prop) :
  sf l m P → (∀ a l', l `prefix_of` l' → P a l' → Q a l') → sf l m Q.
Proof.
  intros Hm HPQ env Hwf Hl. eapply wp_mono; [exact (Hm env Hwf Hl)|].
  intros a env' (l' & Hp & Hlog & He & HP). exists l'. split_and!; auto.
Qed.

Lemma sf_bind {A B} l (m : M A) (f : A → M B) P (Q : B → list entry → Prop) :
  sf l m P → (∀ a l', l `prefix_of` l' → P a l' → sf l' (f a) Q) → sf l (m ≫= f) Q.
Proof.
  intros Hm Hf env Hwf Hl. wp_step. eapply wp_mono; [exact (Hm env Hwf Hl)|].
  intros a env1 (l1 & Hp1 & Hl1 & He1 & HP).
  eapply wp_mono; [exact (Hf a l1 Hp1 HP env1 (proj1 He1) Hl1)|].
  intros r env2 (l2 & Hp2 & Hl2 & He2 & HQ). exists l2. split_and!; [by etrans|done| |done].
  eapply earned_trans; [|exact He1|exact He2].
  intros e He. destruct Hp2 as [k ->]. set_solver.
Qed.

Lemma sf_attempt {E F A B} l (wrap : E → F) (m : M (result E A)) (k : A → M (result F B)) P
    (Q : result F B → list entry → Prop) :
  sf l m P → (∀ a l', l `prefix_of` l' → P (Ok a) l' → sf l' (k a) Q) →
  (∀ e l', l `prefix_of` l' → P (Err e) l' → Q (Err (wrap e)) l') → sf l (attempt wrap m k) Q.
Proof.
  intros Hm Hk He. eapply sf_bind; [exact Hm|]. intros [a|e] l' Hp HP; [by apply Hk|].
  apply sf_ret. by apply He.
Qed.

Lemma sf_off {A} l (m : M A) (Q : A → list entry → Prop) :
  keeps (off mats0) m → (∀ a, Q a l) → sf l m Q.
Proof.
  intros Hm HQ env Hwf Hl. eapply (wp_keeps (off mats0)); [exact Hm|]. intros a env' Hoff _.
  destruct (off_stored _ _ _ Hoff Hwf) as [Hwf' Hst]. exists l.
  split_and!; [done| | |done].
  - destruct Hoff as [Hn _]. unfold node_same in Hn. unfold log_of in *. by rewrite Hn.
  - split; [done|]. intros k m' Hm' _. rewrite Hst in Hm'. right. eauto.
Qed.

(** Writes to the materializations that restart nothing. *)
Lemma sf_gentle {A} l (m : M A) (Q : A → list entry → Prop) :
  on_db m →
  (∀ env, wf_mats (OS := mats) (contents env) →
     wp m (λ _ env', gentle_but (OS := mats) Restarted (evidence instanceID l) (contents env) (contents env')) env) →
  (∀ a, Q a l) → sf l m Q.
Proof.
  intros Hdb Hm HQ env Hwf Hl. pose proof (proj1 (keeps_run node_same m env Hdb)) as Hn.
  exists l. split_and!; [done| |exact (Hm env Hwf)|done].
  unfold node_same in Hn. unfold log_of in *. by rewrite Hn.
Qed.

Lemma sf_logging {A} l (f : X → A * X) (e : A → entry) (Q : A → list entry → Prop) :
  (∀ a, Q a (l ++ [e a])) → sf l (runtime (logging f e)) Q.
Proof.
  intros HQ env Hwf Hl. unfold wp, runtime, local. rewrite run_atomic.
  destruct env as [[d [st fl ca [x lg]]] fs]. cbn in *. destruct (f x) as [a x']. cbn.
  exists (l ++ [e a]). split_and!; [by exists [e a]|by rewrite Hl, app_assoc| |done].
  split; [exact Hwf|]. intros k m' Hm' _. right. eauto.
Qed.

(** Steps on the instance that log nothing. *)
Lemma sf_local {A} l (f : Node (X * list entry) → A * Node (X * list entry)) (Q : A → list entry → Prop) :
  (∀ n, (nd_runtime (f n).2).2 = (nd_runtime n).2) → (∀ a, Q a l) → sf l (local f) Q.
Proof.
  intros Hf HQ env Hwf Hl. unfold wp, local. rewrite run_atomic.
  destruct env as [[d n] fs]. specialize (Hf n). cbn in *. destruct (f n) as [a n']. cbn in *.
  exists l. split_and!; [done| | |done].
  - unfold log_of in *. cbn in *. congruence.
  - split; [exact Hwf|]. intros k m' Hm' _. right. eauto.
Qed.
Lemma sf_unlogged {A} l (f : X → A * X) (Q : A → list entry → Prop) :
  (∀ a, Q a l) → sf l (runtime (unlogged f)) Q.
Proof.
  intros HQ. apply sf_local; [|done]. intros [st fl ca [x lg]]. cbn. by destruct (f x).
Qed.

(** *** Programs that restart nothing *)

Definition calm {A} (m : M A) : Prop := ∀ l, sf l m (λ _ _, True).

Lemma calm_ret {A} (a : A) : calm (mret a).
Proof. intros l. by apply sf_ret. Qed.
Lemma calm_bind {A B} (m : M A) (f : A → M B) : calm m → (∀ a, calm (f a)) → calm (m ≫= f).
Proof. intros Hm Hf l. eapply sf_bind; [apply Hm|]. intros a l' _ _. apply Hf. Qed.
Lemma calm_attempt {E F A B} (wrap : E → F) (m : M (result E A)) (k : A → M (result F B)) :
  calm m → (∀ a, calm (k a)) → calm (attempt wrap m k).
Proof. intros Hm Hk. apply calm_bind; [done|]. intros [a|e]; [apply Hk|apply calm_ret]. Qed.
Lemma calm_off {A} (m : M A) : keeps (off mats0) m → calm m.
Proof. intros Hm l. by apply sf_off. Qed.
Lemma calm_gentle {A} (m : M A) :
  on_db m →
  (∀ env, wf_mats (OS := mats) (contents env) →
     wp m (λ _ env', gentle_but (OS := mats) Restarted (λ _, False) (contents env) (contents env')) env) →
  calm m.
Proof.
  intros Hdb Hm l. apply sf_gentle; [done| |done]. intros env Hwf.
  eapply wp_mono; [by apply Hm|]. intros r env' [Hwf' H]. split; [done|]. intros k m' H1 H2.
  destruct (H _ _ H1 H2) as [[]|?]; by right.
Qed.
Lemma calm_logging {A} (f : X → A * X) (e : A → entry) : calm (runtime (logging f e)).
Proof. intros l. by apply sf_logging. Qed.
Lemma calm_unlogged {A} (f : X → A * X) : calm (runtime (unlogged f)).
Proof. intros l. by apply sf_unlogged. Qed.
Lemma calm_local {A} (f : Node (X * list entry) → A * Node (X * list entry)) :
  (∀ n, nd_runtime (f n).2 = nd_runtime n) → calm (local f).
Proof. intros Hf l. apply sf_local; [|done]. intros n. by rewrite Hf. Qed.

(** Start from what the log holds already, and forget about the answer. *)
Lemma sf_calm {A} l (m : M A) (Q : A → list entry → Prop) :
  calm m → (∀ a l', l `prefix_of` l' → Q a l') → sf l m Q.
Proof. intros Hm HQ. eapply sf_mono; [apply Hm|]. auto. Qed.
Lemma sf_bind_calm {A B} l (m : M A) (f : A → M B) (Q : B → list entry → Prop) :
  calm m → (∀ a l', l `prefix_of` l' → sf l' (f a) Q) → sf l (m ≫= f) Q.
Proof. intros Hm Hf. eapply sf_bind; [apply Hm|]. auto. Qed.
Lemma sf_attempt_calm {E F A B} l (wrap : E → F) (m : M (result E A)) (k : A → M (result F B))
    (Q : result F B → list entry → Prop) :
  calm m → (∀ a l', l `prefix_of` l' → sf l' (k a) Q) →
  (∀ e l', l `prefix_of` l' → Q (Err (wrap e)) l') → sf l (attempt wrap m k) Q.
Proof. intros Hm Hk He. eapply sf_attempt; [apply Hm|auto|auto]. Qed.
End logic.


(** ** The parts of a pass *)

Create HintDb calm.

Ltac calm_step :=
  lazymatch goal with
  | |- calm _ _ _ (mret _) => apply calm_ret
  | |- calm _ _ _ (attempt _ _ _) => apply calm_attempt; [|intros ?]
  | |- calm _ _ _ (_ ≫= _) => apply calm_bind; [|intros ?]
  | |- calm _ _ _ (runtime _) => first [apply calm_unlogged | apply calm_logging]
  | |- calm _ _ _ (local _) => apply calm_local; intros; try case_decide; done
  | |- calm _ _ _ (match ?x with _ => _ end) => destruct x
  | |- calm _ _ _ (if ?x then _ else _) => destruct x
  | |- calm _ _ _ _ => solve [eauto with calm | apply calm_off; solve [eauto with off]]
  end.

Section poller.
  Context `{TP : TimeParser, JC : ChangeRequests.JSONCodec, SP : ChangeRequests.Sprinter}.
  Context {D X : Type} (requests mats rollouts outcomes heartbeats : ObjectStore D).
  Context `{!Apart mats rollouts, !Apart mats outcomes}.
  Context (order : ∀ A : Type, gmap string A → list (string * A)).
  Context (ErrorText : PollerError → string).
  Context (p : Poller) (rt : Runtime X) (b : list entry).
  Local Abbreviation W := (D * Node (X * list entry))%type.
  Local Abbreviation M A := (prog (Env W) A).
  Local Abbreviation lrt := (logged rt).
  Local Abbreviation self := (TrimSpace (cp_InstanceID p)).
  Local Abbreviation calm m := (calm mats self b m).
  Local Abbreviation sf l m Q := (sf mats self b l m Q).

Lemma sf_bind_Now {B} l (k : time → M B) (Q : B → list entry → Prop) :
  (∀ t, sf (l ++ [LClock t]) (k (Truncate t Millisecond)) Q) → sf l (Now (D := D) lrt ≫= k) Q.
Proof.
  intros Hk. eapply (sf_bind _ _ _ _ _ _ (λ a l', ∃ t, a = Truncate t Millisecond ∧ l' = l ++ [LClock t])).
  - intros env Hwf Hl. unfold wp, Now, runtime, local. rewrite run_atomic.
    destruct env as [[d [st fl ca [x lg]]] fs]. cbn in *. destruct (rt_Now rt x) as [t x']. cbn.
    exists (l ++ [LClock t]). split_and!; [by exists [LClock t]|by rewrite Hl, app_assoc| |by exists t].
    split; [exact Hwf|]. intros k' m' Hm' _. right. eauto.
  - intros a l' _ (t & -> & ->). apply Hk.
Qed.

Lemma calm_Now : calm (Now (D := D) lrt : M time).
Proof.
  intros l env Hwf Hl.
  unfold wp, Now, runtime, local. rewrite run_atomic.
  destruct env as [[d [st fl ca [x lg]]] fs]. cbn in *. destruct (rt_Now rt x) as [t x']. cbn.
  exists (l ++ [LClock t]). split_and!; [by exists [LClock t]|by rewrite Hl, app_assoc| |done].
  split; [exact Hwf|]. intros k' m' Hm' _. right. eauto.
Qed.
Lemma calm_RunningVersion app : calm (RunningVersion (D := D) lrt app).
Proof.
  unfold RunningVersion. cbn [logged rt_RunningVersion].
  destruct (rt_RunningVersion rt); cbn [fmap option_fmap option_map]; repeat calm_step.
Qed.
Lemma calm_cached key : calm (cached (D := D) (X := X * list entry) key).
Proof. unfold cached. repeat calm_step. Qed.
Lemma calm_cache key m : calm (cache (D := D) (X := X * list entry) key m).
Proof. unfold cache. repeat calm_step. Qed.
Lemma calm_newCache ms : calm (newCache (D := D) (X := X * list entry) ms).
Proof. unfold newCache. repeat calm_step. Qed.
Lemma calm_localStoppedAt app : calm (localStoppedAt (D := D) (X := X * list entry) app).
Proof. unfold localStoppedAt. repeat calm_step. Qed.
Lemma calm_remember app t : calm (rememberStoppedAt (D := D) (X := X * list entry) app t).
Proof. apply calm_local. intros n. by destruct (nd_stoppedAt n !! app). Qed.
Lemma calm_forget app : calm (forgetStoppedAt (D := D) (X := X * list entry) app).
Proof. unfold forgetStoppedAt. repeat calm_step. Qed.
Lemma calm_begin app : calm (beginInflight (D := D) (X := X * list entry) app).
Proof. apply calm_local. intros n. by case_decide. Qed.
Lemma calm_end app : calm (endInflight (D := D) (X := X * list entry) app).
Proof. unfold endInflight. repeat calm_step. Qed.
Hint Resolve calm_Now calm_RunningVersion calm_cached calm_cache calm_newCache calm_localStoppedAt
  calm_remember calm_forget calm_begin calm_end : calm.

Lemma calm_get i a v : calm (getMaterialization (X := X * list entry) mats i a v).
Proof. apply calm_off. unfold getMaterialization. eauto with off. Qed.
Lemma calm_acknowledge now id m created :
  calm (Materializations.acknowledge (OS := left_store D (Node (X * list entry)) (H := mats))
          true now id (Some m) created).
Proof.
  apply calm_gentle; [apply on_db_acknowledge|]. intros env Hwf. by apply Materializations.acknowledge_gentle.
Qed.
Lemma calm_mark mk now t i a v :
  mk ≠ Materializations.Restarted →
  calm (Materializations.updateTimestamps (OS := left_store D (Node (X * list entry)) (H := mats))
          true i a v (Materializations.stamp (Materializations.mark_column mk) now t)).
Proof.
  intros Hmk. apply calm_gentle; [apply on_db_updateTimestamps|]. intros env Hwf.
  eapply wp_mono; [by apply Materializations.mark_gentle|]. intros r env' [Hwf' H]. split; [done|].
  intros k m' H1 H2. destruct (H _ _ H1 H2) as [[? _]|?]; [done|by right].
Qed.
Lemma calm_MarkStopped now i a v t :
  calm (Materializations.MarkStopped (OS := left_store D (Node (X * list entry)) (H := mats)) true now i a v t).
Proof. by apply (calm_mark Materializations.Stopped). Qed.
Lemma calm_MarkMaterialized now i a v t :
  calm (Materializations.MarkMaterialized (OS := left_store D (Node (X * list entry)) (H := mats)) true now i a v t).
Proof. by apply (calm_mark Materializations.Materialized). Qed.
Lemma calm_RecordFailure now i a v t text :
  calm (Materializations.RecordFailure (OS := left_store D (Node (X * list entry)) (H := mats)) true now i a v t text).
Proof.
  apply calm_gentle; [apply on_db_RecordFailure|]. intros env Hwf. by apply Materializations.RecordFailure_gentle.
Qed.
Hint Resolve calm_get calm_acknowledge calm_MarkStopped calm_MarkMaterialized calm_RecordFailure : calm.

Lemma calm_ensureAcknowledged i a v created : calm (ensureAcknowledged mats p lrt i a v created).
Proof.
  unfold ensureAcknowledged, Materializations.Acknowledge, Materializations.AcknowledgeForRollout.
  repeat calm_step.
Qed.
Lemma calm_markPendingStopped i a pending t :
  calm (markPendingStopped (X := X * list entry) mats i a pending t).
Proof. induction pending; cbn [markPendingStopped]; repeat calm_step. Qed.
Lemma calm_earliest i a pending : calm (earliestStoppedAt (X := X * list entry) mats i a pending).
Proof.
  unfold earliestStoppedAt. calm_step; [calm_step|]. rename a0 into e. revert e.
  induction pending; intros e; cbn [earliestOf]; repeat calm_step.
Qed.
Lemma calm_ensureDesiredMaterialized i d : calm (ensureDesiredMaterialized mats p lrt i d).
Proof. unfold ensureDesiredMaterialized. repeat calm_step. Qed.
Lemma calm_desiredVersionMaterialized i d : calm (desiredVersionMaterialized mats p lrt i d).
Proof. unfold desiredVersionMaterialized. repeat calm_step. Qed.
Lemma calm_prune a v : calm (pruneSuperseded (D := D) p lrt a v).
Proof. unfold pruneSuperseded. repeat calm_step. Qed.
Lemma calm_pruned a v : calm (supersededPruned (D := D) p lrt a v).
Proof. unfold supersededPruned. repeat calm_step. Qed.
Lemma calm_accepts a r : calm (acceptsRegistry (D := D) p lrt a r).
Proof.
  unfold acceptsRegistry. cbn [logged rt_AcceptsRegistry].
  destruct (rt_AcceptsRegistry rt); cbn [fmap option_fmap option_map]; repeat calm_step.
Qed.
Hint Resolve calm_ensureAcknowledged calm_markPendingStopped calm_earliest calm_ensureDesiredMaterialized
  calm_desiredVersionMaterialized calm_prune calm_pruned calm_accepts : calm.

Lemma calm_recordRolloutOutcome r :
  calm (recordRolloutOutcome (X := X * list entry) requests outcomes p r).
Proof.
  unfold recordRolloutOutcome, RolloutOutcomes.RecordComplete, RolloutOutcomes.RecordFailed.
  repeat calm_step.
Qed.
Lemma calm_notify a : calm (notifyRolloutTerminal (D := D) lrt a).
Proof.
  unfold notifyRolloutTerminal. cbn [logged rt_OnRolloutTerminal].
  destruct (rt_OnRolloutTerminal rt); cbn [fmap option_fmap option_map]; repeat calm_step.
Qed.
Lemma calm_prepare r : calm (prepareRolloutCompletion (D := D) lrt r).
Proof.
  unfold prepareRolloutCompletion. cbn [logged rt_BeforeRolloutComplete].
  destruct (rt_BeforeRolloutComplete rt); cbn [fmap option_fmap option_map]; repeat calm_step.
Qed.
Hint Resolve calm_recordRolloutOutcome calm_notify calm_prepare : calm.
Lemma calm_concluded r : calm (concluded requests outcomes p lrt r).
Proof. unfold concluded. repeat calm_step. Qed.
Hint Resolve calm_concluded : calm.
Lemma calm_failOverdue r : calm (failOverdue requests rollouts outcomes p lrt r).
Proof. unfold failOverdue, Rollouts.MarkFailedForRollout. repeat calm_step. Qed.
Hint Resolve calm_failOverdue : calm.
Lemma calm_evaluateHeartbeats r now pr h :
  calm (evaluateHeartbeats requests rollouts outcomes p lrt r now pr h).
Proof. unfold evaluateHeartbeats. repeat calm_step. Qed.
Hint Resolve calm_evaluateHeartbeats : calm.
Lemma calm_updateHeartbeat r :
  calm (updateHeartbeatRolloutOutcome requests rollouts outcomes heartbeats p lrt r).
Proof. unfold updateHeartbeatRolloutOutcome, judgeHeartbeats. repeat calm_step. Qed.
Hint Resolve calm_updateHeartbeat : calm.
Lemma calm_updateRolloutOutcome r :
  calm (updateRolloutOutcome requests mats rollouts outcomes heartbeats p lrt r).
Proof. unfold updateRolloutOutcome, Rollouts.MarkCompleteForRollout. repeat calm_step. Qed.
Hint Resolve calm_updateRolloutOutcome : calm.
Lemma calm_rolloutPhase i a insts c r :
  calm (rolloutPhase requests mats rollouts outcomes heartbeats p lrt i a insts c r).
Proof.
  unfold rolloutPhase, rolloutWithoutVersion, endEnrollment, Rollouts.MarkRestartingForRollout.
  repeat calm_step.
Qed.
Lemma calm_ensureStopped i a driver d : calm (ensureStopped mats lrt i a driver d).
Proof. unfold ensureStopped. repeat calm_step. Qed.
Lemma calm_recordFailure i a insts e : calm (recordFailure mats ErrorText lrt i a insts e).
Proof. unfold recordFailure. repeat calm_step. Qed.
Hint Resolve calm_rolloutPhase calm_ensureStopped calm_recordFailure : calm.

(** *** Restarts *)

Lemma sf_attempt_logging {E F A B} l (wrap : E → F) (f : X → result E A * X) (e : result E A → entry)
    (k : A → M (result F B)) :
  (∀ a, sf (l ++ [e (Ok a)]) (k a) (λ _ _, True)) →
  sf l (attempt wrap (runtime (logging f e)) k) (λ _ _, True).
Proof.
  intros Hk. eapply (sf_attempt _ _ _ _ _ _ _ (λ r l', l' = l ++ [e r])); [by apply sf_logging| |done].
  intros a l' _ ->. apply Hk.
Qed.

Lemma prefix_evidence l l' k : l `prefix_of` l' → evidence self l k → evidence self l' k.
Proof. intros [l0 ->]. apply evidence_mono. set_solver. Qed.

(** The only writes that restart: they need evidence for each installation. *)
Lemma sf_markAllRestarted l i app pending t :
  (∀ x, x ∈ pending → evidence self l (trimmed_key i app (TrimSpace (ai_Version x)))) →
  sf l (markAllRestarted (X := X * list entry) mats i app pending t) (λ _ _, True).
Proof.
  revert l. induction pending as [|x pending IH]; intros l He; cbn [markAllRestarted]; [by apply calm_ret|].
  apply sf_attempt_calm; [apply calm_get| |done]. intros m l1 Hl1.
  assert (He1 : ∀ x', x' ∈ x :: pending → evidence self l1 (trimmed_key i app (TrimSpace (ai_Version x'))))
    by (intros x' Hx'; eapply prefix_evidence; [exact Hl1|by apply He]).
  destruct (negb _); [apply IH; intros x' Hx'; apply He1; by right|].
  eapply (sf_attempt _ _ _ _ _ _ _ (λ _ l', l1 `prefix_of` l')); [| |done].
  - apply sf_gentle; [apply on_db_updateTimestamps| |done]. intros env Hwf.
    eapply wp_mono; [by apply (Materializations.mark_gentle Restarted Restarted)|].
    intros r env' [Hwf' H]. split; [done|]. intros k m' H1 H2.
    destruct (H _ _ H1 H2) as [[_ ->]|?]; [left; apply He1; by left|by right].
  - intros [] l2 Hl2 _. apply IH. intros x' Hx'. eapply prefix_evidence; [exact Hl2|]. apply He1. by right.
Qed.

Lemma findInstallation_version installations v x :
  findInstallation installations v = Some x → TrimSpace (ai_Version x) = TrimSpace v.
Proof. intros H%head_Some_elem_of%list_elem_of_filter. by destruct H. Qed.
Lemma LatestKnown_trimmed installations :
  TrimSpace (LatestKnownVersion installations) = LatestKnownVersion installations.
Proof.
  unfold LatestKnownVersion. destruct (FleetState.LatestKnownInstallation _); [apply TrimSpace_idem|done].
Qed.

Section restarts.
  Context (i app : string) (Hi : TrimSpace i = self) (Happ : TrimSpace app = app).

Lemma sf_markDesired l desired driver t :
  TrimSpace (ai_Version desired) = driver →
  LRestartable app (Ok false) ∈ l ∨ LRunning app (Some driver) ∈ l ∨ LStart app driver (Ok tt) ∈ l →
  sf l (markAllRestarted (X := X * list entry) mats i app [desired] t) (λ _ _, True).
Proof.
  intros Hd Hl. apply sf_markAllRestarted. intros x ->%list_elem_of_singleton.
  unfold evidence, trimmed_key. cbn [fst snd]. by rewrite Hi, Happ, TrimSpace_idem, Hd.
Qed.

Lemma sf_bind_RunningVersion {B} l (k : option string → M B) :
  (∀ v l', l `prefix_of` l' → (is_Some v → LRunning app v ∈ l') → sf l' (k v) (λ _ _, True)) →
  sf l (RunningVersion (D := D) lrt app ≫= k) (λ _ _, True).
Proof.
  intros Hk. eapply (sf_bind _ _ _ _ _ _ (λ v l', is_Some v → LRunning app v ∈ l')).
  - unfold RunningVersion. cbn [logged rt_RunningVersion].
    destruct (rt_RunningVersion rt); cbn [fmap option_fmap option_map].
    + apply sf_logging. set_solver.
    + apply sf_ret. by intros [? ?].
  - auto.
Qed.

Lemma calm_settleAtLimit driver desired :
  TrimSpace (ai_Version desired) = driver → calm (settleAtLimit mats p lrt i app driver desired).
Proof.
  intros Hd l. unfold settleAtLimit. destruct (negb _); [by apply calm_ret|].
  apply sf_bind_RunningVersion. intros v l1 Hl1 Hv. apply sf_attempt_calm; [eauto with calm| |done].
  intros materialized l2 Hl2. apply sf_attempt_calm; [eauto with calm| |done]. intros pruned l3 Hl3.
  destruct (_ && _) eqn:Hb; [|by apply calm_ret].
  apply andb_true_iff in Hb as [[Hb%bool_decide_eq_true _]%andb_true_iff _].
  apply sf_bind_calm; [apply calm_Now|]. intros t l4 Hl4. eapply sf_markDesired; [done|]. right. left.
  subst v. destruct (Hv ltac:(by eexists)); destruct Hl2, Hl3, Hl4; set_solver.
Qed.
Lemma calm_restart driver desired rollout :
  TrimSpace (ai_Version desired) = driver →
  calm (restart requests mats rollouts outcomes heartbeats p lrt i app driver desired rollout).
Proof.
  intros Hd l. unfold restart. apply sf_attempt_calm; [eauto with calm| |done]. intros s l1 _.
  apply sf_attempt_calm; [eauto with calm| |done]. intros [] l2 _.
  apply sf_bind_calm; [repeat calm_step|]. intros waiting l3 _. destruct waiting; [by apply calm_ret|].
  apply sf_attempt_logging. intros []. apply sf_attempt_calm; [eauto with calm| |done]. intros [] l4 Hl4.
  apply sf_bind_calm; [eauto with calm|]. intros t l5 Hl5.
  eapply (sf_attempt _ _ _ _ _ _ _ (λ _ _, True)); [|intros [] l6 _ _|done].
  - eapply sf_markDesired; [done|]. right. right. destruct Hl4 as [? ->], Hl5 as [? ->]. set_solver.
  - match goal with |- CatalogPollerRestarts.sf _ _ _ ?l ?m _ => enough (calm m) by auto end.
    repeat calm_step.
Qed.

Lemma calm_converge driver desired m rollout blocked :
  TrimSpace (ai_Version desired) = driver →
  calm (converge requests mats rollouts outcomes heartbeats p lrt i app driver desired m rollout blocked).
Proof.
  intros Hd l. unfold converge. destruct (negb _); [by apply calm_ret|].
  apply sf_attempt_logging. intros restartable. destruct restartable; cbn [negb].
  2: { destruct blocked; [by apply calm_ret|]. apply sf_bind_calm; [eauto with calm|]. intros t l1 [? ->].
       eapply sf_markDesired; [done|]. left. set_solver. }
  apply sf_attempt_calm; [eauto with calm| |done]. intros [] l1 _. destruct blocked; [by apply calm_ret|].
  destruct (_ <=? _)%Z; [by apply calm_settleAtLimit|]. apply sf_bind_RunningVersion. intros v l2 _ Hv.
  case_decide as Hrun.
  - apply sf_attempt_calm; [eauto with calm| |done]. intros [] l3 Hl3.
    apply sf_bind_calm; [eauto with calm|]. intros t l4 Hl4. eapply sf_markDesired; [done|]. right. left.
    rewrite Hrun in Hv. destruct Hl3 as [? ->], Hl4 as [? ->]. pose proof (Hv ltac:(by eexists)). set_solver.
  - apply sf_bind_calm; [apply calm_logging|]. intros ready l3 _. destruct ready; [|by apply calm_ret].
    by apply calm_restart.
Qed.

Lemma calm_reconcileInstance installations ph :
  calm (reconcileInstance requests mats rollouts outcomes heartbeats p lrt i app installations ph).
Proof.
  unfold reconcileInstance. case_decide; [apply calm_ret|].
  destruct (findInstallation _ _) as [desired|] eqn:Hd; [|apply calm_ret].
  apply calm_attempt; [repeat calm_step|]. intros m. destruct (negb (IsZero _)); [apply calm_ret|].
  apply calm_bind; [apply calm_accepts|]. intros accepted. destruct accepted; [|apply calm_ret].
  apply calm_converge. by apply findInstallation_version in Hd as ->; rewrite LatestKnown_trimmed.
Qed.
Hint Resolve calm_reconcileInstance : calm.

Lemma calm_reconcileLocked configured installations rollout :
  calm (reconcileLocked requests mats rollouts outcomes heartbeats p lrt i app configured installations rollout).
Proof. unfold reconcileLocked. repeat calm_step. Qed.
End restarts.

Section pass.
  Context (i : string) (Hi : TrimSpace i = self).

Lemma calm_reconcileApp appName installations rollout :
  calm (reconcileApp requests mats rollouts outcomes heartbeats p lrt i appName installations rollout).
Proof.
  unfold reconcileApp. case_decide; [apply calm_ret|].
  apply calm_bind; [destruct (cp_AppRestarter p); repeat calm_step|]. intros configured.
  apply calm_bind; [apply calm_begin|]. intros begun. destruct (negb begun); [apply calm_ret|].
  apply calm_bind; [|intros; repeat calm_step]. apply calm_reconcileLocked; [done|apply TrimSpace_idem].
Qed.
Hint Resolve calm_reconcileApp : calm.

Lemma calm_reconcileKnown byApp active :
  calm (reconcileKnown requests mats rollouts outcomes heartbeats ErrorText p lrt i byApp active).
Proof.
  revert active. induction byApp as [|[a insts] byApp IH]; intros active; cbn [reconcileKnown];
    [apply calm_ret|].
  apply calm_bind; [apply calm_reconcileApp|]. intros r. apply calm_bind; [repeat calm_step|]. intros errs.
  apply calm_bind; [apply IH|intros; apply calm_ret].
Qed.
Lemma calm_reconcileActive active :
  calm (reconcileActive requests mats rollouts outcomes heartbeats p lrt i active).
Proof.
  induction active as [|[a r] active IH]; cbn [reconcileActive]; [apply calm_ret|].
  apply calm_bind; [apply calm_reconcileApp|]. intros x. apply calm_bind; [apply IH|intros; apply calm_ret].
Qed.
End pass.
Hint Resolve calm_reconcileKnown calm_reconcileActive : calm.

Lemma ReconcileOnce_calm :
  calm (ReconcileOnce requests mats rollouts outcomes heartbeats order ErrorText p lrt).
Proof.
  assert (Hi : TrimSpace self = self) by apply TrimSpace_idem. unfold ReconcileOnce. repeat calm_step.
Qed.
End poller.

Section claim.
  Context `{TP : TimeParser, JC : ChangeRequests.JSONCodec, SP : ChangeRequests.Sprinter}.
  Context {D X : Type} (requests mats rollouts outcomes heartbeats : ObjectStore D).
  Context `{!Apart mats rollouts, !Apart mats outcomes}.
  Context (order : ∀ A : Type, gmap string A → list (string * A)).
  Context (ErrorText : PollerError → string).
  Context (p : Poller) (rt : Runtime X).
  Local Abbreviation W := (D * Node (X * list entry))%type.
  Local Abbreviation lrt := (logged rt).
  Local Abbreviation self := (TrimSpace (cp_InstanceID p)).

(** C14. A materialization never says that a version was restarted on this instance unless
    that is what happened.  After a pass over the catalog, whatever calls to the database or
    to the instance failed in it, every materialization that says restarted either said so
    before, with the same time, or is this instance's own and was earned in this pass: the
    restarter answered that the app is not restarted here, or that it runs that very
    version, or it has just started it.  What the convergence of a rollout counts is this. *)
Theorem restarted_rows_are_earned (env : Env W) :
  let env' := (run (ReconcileOnce requests mats rollouts outcomes heartbeats order ErrorText p lrt) env).2 in
  let materializations := left_store D (Node (X * list entry)) (H := mats) in
  wf_mats (OS := materializations) (contents env) →
  wf_mats (OS := materializations) (contents env') ∧
  ∃ l, log_of env' = log_of env ++ l ∧
    ∀ k m', stored (OS := materializations) (contents env') k = Some m' →
      Materializations.mt_RestartedAt m' ≠ zero_time →
      evidence self l k ∨
      ∃ m, stored (OS := materializations) (contents env) k = Some m ∧
           Materializations.mt_RestartedAt m = Materializations.mt_RestartedAt m'.
Proof.
  intros env' materializations Hwf. subst env'.
  pose proof (ReconcileOnce_calm requests mats rollouts outcomes heartbeats order ErrorText p rt
    (log_of env) [] env Hwf) as H.
  rewrite app_nil_r in H. specialize (H eq_refl). unfold wp in H.
  destruct (run _ env) as [r env']. destruct H as (l & _ & Hl & [Hwf' He] & _). eauto.
Qed.
End claim.

(** ** A database and an instance to run *)

Abbreviation table := (gmap string idbRecord).
Definition db : Type := (table * table) * ((table * table) * table).
Abbreviation steps := ((table * table) * table)%type.
#[local] Instance demo_requests : ObjectStore db :=
  left_store (table * table) steps (H := left_store table table).
#[local] Instance demo_mats : ObjectStore db :=
  left_store (table * table) steps (H := right_store table table).
#[local] Instance demo_rollouts : ObjectStore db :=
  right_store (table * table) steps (H := left_store (table * table) table (H := left_store table table)).
#[local] Instance demo_outcomes : ObjectStore db :=
  right_store (table * table) steps (H := left_store (table * table) table (H := right_store table table)).
#[local] Instance demo_heartbeats : ObjectStore db :=
  right_store (table * table) steps (H := right_store (table * table) table).

#[local] Existing Instances Rfc3339.go_time_parser ChangeRequests.bit_codec ChangeRequests.plain_sprinter.

(** An instance with a clock that stands still during a pass, the version of the app that it
    runs, whether superseded packages fail to go away, and fresh identifiers. *)
Record machine := { x_now : time; x_running : option string; x_stuck : bool; x_ids : list string }.
Definition set_running (v : option string) (x : machine) : machine :=
  {| x_now := x_now x; x_running := v; x_stuck := x_stuck x; x_ids := x_ids x |}.

Definition demo_runtime : Runtime machine :=
  {| rt_Now x := (x_now x, x);
     rt_NewID x := (default "m0" (head (x_ids x)),
       {| x_now := x_now x; x_running := x_running x; x_stuck := x_stuck x; x_ids := tail (x_ids x) |});
     rt_BootstrapReady := pair true; rt_RestartReady := pair true;
     rt_Configured _ := pair true; rt_Restartable _ := pair (Ok true);
     rt_AcceptsRegistry := None;
     rt_RunningVersion := Some (λ _ x, (x_running x, x));
     rt_StopApp _ x := (Ok tt, set_running None x);
     rt_StartApp _ v x := (Ok tt, set_running (Some v) x);
     rt_Ensure _ := pair (Ok true); rt_PackageReady _ _ := pair true;
     rt_PruneSuperseded _ _ x := (if x_stuck x then Err RuntimeFailed else Ok tt, x);
     rt_SupersededPruned _ _ := pair (Ok true);
     rt_BeforeRolloutComplete := None; rt_OnRolloutTerminal := None; rt_AbortRestarts := pair tt |}.

Definition demo_poller : Poller :=
  {| cp_ChangeRequests := true; cp_Materializations := true; cp_Rollouts := true;
     cp_RolloutOutcomes := true; cp_Heartbeats := true; cp_AppMaterializer := true;
     cp_AppRestarter := true; cp_InstanceID := "i1"; cp_SourceVersion := "abc";
     cp_Interval := 0; cp_RestartDelay := 5 * Minute; cp_DisableRestartDelay := false;
     cp_MaxReconcileAttempts := 0; cp_HeartbeatTTL := 0; cp_HealthyStabilityWindow := 0;
     cp_HeartbeatEvaluationInterval := 0 |}.

Definition demo_order (A : Type) (m : gmap string A) : list (string * A) := map_to_list m.
Abbreviation demo_world := (Env (db * Node (machine * list entry))).
Definition demo_pass : prog demo_world (result PollerError unit) :=
  ReconcileOnce demo_requests demo_mats demo_rollouts demo_outcomes demo_heartbeats demo_order
    (λ _, "error") demo_poller (logged demo_runtime).

(** The next pass, with the log cleared: the time, whether packages are stuck, and the
    requests of the catalog by then. *)
Definition next_pass (now : time) (stuck : bool) (requests : table) (env : demo_world) : demo_world :=
  let '(d, n) := contents env in
  let x := (nd_runtime n).1 in
  let x := {| x_now := now; x_running := x_running x; x_stuck := stuck; x_ids := x_ids x |} in
  let d := with_rows (ObjectStore := demo_requests) requests d in
  (run demo_pass (mkEnv (d, mkNode (nd_stoppedAt n) (nd_inflight n) ∅ (x, [])) [])).2.

Definition demo_start : demo_world :=
  mkEnv (((∅, ∅), ((∅, ∅), ∅)) : db,
         mkNode ∅ ∅ ∅ ({| x_now := 0; x_running := Some "v1"; x_stuck := false;
                          x_ids := ["m1"; "m2"; "m3"] |}, [])) [].
Definition to_v2 : table :=
  {["r1" := ChangeRequests.changeRequestRecord "r1" "billing" "v1" "v2" "ada" Minute None ∅]}.
Definition to_v3 : table :=
  <["r2" := ChangeRequests.changeRequestRecord "r2" "billing" "v2" "v3" "ada" (2 * Hour) None ∅]> to_v2.

(** The app is stopped, and started with v2 after the delay, but an old package does not go
    away; the next pass finds v2 running. *)
Definition upgraded : demo_world :=
  next_pass (Hour + 11 * Minute) false to_v2
    (next_pass (Hour + 10 * Minute) true to_v2 (next_pass Hour false to_v2 demo_start)).

(** An instance that runs the desired version already says so in one pass. *)
Definition demo_running : demo_world :=
  mkEnv (((to_v2, ∅), ((∅, ∅), ∅)) : db,
         mkNode ∅ ∅ ∅ ({| x_now := Hour; x_running := Some "v2"; x_stuck := false; x_ids := ["m1"] |}, [])) [].

Lemma restarted_rows_are_earned_witness :
  let env' := (run demo_pass demo_running).2 in
  let materializations := left_store db (Node (machine * list entry)) (H := demo_mats) in
  Materializations.mt_RestartedAt <$>
    stored (OS := materializations) (contents env') ("i1", "billing", "v2") = Some Hour ∧
  evidence "i1" (log_of env') ("i1", "billing", "v2").
Proof.
  intros env' materializations.
  assert (Hrow : Materializations.mt_RestartedAt <$>
    stored (OS := materializations) (contents env') ("i1", "billing", "v2") = Some Hour)
    by vm_cast_no_check (eq_refl (Some Hour)).
  split; [exact Hrow|]. apply fmap_Some in Hrow as (m & Hm & Ht).
  destruct (restarted_rows_are_earned demo_requests demo_mats demo_rollouts demo_outcomes demo_heartbeats
    demo_order (λ _, "error") demo_poller demo_runtime demo_running) as [_ (l & Hl & He)].
  - split; by intros.
  - change (log_of env' = l) in Hl. rewrite Hl.
    destruct (He _ _ Hm) as [H|(m0 & H0 & _)].
    + rewrite <-Ht. done.
    + exact H.
    + exfalso. revert H0. done.
Defined.

(** A stop time that was not forgotten takes the restart delay away from the next upgrade:
    the app is stopped and started again at the same instant, with a delay of five minutes
    configured.  The poller forgets when it stopped an app only at the end of a restart
    that went through; here the superseded package was stuck after the start, and the pass
    that followed found the version running. *)
Lemma stale_stop_skips_the_delay :
  restartDelay demo_poller = (5 * Minute)%Z ∧
  calls (log_of upgraded) = [] ∧
  ∃ l l', log_of (next_pass (3 * Hour) false to_v3 upgraded)
    = l ++ [LStop "billing" (Ok tt); LClock (3 * Hour)%Z; LClock (3 * Hour)%Z;
            LStart "billing" "v3" (Ok tt)] ++ l'.
Proof.
  split_and!; [done|by vm_compute|].
  exists (take 6 (log_of (next_pass (3 * Hour) false to_v3 upgraded))).
  exists (drop 10 (log_of (next_pass (3 * Hour) false to_v3 upgraded))). by vm_compute.
Qed.

(** The app was taken down for v2 and the instance restarted before it came up again: the
    poller remembers nothing, and the materialization of v2 says when. *)
Definition taken_down : idbRecord :=
  Materializations.stamp "stopped_at" Hour Hour
    (Materializations.newRow "m1" ("i1", "billing", "v2") "abc" Hour).
Definition demo_down (now : time) : demo_world :=
  mkEnv (((to_v2, {["m1" := taken_down]}), ((∅, ∅), ∅)) : db,
         mkNode ∅ ∅ ∅ ({| x_now := now; x_running := None; x_stuck := false; x_ids := [] |}, [])) [].
Definition billing_v2 : AppInstallation :=
  {| ai_AppName := "billing"; ai_Version := "v2"; ai_SourceRepository := ""; ai_SourceRef := "";
     ai_Registry := ""; ai_ProviderReleaseURL := ""; ai_ArtifactChecksums := ∅; ai_InstalledBy := "";
     ai_InstalledAt := zero_time; ai_UpdatedAt := zero_time |}.
Definition app_pass : prog demo_world (result PollerError unit) :=
  reconcileApp demo_requests demo_mats demo_rollouts demo_outcomes demo_heartbeats demo_poller
    (logged demo_runtime) "i1" "billing" [billing_v2] None.

Lemma stops_and_starts_are_due_witness :
  calls (log_of (run app_pass (demo_down (Hour + 4 * Minute))).2) = [] ∧
  calls (log_of (run app_pass (demo_down (Hour + 5 * Minute))).2) = [LStart "billing" "v2" (Ok tt)] ∧
  ∃ t s, LClock t ∈ log_of (run app_pass (demo_down (Hour + 5 * Minute))).2 ∧
    s ≠ zero_time ∧ (5 * Minute ≤ Sub (Truncate t Millisecond) s)%Z.
Proof.
  split; [by vm_compute|].
  assert (Hcalls : calls (log_of (run app_pass (demo_down (Hour + 5 * Minute))).2)
                   = [LStart "billing" "v2" (Ok tt)]) by by vm_compute.
  split; [exact Hcalls|].
  destruct (stops_and_starts_are_due demo_requests demo_mats demo_rollouts demo_outcomes demo_heartbeats
    demo_poller demo_runtime "i1" "billing" [billing_v2] None (demo_down (Hour + 5 * Minute)))
    as (l & Hl & H).
  - split.
    + intros id rec. cbn. intros [<- <-]%lookup_singleton_Some. split; [done|by eexists].
    + intros id1 id2 r1 r2 k. cbn.
      intros [<- <-]%lookup_singleton_Some [<- <-]%lookup_singleton_Some. done.
  - change (log_of (run app_pass (demo_down (Hour + 5 * Minute))).2 = l) in Hl. rewrite Hl in Hcalls |- *.
    destruct H as [H|(driver & desired & _ & _ & _ & _ & _ & Hdue)]; [congruence|].
    destruct Hdue as [r H|r s H Hs _ Ht|r l1 t1 l2 H _ _]; [congruence| |congruence].
    destruct (Ht ltac:(done)) as (l1 & t & l2 & -> & Hd). exists t, s.
    split; [apply elem_of_app; right; apply list_elem_of_here|]. split; [|exact Hd].
    assert (Hm : nd_stoppedAt (contents (demo_down (Hour + 5 * Minute))).2 = ∅) by reflexivity.
    destruct Hs as [Hs|(m & _ & _ & Hz)]; [|exact Hz]. rewrite Hm, lookup_empty in Hs. discriminate Hs.
Defined.
End CatalogPollerRestarts.
