(* ===== verification/CatalogPollerRollouts.v ===== *)
(** * CatalogPollerRollouts: what decides a rollout

    The last theorems about CatalogPoller.v.  A rollout with an enrollment is decided by the
    instances that enrolled: it completes when each of them has restarted in time, and fails
    when the deadline finds it otherwise.  A heartbeat rollout is decided by what the fresh
    heartbeats of its source version say. *)

From stdpp Require Import base gmap strings list sorting sets.
From Stdlib Require Import ZArith Ascii Lia.
From S2P Require Import Prelude ObjectStore RegistryTypes Heartbeats FleetState Rollouts.
From S2P Require Import Rfc3339 ChangeRequests Materializations RolloutOutcomes CatalogPoller CatalogPollerSafety.
From S2P Require Import CatalogPollerRestarts.

Set Default Goal Selector "!".

Module CatalogPollerRollouts.
Import CatalogPoller CatalogPollerSafety CatalogPollerRestarts.
Import Materializations(AppInstanceMaterialization, wf_mats).

(** ** The cohort *)

Definition cohort (r : AppRollout) (ms : list AppInstanceMaterialization) :=
  List.filter (enrolled r) ms.

Lemma cohortLoop_spec r ms c :
  let '(converged, count) := cohortLoop r ms c in
  converged = forallb (restartedInTime r) (cohort r ms) ∧
  if converged : bool then count = (c + Z.of_nat (length (cohort r ms)))%Z else (c < count)%Z.
Proof.
  revert c. induction ms as [|m ms IH]; intros c; cbn [cohortLoop]; [split; [done|cbn; lia]|].
  unfold cohort in *. cbn [List.filter]. destruct (enrolled r m); cbn [negb]; [|apply IH].
  cbn [forallb]. destruct (restartedInTime r m); cbn [negb andb]; [|split; [done|lia]].
  specialize (IH (c + 1)%Z). destruct (cohortLoop r ms (c + 1)) as [b n]. destruct IH as [-> Hn].
  split; [done|]. cbn [length]. destruct (forallb _ _); lia.
Qed.

Lemma cohortConverged_spec r ms :
  cohortConverged r ms = true ↔
  (∃ m, m ∈ ms ∧ enrolled r m = true) ∧
  ∀ m, m ∈ ms → enrolled r m = true → restartedInTime r m = true.
Proof.
  assert (Hin : ∀ m, In m (cohort r ms) ↔ m ∈ ms ∧ enrolled r m = true)
    by (intros m; unfold cohort; rewrite filter_In, list_elem_of_In; done).
  trans (cohort r ms ≠ [] ∧ forallb (restartedInTime r) (cohort r ms) = true).
  - unfold cohortConverged. pose proof (cohortLoop_spec r ms 0) as H.
    destruct (cohortLoop r ms 0) as [b n]. destruct H as [-> Hn].
    destruct (forallb _ _); destruct (Z.eqb_spec n 0), (cohort r ms); cbn in *; naive_solver lia.
  - rewrite forallb_forall. setoid_rewrite Hin. split.
    + intros [Hne Hall]. split; [|naive_solver]. destruct (cohort r ms) as [|m l] eqn:E; [done|].
      exists m. apply Hin. by left.
    + intros [(m & Hm%Hin) Hall]. split; [by intros E; rewrite E in Hm|naive_solver].
Qed.

(** ** Steps beside the rollouts *)

Section outcome.
  Context `{TP : TimeParser, JC : ChangeRequests.JSONCodec, SP : ChangeRequests.Sprinter}.
  Context {D X : Type} (requests mats rollouts outcomes heartbeats : ObjectStore D).
  Context `{!Apart rollouts outcomes}.
  Context (p : Poller) (rt : Runtime X).
  Local Abbreviation N := (Node (X * list entry)).
  Local Abbreviation W := (D * N)%type.
  Local Abbreviation M A := (prog (Env W) A).
  Local Abbreviation lrt := (logged rt).
  Local Abbreviation mt := (left_store D N (H := mats)).
  Local Abbreviation ro := (left_store D N (H := rollouts)).
  Local Abbreviation hb := (left_store D N (H := heartbeats)).

(** The rollouts and the log stay as they are. *)
Definition beside (w w' : W) : Prop :=
  rows (ObjectStore := ro) w' = rows (ObjectStore := ro) w
  ∧ (nd_runtime w'.2).2 = (nd_runtime w.2).2.
#[export] Instance beside_preorder : PreOrder beside.
Proof. split; [by split|]. intros w1 w2 w3 [H1 H2] [H3 H4]. split; by etrans. Qed.

Lemma beside_off {A} (m : M A) : keeps (off rollouts) m → keeps beside m.
Proof.
  apply keeps_mono. intros w w' [Hn Hr]. split; [exact Hr|]. unfold node_same in Hn. by rewrite Hn.
Qed.

Lemma beside_unlogged {A} (f : X → A * X) : keeps beside (runtime (D := D) (unlogged f)).
Proof.
  constructor; [|constructor]. intros [[d [st fl ca [x l]]] fs]. cbn. by destruct (f x).
Qed.

Lemma beside_concluded res : keeps beside (concluded requests outcomes p lrt res).
Proof.
  unfold concluded, recordRolloutOutcome, RolloutOutcomes.RecordComplete, RolloutOutcomes.RecordFailed,
    notifyRolloutTerminal. cbn [logged rt_OnRolloutTerminal].
  destruct (rt_OnRolloutTerminal rt); cbn [fmap option_fmap option_map];
  repeat first
    [ apply beside_unlogged | apply beside_off; solve [eauto with off]
    | apply keeps_ret | apply keeps_bind; [|intros ?]
    | match goal with
      | |- keeps _ (match ?x with _ => _ end) => destruct x
      | |- keeps _ (if ?x then _ else _) => destruct x
      end ].
Qed.

Lemma wp_Now Q (env : Env W) :
  (∀ t env1, log_of env1 = log_of env ++ [LClock t] → (contents env1).1 = (contents env).1 →
     (benign env → benign env1) → Q (Truncate t Millisecond) env1) →
  wp (Now lrt) Q env.
Proof.
  intros HQ. unfold wp, Now, runtime, local. rewrite run_atomic.
  destruct env as [[d [st fl ca [x l]]] fs]. cbn in *. destruct (rt_Now rt x) as [t x']. cbn.
  by apply HQ.
Qed.

(** What the hook was asked: its answers in a log. *)
Definition asked (l : list entry) : list (result RuntimeError bool) :=
  omap (λ e, match e with LPrepare a => Some a | _ => None end) l.

(** The hook lets a completion go ahead, or holds it back. *)
Definition go_ahead (l : list entry) : Prop :=
  match rt_BeforeRolloutComplete rt with None => asked l = [] | Some _ => asked l = [Ok true] end.
Definition held_back (l : list entry) : Prop := ∃ a, asked l = [a] ∧ a ≠ Ok true.

(** The answer of the hook is logged; without one there is nothing to ask. *)
Lemma wp_prepare r Q (env : Env W) :
  (∀ env1, log_of env1 = log_of env → (contents env1).1 = (contents env).1 →
     (benign env → benign env1) → rt_BeforeRolloutComplete rt = None → Q (Ok true) env1) →
  (∀ a env1, log_of env1 = log_of env ++ [LPrepare a] → (contents env1).1 = (contents env).1 →
     (benign env → benign env1) → rt_BeforeRolloutComplete rt ≠ None →
     Q (match a with Ok b => Ok b | Err e => Err (ErrRuntime "prepare" e) end) env1) →
  wp (prepareRolloutCompletion lrt r) Q env.
Proof.
  intros HN HS. unfold prepareRolloutCompletion. cbn [logged rt_BeforeRolloutComplete].
  destruct (rt_BeforeRolloutComplete rt) as [f|]; cbn [fmap option_fmap option_map].
  - unfold attempt. wp_step. unfold wp, runtime, local. rewrite run_atomic.
    destruct env as [[d [st fl ca [x l]]] fs]. cbn in *. specialize (HS (f (r_App r) (r_Version r) x).1).
    destruct (f _ _ x) as [[a|e] x']; cbn in *; by apply HS.
  - wp_step. by apply HN.
Qed.

(** ** Deciding *)

(** The cohort in the materializations of a database has restarted in time. *)
Definition cohort_restarted (r : AppRollout) (w : W) : Prop :=
  let at_ i := Materializations.stored (OS := mt) w (i, TrimSpace (r_App r), TrimSpace (r_Version r)) in
  (∃ i m, at_ i = Some m ∧ enrolled r m = true) ∧
  ∀ i m, at_ i = Some m → enrolled r m = true → restartedInTime r m = true.

Lemma cohort_listed r w :
  wf_mats (OS := mt) w →
  cohortConverged r (map Materializations.recordToAppInstanceMaterialization
    (select (OS := mt) (Materializations.by_app_version (TrimSpace (r_App r)) (TrimSpace (r_Version r))) w))
  = true ↔ cohort_restarted r w.
Proof.
  intros Hwf. rewrite cohortConverged_spec. unfold cohort_restarted.
  pose proof (λ m, Materializations.elem_of_listed (OS := mt) w (TrimSpace (r_App r))
                     (TrimSpace (r_Version r)) m Hwf) as Hin.
  setoid_rewrite Hin. naive_solver.
Qed.

(** A rollout is not to be completed now: its cohort has not restarted, and the hook is not
    asked; or it has, and the hook holds completion back. *)
Definition not_now (r : AppRollout) (w : W) (l : list entry) : Prop :=
  (¬ cohort_restarted r w ∧ asked l = []) ∨ (cohort_restarted r w ∧ held_back l).

(** What a step does about [r] in a database [w], where [l] has the readings of the clock and
    the answer of the hook.  When [exact] holds no call failed. *)
Inductive verdict (exact : Prop) (r : AppRollout) (w : W) (l : list entry)
    : option (AppRolloutState * time) → Prop :=
  | undecided :
      (exact → not_now r w l ∧ ∃ t, LClock t ∈ l ∧ (Truncate t Millisecond < r_Deadline r)%Z) →
      verdict exact r w l None
  | converged t :
      cohort_restarted r w → go_ahead l → LClock t ∈ l →
      verdict exact r w l (Some (RolloutComplete, Truncate t Millisecond))
  | overdue t t' :
      not_now r w l →
      LClock t ∈ l → (r_Deadline r ≤ Truncate t Millisecond)%Z → LClock t' ∈ l →
      verdict exact r w l (Some (RolloutFailed, Truncate t' Millisecond)).

(** The rollouts after an operation of their service with the outcome [o]. *)
Definition applied {A} (exact : Prop) (o : Rollouts.outcome A) (w w' : W) : Prop :=
  match o with
  | Ok (_, Some x) =>
      rows (ObjectStore := ro) w' = <[r_App x := Rollouts.appRolloutRecord x]>
                                      (rows (ObjectStore := ro) w)
      ∨ (¬ exact ∧ rows (ObjectStore := ro) w' = rows (ObjectStore := ro) w)
  | _ => rows (ObjectStore := ro) w' = rows (ObjectStore := ro) w
  end.
Definition carried_out (exact : Prop) (r : AppRollout) (v : option (AppRolloutState * time))
    (w w' : W) : Prop :=
  match v with
  | None => rows (ObjectStore := ro) w' = rows (ObjectStore := ro) w
  | Some (state, t) =>
      applied exact (Rollouts.spec_transition true t (r_App r) (r_Version r) state t (Some r)
                       (Rollouts.stored (OS := ro) w)) w w'
  end.

Lemma same_database (s : ObjectStore D) (w w' : W) :
  w'.1 = w.1 →
  rows (ObjectStore := left_store D N (H := s)) w' = rows (ObjectStore := left_store D N (H := s)) w.
Proof. destruct w, w'. cbn. by intros ->. Qed.

(** An operation and what the poller does with its answer. *)
Lemma wp_concluding {A B} (exact : Prop) (m : M (result Rollouts.RolloutError A)) spec
    (k : result Rollouts.RolloutError A → M B) (env : Env W) :
  Rollouts.refines (OS := ro) m spec → on_db m → (∀ res, keeps beside (k res)) →
  (exact → benign env) →
  wp (m ≫= k) (λ _ env', log_of env' = log_of env ∧
    applied exact (spec (Rollouts.stored (OS := ro) (contents env))) (contents env) (contents env')) env.
Proof.
  intros Hm Hdb Hk Hex. wp_step. eapply wp_mono.
  { apply wp_conj; [apply Hm|].
    apply (wp_keeps node_same _ (λ _ env', log_of env' = log_of env)); [exact Hdb|].
    intros a env' Hn _. unfold node_same in Hn. unfold log_of. by rewrite Hn. }
  intros res env1 [[Hb Ha] Hl1]. eapply (wp_keeps beside); [apply Hk|].
  intros a env2 [Hr2 Hl2] _. split; [unfold log_of in *; congruence|].
  unfold applied. rewrite Hr2. destruct res as [x|e].
  - destruct (spec _) as [[x' [w|]]|]; [| |done]; destruct Ha as [_ ->]; [left|done].
    cbn [Rollouts.write]. by rewrite rows_with.
  - destruct Ha as [-> He]. destruct (spec _) as [[x' [w|]]|]; try done.
    right. split; [|done]. intros H%Hex. by apply He in H.
Qed.

Lemma wp_transition (exact : Prop) r state t (env : Env W) :
  (exact → benign env) →
  wp (updated ← Rollouts.transitionForRollout (OS := ro) true t (Some r) state t;
      concluded requests outcomes p lrt updated)
     (λ _ env', log_of env' = log_of env ∧
        carried_out exact r (Some (state, t)) (contents env) (contents env')) env.
Proof.
  apply wp_concluding; [apply Rollouts.transition_refines|apply on_db_transition|apply beside_concluded].
Qed.

Lemma not_now_clock r w l t : not_now r w l → not_now r w (l ++ [LClock t]).
Proof. unfold not_now, held_back, asked. rewrite omap_app. cbn. by rewrite app_nil_r. Qed.

Definition decided (exact : Prop) (r : AppRollout) (w : W) (l : list entry) (w' : W) : Prop :=
  ∃ v, verdict exact r w l v ∧ carried_out exact r v w w'.

Lemma carried_out_start exact r v w1 w2 w' :
  w1.1 = w2.1 → carried_out exact r v w1 w' → carried_out exact r v w2 w'.
Proof. destruct w1, w2. cbn. by intros ->. Qed.

Lemma decided_not exact r w l w' : ¬ exact → w'.1 = w.1 → decided exact r w l w'.
Proof. intros Hn Hw. exists None. split; [by constructor|]. by apply (same_database rollouts). Qed.

(** Failing what is overdue, with [l0] logged since [base]. *)
Lemma wp_failOverdue (exact : Prop) r w base l0 (env : Env W) :
  (exact → benign env) → not_now r w l0 → (contents env).1 = w.1 → log_of env = base ++ l0 →
  wp (failOverdue requests rollouts outcomes p lrt r) (λ _ env',
    ∃ l, log_of env' = base ++ l ∧ decided exact r w l (contents env')) env.
Proof.
  intros Hex Hnn Hw Hl0. unfold failOverdue. wp_step. apply wp_Now. intros t env1 Hl1 Hc1 Hb1.
  apply (not_now_clock _ _ _ t) in Hnn. rewrite Hl0, <-app_assoc in Hl1.
  destruct (Before _ _) eqn:Hbefore; [apply Z.ltb_lt in Hbefore|apply Z.ltb_ge in Hbefore].
  { wp_step. exists (l0 ++ [LClock t]). split; [done|]. exists None. split.
    - constructor. intros _. split; [done|]. exists t. split; [set_solver|done].
    - apply (same_database rollouts). congruence. }
  wp_step. apply wp_Now. intros t' env2 Hl2 Hc2 Hb2. apply (not_now_clock _ _ _ t') in Hnn.
  rewrite Hl1, <-app_assoc in Hl2.
  eapply wp_mono; [apply (wp_transition exact); auto|]. intros a env3 [Hl3 Hdone].
  exists ((l0 ++ [LClock t]) ++ [LClock t']). split; [by rewrite Hl3, Hl2|].
  exists (Some (RolloutFailed, Truncate t' Millisecond)). split.
  - apply (overdue _ _ _ _ t t'); [done|set_solver|done|set_solver].
  - eapply carried_out_start; [|exact Hdone]. congruence.
Qed.

(** Completing what has converged, or what follows a refusal of the hook. *)
Lemma wp_completing (exact : Prop) r w base (env : Env W) :
  (exact → benign env) → cohort_restarted r w → (contents env).1 = w.1 → log_of env = base →
  wp (prepared ← prepareRolloutCompletion lrt r;
      match prepared with
      | Err e => now ← Now lrt;
                 if Before now (r_Deadline r) then mret (Err e)
                 else failOverdue requests rollouts outcomes p lrt r
      | Ok false => failOverdue requests rollouts outcomes p lrt r
      | Ok true =>
          completedAt ← Now lrt;
          updated ← Rollouts.MarkCompleteForRollout (OS := ro) true completedAt (Some r) completedAt;
          concluded requests outcomes p lrt updated
      end)
     (λ _ env', ∃ l, log_of env' = base ++ l ∧ decided exact r w l (contents env')) env.
Proof.
  intros Hex Hco Hw Hl.
  assert (Hgo : ∀ l0 env1, log_of env1 = base ++ l0 → (contents env1).1 = w.1 → (exact → benign env1) →
    go_ahead l0 →
    wp (completedAt ← Now lrt;
        updated ← Rollouts.MarkCompleteForRollout (OS := ro) true completedAt (Some r) completedAt;
        concluded requests outcomes p lrt updated)
      (λ _ env', ∃ l, log_of env' = base ++ l ∧ decided exact r w l (contents env')) env1).
  { intros l0 env1 Hl1 Hw1 Hb1 Hg. wp_step. apply wp_Now. intros t env2 Hl2 Hw2 Hb2.
    eapply wp_mono; [apply (wp_transition exact); auto|]. intros a env3 [Hl3 Hdone].
    exists (l0 ++ [LClock t]). split; [by rewrite Hl3, Hl2, Hl1, app_assoc|].
    exists (Some (RolloutComplete, Truncate t Millisecond)). split.
    - apply converged; [done| |set_solver]. revert Hg. unfold go_ahead, asked. rewrite omap_app. cbn.
      by rewrite app_nil_r.
    - eapply carried_out_start; [|exact Hdone]. congruence. }
  wp_step. apply wp_prepare.
  - intros env1 Hl1 Hw1 Hb1 Hnone. apply (Hgo []); [by rewrite app_nil_r, Hl1|congruence|auto|].
    unfold go_ahead. by rewrite Hnone.
  - intros a env1 Hl1 Hw1 Hb1 Hsome. rewrite Hl in Hl1.
    assert (Hheld : a ≠ Ok true → not_now r w [LPrepare a]).
    { intros Ha. right. split; [done|]. by exists a. }
    destruct a as [[]|e].
    + apply (Hgo [LPrepare (Ok true)]); [done|congruence|auto|].
      unfold go_ahead. by destruct (rt_BeforeRolloutComplete rt).
    + eapply wp_failOverdue; [auto|by apply Hheld|congruence|done].
    + wp_step. apply wp_Now. intros t env2 Hl2 Hw2 Hb2. rewrite Hl1, <-app_assoc in Hl2.
      assert (Hnn : not_now r w ([LPrepare (Err e)] ++ [LClock t])) by (by apply not_now_clock, Hheld).
      destruct (Before _ _) eqn:Hbefore; [apply Z.ltb_lt in Hbefore|].
      * wp_step. eexists. split; [exact Hl2|]. exists None. split.
        -- constructor. intros _. split; [done|]. exists t. split; [set_solver|done].
        -- apply (same_database rollouts). congruence.
      * eapply wp_failOverdue; [auto|exact Hnn|congruence|done].
Qed.

(** C9. The instances that enrolled, and the hook, decide a rollout.  A step on a rollout
    without heartbeats completes it only if the materializations of its version show that at
    least one instance enrolled, by acknowledging between the creation of the rollout and the
    end of its enrollment, and that each that did has restarted between the creation and the
    deadline, and only if the hook, where there is one, was asked once and agreed.  It fails
    the rollout only if a reading of the clock was past the deadline while the cohort had not
    restarted or the hook, asked once, did not agree.  Unless a call to the database fails it
    does the first whenever it can, else the second, and nothing only after a reading before
    the deadline.  Either way the rollout changes by the transition of the service, so only
    an active one of the same epoch does. *)
Theorem cohort_decides_rollout r (env : Env W) :
  let '(res, env') := run (updateRolloutOutcome requests mats rollouts outcomes heartbeats p lrt r) env in
  wf_mats (OS := mt) (contents env) → r_Mode r ≠ ModeHeartbeat →
  TrimSpace (r_App r) ≠ "" → TrimSpace (r_Version r) ≠ "" →
  ∃ l, log_of env' = log_of env ++ l ∧ decided (benign env) r (contents env) l (contents env').
Proof.
  pose (P := benign env).
  enough (H : wf_mats (OS := mt) (contents env) → r_Mode r ≠ ModeHeartbeat →
    TrimSpace (r_App r) ≠ "" → TrimSpace (r_Version r) ≠ "" →
    wp (updateRolloutOutcome requests mats rollouts outcomes heartbeats p lrt r) (λ _ env',
      ∃ l, log_of env' = log_of env ++ l ∧ decided P r (contents env) l (contents env')) env).
  { unfold wp in H. by destruct (run _ env). }
  intros Hwf Hmode Happ Hver. unfold updateRolloutOutcome. rewrite decide_False by done.
  unfold attempt at 1, Materializations.ListByAppVersion. cbn [negb].
  rewrite !bool_decide_eq_false_2 by done. cbn [orb]. do 3 wp_step.
  - intros env1 Hb1 Hc1. wp_step. cbn [Materializations.listed]. wp_step. exists []. rewrite app_nil_r.
    unfold log_of. rewrite Hc1. split; [done|]. by apply decided_not.
  - intros env1 Hb1 Hc1. wp_step. cbn [Materializations.listed].
    assert (Hw1 : (contents env1).1 = (contents env).1) by (by rewrite Hc1).
    assert (Hl1 : log_of env1 = log_of env) by (unfold log_of; by rewrite Hc1).
    destruct (cohortConverged _ _) eqn:Hco.
    + apply (cohort_listed r (contents env) Hwf) in Hco. by apply wp_completing.
    + eapply (wp_failOverdue P r (contents env) (log_of env) []); [done| |done|by rewrite app_nil_r].
      left. split; [|done]. rewrite <-cohort_listed by done. by rewrite Hco.
Qed.

(** ** Heartbeat rollouts *)

(** What an evaluation at [now] of the heartbeats [hbs] stores, with the answer [h] about the
    fleet's health. *)
Definition evaluated (exact : Prop) (r : AppRollout) (now : time)
    (hbs : list GestaltdInstanceHeartbeat) (h : bool) (w w' : W) : Prop :=
  applied exact
    (Rollouts.spec_evaluate true now (Some r)
       {| Rollouts.ev_Healthy := h; Rollouts.ev_StabilityWindow := cp_HealthyStabilityWindow p;
          Rollouts.ev_EvaluatedAt := now;
          Rollouts.ev_FailureSummary :=
            failureSummary (FleetState.EvaluateFleetState (heartbeatEvaluation p r now hbs)) |}
       (Rollouts.stored (OS := ro) w)) w w'.

Lemma evaluated_start exact r now hbs h w1 w2 w' :
  w1.1 = w2.1 → evaluated exact r now hbs h w1 w' → evaluated exact r now hbs h w2 w'.
Proof. destruct w1, w2. cbn. by intros ->. Qed.

Lemma wp_evaluate (exact : Prop) r now hbs h (env : Env W) :
  (exact → benign env) →
  wp (evaluateHeartbeats requests rollouts outcomes p lrt r now
        (FleetState.EvaluateFleetState (heartbeatEvaluation p r now hbs)) h)
     (λ _ env', log_of env' = log_of env ∧
        evaluated exact r now hbs h (contents env) (contents env')) env.
Proof.
  apply wp_concluding; [apply Rollouts.EvaluateHeartbeatRollout_refines|apply on_db_Evaluate|].
  intros [[x []]|e]; first [apply beside_concluded|apply keeps_ret].
Qed.

(** A healthy observation at [now] would complete [r]: its healthy run has lasted for the
    stability window, which ended by the deadline. *)
Definition completing (r : AppRollout) (now : time) : Prop :=
  let stableAt := (r_HealthySince r + cp_HealthyStabilityWindow p)%Z in
  r_HealthySince r ≠ 0%Z ∧ (stableAt ≤ now)%Z ∧ (stableAt ≤ r_Deadline r)%Z.

(** One observation of the fresh heartbeats at [now], from a database [w] to [w'], with what
    the hook was asked.  When [exact] holds no call failed. *)
Inductive observed (exact : Prop) (r : AppRollout) (now : time) (w : W) : list entry → W → Prop :=
  (** The heartbeats could not be read. *)
  | unread w' :
      ¬ exact → rows (ObjectStore := ro) w' = rows (ObjectStore := ro) w → observed exact r now w [] w'
  (** The fleet's health is stored; the hook is asked exactly about what would complete. *)
  | judged hbs h l w' :
      Heartbeats.fresh_list (TrimSpace (r_TargetSourceVersion r)) (now - cp_HeartbeatTTL p)%Z
        (rows (ObjectStore := hb) w) hbs →
      (h = true ↔ FleetState.healthy (heartbeatEvaluation p r now hbs)) →
      l = (if decide (h = true ∧ completing r now ∧ is_Some (rt_BeforeRolloutComplete rt))
           then [LPrepare (Ok true)] else []) →
      evaluated exact r now hbs h w w' → observed exact r now w l w'
  (** The hook holds completion back: the rollout is left alone. *)
  | held hbs a w' :
      Heartbeats.fresh_list (TrimSpace (r_TargetSourceVersion r)) (now - cp_HeartbeatTTL p)%Z
        (rows (ObjectStore := hb) w) hbs →
      FleetState.healthy (heartbeatEvaluation p r now hbs) → completing r now →
      a = Ok false ∨ (∃ e, a = Err e) ∧ (now < r_Deadline r)%Z →
      rows (ObjectStore := ro) w' = rows (ObjectStore := ro) w → observed exact r now w [LPrepare a] w'
  (** The hook fails past the deadline: the fleet counts as unhealthy. *)
  | given_up hbs e w' :
      Heartbeats.fresh_list (TrimSpace (r_TargetSourceVersion r)) (now - cp_HeartbeatTTL p)%Z
        (rows (ObjectStore := hb) w) hbs →
      FleetState.healthy (heartbeatEvaluation p r now hbs) → completing r now →
      (r_Deadline r ≤ now)%Z → evaluated exact r now hbs false w w' →
      observed exact r now w [LPrepare (Err e)] w'.

#[local] Instance completing_dec r now : Decision (completing r now) := _.

Lemma completing_test r now :
  negb (IsZero (r_HealthySince r)) && negb (Before now (r_HealthySince r + cp_HealthyStabilityWindow p)%Z)
  && negb (After (r_HealthySince r + cp_HealthyStabilityWindow p)%Z (r_Deadline r)) = true ↔ completing r now.
Proof.
  unfold completing, IsZero, Before, After. rewrite !andb_true_iff, !negb_true_iff, !Z.ltb_ge, Z.eqb_neq. tauto.
Qed.

Lemma wp_judged (exact : Prop) r w now hbs base (env : Env W) :
  (exact → benign env) → (contents env).1 = w.1 → log_of env = base →
  Heartbeats.fresh_list (TrimSpace (r_TargetSourceVersion r)) (now - cp_HeartbeatTTL p)%Z
    (rows (ObjectStore := hb) w) hbs →
  wp (judgeHeartbeats requests rollouts outcomes p lrt r now hbs)
     (λ _ env', ∃ l, log_of env' = base ++ l ∧ observed exact r now w l (contents env')) env.
Proof.
  intros Hben Hw Hbase Hfresh. unfold judgeHeartbeats.
  pose proof (FleetState.healthy_state (heartbeatEvaluation p r now hbs)) as Hh.
  cbn zeta. set (h := bool_decide _).
  assert (Hhealthy : h = true ↔ FleetState.healthy (heartbeatEvaluation p r now hbs)).
  { unfold h. by rewrite bool_decide_eq_true. }
  assert (Heval : ∀ h' l env3, log_of env3 = base ++ l → (contents env3).1 = w.1 → (exact → benign env3) →
    (∀ w', evaluated exact r now hbs h' w w' → observed exact r now w l w') →
    wp (evaluateHeartbeats requests rollouts outcomes p lrt r now
          (FleetState.EvaluateFleetState (heartbeatEvaluation p r now hbs)) h')
      (λ _ env', ∃ l, log_of env' = base ++ l ∧ observed exact r now w l (contents env')) env3).
  { intros h' l env3 Hl3 Hw3 Hb3 Hobs. eapply wp_mono; [by apply (wp_evaluate exact)|].
    intros a env4 [Hl4 Hev]. exists l. split; [congruence|]. apply Hobs. by eapply evaluated_start. }
  rewrite <-!andb_assoc, (andb_assoc (negb (IsZero _))). pose proof (completing_test r now) as Hc.
  destruct (h && _) eqn:Hask.
  2: { apply (Heval h []); [by rewrite app_nil_r|done|done|]. intros w' Hev.
       eapply judged; [done|done| |done]. rewrite decide_False; [done|]. intros (Ht & Hcp & _).
       rewrite Ht in Hask. cbn [andb] in Hask. apply Hc in Hcp. congruence. }
  apply andb_true_iff in Hask as [Ht Hcp%Hc]. rewrite Ht in *. wp_step. apply wp_prepare.
  - intros env1 Hl1 Hw1 Hb1 Hnone. apply (Heval true []); [by rewrite app_nil_r, Hl1|congruence|auto|].
    intros w' Hev. eapply judged; [done|done| |done]. rewrite Hnone, decide_False; [done|].
    by intros (_ & _ & [? ?]).
  - intros a env1 Hl1 Hw1 Hb1 Hsome. rewrite Hbase in Hl1.
    assert (Hleave : a = Ok false ∨ (∃ e, a = Err e) ∧ (now < r_Deadline r)%Z → ∀ res : result PollerError bool,
      wp (mret res) (λ _ env', ∃ l, log_of env' = base ++ l ∧ observed exact r now w l (contents env')) env1).
    { intros Ha res. wp_step. eexists. split; [exact Hl1|]. eapply held; [exact Hfresh|by apply Hhealthy|done|done|].
      apply (same_database rollouts). congruence. }
    destruct a as [[]|e]; [|apply Hleave; by left|].
    + apply (Heval true [LPrepare (Ok true)]); [done|congruence|auto|].
      intros w' Hev. eapply judged; [done|done| |done]. rewrite decide_True; [done|].
      split_and!; [done|done|]. by destruct (rt_BeforeRolloutComplete rt).
    + destruct (Before now (r_Deadline r)) eqn:Hd; [apply Z.ltb_lt in Hd|apply Z.ltb_ge in Hd].
      * apply Hleave. right. eauto.
      * apply (Heval false [LPrepare (Err e)]); [done|congruence|auto|].
        intros w' Hev. eapply given_up; [done|by apply Hhealthy|done|done|done].
Qed.

End outcome.

(** ** Witnesses

    A rollout whose only instance has restarted, and one whose two instances have been
    healthy long enough. *)
#[local] Existing Instances Rfc3339.go_time_parser ChangeRequests.bit_codec ChangeRequests.plain_sprinter.

Definition demo_rollout (mode : AppRolloutMode) : AppRollout :=
  {| r_App := "billing"; r_Version := "v2"; r_State := RolloutRestarting; r_Mode := mode;
     r_TargetSourceVersion := "abc"; r_MinimumHealthyInstances := 2; r_CreatedAt := Minute;
     r_EnrollmentEndsAt := 10 * Minute; r_Deadline := 2 * Hour; r_HealthySince := 3 * Minute;
     r_HeartbeatEvaluatedAt := zero_time; r_CompletedAt := zero_time; r_FailedAt := zero_time;
     r_FailureSummary := None |}.
Definition demo_materialization : idbRecord :=
  Materializations.stamp "restarted_at" Hour (20 * Minute)
    (Materializations.newRow "m1" ("i1", "billing", "v2") "abc" (5 * Minute)).
Definition demo_env (mode : AppRolloutMode) : demo_world :=
  mkEnv (((∅, {["m1" := demo_materialization]}),
          (({["billing" := Rollouts.appRolloutRecord (demo_rollout mode)]}, ∅),
           rows (contents Heartbeats.sample_store))) : db,
         mkNode ∅ ∅ ∅ ({| x_now := Hour; x_running := Some "v2"; x_stuck := false; x_ids := [] |}, [])) [].
Definition demo_judge : Poller :=
  {| cp_ChangeRequests := true; cp_Materializations := true; cp_Rollouts := true;
     cp_RolloutOutcomes := true; cp_Heartbeats := true; cp_AppMaterializer := true;
     cp_AppRestarter := true; cp_InstanceID := "i1"; cp_SourceVersion := "abc";
     cp_Interval := 0; cp_RestartDelay := 0; cp_DisableRestartDelay := false;
     cp_MaxReconcileAttempts := 0; cp_HeartbeatTTL := 2 * Hour;
     cp_HealthyStabilityWindow := 5 * Minute; cp_HeartbeatEvaluationInterval := 0 |}.
(** The daemon sets a hook; this one agrees. *)
Definition demo_hooked : Runtime machine :=
  {| rt_Now := rt_Now demo_runtime; rt_NewID := rt_NewID demo_runtime;
     rt_BootstrapReady := rt_BootstrapReady demo_runtime; rt_RestartReady := rt_RestartReady demo_runtime;
     rt_Configured := rt_Configured demo_runtime; rt_Restartable := rt_Restartable demo_runtime;
     rt_AcceptsRegistry := rt_AcceptsRegistry demo_runtime;
     rt_RunningVersion := rt_RunningVersion demo_runtime; rt_StopApp := rt_StopApp demo_runtime;
     rt_StartApp := rt_StartApp demo_runtime; rt_Ensure := rt_Ensure demo_runtime;
     rt_PackageReady := rt_PackageReady demo_runtime; rt_PruneSuperseded := rt_PruneSuperseded demo_runtime;
     rt_SupersededPruned := rt_SupersededPruned demo_runtime;
     rt_BeforeRolloutComplete := Some (λ _ _ x, (Ok true, x)); rt_OnRolloutTerminal := None;
     rt_AbortRestarts := rt_AbortRestarts demo_runtime |}.
Definition demo_step (mode : AppRolloutMode) : demo_world :=
  (run (updateRolloutOutcome demo_requests demo_mats demo_rollouts demo_outcomes demo_heartbeats
          demo_judge (logged demo_hooked) (demo_rollout mode)) (demo_env mode)).2.
Definition demo_state (env : demo_world) : option AppRolloutState :=
  r_State <$> Rollouts.stored (OS := left_store db (Node (machine * list entry)) (H := demo_rollouts))
                (contents env) "billing".

Lemma demo_materializations_wf mode :
  wf_mats (OS := left_store db (Node (machine * list entry)) (H := demo_mats)) (contents (demo_env mode)).
Proof.
  split.
  - intros id rec. cbn. intros [<- <-]%lookup_singleton_Some. split; [done|by eexists].
  - intros id1 id2 r1 r2 k. cbn.
    by intros [<- <-]%lookup_singleton_Some [<- <-]%lookup_singleton_Some.
Qed.

Lemma cohort_decides_rollout_witness :
  demo_state (demo_step ModeEnrollment) = Some RolloutComplete ∧
  asked (log_of (demo_step ModeEnrollment)) = [Ok true] ∧
  ∃ l, log_of (demo_step ModeEnrollment) = l ∧
    decided demo_mats demo_rollouts demo_hooked (benign (demo_env ModeEnrollment)) (demo_rollout ModeEnrollment)
      (contents (demo_env ModeEnrollment)) l (contents (demo_step ModeEnrollment)).
Proof.
  split; [vm_cast_no_check (eq_refl (Some RolloutComplete))|].
  split; [vm_cast_no_check (eq_refl [@Ok RuntimeError bool true])|].
  pose proof (cohort_decides_rollout demo_requests demo_mats demo_rollouts demo_outcomes demo_heartbeats
    demo_judge demo_hooked (demo_rollout ModeEnrollment) (demo_env ModeEnrollment)) as H.
  unfold demo_step. destruct (run _ _) as [res env']. apply H.
  - apply demo_materializations_wf.
  - done.
  - by vm_compute.
  - by vm_compute.
Defined.

End CatalogPollerRollouts.
