(* ===== verification/AppSources.v ===== *)
(** * AppSources: source addresses and app names

    Models [gestaltd/services/apps/source/source.go], which reads the address of a
    published package ([host/owner/repo/path]), and the functions of
    [gestaltd/internal/appregistry/registry.go] and
    [gestaltd/internal/providerregistry/registry.go] that turn addresses into the short
    app names of the fleet and back.  The two regular expressions are the predicates
    [segmentRe] and [hostRe]. *)

From stdpp Require Import base gmap strings list.
From Stdlib Require Import ZArith Ascii Lia.
From S2P Require Import Prelude.

Set Default Goal Selector "!".

Module AppSources.

(** ** Text *)

(** [strings.Join] with a one-byte separator. *)
Fixpoint Join (parts : list string) (sep : ascii) : string :=
  match parts with
  | [] => ""
  | [p] => p
  | p :: parts => p +:+ String sep (Join parts sep)
  end.

Fixpoint ContainsByte (s : string) (c : ascii) : bool :=
  match s with
  | EmptyString => false
  | String a s => bool_decide (a = c) || ContainsByte s c
  end.

(** [strings.TrimLeft] and [strings.TrimRight] with a one-byte cutset. *)
Fixpoint TrimLeftByte (s : string) (c : ascii) : string :=
  match s with
  | String a s' => if decide (a = c) then TrimLeftByte s' c else s
  | EmptyString => s
  end.

Fixpoint TrimRightByte (s : string) (c : ascii) : string :=
  match s with
  | EmptyString => EmptyString
  | String a s' =>
      match TrimRightByte s' c with
      | EmptyString => if decide (a = c) then EmptyString else String a EmptyString
      | t => String a t
      end
  end.

Definition TrimByte (s : string) (c : ascii) : string := TrimRightByte (TrimLeftByte s c) c.

(** ** Addresses *)

Definition HostGitHub : string := "github.com".
Definition minSegmentCount : nat := 4.

Definition lower_alnum (a : ascii) : bool := byte_in 97 122 a || byte_in 48 57 a.
Definition segment_byte (a : ascii) : bool :=
  lower_alnum a || byte_is 46 a || byte_is 95 a || byte_is 45 a.

(** [^[a-z0-9][a-z0-9._-]*$] *)
Definition segmentRe (s : string) : bool :=
  match String.list_ascii_of_string s with
  | [] => false
  | a :: l => lower_alnum a && forallb segment_byte l
  end.

(** [[a-z0-9](?:[a-z0-9-]{0,61}[a-z0-9])?]: one label of a host name. *)
Definition host_label (s : string) : bool :=
  let l := String.list_ascii_of_string s in
  (length l <=? 63)%nat
  && match l with [] => false | a :: _ => lower_alnum a end
  && match last l with None => false | Some a => lower_alnum a end
  && forallb (λ a, lower_alnum a || byte_is 45 a) l.

(** Two labels or more, separated by dots. *)
Definition hostRe (s : string) : bool :=
  let labels := Split s "." in (2 <=? length labels)%nat && forallb host_label labels.

Record Source := {
  s_Host : string;
  s_Owner : string;
  s_Repo : string;
  s_Path : string;
  s_Token : string }.

Inductive SourceError :=
  | ErrWhitespace
  | ErrSegments (n : nat)
  | ErrHost (host : string)
  | ErrSegment (seg : string)
  | ErrAppPath (path : string)
  | ErrNameRequired
  | ErrName (name : string)
  | ErrRepositoryRequired
  | ErrRepositoryShape
  | ErrRepositoryApp (app : string).

Definition Parse (raw : string) : result SourceError Source :=
  if decide (raw ≠ TrimSpace raw) then Err ErrWhitespace else
  match Split raw "/" with
  | host :: owner :: repo :: first :: rest =>
      if negb (hostRe host) then Err (ErrHost host) else
      let! _ := each (λ seg, if segmentRe seg then Ok tt else Err (ErrSegment seg))
                  (owner :: repo :: first :: rest) in
      Ok {| s_Host := host; s_Owner := owner; s_Repo := repo;
            s_Path := Join (first :: rest) "/"; s_Token := "" |}
  | parts => Err (ErrSegments (length parts))
  end.

Definition PackagePath (s : Source) : string := s_Path s.
Definition SourceString (s : Source) : string :=
  s_Host s +:+ "/" +:+ s_Owner s +:+ "/" +:+ s_Repo s +:+ "/" +:+ PackagePath s.
Definition RepoSlug (s : Source) : string := s_Owner s +:+ "/" +:+ s_Repo s.

(** ** App names *)

Definition appSourcePathPrefix : string := "apps/".

Definition parseAppSource (raw : string) : result SourceError (string * string) :=
  let! src := Parse (TrimSpace raw) in
  if negb (HasPrefix (s_Path src) appSourcePathPrefix) then Err (ErrAppPath (s_Path src)) else
  let appName := TrimSpace (TrimPrefix (s_Path src) appSourcePathPrefix) in
  if bool_decide (appName = "") || ContainsByte appName "/" then Err (ErrAppPath (s_Path src)) else
  Ok (appName, s_Host src +:+ "/" +:+ s_Owner src +:+ "/" +:+ s_Repo src).

Definition AppSourceAddress (repository appName : string) : string :=
  TrimRightByte (TrimSpace repository) "/" +:+ "/" +:+ appSourcePathPrefix
  +:+ TrimByte (TrimSpace appName) "/".

Definition AppNameFromManifestSource (source : string) : result SourceError string :=
  let! parsed := parseAppSource source in Ok parsed.1.
Definition RepositoryFromManifestSource (source : string) : result SourceError string :=
  let! parsed := parseAppSource source in Ok parsed.2.

(** [repoNameRe] is the same expression as [segmentRe]. *)
Definition ValidateRepositoryName (name : string) : result SourceError unit :=
  let name := TrimSpace name in
  if segmentRe name then Ok tt else Err (ErrName name).

Definition RequirementAppName (key : string) : result SourceError string :=
  let key := TrimSpace key in
  if decide (key = "") then Err ErrNameRequired else
  match AppNameFromManifestSource key with
  | Ok appName => Ok appName
  | Err _ => let! _ := ValidateRepositoryName key in Ok key
  end.

Definition validateEntryRepository (repository appName : string) : result SourceError unit :=
  let repository := TrimSpace repository in
  let appName := TrimSpace appName in
  if decide (repository = "") then Err ErrRepositoryRequired else
  let! parsed := parseAppSource (AppSourceAddress repository appName) in
  let '(parsedApp, parsedRepository) := parsed in
  if decide (parsedRepository ≠ repository) then Err ErrRepositoryShape else
  if decide (parsedApp ≠ appName) then Err (ErrRepositoryApp appName) else Ok tt.

Example parse_address :
  parseAppSource " github.com/acme/tools/apps/base " = Ok ("base", "github.com/acme/tools").
Proof. vm_compute. reflexivity. Qed.
Example parse_short : RequirementAppName "base" = Ok "base".
Proof. vm_compute. reflexivity. Qed.
Example parse_nested : parseAppSource "github.com/acme/tools/apps/base/x" = Err (ErrAppPath "apps/base/x").
Proof. vm_compute. reflexivity. Qed.

(** ** Splitting and joining *)

Lemma Split_nonempty s sep : Split s sep ≠ [].
Proof.
  destruct s as [|a s]; cbn; [done|]. destruct (decide (a = sep)); [done|].
  by destruct (Split s sep).
Qed.

Lemma Join_cons p ps sep : ps ≠ [] → Join (p :: ps) sep = p +:+ String sep (Join ps sep).
Proof. by destruct ps. Qed.

Lemma Join_Split s sep : Join (Split s sep) sep = s.
Proof.
  induction s as [|a s IH]; [done|]. cbn [Split]. pose proof (Split_nonempty s sep) as Hne.
  destruct (decide (a = sep)) as [->|Ha].
  - rewrite Join_cons by done. by rewrite IH.
  - destruct (Split s sep) as [|w ws]; [done|]. destruct ws as [|w' ws].
    + cbn in *. by rewrite IH.
    + rewrite Join_cons in IH by done. rewrite Join_cons by done.
      by rewrite string_cons_app, IH.
Qed.

(** A text without the separator is one part. *)
Lemma Split_single s sep : ContainsByte s sep = false → Split s sep = [s].
Proof.
  induction s as [|a s IH]; [done|]. cbn. intros [Ha Hs]%orb_false_iff. bool_props.
  rewrite decide_False by done. by rewrite IH.
Qed.

Lemma Split_app s t sep :
  ContainsByte s sep = false → Split (s +:+ String sep t) sep = s :: Split t sep.
Proof.
  induction s as [|a s IH]; intros H; cbn in H.
  - change ("" +:+ String sep t) with (String sep t). cbn. by rewrite decide_True.
  - apply orb_false_iff in H as [Ha Hs]. bool_props. rewrite string_cons_app. cbn.
    rewrite decide_False by done. by rewrite IH.
Qed.

Lemma Split_parts s sep p : p ∈ Split s sep → ContainsByte p sep = false.
Proof.
  revert p. induction s as [|a s IH]; intros p; cbn.
  { intros ->%list_elem_of_singleton. done. }
  destruct (decide (a = sep)) as [->|Ha].
  - intros [->|?]%elem_of_cons; [done|auto].
  - destruct (Split s sep) as [|w ws].
    + intros ->%list_elem_of_singleton. cbn. by rewrite bool_decide_eq_false_2.
    + intros [->|?]%elem_of_cons; [|apply IH; by right].
      cbn. rewrite bool_decide_eq_false_2 by done. apply IH. by left.
Qed.

(** ** Valid parts are plain text *)

Lemma ink_text_app a b : ink_text (a +:+ b) = ink_text a && ink_text b.
Proof.
  unfold ink_text. induction a as [|x a IH]; [done|]. rewrite string_cons_app. cbn.
  by rewrite IH, andb_assoc.
Qed.

Lemma ink_text_Join parts sep :
  ink sep = true → Forall (λ p, ink_text p = true) parts → ink_text (Join parts sep) = true.
Proof.
  intros Hsep. induction 1 as [|p ps Hp Hps IH]; [done|]. destruct ps as [|q ps]; [done|].
  rewrite Join_cons by done. rewrite ink_text_app. cbn [ink_text]. rewrite Hp.
  change (ink_text (String sep (Join (q :: ps) sep))) with (ink sep && ink_text (Join (q :: ps) sep)).
  by rewrite Hsep, IH.
Qed.

Lemma forallb_ink (P : ascii → bool) s :
  (∀ a, P a = true → ink a = true) →
  forallb P (String.list_ascii_of_string s) = true → ink_text s = true.
Proof. intros HP. unfold ink_text. rewrite !forallb_forall. auto. Qed.

Lemma segment_byte_ink a : segment_byte a = true → ink a = true.
Proof. unfold segment_byte, lower_alnum, ink, byte_in, byte_is. lia. Qed.

Lemma segmentRe_bytes s :
  segmentRe s = true → s ≠ "" ∧ forallb segment_byte (String.list_ascii_of_string s) = true.
Proof.
  unfold segmentRe. destruct s as [|a s]; [done|]. cbn. intros [Ha Hs]%andb_true_iff.
  split; [done|]. rewrite Hs, andb_true_r. unfold segment_byte. by rewrite Ha.
Qed.

Lemma segmentRe_ink s : segmentRe s = true → ink_text s = true.
Proof. intros [_ H]%segmentRe_bytes. by apply (forallb_ink segment_byte), H; apply segment_byte_ink. Qed.

Lemma no_slash s :
  forallb segment_byte (String.list_ascii_of_string s) = true → ContainsByte s "/" = false.
Proof.
  induction s as [|a s IH]; [done|]. cbn. intros [Ha Hs]%andb_true_iff.
  rewrite IH, bool_decide_eq_false_2; [done| |done]. intros ->. done.
Qed.

Lemma segmentRe_no_slash s : segmentRe s = true → s ≠ "" ∧ ContainsByte s "/" = false.
Proof. intros [? ?]%segmentRe_bytes. split; [done|by apply no_slash]. Qed.

Lemma hostRe_ink s : hostRe s = true → ink_text s = true.
Proof.
  unfold hostRe. intros [_ H]%andb_true_iff. rewrite <-(Join_Split s "."). apply ink_text_Join; [done|].
  apply Forall_forall. intros p Hp. rewrite forallb_forall in H. specialize (H p).
  rewrite <-list_elem_of_In in H. specialize (H Hp). unfold host_label in H.
  apply andb_true_iff in H as [_ H]. eapply forallb_ink; [|exact H].
  unfold lower_alnum, ink, byte_in, byte_is. lia.
Qed.

Lemma TrimRightByte_keep l s c :
  s ≠ "" → ContainsByte s c = false → TrimRightByte (l +:+ s) c = l +:+ s.
Proof.
  intros Hne Hs.
  assert (H : TrimRightByte s c = s).
  { clear l. induction s as [|a s IH]; [done|]. cbn in *. apply orb_false_iff in Hs as [Ha Hs].
    bool_props. destruct s as [|b s]; [by cbn; rewrite decide_False|].
    rewrite IH by done. done. }
  induction l as [|a l IH]; [done|]. rewrite string_cons_app. cbn. rewrite IH.
  destruct (l +:+ s) eqn:E; [|done]. destruct l; [|done]. by destruct s.
Qed.

Lemma TrimByte_keep s c : s ≠ "" → ContainsByte s c = false → TrimByte s c = s.
Proof.
  intros Hne Hs. unfold TrimByte.
  assert (TrimLeftByte s c = s) as ->.
  { destruct s as [|a s]; [done|]. cbn in *. apply orb_false_iff in Hs as [Ha _]. bool_props.
    by rewrite decide_False. }
  by apply (TrimRightByte_keep "").
Qed.

Lemma append_nonempty h a r : h +:+ String a r ≠ "".
Proof. by destruct h. Qed.

(** ** Addresses read back *)

(** What [Parse] accepts: valid parts, joined. *)
Lemma Parse_shape raw s :
  Parse raw = Ok s →
  ∃ first rest, raw = Join (s_Host s :: s_Owner s :: s_Repo s :: first :: rest) "/"
    ∧ s_Path s = Join (first :: rest) "/" ∧ s_Token s = ""
    ∧ hostRe (s_Host s) = true ∧ segmentRe (s_Owner s) = true ∧ segmentRe (s_Repo s) = true
    ∧ (∀ seg, seg ∈ first :: rest → segmentRe seg = true)
    ∧ ContainsByte (s_Host s) "/" = false.
Proof.
  unfold Parse. case_decide; [done|]. pose proof (Join_Split raw "/") as Hj.
  pose proof (Split_parts raw "/") as Hparts.
  destruct (Split raw "/") as [|host [|owner [|repo [|first rest]]]]; try done.
  destruct (hostRe host) eqn:Hh; [|done]. cbn [negb]. intros (u & Heach & [= <-])%rbind_ok.
  destruct u. rewrite each_ok in Heach.
  assert (Hseg : ∀ seg, seg ∈ owner :: repo :: first :: rest → segmentRe seg = true).
  { intros seg Hin. specialize (Heach seg Hin). by destruct (segmentRe seg). }
  exists first, rest. cbn [s_Host s_Owner s_Repo s_Path s_Token].
  split_and!; [done..|apply Hseg; set_solver|apply Hseg; set_solver| |apply Hparts; set_solver].
  intros seg Hin. apply Hseg. set_solver.
Qed.

Lemma Parse_string raw s : Parse raw = Ok s → SourceString s = raw.
Proof.
  intros (first & rest & -> & Hp & _)%Parse_shape. unfold SourceString, PackagePath. rewrite Hp. done.
Qed.

(** The address of an app: its short name and its repository. *)
Lemma parseAppSource_shape raw app repository :
  parseAppSource raw = Ok (app, repository) →
  ∃ s, Parse (TrimSpace raw) = Ok s ∧ segmentRe app = true
    ∧ repository = s_Host s +:+ "/" +:+ s_Owner s +:+ "/" +:+ s_Repo s
    ∧ TrimSpace raw = repository +:+ "/apps/" +:+ app
    ∧ ink_text repository = true ∧ segmentRe (s_Repo s) = true.
Proof.
  unfold parseAppSource. intros (s & Hs & H)%rbind_ok. exists s. split; [done|].
  pose proof (Parse_string _ _ Hs) as Hstr.
  apply Parse_shape in Hs as (first & rest & _ & Hp & _ & Hhost & Hown & Hrepo & Hseg & _).
  destruct (HasPrefix (s_Path s) appSourcePathPrefix) eqn:Hpre; [|done]. cbn [negb] in H.
  apply HasPrefix_spec in Hpre as [tail Htail].
  assert (Htp : TrimPrefix (s_Path s) appSourcePathPrefix = tail).
  { unfold TrimPrefix. rewrite (proj2 (CutPrefix_spec _ _ _) Htail). done. }
  rewrite Htp in H.
  assert (Hink : ink_text tail = true).
  { assert (Hpath : ink_text (s_Path s) = true).
    { rewrite Hp. apply ink_text_Join; [done|]. apply Forall_forall.
      intros p Hin. by apply segmentRe_ink, Hseg. }
    rewrite Htail, ink_text_app in Hpath. by apply andb_true_iff in Hpath as [_ ?]. }
  rewrite (TrimSpace_ink _ Hink) in H.
  destruct (bool_decide (tail = "") || ContainsByte tail "/") eqn:Hc; [done|].
  apply orb_false_iff in Hc as [Hne Hns]. bool_props. injection H as <- <-.
  assert (Hrest : first :: rest = ["apps"; tail]).
  { assert (Split (s_Path s) "/" = first :: rest) as <-.
    { rewrite Hp. assert (Hns' : Forall (λ p, ContainsByte p "/" = false) (first :: rest)).
      { apply Forall_forall. intros p Hin. by apply segmentRe_no_slash, Hseg. }
      clear -Hns'. revert first Hns'. induction rest as [|q rest IH]; intros first H.
      - apply Split_single. by inv H.
      - rewrite Join_cons by done. inv H. rewrite Split_app by done. by rewrite IH. }
    rewrite Htail. change (appSourcePathPrefix +:+ tail) with ("apps" +:+ String "/" tail).
    rewrite Split_app by done. by rewrite Split_single. }
  split; [apply Hseg; rewrite Hrest; set_solver|]. split; [done|].
  split.
  { rewrite <-Hstr. unfold SourceString, PackagePath. rewrite Htail. unfold appSourcePathPrefix.
    by rewrite <-!string_app_assoc. }
  split; [|done]. rewrite !ink_text_app, (hostRe_ink _ Hhost), (segmentRe_ink _ Hown), (segmentRe_ink _ Hrepo).
  done.
Qed.

(** Reading an app's source address and writing it back are inverse: the address
    rebuilt from the app name and the repository is the address that was read, the pair
    passes the validation of registry entries, and both spellings of a dependency, the
    full address and the short name, denote the same app. *)
Theorem app_source_roundtrip raw app repository :
  parseAppSource raw = Ok (app, repository) →
  AppSourceAddress repository app = TrimSpace raw
  ∧ validateEntryRepository repository app = Ok tt
  ∧ RequirementAppName raw = Ok app ∧ RequirementAppName app = Ok app.
Proof.
  intros Hparse. pose proof Hparse as (s & Hs & Happ & Hrep & Hraw & Hink & Hrepo)%parseAppSource_shape.
  destruct (segmentRe_no_slash _ Happ) as [Hane Hans].
  destruct (segmentRe_no_slash _ Hrepo) as [Hrne Hrns].
  pose proof (TrimSpace_ink _ (segmentRe_ink _ Happ)) as Htapp.
  pose proof (TrimSpace_ink _ Hink) as Htrep.
  assert (Haddr : AppSourceAddress repository app = TrimSpace raw).
  { unfold AppSourceAddress. rewrite Htapp, Htrep, TrimByte_keep by done.
    assert (TrimRightByte repository "/" = repository) as ->; [|by rewrite Hraw].
    rewrite Hrep, !string_app_assoc. by apply TrimRightByte_keep. }
  assert (Htrim : parseAppSource (TrimSpace raw) = Ok (app, repository)).
  { unfold parseAppSource in *. by rewrite TrimSpace_idem. }
  assert (Hne : TrimSpace raw ≠ "").
  { rewrite Hraw. apply (append_nonempty repository "/"). }
  split; [done|]. split.
  { unfold validateEntryRepository. rewrite Htrep, Htapp, Haddr, Htrim.
    rewrite decide_False; [cbn [rbind]; by rewrite !decide_False by auto|].
    rewrite Hrep. apply (append_nonempty (s_Host s) "/"). }
  unfold RequirementAppName, AppNameFromManifestSource. split.
  { rewrite decide_False by done. by rewrite Htrim. }
  rewrite Htapp, decide_False by done.
  assert (∃ e, parseAppSource app = Err e) as [e He].
  { unfold parseAppSource, Parse. rewrite Htapp. rewrite Htapp, decide_False by auto.
    rewrite Split_single by done. by eexists. }
  rewrite He. cbn [rbind]. unfold ValidateRepositoryName. rewrite Htapp, Happ. done.
Qed.

Lemma app_source_roundtrip_witness :
  AppSourceAddress "github.com/acme/tools" "base" = TrimSpace " github.com/acme/tools/apps/base".
Proof.
  destruct (app_source_roundtrip " github.com/acme/tools/apps/base" "base" "github.com/acme/tools")
    as [H _]; [vm_compute; reflexivity|exact H].
Defined.

End AppSources.
