(* ===== verification/CredentialSelection.v ===== *)
(** * CredentialSelection: one credential per linked account

    Models [gestaltd/core/credential_selection.go] and the account key of
    [gestaltd/core/credential_metadata.go].  Slices of pointers are lists of
    options.  Decoding the metadata's JSON object of strings is the variable
    [UnmarshalStrings] of the section, and every theorem holds for all of its
    values. *)

From stdpp Require Import base gmap strings list sorting sets.
From Stdlib Require Import ZArith Ascii Lia.
From S2P Require Import Prelude.

Set Default Goal Selector "!".

Module CredentialSelection.

Record ExternalCredentialGrant := {
  g_AccessToken : string;
  g_RefreshToken : string;
  g_Scope : string;
  g_ExpiresAt : option time;
  g_LastRefreshedAt : option time;
  g_RefreshErrorCount : Z }.

Record ExternalCredentialClientInfo := {
  ci_ClientID : string;
  ci_ClientSecret : string;
  ci_ClientSecretExpiresAt : option time }.

Record ExternalCredentialOpaque := { op_Fields : gmap string string }.

Record ExternalCredential := {
  ec_ID : string;
  ec_Subject : string;
  ec_Audience : string;
  ec_Qualifier : string;
  ec_AccountKey : string;
  ec_Grant : option ExternalCredentialGrant;
  ec_Client : option ExternalCredentialClientInfo;
  ec_Opaque : option ExternalCredentialOpaque;
  ec_MetadataJSON : string;
  ec_CreatedAt : time;
  ec_UpdatedAt : time }.

Record CredentialAccountCandidate := {
  ca_AccountKey : string;
  ca_ID : string;
  ca_Qualifier : string;
  ca_CreatedAt : time;
  ca_NeedsReconnect : bool }.

(** ** The ordering *)

Definition isPreferred (preferred : string) (c : CredentialAccountCandidate) : bool :=
  bool_decide (preferred ≠ "") && bool_decide (TrimSpace (ca_Qualifier c) = preferred).

Definition PreferCredentialAccountCandidate (candidate current : CredentialAccountCandidate)
    (preferred : string) : bool :=
  if negb (Bool.eqb (ca_NeedsReconnect candidate) (ca_NeedsReconnect current))
  then negb (ca_NeedsReconnect candidate) else
  let preferred := TrimSpace preferred in
  let candidatePreferred := isPreferred preferred candidate in
  let currentPreferred := isPreferred preferred current in
  if negb (Bool.eqb candidatePreferred currentPreferred) then candidatePreferred else
  if negb (Bool.eqb (IsZero (ca_CreatedAt candidate)) (IsZero (ca_CreatedAt current)))
  then negb (IsZero (ca_CreatedAt candidate)) else
  if negb (Equal (ca_CreatedAt candidate) (ca_CreatedAt current))
  then Before (ca_CreatedAt candidate) (ca_CreatedAt current) else
  if bool_decide (ca_ID candidate ≠ ca_ID current)
  then str_ltb (ca_ID candidate) (ca_ID current) else
  str_ltb (ca_Qualifier candidate) (ca_Qualifier current).

(** ** Grouping candidates by account *)

(** One iteration of [GroupCredentialAccountCandidateGroups]: the groups and the
    position of each key's group. *)
Definition groupStep (st : list (list nat) * gmap string nat)
    (ic : nat * CredentialAccountCandidate) : list (list nat) * gmap string nat :=
  let '(groups, seen) := st in
  let '(index, candidate) := ic in
  let key := TrimSpace (ca_AccountKey candidate) in
  if decide (key = "") then (groups ++ [[index]], seen)
  else match seen !! key with
       | None => (groups ++ [[index]], <[key := length groups]> seen)
       | Some groupIndex => (alter (λ g, g ++ [index]) groupIndex groups, seen)
       end.

Definition GroupCredentialAccountCandidateGroups (candidates : list CredentialAccountCandidate)
    : list (list nat) :=
  (foldl groupStep ([], ∅) (imap pair candidates)).1.

Definition preferIndex (candidates : list CredentialAccountCandidate) (preferred : string)
    (index best : nat) : bool :=
  match candidates !! index, candidates !! best with
  | Some a, Some b => PreferCredentialAccountCandidate a b preferred
  | _, _ => false
  end.

Definition bestOf (candidates : list CredentialAccountCandidate) (preferred : string)
    (group : list nat) : nat :=
  match group with
  | [] => 0
  | first :: rest =>
      foldl (λ best index, if preferIndex candidates preferred index best then index else best)
            first rest
  end.

Definition GroupCredentialAccountCandidateIndices (candidates : list CredentialAccountCandidate)
    (preferred : string) : list nat :=
  map (bestOf candidates preferred) (GroupCredentialAccountCandidateGroups candidates).

Definition normalizeKey (c : CredentialAccountCandidate) : CredentialAccountCandidate :=
  {| ca_AccountKey := TrimSpace (ca_AccountKey c); ca_ID := ca_ID c; ca_Qualifier := ca_Qualifier c;
     ca_CreatedAt := ca_CreatedAt c; ca_NeedsReconnect := ca_NeedsReconnect c |}.

Definition GroupCredentialAccountCandidates (candidates : list CredentialAccountCandidate)
    (preferred : string) : list CredentialAccountCandidate :=
  let normalized := map normalizeKey candidates in
  omap (λ index, normalized !! index) (GroupCredentialAccountCandidateIndices normalized preferred).

(** ** Credentials *)

Definition CredentialNeedsReconnect (credential : option ExternalCredential) (now : time) : bool :=
  match credential with
  | None => false
  | Some c =>
      match ec_Grant c with
      | None => false
      | Some g =>
          match g_ExpiresAt g with
          | None => false
          | Some e => if (g_RefreshErrorCount g <=? 0)%Z then false else negb (After e now)
          end
      end
  end.

(** The grant afterwards, and whether it changed. *)
Definition MarkGrantReconnectRequired (grant : option ExternalCredentialGrant) (now : time)
    : option ExternalCredentialGrant * bool :=
  match grant with
  | None => (None, false)
  | Some g =>
      let count_changed := (g_RefreshErrorCount g <? 1)%Z in
      let expiry_changed := match g_ExpiresAt g with None => true | Some e => After e now end in
      (Some {| g_AccessToken := g_AccessToken g; g_RefreshToken := g_RefreshToken g;
               g_Scope := g_Scope g;
               g_ExpiresAt := if expiry_changed then Some now else g_ExpiresAt g;
               g_LastRefreshedAt := g_LastRefreshedAt g;
               g_RefreshErrorCount := if count_changed then 1%Z else g_RefreshErrorCount g |},
       count_changed || expiry_changed)
  end.

Section credentials.
  Context (UnmarshalStrings : string → option (gmap string string)).

Definition AccountKeyFromMetadataJSON (metadataJSON : string) : string :=
  if decide (TrimSpace metadataJSON = "") then "" else
  match UnmarshalStrings metadataJSON with
  | None => ""
  | Some metadata => TrimSpace (default "" (metadata !! "account_key"))
  end.

Definition AccountKeyForCredential (credential : option ExternalCredential) : string :=
  match credential with
  | None => ""
  | Some c => let key := TrimSpace (ec_AccountKey c) in
              if decide (key = "") then AccountKeyFromMetadataJSON (ec_MetadataJSON c) else key
  end.

Definition credentialAccountCandidate (credential : option ExternalCredential) (now : time)
    : CredentialAccountCandidate :=
  match credential with
  | None => {| ca_AccountKey := ""; ca_ID := ""; ca_Qualifier := ""; ca_CreatedAt := zero_time;
               ca_NeedsReconnect := false |}
  | Some c => {| ca_AccountKey := AccountKeyForCredential credential; ca_ID := ec_ID c;
                 ca_Qualifier := ec_Qualifier c; ca_CreatedAt := ec_CreatedAt c;
                 ca_NeedsReconnect := CredentialNeedsReconnect credential now |}
  end.

Definition PreferCredential (candidate current : option ExternalCredential) (preferred : string)
    (now : time) : bool :=
  match candidate, current with
  | None, _ => false
  | Some _, None => true
  | Some _, Some _ => PreferCredentialAccountCandidate (credentialAccountCandidate candidate now)
                        (credentialAccountCandidate current now) preferred
  end.

Definition ChooseCredential (credentials : list (option ExternalCredential)) (preferred : string)
    (now : time) : option ExternalCredential :=
  foldl (λ chosen credential,
           if PreferCredential credential chosen preferred now then credential else chosen)
        None credentials.

(** One iteration of [GroupCredentialAccounts]. *)
Definition accountStep (preferred : string) (now : time)
    (st : list ExternalCredential * gmap string nat) (credential : option ExternalCredential)
    : list ExternalCredential * gmap string nat :=
  let '(accounts, seen) := st in
  match credential with
  | None => st
  | Some c =>
      let key := AccountKeyForCredential credential in
      if decide (key = "") then (accounts ++ [c], seen)
      else match seen !! key with
           | None => (accounts ++ [c], <[key := length accounts]> seen)
           | Some idx =>
               match accounts !! idx with
               | Some current =>
                   if PreferCredential credential (Some current) preferred now
                   then (<[idx := c]> accounts, seen) else st
               | None => st
               end
           end
  end.

Definition GroupCredentialAccounts (credentials : list (option ExternalCredential))
    (preferred : string) (now : time) : list ExternalCredential :=
  (foldl (accountStep preferred now) ([], ∅) credentials).1.

Definition usableAccounts (accounts : list ExternalCredential) (now : time)
    : list ExternalCredential :=
  filter (λ c, CredentialNeedsReconnect (Some c) now = false) accounts.

Definition ChooseCredentialInstance (credentials : list (option ExternalCredential))
    (preferred : string) (now : time) : string * bool :=
  let accounts := GroupCredentialAccounts credentials preferred now in
  let preferred := TrimSpace preferred in
  if bool_decide (preferred ≠ "")
     && existsb (λ c, bool_decide (TrimSpace (ec_Qualifier c) = preferred)
                      && negb (CredentialNeedsReconnect (Some c) now)) accounts
  then (preferred, true)
  else match usableAccounts accounts now, accounts with
       | [c], _ => (TrimSpace (ec_Qualifier c), true)
       | [], [c] => (TrimSpace (ec_Qualifier c), true)
       | _, _ => ("", false)
       end.
End credentials.

(** ** The ordering is lexicographic *)

(** What the ordering compares, most significant first. *)
Definition rank (preferred : string) (c : CredentialAccountCandidate) : Z * Z * Z * Z :=
  (if ca_NeedsReconnect c then 1 else 0,
   if isPreferred (TrimSpace preferred) c then 0 else 1,
   if IsZero (ca_CreatedAt c) then 1 else 0,
   ca_CreatedAt c)%Z.

Definition rank_lt (a b : Z * Z * Z * Z) : Prop :=
  let '(a1, a2, a3, a4) := a in
  let '(b1, b2, b3, b4) := b in
  (a1 < b1 ∨ a1 = b1 ∧ (a2 < b2 ∨ a2 = b2 ∧ (a3 < b3 ∨ a3 = b3 ∧ a4 < b4)))%Z.

Lemma string_part a b :
  (if bool_decide (ca_ID a ≠ ca_ID b) then str_ltb (ca_ID a) (ca_ID b)
   else str_ltb (ca_Qualifier a) (ca_Qualifier b)) = true ↔
  str_ltb (ca_ID a) (ca_ID b) = true ∨
  ca_ID a = ca_ID b ∧ str_ltb (ca_Qualifier a) (ca_Qualifier b) = true.
Proof.
  destruct (decide (ca_ID a = ca_ID b)) as [E|E].
  - rewrite bool_decide_false by tauto. rewrite E, str_ltb_irrefl. naive_solver.
  - rewrite bool_decide_true by done. naive_solver.
Qed.

Lemma prefer_spec preferred a b :
  PreferCredentialAccountCandidate a b preferred = true ↔
  rank_lt (rank preferred a) (rank preferred b) ∨
  rank preferred a = rank preferred b ∧
    (str_ltb (ca_ID a) (ca_ID b) = true ∨
     ca_ID a = ca_ID b ∧ str_ltb (ca_Qualifier a) (ca_Qualifier b) = true).
Proof.
  unfold PreferCredentialAccountCandidate, rank, rank_lt, Equal, Before, IsZero.
  generalize (isPreferred (TrimSpace preferred) a) (isPreferred (TrimSpace preferred) b).
  intros pa pb.
  pose proof (string_part a b) as Hstr.
  destruct (ca_NeedsReconnect a), (ca_NeedsReconnect b); cbn [Bool.eqb negb];
    try (split; [intros; left; lia|]; intros [?|[[=] _]]; (done || lia));
    try (split; [done|]; intros [?|[[=] _]]; lia);
    destruct pa, pb; cbn [Bool.eqb negb];
    try (split; [intros; left; lia|]; intros [?|[[=] _]]; (done || lia));
    try (split; [done|]; intros [?|[[=] _]]; lia);
    destruct (Z.eqb_spec (ca_CreatedAt a) 0), (Z.eqb_spec (ca_CreatedAt b) 0); cbn [Bool.eqb negb];
    try (split; [intros; left; lia|]; intros [?|[[=] _]]; (done || lia));
    try (split; [done|]; intros [?|[[=] _]]; lia);
    destruct (Z.eqb_spec (ca_CreatedAt a) (ca_CreatedAt b)) as [Et|Et]; cbn [negb]; try lia;
    rewrite ?Z.ltb_lt;
    try (rewrite Hstr; split; [intros H; right; split; [congruence|done]|intros [?|[_ H]]; [lia|done]]);
    (split; [intros; left; lia|intros [?|[[=] _]]; lia]).
Qed.

Lemma rank_lt_irrefl a : ¬ rank_lt a a.
Proof. destruct a as [[[a1 a2] a3] a4]. simpl. lia. Qed.

Lemma rank_lt_trans a b c : rank_lt a b → rank_lt b c → rank_lt a c.
Proof.
  destruct a as [[[a1 a2] a3] a4], b as [[[b1 b2] b3] b4], c as [[[c1 c2] c3] c4]. simpl. lia.
Qed.

Lemma rank_lt_total a b : rank_lt a b ∨ a = b ∨ rank_lt b a.
Proof.
  destruct a as [[[a1 a2] a3] a4], b as [[[b1 b2] b3] b4]. simpl.
  destruct (decide ((a1, a2, a3, a4) = (b1, b2, b3, b4))) as [E|E]; [auto|].
  assert (a1 ≠ b1 ∨ a2 ≠ b2 ∨ a3 ≠ b3 ∨ a4 ≠ b4)%Z; [|lia].
  destruct (decide (a1 = b1)), (decide (a2 = b2)), (decide (a3 = b3)), (decide (a4 = b4)); subst; auto.
Qed.

Lemma prefer_irrefl preferred a : PreferCredentialAccountCandidate a a preferred = false.
Proof.
  apply not_true_is_false. rewrite prefer_spec, !str_ltb_irrefl.
  intros [H|[_ [H|[_ H]]]]; [by apply rank_lt_irrefl in H|done..].
Qed.

Lemma prefer_trans preferred a b c :
  PreferCredentialAccountCandidate a b preferred = true →
  PreferCredentialAccountCandidate b c preferred = true →
  PreferCredentialAccountCandidate a c preferred = true.
Proof.
  rewrite !prefer_spec.
  intros [H1|[E1 H1]] [H2|[E2 H2]];
    [left; by eapply rank_lt_trans|left; by rewrite <-E2|left; by rewrite E1|].
  right. split; [congruence|].
  destruct H1 as [H1|[I1 H1]], H2 as [H2|[I2 H2]].
  - left. by eapply str_ltb_trans.
  - left. by rewrite <-I2.
  - left. by rewrite I1.
  - right. split; [congruence|]. by eapply str_ltb_trans.
Qed.

(** Two candidates neither of which is preferred agree on all that is compared. *)
Lemma prefer_total preferred a b :
  PreferCredentialAccountCandidate a b preferred = true ∨
  PreferCredentialAccountCandidate b a preferred = true ∨
  ca_ID a = ca_ID b ∧ ca_Qualifier a = ca_Qualifier b ∧ rank preferred a = rank preferred b.
Proof.
  rewrite !prefer_spec. destruct (rank_lt_total (rank preferred a) (rank preferred b)) as [H|[E|H]]; auto.
  destruct (decide (ca_ID a = ca_ID b)) as [I|I].
  - destruct (decide (ca_Qualifier a = ca_Qualifier b)) as [Q|Q]; [auto|].
    destruct (str_ltb (ca_Qualifier a) (ca_Qualifier b)) eqn:Hq.
    + left; right. by split; [|right].
    + rewrite (str_ltb_total _ _ Q) in Hq. apply negb_false_iff in Hq.
      right; left; right. by split; [|right].
  - destruct (str_ltb (ca_ID a) (ca_ID b)) eqn:Hi.
    + left; right. by split; [|left].
    + rewrite (str_ltb_total _ _ I) in Hi. apply negb_false_iff in Hi.
      right; left; right. by split; [|left].
Qed.

(** ** Choosing *)

Section choosing.
  Context (UnmarshalStrings : string → option (gmap string string)) (preferred : string) (now : time).
  Local Abbreviation cand c := (credentialAccountCandidate UnmarshalStrings (Some c) now).
  Local Abbreviation key c := (AccountKeyForCredential UnmarshalStrings (Some c)).
  Local Abbreviation better a b := (PreferCredentialAccountCandidate (cand a) (cand b) preferred).

Lemma better_below a b c : better a b = true → better c b = false → better c a = false.
Proof.
  intros Hab Hcb. apply not_true_is_false. intros Hca.
  by rewrite (prefer_trans _ _ _ _ Hca Hab) in Hcb.
Qed.

Lemma ChooseCredential_spec l :
  match ChooseCredential UnmarshalStrings l preferred now with
  | Some c => Some c ∈ l ∧ ∀ c', Some c' ∈ l → better c' c = false
  | None => ∀ c', Some c' ∉ l
  end.
Proof.
  unfold ChooseCredential. induction l as [|x l IH] using rev_ind; [by intros c' ?%elem_of_nil|].
  rewrite foldl_app. cbn [foldl].
  assert (Hsnoc : ∀ c, Some c ∈ l ++ [x] ↔ Some c ∈ l ∨ x = Some c).
  { intros c. rewrite elem_of_app, list_elem_of_singleton. naive_solver. }
  destruct x as [c|], (foldl _ None l) as [d|]; cbn [PreferCredential].
  - destruct IH as [Hin Hmin]. destruct (better c d) eqn:E.
    + split; [apply Hsnoc; by right|]. intros c' [Hc'|[= ->]]%Hsnoc; [|apply prefer_irrefl].
      eapply better_below; [exact E|by apply Hmin].
    + split; [apply Hsnoc; by left|]. intros c' [Hc'|[= ->]]%Hsnoc; [by apply Hmin|done].
  - split; [apply Hsnoc; by right|].
    intros c' [Hc'|[= ->]]%Hsnoc; [by apply IH in Hc'|apply prefer_irrefl].
  - destruct IH as [Hin Hmin]. split; [apply Hsnoc; by left|].
    intros c' [Hc'|[=]]%Hsnoc. by apply Hmin.
  - intros c' [Hc'|[=]]%Hsnoc. by apply IH in Hc'.
Qed.

Lemma key_trimmed c : TrimSpace (key c) = key c.
Proof.
  unfold AccountKeyForCredential. case_decide; [|apply TrimSpace_idem].
  unfold AccountKeyFromMetadataJSON. case_decide; [done|].
  destruct (UnmarshalStrings _); [apply TrimSpace_idem|done].
Qed.

(** *** What grouping keeps *)

(** The accounts kept after the credentials [l], and the positions recorded. *)
Record grouped (l : list (option ExternalCredential)) (accounts : list ExternalCredential)
    (seen : gmap string nat) : Prop := {
  gr_seen k i : seen !! k = Some i ↔ ∃ a, accounts !! i = Some a ∧ key a = k ∧ k ≠ "";
  gr_from a : a ∈ accounts → Some a ∈ l;
  gr_best c : Some c ∈ l → key c ≠ "" →
    ∃ a, a ∈ accounts ∧ key a = key c ∧ better c a = false;
  gr_keyless : filter (λ c, key c = "") accounts =
               filter (λ c, key c = "") (omap id l) }.

Lemma grouped_skip l accounts seen : grouped l accounts seen → grouped (l ++ [None]) accounts seen.
Proof.
  intros [Hseen Hfrom Hbest Hkl]. split; [done| | |].
  - intros a Ha. apply elem_of_app. left. by apply Hfrom.
  - intros c [Hc|Hc%list_elem_of_singleton]%elem_of_app; [by apply Hbest|done].
  - rewrite omap_app. simpl. by rewrite app_nil_r.
Qed.

Lemma snoc_lookup (accounts : list ExternalCredential) c i a :
  (accounts ++ [c]) !! i = Some a ↔ accounts !! i = Some a ∨ i = length accounts ∧ a = c.
Proof.
  rewrite lookup_app_Some, list_lookup_singleton_Some. split.
  - intros [H|(Hle & H & ->)]; [by left|right]. split; [lia|done].
  - intros [H|[-> ->]]; [by left|right]. split; [lia|]. split; [lia|done].
Qed.

Lemma grouped_new l accounts seen c :
  grouped l accounts seen → key c = "" ∨ seen !! key c = None →
  grouped (l ++ [Some c]) (accounts ++ [c])
          (if decide (key c = "") then seen else <[key c := length accounts]> seen).
Proof.
  intros [Hseen Hfrom Hbest Hkl] Hnew. split.
  - intros k i. setoid_rewrite snoc_lookup. case_decide as Hk.
    + rewrite Hseen. split; [naive_solver|]. intros (a & [Ha|[_ ->]] & <- & Hne); [eauto|done].
    + destruct Hnew as [?|Hnew]; [done|]. rewrite lookup_insert_Some, Hseen. split.
      * intros [[<- <-]|[Hne (a & Ha)]]; [exists c|exists a]; naive_solver.
      * intros (a & [Ha|[-> ->]] & <- & Hne); [right|by left]. split; [|eauto].
        intros Heq. assert (seen !! key a = Some i) by (apply Hseen; eauto). congruence.
  - intros a [Ha|Ha%list_elem_of_singleton]%elem_of_app; apply elem_of_app.
    + left. by apply Hfrom.
    + right. apply list_elem_of_singleton. congruence.
  - intros c' [Hc|[= ->]%list_elem_of_singleton]%elem_of_app Hk.
    + destruct (Hbest _ Hc Hk) as (a & Ha & H). exists a. split; [|done]. apply elem_of_app. by left.
    + exists c. split; [apply elem_of_app; right; by left|]. split; [done|apply prefer_irrefl].
  - rewrite omap_app, !filter_app, Hkl. done.
Qed.

Lemma filter_insert_out (P : ExternalCredential → Prop) `{∀ x, Decision (P x)}
    (l : list ExternalCredential) i x y :
  l !! i = Some x → ¬ P x → ¬ P y → filter P (<[i := y]> l) = filter P l.
Proof.
  revert i. induction l as [|z l IH]; intros [|i] Hl Hx Hy; simpl in *; try done.
  - injection Hl as ->. by rewrite !filter_cons_False.
  - rewrite !filter_cons. by rewrite (IH i).
Qed.

Lemma grouped_known l accounts seen c i cur :
  grouped l accounts seen → key c ≠ "" → seen !! key c = Some i → accounts !! i = Some cur →
  key cur = key c →
  grouped (l ++ [Some c]) (if better c cur then <[i := c]> accounts else accounts) seen.
Proof.
  intros [Hseen Hfrom Hbest Hkl] Hk Hs Hcur Hkc.
  assert (Hlt : i < length accounts) by (by eapply lookup_lt_Some).
  assert (Hkl' : filter (λ c, key c = "") accounts = filter (λ c, key c = "") (omap id (l ++ [Some c]))).
  { rewrite omap_app, filter_app, Hkl. change (omap id [Some c]) with [c].
    rewrite filter_cons_False by done. by rewrite filter_nil, app_nil_r. }
  destruct (better c cur) eqn:Eb; split; try done.
  - intros k j. rewrite Hseen. destruct (decide (i = j)) as [<-|Hne].
    + rewrite list_lookup_insert_eq by done. rewrite Hcur. naive_solver congruence.
    + by rewrite list_lookup_insert_ne.
  - intros a [j Hj]%list_elem_of_lookup. apply elem_of_app.
    apply list_lookup_insert_Some in Hj as [(_ & -> & _)|[_ Hj]]; [right; by left|left].
    apply Hfrom. by eapply list_elem_of_lookup_2.
  - intros c' Hc' Hk'. apply elem_of_app in Hc' as [Hc'|[= ->]%list_elem_of_singleton].
    + destruct (Hbest _ Hc' Hk') as (a & Ha & Hka & Hb).
      apply list_elem_of_lookup in Ha as [j Hj]. destruct (decide (i = j)) as [<-|Hne].
      * assert (a = cur) as -> by congruence. exists c.
        split; [apply list_elem_of_lookup; exists i; by apply list_lookup_insert_eq|].
        split; [congruence|]. by eapply better_below.
      * exists a. split; [|done]. apply list_elem_of_lookup. exists j. by rewrite list_lookup_insert_ne.
    + exists c. split; [apply list_elem_of_lookup; exists i; by apply list_lookup_insert_eq|].
      split; [done|apply prefer_irrefl].
  - rewrite (filter_insert_out _ _ _ cur) by (done || congruence). done.
  - intros a Ha. apply elem_of_app. left. by apply Hfrom.
  - intros c' Hc' Hk'. apply elem_of_app in Hc' as [Hc'|[= ->]%list_elem_of_singleton]; [by apply Hbest|].
    exists cur. split; [by eapply list_elem_of_lookup_2|done].
Qed.

Lemma GroupCredentialAccounts_grouped l :
  let st := foldl (accountStep UnmarshalStrings preferred now) ([], ∅) l in
  grouped l st.1 st.2.
Proof.
  cbv zeta. induction l as [|x l IH] using rev_ind.
  { cbn [foldl fst snd]. split; [|by intros a ?%elem_of_nil|by intros c ?%elem_of_nil|done].
    intros k i. rewrite lookup_empty. split; [done|]. by intros (a & [=] & _). }
  rewrite foldl_app. cbn [foldl]. destruct (foldl _ _ l) as [accounts seen]. simpl in IH.
  destruct x as [c|]; [|by apply grouped_skip]. cbn [accountStep].
  pose proof (grouped_new _ _ _ c IH) as Hnew. case_decide as Hk; [apply Hnew; by left|].
  destruct (seen !! key c) as [i|] eqn:Es; [|apply Hnew; by right].
  pose proof (proj1 (gr_seen _ _ _ IH _ _) Es) as (cur & Hcur & Hkc & _). rewrite Hcur.
  cbn [PreferCredential]. pose proof (grouped_known _ _ _ _ _ _ IH Hk Es Hcur Hkc) as H.
  by destruct (better c cur).
Qed.
End choosing.

(** ** The two groupings agree *)

Section agreement.
  Context (UnmarshalStrings : string → option (gmap string string)) (preferred : string) (now : time).
  Variable creds : list ExternalCredential.
  Local Abbreviation cand c := (credentialAccountCandidate UnmarshalStrings (Some c) now).
  Local Abbreviation key c := (AccountKeyForCredential UnmarshalStrings (Some c)).
Definition candidates_of : list CredentialAccountCandidate :=
    map (λ c, credentialAccountCandidate UnmarshalStrings (Some c) now) creds.

Lemma candidates_lookup i c : creds !! i = Some c → candidates_of !! i = Some (cand c).
Proof. intros H. unfold candidates_of. by rewrite list_lookup_fmap, H. Qed.

Lemma bestOf_snoc g n :
  g ≠ [] → bestOf candidates_of preferred (g ++ [n]) =
    if preferIndex candidates_of preferred n (bestOf candidates_of preferred g) then n
    else bestOf candidates_of preferred g.
Proof. destruct g as [|x g]; [done|]. intros _. simpl. by rewrite foldl_app. Qed.

(** Each group's best candidate is the account kept in its place. *)
Definition parallel (g : list (list nat) * gmap string nat)
    (a : list ExternalCredential * gmap string nat) : Prop :=
  g.2 = a.2 ∧
  Forall2 (λ grp c, grp ≠ [] ∧ creds !! bestOf candidates_of preferred grp = Some c) g.1 a.1 ∧
  ∀ k i, a.2 !! k = Some i → i < length a.1.

Lemma parallel_snoc groups accounts seen seen' n c :
  parallel (groups, seen) (accounts, seen) → creds !! n = Some c →
  (∀ k i, seen' !! k = Some i → i < length accounts + 1) →
  parallel (groups ++ [[n]], seen') (accounts ++ [c], seen').
Proof.
  intros (_ & Hf & _) Hn Hs. split; [done|]. split.
  - apply Forall2_app; [done|]. by repeat constructor.
  - simpl. rewrite length_app. done.
Qed.

Lemma parallel_step g a n c :
  creds !! n = Some c → parallel g a →
  parallel (groupStep g (n, cand c)) (accountStep UnmarshalStrings preferred now a (Some c)).
Proof.
  destruct g as [groups seen], a as [accounts seen']. intros Hn Hp.
  pose proof Hp as (Heq & Hf & Hlt). simpl in Heq, Hf, Hlt. subst seen'.
  pose proof (Forall2_length _ _ _ Hf) as Hlen.
  unfold groupStep, accountStep.
  change (ca_AccountKey (cand c)) with (key c). rewrite key_trimmed.
  case_decide as Hk.
  { apply (parallel_snoc _ _ seen); [done..|]. intros k i Hi. apply Hlt in Hi. lia. }
  destruct (seen !! key c) as [i|] eqn:Es.
  2: { rewrite Hlen. apply (parallel_snoc _ _ seen); [done..|]. intros k i.
       rewrite lookup_insert_Some. intros [[_ <-]|[_ Hi%Hlt]]; lia. }
  destruct (lookup_lt_is_Some_2 accounts i) as [cur Hcur]; [by eapply Hlt|]. rewrite Hcur.
  destruct (lookup_lt_is_Some_2 groups i) as [grp Hgrp]; [rewrite Hlen; by eapply Hlt|].
  pose proof (Forall2_lookup_lr _ _ _ _ _ _ Hf Hgrp Hcur) as [Hne Hbest].
  cbn [PreferCredential].
  assert (Hstep : parallel (alter (λ g, g ++ [n]) i groups, seen)
    (<[i := if PreferCredentialAccountCandidate (cand c) (cand cur) preferred then c else cur]> accounts, seen)).
  { split; [done|]. split; [|intros k j Hj; simpl; rewrite length_insert; by eapply Hlt].
    simpl. assert (alter (λ g, g ++ [n]) i groups = <[i := grp ++ [n]]> groups) as ->.
    { rewrite list_insert_alter. apply list_alter_ext; [|done]. intros x Hx. congruence. }
    apply Forall2_insert; [done|].
    split; [by destruct grp|]. rewrite bestOf_snoc by done. unfold preferIndex.
    rewrite (candidates_lookup _ _ Hn), (candidates_lookup _ _ Hbest). by destruct (PreferCredentialAccountCandidate _ _ _). }
  destruct (PreferCredentialAccountCandidate (cand c) (cand cur) preferred); [done|].
  by rewrite list_insert_id in Hstep.
Qed.

Lemma parallel_fold suffix n g a :
  (∀ i, suffix !! i = creds !! (n + i)) → parallel g a →
  parallel (foldl groupStep g (imap (λ i c, (n + i, cand c)) suffix))
           (foldl (accountStep UnmarshalStrings preferred now) a (map Some suffix)).
Proof.
  revert n g a. induction suffix as [|c suffix IH]; intros n g a Hs Hp; [done|]. simpl.
  rewrite Nat.add_0_r.
  rewrite (imap_ext _ (λ i c, (S n + i, cand c))) by (intros; simpl; f_equal; lia).
  apply (IH (S n)).
  - intros i. specialize (Hs (S i)). simpl in Hs. rewrite Hs. f_equal. lia.
  - apply parallel_step; [|done]. specialize (Hs 0). by rewrite Nat.add_0_r in Hs.
Qed.
End agreement.

(** ** Properties *)

(** The canonical ordering of an account's credentials is a strict total
    order: irreflexive, transitive, and two candidates that are not ordered agree
    on every field the ordering reads. *)
Theorem prefer_strict_total_order preferred :
  (∀ a, PreferCredentialAccountCandidate a a preferred = false) ∧
  (∀ a b c, PreferCredentialAccountCandidate a b preferred = true →
            PreferCredentialAccountCandidate b c preferred = true →
            PreferCredentialAccountCandidate a c preferred = true) ∧
  (∀ a b, PreferCredentialAccountCandidate a b preferred = false →
          PreferCredentialAccountCandidate b a preferred = false →
          ca_ID a = ca_ID b ∧ ca_Qualifier a = ca_Qualifier b ∧
          ca_CreatedAt a = ca_CreatedAt b ∧ ca_NeedsReconnect a = ca_NeedsReconnect b).
Proof.
  split_and!; [apply prefer_irrefl|apply prefer_trans|]. intros a b Hab Hba.
  destruct (prefer_total preferred a b) as [H|[H|(Hi & Hq & Hr)]]; [congruence..|].
  unfold rank in Hr. injection Hr as Hn _ _ Hc. split_and!; try done.
  destruct (ca_NeedsReconnect a), (ca_NeedsReconnect b); done.
Qed.

Section properties.
  Context (UnmarshalStrings : string → option (gmap string string)) (preferred : string) (now : time).
  Local Abbreviation cand c := (credentialAccountCandidate UnmarshalStrings (Some c) now).
  Local Abbreviation key c := (AccountKeyForCredential UnmarshalStrings (Some c)).

(**  [ChooseCredential] returns the best credential of the set whatever
    the order in which the store lists it, as long as id and qualifier tell the
    credentials apart. *)
Theorem ChooseCredential_order_irrelevant l l' :
  l ≡ₚ l' →
  (∀ c c', Some c ∈ l → Some c' ∈ l → ec_ID c = ec_ID c' → ec_Qualifier c = ec_Qualifier c' → c = c') →
  ChooseCredential UnmarshalStrings l preferred now =
  ChooseCredential UnmarshalStrings l' preferred now.
Proof.
  intros Hp Hdist.
  pose proof (ChooseCredential_spec UnmarshalStrings preferred now l) as H.
  pose proof (ChooseCredential_spec UnmarshalStrings preferred now l') as H'.
  destruct (ChooseCredential _ l _ _) as [c|], (ChooseCredential _ l' _ _) as [c'|].
  - destruct H as [Hin Hmin], H' as [Hin' Hmin']. rewrite <-Hp in Hin'.
    assert (Hc : Some c ∈ l') by (by rewrite <-Hp).
    destruct (prefer_total preferred (cand c) (cand c')) as [E|[E|(Hi & Hq & _)]].
    + by rewrite (Hmin' _ Hc) in E.
    + by rewrite (Hmin _ Hin') in E.
    + f_equal. by apply Hdist.
  - destruct H as [Hin _]. rewrite Hp in Hin. by apply H' in Hin.
  - destruct H' as [Hin _]. rewrite <-Hp in Hin. by apply H in Hin.
  - done.
Qed.

(** [GroupCredentialAccounts] keeps one credential per account: every
    credential it returns is one of the given ones, no two share a non-empty
    account key, each keyed credential's account is represented by one that it is
    not preferred to, and the keyless credentials are all kept in order. *)
Theorem GroupCredentialAccounts_one_per_account l :
  let accounts := GroupCredentialAccounts UnmarshalStrings l preferred now in
  (∀ a, a ∈ accounts → Some a ∈ l) ∧
  (∀ i j a b, accounts !! i = Some a → accounts !! j = Some b → key a = key b → key a ≠ "" → i = j) ∧
  (∀ c, Some c ∈ l → key c ≠ "" → ∃ a, a ∈ accounts ∧ key a = key c ∧
     PreferCredentialAccountCandidate (cand c) (cand a) preferred = false) ∧
  filter (λ c, key c = "") accounts = filter (λ c, key c = "") (omap id l).
Proof.
  cbv zeta. unfold GroupCredentialAccounts.
  destruct (GroupCredentialAccounts_grouped UnmarshalStrings preferred now l)
    as [Hseen Hfrom Hbest Hkl].
  split_and!; [done| |done|done]. intros i j a b Ha Hb Hk Hne.
  assert (H1 : (foldl (accountStep UnmarshalStrings preferred now) ([], ∅) l).2 !! key a = Some i)
    by (apply Hseen; eauto).
  assert (H2 : (foldl (accountStep UnmarshalStrings preferred now) ([], ∅) l).2 !! key a = Some j)
    by (apply Hseen; eauto).
  congruence.
Qed.

(** Equivalence of the two grouping routines: what status and disconnect
    pages compute from candidate indices is what invocation computes from the
    credentials themselves. *)
Theorem groupings_agree (creds : list ExternalCredential) :
  GroupCredentialAccounts UnmarshalStrings (map Some creds) preferred now =
  omap (λ i, creds !! i)
    (GroupCredentialAccountCandidateIndices (candidates_of UnmarshalStrings now creds) preferred).
Proof.
  assert (H0 : parallel UnmarshalStrings preferred now creds ([], ∅) ([], ∅)).
  { split_and!; [done|constructor|]. intros k i. cbn [fst snd]. by rewrite lookup_empty. }
  pose proof (parallel_fold UnmarshalStrings preferred now creds creds 0 _ _ (λ i, eq_refl) H0) as Hp.
  unfold GroupCredentialAccounts, GroupCredentialAccountCandidateIndices,
    GroupCredentialAccountCandidateGroups.
  assert (imap pair (candidates_of UnmarshalStrings now creds)
          = imap (λ i c, (0 + i, cand c)) creds) as ->.
  { unfold candidates_of. by rewrite imap_fmap. }
  destruct Hp as (_ & Hf & _).
  induction Hf as [|g c gs cs [_ Hb] _ IH]; [done|]. simpl. rewrite Hb. by f_equal.
Qed.
End properties.

(** ** Examples *)

Definition sample_credential (id qualifier account : string) (created : time) : ExternalCredential :=
  {| ec_ID := id; ec_Subject := "u"; ec_Audience := "github"; ec_Qualifier := qualifier;
     ec_AccountKey := account; ec_Grant := None; ec_Client := None; ec_Opaque := None;
     ec_MetadataJSON := ""; ec_CreatedAt := created; ec_UpdatedAt := created |}.

Lemma ChooseCredential_order_irrelevant_witness :
  ChooseCredential (λ _, None)
    [Some (sample_credential "2" "b" "k" Hour); None; Some (sample_credential "1" "a" "k" Hour)] "" Hour =
  ChooseCredential (λ _, None)
    [None; Some (sample_credential "1" "a" "k" Hour); Some (sample_credential "2" "b" "k" Hour)] "" Hour.
Proof.
  apply (ChooseCredential_order_irrelevant (λ _, None) "" Hour).
  - apply (Permutation_cons_append [None; Some (sample_credential "1" "a" "k" Hour)]
             (Some (sample_credential "2" "b" "k" Hour))).
  - intros c c'. rewrite !elem_of_cons, !elem_of_nil.
    by intros [[= ->]|[[=]|[[= ->]|[]]]] [[= ->]|[[=]|[[= ->]|[]]]].
Defined.
End CredentialSelection.
