(* ===== verification/ToolNames.v ===== *)
(** * ToolNames: model-facing names of tool inputs

    Models [gestaltd/core/toolschema/names.go].  A Go string is its bytes; a
    [range] over it decodes UTF-8, one [U+FFFD] per byte that does not decode. *)

From stdpp Require Import base gmap strings list sorting sets.
From Stdlib Require Import ZArith NArith Ascii Lia.
From S2P Require Import Prelude.

Set Default Goal Selector "!".

Module ToolNames.

Definition MaxPropertyNameLength : nat := 64.

(** ** Runes of a string *)

Definition byte_val (a : ascii) : N := N_of_ascii a.
Definition between (lo hi x : N) : bool := (lo <=? x)%N && (x <=? hi)%N.
Definition continuation (a : ascii) : bool := between 128 191 (byte_val a).
Definition RuneError : N := 65533.

(** The first rune and the bytes after it, as [utf8.DecodeRune] finds them:
    overlong forms, surrogates and values above [U+10FFFF] do not decode. *)
Definition decodeRune (a : ascii) (l : bytes) : N * bytes :=
  let v := byte_val a in
  if (v <? 128)%N then (v, l)
  else match l with
  | b :: l1 =>
      let w := byte_val b in
      if between 194 223 v && continuation b
      then ((v - 192) * 64 + (w - 128), l1)%N
      else match l1 with
      | c :: l2 =>
          let lo := if (v =? 224)%N then 160%N else 128%N in
          let hi := if (v =? 237)%N then 159%N else 191%N in
          if between 224 239 v && between lo hi w && continuation c
          then ((v - 224) * 4096 + (w - 128) * 64 + (byte_val c - 128), l2)%N
          else match l2 with
          | d :: l3 =>
              let lo := if (v =? 240)%N then 144%N else 128%N in
              let hi := if (v =? 244)%N then 143%N else 191%N in
              if between 240 244 v && between lo hi w && continuation c && continuation d
              then ((v - 240) * 262144 + (w - 128) * 4096 + (byte_val c - 128) * 64
                    + (byte_val d - 128), l3)%N
              else (RuneError, l)
          | [] => (RuneError, l)
          end
      | [] => (RuneError, l)
      end
  | [] => (RuneError, l)
  end.

(** Every rune takes at least one byte, so the length is enough fuel. *)
Fixpoint runes_fuel (fuel : nat) (l : bytes) : list N :=
  match fuel, l with
  | S fuel, a :: l => let '(r, rest) := decodeRune a l in r :: runes_fuel fuel rest
  | _, _ => []
  end.
Definition runes (l : bytes) : list N := runes_fuel (length l) l.

(** ** Safe names *)

Definition isPropertyNameChar (r : N) : bool :=
  between 97 122 r || between 65 90 r || between 48 57 r
  || (r =? 95)%N || (r =? 46)%N || (r =? 45)%N.

Definition underscore : ascii := "_".

Definition writeNamedSeparator (b : bytes) (name : string) : bytes :=
  (if decide (b = []) then b else b ++ [underscore])
  ++ String.list_ascii_of_string name ++ [underscore].

(** One iteration over the runes of the raw name. *)
Definition writeRune (b : bytes) (r : N) : bytes :=
  if isPropertyNameChar r then b ++ [ascii_of_N r]
  else if (r =? 91)%N then b ++ [underscore]
  else if (r =? 93)%N then b
  else if (r =? 36)%N then writeNamedSeparator b "dollar"
  else if (r =? 64)%N then writeNamedSeparator b "at"
  else if (r =? 39)%N || (r =? 34)%N || (r =? 96)%N then b
  else b ++ [underscore].

(** FNV-1a on 32 bits. *)
Definition hashPropertyName (raw : bytes) : N :=
  foldl (λ h a, (N.lxor h (byte_val a) * 16777619) mod 4294967296)%N 2166136261%N raw.

Definition hex_digit (n : N) : ascii :=
  if (n <? 10)%N then ascii_of_N (48 + n)%N else ascii_of_N (87 + n)%N.
(** [%08x] *)
Fixpoint hex (k : nat) (n : N) : bytes :=
  match k with
  | 0 => []
  | S k => hex k (n / 16)%N ++ [hex_digit (n mod 16)%N]
  end.

Definition hashSuffix (raw : bytes) : bytes := underscore :: hex 8 (hashPropertyName raw).

Definition safePropertyName (raw : bytes) : bytes :=
  let name := foldl writeRune [] (runes raw) in
  let name := if decide (name = []) then String.list_ascii_of_string "param" else name in
  if decide (length name ≤ MaxPropertyNameLength) then name
  else let suffix := hashSuffix raw in
       take (MaxPropertyNameLength - length suffix) name ++ suffix.

Definition NormalizePropertyName (raw : bytes) : bytes * bytes :=
  let normalized := safePropertyName raw in
  if decide (normalized = raw) then (raw, []) else (normalized, raw).

(** [^[a-zA-Z0-9_.-]{1,64}$] *)
Definition ValidPropertyName (name : bytes) : bool :=
  bool_decide (1 ≤ length name ≤ MaxPropertyNameLength)
  && forallb (λ a, isPropertyNameChar (byte_val a)) name.

(** ** Unique names *)

Record NameMapping := { nm_Name : bytes; nm_WireName : bytes }.

(** The names in use, with the raw name each was given to. *)
Abbreviation NameAllocator := (gmap bytes bytes).

Definition digit (n : N) : ascii := ascii_of_N (48 + n)%N.
(** [%d]; twenty digits print every 64-bit count. *)
Fixpoint decimal (fuel : nat) (n : N) : bytes :=
  match fuel with
  | 0 => []
  | S fuel => if (n <? 10)%N then [digit n] else decimal fuel (n / 10)%N ++ [digit (n mod 10)%N]
  end.

Definition numbered (baseName : bytes) (i : N) : bytes :=
  let suffix := underscore :: decimal 20 i in
  let prefixLen := MaxPropertyNameLength - length suffix in
  (if decide (prefixLen < length baseName) then take prefixLen baseName else baseName) ++ suffix.

(** The loop [for i := 2; ; i++]: [None] when the fuel runs out. *)
Fixpoint firstFree (fuel : nat) (used : NameAllocator) (baseName : bytes) (i : N) : option bytes :=
  match fuel with
  | 0 => None
  | S fuel =>
      let name := numbered baseName i in
      if decide (used !! name = None) then Some name
      else firstFree fuel used baseName (i + 1)
  end.

Definition unique (used : NameAllocator) (baseName rawName : bytes)
    : option (bytes * NameAllocator) :=
  if decide (used !! baseName = None) then Some (baseName, <[baseName := rawName]> used)
  else match firstFree (S (size used)) used baseName 2 with
       | Some name => Some (name, <[name := rawName]> used)
       | None => None
       end.

Definition Allocate (used : NameAllocator) (raw : bytes) : option (NameMapping * NameAllocator) :=
  let '(baseName, wireName) := NormalizePropertyName raw in
  match unique used baseName raw with
  | None => None
  | Some (name, used) =>
      let wireName := if bool_decide (name ≠ baseName) && bool_decide (wireName = [])
                      then raw else wireName in
      Some ({| nm_Name := name; nm_WireName := wireName |}, used)
  end.

(** Allocating names for the properties of one schema. *)
Fixpoint allocateAll (used : NameAllocator) (raws : list bytes)
    : option (list NameMapping * NameAllocator) :=
  match raws with
  | [] => Some ([], used)
  | raw :: raws =>
      match Allocate used raw with
      | None => None
      | Some (m, used) =>
          match allocateAll used raws with
          | None => None
          | Some (ms, used) => Some (m :: ms, used)
          end
      end
  end.

Definition example_brackets : bytes := String.list_ascii_of_string "filter[$in]".
Example brackets_name :
  NormalizePropertyName example_brackets
  = (String.list_ascii_of_string "filter__dollar_in", example_brackets).
Proof. vm_compute. reflexivity. Qed.

(** ** Names are valid *)

Definition name_char (a : ascii) : bool := isPropertyNameChar (byte_val a).

Lemma writeRune_chars b r :
  forallb name_char b = true → forallb name_char (writeRune b r) = true.
Proof.
  intros Hb. unfold writeRune, writeNamedSeparator.
  destruct (isPropertyNameChar r) eqn:Er.
  { rewrite forallb_app, Hb. cbn [forallb andb]. rewrite andb_true_r.
    unfold name_char, byte_val. rewrite N_ascii_embedding; [done|].
    unfold isPropertyNameChar, between in Er. rewrite !orb_true_iff, !andb_true_iff, !N.leb_le, !N.eqb_eq in Er.
    lia. }
  repeat case_match; rewrite ?forallb_app, ?Hb; done.
Qed.

Lemma safe_chars rs b :
  forallb name_char b = true → forallb name_char (foldl writeRune b rs) = true.
Proof. revert b. induction rs as [|r rs IH]; intros b Hb; [done|]. by apply IH, writeRune_chars. Qed.

Lemma forallb_take {A} (f : A → bool) n l : forallb f l = true → forallb f (take n l) = true.
Proof.
  rewrite !forallb_forall. intros H x Hx. apply H. apply list_elem_of_In.
  apply list_elem_of_In in Hx. by eapply elem_of_take in Hx as (i & Hi & _); eapply list_elem_of_lookup_2.
Qed.

Lemma hex_digit_char n : (n < 16)%N → name_char (hex_digit n) = true.
Proof.
  intros Hn. assert (H : ∀ k, k < 16 → name_char (hex_digit (N.of_nat k)) = true).
  { intros k Hk. do 16 (destruct k as [|k]; [done|]). lia. }
  rewrite <-(N2Nat.id n). apply H. lia.
Qed.

Lemma hex_spec k n : length (hex k n) = k ∧ forallb name_char (hex k n) = true.
Proof.
  revert n. induction k as [|k IH]; intros n; [done|]. simpl.
  destruct (IH (n / 16)%N) as [Hl Hf]. rewrite length_app, forallb_app, Hl, Hf. simpl.
  rewrite hex_digit_char by (apply N.mod_lt; lia). split; [lia|done].
Qed.

Lemma ValidPropertyName_spec name :
  ValidPropertyName name = true ↔
  (1 ≤ length name ≤ MaxPropertyNameLength) ∧ forallb name_char name = true.
Proof. unfold ValidPropertyName. by rewrite andb_true_iff, bool_decide_eq_true. Qed.

Lemma safePropertyName_valid raw : ValidPropertyName (safePropertyName raw) = true.
Proof.
  apply ValidPropertyName_spec. unfold safePropertyName.
  set (name := if decide (foldl writeRune [] (runes raw) = []) then _ else _).
  assert (Hn : 1 ≤ length name ∧ forallb name_char name = true).
  { unfold name. case_decide as E; [by split; [simpl; lia|]|]. split; [|by apply safe_chars].
    destruct (foldl writeRune [] (runes raw)); [done|simpl; lia]. }
  destruct Hn as [Hlen Hch]. destruct (hex_spec 8 (hashPropertyName raw)) as [Hhl Hhf].
  case_decide; [done|]. unfold hashSuffix, MaxPropertyNameLength in *.
  rewrite length_app, length_take. cbn [length]. rewrite Hhl. split; [lia|].
  rewrite forallb_app, forallb_take by done. cbn [forallb]. by rewrite Hhf.
Qed.

(** ** Numbered names *)

Definition value (l : bytes) : N := foldl (λ v a, 10 * v + (byte_val a - 48))%N 0%N l.

Lemma byte_val_digit n : (n < 10)%N → byte_val (digit n) = (48 + n)%N.
Proof. intros H. unfold byte_val, digit. apply N_ascii_embedding. lia. Qed.

Lemma decimal_spec fuel n :
  (n < 10 ^ N.of_nat fuel)%N → 1 ≤ fuel →
  value (decimal fuel n) = n ∧ Forall (λ a, between 48 57 (byte_val a) = true) (decimal fuel n).
Proof.
  revert n. induction fuel as [|fuel IH]; intros n Hn Hf; [lia|]. cbn [decimal].
  destruct (N.ltb_spec n 10) as [Hlt|Hge].
  - unfold value. cbn [foldl]. rewrite byte_val_digit by done. split; [lia|].
    constructor; [|done]. rewrite byte_val_digit by done. unfold between.
    rewrite andb_true_iff, !N.leb_le. lia.
  - assert (Hpow : (10 ^ N.of_nat (S fuel) = 10 * 10 ^ N.of_nat fuel)%N).
    { rewrite Nat2N.inj_succ, N.pow_succ_r by lia. done. }
    assert (Hdiv : (n / 10 < 10 ^ N.of_nat fuel)%N) by (apply N.Div0.div_lt_upper_bound; lia).
    assert (Hfuel : 1 ≤ fuel).
    { destruct fuel; [|lia]. simpl in Hpow. rewrite Hpow in Hn. simpl in Hn. lia. }
    destruct (IH _ Hdiv Hfuel) as [Hv Hd]. pose proof (N.mod_lt n 10 ltac:(lia)) as Hm.
    unfold value in *. rewrite foldl_app, Hv. cbn [foldl]. rewrite byte_val_digit by done. split.
    + rewrite (N.add_comm 48), N.add_sub. symmetry. apply N.div_mod. lia.
    + apply Forall_app. split; [done|]. constructor; [|done]. rewrite byte_val_digit by done.
      unfold between. rewrite andb_true_iff, !N.leb_le. clear -Hm. generalize dependent (n mod 10)%N. intros; lia.
Qed.

Lemma length_decimal fuel n : length (decimal fuel n) ≤ fuel.
Proof.
  revert n. induction fuel as [|fuel IH]; intros n; [done|]. cbn [decimal].
  destruct (n <? 10)%N; [simpl; lia|]. rewrite length_app. specialize (IH (n / 10)%N). simpl. lia.
Qed.

(** The counts for which names are printed. *)
Definition countable_index (i : N) : Prop := (i < 10 ^ 20)%N.

Lemma decimal_digits i :
  countable_index i → Forall (λ a, between 48 57 (byte_val a) = true) (decimal 20 i).
Proof. intros Hi. apply (decimal_spec 20); [exact Hi|lia]. Qed.

Lemma decimal_inj i j :
  countable_index i → countable_index j → decimal 20 i = decimal 20 j → i = j.
Proof.
  intros Hi Hj H. destruct (decimal_spec 20 i Hi) as [<- _]; [lia|].
  destruct (decimal_spec 20 j Hj) as [<- _]; [lia|]. by rewrite H.
Qed.

Lemma underscore_split (d d' p p' : bytes) :
  underscore ∉ d → underscore ∉ d' → d ++ underscore :: p = d' ++ underscore :: p' → d = d'.
Proof.
  revert d'. induction d as [|x d IH]; intros [|y d'] Hd Hd' Heq; simpl in *; try done.
  - injection Heq as <- _. destruct Hd'. by left.
  - injection Heq as -> _. destruct Hd. by left.
  - injection Heq as -> Heq. f_equal. apply IH; [| |done].
    + intros H. apply Hd. by right.
    + intros H. apply Hd'. by right.
Qed.

Lemma decimal_no_underscore i : countable_index i → underscore ∉ decimal 20 i.
Proof. intros Hi H. pose proof (decimal_digits i Hi) as Hf. by rewrite Forall_forall in Hf; apply Hf in H. Qed.

Lemma numbered_inj baseName i j :
  countable_index i → countable_index j → numbered baseName i = numbered baseName j → i = j.
Proof.
  intros Hi Hj H. unfold numbered in H. apply decimal_inj; [done..|].
  apply (f_equal reverse) in H. rewrite !reverse_app, !reverse_cons, <-!app_assoc in H. cbn [app] in H.
  apply (inj reverse). eapply underscore_split; [| |exact H]; rewrite elem_of_reverse;
    by apply decimal_no_underscore.
Qed.

Lemma numbered_valid baseName i :
  countable_index i → ValidPropertyName baseName = true →
  ValidPropertyName (numbered baseName i) = true.
Proof.
  rewrite !ValidPropertyName_spec. intros Hi [Hlen Hch]. unfold numbered, MaxPropertyNameLength in *.
  pose proof (length_decimal 20 i) as Hd. rewrite length_app, forallb_app. cbn [length].
  assert (Hdch : forallb name_char (decimal 20 i) = true).
  { apply forallb_forall. intros a Ha%list_elem_of_In. pose proof (decimal_digits i Hi) as Hf.
    rewrite Forall_forall in Hf. unfold name_char, isPropertyNameChar. rewrite (Hf _ Ha).
    by rewrite !orb_true_r. }
  case_decide; rewrite ?length_take; (split; [lia|]);
    [rewrite forallb_take by done|rewrite Hch]; cbn [forallb andb]; by rewrite Hdch.
Qed.

(** *** A free number is found *)

Lemma firstFree_some fuel used baseName i name :
  firstFree fuel used baseName i = Some name →
  used !! name = None ∧ ∃ k, k < fuel ∧ name = numbered baseName (i + N.of_nat k).
Proof.
  revert i. induction fuel as [|fuel IH]; intros i; [done|]. cbn [firstFree]. cbv zeta.
  case_decide as Hfree.
  - intros [= <-]. split; [done|]. exists 0. split; [lia|]. by rewrite N.add_0_r.
  - intros (Hn & k & Hk & ->)%IH. split; [done|]. exists (S k). split; [lia|]. f_equal. lia.
Qed.

Lemma firstFree_none fuel used baseName i :
  firstFree fuel used baseName i = None →
  ∀ k, k < fuel → is_Some (used !! numbered baseName (i + N.of_nat k)).
Proof.
  revert i. induction fuel as [|fuel IH]; intros i; [lia|]. cbn [firstFree]. cbv zeta.
  case_decide as Hfree; [done|]. intros H k Hk. destruct k as [|k].
  - rewrite N.add_0_r. by apply not_eq_None_Some.
  - replace (i + N.of_nat (S k))%N with (i + 1 + N.of_nat k)%N by lia. apply IH; [done|lia].
Qed.

Definition roomy (used : NameAllocator) : Prop := (N.of_nat (size used) + 10 < 10 ^ 20)%N.

(** More candidates than names in use: one of them is free. *)
Lemma firstFree_total used baseName :
  roomy used → is_Some (firstFree (S (size used)) used baseName 2).
Proof.
  intros Hroom. destruct (firstFree (S (size used)) used baseName 2) eqn:E; [done|]. exfalso.
  pose proof (firstFree_none _ _ _ _ E) as Hall.
  set (names := (λ k, numbered baseName (2 + N.of_nat k)) <$> seq 0 (S (size used))).
  assert (Hnd : NoDup names).
  { apply NoDup_fmap_2_strong; [|apply NoDup_seq]. intros x y Hx Hy Heq.
    apply elem_of_seq in Hx, Hy. unfold roomy in Hroom.
    apply numbered_inj in Heq; unfold countable_index; lia. }
  assert (Hsub : (list_to_set names : gset bytes) ⊆ dom used).
  { intros x. rewrite elem_of_list_to_set, elem_of_dom.
    intros (k & -> & Hk%elem_of_seq)%list_elem_of_fmap. apply Hall. lia. }
  apply subseteq_size in Hsub. rewrite size_list_to_set, size_dom in Hsub by done.
  unfold names in Hsub. rewrite length_fmap, length_seq in Hsub. lia.
Qed.

(** ** Allocation *)

Lemma unique_spec used baseName rawName :
  roomy used → ValidPropertyName baseName = true →
  ∃ name, unique used baseName rawName = Some (name, <[name := rawName]> used) ∧
          used !! name = None ∧ ValidPropertyName name = true.
Proof.
  intros Hroom Hvalid. unfold unique. case_decide as Hfree; [by exists baseName|].
  destruct (firstFree_total used baseName Hroom) as [name Hname]. rewrite Hname.
  destruct (firstFree_some _ _ _ _ _ Hname) as (Hn & k & Hk & ->). eexists. split; [done|].
  split; [done|]. apply numbered_valid; [|done]. unfold roomy, countable_index in *. lia.
Qed.

Lemma Normalize_spec raw :
  ValidPropertyName (NormalizePropertyName raw).1 = true ∧
  ((NormalizePropertyName raw).2 = [] ∧ (NormalizePropertyName raw).1 = raw ∨
   (NormalizePropertyName raw).2 = raw).
Proof.
  pose proof (safePropertyName_valid raw) as H. unfold NormalizePropertyName.
  case_decide as E; simpl; [rewrite E in H|]; auto.
Qed.

(** The name that execution uses for a mapped property. *)
Definition wire (m : NameMapping) : bytes :=
  if decide (nm_WireName m = []) then nm_Name m else nm_WireName m.

Lemma Allocate_spec used raw :
  roomy used →
  ∃ m, Allocate used raw = Some (m, <[nm_Name m := raw]> used) ∧
       used !! nm_Name m = None ∧ ValidPropertyName (nm_Name m) = true ∧
       (raw ≠ [] → wire m = raw).
Proof.
  intros Hroom. unfold Allocate. destruct (Normalize_spec raw) as [Hvalid Hwire].
  destruct (NormalizePropertyName raw) as [baseName wireName]. simpl in *.
  destruct (unique_spec used baseName raw Hroom Hvalid) as (name & -> & Hfree & Hname).
  eexists {| nm_Name := name; nm_WireName := _ |}. split; [reflexivity|]. split; [done|]. split; [done|]. intros Hraw. unfold wire. simpl.
  destruct Hwire as [[-> ->]| ->].
  - rewrite (bool_decide_true ([] = [])) by done. rewrite andb_true_r.
    case_bool_decide as Hn; [by rewrite decide_False|]. rewrite decide_True by done.
    done.
  - rewrite (bool_decide_false (raw = [])) by done. rewrite andb_false_r. by rewrite decide_False.
Qed.

(** [Allocate] always succeeds and gives a name that the strictest model
    provider accepts, of at most 64 allowed characters, that no earlier property
    of the schema has; from a non-empty raw name, the mapping leads back to it. *)
Theorem Allocate_safe used raw :
  roomy used →
  ∃ m, Allocate used raw = Some (m, <[nm_Name m := raw]> used) ∧
       used !! nm_Name m = None ∧ ValidPropertyName (nm_Name m) = true ∧
       (raw ≠ [] → wire m = raw).
Proof. apply Allocate_spec. Qed.

Lemma allocateAll_spec used raws :
  (N.of_nat (size used + length raws) + 10 < 10 ^ 20)%N → [] ∉ raws →
  ∃ ms used', allocateAll used raws = Some (ms, used') ∧ used ⊆ used' ∧
    NoDup (map nm_Name ms) ∧ (∀ m, m ∈ ms → used !! nm_Name m = None) ∧
    Forall (λ m, ValidPropertyName (nm_Name m) = true) ms ∧ map wire ms = raws.
Proof.
  revert used. induction raws as [|raw raws IH]; intros used Hroom Hne; simpl in Hroom.
  { exists [], used. split_and!; [done|done|constructor|by intros m ?%elem_of_nil|constructor|done]. }
  apply not_elem_of_cons in Hne as [Hr Hne].
  destruct (Allocate_spec used raw) as (m & Ha & Hfree & Hvalid & Hwire); [unfold roomy; lia|].
  destruct (IH (<[nm_Name m := raw]> used)) as (ms & used' & Hrest & Hsub & Hnd & Hfresh & Hval & Hw).
  { rewrite map_size_insert_None by done. lia. }
  { done. }
  exists (m :: ms), used'. cbn [allocateAll]. rewrite Ha, Hrest. split_and!; [done| | | | |].
  - etrans; [|exact Hsub]. by apply insert_subseteq.
  - cbn [map]. constructor; [|done]. intros (m' & Heq & Hm')%list_elem_of_fmap.
    apply Hfresh in Hm'. by rewrite <-Heq, lookup_insert_eq in Hm'.
  - intros m' [->|Hm']%elem_of_cons; [done|]. apply Hfresh in Hm'.
    by apply lookup_insert_None in Hm' as [? _].
  - by constructor.
  - cbn [map]. f_equal; [apply Hwire; congruence|done].
Qed.

(**  Round trip of a schema: allocating names for all the raw property names
    of a tool, duplicates included, yields distinct valid names, and reading the
    mappings back gives exactly the raw names, in order. *)
Theorem allocateAll_roundtrip raws :
  (N.of_nat (length raws) + 10 < 10 ^ 20)%N → [] ∉ raws →
  ∃ ms used, allocateAll ∅ raws = Some (ms, used) ∧ NoDup (map nm_Name ms) ∧
    Forall (λ m, ValidPropertyName (nm_Name m) = true) ms ∧ map wire ms = raws.
Proof.
  intros Hroom Hne. destruct (allocateAll_spec ∅ raws) as (ms & used & H & _ & Hnd & _ & Hv & Hw).
  - by rewrite map_size_empty.
  - done.
  - eauto 6.
Qed.

(** ** Examples *)

Definition sample_raws : list bytes :=
  [example_brackets; String.list_ascii_of_string "filter__dollar_in"; example_brackets].

Lemma Allocate_safe_witness :
  ∃ m, Allocate ∅ example_brackets = Some (m, <[nm_Name m := example_brackets]> ∅).
Proof.
  destruct (Allocate_safe ∅ example_brackets) as (m & H & _).
  - unfold roomy. rewrite map_size_empty. done.
  - by exists m.
Defined.

Lemma allocateAll_roundtrip_witness :
  ∃ ms used, allocateAll ∅ sample_raws = Some (ms, used) ∧ map wire ms = sample_raws.
Proof.
  destruct (allocateAll_roundtrip sample_raws) as (ms & used & H & _ & _ & Hw).
  - done.
  - unfold sample_raws. rewrite !not_elem_of_cons. split_and!; try done. apply not_elem_of_nil.
  - eauto.
Defined.
End ToolNames.
