(* ===== verification/OperationPolicy.v ===== *)
(** * OperationPolicy: which operations an app exposes, and under which names

    Models [gestaltd/services/apps/operationexposure/policy.go].  A Go map is
    ranged over in an order the language does not fix: [NewIn] takes that order,
    and the theorems hold for every order.  A nil map is an empty one wherever the
    code cannot tell them apart. *)

From stdpp Require Import base gmap strings list sorting sets.
From Stdlib Require Import ZArith Ascii Lia.
From S2P Require Import Prelude Catalog.

Set Default Goal Selector "!".

Module OperationPolicy.
Import Catalog.

Record ManifestValueSelector := { mv_Source : string; mv_Path : string }.
Record ManifestPaginationConfig := {
  mp_Style : string; mp_CursorParam : string; mp_Cursor : option ManifestValueSelector;
  mp_LimitParam : string; mp_DefaultLimit : Z; mp_ResultsPath : string; mp_MaxPages : Z }.
Record ManifestGraphQLOperation := { gq_Document : string; gq_OperationName : string }.

Record OperationOverride := {
  ov_Alias : string;
  ov_Description : string;
  ov_AllowedRoles : option (list string);
  ov_Tags : list string;
  ov_API : option APIExposureMode;
  ov_MCP : option bool;
  ov_Paginate : bool;
  ov_Pagination : option ManifestPaginationConfig;
  ov_GraphQL : option ManifestGraphQLOperation }.

Record ManifestOperationOverride := {
  mo_Alias : string;
  mo_Description : string;
  mo_Tags : list string;
  mo_API : option APIExposureMode;
  mo_MCP : option bool;
  mo_Paginate : bool;
  mo_Pagination : option ManifestPaginationConfig;
  mo_GraphQL : option ManifestGraphQLOperation }.

Definition fromManifest (o : ManifestOperationOverride) : OperationOverride :=
  {| ov_Alias := mo_Alias o; ov_Description := mo_Description o;
     ov_AllowedRoles := None; ov_Tags := mo_Tags o; ov_API := mo_API o;
     ov_MCP := mo_MCP o; ov_Paginate := mo_Paginate o;
     ov_Pagination := mo_Pagination o; ov_GraphQL := mo_GraphQL o |}.

Definition FromManifestAllowed (allowed : option (gmap string (option ManifestOperationOverride)))
    : option (gmap string (option OperationOverride)) :=
  match allowed with
  | None => None
  | Some allowed => Some (fmap (M := gmap string) (option_map fromManifest) allowed)
  end.

Record Policy := {
  pl_exposedToOriginal : gmap string string;
  pl_originalToExposed : gmap string string;
  pl_descriptions : gmap string string;
  pl_allowedRoles : gmap string (list string);
  pl_tags : gmap string (list string);
  pl_api : gmap string APIExposureMode;
  pl_mcp : gmap string bool }.

Definition emptyPolicy : Policy :=
  {| pl_exposedToOriginal := ∅; pl_originalToExposed := ∅; pl_descriptions := ∅;
     pl_allowedRoles := ∅; pl_tags := ∅; pl_api := ∅; pl_mcp := ∅ |}.

Inductive PolicyError :=
  | ErrEmpty
  | ErrInvalidMode (original : string) (mode : APIExposureMode)
  | ErrCollisions (collisions : list (string * string * string))
  | ErrUnknownOperation (original : string).

Section with_lower.
  Context (ToLower : string → string).

Definition exposedName (original : string) (override : option OperationOverride) : string :=
  match override with
  | Some o => if decide (ov_Alias o = "") then original else ov_Alias o
  | None => original
  end.

Definition validMode (override : option OperationOverride) : bool :=
  match override with
  | Some {| ov_API := Some m |} =>
      contains [APIExposurePublic; APIExposurePrivate; APIExposureBrowserSession] m
  | _ => true
  end.

(** The entries an override adds to the policy's maps. *)
Definition addOverride (p : Policy) (original exposed : string) (override : option OperationOverride)
    : Policy :=
  {| pl_exposedToOriginal := <[exposed := original]> (pl_exposedToOriginal p);
     pl_originalToExposed := <[original := exposed]> (pl_originalToExposed p);
     pl_descriptions :=
       match override with
       | Some o => if decide (ov_Description o = "") then pl_descriptions p
                   else <[exposed := ov_Description o]> (pl_descriptions p)
       | None => pl_descriptions p
       end;
     pl_allowedRoles :=
       match override with
       | Some {| ov_AllowedRoles := Some roles |} => <[exposed := roles]> (pl_allowedRoles p)
       | _ => pl_allowedRoles p
       end;
     pl_tags :=
       match override with
       | Some o => let tags := MergeTags ToLower [ov_Tags o] in
                   if decide (tags = []) then pl_tags p else <[exposed := tags]> (pl_tags p)
       | None => pl_tags p
       end;
     pl_api :=
       match override with
       | Some {| ov_API := Some m |} => <[exposed := m]> (pl_api p)
       | _ => pl_api p
       end;
     pl_mcp :=
       match override with
       | Some {| ov_MCP := Some b |} => <[exposed := b]> (pl_mcp p)
       | _ => pl_mcp p
       end |}.

(** The loop of [New] over the entries in iteration order. *)
Fixpoint newLoop (entries : list (string * option OperationOverride)) (p : Policy)
    (exposedNames : gmap string string) (collisions : list (string * string * string))
    : result PolicyError (Policy * list (string * string * string)) :=
  match entries with
  | [] => Ok (p, collisions)
  | (original, override) :: entries =>
      fail_if negb (validMode override)
        with ErrInvalidMode original (default "" (override ≫= ov_API)) ;;
      let exposed := exposedName original override in
      let collisions := match exposedNames !! exposed with
                        | Some existing => collisions ++ [(existing, original, exposed)]
                        | None => collisions
                        end in
      newLoop entries (addOverride p original exposed override)
              (<[exposed := original]> exposedNames) collisions
  end.

Definition NewIn (entries : list (string * option OperationOverride)) : result PolicyError Policy :=
  let! r := newLoop entries emptyPolicy ∅ [] in
  fail_if bool_decide (r.2 ≠ []) with ErrCollisions r.2 ;;
  Ok r.1.

(** [order] is the order in which [allowed] is ranged over. *)
Definition New (order : gmap string (option OperationOverride) →
                        list (string * option OperationOverride))
    (allowed : option (gmap string (option OperationOverride)))
    : result PolicyError (option Policy) :=
  match allowed with
  | None => Ok None
  | Some allowed =>
      fail_if bool_decide (allowed = ∅) with ErrEmpty ;;
      let! p := NewIn (order allowed) in
      Ok (Some p)
  end.

(** ** Using a policy *)

(** The check that every allowed operation is known. *)
Definition allKnown (p : Policy) (opSet : gset string) : result PolicyError unit :=
  each (λ oe : string * string,
          fail_if bool_decide (oe.1 ∉ opSet) with ErrUnknownOperation oe.1 ;; Ok tt)
       (map_to_list (pl_originalToExposed p)).

Record Operation := {
  co_Name : string; co_Description : string; co_Method : string;
  co_Parameters : list CatalogParameter }.

Definition ValidateOperations (p : option Policy) (ops : list Operation) : result PolicyError unit :=
  match p with
  | None => Ok tt
  | Some p => allKnown p (list_to_set (map co_Name ops))
  end.

Definition ValidateCatalog (p : option Policy) (cat : option Catalog) : result PolicyError unit :=
  match p, cat with
  | Some p, Some cat =>
      allKnown p (list_to_set (map op_ID
        (filter (λ o, ¬ (op_Transport o = "graphql" ∧ op_Query o = "")) (cat_Operations cat))))
  | _, _ => Ok tt
  end.

Definition Resolve (p : option Policy) (name : string) : option string :=
  match p with
  | None => Some name
  | Some p => pl_exposedToOriginal p !! name
  end.

Definition RestrictedMap (p : option Policy) : gmap string string :=
  match p with
  | None => ∅
  | Some p => map_imap (λ exposed original,
                Some (if decide (exposed = original) then "" else original)) (pl_exposedToOriginal p)
  end.

Definition ApplyOperations (p : option Policy) (ops : list Operation) : list Operation :=
  match p with
  | None => ops
  | Some p =>
      omap (λ o, (λ exposed,
        {| co_Name := exposed;
           co_Description := default (co_Description o) (pl_descriptions p !! exposed);
           co_Method := co_Method o; co_Parameters := co_Parameters o |})
        <$> pl_originalToExposed p !! co_Name o) ops
  end.

Definition applyOperation (p : Policy) (o : CatalogOperation) (exposed : string) : CatalogOperation :=
  {| op_ID := exposed; op_ProviderID := op_ProviderID o; op_Method := op_Method o;
     op_Path := op_Path o; op_Title := op_Title o;
     op_Description := default (op_Description o) (pl_descriptions p !! exposed);
     op_InputSchema := op_InputSchema o; op_OutputSchema := op_OutputSchema o;
     op_Response := op_Response o; op_Annotations := op_Annotations o;
     op_AllowedRoles := default (op_AllowedRoles o) (pl_allowedRoles p !! exposed);
     op_Parameters := op_Parameters o; op_RequiredScopes := op_RequiredScopes o;
     op_Tags := match pl_tags p !! exposed with
                | Some tags => MergeTags ToLower [op_Tags o; tags]
                | None => op_Tags o
                end;
     op_ReadOnly := op_ReadOnly o; op_Visible := op_Visible o;
     op_API := match pl_api p !! exposed with Some m => Some m | None => op_API o end;
     op_MCP := match pl_mcp p !! exposed with Some b => Some b | None => op_MCP o end;
     op_Transport := op_Transport o; op_Query := op_Query o;
     op_OperationName := op_OperationName o |}.

Definition ApplyCatalog (p : option Policy) (cat : option Catalog) : option Catalog :=
  match cat, p with
  | None, _ => None
  | Some cat, None => Some (Clone cat)
  | Some cat, Some p =>
      Some (set_Operations (Clone cat)
        (omap (λ o, applyOperation p o <$> pl_originalToExposed p !! op_ID o) (cat_Operations cat)))
  end.

Definition MatchingAllowedOperations (allowed : option (gmap string (option OperationOverride)))
    (cat : option Catalog) : option (gmap string (option OperationOverride)) :=
  match allowed, cat with
  | Some allowed, Some cat =>
      if decide (cat_Operations cat = [] :> list CatalogOperation) then None
      else if decide (allowed = ∅) then Some allowed
      else let available : gset string := list_to_set (map op_ID (cat_Operations cat)) in
           let filtered := filter (λ kv, kv.1 ∈ available) allowed in
           if decide (filtered = ∅) then None else Some filtered
  | _, _ => None
  end.

(** ** The loop, in closed form *)

Definition entry := (string * option OperationOverride)%type.
Definition addEntry (p : Policy) (en : entry) : Policy :=
  addOverride p en.1 (exposedName en.1 en.2) en.2.
Definition exposed_of (en : entry) : string := exposedName en.1 en.2.

Lemma newLoop_err entries p names cs e :
  newLoop entries p names cs = Err e ↔
  ∃ en, en ∈ entries ∧ validMode en.2 = false ∧
        (∃ pre post, entries = pre ++ en :: post ∧ Forall (λ en, validMode en.2 = true) pre) ∧
        e = ErrInvalidMode en.1 (default "" (en.2 ≫= ov_API)).
Proof.
  revert p names cs. induction entries as [|[o v] entries IH]; intros p names cs; cbn [newLoop].
  { split; [done|]. intros (en & ?%elem_of_nil & _). done. }
  destruct (validMode v) eqn:Ev; cbn [negb].
  - rewrite IH. split; intros (en & Hin & Hv & (pre & post & Heq & Hall) & ->).
    + exists en. split; [by right|]. split; [done|]. split; [|done].
      exists ((o, v) :: pre), post. rewrite Heq. split; [done|]. by constructor.
    + exists en. destruct pre as [|x pre]; injection Heq as <- ->; [simpl in Hv; congruence|].
      apply Forall_cons in Hall as [_ Hall]. split; [apply elem_of_app; right; by left|].
      split; [done|]. split; [|done]. by exists pre, post.
  - split.
    + intros [= <-]. exists (o, v). split; [by left|]. split; [done|]. split; [|done]. by exists [], entries.
    + intros (en & Hin & Hv & (pre & post & Heq & Hall) & ->).
      destruct pre as [|x pre]; injection Heq as <- ->; [done|].
      apply Forall_cons in Hall as [Hx _]. simpl in Hx. congruence.
Qed.

Lemma newLoop_ok entries p names cs r :
  newLoop entries p names cs = Ok r →
  Forall (λ en, validMode en.2 = true) entries ∧ r.1 = foldl addEntry p entries ∧
  (r.2 = [] ↔ cs = [] ∧ NoDup (map exposed_of entries) ∧
              ∀ en, en ∈ entries → names !! exposed_of en = None).
Proof.
  revert p names cs. induction entries as [|[o v] entries IH]; intros p names cs; cbn [newLoop].
  { intros [= <-]. split; [constructor|]. split; [done|]. simpl. split; [|naive_solver].
    intros ->. split; [done|]. split; [constructor|]. by intros en ?%elem_of_nil. }
  destruct (validMode v) eqn:Ev; cbn [negb]; [|done]. intros H.
  apply IH in H as (Hall & Hp & Hcs). split; [by constructor|]. split; [done|].
  rewrite Hcs. clear Hcs IH. cbn [map]. rewrite NoDup_cons.
  change (exposedName o v) with (exposed_of (o, v)).
  assert (Hnames : (∀ en, en ∈ entries → <[exposed_of (o, v) := o]> names !! exposed_of en = None) ↔
    exposed_of (o, v) ∉ map exposed_of entries ∧ ∀ en, en ∈ entries → names !! exposed_of en = None).
  { setoid_rewrite lookup_insert_None. split.
    - intros Hn. split; [|intros en Hen; by apply Hn]. intros (en & Heq & Hen)%list_elem_of_fmap.
      by apply Hn in Hen as [_ Hne].
    - intros [Hni Hn] en Hen. split; [by apply Hn|]. intros Heq. apply Hni. rewrite Heq.
      by apply list_elem_of_fmap_2. }
  rewrite Hnames. setoid_rewrite elem_of_cons.
  destruct (names !! exposed_of (o, v)) as [ex|] eqn:En.
  - split; [by intros ([_ [=]]%app_nil & _)|].
    intros (_ & _ & Hn). specialize (Hn (o, v) (or_introl eq_refl)). congruence.
  - split; [|naive_solver]. intros (-> & Hnd & Hni & Hn). split_and!; try done.
    intros en [->|Hen]; [done|by apply Hn].
Qed.

(** *** Entries with distinct names commute *)

Definition distinct_entries (entries : list entry) : Prop :=
  NoDup entries.*1 ∧ NoDup (map exposed_of entries).

Lemma addEntry_comm p a b :
  a.1 ≠ b.1 → exposed_of a ≠ exposed_of b →
  addEntry (addEntry p a) b = addEntry (addEntry p b) a.
Proof.
  destruct a as [o1 v1], b as [o2 v2]. unfold addEntry, exposed_of. cbn [fst snd]. intros Ho He.
  unfold addOverride. cbn [pl_exposedToOriginal pl_originalToExposed pl_descriptions
    pl_allowedRoles pl_tags pl_api pl_mcp].
  f_equal; try (by apply insert_insert_ne); destruct v1 as [v1|], v2 as [v2|]; try done;
    repeat case_match; try done; try case_decide; try done; by apply insert_insert_ne.
Qed.

Lemma foldl_addEntry_perm p l1 l2 :
  l1 ≡ₚ l2 → distinct_entries l1 → foldl addEntry p l1 = foldl addEntry p l2.
Proof.
  intros Hp. revert p. induction Hp as [|x l1 l2 Hp IH|x y l|l1 l2 l3 H12 IH1 H23 IH2];
    intros p [Hnd Hex]; simpl in *.
  - done.
  - apply IH. split; [by apply NoDup_cons in Hnd as [_ ?]|by apply NoDup_cons in Hex as [_ ?]].
  - rewrite addEntry_comm; [done| |].
    + apply NoDup_cons in Hnd as [H _]. intros Heq. apply H. rewrite Heq. by left.
    + apply NoDup_cons in Hex as [H _]. intros Heq. apply H. rewrite Heq. by left.
  - rewrite IH1 by done. apply IH2. split; [by rewrite <-H12|]. unfold exposed_of in *.
    by rewrite <-H12.
Qed.

(** *** The name maps of the policy *)

Lemma addEntry_original l p :
  NoDup l.*1 → (∀ en, en ∈ l → pl_originalToExposed p !! en.1 = None) →
  ∀ o e, pl_originalToExposed (foldl addEntry p l) !! o = Some e ↔
         pl_originalToExposed p !! o = Some e ∨ ∃ en, en ∈ l ∧ en.1 = o ∧ exposed_of en = e.
Proof.
  revert p. induction l as [|x l IH]; intros p Hnd Hfree o e; simpl.
  { split; [by left|]. by intros [?|(en & ?%elem_of_nil & _)]. }
  apply NoDup_cons in Hnd as [Hx Hnd]. rewrite IH; [|done|].
  - cbn [addEntry addOverride pl_originalToExposed]. rewrite lookup_insert_Some.
    setoid_rewrite elem_of_cons. split.
    + intros [[[<- <-]|[_ H]]|(en & Hen & H)]; [right; by eauto|by left|right; by eauto].
    + intros [H|(en & [->|Hen] & <- & <-)]; [left; right|left; left; done|right; by eauto].
      split; [|done]. intros Heq. specialize (Hfree x ltac:(by left)). congruence.
  - intros en Hen. cbn [addEntry addOverride pl_originalToExposed].
    rewrite lookup_insert_ne; [apply Hfree; by right|].
    intros Heq. apply Hx. rewrite Heq. by apply list_elem_of_fmap_2.
Qed.

Lemma addEntry_exposed l p :
  NoDup (map exposed_of l) → (∀ en, en ∈ l → pl_exposedToOriginal p !! exposed_of en = None) →
  ∀ e o, pl_exposedToOriginal (foldl addEntry p l) !! e = Some o ↔
         pl_exposedToOriginal p !! e = Some o ∨ ∃ en, en ∈ l ∧ en.1 = o ∧ exposed_of en = e.
Proof.
  revert p. induction l as [|x l IH]; intros p Hnd Hfree e o; simpl.
  { split; [by left|]. by intros [?|(en & ?%elem_of_nil & _)]. }
  apply NoDup_cons in Hnd as [Hx Hnd]. rewrite IH; [|done|].
  - cbn [addEntry addOverride pl_exposedToOriginal]. rewrite lookup_insert_Some.
    setoid_rewrite elem_of_cons. split.
    + intros [[[<- <-]|[_ H]]|(en & Hen & H)]; [right; by eauto|by left|right; by eauto].
    + intros [H|(en & [->|Hen] & <- & <-)]; [left; right|left; left; done|right; by eauto].
      split; [|done]. intros Heq. specialize (Hfree x ltac:(by left)).
      unfold exposed_of in Hfree. congruence.
  - intros en Hen. cbn [addEntry addOverride pl_exposedToOriginal].
    rewrite lookup_insert_ne; [apply Hfree; by right|].
    intros Heq. apply Hx. unfold exposed_of in *. rewrite Heq. by apply (list_elem_of_fmap_2 exposed_of).
Qed.

(** *** [NewIn] *)

Lemma NewIn_ok entries p :
  NewIn entries = Ok p ↔
  Forall (λ en, validMode en.2 = true) entries ∧ NoDup (map exposed_of entries) ∧
  p = foldl addEntry emptyPolicy entries.
Proof.
  unfold NewIn. destruct (newLoop entries emptyPolicy ∅ []) as [r|e] eqn:E; cbn [rbind].
  - apply newLoop_ok in E as (Hall & Hp & Hcs). case_bool_decide as Hne.
    + split; [done|]. intros (_ & Hnd & _). destruct Hne. apply Hcs. split; [done|]. split; [done|].
      intros. apply lookup_empty.
    + assert (r.2 = []) as Hr by (destruct (decide (r.2 = [])); tauto).
      apply Hcs in Hr as (_ & Hnd & _). rewrite Hp. naive_solver.
  - split; [done|]. intros (Hall & _ & _).
    apply newLoop_err in E as (en & Hin & Hv & _). rewrite Forall_forall in Hall.
    specialize (Hall en Hin). congruence.
Qed.

(** An enumeration of a Go map. *)
Definition enumerates (order : gmap string (option OperationOverride) → list entry) : Prop :=
  ∀ m, order m ≡ₚ map_to_list m.

Lemma order_entry order m o v : enumerates order → (o, v) ∈ order m ↔ m !! o = Some v.
Proof. intros Hord. rewrite (Hord m). apply elem_of_map_to_list. Qed.

Lemma order_keys order m : enumerates order → NoDup (order m).*1.
Proof. intros Hord. rewrite (Hord m). apply NoDup_fst_map_to_list. Qed.

(** Distinct exposed names, said of the map. *)
Definition exposes_apart (m : gmap string (option OperationOverride)) : Prop :=
  ∀ o1 o2 v1 v2, m !! o1 = Some v1 → m !! o2 = Some v2 →
    exposedName o1 v1 = exposedName o2 v2 → o1 = o2.

Lemma exposed_NoDup order m :
  enumerates order → NoDup (map exposed_of (order m)) ↔ exposes_apart m.
Proof.
  intros Hord. split.
  - intros Hnd o1 o2 v1 v2 H1 H2 Heq.
    apply (order_entry order) in H1, H2; [|done..].
    apply list_elem_of_lookup in H1 as [i Hi], H2 as [j Hj].
    assert (i = j) as <-; [|congruence].
    assert (∀ k en, order m !! k = Some en → (exposed_of <$> order m) !! k = Some (exposed_of en)) as Hk
      by (intros k en Hen; by rewrite list_lookup_fmap, Hen).
    apply (NoDup_lookup (exposed_of <$> order m) i j (exposedName o2 v2) Hnd).
    + rewrite <-Heq. exact (Hk i _ Hi).
    + exact (Hk j _ Hj).
  - intros Hap. apply NoDup_fmap_2_strong.
    + intros [o1 v1] [o2 v2] H1 H2 Heq. apply (order_entry order) in H1, H2; [|done..].
      assert (o1 = o2) as <- by (by eapply Hap). congruence.
    + rewrite (Hord m). apply NoDup_map_to_list.
Qed.

Lemma New_ok order m p :
  enumerates order →
  New order (Some m) = Ok (Some p) ↔
  m ≠ ∅ ∧ (∀ o v, m !! o = Some v → validMode v = true) ∧ exposes_apart m ∧
  p = foldl addEntry emptyPolicy (order m).
Proof.
  intros Hord. cbn [New]. case_bool_decide as Hm; [naive_solver|].
  assert (Hval : Forall (λ en, validMode en.2 = true) (order m) ↔
                 ∀ o v, m !! o = Some v → validMode v = true).
  { rewrite Forall_forall. split.
    - intros H o v Hov. apply (H (o, v)). by apply order_entry.
    - intros H [o v] Hov. apply order_entry in Hov; [|done]. by eapply H. }
  rewrite rbind_ok. split.
  - intros (q & Hq & [= <-]). apply NewIn_ok in Hq as (Hv & Hnd & ->).
    rewrite exposed_NoDup in Hnd by done. tauto.
  - intros (_ & Hv & Hap & ->). eexists. split; [|done].
    apply NewIn_ok. rewrite exposed_NoDup by done. tauto.
Qed.

Lemma New_not_nil order m : New order (Some m) ≠ Ok None.
Proof. cbn [New]. case_match; [done|]. by destruct (NewIn (order m)). Qed.

(** The two name maps of a policy mirror the configuration and each other. *)
Lemma New_maps order m p :
  enumerates order → New order (Some m) = Ok (Some p) →
  (∀ o e, pl_originalToExposed p !! o = Some e ↔ ∃ v, m !! o = Some v ∧ exposedName o v = e) ∧
  (∀ e o, pl_exposedToOriginal p !! e = Some o ↔ pl_originalToExposed p !! o = Some e).
Proof.
  intros Hord Hp. pose proof (proj1 (New_ok _ _ _ Hord) Hp) as (_ & _ & Hap & ->).
  assert (Hent : ∀ o e, (∃ en, en ∈ order m ∧ en.1 = o ∧ exposed_of en = e) ↔
                        ∃ v, m !! o = Some v ∧ exposedName o v = e).
  { intros o e. split.
    - intros ([o' v] & Hin & <- & <-). exists v. split; [by apply order_entry in Hin|done].
    - intros (v & Hv & <-). exists (o, v). split; [by apply order_entry|done]. }
  assert (Ho : ∀ o e, pl_originalToExposed (foldl addEntry emptyPolicy (order m)) !! o = Some e ↔
                      ∃ v, m !! o = Some v ∧ exposedName o v = e).
  { intros o e. rewrite addEntry_original; [|by apply order_keys|by intros].
    rewrite Hent. cbn [emptyPolicy pl_originalToExposed]. rewrite lookup_empty. naive_solver. }
  split; [done|]. intros e o. rewrite Ho, addEntry_exposed; [|by apply exposed_NoDup|by intros].
  rewrite Hent. cbn [emptyPolicy pl_exposedToOriginal]. rewrite lookup_empty. naive_solver.
Qed.

(** [New] accepts a configuration exactly when it is not empty, every
    exposure mode is valid and no two operations are exposed under the same name;
    the policy's two name maps are then inverse to each other and hold exactly the
    configured names.  What it accepts does not depend on the order in which Go
    ranges over the map, and neither does the policy. *)
Theorem New_correct order order' m :
  enumerates order → enumerates order' →
  (is_ok (New order (Some m)) = true ↔
   m ≠ ∅ ∧ (∀ o v, m !! o = Some v → validMode v = true) ∧ exposes_apart m) ∧
  (∀ p, New order (Some m) = Ok (Some p) →
     New order' (Some m) = Ok (Some p) ∧
     (∀ o e, pl_originalToExposed p !! o = Some e ↔ ∃ v, m !! o = Some v ∧ exposedName o v = e) ∧
     (∀ e o, Resolve (Some p) e = Some o ↔ pl_originalToExposed p !! o = Some e)).
Proof.
  intros Hord Hord'. split.
  - split.
    + destruct (New order (Some m)) as [[p|]|] eqn:E; [|by apply New_not_nil in E|done].
      intros _. apply New_ok in E; [|done]. tauto.
    + intros (H1 & H2 & H3). assert (New order (Some m) = Ok (Some (foldl addEntry emptyPolicy (order m))))
        as -> by (by apply New_ok). done.
  - intros p Hp. split; [|exact (New_maps _ _ _ Hord Hp)].
    pose proof (proj1 (New_ok _ _ _ Hord) Hp) as (H1 & H2 & H3 & ->).
    apply New_ok; [done|]. split_and!; [done..|].
    apply foldl_addEntry_perm.
    + by rewrite (Hord m), (Hord' m).
    + split; [by apply order_keys|by apply exposed_NoDup].
Qed.

(** [ApplyCatalog] exposes exactly the allowed operations of the catalog:
    an operation is listed under a name exactly when that name resolves to the id
    of an operation of the catalog, so that calling a listed name always resolves;
    when the catalog's ids are distinct the listed names are too. *)
Theorem ApplyCatalog_exposes_allowed order m p cat cat' :
  enumerates order → New order (Some m) = Ok (Some p) →
  ApplyCatalog (Some p) (Some cat) = Some cat' →
  (∀ name, name ∈ map op_ID (cat_Operations cat') ↔
     ∃ id, id ∈ map op_ID (cat_Operations cat) ∧ Resolve (Some p) name = Some id) ∧
  (NoDup (map op_ID (cat_Operations cat)) → NoDup (map op_ID (cat_Operations cat'))).
Proof.
  intros Hord Hp [= <-]. destruct (New_maps _ _ _ Hord Hp) as [_ Hinv]. cbn [set_Operations cat_Operations].
  assert (Hids : map op_ID (omap (λ o, applyOperation p o <$> pl_originalToExposed p !! op_ID o)
                    (cat_Operations cat))
                 = omap (λ id, pl_originalToExposed p !! id) (map op_ID (cat_Operations cat))).
  { induction (cat_Operations cat) as [|o ops IH]; [done|]. cbn [map]. simpl.
    destruct (pl_originalToExposed p !! op_ID o); simpl; [|exact IH].
    exact (f_equal (cons _) IH). }
  rewrite Hids. split.
  - intros name. rewrite list_elem_of_omap. cbn [Resolve]. setoid_rewrite Hinv. done.
  - clear Hids. intros Hnd. induction (map op_ID (cat_Operations cat)) as [|id ids IH]; [constructor|].
    apply NoDup_cons in Hnd as [Hid Hnd]. simpl.
    destruct (pl_originalToExposed p !! id) as [e|] eqn:E; [|by apply IH].
    constructor; [|by apply IH]. intros (id' & Hid' & E')%list_elem_of_omap.
    apply Hinv in E, E'. congruence.
Qed.
End with_lower.

(** ** Examples *)

Definition alias (name : string) : option OperationOverride :=
  Some {| ov_Alias := name; ov_Description := ""; ov_AllowedRoles := None; ov_Tags := [];
          ov_API := None; ov_MCP := None; ov_Paginate := false; ov_Pagination := None;
          ov_GraphQL := None |}.
Definition sample_allowed : gmap string (option OperationOverride) :=
  {[ "issues.list" := alias "list_issues"; "issues.get" := None ]}.
Definition sample_catalog : Catalog :=
  {| cat_Name := "github"; cat_DisplayName := ""; cat_Description := ""; cat_IconSVG := "";
     cat_BaseURL := ""; cat_AuthStyle := ""; cat_Headers := ∅;
     cat_Operations := [zero_operation "issues.list"; zero_operation "repos.list"] |}.

Lemma map_to_list_enumerates : enumerates (λ m, map_to_list m).
Proof. by intros m. Qed.

Lemma New_correct_witness :
  is_ok (New id (λ m, map_to_list m) (Some sample_allowed)) = true ↔
  sample_allowed ≠ ∅ ∧ (∀ o v, sample_allowed !! o = Some v → validMode v = true) ∧
  exposes_apart sample_allowed.
Proof.
  apply (New_correct id _ (λ m, map_to_list m) sample_allowed map_to_list_enumerates
           map_to_list_enumerates).
Defined.

Lemma ApplyCatalog_exposes_allowed_witness :
  ∃ p cat', ApplyCatalog id (Some p) (Some sample_catalog) = Some cat' ∧
    NoDup (map op_ID (cat_Operations cat')).
Proof.
  destruct (New id (λ m, map_to_list m) (Some sample_allowed)) as [[p|]|] eqn:E;
    [|vm_compute in E; discriminate..].
  eexists p, _. split; [reflexivity|].
  apply (ApplyCatalog_exposes_allowed id (λ m, map_to_list m) sample_allowed p sample_catalog _
           map_to_list_enumerates E eq_refl).
  vm_compute. apply (bool_decide_unpack _). vm_compute. exact I.
Defined.
End OperationPolicy.
