(* ===== verification/Retention.v ===== *)
(** * Retention: how long published app versions stay deployable

    Models [gestaltd/internal/appregistry/retention.go] (the retention overlay of an
    app's published versions and the deployment state derived from it),
    [gestaltd/internal/appregistry/retention_prune.go] (what a prune may delete) and the
    round of [pruneAppRegistryRetention] in
    [gestaltd/internal/daemon/app_registry_retention.go] that applies the prune actions.

    The operations mutate the index behind a pointer; here they return what the Go
    function returns together with the index afterwards, [None] being a nil pointer.
    Go ranges over a map in any order: the functions that do take the enumeration as
    an argument. *)

From stdpp Require Import base gmap strings list sorting sets.
From Stdlib Require Import ZArith Ascii Lia.
From S2P Require Import Prelude RegistryTypes.

Set Default Goal Selector "!".

Module Retention.

Definition RetentionIndexSchemaVersion : Z := 1.
Definition DefaultUnusedRetention : duration := (72 * Hour)%Z.
Definition DefaultDeployedRetention : duration := (720 * Hour)%Z.
Definition FirstInstallFromVersion : string := "registry:first-install".

Definition DeploymentStateAvailable : string := "available".
Definition DeploymentStateExpired : string := "expired".
Definition DeploymentStateDesired : string := "desired".
Definition DeploymentStateRedeployable : string := "redeployable".
Definition DeploymentStateLocked : string := "locked".

Record RetentionVersion := {
  rv_PublishedAt : time;
  rv_EverDeployed : bool;
  rv_ExpiresAt : option time }.

Record RetentionIndex := {
  ri_SchemaVersion : Z;
  ri_Versions : option (gmap string RetentionVersion) }.

Record RetentionPolicy := {
  rp_UnusedRetention : duration;
  rp_DeployedRetention : duration }.

Definition DefaultRetentionPolicy : RetentionPolicy :=
  {| rp_UnusedRetention := DefaultUnusedRetention;
     rp_DeployedRetention := DefaultDeployedRetention |}.

Definition NewEmptyRetentionIndex : RetentionIndex :=
  {| ri_SchemaVersion := RetentionIndexSchemaVersion; ri_Versions := Some ∅ |}.

Definition cloneTimePtr (value : option time) : option time :=
  match value with
  | Some t => if IsZero t then None else Some t
  | None => None
  end.

Definition timePtrEqual (a b : option time) : bool :=
  match a, b with
  | Some a, Some b => Equal a b
  | None, None => true
  | _, _ => false
  end.

(** What the JSON of a row holds: [deployableUntil] is the field's former name. *)
Record retentionVersionJSON := {
  rj_PublishedAt : time;
  rj_EverDeployed : bool;
  rj_ExpiresAt : option time;
  rj_DeployableUntil : option time }.

Definition UnmarshalRetentionVersion (raw : retentionVersionJSON) : RetentionVersion :=
  {| rv_PublishedAt := rj_PublishedAt raw;
     rv_EverDeployed := rj_EverDeployed raw;
     rv_ExpiresAt :=
       match rj_ExpiresAt raw, rj_DeployableUntil raw with
       | None, Some until => if negb (IsZero until) then cloneTimePtr (Some until) else None
       | expiresAt, _ => expiresAt
       end |}.

(** ** Validation *)

Inductive RetentionError :=
  | ErrIndexRequired
  | ErrUnsupportedSchema (v : Z)
  | ErrVersionsRequired
  | ErrVersionRequired (key : string)
  | ErrInvalidVersion (key : string)
  | ErrPublishedAtRequired (key : string)
  | ErrExpiresAtZero (key : string)
  | ErrAppVersionAlreadyInstalled
  | ErrAppVersionExpired
  | ErrAppVersionLocked.

Section validation.
(** [IsValid] and [Canonical] of the third-party package [golang.org/x/mod/semver]. *)
Context (IsValid : string → bool) (Canonical : string → string).

(** The part of a version before its build metadata. *)
Fixpoint beforePlus (s : string) : string :=
  match s with
  | EmptyString => EmptyString
  | String c s => if decide (c = "+"%char) then EmptyString else String c (beforePlus s)
  end.

(** [semvervalidate.Valid], which [source.ValidateVersion] turns into an error. *)
Definition ValidVersion (version : string) : bool :=
  let version := TrimSpace version in
  if bool_decide (version = "") || HasPrefix version "v" then false
  else
    let canonical := "v" +:+ version in
    if negb (IsValid canonical) then false
    else bool_decide (Canonical canonical = beforePlus canonical).

Definition validateRetentionVersion (mapKey : string) (entry : RetentionVersion)
    : result RetentionError unit :=
  let version := TrimSpace mapKey in
  fail_if bool_decide (version = "") with ErrVersionRequired mapKey ;;
  fail_if negb (ValidVersion version) with ErrInvalidVersion mapKey ;;
  fail_if IsZero (rv_PublishedAt entry) with ErrPublishedAtRequired mapKey ;;
  fail_if (match rv_ExpiresAt entry with Some t => IsZero t | None => false end)
    with ErrExpiresAtZero mapKey ;;
  Ok tt.

Definition validateRetentionIndex
    (order : gmap string RetentionVersion → list (string * RetentionVersion))
    (index : option RetentionIndex) : result RetentionError unit :=
  match index with
  | None => Err ErrIndexRequired
  | Some index =>
      fail_if negb (ri_SchemaVersion index =? RetentionIndexSchemaVersion)%Z
        with ErrUnsupportedSchema (ri_SchemaVersion index) ;;
      match ri_Versions index with
      | None => Err ErrVersionsRequired
      | Some versions => each (λ kv, validateRetentionVersion kv.1 kv.2) (order versions)
      end
  end.
End validation.

(** ** Publishing and deploying *)

Definition versions_of (index : RetentionIndex) : gmap string RetentionVersion :=
  default ∅ (ri_Versions index).

Definition set_versions (index : RetentionIndex) (vs : gmap string RetentionVersion)
    : RetentionIndex :=
  {| ri_SchemaVersion := ri_SchemaVersion index; ri_Versions := Some vs |}.

Definition UpsertPublishedRetention (index : option RetentionIndex) (version : string)
    (publishedAt : time) (policy : RetentionPolicy) : bool * option RetentionIndex :=
  match index with
  | None => (false, None)
  | Some index =>
      let versions := versions_of index in
      let version := TrimSpace version in
      let expiresAt := (publishedAt + rp_UnusedRetention policy)%Z in
      match versions !! version with
      | Some existing =>
          if Equal (rv_PublishedAt existing) publishedAt &&
             timePtrEqual (rv_ExpiresAt existing) (Some expiresAt)
          then (false, Some (set_versions index versions))
          else
            let existing :=
              {| rv_PublishedAt := publishedAt;
                 rv_EverDeployed := rv_EverDeployed existing;
                 rv_ExpiresAt := if rv_EverDeployed existing then rv_ExpiresAt existing
                                 else cloneTimePtr (Some expiresAt) |} in
            (true, Some (set_versions index (<[version := existing]> versions)))
      | None =>
          let entry := {| rv_PublishedAt := publishedAt; rv_EverDeployed := false;
                          rv_ExpiresAt := cloneTimePtr (Some expiresAt) |} in
          (true, Some (set_versions index (<[version := entry]> versions)))
      end
  end.

(** The row of the version that is replaced, and of the one that replaces it. *)
Definition retire (policy : RetentionPolicy) (now : time) (entry : option RetentionVersion)
    : RetentionVersion :=
  {| rv_PublishedAt := default now (rv_PublishedAt <$> entry);
     rv_EverDeployed := true;
     rv_ExpiresAt := cloneTimePtr (Some (now + rp_DeployedRetention policy)%Z) |}.

Definition promote (now : time) (entry : option RetentionVersion) : RetentionVersion :=
  {| rv_PublishedAt := default now (rv_PublishedAt <$> entry);
     rv_EverDeployed := true;
     rv_ExpiresAt := None |}.

Definition ApplyDesiredVersionTransition (index : option RetentionIndex)
    (fromVersion toVersion : string) (policy : RetentionPolicy) (now : time)
    : bool * option RetentionIndex :=
  match index with
  | None => (false, None)
  | Some index =>
      let versions := versions_of index in
      let fromVersion := TrimSpace fromVersion in
      let toVersion := TrimSpace toVersion in
      let retires := bool_decide (fromVersion ≠ "" ∧ fromVersion ≠ FirstInstallFromVersion) in
      let versions :=
        if retires
        then <[fromVersion := retire policy now (versions !! fromVersion)]> versions
        else versions in
      let promotes := bool_decide (toVersion ≠ "") in
      let versions :=
        if promotes then <[toVersion := promote now (versions !! toVersion)]> versions
        else versions in
      (retires || promotes, Some (set_versions index versions))
  end.

(** ** Deployment states *)

Definition retentionVersion (index : option RetentionIndex) (version : string)
    : option RetentionVersion :=
  index ← index; versions ← ri_Versions index; versions !! TrimSpace version.

Definition VersionDeploymentState (version desiredVersion : string)
    (retention : option RetentionIndex) (policy : RetentionPolicy) (now : time)
    : string * option time :=
  let version := TrimSpace version in
  let desiredVersion := TrimSpace desiredVersion in
  if bool_decide (version = desiredVersion ∧ version ≠ "") then (DeploymentStateDesired, None)
  else
    match retentionVersion retention version with
    | None => (DeploymentStateAvailable, None)
    | Some entry =>
        if rv_EverDeployed entry then
          match rv_ExpiresAt entry with
          | Some expiresAt =>
              if IsZero expiresAt then (DeploymentStateRedeployable, None)
              else if Before now expiresAt
              then (DeploymentStateRedeployable, cloneTimePtr (Some expiresAt))
              else (DeploymentStateLocked, cloneTimePtr (Some expiresAt))
          | None => (DeploymentStateRedeployable, None)
          end
        else
          let byPublication :=
            if Before now (rv_PublishedAt entry + rp_UnusedRetention policy)%Z
            then (DeploymentStateAvailable, None) else (DeploymentStateExpired, None) in
          match rv_ExpiresAt entry with
          | Some expiresAt =>
              if negb (IsZero expiresAt) then
                if Before now expiresAt then (DeploymentStateAvailable, None)
                else (DeploymentStateExpired, None)
              else byPublication
          | None => byPublication
          end
    end.

Definition VersionSelectable (version desiredVersion : string) (retention : option RetentionIndex)
    (policy : RetentionPolicy) (now : time) : result RetentionError unit :=
  let state := (VersionDeploymentState version desiredVersion retention policy now).1 in
  if bool_decide (state = DeploymentStateAvailable ∨ state = DeploymentStateRedeployable) then Ok tt
  else if bool_decide (state = DeploymentStateDesired) then Err ErrAppVersionAlreadyInstalled
  else if bool_decide (state = DeploymentStateExpired) then Err ErrAppVersionExpired
  else if bool_decide (state = DeploymentStateLocked) then Err ErrAppVersionLocked
  else Err ErrAppVersionExpired.

Definition RetryVersionSelectable (version : string) (retention : option RetentionIndex)
    (policy : RetentionPolicy) (now : time) : result RetentionError unit :=
  VersionSelectable version "" retention policy now.

Definition DeployedVersionsFromRetention (index : option RetentionIndex) : gset string :=
  match index with
  | Some index => dom (filter (λ kv, rv_EverDeployed kv.2 = true) (versions_of index))
  | None => ∅
  end.

Definition RetentionExpired (entry : RetentionVersion) (now : time) : bool :=
  match rv_ExpiresAt entry with
  | Some expiresAt => if IsZero expiresAt then false else negb (Before now expiresAt)
  | None => false
  end.

Definition RemoveRetentionVersion (index : option RetentionIndex) (version : string)
    : bool * option RetentionIndex :=
  match index with
  | None => (false, None)
  | Some index =>
      match ri_Versions index with
      | None => (false, Some index)
      | Some versions =>
          let version := TrimSpace version in
          match versions !! version with
          | None => (false, Some index)
          | Some _ => (true, Some (set_versions index (delete version versions)))
          end
      end
  end.

Definition UnusedVersionExpired (entry : RetentionVersion) (policy : RetentionPolicy) (now : time)
    : bool :=
  if rv_EverDeployed entry then false
  else
    match cloneTimePtr (rv_ExpiresAt entry) with
    | Some _ => RetentionExpired entry now
    | None => negb (Before now (rv_PublishedAt entry + rp_UnusedRetention policy)%Z)
    end.

(** ** The published index, as far as a prune touches it *)

Record PublicationPullRequest := { ppr_Number : Z; ppr_URL : string; ppr_Title : string }.
Record PublicationCommit := { pc_SHA : string; pc_URL : string }.
Record Publication := {
  pu_WorkflowRunURL : string;
  pu_TriggerPullRequest : option PublicationPullRequest;
  pu_TriggerCommit : option PublicationCommit }.
Record LocalSourceState := { ls_CommitSHA : string; ls_Dirty : bool; ls_Untracked : bool }.

Record IndexVersion := {
  iv_Metadata : string;
  iv_Platforms : list string;
  iv_PublishedAt : time;
  iv_PublishStartedAt : option time;
  iv_SourceRef : string;
  iv_Repository : string;
  iv_Publication : option Publication;
  iv_PublicationKind : string;
  iv_PublishID : string;
  iv_BuilderVersion : string;
  iv_DeclarationDigest : string;
  iv_LocalSource : option LocalSourceState }.

(** A nil [Versions] map behaves like an empty one. *)
Record AppVersions := {
  av_DisplayName : string;
  av_Description : string;
  av_Versions : gmap string IndexVersion }.

Record Index := { ix_SchemaVersion : Z; ix_Apps : option (gmap string AppVersions) }.
Definition apps_of (i : Index) : gmap string AppVersions := default ∅ (ix_Apps i).

Definition PublishedVersionKeys (index : option Index) (appName : string) : gset string :=
  match index with
  | Some index =>
      match apps_of index !! appName with
      | Some appVersions => dom (av_Versions appVersions)
      | None => ∅
      end
  | None => ∅
  end.

(** ** Prune actions *)

Definition RetentionPruneDeleteUnused : string := "delete_unused".
Definition RetentionPruneDeleteArtifact : string := "delete_artifact".

Record RetentionPruneAction := { pa_Version : string; pa_Kind : string }.

(** The body of the loop for one row. *)
Definition evaluateRow (published : gset string) (desiredVersion : string)
    (deployedVersions : gset string) (now : time) (version : string) (entry : RetentionVersion)
    : option RetentionPruneAction :=
  if bool_decide (version = desiredVersion) then None
  else
    let everDeployed := bool_decide (version ∈ deployedVersions) || rv_EverDeployed entry in
    if negb (RetentionExpired entry now) then None
    else if negb everDeployed
    then Some {| pa_Version := version; pa_Kind := RetentionPruneDeleteUnused |}
    else if bool_decide (version ∈ published)
    then Some {| pa_Version := version; pa_Kind := RetentionPruneDeleteArtifact |}
    else None.

Definition EvaluateRetentionPrune
    (order : gmap string RetentionVersion → list (string * RetentionVersion))
    (index : option Index) (retention : option RetentionIndex) (appName desiredVersion : string)
    (deployedVersions : gset string) (policy : RetentionPolicy) (now : time)
    : list RetentionPruneAction :=
  match retention with
  | None => []
  | Some retention =>
      let published := PublishedVersionKeys index (TrimSpace appName) in
      let desiredVersion := TrimSpace desiredVersion in
      omap (λ kv, evaluateRow published desiredVersion deployedVersions now kv.1 kv.2)
           (order (versions_of retention))
  end.

Definition ShouldApplyRetentionPruneAction (action : RetentionPruneAction)
    (entry : RetentionVersion) (now : time) : bool :=
  if bool_decide (pa_Kind action = RetentionPruneDeleteUnused)
  then negb (rv_EverDeployed entry) && RetentionExpired entry now
  else if bool_decide (pa_Kind action = RetentionPruneDeleteArtifact)
  then rv_EverDeployed entry && RetentionExpired entry now
  else false.

Definition DeployedVersionsFromChangeRequests (requests : list (option AppVersionChangeRequest))
    : gset string :=
  foldl (λ out request,
    match request with
    | None => out
    | Some request =>
        let version := TrimSpace (cr_ToVersion request) in
        let out := if bool_decide (version ≠ "") then out ∪ {[ version ]} else out in
        let fromVersion := TrimSpace (cr_FromVersion request) in
        if bool_decide (fromVersion ≠ "" ∧ fromVersion ≠ FirstInstallFromVersion)
        then out ∪ {[ fromVersion ]} else out
    end) ∅ requests.

(** Removing a version of the published index drops an app left without versions. *)
Definition removePublished (index : option Index) (appName version : string)
    : bool * option Index :=
  match index with
  | None => (false, None)
  | Some index =>
      match apps_of index !! appName with
      | None => (false, Some index)
      | Some appVersions =>
          match av_Versions appVersions !! version with
          | None => (false, Some index)
          | Some _ =>
              let versions := delete version (av_Versions appVersions) in
              let apps :=
                if bool_decide (versions = ∅) then delete appName (apps_of index)
                else <[appName := {| av_DisplayName := av_DisplayName appVersions;
                                     av_Description := av_Description appVersions;
                                     av_Versions := versions |}]> (apps_of index) in
              (true, Some {| ix_SchemaVersion := ix_SchemaVersion index; ix_Apps := Some apps |})
          end
      end
  end.

Definition ApplyRetentionPruneAction (index : option Index) (retention : option RetentionIndex)
    (appName : string) (action : RetentionPruneAction)
    : bool * option Index * option RetentionIndex :=
  if bool_decide (pa_Kind action ≠ RetentionPruneDeleteUnused) then (false, index, retention)
  else
    let '(indexChanged, index) := removePublished index appName (pa_Version action) in
    let '(removed, retention) := RemoveRetentionVersion retention (pa_Version action) in
    (indexChanged || removed, index, retention).

(** ** One round of a prune

    The round re-reads the retention catalog before each action; [fresh i] is what
    the download for the [i]-th action gives: an error, no object, or the decoded
    index.  The storage calls are an oracle [rm], and the calls made are recorded. *)

Inductive StorageCall :=
  | DeleteEntry (version : string)
  | DeleteArtifacts (version : string).

#[export] Instance StorageCall_eq_dec : EqDecision StorageCall.
Proof. solve_decision. Defined.

Inductive PruneError := ErrDownload | ErrDecode | ErrDelete.

Definition freshRetentionEntryForPrune (downloaded : result PruneError (option RetentionIndex))
    (version : string) : result PruneError (option RetentionVersion) :=
  let! retention := downloaded in
  match retention with
  | None => Ok None
  | Some retention => Ok (versions_of retention !! version)
  end.

Record PruneRound := {
  pr_Index : option Index;
  pr_Retention : option RetentionIndex;
  pr_indexChanged : bool;
  pr_retentionChanged : bool;
  pr_calls : list StorageCall }.

Section round.
Context (rm : StorageCall → bool) (deployedVersions : gset string) (appName : string) (now : time).

(** [if err := delete...; err != nil { return err }] *)
Definition call (c : StorageCall) (st : PruneRound) : bool * PruneRound :=
  (rm c, {| pr_Index := pr_Index st; pr_Retention := pr_Retention st;
            pr_indexChanged := pr_indexChanged st; pr_retentionChanged := pr_retentionChanged st;
            pr_calls := pr_calls st ++ [c] |}).

Definition applyAction (action : RetentionPruneAction) (st : PruneRound)
    : option PruneError * PruneRound :=
  let unused := bool_decide (pa_Kind action = RetentionPruneDeleteUnused) in
  let '(changed, index, retention) :=
    ApplyRetentionPruneAction (pr_Index st) (pr_Retention st) appName action in
  let flag := changed && unused in
  let st := {| pr_Index := index; pr_Retention := retention;
               pr_indexChanged := pr_indexChanged st || flag;
               pr_retentionChanged := pr_retentionChanged st || flag;
               pr_calls := pr_calls st |} in
  let '(ok, st) := if unused then call (DeleteEntry (pa_Version action)) st else (true, st) in
  if negb ok then (Some ErrDelete, st)
  else
    let artifacts := unused || bool_decide (pa_Kind action = RetentionPruneDeleteArtifact) in
    let '(ok, st) := if artifacts then call (DeleteArtifacts (pa_Version action)) st else (true, st) in
    if negb ok then (Some ErrDelete, st) else (None, st).

Fixpoint pruneActions (actions : list RetentionPruneAction)
    (fresh : nat → result PruneError (option RetentionIndex)) (st : PruneRound)
    : option PruneError * PruneRound :=
  match actions with
  | [] => (None, st)
  | action :: rest =>
      let next := λ i, fresh (S i) in
      if bool_decide (pa_Version action ∈ deployedVersions ∧
                      pa_Kind action = RetentionPruneDeleteUnused)
      then pruneActions rest next st
      else
        match freshRetentionEntryForPrune (fresh 0) (pa_Version action) with
        | Err e => (Some e, st)
        | Ok None => pruneActions rest next st
        | Ok (Some entry) =>
            if negb (ShouldApplyRetentionPruneAction action entry now)
            then pruneActions rest next st
            else
              match applyAction action st with
              | (Some e, st) => (Some e, st)
              | (None, st) => pruneActions rest next st
              end
        end
  end.
End round.

(** ** When a version may be selected *)

(** The time from which a row no longer admits its version, if there is one. *)
Definition deadline (policy : RetentionPolicy) (e : RetentionVersion) : option time :=
  match cloneTimePtr (rv_ExpiresAt e) with
  | Some t => Some t
  | None => if rv_EverDeployed e then None
            else Some (rv_PublishedAt e + rp_UnusedRetention policy)%Z
  end.

Definition open_at (now : time) (d : option time) : Prop :=
  match d with Some d => (now < d)%Z | None => True end.

#[export] Instance open_at_dec now d : Decision (open_at now d).
Proof. destruct d; simpl; apply _. Defined.

(** What closes a row: a deployed version is locked, another one expired. *)
Definition closed_error (e : RetentionVersion) : RetentionError :=
  if rv_EverDeployed e then ErrAppVersionLocked else ErrAppVersionExpired.

Lemma VersionSelectable_spec v d retention policy now :
  VersionSelectable v d retention policy now =
    if decide (TrimSpace v = TrimSpace d ∧ TrimSpace v ≠ "") then Err ErrAppVersionAlreadyInstalled
    else match retentionVersion retention v with
         | None => Ok tt
         | Some e => if decide (open_at now (deadline policy e)) then Ok tt
                     else Err (closed_error e)
         end.
Proof.
  unfold VersionSelectable, VersionDeploymentState.
  assert (Htrim : retentionVersion retention (TrimSpace v) = retentionVersion retention v)
    by (unfold retentionVersion; by rewrite TrimSpace_idem).
  destruct (decide (TrimSpace v = TrimSpace d ∧ TrimSpace v ≠ "")) as [Hd|Hd];
    [rewrite (bool_decide_eq_true_2 _ Hd); reflexivity|].
  rewrite (bool_decide_eq_false_2 _ Hd), Htrim.
  destruct (retentionVersion retention v) as [e|]; [|reflexivity].
  unfold deadline, closed_error, cloneTimePtr, Before, IsZero.
  destruct (rv_EverDeployed e), (rv_ExpiresAt e) as [t|]; cbn [open_at negb];
    try destruct (t =? 0)%Z; cbn [open_at negb]; try reflexivity.
  all: match goal with |- context [(?a <? ?b)%Z] => destruct (Z.ltb_spec a b) end.
  all: match goal with |- context [decide ?P] => destruct (decide P) as [Ho|Ho] end.
  all: try (exfalso; cbn in Ho; lia); reflexivity.
Qed.

(** ** What the operations do to the rows *)

Definition rows (index : option RetentionIndex) : gmap string RetentionVersion :=
  default ∅ (versions_of <$> index).

Lemma retentionVersion_rows index v : retentionVersion index v = rows index !! TrimSpace v.
Proof.
  unfold retentionVersion, rows, versions_of. destruct index as [i|]; simpl; [|by rewrite lookup_empty].
  destruct (ri_Versions i); simpl; [done|by rewrite lookup_empty].
Qed.

Lemma rows_set i vs : rows (Some (set_versions i vs)) = vs.
Proof. done. Qed.

(** A version that is published again keeps what its deployment gave it. *)
Definition published_row (policy : RetentionPolicy) (at_ : time) (old : option RetentionVersion)
    : RetentionVersion :=
  let ever := default false (rv_EverDeployed <$> old) in
  {| rv_PublishedAt := at_; rv_EverDeployed := ever;
     rv_ExpiresAt := if ever then old ≫= rv_ExpiresAt
                     else cloneTimePtr (Some (at_ + rp_UnusedRetention policy)%Z) |}.

Lemma Upsert_rows i v at_ policy :
  rows (Some i) !! TrimSpace v = None ∨
  (∀ e, rows (Some i) !! TrimSpace v = Some e → rv_ExpiresAt e ≠ Some 0%Z) →
  rows (UpsertPublishedRetention (Some i) v at_ policy).2 =
    <[TrimSpace v := published_row policy at_ (rows (Some i) !! TrimSpace v)]> (rows (Some i)).
Proof.
  intros Hz. unfold UpsertPublishedRetention. change (versions_of i) with (rows (Some i)) in *.
  destruct (rows (Some i) !! TrimSpace v) as [e|] eqn:E; [|done].
  destruct (Equal _ _ && timePtrEqual _ _) eqn:Heq; [|cbn [snd]; rewrite rows_set].
  - cbn [snd]. rewrite rows_set. symmetry. apply insert_id. rewrite E. f_equal.
    apply andb_prop in Heq as [Hp Hx]. unfold published_row, Equal in *. cbn [fmap option_fmap option_map default].
    apply Z.eqb_eq in Hp. destruct e as [p ever x]. cbn in *. subst p. f_equal.
    destruct x as [x|]; [|done]. cbn in *. apply Z.eqb_eq in Hx. subst x.
    destruct ever; [done|]. unfold IsZero. destruct (Z.eqb_spec (at_ + rp_UnusedRetention policy) 0) as [H0|]; [|done].
    destruct Hz as [?|Hz]; [done|]. destruct (Hz _ eq_refl). by rewrite H0.
  - unfold published_row. cbn. destruct (rv_EverDeployed e); [|done]. by destruct (rv_ExpiresAt e).
Qed.

Lemma Transition_rows i from to policy now :
  TrimSpace to ≠ "" →
  rows (ApplyDesiredVersionTransition (Some i) from to policy now).2 =
    let vs := if decide (TrimSpace from ≠ "" ∧ TrimSpace from ≠ FirstInstallFromVersion)
              then <[TrimSpace from := retire policy now (rows (Some i) !! TrimSpace from)]> (rows (Some i))
              else rows (Some i) in
    <[TrimSpace to := promote now (vs !! TrimSpace to)]> vs.
Proof.
  intros Hto. unfold ApplyDesiredVersionTransition. cbn [snd].
  rewrite rows_set, (bool_decide_eq_true_2 (TrimSpace to ≠ "")) by done.
  change (versions_of i) with (rows (Some i)).
  by case_bool_decide; case_decide.
Qed.

Lemma Remove_rows index v : rows (RemoveRetentionVersion index v).2 = delete (TrimSpace v) (rows index).
Proof.
  unfold RemoveRetentionVersion, rows, versions_of.
  destruct index as [i|]; simpl; [|by rewrite delete_empty].
  destruct (ri_Versions i) as [vs|] eqn:E; simpl; [|by rewrite E, delete_empty].
  destruct (vs !! TrimSpace v) eqn:Ev; simpl; [done|]. rewrite E. simpl. by rewrite delete_id.
Qed.

Lemma removePublished_keys index app v :
  PublishedVersionKeys (removePublished index app v).2 app = PublishedVersionKeys index app ∖ {[ v ]}.
Proof.
  unfold removePublished, PublishedVersionKeys. destruct index as [i|]; [|set_solver].
  destruct (apps_of i !! app) as [av|] eqn:Ea; cbn [snd]; [|rewrite Ea; set_solver].
  destruct (av_Versions av !! v) eqn:Ev; cbn [snd].
  - case_bool_decide as Hemp.
    + unfold apps_of at 1. cbn. rewrite lookup_delete_eq, <-dom_delete_L, Hemp. set_solver.
    + unfold apps_of at 1. cbn. rewrite lookup_insert_eq. cbn [av_Versions]. by rewrite dom_delete_L.
  - rewrite Ea. apply not_elem_of_dom in Ev. set_solver.
Qed.

Lemma Apply_unused index retention appName action :
  pa_Kind action = RetentionPruneDeleteUnused →
  ∃ changed, ApplyRetentionPruneAction index retention appName action =
    (changed, (removePublished index appName (pa_Version action)).2,
              (RemoveRetentionVersion retention (pa_Version action)).2).
Proof.
  intros Hk. unfold ApplyRetentionPruneAction. rewrite bool_decide_eq_false_2 by tauto.
  destruct (removePublished _ _ _), (RemoveRetentionVersion _ _). by eexists.
Qed.

(** An action of the other kind changes neither catalog. *)
Lemma Apply_other index retention appName action :
  pa_Kind action ≠ RetentionPruneDeleteUnused →
  ApplyRetentionPruneAction index retention appName action = (false, index, retention).
Proof. intros Hk. unfold ApplyRetentionPruneAction. by rewrite bool_decide_eq_true_2. Qed.

Lemma cloneTimePtr_Some t : (t ≠ 0)%Z → cloneTimePtr (Some t) = Some t.
Proof. intros Ht. unfold cloneTimePtr, IsZero. by destruct (Z.eqb_spec t 0). Qed.

Lemma published_deadline policy t :
  deadline policy (published_row policy t None) = Some (t + rp_UnusedRetention policy)%Z.
Proof.
  unfold deadline, published_row. cbn [fmap option_fmap option_map default rv_ExpiresAt
    rv_EverDeployed rv_PublishedAt].
  destruct (decide (t + rp_UnusedRetention policy = 0)%Z) as [->|Hz]; [done|].
  by rewrite !cloneTimePtr_Some.
Qed.

(** A row decides whether its version may be selected. *)
Lemma selectable_row v d index policy now e :
  rows index !! TrimSpace v = Some e → TrimSpace v ≠ TrimSpace d →
  VersionSelectable v d index policy now =
    if decide (open_at now (deadline policy e)) then Ok tt else Err (closed_error e).
Proof.
  intros He Hne. rewrite VersionSelectable_spec, retentionVersion_rows, He.
  by rewrite decide_False by tauto.
Qed.

Lemma retry_row v index policy now :
  RetryVersionSelectable v index policy now =
    match rows index !! TrimSpace v with
    | Some e => if decide (open_at now (deadline policy e)) then Ok tt else Err (closed_error e)
    | None => Ok tt
    end.
Proof.
  unfold RetryVersionSelectable. rewrite VersionSelectable_spec, retentionVersion_rows.
  rewrite decide_False; [done|]. intros [H1 H2]. apply H2. rewrite H1. reflexivity.
Qed.

(** The windows of a version.  A version that is published is selectable until
    the unused retention has passed and expired afterwards; publishing a deployed
    version again changes nothing about it.  When a deploy replaces [from] by [to],
    [from] can be redeployed until the deployed retention has passed and is locked
    afterwards, [to] is reported as installed and can always be retried, and every
    other version is as selectable as before. *)
Theorem deployment_windows i from to policy t now :
  TrimSpace from = from → TrimSpace to = to → from ≠ "" → from ≠ FirstInstallFromVersion →
  to ≠ "" → from ≠ to → (t + rp_DeployedRetention policy ≠ 0)%Z →
  let deployed := (ApplyDesiredVersionTransition (Some i) from to policy t).2 in
  let publish v := (UpsertPublishedRetention (Some i) v t policy).2 in
  (VersionSelectable from to deployed policy now =
     if decide (now < t + rp_DeployedRetention policy)%Z then Ok tt else Err ErrAppVersionLocked) ∧
  VersionSelectable to to deployed policy now = Err ErrAppVersionAlreadyInstalled ∧
  RetryVersionSelectable to deployed policy now = Ok tt ∧
  (∀ v, TrimSpace v ≠ from → TrimSpace v ≠ to →
     VersionSelectable v to deployed policy now = RetryVersionSelectable v (Some i) policy now) ∧
  (∀ v, retentionVersion (Some i) v = None →
     RetryVersionSelectable v (publish v) policy now =
       if decide (now < t + rp_UnusedRetention policy)%Z then Ok tt else Err ErrAppVersionExpired) ∧
  (∀ v e, retentionVersion (Some i) v = Some e → rv_EverDeployed e = true →
     rv_ExpiresAt e ≠ Some 0%Z →
     RetryVersionSelectable v (publish v) policy now = RetryVersionSelectable v (Some i) policy now).
Proof.
  intros Hf Ht Hf0 Hf1 Ht0 Hne Hz deployed publish.
  assert (Hrows : rows deployed = <[to := promote t (rows (Some i) !! to)]>
                    (<[from := retire policy t (rows (Some i) !! from)]> (rows (Some i)))).
  { subst deployed. rewrite Transition_rows by (by rewrite Ht). rewrite Hf, Ht. cbn zeta.
    rewrite decide_True by done. by rewrite lookup_insert_ne by done. }
  split_and!.
  - rewrite (selectable_row _ _ _ _ _ (retire policy t (rows (Some i) !! from))).
    + apply decide_ext. unfold deadline, retire. cbn [rv_ExpiresAt].
      rewrite !cloneTimePtr_Some by done. exact (iff_refl _).
    + by rewrite Hf, Hrows, lookup_insert_ne, lookup_insert_eq by done.
    + by rewrite Hf, Ht.
  - rewrite VersionSelectable_spec, decide_True; [done|]. by rewrite Ht.
  - by rewrite retry_row, Ht, Hrows, lookup_insert_eq.
  - intros v Hvf Hvt. rewrite retry_row, VersionSelectable_spec, retentionVersion_rows.
    rewrite decide_False by (rewrite Ht; tauto). by rewrite Hrows, !lookup_insert_ne by done.
  - intros v Hv. rewrite retentionVersion_rows in Hv. unfold publish.
    rewrite retry_row, Upsert_rows by (by left). rewrite lookup_insert_eq, Hv.
    apply decide_ext. by rewrite published_deadline.
  - intros v e Hv He Hx. rewrite retentionVersion_rows in Hv. unfold publish.
    rewrite !retry_row, Upsert_rows by (right; by intros ? [= <-]%(eq_trans (eq_sym Hv))).
    rewrite lookup_insert_eq, Hv. unfold deadline, closed_error, published_row. cbn.
    rewrite He. by destruct (rv_ExpiresAt e).
Qed.

(** ** Histories

    The registry of one app over time: publishes, deploys and single prune actions in
    any order and at any times.  A prune action is applied on the row it was checked
    against, as the compare-and-swap of the catalog upload ensures. *)

Section history.
Context (IsValid : string → bool) (Canonical : string → string).
Context (policy : RetentionPolicy) (appName : string).

Record Registry := {
  rg_index : option Index;
  rg_retention : RetentionIndex;
  rg_desired : string;          (** the fleet's desired version, [""] before the first install *)
  rg_deployed : gset string }.  (** every version that was ever deployed *)

(** The version a deploy replaces. *)
Definition replaced (g : Registry) : string :=
  if bool_decide (rg_desired g = "") then FirstInstallFromVersion else rg_desired g.

Definition version_ok (v : string) : Prop := TrimSpace v = v ∧ v ≠ "" ∧ ValidVersion IsValid Canonical v = true.

Inductive step (g : Registry) : Registry → Prop :=
  | step_publish v t ix r :
      version_ok (TrimSpace v) → (t ≠ 0)%Z →
      PublishedVersionKeys (rg_index g) appName ⊆ PublishedVersionKeys ix appName →
      (UpsertPublishedRetention (Some (rg_retention g)) v t policy).2 = Some r →
      step g {| rg_index := ix; rg_retention := r; rg_desired := rg_desired g;
                rg_deployed := rg_deployed g |}
  | step_deploy v t r :
      version_ok (TrimSpace v) → (t ≠ 0)%Z →
      (ApplyDesiredVersionTransition (Some (rg_retention g)) (replaced g) v policy t).2 = Some r →
      step g {| rg_index := rg_index g; rg_retention := r; rg_desired := TrimSpace v;
                rg_deployed := rg_deployed g ∪ {[ TrimSpace v ]} |}
  | step_prune action entry t changed ix r :
      versions_of (rg_retention g) !! pa_Version action = Some entry →
      ShouldApplyRetentionPruneAction action entry t = true →
      ApplyRetentionPruneAction (rg_index g) (Some (rg_retention g)) appName action
        = (changed, ix, Some r) →
      step g {| rg_index := ix; rg_retention := r; rg_desired := rg_desired g;
                rg_deployed := rg_deployed g |}.

Definition row_ok (v : string) (e : RetentionVersion) : Prop :=
  version_ok v ∧ rv_PublishedAt e ≠ 0%Z ∧ rv_ExpiresAt e ≠ Some 0%Z.

(** A catalog that decodes, in which keys are trimmed. *)
Definition catalog_ok (r : RetentionIndex) : Prop :=
  ri_SchemaVersion r = RetentionIndexSchemaVersion ∧ is_Some (ri_Versions r) ∧
  map_Forall row_ok (versions_of r).

Record inv (g : Registry) : Prop := {
  inv_catalog : catalog_ok (rg_retention g);
  inv_deployed : ∀ v, v ∈ rg_deployed g →
    ∃ e, versions_of (rg_retention g) !! v = Some e ∧ rv_EverDeployed e = true;
  inv_desired : rg_desired g ≠ "" →
    version_ok (rg_desired g) ∧
    ∃ e, versions_of (rg_retention g) !! rg_desired g = Some e ∧
         rv_EverDeployed e = true ∧ rv_ExpiresAt e = None }.

Lemma catalog_rows r : catalog_ok r → ∀ v e, rows (Some r) !! v = Some e → row_ok v e.
Proof. intros (_ & _ & H) v e He. by apply H. Qed.

Lemma catalog_intro r r' vs :
  catalog_ok r → r' = set_versions r vs → map_Forall row_ok vs → catalog_ok r'.
Proof. intros (Hs & _ & _) -> Hvs. split_and!; [done|by eexists|done]. Qed.

Lemma cloneTimePtr_nonzero t : cloneTimePtr t ≠ Some 0%Z.
Proof.
  unfold cloneTimePtr, IsZero. destruct t as [t|]; [|done].
  destruct (Z.eqb_spec t 0); [done|]. by intros [= ->].
Qed.

Lemma published_row_ok v t old :
  version_ok v → (t ≠ 0)%Z → (∀ e, old = Some e → row_ok v e) → row_ok v (published_row policy t old).
Proof.
  intros Hv Ht Hold. split_and!; [done..|]. destruct old as [e|].
  - cbn. destruct (rv_EverDeployed e); [by apply (Hold e)|exact (cloneTimePtr_nonzero (Some _))].
  - exact (cloneTimePtr_nonzero (Some _)).
Qed.

Lemma promoted_row_ok v t old :
  version_ok v → (t ≠ 0)%Z → (∀ e, old = Some e → row_ok v e) → row_ok v (promote t old).
Proof.
  intros Hv Ht Hold. split_and!; [done| |done]. destruct old as [e|]; [|done]. by apply (Hold e).
Qed.

Lemma retired_row_ok v t old :
  version_ok v → (t ≠ 0)%Z → (∀ e, old = Some e → row_ok v e) → row_ok v (retire policy t old).
Proof.
  intros Hv Ht Hold. split_and!; [done| |apply cloneTimePtr_nonzero].
  destruct old as [e|]; [|done]. by apply (Hold e).
Qed.

(** The operations change nothing but the rows. *)
Lemma Upsert_shape i v t r :
  (UpsertPublishedRetention (Some i) v t policy).2 = Some r → r = set_versions i (rows (Some r)).
Proof.
  unfold UpsertPublishedRetention. repeat case_match; by intros [= <-].
Qed.

Lemma Transition_shape i from to t r :
  (ApplyDesiredVersionTransition (Some i) from to policy t).2 = Some r →
  r = set_versions i (rows (Some r)).
Proof. by intros [= <-]. Qed.

Lemma Remove_shape i v r :
  is_Some (ri_Versions i) → (RemoveRetentionVersion (Some i) v).2 = Some r →
  r = set_versions i (rows (Some r)).
Proof.
  unfold RemoveRetentionVersion, set_versions. intros [vs Hvs]. rewrite Hvs.
  destruct (vs !! _); intros [= <-]; [done|]. unfold rows, versions_of. simpl. rewrite Hvs.
  destruct i. simpl in *. by rewrite Hvs.
Qed.

Lemma publish_inv g v t ix r :
  inv g → version_ok (TrimSpace v) → (t ≠ 0)%Z →
  (UpsertPublishedRetention (Some (rg_retention g)) v t policy).2 = Some r →
  inv {| rg_index := ix; rg_retention := r; rg_desired := rg_desired g;
         rg_deployed := rg_deployed g |}.
Proof.
  intros [Hcat Hdep Hdes] Hv Ht Hr. pose proof (catalog_rows _ Hcat) as Hrow.
  assert (Hrows : rows (Some r) = <[TrimSpace v := published_row policy t
             (rows (Some (rg_retention g)) !! TrimSpace v)]> (rows (Some (rg_retention g)))).
  { rewrite <-Hr. apply Upsert_rows. right. intros e He. by apply (Hrow _ _ He). }
  assert (Hkeep : ∀ w e, versions_of (rg_retention g) !! w = Some e → rv_EverDeployed e = true →
            ∃ e', versions_of r !! w = Some e' ∧ rv_EverDeployed e' = true ∧
                  rv_ExpiresAt e' = rv_ExpiresAt e).
  { intros w e He Hever. change (versions_of r) with (rows (Some r)). rewrite Hrows.
    destruct (decide (TrimSpace v = w)) as [<-|Hne].
    - rewrite lookup_insert_eq. eexists. split; [done|].
      change (rows (Some (rg_retention g))) with (versions_of (rg_retention g)). rewrite He.
      cbn. rewrite Hever. by destruct (rv_ExpiresAt e).
    - rewrite lookup_insert_ne by done. by exists e. }
  split; cbn [rg_retention rg_deployed rg_desired].
  - eapply catalog_intro; [exact Hcat|by apply Upsert_shape in Hr|]. rewrite Hrows.
    apply map_Forall_insert_2; [|by intros w e; apply Hrow]. apply published_row_ok; [done..|].
    apply Hrow.
  - intros w Hw. destruct (Hdep w Hw) as (e & He & Hever).
    destruct (Hkeep w e He Hever) as (e' & ? & ? & _). by exists e'.
  - intros Hne. destruct (Hdes Hne) as (Hok & e & He & Hever & Hx). split; [done|].
    destruct (Hkeep _ e He Hever) as (e' & ? & ? & Hx'). exists e'. by rewrite Hx'.
Qed.

Lemma deploy_inv g v t r :
  inv g → version_ok (TrimSpace v) → (t ≠ 0)%Z →
  (ApplyDesiredVersionTransition (Some (rg_retention g)) (replaced g) v policy t).2 = Some r →
  inv {| rg_index := rg_index g; rg_retention := r; rg_desired := TrimSpace v;
         rg_deployed := rg_deployed g ∪ {[ TrimSpace v ]} |}.
Proof.
  intros [Hcat Hdep Hdes] Hv Ht Hr. pose proof (catalog_rows _ Hcat) as Hrow.
  set (old := rows (Some (rg_retention g))) in *.
  assert (Hrep : TrimSpace (replaced g) ≠ "" ∧ TrimSpace (replaced g) ≠ FirstInstallFromVersion →
                 version_ok (TrimSpace (replaced g))).
  { unfold replaced. case_bool_decide as Hd; [by intros [_ []]|]. intros _.
    destruct (Hdes Hd) as [[Htr Hok] _]. by rewrite Htr. }
  set (vs := if decide (TrimSpace (replaced g) ≠ "" ∧ TrimSpace (replaced g) ≠ FirstInstallFromVersion)
             then <[TrimSpace (replaced g) := retire policy t (old !! TrimSpace (replaced g))]> old
             else old).
  assert (Hrows : rows (Some r) = <[TrimSpace v := promote t (vs !! TrimSpace v)]> vs).
  { rewrite <-Hr. apply Transition_rows. apply Hv. }
  assert (Hvs : ∀ w e, vs !! w = Some e → row_ok w e).
  { intros w e. unfold vs. case_decide as Hd; [|apply Hrow].
    intros [[<- <-]|[_ He]]%lookup_insert_Some; [|by apply Hrow].
    apply retired_row_ok; [by apply Hrep|done|]. apply Hrow. }
  assert (Hever : ∀ w e, old !! w = Some e → rv_EverDeployed e = true →
                         ∃ e', vs !! w = Some e' ∧ rv_EverDeployed e' = true).
  { intros w e He Hev. unfold vs. case_decide; [|by exists e].
    destruct (decide (TrimSpace (replaced g) = w)) as [<-|Hne].
    - rewrite lookup_insert_eq. by eexists.
    - rewrite lookup_insert_ne by done. by exists e. }
  split; cbn [rg_retention rg_deployed rg_desired].
  - eapply catalog_intro; [exact Hcat|by apply Transition_shape in Hr|]. rewrite Hrows.
    apply map_Forall_insert_2; [|exact Hvs]. apply promoted_row_ok; [done..|]. apply Hvs.
  - change (versions_of r) with (rows (Some r)). rewrite Hrows. intros w Hw.
    destruct (decide (TrimSpace v = w)) as [<-|Hne]; [rewrite lookup_insert_eq; by eexists|].
    rewrite lookup_insert_ne by done.
    apply elem_of_union in Hw as [Hw|Hw%elem_of_singleton]; [|by destruct Hne].
    destruct (Hdep w Hw) as (e & He & Hev). by apply (Hever w e).
  - intros _. split; [done|]. change (versions_of r) with (rows (Some r)).
    rewrite Hrows, lookup_insert_eq. by eexists.
Qed.

(** *** Prune steps *)

(** A prune that passes its check removes nothing that was ever deployed. *)
Lemma prune_kept g action entry t changed ix r :
  inv g → versions_of (rg_retention g) !! pa_Version action = Some entry →
  ShouldApplyRetentionPruneAction action entry t = true →
  ApplyRetentionPruneAction (rg_index g) (Some (rg_retention g)) appName action
    = (changed, ix, Some r) →
  catalog_ok r ∧
  (∀ v e, versions_of (rg_retention g) !! v = Some e → rv_EverDeployed e = true →
     versions_of r !! v = Some e ∧
     (v ∈ PublishedVersionKeys (rg_index g) appName → v ∈ PublishedVersionKeys ix appName)).
Proof.
  intros [Hcat _ _] Hentry Hshould Happly.
  destruct (decide (pa_Kind action = RetentionPruneDeleteUnused)) as [Hk|Hk]; swap 1 2.
  { rewrite Apply_other in Happly by done. injection Happly as <- <- <-. done. }
  destruct (Apply_unused (rg_index g) (Some (rg_retention g)) appName action Hk) as [ch Heq].
  rewrite Heq in Happly.
  assert (ix = (removePublished (rg_index g) appName (pa_Version action)).2) as -> by congruence.
  assert (Hr : Some r = (RemoveRetentionVersion (Some (rg_retention g)) (pa_Version action)).2)
    by congruence.
  assert (Hnd : rv_EverDeployed entry = false).
  { unfold ShouldApplyRetentionPruneAction in Hshould.
    rewrite bool_decide_eq_true_2 in Hshould by done. by apply andb_prop in Hshould as [?%negb_true_iff _]. }
  assert (Htr : TrimSpace (pa_Version action) = pa_Version action)
    by (by apply (catalog_rows _ Hcat _ entry Hentry)).
  assert (Hrows : rows (Some r) = delete (pa_Version action) (rows (Some (rg_retention g)))).
  { rewrite Hr, Remove_rows. by rewrite Htr. }
  split.
  - eapply catalog_intro; [exact Hcat|apply Remove_shape with (pa_Version action); [apply Hcat|done]|].
    rewrite Hrows. apply map_Forall_delete. apply Hcat.
  - intros v e He Hev. assert (v ≠ pa_Version action) by (intros ->; congruence).
    change (versions_of r) with (rows (Some r)). rewrite Hrows, lookup_delete_ne by done.
    split; [done|]. rewrite removePublished_keys, elem_of_difference, elem_of_singleton. tauto.
Qed.

Lemma step_inv g g' :
  inv g → step g g' →
  inv g' ∧ rg_deployed g ⊆ rg_deployed g' ∧
  (∀ v, v ∈ rg_deployed g → v ∈ PublishedVersionKeys (rg_index g) appName →
        v ∈ PublishedVersionKeys (rg_index g') appName).
Proof.
  intros Hinv [v t ix r Hv Ht Hix Hr|v t r Hv Ht Hr|action entry t changed ix r He Hs Ha];
    cbn [rg_deployed rg_index].
  - split; [by eapply publish_inv|]. set_solver.
  - split; [by eapply deploy_inv|]. set_solver.
  - pose proof (prune_kept _ _ _ _ _ _ _ Hinv He Hs Ha) as [Hcat Hkeep].
    destruct Hinv as [_ Hdep Hdes]. split; [split|]; cbn [rg_retention rg_deployed rg_desired].
    + done.
    + intros v Hv. destruct (Hdep v Hv) as (e & Hev & H). exists e. split; [|done].
      by apply (Hkeep v e).
    + intros Hne. destruct (Hdes Hne) as (Hok & e & Hev & H & Hx). split; [done|]. exists e.
      split; [|done]. by apply (Hkeep _ e).
    + split; [done|]. intros v Hv Hp. destruct (Hdep v Hv) as (e & Hev & H).
      by apply (Hkeep v e).
Qed.

Lemma steps_inv g g' :
  inv g → rtc step g g' →
  inv g' ∧ rg_deployed g ⊆ rg_deployed g' ∧
  (∀ v, v ∈ rg_deployed g → v ∈ PublishedVersionKeys (rg_index g) appName →
        v ∈ PublishedVersionKeys (rg_index g') appName).
Proof.
  intros Hinv Hs. revert Hinv. induction Hs as [g|g g1 g2 Hg _ IH]; intros Hinv; [done|].
  destruct (step_inv _ _ Hinv Hg) as (H1 & H2 & H3). destruct (IH H1) as (H4 & H5 & H6).
  split; [done|]. split; [set_solver|]. intros v Hv Hp. apply H6; [set_solver|by apply H3].
Qed.

Lemma catalog_validates order r :
  (∀ m, order m ≡ₚ map_to_list m) → catalog_ok r →
  validateRetentionIndex IsValid Canonical order (Some r) = Ok tt.
Proof.
  intros Hord (Hs & [vs Hvs] & Hall). unfold validateRetentionIndex.
  rewrite (proj2 (Z.eqb_eq _ _) Hs), Hvs. cbn [negb]. apply each_ok. intros [v e] Hin.
  rewrite (Hord vs), elem_of_map_to_list in Hin. unfold versions_of in Hall. rewrite Hvs in Hall.
  destruct (Hall _ _ Hin) as ((Htr & Hne & Hval) & Hp & Hx).
  unfold validateRetentionVersion. cbn [fst snd]. rewrite Htr, bool_decide_eq_false_2, Hval by done.
  cbn [negb]. unfold IsZero. rewrite (proj2 (Z.eqb_neq _ _) Hp).
  destruct (rv_ExpiresAt e) as [x|]; [|done].
  destruct (Z.eqb_spec x 0) as [->|]; [done|done].
Qed.

(** A registry whose catalog decodes and whose app was not installed yet. *)
Definition fresh_registry (g : Registry) : Prop :=
  catalog_ok (rg_retention g) ∧ rg_desired g = "" ∧ rg_deployed g = ∅.

(** However publishes, deploys and checked prune actions follow each other, the
    retention catalog always decodes; a version that was once deployed keeps a row
    that says so; the desired version can always be retried and a prune never lists
    it; and a published version that was deployed stays published. *)
Theorem retention_history order g0 g g' :
  (∀ m, order m ≡ₚ map_to_list m) →
  fresh_registry g0 → rtc step g0 g → rtc step g g' →
  let retention := Some (rg_retention g') in
  validateRetentionIndex IsValid Canonical order retention = Ok tt ∧
  (∀ v, v ∈ rg_deployed g → ∃ e, retentionVersion retention v = Some e ∧ rv_EverDeployed e = true) ∧
  (rg_desired g' ≠ "" → ∀ now,
     RetryVersionSelectable (rg_desired g') retention policy now = Ok tt ∧
     ∀ ix deployed a, a ∈ EvaluateRetentionPrune order ix retention appName (rg_desired g')
                            deployed policy now → pa_Version a ≠ rg_desired g') ∧
  (∀ v, v ∈ rg_deployed g → v ∈ PublishedVersionKeys (rg_index g) appName →
        v ∈ PublishedVersionKeys (rg_index g') appName).
Proof.
  intros Hord (Hcat & Hdes & Hdep) H0 H1 retention.
  assert (Hinv0 : inv g0) by (split; [done|by rewrite Hdep; set_solver|done]).
  destruct (steps_inv _ _ Hinv0 H0) as (Hinv & _ & _).
  destruct (steps_inv _ _ Hinv H1) as (Hinv' & Hsub & Hpub).
  destruct Hinv' as [Hcat' Hdep' Hdes']. split_and!; [by apply catalog_validates| | |done].
  - intros v Hv. destruct (Hdep' v (Hsub v Hv)) as (e & He & Hev). exists e. split; [|done].
    rewrite retentionVersion_rows. destruct (catalog_rows _ Hcat' v e He) as [[-> _] _]. exact He.
  - intros Hne now. destruct (Hdes' Hne) as ((Htr & _) & e & He & Hev & Hx). split.
    + rewrite retry_row, Htr. change (rows retention) with (versions_of (rg_retention g')).
      rewrite He. unfold deadline. by rewrite Hx, Hev.
    + intros ix deployed a (kv & _ & Ha)%list_elem_of_omap. revert Ha. unfold evaluateRow. rewrite Htr.
      repeat case_match; try done; bool_props; intros [= <-]; cbn [pa_Version];
        repeat match goal with H : bool_decide _ = false |- _ => apply bool_decide_eq_false in H end; done.
Qed.
End history.

(** ** The prune round *)

Section prune_round.
Context (rm : StorageCall → bool) (deployed : gset string) (appName : string) (now : time)
  (actions0 : list RetentionPruneAction)
  (fresh0 : nat → result PruneError (option RetentionIndex))
  (index0 : option Index) (retention0 : option RetentionIndex).

(** What licenses a storage call: an action of the evaluation and a fresh row of its
    version that passed the check. *)
Definition licensed (a : RetentionPruneAction) : Prop :=
  a ∈ actions0 ∧
  ¬ (pa_Version a ∈ deployed ∧ pa_Kind a = RetentionPruneDeleteUnused) ∧
  ∃ i r e, fresh0 i = Ok (Some r) ∧ versions_of r !! pa_Version a = Some e ∧
           ShouldApplyRetentionPruneAction a e now = true.

Definition justified (c : StorageCall) : Prop :=
  ∃ a, licensed a ∧
    match c with
    | DeleteEntry v => v = pa_Version a ∧ pa_Kind a = RetentionPruneDeleteUnused
    | DeleteArtifacts v => v = pa_Version a
    end.

(** The catalogs of the round lost exactly the versions whose entry was deleted. *)
Definition mirrors (st : PruneRound) : Prop :=
  ∀ v, (DeleteEntry v ∈ pr_calls st →
          rows (pr_Retention st) !! v = None ∧ v ∉ PublishedVersionKeys (pr_Index st) appName) ∧
       (DeleteEntry v ∉ pr_calls st →
          rows (pr_Retention st) !! v = rows retention0 !! v ∧
          (v ∈ PublishedVersionKeys (pr_Index st) appName ↔
           v ∈ PublishedVersionKeys index0 appName)).

Definition round_ok (st : PruneRound) : Prop := Forall justified (pr_calls st) ∧ mirrors st.

Lemma mirrors_calls st st' :
  mirrors st → pr_Index st' = pr_Index st → pr_Retention st' = pr_Retention st →
  (∀ v, DeleteEntry v ∈ pr_calls st' ↔ DeleteEntry v ∈ pr_calls st) → mirrors st'.
Proof. intros Hm Hi Hr Hc v. rewrite Hi, Hr, Hc. apply Hm. Qed.

(** Removing a version and recording its deletion go together. *)
Lemma mirrors_remove st st' v :
  mirrors st → TrimSpace v = v →
  pr_Index st' = (removePublished (pr_Index st) appName v).2 →
  pr_Retention st' = (RemoveRetentionVersion (pr_Retention st) v).2 →
  (∀ w, DeleteEntry w ∈ pr_calls st' ↔ w = v ∨ DeleteEntry w ∈ pr_calls st) → mirrors st'.
Proof.
  intros Hm Htr Hi Hr Hc w. rewrite Hi, Hr, Remove_rows, removePublished_keys, Htr, Hc.
  rewrite elem_of_difference, elem_of_singleton.
  destruct (decide (w = v)) as [->|Hne].
  - rewrite lookup_delete_eq. tauto.
  - rewrite lookup_delete_ne by done. destruct (Hm w) as [H1 H2]. tauto.
Qed.

Lemma round_ok_calls st st' c :
  round_ok st → justified c → (∀ v, c ≠ DeleteEntry v) →
  pr_Index st' = pr_Index st → pr_Retention st' = pr_Retention st →
  pr_calls st' = pr_calls st ++ [c] → round_ok st'.
Proof.
  intros [Hj Hm] Hc Hne Hi Hr Hcs. split.
  - rewrite Hcs. apply Forall_app. split; [done|]. by constructor.
  - eapply mirrors_calls; [done..|]. intros v. rewrite Hcs, elem_of_app, list_elem_of_singleton.
    split; [|tauto]. intros [?|<-]; [done|]. by destruct (Hne v).
Qed.

Lemma applyAction_ok a st err st' :
  round_ok st → licensed a → TrimSpace (pa_Version a) = pa_Version a →
  applyAction rm appName a st = (err, st') → round_ok st'.
Proof.
  intros Hok Hl Htr. unfold applyAction.
  assert (Hart : justified (DeleteArtifacts (pa_Version a))) by (by exists a).
  destruct (decide (pa_Kind a = RetentionPruneDeleteUnused)) as [Hk|Hk].
  - destruct (Apply_unused (pr_Index st) (pr_Retention st) appName a Hk) as [ch ->].
    rewrite (bool_decide_eq_true_2 _ Hk). cbn [orb].
    set (st1 := {| pr_Index := _ |}). destruct (call rm (DeleteEntry (pa_Version a)) st1) as [ok st2] eqn:E2.
    assert (Hok2 : round_ok st2).
    { injection E2 as <- <-. destruct Hok as [Hj Hm]. split.
      - cbn. apply Forall_app. split; [done|]. constructor; [by exists a|done].
      - eapply mirrors_remove; [done..|]. intros w. cbn.
        rewrite elem_of_app, list_elem_of_singleton. naive_solver. }
    destruct ok; cbn [negb]; [|by intros [= _ <-]].
    assert (round_ok (call rm (DeleteArtifacts (pa_Version a)) st2).2)
      by (eapply round_ok_calls; by try done).
    destruct (call rm (DeleteArtifacts (pa_Version a)) _) as [[] st3]; cbn [negb] in *;
      by intros [= _ <-].
  - rewrite Apply_other, (bool_decide_eq_false_2 _ Hk) by done. cbn [orb negb].
    set (st1 := {| pr_Index := _ |}).
    assert (Hok1 : round_ok st1) by (destruct Hok as [Hj Hm]; by split).
    case_bool_decide; [|by intros [= _ <-]].
    assert (round_ok (call rm (DeleteArtifacts (pa_Version a)) st1).2)
      by (eapply round_ok_calls; by try done).
    destruct (call rm (DeleteArtifacts (pa_Version a)) _) as [[] st3]; cbn [negb] in *;
      by intros [= _ <-].
Qed.

Lemma pruneActions_ok actions fresh st err st' :
  round_ok st → (∀ a, a ∈ actions → a ∈ actions0 ∧ TrimSpace (pa_Version a) = pa_Version a) →
  (∀ i, ∃ j, fresh i = fresh0 j) →
  pruneActions rm deployed appName now actions fresh st = (err, st') → round_ok st'.
Proof.
  revert fresh st. induction actions as [|a actions IH]; intros fresh st Hok Hin Hfresh; simpl.
  { by intros [= _ <-]. }
  assert (Hrec : ∀ st1, round_ok st1 →
    pruneActions rm deployed appName now actions (λ i, fresh (S i)) st1 = (err, st') → round_ok st').
  { intros st1 H1. apply IH; [done| |intros i; apply Hfresh]. intros b Hb. apply Hin. by right. }
  destruct (Hin a ltac:(by left)) as [Ha Htr].
  case_bool_decide as Hskip; [by apply Hrec|].
  unfold freshRetentionEntryForPrune. destruct (fresh 0) as [[r|]|e] eqn:Ef; cbn [rbind];
    [|by apply Hrec|by intros [= _ <-]].
  destruct (versions_of r !! pa_Version a) as [e|] eqn:Ee; [|by apply Hrec].
  destruct (ShouldApplyRetentionPruneAction a e now) eqn:Es; cbn [negb]; [|by apply Hrec].
  assert (Hl : licensed a).
  { split; [done|]. split; [done|]. destruct (Hfresh 0) as [j Hj]. exists j, r, e. by rewrite <-Hj. }
  destruct (applyAction rm appName a st) as [[er|] st1] eqn:Eap.
  - intros [= _ <-]. by eapply applyAction_ok.
  - apply Hrec. by eapply applyAction_ok.
Qed.
End prune_round.

(** A row whose deadline has passed does not admit its version. *)
Lemma expired_not_selectable v d retention policy now e :
  retentionVersion retention v = Some e → RetentionExpired e now = true →
  VersionSelectable v d retention policy now ≠ Ok tt.
Proof.
  intros He Hx. rewrite VersionSelectable_spec, He. case_decide; [done|].
  rewrite decide_False; [done|]. revert Hx. unfold RetentionExpired, deadline, cloneTimePtr, Before.
  destruct (rv_ExpiresAt e) as [x|]; [|done]. destruct (IsZero x); [done|].
  intros Hx%negb_true_iff. apply Z.ltb_ge in Hx. cbn. lia.
Qed.

Lemma Evaluate_rows order index retention app desired deployed policy now a :
  (∀ m, order m ≡ₚ map_to_list m) →
  a ∈ EvaluateRetentionPrune order index retention app desired deployed policy now →
  pa_Version a ≠ TrimSpace desired ∧
  ∃ e, rows retention !! pa_Version a = Some e ∧ RetentionExpired e now = true.
Proof.
  intros Hord. unfold EvaluateRetentionPrune. destruct retention as [r|]; [|by intros ?%elem_of_nil].
  intros ([v e] & Hin & Ha)%list_elem_of_omap. rewrite (Hord _), elem_of_map_to_list in Hin.
  revert Ha. unfold evaluateRow. cbn [fst snd]. case_bool_decide as Hd; [done|].
  destruct (RetentionExpired e now) eqn:Ex; [|done]. cbn [negb].
  repeat case_match; try done; intros [= <-]; (split; [done|]; by exists e).
Qed.

(** What a prune round deletes.  Whatever the fresh reads and the storage calls
    answer, and also when the round stops at an error: every version whose objects are
    deleted is not the desired one, could not be selected any more, and was expired in
    a fresh row; an entry is only deleted when that row and the change requests agree
    that the version was never deployed.  The two catalogs that the round uploads lost
    exactly the versions whose entry was deleted. *)
Theorem prune_round_safe order rm index retention app desired deployed policy now fresh err st :
  (∀ m, order m ≡ₚ map_to_list m) →
  (∀ v e, rows retention !! v = Some e → TrimSpace v = v) →
  pruneActions rm deployed app now
    (EvaluateRetentionPrune order index retention app desired deployed policy now) fresh
    {| pr_Index := index; pr_Retention := retention; pr_indexChanged := false;
       pr_retentionChanged := false; pr_calls := [] |} = (err, st) →
  (∀ v, DeleteEntry v ∈ pr_calls st ∨ DeleteArtifacts v ∈ pr_calls st →
     v ≠ TrimSpace desired ∧ VersionSelectable v desired retention policy now ≠ Ok tt ∧
     ∃ i r e, fresh i = Ok (Some r) ∧ versions_of r !! v = Some e ∧ RetentionExpired e now = true ∧
              (DeleteEntry v ∈ pr_calls st → v ∉ deployed)) ∧
  (∀ v, DeleteEntry v ∈ pr_calls st →
     ∃ i r e, fresh i = Ok (Some r) ∧ versions_of r !! v = Some e ∧ rv_EverDeployed e = false) ∧
  (∀ v, rows (pr_Retention st) !! v =
          if decide (DeleteEntry v ∈ pr_calls st) then None else rows retention !! v) ∧
  (∀ v, v ∈ PublishedVersionKeys (pr_Index st) app ↔
          v ∈ PublishedVersionKeys index app ∧ DeleteEntry v ∉ pr_calls st).
Proof.
  intros Hord Htrim Hrun. set (acts := EvaluateRetentionPrune _ _ _ _ _ _ _ _) in *.
  assert (Hacts := λ a, Evaluate_rows order index retention app desired deployed policy now a Hord).
  fold acts in Hacts.
  assert (Hok : round_ok deployed app now acts fresh index retention st).
  { eapply pruneActions_ok; [| | |exact Hrun].
    - split; [constructor|]. intros v. cbn. split; [by intros ?%elem_of_nil|done].
    - intros a Ha. split; [done|]. destruct (Hacts a Ha) as (_ & e & He & _). by eapply Htrim.
    - intros i. by exists i. }
  destruct Hok as [Hj Hm]. rewrite Forall_forall in Hj.
  assert (Hentry : ∀ v, DeleteEntry v ∈ pr_calls st → v ∉ deployed ∧
            ∃ i r e, fresh i = Ok (Some r) ∧ versions_of r !! v = Some e ∧ rv_EverDeployed e = false).
  { intros v Hv. destruct (Hj _ Hv) as (a & (Ha & Hnd & i & r & e & Hf & He & Hs) & -> & Hk).
    split; [tauto|]. exists i, r, e. split_and!; [done..|].
    unfold ShouldApplyRetentionPruneAction in Hs. rewrite bool_decide_eq_true_2 in Hs by done.
    by apply andb_prop in Hs as [?%negb_true_iff _]. }
  split_and!.
  - intros v Hv. assert (∃ a, licensed deployed now acts fresh a ∧ v = pa_Version a) as (a & Hl & ->).
    { destruct Hv as [Hv|Hv]; destruct (Hj _ Hv) as (a & Hl & Hc); exists a; naive_solver. }
    destruct Hl as (Ha & Hnd & i & r & e & Hf & He & Hs).
    destruct (Hacts a Ha) as (Hne & e0 & He0 & Hx0). split; [done|]. split.
    + eapply expired_not_selectable; [|done]. rewrite retentionVersion_rows. by rewrite (Htrim _ _ He0).
    + exists i, r, e. split_and!; [done..| |by intros [? _]%Hentry].
      unfold ShouldApplyRetentionPruneAction in Hs.
      repeat case_bool_decide; try done; by apply andb_prop in Hs as [_ ?].
  - intros v Hv. by apply Hentry.
  - intros v. destruct (Hm v) as [H1 H2]. case_decide; [by apply H1|by apply H2].
  - intros v. destruct (Hm v) as [H1 H2]. destruct (decide (DeleteEntry v ∈ pr_calls st)); tauto.
Qed.

(** ** Examples *)

Definition day (n : Z) : time := (n * 24 * Hour)%Z.

Definition sample_index : RetentionIndex :=
  {| ri_SchemaVersion := 1;
     ri_Versions := Some {[ "1.0.0" := {| rv_PublishedAt := day 1; rv_EverDeployed := true;
                                          rv_ExpiresAt := None |};
                            "0.9.0" := {| rv_PublishedAt := day 1; rv_EverDeployed := false;
                                          rv_ExpiresAt := Some (day 4) |} ]} |}.

Lemma deployment_windows_witness :
  let deployed := (ApplyDesiredVersionTransition (Some sample_index) "1.0.0" "1.1.0"
                     DefaultRetentionPolicy (day 10)).2 in
  VersionSelectable "1.0.0" "1.1.0" deployed DefaultRetentionPolicy (day 11) =
    (if decide (day 11 < day 10 + DefaultDeployedRetention)%Z then Ok tt else Err ErrAppVersionLocked).
Proof.
  refine (proj1 (deployment_windows sample_index "1.0.0" "1.1.0" DefaultRetentionPolicy
    (day 10) (day 11) _ _ _ _ _ _ _)); solve [reflexivity | discriminate].
Defined.

Definition sample_registry : Registry :=
  {| rg_index := None; rg_retention := NewEmptyRetentionIndex; rg_desired := ""; rg_deployed := ∅ |}.

Definition deployed_registry : Registry :=
  {| rg_index := None;
     rg_retention := set_versions NewEmptyRetentionIndex
       {[ "1.0.0" := promote (day 1) None ]};
     rg_desired := "1.0.0"; rg_deployed := ∅ ∪ {[ "1.0.0" ]} |}.

Lemma retention_history_witness :
  validateRetentionIndex (λ _, true) id map_to_list (Some (rg_retention deployed_registry)) = Ok tt ∧
  ∃ e, retentionVersion (Some (rg_retention deployed_registry)) "1.0.0" = Some e ∧
       rv_EverDeployed e = true.
Proof.
  assert (step (λ _, true) id DefaultRetentionPolicy "app" sample_registry deployed_registry) as Hstep.
  { apply (step_deploy _ _ _ _ sample_registry "1.0.0" (day 1)); [|discriminate|reflexivity].
    split; [reflexivity|]. split; [discriminate|reflexivity]. }
  destruct (retention_history (λ _, true) id DefaultRetentionPolicy "app" map_to_list
    sample_registry deployed_registry deployed_registry
    (λ m, Permutation_refl _)) as (H1 & H2 & _).
  - split; [|done]. split_and!; [done|by eexists|]. intros v e He.
    change ((∅ : gmap string RetentionVersion) !! v = Some e) in He. by rewrite lookup_empty in He.
  - by apply rtc_once.
  - apply rtc_refl.
  - split; [exact H1|]. apply H2. set_solver.
Defined.

Definition sample_round : option PruneError * PruneRound :=
  pruneActions (λ _, true) ∅ "app" (day 10)
    (EvaluateRetentionPrune map_to_list None (Some sample_index) "app" "1.0.0" ∅
       DefaultRetentionPolicy (day 10)) (λ _, Ok (Some sample_index))
    {| pr_Index := None; pr_Retention := Some sample_index; pr_indexChanged := false;
       pr_retentionChanged := false; pr_calls := [] |}.

Lemma sample_round_calls :
  sample_round.1 = None ∧ pr_calls sample_round.2 = [DeleteEntry "0.9.0"; DeleteArtifacts "0.9.0"].
Proof. by split; vm_compute. Qed.

Lemma prune_round_safe_witness :
  rows (pr_Retention sample_round.2) !! "1.0.0" = rows (Some sample_index) !! "1.0.0".
Proof.
  destruct (prune_round_safe map_to_list (λ _, true) None (Some sample_index) "app" "1.0.0" ∅
    DefaultRetentionPolicy (day 10) (λ _, Ok (Some sample_index)) sample_round.1 sample_round.2
    (λ m, Permutation_refl _)) as (_ & _ & Hrows & _).
  - intros v e. unfold rows, versions_of, sample_index.
    cbn [fmap option_fmap option_map from_option id ri_Versions].
    intros [[<- _]|[_ [<- _]%lookup_singleton_Some]]%lookup_insert_Some; reflexivity.
  - apply surjective_pairing.
  - rewrite Hrows, decide_False; [reflexivity|]. rewrite (proj2 sample_round_calls). set_solver.
Defined.
End Retention.
