(* ===== verification/RegistryConfig.v ===== *)
(** * RegistryConfig: registry bindings and durations of the deploy configuration

    Models [gestaltd/internal/config/app_registry_config.go] past YAML decoding, the
    predicates on [ProviderSource] and [ParseDuration] of
    [gestaltd/internal/config/config.go].  Durations are 64-bit integers that wrap
    around; [time.ParseDuration] is the variable [TimeParseDuration]. *)

From stdpp Require Import base gmap strings list.
From Stdlib Require Import ZArith Ascii Lia.
From S2P Require Import Prelude AppSources Retention.

Set Default Goal Selector "!".

Module RegistryConfig.
Import AppSources(ContainsByte, TrimByte, TrimRightByte).

(** ** Durations *)

(** Arithmetic on [int64]. *)
Definition wrap64 (z : Z) : Z := ((z + 2 ^ 63) mod 2 ^ 64 - 2 ^ 63)%Z.

(** [strconv.Atoi]: an optional sign and decimal digits, within [int64]. *)
Fixpoint digits_val (acc : Z) (s : string) : option Z :=
  match s with
  | EmptyString => Some acc
  | String a s =>
      if byte_in 48 57 a then digits_val (10 * acc + (Z.of_N (N_of_ascii a) - 48))%Z s else None
  end.

Definition Atoi (s : string) : option Z :=
  let '(neg, digits) :=
    match s with
    | String "-" s => (true, s)
    | String "+" s => (false, s)
    | _ => (false, s)
    end in
  if decide (digits = "") then None else
  n ← digits_val 0 digits;
  let n := if neg : bool then (- n)%Z else n in
  if (- 2 ^ 63 <=? n)%Z && (n <? 2 ^ 63)%Z then Some n else None.

Inductive ConfigError :=
  | ErrEmptyDuration
  | ErrInvalidDayDuration (s : string)
  | ErrDurationNotPositive (s : string)
  | ErrDuration (s : string)
  | ErrBucketRequired
  | ErrBucketURL
  | ErrBucketPath
  | ErrUnsupportedKind (kind : string)
  | ErrGCSRequired
  | ErrStorageURL (url : string).

(** The text before a final byte. *)
Fixpoint CutSuffixByte (s : string) (c : ascii) : option string :=
  match s with
  | EmptyString => None
  | String a EmptyString => if decide (a = c) then Some EmptyString else None
  | String a s => String a <$> CutSuffixByte s c
  end.

Section durations.
  Context (TimeParseDuration : string → option duration).

Definition ParseDuration (s : string) : result ConfigError duration :=
  if decide (s = "") then Err ErrEmptyDuration else
  match CutSuffixByte s "d" with
  | Some number =>
      match Atoi number with
      | None => Err (ErrInvalidDayDuration s)
      | Some days =>
          if (days <=? 0)%Z then Err (ErrDurationNotPositive s)
          else Ok (wrap64 (wrap64 (days * 24) * Hour))
      end
  | None =>
      match TimeParseDuration s with
      | None => Err (ErrDuration s)
      | Some d => if (d <=? 0)%Z then Err (ErrDurationNotPositive s) else Ok d
      end
  end.

(** ** Registries *)

Definition AppRegistryKindGCS : string := "gcs".
Definition defaultGCSAppRegistryPublicURLPrefix : string := "https://storage.googleapis.com/".
Definition defaultAppRegistryUnusedRetention : duration := (72 * Hour)%Z.
Definition defaultAppRegistryDeployedRetention : duration := (720 * Hour)%Z.

Record AppRegistryRetentionConfig := {
  rc_UnusedRetention : string;
  rc_DeployedRetention : string;
  rc_unusedRetentionSet : bool;
  rc_deployedRetentionSet : bool }.

Record AppRegistryGCSConfig := { gcs_Bucket : string }.

Record AppRegistryConfig := {
  reg_Kind : string;
  reg_Auth : string;
  reg_GCS : option AppRegistryGCSConfig;
  reg_Retention : option AppRegistryRetentionConfig }.

Definition UnusedRetentionDuration (c : AppRegistryConfig) : result ConfigError duration :=
  match reg_Retention c with
  | None => Ok defaultAppRegistryUnusedRetention
  | Some r => if decide (TrimSpace (rc_UnusedRetention r) = "")
              then Ok defaultAppRegistryUnusedRetention
              else ParseDuration (TrimSpace (rc_UnusedRetention r))
  end.

Definition DeployedRetentionDuration (c : AppRegistryConfig) : result ConfigError duration :=
  match reg_Retention c with
  | None => Ok defaultAppRegistryDeployedRetention
  | Some r => if decide (TrimSpace (rc_DeployedRetention r) = "")
              then Ok defaultAppRegistryDeployedRetention
              else ParseDuration (TrimSpace (rc_DeployedRetention r))
  end.

Definition ConfigRetentionPolicy (c : AppRegistryConfig) : result ConfigError (duration * duration) :=
  let! unused := UnusedRetentionDuration c in
  let! deployed := DeployedRetentionDuration c in
  Ok (unused, deployed).

(** [retentionPolicyFromConfig] of the installer. *)
Definition retentionPolicyFromConfig (c : AppRegistryConfig)
    : result ConfigError Retention.RetentionPolicy :=
  let! durations := ConfigRetentionPolicy c in
  Ok {| Retention.rp_UnusedRetention := durations.1;
        Retention.rp_DeployedRetention := durations.2 |}.

(** [strings.Contains(s, sub)] *)
Fixpoint Contains (s sub : string) : bool :=
  HasPrefix s sub || match s with EmptyString => false | String _ s => Contains s sub end.

Definition normalizeGCSAppRegistryBucket (raw : string) : result ConfigError string :=
  let bucket := TrimSpace raw in
  if decide (bucket = "") then Err ErrBucketRequired else
  let bucket := TrimPrefix bucket "gs://" in
  let bucket := TrimByte bucket "/" in
  if decide (bucket = "") then Err ErrBucketRequired else
  if Contains bucket "://" then Err ErrBucketURL else
  if Contains bucket "/" then Err ErrBucketPath else
  Ok bucket.

Definition ConfigStorageURL (c : AppRegistryConfig) : result ConfigError string :=
  if decide (TrimSpace (reg_Kind c) ≠ AppRegistryKindGCS) then Err (ErrUnsupportedKind (reg_Kind c)) else
  match reg_GCS c with
  | None => Err ErrGCSRequired
  | Some gcs => let! bucket := normalizeGCSAppRegistryBucket (gcs_Bucket gcs) in
                Ok ("gs://" +:+ bucket)
  end.

Definition ConfigPublicURL (c : AppRegistryConfig) : result ConfigError string :=
  let! storageURL := ConfigStorageURL c in
  if negb (HasPrefix storageURL "gs://") then Err (ErrStorageURL storageURL) else
  let bucket := TrimPrefix storageURL "gs://" in
  Ok (TrimRightByte (defaultGCSAppRegistryPublicURLPrefix +:+ bucket) "/").

Definition NewGCSAppRegistry (bucket : string) : result ConfigError AppRegistryConfig :=
  let registry := {| reg_Kind := AppRegistryKindGCS; reg_Auth := "";
                     reg_GCS := Some {| gcs_Bucket := TrimSpace bucket |};
                     reg_Retention := None |} in
  let! _ := ConfigStorageURL registry in Ok registry.

(** ** Provider sources

    The pointers to nested definitions are read for nil only: a [bool] says whether
    one is set. *)

Record ProviderSource := {
  ps_Builtin : string;
  ps_metadataURL : string;
  ps_metadataPath : string;
  ps_packageName : string;
  ps_resolvedVersion : string;
  ps_GitHubRelease : bool;
  ps_Git : bool;
  ps_Registry : string;
  ps_RegistryApp : string;
  ps_Path : string }.

Definition IsBuiltin (s : ProviderSource) : bool := bool_decide (ps_Builtin s ≠ "").
Definition IsMetadataURL (s : ProviderSource) : bool := bool_decide (ps_metadataURL s ≠ "").
Definition IsGitHubRelease (s : ProviderSource) : bool := ps_GitHubRelease s.
Definition IsGit (s : ProviderSource) : bool := ps_Git s.
Definition IsRegistry (s : ProviderSource) : bool := bool_decide (TrimSpace (ps_Registry s) ≠ "").
Definition RegistryAppName (s : ProviderSource) (runtimeApp : string) : string :=
  let name := TrimSpace (ps_RegistryApp s) in
  if decide (name ≠ "") then name else TrimSpace runtimeApp.
Definition IsPackage (s : ProviderSource) : bool := bool_decide (ps_packageName s ≠ "").
Definition IsLocal (s : ProviderSource) : bool := bool_decide (ps_Path s ≠ "").
Definition IsLocalMetadataPath (s : ProviderSource) : bool := bool_decide (ps_metadataPath s ≠ "").
Definition ResolvedPackageVersion (s : ProviderSource) : string := TrimSpace (ps_resolvedVersion s).

(** A configured app: its source, and the version of the manifest that was resolved. *)
Record ProviderEntry := {
  pe_Source : ProviderSource;
  pe_ResolvedManifest : option string }.

Definition configPinnedAppVersion (entry : option ProviderEntry) : string :=
  match entry with
  | None => ""
  | Some e =>
      let version := ResolvedPackageVersion (pe_Source e) in
      if decide (version ≠ "") then version
      else match pe_ResolvedManifest e with Some v => TrimSpace v | None => "" end
  end.

(** ** Day durations and the width of an [int64] *)

Lemma wrap64_id z : (- 2 ^ 63 ≤ z < 2 ^ 63)%Z → wrap64 z = z.
Proof. intros Hz. unfold wrap64. rewrite Z.mod_small; lia. Qed.

Lemma wrap64_range z : (- 2 ^ 63 ≤ wrap64 z < 2 ^ 63)%Z.
Proof. unfold wrap64. pose proof (Z.mod_pos_bound (z + 2 ^ 63) (2 ^ 64)). lia. Qed.

Lemma CutSuffixByte_app s c : CutSuffixByte (s +:+ String c "") c = Some s.
Proof.
  induction s as [|a s IH].
  - change ("" +:+ String c "") with (String c ""). cbn. by rewrite decide_True.
  - rewrite string_cons_app. destruct (s +:+ String c "") as [|b r] eqn:E; [by destruct s|].
    change (String a <$> CutSuffixByte (String b r) c = Some (String a s)). by rewrite IH.
Qed.

(** 106751 days are the whole days of an [int64] of nanoseconds. *)
Definition maxDays : Z := 106751.

(** A duration given in days is exact up to 106751 days, and rejected when it is
    not positive.  A larger number of days passes the check but overflows the 64-bit
    product, so that the result is never the number of days asked for. *)
Theorem ParseDuration_days number days :
  Atoi number = Some days →
  let parsed := ParseDuration (number +:+ "d") in
  (days ≤ 0 → parsed = Err (ErrDurationNotPositive (number +:+ "d")))%Z
  ∧ (0 < days ≤ maxDays → parsed = Ok (days * (24 * Hour)))%Z
  ∧ (maxDays < days → ∃ d, parsed = Ok d ∧ d ≠ days * (24 * Hour)
                           ∧ - 2 ^ 63 ≤ d < 2 ^ 63)%Z.
Proof.
  intros Hn. cbn zeta. unfold ParseDuration.
  rewrite decide_False by (by destruct number). rewrite CutSuffixByte_app, Hn.
  assert (Hday : (Hour = 3600000000000)%Z) by done. unfold maxDays. rewrite Hday.
  split_and!; intros H.
  - by rewrite (proj2 (Z.leb_le _ _)).
  - rewrite (proj2 (Z.leb_gt _ _)) by lia. rewrite !wrap64_id by (rewrite ?wrap64_id; lia). f_equal. lia.
  - rewrite (proj2 (Z.leb_gt _ _)) by lia. eexists. split; [done|].
    pose proof (wrap64_range (wrap64 (days * 24) * 3600000000000)). lia.
Qed.
End durations.

(** The day after the last that fits comes out negative. *)
Lemma ParseDuration_days_witness :
  ParseDuration (λ _, None) ("30" +:+ "d") = Ok (30 * (24 * Hour))%Z
  ∧ ∃ d, ParseDuration (λ _, None) ("106752" +:+ "d") = Ok d ∧ (d < 0)%Z.
Proof.
  split.
  - apply (ParseDuration_days (λ _, None) "30" 30); [reflexivity|]. vm_compute. done.
  - eexists. split; [vm_compute; reflexivity|]. done.
Defined.

End RegistryConfig.
