(* ===== verification/InstallValidation.v ===== *)
(** * InstallValidation: the checks a version passes before it is installed

    Models [gestaltd/internal/appregistry/install_validator.go], the registry documents
    of [registry.go] it reads, [registry_source.go] and the version constraints of
    [gestaltd/internal/providerregistry/registry.go].  A candidate needs an artifact for
    the platform, a new enough daemon, installed dependencies that publish the operations
    it calls, and must not break the apps that depend on it.

    The registry's answers are the function [FetchEntry] of the [Registry] record.  The
    semantic-version library is the record [Semver]; [net/url], [path.Clean] and the
    SHA-256 digest are the record [Codecs].  Go's map iteration order decides only which
    of several violations is reported; the model goes through the keys in the order of
    [map_to_list]. *)

From stdpp Require Import base gmap strings list sorting sets pretty.
From Stdlib Require Import ZArith Ascii Lia.
From S2P Require Import Prelude ObjectStore RegistryTypes Rfc3339 Heartbeats FleetState.
From S2P Require Import ChangeRequests AppSources Retention RegistryConfig.

Set Default Goal Selector "!".

Module InstallValidation.
Import FleetState(LatestKnownInstallation, LatestKnownVersion).
Import RegistryConfig.

(** ** Registry documents *)

Record Artifact := { art_URL : string; art_PublicURL : string; art_SHA256 : string }.

Record OperationContract := { oc_InputSchema : string; oc_OutputSchema : string }.

Record Interface := { if_Operations : gmap string OperationContract }.

Record OperationRequirement := { or_InputSchemaHash : string }.

Record AppRequirement := {
  rq_Version : string;
  rq_Operations : gmap string OperationRequirement }.

Record Requires := { rq_Apps : gmap string AppRequirement }.

Record Compatibility := { co_MinGestaltdVersion : string }.

Record Entry := {
  en_SchemaVersion : Z;
  en_App : string;
  en_Version : string;
  en_SourceRef : string;
  en_ManifestPath : string;
  en_Repository : string;
  en_Publication : option Retention.Publication;
  en_PublicationKind : string;
  en_PublishID : string;
  en_BuilderVersion : string;
  en_DeclarationDigest : string;
  en_LocalSource : option Retention.LocalSourceState;
  en_Artifacts : gmap string Artifact;
  en_Interface : Interface;
  en_Requires : Requires;
  en_Compatibility : Compatibility;
  en_PublishedAt : time;
  en_PublishStartedAt : option time }.

Definition set_artifacts (e : Entry) (artifacts : gmap string Artifact) : Entry :=
  {| en_SchemaVersion := en_SchemaVersion e; en_App := en_App e; en_Version := en_Version e;
     en_SourceRef := en_SourceRef e; en_ManifestPath := en_ManifestPath e;
     en_Repository := en_Repository e; en_Publication := en_Publication e;
     en_PublicationKind := en_PublicationKind e; en_PublishID := en_PublishID e;
     en_BuilderVersion := en_BuilderVersion e; en_DeclarationDigest := en_DeclarationDigest e;
     en_LocalSource := en_LocalSource e; en_Artifacts := artifacts;
     en_Interface := en_Interface e; en_Requires := en_Requires e;
     en_Compatibility := en_Compatibility e; en_PublishedAt := en_PublishedAt e;
     en_PublishStartedAt := en_PublishStartedAt e |}.

(** ** Libraries *)

Record Semver := {
  version : Type;
  constraint : Type;
  NewVersion : string → option version;
  NewConstraint : string → option constraint;
  LessThan : version → version → bool;
  Check_ : constraint → version → bool;
  Prerelease : version → string;
  Major : version → N;
  Minor : version → N;
  Patch : version → N }.

Record url := { url_Scheme : string; url_Host : string; url_Path : string }.

Record Codecs := {
  ParseURL : string → option url;
  CleanPath : string → string;
  SHA256Hex : string → string }.

Inductive ReadError := ErrRegistryDocumentNotFound | ErrRead.

Inductive InstallValidationReason :=
  | PlatformArtifactMissing
  | GestaltdVersionIncompatible
  | GestaltdVersionInvalid
  | GestaltdVersionUnknown
  | DependencyNotInstalled
  | DependencyVersionUnsatisfied
  | DependencyMetadataMissing
  | DependencyOperationMissing
  | DependencyOperationSchema
  | ReverseDependentMetadataMissing
  | ReverseDependentVersionUnsatisfied
  | ReverseDependentOperationMissing
  | ReverseDependentOperationSchema.

(** Why a registry entry could not be fetched. *)
Inductive SourceReadError :=
  | ErrAppRegistryNotConfigured (registry : string)
  | ErrRegistryKind
  | ErrRegistryURL (e : ConfigError)
  | ErrFetchEntry (e : ReadError)
  | ErrEntryApp (app requested : string)
  | ErrEntryVersion (version requested : string)
  | ErrArtifactURL (platform : string)
  | ErrRegistryRequired.

Inductive ValidationError :=
  | ErrInstallValidationFailed (reason : InstallValidationReason) (detail : string)
  | ErrValidatorNotConfigured
  | ErrListKnown (e : ChangeRequests.ChangeRequestError)
  | ErrSource (subject : string) (e : SourceReadError).

(** ** Semantic-version constraints *)

Section validator.
  Context (sv : Semver) (cd : Codecs).

Definition is_digit (a : ascii) : bool := byte_in 48 57 a.
Definition is_alnum (a : ascii) : bool := is_digit a || byte_in 65 90 a || byte_in 97 122 a.

(** One or more digits, then [c]. *)
Fixpoint digits_then (c : ascii) (s : string) : option string :=
  match s with
  | String a s' =>
      if is_digit a
      then match s' with
           | String b s'' => if decide (b = c) then Some s'' else digits_then c s'
           | EmptyString => None
           end
      else None
  | EmptyString => None
  end.

(** [\d+\.\d+\.\d+-[0-9A-Za-z][0-9A-Za-z.-]*] somewhere in the text. *)
Definition prerelease_here (s : string) : bool :=
  match (s ← digits_then "." s; s ← digits_then "." s; digits_then "-" s) with
  | Some (String a _) => is_alnum a
  | _ => false
  end.

Fixpoint constraintContainsPrerelease (s : string) : bool :=
  prerelease_here s
  || match s with EmptyString => false | String _ s => constraintContainsPrerelease s end.

Definition versionSatisfiesConstraint (v c : string) (matchPrereleaseReleaseLine : bool) : bool :=
  let v := TrimSpace v in
  let c := TrimSpace c in
  if decide (v = "") then false else
  if decide (c = "") then true else
  match NewVersion sv v, NewConstraint sv c with
  | Some parsed, Some con =>
      if Check_ sv con parsed then true
      else if negb matchPrereleaseReleaseLine || bool_decide (Prerelease sv parsed = "")
              || constraintContainsPrerelease c
      then false
      else match NewVersion sv (pretty (Major sv parsed) +:+ "." +:+ pretty (Minor sv parsed)
                                +:+ "." +:+ pretty (Patch sv parsed)) with
           | Some release => Check_ sv con release
           | None => false
           end
  | _, _ => false
  end.

Definition VersionSatisfiesFleetConstraint (v c : string) : bool :=
  versionSatisfiesConstraint v c true.

(** ** Reading entries *)

Definition PathJoin (parts : list string) : string :=
  match filter (λ p, p ≠ "") parts with
  | [] => ""
  | parts => CleanPath cd (AppSources.Join parts "/")
  end.

Definition AppArtifactPrefix (appName version : string) : string :=
  PathJoin ["apps"; appName; "artifacts"; version].
Definition AppVersionEntryPath (appName version : string) : string :=
  PathJoin ["apps"; appName; "versions"; version +:+ ".json"].
Definition PublicURL (publicRoot rel : string) : string :=
  AppSources.TrimRightByte (TrimSpace publicRoot) "/" +:+ "/" +:+ AppSources.TrimLeftByte rel "/".

(** The public URL of one artifact; [None] for an artifact that is not a [gs] object. *)
Definition relocateArtifact (e : Entry) (publicRoot : string) (a : Artifact)
    : result unit (option Artifact) :=
  match ParseURL cd (TrimSpace (art_URL a)) with
  | None => Ok None
  | Some parsed =>
      if negb (bool_decide (lower_ascii_string (url_Scheme parsed) = "gs")) then Ok None else
      let objectPath := TrimPrefix (url_Path parsed) "/" in
      let expectedPrefix := AppArtifactPrefix (en_App e) (en_Version e) +:+ "/" in
      if bool_decide (url_Host parsed = "") || negb (bool_decide (CleanPath cd objectPath = objectPath))
         || negb (HasPrefix objectPath expectedPrefix)
      then Err tt
      else Ok (Some {| art_URL := art_URL a; art_PublicURL := PublicURL publicRoot objectPath;
                       art_SHA256 := art_SHA256 a |})
  end.

Fixpoint relocateAll (e : Entry) (publicRoot : string) (artifacts : list (string * Artifact))
    (out : gmap string Artifact) : result SourceReadError (gmap string Artifact) :=
  match artifacts with
  | [] => Ok out
  | (platform, a) :: rest =>
      match relocateArtifact e publicRoot a with
      | Err _ => Err (ErrArtifactURL platform)
      | Ok None => relocateAll e publicRoot rest out
      | Ok (Some a) => relocateAll e publicRoot rest (<[platform := a]> out)
      end
  end.

Definition relocateGCSArtifactURLs (e : Entry) (publicRoot : string) : result SourceReadError Entry :=
  let! artifacts := relocateAll e publicRoot (map_to_list (en_Artifacts e)) (en_Artifacts e) in
  Ok (set_artifacts e artifacts).

Record configuredRegistryEntry := { cre_PublicRoot : string; cre_Entry : Entry }.

Definition Registry := string → string → string → result ReadError Entry.

Definition fetchConfiguredRegistryEntry (registries : gmap string AppRegistryConfig)
    (FetchEntry : Registry) (registryName appName version : string)
    : result SourceReadError configuredRegistryEntry :=
  match registries !! registryName with
  | None => Err (ErrAppRegistryNotConfigured registryName)
  | Some registry =>
      if decide (TrimSpace (reg_Kind registry) ≠ AppRegistryKindGCS) then Err ErrRegistryKind else
      match ConfigPublicURL registry with
      | Err e => Err (ErrRegistryURL e)
      | Ok publicRoot =>
          match FetchEntry publicRoot appName version with
          | Err e => Err (ErrFetchEntry e)
          | Ok entry =>
              if decide (en_App entry ≠ appName) then Err (ErrEntryApp (en_App entry) appName) else
              if decide (en_Version entry ≠ version)
              then Err (ErrEntryVersion (en_Version entry) version) else
              let! entry := relocateGCSArtifactURLs entry publicRoot in
              Ok {| cre_PublicRoot := publicRoot; cre_Entry := entry |}
          end
      end
  end.

Record registryArtifact := { ra_URL : string; ra_SHA256 : string }.

Definition resolveRegistryArtifact (entry : Entry) (platform : string)
    : result string registryArtifact :=
  match en_Artifacts entry !! platform with
  | None => Err ("registry entry has no artifact for platform " +:+ platform)
  | Some a =>
      let publicURL := TrimSpace (art_PublicURL a) in
      let artifactURL := if decide (publicURL = "") then TrimSpace (art_URL a) else publicURL in
      if decide (artifactURL = "")
      then Err ("registry entry artifact for platform " +:+ platform +:+ " has no download URL") else
      let expectedSHA := TrimSpace (art_SHA256 a) in
      if decide (expectedSHA = "")
      then Err ("registry entry artifact for platform " +:+ platform +:+ " is missing sha256") else
      Ok {| ra_URL := artifactURL; ra_SHA256 := expectedSHA |}
  end.

(** ** Checks *)

Definition gestaltdVersionCheckSkipped (running : string) : bool :=
  let running := TrimSpace running in
  bool_decide (running = "dev") || bool_decide (running = "(devel)") || HasPrefix running "0.0.0-ci".

Definition validateGestaltdCompatibility (running : string) (compatibility : Compatibility)
    : result ValidationError unit :=
  let minVersion := TrimSpace (co_MinGestaltdVersion compatibility) in
  if decide (minVersion = "") then Ok tt else
  let running := TrimSpace running in
  if gestaltdVersionCheckSkipped running then Ok tt else
  match NewVersion sv running with
  | None => Err (ErrInstallValidationFailed GestaltdVersionUnknown
                   "cannot determine running gestaltd version")
  | Some runningVersion =>
      match NewVersion sv minVersion with
      | None => Err (ErrInstallValidationFailed GestaltdVersionInvalid
                       ("registry version has invalid minGestaltdVersion " +:+ minVersion))
      | Some required =>
          if LessThan sv runningVersion required
          then Err (ErrInstallValidationFailed GestaltdVersionIncompatible
                      ("registry version requires gestaltd " +:+ minVersion +:+ " or newer"))
          else Ok tt
      end
  end.

(** Per app, the installation of its latest known version. *)
Definition indexKnownInstallations (installations : list AppInstallation)
    : gmap string AppInstallation :=
  let byApp := foldl (λ m i, ChangeRequests.push m (TrimSpace (ai_AppName i)) i) ∅ installations in
  omap (λ versions,
    let version := LatestKnownVersion (Some <$> versions) in
    if decide (version = "") then None
    else list_find (λ i, TrimSpace (ai_Version i) = version) versions ≫= λ p, Some p.2) byApp.

Definition InputSchemaHash (schema : string) : string :=
  if decide (schema = "") then "" else "sha256:" +:+ SHA256Hex cd schema.

Definition validateRequiredOperations (required : gmap string OperationRequirement)
    (published : Interface) (subject : string) (missingReason schemaReason : InstallValidationReason)
    : result ValidationError unit :=
  each (λ '(opName, requirement),
    let opName := TrimSpace opName in
    if decide (opName = "") then Ok tt else
    match if_Operations published !! opName with
    | None => Err (ErrInstallValidationFailed missingReason
                     (subject +:+ ": operation " +:+ opName +:+ " is not published"))
    | Some contract =>
        let expectedHash := TrimSpace (or_InputSchemaHash requirement) in
        if decide (expectedHash = "") then Ok tt else
        if decide (InputSchemaHash (oc_InputSchema contract) ≠ expectedHash)
        then Err (ErrInstallValidationFailed schemaReason
                    (subject +:+ ": operation " +:+ opName +:+ " input schema hash mismatch"))
        else Ok tt
    end) (map_to_list required).

Definition names_app (key app : string) : bool :=
  match AppSources.RequirementAppName key with
  | Ok name => bool_decide (name = app)
  | Err _ => false
  end.

Definition requirementForApp (requires : Requires) (targetApp : string) : option AppRequirement :=
  let targetApp := TrimSpace targetApp in
  if decide (targetApp = "") then None else
  match rq_Apps requires !! targetApp with
  | Some requirement => Some requirement
  | None =>
      list_find (λ kv, names_app kv.1 targetApp = true)
        (map_to_list (rq_Apps requires)) ≫= λ p, Some p.2.2
  end.

Record ValidateInput := {
  vi_Registry : string;
  vi_App : string;
  vi_Version : string;
  vi_Entry : option Entry }.

Record InstallValidator := {
  va_Registries : gmap string AppRegistryConfig;
  va_ConfigApps : option (gmap string ProviderEntry);
  va_FetchEntry : Registry;
  va_ChangeRequests : bool;
  va_GestaltdVersion : string;
  va_Platform : string }.

Definition configEntry (v : InstallValidator) (appName : string) : option ProviderEntry :=
  apps ← va_ConfigApps v; apps !! appName.

Definition configPinnedDependency (v : InstallValidator) (appName : string) : bool :=
  match configEntry v appName with
  | None => false
  | Some entry =>
      let s := pe_Source entry in
      if IsRegistry s then false
      else bool_decide (ResolvedPackageVersion s ≠ "") || IsGit s || IsGitHubRelease s
           || IsPackage s || IsLocal s || IsBuiltin s || IsMetadataURL s || IsLocalMetadataPath s
  end.

Definition configuredForRuntime (v : InstallValidator) (appName : string) : bool :=
  match va_ConfigApps v with
  | None => true
  | Some apps => bool_decide (is_Some (apps !! appName))
  end.

Definition fetchPublishedEntry (v : InstallValidator) (registryName appName version : string)
    : result SourceReadError Entry :=
  let registryName := TrimSpace registryName in
  if decide (registryName = "") then Err ErrRegistryRequired else
  let registryApp :=
    match configEntry v appName with
    | Some entry => RegistryAppName (pe_Source entry) appName
    | None => appName
    end in
  let! source := fetchConfiguredRegistryEntry (va_Registries v) (va_FetchEntry v)
                   registryName registryApp version in
  Ok (cre_Entry source).

Definition validationFetchError (reason : InstallValidationReason) (subject : string)
    (e : SourceReadError) : ValidationError :=
  match e with
  | ErrFetchEntry ErrRegistryDocumentNotFound =>
      ErrInstallValidationFailed reason (subject +:+ ": published metadata not found")
  | _ => ErrSource subject e
  end.

Definition validateDependency (v : InstallValidator) (knownByApp : gmap string AppInstallation)
    (dep : string * AppRequirement) : result ValidationError unit :=
  let '(depKey, requirement) := dep in
  match AppSources.RequirementAppName depKey with
  | Err _ => Err (ErrInstallValidationFailed DependencyNotInstalled
                    ("dependency " +:+ depKey +:+ ": invalid app name"))
  | Ok depApp =>
      if configPinnedDependency v depApp then Ok tt else
      match knownByApp !! depApp with
      | None => Err (ErrInstallValidationFailed DependencyNotInstalled
                       ("dependency " +:+ depApp +:+ ": fleet-known version not installed"))
      | Some installation =>
          let depVersion := TrimSpace (ai_Version installation) in
          let con := TrimSpace (rq_Version requirement) in
          if negb (bool_decide (con = "")) && negb (VersionSatisfiesFleetConstraint depVersion con)
          then Err (ErrInstallValidationFailed DependencyVersionUnsatisfied
                      ("dependency " +:+ depApp +:+ ": fleet-known version " +:+ depVersion
                       +:+ " does not satisfy " +:+ con))
          else if decide (rq_Operations requirement = ∅) then Ok tt else
          match fetchPublishedEntry v (ai_Registry installation) depApp depVersion with
          | Err e => Err (validationFetchError DependencyMetadataMissing ("dependency " +:+ depApp) e)
          | Ok depEntry =>
              validateRequiredOperations (rq_Operations requirement) (en_Interface depEntry)
                ("dependency " +:+ depApp) DependencyOperationMissing DependencyOperationSchema
          end
      end
  end.

Definition validateDeclaredDependencies (v : InstallValidator) (entry : Entry)
    (knownByApp : gmap string AppInstallation) : result ValidationError unit :=
  each (validateDependency v knownByApp) (map_to_list (rq_Apps (en_Requires entry))).

Definition validateReverseDependent (v : InstallValidator) (targetApp candidateVersion : string)
    (entry : Entry) (dependent : string * AppInstallation) : result ValidationError unit :=
  let '(appName, installation) := dependent in
  if bool_decide (appName = targetApp) then Ok tt else
  if negb (configuredForRuntime v appName) then Ok tt else
  match fetchPublishedEntry v (ai_Registry installation) appName (ai_Version installation) with
  | Err (ErrFetchEntry ErrRegistryDocumentNotFound) => Ok tt
  | Err (ErrAppRegistryNotConfigured r) =>
      Err (ErrSource ("reverse dependent " +:+ appName) (ErrAppRegistryNotConfigured r))
  | Err e => Err (validationFetchError ReverseDependentMetadataMissing
                    ("reverse dependent " +:+ appName) e)
  | Ok dependentEntry =>
      match requirementForApp (en_Requires dependentEntry) targetApp with
      | None => Ok tt
      | Some requirement =>
          let con := TrimSpace (rq_Version requirement) in
          if negb (bool_decide (con = ""))
             && negb (VersionSatisfiesFleetConstraint candidateVersion con)
          then Err (ErrInstallValidationFailed ReverseDependentVersionUnsatisfied
                      ("reverse dependent " +:+ appName +:+ ": candidate version "
                       +:+ candidateVersion +:+ " does not satisfy " +:+ con))
          else validateRequiredOperations (rq_Operations requirement) (en_Interface entry)
                 ("reverse dependent " +:+ appName +:+ " requires candidate " +:+ targetApp)
                 ReverseDependentOperationMissing ReverseDependentOperationSchema
      end
  end.

Definition validateReverseDependents (v : InstallValidator) (app version : string) (entry : Entry)
    (knownByApp : gmap string AppInstallation) : result ValidationError unit :=
  each (validateReverseDependent v (TrimSpace app) (TrimSpace version) entry)
    (map_to_list knownByApp).

(** ** The validator

    [platform] is the platform of the process, [buildVersion] the version of its build
    information, empty when there is none. *)

Definition gestaltdVersion (v : InstallValidator) (buildVersion : string) : string :=
  if decide (TrimSpace (va_GestaltdVersion v) ≠ "") then TrimSpace (va_GestaltdVersion v) else
  let version := TrimSpace buildVersion in
  if bool_decide (version ≠ "") && bool_decide (version ≠ "(devel)") then version else "dev".

(** The checks before the store is read. *)
Definition validateEntryAlone (v : InstallValidator) (platform buildVersion : string)
    (entry : option Entry) : result ValidationError Entry :=
  match entry with
  | None => Err (ErrInstallValidationFailed PlatformArtifactMissing "registry entry is required")
  | Some entry =>
      let platform := if decide (TrimSpace (va_Platform v) = "") then platform
                      else TrimSpace (va_Platform v) in
      match resolveRegistryArtifact entry platform with
      | Err e => Err (ErrInstallValidationFailed PlatformArtifactMissing e)
      | Ok _ =>
          let! _ := validateGestaltdCompatibility (gestaltdVersion v buildVersion)
                      (en_Compatibility entry) in
          if negb (va_ChangeRequests v) then Err ErrValidatorNotConfigured else Ok entry
      end
  end.

(** The checks against the installed apps. *)
Definition validateAgainstFleet (v : InstallValidator) (input : ValidateInput) (entry : Entry)
    (knownInstallations : list AppInstallation) : result ValidationError unit :=
  let knownByApp := indexKnownInstallations knownInstallations in
  let! _ := validateDeclaredDependencies v entry knownByApp in
  validateReverseDependents v (vi_App input) (vi_Version input) entry knownByApp.

Section store.
  Context `{TP : TimeParser, JC : ChangeRequests.JSONCodec, SP : ChangeRequests.Sprinter}
          {W : Type} `{OS : ObjectStore W}.

Definition ValidateInstall (v : InstallValidator) (platform buildVersion : string)
    (input : ValidateInput) : prog (Env W) (result ValidationError unit) :=
  match validateEntryAlone v platform buildVersion (vi_Entry input) with
  | Err e => mret (Err e)
  | Ok entry =>
      known ← ChangeRequests.ListAllKnownVersions true;
      mret (match known with
            | Err e => Err (ErrListKnown e)
            | Ok known => validateAgainstFleet v input entry known
            end)
  end.
End store.

(** ** A consistent fleet *)

(** The operations an app calls are published, with the input schema it expects. *)
Definition operations_met (required : gmap string OperationRequirement) (published : Interface) : Prop :=
  ∀ op r, required !! op = Some r → TrimSpace op ≠ "" →
    ∃ c, if_Operations published !! TrimSpace op = Some c
      ∧ (TrimSpace (or_InputSchemaHash r) = ""
         ∨ InputSchemaHash (oc_InputSchema c) = TrimSpace (or_InputSchemaHash r)).

(** The version and the interface of a dependency meet a requirement. *)
Definition met_by (requirement : AppRequirement) (version : string) (published : Interface) : Prop :=
  (TrimSpace (rq_Version requirement) = ""
   ∨ VersionSatisfiesFleetConstraint version (TrimSpace (rq_Version requirement)) = true)
  ∧ operations_met (rq_Operations requirement) published.

Definition publishedEntry (v : InstallValidator) (app : string) (i : AppInstallation)
    : result SourceReadError Entry :=
  fetchPublishedEntry v (ai_Registry i) app (ai_Version i).

(** A requirement holds when its app is pinned by the configuration, or installed in a
    version that meets it. *)
Definition requirement_met (v : InstallValidator) (known : gmap string AppInstallation)
    (key : string) (requirement : AppRequirement) : Prop :=
  ∃ dep, AppSources.RequirementAppName key = Ok dep
    ∧ (configPinnedDependency v dep = true
       ∨ ∃ i e, known !! dep = Some i ∧ publishedEntry v dep i = Ok e
                ∧ met_by requirement (ai_Version i) (en_Interface e)).

(** Every installed app that is configured to run has all its requirements met. *)
Definition fleet_consistent (v : InstallValidator) (known : gmap string AppInstallation) : Prop :=
  ∀ app i e, known !! app = Some i → configuredForRuntime v app = true →
    publishedEntry v app i = Ok e →
    ∀ key requirement, rq_Apps (en_Requires e) !! key = Some requirement →
      requirement_met v known key requirement.

(** The installed apps are published under trimmed versions, and none spells a
    requirement on [target] in two ways. *)
Definition published_once (v : InstallValidator) (known : gmap string AppInstallation)
    (target : string) : Prop :=
  ∀ app i, known !! app = Some i →
    TrimSpace (ai_Version i) = ai_Version i
    ∧ ∃ e, publishedEntry v app i = Ok e
        ∧ ∀ k1 k2 r1 r2, rq_Apps (en_Requires e) !! k1 = Some r1 →
            rq_Apps (en_Requires e) !! k2 = Some r2 →
            names_app k1 target = true → names_app k2 target = true → k1 = k2.

Lemma each_map_ok {A} (f : string * A → result ValidationError unit) (m : gmap string A) :
  each f (map_to_list m) = Ok tt ↔ ∀ k x, m !! k = Some x → f (k, x) = Ok tt.
Proof.
  rewrite each_ok. split.
  - intros H k x Hx. by apply H, elem_of_map_to_list.
  - intros H [k x] Hx%elem_of_map_to_list. auto.
Qed.

Lemma validateRequiredOperations_ok required published subject r1 r2 :
  validateRequiredOperations required published subject r1 r2 = Ok tt ↔
  operations_met required published.
Proof.
  unfold validateRequiredOperations, operations_met. rewrite each_map_ok.
  split; intros H op r Hop; specialize (H op r Hop); cbn in *.
  - intros Hne. rewrite decide_False in H by done.
    destruct (if_Operations published !! TrimSpace op) as [c|]; [|done]. exists c. split; [done|].
    case_decide; [by left|]. right.
    destruct (decide (InputSchemaHash (oc_InputSchema c) = TrimSpace (or_InputSchemaHash r))) as [|Hh];
      [done|]. by rewrite decide_True in H.
  - case_decide as Hne; [done|]. destruct (H Hne) as (c & -> & Hc).
    case_decide as Hh; [done|]. rewrite decide_False; [done|]. intros Hn. by destruct Hc.
Qed.

Lemma names_app_spec key app : names_app key app = true ↔ AppSources.RequirementAppName key = Ok app.
Proof.
  unfold names_app. destruct (AppSources.RequirementAppName key); [|done].
  rewrite bool_decide_eq_true. naive_solver.
Qed.

(** [requirementForApp] finds the requirement on an app that is spelled once. *)
Lemma requirementForApp_spec requires app key r :
  app ≠ "" → TrimSpace app = app → names_app app app = true →
  (∀ k1 k2 r1 r2, rq_Apps requires !! k1 = Some r1 → rq_Apps requires !! k2 = Some r2 →
     names_app k1 app = true → names_app k2 app = true → k1 = k2) →
  rq_Apps requires !! key = Some r → names_app key app = true →
  requirementForApp requires app = Some r.
Proof.
  intros Hne Htrim Hself Huniq Hkey Hnames. unfold requirementForApp.
  rewrite Htrim, decide_False by done.
  destruct (rq_Apps requires !! app) as [r'|] eqn:E.
  { assert (key = app) as -> by eauto. congruence. }
  destruct (list_find _ _) as [[i [k x]]|] eqn:Ef; cbn.
  - apply list_find_Some in Ef as (Hi & Hk & _). cbn in Hk.
    apply list_elem_of_lookup_2, elem_of_map_to_list in Hi.
    assert (k = key) as -> by eauto. change (Some x = Some r). congruence.
  - apply list_find_None in Ef. rewrite Forall_forall in Ef.
    destruct (Ef (key, r)); [by apply elem_of_map_to_list|done].
Qed.

Lemma dependency_met v known target key r :
  published_once v known target → validateDependency v known (key, r) = Ok tt →
  requirement_met v known key r.
Proof.
  intros Hpub. unfold validateDependency, requirement_met.
  destruct (AppSources.RequirementAppName key) as [dep|]; [|done]. intros H. exists dep.
  split; [done|]. destruct (configPinnedDependency v dep); [by left|]. right.
  destruct (known !! dep) as [i|] eqn:Hi; [|done].
  destruct (Hpub dep i Hi) as (Htrim & e & He & _). exists i, e. split; [done|]. split; [done|].
  rewrite Htrim in H. unfold met_by.
  destruct (negb (bool_decide (TrimSpace (rq_Version r) = ""))
            && negb (VersionSatisfiesFleetConstraint (ai_Version i) (TrimSpace (rq_Version r)))) eqn:Ec;
    [done|].
  split.
  { apply andb_false_iff in Ec as [Ec|Ec]; bool_props; auto. }
  case_decide as Hops.
  { rewrite Hops. intros op x Hx. by rewrite lookup_empty in Hx. }
  unfold publishedEntry in He. rewrite He in H. by apply validateRequiredOperations_ok in H.
Qed.

Lemma dependent_met v known target version entry app i e key r :
  target ≠ "" → TrimSpace target = target → names_app target target = true →
  published_once v known target →
  validateReverseDependents v target version entry known = Ok tt → TrimSpace version = version →
  known !! app = Some i → app ≠ target → configuredForRuntime v app = true →
  publishedEntry v app i = Ok e → rq_Apps (en_Requires e) !! key = Some r →
  names_app key target = true → met_by r version (en_Interface entry).
Proof.
  intros Hne Htrim Hself Hpub Hval Hv Hi Happ Hconf He Hkey Hnames.
  unfold validateReverseDependents in Hval. rewrite each_map_ok in Hval.
  specialize (Hval app i Hi). rewrite Htrim, Hv in Hval. unfold validateReverseDependent in Hval.
  rewrite bool_decide_eq_false_2, Hconf in Hval by done. cbn [negb] in Hval.
  unfold publishedEntry in He. rewrite He in Hval.
  destruct (Hpub app i Hi) as (_ & e' & He' & Huniq).
  unfold publishedEntry in He'. rewrite He in He'. injection He' as <-.
  rewrite (requirementForApp_spec _ _ key r) in Hval by (done || eauto).
  destruct (negb (bool_decide (TrimSpace (rq_Version r) = ""))
            && negb (VersionSatisfiesFleetConstraint version (TrimSpace (rq_Version r)))) eqn:Ec; [done|].
  split; [|by apply validateRequiredOperations_ok in Hval].
  apply andb_false_iff in Ec as [Ec|Ec]; bool_props; auto.
Qed.

Lemma validated_consistent v known target i entry :
  fleet_consistent v known → published_once v known target →
  target ≠ "" → TrimSpace target = target → names_app target target = true →
  TrimSpace (ai_Version i) = ai_Version i → publishedEntry v target i = Ok entry →
  (∀ key r, rq_Apps (en_Requires entry) !! key = Some r → names_app key target = false) →
  validateDeclaredDependencies v entry known = Ok tt →
  validateReverseDependents v target (ai_Version i) entry known = Ok tt →
  fleet_consistent v (<[target := i]> known).
Proof.
  intros Hcons Hpub Hne Htrim Hself Hv Hentry Hnoself Hdeps Hrev app j e Hj Hconf He key r Hkey.
  assert (Hmet : requirement_met v known key r
    ∧ (names_app key target = true → met_by r (ai_Version i) (en_Interface entry))).
  { apply lookup_insert_Some in Hj as [[<- <-]|[Happ Hj]].
    - assert (e = entry) as -> by congruence. split.
      + unfold validateDeclaredDependencies in Hdeps. rewrite each_map_ok in Hdeps.
        by eapply dependency_met, Hdeps.
      + intros Hn. by rewrite (Hnoself key r Hkey) in Hn.
    - split; [by eapply Hcons|]. by eapply dependent_met. }
  destruct Hmet as [(dep & Hdep & [Hpin|(i' & e' & Hi' & He' & Hmet)]) Htarget]; exists dep; split; auto.
  right. destruct (decide (dep = target)) as [->|Hdt].
  - exists i, entry. rewrite lookup_insert_eq. split_and!; [done..|]. apply Htarget.
    by apply names_app_spec.
  - exists i', e'. by rewrite lookup_insert_ne.
Qed.

Section consistency.
  Context `{TP : TimeParser, JC : ChangeRequests.JSONCodec, SP : ChangeRequests.Sprinter}
          {W : Type} `{OS : ObjectStore W}.

(** The latest installation of every app in the history. *)
Definition installed (w : W) : gmap string AppInstallation :=
  indexKnownInstallations
    (ChangeRequests.knownVersionsFromRequests
       (map ChangeRequests.recordToAppVersionChangeRequest (sorted_rows (rows w)))).

Lemma ValidateInstall_ok v platform buildVersion input (env : Env W) :
  (run (ValidateInstall v platform buildVersion input) env).1 = Ok tt →
  ∃ entry, validateEntryAlone v platform buildVersion (vi_Entry input) = Ok entry
    ∧ validateDeclaredDependencies v entry (installed (contents env)) = Ok tt
    ∧ validateReverseDependents v (vi_App input) (vi_Version input) entry (installed (contents env))
      = Ok tt.
Proof.
  unfold ValidateInstall. destruct (validateEntryAlone _ _ _ _) as [entry|] eqn:E; [|done].
  intros H. exists entry. split; [done|]. revert H.
  pattern (run (known ← ChangeRequests.ListAllKnownVersions true;
                mret (match known with
                      | Err e => Err (ErrListKnown e)
                      | Ok known => validateAgainstFleet v input entry known
                      end)) env).1.
  match goal with |- ?P _ => enough (wp (known ← ChangeRequests.ListAllKnownVersions true;
                mret (match known with
                      | Err e => Err (ErrListKnown e)
                      | Ok known => validateAgainstFleet v input entry known
                      end)) (λ r _, P r) env) by done end.
  wp_step. unfold ChangeRequests.ListAllKnownVersions, ChangeRequests.listAllRequests. cbn [negb].
  wp_step. wp_step. wp_step; intros env' _ Hc; repeat wp_step; cbn [rbind]; [done|].
  unfold validateAgainstFleet. intros ([] & Hd & Hr)%rbind_ok. done.
Qed.

(** C31.  Installing a version that passed validation keeps the fleet consistent: when
    every configured app has its requirements met by the installed versions, this is
    still so once the candidate is the installed version of its app.  Its own
    requirements hold as well, and it has an artifact for the platform.  The entries of
    the installed apps must be readable, no app may require the candidate's app under
    two spellings, and the candidate must not require itself. *)
Theorem ValidateInstall_keeps_fleet_consistent v platform buildVersion input entry i (env : Env W) :
  (run (ValidateInstall v platform buildVersion input) env).1 = Ok tt →
  vi_Entry input = Some entry →
  let target := vi_App input in
  target ≠ "" → TrimSpace target = target → names_app target target = true →
  ai_Version i = vi_Version input → TrimSpace (vi_Version input) = vi_Version input →
  publishedEntry v target i = Ok entry →
  (∀ key r, rq_Apps (en_Requires entry) !! key = Some r → names_app key target = false) →
  published_once v (installed (contents env)) target →
  fleet_consistent v (installed (contents env)) →
  fleet_consistent v (<[target := i]> (installed (contents env)))
  ∧ is_Some (en_Artifacts entry !! (if decide (TrimSpace (va_Platform v) = "") then platform
                                    else TrimSpace (va_Platform v))).
Proof.
  intros Hrun Hin. cbn zeta. intros Hne Htrim Hself Hv Htv Hentry Hnoself Hpub Hcons.
  destruct (ValidateInstall_ok _ _ _ _ _ Hrun) as (entry' & Halone & Hdeps & Hrev).
  rewrite Hin in Halone. unfold validateEntryAlone in Halone.
  destruct (resolveRegistryArtifact entry _) eqn:Ea; [|done].
  apply rbind_ok in Halone as (u & _ & Halone).
  assert (entry' = entry) as -> by (destruct (va_ChangeRequests v); by simplify_eq/=).
  rewrite <-Hv in *. split; [by eapply validated_consistent|].
  unfold resolveRegistryArtifact in Ea. by destruct (en_Artifacts entry !! _).
Qed.
End consistency.
End validator.

(** ** A concrete fleet *)

Section demo.
#[local] Existing Instances Rfc3339.go_time_parser ChangeRequests.bit_codec
  ChangeRequests.plain_sprinter.

(** Versions compared as text, and identity codecs. *)
Definition text_semver : Semver :=
  {| version := string; constraint := string; NewVersion := Some; NewConstraint := Some;
     LessThan := str_ltb; Check_ c v := bool_decide (c = v); Prerelease _ := "";
     Major _ := 0%N; Minor _ := 0%N; Patch _ := 0%N |}.
Definition id_codecs : Codecs :=
  {| ParseURL _ := None; CleanPath s := s; SHA256Hex s := s |}.

Definition demo_entry (app version : string) (operations : list string)
    (requires : gmap string AppRequirement) : Entry :=
  {| en_SchemaVersion := 1; en_App := app; en_Version := version; en_SourceRef := "";
     en_ManifestPath := "m"; en_Repository := ""; en_Publication := None; en_PublicationKind := "";
     en_PublishID := ""; en_BuilderVersion := ""; en_DeclarationDigest := ""; en_LocalSource := None;
     en_Artifacts := {[ "linux/amd64" := {| art_URL := "u"; art_PublicURL := "p"; art_SHA256 := "s" |} ]};
     en_Interface := {| if_Operations :=
       list_to_map (map (λ o, (o, {| oc_InputSchema := "{}"; oc_OutputSchema := "" |})) operations) |};
     en_Requires := {| rq_Apps := requires |};
     en_Compatibility := {| co_MinGestaltdVersion := "" |};
     en_PublishedAt := 1; en_PublishStartedAt := None |}.

Definition shop_requires : gmap string AppRequirement :=
  {[ "base" := {| rq_Version := ""; rq_Operations :=
       {[ "list" := {| or_InputSchemaHash := "sha256:{}" |} ]} |} ]}.

Definition demo_fetch : Registry := λ _ app version,
  if decide (app = "shop") then Ok (demo_entry "shop" version ["buy"] shop_requires)
  else if decide (app = "base") then Ok (demo_entry "base" version ["list"] ∅)
  else Err ErrRegistryDocumentNotFound.

Definition demo_validator : InstallValidator :=
  {| va_Registries := {[ "main" := {| reg_Kind := "gcs"; reg_Auth := "";
       reg_GCS := Some {| gcs_Bucket := "apps" |}; reg_Retention := None |} ]};
     va_ConfigApps := None; va_FetchEntry := demo_fetch; va_ChangeRequests := true;
     va_GestaltdVersion := "dev"; va_Platform := "linux/amd64" |}.

Definition demo_row (id app : string) : idbRecord :=
  ChangeRequests.changeRequestRecord id app "none" "1.0.0" "ada" Second None
    {[ "registry" := AString "main" ]}.
Definition demo_db : gmap string idbRecord :=
  <["r1" := demo_row "r1" "base"]> (<["r2" := demo_row "r2" "shop"]> ∅).

Definition demo_installation (app version : string) : AppInstallation :=
  {| ai_AppName := app; ai_Version := version; ai_SourceRepository := ""; ai_SourceRef := "";
     ai_Registry := "main"; ai_ProviderReleaseURL := ""; ai_ArtifactChecksums := ∅;
     ai_InstalledBy := "ada"; ai_InstalledAt := Second; ai_UpdatedAt := Second |}.

Lemma demo_installed :
  installed demo_db = <["base" := demo_installation "base" "1.0.0"]>
                      (<["shop" := demo_installation "shop" "1.0.0"]> ∅).
Proof. vm_compute. reflexivity. Qed.

Lemma demo_published :
  publishedEntry id_codecs demo_validator "shop" (demo_installation "shop" "1.0.0")
    = Ok (demo_entry "shop" "1.0.0" ["buy"] shop_requires)
  ∧ publishedEntry id_codecs demo_validator "base" (demo_installation "base" "1.0.0")
    = Ok (demo_entry "base" "1.0.0" ["list"] ∅)
  ∧ publishedEntry id_codecs demo_validator "base" (demo_installation "base" "1.1.0")
    = Ok (demo_entry "base" "1.1.0" ["list"] ∅).
Proof. split_and!; vm_compute; reflexivity. Qed.

Lemma demo_met version :
  met_by text_semver id_codecs
    {| rq_Version := ""; rq_Operations := {[ "list" := {| or_InputSchemaHash := "sha256:{}" |} ]} |}
    version (en_Interface (demo_entry "base" version ["list"] ∅)).
Proof.
  split; [by left|]. intros op r Hop _. cbn [rq_Operations] in Hop.
  apply lookup_singleton_Some in Hop as [<- <-].
  eexists. split; [reflexivity|by right].
Qed.

Lemma demo_consistent :
  fleet_consistent text_semver id_codecs demo_validator (installed demo_db).
Proof.
  rewrite demo_installed. destruct demo_published as (Hshop & Hbase & _).
  intros app i e [[<- <-]|[_ [[<- <-]|[_ H]]%lookup_insert_Some]]%lookup_insert_Some _ He key r Hkey.
  - rewrite Hbase in He. injection He as <-. cbn in Hkey. by rewrite lookup_empty in Hkey.
  - rewrite Hshop in He. injection He as <-.
    change (shop_requires !! key = Some r) in Hkey. unfold shop_requires in Hkey.
    apply lookup_singleton_Some in Hkey as [<- <-].
    exists "base". split; [reflexivity|]. right. eexists _, _. split; [reflexivity|].
    split; [exact Hbase|]. apply demo_met.
  - by rewrite lookup_empty in H.
Qed.

Lemma demo_published_once : published_once id_codecs demo_validator (installed demo_db) "base".
Proof.
  rewrite demo_installed. destruct demo_published as (Hshop & Hbase & _).
  intros app i [[<- <-]|[_ [[<- <-]|[_ H]]%lookup_insert_Some]]%lookup_insert_Some.
  - split; [done|]. eexists. split; [exact Hbase|]. intros k1 k2 r1 r2 H1.
    cbn in H1. by rewrite lookup_empty in H1.
  - split; [done|]. eexists. split; [exact Hshop|]. intros k1 k2 r1 r2 H1 H2 _ _.
    change (shop_requires !! k1 = Some r1) in H1. change (shop_requires !! k2 = Some r2) in H2.
    unfold shop_requires in H1, H2.
    apply lookup_singleton_Some in H1 as [<- _], H2 as [<- _]. done.
  - by rewrite lookup_empty in H.
Qed.

(** Upgrading the app another one depends on, to a version that still publishes the
    operation it calls. *)
Lemma ValidateInstall_keeps_fleet_consistent_witness :
  fleet_consistent text_semver id_codecs demo_validator
    (<["base" := demo_installation "base" "1.1.0"]> (installed demo_db)).
Proof.
  destruct (ValidateInstall_keeps_fleet_consistent text_semver id_codecs demo_validator
    "linux/amd64" ""
    {| vi_Registry := "main"; vi_App := "base"; vi_Version := "1.1.0";
       vi_Entry := Some (demo_entry "base" "1.1.0" ["list"] ∅) |}
    (demo_entry "base" "1.1.0" ["list"] ∅) (demo_installation "base" "1.1.0") (mkEnv demo_db []))
    as [H _].
  - vm_compute. reflexivity.
  - reflexivity.
  - done.
  - reflexivity.
  - reflexivity.
  - reflexivity.
  - reflexivity.
  - apply demo_published.
  - intros key r Hkey. cbn in Hkey. by rewrite lookup_empty in Hkey.
  - apply demo_published_once.
  - apply demo_consistent.
  - exact H.
Defined.
End demo.

End InstallValidation.
