(* ===== verification/RegistryIndex.v ===== *)
(** * RegistryIndex: entries and indices of an app registry

    Models [gestaltd/internal/appregistry/registry.go] (building and checking the entry of
    a published version, and the per-app index that makes versions discoverable),
    [gestaltd/internal/appregistry/publish_validation.go],
    [gestaltd/services/apps/packageio/platform.go] and the listing of versions in
    [gestaltd/internal/appregistry/reader.go].

    Comparing two records by their JSON is comparing them as values: encoding fails
    exactly for times whose year has more than four digits.  Go ranges over a map in any
    order: the functions that do take the enumeration [order]. *)

From stdpp Require Import base gmap strings list sorting sets.
From Stdlib Require Import ZArith Ascii Lia.
From S2P Require Import Prelude Catalog RegistryTypes Rfc3339 AppSources Retention RegistryConfig InstallValidation.

Set Default Goal Selector "!".

Module RegistryIndex.
Import Retention(Index, AppVersions, IndexVersion, Publication, PublicationPullRequest,
  PublicationCommit, LocalSourceState).
Import InstallValidation(Artifact, OperationContract, Interface, OperationRequirement,
  AppRequirement, Requires, Compatibility, Entry, Codecs).

#[export] Instance PublicationPullRequest_eq_dec : EqDecision PublicationPullRequest.
Proof. solve_decision. Defined.
#[export] Instance PublicationCommit_eq_dec : EqDecision PublicationCommit.
Proof. solve_decision. Defined.
#[export] Instance Publication_eq_dec : EqDecision Publication.
Proof. solve_decision. Defined.
#[export] Instance LocalSourceState_eq_dec : EqDecision LocalSourceState.
Proof. solve_decision. Defined.
#[export] Instance IndexVersion_eq_dec : EqDecision IndexVersion.
Proof. solve_decision. Defined.
#[export] Instance Artifact_eq_dec : EqDecision Artifact.
Proof. solve_decision. Defined.
#[export] Instance OperationContract_eq_dec : EqDecision OperationContract.
Proof. solve_decision. Defined.
#[export] Instance Interface_eq_dec : EqDecision Interface.
Proof. solve_decision. Defined.
#[export] Instance OperationRequirement_eq_dec : EqDecision OperationRequirement.
Proof. solve_decision. Defined.
#[export] Instance AppRequirement_eq_dec : EqDecision AppRequirement.
Proof. solve_decision. Defined.
#[export] Instance Requires_eq_dec : EqDecision Requires.
Proof. solve_decision. Defined.
#[export] Instance Compatibility_eq_dec : EqDecision Compatibility.
Proof. solve_decision. Defined.
#[export] Instance Entry_eq_dec : EqDecision Entry.
Proof. solve_decision. Defined.

Definition IndexSchemaVersion : Z := 1.
Definition EntrySchemaVersion : Z := 1.
Definition IndexFileName : string := "index.json".

Definition PublicationKind := string.
Definition PublicationKindGitHub : PublicationKind := "github".
Definition PublicationKindLocal : PublicationKind := "local".

Inductive IndexError :=
  | ErrIndexRequired
  | ErrIndexSchema (v : Z)
  | ErrAppsRequired
  | ErrAppNameRequired
  | ErrNoVersions (app : string)
  | ErrVersionInvalid (version : string)
  | ErrMetadataRequired (app version : string)
  | ErrPublishedAtRequired (app version : string)
  | ErrSourceRefNeedsRepository
  | ErrSourceRefRequired
  | ErrSourceRefInvalid
  | ErrRepositoryRequired
  | ErrRepository (e : AppSources.SourceError)
  | ErrPublicationKind (kind : string)
  | ErrLocalSource
  | ErrWorkflowRunURL
  | ErrExactlyOneTrigger
  | ErrTriggerPullRequest
  | ErrTriggerCommitURL
  | ErrEntrySchema (v : Z)
  | ErrEntryApp
  | ErrManifestPath
  | ErrNoArtifacts
  | ErrPlatform (target : string)
  | ErrArtifactURLs (target : string)
  | ErrArtifactSHA (target : string)
  | ErrArtifactTarget
  | ErrDuplicateTarget (target : string)
  | ErrManifestRequired
  | ErrManifestKind (kind : string)
  | ErrManifestSource
  | ErrReleaseRequired
  | ErrAlreadyIndexed (app version : string)
  | ErrIndexVersionConflict (app version : string).

(** ** Validation of parts *)

Definition clonePublication (value : option Publication) : option Publication :=
  match value with
  | None => None
  | Some p =>
      Some {| Retention.pu_WorkflowRunURL := Retention.pu_WorkflowRunURL p;
              Retention.pu_TriggerPullRequest :=
                match Retention.pu_TriggerPullRequest p with Some t => Some t | None => None end;
              Retention.pu_TriggerCommit :=
                match Retention.pu_TriggerCommit p with Some t => Some t | None => None end |}
  end.

Definition cloneLocalSourceState (value : option LocalSourceState) : option LocalSourceState :=
  match value with None => None | Some s => Some s end.

Definition validatePublicationKind (kind : PublicationKind) : result IndexError unit :=
  if bool_decide (kind = "") || bool_decide (kind = PublicationKindGitHub)
     || bool_decide (kind = PublicationKindLocal)
  then Ok tt else Err (ErrPublicationKind kind).

Definition validateLocalSourceState (state : option LocalSourceState) : result IndexError unit :=
  match state with
  | None => Ok tt
  | Some s =>
      fail_if bool_decide (TrimSpace (Retention.ls_CommitSHA s) = "") && negb (Retention.ls_Dirty s)
              && negb (Retention.ls_Untracked s) with ErrLocalSource ;;
      Ok tt
  end.

Definition publicationKindRequiresSourceRef (kind : PublicationKind) : bool :=
  negb (bool_decide (kind = PublicationKindLocal)).

Definition lower_hex (a : ascii) : bool := byte_in 48 57 a || byte_in 97 102 a.

Definition validateSourceRef (sourceRef : string) : result IndexError unit :=
  let sourceRef := TrimSpace sourceRef in
  fail_if negb (String.length sourceRef =? 40) with ErrSourceRefInvalid ;;
  fail_if negb (forallb lower_hex (String.list_ascii_of_string sourceRef)) with ErrSourceRefInvalid ;;
  Ok tt.

Definition validatePublication (publication : option Publication) : result IndexError unit :=
  match publication with
  | None => Ok tt
  | Some p =>
      fail_if bool_decide (TrimSpace (Retention.pu_WorkflowRunURL p) = "") with ErrWorkflowRunURL ;;
      match Retention.pu_TriggerPullRequest p, Retention.pu_TriggerCommit p with
      | Some _, Some _ | None, None => Err ErrExactlyOneTrigger
      | Some pr, None =>
          fail_if (Retention.ppr_Number pr <=? 0)%Z
                  || bool_decide (TrimSpace (Retention.ppr_URL pr) = "") with ErrTriggerPullRequest ;;
          Ok tt
      | None, Some commit =>
          let! _ := validateSourceRef (Retention.pc_SHA commit) in
          fail_if bool_decide (TrimSpace (Retention.pc_URL commit) = "") with ErrTriggerCommitURL ;;
          Ok tt
      end
  end.

Definition lift_source {A} (r : result AppSources.SourceError A) : result IndexError A :=
  match r with Ok a => Ok a | Err e => Err (ErrRepository e) end.

Definition validateEntrySourceRef (entry : Entry) : result IndexError unit :=
  let sourceRef := TrimSpace (InstallValidation.en_SourceRef entry) in
  if decide (sourceRef ≠ "") then validateSourceRef sourceRef else
  if decide (InstallValidation.en_PublicationKind entry = PublicationKindLocal) then Ok tt
  else Err ErrSourceRefRequired.

Definition validateEntryRepositoryField (entry : Entry) : result IndexError unit :=
  let repository := TrimSpace (InstallValidation.en_Repository entry) in
  if decide (repository = "") then
    if decide (TrimSpace (InstallValidation.en_SourceRef entry) ≠ "") then Err ErrRepositoryRequired
    else Ok tt
  else lift_source (AppSources.validateEntryRepository repository (InstallValidation.en_App entry)).

Definition validateEntryPublicationMetadata (entry : Entry) : result IndexError unit :=
  let! _ := validatePublicationKind (InstallValidation.en_PublicationKind entry) in
  validateLocalSourceState (InstallValidation.en_LocalSource entry).

Definition validateIndexVersionSourceRef (appName : string) (release : IndexVersion)
    : result IndexError unit :=
  let sourceRef := TrimSpace (Retention.iv_SourceRef release) in
  let repository := TrimSpace (Retention.iv_Repository release) in
  fail_if bool_decide (sourceRef ≠ "") && bool_decide (repository = "")
    with ErrSourceRefNeedsRepository ;;
  let! _ := (if decide (sourceRef ≠ "") then validateSourceRef sourceRef else Ok tt) in
  let! _ := (if decide (repository ≠ "")
             then lift_source (AppSources.validateEntryRepository repository appName) else Ok tt) in
  fail_if bool_decide (Retention.iv_PublicationKind release = PublicationKindGitHub)
          && bool_decide (sourceRef = "") with ErrSourceRefRequired ;;
  let! _ := validatePublicationKind (Retention.iv_PublicationKind release) in
  validateLocalSourceState (Retention.iv_LocalSource release).

Definition ParsePlatformString (s : string) : option (string * string) :=
  match Split s "/" with
  | [goos; goarch] => if decide (goos = "" ∨ goarch = "") then None else Some (goos, goarch)
  | _ => None
  end.

Definition validateArtifactPlatform (target : string) : result IndexError unit :=
  match ParsePlatformString target with Some _ => Ok tt | None => Err (ErrPlatform target) end.

(** ** Entries and indices *)

Section documents.
(** [IsValid] and [Canonical] of [golang.org/x/mod/semver], [strings.ToLower], the path
    functions, and the order in which Go ranges over a map. *)
Context (IsValid : string → bool) (Canonical : string → string) (ToLower : string → string).
Context (cd : Codecs) (order : ∀ {A : Type}, gmap string A → list (string * A)).

Definition ValidateVersion (version : string) : result IndexError unit :=
  if Retention.ValidVersion IsValid Canonical version then Ok tt else Err (ErrVersionInvalid version).

Definition validateArtifact (target : string) (artifact : Artifact) : result IndexError unit :=
  let! _ := validateArtifactPlatform target in
  fail_if bool_decide (TrimSpace (InstallValidation.art_URL artifact) = "")
          || bool_decide (TrimSpace (InstallValidation.art_PublicURL artifact) = "")
    with ErrArtifactURLs target ;;
  fail_if bool_decide (TrimSpace (InstallValidation.art_SHA256 artifact) = "")
    with ErrArtifactSHA target ;;
  Ok tt.

Definition validateEntry (entry : Entry) : result IndexError unit :=
  fail_if negb (InstallValidation.en_SchemaVersion entry =? EntrySchemaVersion)%Z
    with ErrEntrySchema (InstallValidation.en_SchemaVersion entry) ;;
  fail_if bool_decide (TrimSpace (InstallValidation.en_App entry) = "") with ErrEntryApp ;;
  let! _ := ValidateVersion (TrimSpace (InstallValidation.en_Version entry)) in
  let! _ := validateEntrySourceRef entry in
  fail_if bool_decide (TrimSpace (InstallValidation.en_ManifestPath entry) = "") with ErrManifestPath ;;
  let! _ := validateEntryRepositoryField entry in
  let! _ := validatePublication (InstallValidation.en_Publication entry) in
  let! _ := validateEntryPublicationMetadata entry in
  fail_if bool_decide (InstallValidation.en_Artifacts entry = ∅) with ErrNoArtifacts ;;
  each (λ kv, validateArtifact kv.1 kv.2) (order _ (InstallValidation.en_Artifacts entry)).

Definition validateRelease (appName version : string) (release : IndexVersion)
    : result IndexError unit :=
  let! _ := ValidateVersion version in
  fail_if bool_decide (TrimSpace (Retention.iv_Metadata release) = "")
    with ErrMetadataRequired appName version ;;
  fail_if IsZero (Retention.iv_PublishedAt release) with ErrPublishedAtRequired appName version ;;
  let! _ := validateIndexVersionSourceRef appName release in
  validatePublication (Retention.iv_Publication release).

Definition validateApp (appName : string) (app : AppVersions) : result IndexError unit :=
  fail_if bool_decide (TrimSpace appName = "") with ErrAppNameRequired ;;
  fail_if bool_decide (Retention.av_Versions app = ∅) with ErrNoVersions appName ;;
  each (λ kv, validateRelease appName kv.1 kv.2) (order _ (Retention.av_Versions app)).

Definition validateIndex (index : option Index) : result IndexError unit :=
  match index with
  | None => Err ErrIndexRequired
  | Some index =>
      fail_if negb (Retention.ix_SchemaVersion index =? IndexSchemaVersion)%Z
        with ErrIndexSchema (Retention.ix_SchemaVersion index) ;;
      match Retention.ix_Apps index with
      | None => Err ErrAppsRequired
      | Some apps => each (λ kv, validateApp kv.1 kv.2) (order _ apps)
      end
  end.

Definition NewEmptyIndex : Index :=
  {| Retention.ix_SchemaVersion := IndexSchemaVersion; Retention.ix_Apps := Some ∅ |}.

(** ** Building an entry *)

Record PublishArtifact := {
  pa_Target : string; pa_LocalPath : string; pa_Filename : string; pa_StorageURL : string;
  pa_PublicURL : string; pa_SHA256 : string }.

Fixpoint buildArtifactsLoop (artifacts : list PublishArtifact) (out : gmap string Artifact)
    : result IndexError (gmap string Artifact) :=
  match artifacts with
  | [] => Ok out
  | a :: artifacts =>
      let target := TrimSpace (pa_Target a) in
      fail_if bool_decide (target = "") with ErrArtifactTarget ;;
      let! _ := validateArtifactPlatform target in
      fail_if bool_decide (TrimSpace (pa_SHA256 a) = "") with ErrArtifactSHA target ;;
      fail_if bool_decide (TrimSpace (pa_StorageURL a) = "")
              || bool_decide (TrimSpace (pa_PublicURL a) = "") with ErrArtifactURLs target ;;
      fail_if bool_decide (is_Some (out !! target)) with ErrDuplicateTarget target ;;
      buildArtifactsLoop artifacts
        (<[target := {| InstallValidation.art_URL := pa_StorageURL a;
                        InstallValidation.art_PublicURL := pa_PublicURL a;
                        InstallValidation.art_SHA256 := pa_SHA256 a |}]> out)
  end.

Definition buildArtifacts (artifacts : list PublishArtifact)
    : result IndexError (gmap string Artifact) :=
  match artifacts with
  | [] => Err ErrNoArtifacts
  | _ => buildArtifactsLoop artifacts ∅
  end.

(** The parts of a release that a registry entry keeps. *)
Record StaticValidation := {
  st_Catalog : option Catalog.Catalog;
  st_Requires : option Requires;
  st_Compatibility : option Compatibility }.
Record Metadata := { md_StaticValidation : option StaticValidation }.
Record Manifest := { mf_Kind : string; mf_Source : string }.

Definition cloneRawJSON (raw : option string) : string := default "" raw.

Definition InterfaceFromRelease (release : option Metadata) : Interface :=
  {| InstallValidation.if_Operations :=
       match (s ← (r ← release; md_StaticValidation r); st_Catalog s) with
       | None => ∅
       | Some c =>
           foldl (λ operations op,
             let id := TrimSpace (Catalog.op_ID op) in
             if decide (id = "") then operations
             else <[id := {| InstallValidation.oc_InputSchema := cloneRawJSON (Catalog.op_InputSchema op);
                             InstallValidation.oc_OutputSchema := cloneRawJSON (Catalog.op_OutputSchema op) |}]>
                    operations) ∅ (Catalog.cat_Operations c)
       end |}.

Definition requiresFromProviderRelease (requires : Requires) : Requires :=
  {| InstallValidation.rq_Apps :=
       (λ req, {| InstallValidation.rq_Version := InstallValidation.rq_Version req;
                  InstallValidation.rq_Operations :=
                    (λ op, {| InstallValidation.or_InputSchemaHash :=
                                InstallValidation.or_InputSchemaHash op |})
                    <$> InstallValidation.rq_Operations req |}) <$> InstallValidation.rq_Apps requires |}.

Definition RequiresFromRelease (release : option Metadata) : Requires :=
  match (s ← (r ← release; md_StaticValidation r); st_Requires s) with
  | None => {| InstallValidation.rq_Apps := ∅ |}
  | Some requires => requiresFromProviderRelease requires
  end.

Definition CompatibilityFromRelease (release : option Metadata) : Compatibility :=
  match (s ← (r ← release; md_StaticValidation r); st_Compatibility s) with
  | None => {| InstallValidation.co_MinGestaltdVersion := "" |}
  | Some c => {| InstallValidation.co_MinGestaltdVersion := InstallValidation.co_MinGestaltdVersion c |}
  end.

Definition NormalizeKind (kind : string) : string := TrimSpace (ToLower kind).
Definition KindApp : string := "app".

Definition ValidatePublishInputWithOptions (manifest : option Manifest) (version sourceRef : string)
    (kind : PublicationKind) : result IndexError unit :=
  match manifest with
  | None => Err ErrManifestRequired
  | Some manifest =>
      fail_if bool_decide (NormalizeKind (mf_Kind manifest) ≠ KindApp) with ErrManifestKind (mf_Kind manifest) ;;
      let! _ := ValidateVersion (TrimSpace version) in
      let! _ := validatePublicationKind kind in
      let sourceRef := ToLower (TrimSpace sourceRef) in
      let! _ := (if publicationKindRequiresSourceRef kind || bool_decide (sourceRef ≠ "")
                 then validateSourceRef sourceRef else Ok tt) in
      fail_if bool_decide (TrimSpace (mf_Source manifest) = "") with ErrManifestSource ;;
      let! _ := lift_source (AppSources.parseAppSource (mf_Source manifest)) in
      Ok tt
  end.

Record BuildEntryInput := {
  bi_Manifest : option Manifest; bi_Version : string; bi_SourceRef : string;
  bi_ManifestPath : string; bi_Publication : option Publication;
  bi_PublicationKind : PublicationKind; bi_PublishID : string; bi_BuilderVersion : string;
  bi_DeclarationDigest : string; bi_LocalSource : option LocalSourceState;
  bi_Release : option Metadata; bi_Artifacts : list PublishArtifact;
  bi_PublishedAt : time; bi_PublishStartedAt : time }.

Definition BuildEntry (now : time) (input : BuildEntryInput) : result IndexError Entry :=
  let! _ := ValidatePublishInputWithOptions (bi_Manifest input) (bi_Version input)
              (bi_SourceRef input) (bi_PublicationKind input) in
  match bi_Manifest input, bi_Release input with
  | None, _ => Err ErrManifestRequired
  | _, None => Err ErrReleaseRequired
  | Some manifest, Some release =>
      let! source := lift_source (AppSources.parseAppSource (mf_Source manifest)) in
      let '(appName, repository) := source in
      let! artifacts := buildArtifacts (bi_Artifacts input) in
      let entry :=
        {| InstallValidation.en_SchemaVersion := EntrySchemaVersion;
           InstallValidation.en_App := appName;
           InstallValidation.en_Version := TrimSpace (bi_Version input);
           InstallValidation.en_SourceRef := ToLower (TrimSpace (bi_SourceRef input));
           InstallValidation.en_ManifestPath := TrimSpace (bi_ManifestPath input);
           InstallValidation.en_Repository := repository;
           InstallValidation.en_Publication := clonePublication (bi_Publication input);
           InstallValidation.en_PublicationKind := bi_PublicationKind input;
           InstallValidation.en_PublishID := TrimSpace (bi_PublishID input);
           InstallValidation.en_BuilderVersion := TrimSpace (bi_BuilderVersion input);
           InstallValidation.en_DeclarationDigest := TrimSpace (bi_DeclarationDigest input);
           InstallValidation.en_LocalSource := cloneLocalSourceState (bi_LocalSource input);
           InstallValidation.en_Artifacts := artifacts;
           InstallValidation.en_Interface := InterfaceFromRelease (Some release);
           InstallValidation.en_Requires := RequiresFromRelease (Some release);
           InstallValidation.en_Compatibility := CompatibilityFromRelease (Some release);
           InstallValidation.en_PublishedAt :=
             if IsZero (bi_PublishedAt input) then now else bi_PublishedAt input;
           InstallValidation.en_PublishStartedAt :=
             if IsZero (bi_PublishStartedAt input) then None else Some (bi_PublishStartedAt input) |} in
      let! _ := validateEntry entry in
      Ok entry
  end.

(** ** The index *)

Definition artifactPlatforms (artifacts : gmap string Artifact) : list string :=
  (order _ artifacts).*1.

(** Returns the app's record and whether it changed. *)
Definition applyAppIndexAppMetadata (app : AppVersions) (displayName description : string)
    : AppVersions * bool :=
  let displayName := TrimSpace displayName in
  let description := TrimSpace description in
  let named := bool_decide (displayName ≠ "")
               && bool_decide (Retention.av_DisplayName app ≠ displayName) in
  let described := bool_decide (description ≠ "")
                   && bool_decide (Retention.av_Description app ≠ description) in
  ({| Retention.av_DisplayName := if named then displayName else Retention.av_DisplayName app;
      Retention.av_Description := if described then description else Retention.av_Description app;
      Retention.av_Versions := Retention.av_Versions app |}, named || described).

Definition indexVersionFromEntry (entry : Entry) (metadataPath : string) : IndexVersion :=
  {| Retention.iv_Metadata := TrimSpace metadataPath;
     Retention.iv_Platforms := SortStrings (artifactPlatforms (InstallValidation.en_Artifacts entry));
     Retention.iv_PublishedAt := InstallValidation.en_PublishedAt entry;
     Retention.iv_PublishStartedAt :=
       match InstallValidation.en_PublishStartedAt entry with
       | Some t => if IsZero t then None else Some t
       | None => None
       end;
     Retention.iv_SourceRef := TrimSpace (InstallValidation.en_SourceRef entry);
     Retention.iv_Repository := TrimSpace (InstallValidation.en_Repository entry);
     Retention.iv_Publication := clonePublication (InstallValidation.en_Publication entry);
     Retention.iv_PublicationKind := InstallValidation.en_PublicationKind entry;
     Retention.iv_PublishID := TrimSpace (InstallValidation.en_PublishID entry);
     Retention.iv_BuilderVersion := TrimSpace (InstallValidation.en_BuilderVersion entry);
     Retention.iv_DeclarationDigest := TrimSpace (InstallValidation.en_DeclarationDigest entry);
     Retention.iv_LocalSource := cloneLocalSourceState (InstallValidation.en_LocalSource entry) |}.

(** Times that [time.Time.MarshalJSON] accepts: years 0 to 9999. *)
Definition json_time (t : time) : bool :=
  (- (366 * Rfc3339.day_ns) <=? t)%Z && (t <? Rfc3339.max_year)%Z.
Definition json_time_ptr (t : option time) : bool := match t with Some t => json_time t | None => true end.

Definition indexVersionsEqual (a b : IndexVersion) : bool :=
  json_time (Retention.iv_PublishedAt a) && json_time_ptr (Retention.iv_PublishStartedAt a)
  && json_time (Retention.iv_PublishedAt b) && json_time_ptr (Retention.iv_PublishStartedAt b)
  && bool_decide (a = b).

Definition without_clock (v : IndexVersion) : IndexVersion :=
  {| Retention.iv_Metadata := Retention.iv_Metadata v; Retention.iv_Platforms := Retention.iv_Platforms v;
     Retention.iv_PublishedAt := zero_time; Retention.iv_PublishStartedAt := None;
     Retention.iv_SourceRef := Retention.iv_SourceRef v; Retention.iv_Repository := Retention.iv_Repository v;
     Retention.iv_Publication := Retention.iv_Publication v;
     Retention.iv_PublicationKind := Retention.iv_PublicationKind v;
     Retention.iv_PublishID := Retention.iv_PublishID v;
     Retention.iv_BuilderVersion := Retention.iv_BuilderVersion v;
     Retention.iv_DeclarationDigest := Retention.iv_DeclarationDigest v;
     Retention.iv_LocalSource := Retention.iv_LocalSource v |}.

Definition indexVersionsEqualIgnoringPublishedAt (a b : IndexVersion) : bool :=
  indexVersionsEqual (without_clock a) (without_clock b).

Definition UpsertAppIndex (index : option Index) (entry : Entry) (metadataPath displayName
    description : string) : result IndexError (Index * bool) :=
  let index := default NewEmptyIndex index in
  let schema := if (Retention.ix_SchemaVersion index =? 0)%Z then IndexSchemaVersion
                else Retention.ix_SchemaVersion index in
  let apps := Retention.apps_of index in
  let appName := TrimSpace (InstallValidation.en_App entry) in
  let version := InstallValidation.en_Version entry in
  let app := default {| Retention.av_DisplayName := ""; Retention.av_Description := "";
                        Retention.av_Versions := ∅ |} (apps !! appName) in
  let finish app apps changed : result IndexError (Index * bool) :=
    let index := {| Retention.ix_SchemaVersion := schema;
                    Retention.ix_Apps := Some (<[appName := app]> apps) |} in
    let! _ := validateIndex (Some index) in Ok (index, changed) in
  match Retention.av_Versions app !! version with
  | Some existing =>
      fail_if bool_decide (TrimSpace (Retention.iv_Metadata existing) ≠ TrimSpace metadataPath)
        with ErrAlreadyIndexed appName version ;;
      fail_if negb (indexVersionsEqualIgnoringPublishedAt existing
                      (indexVersionFromEntry entry metadataPath))
        with ErrIndexVersionConflict appName version ;;
      let '(app, changed) := applyAppIndexAppMetadata app displayName description in
      if negb changed
      then Ok ({| Retention.ix_SchemaVersion := schema; Retention.ix_Apps := Some apps |}, false)
      else finish app apps true
  | None =>
      let '(app, _) := applyAppIndexAppMetadata app displayName description in
      finish {| Retention.av_DisplayName := Retention.av_DisplayName app;
                Retention.av_Description := Retention.av_Description app;
                Retention.av_Versions :=
                  <[version := indexVersionFromEntry entry metadataPath]> (Retention.av_Versions app) |}
             apps true
  end.

(** ** Equality of entries up to the clock *)

Definition normalizeEntryPublicationKindForEquality (kind : PublicationKind) : PublicationKind :=
  if decide (kind = "") then PublicationKindGitHub else kind.

(** The entry without its times and with an explicit publication kind. *)
Definition entry_identity (e : Entry) : Entry :=
  {| InstallValidation.en_SchemaVersion := InstallValidation.en_SchemaVersion e;
     InstallValidation.en_App := InstallValidation.en_App e;
     InstallValidation.en_Version := InstallValidation.en_Version e;
     InstallValidation.en_SourceRef := InstallValidation.en_SourceRef e;
     InstallValidation.en_ManifestPath := InstallValidation.en_ManifestPath e;
     InstallValidation.en_Repository := InstallValidation.en_Repository e;
     InstallValidation.en_Publication := InstallValidation.en_Publication e;
     InstallValidation.en_PublicationKind :=
       normalizeEntryPublicationKindForEquality (InstallValidation.en_PublicationKind e);
     InstallValidation.en_PublishID := InstallValidation.en_PublishID e;
     InstallValidation.en_BuilderVersion := InstallValidation.en_BuilderVersion e;
     InstallValidation.en_DeclarationDigest := InstallValidation.en_DeclarationDigest e;
     InstallValidation.en_LocalSource := InstallValidation.en_LocalSource e;
     InstallValidation.en_Artifacts := InstallValidation.en_Artifacts e;
     InstallValidation.en_Interface := InstallValidation.en_Interface e;
     InstallValidation.en_Requires := InstallValidation.en_Requires e;
     InstallValidation.en_Compatibility := InstallValidation.en_Compatibility e;
     InstallValidation.en_PublishedAt := zero_time; InstallValidation.en_PublishStartedAt := None |}.

Definition EntriesEqualIgnoringPublishedAt (a b : Entry) : bool :=
  bool_decide (entry_identity a = entry_identity b).

(** ** Listing *)

Record VersionSummary := {
  vs_Version : string; vs_Metadata : string; vs_Platforms : list string; vs_PublishedAt : time;
  vs_PublishStartedAt : option time; vs_SourceRef : string; vs_Repository : string;
  vs_Publication : option Publication }.

Definition newer_version (a b : VersionSummary) : Prop :=
  (vs_PublishedAt b < vs_PublishedAt a)%Z
  ∨ vs_PublishedAt a = vs_PublishedAt b ∧ String.le (vs_Version b) (vs_Version a).
#[export] Instance newer_version_dec a b : Decision (newer_version a b) := _.

Definition sortVersionsNewestFirst (versions : list VersionSummary) : list VersionSummary :=
  merge_sort newer_version versions.

Definition summaryOf (version : string) (v : IndexVersion) : VersionSummary :=
  {| vs_Version := version; vs_Metadata := Retention.iv_Metadata v;
     vs_Platforms := Retention.iv_Platforms v; vs_PublishedAt := Retention.iv_PublishedAt v;
     vs_PublishStartedAt := Retention.cloneTimePtr (Retention.iv_PublishStartedAt v);
     vs_SourceRef := Retention.iv_SourceRef v; vs_Repository := Retention.iv_Repository v;
     vs_Publication := clonePublication (Retention.iv_Publication v) |}.

Definition VersionsFromIndex (index : option Index) (appName : string) : list VersionSummary :=
  match index with
  | None => []
  | Some index =>
      match Retention.apps_of index !! appName with
      | None => []
      | Some appVersions =>
          sortVersionsNewestFirst
            (map (λ kv, summaryOf kv.1 kv.2) (order _ (Retention.av_Versions appVersions)))
      end
  end.

(** ** Paths *)

Definition AppIndexPath (appName : string) : string :=
  InstallValidation.PathJoin cd ["apps"; appName; IndexFileName].
Definition GlobalIndexPath : string := IndexFileName.
Definition StorageURL (storageRoot rel : string) : string :=
  AppSources.TrimRightByte (TrimSpace storageRoot) "/" +:+ "/" +:+ AppSources.TrimLeftByte rel "/".

Record PublishLayout := {
  ly_AppName : string; ly_ArtifactPrefix : string; ly_EntryPath : string; ly_IndexPath : string }.

Definition ResolvePublishLayout (source version : string) : result IndexError PublishLayout :=
  let! parsed := lift_source (AppSources.parseAppSource source) in
  let appName := parsed.1 in
  Ok {| ly_AppName := appName;
        ly_ArtifactPrefix := InstallValidation.AppArtifactPrefix cd appName version;
        ly_EntryPath := InstallValidation.AppVersionEntryPath cd appName version;
        ly_IndexPath := AppIndexPath appName |}.
End documents.

(** ** What validation accepts *)

Section facts.
Context (IsValid : string → bool) (Canonical : string → string).
Context (order : ∀ A : Type, gmap string A → list (string * A)).
Hypothesis order_enumerates : ∀ A (m : gmap string A), order A m ≡ₚ map_to_list m.

Local Abbreviation validateEntry := (validateEntry IsValid Canonical order).
Local Abbreviation validateRelease := (validateRelease IsValid Canonical).
Local Abbreviation validateIndex := (validateIndex IsValid Canonical order).
Local Abbreviation UpsertAppIndex := (UpsertAppIndex IsValid Canonical order).
Local Abbreviation indexVersionFromEntry := (indexVersionFromEntry order).

Lemma each_order {E A} (f : string * A → result E unit) m :
  each f (order A m) = Ok tt ↔ ∀ k a, m !! k = Some a → f (k, a) = Ok tt.
Proof.
  rewrite each_ok. setoid_rewrite order_enumerates. split.
  - intros H k a Hk. apply H. by apply elem_of_map_to_list.
  - intros H [k a] Hk%elem_of_map_to_list. by apply H.
Qed.

Lemma validateIndex_ok index :
  validateIndex (Some index) = Ok tt ↔
  Retention.ix_SchemaVersion index = IndexSchemaVersion ∧
  Retention.ix_Apps index = Some (Retention.apps_of index) ∧
  ∀ app av, Retention.apps_of index !! app = Some av →
    TrimSpace app ≠ "" ∧ Retention.av_Versions av ≠ ∅ ∧
    ∀ v r, Retention.av_Versions av !! v = Some r → validateRelease app v r = Ok tt.
Proof.
  unfold RegistryIndex.validateIndex, Retention.apps_of.
  destruct (Z.eqb_spec (Retention.ix_SchemaVersion index) IndexSchemaVersion) as [E|E]; cbn [negb].
  2:{ split; [done|]. by intros [? _]. }
  destruct (Retention.ix_Apps index) as [apps|]; cbn [default].
  2:{ split; [done|]. intros (_ & [=] & _). }
  rewrite each_order. unfold validateApp. cbn [fst snd]. split.
  - intros H. split; [done|]. split; [done|]. intros app av Hav. specialize (H app av Hav).
    repeat case_bool_decide; try done. split_and!; [done..|]. intros v r. rewrite each_order in H. apply (H v r).
  - intros (_ & _ & H) app av Hav. destruct (H app av Hav) as (Ha & Hv & Hr).
    rewrite !bool_decide_eq_false_2 by done. rewrite each_order. intros. by apply Hr.
Qed.

Lemma clonePublication_id p : clonePublication p = p.
Proof. by destruct p as [[? [] []]|]. Qed.
Lemma cloneLocalSourceState_id s : cloneLocalSourceState s = s.
Proof. by destruct s. Qed.

Lemma validateEntryRepository_trim r a :
  AppSources.validateEntryRepository (TrimSpace r) (TrimSpace a) = AppSources.validateEntryRepository r a.
Proof. unfold AppSources.validateEntryRepository. by rewrite !TrimSpace_idem. Qed.

Lemma ValidVersion_trim v :
  Retention.ValidVersion IsValid Canonical (TrimSpace v) = Retention.ValidVersion IsValid Canonical v.
Proof. unfold Retention.ValidVersion. by rewrite TrimSpace_idem. Qed.

(** The row of a valid entry is a valid row of the index. *)
Lemma row_valid entry path :
  validateEntry entry = Ok tt → IsZero (InstallValidation.en_PublishedAt entry) = false →
  TrimSpace path ≠ "" →
  validateRelease (TrimSpace (InstallValidation.en_App entry)) (InstallValidation.en_Version entry)
    (indexVersionFromEntry entry path) = Ok tt.
Proof.
  intros Hv Hz Hp. unfold RegistryIndex.validateEntry in Hv.
  apply fail_if_ok in Hv as [_ Hv]. apply fail_if_ok in Hv as [_ Hv].
  apply rbind_ok in Hv as ([] & Hver & Hv). apply rbind_ok in Hv as ([] & Hsrc & Hv).
  apply fail_if_ok in Hv as [_ Hv]. apply rbind_ok in Hv as ([] & Hrepo & Hv).
  apply rbind_ok in Hv as ([] & Hpub & Hv). apply rbind_ok in Hv as ([] & Hmeta & _).
  apply rbind_ok in Hmeta as ([] & Hkind & Hlocal).
  unfold ValidateVersion in Hver. rewrite ValidVersion_trim in Hver.
  unfold RegistryIndex.validateRelease, ValidateVersion.
  destruct (Retention.ValidVersion _ _ _); [|done]. cbn [rbind].
  cbn [Retention.iv_Metadata Retention.iv_PublishedAt Retention.iv_Publication RegistryIndex.indexVersionFromEntry].
  rewrite TrimSpace_idem, bool_decide_eq_false_2, Hz, clonePublication_id by done.
  unfold validateIndexVersionSourceRef.
  cbn [Retention.iv_SourceRef Retention.iv_Repository Retention.iv_PublicationKind Retention.iv_LocalSource
       RegistryIndex.indexVersionFromEntry].
  rewrite !TrimSpace_idem, cloneLocalSourceState_id.
  unfold validateEntrySourceRef in Hsrc. unfold validateEntryRepositoryField in Hrepo.
  set (ref := TrimSpace (InstallValidation.en_SourceRef entry)) in *.
  set (repo := TrimSpace (InstallValidation.en_Repository entry)) in *.
  assert (bool_decide (ref ≠ "") && bool_decide (repo = "") = false) as ->.
  { destruct (decide (repo = "")) as [Hr|Hr]; [|by rewrite (bool_decide_eq_false_2 (repo = ""))
      by done; rewrite andb_false_r].
    destruct (decide (ref ≠ "")); [done|]. by rewrite bool_decide_eq_false_2. }
  assert ((if decide (ref ≠ "") then validateSourceRef ref else Ok tt) = Ok tt) as ->.
  { by destruct (decide (ref ≠ "")). }
  cbn [rbind].
  assert ((if decide (repo ≠ "") then lift_source (AppSources.validateEntryRepository repo
             (TrimSpace (InstallValidation.en_App entry))) else Ok tt) = Ok tt) as ->.
  { destruct (decide (repo ≠ "")) as [Hr|]; [|done]. rewrite decide_False in Hrepo by done.
    rewrite <-Hrepo. unfold AppSources.validateEntryRepository. by rewrite TrimSpace_idem. }
  cbn [rbind].
  assert (bool_decide (InstallValidation.en_PublicationKind entry = PublicationKindGitHub)
          && bool_decide (ref = "") = false) as ->.
  { apply andb_false_iff. destruct (decide (ref = "")) as [Hr|Hr]; [|right; by apply bool_decide_eq_false_2].
    rewrite decide_False in Hsrc by (intros H; by apply H). left.
    destruct (decide (InstallValidation.en_PublicationKind entry = PublicationKindLocal)) as [E|]; [|done].
    rewrite E. done. }
  by rewrite Hkind, Hlocal, Hpub.
Qed.

(** ** Publishing into the index *)

(** The published versions: the row of an app's version. *)
Definition version_row (index : Index) (app version : string) : option IndexVersion :=
  av ← Retention.apps_of index !! app; Retention.av_Versions av !! version.

Lemma version_row_insert schema apps app av a v :
  version_row {| Retention.ix_SchemaVersion := schema; Retention.ix_Apps := Some (<[app := av]> apps) |} a v
  = if decide (app = a) then Retention.av_Versions av !! v else (apps !! a) ≫= (λ av, Retention.av_Versions av !! v).
Proof.
  unfold version_row, Retention.apps_of. cbn. rewrite lookup_insert. by destruct (decide (app = a)).
Qed.

Lemma metadata_versions app d s :
  Retention.av_Versions (applyAppIndexAppMetadata app d s).1 = Retention.av_Versions app.
Proof. done. Qed.

(** Whatever it answers, publishing keeps every row and adds at most its own. *)
Lemma UpsertAppIndex_rows index entry path displayName description index' changed :
  UpsertAppIndex (Some index) entry path displayName description = Ok (index', changed) →
  let app := TrimSpace (InstallValidation.en_App entry) in
  let version := InstallValidation.en_Version entry in
  (∀ a v row, version_row index a v = Some row → version_row index' a v = Some row)
  ∧ (∀ a v row, version_row index' a v = Some row →
       version_row index a v = Some row ∨ a = app ∧ v = version)
  ∧ is_Some (version_row index' app version)
  ∧ (changed = true → validateIndex (Some index') = Ok tt)
  ∧ (changed = false → ∀ a v, version_row index' a v = version_row index a v).
Proof.
  intros H app version. unfold RegistryIndex.UpsertAppIndex in H. cbv zeta in H.
  change (default NewEmptyIndex (Some index)) with index in H. fold app version in H.
  set (old := default _ (Retention.apps_of index !! app)) in H.
  assert (Hold : ∀ v, Retention.av_Versions old !! v = version_row index app v).
  { intros v. unfold old, version_row. by destruct (Retention.apps_of index !! app). }
  destruct (applyAppIndexAppMetadata old displayName description) as [named b] eqn:Emeta.
  assert (Hnamed : Retention.av_Versions named = Retention.av_Versions old).
  { by rewrite <-(metadata_versions old displayName description), Emeta. }
  assert (Hrow : ∀ schema av a v, version_row {| Retention.ix_SchemaVersion := schema;
            Retention.ix_Apps := Some (<[app := av]> (Retention.apps_of index)) |} a v =
          if decide (app = a) then Retention.av_Versions av !! v else version_row index a v).
  { intros. apply version_row_insert. }
  rewrite Hold in H. destruct (version_row index app version) as [existing|] eqn:Erow.
  - do 2 (apply fail_if_ok in H as [_ H]). destruct b; cbn [negb] in H.
    + apply rbind_ok in H as ([] & Hv & [= <- <-]).
      assert (Hsame : ∀ a v, version_row {| Retention.ix_SchemaVersion :=
                if (Retention.ix_SchemaVersion index =? 0)%Z then IndexSchemaVersion
                else Retention.ix_SchemaVersion index;
                Retention.ix_Apps := Some (<[app := named]> (Retention.apps_of index)) |} a v
              = version_row index a v).
      { intros a v. rewrite Hrow, Hnamed. by destruct (decide (app = a)) as [<-|]. }
      split_and!; try done.
      * intros a v row. by rewrite Hsame.
      * intros a v row. rewrite Hsame. by left.
      * by rewrite Hsame, Erow.
    + injection H as <- <-. split_and!; try done.
      intros a v row Hr. by left.
  - apply rbind_ok in H as ([] & Hv & [= <- <-]). split_and!; try done.
    + intros a v row Hr. rewrite Hrow. cbn [Retention.av_Versions]. rewrite Hnamed.
      destruct (decide (app = a)) as [<-|]; [|done]. rewrite lookup_insert_ne by congruence.
      by rewrite Hold.
    + intros a v row. rewrite Hrow. cbn [Retention.av_Versions]. rewrite Hnamed.
      destruct (decide (app = a)) as [<-|]; [|by left].
      intros [[<- _]|[_ Hr]]%lookup_insert_Some; [by right|]. left. by rewrite <-Hold.
    + rewrite Hrow, decide_True by done. cbn [Retention.av_Versions]. by rewrite lookup_insert_eq.
Qed.

(** Writing the record of an app back into a valid index. *)
Lemma valid_insert index app av :
  validateIndex (Some index) = Ok tt → TrimSpace app ≠ "" → Retention.av_Versions av ≠ ∅ →
  (∀ v r, Retention.av_Versions av !! v = Some r → validateRelease app v r = Ok tt) →
  validateIndex (Some {| Retention.ix_SchemaVersion := IndexSchemaVersion;
                         Retention.ix_Apps := Some (<[app := av]> (Retention.apps_of index)) |}) = Ok tt.
Proof.
  intros (_ & _ & H)%validateIndex_ok Ha Hne Hr. apply validateIndex_ok. split; [done|]. split; [done|].
  intros a av'. change (Retention.apps_of _) with (<[app := av]> (Retention.apps_of index)) at 1.
  intros [[<- <-]|[Hne' Hav]]%lookup_insert_Some; [done|]. by apply H.
Qed.

Definition same_release (existing : IndexVersion) (entry : Entry) (path : string) : bool :=
  bool_decide (TrimSpace (Retention.iv_Metadata existing) = TrimSpace path)
  && indexVersionsEqualIgnoringPublishedAt existing (indexVersionFromEntry entry path).

(** The rows of an app stay valid when one more is added. *)
Lemma app_rows_valid index app v r :
  validateIndex (Some index) = Ok tt → version_row index app v = Some r → validateRelease app v r = Ok tt.
Proof.
  intros (_ & _ & H)%validateIndex_ok. unfold version_row.
  destruct (Retention.apps_of index !! app) as [av|] eqn:E; [|done]. cbn. by apply H.
Qed.

Lemma Upsert_new index entry path displayName description :
  validateIndex (Some index) = Ok tt → validateEntry entry = Ok tt →
  IsZero (InstallValidation.en_PublishedAt entry) = false → TrimSpace path ≠ "" →
  let app := TrimSpace (InstallValidation.en_App entry) in
  let version := InstallValidation.en_Version entry in
  version_row index app version = None →
  ∃ index', UpsertAppIndex (Some index) entry path displayName description = Ok (index', true)
    ∧ validateIndex (Some index') = Ok tt
    ∧ ∀ a v, version_row index' a v =
             if decide (a = app ∧ v = version) then Some (indexVersionFromEntry entry path)
             else version_row index a v.
Proof.
  intros Hi He Hz Hp app version Hrow.
  assert (Happ : app ≠ "").
  { unfold RegistryIndex.validateEntry in He. apply fail_if_ok in He as [_ He].
    apply fail_if_ok in He as [He _]. by apply bool_decide_eq_false in He. }
  pose proof (row_valid entry path He Hz Hp) as Hnew. fold app version in Hnew.
  pose proof (proj1 (validateIndex_ok index) Hi) as (Hs & _ & _).
  unfold RegistryIndex.UpsertAppIndex. cbv zeta. change (default NewEmptyIndex (Some index)) with index. fold app version.
  rewrite Hs. change (IndexSchemaVersion =? 0)%Z with false. cbv iota.
  set (old := default _ (Retention.apps_of index !! app)).
  assert (Hold : ∀ v, Retention.av_Versions old !! v = version_row index app v).
  { intros v. unfold old, version_row. by destruct (Retention.apps_of index !! app). }
  rewrite Hold, Hrow.
  destruct (applyAppIndexAppMetadata old displayName description) as [named b] eqn:Emeta.
  assert (Hnamed : Retention.av_Versions named = Retention.av_Versions old).
  { by rewrite <-(metadata_versions old displayName description), Emeta. }
  set (av := {| Retention.av_DisplayName := _; Retention.av_Description := _;
                Retention.av_Versions := <[version := _]> _ |}).
  assert (Hav : Retention.av_Versions av = <[version := indexVersionFromEntry entry path]> (Retention.av_Versions old))
    by (unfold av; cbn; by rewrite Hnamed).
  assert (Hvalid := valid_insert index app av Hi).
  rewrite Hvalid; [| | |].
  - cbn [rbind]. eexists. split; [done|]. split; [apply Hvalid|].
    + unfold app. by rewrite TrimSpace_idem.
    + rewrite Hav. apply insert_non_empty.
    + rewrite Hav. intros v r [[<- <-]|[_ Hv]]%lookup_insert_Some; [done|].
      rewrite Hold in Hv. by apply app_rows_valid in Hv.
    + intros a v. rewrite version_row_insert, Hav.
      destruct (decide (app = a)) as [<-|Ha].
      * rewrite lookup_insert, Hold. by repeat case_decide; naive_solver.
      * rewrite decide_False by naive_solver. done.
  - unfold app. by rewrite TrimSpace_idem.
  - rewrite Hav. apply insert_non_empty.
  - rewrite Hav. intros v r [[<- <-]|[_ Hv]]%lookup_insert_Some; [done|].
    rewrite Hold in Hv. by apply app_rows_valid in Hv.
Qed.

Lemma Upsert_again index entry path displayName description existing :
  validateIndex (Some index) = Ok tt →
  let app := TrimSpace (InstallValidation.en_App entry) in
  version_row index app (InstallValidation.en_Version entry) = Some existing →
  if same_release existing entry path
  then ∃ index' changed, UpsertAppIndex (Some index) entry path displayName description = Ok (index', changed)
         ∧ validateIndex (Some index') = Ok tt ∧ (changed = false → index' = index)
         ∧ ∀ a v, version_row index' a v = version_row index a v
  else ∃ e, UpsertAppIndex (Some index) entry path displayName description = Err e.
Proof.
  intros Hi app Hrow. pose proof (proj1 (validateIndex_ok index) Hi) as (Hs & Happs & Hall).
  unfold RegistryIndex.UpsertAppIndex. cbv zeta. change (default NewEmptyIndex (Some index)) with index. fold app.
  rewrite Hs. change (IndexSchemaVersion =? 0)%Z with false. cbv iota.
  unfold version_row in Hrow. destruct (Retention.apps_of index !! app) as [old|] eqn:Eapp; [|done].
  change (Retention.av_Versions old !! InstallValidation.en_Version entry = Some existing) in Hrow.
  match goal with |- context [default ?d (Some old)] => change (default d (Some old)) with old end.
  rewrite Hrow. unfold same_release.
  destruct (decide (TrimSpace (Retention.iv_Metadata existing) = TrimSpace path)) as [Hm|Hm].
  2:{ rewrite (bool_decide_eq_true_2 _ Hm), (bool_decide_eq_false_2 _ Hm). cbn [andb]. by eexists. }
  rewrite (bool_decide_eq_true_2 _ Hm), (bool_decide_eq_false_2 (_ ≠ _)) by auto. cbn [andb].
  destruct (indexVersionsEqualIgnoringPublishedAt existing _); cbn [negb]; [|by eexists].
  destruct (Hall app old Eapp) as (Ha & Hne & Hr).
  destruct (applyAppIndexAppMetadata old displayName description) as [av changed] eqn:Emeta.
  assert (Hav : Retention.av_Versions av = Retention.av_Versions old).
  { by rewrite <-(metadata_versions old displayName description), Emeta. }
  destruct changed; cbn [negb].
  - assert (Hvalid := valid_insert index app av Hi Ha). rewrite Hav in Hvalid.
    rewrite Hvalid by done. cbn [rbind]. do 2 eexists. split; [done|]. split; [by apply Hvalid|].
    split; [done|]. intros a v. rewrite version_row_insert, Hav. unfold version_row.
    destruct (decide (app = a)) as [<-|]; [|done]. by rewrite Eapp.
  - assert (Hsame : {| Retention.ix_SchemaVersion := IndexSchemaVersion;
                       Retention.ix_Apps := Some (Retention.apps_of index) |} = index).
    { destruct index as [s a]. cbn in *. by rewrite <-Hs, <-Happs. }
    rewrite Hsame. do 2 eexists. done.
Qed.

(** ** Properties *)

(** Publishing a version of a valid entry into a valid index: a new version adds
    exactly its row, a version already there with the same identity changes no row
    (the clock of the first publish stays), and one with another identity is refused.
    The index stays valid, so it can be decoded again. *)
Theorem UpsertAppIndex_exact index entry path displayName description :
  validateIndex (Some index) = Ok tt → validateEntry entry = Ok tt →
  IsZero (InstallValidation.en_PublishedAt entry) = false → TrimSpace path ≠ "" →
  let app := TrimSpace (InstallValidation.en_App entry) in
  let version := InstallValidation.en_Version entry in
  let refused := match version_row index app version with
                 | Some existing => negb (same_release existing entry path)
                 | None => false
                 end in
  match UpsertAppIndex (Some index) entry path displayName description with
  | Err _ => refused = true
  | Ok (index', changed) =>
      refused = false ∧ validateIndex (Some index') = Ok tt ∧ (changed = false → index' = index)
      ∧ ∀ a v, version_row index' a v =
               match version_row index a v with
               | Some existing => Some existing
               | None => if decide (a = app ∧ v = version) then Some (indexVersionFromEntry entry path) else None
               end
  end.
Proof.
  intros Hi He Hz Hp. cbn zeta.
  set (app := TrimSpace (InstallValidation.en_App entry)). set (version := InstallValidation.en_Version entry).
  destruct (version_row index app version) as [existing|] eqn:Erow.
  - pose proof (Upsert_again index entry path displayName description existing Hi Erow) as H.
    destruct (same_release existing entry path).
    + destruct H as (index' & changed & -> & Hv & Hsame & Hrows). split_and!; [done..|].
      intros a v. rewrite Hrows. destruct (version_row index a v) eqn:E; [done|].
      rewrite decide_False; [done|]. intros [-> ->]. congruence.
    + destruct H as [e ->]. done.
  - destruct (Upsert_new index entry path displayName description Hi He Hz Hp Erow)
      as (index' & -> & Hv & Hrows). split_and!; [done|done|done|]. intros a v. rewrite Hrows.
    fold app version. destruct (decide (a = app ∧ v = version)) as [[-> ->]|]; [by rewrite Erow|].
    by destruct (version_row index a v).
Qed.

(** ** Listing *)

#[export] Instance newer_version_trans : Transitive newer_version.
Proof.
  intros a b c [H1|[H1 V1]] [H2|[H2 V2]]; unfold newer_version; [left; lia..|right].
  split; [lia|]. by etrans.
Qed.
#[export] Instance newer_version_total : Total newer_version.
Proof.
  intros a b. unfold newer_version.
  destruct (Z.lt_trichotomy (vs_PublishedAt a) (vs_PublishedAt b)) as [H|[H|H]];
    [right; left; lia| |left; left; lia].
  destruct (total String.le (vs_Version a) (vs_Version b)); [right|left]; right; by split.
Qed.

(** The versions of an app are listed newest first, each once. *)
Lemma VersionsFromIndex_spec index app :
  VersionsFromIndex order (Some index) app
    ≡ₚ map (λ kv, summaryOf kv.1 kv.2)
         (map_to_list (from_option Retention.av_Versions ∅ (Retention.apps_of index !! app)))
  ∧ StronglySorted newer_version (VersionsFromIndex order (Some index) app).
Proof.
  unfold VersionsFromIndex. destruct (Retention.apps_of index !! app) as [av|]; cbn [from_option].
  2:{ split; [|constructor]. by rewrite map_to_list_empty. }
  unfold sortVersionsNewestFirst. split.
  - rewrite merge_sort_Permutation. apply Permutation_map, order_enumerates.
  - apply StronglySorted_merge_sort; apply _.
Qed.

(** The first version listed is published and no other is newer. *)
Lemma newest_listed index app s rest :
  VersionsFromIndex order (Some index) app = s :: rest →
  (∃ row, version_row index app (vs_Version s) = Some row ∧ s = summaryOf (vs_Version s) row)
  ∧ ∀ v row, version_row index app v = Some row → newer_version s (summaryOf v row).
Proof.
  intros Hl. destruct (VersionsFromIndex_spec index app) as [Hp Hs]. rewrite Hl in Hp, Hs.
  assert (Hin : ∀ x, x ∈ s :: rest ↔ ∃ v row, version_row index app v = Some row ∧ x = summaryOf v row).
  { intros x. rewrite Hp, list_elem_of_fmap. unfold version_row. split.
    - intros ([v row] & -> & Hv%elem_of_map_to_list). exists v, row. split; [|done].
      by destruct (Retention.apps_of index !! app).
    - intros (v & row & Hv & ->). exists (v, row). split; [done|]. apply elem_of_map_to_list.
      by destruct (Retention.apps_of index !! app). }
  split.
  - destruct (proj1 (Hin s)) as (v & row & Hrow & ->); [by left|]. exists row. done.
  - intros v row Hrow. assert (Hx : summaryOf v row ∈ s :: rest) by (apply Hin; eauto).
    apply elem_of_cons in Hx as [->|Hx].
    + right. split; [done|]. reflexivity.
    + apply StronglySorted_inv in Hs as [_ Hf]. rewrite Forall_forall in Hf. by apply Hf.
Qed.
End facts.

(** ** Examples *)

Definition demo_order (A : Type) (m : gmap string A) : list (string * A) := map_to_list m.

Definition demo_entry (app version : string) (at_ : time) : Entry :=
  {| InstallValidation.en_SchemaVersion := 1; InstallValidation.en_App := app;
     InstallValidation.en_Version := version; InstallValidation.en_SourceRef := "";
     InstallValidation.en_ManifestPath := "manifest.yaml"; InstallValidation.en_Repository := "";
     InstallValidation.en_Publication := None;
     InstallValidation.en_PublicationKind := PublicationKindLocal;
     InstallValidation.en_PublishID := "p1"; InstallValidation.en_BuilderVersion := "";
     InstallValidation.en_DeclarationDigest := ""; InstallValidation.en_LocalSource := None;
     InstallValidation.en_Artifacts :=
       {[ "linux/amd64" := {| InstallValidation.art_URL := "gs://b/apps/base/a.tgz";
                              InstallValidation.art_PublicURL := "https://b/apps/base/a.tgz";
                              InstallValidation.art_SHA256 := "00" |} ]};
     InstallValidation.en_Interface := {| InstallValidation.if_Operations := ∅ |};
     InstallValidation.en_Requires := {| InstallValidation.rq_Apps := ∅ |};
     InstallValidation.en_Compatibility := {| InstallValidation.co_MinGestaltdVersion := "" |};
     InstallValidation.en_PublishedAt := at_; InstallValidation.en_PublishStartedAt := None |}.

Definition demo_path : string := "apps/base/versions/1.0.0.json".

(** Publishing 1.0.0 twice: the second publish keeps the first clock. *)
Lemma UpsertAppIndex_exact_witness :
  ∃ index, UpsertAppIndex (λ _, true) (λ s, s) demo_order (Some NewEmptyIndex)
             (demo_entry "base" "1.0.0" Hour) demo_path "" "" = Ok (index, true)
    ∧ UpsertAppIndex (λ _, true) (λ s, s) demo_order (Some index)
        (demo_entry "base" "1.0.0" Minute) demo_path "" "" = Ok (index, false)
    ∧ version_row index "base" "1.0.0"
      = Some (indexVersionFromEntry demo_order (demo_entry "base" "1.0.0" Hour) demo_path).
Proof.
  eexists. split; [vm_compute; reflexivity|]. split; [vm_compute; reflexivity|].
  assert (Ho : ∀ A (m : gmap string A), demo_order A m ≡ₚ map_to_list m) by done.
  assert (Hi : validateIndex (λ _, true) (λ s, s) demo_order (Some NewEmptyIndex) = Ok tt)
    by (vm_compute; reflexivity).
  assert (He : validateEntry (λ _, true) (λ s, s) demo_order (demo_entry "base" "1.0.0" Hour) = Ok tt)
    by (vm_compute; reflexivity).
  assert (Hz : IsZero (InstallValidation.en_PublishedAt (demo_entry "base" "1.0.0" Hour)) = false)
    by (vm_compute; reflexivity).
  assert (Hp : TrimSpace demo_path ≠ "") by (vm_compute; discriminate).
  pose proof (UpsertAppIndex_exact (λ _, true) (λ s, s) demo_order Ho NewEmptyIndex
    (demo_entry "base" "1.0.0" Hour) demo_path "" "" Hi He Hz Hp) as H.
  cbv zeta in H. set (r := UpsertAppIndex _ _ _ _ _ _ _ _) in H.
  assert (Hr : ∃ i, r = Ok (i, true)) by (eexists; vm_compute; reflexivity).
  destruct Hr as [i Hr]. rewrite Hr in H. destruct H as (_ & _ & _ & H).
  specialize (H "base" "1.0.0"). vm_compute in Hr. injection Hr as <-.
  etransitivity; [exact H|]. vm_compute. reflexivity.
Defined.
End RegistryIndex.
