(* ===== verification/RelyGuarantee.v ===== *)
(** * RelyGuarantee: programs that run beside others

    The programs of [ObjectStore] interleave call by call.  [wpi G m Q w] says that [m],
    started in [w] while other processes change the database only along [G], itself
    changes it only along [G] and ends with [Q].  A pool of programs that each satisfy it
    can be run under every schedule. *)

From stdpp Require Import base list relations.
From S2P Require Import Prelude ObjectStore.

Set Default Goal Selector "!".

Section wpi.
  Context {W : Type} (G : relation W) `{!PreOrder G}.

Fixpoint wpi {A} (m : prog W A) (Q : A → W → Prop) (w : W) : Prop :=
  match m with
  | Ret a => ∀ w', G w w' → Q a w'
  | Call B c k => ∀ w', G w w' → G w' (c w').2 ∧ wpi (k (c w').1) Q (c w').2
  end.

(** What holds of a program still holds after others have run. *)
Lemma wpi_stable {A} (m : prog W A) Q w w' : wpi m Q w → G w w' → wpi m Q w'.
Proof. destruct m as [a|B c k]; cbn; intros H HG w'' HG'; apply H; by etrans. Qed.

Lemma wpi_mono {A} (m : prog W A) (Q R : A → W → Prop) w :
  wpi m Q w → (∀ a w', G w w' → Q a w' → R a w') → wpi m R w.
Proof.
  revert w. induction m as [a|B c k IH]; cbn; intros w H HQR w' HG; [by auto|].
  destruct (H w' HG) as [H1 H2]. split; [done|]. apply (IH _ _ H2).
  intros a w'' HG'. apply HQR. etrans; [exact HG|]. by etrans.
Qed.

Lemma wpi_bind {A B} (m : prog W A) (f : A → prog W B) Q w :
  wpi m (λ a, wpi (f a) Q) w → wpi (m ≫= f) Q w.
Proof.
  unfold mbind, prog_bind. revert w.
  induction m as [a|C c k IH]; cbn; intros w H; [by apply H|].
  intros w' HG. destruct (H w' HG). auto.
Qed.

Lemma wpi_ret {A} (a : A) (Q : A → W → Prop) w : (∀ w', G w w' → Q a w') → wpi (mret a) Q w.
Proof. done. Qed.

Lemma wpi_atomic {A} (c : W → A * W) (Q : A → W → Prop) w :
  (∀ w', G w w' → G w' (c w').2 ∧ ∀ w'', G (c w').2 w'' → Q (c w').1 w'') → wpi (atomic c) Q w.
Proof. intros H w' HG. exact (H w' HG). Qed.

(** A process that has ended has its postcondition; one that has not still will. *)
Definition pool_ok {A} (Qs : nat → A → W → Prop) (w : W) (ts : list (prog W A)) : Prop :=
  ∀ i m, ts !! i = Some m → wpi m (Qs i) w.

Lemma pool_step {A} (Qs : nat → A → W → Prop) i w ts :
  pool_ok Qs w ts →
  G w (sched_step i (w, ts)).1 ∧ pool_ok Qs (sched_step i (w, ts)).1 (sched_step i (w, ts)).2.
Proof.
  intros Hp. unfold sched_step. destruct (ts !! i) as [[a|B c k]|] eqn:Ei; [done| |done].
  destruct (Hp i _ Ei w ltac:(done)) as [HG Hk]. destruct (c w) as [b w'] eqn:Ec. cbn in *.
  split; [done|]. intros j m. destruct (decide (i = j)) as [<-|Hij].
  - rewrite list_lookup_insert_eq by (by eapply lookup_lt_Some). by intros [= <-].
  - rewrite list_lookup_insert_ne by done. intros Hj. eapply wpi_stable; [by apply Hp|done].
Qed.

Theorem wpi_exec {A} (Qs : nat → A → W → Prop) schedule w ts w' ts' :
  pool_ok Qs w ts → exec schedule (w, ts) = (w', ts') → G w w' ∧ pool_ok Qs w' ts'.
Proof.
  revert w ts. induction schedule as [|i s IH]; intros w ts Hp; cbn [exec].
  { intros [= <- <-]. done. }
  intros He. destruct (pool_step Qs i w ts Hp) as [HG Hp'].
  destruct (sched_step i (w, ts)) as [w1 ts1]. destruct (IH w1 ts1 Hp' He) as [HG' Hp''].
  split; [by etrans|done].
Qed.

Lemma pool_result {A} (Qs : nat → A → W → Prop) w ts i m a :
  pool_ok Qs w ts → ts !! i = Some m → result_of m = Some a → Qs i a w.
Proof.
  intros Hp Hi Hr. specialize (Hp i m Hi). destruct m as [a'|]; [|done].
  cbn in Hr. injection Hr as ->. by apply Hp.
Qed.
End wpi.

(** Walk through the sequencing of a program, leaving its calls. *)
Ltac wpi_step :=
  lazymatch goal with
  | |- wpi _ (mret _) _ _ => apply wpi_ret
  | |- wpi _ (Ret _) _ _ => apply wpi_ret
  | |- wpi _ (_ ≫= _) _ _ => apply wpi_bind
  end.
