(* ===== verification/RegistryWriter.v ===== *)
(** * RegistryWriter: publishing app versions into a shared bucket

    Models [gestaltd/internal/appregistry/writer.go] (the publish protocol),
    [catalog_cas.go] (generation-matched catalog updates), the bucket operations of
    [GCSRegistryStore] in [publish_gcs.go] with the generation rules that
    [MemoryObjectStore] of [writer_storage.go] spells out, the retention mutation of
    [gcs_retention_catalog_store.go] that installs run, and the check of a published
    version in [publish_published.go].

    A bucket maps object names to a generation, a document and a digest; a write names
    the generation it replaces.  Publishers share the bucket and interleave call by call;
    reading an object takes two calls.  A call may be refused, or take effect and lose its
    answer, and an error may read like a failed precondition.  Documents are the values
    they denote. *)

From stdpp Require Import base gmap strings list sorting sets.
From Stdlib Require Import ZArith Ascii Lia.
From S2P Require Import Prelude ObjectStore RelyGuarantee RegistryTypes Rfc3339 AppSources Retention RegistryConfig InstallValidation RegistryIndex.

Set Default Goal Selector "!".

Module RegistryWriter.
Import Retention(Index, RetentionIndex, RetentionPolicy).
Import InstallValidation(Entry, Codecs).
Import RegistryIndex(IndexError).

(** ** The bucket *)

Inductive document :=
  | IndexJSON (i : Index)
  | RetentionJSON (r : RetentionIndex)
  | EntryJSON (e : Entry)
  | Bytes (b : string).

Record storedObject := { ob_generation : Z; ob_data : document; ob_sha256 : string }.

Record Bucket := { bk_objects : gmap string storedObject; bk_nextGen : Z }.

Record ObjectDescription := { od_Generation : Z; od_SHA256 : string }.

Inductive StoreError :=
  | ErrObjectPreconditionFailed
  | ErrObjectGone
  | ErrStorageURL
  | ErrOpenLocal
  | ErrRemote (looksLikeConflict : bool).

Definition gen_of (b : Bucket) (k : string) : Z :=
  match bk_objects b !! k with Some o => ob_generation o | None => 0 end.
Definition data_of (b : Bucket) (k : string) : option document := ob_data <$> bk_objects b !! k.

Definition put_object (k : string) (data : document) (sha : string) (b : Bucket) : Bucket :=
  {| bk_objects := <[k := {| ob_generation := bk_nextGen b; ob_data := data; ob_sha256 := sha |}]>
                     (bk_objects b);
     bk_nextGen := bk_nextGen b + 1 |}.

(** A write that replaces generation [expected], [0] standing for no object. *)
Definition write_if (k : string) (expected : Z) (data : document) (sha : string) (b : Bucket)
    : result StoreError unit * Bucket :=
  if (gen_of b k =? expected)%Z then (Ok tt, put_object k data sha b)
  else (Err ErrObjectPreconditionFailed, b).

(** What becomes of a call. *)
Inductive outcome := Fine | Refused (looksLikeConflict : bool) | Lost (looksLikeConflict : bool).

Record Remote := { rm_bucket : Bucket; rm_outcomes : list outcome }.

Definition remote {A} (f : Bucket → result StoreError A * Bucket) : prog Remote (result StoreError A) :=
  atomic (λ w,
    let '(r, b) := f (rm_bucket w) in
    let rest := tail (rm_outcomes w) in
    match head (rm_outcomes w) with
    | Some (Refused c) => (Err (ErrRemote c), {| rm_bucket := rm_bucket w; rm_outcomes := rest |})
    | Some (Lost c) => (Err (ErrRemote c), {| rm_bucket := b; rm_outcomes := rest |})
    | _ => (r, {| rm_bucket := b; rm_outcomes := rest |})
    end).

(** ** Object names *)

(** [strings.Index(s, "/")] splits at the first slash. *)
Fixpoint cutSlash (s : string) : option (string * string) :=
  match s with
  | EmptyString => None
  | String c s =>
      if decide (c = "/"%char) then Some ("", s)
      else match cutSlash s with Some (a, b) => Some (String c a, b) | None => None end
  end.

Definition gcsBucketObjectFromURL (storageURL : string) : option (string * string) :=
  let storageURL := TrimSpace storageURL in
  match CutPrefix storageURL "gs://" with
  | None => None
  | Some rest =>
      let rest := AppSources.TrimByte rest "/" in
      if decide (rest = "") then None else
      match cutSlash rest with
      | None => None
      | Some (bucket, object) =>
          let bucket := AppSources.TrimByte bucket "/" in
          let object := AppSources.TrimByte object "/" in
          if decide (bucket = "" ∨ object = "") then None else Some (bucket, object)
      end
  end.

Definition validateBoundGCSStorageURL (storageURL boundBucket : string) : option string :=
  match gcsBucketObjectFromURL storageURL with
  | None => None
  | Some (bucket, object) =>
      let boundBucket := TrimSpace boundBucket in
      if decide (boundBucket = "") then None else
      if decide (bucket ≠ boundBucket) then None else Some object
  end.

(** ** Plans *)

Definition PublishObjectKind := string.
Definition PublishObjectKindEntry : PublishObjectKind := "entry".
Definition PublishObjectKindArchive : PublishObjectKind := "archive".
Definition PublishObjectKindIndex : PublishObjectKind := "index".

Record PublishObject := {
  po_Kind : PublishObjectKind; po_Target : string; po_LocalPath : string; po_StorageURL : string;
  po_PublicURL : string; po_SHA256 : string }.

Record PublishManifest := {
  pm_Schema : string; pm_AppName : string; pm_DisplayName : string; pm_Description : string;
  pm_Version : string; pm_Entry : Entry; pm_EntryObject : PublishObject;
  pm_IndexObject : PublishObject; pm_ArtifactObjects : list PublishObject }.

Record PublishRequest := { rq_Manifest : PublishManifest; rq_SourceRef : string }.

Record Writer := { wr_CatalogAttempts : Z; wr_RetentionPolicy : RetentionPolicy }.

Definition DefaultCatalogUpdateAttempts : Z := 5.
Definition retentionCatalogUpdateAttempts : Z := 5.

Definition catalogAttempts (w : Writer) : Z :=
  if (wr_CatalogAttempts w <=? 0)%Z then DefaultCatalogUpdateAttempts else wr_CatalogAttempts w.

Definition retentionPolicy (w : Writer) : RetentionPolicy :=
  let p := wr_RetentionPolicy w in
  if (Retention.rp_UnusedRetention p =? 0)%Z && (Retention.rp_DeployedRetention p =? 0)%Z
  then Retention.DefaultRetentionPolicy else p.

Inductive ObjectWriteOutcome := Uploaded | Skipped.
Inductive CatalogWriteOutcome := Updated | Unchanged | NotAttempted.
Record ImmutableObjectOutcome := { io_StorageURL : string; io_Outcome : option ObjectWriteOutcome }.
Record ImmutablePublishOutcome := {
  ip_Artifacts : list ImmutableObjectOutcome; ip_Entry : ImmutableObjectOutcome }.
Record PublishResult := {
  pr_Artifacts : list ImmutableObjectOutcome; pr_Entry : ImmutableObjectOutcome;
  pr_Retention : CatalogWriteOutcome; pr_Index : CatalogWriteOutcome }.

Inductive PublishError :=
  | ErrStore (e : StoreError)
  | ErrDecodeIndex (e : IndexError)
  | ErrDecodeRetention (e : Retention.RetentionError)
  | ErrDecodeDocument
  | ErrMarshal
  | ErrUpsert (e : IndexError)
  | ErrRegistryEntryConflict (url : string)
  | ErrObjectConflict (url : string)
  | ErrRetryLimit (url : string).

(** A publish error that a generation conflict caused, or that reads like one. *)
Definition isCatalogPreconditionFailed (e : StoreError) : bool :=
  match e with
  | ErrObjectPreconditionFailed => true
  | ErrRemote c => c
  | _ => false
  end.

(** Sequence fallible steps; the first error ends the program. *)
Definition andThen {A B} (m : prog Remote (result PublishError A)) (k : A → prog Remote (result PublishError B))
    : prog Remote (result PublishError B) :=
  r ← m; match r with Ok a => k a | Err e => mret (Err e) end.
Local Notation "x ←? m ; k" := (andThen m (λ x, k)) (at level 20, m at level 100, k at level 200, only parsing).
Local Notation "x ←! m ; k" := (match m with Ok x => k | Err e => mret (Err e) end)
  (at level 20, m at level 100, k at level 200, only parsing).
Definition stored {A} (m : prog Remote (result StoreError A)) : prog Remote (result PublishError A) :=
  r ← m; mret (match r with Ok a => Ok a | Err e => Err (ErrStore e) end).

Section writer.
Context (IsValid : string → bool) (Canonical : string → string) (ToLower : string → string).
Context (cd : Codecs) (order : ∀ A : Type, gmap string A → list (string * A)).
(** The bucket the store is bound to. *)
Context (boundBucket : string).
Local Abbreviation M A := (prog Remote A).
Local Abbreviation validateIndex := (RegistryIndex.validateIndex IsValid Canonical order).
Local Abbreviation validateEntry := (RegistryIndex.validateEntry IsValid Canonical order).
Local Abbreviation locate url := (validateBoundGCSStorageURL url boundBucket).

(** ** Bucket operations *)

(** The metadata a writer attaches, and how a reader compares it. *)
Definition digest_text (sha : string) : string := ToLower (TrimSpace sha).

Definition at_url {A} (url : string) (f : string → M (result StoreError A)) : M (result StoreError A) :=
  match locate url with None => mret (Err ErrStorageURL) | Some k => f k end.

Definition describe (k : string) : M (result StoreError ObjectDescription) :=
  remote (λ b,
    (Ok (match bk_objects b !! k with
         | Some o => {| od_Generation := ob_generation o; od_SHA256 := digest_text (ob_sha256 o) |}
         | None => {| od_Generation := 0; od_SHA256 := "" |}
         end), b)).

Definition DescribeObject (url : string) : M (result StoreError ObjectDescription) :=
  at_url url describe.

(** The generation of an object, and its content. *)
Definition attrs (k : string) : M (result StoreError (option Z)) :=
  remote (λ b, (Ok (match bk_objects b !! k with Some o => Some (ob_generation o) | None => None end), b)).
Definition newReader (k : string) : M (result StoreError document) :=
  remote (λ b, (match data_of b k with Some d => Ok d | None => Err ErrObjectGone end, b)).

(** Reading takes two calls; [None] is no content. *)
Definition read_object (k : string) : M (result StoreError (Z * option document)) :=
  a ← attrs k;
  match a with
  | Err e => mret (Err e)
  | Ok None => mret (Ok (0%Z, None))
  | Ok (Some generation) =>
      data ← newReader k;
      mret (match data with Ok d => Ok (generation, Some d) | Err e => Err e end)
  end.

Definition ReadObject (url : string) : M (result StoreError (Z * option document)) :=
  at_url url read_object.

(** [files] are the local files of the publisher. *)
Definition WriteImmutableObject (files : gmap string document) (object : PublishObject)
    : M (result StoreError unit) :=
  at_url (po_StorageURL object) (λ k,
    match files !! po_LocalPath object with
    | None => mret (Err ErrOpenLocal)
    | Some data => remote (write_if k 0 data (digest_text (po_SHA256 object)))
    end).

Definition WriteCatalogObject (url : string) (generation : Z) (data : document)
    : M (result StoreError unit) :=
  at_url url (λ k, remote (write_if k generation data "")).

(** ** Documents *)

Definition decodeIndexOrEmpty (existing : option document) : result PublishError Index :=
  match existing with
  | None | Some (Bytes "") => Ok RegistryIndex.NewEmptyIndex
  | Some (IndexJSON i) =>
      match validateIndex (Some i) with Ok _ => Ok i | Err e => Err (ErrDecodeIndex e) end
  | Some _ => Err ErrDecodeDocument
  end.

Definition decodeRetentionIndexOrEmpty (existing : option document) : result PublishError RetentionIndex :=
  match existing with
  | None | Some (Bytes "") => Ok Retention.NewEmptyRetentionIndex
  | Some (RetentionJSON r) =>
      match Retention.validateRetentionIndex IsValid Canonical (order _) (Some r) with
      | Ok _ => Ok r
      | Err e => Err (ErrDecodeRetention e)
      end
  | Some _ => Err ErrDecodeDocument
  end.

Definition DecodeEntry (data : option document) : result PublishError Entry :=
  match data with
  | Some (EntryJSON e) =>
      match validateEntry e with Ok _ => Ok e | Err e => Err (ErrDecodeIndex e) end
  | _ => Err ErrDecodeDocument
  end.

(** [json.MarshalIndent] refuses times outside the years it can write. *)
Definition marshalIndex (i : Index) : option document :=
  if bool_decide (map_Forall (λ _ av, map_Forall (λ _ v,
       RegistryIndex.json_time (Retention.iv_PublishedAt v)
       && RegistryIndex.json_time_ptr (Retention.iv_PublishStartedAt v) = true) (Retention.av_Versions av))
       (Retention.apps_of i))
  then Some (IndexJSON i) else None.

Definition marshalRetention (r : RetentionIndex) : option document :=
  if bool_decide (map_Forall (λ _ v,
       RegistryIndex.json_time (Retention.rv_PublishedAt v)
       && RegistryIndex.json_time_ptr (Retention.rv_ExpiresAt v) = true) (Retention.versions_of r))
  then Some (RetentionJSON r) else None.

Definition EntryFileEquivalentIgnoringPublishedAt (files : gmap string document) (localPath : string)
    (existing : option document) : result PublishError bool :=
  match files !! localPath with
  | None => Err (ErrStore ErrOpenLocal)
  | Some local =>
      let! localEntry := DecodeEntry (Some local) in
      let! existingEntry := DecodeEntry existing in
      Ok (RegistryIndex.EntriesEqualIgnoringPublishedAt localEntry existingEntry)
  end.

(** ** Catalog updates *)

(** The attempts that are left. *)
Fixpoint casLoop {T} (url : string) (decode : option document → result PublishError T)
    (mutate : T → result PublishError (T * bool)) (marshal : T → option document) (attempts : nat)
    : M (result PublishError CatalogWriteOutcome) :=
  match attempts with
  | O => mret (Err (ErrRetryLimit url))
  | S rest =>
      read ←? stored (ReadObject url);
      decoded ←! decode read.2;
      mutated ←! mutate decoded;
      let '(updated, changed) := mutated in
      if negb (changed : bool) then mret (Ok Unchanged) else
      match marshal updated with
      | None => mret (Err ErrMarshal)
      | Some data =>
          w ← WriteCatalogObject url read.1 data;
          match w with
          | Ok _ => mret (Ok Updated)
          | Err e =>
              if isCatalogPreconditionFailed e && negb (rest =? 0)
              then casLoop url decode mutate marshal rest
              else mret (Err (ErrStore e))
          end
      end
  end.

Definition compareAndSwapCatalog {T} (url : string) (attempts : Z)
    (decode : option document → result PublishError T) (mutate : T → result PublishError (T * bool))
    (marshal : T → option document) : M (result PublishError CatalogWriteOutcome) :=
  casLoop url decode mutate marshal
    (Z.to_nat (if (attempts <=? 0)%Z then DefaultCatalogUpdateAttempts else attempts)).

Definition metadataPath (plan : PublishManifest) : string :=
  InstallValidation.AppVersionEntryPath cd (pm_AppName plan) (pm_Version plan).

Definition upsertIndex (plan : PublishManifest) (index : Index) : result PublishError (Index * bool) :=
  match RegistryIndex.UpsertAppIndex IsValid Canonical order (Some index) (pm_Entry plan)
          (metadataPath plan) (pm_DisplayName plan) (pm_Description plan) with
  | Ok r => Ok r
  | Err e => Err (ErrUpsert e)
  end.

Definition uploadIndex (w : Writer) (req : PublishRequest) : M (result PublishError CatalogWriteOutcome) :=
  let plan := rq_Manifest req in
  compareAndSwapCatalog (po_StorageURL (pm_IndexObject plan)) (catalogAttempts w)
    decodeIndexOrEmpty (upsertIndex plan) marshalIndex.

Definition AppRetentionPath (appName : string) : string :=
  InstallValidation.PathJoin cd ["apps"; appName; "retention.json"].

Definition RetentionStorageURL (indexStorageURL appName : string) : string :=
  RegistryIndex.StorageURL (TrimSuffix indexStorageURL (RegistryIndex.AppIndexPath cd appName))
    (AppRetentionPath appName).

Definition upsertRetention (w : Writer) (plan : PublishManifest) (index : RetentionIndex)
    : result PublishError (RetentionIndex * bool) :=
  let '(changed, index') := Retention.UpsertPublishedRetention (Some index) (pm_Version plan)
                              (InstallValidation.en_PublishedAt (pm_Entry plan)) (retentionPolicy w) in
  Ok (default index index', changed).

Definition uploadRetention (w : Writer) (req : PublishRequest)
    : M (result PublishError CatalogWriteOutcome) :=
  let plan := rq_Manifest req in
  compareAndSwapCatalog (RetentionStorageURL (po_StorageURL (pm_IndexObject plan)) (pm_AppName plan))
    (catalogAttempts w) decodeRetentionIndexOrEmpty (upsertRetention w plan) marshalRetention.

(** ** Immutable objects *)

Definition immutableObjectMatchesExisting (files : gmap string document) (object : PublishObject)
    : M (result PublishError bool) :=
  described ←? stored (DescribeObject (po_StorageURL object));
  if decide (od_Generation described = 0%Z) then mret (Ok false) else
  if bool_decide (po_SHA256 object ≠ "") && bool_decide (od_SHA256 described = po_SHA256 object)
  then mret (Ok true) else
  if bool_decide (po_Kind object = PublishObjectKindEntry) && bool_decide (po_LocalPath object ≠ "")
  then read ←? stored (ReadObject (po_StorageURL object));
       mret (EntryFileEquivalentIgnoringPublishedAt files (po_LocalPath object) read.2)
  else mret (Ok false).

Definition immutableObjectConflictError (object : PublishObject) : PublishError :=
  if decide (po_Kind object = PublishObjectKindEntry) then ErrRegistryEntryConflict (po_StorageURL object)
  else ErrObjectConflict (po_StorageURL object).

Definition objectOutcome (object : PublishObject) (o : ObjectWriteOutcome) : ImmutableObjectOutcome :=
  {| io_StorageURL := po_StorageURL object; io_Outcome := Some o |}.

Definition uploadImmutableObjectIfNeeded (files : gmap string document) (object : PublishObject)
    : M (result PublishError ImmutableObjectOutcome) :=
  matches ←? immutableObjectMatchesExisting files object;
  if (matches : bool) then mret (Ok (objectOutcome object Skipped)) else
  w ← WriteImmutableObject files object;
  match w with
  | Ok _ => mret (Ok (objectOutcome object Uploaded))
  | Err ErrObjectPreconditionFailed =>
      m ← immutableObjectMatchesExisting files object;
      mret (match m with
            | Ok true => Ok (objectOutcome object Skipped)
            | _ => Err (immutableObjectConflictError object)
            end)
  | Err e => mret (Err (ErrStore e))
  end.

(** The artifacts uploaded so far, and the error that stopped. *)
Fixpoint uploadArtifacts (files : gmap string document) (objects : list PublishObject)
    (done : list ImmutableObjectOutcome) : M (list ImmutableObjectOutcome * option PublishError) :=
  match objects with
  | [] => mret (done, None)
  | object :: objects =>
      r ← uploadImmutableObjectIfNeeded files object;
      match r with
      | Err e => mret (done, Some e)
      | Ok o => uploadArtifacts files objects (done ++ [o])
      end
  end.

Definition no_outcome : ImmutableObjectOutcome := {| io_StorageURL := ""; io_Outcome := None |}.

Definition uploadImmutableObjects (files : gmap string document) (req : PublishRequest)
    : M (ImmutablePublishOutcome * option PublishError) :=
  let plan := rq_Manifest req in
  a ← uploadArtifacts files (pm_ArtifactObjects plan) [];
  match a with
  | (artifacts, Some e) => mret ({| ip_Artifacts := artifacts; ip_Entry := no_outcome |}, Some e)
  | (artifacts, None) =>
      r ← uploadImmutableObjectIfNeeded files (pm_EntryObject plan);
      mret (match r with
            | Err e => ({| ip_Artifacts := artifacts; ip_Entry := no_outcome |}, Some e)
            | Ok o => ({| ip_Artifacts := artifacts; ip_Entry := o |}, None)
            end)
  end.

Definition set_published (e : Entry) (t : time) : Entry :=
  {| InstallValidation.en_SchemaVersion := InstallValidation.en_SchemaVersion e;
     InstallValidation.en_App := InstallValidation.en_App e;
     InstallValidation.en_Version := InstallValidation.en_Version e;
     InstallValidation.en_SourceRef := InstallValidation.en_SourceRef e;
     InstallValidation.en_ManifestPath := InstallValidation.en_ManifestPath e;
     InstallValidation.en_Repository := InstallValidation.en_Repository e;
     InstallValidation.en_Publication := InstallValidation.en_Publication e;
     InstallValidation.en_PublicationKind := InstallValidation.en_PublicationKind e;
     InstallValidation.en_PublishID := InstallValidation.en_PublishID e;
     InstallValidation.en_BuilderVersion := InstallValidation.en_BuilderVersion e;
     InstallValidation.en_DeclarationDigest := InstallValidation.en_DeclarationDigest e;
     InstallValidation.en_LocalSource := InstallValidation.en_LocalSource e;
     InstallValidation.en_Artifacts := InstallValidation.en_Artifacts e;
     InstallValidation.en_Interface := InstallValidation.en_Interface e;
     InstallValidation.en_Requires := InstallValidation.en_Requires e;
     InstallValidation.en_Compatibility := InstallValidation.en_Compatibility e;
     InstallValidation.en_PublishedAt := t;
     InstallValidation.en_PublishStartedAt := InstallValidation.en_PublishStartedAt e |}.

Definition set_entry (plan : PublishManifest) (e : Entry) : PublishManifest :=
  {| pm_Schema := pm_Schema plan; pm_AppName := pm_AppName plan; pm_DisplayName := pm_DisplayName plan;
     pm_Description := pm_Description plan; pm_Version := pm_Version plan; pm_Entry := e;
     pm_EntryObject := pm_EntryObject plan; pm_IndexObject := pm_IndexObject plan;
     pm_ArtifactObjects := pm_ArtifactObjects plan |}.

(** Returns the plan with the clock of the entry that is stored. *)
Definition adoptStoredEntryPublishedAt (plan : PublishManifest) (entryOutcome : ImmutableObjectOutcome)
    : M (result PublishError PublishManifest) :=
  match io_Outcome entryOutcome with
  | Some Skipped =>
      let url := po_StorageURL (pm_EntryObject plan) in
      described ←? stored (DescribeObject url);
      if decide (od_Generation described = 0%Z) then mret (Ok plan) else
      read ←? stored (ReadObject url);
      stored ←! DecodeEntry read.2;
      if IsZero (InstallValidation.en_PublishedAt stored) then mret (Ok plan)
      else mret (Ok (set_entry plan (set_published (pm_Entry plan) (InstallValidation.en_PublishedAt stored))))
  | _ => mret (Ok plan)
  end.

Definition publishResult (immutable : ImmutablePublishOutcome) (retention index : CatalogWriteOutcome)
    : PublishResult :=
  {| pr_Artifacts := ip_Artifacts immutable; pr_Entry := ip_Entry immutable;
     pr_Retention := retention; pr_Index := index |}.

Definition Publish (w : Writer) (files : gmap string document) (req : PublishRequest)
    : M (PublishResult * option PublishError) :=
  u ← uploadImmutableObjects files req;
  match u with
  | (immutable, Some e) => mret (publishResult immutable NotAttempted NotAttempted, Some e)
  | (immutable, None) =>
      adopted ← adoptStoredEntryPublishedAt (rq_Manifest req) (ip_Entry immutable);
      match adopted with
      | Err e => mret (publishResult immutable NotAttempted NotAttempted, Some e)
      | Ok plan =>
          let req := {| rq_Manifest := plan; rq_SourceRef := rq_SourceRef req |} in
          retention ← uploadRetention w req;
          match retention with
          | Err e => mret (publishResult immutable NotAttempted NotAttempted, Some e)
          | Ok retention =>
              index ← uploadIndex w req;
              mret (match index with
                    | Err e => (publishResult immutable retention NotAttempted, Some e)
                    | Ok index => (publishResult immutable retention index, None)
                    end)
          end
      end
  end.

(** ** Checks before uploading *)

Definition preflightIndex (plan : PublishManifest) : M (result PublishError unit) :=
  read ←? stored (ReadObject (po_StorageURL (pm_IndexObject plan)));
  index ←! decodeIndexOrEmpty read.2;
  updated ←! upsertIndex plan index;
  mret (Ok tt).

Definition preflightImmutableObject (files : gmap string document) (object : PublishObject)
    : M (result PublishError unit) :=
  matches ←? immutableObjectMatchesExisting files object;
  if (matches : bool) then mret (Ok tt) else
  described ←? stored (DescribeObject (po_StorageURL object));
  if decide (od_Generation described = 0%Z) then mret (Ok tt)
  else mret (Err (immutableObjectConflictError object)).

Fixpoint preflightObjects (files : gmap string document) (objects : list PublishObject)
    : M (result PublishError unit) :=
  match objects with
  | [] => mret (Ok tt)
  | object :: objects =>
      _ ←? preflightImmutableObject files object;
      preflightObjects files objects
  end.

Definition Preflight (files : gmap string document) (req : PublishRequest) : M (result PublishError unit) :=
  let plan := rq_Manifest req in
  _ ←? preflightIndex plan;
  preflightObjects files (pm_EntryObject plan :: pm_ArtifactObjects plan).

(** ** The retention mutation of an install *)

(** [GCSCatalogStore.MutateRetention] on the object [url]. *)
Definition MutateRetention (url : string)
    (mutate : RetentionIndex → bool * RetentionIndex) : M (result PublishError CatalogWriteOutcome) :=
  compareAndSwapCatalog url retentionCatalogUpdateAttempts decodeRetentionIndexOrEmpty
    (λ index, let '(changed, index') := mutate index in Ok (index', changed)) marshalRetention.

(** ** Reading a published version *)

Inductive PublishedLoadState := PublishedLoadAbsent | PublishedLoadVerified | PublishedLoadCorrupt.

Definition LoadPublishedState (storageRoot appName version : string)
    : M (result PublishError (PublishedLoadState * option Entry)) :=
  let appName := TrimSpace appName in
  let version := TrimSpace version in
  read ←? stored (ReadObject (RegistryIndex.StorageURL storageRoot (RegistryIndex.AppIndexPath cd appName)));
  index ←! decodeIndexOrEmpty read.2;
  match RegistryIndex.version_row index appName version with
  | None => mret (Ok (PublishedLoadAbsent, None))
  | Some indexVersion =>
      let metadataPath := TrimSpace (Retention.iv_Metadata indexVersion) in
      if decide (metadataPath = "") then mret (Ok (PublishedLoadCorrupt, None)) else
      entryRead ←? stored (ReadObject (RegistryIndex.StorageURL storageRoot metadataPath));
      mret (match entryRead.2 with
            | None | Some (Bytes "") => Ok (PublishedLoadCorrupt, None)
            | data =>
                match DecodeEntry data with
                | Err _ => Ok (PublishedLoadCorrupt, None)
                | Ok entry =>
                    if negb (RegistryIndex.indexVersionsEqual
                               (RegistryIndex.indexVersionFromEntry order entry metadataPath) indexVersion)
                    then Ok (PublishedLoadCorrupt, Some entry)
                    else Ok (PublishedLoadVerified, Some entry)
                end
            end)
  end.

(** ** What publishers do to the bucket *)

Definition index_key (p : PublishManifest) : option string := locate (po_StorageURL (pm_IndexObject p)).
Definition retention_url (p : PublishManifest) : string :=
  RetentionStorageURL (po_StorageURL (pm_IndexObject p)) (pm_AppName p).
Definition retention_key (p : PublishManifest) : option string := locate (retention_url p).
Definition immutables (p : PublishManifest) : list PublishObject := pm_EntryObject p :: pm_ArtifactObjects p.

(** The row of a published version, as the index object at [k] has it. *)
Definition index_row (b : Bucket) (k app v : string) : option Retention.IndexVersion :=
  match data_of b k with Some (IndexJSON i) => RegistryIndex.version_row i app v | _ => None end.
Definition retained (b : Bucket) (k v : string) : Prop :=
  match data_of b k with
  | Some (RetentionJSON r) => is_Some (Retention.rows (Some r) !! TrimSpace v)
  | _ => False
  end.
Definition object_stored (b : Bucket) (url : string) : Prop :=
  ∃ k, locate url = Some k ∧ is_Some (bk_objects b !! k).
Definition decodes (b : Bucket) (k : string) : Prop := ∃ i, decodeIndexOrEmpty (data_of b k) = Ok i.

(** Everything a version needs besides its row: its entry, its artifacts and its
    retention row. *)
Definition backed (b : Bucket) (p : PublishManifest) : Prop :=
  (∀ o, o ∈ immutables p → object_stored b (po_StorageURL o))
  ∧ ∃ k, retention_key p = Some k ∧ retained b k (pm_Version p).

Definition names_row (p : PublishManifest) (k app v : string) : Prop :=
  index_key p = Some k ∧ app = TrimSpace (InstallValidation.en_App (pm_Entry p))
  ∧ v = InstallValidation.en_Version (pm_Entry p).

Definition bucket_ok (b : Bucket) : Prop :=
  (0 < bk_nextGen b)%Z ∧ ∀ k o, bk_objects b !! k = Some o → (0 < ob_generation o < bk_nextGen b)%Z.

Section guarantee.
(** The catalogs of all publishers, and their plans. *)
Context (index_keys retention_keys : gset string) (plans : list PublishManifest).

(** The layout of a registry: catalogs and immutable objects have different names. *)
Definition layout_ok : Prop :=
  index_keys ## retention_keys ∧ ∀ p, p ∈ plans →
    (∀ k, index_key p = Some k → k ∈ index_keys)
    ∧ (∀ k, retention_key p = Some k → k ∈ retention_keys)
    ∧ ∀ o k, o ∈ immutables p → locate (po_StorageURL o) = Some k → k ∉ index_keys ∪ retention_keys.

(** How the bucket may change: objects stay, only catalogs are replaced, by newer
    generations; the index only grows, by versions that are backed; retention rows stay;
    an index that decodes stays so. *)
Record grows (b b' : Bucket) : Prop := {
  grows_next : (bk_nextGen b ≤ bk_nextGen b')%Z;
  grows_ok : bucket_ok b → bucket_ok b';
  grows_kept : ∀ k o, bk_objects b !! k = Some o →
    ∃ o', bk_objects b' !! k = Some o' ∧ (k ∉ index_keys ∪ retention_keys → o' = o);
  grows_new : ∀ k o, bk_objects b' !! k = Some o →
    bk_objects b !! k = Some o ∨ (bk_nextGen b ≤ ob_generation o)%Z;
  grows_rows : ∀ k app v row, k ∈ index_keys →
    index_row b k app v = Some row → index_row b' k app v = Some row;
  grows_backed : ∀ k app v row, k ∈ index_keys → index_row b' k app v = Some row →
    index_row b k app v = Some row ∨ ∃ p, p ∈ plans ∧ names_row p k app v ∧ backed b' p;
  grows_retained : ∀ k v, k ∈ retention_keys → retained b k v → retained b' k v;
  grows_decodes : ∀ k, k ∈ index_keys → decodes b k → decodes b' k }.

Context (Hlayout : layout_ok).

Lemma stored_mono b b' url : grows b b' → object_stored b url → object_stored b' url.
Proof.
  intros Hg (k & Hk & [o Ho]). exists k. split; [done|].
  destruct (grows_kept _ _ Hg k o Ho) as (o' & Ho' & _). eauto.
Qed.

Lemma backed_mono b b' p : p ∈ plans → grows b b' → backed b p → backed b' p.
Proof.
  intros Hp Hg [H1 (k & Hk & Hr)]. split.
  - intros o Ho. eapply stored_mono; eauto.
  - exists k. split; [done|]. eapply grows_retained; [done| |done].
    by apply (proj2 Hlayout p Hp).
Qed.

#[export] Instance grows_preorder : PreOrder grows.
Proof.
  split.
  - intros b. split; eauto; lia.
  - intros b1 b2 b3 H1 H2. split.
    + etrans; [apply H1|apply H2].
    + intros Hb. by apply H2, H1.
    + intros k o Ho. destruct (grows_kept _ _ H1 k o Ho) as (o2 & Ho2 & E2).
      destruct (grows_kept _ _ H2 k o2 Ho2) as (o3 & Ho3 & E3). exists o3. split; [done|].
      intros Hk. by rewrite E3, E2.
    + intros k o Ho. destruct (grows_new _ _ H2 k o Ho) as [Ho2|Ho2].
      * by apply H1.
      * right. pose proof (grows_next _ _ H1). lia.
    + intros. by apply H2; [|apply H1].
    + intros k app v row Hk Hr. destruct (grows_backed _ _ H2 k app v row Hk Hr) as [Hr2|Hr2]; [|by right].
      destruct (grows_backed _ _ H1 k app v row Hk Hr2) as [?|(p & Hp & Hn & Hb)]; [by left|].
      right. exists p. split; [done|]. split; [done|]. by eapply backed_mono.
    + intros. by apply H2; [|apply H1].
    + intros. by apply H2; [|apply H1].
Qed.

Lemma data_of_put k k' d sha b :
  data_of (put_object k d sha b) k' = if decide (k = k') then Some d else data_of b k'.
Proof.
  unfold data_of, put_object. cbn. rewrite lookup_insert. by destruct (decide (k = k')).
Qed.

Lemma bucket_ok_put k d sha b : bucket_ok b → bucket_ok (put_object k d sha b).
Proof.
  intros [Hn Ho]. split; cbn; [lia|]. intros k' o [[_ <-]|[_ H]]%lookup_insert_Some; cbn; [lia|].
  specialize (Ho k' o H). lia.
Qed.

(** A write that keeps what the catalogs promise is a step of [grows]. *)
Lemma grows_put k d sha b :
  (k ∉ index_keys ∪ retention_keys → bk_objects b !! k = None) →
  (k ∈ index_keys → ∃ i, d = IndexJSON i ∧ validateIndex (Some i) = Ok tt
     ∧ (∀ app v row, index_row b k app v = Some row → RegistryIndex.version_row i app v = Some row)
     ∧ (∀ app v row, RegistryIndex.version_row i app v = Some row → index_row b k app v = Some row
          ∨ ∃ p, p ∈ plans ∧ names_row p k app v ∧ backed b p)) →
  (k ∈ retention_keys → ∃ r, d = RetentionJSON r
     ∧ ∀ v, retained b k v → is_Some (Retention.rows (Some r) !! TrimSpace v)) →
  grows b (put_object k d sha b).
Proof.
  intros Him Hix Hrt. destruct Hlayout as [Hdisj Hplans].
  assert (Hstored : ∀ url, object_stored b url → object_stored (put_object k d sha b) url).
  { intros url (k' & Hk' & Ho). exists k'. split; [done|]. cbn. rewrite lookup_insert.
    by destruct (decide (k = k')). }
  assert (Hret : ∀ k' v, k' ∈ retention_keys → retained b k' v → retained (put_object k d sha b) k' v).
  { intros k' v Hk' Hr. unfold retained. rewrite data_of_put.
    destruct (decide (k = k')) as [<-|]; [|done]. destruct (Hrt Hk') as (r & -> & H). by apply H. }
  split.
  - cbn. lia.
  - apply bucket_ok_put.
  - intros k' o Ho. cbn. rewrite lookup_insert. destruct (decide (k = k')) as [<-|]; [|by eauto].
    eexists. split; [done|]. intros Hk. by rewrite Him in Ho.
  - intros k' o. cbn. intros [[_ <-]|[_ H]]%lookup_insert_Some; [right; cbn; lia|by left].
  - intros k' app v row Hk' Hr. unfold index_row. rewrite data_of_put.
    destruct (decide (k = k')) as [<-|]; [|done]. destruct (Hix Hk') as (i & -> & _ & H & _). by apply H.
  - intros k' app v row Hk'. unfold index_row at 1. rewrite data_of_put.
    destruct (decide (k = k')) as [<-|]; [|by left]. destruct (Hix Hk') as (i & -> & _ & _ & H).
    intros Hr. destruct (H app v row Hr) as [?|(p & Hp & Hn & [Hb1 (kr & Hkr & Hb2)])]; [by left|].
    right. exists p. split; [done|]. split; [done|]. split; [by auto|].
    exists kr. split; [done|]. apply Hret; [|done]. by apply (Hplans p Hp).
  - done.
  - intros k' Hk' Hdec. unfold decodes. rewrite data_of_put.
    destruct (decide (k = k')) as [<-|]; [|done]. destruct (Hix Hk') as (i & -> & Hv & _).
    exists i. unfold decodeIndexOrEmpty. by rewrite Hv.
Qed.

(** A generation that is still in place still has the content that was read. *)
Lemma generation_content b b' k g :
  grows b b' → (g < bk_nextGen b)%Z → bucket_ok b' → gen_of b' k = g → data_of b' k = data_of b k.
Proof.
  intros Hg Hlt [_ Hok] Hgen. unfold gen_of in Hgen. unfold data_of.
  destruct (bk_objects b' !! k) as [o|] eqn:Eo.
  - destruct (grows_new _ _ Hg k o Eo) as [->|]; [done|lia].
  - destruct (bk_objects b !! k) as [o|] eqn:E; [|done].
    destruct (grows_kept _ _ Hg k o E) as (o' & Ho' & _). congruence.
Qed.

(** ** Specifications under interference *)

Local Abbreviation G := (λ w w', grows (rm_bucket w) (rm_bucket w')).

(** Chain the steps in the context. *)
Local Ltac grow :=
  cbn [rm_bucket] in *;
  first [ reflexivity | assumption
        | match goal with H : grows ?a ?b |- grows ?a ?c => transitivity b; [exact H|clear H; grow] end ].

#[local] Instance remote_preorder : PreOrder G.
Proof. split; [by intros w|]. intros w1 w2 w3 H1 H2. grow. Qed.

Lemma wpi_remote {A} (f : Bucket → result StoreError A * Bucket) (Q : result StoreError A → Remote → Prop) w :
  (∀ c w', G w w' → Q (Err (ErrRemote c)) w') →
  (∀ b, grows (rm_bucket w) b → grows b (f b).2 ∧
        ∀ w', grows (f b).2 (rm_bucket w') → Q (f b).1 w') →
  wpi G (remote f) Q w.
Proof.
  intros Herr Hok. apply wpi_atomic. intros w1 Hw1. destruct (Hok _ Hw1) as [Hf HQ].
  destruct (f (rm_bucket w1)) as [r b]. cbn in Hf, HQ.
  destruct (head (rm_outcomes w1)) as [[]|]; cbn; (split; [grow|]); intros w2 Hw2; auto; apply Herr; grow.
Qed.

Lemma wpi_at_url {A} url (f : string → prog Remote (result StoreError A)) Q w :
  (∀ e w', G w w' → Q (Err e) w') → (∀ k, locate url = Some k → wpi G (f k) Q w) →
  wpi G (at_url url f) Q w.
Proof.
  intros Herr Hf. unfold at_url. destruct (locate url) as [k|]; [by apply Hf|]. apply wpi_ret. auto.
Qed.

Lemma wpi_describe k (Q : result StoreError ObjectDescription → Remote → Prop) w :
  bucket_ok (rm_bucket w) →
  (∀ e w', G w w' → Q (Err e) w') →
  (∀ d w', G w w' → (od_Generation d ≠ 0%Z → is_Some (bk_objects (rm_bucket w') !! k)) → Q (Ok d) w') →
  wpi G (describe k) Q w.
Proof.
  intros Hok Herr HQ. apply wpi_remote; [auto|]. intros b Hb. split; [done|]. intros w' Hw'. cbn in *.
  apply HQ; [grow|]. destruct (bk_objects b !! k) as [o|] eqn:E; [|done]. intros _.
  destruct (grows_kept _ _ Hw' k o E) as (o' & Ho' & _). eauto.
Qed.

Lemma wpi_read_object k (Q : result StoreError (Z * option document) → Remote → Prop) w :
  bucket_ok (rm_bucket w) →
  (∀ e w', G w w' → Q (Err e) w') →
  (∀ g b w', grows (rm_bucket w) b → grows b (rm_bucket w') → (g < bk_nextGen b)%Z →
     Q (Ok (g, data_of b k)) w') →
  wpi G (read_object k) Q w.
Proof.
  intros Hok Herr HQ. unfold read_object. apply (wpi_bind G). apply wpi_remote.
  { intros c w1 Hw1. apply wpi_ret. intros w2 Hw2. apply Herr. grow. }
  intros b1 Hb1. split; [done|]. intros w1 Hw1. cbn [fst snd] in *.
  assert (Hok1 : bucket_ok b1) by (by apply (grows_ok _ _ Hb1)).
  destruct (bk_objects b1 !! k) as [o|] eqn:Eo.
  2:{ apply wpi_ret. intros w2 Hw2.
      assert (Hd : None = data_of b1 k) by (unfold data_of; by rewrite Eo). rewrite Hd.
      apply (HQ 0%Z b1); [done|grow|]. apply Hok1. }
  apply (wpi_bind G). apply wpi_remote.
  { intros c w2 Hw2. apply wpi_ret. intros w3 Hw3. apply Herr. grow. }
  intros b2 Hb2. split; [done|]. intros w2 Hw2. cbn [fst snd] in *.
  assert (Hgb : grows (rm_bucket w) b2) by grow.
  destruct (data_of b2 k) as [d|] eqn:Ed.
  - apply wpi_ret. intros w3 Hw3. rewrite <-Ed. apply HQ; [done|grow|].
    pose proof (proj2 Hok1 k o Eo). pose proof (grows_next _ _ Hw1). pose proof (grows_next _ _ Hb2). lia.
  - apply wpi_ret. intros w3 Hw3. apply Herr. grow.
Qed.

(** A catalog update: [Post] holds afterwards when it holds of a catalog that needs no
    change, and after a write of the changed one over the content it was made from. *)
Lemma wpi_casLoop {T} url (decode : option document → result PublishError T)
    (mutate : T → result PublishError (T * bool)) (marshal : T → option document)
    (Post : Bucket → Prop) n w :
  bucket_ok (rm_bucket w) →
  (∀ b b', Post b → grows b b' → Post b') →
  (∀ k b t t' changed, locate url = Some k → grows (rm_bucket w) b → bucket_ok b →
     decode (data_of b k) = Ok t → mutate t = Ok (t', changed) →
     if changed
     then ∀ d, marshal t' = Some d →
            grows b (put_object k d "" b) ∧ Post (put_object k d "" b)
     else Post b) →
  wpi G (casLoop url decode mutate marshal n)
    (λ r w', match r with Ok _ => Post (rm_bucket w') | Err _ => True end) w.
Proof.
  revert w. induction n as [|n IH]; intros w Hok Hmono Hstep; cbn [casLoop]; [by apply wpi_ret|].
  unfold andThen, stored, ReadObject. apply (wpi_bind G), (wpi_bind G). apply wpi_at_url.
  { intros e w1 _. apply wpi_ret. intros w2 _. by apply wpi_ret. }
  intros k Hk. apply wpi_read_object; [done| |].
  { intros e w1 _. apply wpi_ret. intros w2 _. by apply wpi_ret. }
  intros g b w1 Hb Hw1 Hg. apply wpi_ret. intros w2 Hw2. cbn [fst snd].
  destruct (decode (data_of b k)) as [t|] eqn:Edec; [|by apply wpi_ret].
  destruct (mutate t) as [[t' changed]|] eqn:Emut; [|by apply wpi_ret].
  destruct changed; cbn [negb].
  2:{ apply wpi_ret. intros w3 Hw3. apply (Hmono b); [|grow].
      apply (Hstep k b t t' false); auto. by apply (grows_ok _ _ Hb). }
  destruct (marshal t') as [d|] eqn:Emar; [|by apply wpi_ret].
  unfold WriteCatalogObject, at_url. rewrite Hk. apply (wpi_bind G). apply wpi_remote.
  - intros c w3 Hw3. destruct (_ && _).
    + apply IH; [by apply (grows_ok _ _ Hw3), (grows_ok _ _ Hw2), (grows_ok _ _ Hw1), (grows_ok _ _ Hb)|done|].
      intros k' b' u u' ch Hk' Hb'. apply Hstep; [done|]. grow.
    + by apply wpi_ret.
  - intros b' Hb'. unfold write_if.
    assert (Hgb : grows b b') by grow.
    assert (Hok' : bucket_ok b') by (by apply (grows_ok _ _ Hgb), (grows_ok _ _ Hb)).
    destruct (Z.eqb_spec (gen_of b' k) g) as [Egen|Egen]; cbn [fst snd].
    + assert (Hd : data_of b' k = data_of b k) by (by eapply generation_content).
      destruct (Hstep k b' t t' true Hk) with (d := d) as [Hput Hpost];
        [grow|done|by rewrite Hd|done|done|].
      split; [done|]. intros w3 Hw3. apply wpi_ret. intros w4 Hw4. eapply Hmono; [exact Hpost|]. grow.
    + split; [done|]. intros w3 Hw3. destruct (_ && _); [|by apply wpi_ret].
      assert (Hgw : grows (rm_bucket w) (rm_bucket w3)) by grow.
      apply IH; [by apply (grows_ok _ _ Hgw)|done|].
      intros k' b'' u u' ch Hk' Hb''. apply Hstep; [done|]. grow.
Qed.

(** *** Immutable objects *)

(** Steps whose errors end the program. *)
Lemma wpi_andThen {A B} (m : prog Remote (result PublishError A)) (k : A → prog Remote (result PublishError B)) Q w :
  wpi G m (λ r w', match r with Ok a => wpi G (k a) Q w' | Err e => ∀ w'', G w' w'' → Q (Err e) w'' end) w →
  wpi G (andThen m k) Q w.
Proof.
  intros H. apply (wpi_bind G). eapply (wpi_mono G); [exact H|].
  intros [a|e] w' _ Hr; [done|]. by apply wpi_ret.
Qed.

Lemma wpi_stored_describe url Q w :
  bucket_ok (rm_bucket w) →
  (∀ e w', G w w' → Q (Err e) w') →
  (∀ d w', G w w' → (od_Generation d ≠ 0%Z → object_stored (rm_bucket w') url) → Q (Ok d) w') →
  wpi G (stored (DescribeObject url)) Q w.
Proof.
  intros Hok Herr HQ. unfold stored, DescribeObject. apply (wpi_bind G). apply wpi_at_url.
  { intros e w1 H1. apply wpi_ret. intros w2 H2. apply Herr. grow. }
  intros k Hk. apply wpi_describe; [done| |].
  - intros e w1 H1. apply wpi_ret. intros w2 H2. apply Herr. grow.
  - intros d w1 H1 Hd. apply wpi_ret. intros w2 H2. apply HQ; [grow|]. intros Hne.
    eapply stored_mono; [exact H2|]. exists k. auto.
Qed.

Lemma wpi_stored_read url Q w :
  bucket_ok (rm_bucket w) →
  (∀ e w', G w w' → Q (Err e) w') → (∀ r w', G w w' → Q (Ok r) w') →
  wpi G (stored (ReadObject url)) Q w.
Proof.
  intros Hok Herr HQ. unfold stored, ReadObject. apply (wpi_bind G). apply wpi_at_url.
  { intros e w1 H1. apply wpi_ret. intros w2 H2. apply Herr. grow. }
  intros k _. apply wpi_read_object; [done| |].
  - intros e w1 H1. apply wpi_ret. intros w2 H2. apply Herr. grow.
  - intros g b w1 Hb H1 _. apply wpi_ret. intros w2 H2. apply HQ. grow.
Qed.

Lemma wpi_matches files o w :
  bucket_ok (rm_bucket w) →
  wpi G (immutableObjectMatchesExisting files o)
    (λ r w', r = Ok true → object_stored (rm_bucket w') (po_StorageURL o)) w.
Proof.
  intros Hok. unfold immutableObjectMatchesExisting. apply wpi_andThen.
  apply wpi_stored_describe; [done|by intros|]. intros d w1 H1 Hd.
  destruct (decide _) as [|Hne]; [by apply wpi_ret|]. specialize (Hd Hne).
  destruct (_ && _). { apply wpi_ret. intros w2 H2 _. by eapply stored_mono. }
  destruct (_ && _); [|by apply wpi_ret]. apply wpi_andThen.
  apply wpi_stored_read; [by apply (grows_ok _ _ H1)|by intros|]. intros r w2 H2. apply wpi_ret.
  intros w3 H3 _. eapply stored_mono; [|exact Hd]. grow.
Qed.

Lemma wpi_upload files p o w :
  p ∈ plans → o ∈ immutables p → bucket_ok (rm_bucket w) →
  wpi G (uploadImmutableObjectIfNeeded files o)
    (λ r w', match r with Ok _ => object_stored (rm_bucket w') (po_StorageURL o) | Err _ => True end) w.
Proof.
  intros Hp Ho Hok. unfold uploadImmutableObjectIfNeeded. apply wpi_andThen.
  eapply (wpi_mono G); [by apply wpi_matches|]. intros r w1 H1 Hm.
  destruct r as [[]|e]; [|..|by intros].
  { apply wpi_ret. intros w2 H2. eapply stored_mono; [exact H2|]. by apply Hm. }
  apply (wpi_bind G). unfold WriteImmutableObject, at_url.
  destruct (locate (po_StorageURL o)) as [k|] eqn:Ek; [|apply wpi_ret; intros; by apply wpi_ret].
  destruct (files !! po_LocalPath o) as [data|]; [|apply wpi_ret; intros; by apply wpi_ret].
  apply wpi_remote; [intros; by apply wpi_ret|]. intros b Hb. unfold write_if.
  assert (Hnot : k ∉ index_keys ∪ retention_keys) by (by apply (proj2 Hlayout p Hp) with o).
  destruct (Z.eqb_spec (gen_of b k) 0) as [E0|E0]; cbn [fst snd].
  - assert (Hokb : bucket_ok b) by (apply (grows_ok _ _ Hb), (grows_ok _ _ H1), Hok).
    assert (Habs : bk_objects b !! k = None).
    { unfold gen_of in E0. destruct (bk_objects b !! k) as [x|] eqn:Ex; [|done].
      pose proof (proj2 Hokb k x Ex). lia. }
    split; [apply grows_put; [done|set_solver..]|]. intros w2 H2. apply wpi_ret. intros w3 H3.
    eapply stored_mono; [exact H3|]. eapply stored_mono; [exact H2|]. exists k. split; [done|].
    cbn. by rewrite lookup_insert_eq.
  - split; [done|]. intros w2 H2. apply (wpi_bind G). eapply (wpi_mono G).
    { apply wpi_matches. by apply (grows_ok _ _ H2), (grows_ok _ _ Hb), (grows_ok _ _ H1). }
    intros m w3 H3 Hm'. apply wpi_ret. intros w4 H4.
    destruct m as [[]|]; [|done..]. eapply stored_mono; [exact H4|]. by apply Hm'.
Qed.

Lemma wpi_uploadArtifacts files p os w : ∀ acc,
  p ∈ plans → (∀ o, o ∈ os → o ∈ immutables p) → bucket_ok (rm_bucket w) →
  wpi G (uploadArtifacts files os acc)
    (λ r w', r.2 = None → ∀ o, o ∈ os → object_stored (rm_bucket w') (po_StorageURL o)) w.
Proof.
  revert w. induction os as [|o os IH]; intros w acc Hp Hos Hok; cbn [uploadArtifacts].
  { apply wpi_ret. intros w' _ _ o Ho. by apply elem_of_nil in Ho. }
  apply (wpi_bind G). eapply (wpi_mono G); [apply (wpi_upload files p o); [done|apply Hos; by left|done]|].
  intros [out|e] w1 H1 Ho; [|by apply wpi_ret].
  eapply (wpi_mono G); [apply IH; [done| |by apply (grows_ok _ _ H1)]|].
  - intros x Hx. apply Hos. by right.
  - intros r w2 H2 Hr He x [->|Hx]%elem_of_cons; [by eapply stored_mono|by apply Hr].
Qed.

Lemma wpi_uploadImmutableObjects files req w :
  rq_Manifest req ∈ plans → bucket_ok (rm_bucket w) →
  wpi G (uploadImmutableObjects files req)
    (λ r w', r.2 = None → ∀ o, o ∈ immutables (rq_Manifest req) →
               object_stored (rm_bucket w') (po_StorageURL o)) w.
Proof.
  intros Hp Hok. set (p := rq_Manifest req) in *. unfold uploadImmutableObjects. fold p.
  apply (wpi_bind G). eapply (wpi_mono G).
  { apply (wpi_uploadArtifacts files p); [done| |done]. intros o Ho. by right. }
  intros [artifacts [e|]] w1 H1 Ha; [by apply wpi_ret|]. apply (wpi_bind G). eapply (wpi_mono G).
  { apply (wpi_upload files p (pm_EntryObject p)); [done|by left|by apply (grows_ok _ _ H1)]. }
  intros [out|e] w2 H2 He; apply wpi_ret; [|done]. intros w3 H3 _ o [->|Ho]%elem_of_cons.
  - by eapply stored_mono.
  - eapply stored_mono; [|by apply Ha]. grow.
Qed.

(** *** Catalogs *)

Lemma decoded_rows b k i :
  decodeIndexOrEmpty (data_of b k) = Ok i → ∀ app v, index_row b k app v = RegistryIndex.version_row i app v.
Proof.
  unfold index_row, decodeIndexOrEmpty. intros H app v.
  destruct (data_of b k) as [[j|r|e|[|a s]]|]; try done; try (injection H as <-; done).
  destruct (validateIndex (Some j)); [by injection H as <-|done].
Qed.

Lemma decoded_retention b k r v :
  decodeRetentionIndexOrEmpty (data_of b k) = Ok r →
  retained b k v ↔ is_Some (Retention.rows (Some r) !! TrimSpace v).
Proof.
  unfold retained, decodeRetentionIndexOrEmpty. intros H.
  assert (Hempty : ¬ is_Some (Retention.rows (Some Retention.NewEmptyRetentionIndex) !! TrimSpace v)).
  { change (Retention.rows _) with (∅ : gmap string Retention.RetentionVersion).
    rewrite lookup_empty. by intros []. }
  destruct (data_of b k) as [[j|r'|e|[|a s]]|]; try done; try (injection H as <-; by split).
  destruct (Retention.validateRetentionIndex _ _ _ _); [|done]. injection H as <-. done.
Qed.

Lemma UpsertPublished_rows r v at_ policy :
  let '(changed, r') := Retention.UpsertPublishedRetention (Some r) v at_ policy in
  (∀ x, is_Some (Retention.rows (Some r) !! x) → is_Some (Retention.rows r' !! x))
  ∧ is_Some (Retention.rows r' !! TrimSpace v)
  ∧ is_Some r' ∧ (changed = false → Retention.rows r' = Retention.rows (Some r)).
Proof.
  unfold Retention.UpsertPublishedRetention. change (Retention.versions_of r) with (Retention.rows (Some r)).
  assert (Hins : ∀ row x, is_Some (Retention.rows (Some r) !! x) →
            is_Some ((<[TrimSpace v := row]> (Retention.rows (Some r)) : gmap _ _) !! x)).
  { intros row x Hx. rewrite lookup_insert. by destruct (decide (TrimSpace v = x)). }
  destruct (Retention.rows (Some r) !! TrimSpace v) as [e|] eqn:E.
  - destruct (_ && _).
    + rewrite Retention.rows_set. by split_and!.
    + rewrite Retention.rows_set. split_and!; [by intros; apply Hins|by rewrite lookup_insert_eq|done|done].
  - rewrite Retention.rows_set. split_and!; [by intros; apply Hins|by rewrite lookup_insert_eq|done|done].
Qed.

Lemma wpi_uploadRetention w req p (Hp : p ∈ plans) world :
  retention_key (rq_Manifest req) = retention_key p → pm_Version (rq_Manifest req) = pm_Version p →
  retention_url (rq_Manifest req) = retention_url p →
  bucket_ok (rm_bucket world) →
  wpi G (uploadRetention w req)
    (λ r w', match r with
             | Ok _ => ∃ k, retention_key p = Some k ∧ retained (rm_bucket w') k (pm_Version p)
             | Err _ => True end) world.
Proof.
  intros Hk Hv Hurl Hok. unfold uploadRetention, compareAndSwapCatalog.
  apply (wpi_casLoop _ _ _ _ (λ b, ∃ k, retention_key p = Some k ∧ retained b k (pm_Version p))); [done| |].
  { intros b b' (k & Hkey & Hr) Hg. exists k. split; [done|]. eapply grows_retained; [exact Hg| |done].
    by apply (proj2 Hlayout p Hp). }
  intros k b t t' changed Hloc Hb Hokb Hdec Hmut.
  assert (Hkey : retention_key p = Some k) by (unfold retention_key; rewrite <-Hurl; exact Hloc).
  assert (Hin : k ∈ retention_keys) by (by apply (proj2 Hlayout p Hp)).
  unfold upsertRetention in Hmut. rewrite Hv in Hmut.
  pose proof (UpsertPublished_rows t (pm_Version p)
    (InstallValidation.en_PublishedAt (pm_Entry (rq_Manifest req))) (retentionPolicy w)) as Hrows.
  destruct (Retention.UpsertPublishedRetention _ _ _ _) as [ch t1]. injection Hmut as <- <-.
  destruct Hrows as (Hkeep & Hnew & [r' ->] & Hsame). cbn [default from_option id] in *.
  destruct ch.
  - intros d Hd. unfold marshalRetention in Hd. destruct (bool_decide _); [|done]. injection Hd as <-.
    change (from_option id t (Some r')) with r' in *. split.
    + apply grows_put; [set_solver|destruct Hlayout; set_solver|]. intros _. exists r'. split; [done|].
      intros v Hr. apply Hkeep. by apply (decoded_retention b k t v Hdec).
    + exists k. split; [done|]. unfold retained. rewrite data_of_put, decide_True by done. done.
  - exists k. split; [done|]. apply (decoded_retention b k t _ Hdec). rewrite <-Hsame by done. done.
Qed.

Lemma wpi_uploadIndex w req p world :
  p ∈ plans → index_key (rq_Manifest req) = index_key p →
  InstallValidation.en_App (pm_Entry (rq_Manifest req)) = InstallValidation.en_App (pm_Entry p) →
  InstallValidation.en_Version (pm_Entry (rq_Manifest req)) = InstallValidation.en_Version (pm_Entry p) →
  bucket_ok (rm_bucket world) → backed (rm_bucket world) p →
  wpi G (uploadIndex w req)
    (λ r w', match r with
             | Ok _ => ∃ k app v, names_row p k app v ∧ is_Some (index_row (rm_bucket w') k app v)
             | Err _ => True end) world.
Proof.
  intros Hp Hk Happ Hver Hok Hback. unfold uploadIndex, compareAndSwapCatalog.
  apply (wpi_casLoop _ _ _ _ (λ b, ∃ k app v, names_row p k app v ∧ is_Some (index_row b k app v))); [done| |].
  { intros b b' (k & app & v & Hn & [row Hr]) Hg. exists k, app, v. split; [done|]. exists row.
    apply (grows_rows _ _ Hg); [|done]. by apply (proj2 Hlayout p Hp), Hn. }
  intros k b t t' changed Hloc Hb Hokb Hdec Hmut.
  assert (Hkey : index_key p = Some k) by (rewrite <-Hk; exact Hloc).
  assert (Hin : k ∈ index_keys) by (by apply (proj2 Hlayout p Hp)).
  unfold upsertIndex in Hmut. destruct (RegistryIndex.UpsertAppIndex _ _ _ _ _ _ _ _) as [[i' ch]|] eqn:Eup; [|done].
  injection Hmut as <- <-. pose proof (decoded_rows b k t Hdec) as Hrows.
  apply RegistryIndex.UpsertAppIndex_rows in Eup as (Hkeep & Honly & Hhas & Hvalid & Hsame).
  rewrite Happ, Hver in *. set (app := TrimSpace (InstallValidation.en_App (pm_Entry p))) in *.
  set (version := InstallValidation.en_Version (pm_Entry p)) in *.
  assert (Hname : names_row p k app version) by (split_and!; done).
  destruct ch.
  - intros d Hd. unfold marshalIndex in Hd. destruct (bool_decide _); [|done]. injection Hd as <-. split.
    + apply grows_put; [set_solver| |destruct Hlayout; set_solver]. intros _. exists i'.
      split_and!; [done|by apply Hvalid|intros a v row; rewrite Hrows; by apply Hkeep|].
      intros a v row Hr. rewrite Hrows. destruct (Honly a v row Hr) as [?|[-> ->]]; [by left|].
      right. exists p. split; [done|]. split; [done|]. by eapply backed_mono.
    + exists k, app, version. split; [done|]. unfold index_row. by rewrite data_of_put, decide_True by done.
  - exists k, app, version. split; [done|]. rewrite Hrows, <-Hsame by done. done.
Qed.

(** *** The whole publish *)

Definition published (b : Bucket) (p : PublishManifest) : Prop :=
  backed b p ∧ ∃ k app v, names_row p k app v ∧ is_Some (index_row b k app v).

Lemma wpi_adopt p outcome world :
  bucket_ok (rm_bucket world) →
  wpi G (adoptStoredEntryPublishedAt p outcome)
    (λ r _, match r with Ok p' => ∃ e, p' = set_entry p e
              ∧ InstallValidation.en_App e = InstallValidation.en_App (pm_Entry p)
              ∧ InstallValidation.en_Version e = InstallValidation.en_Version (pm_Entry p)
            | Err _ => True end) world.
Proof.
  intros Hok. unfold adoptStoredEntryPublishedAt.
  assert (Hsame : ∃ e, p = set_entry p e ∧ InstallValidation.en_App e = InstallValidation.en_App (pm_Entry p)
            ∧ InstallValidation.en_Version e = InstallValidation.en_Version (pm_Entry p)).
  { exists (pm_Entry p). by destruct p. }
  destruct (io_Outcome outcome) as [[]|]; [by apply wpi_ret| |by apply wpi_ret].
  apply wpi_andThen. apply wpi_stored_describe; [done|done|]. intros d w1 H1 _.
  destruct (decide _); [by apply wpi_ret|]. apply wpi_andThen.
  apply wpi_stored_read; [by apply (grows_ok _ _ H1)|done|]. intros r w2 H2.
  destruct (DecodeEntry r.2) as [e|]; [|by apply wpi_ret].
  destruct (IsZero _); apply wpi_ret; [done|]. intros w3 H3. by eexists.
Qed.

Lemma wpi_Publish w files req world :
  rq_Manifest req ∈ plans → bucket_ok (rm_bucket world) →
  wpi G (Publish w files req) (λ r w', r.2 = None → published (rm_bucket w') (rq_Manifest req)) world.
Proof.
  intros Hp Hok. set (p := rq_Manifest req) in *. unfold Publish. fold p.
  apply (wpi_bind G). eapply (wpi_mono G); [by apply wpi_uploadImmutableObjects|]. fold p.
  intros [immutable [e|]] w1 H1 Himm; [by apply wpi_ret|]. specialize (Himm eq_refl).
  apply (wpi_bind G). eapply (wpi_mono G); [apply wpi_adopt; by apply (grows_ok _ _ H1)|].
  intros [p'|e] w2 H2 Had; [|by apply wpi_ret]. destruct Had as (e & -> & Ha & Hv).
  apply (wpi_bind G). eapply (wpi_mono G).
  { apply (wpi_uploadRetention w _ p Hp); [done..|]. by apply (grows_ok _ _ H2), (grows_ok _ _ H1). }
  intros [rt|e'] w3 H3 Hrt; [|by apply wpi_ret].
  assert (Hback : backed (rm_bucket w3) p).
  { split; [|done]. intros o Ho. eapply stored_mono; [|by apply Himm]. grow. }
  apply (wpi_bind G). eapply (wpi_mono G).
  { apply (wpi_uploadIndex w _ p); [done|done|done|done| |done].
    by apply (grows_ok _ _ H3), (grows_ok _ _ H2), (grows_ok _ _ H1). }
  intros [ix|e'] w4 H4 Hix; apply wpi_ret; [|done]. intros w5 H5 _. split.
  - eapply backed_mono; [done| |exact Hback]. grow.
  - destruct Hix as (k & app & v & Hn & [row Hr]). exists k, app, v. split; [done|]. exists row.
    apply (grows_rows _ _ H5); [|done]. by apply (proj2 Hlayout p Hp), Hn.
Qed.

(** Installs only add to the retention catalogs. *)
Lemma wpi_MutateRetention url mutate world :
  (∀ k, locate url = Some k → k ∈ retention_keys) →
  (∀ r x, is_Some (Retention.rows (Some r) !! x) → is_Some (Retention.rows (Some (mutate r).2) !! x)) →
  bucket_ok (rm_bucket world) →
  wpi G (MutateRetention url mutate) (λ _ _, True) world.
Proof.
  intros Hurl Hkeep Hok. eapply (wpi_mono G).
  { unfold MutateRetention, compareAndSwapCatalog. apply (wpi_casLoop _ _ _ _ (λ _, True)); [done..|].
    intros k b t t' changed Hloc Hb Hokb Hdec Hmut. specialize (Hkeep t).
    destruct (mutate t) as [ch t1]. injection Hmut as <- <-. destruct ch; [|done].
    intros d Hd. unfold marshalRetention in Hd. destruct (bool_decide _); [|done]. injection Hd as <-.
    split; [|done]. specialize (Hurl k Hloc).
    apply grows_put; [set_solver|destruct Hlayout; set_solver|]. intros _. exists t1. split; [done|].
    intros v Hr. apply Hkeep. by apply (decoded_retention b k t v Hdec). }
  done.
Qed.

(** ** Processes that share the bucket *)

(** A publisher, or the retention change of an install. *)
Inductive job :=
  | JobPublish (w : Writer) (files : gmap string document) (req : PublishRequest)
  | JobRetention (url fromVersion toVersion : string) (policy : RetentionPolicy) (now : time).

Definition desiredTransition (fromVersion toVersion : string) (policy : RetentionPolicy) (now : time)
    (r : RetentionIndex) : bool * RetentionIndex :=
  let '(changed, r') :=
    Retention.ApplyDesiredVersionTransition (Some r) fromVersion toVersion policy now in
  (changed, default r r').

Definition run_job (j : job) : M (result PublishError unit) :=
  match j with
  | JobPublish w files req =>
      r ← Publish w files req;
      mret (match r.2 with None => Ok tt | Some e => Err e end)
  | JobRetention url fromVersion toVersion policy now =>
      r ← MutateRetention url (desiredTransition fromVersion toVersion policy now);
      mret (match r with Ok _ => Ok tt | Err e => Err e end)
  end.

Definition job_ok (j : job) : Prop :=
  match j with
  | JobPublish _ _ req => rq_Manifest req ∈ plans
  | JobRetention url _ _ _ _ => ∀ k, locate url = Some k → k ∈ retention_keys
  end.

Definition job_post (j : job) (r : result PublishError unit) (world : Remote) : Prop :=
  match j with
  | JobPublish _ _ req => r = Ok tt → published (rm_bucket world) (rq_Manifest req)
  | JobRetention _ _ _ _ _ => True
  end.

Lemma desiredTransition_rows from to policy now r x :
  is_Some (Retention.rows (Some r) !! x) →
  is_Some (Retention.rows (Some (desiredTransition from to policy now r).2) !! x).
Proof.
  intros Hx. unfold desiredTransition, Retention.ApplyDesiredVersionTransition. cbn [default from_option snd].
  change (id ?y) with y. rewrite Retention.rows_set.
  change (Retention.versions_of r) with (Retention.rows (Some r)).
  repeat case_bool_decide; rewrite ?lookup_insert; repeat case_decide; eauto.
Qed.

Lemma wpi_job j world : job_ok j → bucket_ok (rm_bucket world) → wpi G (run_job j) (job_post j) world.
Proof.
  intros Hj Hok. destruct j as [w files req|url from to policy now]; cbn [run_job job_ok] in *.
  - apply (wpi_bind G). eapply (wpi_mono G); [by apply wpi_Publish|].
    intros [r [e|]] w1 H1 Hr; apply wpi_ret; intros w2 H2; [done|]. intros _.
    destruct (Hr eq_refl) as [Hb (k & app & v & Hn & [row Hrow])]. split; [by eapply backed_mono|].
    exists k, app, v. split; [done|]. exists row. apply (grows_rows _ _ H2); [|done].
    by apply (proj2 Hlayout _ Hj), Hn.
  - apply (wpi_bind G). eapply (wpi_mono G).
    { apply wpi_MutateRetention; [done| |done]. intros. by apply desiredTransition_rows. }
    intros r w1 _ _. by apply wpi_ret.
Qed.

Lemma jobs_exec jobs schedule world world' ts :
  Forall job_ok jobs → bucket_ok (rm_bucket world) →
  exec schedule (world, map run_job jobs) = (world', ts) →
  grows (rm_bucket world) (rm_bucket world')
  ∧ ∀ i j m r, jobs !! i = Some j → ts !! i = Some m → result_of m = Some r → job_post j r world'.
Proof.
  intros Hjobs Hok He.
  set (Qs := λ i r w, ∀ j, jobs !! i = Some j → job_post j r w).
  assert (Hpool : pool_ok G Qs world (map run_job jobs)).
  { intros i m Hm. apply list_lookup_fmap_Some in Hm as (j & -> & Hj).
    eapply (wpi_mono G); [apply wpi_job; [|done]|].
    - by eapply (Forall_lookup_1 job_ok).
    - intros r w' _ Hr j' Hj'. by simplify_eq. }
  destruct (wpi_exec G Qs schedule world _ world' ts Hpool He) as [HG Hpool']. split; [done|].
  intros i j m r Hj Hm Hr. exact (pool_result G Qs world' ts i m r Hpool' Hm Hr j Hj).
Qed.

(** ** Properties *)

(** C7.  Publishing commits the index last and loses nothing.  However publishers and
    installs interleave, and whichever of their calls fail or lose their answer: every
    version that was discoverable stays so, with the same row; immutable objects are
    never changed; a version becomes discoverable only when the entry, all artifacts and
    the retention row of a publisher of that version are in the bucket; and an index that
    decodes never stops decoding. *)
Theorem publish_commits_last jobs schedule world world' ts :
  Forall job_ok jobs → bucket_ok (rm_bucket world) →
  exec schedule (world, map run_job jobs) = (world', ts) →
  let b := rm_bucket world in
  let b' := rm_bucket world' in
  (∀ k o, k ∉ index_keys ∪ retention_keys → bk_objects b !! k = Some o → bk_objects b' !! k = Some o)
  ∧ ∀ k, k ∈ index_keys →
      (∀ app v row, index_row b k app v = Some row → index_row b' k app v = Some row)
      ∧ (∀ app v row, index_row b' k app v = Some row →
           index_row b k app v = Some row ∨ ∃ p, p ∈ plans ∧ names_row p k app v ∧ backed b' p)
      ∧ (decodes b k → decodes b' k).
Proof.
  intros Hjobs Hok He. destruct (jobs_exec _ _ _ _ _ Hjobs Hok He) as [Hg _]. cbn zeta. split.
  - intros k o Hk Ho. destruct (grows_kept _ _ Hg k o Ho) as (o' & Ho' & E). by rewrite E in Ho'.
  - intros k Hk. split_and!.
    + intros app v row. by apply (grows_rows _ _ Hg).
    + intros app v row. by apply (grows_backed _ _ Hg).
    + by apply (grows_decodes _ _ Hg).
Qed.

(** C30.  A publish that reports success has published: whatever the other publishers and
    installs did in the meantime and do afterwards, its version is in the index and its
    entry, artifacts and retention row are in the bucket. *)
Theorem publish_success jobs schedule world world' ts i w files req m :
  Forall job_ok jobs → bucket_ok (rm_bucket world) →
  exec schedule (world, map run_job jobs) = (world', ts) →
  jobs !! i = Some (JobPublish w files req) → ts !! i = Some m → result_of m = Some (Ok tt) →
  published (rm_bucket world') (rq_Manifest req).
Proof.
  intros Hjobs Hok He Hj Hm Hr. destruct (jobs_exec _ _ _ _ _ Hjobs Hok He) as [_ H].
  by apply (H i _ m _ Hj Hm Hr).
Qed.
End guarantee.
End writer.

(** ** Two publishers and an install *)

Definition demo_writer : Writer :=
  {| wr_CatalogAttempts := 0; wr_RetentionPolicy := Retention.DefaultRetentionPolicy |}.

Definition demo_object (kind : PublishObjectKind) (name sha : string) : PublishObject :=
  {| po_Kind := kind; po_Target := ""; po_LocalPath := name; po_StorageURL := "gs://b/apps/base/" +:+ name;
     po_PublicURL := ""; po_SHA256 := sha |}.

Definition demo_manifest (version : string) (e : Entry) : PublishManifest :=
  {| pm_Schema := "gestaltd.app.publish.plan.v1"; pm_AppName := "base"; pm_DisplayName := "Base";
     pm_Description := ""; pm_Version := version; pm_Entry := e;
     pm_EntryObject := demo_object PublishObjectKindEntry ("versions/" +:+ version +:+ ".json") ("e" +:+ version);
     pm_IndexObject := demo_object PublishObjectKindIndex "index.json" "";
     pm_ArtifactObjects :=
       [demo_object PublishObjectKindArchive ("artifacts/" +:+ version +:+ "/a.tgz") ("a" +:+ version)] |}.

Definition demo_files (version : string) (e : Entry) : gmap string document :=
  <["versions/" +:+ version +:+ ".json" := EntryJSON e]>
    {[ "artifacts/" +:+ version +:+ "/a.tgz" := Bytes version ]}.

Definition demo_job (version : string) (e : Entry) : job :=
  JobPublish demo_writer (demo_files version e)
    {| rq_Manifest := demo_manifest version e; rq_SourceRef := "" |}.

Definition demo_jobs : list job :=
  [demo_job "1.0.0" (RegistryIndex.demo_entry "base" "1.0.0" Hour);
   demo_job "1.1.0" (RegistryIndex.demo_entry "base" "1.1.0" (2 * Hour)%Z);
   JobRetention "gs://b/apps/base/retention.json" "" "1.0.0" Retention.DefaultRetentionPolicy (3 * Hour)%Z].

Definition demo_plans : list PublishManifest :=
  [demo_manifest "1.0.0" (RegistryIndex.demo_entry "base" "1.0.0" Hour);
   demo_manifest "1.1.0" (RegistryIndex.demo_entry "base" "1.1.0" (2 * Hour)%Z)].

(** An empty bucket. *)
Definition demo_world : Remote :=
  {| rm_bucket := {| bk_objects := ∅; bk_nextGen := 1 |}; rm_outcomes := [] |}.

Local Abbreviation demo_run :=
  (run_job (λ _, true) (λ s, s) (λ s, s) InstallValidation.id_codecs RegistryIndex.demo_order "b").
Local Abbreviation demo_layout ix rt :=
  (layout_ok InstallValidation.id_codecs "b" ix rt demo_plans).

(** All three processes take turns. *)
Definition demo_schedule : list nat := flat_map (λ _, [0; 1; 2]) (seq 0 40).

Definition demo_end : config Remote (result PublishError unit) :=
  exec demo_schedule (demo_world, map demo_run demo_jobs).

Lemma demo_layout_ok :
  demo_layout {[ "apps/base/index.json" ]} {[ "apps/base/retention.json" ]}.
Proof.
  split; [apply (bool_decide_unpack _); vm_compute; exact I|].
  intros p Hp. repeat (apply elem_of_cons in Hp as [->|Hp]); [..|by apply elem_of_nil in Hp];
    (split_and!; [intros k Hk; vm_compute in Hk; injection Hk as <-; apply (bool_decide_unpack _);
                  vm_compute; exact I
                 |intros k Hk; vm_compute in Hk; injection Hk as <-; apply (bool_decide_unpack _);
                  vm_compute; exact I|]);
    intros o k Ho Hk; repeat (apply elem_of_cons in Ho as [->|Ho]); [| |by apply elem_of_nil in Ho| | |by apply elem_of_nil in Ho];
    vm_compute in Hk; injection Hk as <-; apply (bool_decide_unpack _); vm_compute; exact I.
Qed.

Lemma demo_jobs_ok :
  Forall (job_ok "b" {[ "apps/base/retention.json" ]} demo_plans) demo_jobs.
Proof.
  repeat constructor.
  intros k Hk. vm_compute in Hk. injection Hk as <-. apply (bool_decide_unpack _). vm_compute. exact I.
Qed.

Lemma demo_world_ok : bucket_ok (rm_bucket demo_world).
Proof.
  split; [done|]. intros k o Ho. change ((∅ : gmap string storedObject) !! k = Some o) in Ho.
  by rewrite lookup_empty in Ho.
Qed.

Lemma demo_runs : exec demo_schedule (demo_world, map demo_run demo_jobs) = ((demo_end).1, (demo_end).2).
Proof. unfold demo_end. destruct (exec demo_schedule _). reflexivity. Qed.

Lemma demo_results : map result_of (demo_end).2 = [Some (Ok tt); Some (Ok tt); Some (Ok tt)].
Proof. vm_compute. reflexivity. Qed.

Lemma publish_success_witness :
  published InstallValidation.id_codecs "b" (rm_bucket (demo_end).1)
    (demo_manifest "1.1.0" (RegistryIndex.demo_entry "base" "1.1.0" (2 * Hour)%Z)).
Proof.
  assert (Hm : ∃ m, (demo_end).2 !! 1 = Some m ∧ result_of m = Some (Ok tt)).
  { pose proof demo_results as H. destruct (demo_end).2 as [|m0 [|m1 ms]]; [done..|].
    exists m1. split; [done|]. cbn [map] in H. by injection H as _ H _. }
  destruct Hm as (m & Hm & Hr). set (e := RegistryIndex.demo_entry "base" "1.1.0" (2 * Hour)%Z).
  assert (Hj : demo_jobs !! 1 = Some (demo_job "1.1.0" e)) by done.
  exact (publish_success (λ _, true) (λ s, s) (λ s, s) InstallValidation.id_codecs
    RegistryIndex.demo_order "b" {[ "apps/base/index.json" ]} {[ "apps/base/retention.json" ]} demo_plans
    demo_layout_ok demo_jobs demo_schedule demo_world (demo_end).1 (demo_end).2 1 demo_writer
    (demo_files "1.1.0" e) {| rq_Manifest := demo_manifest "1.1.0" e; rq_SourceRef := "" |} m
    demo_jobs_ok demo_world_ok demo_runs Hj Hm Hr).
Defined.

Lemma publish_commits_last_witness :
  is_Some (index_row (rm_bucket (demo_end).1) "apps/base/index.json" "base" "1.0.0")
  ∧ ∃ p, p ∈ demo_plans ∧ names_row "b" p "apps/base/index.json" "base" "1.0.0"
         ∧ backed InstallValidation.id_codecs "b" (rm_bucket (demo_end).1) p.
Proof.
  assert (Hrow : is_Some (index_row (rm_bucket (demo_end).1) "apps/base/index.json" "base" "1.0.0"))
    by (vm_compute; eexists; reflexivity).
  split; [exact Hrow|]. destruct Hrow as [row Hrow].
  assert (Hin : "apps/base/index.json" ∈ ({[ "apps/base/index.json" ]} : gset string))
    by (apply (bool_decide_unpack _); vm_compute; exact I).
  destruct (proj2 (publish_commits_last (λ _, true) (λ s, s) (λ s, s) InstallValidation.id_codecs
    RegistryIndex.demo_order "b" {[ "apps/base/index.json" ]} {[ "apps/base/retention.json" ]} demo_plans
    demo_layout_ok demo_jobs demo_schedule demo_world (demo_end).1 (demo_end).2 demo_jobs_ok
    demo_world_ok demo_runs) _ Hin) as (_ & H & _).
  destruct (H "base" "1.0.0" row Hrow) as [Hold|Hnew]; [|exact Hnew].
  vm_compute in Hold. discriminate.
Defined.

(** ** A retry after a crash *)

Definition with_start (e : Entry) (t : time) : Entry :=
  {| InstallValidation.en_SchemaVersion := InstallValidation.en_SchemaVersion e;
     InstallValidation.en_App := InstallValidation.en_App e;
     InstallValidation.en_Version := InstallValidation.en_Version e;
     InstallValidation.en_SourceRef := InstallValidation.en_SourceRef e;
     InstallValidation.en_ManifestPath := InstallValidation.en_ManifestPath e;
     InstallValidation.en_Repository := InstallValidation.en_Repository e;
     InstallValidation.en_Publication := InstallValidation.en_Publication e;
     InstallValidation.en_PublicationKind := InstallValidation.en_PublicationKind e;
     InstallValidation.en_PublishID := InstallValidation.en_PublishID e;
     InstallValidation.en_BuilderVersion := InstallValidation.en_BuilderVersion e;
     InstallValidation.en_DeclarationDigest := InstallValidation.en_DeclarationDigest e;
     InstallValidation.en_LocalSource := InstallValidation.en_LocalSource e;
     InstallValidation.en_Artifacts := InstallValidation.en_Artifacts e;
     InstallValidation.en_Interface := InstallValidation.en_Interface e;
     InstallValidation.en_Requires := InstallValidation.en_Requires e;
     InstallValidation.en_Compatibility := InstallValidation.en_Compatibility e;
     InstallValidation.en_PublishedAt := InstallValidation.en_PublishedAt e;
     InstallValidation.en_PublishStartedAt := Some t |}.

(** The same version published at two times; the digest of the entry differs. *)
Definition attempt_at (t : time) (sha : string) : Writer * gmap string document * PublishRequest :=
  let e := with_start (RegistryIndex.demo_entry "base" "1.0.0" (t + Minute)%Z) t in
  let p := demo_manifest "1.0.0" e in
  (demo_writer, demo_files "1.0.0" e,
   {| rq_Manifest :=
        {| pm_Schema := pm_Schema p; pm_AppName := pm_AppName p; pm_DisplayName := pm_DisplayName p;
           pm_Description := pm_Description p; pm_Version := pm_Version p; pm_Entry := pm_Entry p;
           pm_EntryObject := demo_object PublishObjectKindEntry "versions/1.0.0.json" sha;
           pm_IndexObject := pm_IndexObject p; pm_ArtifactObjects := pm_ArtifactObjects p |};
      rq_SourceRef := "" |}).

Local Abbreviation demo_publish a :=
  (Publish (λ _, true) (λ s, s) (λ s, s) InstallValidation.id_codecs RegistryIndex.demo_order "b"
     a.1.1 a.1.2 a.2).

(** The first publish stops after its uploads: reading the retention catalog fails. *)
Definition crashed : Remote :=
  (run (demo_publish (attempt_at Hour "e1"))
     {| rm_bucket := rm_bucket demo_world; rm_outcomes := [Fine; Fine; Fine; Fine; Refused false] |}).2.

(** A publish that is repeated after a crash keeps the first publish time but not
    the first start time: the index row then differs from the stored entry, and reading
    the published version back reports it corrupt, although both publishes were of the
    same version and the second succeeded. *)
Theorem retry_loses_start_time :
  let r := run (demo_publish (attempt_at (2 * Hour)%Z "e2")) crashed in
  r.1.2 = None
  ∧ (∃ row, index_row (rm_bucket r.2) "apps/base/index.json" "base" "1.0.0" = Some row
      ∧ Retention.iv_PublishedAt row = (Hour + Minute)%Z
      ∧ Retention.iv_PublishStartedAt row = Some (2 * Hour)%Z)
  ∧ (∃ e, data_of (rm_bucket r.2) "apps/base/versions/1.0.0.json" = Some (EntryJSON e)
      ∧ InstallValidation.en_PublishStartedAt e = Some Hour)
  ∧ (∃ e, (run (LoadPublishedState (λ _, true) (λ s, s) InstallValidation.id_codecs
             RegistryIndex.demo_order "b" "gs://b" "base" "1.0.0") r.2).1
          = Ok (PublishedLoadCorrupt, Some e)).
Proof.
  cbn zeta. split; [vm_compute; reflexivity|]. split.
  { eexists. split; [vm_compute; reflexivity|]. split; vm_compute; reflexivity. }
  split; [eexists; split; vm_compute; reflexivity|]. eexists. vm_compute. reflexivity.
Qed.
End RegistryWriter.
