(* ===== verification/Installer.v ===== *)
(** * Installer: admitting a version of an app to the fleet

    Models [gestaltd/internal/appregistry/installer.go] and [from_version.go]: the
    composition of the install lock, the version history, the rollouts, the source
    version, the retention overlay and the install-time validation.  The four services
    live in four object stores of one database, which share no row.

    What the environment answers during an install is the record [Answers]: the clock
    readings, the identifiers of [uuid.NewString], the platform and the registry's
    documents.  The expiry of the install context makes store calls fail, which the
    faults of the database cover.  The retention catalog is the class
    [RetentionCatalog]; its result is ignored by the code. *)

From stdpp Require Import base gmap strings list sorting sets.
From Stdlib Require Import ZArith Ascii Lia.
From S2P Require Import Prelude ObjectStore RegistryTypes Rfc3339 Heartbeats FleetState.
From S2P Require Import Rollouts InstallLocks SourceVersions ChangeRequests.
From S2P Require Import AppSources Retention RegistryConfig InstallValidation CatalogPoller.

Set Default Goal Selector "!".

Module Installer.
Import FleetState(LatestKnownVersion).
Import RegistryConfig.
Import InstallValidation(Semver, Codecs, Registry, Entry, ReadError).

Definition DefaultRolloutEnrollmentWindow : duration := (2 * CatalogPoller.DefaultCatalogPollInterval)%Z.
Definition DefaultRolloutTimeout : duration := (15 * Minute)%Z.
Definition installWorkTimeoutBuffer : duration := (30 * Second)%Z.

Definition installWorkTimeout (lockTTL : duration) : duration :=
  let lockTTL := if (lockTTL <=? 0)%Z then InstallLocks.DefaultAppVersionInstallLockTTL else lockTTL in
  if (lockTTL <=? installWorkTimeoutBuffer)%Z then lockTTL else (lockTTL - installWorkTimeoutBuffer)%Z.

Record InstallInput := {
  ii_Registry : string;
  ii_App : string;
  ii_Version : string;
  ii_Actor : string }.

Record InstallOutput := {
  io_Installation : option AppInstallation;
  io_FromVersion : string;
  io_Rollout : AppRollout;
  io_Retried : bool }.

Inductive installMode :=
  | installModeLegacy | installModeAdd | installModeUpgrade | installModeSelect | installModeRetry.
#[export] Instance installMode_eq_dec : EqDecision installMode.
Proof. solve_decision. Defined.

Inductive InstallError :=
  | ErrRegistryRequired
  | ErrAppRequired
  | ErrVersionRequired
  | ErrInstallVersionLocked
  | ErrClaimLock (e : InstallLocks.LockError)
  | ErrChangeRequestsNotConfigured
  | ErrRolloutsNotConfigured
  | ErrListKnownVersions (e : ChangeRequests.ChangeRequestError)
  | ErrRegistrySourceMismatch
  | ErrRegistryAppName (e : AppSources.SourceError)
  | ErrAppAlreadyAdded
  | ErrAppNotAdded
  | ErrResolveFromVersion
  | ErrCheckKnownVersion (e : ChangeRequests.ChangeRequestError)
  | ErrAppVersionAlreadyInstalled
  | ErrAppRolloutActive
  | ErrCheckRollout (e : Rollouts.RolloutError)
  | ErrAppRolloutRetryNotAllowed
  | ErrSourceVersionsNotConfigured
  | ErrTargetSourceVersion (e : SourceVersions.SourceVersionError)
  | ErrAppRegistryNotConfigured (registry : string)
  | ErrPolicy (e : ConfigError)
  | ErrPublicRoot (e : ConfigError)
  | ErrFetchRetention (e : ReadError)
  | ErrSelectable (e : Retention.RetentionError)
  | ErrNotCurrentDesired
  | ErrEntry (e : InstallValidation.SourceReadError)
  | ErrValidate (e : InstallValidation.ValidationError)
  | ErrCreateRollout (e : Rollouts.RolloutError)
  | ErrAdmitRollout (e : SourceVersions.SourceVersionError)
  | ErrAppendRequest (e : ChangeRequests.ChangeRequestError).

(** What the environment answers during one install. *)
Record Answers := {
  an_lockHolder : string;
  an_requestID : string;
  an_lockClock : time;
  an_checkNow : time;
  an_requestedNow : time;
  an_storeNow : time;
  an_failedNow : time;
  an_platform : string;
  an_buildVersion : string;
  an_FetchRetentionIndex : string → string → result ReadError (option Retention.RetentionIndex);
  an_FetchEntry : Registry }.

(** The installer: its configuration, and which of its services are set. *)
Record Installer := {
  in_Registries : gmap string AppRegistryConfig;
  in_ConfigApps : option (gmap string ProviderEntry);
  in_ChangeRequests : bool;
  in_Locks : bool;
  in_SourceVersions : bool;
  in_Rollouts : bool;
  in_RetentionCatalog : bool;
  in_GestaltdVersion : string;
  in_SourceVersion : string;
  in_RolloutMode : AppRolloutMode }.

(** Sequence fallible steps, wrapping the error of the first that fails. *)
Definition attempt {W E F A B} (wrap : E → F) (m : prog W (result E A))
    (k : A → prog W (result F B)) : prog W (result F B) :=
  r ← m; match r with Ok a => k a | Err e => mret (Err (wrap e)) end.
Definition check {W E F A B} (wrap : E → F) (r : result E A) (k : A → prog W (result F B))
    : prog W (result F B) :=
  match r with Ok a => k a | Err e => mret (Err (wrap e)) end.

Local Notation "x ←? m 'or' w ; k" := (attempt w m (λ x, k))
  (at level 20, m at level 100, k at level 200, only parsing).
Local Notation "x ←! m 'or' w ; k" := (check w m (λ x, k))
  (at level 20, m at level 100, k at level 200, only parsing).

(** ** Decisions on values *)

Definition configEntryOf (i : Installer) (appName : string) : option ProviderEntry :=
  apps ← in_ConfigApps i; apps !! appName.

(** The registry must be the one the app is configured with; returns the name of the
    app in the registry. *)
Definition resolveRegistryApp (i : Installer) (mode : installMode) (registryName appName : string)
    : result InstallError string :=
  let entry := configEntryOf i appName in
  let managed := match entry with Some e => IsRegistry (pe_Source e) | None => false end in
  if bool_decide (mode ≠ installModeLegacy) && negb managed then Err ErrRegistrySourceMismatch else
  if match entry with
     | Some e => managed && negb (bool_decide (TrimSpace (ps_Registry (pe_Source e)) = registryName))
     | None => false
     end then Err ErrRegistrySourceMismatch else
  let registryApp := match entry with
                     | Some e => RegistryAppName (pe_Source e) appName
                     | None => appName
                     end in
  match AppSources.ValidateRepositoryName registryApp with
  | Err e => Err (ErrRegistryAppName e)
  | Ok _ => Ok registryApp
  end.

Definition resolveFromVersion (known : list AppInstallation) (entry : option ProviderEntry) : string :=
  let version := LatestKnownVersion (Some <$> known) in
  if decide (version ≠ "") then version else configPinnedAppVersion entry.

Definition fromVersionOf (i : Installer) (mode : installMode) (appName : string)
    (known : list AppInstallation) : result InstallError string :=
  let currentDesired := LatestKnownVersion (Some <$> known) in
  match mode with
  | installModeAdd =>
      if decide (known ≠ []) then Err ErrAppAlreadyAdded else Ok Retention.FirstInstallFromVersion
  | installModeUpgrade => if decide (known = []) then Err ErrAppNotAdded else Ok currentDesired
  | installModeSelect =>
      Ok (if decide (currentDesired = "") then Retention.FirstInstallFromVersion else currentDesired)
  | _ =>
      let fromVersion := resolveFromVersion known (configEntryOf i appName) in
      if decide (fromVersion = "") then Err ErrResolveFromVersion else Ok fromVersion
  end.

(** A failed rollout of the version. *)
Definition failedRolloutOf (rollout : option AppRollout) (version : string) : bool :=
  match rollout with
  | Some r => bool_decide (r_State r = RolloutFailed) && bool_decide (TrimSpace (r_Version r) = version)
  | None => false
  end.

(** Selecting the desired version again retries its failed rollout. *)
Definition resolveRetry (mode : installMode) (rollout : option AppRollout)
    (currentDesired version : string) : result InstallError (installMode * bool) :=
  let! chosen :=
    (if bool_decide (mode = installModeSelect) && bool_decide (currentDesired = version)
     then if failedRolloutOf rollout version then Ok (installModeRetry, true)
          else Err ErrAppVersionAlreadyInstalled
     else Ok (mode, bool_decide (mode = installModeRetry))) in
  if bool_decide (chosen.1 = installModeRetry)
     && negb (failedRolloutOf rollout version && bool_decide (currentDesired = version))
  then Err ErrAppRolloutRetryNotAllowed else Ok chosen.

Definition selectable (mode : installMode) (version currentDesired : string)
    (index : option Retention.RetentionIndex) (policy : Retention.RetentionPolicy) (now : time)
    : result Retention.RetentionError unit :=
  match mode with
  | installModeRetry => Retention.RetryVersionSelectable version index policy now
  | installModeLegacy => Ok tt
  | _ => Retention.VersionSelectable version currentDesired index policy now
  end.

Definition artifactChecksumsFromEntry (e : Entry) : gmap string string :=
  (λ a, TrimSpace (InstallValidation.art_SHA256 a)) <$> InstallValidation.en_Artifacts e.

Definition pendingRolloutFor (i : Installer) (appName version : string) (requestedAt : time)
    : AppRollout :=
  let mode := if decide (in_RolloutMode i = "") then ModeEnrollment else in_RolloutMode i in
  {| r_App := appName; r_Version := version;
     r_State := if decide (mode = ModeHeartbeat) then RolloutRestarting else RolloutEnrolling;
     r_Mode := mode; r_TargetSourceVersion := ""; r_MinimumHealthyInstances := 0;
     r_CreatedAt := requestedAt;
     r_EnrollmentEndsAt := (requestedAt + DefaultRolloutEnrollmentWindow)%Z;
     r_Deadline := (requestedAt + DefaultRolloutTimeout)%Z;
     r_HealthySince := zero_time; r_HeartbeatEvaluatedAt := zero_time; r_CompletedAt := zero_time;
     r_FailedAt := zero_time; r_FailureSummary := None |}.

(** ** The install *)

(** The optimistic catalog of retention indices: a mutation may fail, and never touches
    the rows of the database. *)
Class RetentionCatalog (W : Type) := {
  MutateRetention : string → string → (option Retention.RetentionIndex → bool * option Retention.RetentionIndex)
                    → prog (Env W) (result unit unit);
  MutateRetention_frames (s : ObjectStore W) registry app f : frames s (MutateRetention registry app f) }.

Section installer.
  Context `{TP : TimeParser, JC : ChangeRequests.JSONCodec, SP : ChangeRequests.Sprinter}.
  Context {W : Type} (locks requests states rollouts : ObjectStore W) `{RC : RetentionCatalog W}.
  Context (sv : Semver) (cd : Codecs) (TimeParseDuration : string → option duration).
  Local Abbreviation M A := (prog (Env W) A).

Definition mirrorRetentionTransition (i : Installer) (registryName appName fromVersion toVersion : string)
    (policy : Retention.RetentionPolicy) (now : time) : M unit :=
  if negb (in_RetentionCatalog i) then mret tt else
  _ ← MutateRetention registryName appName (λ index,
        Retention.ApplyDesiredVersionTransition index fromVersion toVersion policy now);
  mret tt.

Definition validateInstallCandidate (i : Installer) (an : Answers)
    (registryName appName version : string) (entry : Entry)
    : M (result InstallValidation.ValidationError unit) :=
  InstallValidation.ValidateInstall (OS := requests) sv cd
    {| InstallValidation.va_Registries := in_Registries i;
       InstallValidation.va_ConfigApps := in_ConfigApps i;
       InstallValidation.va_FetchEntry := an_FetchEntry an;
       InstallValidation.va_ChangeRequests := in_ChangeRequests i;
       InstallValidation.va_GestaltdVersion := in_GestaltdVersion i;
       InstallValidation.va_Platform := "" |}
    (an_platform an) (an_buildVersion an)
    {| InstallValidation.vi_Registry := registryName; InstallValidation.vi_App := appName;
       InstallValidation.vi_Version := version; InstallValidation.vi_Entry := Some entry |}.

(** Create the rollout, against the current source version where there is one. *)
Definition createRollout (i : Installer) (an : Answers) (pending : AppRollout)
    : M (result InstallError AppRollout) :=
  if decide (TrimSpace (in_SourceVersion i) ≠ "") then
    r ← SourceVersions.CreateAppRollout states rollouts true (an_storeNow an) (Some pending);
    mret (match r with
          | Ok r => Ok r
          | Err SourceVersions.ErrAppRolloutActive => Err ErrAppRolloutActive
          | Err e => Err (ErrAdmitRollout e)
          end)
  else
    r ← Rollouts.Create (OS := rollouts) true (an_storeNow an) (Some pending);
    mret (match r with
          | Ok r => Ok r
          | Err Rollouts.ErrAppRolloutActive => Err ErrAppRolloutActive
          | Err e => Err (ErrCreateRollout e)
          end).

(** The request that records the install. *)
Definition changeRequestFor (appName fromVersion version actor : string) (requestedAt : time)
    (deployableUntil : option time) (known : AppInstallation) : AppVersionChangeRequest :=
  {| cr_ID := ""; cr_App := appName; cr_FromVersion := fromVersion; cr_ToVersion := version;
     cr_Actor := actor; cr_Timestamp := requestedAt;
     cr_FromVersionDeployableUntil := deployableUntil;
     cr_Metadata := ChangeRequests.ChangeRequestMetadata (Some known) |}.

Definition knownInstallation (registryName appName version actor entryURL : string) (entry : Entry)
    (requestedAt : time) : AppInstallation :=
  {| ai_AppName := appName; ai_Version := version;
     ai_SourceRepository := InstallValidation.en_Repository entry;
     ai_SourceRef := InstallValidation.en_SourceRef entry;
     ai_Registry := registryName; ai_ProviderReleaseURL := entryURL;
     ai_ArtifactChecksums := artifactChecksumsFromEntry entry;
     ai_InstalledBy := actor; ai_InstalledAt := requestedAt; ai_UpdatedAt := requestedAt |}.

(** Admission: the rollout, then the request; a request that cannot be appended fails
    the rollout again. *)
Definition admitVersion (i : Installer) (an : Answers) (registryName registryApp appName version
    actor fromVersion : string) (retried : bool) (policy : Retention.RetentionPolicy)
    (source : InstallValidation.configuredRegistryEntry) : M (result InstallError InstallOutput) :=
  let entry := InstallValidation.cre_Entry source in
  let entryURL := InstallValidation.PublicURL (InstallValidation.cre_PublicRoot source)
                    (InstallValidation.AppVersionEntryPath cd registryApp version) in
  let requestedAt := Truncate (an_requestedNow an) Millisecond in
  let deployableUntil :=
    if bool_decide (fromVersion ≠ "") && bool_decide (fromVersion ≠ Retention.FirstInstallFromVersion)
    then Some (requestedAt + Retention.rp_DeployedRetention policy)%Z else None in
  let known := knownInstallation registryName appName version actor entryURL entry requestedAt in
  rollout ←? createRollout i an (pendingRolloutFor i appName version requestedAt) or id;
  added ← ChangeRequests.AppendRequest (OS := requests) (an_storeNow an) (an_requestID an)
            (Some (changeRequestFor appName fromVersion version actor requestedAt deployableUntil known));
  match added with
  | Err e =>
      _ ← Rollouts.MarkFailed (OS := rollouts) true (an_storeNow an) appName version
            (Truncate (an_failedNow an) Millisecond);
      mret (Err (ErrAppendRequest e))
  | Ok added =>
      _ ← mirrorRetentionTransition i registryName registryApp fromVersion version policy requestedAt;
      mret (Ok {| io_Installation := ChangeRequests.InstallationFromChangeRequest (Some added);
                  io_FromVersion := fromVersion; io_Rollout := rollout; io_Retried := retried |})
  end.

(** The checks that lead to an admission, in the order of the code. *)
Definition installLocked (i : Installer) (an : Answers) (mode : installMode)
    (registryName appName version actor : string) : M (result InstallError InstallOutput) :=
  if negb (in_ChangeRequests i) then mret (Err ErrChangeRequestsNotConfigured) else
  if negb (in_Rollouts i) then mret (Err ErrRolloutsNotConfigured) else
  known ←? ChangeRequests.ListKnownVersionsByApp (OS := requests) true appName or ErrListKnownVersions;
  registryApp ←! resolveRegistryApp i mode registryName appName or id;
  let currentDesired := LatestKnownVersion (Some <$> known) in
  fromVersion ←! fromVersionOf i mode appName known or id;
  alreadyKnown ←? (if bool_decide (mode ≠ installModeSelect) && bool_decide (mode ≠ installModeRetry)
                   then ChangeRequests.HasKnownVersion (OS := requests) appName version
                   else mret (Ok false)) or ErrCheckKnownVersion;
  if (alreadyKnown : bool) then mret (Err ErrAppVersionAlreadyInstalled) else
  current ← Rollouts.GetRollout (OS := rollouts) true appName;
  match (match current with
         | Ok r => if bool_decide (r_State r = RolloutEnrolling) || bool_decide (r_State r = RolloutRestarting)
                   then Err ErrAppRolloutActive else Ok (Some r)
         | Err Rollouts.ErrRolloutNotFound => Ok None
         | Err e => Err (ErrCheckRollout e)
         end) with
  | Err e => mret (Err e)
  | Ok currentRollout =>
      chosen ←! resolveRetry mode currentRollout currentDesired version or id;
      let '(mode, retried) := chosen in
      _ ←? (if decide (TrimSpace (in_SourceVersion i) ≠ "")
            then if negb (in_SourceVersions i) then mret (Err ErrSourceVersionsNotConfigured)
                 else r ← SourceVersions.CurrentForAdmission states true;
                      mret (match r with Ok _ => Ok tt | Err e => Err (ErrTargetSourceVersion e) end)
            else mret (Ok tt)) or id;
      match in_Registries i !! registryName with
      | None => mret (Err (ErrAppRegistryNotConfigured registryName))
      | Some registryConfig =>
          policy ←! retentionPolicyFromConfig TimeParseDuration registryConfig or ErrPolicy;
          publicRoot ←! ConfigPublicURL registryConfig or ErrPublicRoot;
          retentionIndex ←! an_FetchRetentionIndex an publicRoot registryApp or ErrFetchRetention;
          _ ←! selectable mode version currentDesired retentionIndex policy
                 (Truncate (an_checkNow an) Millisecond) or ErrSelectable;
          if bool_decide (mode = installModeRetry) && negb (bool_decide (currentDesired = version))
          then mret (Err ErrNotCurrentDesired) else
          source ←! InstallValidation.fetchConfiguredRegistryEntry cd (in_Registries i)
                      (an_FetchEntry an) registryName registryApp version or ErrEntry;
          _ ←? validateInstallCandidate i an registryName appName version
                 (InstallValidation.cre_Entry source) or ErrValidate;
          admitVersion i an registryName registryApp appName version actor fromVersion retried
            policy source
      end
  end.

Definition install (i : Installer) (an : Answers) (input : InstallInput) (mode : installMode)
    : M (result InstallError InstallOutput) :=
  let registryName := TrimSpace (ii_Registry input) in
  let appName := TrimSpace (ii_App input) in
  let version := TrimSpace (ii_Version input) in
  let actor := TrimSpace (ii_Actor input) in
  if decide (registryName = "") then mret (Err ErrRegistryRequired) else
  if decide (appName = "") then mret (Err ErrAppRequired) else
  if decide (version = "") then mret (Err ErrVersionRequired) else
  if negb (in_Locks i) then installLocked i an mode registryName appName version actor else
  lock ← InstallLocks.Acquire (OS := locks) true (an_lockClock an) appName version (an_lockHolder an)
           InstallLocks.DefaultAppVersionInstallLockTTL;
  match lock with
  | Err InstallLocks.ErrAppVersionInstallLockHeld => mret (Err ErrInstallVersionLocked)
  | Err e => mret (Err (ErrClaimLock e))
  | Ok _ =>
      out ← installLocked i an mode registryName appName version actor;
      _ ← InstallLocks.Release (OS := locks) true appName version (an_lockHolder an);
      mret out
  end.

Definition Install i an input := install i an input installModeLegacy.
Definition AddApp i an input := install i an input installModeAdd.
Definition UpgradeApp i an input := install i an input installModeUpgrade.
Definition SelectVersion i an input := install i an input installModeSelect.

(** ** What an install leaves behind *)

Context `{!Apart requests locks, !Apart rollouts locks, !Apart requests rollouts,
          !Apart rollouts requests}.

Local Abbreviation rollout_of := (Rollouts.stored (OS := rollouts)).
Local Abbreviation history_of := (rows (ObjectStore := requests)).

(** A rollout that [pending] became: active, and no active one was replaced. *)
Definition created (pending r : AppRollout) (w : W) : Prop :=
  r_App r = TrimSpace (r_App pending) ∧ r_Version r = TrimSpace (r_Version pending)
  ∧ r_Mode r ≠ "" ∧ Rollouts.isActiveRolloutState (r_State r) = true
  ∧ ∀ old, rollout_of w (r_App r) = Some old → Rollouts.isActiveRolloutState (r_State old) = false.

Lemma normalized_created now p w :
  Rollouts.validateAppRollout (Some p) = Ok tt →
  (∀ old, rollout_of w (r_App (Rollouts.normalizeAppRollout now p)) = Some old →
          Rollouts.isActiveRolloutState (r_State old) = false) →
  created p (Rollouts.normalizeAppRollout now p) w.
Proof.
  intros (Ha & Hv & Hms & _)%Rollouts.validate_cases Hold. split_and!; [done|done| | |done].
  - cbn. destruct Hms as [[-> _]|[-> _]]; done.
  - apply Rollouts.active_cases. cbn. tauto.
Qed.

Lemma frames_CreateAppRollout c now r :
  frames requests (SourceVersions.CreateAppRollout states rollouts c now r).
Proof.
  unfold SourceVersions.CreateAppRollout, SourceVersions.in_transaction, SourceVersions.abort,
    SourceVersions.admitRollout, SourceVersions.commit.
  repeat (keeps_step || unfold SourceVersions.abort).
Qed.

Lemma wp_createRollout i an p Q (env : Env W) :
  (∀ e env', contents env' = contents env → (benign env → benign env') → Q (Err e) env') →
  (∀ r env', created p r (contents env) →
     contents env' = Rollouts.write (OS := rollouts) (Some r) (contents env) →
     (benign env → benign env') → Q (Ok r) env') →
  wp (createRollout i an p) Q env.
Proof.
  intros Herr Hok. unfold createRollout. destruct (decide _).
  - apply wp_bind. eapply wp_mono.
    { apply wp_conj; [apply (SourceVersions.wp_CreateAppRollout states rollouts true (an_storeNow an) p)|].
      apply (wp_keeps (same_rows requests)
               _ (λ _ env', benign env → benign env')); [apply frames_CreateAppRollout|].
      intros a env' _ Hb. exact Hb. }
    cbn. intros [r|e] env' [H Hb]; apply wp_ret; cbn in H.
    + destruct H as (pending & _ & _ & Hpend & Hval & -> & Hold & Hw).
      apply Hok; [|done|done]. pose proof (normalized_created (an_storeNow an) pending (contents env) Hval Hold)
        as (H1 & H2 & H3 & H4 & H5).
      assert (r_App pending = r_App p ∧ r_Version pending = r_Version p) as [Ha Hv].
      { unfold SourceVersions.pendingRollout in Hpend. destruct (bool_decide _).
        - destruct (_ <=? _)%Z; [done|]. by injection Hpend as <-.
        - by injection Hpend as <-. }
      rewrite Ha in H1. rewrite Hv in H2. by split_and!.
    + destruct e; by apply Herr.
  - apply wp_bind. eapply wp_mono; [apply Rollouts.Create_refines|].
    intros [r|e] env' [Hb H]; apply wp_ret.
    + unfold Rollouts.spec_create in H. cbn [negb] in H.
      destruct (Rollouts.validateAppRollout (Some p)) as [[]|] eqn:Hval; [|done]. cbn [rbind] in H.
      set (r' := Rollouts.normalizeAppRollout (an_storeNow an) p) in *.
      assert (Hold : ∀ old, rollout_of (contents env) (r_App r') = Some old →
                Rollouts.isActiveRolloutState (r_State old) = false).
      { intros old Ho. rewrite Ho in H. by destruct (Rollouts.isActiveRolloutState _). }
      assert (Hcr : created p r' (contents env)) by (by apply normalized_created).
      destruct (rollout_of (contents env) (r_App r')) as [old|].
      * rewrite (Hold old eq_refl) in H. destruct H as [-> Hw]. by apply Hok.
      * destruct H as [-> Hw]. by apply Hok.
    + destruct H as [Hw _]. destruct e; by apply Herr.
Qed.

(** The versions the stored history of an app knows, and what they make the desired one:
    a most recently updated one, or none when nothing is known. *)
Definition known_of (app : string) (w : W) : list AppInstallation :=
  ChangeRequests.knownVersionsFromRequests (ChangeRequests.requests_of (OS := requests) app w).

Definition desired_among (known : list AppInstallation) (v : string) : Prop :=
  (known = [] ∧ v = "")
  ∨ ∃ best, best ∈ known ∧ v = TrimSpace (ai_Version best)
            ∧ ∀ other, other ∈ known → (ai_UpdatedAt other ≤ ai_UpdatedAt best)%Z.

(** The version an install leaves, by command: adding an app starts from the version that
    stands for none, upgrading from the desired one, selecting from the desired one or
    from none, and installing from the desired one or the one the configuration pins. *)
Definition previous_version (i : Installer) (mode : installMode) (app : string)
    (known : list AppInstallation) (v : string) : Prop :=
  match mode with
  | installModeAdd => known = [] ∧ v = Retention.FirstInstallFromVersion
  | installModeUpgrade => known ≠ [] ∧ desired_among known v
  | installModeSelect => (desired_among known v ∧ v ≠ "")
                         ∨ (desired_among known "" ∧ v = Retention.FirstInstallFromVersion)
  | installModeLegacy | installModeRetry =>
      v ≠ "" ∧ (desired_among known v
                ∨ (desired_among known "" ∧ v = configPinnedAppVersion (configEntryOf i app)))
  end.

Lemma desired_latest known : desired_among known (LatestKnownVersion (Some <$> known)).
Proof.
  pose proof (FleetState.LatestKnown_is_maximum (Some <$> known)) as H. unfold LatestKnownVersion.
  destruct (FleetState.LatestKnownInstallation _) as [best|].
  - right. destruct H as [Hb Hmax]. exists best.
    apply list_elem_of_fmap in Hb as (b & [= <-] & Hb). split_and!; [done|done|].
    intros other Ho. specialize (Hmax other ltac:(by apply list_elem_of_fmap_2)).
    unfold FleetState.newer, After in Hmax. apply orb_false_iff in Hmax as [Hmax _]. lia.
  - left. split; [|done]. destruct known as [|x known]; [done|].
    exfalso. apply (H x). simpl. constructor.
Qed.

Lemma fromVersionOf_previous i mode app known from :
  fromVersionOf i mode app known = Ok from → previous_version i mode app known from.
Proof.
  pose proof (desired_latest known) as Hd. unfold fromVersionOf, resolveFromVersion, previous_version.
  assert (Hnone : LatestKnownVersion (Some <$> known) = "" → desired_among known "")
    by (by intros <-).
  destruct mode; repeat case_decide; intros [= <-];
    try match goal with H : ¬ _ ≠ _ |- _ => apply dec_stable in H end; tauto.
Qed.

(** After a success: one new request, from a [previous] version, and its rollout in
    place of a finished one. *)
Definition succeeded (an : Answers) (previous : list AppInstallation → string → Prop)
    (app version : string) (out : InstallOutput) (w w' : W) : Prop :=
  (∃ request, ChangeRequests.valid_request request
     ∧ cr_App request = app ∧ cr_ToVersion request = version
     ∧ previous (known_of app w) (cr_FromVersion request)
     ∧ cr_FromVersion request = io_FromVersion out ∧ cr_ID request = ""
     ∧ cr_Timestamp request = Truncate (an_requestedNow an) Millisecond
     ∧ history_of w !! an_requestID an = None
     ∧ history_of w' = <[an_requestID an :=
         ChangeRequests.appended (an_storeNow an) (an_requestID an) request]> (history_of w))
  ∧ rollout_of w' app = Some (io_Rollout out)
  ∧ r_Version (io_Rollout out) = version
  ∧ Rollouts.isActiveRolloutState (r_State (io_Rollout out)) = true
  ∧ (∀ old, rollout_of w app = Some old → Rollouts.isActiveRolloutState (r_State old) = false)
  ∧ (∀ other, other ≠ app → rollout_of w' other = rollout_of w other).

(** After an error: the history and the rollouts of other apps are as before; the
    rollout of the app too, unless it was created and could not be recorded, which
    leaves it failed when no call to the database fails. *)
Definition failed (app : string) (good : Prop) (w w' : W) : Prop :=
  history_of w' = history_of w
  ∧ (∀ other, other ≠ app → rollout_of w' other = rollout_of w other)
  ∧ (good → rollout_of w' app = rollout_of w app
            ∨ ∃ r, rollout_of w' app = Some r ∧ r_State r = RolloutFailed).

Definition outcome_of (an : Answers) (previous : list AppInstallation → string → Prop)
    (app version : string) (env : Env W)
    (r : result InstallError InstallOutput) (env' : Env W) : Prop :=
  match r with
  | Ok out => succeeded an previous app version out (contents env) (contents env')
  | Err _ => failed app (benign env) (contents env) (contents env')
  end.

Lemma failed_same app good w : failed app good w w.
Proof. split_and!; [done|done|]. intros _. by left. Qed.

(** Only the rows of the history and of the rollouts matter. *)
Lemma outcome_frame an previous app version env env0 r env1 env2 :
  same_rows requests (contents env) (contents env0) → same_rows rollouts (contents env) (contents env0) →
  (benign env → benign env0) →
  same_rows requests (contents env1) (contents env2) → same_rows rollouts (contents env1) (contents env2) →
  outcome_of an previous app version env0 r env1 → outcome_of an previous app version env r env2.
Proof.
  unfold same_rows, outcome_of, succeeded, failed, Rollouts.stored, known_of, ChangeRequests.requests_of, select.
  intros -> -> Hb -> -> H. destruct r; [exact H|]. destruct H as (? & ? & ?). split_and!; auto.
Qed.

Lemma stored_requests_frame w w' :
  same_rows rollouts w w' → ∀ app, rollout_of w' app = rollout_of w app.
Proof. intros H app. unfold Rollouts.stored. by rewrite H. Qed.

Lemma wp_mirror i registryName appName from to policy now Q (env : Env W) :
  (∀ env', same_rows requests (contents env) (contents env') →
           same_rows rollouts (contents env) (contents env') → Q tt env') →
  wp (mirrorRetentionTransition i registryName appName from to policy now) Q env.
Proof.
  intros HQ. unfold mirrorRetentionTransition. destruct (in_RetentionCatalog i); cbn [negb].
  2:{ apply wp_ret. by apply HQ. }
  apply wp_bind. match goal with |- wp ?m _ _ => set (mutate := m) end.
  pose proof (keeps_run (same_rows requests) mutate env (MutateRetention_frames requests _ _ _)) as [H1 _].
  pose proof (keeps_run (same_rows rollouts) mutate env (MutateRetention_frames rollouts _ _ _)) as [H2 _].
  by apply (HQ (run mutate env).2).
Qed.

Lemma failed_rollout now at_ r w app version :
  rollout_of w app = Some r → TrimSpace app = app → TrimSpace version = version → app ≠ "" →
  version ≠ "" → r_Version r = version → Rollouts.isActiveRolloutState (r_State r) = true →
  ∃ r', Rollouts.spec_transition true now app version RolloutFailed at_ None (rollout_of w)
        = Ok (r', Some r') ∧ r_State r' = RolloutFailed ∧ r_App r' = r_App r ∧ r_Mode r' = r_Mode r.
Proof.
  intros Hr Ha Hv Hane Hvne Hrv Hact. unfold Rollouts.spec_transition. cbn [negb].
  rewrite Ha, Hv, Hr, !bool_decide_eq_false_2 by done. cbn [orb].
  rewrite bool_decide_eq_false_2; [|rewrite Hrv, Hv; auto].
  rewrite Hact, bool_decide_eq_false_2.
  - eexists. split; [reflexivity|]. done.
  - intros E. rewrite E in Hact. done.
Qed.

Lemma write_rollout r w :
  r_Mode r ≠ "" →
  rollout_of (Rollouts.write (OS := rollouts) (Some r) w) (r_App r) = Some r
  ∧ (∀ other, other ≠ r_App r →
       rollout_of (Rollouts.write (OS := rollouts) (Some r) w) other = rollout_of w other)
  ∧ same_rows requests w (Rollouts.write (OS := rollouts) (Some r) w).
Proof.
  intros Hm. split_and!.
  - rewrite Rollouts.stored_write by done. by rewrite decide_True.
  - intros other Hne. rewrite Rollouts.stored_write by done. by rewrite decide_False.
  - apply (apart_left (s1 := requests)).
Qed.

Lemma wp_admitVersion i an registryName registryApp app version actor from retried policy source
    previous (env : Env W) :
  TrimSpace app = app → TrimSpace version = version → app ≠ "" → version ≠ "" →
  previous (known_of app (contents env)) from →
  wp (admitVersion i an registryName registryApp app version actor from retried policy source)
     (outcome_of an previous app version env) env.
Proof.
  intros Ha Hv Hane Hvne Hprev. unfold admitVersion, attempt. apply wp_bind.
  apply wp_createRollout; intros rollout env1.
  { intros Hc _. apply wp_ret. cbn. rewrite Hc. apply failed_same. }
  intros (Hrapp & Hrver & Hrmode & Hract & Hold) Hc1 Hb1. cbn [r_App r_Version pendingRolloutFor] in Hrapp, Hrver.
  rewrite Ha in Hrapp. rewrite Hv in Hrver.
  destruct (write_rollout rollout (contents env) Hrmode) as (Hw1 & Hw2 & Hw3).
  rewrite <-Hc1, Hrapp in *. apply wp_bind. apply ChangeRequests.wp_AppendRequest_faults.
  - intros e env2 Hb2 Hc2 _. apply wp_bind. eapply wp_mono; [apply Rollouts.transition_refines|].
    intros res env3 [Hb3 H3]. apply wp_ret. cbn. rewrite Hc2 in H3.
    destruct (failed_rollout (an_storeNow an) (Truncate (an_failedNow an) Millisecond) rollout
                (contents env1) app version) as (r' & Hspec & Hst & Happ' & Hmode'); try done.
    rewrite Hspec in H3. destruct res as [x|e'].
    + destruct H3 as [_ Hc3]. assert (Hm' : r_Mode r' ≠ "") by congruence.
      destruct (write_rollout r' (contents env1) Hm') as (Hx1 & Hx2 & Hx3).
      rewrite <-Hc3, Happ', Hrapp in *. split_and!.
      * unfold same_rows in *. congruence.
      * intros other Ho. rewrite Hx2, Hw2 by done. done.
      * intros _. right. by exists r'.
    + destruct H3 as [Hc3 Hfalse]. rewrite Hc3. split_and!; [done|done|].
      intros Hg. exfalso. auto.
  - intros env2 Hb2 Hvalid Hnew Hc2. apply wp_bind. apply wp_mirror. intros env3 Hs1 Hs2.
    apply wp_ret. cbn [outcome_of]. unfold succeeded. cbn [io_FromVersion io_Rollout].
    set (request := changeRequestFor _ _ _ _ _ _ _) in *.
    assert (Hreq : history_of (contents env2) =
        <[an_requestID an := ChangeRequests.appended (an_storeNow an) (an_requestID an) request]>
          (history_of (contents env))).
    { rewrite Hc2, rows_with. by rewrite Hw3. }
    assert (Hrol : ∀ x, rollout_of (contents env3) x = rollout_of (contents env1) x).
    { intros x. rewrite (stored_requests_frame _ _ Hs2). rewrite Hc2. unfold Rollouts.stored.
      by rewrite (apart_left (s1 := rollouts) (s2 := requests)). }
    split_and!.
    + exists request. split_and!; try done.
      * unfold same_rows in Hw3. by rewrite <-Hw3.
      * unfold same_rows in Hs1. by rewrite Hs1.
    + by rewrite Hrol.
    + done.
    + done.
    + done.
    + intros other Ho. rewrite Hrol. auto.
Qed.

(** Reading steps. *)
Lemma quiet_ListKnown app : quiet (ChangeRequests.ListKnownVersionsByApp (OS := requests) true app).
Proof. unfold ChangeRequests.ListKnownVersionsByApp, ChangeRequests.ListRequestsByApp. repeat keeps_step. Qed.
Lemma quiet_HasKnown app version : quiet (ChangeRequests.HasKnownVersion (OS := requests) app version).
Proof. unfold ChangeRequests.HasKnownVersion. repeat keeps_step. Qed.
Lemma quiet_GetRollout app : quiet (Rollouts.GetRollout (OS := rollouts) true app).
Proof. unfold Rollouts.GetRollout. repeat keeps_step. Qed.
Lemma quiet_CurrentForAdmission : quiet (SourceVersions.CurrentForAdmission states true).
Proof. unfold SourceVersions.CurrentForAdmission, SourceVersions.GetState. repeat keeps_step. Qed.
Lemma quiet_validate i an registryName app version entry :
  quiet (validateInstallCandidate i an registryName app version entry).
Proof.
  unfold validateInstallCandidate, InstallValidation.ValidateInstall,
    ChangeRequests.ListAllKnownVersions, ChangeRequests.listAllRequests. repeat keeps_step.
Qed.

Section steps.
  Context (an : Answers) (previous : list AppInstallation → string → Prop).
  Context (app version : string) (env : Env W).
  Local Abbreviation goes m := (wp m (outcome_of an previous app version env)).

(** [env'] is as good as [env]. *)
Definition reached (env' : Env W) : Prop :=
  contents env' = contents env ∧ (benign env → benign env').

Lemma stops e env' : reached env' → goes (mret (Err e)) env'.
Proof. intros [Hc _]. apply wp_ret. cbn. rewrite Hc. apply failed_same. Qed.

(** The goal is an early return. *)
Local Ltac stop_here := match goal with |- wp (mret (Err ?e)) _ _ => by apply (stops e)
  | |- wp (Ret (Err ?e)) _ _ => by apply (stops e) end.

Lemma reads {A} (m : prog (Env W) A) (k : A → prog (Env W) _) env' :
  reached env' → quiet m → (∀ a env'', reached env'' → goes (k a) env'') → goes (m ≫= k) env'.
Proof.
  intros [Hc Hb] Hm Hk. apply wp_bind. apply (wp_keeps eq); [done|].
  intros a env'' Hc' Hb'. apply Hk. split; [congruence|auto].
Qed.

Lemma attempts {E A} (wrap : E → InstallError) (m : prog (Env W) (result E A)) k env' :
  reached env' → quiet m → (∀ a env'', reached env'' → goes (k a) env'') →
  goes (attempt wrap m k) env'.
Proof.
  intros Hr Hm Hk. apply reads; [done|done|]. intros [a|e] env'' Hr'; [by apply Hk|stop_here].
Qed.

Lemma checks {E A} (wrap : E → InstallError) (r : result E A) k env' :
  reached env' → (∀ a, r = Ok a → goes (k a) env') → goes (check wrap r k) env'.
Proof. intros Hr Hk. unfold check. destruct r as [a|e]; [by apply Hk|stop_here]. Qed.

(** The known versions are those of the stored history. *)
Lemma lists_known k env' :
  reached env' → TrimSpace app = app → app ≠ "" →
  (∀ env'', reached env'' → goes (k (known_of app (contents env))) env'') →
  goes (attempt ErrListKnownVersions (ChangeRequests.ListKnownVersionsByApp (OS := requests) true app) k)
       env'.
Proof.
  intros [Hc Hb] Ha Hne Hk. unfold attempt, ChangeRequests.ListKnownVersionsByApp. cbn [negb].
  apply wp_bind, wp_bind. apply ChangeRequests.wp_ListRequestsByApp; [by rewrite Ha| |].
  - intros env'' Hb' Hc'. apply wp_ret. cbn [rbind]. apply stops. split; [congruence|tauto].
  - intros env'' Hb' Hc'. apply wp_ret. cbn [rbind]. rewrite Ha, Hc.
    apply Hk. split; [congruence|tauto].
Qed.

Lemma wp_installLocked i mode registryName actor env' :
  previous = previous_version i mode app →
  TrimSpace app = app → TrimSpace version = version → app ≠ "" → version ≠ "" → reached env' →
  goes (installLocked i an mode registryName app version actor) env'.
Proof.
  intros Hprev Ha Hv Hane Hvne Hr. unfold installLocked.
  destruct (in_ChangeRequests i), (in_Rollouts i); cbn [negb]; try stop_here.
  apply lists_known; [done..|]. clear env' Hr. intros env' Hr.
  apply checks; [done|]. intros registryApp _. apply checks; [done|].
  intros from Hfrom%fromVersionOf_previous. rewrite <-Hprev in Hfrom.
  apply attempts; [done|destruct (_ && _); [apply quiet_HasKnown|constructor]|].
  clear env' Hr. intros [] env' Hr; [stop_here|].
  apply reads; [done|apply quiet_GetRollout|]. clear env' Hr. intros current env' Hr.
  destruct (match current with Ok _ => _ | Err _ => _ end) as [currentRollout|e]; [|stop_here].
  apply checks; [done|]. intros [mode' retried] _.
  apply attempts; [done| |].
  { destruct (decide _); [|constructor]. destruct (in_SourceVersions i); cbn [negb]; [|constructor].
    apply keeps_bind; [apply quiet_CurrentForAdmission|]. intros r. constructor. }
  clear env' Hr. intros _ env' Hr.
  destruct (in_Registries i !! registryName) as [registryConfig|]; [|stop_here].
  do 4 (apply checks; [done|]; intros ? _).
  destruct (_ && _); [stop_here|]. apply checks; [done|]. intros source _.
  apply attempts; [done|apply quiet_validate|]. clear env' Hr. intros _ env' [Hc Hb].
  eapply wp_mono; [apply wp_admitVersion; try done; by rewrite Hc|]. intros r env''.
  apply outcome_frame; unfold same_rows; by rewrite ?Hc.
Qed.
End steps.

Local Ltac stop_here := match goal with |- wp (mret (Err ?e)) _ _ => by apply (stops _ _ _ _ _ e) end.

Lemma frames_locks (s : ObjectStore W) `{!Apart s locks} c clock app version holder ttl :
  frames s (InstallLocks.Acquire (OS := locks) c clock app version holder ttl)
  ∧ frames s (InstallLocks.Release (OS := locks) c app version holder).
Proof.
  split.
  - unfold InstallLocks.Acquire, InstallLocks.clearStaleAndCheckAppLocks, InstallLocks.acquireFresh,
      InstallLocks.acquireExisting, InstallLocks.tryAddLock, InstallLocks.putLock.
    assert (Hd : ∀ key, frames s (InstallLocks.deleteLock (OS := locks) key)).
    { intros key. unfold InstallLocks.deleteLock. repeat keeps_step. }
    assert (Hs : ∀ key a h now recs, frames s (InstallLocks.clearStale (OS := locks) key a h now recs)).
    { intros key a h now recs. induction recs as [|rec recs IH]; cbn [InstallLocks.clearStale];
        repeat (apply Hd || apply IH || keeps_step). }
    repeat (apply Hd || apply Hs || keeps_step).
  - unfold InstallLocks.Release, InstallLocks.deleteLock. repeat keeps_step.
Qed.

Lemma wp_install i an input mode (env : Env W) :
  wp (install i an input mode)
     (outcome_of an (previous_version i mode (TrimSpace (ii_App input)))
        (TrimSpace (ii_App input)) (TrimSpace (ii_Version input)) env) env.
Proof.
  unfold install. assert (Hr : reached env env) by done.
  destruct (decide (TrimSpace (ii_Registry input) = "")) as [|_]; [stop_here|].
  destruct (decide (TrimSpace (ii_App input) = "")) as [|Ha]; [stop_here|].
  destruct (decide (TrimSpace (ii_Version input) = "")) as [|Hv]; [stop_here|].
  destruct (in_Locks i); cbn [negb].
  2:{ apply wp_installLocked; auto using TrimSpace_idem. }
  apply wp_bind.
  match goal with |- wp ?m _ _ => set (acquire := m) end.
  pose proof (keeps_run (same_rows requests) acquire env) as H1.
  pose proof (keeps_run (same_rows rollouts) acquire env) as H2.
  destruct H1 as [H1 Hb1]; [apply frames_locks; apply _|].
  destruct H2 as [H2 _]; [apply frames_locks; apply _|].
  unfold wp at 1. destruct (run acquire env) as [lock env1]. cbn [fst snd] in *.
  assert (Hfail : ∀ e, outcome_of an (previous_version i mode (TrimSpace (ii_App input)))
            (TrimSpace (ii_App input)) (TrimSpace (ii_Version input)) env (Err e) env1).
  { intros e. cbn. split_and!; [exact H1|..].
    - intros other _. by apply stored_requests_frame.
    - intros _. left. by apply stored_requests_frame. }
  destruct lock as [[]|e].
  2:{ destruct e; apply wp_ret; apply Hfail. }
  apply wp_bind. eapply wp_mono.
  { by apply (wp_installLocked an (previous_version i mode (TrimSpace (ii_App input))) _ _ env1);
      auto using TrimSpace_idem. }
  intros out env2 Hout. apply wp_bind. match goal with |- wp ?m _ _ => set (release := m) end.
  pose proof (keeps_run (same_rows requests) release env2) as H3.
  pose proof (keeps_run (same_rows rollouts) release env2) as H4.
  destruct H3 as [H3 _]; [apply (frames_locks requests true 0%Z _ _ _ 0%Z)|].
  destruct H4 as [H4 _]; [apply (frames_locks rollouts true 0%Z _ _ _ 0%Z)|].
  change (outcome_of an (previous_version i mode (TrimSpace (ii_App input))) (TrimSpace (ii_App input)) (TrimSpace (ii_Version input)) env out (run release env2).2).
  by eapply outcome_frame.
Qed.

(** C28.  A successful install, by any of the four commands and whatever calls fail in
    between, records exactly one new request, from the previous to the asked version --
    the version the stored history made the desired one, the one the configuration pins
    when the history has none, or the mark of a first install, as the command has it -- and
    starts exactly one rollout, of that version; it replaced no active rollout, and left
    the rollouts of all other apps alone. *)
Theorem install_success i an input mode (env : Env W) out :
  let r := run (install i an input mode) env in
  r.1 = Ok out →
  succeeded an (previous_version i mode (TrimSpace (ii_App input)))
    (TrimSpace (ii_App input)) (TrimSpace (ii_Version input)) out (contents env) (contents r.2).
Proof.
  cbn zeta. intros Hout. pose proof (wp_install i an input mode env) as H. unfold wp in H.
  by rewrite Hout in H.
Qed.

(** C36.  A failed install never changes what the fleet should run: the history of
    versions is untouched and so are the rollouts of other apps.  The app's own rollout
    is as before too, unless it had been created when its request could not be recorded;
    then it is left failed, when no call to the database fails. *)
Theorem install_failure i an input mode (env : Env W) e :
  let r := run (install i an input mode) env in
  r.1 = Err e →
  failed (TrimSpace (ii_App input)) (benign env) (contents env) (contents r.2).
Proof.
  cbn zeta. intros Herr. pose proof (wp_install i an input mode env) as H. unfold wp in H.
  by rewrite Herr in H.
Qed.

Local Abbreviation requests_in := (ChangeRequests.requests_of (OS := requests)).

Lemma requests_of_rows app w w' : same_rows requests w w' → requests_in app w' = requests_in app w.
Proof. intros H. unfold ChangeRequests.requests_of, select. by rewrite H. Qed.

(** What an operator installs is what the fleet is asked to run: after a successful
    install that is later than every recorded request of the app, the app's latest known
    version is the installed one, and the revision that asks for it is the request of
    this install. *)
Theorem install_becomes_desired i an input mode (env : Env W) out :
  let app := TrimSpace (ii_App input) in
  let version := TrimSpace (ii_Version input) in
  let r := run (install i an input mode) env in
  r.1 = Ok out →
  ChangeRequests.wf_requests (OS := requests) (contents env) →
  history_of (contents env) !! "" = None → an_requestID an ≠ "" →
  (Millisecond ≤ an_requestedNow an ≤ Heartbeats.indexedDBMaxTime)%Z →
  (∀ x, x ∈ requests_in app (contents env) →
        (cr_Timestamp x < Truncate (an_requestedNow an) Millisecond)%Z) →
  LatestKnownVersion (Some <$> ChangeRequests.knownVersionsFromRequests (requests_in app (contents r.2)))
    = version
  ∧ ChangeRequests.latestDesiredRevisionID (requests_in app (contents r.2)) version = an_requestID an.
Proof.
  cbn zeta. intros Hout Hwf Hempty Hid Hnow Hlater.
  pose proof (wp_install i an input mode env) as H. unfold wp in H. rewrite Hout in H.
  destruct H as [(request & (Hva & _ & Hvt) & Happ & Hto & _ & _ & Hrid & Hts & Hnew & Hrows) _].
  set (w' := contents (run (install i an input mode) env).2) in *. clearbody w'.
  set (app := TrimSpace (ii_App input)) in *. set (version := TrimSpace (ii_Version input)) in *.
  assert (Htapp : TrimSpace app = app) by apply TrimSpace_idem.
  assert (Htver : TrimSpace version = version) by apply TrimSpace_idem.
  pose proof (Truncate_le (an_requestedNow an) Millisecond ltac:(done)) as Htr.
  pose proof (Truncate_mono _ _ Millisecond ltac:(done) (proj1 Hnow)) as Hmono.
  change (Truncate Millisecond Millisecond) with Millisecond in Hmono.
  assert (Happid : ChangeRequests.appended_id (an_requestID an) request = an_requestID an).
  { unfold ChangeRequests.appended_id. by rewrite Hrid. }
  assert (Hat : ChangeRequests.appended_at (an_storeNow an) request
                = Truncate (an_requestedNow an) Millisecond).
  { unfold ChangeRequests.appended_at, IsZero. rewrite Hts.
    rewrite (proj2 (Z.eqb_neq _ _)) by (unfold Millisecond in *; lia). by apply Truncate_idem. }
  destruct (ChangeRequests.append_decides (OS := requests) (an_storeNow an) (an_requestID an) request
              (contents env)) as [Hknown Hrev]; rewrite ?Happid, ?Hat; try (done || lia).
  { rewrite Happ, Htapp. exact Hlater. }
  rewrite Happid, Happ, Hto, Htapp, Htver in Hknown, Hrev.
  set (w1 := with_rows (ObjectStore := requests) _ _) in Hknown, Hrev.
  assert (Hsame : same_rows requests w1 w') by (unfold same_rows, w1; by rewrite rows_with).
  by rewrite (requests_of_rows _ _ _ Hsame).
Qed.
End installer.

(** ** A concrete install *)

Section demo.
#[local] Existing Instances Rfc3339.go_time_parser ChangeRequests.bit_codec
  ChangeRequests.plain_sprinter.

Local Abbreviation table := (gmap string idbRecord).
Definition demo_database : Type := (table * table) * (table * table).

Definition demo_locks : ObjectStore demo_database := left_store _ _ (H := left_store _ _).
Definition demo_requests : ObjectStore demo_database := left_store _ _ (H := right_store _ _).
Definition demo_states : ObjectStore demo_database := right_store _ _ (H := left_store _ _).
Definition demo_rollouts : ObjectStore demo_database := right_store _ _ (H := right_store _ _).

(** A catalog that drops every mutation. *)
Program Definition demo_catalog : RetentionCatalog demo_database :=
  {| MutateRetention _ _ _ := mret (Ok tt) |}.
Next Obligation. intros. constructor. Qed.

#[local] Instance demo_apart_requests_locks : Apart demo_requests demo_locks.
Proof. unfold demo_requests, demo_locks. apply _. Qed.
#[local] Instance demo_apart_rollouts_locks : Apart demo_rollouts demo_locks.
Proof. unfold demo_rollouts, demo_locks. apply _. Qed.
#[local] Instance demo_apart_requests_rollouts : Apart demo_requests demo_rollouts.
Proof. unfold demo_requests, demo_rollouts. apply _. Qed.
#[local] Instance demo_apart_rollouts_requests : Apart demo_rollouts demo_requests.
Proof. unfold demo_rollouts, demo_requests. apply _. Qed.

Definition demo_installer : Installer :=
  {| in_Registries := InstallValidation.va_Registries InstallValidation.demo_validator;
     in_ConfigApps := None; in_ChangeRequests := true; in_Locks := true; in_SourceVersions := true;
     in_Rollouts := true; in_RetentionCatalog := true; in_GestaltdVersion := "dev";
     in_SourceVersion := ""; in_RolloutMode := "" |}.

Definition demo_answers : Answers :=
  {| an_lockHolder := "holder"; an_requestID := "r3"; an_lockClock := Hour; an_checkNow := Hour;
     an_requestedNow := Hour; an_storeNow := Hour; an_failedNow := Hour;
     an_platform := "linux/amd64"; an_buildVersion := ""; an_FetchRetentionIndex _ _ := Ok None;
     an_FetchEntry := InstallValidation.demo_fetch |}.

Definition demo_input : InstallInput :=
  {| ii_Registry := "main"; ii_App := " base"; ii_Version := "1.1.0"; ii_Actor := "ada" |}.

(** The history holds version 1.0.0 of two apps. *)
Definition demo_env : Env demo_database := mkEnv ((∅, InstallValidation.demo_db), (∅, ∅)) [].

Definition demo_install : prog (Env demo_database) (result InstallError InstallOutput) :=
  install (RC := demo_catalog) demo_locks demo_requests demo_states demo_rollouts
    InstallValidation.text_semver InstallValidation.id_codecs (λ _, None)
    demo_installer demo_answers demo_input installModeLegacy.

Lemma demo_ok : ∃ out, (run demo_install demo_env).1 = Ok out.
Proof. eexists. vm_compute. reflexivity. Qed.

(** The same when the call that appends the request fails. *)
Definition demo_faulty : Env demo_database :=
  mkEnv (contents demo_env) [false; false; false; false; false; false; false; false; false; false; true].

Lemma demo_fails :
  ∃ e, (run demo_install demo_faulty).1 = Err (ErrAppendRequest e).
Proof. eexists. vm_compute. reflexivity. Qed.

Lemma install_success_witness :
  ∃ out, (run demo_install demo_env).1 = Ok out
    ∧ succeeded demo_requests demo_rollouts demo_answers
        (previous_version demo_installer installModeLegacy (TrimSpace (ii_App demo_input))) (TrimSpace (ii_App demo_input)) (TrimSpace (ii_Version demo_input)) out
        (contents demo_env) (contents (run demo_install demo_env).2).
Proof.
  destruct demo_ok as [out Hout]. exists out. split; [exact Hout|].
  exact (install_success (RC := demo_catalog) demo_locks demo_requests demo_states demo_rollouts
    InstallValidation.text_semver InstallValidation.id_codecs (λ _, None) demo_installer demo_answers
    demo_input installModeLegacy demo_env out Hout).
Defined.

Lemma install_failure_witness :
  ∃ e, (run demo_install demo_faulty).1 = Err (ErrAppendRequest e)
    ∧ failed demo_requests demo_rollouts (TrimSpace (ii_App demo_input)) (benign demo_faulty)
        (contents demo_faulty) (contents (run demo_install demo_faulty).2).
Proof.
  destruct demo_fails as [e He]. exists e. split; [exact He|].
  exact (install_failure (RC := demo_catalog) demo_locks demo_requests demo_states demo_rollouts
    InstallValidation.text_semver InstallValidation.id_codecs (λ _, None) demo_installer demo_answers
    demo_input installModeLegacy demo_faulty (ErrAppendRequest e) He).
Defined.

Lemma demo_history :
  ChangeRequests.wf_requests (OS := demo_requests) (contents demo_env)
  ∧ rows (ObjectStore := demo_requests) (contents demo_env) !! "" = None
  ∧ ∀ x, x ∈ ChangeRequests.requests_of (OS := demo_requests) (TrimSpace (ii_App demo_input))
                (contents demo_env) →
         (cr_Timestamp x < Truncate (an_requestedNow demo_answers) Millisecond)%Z.
Proof.
  split_and!.
  - intros key rec. change (InstallValidation.demo_db !! key = Some rec → record_id rec = key
      ∧ is_Some (ChangeRequests.key_app rec) ∧ is_Some (ChangeRequests.key_to_version rec)
      ∧ is_Some (ChangeRequests.key_timestamp rec)). unfold InstallValidation.demo_db.
    intros [[<- <-]|[_ [[<- <-]|[_ H]]%lookup_insert_Some]]%lookup_insert_Some;
      [split_and!; [done|by eexists..]..|by rewrite lookup_empty in H].
  - reflexivity.
  - change (TrimSpace (ii_App demo_input)) with "base". intros x Hx.
    assert (ChangeRequests.requests_of (OS := demo_requests) "base" (contents demo_env) =
      [ChangeRequests.recordToAppVersionChangeRequest (InstallValidation.demo_row "r1" "base")]) as E
      by (vm_compute; reflexivity).
    rewrite E in Hx. apply list_elem_of_singleton in Hx as ->. vm_compute. done.
Qed.

Lemma install_becomes_desired_witness :
  LatestKnownVersion (Some <$> ChangeRequests.knownVersionsFromRequests
    (ChangeRequests.requests_of (OS := demo_requests) (TrimSpace (ii_App demo_input))
       (contents (run demo_install demo_env).2))) = TrimSpace (ii_Version demo_input).
Proof.
  destruct demo_history as (Hwf & Hempty & Hlater).
  assert (Hid : an_requestID demo_answers ≠ "") by done.
  assert (Hnow : (Millisecond ≤ an_requestedNow demo_answers ≤ Heartbeats.indexedDBMaxTime)%Z)
    by (vm_compute; done).
  destruct demo_ok as [out Hout].
  exact (proj1 (install_becomes_desired (RC := demo_catalog) demo_locks demo_requests demo_states
    demo_rollouts InstallValidation.text_semver InstallValidation.id_codecs (λ _, None) demo_installer
    demo_answers demo_input installModeLegacy demo_env out Hout Hwf Hempty Hid Hnow Hlater)).
Defined.
End demo.

End Installer.
