(* ===== verification/AutoDeployController.v ===== *)
(** * AutoDeployController: deploying new versions automatically

    Models [gestaltd/internal/appregistry/autodeploy/controller.go] and the conditional
    fetch of an app's index of [gestaltd/internal/appregistry/reader.go].  The controller
    composes the settings, the rollouts, the version history, the registry, the installer
    and the fleet projection.  It runs in one goroutine: its passes follow each other, and
    [Notify] queues an app for the next one.

    What a pass talks to is the record [Pass].  The installer and the fleet reader are
    interfaces: the laws a pass relies on are the class [Collaborators], discharged for
    the installer of Installer.v and the projector of FleetState.v.  Logging and metrics
    are not modelled; [ErrorText] is the text of an installer's error. *)

From stdpp Require Import base gmap strings list sorting sets.
From Stdlib Require Import ZArith Ascii Lia.
From S2P Require Import Prelude ObjectStore RegistryTypes Rfc3339 Heartbeats FleetState.
From S2P Require Import Rollouts InstallLocks SourceVersions AutoDeploy ChangeRequests.
From S2P Require Import AppSources Retention RegistryConfig InstallValidation RegistryIndex.
From S2P Require Import Installer.

Set Default Goal Selector "!".

Module AutoDeployController.
Import FleetState(LatestKnownVersion).
Import InstallValidation(Codecs).
Import Retention(Index).
Import Installer(InstallInput, InstallOutput, InstallError).
Import AutoDeploy(SettingsError, ErrSettingsNotFound).

Definition Actor : string := "system:auto-deploy".

Record AppConfig := { ac_Registry : string; ac_PublicRoot : string; ac_RegistryApp : string }.

Record AppIndexFetchResult := {
  fr_Index : option Index; fr_ETag : string; fr_NotModified : bool }.

(** ** Fetching an index *)

Inductive ReaderError :=
  | ErrAppNameRequired
  | ErrRepositoryName (e : AppSources.SourceError)
  | ErrPublicURLRequired
  | ErrRequest
  | ErrTransport
  | ErrStatus (status : Z)
  | ErrReadBody
  | ErrDecodeJSON
  | ErrIndex (e : RegistryIndex.IndexError).

(** An answer of the registry; the body is what is read of it, as the JSON value it
    holds. *)
Record Response := {
  rs_Status : Z; rs_ETag : string; rs_Body : result ReaderError Index }.

Section reader.
Context (IsValid : string → bool) (Canonical : string → string).
Context (cd : Codecs) (order : ∀ A : Type, gmap string A → list (string * A)).

(** [do url header] sends the request, with an [If-None-Match] header unless it is
    empty. *)
Definition FetchAppIndexConditional (do : string → string → result ReaderError Response)
    (publicRoot appName ifNoneMatch : string) : result ReaderError AppIndexFetchResult :=
  let appName := TrimSpace appName in
  fail_if bool_decide (appName = "") with ErrAppNameRequired ;;
  match AppSources.ValidateRepositoryName appName with
  | Err e => Err (ErrRepositoryName e)
  | Ok _ =>
      let publicRoot := AppSources.TrimRightByte (TrimSpace publicRoot) "/" in
      fail_if bool_decide (publicRoot = "") with ErrPublicURLRequired ;;
      let url := InstallValidation.PublicURL publicRoot (RegistryIndex.AppIndexPath cd appName) in
      let! resp := do url (TrimSpace ifNoneMatch) in
      if (rs_Status resp =? 304)%Z
      then Ok {| fr_Index := None; fr_ETag := ""; fr_NotModified := true |} else
      if (rs_Status resp =? 404)%Z
      then Ok {| fr_Index := Some RegistryIndex.NewEmptyIndex; fr_ETag := ""; fr_NotModified := false |}
      else
      fail_if (rs_Status resp <? 200)%Z || (300 <=? rs_Status resp)%Z with ErrStatus (rs_Status resp) ;;
      let! index := rs_Body resp in
      match RegistryIndex.validateIndex IsValid Canonical order (Some index) with
      | Err e => Err (ErrIndex e)
      | Ok _ => Ok {| fr_Index := Some index; fr_ETag := TrimSpace (rs_ETag resp);
                      fr_NotModified := false |}
      end
  end.
End reader.

(** ** The controller *)

Inductive ControllerError :=
  | ErrControllerNotConfigured
  | ErrRolloutRequired
  | ErrFleetNotConfigured
  | ErrSettings (e : SettingsError Empty_set)
  | ErrRollout (e : Rollouts.RolloutError)
  | ErrCheckHealth (app : string) (e : FleetState.FleetError)
  | ErrFetch (e : ReaderError)
  | ErrKnownVersions (e : ChangeRequests.ChangeRequestError)
  | ErrSelect (e : InstallError)
  | ErrJoined (errs : list (string * ControllerError)).

(** Which of its services are set, the apps it deploys, and its own state: the entity
    tags of the indices it has read and the queued apps. *)
Record Controller := {
  ct_Settings : bool; ct_Rollouts : bool; ct_ChangeRequests : bool; ct_Reader : bool;
  ct_Installer : bool; ct_Fleet : bool;
  ct_Apps : gmap string AppConfig;
  ct_Interval : duration;
  ct_wake : list string;
  ct_etags : gmap string string }.

Definition set_etags (f : gmap string string → gmap string string) (c : Controller) : Controller :=
  {| ct_Settings := ct_Settings c; ct_Rollouts := ct_Rollouts c;
     ct_ChangeRequests := ct_ChangeRequests c; ct_Reader := ct_Reader c;
     ct_Installer := ct_Installer c; ct_Fleet := ct_Fleet c; ct_Apps := ct_Apps c;
     ct_Interval := ct_Interval c; ct_wake := ct_wake c; ct_etags := f (ct_etags c) |}.
Definition set_wake (wake : list string) (c : Controller) : Controller :=
  {| ct_Settings := ct_Settings c; ct_Rollouts := ct_Rollouts c;
     ct_ChangeRequests := ct_ChangeRequests c; ct_Reader := ct_Reader c;
     ct_Installer := ct_Installer c; ct_Fleet := ct_Fleet c; ct_Apps := ct_Apps c;
     ct_Interval := ct_Interval c; ct_wake := wake; ct_etags := ct_etags c |}.

(** Copies the apps in the order of the map iteration, which decides between names that
    differ only in surrounding space. *)
Definition cloneApps (apps : list (string * AppConfig)) : gmap string AppConfig :=
  fold_left (λ out kv, <[TrimSpace kv.1 :=
    {| ac_Registry := TrimSpace (ac_Registry kv.2);
       ac_PublicRoot := AppSources.TrimRightByte (TrimSpace (ac_PublicRoot kv.2)) "/";
       ac_RegistryApp := TrimSpace (ac_RegistryApp kv.2) |}]> out) apps ∅.

(** A missing reader is replaced by the default one. *)
Definition New (settings rollouts changeRequests reader installer fleet : bool)
    (apps : list (string * AppConfig)) (interval : duration) : Controller :=
  {| ct_Settings := settings; ct_Rollouts := rollouts; ct_ChangeRequests := changeRequests;
     ct_Reader := true; ct_Installer := installer; ct_Fleet := fleet; ct_Apps := cloneApps apps;
     ct_Interval := if (interval <=? 0)%Z then Minute else interval;
     ct_wake := []; ct_etags := ∅ |}.

Definition validate (c : Controller) : result ControllerError unit :=
  fail_if negb (ct_Settings c && ct_Rollouts c && ct_ChangeRequests c && ct_Reader c
                && ct_Installer c && ct_Fleet c) with ErrControllerNotConfigured ;; Ok tt.

(** The channel of queued apps holds 32; a signal that does not fit is dropped. *)
Definition wakeCapacity : nat := 32.
Definition Notify (c : Controller) (app : string) : Controller :=
  if decide (length (ct_wake c) < wakeCapacity) then set_wake (ct_wake c ++ [TrimSpace app]) c else c.

(** ** What the installer answers *)

Definition isAlreadyInstalled (e : InstallError) : bool :=
  match e with
  | Installer.ErrAppVersionAlreadyInstalled
  | Installer.ErrSelectable Retention.ErrAppVersionAlreadyInstalled => true
  | _ => false
  end.

Definition isBusy (e : InstallError) : bool :=
  match e with
  | Installer.ErrAppRolloutActive | Installer.ErrInstallVersionLocked
  | Installer.ErrTargetSourceVersion SourceVersions.ErrAppDeployPaused
  | Installer.ErrAdmitRollout SourceVersions.ErrAppDeployPaused => true
  | _ => false
  end.

Definition isCandidateRejection (e : InstallError) : bool :=
  match e with
  | Installer.ErrValidate (InstallValidation.ErrInstallValidationFailed _ _)
  | Installer.ErrSelectable (Retention.ErrAppVersionExpired | Retention.ErrAppVersionLocked) => true
  | _ => false
  end.

(** ** Updates of the settings *)

Local Abbreviation update_fn := (AppAutoDeploySettings → result Empty_set AppAutoDeploySettings).

(** [s] with some of its fields replaced. *)
Definition edit (s : AppAutoDeploySettings) (paused : bool) (reason pending seen error : string)
    (failedAt : time) : AppAutoDeploySettings :=
  {| ad_App := ad_App s; ad_Enabled := ad_Enabled s; ad_Paused := paused; ad_PauseReason := reason;
     ad_PendingVersion := pending; ad_LastSeenVersion := seen; ad_LastError := error;
     ad_LastFailedRolloutAt := failedAt |}.

Definition pausedText (version : string) : string :=
  "Automatic deployment is paused because rollout of version " +:+ version
  +:+ " failed. Select that version again to retry.".

(** A failed rollout clears what is pending, and pauses unless the fleet is healthy. *)
Definition afterFailure (healthy : bool) (version : string) (failedAt : time) : update_fn :=
  λ current,
    Ok (if healthy then edit current false "" "" "" "" failedAt
        else edit current true PauseReasonRolloutFailed "" "" (pausedText version) failedAt).

(** A version not seen before becomes pending. *)
Definition afterFetch (newest : string) : update_fn := λ current,
  Ok (if negb (ad_Enabled current) || ad_Paused current then current
      else if decide (ad_LastSeenVersion current ≠ newest)
      then edit current (ad_Paused current) (ad_PauseReason current) newest newest ""
             (ad_LastFailedRolloutAt current)
      else current).

Definition clearError : update_fn := λ current,
  Ok (edit current (ad_Paused current) (ad_PauseReason current) (ad_PendingVersion current)
        (ad_LastSeenVersion current) "" (ad_LastFailedRolloutAt current)).

(** Clear the pending version, and set the error where one is given. *)
Definition clearPending (pending : string) (error : option string) : update_fn := λ current,
  Ok (if decide (ad_PendingVersion current = pending)
      then edit current (ad_Paused current) (ad_PauseReason current) "" (ad_LastSeenVersion current)
             (default (ad_LastError current) error) (ad_LastFailedRolloutAt current)
      else current).

(** ** Passes *)

Section controller.
  Context `{TP : TimeParser, JC : ChangeRequests.JSONCodec, SP : ChangeRequests.Sprinter}.
  Context {W : Type} (settings rollouts requests : ObjectStore W).
  Context (order : ∀ A : Type, gmap string A → list (string * A)).
  Context (ErrorText : InstallError → string).
  Local Abbreviation M A := (prog (Env W) A).

(** What a pass talks to besides the database. *)
Record Pass := {
  ps_Fetch : string → string → string → result ReaderError AppIndexFetchResult;
  ps_Select : InstallInput → M (result InstallError InstallOutput);
  ps_Project : AppRollout → M (result FleetState.FleetError (option AppFleetProjection)) }.

Definition failedRolloutIsHealthy (c : Controller) (pass : Pass) (app : string)
    (rollout : option AppRollout) : M (result ControllerError bool) :=
  match rollout with
  | None => mret (Err ErrRolloutRequired)
  | Some rollout =>
      if negb (ct_Fleet c) then mret (Err ErrFleetNotConfigured) else
      projection ← ps_Project pass rollout;
      mret (match projection with
            | Err e => Err (ErrCheckHealth app e)
            | Ok None => Ok false
            | Ok (Some p) =>
                Ok (bool_decide (fp_State p = FleetHealthy)
                    && bool_decide (TrimSpace (fp_DesiredVersion p) = TrimSpace (r_Version rollout)))
            end)
  end.

Definition updateSettings (app : string) (f : update_fn)
    : M (result ControllerError AppAutoDeploySettings) :=
  r ← AutoDeploy.Update settings true app (Some f);
  mret (match r with Ok s => Ok s | Err e => Err (ErrSettings e) end).

Definition ignore {A} (r : result ControllerError A) : result ControllerError unit :=
  match r with Ok _ => Ok tt | Err e => Err e end.

(** Reacting to a failed rollout that was not handled yet. *)
Definition handleFailure (c : Controller) (pass : Pass) (appName : string) (rollout : AppRollout)
    (failedAt : time) : M (result ControllerError unit) :=
  healthy ← failedRolloutIsHealthy c pass appName (Some rollout);
  match healthy with
  | Err e => mret (Err e)
  | Ok healthy =>
      r ← AutoDeploy.UpdateForRollout settings rollouts true (Some rollout)
            (Some (afterFailure healthy (r_Version rollout) failedAt));
      mret (match r with Ok _ => Ok tt | Err e => Err (ErrSettings e) end)
  end.

(** Deploying what is pending. *)
Definition deployPending (pass : Pass) (app : AppConfig) (appName : string)
    (rollout : option AppRollout) (s : AppAutoDeploySettings) : M (result ControllerError unit) :=
  if negb (ad_Enabled s) then mret (Ok tt) else
  if ad_Paused s then mret (Ok tt) else
  if match rollout with
     | Some r => bool_decide (r_State r = RolloutEnrolling) || bool_decide (r_State r = RolloutRestarting)
     | None => false
     end
  then if decide (ad_LastError s ≠ "")
       then r ← updateSettings appName clearError; mret (ignore r)
       else mret (Ok tt)
  else
  if decide (ad_PendingVersion s = "") then mret (Ok tt) else
  known ← ChangeRequests.ListKnownVersionsByApp (OS := requests) true appName;
  match known with
  | Err e => mret (Err (ErrKnownVersions e))
  | Ok known =>
      if decide (LatestKnownVersion (Some <$> known) = ad_PendingVersion s)
      then r ← updateSettings appName (clearPending (ad_PendingVersion s) None); mret (ignore r)
      else
        selected ← ps_Select pass
          {| Installer.ii_Registry := ac_Registry app; Installer.ii_App := appName;
             Installer.ii_Version := ad_PendingVersion s; Installer.ii_Actor := Actor |};
        match selected with
        | Ok _ => r ← updateSettings appName (clearPending (ad_PendingVersion s) (Some "")); mret (ignore r)
        | Err e =>
            if isAlreadyInstalled e
            then r ← updateSettings appName (clearPending (ad_PendingVersion s) (Some "")); mret (ignore r)
            else if isBusy e then mret (Ok tt)
            else if isCandidateRejection e
            then r ← updateSettings appName (clearPending (ad_PendingVersion s) (Some (ErrorText e)));
                 mret (ignore r)
            else mret (Err (ErrSelect e))
        end
  end.

(** Fetching the index and noting its newest version. *)
Definition observeIndex (c : Controller) (pass : Pass) (app : AppConfig) (appName registryApp : string)
    (s : AppAutoDeploySettings)
    : M (result ControllerError AppAutoDeploySettings * Controller) :=
  let ifNoneMatch := if decide (ad_LastSeenVersion s = "") then ""
                     else default "" (ct_etags c !! appName) in
  match ps_Fetch pass (ac_PublicRoot app) registryApp ifNoneMatch with
  | Err e => mret (Err (ErrFetch e), c)
  | Ok result =>
      if fr_NotModified result then mret (Ok s, c) else
      let c := set_etags <[appName := fr_ETag result]> c in
      match RegistryIndex.VersionsFromIndex order (fr_Index result) registryApp with
      | [] => mret (Ok s, c)
      | newest :: _ =>
          r ← updateSettings appName (afterFetch (RegistryIndex.vs_Version newest)); mret (r, c)
      end
  end.

(** A pass over an app that is enabled and not paused. *)
Definition advance (c : Controller) (pass : Pass) (app : AppConfig) (appName registryApp : string)
    (s : AppAutoDeploySettings) (rollout : option AppRollout)
    : M (result ControllerError unit * Controller) :=
  match (match rollout with
         | Some r =>
             let failedAt := Truncate (r_FailedAt r) Millisecond in
             if bool_decide (r_State r = RolloutFailed) && (ad_LastFailedRolloutAt s <? failedAt)%Z
             then Some (r, failedAt) else None
         | None => None
         end) with
  | Some (r, failedAt) => out ← handleFailure c pass appName r failedAt; mret (out, c)
  | None =>
      seen ← observeIndex c pass app appName registryApp s;
      match seen with
      | (Err e, c) => mret (Err e, c)
      | (Ok s, c) => out ← deployPending pass app appName rollout s; mret (out, c)
      end
  end.

Definition Reconcile (c : Controller) (pass : Pass) (appName : string)
    : M (result ControllerError unit * Controller) :=
  match validate c with
  | Err e => mret (Err e, c)
  | Ok _ =>
  let appName := TrimSpace appName in
  match ct_Apps c !! appName with
  | None => mret (Ok tt, c)
  | Some app =>
      let registryApp := TrimSpace (ac_RegistryApp app) in
      let registryApp := if decide (registryApp = "") then appName else registryApp in
      got ← AutoDeploy.GetSettings settings (E := Empty_set) true appName;
      match got with
      | Err ErrSettingsNotFound => mret (Ok tt, c)
      | Err e => mret (Err (ErrSettings e), c)
      | Ok s =>
          rollout ← Rollouts.GetRollout (OS := rollouts) true appName;
          match (match rollout with
                 | Ok r => Ok (Some r)
                 | Err Rollouts.ErrRolloutNotFound => Ok None
                 | Err e => Err (ErrRollout e)
                 end) with
          | Err e => mret (Err e, c)
          | Ok rollout =>
              if negb (ad_Enabled s) then mret (Ok tt, c) else
              if ad_Paused s then mret (Ok tt, c) else
              advance c pass app appName registryApp s rollout
          end
      end
  end
  end.

Fixpoint reconcileEach (c : Controller) (pass : Pass) (apps : list AppAutoDeploySettings)
    : M (list (string * ControllerError) * Controller) :=
  match apps with
  | [] => mret ([], c)
  | setting :: apps =>
      out ← Reconcile c pass (ad_App setting);
      rest ← reconcileEach out.2 pass apps;
      mret (match out.1 with
            | Ok _ => rest.1
            | Err e => (ad_App setting, e) :: rest.1
            end, rest.2)
  end.

Definition ReconcileAll (c : Controller) (pass : Pass) : M (result ControllerError unit * Controller) :=
  match validate c with
  | Err e => mret (Err e, c)
  | Ok _ =>
      all ← AutoDeploy.ListAll settings (E := Empty_set) true;
      match all with
      | Err e => mret (Err (ErrSettings e), c)
      | Ok all =>
          out ← reconcileEach c pass all;
          mret (match out.1 with [] => Ok tt | errs => Err (ErrJoined errs) end, out.2)
      end
  end.

(** Errors are logged only. *)
Definition reconcileAndLog (c : Controller) (pass : Pass) (app : string) : M Controller :=
  out ← (if decide (TrimSpace app = "") then ReconcileAll c pass else Reconcile c pass app);
  mret out.2.

(** The loop of [run]: each turn takes the queued signal or the tick it was given; other
    goroutines call [Notify] at any time. *)
Inductive event := Notified (app : string) | Woken (pass : Pass) | Ticked (pass : Pass).

Definition turn (c : Controller) (e : event) : M Controller :=
  match e with
  | Notified app => mret (Notify c app)
  | Woken pass =>
      match ct_wake c with
      | [] => mret c
      | app :: wake => reconcileAndLog (set_wake wake c) pass app
      end
  | Ticked pass => reconcileAndLog c pass ""
  end.

Fixpoint run_loop (c : Controller) (events : list event) : M Controller :=
  match events with
  | [] => mret c
  | e :: events => c ← turn c e; run_loop c events
  end.

(** ** What a pass relies on *)

Context `{!Apart rollouts settings, !Apart requests settings}.

Local Abbreviation settings_at := (AutoDeploy.settings_of settings).
Local Abbreviation rollout_of := (Rollouts.stored (OS := rollouts)).
Local Abbreviation requests_in := (ChangeRequests.requests_of (OS := requests)).
Local Abbreviation put := (AutoDeploy.put_settings settings).

(** Every rollout is stored under the name of its app. *)
Definition keyed (w : W) : Prop := ∀ key r, rollout_of w key = Some r → r_App r = key.
Definition keeps_keyed (w w' : W) : Prop := keyed w → keyed w'.

(** Nothing of an app changed: its settings, its rollout and its history. *)
Definition left_alone (app : string) (w w' : W) : Prop :=
  settings_at w' app = settings_at w app ∧ rollout_of w' app = rollout_of w app
  ∧ requests_in app w' ≡ₚ requests_in app w.

(** The installer only touches the app it is asked about, and leaves the settings and,
    when it fails, the history alone; the fleet reader only reads. *)
Class Collaborators (pass : Pass) : Prop := {
  Select_frames input : frames settings (ps_Select pass input);
  Select_keyed input : keeps keeps_keyed (ps_Select pass input);
  Select_others input env other :
    other ≠ TrimSpace (Installer.ii_App input) →
    left_alone other (contents env) (contents (run (ps_Select pass input) env).2);
  Select_fails input env e :
    (run (ps_Select pass input) env).1 = Err e →
    same_rows requests (contents env) (contents (run (ps_Select pass input) env).2);
  Project_quiet r : quiet (ps_Project pass r) }.

#[global] Instance keeps_keyed_preorder : PreOrder keeps_keyed.
Proof. split; [intros x H; exact H|]. intros x y z H1 H2 H. by apply H2, H1. Qed.

#[global] Instance left_alone_preorder app : PreOrder (left_alone app).
Proof.
  split; [intros w; by unfold left_alone|]. intros w1 w2 w3 (H1 & H2 & H3) (K1 & K2 & K3).
  split_and!; [congruence..|]. by rewrite K3.
Qed.

(** ** An app that is not to be deployed *)

Section spared.
  Context (app : string).

(** The store stays keyed and the app is left alone. *)
Definition spares (w w' : W) : Prop := keyed w → keyed w' ∧ left_alone app w w'.

#[local] Instance spares_preorder : PreOrder spares.
Proof.
  split; [intros w H; by split|]. intros w1 w2 w3 H1 H2 H. destruct (H1 H) as [K1 L1].
  destruct (H2 K1) as [K2 L2]. split; [done|]. etrans; [exact L1|exact L2].
Qed.

Definition safe {A} (m : M A) : Prop := ∀ env, wp m (λ _ env', spares (contents env) (contents env')) env.

Lemma safe_ret {A} (a : A) : safe (mret a).
Proof. intros env. apply wp_ret. reflexivity. Qed.

Lemma safe_bind {A B} (m : M A) (k : A → M B) : safe m → (∀ a, safe (k a)) → safe (m ≫= k).
Proof.
  intros Hm Hk env. apply wp_bind. eapply wp_mono; [apply Hm|]. intros a env1 H1.
  eapply wp_mono; [apply Hk|]. intros b env2 H2. etrans; [exact H1|exact H2].
Qed.

Lemma safe_keeps {A} (m : M A) : keeps spares m → safe m.
Proof. intros Hm env. apply (wp_keeps spares); [done|]. by intros. Qed.

Lemma safe_quiet {A} (m : M A) : quiet m → safe m.
Proof. intros Hm env. apply (wp_keeps eq); [done|]. intros a env' -> _. reflexivity. Qed.

Lemma spares_put name s w : name ≠ app → spares w (put name s w).
Proof.
  intros Hne Hk. assert (Hr : ∀ x, rollout_of (put name s w) x = rollout_of w x).
  { intros x. unfold Rollouts.stored, AutoDeploy.put_settings. by rewrite (apart_left (s1 := rollouts)). }
  split; [intros key r; rewrite Hr; apply Hk|]. split_and!; [|done|].
  - rewrite AutoDeploy.settings_of_put. by rewrite decide_False.
  - unfold ChangeRequests.requests_of, select, AutoDeploy.put_settings.
    by rewrite (apart_left (s1 := requests)).
Qed.

Lemma safe_updateSettings name f : TrimSpace name ≠ app → safe (updateSettings name f).
Proof.
  intros Hne. unfold updateSettings. apply safe_bind; [|intros r; apply safe_ret].
  intros env. destruct (decide (TrimSpace name = "")) as [He|He].
  - unfold AutoDeploy.Update. cbn [negb]. rewrite decide_True by done. by apply wp_ret.
  - eapply wp_mono; [by apply AutoDeploy.wp_Update|]. intros [s|e] env'.
    + intros (s0 & _ & _ & ->). by apply spares_put.
    + intros [-> _]. done.
Qed.

Lemma safe_handleFailure c pass name r failedAt :
  Collaborators pass → TrimSpace (r_App r) ≠ app → safe (handleFailure c pass name r failedAt).
Proof.
  intros HC Hne. unfold handleFailure. apply safe_bind.
  { unfold failedRolloutIsHealthy. destruct (negb _); [apply safe_ret|].
    apply safe_bind; [apply safe_quiet, Project_quiet|]. intros p. apply safe_ret. }
  intros [healthy|e]; [|apply safe_ret]. apply safe_bind; [|intros x; apply safe_ret].
  intros env. destruct (decide (TrimSpace (r_App r) = "")) as [He|He].
  - unfold AutoDeploy.UpdateForRollout. cbn [negb]. rewrite decide_True by done. by apply wp_ret.
  - eapply wp_mono; [by apply AutoDeploy.UpdateForRollout_exact|]. intros [[s|]|e] env'.
    + intros (_ & s0 & _ & _ & -> & _). by apply spares_put.
    + intros [_ ->]. done.
    + intros [-> _]. done.
Qed.

Lemma quiet_known name : quiet (ChangeRequests.ListKnownVersionsByApp (OS := requests) true name).
Proof. unfold ChangeRequests.ListKnownVersionsByApp, ChangeRequests.ListRequestsByApp. repeat keeps_step. Qed.

Lemma safe_deployPending pass cfg name rollout s :
  Collaborators pass → TrimSpace name ≠ app → safe (deployPending pass cfg name rollout s).
Proof.
  intros HC Hne. assert (Hu : ∀ f, safe (r ← updateSettings name f; mret (ignore r))).
  { intros f. apply safe_bind; [by apply safe_updateSettings|]. intros r. apply safe_ret. }
  unfold deployPending. repeat (case_match; try first [apply safe_ret | apply Hu]).
  all: apply safe_bind; [apply safe_quiet, quiet_known|]; intros [known|e]; [|apply safe_ret].
  all: case_match; [apply Hu|].
  all: apply safe_bind; [|intros x; repeat (case_match; try first [apply safe_ret | apply Hu])].
  all: intros env Hk; split; [|by apply Select_others].
  all: by apply (keeps_run keeps_keyed _ env (Select_keyed _)).
Qed.

Lemma safe_observeIndex c pass cfg name registryApp s :
  TrimSpace name ≠ app → safe (observeIndex c pass cfg name registryApp s).
Proof.
  intros Hne. unfold observeIndex. repeat (case_match; try apply safe_ret).
  all: apply safe_bind; [by apply safe_updateSettings|]; intros r; apply safe_ret.
Qed.

Lemma safe_advance c pass cfg name registryApp s rollout :
  Collaborators pass → TrimSpace name ≠ app →
  (∀ r, rollout = Some r → TrimSpace (r_App r) ≠ app) →
  safe (advance c pass cfg name registryApp s rollout).
Proof.
  intros HC Hne Hr. unfold advance.
  destruct (match rollout with Some _ => _ | None => _ end) as [[r failedAt]|] eqn:Hcase.
  - assert (rollout = Some r) as Hrr.
    { destruct rollout; [|done]. destruct (_ && _); [|done]. by injection Hcase as -> _. }
    apply safe_bind; [apply safe_handleFailure; by auto|]. intros x. apply safe_ret.
  - apply safe_bind; [by apply safe_observeIndex|]. intros [[s'|e] c']; [|apply safe_ret].
    apply safe_bind; [by apply safe_deployPending|]. intros x. apply safe_ret.
Qed.

(** The app is switched off or paused. *)
Definition inert (w : W) : Prop :=
  ad_Enabled (settings_at w app) = false ∨ ad_Paused (settings_at w app) = true.

(** Return at once. *)
Local Ltac stay := apply wp_ret;
  repeat match goal with H : contents _ = contents _ |- _ => rewrite H; clear H end; reflexivity.

Lemma wp_Reconcile_inert c pass name env :
  Collaborators pass → inert (contents env) → keyed (contents env) →
  wp (Reconcile c pass name) (λ _ env', spares (contents env) (contents env')) env.
Proof.
  intros HC Hin Hk. unfold Reconcile. destruct (validate c) as [[]|e]; [|stay].
  set (n := TrimSpace name). assert (Hn : TrimSpace n = n) by apply TrimSpace_idem.
  destruct (ct_Apps c !! n) as [cfg|]; [|stay].
  unfold AutoDeploy.GetSettings. cbn [negb]. rewrite Hn.
  destruct (decide (n = "")) as [|Hne]; [wp_step; wp_step; stay|].
  wp_step. wp_step. wp_step; intros env1 Hb1 Hc1; [wp_step; stay|]. wp_step.
  unfold inert, AutoDeploy.settings_of in Hin.
  destruct (rows (ObjectStore := settings) (contents env) !! n) as [rec|] eqn:Erec;
    [|stay].
  unfold Rollouts.GetRollout. cbn [negb]. rewrite Hn.
  destruct (decide (n = "")) as [|_]; [done|].
  wp_step. wp_step. wp_step; intros env2 Hb2 Hc2; [wp_step; stay|].
  rewrite Hc1 in *. wp_step.
  destruct (rows (ObjectStore := rollouts) (contents env) !! n) as [rrec|] eqn:Er.
  all: rewrite <-Hc2; destruct (decide (n = app)) as [->|Hna].
  all: try (rewrite Erec in Hin; destruct Hin as [-> | ->]; [stay|]; destruct (negb _); stay).
  all: clear Hin; assert (Hna' : TrimSpace n ≠ app) by (by rewrite Hn).
  all: match goal with |- wp ?m _ _ => enough (Hs : safe m) by apply Hs end.
  all: destruct (negb _); [apply safe_ret|]; destruct (ad_Paused _); [apply safe_ret|].
  all: apply safe_advance; [done..|]; intros r [= <-].
  rewrite (Hk n (Rollouts.recordToAppRollout rrec)); [done|].
  unfold Rollouts.stored. by rewrite Er.
Qed.

Lemma inert_alone w w' : left_alone app w w' → inert w → inert w'.
Proof. intros (H & _). unfold inert. by rewrite H. Qed.

Lemma wp_reconcileEach_inert c pass all env :
  Collaborators pass → inert (contents env) → keyed (contents env) →
  wp (reconcileEach c pass all) (λ _ env', spares (contents env) (contents env')) env.
Proof.
  intros HC. revert c env. induction all as [|s all IH]; intros c env Hin Hk; [by apply safe_ret|].
  cbn [reconcileEach]. wp_step. eapply wp_mono; [by apply wp_Reconcile_inert|].
  intros out env1 H1. destruct (H1 Hk) as [Hk1 L1]. wp_step.
  eapply wp_mono; [apply IH; [by eapply inert_alone|done]|]. intros rest env2 H2.
  apply wp_ret. etrans; [exact H1|exact H2].
Qed.

Lemma wp_reconcileAndLog_inert c pass name env :
  Collaborators pass → inert (contents env) → keyed (contents env) →
  wp (reconcileAndLog c pass name) (λ _ env', spares (contents env) (contents env')) env.
Proof.
  intros HC Hin Hk. unfold reconcileAndLog. wp_step. destruct (decide _) as [_|_].
  2:{ eapply wp_mono; [by apply wp_Reconcile_inert|]. intros out env' H. by apply wp_ret. }
  unfold ReconcileAll. destruct (validate c) as [[]|e]; [|wp_step; by apply safe_ret].
  unfold AutoDeploy.ListAll. cbn [negb]. wp_step. wp_step.
  wp_step; intros env1 Hb1 Hc1; wp_step; rewrite <-Hc1 in Hin, Hk |- *; [wp_step; by apply safe_ret|].
  wp_step. eapply wp_mono; [by apply wp_reconcileEach_inert|]. intros out env2 H2.
  do 2 apply wp_ret. exact H2.
Qed.
End spared.

(** The collaborators of an event keep their promises. *)
Definition event_ok (e : event) : Prop :=
  match e with Notified _ => True | Woken pass | Ticked pass => Collaborators pass end.

(** C27.  An operator's switch is obeyed: while auto-deploy of an app is switched off or
    paused, the controller, whatever signals and ticks it serves, whichever other apps it
    deploys meanwhile and whatever calls fail, changes neither the settings nor the
    rollout nor the version history of that app. *)
Theorem inert_app_left_alone c events app (env : Env W) :
  Forall event_ok events → keyed (contents env) → inert app (contents env) →
  let env' := (run (run_loop c events) env).2 in
  left_alone app (contents env) (contents env') ∧ inert app (contents env').
Proof.
  intros Hev Hk Hin. cbn zeta. enough (Hs : spares app (contents env) (contents (run (run_loop c events) env).2)).
  { destruct (Hs Hk) as [_ HL]. split; [done|by eapply inert_alone]. }
  revert c env Hk Hin. induction Hev as [|e events He Hev IH]; intros c env Hk Hin; [by apply safe_ret|].
  cbn [run_loop]. change (wp (turn c e ≫= λ c, run_loop c events)
    (λ _ env', spares app (contents env) (contents env')) env). wp_step.
  eapply (wp_mono _ (λ _ env', spares app (contents env) (contents env'))).
  - destruct e as [name|pass|pass]; cbn [turn event_ok] in *; [by apply safe_ret| |].
    + destruct (ct_wake c); [by apply safe_ret|by apply wp_reconcileAndLog_inert].
    + by apply wp_reconcileAndLog_inert.
  - intros c' env1 H1. destruct (H1 Hk) as [Hk1 L1]. intros _.
    destruct (IH c' env1 Hk1) as [Hk2 L2]; [by eapply inert_alone|done|].
    split; [done|]. etrans; [exact L1|exact L2].
Qed.

(** ** Passes over an app that is to be deployed *)

Definition serves (c : Controller) (app : string) (cfg : AppConfig) : Prop :=
  validate c = Ok tt ∧ ct_Apps c !! app = Some cfg ∧ app ≠ "" ∧ TrimSpace app = app.

Definition registryAppOf (cfg : AppConfig) (app : string) : string :=
  if decide (TrimSpace (ac_RegistryApp cfg) = "") then app else TrimSpace (ac_RegistryApp cfg).

Lemma wp_Reconcile_start c pass name cfg Q (env : Env W) :
  let app := TrimSpace name in
  let s := settings_at (contents env) app in
  serves c app cfg → benign env → ad_Enabled s = true → ad_Paused s = false →
  (∀ env', contents env' = contents env → benign env' →
     wp (advance c pass cfg app (registryAppOf cfg app) s (rollout_of (contents env) app)) Q env') →
  wp (Reconcile c pass name) Q env.
Proof.
  intros app s (Hv & Hcfg & Hne & Htrim) Hb Hen Hpa HQ. unfold Reconcile. rewrite Hv. fold app. rewrite Hcfg.
  unfold AutoDeploy.GetSettings. cbn [negb]. rewrite Htrim.
  destruct (decide (app = "")) as [|_]; [done|].
  wp_step. wp_step. wp_step; intros env1 Hb1 Hc1; [done|]. wp_step.
  unfold s, AutoDeploy.settings_of in *.
  destruct (rows (ObjectStore := settings) (contents env) !! app) as [rec|]; [|done].
  unfold Rollouts.GetRollout. cbn [negb]. rewrite Htrim. destruct (decide (app = "")) as [|_]; [done|].
  wp_step. wp_step. wp_step; intros env2 Hb2 Hc2; [tauto|]. wp_step. rewrite Hc1 in *.
  unfold Rollouts.stored in HQ.
  destruct (rows (ObjectStore := rollouts) (contents env) !! app) as [rrec|]; rewrite Hen, Hpa; cbn [negb];
    apply HQ; auto.
Qed.

(** Running alone, an update that cannot refuse is applied. *)
Lemma wp_updateSettings app f g Q (env : Env W) :
  TrimSpace app = app → app ≠ "" → benign env → (∀ s, f s = Ok (g s)) →
  (∀ env', benign env' →
     contents env' = put app (AutoDeploy.finalSettings app (g (settings_at (contents env) app))) (contents env) →
     Q (Ok (AutoDeploy.finalSettings app (g (settings_at (contents env) app)))) env') →
  wp (updateSettings app f) Q env.
Proof.
  intros Ht Hne Hb Hf HQ. unfold updateSettings. wp_step. eapply wp_mono.
  { apply wp_conj; [by apply AutoDeploy.wp_Update; rewrite Ht|].
    apply (wp_keeps (same_rows rollouts) _ (λ _ env', benign env')).
    - unfold AutoDeploy.Update, AutoDeploy.EnsureStore.
      repeat (keeps_step || (apply keeps_fallible; [apply _|done])).
    - intros a env' _ Hb'. by apply Hb'. }
  cbn. rewrite Ht. intros [s|e] env' [H Hb']; wp_step.
  - destruct H as (s0 & Hs0 & -> & Hc). rewrite Hf in Hs0. injection Hs0 as <-. by apply HQ.
  - destruct H as [_ H]. destruct (H Hb) as (e0 & _ & He). by rewrite Hf in He.
Qed.

Lemma put_frames app s w : same_rows rollouts w (put app s w) ∧ same_rows requests w (put app s w).
Proof. split; [apply (apart_left (s1 := rollouts))|apply (apart_left (s1 := requests))]. Qed.

(** *** A failed rollout *)

(** What the fleet reader answers about a rollout in a database. *)
Definition projects (pass : Pass) (r : AppRollout) (w : W) answer : Prop :=
  ∀ env, contents env = w → benign env → (run (ps_Project pass r) env).1 = answer.

Definition judged_healthy (r : AppRollout) (p : option AppFleetProjection) : bool :=
  match p with
  | None => false
  | Some p => bool_decide (fp_State p = FleetHealthy)
              && bool_decide (TrimSpace (fp_DesiredVersion p) = TrimSpace (r_Version r))
  end.

Lemma sameIdentity_refl r : AutoDeploy.sameAppRolloutIdentity (Some r) (Some r) = true.
Proof.
  unfold AutoDeploy.sameAppRolloutIdentity, Equal. rewrite Z.eqb_refl.
  by rewrite !bool_decide_eq_true_2.
Qed.

Lemma wp_handleFailure c pass app r answer failedAt (env : Env W) :
  Collaborators pass → ct_Fleet c = true → benign env → keyed (contents env) → TrimSpace app = app →
  app ≠ "" → rollout_of (contents env) app = Some r → r_State r = RolloutFailed →
  projects pass r (contents env) answer →
  wp (handleFailure c pass app r failedAt) (λ out env',
    match answer with
    | Err e => out = Err (ErrCheckHealth app e) ∧ contents env' = contents env
    | Ok p => out = Ok tt ∧ ∃ s0,
        afterFailure (judged_healthy r p) (r_Version r) failedAt (settings_at (contents env) app) = Ok s0
        ∧ contents env' = put app (AutoDeploy.finalSettings app s0) (contents env)
    end) env.
Proof.
  intros HC Hfl Hb Hk Ht Hne Hr Hst Hans. unfold handleFailure, failedRolloutIsHealthy. rewrite Hfl. cbn [negb].
  wp_step. wp_step. unfold wp at 1. destruct (keeps_run eq _ env (Project_quiet r)) as [Hc Hb1].
  rewrite (Hans env eq_refl Hb). specialize (Hb1 Hb). set (env1 := (run (ps_Project pass r) env).2) in *.
  clearbody env1. wp_step. destruct answer as [p|e]; [|wp_step; by rewrite <-Hc].
  assert (Happ : TrimSpace (r_App r) = app) by (by rewrite (Hk app r Hr)).
  assert (Hcf : AutoDeploy.current_failure rollouts (contents env) r).
  { unfold Rollouts.stored in Hr.
    destruct (rows (ObjectStore := rollouts) (contents env) !! app) as [rec|] eqn:E; [|done].
    injection Hr as Hr. exists rec. rewrite Happ, Hr. split_and!; [done|apply sameIdentity_refl|done]. }
  set (h := judged_healthy r p).
  enough (Hh : wp (r0 ← AutoDeploy.UpdateForRollout settings rollouts true (Some r)
      (Some (afterFailure h (r_Version r) failedAt));
    mret match r0 with Ok _ => Ok tt | Err e => Err (ErrSettings e) end) (λ out env',
      out = Ok tt ∧ ∃ s0, afterFailure h (r_Version r) failedAt (settings_at (contents env) app) = Ok s0
      ∧ contents env' = put app (AutoDeploy.finalSettings app s0) (contents env)) env1).
  { by destruct p. }
  wp_step. eapply wp_mono; [by apply AutoDeploy.UpdateForRollout_exact; rewrite Happ|].
  rewrite <-Hc, Happ. intros [[s|]|e] env2 H; wp_step.
  - destruct H as (_ & s0 & Hs0 & -> & Hw & _). split; [done|]. by exists s0.
  - by destruct H.
  - destruct H as [_ H]. by destruct (H Hb1) as (_ & e0 & _ & He).
Qed.

(** A failed rollout is reacted to exactly once.  When the rollout of an enabled app
    has failed since the last failure that was handled, the pass asks for the health of
    the fleet and writes nothing but the app's settings: it forgets the pending and the
    seen version and notes the failure as handled, and pauses the app, with the reason,
    unless the fleet is healthy on the version of the rollout; when the fleet cannot be
    judged, it changes nothing and the failure stays to be handled. *)
Theorem failed_rollout_handled c pass name cfg r answer (env : Env W) :
  let app := TrimSpace name in
  let s := settings_at (contents env) app in
  let failedAt := Truncate (r_FailedAt r) Millisecond in
  Collaborators pass → serves c app cfg → benign env → keyed (contents env) →
  ad_Enabled s = true → ad_Paused s = false → rollout_of (contents env) app = Some r →
  r_State r = RolloutFailed → (ad_LastFailedRolloutAt s < failedAt)%Z →
  projects pass r (contents env) answer →
  wp (Reconcile c pass name) (λ out env',
    same_rows rollouts (contents env) (contents env') ∧ same_rows requests (contents env) (contents env')
    ∧ (∀ other, other ≠ app → settings_at (contents env') other = settings_at (contents env) other)
    ∧ let s' := settings_at (contents env') app in
      match answer with
      | Err e => out = (Err (ErrCheckHealth app e), c) ∧ s' = s
      | Ok p => out = (Ok tt, c) ∧ ad_Enabled s' = true
          ∧ ad_PendingVersion s' = "" ∧ ad_LastSeenVersion s' = ""
          ∧ ad_LastFailedRolloutAt s' = failedAt
          ∧ ad_Paused s' = negb (judged_healthy r p)
          ∧ ad_PauseReason s' = (if judged_healthy r p then "" else PauseReasonRolloutFailed)
      end) env.
Proof.
  intros app s failedAt HC Hserves Hb Hk Hen Hpa Hr Hst Hlate Hans.
  assert (Hfl : ct_Fleet c = true).
  { destruct Hserves as [Hv _]. unfold validate in Hv. by destruct (ct_Fleet c); rewrite ?andb_false_r in Hv. }
  assert (Hfix : (if IsZero failedAt then failedAt else Truncate failedAt Millisecond) = failedAt).
  { destruct (IsZero failedAt); [done|]. by apply Truncate_idem. }
  apply (wp_Reconcile_start _ _ _ cfg); [done..|]. fold app. intros env1 Hc1 Hb1.
  rewrite Hr. unfold advance. fold s failedAt.
  rewrite Hst, bool_decide_eq_true_2, (proj2 (Z.ltb_lt _ _)) by done. cbn [andb]. wp_step.
  destruct Hserves as (_ & _ & Hne & Ht). eapply wp_mono.
  { apply (wp_handleFailure c pass app r answer failedAt env1); rewrite ?Hc1; done. }
  intros out env2 H. wp_step. rewrite Hc1 in H. destruct answer as [p|e].
  2:{ destruct H as [-> ->]. done. }
  destruct H as [-> (s0 & Hs0 & ->)]. injection Hs0 as <-.
  destruct (put_frames app (AutoDeploy.finalSettings app
    (if judged_healthy r p then edit s false "" "" "" "" failedAt
     else edit s true PauseReasonRolloutFailed "" "" (pausedText (r_Version r)) failedAt))
    (contents env)) as [F1 F2].
  split; [done|]. split; [done|]. split.
  - intros other Ho. rewrite AutoDeploy.settings_of_put. by rewrite decide_False.
  - cbn zeta. rewrite AutoDeploy.settings_of_put, decide_True by done. by destruct (judged_healthy r p).
Qed.

(** *** A new version *)

Section progress.
  Context (app v : string) (cfg : AppConfig) (s : AppAutoDeploySettings) (w0 : W).

Definition selectInput : InstallInput :=
  {| Installer.ii_Registry := ac_Registry cfg; Installer.ii_App := app;
     Installer.ii_Version := v; Installer.ii_Actor := Actor |}.

(** The index a pass reads: its newest version is [v], or it has no news. *)
Definition newest_is (index : option Index) : Prop :=
  ∃ newest rest, RegistryIndex.VersionsFromIndex order index (registryAppOf cfg app) = newest :: rest
    ∧ RegistryIndex.vs_Version newest = v.
Definition sent_tag (c : Controller) : string :=
  if decide (ad_LastSeenVersion s = "") then "" else default "" (ct_etags c !! app).
Definition offers (c : Controller) (pass : Pass) : Prop :=
  ∃ res, ps_Fetch pass (ac_PublicRoot cfg) (registryAppOf cfg app) (sent_tag c) = Ok res
    ∧ fr_NotModified res = false ∧ newest_is (fr_Index res).
Definition no_news (pass : Pass) : Prop :=
  ∀ etag, ∃ res, ps_Fetch pass (ac_PublicRoot cfg) (registryAppOf cfg app) etag = Ok res
    ∧ (fr_NotModified res = true ∨ newest_is (fr_Index res)).

(** The installer neither took nor rejected the version. *)
Definition unsettled (e : InstallError) : bool := negb (isAlreadyInstalled e) && negb (isCandidateRejection e).

(** The settings once the version is noted, and once the installer answered. *)
Definition noted : AppAutoDeploySettings :=
  edit s false (ad_PauseReason s) v v "" (ad_LastFailedRolloutAt s).
Definition decided (answer : result InstallError InstallOutput) : AppAutoDeploySettings :=
  let cleared error := edit noted false (ad_PauseReason s) "" v error (ad_LastFailedRolloutAt s) in
  match answer with
  | Ok _ => cleared ""
  | Err e => if isAlreadyInstalled e then cleared ""
             else if isCandidateRejection e then cleared (TrimSpace (ErrorText e)) else noted
  end.
Definition reported (answer : result InstallError InstallOutput) : result ControllerError unit :=
  match answer with
  | Ok _ => Ok tt
  | Err e => if unsettled e && negb (isBusy e) then Err (ErrSelect e) else Ok tt
  end.

(** The app can be deployed: it is enabled and has no rollout to wait for or react to, and
    [v] is not what it runs. *)
Record deployable : Prop := {
  dp_name : TrimSpace app = app ∧ app ≠ "";
  dp_version : TrimSpace v = v ∧ v ≠ "";
  dp_normal : AutoDeploy.finalSettings app s = s;
  dp_enabled : ad_Enabled s = true ∧ ad_Paused s = false;
  dp_new : ad_LastSeenVersion s ≠ v;
  dp_rollout : ∀ r, rollout_of w0 app = Some r →
    Rollouts.isActiveRolloutState (r_State r) = false
    ∧ (r_State r = RolloutFailed → (Truncate (r_FailedAt r) Millisecond ≤ ad_LastFailedRolloutAt s)%Z);
  dp_known : LatestKnownVersion
    (Some <$> ChangeRequests.knownVersionsFromRequests (requests_in app w0)) ≠ v }.

Hypothesis Hdep : deployable.

(** The database after a pass has noted the version, or found it noted. *)
Definition noting (w w' : W) : Prop := w' = w ∨ w' = put app noted w.

(** The database as the waiting passes leave it, but for the settings of the app. *)
Definition waiting_at (current : AppAutoDeploySettings) (w : W) : Prop :=
  settings_at w app = current ∧ same_rows requests w0 w ∧ rollout_of w app = rollout_of w0 app.

Lemma normal_field :
  ad_App s = app ∧ TrimSpace (ad_PauseReason s) = ad_PauseReason s
  ∧ (if IsZero (ad_LastFailedRolloutAt s) then ad_LastFailedRolloutAt s
     else Truncate (ad_LastFailedRolloutAt s) Millisecond) = ad_LastFailedRolloutAt s.
Proof.
  destruct Hdep as [[Ht _] _ Hn _ _ _ _]. destruct s as [a en pa re pe se er fa]. injection Hn as Ha Hr _ _ _ Hf.
  split_and!; [cbn [ad_App]; congruence|exact Hr|exact Hf].
Qed.

Lemma final_edit pending seen error :
  TrimSpace pending = pending → TrimSpace seen = seen →
  AutoDeploy.finalSettings app (edit s false (ad_PauseReason s) pending seen error (ad_LastFailedRolloutAt s))
  = edit s false (ad_PauseReason s) pending seen (TrimSpace error) (ad_LastFailedRolloutAt s).
Proof.
  intros Hp Hs. destruct normal_field as (Ha & Hr & Hf). destruct Hdep as [[Ht _] _ _ _ _ _ _].
  unfold AutoDeploy.finalSettings, AutoDeploy.normalizeAppAutoDeploySettings, AutoDeploy.set_app, edit.
  cbn [ad_App ad_Enabled ad_Paused ad_PauseReason ad_PendingVersion ad_LastSeenVersion ad_LastError ad_LastFailedRolloutAt].
  by rewrite Ht, Hp, Hs, Hr, Hf, Ha.
Qed.

Lemma no_failure current w :
  waiting_at current w → ad_LastFailedRolloutAt current = ad_LastFailedRolloutAt s →
  match rollout_of w app with
  | Some r => if bool_decide (r_State r = RolloutFailed)
                 && (ad_LastFailedRolloutAt current <? Truncate (r_FailedAt r) Millisecond)%Z
              then Some (r, Truncate (r_FailedAt r) Millisecond) else None
  | None => None
  end = None.
Proof.
  intros (_ & _ & Hr) Hl. destruct (rollout_of w app) as [r|]; [|done].
  destruct (dp_rollout Hdep r) as [_ Hf]; [done|]. case_bool_decide as Hst; [|done]. cbn [andb].
  rewrite (proj2 (Z.ltb_ge _ _)); [done|]. rewrite Hl. by apply Hf.
Qed.

(** Noting the version. *)
Lemma wp_note c pass current Q (env : Env W) :
  benign env → waiting_at current (contents env) →
  current = s ∧ offers c pass ∨ current = noted ∧ no_news pass →
  (∀ c' env', ct_Apps c' = ct_Apps c → validate c' = validate c → benign env' →
     waiting_at noted (contents env') → noting (contents env) (contents env') → Q (Ok noted, c') env') →
  wp (observeIndex c pass cfg app (registryAppOf cfg app) current) Q env.
Proof.
  intros Hb Hw Hcur HQ. destruct Hw as (Hset & Hreq & Hrol).
  destruct Hdep as [[Ht Hne] [Hvt Hvne] _ [Hen Hpa] Hnew _ _].
  assert (Hup : ∀ c', ct_Apps c' = ct_Apps c → validate c' = validate c →
    wp (r ← updateSettings app (afterFetch v); mret (r, c')) Q env).
  { intros c' Hca Hcv. wp_step. apply (wp_updateSettings app (afterFetch v) (λ x, if negb (ad_Enabled x) || ad_Paused x then x
       else if decide (ad_LastSeenVersion x ≠ v)
       then edit x (ad_Paused x) (ad_PauseReason x) v v "" (ad_LastFailedRolloutAt x) else x)); [done..|].
    rewrite Hset. intros env' Hb' Hc'.
    assert (Hfin : AutoDeploy.finalSettings app (if negb (ad_Enabled current) || ad_Paused current then current
       else if decide (ad_LastSeenVersion current ≠ v)
       then edit current (ad_Paused current) (ad_PauseReason current) v v "" (ad_LastFailedRolloutAt current)
       else current) = noted).
    { destruct Hcur as [[-> _]|[-> _]].
      - rewrite Hen, Hpa. cbn [negb orb]. rewrite decide_True by done. by apply final_edit.
      - cbn [noted edit ad_Enabled ad_Paused ad_LastSeenVersion]. rewrite Hen. cbn [negb orb].
        rewrite decide_False by tauto. by apply final_edit. }
    rewrite Hfin in *. wp_step. apply HQ; [done..| |by right]. rewrite Hc'.
    destruct (put_frames app noted (contents env)) as [F1 F2]. split_and!.
    - rewrite AutoDeploy.settings_of_put. by rewrite decide_True.
    - by etrans.
    - unfold Rollouts.stored in *. by rewrite F1. }
  unfold observeIndex.
  set (etag := if decide (ad_LastSeenVersion current = "") then _ else _).
  assert (Hobs : ∃ res, ps_Fetch pass (ac_PublicRoot cfg) (registryAppOf cfg app) etag = Ok res
    ∧ (fr_NotModified res = true ∧ current = noted ∨ fr_NotModified res = false ∧ newest_is (fr_Index res))).
  { destruct Hcur as [[-> (res & Hres & H)]|[-> Ho]].
    - exists res. split; [exact Hres|]. right. tauto.
    - destruct (Ho etag) as (res & Hres & H). exists res. split; [done|]. destruct (fr_NotModified res); [by left|right; split; [done|]]. by destruct H. }
  destruct Hobs as (res & -> & [[-> ->]|[-> (newest & rest & -> & ->)]]).
  - wp_step. apply HQ; [done..| |by left]. by split_and!.
  - by apply Hup.
Qed.

(** What a pass does once the version is noted in [w]: it asks the installer, and records
    the answer. *)
Definition tried (pass : Pass) (w : W) (out : result ControllerError unit) (env' : Env W) : Prop :=
  ∃ env1, benign env1 ∧ waiting_at noted (contents env1) ∧ noting w (contents env1) ∧
    let sel := run (ps_Select pass selectInput) env1 in
    benign env' ∧ same_rows requests (contents sel.2) (contents env')
    ∧ same_rows rollouts (contents sel.2) (contents env')
    ∧ settings_at (contents env') app = decided sel.1 ∧ out = reported sel.1.

Lemma not_active current w :
  waiting_at current w →
  match rollout_of w app with
  | Some r => bool_decide (r_State r = RolloutEnrolling) || bool_decide (r_State r = RolloutRestarting)
  | None => false
  end = false.
Proof.
  intros (_ & _ & Hr). destruct (rollout_of w app) as [r|]; [|done].
  destruct (dp_rollout Hdep r) as [Ha _]; [done|].
  apply not_true_iff_false in Ha. rewrite Rollouts.active_cases in Ha.
  rewrite !bool_decide_eq_false_2 by tauto. done.
Qed.

Definition cleared (error : string) : AppAutoDeploySettings :=
  edit s false (ad_PauseReason s) "" v (TrimSpace error) (ad_LastFailedRolloutAt s).

(** Clearing the pending version. *)
Lemma wp_clear error (env : Env W) :
  benign env → settings_at (contents env) app = noted →
  wp (r ← updateSettings app (clearPending v (Some error)); mret (ignore r)) (λ out env',
    out = Ok tt ∧ benign env' ∧ contents env' = put app (cleared error) (contents env)) env.
Proof.
  intros Hb Hs. pose proof (dp_name Hdep) as [Ht Hne]. wp_step.
  set (g x := if decide (ad_PendingVersion x = v)
    then edit x (ad_Paused x) (ad_PauseReason x) "" (ad_LastSeenVersion x) error (ad_LastFailedRolloutAt x)
    else x).
  assert (Hfin : AutoDeploy.finalSettings app (g noted) = cleared error).
  { unfold g. rewrite decide_True by done. exact (final_edit "" v error eq_refl (proj1 (dp_version Hdep))). }
  apply (wp_updateSettings app _ g); [done..|]. rewrite Hs, Hfin. intros env' Hb' Hc'. by wp_step.
Qed.

Lemma wp_try pass rollout w (env : Env W) :
  Collaborators pass → benign env → waiting_at noted (contents env) → noting w (contents env) →
  rollout = rollout_of (contents env) app →
  wp (deployPending pass cfg app rollout noted) (tried pass w) env.
Proof.
  intros HC Hb Hw Hnote ->. destruct Hdep as [[Ht Hne] [Hvt Hvne] _ [Hen Hpa] _ _ Hknown]. unfold deployPending.
  change (ad_Enabled noted) with (ad_Enabled s). rewrite Hen. cbn [negb noted edit ad_Paused ad_PendingVersion].
  fold noted. rewrite (not_active noted) by done. rewrite decide_False by done.
  unfold ChangeRequests.ListKnownVersionsByApp. cbn [negb]. wp_step. wp_step.
  apply ChangeRequests.wp_ListRequestsByApp; [by rewrite Ht|done|]. intros env1 Hb1 Hc1. rewrite Ht. wp_step.
  cbn [rbind]. pose proof Hw as (Hset & Hreq & Hrol).
  rewrite (Installer.requests_of_rows requests app w0 (contents env)) by done.
  rewrite decide_False by done. wp_step. rewrite <-Hc1 in Hw, Hnote. fold selectInput.
  destruct (keeps_run (same_rows settings) _ env1 (Select_frames selectInput)) as [Hfr Hb2].
  specialize (Hb2 (Hb1 Hb)). unfold wp at 1.
  assert (Hs2 : settings_at (contents (run (ps_Select pass selectInput) env1).2) app = noted).
  { unfold AutoDeploy.settings_of, same_rows in *. rewrite Hfr, Hc1. exact Hset. }
  assert (Hpost : ∀ out env', benign env' →
    same_rows requests (contents (run (ps_Select pass selectInput) env1).2) (contents env') →
    same_rows rollouts (contents (run (ps_Select pass selectInput) env1).2) (contents env') →
    settings_at (contents env') app = decided (run (ps_Select pass selectInput) env1).1 →
    out = reported (run (ps_Select pass selectInput) env1).1 → tried pass w out env').
  { intros out env' ?????. exists env1. auto 10. }
  destruct (run (ps_Select pass selectInput) env1) as [answer env2]. cbn [fst snd] in *.
  assert (Hclear : ∀ error, decided answer = cleared error → reported answer = Ok tt →
    wp (r ← updateSettings app (clearPending v (Some error)); mret (ignore r)) (tried pass w) env2).
  { intros error Hd Hrep. eapply wp_mono; [by apply wp_clear|]. intros out env' (-> & Hb' & Hc').
    destruct (put_frames app (cleared error) (contents env2)) as [F1 F2].
    apply Hpost; [done|by rewrite Hc'..| |by rewrite Hrep].
    rewrite Hc', AutoDeploy.settings_of_put, decide_True by done. by rewrite Hd. }
  unfold decided, reported, unsettled in Hclear, Hpost.
  destruct answer as [out|e]; [by apply Hclear|].
  destruct (isAlreadyInstalled e); [by apply Hclear|].
  destruct (isBusy e) eqn:Ebusy.
  { assert (isCandidateRejection e = false) as Erej by (destruct e as []; try done; by destruct e).
    rewrite Erej in Hpost. wp_step. by apply Hpost. }
  destruct (isCandidateRejection e); [by apply Hclear|]. wp_step. by apply Hpost.
Qed.

(** One pass over the waiting app. *)
Lemma wp_pass c pass name current (env : Env W) :
  TrimSpace name = app → serves c app cfg → Collaborators pass → benign env →
  waiting_at current (contents env) →
  current = s ∧ offers c pass ∨ current = noted ∧ no_news pass →
  wp (Reconcile c pass name) (λ out env', tried pass (contents env) out.1 env' ∧ serves out.2 app cfg) env.
Proof.
  intros Hname Hserves HC Hb Hw Hcur. pose proof Hw as (Hset & _ & Hrol).
  pose proof (dp_enabled Hdep) as [Hen Hpa].
  assert (Hon : ad_Enabled current = true ∧ ad_Paused current = false
          ∧ ad_LastFailedRolloutAt current = ad_LastFailedRolloutAt s).
  { destruct Hcur as [[-> _]|[-> _]]; done. }
  destruct Hon as (Hon1 & Hon2 & Hon3).
  apply (wp_Reconcile_start c pass name cfg); rewrite ?Hname, ?Hset; try done.
  intros env1 Hc1 Hb1. unfold advance. rewrite (no_failure current) by done. wp_step.
  apply (wp_note c pass current); [done|by rewrite Hc1|done|].
  intros c' env2 Ha Hv Hb2 Hw2 Hn2. rewrite Hc1 in Hn2. wp_step. eapply wp_mono.
  { apply wp_try; [done..|]. pose proof Hw2 as (_ & _ & Hr2). congruence. }
  intros out env3 Hout. wp_step. split; [done|]. destruct Hserves as (Hv0 & Ha0 & ?).
  unfold serves. cbn [snd]. by rewrite Hv, Ha.
Qed.

Fixpoint passes (c : Controller) (ps : list Pass) (name : string)
    : M (result ControllerError unit * Controller) :=
  match ps with
  | [] => mret (Ok tt, c)
  | [pass] => Reconcile c pass name
  | pass :: ps => out ← Reconcile c pass name; passes out.2 ps name
  end.

(** Passes that start with [env]: each asks the installer for the version, in a database
    that is the one the pass began with and has the version noted, and records the answer;
    when the installer neither took nor rejected the version, and left the rollout of the
    app as it was, the next pass asks again. *)
Inductive asks (name : string) : Controller → Env W → list Pass → Prop :=
  | asks_done c env : asks name c env []
  | asks_pass c env pass rest env1 :
      let sel := run (ps_Select pass selectInput) env1 in
      let out := run (Reconcile c pass name) env in
      benign env1 → noting (contents env) (contents env1) → waiting_at noted (contents env1) →
      same_rows requests (contents sel.2) (contents out.2) →
      same_rows rollouts (contents sel.2) (contents out.2) →
      settings_at (contents out.2) app = decided sel.1 → out.1.1 = reported sel.1 →
      (∀ e, sel.1 = Err e → unsettled e = true →
         rollout_of (contents sel.2) app = rollout_of (contents env1) app →
         asks name out.1.2 out.2 rest) →
      asks name c env (pass :: rest).

(** A pass whose installer has not decided leaves the version noted. *)
Lemma tried_undecided pass env1 out e (w' : W) :
  Collaborators pass → waiting_at noted (contents env1) →
  let sel := run (ps_Select pass selectInput) env1 in
  sel.1 = Err e → unsettled e = true →
  rollout_of (contents sel.2) app = rollout_of (contents env1) app →
  same_rows requests (contents sel.2) w' → same_rows rollouts (contents sel.2) w' →
  settings_at w' app = decided sel.1 → out = reported sel.1 → waiting_at noted w'.
Proof.
  intros HC Hw1 sel He Hun Hr Hreq Hrol Hset _. pose proof (Select_fails selectInput env1 e He) as Hsame.
  destruct Hw1 as (_ & Hw1 & Hw2). split_and!.
  - rewrite Hset, He. unfold unsettled in Hun. apply andb_true_iff in Hun as [H1 H2].
    apply negb_true_iff in H1, H2. unfold decided. by rewrite H1, H2.
  - subst sel. unfold same_rows in *. congruence.
  - unfold Rollouts.stored in *. rewrite Hrol. congruence.
Qed.

Lemma passes_ask c name current ps (env : Env W) :
  TrimSpace name = app → serves c app cfg → Forall Collaborators ps →
  benign env → waiting_at current (contents env) →
  match ps with
  | [] => True
  | first :: rest => (current = s ∧ offers c first ∨ current = noted ∧ no_news first) ∧ Forall no_news rest
  end → asks name c env ps.
Proof.
  intros Hname. revert c current env. induction ps as [|p ps IH]; intros c current env Hserves HC Hb Hw Hf;
    [constructor|].
  destruct Hf as [Hf Hrest]. apply Forall_cons in HC as [HCp HC].
  pose proof (wp_pass c p name current env Hname Hserves HCp Hb Hw Hf) as H. unfold wp in H.
  destruct H as [(env1 & Hb1 & Hw1 & Hn & Hb' & Hreq & Hrol & Hset & Hout) Hs'].
  apply (asks_pass name c env p ps env1); [done..|]. intros e He Hun Hr.
  apply (IH _ noted); [done..| |].
  - by eapply tried_undecided.
  - destruct ps as [|q qs]; [done|]. apply Forall_cons in Hrest as [Hq Hqs]. auto.
Qed.
End progress.

(** C23.  A published version is deployed as soon as the installer can take it.  Suppose no
    call to the database fails, the app is deployable, the first pass finds a version that
    the settings have not seen and the registry lists no newer one in the passes that
    follow.  Then every pass has the version noted when it asks the installer, and asks for
    exactly that version, in the database that it found otherwise; the answer decides: an
    accepted version is no longer pending, a rejected one is dropped with the reason
    recorded, and otherwise the version stays pending.  As long as the installer is busy or
    fails, and leaves the rollout of the app as it was, the next pass asks again.  (A
    database that fails may hide the version, as [failed_write_hides_version] shows.) *)
Theorem new_version_is_deployed c name cfg v passes (env : Env W) :
  let app := TrimSpace name in
  let s := settings_at (contents env) app in
  serves c app cfg → benign env → deployable app v s (contents env) →
  Forall Collaborators passes →
  match passes with
  | [] => True
  | first :: rest => offers app v cfg s c first ∧ Forall (no_news app v cfg) rest
  end →
  asks app v cfg s (contents env) name c env passes.
Proof.
  intros app s Hs Hb Hdep HC Hf.
  apply (passes_ask app v cfg s (contents env) Hdep c name s passes env eq_refl Hs HC Hb); [done|].
  destruct passes as [|first rest]; [done|]. destruct Hf. auto.
Qed.
End controller.

(** ** The installer keeps the promises *)

Section collaborators.
  Context `{TP : TimeParser, JC : ChangeRequests.JSONCodec, SP : ChangeRequests.Sprinter}.
  Context {W : Type} (settings locks requests states rollouts : ObjectStore W).
  Context `{RC : Installer.RetentionCatalog W}.
  Context (sv : InstallValidation.Semver) (cd : Codecs) (TimeParseDuration : string → option duration).
  Local Abbreviation select i an :=
    (Installer.SelectVersion locks requests states rollouts sv cd TimeParseDuration i an).

(** Which changes an install can make, in terms of the changes of its writing steps. *)
Section install_keeps.
  Context (R : relation W) `{!PreOrder R}.
  Hypothesis keeps_locks : ∀ clock app version holder ttl,
    keeps R (InstallLocks.Acquire (OS := locks) true clock app version holder ttl)
    ∧ keeps R (InstallLocks.Release (OS := locks) true app version holder).
  Hypothesis keeps_create : ∀ i an p, keeps R (Installer.createRollout states rollouts i an p).
  Hypothesis keeps_fail : ∀ now app version at_,
    keeps R (Rollouts.MarkFailed (OS := rollouts) true now app version at_).
  Hypothesis keeps_append : ∀ now id r, keeps R (ChangeRequests.AppendRequest (OS := requests) now id r).
  Hypothesis keeps_mutate : ∀ registry app f, keeps R (Installer.MutateRetention registry app f).

Lemma keeps_quiet {A} (m : prog (Env W) A) : quiet m → keeps R m.
Proof. apply keeps_mono. by intros w w' ->. Qed.

Lemma keeps_attempt {E F A B} (wrap : E → F) (m : prog (Env W) (result E A)) (k : A → prog (Env W) (result F B)) :
  keeps R m → (∀ a, keeps R (k a)) → keeps R (Installer.attempt wrap m k).
Proof. intros Hm Hk. apply keeps_bind; [done|]. intros [a|e]; [done|constructor]. Qed.

Lemma keeps_check {E F A B} (wrap : E → F) (r : result E A) (k : A → prog (Env W) (result F B)) :
  (∀ a, keeps R (k a)) → keeps R (Installer.check wrap r k).
Proof. intros Hk. unfold Installer.check. destruct r; [done|constructor]. Qed.

Lemma keeps_admission i an registry registryApp app version actor from retried policy source :
  keeps R (Installer.admitVersion requests states rollouts cd i an registry registryApp app version actor from
             retried policy source).
Proof.
  unfold Installer.admitVersion. apply keeps_attempt; [apply keeps_create|]. intros rollout.
  apply keeps_bind; [apply keeps_append|]. intros [added|e].
  - apply keeps_bind; [|intros ?; constructor]. unfold Installer.mirrorRetentionTransition.
    destruct (negb _); [constructor|]. apply keeps_bind; [apply keeps_mutate|]. intros ?. constructor.
  - apply keeps_bind; [apply keeps_fail|]. intros ?. constructor.
Qed.

Lemma keeps_installLocked i an mode registry app version actor :
  keeps R (Installer.installLocked requests states rollouts sv cd TimeParseDuration i an mode registry app version actor).
Proof.
  unfold Installer.installLocked. do 2 (destruct (negb _); [constructor|]).
  apply keeps_attempt; [apply keeps_quiet, Installer.quiet_ListKnown|]. intros known.
  apply keeps_check. intros registryApp. apply keeps_check. intros from.
  apply keeps_attempt; [destruct (_ && _); [apply keeps_quiet, Installer.quiet_HasKnown|constructor]|].
  intros []; [constructor|]. apply keeps_bind; [apply keeps_quiet, Installer.quiet_GetRollout|].
  intros current. destruct (match current with Ok _ => _ | Err _ => _ end); [|constructor].
  apply keeps_check. intros [mode' retried]. apply keeps_attempt.
  { destruct (decide _); [|constructor]. destruct (negb _); [constructor|].
    apply keeps_bind; [apply keeps_quiet, Installer.quiet_CurrentForAdmission|]. intros ?. constructor. }
  intros _. destruct (Installer.in_Registries i !! registry); [|constructor].
  do 4 (apply keeps_check; intros ?). destruct (_ && _); [constructor|]. apply keeps_check. intros source.
  apply keeps_attempt; [apply keeps_quiet, Installer.quiet_validate|]. intros _. apply keeps_admission.
Qed.

Lemma keeps_select i an input : keeps R (select i an input).
Proof.
  unfold Installer.SelectVersion, Installer.install.
  do 3 (destruct (decide _); [constructor|]). destruct (negb _); [apply keeps_installLocked|].
  apply keeps_bind; [apply keeps_locks|]. intros [[]|[]]; try constructor.
  apply keeps_bind; [apply keeps_installLocked|]. intros out.
  apply keeps_bind; [apply (keeps_locks 0%Z _ _ _ 0%Z)|]. intros ?. constructor.
Qed.
End install_keeps.

Context `{!Apart requests locks, !Apart rollouts locks, !Apart requests rollouts, !Apart rollouts requests,
          !Apart settings locks, !Apart settings requests, !Apart settings rollouts}.

(** Rollouts are written under the name of their app. *)
Lemma keyed_write r w : keyed rollouts w → keyed rollouts (with_rows (ObjectStore := rollouts)
  (<[record_id (Rollouts.appRolloutRecord r) := Rollouts.appRolloutRecord r]> (rows (ObjectStore := rollouts) w)) w).
Proof.
  intros Hk key r'. unfold Rollouts.stored. rewrite rows_with, Rollouts.record_id_row, lookup_insert.
  case_decide as E; [|apply Hk]. intros [= <-]. rewrite <-E.
  cbn [Rollouts.recordToAppRollout r_App]. unfold recString. by rewrite Rollouts.appRolloutRecord_lookup.
Qed.

Lemma keyed_Put r : keeps (keeps_keyed rollouts) (Put (OS := rollouts) (Rollouts.appRolloutRecord r)).
Proof. apply keeps_fallible; [apply _|]. intros w Hk. exact (keyed_write r w Hk). Qed.
Lemma keyed_Add r : keeps (keeps_keyed rollouts) (Add (OS := rollouts) (Rollouts.appRolloutRecord r)).
Proof.
  apply keeps_fallible; [apply _|]. intros w. unfold add_row. destruct (_ !! _); [intros H; exact H|exact (keyed_write r w)].
Qed.

Lemma keyed_frames {A} (m : prog (Env W) A) : frames rollouts m → keeps (keeps_keyed rollouts) m.
Proof.
  apply keeps_mono. intros w w' Hsame Hk key r. unfold Rollouts.stored, same_rows in *. rewrite Hsame. apply Hk.
Qed.

Lemma keyed_select i an input : keeps (keeps_keyed rollouts) (select i an input).
Proof.
  apply keeps_select; [apply _|..].
  - intros clock app version holder ttl. split; apply keyed_frames;
      apply (Installer.frames_locks locks rollouts true clock app version holder ttl).
  - intros i' an' p. unfold Installer.createRollout, SourceVersions.CreateAppRollout, SourceVersions.in_transaction,
      SourceVersions.admitRollout, SourceVersions.commit, Rollouts.Create, Rollouts.in_transaction, Rollouts.finish.
    repeat (first [apply keyed_Put | apply keyed_Add] || keeps_step || unfold SourceVersions.abort).
  - intros now app version at_. unfold Rollouts.MarkFailed, Rollouts.transition, Rollouts.in_transaction, Rollouts.finish.
    repeat (apply keyed_Put || keeps_step).
  - intros now id r. apply keyed_frames. unfold ChangeRequests.AppendRequest. repeat keeps_step.
  - intros registry app f. apply keyed_frames, Installer.MutateRetention_frames.
Qed.

Lemma frames_select i an input : frames settings (select i an input).
Proof.
  apply keeps_select; [apply _|..].
  - intros clock app version holder ttl. apply Installer.frames_locks. apply _.
  - intros i' an' p. unfold Installer.createRollout, SourceVersions.CreateAppRollout, SourceVersions.in_transaction,
      SourceVersions.admitRollout, SourceVersions.commit, Rollouts.Create, Rollouts.in_transaction, Rollouts.finish.
    repeat (keeps_step || unfold SourceVersions.abort).
  - intros now app version at_. unfold Rollouts.MarkFailed, Rollouts.transition, Rollouts.in_transaction, Rollouts.finish.
    repeat keeps_step.
  - intros now id r. unfold ChangeRequests.AppendRequest. repeat keeps_step.
  - intros registry app f. apply Installer.MutateRetention_frames.
Qed.

(** A request of another app changes nothing in the history of an app. *)
Lemma requests_of_other now newID r app w :
  rows (ObjectStore := requests) w !! ChangeRequests.appended_id newID r = None →
  TrimSpace (cr_App r) ≠ app →
  ChangeRequests.requests_of (OS := requests) app (with_rows (ObjectStore := requests)
    (<[ChangeRequests.appended_id newID r := ChangeRequests.appended now newID r]>
       (rows (ObjectStore := requests) w)) w)
  ≡ₚ ChangeRequests.requests_of (OS := requests) app w.
Proof.
  intros Hnew Hne. destruct (ChangeRequests.appended_fields now newID r) as (Hrid & _).
  destruct (ChangeRequests.appended_lookup now newID r) as (_ & Happ & _).
  unfold ChangeRequests.requests_of. rewrite !merge_sort_Permutation, <-Hrid, select_add by (by rewrite Hrid).
  rewrite map_app. unfold ChangeRequests.by_app_timestamp at 1, ChangeRequests.key_app. rewrite Happ.
  by rewrite bool_decide_eq_false_2 by congruence.
Qed.

(** The controller may be given the installer of Installer.v, with any reader and any
    fleet reader that only reads. *)
Lemma installer_collaborates i an fetch project :
  (∀ r, quiet (project r)) →
  Collaborators settings rollouts requests
    {| ps_Fetch := fetch; ps_Select := select i an; ps_Project := project |}.
Proof.
  intros Hp. constructor; [apply frames_select|apply keyed_select| | |exact Hp].
  - intros input env other Hne. cbn [ps_Select].
    pose proof (Installer.wp_install locks requests states rollouts sv cd TimeParseDuration i an input
                  Installer.installModeSelect env) as H.
    destruct (keeps_run (same_rows settings) _ env (frames_select i an input)) as [Hs _].
    unfold wp, Installer.outcome_of in H. fold (select i an input) in H.
    assert (Hset : AutoDeploy.settings_of settings (contents (run (select i an input) env).2) other
                   = AutoDeploy.settings_of settings (contents env) other).
    { unfold AutoDeploy.settings_of, same_rows in *. by rewrite Hs. }
    destruct (run (select i an input) env) as [[out|e] env']; cbn [fst snd] in *.
    + destruct H as [(request & _ & Happ & _ & _ & _ & Hid & _ & Hnew & Hrows) (_ & _ & _ & _ & Hother)].
      split_and!; [done|by apply Hother|].
      assert (E : ChangeRequests.appended_id (Installer.an_requestID an) request = Installer.an_requestID an).
      { unfold ChangeRequests.appended_id. by rewrite Hid. }
      rewrite <-(requests_of_other (Installer.an_storeNow an) (Installer.an_requestID an) request other (contents env)).
      * rewrite E. unfold ChangeRequests.requests_of, ObjectStore.select. by rewrite rows_with, Hrows.
      * by rewrite E.
      * rewrite Happ, TrimSpace_idem. congruence.
    + destruct H as (Hh & Hother & _). split_and!; [done|by apply Hother|].
      by rewrite (Installer.requests_of_rows requests other _ _ Hh).
  - intros input env e He. cbn [ps_Select] in *.
    pose proof (Installer.wp_install locks requests states rollouts sv cd TimeParseDuration i an input
                  Installer.installModeSelect env) as H.
    unfold wp, Installer.outcome_of in H. fold (select i an input) in H. rewrite He in H. by destruct H.
Qed.
End collaborators.

(** ** A concrete controller *)

Section demo.
#[local] Existing Instances Rfc3339.go_time_parser ChangeRequests.bit_codec
  ChangeRequests.plain_sprinter.

Definition database : Type := Installer.demo_database * gmap string idbRecord.
Definition locks_store : ObjectStore database := left_store _ _ (H := Installer.demo_locks).
Definition requests_store : ObjectStore database := left_store _ _ (H := Installer.demo_requests).
Definition states_store : ObjectStore database := left_store _ _ (H := Installer.demo_states).
Definition rollouts_store : ObjectStore database := left_store _ _ (H := Installer.demo_rollouts).
Definition settings_store : ObjectStore database := right_store _ _.

(** The stores are different components of the database. *)
Local Ltac apart := split; by intros ? [[[? ?] [? ?]] ?].
#[local] Instance apart_requests_locks : Apart requests_store locks_store. Proof. apart. Qed.
#[local] Instance apart_rollouts_locks : Apart rollouts_store locks_store. Proof. apart. Qed.
#[local] Instance apart_requests_rollouts : Apart requests_store rollouts_store. Proof. apart. Qed.
#[local] Instance apart_rollouts_requests : Apart rollouts_store requests_store. Proof. apart. Qed.
#[local] Instance apart_settings_locks : Apart settings_store locks_store. Proof. apart. Qed.
#[local] Instance apart_settings_requests : Apart settings_store requests_store. Proof. apart. Qed.
#[local] Instance apart_settings_rollouts : Apart settings_store rollouts_store. Proof. apart. Qed.
#[local] Instance apart_requests_settings : Apart requests_store settings_store. Proof. apart. Qed.
#[local] Instance apart_rollouts_settings : Apart rollouts_store settings_store. Proof. apart. Qed.

Program Definition no_catalog : Installer.RetentionCatalog database :=
  {| Installer.MutateRetention _ _ _ := mret (Ok tt) |}.
Next Obligation. intros. constructor. Qed.

Definition from_main : RegistryConfig.ProviderEntry :=
  {| RegistryConfig.pe_Source := {| RegistryConfig.ps_Builtin := ""; RegistryConfig.ps_metadataURL := "";
       RegistryConfig.ps_metadataPath := ""; RegistryConfig.ps_packageName := "";
       RegistryConfig.ps_resolvedVersion := ""; RegistryConfig.ps_GitHubRelease := false;
       RegistryConfig.ps_Git := false; RegistryConfig.ps_Registry := "main";
       RegistryConfig.ps_RegistryApp := ""; RegistryConfig.ps_Path := "" |};
     RegistryConfig.pe_ResolvedManifest := None |}.

Definition main_installer : Installer.Installer :=
  {| Installer.in_Registries := InstallValidation.va_Registries InstallValidation.demo_validator;
     Installer.in_ConfigApps := Some {[ "base" := from_main; "shop" := from_main ]};
     Installer.in_ChangeRequests := true; Installer.in_Locks := true; Installer.in_SourceVersions := true;
     Installer.in_Rollouts := true; Installer.in_RetentionCatalog := true;
     Installer.in_GestaltdVersion := "dev"; Installer.in_SourceVersion := "";
     Installer.in_RolloutMode := "" |}.

(** An index that lists version 1.1.0 of the app. *)
Definition listed_index : Index :=
  match RegistryIndex.UpsertAppIndex (λ _, true) (λ s, s) RegistryIndex.demo_order
          (Some RegistryIndex.NewEmptyIndex) (RegistryIndex.demo_entry "base" "1.1.0" Hour)
          "apps/base/versions/1.1.0.json" "" "" with
  | Ok (index, _) => index
  | Err _ => RegistryIndex.NewEmptyIndex
  end.
Definition registry_answer (url ifNoneMatch : string) : result ReaderError Response :=
  if decide (ifNoneMatch = "tag1")
  then Ok {| rs_Status := 304; rs_ETag := ""; rs_Body := Err ErrReadBody |}
  else Ok {| rs_Status := 200; rs_ETag := "tag1"; rs_Body := Ok listed_index |}.
Definition demo_fetch : string → string → string → result ReaderError AppIndexFetchResult :=
  FetchAppIndexConditional (λ _, true) (λ s, s) InstallValidation.id_codecs RegistryIndex.demo_order
    registry_answer.

Local Abbreviation program A := (prog (Env database) A).
Definition unhealthy : AppFleetProjection :=
  FleetState.EvaluateFleetState (FleetState.rolloutEvaluation AutoDeploy.sample_failed Hour Hour []).

Definition install_pass : Pass (W := database) :=
  {| ps_Fetch := demo_fetch;
     ps_Select := Installer.SelectVersion (RC := no_catalog) locks_store requests_store states_store
       rollouts_store InstallValidation.text_semver InstallValidation.id_codecs (λ _, None)
       main_installer Installer.demo_answers;
     ps_Project _ := mret (Ok (Some unhealthy)) |}.
Definition busy_pass : Pass (W := database) :=
  {| ps_Fetch := demo_fetch; ps_Select _ := mret (Err Installer.ErrAppRolloutActive);
     ps_Project _ := mret (Ok None) |}.

#[local] Instance install_pass_ok : Collaborators settings_store rollouts_store requests_store install_pass.
Proof. apply installer_collaborates; [apply _..|]. intros r. constructor. Qed.
#[local] Instance busy_pass_ok : Collaborators settings_store rollouts_store requests_store busy_pass.
Proof. split; try (intros; constructor); intros; by unfold left_alone. Qed.

Definition demo_controller : Controller :=
  New true true true false true true
    [("base", {| ac_Registry := "main"; ac_PublicRoot := "https://apps/"; ac_RegistryApp := "" |});
     (" shop", {| ac_Registry := "main"; ac_PublicRoot := "https://apps/"; ac_RegistryApp := "" |})] 0.

Definition row_of (app : string) (enabled paused : bool) : idbRecord :=
  AutoDeploy.appAutoDeploySettingsRecord
    {| ad_App := app; ad_Enabled := enabled; ad_Paused := paused; ad_PauseReason := "";
       ad_PendingVersion := ""; ad_LastSeenVersion := ""; ad_LastError := "";
       ad_LastFailedRolloutAt := zero_time |}.

(** Two apps at version 1.0.0, one of them enabled. *)
Definition demo_env : Env database :=
  mkEnv (contents Installer.demo_env, {[ "base" := row_of "base" true false; "shop" := row_of "shop" true true ]}) [].

Definition error_text (e : InstallError) : string := "install failed".

Lemma demo_keyed : keyed rollouts_store (contents demo_env).
Proof. intros key r. unfold Rollouts.stored. cbn. by rewrite lookup_empty. Qed.

Example base_is_deployed :
  let env' := (run (run_loop settings_store rollouts_store requests_store RegistryIndex.demo_order error_text
                 demo_controller [Ticked busy_pass; Notified "base"; Woken install_pass]) demo_env).2 in
  (ad_PendingVersion (AutoDeploy.settings_of settings_store (contents env') "base"),
   r_Version <$> Rollouts.stored (OS := rollouts_store) (contents env') "base")
  = ("", Some "1.1.0").
Proof. vm_compute. reflexivity. Qed.

Lemma inert_app_left_alone_witness :
  left_alone settings_store rollouts_store requests_store "shop" (contents demo_env)
    (contents (run (run_loop settings_store rollouts_store requests_store RegistryIndex.demo_order error_text
       demo_controller [Ticked busy_pass; Notified "shop"; Woken install_pass]) demo_env).2).
Proof.
  assert (Hok : Forall (event_ok settings_store rollouts_store requests_store)
            [Ticked busy_pass; Notified "shop"; Woken install_pass])
    by (rewrite !Forall_cons; split_and!; [apply busy_pass_ok|done|apply install_pass_ok|constructor]).
  assert (Hin : inert settings_store "shop" (contents demo_env)) by (right; reflexivity).
  exact (proj1 (inert_app_left_alone settings_store rollouts_store requests_store RegistryIndex.demo_order
    error_text demo_controller _ "shop" demo_env Hok demo_keyed Hin)).
Defined.

(** The rollout of the app has failed. *)
Definition failed_base : AppRollout :=
  {| r_App := "base"; r_Version := "1.0.0"; r_State := RolloutFailed; r_Mode := ModeHeartbeat;
     r_TargetSourceVersion := "abc"; r_MinimumHealthyInstances := 2;
     r_CreatedAt := Minute; r_EnrollmentEndsAt := 0; r_Deadline := Hour;
     r_HealthySince := 0; r_HeartbeatEvaluatedAt := 0; r_CompletedAt := 0;
     r_FailedAt := Hour; r_FailureSummary := None |}.
Definition failed_env : Env database :=
  mkEnv (contents (run (Put (OS := rollouts_store) (Rollouts.appRolloutRecord failed_base)) demo_env).2) [].

Lemma failed_keyed : keyed rollouts_store (contents failed_env).
Proof. exact (keyed_write rollouts_store failed_base (contents demo_env) demo_keyed). Qed.

Lemma demo_serves : serves demo_controller "base"
  {| ac_Registry := "main"; ac_PublicRoot := "https://apps"; ac_RegistryApp := "" |}.
Proof. split_and!; [reflexivity|vm_compute; reflexivity|done|vm_compute; reflexivity]. Qed.

Lemma failed_rollout_handled_witness :
  ad_Paused (AutoDeploy.settings_of settings_store (contents (run (Reconcile settings_store rollouts_store
    requests_store RegistryIndex.demo_order error_text demo_controller install_pass "base") failed_env).2) "base")
  = true.
Proof.
  assert (Hb : benign failed_env) by constructor.
  assert (Hr : Rollouts.stored (OS := rollouts_store) (contents failed_env) "base" = Some failed_base)
    by (vm_compute; reflexivity).
  assert (Hans : projects install_pass failed_base (contents failed_env) (Ok (Some unhealthy)))
    by (intros env _ _; reflexivity).
  pose proof (failed_rollout_handled settings_store rollouts_store requests_store RegistryIndex.demo_order
    error_text demo_controller install_pass "base" _ failed_base (Ok (Some unhealthy)) failed_env install_pass_ok
    demo_serves Hb failed_keyed eq_refl eq_refl Hr eq_refl eq_refl Hans) as H.
  destruct H as (_ & _ & _ & _ & _ & _ & _ & _ & H & _). exact H.
Defined.

Local Abbreviation demo_config :=
  {| ac_Registry := "main"; ac_PublicRoot := "https://apps"; ac_RegistryApp := "" |}.

(** The same installer a day later, and a database in which another replica took the lock
    of the app just before the first hour ended, and died. *)
Definition later_pass : Pass (W := database) :=
  {| ps_Fetch := demo_fetch;
     ps_Select := Installer.SelectVersion (RC := no_catalog) locks_store requests_store states_store
       rollouts_store InstallValidation.text_semver InstallValidation.id_codecs (λ _, None) main_installer
       {| Installer.an_lockHolder := "holder"; Installer.an_requestID := "r3";
          Installer.an_lockClock := 24 * Hour; Installer.an_checkNow := 24 * Hour;
          Installer.an_requestedNow := 24 * Hour; Installer.an_storeNow := 24 * Hour;
          Installer.an_failedNow := 24 * Hour; Installer.an_platform := "linux/amd64";
          Installer.an_buildVersion := ""; Installer.an_FetchRetentionIndex _ _ := Ok None;
          Installer.an_FetchEntry := InstallValidation.demo_fetch |};
     ps_Project _ := mret (Ok (Some unhealthy)) |}.
#[local] Instance later_pass_ok : Collaborators settings_store rollouts_store requests_store later_pass.
Proof. apply installer_collaborates; [apply _..|]. intros r. constructor. Qed.

Definition locked_env : Env database :=
  mkEnv (contents (run (InstallLocks.Acquire (OS := locks_store) true (Hour - Second) "base" "1.1.0" "gone" 0)
                       demo_env).2) [].

Local Abbreviation demo_settings := (AutoDeploy.settings_of settings_store (contents locked_env) "base").

Lemma locked_deployable :
  deployable rollouts_store requests_store "base" "1.1.0" demo_settings (contents locked_env).
Proof.
  constructor.
  - split; [vm_compute; reflexivity|done].
  - split; [vm_compute; reflexivity|done].
  - vm_compute. reflexivity.
  - split; vm_compute; reflexivity.
  - vm_compute. discriminate.
  - intros r. replace (Rollouts.stored (OS := rollouts_store) (contents locked_env) "base") with (@None AppRollout); [done|vm_compute; reflexivity].
  - vm_compute. discriminate.
Qed.

(** The first pass finds the app locked, and the version waits; the next one installs it. *)
Lemma new_version_is_deployed_witness :
  let after ps := contents (run (passes settings_store rollouts_store requests_store
    RegistryIndex.demo_order error_text demo_controller ps "base") locked_env).2 in
  let pending w := ad_PendingVersion (AutoDeploy.settings_of settings_store w "base") in
  let rollout w := r_Version <$> Rollouts.stored (OS := rollouts_store) w "base" in
  (run (ps_Select install_pass (selectInput "base" "1.1.0" demo_config)) locked_env).1
    = Err Installer.ErrInstallVersionLocked ∧
  (pending (after [install_pass]), rollout (after [install_pass])) = ("1.1.0", None) ∧
  (pending (after [install_pass; later_pass]), rollout (after [install_pass; later_pass]))
    = ("", Some "1.1.0") ∧
  asks settings_store rollouts_store requests_store RegistryIndex.demo_order error_text
    "base" "1.1.0" demo_config demo_settings (contents locked_env) "base" demo_controller locked_env
    [install_pass; later_pass].
Proof.
  intros after pending rollout. split_and!; [vm_compute; reflexivity..|]. clear after pending rollout.
  assert (HC : Forall (Collaborators settings_store rollouts_store requests_store) [install_pass; later_pass])
    by (apply List.Forall_cons; [exact install_pass_ok|apply List.Forall_cons; [exact later_pass_ok|apply List.Forall_nil]]).
  assert (Ho : offers RegistryIndex.demo_order "base" "1.1.0" demo_config demo_settings demo_controller install_pass).
  { eexists. split; [vm_compute; reflexivity|]. split; [done|]. do 2 eexists. split; vm_compute; reflexivity. }
  assert (Hn : Forall (no_news RegistryIndex.demo_order "base" "1.1.0" demo_config) [later_pass]).
  { rewrite Forall_singleton. intros etag. unfold later_pass, demo_fetch, FetchAppIndexConditional. cbn [ps_Fetch].
    unfold registry_answer. destruct (decide (TrimSpace etag = "tag1")).
    - eexists. split; [vm_compute; reflexivity|]. by left.
    - eexists. split; [vm_compute; reflexivity|]. right. do 2 eexists. split; vm_compute; reflexivity. }
  assert (Hb : benign locked_env) by constructor.
  pose proof (new_version_is_deployed settings_store rollouts_store requests_store RegistryIndex.demo_order
    error_text demo_controller "base" demo_config "1.1.0" [install_pass; later_pass] locked_env) as H.
  cbn zeta in H. replace (TrimSpace "base") with "base" in H by (vm_compute; reflexivity).
  exact (H demo_serves Hb locked_deployable HC (conj Ho Hn)).
Defined.
(** *** A version that is never noted *)

(** The app has seen version 1.0.0; the write that notes the next version fails. *)
Definition seen_row : idbRecord :=
  AutoDeploy.appAutoDeploySettingsRecord
    {| ad_App := "base"; ad_Enabled := true; ad_Paused := false; ad_PauseReason := "";
       ad_PendingVersion := ""; ad_LastSeenVersion := "1.0.0"; ad_LastError := "";
       ad_LastFailedRolloutAt := zero_time |}.
Definition seen_env (faults : list bool) : Env database :=
  mkEnv (contents Installer.demo_env, {[ "base" := seen_row ]}) faults.
Local Abbreviation pass_over c := (Reconcile settings_store rollouts_store requests_store
  RegistryIndex.demo_order error_text c install_pass "base").
Local Abbreviation version_of w := (r_Version <$> Rollouts.stored (OS := rollouts_store) w "base").

(** The controller and the database after a pass whose fifth call fails. *)
Definition interrupted : result ControllerError unit * Controller * Env database :=
  run (pass_over demo_controller) (seen_env [false; false; false; false; true]).

Lemma interrupted_stays :
  run (pass_over interrupted.1.2) interrupted.2 = ((Ok tt, interrupted.1.2), interrupted.2).
Proof. vm_cast_no_check (@eq_refl _ ((Ok tt, interrupted.1.2) : result ControllerError unit * Controller, interrupted.2)). Qed.

(** One failed write hides a version for good.  The controller remembers the entity
    tag of an index before the newest version of that index is noted in the settings.
    When that write fails, the registry answers every later request with "not modified",
    so the version is never noted and never deployed, although every later pass reports
    success and a pass without the fault would have deployed it. *)
Theorem failed_write_hides_version :
  interrupted.1.1 = Err (ErrSettings (AutoDeploy.ErrStore ErrIO))
  ∧ (∀ n, let later := run (passes settings_store rollouts_store requests_store RegistryIndex.demo_order
                              error_text interrupted.1.2 (replicate (S n) install_pass) "base") interrupted.2 in
       later.1.1 = Ok tt ∧ version_of (contents later.2) = None
       ∧ ad_PendingVersion (AutoDeploy.settings_of settings_store (contents later.2) "base") = "")
  ∧ version_of (contents (run (pass_over demo_controller) (seen_env [])).2) = Some "1.1.0".
Proof.
  split_and!; [vm_compute; reflexivity| |vm_compute; reflexivity].
  intros n. assert (E : run (passes settings_store rollouts_store requests_store RegistryIndex.demo_order
    error_text interrupted.1.2 (replicate (S n) install_pass) "base") interrupted.2
    = ((Ok tt, interrupted.1.2), interrupted.2)).
  { induction n as [|n IH]; [exact interrupted_stays|]. change (replicate (S (S n)) install_pass)
      with (install_pass :: install_pass :: replicate n install_pass). cbn [passes].
    rewrite run_bind, interrupted_stays. exact IH. }
  cbn zeta. rewrite E. split_and!; vm_compute; reflexivity.
Qed.
End demo.

End AutoDeployController.
