(* ===== verification/TurnScope.v ===== *)
(** * TurnScope: the scopes of agent sessions and the callers of their turns

    Models [gestaltd/services/agents/agentturnscope/store.go] with the types of
    [gestaltd/core/agent/types.go] and the normalisers of [gestaltd/core/provider.go]
    and [gestaltd/core/subjects.go] it uses.

    Every method holds the store's mutex, so concurrent calls are sequences of the
    operations below.  Turn bindings are shared: an alias of a turn maps to the same
    [*TurnBinding], so the model keeps the pointers ([loc]) in the map and the bindings
    in a heap. *)

From stdpp Require Import base gmap strings list sorting sets.
From Stdlib Require Import ZArith Ascii Lia.
From S2P Require Import Prelude Catalog.

Set Default Goal Selector "!".

Module TurnScope.
Import Catalog.

(** ** Data *)

Record RunAsSubject := { ra_SubjectID : string }.
Record AccessPermission := { ap_App : string; ap_Operations : list string }.
Record UnavailableToolTarget := { un_Reason : string; un_Message : string }.

Record ToolTarget := {
  tt_System : string;
  tt_App : string;
  tt_Operation : string;
  tt_Connection : string;
  tt_Instance : string;
  tt_CredentialMode : string;
  tt_Unavailable : option UnavailableToolTarget;
  tt_RunAs : option RunAsSubject }.

Record ToolRef := {
  tr_System : string;
  tr_App : string;
  tr_Operation : string;
  tr_Connection : string;
  tr_Instance : string;
  tr_CredentialMode : string;
  tr_RunAs : option RunAsSubject;
  tr_Title : string;
  tr_Description : string }.

Record ListedTool := {
  lt_ToolID : string;
  lt_MCPName : string;
  lt_Title : string;
  lt_Description : string;
  lt_Tags : list string;
  lt_SearchText : string;
  lt_InputSchemaJSON : string;
  lt_OutputSchemaJSON : string;
  lt_Annotations : CapabilityAnnotations;
  lt_Ref : ToolRef;
  lt_Target : ToolTarget;
  lt_Hidden : bool }.

Record ConnectionBinding := { cb_Connection : string }.

Record Scope := {
  sc_ProviderName : string;
  sc_SessionID : string;
  sc_TurnID : string;
  sc_CallerKind : string;
  sc_CallerName : string;
  sc_WorkflowRunID : string;
  sc_WorkflowStepID : string;
  sc_SubjectID : string;
  sc_Permissions : list AccessPermission;
  sc_ToolRefs : list ToolRef;
  sc_ToolRefsSet : bool;
  sc_ListedTools : list ListedTool;
  sc_ToolSource : string;
  sc_Connections : list ConnectionBinding }.

Record TurnBinding := {
  tb_CallerKind : string;
  tb_CallerName : string;
  tb_WorkflowRunID : string;
  tb_WorkflowStepID : string;
  tb_ProviderTurnID : string }.

(** [*TurnBinding] *)
Abbreviation loc := N (only parsing).

Record Store := {
  st_sessionScopes : gmap string Scope;
  st_turnBindings : gmap string loc;
  st_heap : gmap loc TurnBinding;
  st_next : loc }.

Definition NewStore : Store :=
  {| st_sessionScopes := ∅; st_turnBindings := ∅; st_heap := ∅; st_next := 0%N |}.

Inductive StoreError :=
  | ErrSessionScopeRequired
  | ErrTurnBindingRequired
  | ErrTurnAliasRequired
  | ErrTurnBindingNotFound.

(** ** Normalisation *)

Definition ConnectionModeNone : string := "none".
Definition ConnectionModeSubject : string := "subject".

Definition NormalizeRunAsSubject (subject : option RunAsSubject) : option RunAsSubject :=
  match subject with
  | None => None
  | Some s => Some {| ra_SubjectID := TrimSpace (ra_SubjectID s) |}
  end.

Section with_lower.
(** [strings.ToLower]; the lemmas need that it is idempotent and keeps a trimmed
    string trimmed. *)
Context (ToLower : string → string).

Definition normalizeConnectionModeValue (mode : string) : string := ToLower (TrimSpace mode).

Definition NormalizeConnectionMode (mode : string) : string :=
  let normalized := normalizeConnectionModeValue mode in
  if bool_decide (normalized = "" ∨ normalized = ConnectionModeSubject) then ConnectionModeSubject
  else if bool_decide (normalized = ConnectionModeNone) then ConnectionModeNone
  else normalized.

Definition NormalizeOptionalConnectionMode (mode : string) : string :=
  let normalized := normalizeConnectionModeValue mode in
  if bool_decide (normalized = "") then "" else NormalizeConnectionMode normalized.

Definition clonePermissions (src : list AccessPermission) : list AccessPermission :=
  map (λ p, {| ap_App := TrimSpace (ap_App p); ap_Operations := ap_Operations p |}) src.

Definition cloneToolRef (r : ToolRef) : ToolRef :=
  {| tr_System := TrimSpace (tr_System r);
     tr_App := TrimSpace (tr_App r);
     tr_Operation := TrimSpace (tr_Operation r);
     tr_Connection := TrimSpace (tr_Connection r);
     tr_Instance := TrimSpace (tr_Instance r);
     tr_CredentialMode := NormalizeOptionalConnectionMode (tr_CredentialMode r);
     tr_RunAs := NormalizeRunAsSubject (tr_RunAs r);
     tr_Title := TrimSpace (tr_Title r);
     tr_Description := TrimSpace (tr_Description r) |}.

Definition cloneToolRefs (src : list ToolRef) : list ToolRef := map cloneToolRef src.

Definition cloneUnavailable (src : option UnavailableToolTarget) : option UnavailableToolTarget :=
  match src with
  | None => None
  | Some u => Some {| un_Reason := TrimSpace (un_Reason u); un_Message := TrimSpace (un_Message u) |}
  end.

Definition cloneToolTarget (src : ToolTarget) : ToolTarget :=
  {| tt_System := TrimSpace (tt_System src);
     tt_App := TrimSpace (tt_App src);
     tt_Operation := TrimSpace (tt_Operation src);
     tt_Connection := TrimSpace (tt_Connection src);
     tt_Instance := TrimSpace (tt_Instance src);
     tt_CredentialMode := NormalizeOptionalConnectionMode (tt_CredentialMode src);
     tt_Unavailable := cloneUnavailable (tt_Unavailable src);
     tt_RunAs := NormalizeRunAsSubject (tt_RunAs src) |}.

Definition cloneListedTool (t : ListedTool) : ListedTool :=
  {| lt_ToolID := TrimSpace (lt_ToolID t);
     lt_MCPName := TrimSpace (lt_MCPName t);
     lt_Title := TrimSpace (lt_Title t);
     lt_Description := TrimSpace (lt_Description t);
     lt_Tags := lt_Tags t;
     lt_SearchText := TrimSpace (lt_SearchText t);
     lt_InputSchemaJSON := TrimSpace (lt_InputSchemaJSON t);
     lt_OutputSchemaJSON := TrimSpace (lt_OutputSchemaJSON t);
     lt_Annotations := lt_Annotations t;
     lt_Ref := cloneToolRef (lt_Ref t);
     lt_Target := cloneToolTarget (lt_Target t);
     lt_Hidden := lt_Hidden t |}.

Definition cloneListedTools (src : list ListedTool) : list ListedTool := map cloneListedTool src.

Fixpoint cloneConnectionBindings (src : list ConnectionBinding) : list ConnectionBinding :=
  match src with
  | [] => []
  | b :: src =>
      let connection := TrimSpace (cb_Connection b) in
      if bool_decide (connection = "") then cloneConnectionBindings src
      else {| cb_Connection := connection |} :: cloneConnectionBindings src
  end.

Definition cloneScope (src : Scope) : Scope :=
  {| sc_ProviderName := TrimSpace (sc_ProviderName src);
     sc_SessionID := TrimSpace (sc_SessionID src);
     sc_TurnID := TrimSpace (sc_TurnID src);
     sc_CallerKind := TrimSpace (sc_CallerKind src);
     sc_CallerName := TrimSpace (sc_CallerName src);
     sc_WorkflowRunID := TrimSpace (sc_WorkflowRunID src);
     sc_WorkflowStepID := TrimSpace (sc_WorkflowStepID src);
     sc_SubjectID := TrimSpace (sc_SubjectID src);
     sc_Permissions := clonePermissions (sc_Permissions src);
     sc_ToolRefs := cloneToolRefs (sc_ToolRefs src);
     sc_ToolRefsSet := sc_ToolRefsSet src || bool_decide (0 < length (sc_ToolRefs src));
     sc_ListedTools := cloneListedTools (sc_ListedTools src);
     sc_ToolSource := sc_ToolSource src;
     sc_Connections := cloneConnectionBindings (sc_Connections src) |}.

(** ** Sessions *)

Definition NUL : ascii := ascii_of_N 0.
Definition nul : string := String NUL "".

Definition sessionScopeKey (providerName sessionID : string) : string :=
  let providerName := TrimSpace providerName in
  let sessionID := TrimSpace sessionID in
  if bool_decide (providerName = "" ∨ sessionID = "") then ""
  else providerName +:+ nul +:+ sessionID.

Definition set_sessions (st : Store) (m : gmap string Scope) : Store :=
  {| st_sessionScopes := m; st_turnBindings := st_turnBindings st; st_heap := st_heap st;
     st_next := st_next st |}.

(** [scope.TurnID = ""] and [scope.ToolRefsSet = true] *)
Definition sessionOf (scope : Scope) : Scope :=
  {| sc_ProviderName := sc_ProviderName scope;
     sc_SessionID := sc_SessionID scope;
     sc_TurnID := "";
     sc_CallerKind := sc_CallerKind scope;
     sc_CallerName := sc_CallerName scope;
     sc_WorkflowRunID := sc_WorkflowRunID scope;
     sc_WorkflowStepID := sc_WorkflowStepID scope;
     sc_SubjectID := sc_SubjectID scope;
     sc_Permissions := sc_Permissions scope;
     sc_ToolRefs := sc_ToolRefs scope;
     sc_ToolRefsSet := if sc_ToolRefsSet scope || bool_decide (0 < length (sc_ToolRefs scope))
                       then true else sc_ToolRefsSet scope;
     sc_ListedTools := sc_ListedTools scope;
     sc_ToolSource := sc_ToolSource scope;
     sc_Connections := sc_Connections scope |}.

Definition PutSession (st : Store) (scope : Scope) : result StoreError Store :=
  let scope := cloneScope scope in
  let key := sessionScopeKey (sc_ProviderName scope) (sc_SessionID scope) in
  fail_if bool_decide (key = "") with ErrSessionScopeRequired ;;
  Ok (set_sessions st (<[key := sessionOf scope]> (st_sessionScopes st))).

(** A nil store answers like an empty one. *)
Definition DeleteSession (st : Store) (providerName sessionID : string) : Store :=
  let key := sessionScopeKey providerName sessionID in
  if bool_decide (key = "") then st
  else set_sessions st (delete key (st_sessionScopes st)).

Definition GetSession (st : Store) (providerName sessionID : string) : option Scope :=
  let key := sessionScopeKey providerName sessionID in
  if bool_decide (key = "") then None
  else cloneScope <$> st_sessionScopes st !! key.
End with_lower.

(** ** Turn bindings *)

Definition turnBindingKey (providerName sessionID turnID : string) : string :=
  let providerName := TrimSpace providerName in
  let sessionID := TrimSpace sessionID in
  let turnID := TrimSpace turnID in
  if bool_decide (providerName = "" ∨ sessionID = "" ∨ turnID = "") then ""
  else providerName +:+ nul +:+ sessionID +:+ nul +:+ turnID.

Definition set_turns (st : Store) (m : gmap string loc) (h : gmap loc TurnBinding) (next : loc) : Store :=
  {| st_sessionScopes := st_sessionScopes st; st_turnBindings := m; st_heap := h; st_next := next |}.

(** [&binding] is a new pointer. *)
Definition PutTurnBinding (st : Store) (providerName sessionID turnID : string) (binding : TurnBinding)
    : result StoreError Store :=
  let key := turnBindingKey providerName sessionID turnID in
  fail_if bool_decide (key = "") with ErrTurnBindingRequired ;;
  Ok (set_turns st (<[key := st_next st]> (st_turnBindings st))
                   (<[st_next st := binding]> (st_heap st)) (st_next st + 1)%N).

Definition withProviderTurnID (b : TurnBinding) (id : string) : TurnBinding :=
  {| tb_CallerKind := tb_CallerKind b; tb_CallerName := tb_CallerName b;
     tb_WorkflowRunID := tb_WorkflowRunID b; tb_WorkflowStepID := tb_WorkflowStepID b;
     tb_ProviderTurnID := id |}.

Definition BindProviderTurnID (st : Store) (providerName sessionID turnID providerTurnID : string)
    : result StoreError Store :=
  let key := turnBindingKey providerName sessionID turnID in
  let aliasKey := turnBindingKey providerName sessionID providerTurnID in
  fail_if bool_decide (key = "" ∨ aliasKey = "") with ErrTurnAliasRequired ;;
  match st_turnBindings st !! key with
  | None => Err ErrTurnBindingNotFound
  | Some p =>
      let heap := alter (λ b, withProviderTurnID b (TrimSpace providerTurnID)) p (st_heap st) in
      let m := if bool_decide (aliasKey ≠ key) then <[aliasKey := p]> (st_turnBindings st)
               else st_turnBindings st in
      Ok (set_turns st m heap (st_next st))
  end.

Definition GetTurnBinding (st : Store) (providerName sessionID turnID : string)
    : option TurnBinding :=
  let key := turnBindingKey providerName sessionID turnID in
  if bool_decide (key = "") then None
  else st_turnBindings st !! key ≫= λ p, st_heap st !! p.

Definition DeleteTurnBinding (st : Store) (providerName sessionID turnID : string) : Store :=
  let key := turnBindingKey providerName sessionID turnID in
  if bool_decide (key = "") then st
  else
    match st_turnBindings st !! key with
    | None => st
    | Some target =>
        set_turns st (filter (λ kv, kv.2 ≠ target) (st_turnBindings st)) (st_heap st) (st_next st)
    end.

(** ** Keys *)

(** The names of a turn; a session is the first two. *)
Definition turn : Type := string * string * string.
Definition nul_free (s : string) : Prop := NUL ∉ String.list_ascii_of_string s.
Definition clean_name (s : string) : Prop := TrimSpace s = s ∧ s ≠ "" ∧ nul_free s.
Definition clean (t : turn) : Prop := clean_name t.1.1 ∧ clean_name t.1.2 ∧ clean_name t.2.
Definition key_of (t : turn) : string := turnBindingKey t.1.1 t.1.2 t.2.

Lemma nul_inj a b c d :
  nul_free a → nul_free b → a +:+ nul +:+ c = b +:+ nul +:+ d → a = b ∧ c = d.
Proof.
  revert b. induction a as [|x a IH]; intros [|y b] Ha Hb Heq; simpl in Heq.
  - injection Heq as Heq. done.
  - injection Heq as <- _. destruct Hb. unfold nul_free. simpl. by left.
  - injection Heq as -> _. destruct Ha. unfold nul_free. simpl. by left.
  - injection Heq as -> Heq. destruct (IH b) as [-> ->]; [| |done|done];
      intros ?; [apply Ha|apply Hb]; by right.
Qed.

Lemma sessionScopeKey_clean p s :
  clean_name p → clean_name s → sessionScopeKey p s = p +:+ nul +:+ s.
Proof.
  intros (Hp & Hp0 & _) (Hs & Hs0 & _). unfold sessionScopeKey. rewrite Hp, Hs.
  by rewrite bool_decide_eq_false_2 by tauto.
Qed.

Lemma key_of_clean t :
  clean t → key_of t = t.1.1 +:+ nul +:+ t.1.2 +:+ nul +:+ t.2.
Proof.
  intros ((Hp & Hp0 & _) & (Hs & Hs0 & _) & (Ht & Ht0 & _)). unfold key_of, turnBindingKey.
  rewrite Hp, Hs, Ht. by rewrite bool_decide_eq_false_2 by tauto.
Qed.

Lemma app_nonempty a b : a ≠ "" → a +:+ b ≠ "".
Proof. by destruct a. Qed.

Lemma key_of_nonempty t : clean t → key_of t ≠ "".
Proof. intros Ht. rewrite key_of_clean by done. apply app_nonempty, Ht. Qed.

Lemma key_of_inj t u : clean t → clean u → key_of t = key_of u ↔ t = u.
Proof.
  intros Ht Hu. split; [|by intros ->]. rewrite !key_of_clean by done.
  destruct t as [[p s] t], u as [[p' s'] t'], Ht as ((_ & _ & Hp) & (_ & _ & Hs) & _),
    Hu as ((_ & _ & Hp') & (_ & _ & Hs') & _). cbn [fst snd] in *.
  intros [-> [-> ->]%nul_inj]%nul_inj; done.
Qed.

(** ** Reachable stores *)

Section with_lower2.
Context (ToLower : string → string).

Inductive store_step (st : Store) : Store → Prop :=
  | do_put p s t b st' : PutTurnBinding st p s t b = Ok st' → store_step st st'
  | do_bind p s t q st' : BindProviderTurnID st p s t q = Ok st' → store_step st st'
  | do_delete p s t : store_step st (DeleteTurnBinding st p s t)
  | do_put_session scope st' : PutSession ToLower st scope = Ok st' → store_step st st'
  | do_delete_session p s : store_step st (DeleteSession st p s).

(** Every pointer of the map is allocated. *)
Definition wf (st : Store) : Prop :=
  (∀ k p, st_turnBindings st !! k = Some p → is_Some (st_heap st !! p)) ∧
  (∀ p, is_Some (st_heap st !! p) → (p < st_next st)%N).

Lemma store_step_wf st st' : wf st → store_step st st' → wf st'.
Proof.
  intros [Hk Hn] [p s t b st'' Hput|p s t q st'' Hbind|p s t|scope st'' Hput|p s].
  - revert Hput. unfold PutTurnBinding. case_bool_decide; [done|]. intros [= <-]. split; cbn.
    + intros k l [[_ <-]|[_ Hl]]%lookup_insert_Some; [by rewrite lookup_insert_eq|].
      apply Hk in Hl. destruct (decide (st_next st = l)) as [->|Hne];
        [by rewrite lookup_insert_eq|by rewrite lookup_insert_ne].
    + intros l Hl. destruct (decide (st_next st = l)) as [<-|Hne]; [lia|].
      rewrite lookup_insert_ne in Hl by done. apply Hn in Hl. lia.
  - revert Hbind. unfold BindProviderTurnID. case_bool_decide; [done|].
    destruct (st_turnBindings st !! _) as [l|] eqn:El; [|done]. intros [= <-]. split; cbn.
    + intros k l' Hl'. rewrite lookup_alter_is_Some. case_bool_decide; [|by eapply Hk].
      apply lookup_insert_Some in Hl' as [[_ <-]|[_ Hl']]; by eapply Hk.
    + intros l' Hl'. rewrite lookup_alter_is_Some in Hl'. by apply Hn.
  - unfold DeleteTurnBinding. case_bool_decide; [done|].
    destruct (st_turnBindings st !! _); [|done]. split; cbn; [|done].
    intros k l Hl. apply map_lookup_filter_Some in Hl as [Hl _]. by eapply Hk.
  - revert Hput. unfold PutSession. case_bool_decide; [done|]. by intros [= <-].
  - unfold DeleteSession. by case_bool_decide.
Qed.

Lemma reachable_wf st : rtc store_step NewStore st → wf st.
Proof.
  intros Hs. assert (wf NewStore) as H0.
  { split; cbn; [intros k p Hk|intros p [b Hb]]; by rewrite lookup_empty in *. }
  induction Hs as [|x y z Hxy _ IH]; [done|]. apply IH. by eapply store_step_wf.
Qed.
End with_lower2.

(** ** What the operations show *)

Definition get (st : Store) (t : turn) : option TurnBinding := GetTurnBinding st t.1.1 t.1.2 t.2.

(** Two turns are bound to the same [*TurnBinding]. *)
Definition shares (st : Store) (t u : turn) : Prop :=
  is_Some (st_turnBindings st !! key_of t) ∧
  st_turnBindings st !! key_of t = st_turnBindings st !! key_of u.

#[export] Instance shares_dec st t u : Decision (shares st t u).
Proof. unfold shares. apply _. Defined.

Lemma shares_loc st t u p :
  st_turnBindings st !! key_of t = Some p →
  shares st t u ↔ st_turnBindings st !! key_of u = Some p.
Proof. intros Hp. unfold shares. rewrite Hp. naive_solver. Qed.

Lemma get_clean st t :
  clean t → get st t = st_turnBindings st !! key_of t ≫= λ p, st_heap st !! p.
Proof.
  intros Ht. unfold get, GetTurnBinding. fold (key_of t).
  by rewrite bool_decide_eq_false_2 by by apply key_of_nonempty.
Qed.

Lemma put_effect st t b u :
  wf st → clean t → clean u →
  ∃ st', PutTurnBinding st t.1.1 t.1.2 t.2 b = Ok st' ∧
         get st' u = if decide (u = t) then Some b else get st u.
Proof.
  intros [Hk Hn] Ht Hu. unfold PutTurnBinding. fold (key_of t).
  rewrite bool_decide_eq_false_2 by by apply key_of_nonempty. eexists. split; [done|].
  rewrite !get_clean by done. cbn [set_turns st_turnBindings st_heap].
  case_decide as Heq; [subst u; by rewrite lookup_insert_eq; simpl; rewrite lookup_insert_eq|].
  rewrite lookup_insert_ne by (rewrite key_of_inj by done; congruence).
  destruct (st_turnBindings st !! key_of u) as [p|] eqn:Ep; [|done]. simpl.
  apply lookup_insert_ne. intros <-. apply Hk in Ep. apply Hn in Ep. lia.
Qed.

Lemma bind_effect st t q u :
  wf st → clean t → clean (t.1, q) → clean u →
  match get st t with
  | None => BindProviderTurnID st t.1.1 t.1.2 t.2 q = Err ErrTurnBindingNotFound
  | Some b =>
      ∃ st', BindProviderTurnID st t.1.1 t.1.2 t.2 q = Ok st' ∧ shares st' t (t.1, q) ∧
             get st' u = if decide (u = (t.1, q) ∨ shares st t u)
                         then Some (withProviderTurnID b q) else get st u
  end.
Proof.
  intros [Hk Hn] Ht Hq Hu. unfold BindProviderTurnID. fold (key_of t).
  change (turnBindingKey t.1.1 t.1.2 q) with (key_of (t.1, q)).
  rewrite bool_decide_eq_false_2 by (intros [?%key_of_nonempty|?%key_of_nonempty]; done).
  rewrite get_clean by done.
  destruct (st_turnBindings st !! key_of t) as [p|] eqn:Ep; [|done].
  destruct (Hk _ _ Ep) as [b Hb]. simpl. rewrite Hb. eexists. split; [done|].
  assert (TrimSpace q = q) as -> by apply Hq.
  set (m := if bool_decide _ then _ else _).
  assert (Hm : ∀ w, clean w → m !! key_of w = if decide (w = (t.1, q)) then Some p
                                              else st_turnBindings st !! key_of w).
  { intros w Hw. unfold m. case_bool_decide as Ha; case_decide as Hwq; subst; try done.
    - by rewrite lookup_insert_eq.
    - rewrite lookup_insert_ne; [done|]. rewrite key_of_inj by done. congruence.
    - destruct (decide (key_of (t.1, q) = key_of t)) as [->|]; [done|tauto]. }
  split.
  - unfold shares. cbn [set_turns st_turnBindings]. rewrite !Hm, (decide_True (P := (t.1, q) = _)) by done.
    rewrite Ep. by case_decide.
  - rewrite !get_clean by done. cbn [set_turns st_turnBindings st_heap]. rewrite Hm by done.
    pose proof (shares_loc st t u p Ep) as Hsh. destruct (decide (u = (t.1, q))) as [->|Hne].
    + simpl. rewrite lookup_alter_eq, Hb. simpl. by rewrite decide_True by (by left).
    + destruct (st_turnBindings st !! key_of u) as [p'|] eqn:Ep'; simpl.
      * destruct (decide (p = p')) as [<-|Hp].
        -- rewrite lookup_alter_eq, Hb. simpl. rewrite decide_True; [done|]. by right; apply Hsh.
        -- rewrite lookup_alter_ne by done. rewrite decide_False; [done|]. rewrite Hsh. naive_solver.
      * rewrite decide_False; [done|]. rewrite Hsh. naive_solver.
Qed.

Lemma delete_effect st t u :
  wf st → clean t → clean u →
  get (DeleteTurnBinding st t.1.1 t.1.2 t.2) u = if decide (shares st t u) then None else get st u.
Proof.
  intros _ Ht Hu. unfold DeleteTurnBinding. fold (key_of t).
  rewrite bool_decide_eq_false_2 by by apply key_of_nonempty.
  destruct (st_turnBindings st !! key_of t) as [p|] eqn:Ep; swap 1 2.
  { rewrite decide_False; [done|]. intros [[? Hx] _]. congruence. }
  pose proof (shares_loc st t u p Ep) as Hsh.
  rewrite !get_clean by done. cbn [set_turns st_turnBindings st_heap].
  case_decide as Hd; rewrite Hsh in Hd.
  - rewrite (proj2 (map_lookup_filter_None _ _ _)); [done|]. right. intros x Hx. cbn. naive_solver.
  - destruct (st_turnBindings st !! key_of u) as [p'|] eqn:Ep'.
    + rewrite (proj2 (map_lookup_filter_Some _ _ _ p')); [done|]. split; [exact Ep'|]. cbn. congruence.
    + rewrite (proj2 (map_lookup_filter_None _ _ _)); [done|]. by left.
Qed.

(** Turn bindings after any sequence of operations on the store.  For names
    without a NUL byte: a put binding is what its turn shows and no other turn changes;
    binding a provider's turn id fails exactly when the turn is unknown, and otherwise
    the id becomes another name of the turn's binding, whose provider id every name of
    it shows; deleting a turn removes every name of its binding and nothing else. *)
Theorem turn_bindings_exact ToLower st t u :
  rtc (store_step ToLower) NewStore st → clean t → clean u →
  (∀ b, ∃ st', PutTurnBinding st t.1.1 t.1.2 t.2 b = Ok st' ∧
               get st' u = if decide (u = t) then Some b else get st u) ∧
  (∀ q, clean (t.1, q) →
     match get st t with
     | None => BindProviderTurnID st t.1.1 t.1.2 t.2 q = Err ErrTurnBindingNotFound
     | Some b =>
         ∃ st', BindProviderTurnID st t.1.1 t.1.2 t.2 q = Ok st' ∧ shares st' t (t.1, q) ∧
                get st' u = if decide (u = (t.1, q) ∨ shares st t u)
                            then Some (withProviderTurnID b q) else get st u
     end) ∧
  get (DeleteTurnBinding st t.1.1 t.1.2 t.2) u = if decide (shares st t u) then None else get st u.
Proof.
  intros Hst%reachable_wf Ht Hu. split_and!.
  - intros b. by apply put_effect.
  - intros q Hq. by apply bind_effect.
  - by apply delete_effect.
Qed.

(** ** Session scopes *)

Section sessions.
Context (ToLower : string → string).
Context (ToLower_idem : ∀ s, ToLower (ToLower s) = ToLower s).
Context (ToLower_trimmed : ∀ s, TrimSpace s = s → TrimSpace (ToLower s) = ToLower s).

Lemma modeValue_idem m :
  normalizeConnectionModeValue ToLower (normalizeConnectionModeValue ToLower m)
  = normalizeConnectionModeValue ToLower m.
Proof.
  unfold normalizeConnectionModeValue. by rewrite ToLower_trimmed, ToLower_idem by apply TrimSpace_idem.
Qed.

(** An optional mode normalises to its trimmed lower case. *)
Lemma optionalMode_value m :
  NormalizeOptionalConnectionMode ToLower m = normalizeConnectionModeValue ToLower m.
Proof.
  unfold NormalizeOptionalConnectionMode, NormalizeConnectionMode. rewrite modeValue_idem.
  repeat case_bool_decide; naive_solver.
Qed.

Lemma optionalMode_idem m :
  NormalizeOptionalConnectionMode ToLower (NormalizeOptionalConnectionMode ToLower m)
  = NormalizeOptionalConnectionMode ToLower m.
Proof. by rewrite !optionalMode_value, modeValue_idem. Qed.

Lemma runAs_idem s : NormalizeRunAsSubject (NormalizeRunAsSubject s) = NormalizeRunAsSubject s.
Proof. destruct s; simpl; by rewrite ?TrimSpace_idem. Qed.

Lemma toolRef_idem r : cloneToolRef ToLower (cloneToolRef ToLower r) = cloneToolRef ToLower r.
Proof. unfold cloneToolRef. simpl. by rewrite !TrimSpace_idem, runAs_idem, optionalMode_idem. Qed.

Lemma toolTarget_idem r : cloneToolTarget ToLower (cloneToolTarget ToLower r) = cloneToolTarget ToLower r.
Proof.
  unfold cloneToolTarget. simpl. rewrite !TrimSpace_idem, runAs_idem, optionalMode_idem.
  f_equal. destruct (tt_Unavailable r); simpl; by rewrite ?TrimSpace_idem.
Qed.

Lemma listedTool_idem r : cloneListedTool ToLower (cloneListedTool ToLower r) = cloneListedTool ToLower r.
Proof.
  unfold cloneListedTool. simpl. by rewrite !TrimSpace_idem, toolRef_idem, toolTarget_idem.
Qed.

Lemma map_idem {A} (f : A → A) l : (∀ x, f (f x) = f x) → map f (map f l) = map f l.
Proof. intros Hf. induction l as [|x l IH]; simpl; [done|]. by rewrite Hf, IH. Qed.

Lemma connections_idem l :
  cloneConnectionBindings (cloneConnectionBindings l) = cloneConnectionBindings l.
Proof.
  induction l as [|b l IH]; simpl; [done|]. case_bool_decide as Hb; [done|]. simpl.
  rewrite TrimSpace_idem, bool_decide_eq_false_2 by done. by rewrite IH.
Qed.

Lemma cloneScope_idem s :
  cloneScope ToLower (sessionOf (cloneScope ToLower s)) = sessionOf (cloneScope ToLower s).
Proof.
  unfold cloneScope, sessionOf, clonePermissions, cloneToolRefs, cloneListedTools. simpl.
  rewrite !TrimSpace_idem, connections_idem, !length_map.
  rewrite (map_idem (cloneToolRef ToLower)) by apply toolRef_idem.
  rewrite (map_idem (cloneListedTool ToLower)) by apply listedTool_idem.
  rewrite map_idem by (intros p; simpl; by rewrite TrimSpace_idem). f_equal.
  destruct (sc_ToolRefsSet s); simpl; [done|]. by destruct (bool_decide _).
Qed.

(** A session scope that was put is what its session shows, normalised and
    without a turn, until it is put again or deleted; other sessions do not change.
    A scope is refused exactly when its provider or session name is blank. *)
Theorem session_roundtrip st scope p s :
  clean_name p → clean_name s →
  (PutSession ToLower st scope = Err ErrSessionScopeRequired ↔
     TrimSpace (sc_ProviderName scope) = "" ∨ TrimSpace (sc_SessionID scope) = "") ∧
  (clean_name (TrimSpace (sc_ProviderName scope)) → clean_name (TrimSpace (sc_SessionID scope)) →
   ∃ st', PutSession ToLower st scope = Ok st' ∧
     GetSession ToLower st' p s =
       if decide (p = TrimSpace (sc_ProviderName scope) ∧ s = TrimSpace (sc_SessionID scope))
       then Some (sessionOf (cloneScope ToLower scope)) else GetSession ToLower st p s) ∧
  (∀ p' s', clean_name p' → clean_name s' →
     GetSession ToLower (DeleteSession st p' s') p s =
       if decide (p = p' ∧ s = s') then None else GetSession ToLower st p s).
Proof.
  intros Hp Hs.
  assert (Hne : ∀ p s, clean_name p → clean_name s → sessionScopeKey p s ≠ "").
  { intros p' s' Hp' Hs'. rewrite sessionScopeKey_clean by done. apply app_nonempty, Hp'. }
  assert (Hinj : ∀ p' s', clean_name p' → clean_name s' →
            sessionScopeKey p' s' = sessionScopeKey p s ↔ p = p' ∧ s = s').
  { intros p' s' Hp' Hs'. rewrite !sessionScopeKey_clean by done. split; [|by intros [-> ->]].
    intros [-> ->]%nul_inj; [done|apply Hp'|apply Hp]. }
  split_and!.
  - unfold PutSession, sessionScopeKey. cbn [cloneScope sc_ProviderName sc_SessionID].
    rewrite !TrimSpace_idem.
    destruct (decide (TrimSpace (sc_ProviderName scope) = "" ∨ TrimSpace (sc_SessionID scope) = ""))
      as [Hk|Hk].
    + by rewrite (bool_decide_eq_true_2 _ Hk).
    + rewrite (bool_decide_eq_false_2 _ Hk), bool_decide_eq_false_2 by (apply app_nonempty; tauto).
      by split.
  - intros Hp' Hs'. unfold PutSession. cbn [cloneScope sc_ProviderName sc_SessionID].
    rewrite bool_decide_eq_false_2 by by apply Hne. eexists. split; [done|].
    unfold GetSession. rewrite bool_decide_eq_false_2 by by apply Hne. cbn [set_sessions st_sessionScopes].
    case_decide as Hd.
    + rewrite (proj2 (Hinj _ _ Hp' Hs') Hd), lookup_insert_eq. simpl. by rewrite cloneScope_idem.
    + rewrite lookup_insert_ne; [done|]. by rewrite Hinj.
  - intros p' s' Hp' Hs'. unfold GetSession, DeleteSession.
    rewrite !bool_decide_eq_false_2 by by apply Hne. cbn [set_sessions st_sessionScopes].
    case_decide as Hd.
    + by rewrite (proj2 (Hinj _ _ Hp' Hs') Hd), lookup_delete_eq.
    + rewrite lookup_delete_ne; [done|]. by rewrite Hinj.
Qed.
End sessions.

(** ** Examples *)

Definition sample_binding : TurnBinding :=
  {| tb_CallerKind := "workflow"; tb_CallerName := "nightly"; tb_WorkflowRunID := "run";
     tb_WorkflowStepID := "step"; tb_ProviderTurnID := "" |}.
Definition sample_turn : turn := ("agent", "session", "turn").
Definition sample_alias : turn := ("agent", "session", "provider-turn").

Definition sample_store : Store :=
  match PutTurnBinding NewStore "agent" "session" "turn" sample_binding with
  | Ok st => st
  | Err _ => NewStore
  end.

Lemma clean_sample t :
  t = sample_turn ∨ t = sample_alias → clean t.
Proof.
  intros [-> | ->]; split_and!; try split_and!; cbn; try discriminate; try reflexivity;
    unfold nul_free; cbn; rewrite ?not_elem_of_cons; split_and!; try discriminate; apply not_elem_of_nil.
Qed.

Lemma turn_bindings_exact_witness :
  ∃ st', BindProviderTurnID sample_store "agent" "session" "turn" "provider-turn" = Ok st' ∧
    get st' sample_alias = Some (withProviderTurnID sample_binding "provider-turn") ∧
    get (DeleteTurnBinding sample_store "agent" "session" "turn") sample_turn = None.
Proof.
  assert (rtc (store_step id) NewStore sample_store) as Hst.
  { apply rtc_once. apply (do_put _ _ "agent" "session" "turn" sample_binding). reflexivity. }
  assert (Ht := clean_sample sample_turn (or_introl eq_refl)).
  assert (Ha := clean_sample sample_alias (or_intror eq_refl)).
  destruct (turn_bindings_exact id sample_store sample_turn sample_alias Hst Ht Ha) as (_ & Hb & _).
  destruct (turn_bindings_exact id sample_store sample_turn sample_turn Hst Ht Ht) as (_ & _ & Hd).
  destruct (Hb "provider-turn" Ha) as (st' & Hok & _ & Hget). exists st'. split; [exact Hok|].
  split; [by rewrite Hget, decide_True by by left|].
  assert (Hsh : shares sample_store sample_turn sample_turn) by (split; [by eexists|done]).
  rewrite (decide_True _ _ Hsh) in Hd. exact Hd.
Defined.

Definition sample_scope : Scope :=
  {| sc_ProviderName := " agent "; sc_SessionID := "session"; sc_TurnID := "turn";
     sc_CallerKind := "app"; sc_CallerName := ""; sc_WorkflowRunID := ""; sc_WorkflowStepID := "";
     sc_SubjectID := "user:1"; sc_Permissions := []; sc_ToolRefs := []; sc_ToolRefsSet := false;
     sc_ListedTools := []; sc_ToolSource := ""; sc_Connections := [] |}.

Lemma session_roundtrip_witness :
  ∃ st', PutSession id NewStore sample_scope = Ok st' ∧
    GetSession id st' "agent" "session" = Some (sessionOf (cloneScope id sample_scope)).
Proof.
  destruct (clean_sample sample_turn (or_introl eq_refl)) as (Hp & Hs & _).
  destruct (session_roundtrip id (λ _, eq_refl) (λ _ H, H) NewStore sample_scope "agent" "session" Hp Hs)
    as (_ & Hput & _).
  destruct (Hput Hp Hs) as (st' & Hok & Hget). exists st'. split; [exact Hok|].
  rewrite Hget. by rewrite decide_True.
Defined.
End TurnScope.
