(* ===== verification/Principals.v ===== *)
(** * Principals: who a caller is

    Models [gestaltd/services/identity/principal/principal.go] (identities; the
    permission sets are in [Permissions]), [authorization_subject.go],
    [credential_subject.go] and [resolver.go] of the same directory,
    [core/subjects.go] and [services/invocation/delegation.go].

    The user store and the identity provider are interfaces implemented elsewhere:
    one answer each, a parameter.  [uuid_Parse] is the third-party UUID parser
    followed by [String]; Unicode case folding is a parameter as in [Catalog]. *)

From stdpp Require Import base gmap strings list sorting sets.
From Stdlib Require Import ZArith Ascii Lia.
From S2P Require Import Prelude TurnScope.

Set Default Goal Selector "!".

Module Principals.
Import TurnScope.

Inductive Source := SourceUnknown | SourceBearer | SourceEnv | SourceBrowserSession.
#[export] Instance Source_eq_dec : EqDecision Source.
Proof. solve_decision. Defined.

Definition Kind := string.
Definition KindUser : Kind := "user".

Record UserIdentity := { id_Email : string; id_DisplayName : string; id_AvatarURL : string }.
Record User := { us_ID : string; us_Email : string; us_DisplayName : string }.

Record Principal := {
  pr_Identity : option UserIdentity;
  pr_UserID : string;
  pr_SubjectID : string;
  pr_DisplayName : string;
  pr_Kind : Kind;
  pr_Source : Source;
  pr_Scopes : list string;
  pr_ClientID : string;
  pr_Audience : list string }.

Definition zero_identity : UserIdentity :=
  {| id_Email := ""; id_DisplayName := ""; id_AvatarURL := "" |}.
Definition zero_principal : Principal :=
  {| pr_Identity := None; pr_UserID := ""; pr_SubjectID := ""; pr_DisplayName := "";
     pr_Kind := ""; pr_Source := SourceUnknown; pr_Scopes := []; pr_ClientID := "";
     pr_Audience := [] |}.

(** The fields [Canonicalize] assigns. *)
Definition with_identity (p : Principal) (ident : option UserIdentity) (userID subjectID : string)
    (kind : Kind) : Principal :=
  {| pr_Identity := ident; pr_UserID := userID; pr_SubjectID := subjectID;
     pr_DisplayName := pr_DisplayName p; pr_Kind := kind; pr_Source := pr_Source p;
     pr_Scopes := pr_Scopes p; pr_ClientID := pr_ClientID p; pr_Audience := pr_Audience p |}.

Definition with_kind (p : Principal) (kind : Kind) : Principal :=
  with_identity p (pr_Identity p) (pr_UserID p) (pr_SubjectID p) kind.

Definition with_scopes (p : Principal) (scopes : list string) : Principal :=
  {| pr_Identity := pr_Identity p; pr_UserID := pr_UserID p; pr_SubjectID := pr_SubjectID p;
     pr_DisplayName := pr_DisplayName p; pr_Kind := pr_Kind p; pr_Source := pr_Source p;
     pr_Scopes := scopes; pr_ClientID := pr_ClientID p; pr_Audience := pr_Audience p |}.

Definition Source_String (s : Source) : string :=
  match s with
  | SourceBearer => "bearer"
  | SourceEnv => "env"
  | SourceBrowserSession => "browserSession"
  | SourceUnknown => ""
  end.

Definition ParseSource (value : string) : Source :=
  let value := TrimSpace value in
  if contains [Source_String SourceBearer; "session"; "api_token"] value then SourceBearer
  else if decide (value = Source_String SourceEnv) then SourceEnv
  else if decide (value = Source_String SourceBrowserSession) then SourceBrowserSession
  else SourceUnknown.

Definition AuthSource (p : option Principal) : string :=
  match p with
  | None => ""
  | Some p =>
      if bool_decide (pr_Identity p = None ∧ pr_UserID p = "" ∧ pr_SubjectID p = "" ∧ pr_Kind p = "")
         && bool_decide (pr_Scopes p = [])
      then "" else Source_String (pr_Source p)
  end.

(** *** Subject identifiers *)

Definition colon : ascii := ":"%char.
Definition at_sign : ascii := "@"%char.

Definition ParseSubjectID (subjectID : string) : string * string * bool :=
  match Cut (TrimSpace subjectID) colon with
  | Some (kind, id) =>
      let kind := TrimSpace kind in let id := TrimSpace id in
      (kind, id, negb (bool_decide (kind = "")) && negb (bool_decide (id = "")))
  | None => (TrimSpace (TrimSpace subjectID), "", false)
  end.

Definition RunAsSubjectsEqual (l r : option RunAsSubject) : bool :=
  match NormalizeRunAsSubject l, NormalizeRunAsSubject r with
  | Some l, Some r => bool_decide (ra_SubjectID l = ra_SubjectID r)
  | None, None => true
  | _, _ => false
  end.
Definition RunAsSubjectsMatchIdentity := RunAsSubjectsEqual.

Definition UserSubjectID (userID : string) : string :=
  if decide (userID = "") then "" else KindUser +:+ ":" +:+ userID.

Definition UserIDFromSubjectID (subjectID : string) : string :=
  default "" (CutPrefix subjectID (KindUser +:+ ":")).

Definition KindFromSubjectID (subjectID : string) : Kind :=
  let '(kind, _, ok) := ParseSubjectID subjectID in if (ok : bool) then kind else "".

Definition IsSystemSubjectID (subjectID : string) : bool := HasPrefix (TrimSpace subjectID) "system:".
Definition IsSystemPrincipal (p : option Principal) : bool :=
  match p with Some p => IsSystemSubjectID (pr_SubjectID p) | None => false end.

(** *** Canonicalize: its three assignments in order *)

Definition or_else (s default : string) : string := if decide (s = "") then default else s.

Definition canonUser (p : Principal) : Principal :=
  if decide (pr_UserID p = "" ∧ pr_SubjectID p ≠ "") then
    let userID := UserIDFromSubjectID (pr_SubjectID p) in
    if decide (userID = "") then p
    else if has_byte userID at_sign then
      with_identity p
        (match pr_Identity p with
         | None => Some {| id_Email := userID; id_DisplayName := ""; id_AvatarURL := "" |}
         | Some i => Some i
         end)
        "" (pr_SubjectID p) (or_else (pr_Kind p) KindUser)
    else with_identity p (pr_Identity p) userID (pr_SubjectID p) (or_else (pr_Kind p) KindUser)
  else p.

Definition canonKind (p : Principal) : Principal :=
  with_kind p (or_else (pr_Kind p) (KindFromSubjectID (pr_SubjectID p))).

Definition canonSubject (p : Principal) : Principal :=
  if decide (pr_SubjectID p = "" ∧ pr_UserID p ≠ "") then
    with_identity p (pr_Identity p) (pr_UserID p) (UserSubjectID (pr_UserID p))
      (or_else (pr_Kind p) KindUser)
  else p.

Definition canonicalize (p : Principal) : Principal := canonSubject (canonKind (canonUser p)).
Definition Canonicalize (p : option Principal) : option Principal := canonicalize <$> p.
Definition Canonicalized (p : option Principal) : option Principal := Canonicalize p.

Definition IsNonUserPrincipal (p : option Principal) : bool :=
  match Canonicalized p with
  | Some p => negb (bool_decide (pr_Kind p = "")) && negb (bool_decide (pr_Kind p = KindUser))
  | None => false
  end.

(** *** Forms of user subjects *)

Inductive UserSubjectForm :=
  | UserSubjectFormEmpty | UserSubjectFormCanonical | UserSubjectFormEmail | UserSubjectFormOpaque.
#[export] Instance UserSubjectForm_eq_dec : EqDecision UserSubjectForm.
Proof. solve_decision. Defined.

(** The characters the email form excludes: space, tab, return, newline, and
    [| : / \ , ; < >] and the double quote. *)
Definition email_excluded : string :=
  String (ascii_of_N 32) (String (ascii_of_N 9) (String (ascii_of_N 13) (String (ascii_of_N 10)
    ("|:/\,;<>" +:+ String (ascii_of_N 34) "")))).

Definition isEmailForm (value : string) : bool :=
  if ContainsAny value email_excluded then false
  else match Cut value at_sign with
       | None => false
       | Some (user, domain) =>
           if bool_decide (user = "") || has_byte domain at_sign then false
           else if bool_decide (domain = "") || negb (has_byte domain ".") then false
           else negb (HasPrefix domain ".") && negb (ends_with domain ".")
       end.

Section subjects.
  Context (EqualFold : string → string → bool) (uuid_Parse : string → option string).
  Context {E : Type}.

Definition isCanonicalUserID (value : string) : bool :=
  if negb (String.length value =? 36) then false
  else match uuid_Parse value with
       | None => false
       | Some parsed => EqualFold parsed value
       end.

Definition ClassifyUserSubjectValue (value : string) : UserSubjectForm :=
  let value := TrimSpace value in
  if decide (value = "") then UserSubjectFormEmpty
  else if isCanonicalUserID value then UserSubjectFormCanonical
  else if isEmailForm value then UserSubjectFormEmail
  else UserSubjectFormOpaque.

Definition ClassifyUserSubjectID (subjectID : string) : UserSubjectForm :=
  let value := TrimSpace subjectID in
  if decide (value = "") then UserSubjectFormEmpty
  else if negb (bool_decide (UserIDFromSubjectID value = ""))
       then ClassifyUserSubjectValue (UserIDFromSubjectID value)
  else if has_byte value colon then UserSubjectFormOpaque
  else ClassifyUserSubjectValue value.

Inductive SubjectError :=
  | ErrCredentialSubjectRequired
  | ErrOpaqueCredentialSubject (subjectID : string)
  | ErrUserStore (e : E).

(** [CredentialUserResolver]: [FindOrCreateUser] of the configured user store. *)
Definition CredentialUserResolver := option (string → result E (option User)).

Definition authorizationSubjectEmail (p : Principal) (userID : string) : string :=
  let email := match pr_Identity p with Some i => TrimSpace (id_Email i) | None => "" end in
  if isEmailForm email then email
  else if isEmailForm userID then userID
  else let suffix := TrimSpace (UserIDFromSubjectID (TrimSpace (pr_SubjectID p))) in
       if isEmailForm suffix then suffix else "".

(** The principal's own subject, for both resolvers. *)
Definition nonUserSubject (p : Principal) : result SubjectError string :=
  let subjectID := TrimSpace (pr_SubjectID p) in
  if decide (subjectID = "") then Err ErrCredentialSubjectRequired else Ok subjectID.

Definition ResolveAuthorizationSubjectID (users : CredentialUserResolver) (p : option Principal)
    : result SubjectError string :=
  match Canonicalized p with
  | None => Err ErrCredentialSubjectRequired
  | Some p =>
      if IsNonUserPrincipal (Some p) then nonUserSubject p
      else
        let userID := TrimSpace (pr_UserID p) in
        if decide (ClassifyUserSubjectValue userID = UserSubjectFormCanonical)
        then Ok (UserSubjectID userID)
        else
          let email := authorizationSubjectEmail p userID in
          if decide (email = "") then Err (ErrOpaqueCredentialSubject (TrimSpace (pr_SubjectID p)))
          else match users with
               | None => Err ErrCredentialSubjectRequired
               | Some FindOrCreateUser =>
                   match FindOrCreateUser email with
                   | Err e => Err (ErrUserStore e)
                   | Ok None => Err ErrCredentialSubjectRequired
                   | Ok (Some dbUser) =>
                       if decide (TrimSpace (us_ID dbUser) = "") then Err ErrCredentialSubjectRequired
                       else Ok (UserSubjectID (TrimSpace (us_ID dbUser)))
                   end
               end
  end.

Definition ResolveCredentialSubjectID (users : CredentialUserResolver) (p : option Principal)
    : result SubjectError string :=
  match Canonicalized p with
  | None => Err ErrCredentialSubjectRequired
  | Some p =>
      if IsNonUserPrincipal (Some p) then nonUserSubject p
      else
        let userID := TrimSpace (pr_UserID p) in
        if decide (userID ≠ "" ∧ has_byte userID at_sign = false) then Ok (UserSubjectID userID)
        else
          let email := match pr_Identity p with Some i => TrimSpace (id_Email i) | None => "" end in
          let suffix := UserIDFromSubjectID (pr_SubjectID p) in
          let email := if decide (email = "" ∧ has_byte suffix at_sign = true) then suffix else email in
          if decide (email = "") then Err ErrCredentialSubjectRequired
          else match users with
               | None => Err ErrCredentialSubjectRequired
               | Some FindOrCreateUser =>
                   match FindOrCreateUser email with
                   | Err e => Err (ErrUserStore e)
                   | Ok None => Err ErrCredentialSubjectRequired
                   | Ok (Some dbUser) =>
                       if decide (TrimSpace (us_ID dbUser) = "") then Err ErrCredentialSubjectRequired
                       else Ok (UserSubjectID (us_ID dbUser))
                   end
               end
  end.
End subjects.
#[global] Arguments SubjectError : clear implicits.
#[global] Arguments CredentialUserResolver : clear implicits.

(** *** Delegation *)

Definition RunAsPrincipal (base : option Principal) (runAs : option RunAsSubject) : option Principal :=
  let base := Canonicalized base in
  match NormalizeRunAsSubject runAs with
  | None => base
  | Some runAs =>
      let base := default zero_principal base in
      let subjectID := TrimSpace (ra_SubjectID runAs) in
      let kind := KindFromSubjectID subjectID in
      let same := bool_decide (kind = KindUser) && bool_decide (subjectID = TrimSpace (pr_SubjectID base)) in
      Canonicalize (Some
        {| pr_Identity := if same then pr_Identity base else None;
           pr_UserID := if same then TrimSpace (pr_UserID base) else "";
           pr_SubjectID := subjectID;
           pr_DisplayName := if same then TrimSpace (pr_DisplayName base) else "";
           pr_Kind := kind; pr_Source := SourceUnknown;
           pr_Scopes := pr_Scopes base; pr_ClientID := TrimSpace (pr_ClientID base);
           pr_Audience := pr_Audience base |})
  end.

Definition AuditSubjectFromPrincipal (p : option Principal) : option RunAsSubject :=
  match Canonicalized p with
  | None => None
  | Some p => NormalizeRunAsSubject (Some {| ra_SubjectID := TrimSpace (pr_SubjectID p) |})
  end.

(** *** Resolving a token *)

Record IntrospectResponse := {
  ir_Active : bool; ir_Subject : string; ir_Scope : string; ir_ClientID : string;
  ir_Audience : list string }.
Record UserInfoResponse := { ui_SubjectID : string; ui_Email : string; ui_Name : string }.

Definition ParseScopeString (scope : string) : list string :=
  let scope := TrimSpace scope in
  if decide (scope = "") then [] else Fields scope.

Definition principalFromIntrospection (resp : option IntrospectResponse) : option Principal :=
  match resp with
  | None => None
  | Some resp =>
      if negb (ir_Active resp) then None else
      let subjectID := TrimSpace (ir_Subject resp) in
      let suffix := UserIDFromSubjectID subjectID in
      let '(ident, userID, kind) :=
        if decide (suffix = "") then (None, "", KindFromSubjectID subjectID)
        else if has_byte suffix at_sign then
          (Some {| id_Email := suffix; id_DisplayName := ""; id_AvatarURL := "" |}, "", KindUser)
        else (None, suffix, KindUser) in
      Canonicalize (Some
        {| pr_Identity := ident; pr_UserID := userID; pr_SubjectID := subjectID;
           pr_DisplayName := ""; pr_Kind := kind; pr_Source := SourceBearer;
           pr_Scopes := ParseScopeString (ir_Scope resp);
           pr_ClientID := TrimSpace (ir_ClientID resp); pr_Audience := ir_Audience resp |})
  end.

Definition ResolveEmail (email : string) : Principal :=
  {| pr_Identity := Some {| id_Email := email; id_DisplayName := ""; id_AvatarURL := "" |};
     pr_UserID := ""; pr_SubjectID := ""; pr_DisplayName := ""; pr_Kind := KindUser;
     pr_Source := SourceEnv; pr_Scopes := []; pr_ClientID := ""; pr_Audience := [] |}.

Section resolver.
  Context {E : Type}.

(** The identity provider: [Introspect] of a token and [UserInfo] for its bearer. *)
Record IdentityProvider := {
  Introspect : string → result E (option IntrospectResponse);
  UserInfo : string → result E (option UserInfoResponse) }.

Inductive TokenError := ErrInvalidToken | ErrIntrospect (e : E).

Definition applyUserInfo (p : Principal) (info : UserInfoResponse) : Principal :=
  let i := default zero_identity (pr_Identity p) in
  let email := TrimSpace (ui_Email info) in
  let name := TrimSpace (ui_Name info) in
  let i := if decide (email = "") then i
           else {| id_Email := email; id_DisplayName := id_DisplayName i; id_AvatarURL := id_AvatarURL i |} in
  let i := if decide (name = "") then i
           else {| id_Email := id_Email i; id_DisplayName := name; id_AvatarURL := id_AvatarURL i |} in
  let displayName := if decide (name = "") then pr_DisplayName p else name in
  let suffix := UserIDFromSubjectID (pr_SubjectID p) in
  let i := if decide (id_Email i = "" ∧ pr_UserID p = "" ∧ has_byte suffix at_sign = true)
           then {| id_Email := suffix; id_DisplayName := id_DisplayName i; id_AvatarURL := id_AvatarURL i |}
           else i in
  {| pr_Identity := Some i; pr_UserID := pr_UserID p; pr_SubjectID := pr_SubjectID p;
     pr_DisplayName := displayName; pr_Kind := pr_Kind p; pr_Source := pr_Source p;
     pr_Scopes := pr_Scopes p; pr_ClientID := pr_ClientID p; pr_Audience := pr_Audience p |}.

Definition enrichPrincipalWithUserInfo (auth : option IdentityProvider) (accessToken : string)
    (p : option Principal) : option Principal :=
  let p := Canonicalized p in
  let accessToken := TrimSpace accessToken in
  match auth, p with
  | Some auth, Some q =>
      if decide (accessToken = "" ∨ TrimSpace (pr_SubjectID q) = "") then p else
      match UserInfo auth accessToken with
      | Err _ | Ok None => p
      | Ok (Some info) =>
          let subjectID := TrimSpace (ui_SubjectID info) in
          if decide (subjectID ≠ "" ∧ subjectID ≠ TrimSpace (pr_SubjectID q)) then p
          else Canonicalize (Some (applyUserInfo q info))
      end
  | _, _ => p
  end.

Definition ResolveToken (auth : option IdentityProvider) (token : string)
    : result TokenError (option Principal) :=
  let token := TrimSpace token in
  fail_if bool_decide (token = "") with ErrInvalidToken ;;
  match auth with
  | None => Err ErrInvalidToken
  | Some provider =>
      match Introspect provider token with
      | Err e => Err (ErrIntrospect e)
      | Ok (Some resp) =>
          if ir_Active resp then
            let '(_, _, ok) := ParseSubjectID (TrimSpace (ir_Subject resp)) in
            if (ok : bool)
            then Ok (enrichPrincipalWithUserInfo auth token (principalFromIntrospection (Some resp)))
            else Err ErrInvalidToken
          else Err ErrInvalidToken
      | Ok None => Err ErrInvalidToken
      end
  end.
End resolver.
#[global] Arguments IdentityProvider : clear implicits.
#[global] Arguments TokenError : clear implicits.

(** *** Metrics *)

Definition UnknownAttrValue : string := "unknown".

Definition MetricAuthorizationSubject (ToLower : string → string) (p : option Principal)
    : string * string :=
  match Canonicalized p with
  | None => (UnknownAttrValue, UnknownAttrValue)
  | Some p =>
      let email := match pr_Identity p with Some i => ToLower (TrimSpace (id_Email i)) | None => "" end in
      let '(subjectKind, subjectID, ok) := ParseSubjectID (pr_SubjectID p) in
      if (ok : bool) then
        if decide (subjectKind = KindUser) then
          (subjectKind, if decide (email = "") then UnknownAttrValue else email)
        else (subjectKind, subjectID)
      else if decide (pr_Kind p = KindUser ∧ email ≠ "") then (KindUser, email)
      else (UnknownAttrValue, UnknownAttrValue)
  end.

(** ** Canonical principals *)

(** What [Canonicalize] establishes: a user ID has a subject, and a kind is missing
    only when no subject names one. *)
Record canonical (p : Principal) : Prop := {
  canon_subject : pr_UserID p ≠ "" → pr_SubjectID p ≠ "";
  canon_kind : pr_Kind p = "" → KindFromSubjectID (pr_SubjectID p) = "";
  canon_user : pr_UserID p = "" → UserIDFromSubjectID (pr_SubjectID p) ≠ "" →
    has_byte (UserIDFromSubjectID (pr_SubjectID p)) at_sign = true ∧ pr_Identity p ≠ None ∧ pr_Kind p ≠ "" }.

Lemma with_identity_same p :
  with_identity p (pr_Identity p) (pr_UserID p) (pr_SubjectID p) (pr_Kind p) = p.
Proof. by destruct p. Qed.

Lemma or_else_id s d : s ≠ "" ∨ d = s → or_else s d = s.
Proof. unfold or_else. intros [H| ->]; case_decide; done. Qed.

Lemma or_else_empty s d : or_else s d = "" ↔ s = "" ∧ d = "".
Proof. unfold or_else. case_decide; naive_solver. Qed.

Lemma UserIDFromSubjectID_UserSubjectID u : UserIDFromSubjectID (UserSubjectID u) = u.
Proof.
  unfold UserSubjectID, UserIDFromSubjectID. case_decide as Hu; [by subst|].
  rewrite string_app_assoc.
  by rewrite (proj2 (CutPrefix_spec _ _ u) eq_refl).
Qed.

Lemma UserSubjectID_empty u : UserSubjectID u = "" ↔ u = "".
Proof. unfold UserSubjectID. case_decide; [naive_solver|]. split; [done|]. by intros ->. Qed.

(** The kind a user subject gets from its first assignment. *)
Lemma canonUser_spec p :
  let q := canonUser p in
  (pr_UserID q = "" → UserIDFromSubjectID (pr_SubjectID q) ≠ "" →
   has_byte (UserIDFromSubjectID (pr_SubjectID q)) at_sign = true ∧ pr_Identity q ≠ None ∧ pr_Kind q ≠ "").
Proof.
  unfold canonUser. cbn zeta. case_decide as Hd.
  - destruct Hd as [Hid Hs]. case_decide as Hu; [naive_solver|].
    destruct (has_byte _ _) eqn:Hat; cbn; [|naive_solver].
    intros _ _. split_and!; [done| |].
    + by destruct (pr_Identity p).
    + rewrite or_else_empty. naive_solver.
  - intros Hq Hn. exfalso. apply Hd. split; [done|]. intros Hs. by rewrite Hs in Hn.
Qed.

Lemma canonicalize_canonical p : canonical (canonicalize p).
Proof.
  unfold canonicalize. pose proof (canonUser_spec p) as Hu. revert Hu.
  generalize (canonUser p) as q. intros q Hu. cbn zeta in Hu. unfold canonSubject.
  case_decide as Hd; cbn in *.
  - destruct Hd as [Hs Hid]. split; cbn.
    + intros _. by rewrite UserSubjectID_empty.
    + rewrite or_else_empty. by intros [_ ?].
    + done.
  - split; cbn.
    + intros Hid Hs. by apply Hd.
    + rewrite or_else_empty. by intros [_ ?].
    + intros Hid Hn. destruct (Hu Hid Hn) as (? & ? & ?). split_and!; [done..|].
      rewrite or_else_empty. naive_solver.
Qed.

Lemma canonical_fix p : canonical p → canonicalize p = p.
Proof.
  intros [Hs Hk Hu]. unfold canonicalize.
  assert (canonUser p = p) as ->.
  { unfold canonUser. case_decide as Hd; [|done]. case_decide as Hn; [done|].
    destruct Hd as [Hid _]. destruct (Hu Hid Hn) as (Hat & Hi & Hkind). rewrite Hat.
    rewrite or_else_id by auto. destruct p as [[i|]]; simpl in *; [by subst|done]. }
  assert (canonKind p = p) as ->.
  { unfold canonKind, with_kind. rewrite or_else_id; [apply with_identity_same|].
    destruct (decide (pr_Kind p = "")) as [He|]; [right|by left]. rewrite He. auto. }
  unfold canonSubject. case_decide as Hd; [|done]. destruct Hd as [H1 H2]. exfalso. by apply Hs.
Qed.

Lemma canonicalize_idem p : canonicalize (canonicalize p) = canonicalize p.
Proof. apply canonical_fix, canonicalize_canonical. Qed.

Lemma Canonicalized_idem p : Canonicalized (Canonicalized p) = Canonicalized p.
Proof. destruct p as [p|]; [|done]. cbn. by rewrite canonicalize_idem. Qed.

(** What [Canonicalize] never touches, and what it keeps when it is there. *)
Lemma canonicalize_fields p :
  pr_Scopes (canonicalize p) = pr_Scopes p ∧ pr_Source (canonicalize p) = pr_Source p
  ∧ pr_ClientID (canonicalize p) = pr_ClientID p ∧ pr_Audience (canonicalize p) = pr_Audience p
  ∧ pr_DisplayName (canonicalize p) = pr_DisplayName p.
Proof.
  unfold canonicalize, canonSubject, canonKind, canonUser.
  repeat (case_decide || destruct (has_byte _ _)); done.
Qed.

Lemma canonicalize_subject p :
  pr_SubjectID p ≠ "" → pr_SubjectID (canonicalize p) = pr_SubjectID p.
Proof.
  intros Hs. unfold canonicalize, canonSubject.
  assert (pr_SubjectID (canonKind (canonUser p)) = pr_SubjectID p) as Heq.
  { cbn. unfold canonUser. repeat (case_decide || destruct (has_byte _ _)); done. }
  rewrite Heq, decide_False; [done|]. naive_solver.
Qed.

Lemma canonicalize_kind p : pr_Kind p ≠ "" → pr_Kind (canonicalize p) = pr_Kind p.
Proof.
  intros Hk. assert (pr_Kind (canonUser p) = pr_Kind p) as Hu.
  { unfold canonUser. repeat (case_decide || destruct (has_byte _ _)); cbn; try done;
      by rewrite or_else_id by auto. }
  unfold canonicalize, canonSubject. case_decide; cbn; rewrite Hu, !or_else_id; try done; auto.
  left. by rewrite or_else_id by auto.
Qed.

(** ** Subjects that authorization may see *)

Lemma IsNonUser_canonical q :
  canonicalize q = q →
  IsNonUserPrincipal (Some q) = true ↔ pr_Kind q ≠ "" ∧ pr_Kind q ≠ KindUser.
Proof.
  intros Hq. unfold IsNonUserPrincipal. cbn. rewrite Hq.
  rewrite andb_true_iff, !negb_true_iff, !bool_decide_eq_false. done.
Qed.

Section subject_facts.
  Context (EqualFold : string → string → bool) (uuid_Parse : string → option string).
  Context {E : Type}.

Lemma Classify_canonical v :
  ClassifyUserSubjectValue EqualFold uuid_Parse v = UserSubjectFormCanonical
  ↔ isCanonicalUserID EqualFold uuid_Parse (TrimSpace v) = true.
Proof.
  unfold ClassifyUserSubjectValue. cbn zeta. case_decide as He.
  - rewrite He. done.
  - destruct (isCanonicalUserID _ _ _); [done|]. split; [|done]. by destruct (isEmailForm _).
Qed.

(** The e-mail addresses a principal may have, in order of preference. *)
Definition emails (q : Principal) : list string :=
  filter (λ e, isEmailForm e = true)
    [match pr_Identity q with Some i => TrimSpace (id_Email i) | None => "" end;
     TrimSpace (pr_UserID q);
     TrimSpace (UserIDFromSubjectID (TrimSpace (pr_SubjectID q)))].

Lemma authorizationSubjectEmail_emails q :
  authorizationSubjectEmail q (TrimSpace (pr_UserID q)) = default "" (head (emails q)).
Proof.
  unfold authorizationSubjectEmail, emails. cbn zeta. rewrite !filter_cons, filter_nil.
  do 3 (match goal with |- (if ?b then _ else _) = _ => destruct b eqn:? end;
        [by rewrite decide_True|rewrite decide_False by congruence]). done.
Qed.

Lemma emails_nonempty q email : head (emails q) = Some email → email ≠ "".
Proof.
  intros H%head_Some_elem_of ->. unfold emails in H. apply list_elem_of_filter in H as [H _]. done.
Qed.

(** C34. Whom authorization is asked about.  The resolution succeeds exactly in three cases,
    on the caller put into canonical form.  A caller of a kind other than user is asked
    about under its own subject, whatever that looks like.  A user is asked about under its
    user id when that is a canonical UUID; otherwise under the user that the store finds or
    creates for the first of its well-formed e-mail addresses.  So a user with a
    provider-opaque id is never asked about under that id here, but is refused or asked about
    as the user of its address.  (Invocations are authorized under the credential subject
    instead, see [opaque_subject_is_asked_about] in InvocationAuth.v.) *)
Theorem authorization_subject_of_caller (users : CredentialUserResolver E) p s :
  ResolveAuthorizationSubjectID EqualFold uuid_Parse users p = Ok s ↔
  ∃ q, Canonicalized p = Some q ∧ s ≠ "" ∧
    ((pr_Kind q ≠ "" ∧ pr_Kind q ≠ KindUser ∧ s = TrimSpace (pr_SubjectID q))
     ∨ ((pr_Kind q = "" ∨ pr_Kind q = KindUser) ∧
        ((isCanonicalUserID EqualFold uuid_Parse (TrimSpace (pr_UserID q)) = true
          ∧ s = KindUser +:+ ":" +:+ TrimSpace (pr_UserID q))
         ∨ (isCanonicalUserID EqualFold uuid_Parse (TrimSpace (pr_UserID q)) = false
            ∧ ∃ find email db, users = Some find ∧ head (emails q) = Some email
                ∧ find email = Ok (Some db) ∧ TrimSpace (us_ID db) ≠ ""
                ∧ s = KindUser +:+ ":" +:+ TrimSpace (us_ID db))))).
Proof.
  unfold ResolveAuthorizationSubjectID.
  destruct (Canonicalized p) as [q|] eqn:Hq; [|split; [done|by intros (? & ? & _)]].
  assert (canonicalize q = q) as Hc.
  { destruct p as [p|]; [|done]. cbn in Hq. injection Hq as <-. apply canonicalize_idem. }
  pose proof (IsNonUser_canonical q Hc) as Hn.
  assert (Hex : ∀ P : Principal → Prop, (∃ q', Some q = Some q' ∧ P q') ↔ P q) by naive_solver.
  rewrite Hex. clear Hex.
  destruct (IsNonUserPrincipal (Some q)) eqn:Hk.
  { apply proj1 in Hn. specialize (Hn eq_refl). unfold nonUserSubject. cbn zeta.
    case_decide as He; [split; [done|]|split; [intros [= <-]; tauto|]].
    - intros (Hs & [(_ & _ & ->)|(Hu & _)]); tauto.
    - intros (_ & [(_ & _ & ->)|(Hu & _)]); [done|tauto]. }
  assert (Huser : pr_Kind q = "" ∨ pr_Kind q = KindUser).
  { destruct (decide (pr_Kind q = "")), (decide (pr_Kind q = KindUser)); try tauto.
    by discriminate (proj2 Hn (conj n n0)). }
  cbn zeta. case_decide as Hcl; rewrite Classify_canonical, TrimSpace_idem in Hcl.
  { assert (TrimSpace (pr_UserID q) ≠ "") as Hne by (intros He; by rewrite He in Hcl).
    unfold UserSubjectID. rewrite decide_False by done. split.
    - intros [= <-]. split; [done|]. right. split; [done|]. by left.
    - intros (_ & [(? & ? & _)|(_ & [(_ & ->)|(? & _)])]); [tauto|done|congruence]. }
  apply not_true_iff_false in Hcl. rewrite authorizationSubjectEmail_emails.
  split.
  - intros H. destruct (head (emails q)) as [email|] eqn:He; [|done]. cbn in H.
    case_decide; [done|]. destruct users as [find|]; [|done].
    destruct (find email) as [[db|]|e] eqn:Hf; [|done|done]. case_decide as Hd; [done|].
    injection H as <-. unfold UserSubjectID. rewrite decide_False by done.
    split; [done|]. right. split; [done|]. right. split; [done|]. by exists find, email, db.
  - intros (_ & [(? & ? & _)|(_ & [(? & _)|(_ & find & email & db & -> & He & Hf & Hd & ->)])]);
      [tauto|congruence|].
    rewrite He. cbn. rewrite decide_False by by eapply emails_nonempty. rewrite Hf, decide_False by done.
    unfold UserSubjectID. by rewrite decide_False.
Qed.
End subject_facts.

(** ** Tokens *)

Lemma UserIDFromSubjectID_prefix s :
  UserIDFromSubjectID s ≠ "" → s = KindUser +:+ ":" +:+ UserIDFromSubjectID s.
Proof.
  unfold UserIDFromSubjectID. destruct (CutPrefix _ _) as [r|] eqn:Hc; [|done].
  apply CutPrefix_spec in Hc. cbn. intros _. rewrite Hc. by rewrite string_app_assoc.
Qed.

(** The kind a subject names in front of its first colon. *)
Lemma KindFromSubjectID_user s :
  TrimSpace s = s → UserIDFromSubjectID s ≠ "" →
  KindFromSubjectID s = if decide (TrimSpace (UserIDFromSubjectID s) = "") then "" else KindUser.
Proof.
  intros Ht Hu. pose proof (UserIDFromSubjectID_prefix s Hu) as Hs.
  unfold KindFromSubjectID, ParseSubjectID. rewrite Ht. rewrite Hs at 1.
  change (KindUser +:+ ":" +:+ UserIDFromSubjectID s)
    with (KindUser +:+ String colon (UserIDFromSubjectID s)).
  rewrite (Cut_app KindUser (UserIDFromSubjectID s) colon) by done.
  assert (TrimSpace KindUser = KindUser) as Hk by (by vm_compute). rewrite Hk.
  rewrite (bool_decide_false (KindUser = "")) by done. cbn.
  case_decide as Hd; [by rewrite Hd|]. by rewrite bool_decide_false.
Qed.

Lemma KindFromSubjectID_ok s :
  (ParseSubjectID s).2 = true → KindFromSubjectID s ≠ "".
Proof.
  unfold KindFromSubjectID, ParseSubjectID. destruct (Cut _ _) as [[k i]|]; [|done]. cbn.
  intros H. rewrite H. apply andb_true_iff in H as [H _]. by apply negb_true_iff, bool_decide_eq_false in H.
Qed.

Section tokens.
  Context {E : Type}.

(** Reading the profile of a caller changes nothing but the display data. *)
Lemma enrich_keeps (auth : option (IdentityProvider E)) token p q :
  canonicalize p = p →
  enrichPrincipalWithUserInfo auth token (Some p) = Some q →
  pr_SubjectID q = pr_SubjectID p ∧ pr_Kind q = pr_Kind p ∧ pr_UserID q = pr_UserID p
  ∧ pr_Source q = pr_Source p ∧ pr_Scopes q = pr_Scopes p ∧ pr_ClientID q = pr_ClientID p
  ∧ pr_Audience q = pr_Audience p.
Proof.
  intros Hc. unfold enrichPrincipalWithUserInfo. cbn. rewrite Hc.
  destruct auth as [auth|]; [|naive_solver]. case_decide; [naive_solver|].
  destruct (UserInfo auth _) as [[info|]|e]; [|naive_solver..]. case_decide; [naive_solver|].
  cbn. intros [= <-]. rewrite canonical_fix; [done|].
  pose proof (canonicalize_canonical p) as Hp. rewrite Hc in Hp. destruct Hp as [H1 H2 H3].
  split; cbn; [done|done|]. intros Hid Hn. destruct (H3 Hid Hn) as (? & _ & ?). done.
Qed.

(** C40. The principal of a token is the subject the identity provider introspected, with
    its kind and scopes, from an active answer: the profile lookup adds display data and
    can neither change who the caller is nor make a browser session of a bearer token. *)
Theorem ResolveToken_subject (auth : option (IdentityProvider E)) token op :
  ResolveToken auth token = Ok op →
  ∃ provider resp q,
    auth = Some provider ∧ Introspect provider (TrimSpace token) = Ok (Some resp) ∧ ir_Active resp = true
    ∧ op = Some q ∧ canonical q
    ∧ pr_SubjectID q = TrimSpace (ir_Subject resp)
    ∧ pr_Kind q = KindFromSubjectID (ir_Subject resp) ∧ pr_Kind q ≠ ""
    ∧ pr_Scopes q = ParseScopeString (ir_Scope resp) ∧ pr_Source q = SourceBearer.
Proof.
  unfold ResolveToken. cbn zeta. case_if; [done|].
  destruct auth as [provider|]; [|done].
  destruct (Introspect provider _) as [[resp|]|e] eqn:Hi; [|done..].
  destruct (ir_Active resp) eqn:Ha; [|done].
  destruct (ParseSubjectID (TrimSpace (ir_Subject resp))) as [[k i] [|]] eqn:Hp; [|done].
  intros Hop.
  assert (op = enrichPrincipalWithUserInfo (Some provider) (TrimSpace token)
                 (principalFromIntrospection (Some resp))) as -> by congruence.
  clear Hop. exists provider, resp.
  set (subject := TrimSpace (ir_Subject resp)) in *.
  assert (TrimSpace subject = subject) as Ht by apply TrimSpace_idem.
  assert (KindFromSubjectID subject ≠ "") as Hk by (apply KindFromSubjectID_ok; by rewrite Hp).
  assert (KindFromSubjectID (ir_Subject resp) = KindFromSubjectID subject) as Hks.
  { unfold KindFromSubjectID, ParseSubjectID. by rewrite Ht. }
  assert (subject ≠ "") as Hs by (by intros H; rewrite H in Hk).
  destruct (principalFromIntrospection (Some resp)) as [p|] eqn:Hpi; cycle 1.
  { unfold principalFromIntrospection in Hpi. rewrite Ha in Hpi. cbn [negb] in Hpi.
    revert Hpi. cbn. repeat (case_decide || destruct (has_byte _ _)); done. }
  assert (canonicalize p = p ∧ pr_SubjectID p = subject ∧ pr_Kind p = KindFromSubjectID subject
          ∧ pr_Scopes p = ParseScopeString (ir_Scope resp) ∧ pr_Source p = SourceBearer)
    as (Hc & Hps & Hpk & Hpc & Hpb).
  { unfold principalFromIntrospection in Hpi. rewrite Ha in Hpi. cbn [negb] in Hpi.
    fold subject in Hpi.
    assert (∀ ident uid kd, kd = KindFromSubjectID subject → 
      Canonicalize (Some {| pr_Identity := ident; pr_UserID := uid; pr_SubjectID := subject;
         pr_DisplayName := ""; pr_Kind := kd; pr_Source := SourceBearer;
         pr_Scopes := ParseScopeString (ir_Scope resp); pr_ClientID := TrimSpace (ir_ClientID resp);
         pr_Audience := ir_Audience resp |}) = Some p →
      canonicalize p = p ∧ pr_SubjectID p = subject ∧ pr_Kind p = KindFromSubjectID subject
          ∧ pr_Scopes p = ParseScopeString (ir_Scope resp) ∧ pr_Source p = SourceBearer) as Hgen.
    { intros ident uid kd -> [= <-]. split; [apply canonicalize_idem|].
      rewrite canonicalize_subject, canonicalize_kind by done.
      match goal with |- context [canonicalize ?x] => destruct (canonicalize_fields x) as (-> & -> & _) end.
      done. }
    case_decide as Hd; [by apply (Hgen None "" _ eq_refl)|].
    pose proof (KindFromSubjectID_user subject Ht Hd) as Hu.
    rewrite decide_False in Hu by (intros Hb; by rewrite decide_True in Hu).
    destruct (has_byte _ _); (eapply Hgen; [symmetry; exact Hu|exact Hpi]). }
  destruct (enrichPrincipalWithUserInfo (Some provider) (TrimSpace token) (Some p)) as [q|] eqn:He; cycle 1.
  { exfalso. revert He. unfold enrichPrincipalWithUserInfo. cbn. repeat case_match; done. }
  exists q. pose proof (enrich_keeps _ _ _ _ Hc He) as (Hqs & Hqk & _ & Hqb & Hqc & _).
  rewrite Hqs, Hqk, Hqc, Hqb, Hps, Hpk, Hpc, Hpb, Hks. split_and!; try done.
  revert He. unfold enrichPrincipalWithUserInfo. cbn. rewrite Hc.
  assert (canonical p) as Hcp by (rewrite <- Hc; apply canonicalize_canonical).
  repeat case_match; cbn; intros [= <-]; auto using canonicalize_canonical.
Qed.
End tokens.

(** ** Delegation *)

(** The only identity canonicalisation makes up is the e-mail of the subject. *)
Lemma canonicalize_new_identity v i :
  pr_Identity v = None → pr_Identity (canonicalize v) = Some i →
  pr_SubjectID (canonicalize v) = pr_SubjectID v
  ∧ id_Email i = UserIDFromSubjectID (pr_SubjectID (canonicalize v)) ∧ id_DisplayName i = "".
Proof.
  intros Hv. assert (pr_Identity (canonicalize v) = pr_Identity (canonUser v)) as ->.
  { unfold canonicalize, canonSubject. by case_decide. }
  unfold canonUser. case_decide as Hd; [|congruence]. case_decide as Hn; [congruence|].
  destruct (has_byte _ _); cbn; rewrite Hv; [|done]. intros [= <-]. cbn.
  rewrite canonicalize_subject by tauto. done.
Qed.

(** Running as another subject keeps exactly the scopes of the caller, loses the
    browser session, and carries over no display name or profile of the caller. *)
Theorem RunAsPrincipal_narrow base r :
  ∃ q, RunAsPrincipal base (Some r) = Some q
    ∧ pr_Scopes q = default [] (pr_Scopes <$> base)
    ∧ pr_Source q = SourceUnknown
    ∧ (TrimSpace (ra_SubjectID r) ≠ "" → pr_SubjectID q = TrimSpace (ra_SubjectID r))
    ∧ (∀ b, Canonicalized base = Some b → TrimSpace (pr_SubjectID b) ≠ TrimSpace (ra_SubjectID r) →
       pr_DisplayName q = "" ∧ (∀ i, pr_Identity q = Some i →
           id_Email i = UserIDFromSubjectID (pr_SubjectID q) ∧ id_DisplayName i = "")).
Proof.
  unfold RunAsPrincipal. cbn [NormalizeRunAsSubject ra_SubjectID]. rewrite TrimSpace_idem.
  set (s := TrimSpace (ra_SubjectID r)). set (same := bool_decide _ && bool_decide _).
  eexists. split; [cbn; reflexivity|].
  match goal with |- context [canonicalize ?x] => set (v := x) end.
  destruct (canonicalize_fields v) as (-> & -> & _ & _ & ->). split_and!; cbn.
  - destruct base as [b|]; [|done]. cbn. by destruct (canonicalize_fields b) as (-> & _).
  - done.
  - intros Hs. by rewrite canonicalize_subject.
  - intros b Hb Hne. assert (same = false) as Hsame.
    { subst same. rewrite Hb. rewrite andb_false_iff. right. apply bool_decide_eq_false. cbn. congruence. }
    subst v. rewrite Hsame. split; [done|]. clear Hsame same.
    intros i Hi. apply canonicalize_new_identity in Hi; [|done]. by destruct Hi as (_ & -> & ->).
Qed.

(** ** Witnesses *)

Definition sample_uuid : string := "0b6f1d9e-3c1a-4a77-9f0e-52f4f1f6a001".
Definition subject_principal (subjectID : string) : Principal :=
  with_identity zero_principal None "" subjectID "".

(** An opaque user is refused, or asked about as the user of its address; a user with a
    UUID under that. *)
Lemma authorization_subject_of_caller_witness :
  let opaque := subject_principal "user:auth0|abc" in
  let mailed := with_identity opaque (Some {| id_Email := "ada@example.com"; id_DisplayName := ""; id_AvatarURL := "" |})
                  "" "user:auth0|abc" "" in
  let find (email : string) : result unit (option User) :=
    if decide (email = "ada@example.com") then Ok (Some {| us_ID := sample_uuid; us_Email := email; us_DisplayName := "" |}) else Ok None in
  let resolve := ResolveAuthorizationSubjectID String.eqb (λ s, Some s) (E := unit) (Some find) in
  resolve (Some opaque) = Err (ErrOpaqueCredentialSubject "user:auth0|abc")
  ∧ resolve (Some (subject_principal ("user:" +:+ sample_uuid))) = Ok ("user:" +:+ sample_uuid)
  ∧ resolve (Some mailed) = Ok ("user:" +:+ sample_uuid).
Proof.
  intros opaque mailed find resolve. split; [by vm_compute|]. split; [by vm_compute|].
  apply (authorization_subject_of_caller String.eqb (λ s, Some s) (Some find) (Some mailed)).
  eexists. split; [reflexivity|]. split; [done|]. right. split; [right; by vm_compute|]. right.
  split; [by vm_compute|]. exists find, "ada@example.com", {| us_ID := sample_uuid; us_Email := "ada@example.com"; us_DisplayName := "" |}. by split_and!.
Defined.

Definition sample_provider : IdentityProvider unit :=
  {| Introspect token := Ok (Some
       {| ir_Active := true; ir_Subject := "user:person@example.com "; ir_Scope := "openid slack";
          ir_ClientID := "cli"; ir_Audience := [] |});
     UserInfo token := Ok (Some
       {| ui_SubjectID := ""; ui_Email := "other@example.com"; ui_Name := "Person" |}) |}.

Lemma ResolveToken_subject_witness :
  ∃ q, ResolveToken (Some sample_provider) " token" = Ok (Some q)
    ∧ pr_SubjectID q = "user:person@example.com" ∧ pr_Scopes q = ["openid"; "slack"].
Proof.
  destruct (ResolveToken (Some sample_provider) " token") as [op|e] eqn:H; [|by vm_compute in H].
  destruct (ResolveToken_subject (Some sample_provider) " token" op H)
    as (provider & resp & q & Hp & Hi & _ & -> & _ & Hs & _ & _ & Hsc & _).
  exists q. injection Hp as <-. cbn in Hi. injection Hi as <-. rewrite Hs, Hsc.
  split_and!; [done|by vm_compute..].
Defined.

End Principals.
