(* ===== verification/Permissions.v ===== *)
(** * Permissions: what a token lets its bearer reach

    Models the permission sets and scopes of
    [gestaltd/services/identity/principal/principal.go], the subject context that
    carries them to a provider ([services/appaccess/request_context.go]) and the
    permissions of an agent turn ([services/agents/agentmanager/manager.go] and
    [agent_app_authority.go]).

    A [PermissionSet] is a Go map whose values are maps: [None] is the nil set, and an
    app bound to [None] is bound to the nil map, which stands for every operation. *)

From stdpp Require Import base gmap strings list sorting sets.
From Stdlib Require Import ZArith Ascii Lia.
From S2P Require Import Prelude TurnScope Principals.

Set Default Goal Selector "!".

Module Permissions.
Import TurnScope Principals.

Abbreviation ops_set := (option (gset string)).
Definition PermissionSet := option (gmap string ops_set).

(** The meaning the rest of the daemon gives a set: nil is unrestricted. *)
Definition permitsIn (ops : ops_set) (op : string) : bool :=
  match ops with None => true | Some ops => bool_decide (op ∈ ops) end.
Definition permits (set : PermissionSet) (app op : string) : bool :=
  match set with
  | None => true
  | Some m => match m !! app with None => false | Some ops => permitsIn ops op end
  end.

Definition clonePermissionOps (src : ops_set) : ops_set :=
  match src with None => None | Some src => Some src end.

Definition ClonePermissionSet (src : PermissionSet) : PermissionSet :=
  match src with None => None | Some src => Some (clonePermissionOps <$> src) end.

(** The inner loop of [CompilePermissions]: names of operations, trimmed, blanks dropped. *)
Fixpoint addOperations (ops : gset string) (names : list string) : gset string :=
  match names with
  | [] => ops
  | op :: names =>
      let op := TrimSpace op in
      if decide (op = "") then addOperations ops names else addOperations ({[op]} ∪ ops) names
  end.

Definition compileStep (set : gmap string ops_set) (perm : AccessPermission) : gmap string ops_set :=
  let appName := TrimSpace (ap_App perm) in
  if decide (appName = "") then set
  else if decide (ap_Operations perm = []) then <[appName := None]> set
  else match set !! appName with
       | Some None => set
       | Some (Some ops) => <[appName := Some (addOperations ops (ap_Operations perm))]> set
       | None => <[appName := Some (addOperations ∅ (ap_Operations perm))]> set
       end.

Definition CompilePermissions (perms : list AccessPermission) : PermissionSet :=
  if decide (perms = []) then None else Some (foldl compileStep ∅ perms).

Definition PermissionsFromScopeString (scopes : string) : PermissionSet :=
  if decide (TrimSpace scopes = "") then None
  else CompilePermissions
         (omap (λ scope, let scope := TrimSpace scope in
                  if decide (scope = "") then None
                  else Some {| ap_App := scope; ap_Operations := [] |}) (Fields scopes)).

(** One app of both sets; [None] drops it. *)
Definition intersectOps (a b : ops_set) : option ops_set :=
  match a, b with
  | None, None => Some None
  | None, Some b => Some (clonePermissionOps (Some b))
  | Some a, None => Some (clonePermissionOps (Some a))
  | Some a, Some b => let ops := a ∩ b in if decide (ops = ∅) then None else Some (Some ops)
  end.

Definition IntersectPermissions (a b : PermissionSet) : PermissionSet :=
  match a, b with
  | Some a, Some b =>
      Some (merge (λ aOps bOps, match aOps, bOps with
                                | Some aOps, Some bOps => intersectOps aOps bOps
                                | _, _ => None
                                end) a b)
  | _, _ => None
  end.

Definition PermissionApps (set : PermissionSet) : list string :=
  match set with
  | None => []
  | Some m => SortStrings (map_to_list m).*1
  end.

Definition operationNames (ops : ops_set) : list string :=
  match ops with None => [] | Some ops => SortStrings (elements ops) end.

Definition PermissionsToAccessPermissions (set : PermissionSet) : list AccessPermission :=
  match set with
  | None => []
  | Some m =>
      map (λ appName, {| ap_App := appName;
                         ap_Operations := operationNames (default None (m !! appName)) |})
          (PermissionApps set)
  end.

Definition ScopeStringsFromPermissionSet (set : PermissionSet) : list string :=
  match set with
  | None => []
  | Some m =>
      flat_map (λ appName,
        match operationNames (default None (m !! appName)) with
        | [] => [appName]
        | opNames => map (λ op, appName +:+ ":" +:+ op) opNames
        end) (PermissionApps set)
  end.

Section with_lower.
  Context (ToLower : string → string).

Definition isIdentityScope (scope : string) : bool :=
  contains ["openid"; "email"; "profile"; "offline_access"] (ToLower (TrimSpace scope)).

Definition appPermissionScopes (scopes : list string) : list string :=
  filter (λ scope, ¬ contains [""; "openid"; "email"; "profile"; "offline_access"]
                       (ToLower (TrimSpace scope)) = true) scopes.

Definition AllowsProviderPermission (p : option Principal) (provider : string) : bool :=
  match p with
  | None => false
  | Some p =>
      if decide (provider = "") then false else
      let scopes := appPermissionScopes (pr_Scopes p) in
      bool_decide (scopes = [])
      || existsb (λ scope, bool_decide (scope = provider) || HasPrefix scope (provider +:+ ":")) scopes
  end.

Definition AllowsOperationPermission (p : option Principal) (provider operation : string) : bool :=
  match p with
  | None => false
  | Some p =>
      if decide (provider = "" ∨ operation = "") then false else
      let scopes := appPermissionScopes (pr_Scopes p) in
      bool_decide (scopes = [])
      || existsb (λ scope, bool_decide (scope = provider)
                           || bool_decide (scope = provider +:+ ":" +:+ operation)) scopes
  end.

(** One scope of [PermissionSetFromScopes].  The guard meant to keep an app-wide scope
    asks for a map that is nil and not nil at once, so it never holds. *)
Definition scopeStep (set : gmap string ops_set) (scope : string) : gmap string ops_set :=
  let scope := TrimSpace scope in
  if bool_decide (scope = "") || isIdentityScope scope then set
  else match Cut scope colon with
       | Some (app, op) =>
           if decide (op = "") then <[scope := None]> set
           else
             let ops := default None (set !! app) in
             if bool_decide (ops = None) && negb (bool_decide (default None (set !! app) = None)) then set
             else <[app := Some ({[op]} ∪ default ∅ ops)]> set
       | None => <[scope := None]> set
       end.

Definition PermissionSetFromScopes (scopes : list string) : PermissionSet :=
  if decide (scopes = []) then None else Some (foldl scopeStep ∅ scopes).

Definition EffectivePermissions (p : option Principal) : PermissionSet :=
  match p with None => None | Some p => PermissionSetFromScopes (pr_Scopes p) end.

(** *** The subject context of a provider request *)

Record SubjectPermissionContext := {
  sp_App : string; sp_Operations : list string; sp_AllOperations : bool }.
Record SubjectContext := {
  sx_Id : string; sx_Email : string; sx_DisplayName : string; sx_Scopes : list string;
  sx_Permissions : list (option SubjectPermissionContext) }.

Definition permissionSetToSubjectPermissionContext (set : PermissionSet)
    : list (option SubjectPermissionContext) :=
  omap (λ perm,
    let app := TrimSpace (ap_App perm) in
    if decide (app = "") then None
    else Some (Some (if decide (ap_Operations perm = [])
                     then {| sp_App := app; sp_Operations := []; sp_AllOperations := true |}
                     else {| sp_App := app; sp_Operations := ap_Operations perm; sp_AllOperations := false |})))
    (PermissionsToAccessPermissions set).

Definition subjectPermissionContextToPermissionSet (values : list (option SubjectPermissionContext))
    : PermissionSet :=
  if decide (values = []) then None
  else CompilePermissions (omap (λ value,
         match value with
         | None => None
         | Some value =>
             let app := TrimSpace (sp_App value) in
             if decide (app = "") then None
             else Some {| ap_App := app;
                          ap_Operations := if sp_AllOperations value then [] else sp_Operations value |}
         end) values).

Definition mergeSubjectScopes (subject : option SubjectContext) : list string :=
  match subject with
  | None => []
  | Some subject =>
      if negb (bool_decide (sx_Scopes subject = [])) then sx_Scopes subject
      else ScopeStringsFromPermissionSet (subjectPermissionContextToPermissionSet (sx_Permissions subject))
  end.

Definition subjectEmail (p : option Principal) : string :=
  match p ≫= pr_Identity with Some i => TrimSpace (id_Email i) | None => "" end.

Definition subjectDisplayName (p : option Principal) : string :=
  match p with
  | None => ""
  | Some p =>
      let displayName := TrimSpace (pr_DisplayName p) in
      if negb (bool_decide (displayName = "")) then displayName
      else match pr_Identity p with Some i => TrimSpace (id_DisplayName i) | None => "" end
  end.

Definition SubjectContextFromPrincipal (p : option Principal) : option SubjectContext :=
  match Canonicalized p with
  | None => None
  | Some p => Some
      {| sx_Id := pr_SubjectID p; sx_Email := subjectEmail (Some p);
         sx_DisplayName := subjectDisplayName (Some p); sx_Scopes := pr_Scopes p;
         sx_Permissions := permissionSetToSubjectPermissionContext (EffectivePermissions (Some p)) |}
  end.

Definition PrincipalFromSubjectContext (subject : option SubjectContext) : option Principal :=
  match subject with
  | None => None
  | Some s =>
      let subjectID := TrimSpace (sx_Id s) in
      let p := canonicalize
        {| pr_Identity := None; pr_UserID := UserIDFromSubjectID subjectID; pr_SubjectID := subjectID;
           pr_DisplayName := TrimSpace (sx_DisplayName s); pr_Kind := KindFromSubjectID subjectID;
           pr_Source := SourceUnknown; pr_Scopes := mergeSubjectScopes (Some s); pr_ClientID := "";
           pr_Audience := [] |} in
      let displayName := TrimSpace (sx_DisplayName s) in
      let email := TrimSpace (sx_Email s) in
      let p := if decide (pr_Kind p = KindUser ∧ (displayName ≠ "" ∨ email ≠ "")) then
                 with_identity p (Some {| id_Email := email; id_DisplayName := displayName; id_AvatarURL := "" |})
                   (pr_UserID p) (pr_SubjectID p) (pr_Kind p)
               else p in
      if decide (pr_UserID p = "" ∧ pr_SubjectID p = "" ∧ pr_Kind p = "" ∧ pr_Identity p = None
                 ∧ pr_Source p = SourceUnknown)
      then Some zero_principal else Some p
  end.

(** *** The permissions of an agent turn *)

Definition agentToolSearchAllApp : string := "*".

(** The state of the loop over the tool references: operations by app, and the apps
    wanted as a whole; [None] when a reference is not exact. *)
Fixpoint compactRefs (refs : list ToolRef) (operationsByApp : gmap string (gset string))
    (providerWide : gset string) : option (gmap string (gset string) * gset string) :=
  match refs with
  | [] => Some (operationsByApp, providerWide)
  | ref :: refs =>
      if negb (bool_decide (TrimSpace (tr_System ref) = "")) then compactRefs refs operationsByApp providerWide
      else
        let app := TrimSpace (tr_App ref) in
        if bool_decide (app = "") || bool_decide (app = agentToolSearchAllApp) || has_byte app "*" then None
        else
          let operation := TrimSpace (tr_Operation ref) in
          if has_byte operation "*" then None
          else if decide (operation = "") then
            compactRefs refs (delete app operationsByApp) ({[app]} ∪ providerWide)
          else if decide (app ∈ providerWide) then compactRefs refs operationsByApp providerWide
          else compactRefs refs
                 (<[app := {[operation]} ∪ default ∅ (operationsByApp !! app)]> operationsByApp) providerWide
  end.

(** The permissions of the sorted apps; an app wanted as a whole is cut down to the
    operations the token names, and a token that does not name it ends the loop. *)
Fixpoint compactApps (perms : PermissionSet) (operationsByApp : gmap string (gset string))
    (providerWide : gset string) (apps : list string) : option (list AccessPermission) :=
  match apps with
  | [] => Some []
  | app :: apps =>
      let perm :=
        if decide (app ∈ providerWide) then
          match perms with
          | None => Some {| ap_App := app; ap_Operations := [] |}
          | Some m => match m !! app with
                      | None => None
                      | Some tokenOps => Some {| ap_App := app; ap_Operations := operationNames tokenOps |}
                      end
          end
        else Some {| ap_App := app; ap_Operations := operationNames (operationsByApp !! app) |} in
      match perm with
      | None => None
      | Some perm => match compactApps perms operationsByApp providerWide apps with
                     | None => None
                     | Some out => Some (perm :: out)
                     end
      end
  end.

Definition compactAgentRunPermissionsForRefs (p : option Principal) (refs : list ToolRef)
    : option (list AccessPermission) :=
  if decide (refs = []) then None
  else match compactRefs refs ∅ ∅ with
       | None => None
       | Some (operationsByApp, providerWide) =>
           if decide (providerWide = ∅ ∧ operationsByApp = ∅) then None
           else compactApps (EffectivePermissions p) operationsByApp providerWide
                  (SortStrings (elements providerWide
                     ++ filter (λ app, app ∉ providerWide) (map_to_list operationsByApp).*1))
       end.

Definition InvocationSurface := string.
Definition InvocationSurfaceHTTP : InvocationSurface := "http".
Definition InvocationSurfaceMCP : InvocationSurface := "mcp".
Definition ProviderKind := string.
Definition ProviderKindApp : ProviderKind := "app".
Definition ProviderKindWorkflow : ProviderKind := "workflow".
Definition ProviderKindAgent : ProviderKind := "agent".

(** [surface] is the invocation surface of the request context. *)
Definition shouldUseResolvedUserToolScope (surface : InvocationSurface) (p : option Principal)
    (callerKind : ProviderKind) (callerName : string) (refs : list ToolRef) : bool :=
  if negb (bool_decide (callerKind = ProviderKindApp)) || bool_decide (TrimSpace callerName = "") then false
  else if negb (bool_decide (surface = InvocationSurfaceHTTP)) then false
  else match p with
       | None => false
       | Some q =>
           if negb (bool_decide (pr_Kind q = KindUser)) || bool_decide (pr_Scopes q = []) then false
           else match EffectivePermissions p with
                | None => false
                | Some perms =>
                    match perms !! callerName with
                    | None => false
                    | Some _ =>
                        existsb (λ ref, bool_decide (TrimSpace (tr_App ref) = agentToolSearchAllApp)
                                        && bool_decide (TrimSpace (tr_Operation ref) = "")) refs
                    end
                end
       end.

Definition agentTurnPermissions (surface : InvocationSurface) (p : option Principal)
    (callerKind : ProviderKind) (callerName : string) (refs : list ToolRef) : list AccessPermission :=
  match Canonicalized p with
  | None => []
  | Some p =>
      match compactAgentRunPermissionsForRefs (Some p) refs with
      | Some permissions => permissions
      | None =>
          if shouldUseResolvedUserToolScope surface (Some p) callerKind callerName refs then []
          else PermissionsToAccessPermissions (EffectivePermissions (Some p))
      end
  end.
End with_lower.

Definition agentScopePrincipal (scope : Scope) : option Principal :=
  let compiled := CompilePermissions (sc_Permissions scope) in
  let subjectID := TrimSpace (sc_SubjectID scope) in
  Canonicalize (Some
    {| pr_Identity := None; pr_UserID := ""; pr_SubjectID := subjectID; pr_DisplayName := "";
       pr_Kind := KindFromSubjectID subjectID; pr_Source := SourceUnknown;
       pr_Scopes := ScopeStringsFromPermissionSet compiled; pr_ClientID := ""; pr_Audience := [] |}).

(** ** Meaning of a compiled set *)

(** Some permission of the list grants the operation. *)
Definition grants1 (perm : AccessPermission) (app op : string) : Prop :=
  app ≠ "" ∧ TrimSpace (ap_App perm) = app
  ∧ (ap_Operations perm = [] ∨ op ≠ "" ∧ op ∈ map TrimSpace (ap_Operations perm)).
Definition grants (perms : list AccessPermission) (app op : string) : Prop :=
  ∃ perm, perm ∈ perms ∧ grants1 perm app op.

Lemma permits_Some m app op :
  permits (Some m) app op = true ↔ ∃ o, m !! app = Some o ∧ permitsIn o op = true.
Proof. cbn. destruct (m !! app); naive_solver. Qed.

Lemma permits_insert m a o app op :
  permits (Some (<[a := o]> m)) app op =
  if decide (app = a) then permitsIn o op else permits (Some m) app op.
Proof.
  cbn. case_decide as H; [subst; by rewrite lookup_insert_eq|by rewrite lookup_insert_ne].
Qed.

Lemma addOperations_spec s names op :
  op ∈ addOperations s names ↔ op ∈ s ∨ (op ≠ "" ∧ op ∈ map TrimSpace names).
Proof.
  revert s. induction names as [|n names IH]; intros s; simpl; [set_solver|].
  case_decide as Hn; rewrite IH; set_solver.
Qed.

Lemma compileStep_permits m perm app op :
  permits (Some (compileStep m perm)) app op = true ↔
  permits (Some m) app op = true ∨ grants1 perm app op.
Proof.
  unfold compileStep, grants1. cbn zeta. set (a := TrimSpace (ap_App perm)).
  case_decide as Ha; [naive_solver|]. case_decide as Ho.
  { rewrite permits_insert. case_decide; naive_solver. }
  assert (∀ s, permitsIn (Some (addOperations s (ap_Operations perm))) op = true
               ↔ op ∈ s ∨ op ≠ "" ∧ op ∈ map TrimSpace (ap_Operations perm)) as Hadd.
  { intros s. cbn. by rewrite bool_decide_eq_true, addOperations_spec. }
  destruct (m !! a) as [o|] eqn:Hm; [destruct o as [ops|]|].
  - rewrite permits_insert. case_decide as He; [|naive_solver]. subst app.
    rewrite Hadd. unfold permits. rewrite Hm. cbn [permitsIn]. rewrite bool_decide_eq_true. naive_solver.
  - split; [auto|]. intros [?|(_ & Heq & _)]; [done|]. subst app. unfold permits. fold a. by rewrite Hm.
  - rewrite permits_insert. case_decide as He; [|naive_solver]. subst app.
    rewrite Hadd. unfold permits. rewrite Hm. assert (op ∉ (∅ : gset string)) by set_solver. naive_solver.
Qed.

Lemma compile_fold m perms app op :
  permits (Some (foldl compileStep m perms)) app op = true ↔
  permits (Some m) app op = true ∨ grants perms app op.
Proof.
  unfold grants. revert m. induction perms as [|perm perms IH]; intros m; cbn [foldl].
  - set_solver.
  - rewrite IH, compileStep_permits. set_solver.
Qed.

(** [CompilePermissions] grants exactly what some permission of the list grants,
    whatever their order; only an empty list of permissions is unrestricted. *)
Theorem CompilePermissions_permits perms app op :
  permits (CompilePermissions perms) app op = true ↔ perms = [] ∨ grants perms app op.
Proof.
  unfold CompilePermissions. case_decide as Hp; [naive_solver|].
  rewrite compile_fold. cbn. naive_solver.
Qed.

Lemma IntersectPermissions_permits a b app op :
  permits (IntersectPermissions (Some a) (Some b)) app op =
  permits (Some a) app op && permits (Some b) app op.
Proof.
  cbn [IntersectPermissions permits]. rewrite lookup_merge.
  destruct (a !! app) as [[x|]|], (b !! app) as [[y|]|]; cbn; rewrite ?andb_true_r, ?andb_false_r; try done.
  case_decide as He; cbn; apply eq_true_iff_eq; rewrite ?andb_true_iff, ?bool_decide_eq_true; set_solver.
Qed.

(** ** Names of apps and operations *)

Lemma elem_of_PermissionApps m app : app ∈ PermissionApps (Some m) ↔ is_Some (m !! app).
Proof.
  unfold PermissionApps. rewrite elem_of_SortStrings, list_elem_of_fmap. split.
  - intros ([k v] & -> & H). apply elem_of_map_to_list in H. by exists v.
  - intros [v H]. exists (app, v). by rewrite elem_of_map_to_list.
Qed.

Lemma NoDup_PermissionApps m : NoDup (PermissionApps (Some m)).
Proof.
  unfold PermissionApps. rewrite SortStrings_perm. apply NoDup_fst_map_to_list.
Qed.

Lemma elem_of_operationNames ops op : op ∈ operationNames (Some ops) ↔ op ∈ ops.
Proof. unfold operationNames. by rewrite elem_of_SortStrings, elem_of_elements. Qed.

Lemma operationNames_nil o : operationNames o = [] ↔ o = None ∨ o = Some ∅.
Proof.
  destruct o as [ops|]; cbn; [|naive_solver]. split.
  - intros H. right. f_equal. apply leibniz_equiv, set_equiv. intros op.
    change (operationNames (Some ops) = []) in H. rewrite <- elem_of_operationNames, H. set_solver.
  - intros [|[= ->]]; [done|]. by vm_compute.
Qed.

Definition scopes_of (app : string) (o : ops_set) : list string :=
  match operationNames o with
  | [] => [app]
  | names => map (λ op, app +:+ ":" +:+ op) names
  end.

Lemma elem_of_ScopeStrings m s :
  s ∈ ScopeStringsFromPermissionSet (Some m) ↔ ∃ app o, m !! app = Some o ∧ s ∈ scopes_of app o.
Proof.
  unfold ScopeStringsFromPermissionSet. rewrite list_elem_of_In, in_flat_map.
  setoid_rewrite <- list_elem_of_In. setoid_rewrite elem_of_PermissionApps. split.
  - intros (app & [o Ho] & H). exists app, o. split; [done|]. by rewrite Ho in H.
  - intros (app & o & Ho & H). exists app. split; [by exists o|]. by rewrite Ho.
Qed.

Lemma elem_of_scopes_of app o s :
  s ∈ scopes_of app o ↔
  (operationNames o = [] ∧ s = app) ∨ ∃ op, op ∈ operationNames o ∧ s = app +:+ ":" +:+ op.
Proof.
  unfold scopes_of. destruct (operationNames o) as [|n names]; [set_solver|].
  rewrite list_elem_of_fmap. set_solver.
Qed.

Lemma colon_scope_inj a b c d :
  has_byte a colon = false → has_byte c colon = false →
  a +:+ ":" +:+ b = c +:+ ":" +:+ d → a = c ∧ b = d.
Proof.
  intros Ha Hc Heq. pose proof (Cut_app a b colon Ha) as H1. pose proof (Cut_app c d colon Hc) as H2.
  change (a +:+ String colon b = c +:+ String colon d) in Heq. rewrite Heq in H1. naive_solver.
Qed.

Lemma has_byte_colon a b : has_byte (a +:+ ":" +:+ b) colon = true.
Proof.
  induction a as [|x a IH]; [done|]. rewrite string_cons_app. cbn.
  by rewrite IH, orb_true_r.
Qed.

Lemma ScopeStrings_nil m : ScopeStringsFromPermissionSet (Some m) = [] → m = ∅.
Proof.
  intros H. apply map_empty. intros app. destruct (m !! app) as [o|] eqn:Hm; [|done]. exfalso.
  assert (∃ s, s ∈ scopes_of app o) as [s Hs].
  { unfold scopes_of. destruct (operationNames o); eexists; simpl; by left. }
  assert (s ∈ ScopeStringsFromPermissionSet (Some m)) as Hin by (apply elem_of_ScopeStrings; eauto).
  rewrite H in Hin. set_solver.
Qed.

Section scopes.
  Context (ToLower : string → string).

(** A scope that names an app rather than an aspect of the user. *)
Definition isAppScope (s : string) : bool :=
  negb (contains [""; "openid"; "email"; "profile"; "offline_access"] (ToLower (TrimSpace s))).

(** Sets that scope strings can express: names without the separator, no app with an
    empty set of operations, and scopes that are not identity scopes. *)
Record clean (m : gmap string ops_set) : Prop := {
  clean_app app o : m !! app = Some o → app ≠ "" ∧ has_byte app colon = false ∧ o ≠ Some ∅;
  clean_op app ops op : m !! app = Some (Some ops) → op ∈ ops → op ≠ "";
  clean_scope s : s ∈ ScopeStringsFromPermissionSet (Some m) → TrimSpace s = s ∧ isAppScope s = true }.

Lemma appPermissionScopes_all scopes :
  (∀ s, s ∈ scopes → isAppScope s = true) → appPermissionScopes ToLower scopes = scopes.
Proof.
  unfold appPermissionScopes. induction scopes as [|s scopes IH]; intros H; [done|].
  rewrite filter_cons_True, IH; [done| |].
  - intros x Hx. apply H. by right.
  - specialize (H s ltac:(by left)). unfold isAppScope in H. apply negb_true_iff in H. by rewrite H.
Qed.

(** The scope strings written for a permission set admit exactly the operations of
    the set: minting a token from a set and checking the token agree. *)
Theorem ScopeStrings_admit_exactly m p app op :
  clean m → m ≠ ∅ → pr_Scopes p = ScopeStringsFromPermissionSet (Some m) →
  app ≠ "" → op ≠ "" → has_byte app colon = false →
  AllowsOperationPermission ToLower (Some p) app op = permits (Some m) app op.
Proof.
  intros Hm Hne Hp Ha Ho Hac. cbn [AllowsOperationPermission]. rewrite decide_False by naive_solver.
  rewrite Hp, appPermissionScopes_all by apply Hm. cbn zeta.
  rewrite bool_decide_false by (intros H; by apply Hne, ScopeStrings_nil).
  cbn [orb]. apply eq_true_iff_eq. rewrite existsb_exists. setoid_rewrite orb_true_iff.
  setoid_rewrite bool_decide_eq_true. setoid_rewrite <- list_elem_of_In.
  setoid_rewrite elem_of_ScopeStrings. rewrite permits_Some. split.
  - intros (s & (a & o & Hao & Hs) & Hcase). apply elem_of_scopes_of in Hs.
    destruct (clean_app _ Hm _ _ Hao) as (Hne0 & Hc & Hemp).
    destruct Hs as [[Hnil ->]|(x & Hx & ->)], Hcase as [Heq|Heq].
    + subst a. exists o. split; [done|]. apply operationNames_nil in Hnil as [->| ->]; done.
    + subst a. by rewrite has_byte_colon in Hc.
    + subst app. by rewrite has_byte_colon in Hac.
    + apply colon_scope_inj in Heq as [-> ->]; [|done..]. exists o. split; [done|].
      destruct o as [ops|]; [|done]. apply elem_of_operationNames in Hx.
      by apply bool_decide_eq_true.
  - intros (o & Hao & Hperm). destruct o as [ops|].
    + apply bool_decide_eq_true in Hperm. exists (app +:+ ":" +:+ op). split; [|by right].
      exists app, (Some ops). split; [done|]. apply elem_of_scopes_of. right.
      exists op. by rewrite elem_of_operationNames.
    + exists app. split; [|by left]. exists app, None. split; [done|].
      apply elem_of_scopes_of. by left.
Qed.

(** *** Reading scope strings back *)

Lemma scopeStep_op acc app op :
  has_byte app colon = false → op ≠ "" →
  TrimSpace (app +:+ ":" +:+ op) = app +:+ ":" +:+ op → isAppScope (app +:+ ":" +:+ op) = true →
  scopeStep ToLower acc (app +:+ ":" +:+ op) =
    <[app := Some ({[op]} ∪ default ∅ (default None (acc !! app)))]> acc.
Proof.
  intros Hc Ho Ht Hs. unfold scopeStep. cbn zeta. rewrite Ht.
  unfold isAppScope in Hs. apply negb_true_iff in Hs. rewrite Ht in Hs. apply contains_false in Hs.
  unfold isIdentityScope. rewrite Ht.
  rewrite bool_decide_false by (intros He; by rewrite He in Ht; destruct app).
  rewrite (proj2 (contains_false _ _)) by set_solver. cbn [orb].
  change (app +:+ ":" +:+ op) with (app +:+ String colon op). rewrite Cut_app by done.
  rewrite decide_False by done. destruct (acc !! app) as [[ops|]|]; done.
Qed.

Lemma scopeStep_app acc app :
  has_byte app colon = false → app ≠ "" → TrimSpace app = app → isAppScope app = true →
  scopeStep ToLower acc app = <[app := None]> acc.
Proof.
  intros Hc Ha Ht Hs. unfold scopeStep. cbn zeta. rewrite Ht.
  unfold isAppScope in Hs. apply negb_true_iff in Hs. rewrite Ht in Hs. apply contains_false in Hs.
  unfold isIdentityScope. rewrite Ht. rewrite bool_decide_false by done.
  rewrite (proj2 (contains_false _ _)) by set_solver. cbn [orb]. by rewrite Cut_None.
Qed.

Lemma scopeStep_names acc app names :
  has_byte app colon = false → names ≠ [] →
  (∀ op, op ∈ names → op ≠ "" ∧ TrimSpace (app +:+ ":" +:+ op) = app +:+ ":" +:+ op
                      ∧ isAppScope (app +:+ ":" +:+ op) = true) →
  foldl (scopeStep ToLower) acc (map (λ op, app +:+ ":" +:+ op) names) =
    <[app := Some (list_to_set names ∪ default ∅ (default None (acc !! app)))]> acc.
Proof.
  intros Hc. revert acc. induction names as [|op names IH]; intros acc Hne Hok; [done|].
  cbn [map foldl]. destruct (Hok op) as (Ho & Ht & Hs); [by left|]. rewrite scopeStep_op by done.
  destruct names as [|n names].
  - cbn. f_equal. f_equal. set_solver.
  - rewrite IH; [|done|intros o Hin; apply Hok; by right].
    rewrite lookup_insert_eq, insert_insert_eq. cbn [default]. f_equal. f_equal. set_solver.
Qed.

Lemma fold_apps (m acc : gmap string ops_set) apps k :
  foldl (λ acc app, <[app := default None (m !! app)]> acc) acc apps !! k =
    if decide (k ∈ apps) then Some (default None (m !! k)) else acc !! k.
Proof.
  revert acc. induction apps as [|a apps IH]; intros acc; cbn; [done|].
  rewrite IH. destruct (decide (k = a)) as [->|Hne].
  - rewrite lookup_insert_eq. repeat case_decide; set_solver.
  - rewrite lookup_insert_ne by done. repeat case_decide; set_solver.
Qed.

(** Scope strings read back as the permission set they were written for. *)
Theorem ScopeStrings_roundtrip m :
  clean m → m ≠ ∅ →
  PermissionSetFromScopes ToLower (ScopeStringsFromPermissionSet (Some m)) = Some m.
Proof.
  intros Hm Hne. unfold PermissionSetFromScopes.
  rewrite decide_False by (intros H; by apply Hne, ScopeStrings_nil). f_equal.
  pose proof (clean_scope _ Hm) as Hs. setoid_rewrite elem_of_ScopeStrings in Hs.
  assert (∀ acc apps, NoDup apps → (∀ a, a ∈ apps → is_Some (m !! a) ∧ acc !! a = None) →
    foldl (scopeStep ToLower) acc (flat_map (λ app, scopes_of app (default None (m !! app))) apps)
    = foldl (λ acc app, <[app := default None (m !! app)]> acc) acc apps) as Hfold.
  { intros acc apps. revert acc. induction apps as [|a apps IH]; intros acc Hnd Hin; [done|].
    apply NoDup_cons in Hnd as [Hnot Hnd]. cbn [flat_map foldl]. rewrite foldl_app.
    destruct (Hin a) as [[o Ho] Hacc]; [by left|].
    assert (foldl (scopeStep ToLower) acc (scopes_of a (default None (m !! a)))
            = <[a := default None (m !! a)]> acc) as ->.
    { destruct (clean_app _ Hm _ _ Ho) as (Hne0 & Hc & Hemp). rewrite Ho. change (default None (Some o)) with o.
      assert (∀ s, s ∈ scopes_of a o → TrimSpace s = s ∧ isAppScope s = true) as Hsc by eauto.
      unfold scopes_of in *. destruct (operationNames o) as [|n names] eqn:Hn.
      - pose proof (proj1 (operationNames_nil o) Hn) as [->|]; [|done]. cbn [foldl].
        destruct (Hsc a) as [Ht Has]; [by left|]. rewrite scopeStep_app; try done.
      - destruct o as [ops|]; [|done]. rewrite scopeStep_names; [|done..|].
        + rewrite Hacc. f_equal. f_equal. rewrite <- Hn. unfold operationNames.
          apply leibniz_equiv. intros x. rewrite elem_of_union, elem_of_list_to_set, elem_of_SortStrings.
          set_solver.
        + intros op Hop. split.
          * eapply (clean_op _ Hm); [done|]. apply elem_of_operationNames. by rewrite Hn.
          * apply Hsc. apply list_elem_of_fmap. eauto. }
    apply IH; [done|]. intros b Hb. destruct (Hin b) as [? Hb0]; [by right|]. split; [done|].
    rewrite lookup_insert_ne; [done|]. intros ->. done. }
  change (ScopeStringsFromPermissionSet (Some m))
    with (flat_map (λ app, scopes_of app (default None (m !! app))) (PermissionApps (Some m))).
  rewrite Hfold.
  - apply map_eq. intros k. rewrite fold_apps, lookup_empty.
    case_decide as Hk; rewrite elem_of_PermissionApps in Hk.
    + by destruct Hk as [o ->].
    + destruct (m !! k); [|done]. exfalso. eauto.
  - apply NoDup_PermissionApps.
  - intros a Ha. by apply elem_of_PermissionApps in Ha.
Qed.
End scopes.

(** ** Tool references of an agent turn *)

Definition names_app (ref : ToolRef) (app : string) : Prop :=
  TrimSpace (tr_System ref) = "" ∧ TrimSpace (tr_App ref) = app.
Definition wants_app (refs : list ToolRef) (app : string) : Prop :=
  ∃ ref, ref ∈ refs ∧ names_app ref app ∧ TrimSpace (tr_Operation ref) = "".
Definition wants_op (refs : list ToolRef) (app op : string) : Prop :=
  ∃ ref, ref ∈ refs ∧ names_app ref app ∧ TrimSpace (tr_Operation ref) = op ∧ op ≠ "".

(** The loop's state against the references it has read. *)
Record refs_state (refs : list ToolRef) (ob : gmap string (gset string)) (pw : gset string) : Prop := {
  rs_wide app : app ∈ pw ↔ wants_app refs app;
  rs_ops app op : app ∉ pw → (∃ ops, ob !! app = Some ops ∧ op ∈ ops) ↔ wants_op refs app op;
  rs_apart app : app ∈ pw → ob !! app = None;
  rs_nonempty app ops : ob !! app = Some ops → ops ≠ ∅;
  rs_trimmed app : app ∈ pw ∨ is_Some (ob !! app) → app ≠ "" ∧ TrimSpace app = app }.

Lemma wants_app_snoc refs ref app :
  wants_app (refs ++ [ref]) app ↔
  wants_app refs app ∨ (names_app ref app ∧ TrimSpace (tr_Operation ref) = "").
Proof.
  unfold wants_app. split.
  - intros (r & [Hr|Hr]%elem_of_app & H); [left; eauto|right].
    apply list_elem_of_singleton in Hr as ->. done.
  - intros [(r & Hr & H)|H]; [exists r|exists ref]; rewrite elem_of_app, list_elem_of_singleton; auto.
Qed.

Lemma wants_op_snoc refs ref app op :
  wants_op (refs ++ [ref]) app op ↔
  wants_op refs app op ∨ (names_app ref app ∧ TrimSpace (tr_Operation ref) = op ∧ op ≠ "").
Proof.
  unfold wants_op. split.
  - intros (r & [Hr|Hr]%elem_of_app & H); [left; eauto|right].
    apply list_elem_of_singleton in Hr as ->. done.
  - intros [(r & Hr & H)|H]; [exists r|exists ref]; rewrite elem_of_app, list_elem_of_singleton; auto.
Qed.

Lemma refs_state_system refs ref ob pw :
  TrimSpace (tr_System ref) ≠ "" → refs_state refs ob pw → refs_state (refs ++ [ref]) ob pw.
Proof.
  intros Hs [H1 H2 H3 H4 H5]. split; try done.
  - intros app. rewrite wants_app_snoc, H1. unfold names_app. naive_solver.
  - intros app op Hn. rewrite wants_op_snoc, <- H2 by done. unfold names_app. naive_solver.
Qed.

Lemma refs_state_wide refs ref ob pw app :
  app ≠ "" → names_app ref app → TrimSpace (tr_Operation ref) = "" → refs_state refs ob pw →
  refs_state (refs ++ [ref]) (delete app ob) ({[app]} ∪ pw).
Proof.
  intros Ha Hn Ho [H1 H2 H3 H4 H5]. pose proof Hn as [_ Happ]. split.
  - intros a. rewrite wants_app_snoc, <- H1. destruct Hn as [Hs Ht].
    rewrite elem_of_union, elem_of_singleton. unfold names_app. naive_solver.
  - intros a op Hnot. rewrite wants_op_snoc, <- H2 by set_solver.
    rewrite lookup_delete_ne by set_solver. naive_solver.
  - intros a Hin. destruct (decide (a = app)) as [->|]; [apply lookup_delete_eq|].
    rewrite lookup_delete_ne by done. apply H3. set_solver.
  - intros a ops. rewrite lookup_delete_Some. naive_solver.
  - intros a Hin. destruct (decide (a = app)) as [->|Hne].
    + split; [done|]. rewrite <- Happ. apply TrimSpace_idem.
    + apply H5. rewrite lookup_delete_ne in Hin by done. set_solver.
Qed.

Lemma refs_state_skip refs ref ob pw app :
  names_app ref app → TrimSpace (tr_Operation ref) ≠ "" → app ∈ pw → refs_state refs ob pw →
  refs_state (refs ++ [ref]) ob pw.
Proof.
  intros Hn Ho Hin [H1 H2 H3 H4 H5]. destruct Hn as [Hs Ht]. split; try done.
  - intros a. rewrite wants_app_snoc, H1. naive_solver.
  - intros a op Hnot. rewrite wants_op_snoc, <- H2 by done. unfold names_app. naive_solver.
Qed.

Lemma refs_state_op refs ref ob pw app :
  app ≠ "" → names_app ref app → TrimSpace (tr_Operation ref) ≠ "" → app ∉ pw → refs_state refs ob pw →
  refs_state (refs ++ [ref]) (<[app := {[TrimSpace (tr_Operation ref)]} ∪ default ∅ (ob !! app)]> ob) pw.
Proof.
  intros Ha Hn Ho Hnot [H1 H2 H3 H4 H5]. destruct Hn as [Hs Ht]. split.
  - intros a. rewrite wants_app_snoc, H1. naive_solver.
  - intros a op Hna. rewrite wants_op_snoc, <- H2 by done. unfold names_app.
    destruct (decide (a = app)) as [->|Hne].
    + rewrite lookup_insert_eq.
      assert (∀ X : gset string, (∃ ops, Some X = Some ops ∧ op ∈ ops) ↔ op ∈ X) as -> by naive_solver.
      rewrite elem_of_union, elem_of_singleton. destruct (ob !! app) as [ops|]; cbn;
        [|assert (op ∉ (∅ : gset string)) by set_solver]; naive_solver.
    + rewrite lookup_insert_ne by done. naive_solver.
  - intros a Hin. rewrite lookup_insert_ne by set_solver. auto.
  - intros a ops. rewrite lookup_insert_Some. intros [[-> <-]|[_ ?]]; [set_solver|eauto].
  - intros a Hin. destruct (decide (a = app)) as [->|Hne].
    + split; [done|]. rewrite <- Ht. apply TrimSpace_idem.
    + apply H5. rewrite lookup_insert_ne in Hin by done. done.
Qed.

Lemma compactRefs_state done todo ob pw ob' pw' :
  refs_state done ob pw → compactRefs todo ob pw = Some (ob', pw') → refs_state (done ++ todo) ob' pw'.
Proof.
  revert done ob pw. induction todo as [|ref todo IH]; intros done ob pw Hst; cbn [compactRefs].
  { intros [= <- <-]. by rewrite app_nil_r. }
  rewrite cons_middle, app_assoc. case_if.
  { intros Hrec. bool_props. eapply IH; [|done]. by apply refs_state_system. }
  bool_props. cbn zeta. case_if; [done|]. bool_props.
  case_if; [done|]. assert (names_app ref (TrimSpace (tr_App ref))) as Hn by done.
  case_decide as Ho.
  { intros Hrec. eapply IH; [|done]. by apply refs_state_wide. }
  case_decide as Hin; intros Hrec; (eapply IH; [|done]).
  - by eapply refs_state_skip.
  - by apply refs_state_op.
Qed.

Lemma refs_state_start : refs_state [] ∅ ∅.
Proof.
  split; unfold wants_app, wants_op; try setoid_rewrite lookup_empty; set_solver.
Qed.

(** The permission the loop over the apps makes of one app. *)
Definition compacted (perms : PermissionSet) (ob : gmap string (gset string)) (pw : gset string)
    (app : string) (perm : AccessPermission) : Prop :=
  ap_App perm = app ∧
  if decide (app ∈ pw) then
    match perms with
    | None => ap_Operations perm = []
    | Some m => ∃ ops, m !! app = Some ops ∧ ap_Operations perm = operationNames ops
    end
  else ap_Operations perm = operationNames (ob !! app).

Lemma compactApps_spec perms ob pw apps out :
  compactApps perms ob pw apps = Some out →
  (∀ perm, perm ∈ out → ∃ app, app ∈ apps ∧ compacted perms ob pw app perm)
  ∧ (∀ app, app ∈ apps → ∃ perm, perm ∈ out ∧ compacted perms ob pw app perm).
Proof.
  revert out. induction apps as [|app apps IH]; intros out; cbn [compactApps].
  { intros [= <-]. set_solver. }
  cbn zeta. destruct (if decide (app ∈ pw) then _ else _) as [perm|] eqn:Hperm; [|done].
  assert (compacted perms ob pw app perm) as Hc.
  { unfold compacted. case_decide; [|by injection Hperm as <-].
    destruct perms as [m|]; [|by injection Hperm as <-].
    destruct (m !! app) as [ops|] eqn:Hm; [|done]. injection Hperm as <-. eauto. }
  destruct (compactApps perms ob pw apps) as [out'|]; [|done]. intros [= <-].
  destruct (IH out' eq_refl) as [H1 H2]. split.
  - intros q Hq. apply elem_of_cons in Hq as [->|Hq]; [eexists; split; [by left|done]|].
    destruct (H1 q Hq) as (a & ? & ?). exists a. split; [by right|done].
  - intros a Ha. apply elem_of_cons in Ha as [->|Ha]; [eexists; split; [by left|done]|].
    destruct (H2 a Ha) as (q & ? & ?). exists q. split; [by right|done].
Qed.

Section agents.
  Context (ToLower : string → string).

(** The apps and operations a token names carry no surrounding white space. *)
Definition tidy (perms : PermissionSet) : Prop :=
  (∀ m app o, perms = Some m → m !! app = Some o → app ≠ "" ∧ TrimSpace app = app) ∧
  ∀ m app ops op, perms = Some m → m !! app = Some (Some ops) → op ∈ ops → op ≠ "" ∧ TrimSpace op = op.

(** No app of the token is bound to the empty set of operations. *)
Definition solid (perms : PermissionSet) : Prop :=
  ∀ m app, perms = Some m → m !! app ≠ Some (Some ∅).

Lemma scopeStep_solid m scope : solid (Some m) → solid (Some (scopeStep ToLower m scope)).
Proof.
  intros Hm m' app [= <-]. specialize (Hm m app eq_refl). unfold scopeStep. cbn zeta.
  repeat (case_match || case_decide); try done.
  all: rewrite lookup_insert_Some; intros [[_ ?]|[_ ?]]; simplify_eq; try done; set_solver.
Qed.

Lemma EffectivePermissions_solid p : solid (EffectivePermissions ToLower p).
Proof.
  destruct p as [p|]; [|done]. cbn. unfold PermissionSetFromScopes. case_decide; [done|].
  assert (solid (Some (∅ : gmap string ops_set))) as H0 by (intros m app [= <-]; by rewrite lookup_empty).
  revert H0. generalize (∅ : gmap string ops_set) as m. induction (pr_Scopes p) as [|s l IH]; intros m Hm; [done|].
  cbn. destruct (decide (l = [])) as [->|]; [by apply scopeStep_solid|]. apply IH; [done|].
  by apply scopeStep_solid.
Qed.

Lemma map_TrimSpace_id names op :
  (∀ o, o ∈ names → TrimSpace o = o) → op ∈ map TrimSpace names ↔ op ∈ names.
Proof.
  intros H. assert (map TrimSpace names = names) as ->; [|done].
  induction names as [|n names IH]; [done|]. cbn. rewrite (H n), IH; [done| |by left].
  intros o Ho. apply H. by right.
Qed.

Lemma compacted_grants perms refs ob pw app perm op :
  refs_state refs ob pw → tidy perms → solid perms →
  app ∈ pw ∨ is_Some (ob !! app) → compacted perms ob pw app perm → op ≠ "" →
  grants1 perm app op ↔
  if decide (app ∈ pw) then permits perms app op = true else wants_op refs app op.
Proof.
  intros Hst Htidy Hsolid Happ [Hpa Hc] Hop. destruct (rs_trimmed _ _ _ Hst app Happ) as [Ha Ht].
  unfold grants1. rewrite Hpa, Ht. case_decide as Hin.
  - destruct perms as [m|]; [|naive_solver].
    destruct Hc as (o & Hm & ->). rewrite operationNames_nil, permits_Some, Hm.
    pose proof (Hsolid m app eq_refl) as Hs. destruct o as [ops|]; [|naive_solver].
    rewrite map_TrimSpace_id, elem_of_operationNames.
    + assert ((∃ o, Some (Some ops) = Some o ∧ permitsIn o op = true) ↔ op ∈ ops) as ->.
      { rewrite <- (bool_decide_eq_true (op ∈ ops)). split; [intros (? & [= <-] & ?)|]; eauto. }
      naive_solver.
    + intros o Ho. apply elem_of_operationNames in Ho. by eapply (proj2 Htidy).
  - rewrite <- (rs_ops _ _ _ Hst app op Hin). destruct Happ as [|[ops Ho]]; [done|].
    rewrite Hc, operationNames_nil, Ho. pose proof (rs_nonempty _ _ _ Hst _ _ Ho) as Hne.
    rewrite map_TrimSpace_id, elem_of_operationNames; [naive_solver|].
    intros x Hx. apply elem_of_operationNames in Hx.
    assert (wants_op refs app x) as (ref & _ & _ & <- & _); [|apply TrimSpace_idem].
    apply (rs_ops _ _ _ Hst); eauto.
Qed.

Lemma elem_of_apps (pw : gset string) (ob : gmap string (gset string)) app :
  app ∈ SortStrings (elements pw ++ filter (λ app, app ∉ pw) (map_to_list ob).*1) ↔
  app ∈ pw ∨ is_Some (ob !! app) .
Proof.
  rewrite elem_of_SortStrings, elem_of_app, elem_of_elements, list_elem_of_filter, list_elem_of_fmap.
  assert ((∃ y, app = y.1 ∧ y ∈ map_to_list ob) ↔ is_Some (ob !! app)) as ->.
  { split.
    - intros ([k v] & -> & H). apply elem_of_map_to_list in H. by exists v.
    - intros [v H]. exists (app, v). by rewrite elem_of_map_to_list. }
  destruct (decide (app ∈ pw)); tauto.
Qed.

(** The permissions of exact references. *)
Lemma compact_permits p refs perms app op :
  compactAgentRunPermissionsForRefs ToLower p refs = Some perms →
  tidy (EffectivePermissions ToLower p) → op ≠ "" →
  permits (CompilePermissions perms) app op = true ↔
    (wants_app refs app ∧ permits (EffectivePermissions ToLower p) app op = true)
    ∨ (¬ wants_app refs app ∧ wants_op refs app op).
Proof.
  intros H Htidy Hop. pose proof (EffectivePermissions_solid p) as Hsolid. revert H.
  unfold compactAgentRunPermissionsForRefs. case_decide; [done|].
  destruct (compactRefs refs ∅ ∅) as [[ob pw]|] eqn:Hrefs; [|done]. case_decide as Hne; [done|].
  pose proof (compactRefs_state _ _ _ _ _ _ refs_state_start Hrefs) as Hst. rewrite app_nil_l in Hst.
  intros Hap. apply compactApps_spec in Hap as [H1 H2]. setoid_rewrite elem_of_apps in H1.
  setoid_rewrite elem_of_apps in H2.
  rewrite CompilePermissions_permits.
  assert (perms ≠ []) as Hnil.
  { intros ->. apply Hne. split.
    - apply (elem_of_equiv_empty_L (C := gset string)). intros a Ha.
      destruct (H2 a) as (q & Hq & _); [by left|set_solver].
    - apply map_empty. intros a. destruct (ob !! a) eqn:Ho; [|done].
      destruct (H2 a) as (q & Hq & _); [right; eauto|set_solver]. }
  rewrite <- !(rs_wide _ _ _ Hst app). split.
  - intros [?|(perm & Hin & Hg)]; [done|]. destruct (H1 _ Hin) as (a & Ha & Hc).
    assert (app = a) as ->.
    { destruct Hg as (_ & <- & _). destruct Hc as [-> _]. by apply (rs_trimmed _ _ _ Hst). }
    apply (compacted_grants _ _ _ _ _ _ op Hst Htidy Hsolid Ha Hc Hop) in Hg. case_decide; auto.
  - intros Hcase. right.
    assert (app ∈ pw ∨ is_Some (ob !! app)) as Ha.
    { destruct Hcase as [[? _]|[Hn Hw]]; [by left|right].
      apply (rs_ops _ _ _ Hst) in Hw as (ops & -> & _); eauto. }
    destruct (H2 app Ha) as (perm & Hin & Hc). exists perm. split; [done|].
    apply (compacted_grants _ _ _ _ _ _ op Hst Htidy Hsolid Ha Hc Hop). case_decide; tauto.
Qed.

(** A reference that names an app, and an operation or none, without a wildcard; references
    to the system's own tools do not count. *)
Definition exact_ref (ref : ToolRef) : Prop :=
  TrimSpace (tr_System ref) = "" →
  TrimSpace (tr_App ref) ≠ "" ∧ has_byte (TrimSpace (tr_App ref)) "*" = false
  ∧ has_byte (TrimSpace (tr_Operation ref)) "*" = false.

(** References that say by themselves what the turn may do: all of them are exact, there is
    one to an app, and the token names the apps referenced as a whole, if it is limited. *)
Definition exact_refs (refs : list ToolRef) (perms : PermissionSet) : Prop :=
  Forall exact_ref refs ∧ (∃ ref, ref ∈ refs ∧ TrimSpace (tr_System ref) = "")
  ∧ ∀ m app, perms = Some m → wants_app refs app → is_Some (m !! app).

Lemma compactRefs_defined refs ob pw : is_Some (compactRefs refs ob pw) ↔ Forall exact_ref refs.
Proof.
  revert ob pw. induction refs as [|ref refs IH]; intros ob pw; cbn [compactRefs]; [by split; [constructor|eauto]|].
  rewrite Forall_cons. unfold exact_ref at 1. case_bool_decide as Hs; cbn [negb]; [|rewrite IH; tauto].
  cbn zeta. assert (Hstar : bool_decide (TrimSpace (tr_App ref) = agentToolSearchAllApp) = true →
    has_byte (TrimSpace (tr_App ref)) "*" = true) by (rewrite bool_decide_eq_true; by intros ->).
  destruct (bool_decide (TrimSpace (tr_App ref) = "")) eqn:Ha; bool_props; cbn [orb]; [split; [by intros [? ?]|intros [H _]; by destruct (H Hs)]|].
  destruct (has_byte (TrimSpace (tr_App ref)) "*") eqn:Hh.
  { rewrite orb_true_r. split; [by intros [? ?]|]. intros [H _]. by destruct (H Hs) as (_ & ? & _). }
  destruct (bool_decide _); [by discriminate Hstar|]. cbn [orb].
  destruct (has_byte (TrimSpace (tr_Operation ref)) "*").
  { split; [by intros [? ?]|]. intros [H _]. by destruct (H Hs) as (_ & _ & ?). }
  repeat case_decide; rewrite IH; tauto.
Qed.

Lemma compactApps_defined perms ob pw apps :
  is_Some (compactApps perms ob pw apps) ↔
  ∀ m app, perms = Some m → app ∈ apps → app ∈ pw → is_Some (m !! app).
Proof.
  induction apps as [|a apps IH]; cbn [compactApps]; [split; [set_solver|eauto]|]. cbn zeta.
  assert (Hrest : ∀ perm, is_Some (match compactApps perms ob pw apps with
      | None => None | Some out => Some (perm :: out) end) ↔ is_Some (compactApps perms ob pw apps)).
  { intros perm. destruct (compactApps _ _ _ _); [by split; eauto|by split; intros [? ?]]. }
  case_decide as Hin; [destruct perms as [m|]|]; [destruct (m !! a) eqn:Hm|..]; rewrite ?Hrest, ?IH.
  - split; [|set_solver]. intros H m' app [= <-] [->|?]%elem_of_cons ?; [by rewrite Hm|by eapply H].
  - split; [by intros [? ?]|]. intros H. destruct (H m a eq_refl) as [? ?]; [by left|done|congruence].
  - naive_solver.
  - split; [|set_solver]. intros H m app Hp [->|?]%elem_of_cons ?; [done|by eapply H].
Qed.

Lemma compact_defined p refs :
  is_Some (compactAgentRunPermissionsForRefs ToLower p refs)
  ↔ exact_refs refs (EffectivePermissions ToLower p).
Proof.
  unfold compactAgentRunPermissionsForRefs, exact_refs. rewrite <-(compactRefs_defined refs ∅ ∅).
  case_decide as Hnil; [subst; split; [by intros [? ?]|set_solver]|].
  destruct (compactRefs refs ∅ ∅) as [[ob pw]|] eqn:Hrefs; [|split; [by intros [? ?]|by intros [[? ?] _]]].
  pose proof (compactRefs_state _ _ _ _ _ _ refs_state_start Hrefs) as Hst. rewrite app_nil_l in Hst.
  assert (Hany : ¬ (pw = ∅ ∧ ob = ∅) ↔ ∃ ref, ref ∈ refs ∧ TrimSpace (tr_System ref) = "").
  { split.
    - intros Hne. destruct (decide (pw = ∅)) as [->|[a Ha]%set_choose_L]; [|]; last first.
      { apply (rs_wide _ _ _ Hst) in Ha as (r & ? & [? _] & _). eauto. }
      destruct (map_choose ob) as (a & ops & Ho); [tauto|].
      destruct (set_choose_L ops) as [o Hop]; [by eapply rs_nonempty|].
      destruct (proj1 (rs_ops _ _ _ Hst a o ltac:(set_solver))) as (r & ? & [? _] & _); eauto.
    - intros (r & Hr & Hs) [-> ->]. assert (Hn : names_app r (TrimSpace (tr_App r))) by done.
      destruct (decide (TrimSpace (tr_Operation r) = "")) as [Ho|Ho].
      + assert (TrimSpace (tr_App r) ∈ (∅ : gset string)); [|set_solver].
        apply (rs_wide _ _ _ Hst). by exists r.
      + destruct (proj2 (rs_ops _ _ _ Hst (TrimSpace (tr_App r)) (TrimSpace (tr_Operation r)) ltac:(set_solver)))
          as (ops & Hl & _); [by exists r|]. by rewrite lookup_empty in Hl. }
  rewrite <-Hany. case_decide as Hne; [split; [by intros [? ?]|tauto]|].
  rewrite compactApps_defined. setoid_rewrite elem_of_apps. setoid_rewrite <-(rs_wide _ _ _ Hst).
  split.
  - intros H. split; [eauto|]. split; [done|]. intros m app Hm Hin. apply (H m app); auto.
  - intros (_ & _ & H). eauto.
Qed.

(** The permissions of a token, listed for a turn. *)
Lemma listed_permits perms app op :
  tidy perms → solid perms → op ≠ "" →
  permits (CompilePermissions (PermissionsToAccessPermissions perms)) app op = true ↔
    perms = Some ∅ ∨ permits perms app op = true.
Proof.
  intros [Happs Hops] Hsolid Hop. rewrite CompilePermissions_permits.
  destruct perms as [m|]; [|split; [by right|by left]].
  assert (Hempty : PermissionsToAccessPermissions (Some m) = [] ↔ Some m = Some ∅).
  { unfold PermissionsToAccessPermissions. split; [|by intros [= ->]]. intros Hmap.
    f_equal. apply map_empty. intros k. destruct (m !! k) eqn:Hk; [|done].
    assert (k ∈ PermissionApps (Some m)) as Hin by (by apply elem_of_PermissionApps).
    apply map_eq_nil in Hmap. rewrite Hmap in Hin. set_solver. }
  rewrite Hempty. apply or_iff_compat_l. rewrite permits_Some. unfold grants, PermissionsToAccessPermissions.
  split.
  - intros (perm & Hin & Hg). apply list_elem_of_fmap in Hin as (a & -> & Ha).
    apply elem_of_PermissionApps in Ha as [o Ho]. destruct Hg as (_ & Htrim & Hg). cbn [ap_App ap_Operations] in *.
    destruct (Happs m a o eq_refl Ho) as [_ Ht]. rewrite Ht in Htrim. subst app. exists o. split; [done|]. rewrite Ho in Hg.
    change (default None (Some o)) with o in Hg. destruct o as [ops|]; [|done].
    destruct Hg as [[?|[= ->]]%operationNames_nil|[_ Hg]]; [done|by destruct (Hsolid m a eq_refl)|].
    rewrite map_TrimSpace_id in Hg by (intros x Hx; apply elem_of_operationNames in Hx; by eapply Hops).
    apply elem_of_operationNames in Hg. by apply bool_decide_eq_true.
  - intros (o & Ho & Hp). destruct (Happs m app o eq_refl Ho) as [Hne Ht].
    eexists. split; [apply list_elem_of_fmap; exists app; split; [done|by apply elem_of_PermissionApps]|].
    split; [done|]. split; [done|]. cbn [ap_App ap_Operations]. rewrite Ho. change (default None (Some o)) with o.
    destruct o as [ops|]; [|by left]. right. split; [done|].
    rewrite map_TrimSpace_id by (intros x Hx; apply elem_of_operationNames in Hx; by eapply Hops).
    apply elem_of_operationNames. by apply bool_decide_eq_true in Hp.
Qed.

(** C38. What an agent turn may do.  When every tool reference is exact, one is to an app,
    and the token names the apps referenced as a whole if it is limited at all, then the
    turn is permitted the operations referenced by name, and of an app referenced as a
    whole exactly what the token allows of it.  In all other cases it is permitted what the
    token allows; but everything, when the resolved tools of the user are used instead
    ([shouldUseResolvedUserToolScope]), or when the token has scopes that name no app.
    (For tokens whose scopes name apps and operations without white space around them.) *)
Theorem agent_turn_permissions_exact surface p kind name refs app op :
  let perms := EffectivePermissions ToLower (Some p) in
  let turn := CompilePermissions (agentTurnPermissions ToLower surface (Some p) kind name refs) in
  tidy perms → op ≠ "" →
  (exact_refs refs perms →
     permits turn app op = true ↔
       (wants_app refs app ∧ permits perms app op = true) ∨ (¬ wants_app refs app ∧ wants_op refs app op))
  ∧ (¬ exact_refs refs perms →
     permits turn app op = true ↔
       shouldUseResolvedUserToolScope ToLower surface (Canonicalized (Some p)) kind name refs = true
       ∨ perms = Some ∅ ∨ permits perms app op = true).
Proof.
  intros perms turn Htidy Hop. unfold turn, agentTurnPermissions.
  cbn [Canonicalized Canonicalize fmap option_fmap option_map].
  assert (Heff : EffectivePermissions ToLower (Some (canonicalize p)) = perms).
  { unfold perms. cbn. by destruct (canonicalize_fields p) as (-> & _). }
  pose proof (compact_defined (Some (canonicalize p)) refs) as Hdef. rewrite Heff in Hdef.
  destruct (compactAgentRunPermissionsForRefs _ _ _) as [out|] eqn:Hout.
  - split; [|intros Hn; destruct Hn; apply Hdef; eauto]. intros _.
    rewrite <-Heff. apply (compact_permits (Some (canonicalize p)) refs out); rewrite ?Heff; done.
  - split; [intros [? ?]%Hdef; done|]. intros _. destruct (shouldUseResolvedUserToolScope _ _ _ _ _ _).
    + split; [by left|done].
    + rewrite Heff, listed_permits by (done || apply EffectivePermissions_solid). naive_solver.
Qed.
End agents.

(** ** Carrying a subject to a provider *)

Section carrying.
  Context (ToLower : string → string).

(** The request context of a provider call carries the caller's subject and exactly
    its scopes, and never a browser session. *)
Lemma subject_context_carries_scopes p :
  TrimSpace (pr_SubjectID (canonicalize p)) ≠ "" →
  ∃ q, PrincipalFromSubjectContext (SubjectContextFromPrincipal ToLower (Some p)) = Some q
    ∧ pr_SubjectID q = TrimSpace (pr_SubjectID (canonicalize p))
    ∧ pr_Scopes q = pr_Scopes p ∧ pr_Source q = SourceUnknown
    ∧ ∀ app op, AllowsOperationPermission ToLower (Some q) app op
                = AllowsOperationPermission ToLower (Some p) app op.
Proof.
  intros Hs. unfold SubjectContextFromPrincipal. cbn [Canonicalized Canonicalize fmap option_fmap option_map].
  set (c := canonicalize p) in *.
  assert (pr_Scopes c = pr_Scopes p) as Hsc by apply canonicalize_fields.
  unfold PrincipalFromSubjectContext. cbn [sx_Id sx_DisplayName sx_Email]. cbn zeta.
  set (s := TrimSpace (pr_SubjectID c)) in *.
  assert (∀ ctx, sx_Scopes ctx = pr_Scopes p →
    sx_Permissions ctx = permissionSetToSubjectPermissionContext (PermissionSetFromScopes ToLower (pr_Scopes p)) →
    mergeSubjectScopes (Some ctx) = pr_Scopes p) as Hmerge.
  { intros ctx H1 H2. unfold mergeSubjectScopes. rewrite H1, H2.
    destruct (pr_Scopes p) as [|x l]; [done|]. by rewrite bool_decide_false. }
  rewrite Hmerge by (cbn; by rewrite Hsc).
  match goal with |- context [canonicalize ?x] => set (v := x) end.
  assert (pr_SubjectID (canonicalize v) = s) as Hv by (by apply canonicalize_subject).
  destruct (canonicalize_fields v) as (Hv1 & Hv2 & _).
  change (pr_Scopes v) with (pr_Scopes p) in Hv1. change (pr_Source v) with SourceUnknown in Hv2.
  revert Hv Hv1 Hv2. generalize (canonicalize v) as w. clear v. intros w Hv Hv1 Hv2.
  assert (∀ q, pr_SubjectID q = s → pr_Scopes q = pr_Scopes p → pr_Source q = SourceUnknown →
    ∃ r, (if decide (pr_UserID q = "" ∧ pr_SubjectID q = "" ∧ pr_Kind q = "" ∧ pr_Identity q = None
                     ∧ pr_Source q = SourceUnknown) then Some zero_principal else Some q) = Some r
      ∧ pr_SubjectID r = s ∧ pr_Scopes r = pr_Scopes p ∧ pr_Source r = SourceUnknown
      ∧ ∀ app op, AllowsOperationPermission ToLower (Some r) app op
                  = AllowsOperationPermission ToLower (Some p) app op) as Hgen.
  { intros q H1 H2 H3. rewrite decide_False by (intros (_ & H & _); congruence).
    exists q. split_and!; try done. intros app op. cbn. by rewrite H2. }
  apply Hgen.
  - case_decide; exact Hv.
  - case_decide; exact Hv1.
  - case_decide; exact Hv2.
Qed.

(** ** Where sets and scopes part ways *)

(** An app-wide scope followed by a scope for one of its operations admits every
    operation of the app, but the permission set read from the same scopes keeps only
    the one operation, unless the scopes come in the other order. *)
Theorem app_scope_narrowed_by_order p app op other :
  pr_Scopes p = [app; app +:+ ":" +:+ op] →
  app ≠ "" → op ≠ "" → other ≠ "" → other ≠ op → has_byte app colon = false →
  TrimSpace app = app → TrimSpace (app +:+ ":" +:+ op) = app +:+ ":" +:+ op →
  isAppScope ToLower app = true → isAppScope ToLower (app +:+ ":" +:+ op) = true →
  AllowsOperationPermission ToLower (Some p) app other = true
  ∧ permits (EffectivePermissions ToLower (Some p)) app other = false
  ∧ permits (PermissionSetFromScopes ToLower [app +:+ ":" +:+ op; app]) app other = true.
Proof.
  intros Hp Ha Ho Hot Hne Hc Ht Hts Hs Hss. split_and!.
  - cbn [AllowsOperationPermission]. rewrite decide_False by naive_solver.
    rewrite Hp, appPermissionScopes_all.
    + cbn. by rewrite (bool_decide_true (app = app)).
    + intros s Hin. apply elem_of_cons in Hin as [->|Hin]; [done|].
      by apply list_elem_of_singleton in Hin as ->.
  - cbn [EffectivePermissions]. rewrite Hp. unfold PermissionSetFromScopes.
    rewrite decide_False by done. cbn [foldl]. rewrite (scopeStep_app _ _ app), scopeStep_op by done.
    rewrite permits_insert, decide_True by done. cbn. rewrite lookup_insert_eq. cbn.
    apply bool_decide_eq_false. set_solver.
  - unfold PermissionSetFromScopes. rewrite decide_False by done. cbn [foldl].
    rewrite (scopeStep_op _ _ app op), scopeStep_app by done. by rewrite permits_insert, decide_True.
Qed.

(** A permission whose operations are all blank grants nothing, but the scope strings
    written for it admit every operation of its app. *)
Theorem blank_operations_become_app_wide perm p app op :
  TrimSpace (ap_App perm) = app → app ≠ "" → isAppScope ToLower app = true →
  ap_Operations perm ≠ [] → (∀ o, o ∈ ap_Operations perm → TrimSpace o = "") → op ≠ "" →
  pr_Scopes p = ScopeStringsFromPermissionSet (CompilePermissions [perm]) →
  permits (CompilePermissions [perm]) app op = false
  ∧ AllowsOperationPermission ToLower (Some p) app op = true.
Proof.
  intros Ht Ha Hs Hne Hblank Hop Hp.
  assert (CompilePermissions [perm] = Some {[app := Some ∅]}) as Hc.
  { unfold CompilePermissions. rewrite decide_False by done. cbn [foldl]. unfold compileStep. rewrite Ht.
    cbn zeta. rewrite !decide_False, lookup_empty by done. do 2 f_equal.
    change (<[app := Some (addOperations ∅ (ap_Operations perm))]> (∅ : gmap string ops_set)
            = <[app := Some ∅]> ∅). do 2 f_equal.
    clear Hne Hp. induction (ap_Operations perm) as [|o names IH]; [done|]. cbn.
    rewrite decide_True by (apply Hblank; by left). apply IH. intros x Hx. apply Hblank. by right. }
  split.
  - rewrite Hc. cbn. rewrite lookup_singleton_eq. cbn. by apply bool_decide_eq_false.
  - cbn [AllowsOperationPermission]. rewrite decide_False by naive_solver. rewrite Hp, Hc.
    assert (ScopeStringsFromPermissionSet (Some {[app := Some (∅ : gset string)]}) = [app]) as ->.
    { unfold ScopeStringsFromPermissionSet, PermissionApps.
      rewrite map_to_list_singleton. cbn. by rewrite lookup_singleton_eq. }
    rewrite appPermissionScopes_all by (by intros s ->%list_elem_of_singleton). cbn.
    by rewrite (bool_decide_true (app = app)).
Qed.
End carrying.

Section unrestricted.
  Context (ToLower : string → string) (ToLower_openid : ToLower "openid" = "openid").

Lemma compact_one p ref app :
  names_app ref app → TrimSpace (tr_Operation ref) = "" → app ≠ "" → has_byte app "*" = false →
  compactAgentRunPermissionsForRefs ToLower p [ref] =
  compactApps (EffectivePermissions ToLower p) ∅ {[app]} [app].
Proof.
  intros [Hs Ha] Ho Hne Hstar. unfold compactAgentRunPermissionsForRefs. rewrite decide_False by done.
  cbn [compactRefs]. rewrite Hs, Ha, Ho. rewrite (bool_decide_true ("" = "")) by done. cbn [negb]. cbn zeta.
  rewrite (bool_decide_false (app = "")), Hstar by done.
  rewrite bool_decide_false by (intros ->; by vm_compute in Hstar). cbn [orb has_byte].
  rewrite decide_True by done. rewrite delete_empty, union_empty_r_L.
  rewrite decide_False by set_solver. f_equal.
  rewrite elements_singleton, map_to_list_empty. by vm_compute.
Qed.

(** A turn that references one app as a whole is limited to that app when the caller's
    token has no scopes, and is not limited at all when the token has only the identity
    scope [openid]. *)
Theorem identity_scope_unrestricts_turn surface p kind name ref app other op :
  names_app ref app → TrimSpace (tr_Operation ref) = "" → app ≠ "" → has_byte app "*" = false →
  let turn p := CompilePermissions (agentTurnPermissions ToLower surface (Some p) kind name [ref]) in
  permits (turn (with_scopes p [])) other op = bool_decide (other = app)
  ∧ permits (turn (with_scopes p ["openid"])) other op = true.
Proof.
  intros Hn Ho Hne Hstar turn. unfold turn, agentTurnPermissions.
  cbn [Canonicalized Canonicalize fmap option_fmap option_map].
  assert (∀ scopes, EffectivePermissions ToLower (Some (canonicalize (with_scopes p scopes)))
                    = PermissionSetFromScopes ToLower scopes) as Heff.
  { intros scopes. cbn. by destruct (canonicalize_fields (with_scopes p scopes)) as (-> & _). }
  assert (PermissionSetFromScopes ToLower ["openid"] = Some ∅) as Hid.
  { unfold PermissionSetFromScopes. cbn [foldl]. rewrite decide_False by done. unfold scopeStep, isIdentityScope.
    assert (TrimSpace "openid" = "openid") as -> by (by vm_compute). cbn zeta.
    assert (TrimSpace "openid" = "openid") as -> by (by vm_compute). by rewrite ToLower_openid. }
  rewrite !(compact_one _ ref app), !Heff by done. split.
  - cbn. rewrite decide_True by set_solver.
    assert (∀ o, permits (CompilePermissions [{| ap_App := app; ap_Operations := [] |}]) other o
                 = bool_decide (other = app)) as H.
    { intros o. apply eq_true_iff_eq. rewrite CompilePermissions_permits, bool_decide_eq_true.
      unfold grants, grants1. destruct Hn as [_ Hn]. split.
      - intros [|(q & ->%list_elem_of_singleton & _ & <- & _)]; [done|]. cbn. rewrite <- Hn. apply TrimSpace_idem.
      - intros ->. right. eexists. split; [by left|]. split_and!; [done| |by left].
        cbn. rewrite <- Hn. apply TrimSpace_idem. }
    apply H.
  - rewrite Hid. cbn [compactApps]. rewrite decide_True by set_solver. rewrite lookup_empty.
    case_if; [done|]. by vm_compute.
Qed.
End unrestricted.

(** ** Witnesses *)

Definition sample_set : gmap string ops_set :=
  list_to_map [("slack", None); ("linear", Some {["issues.list"; "viewer"]})].
Definition sample_bearer : Principal :=
  with_scopes (subject_principal "user:u1") (ScopeStringsFromPermissionSet (Some sample_set)).

Lemma sample_set_cases app o :
  sample_set !! app = Some o →
  (app = "slack" ∧ o = None) ∨ (app = "linear" ∧ o = Some {["issues.list"; "viewer"]}).
Proof.
  unfold sample_set. cbn [list_to_map foldr curry uncurry]. rewrite !lookup_insert_Some, lookup_empty. naive_solver.
Qed.

Lemma sample_scopes :
  ScopeStringsFromPermissionSet (Some sample_set) = ["linear:issues.list"; "linear:viewer"; "slack"].
Proof. by vm_compute. Qed.

Lemma sample_set_clean : clean (λ s, s) sample_set.
Proof.
  split.
  - intros app o H. apply sample_set_cases in H as [[-> ->]|[-> ->]]; split_and!; done.
  - intros app ops op H Hop. apply sample_set_cases in H as [[_ ?]|[_ Heq]]; [done|].
    injection Heq as ->. apply elem_of_union in Hop as [Hop|Hop]; apply elem_of_singleton in Hop as ->; done.
  - rewrite sample_scopes. apply Forall_forall. repeat constructor; by vm_compute.
Qed.

Lemma sample_set_nonempty : sample_set ≠ ∅.
Proof. intros H. assert (sample_set !! "slack" = None) as Hs by (by rewrite H). by vm_compute in Hs. Qed.

Lemma ScopeStrings_admit_exactly_witness :
  AllowsOperationPermission (λ s, s) (Some sample_bearer) "linear" "viewer" = true
  ∧ AllowsOperationPermission (λ s, s) (Some sample_bearer) "linear" "issues.create" = false.
Proof.
  split.
  - rewrite (ScopeStrings_admit_exactly (λ s, s) sample_set sample_bearer "linear" "viewer"
               sample_set_clean sample_set_nonempty eq_refl); by vm_compute.
  - rewrite (ScopeStrings_admit_exactly (λ s, s) sample_set sample_bearer "linear" "issues.create"
               sample_set_clean sample_set_nonempty eq_refl); by vm_compute.
Defined.

Lemma ScopeStrings_roundtrip_witness :
  PermissionSetFromScopes (λ s, s) ["linear:issues.list"; "linear:viewer"; "slack"] = Some sample_set.
Proof.
  rewrite <- sample_scopes.
  exact (ScopeStrings_roundtrip (λ s, s) sample_set sample_set_clean sample_set_nonempty).
Defined.

Lemma sample_reads_back :
  PermissionSetFromScopes (λ s, s) ["linear:issues.list"; "linear:viewer"; "slack"] = Some sample_set.
Proof. vm_cast_no_check (@eq_refl PermissionSet (Some sample_set)). Qed.

Definition sample_ref (app op : string) : ToolRef :=
  {| tr_System := ""; tr_App := app; tr_Operation := op; tr_Connection := ""; tr_Instance := "";
     tr_CredentialMode := ""; tr_RunAs := None; tr_Title := ""; tr_Description := "" |}.

Lemma sample_tidy : tidy (EffectivePermissions (λ s, s) (Some sample_bearer)).
Proof.
  change (EffectivePermissions (λ s, s) (Some sample_bearer))
    with (PermissionSetFromScopes (λ s, s) (ScopeStringsFromPermissionSet (Some sample_set))).
  rewrite sample_scopes, sample_reads_back. split.
  - intros m app o [= <-] Hm. apply sample_set_cases in Hm as [[-> _]|[-> _]]; split; by vm_compute.
  - intros m app ops op [= <-] Hm Hop. apply sample_set_cases in Hm as [[_ ?]|[_ Heq]]; [done|].
    injection Heq as ->.
    apply elem_of_union in Hop as [Hop|Hop]; apply elem_of_singleton in Hop as ->; by vm_compute.
Qed.

(** The turn may use an operation named exactly and, of an app named as a whole, what the
    token allows; a wildcard leaves it what the token allows. *)
Lemma agent_turn_permissions_exact_witness :
  let turn refs := CompilePermissions (agentTurnPermissions (λ s, s) "" (Some sample_bearer) "" "" refs) in
  let exact := [sample_ref "linear" ""; sample_ref "github" "issues"] in
  let wild := [sample_ref "*" ""] in
  permits (turn exact) "linear" "viewer" = true ∧ permits (turn exact) "github" "issues" = true
  ∧ permits (turn exact) "slack" "post" = false ∧ permits (turn wild) "slack" "post" = true.
Proof.
  intros turn exact wild.
  assert (Hexact : exact_refs exact (EffectivePermissions (λ s, s) (Some sample_bearer))).
  { split_and!.
    - apply List.Forall_cons; [|apply List.Forall_cons; [|apply List.Forall_nil]];
        (intros _; split; [by vm_compute|split; by vm_compute]).
    - exists (sample_ref "linear" ""). split; [apply elem_of_cons; by left|by vm_compute].
    - intros m app Hm (r & Hr & [_ Ha] & Ho). apply elem_of_cons in Hr as [Hr|Hr].
      + rewrite Hr in Ha. replace app with "linear" by (rewrite <-Ha; by vm_compute).
        change (EffectivePermissions (λ s, s) (Some sample_bearer))
          with (PermissionSetFromScopes (λ s, s) (ScopeStringsFromPermissionSet (Some sample_set))) in Hm.
        rewrite sample_scopes, sample_reads_back in Hm. injection Hm as <-.
        destruct (sample_set !! "linear") eqn:E; [by eexists|by vm_compute in E].
      + apply list_elem_of_singleton in Hr. by rewrite Hr in Ho. }
  pose proof (λ app op Hop, proj1 (agent_turn_permissions_exact (λ s, s) "" sample_bearer "" "" exact app op
    sample_tidy Hop) Hexact) as H.
  split_and!.
  - apply H; [done|]. left. split; [|by vm_compute]. exists (sample_ref "linear" "").
    split; [apply elem_of_cons; by left|]. repeat split; by vm_compute.
  - apply H; [done|]. right. split.
    + intros (r & Hr & [_ Ha] & Ho). apply elem_of_cons in Hr as [Hr|Hr]; [by rewrite Hr in Ha|].
      apply list_elem_of_singleton in Hr. by rewrite Hr in Ho.
    + exists (sample_ref "github" "issues").
      split; [apply elem_of_cons; right; by apply list_elem_of_singleton|]. repeat split; by vm_compute.
  - apply not_true_iff_false. intros Hp. apply H in Hp; [|done].
    destruct Hp as [[(r & Hr & [_ Ha] & _) _]|[_ (r & Hr & [_ Ha] & _)]];
      (apply elem_of_cons in Hr as [Hr|Hr%list_elem_of_singleton]; subst r; by vm_compute in Ha).
  - apply (agent_turn_permissions_exact (λ s, s) "" sample_bearer "" "" wild "slack" "post" sample_tidy);
      [done| |right; right; by vm_compute].
    intros [Hall _]. rewrite Forall_forall in Hall.
    destruct (Hall (sample_ref "*" "")) as (_ & Hs & _); [by apply list_elem_of_singleton|done|]. by vm_compute in Hs.
Defined.

Lemma subject_context_carries_scopes_witness :
  ∃ q, PrincipalFromSubjectContext (SubjectContextFromPrincipal (λ s, s) (Some sample_bearer)) = Some q
       ∧ pr_SubjectID q = "user:u1".
Proof.
  destruct (subject_context_carries_scopes (λ s, s) sample_bearer) as (q & Hq & Hs & _); [by vm_compute|].
  exists q. split; [exact Hq|]. rewrite Hs. by vm_compute.
Defined.

Lemma app_scope_narrowed_by_order_witness :
  let p := Some (with_scopes (subject_principal "user:u1") ["slack"; "slack:read"]) in
  AllowsOperationPermission (λ s, s) p "slack" "post" = true
  ∧ permits (EffectivePermissions (λ s, s) p) "slack" "post" = false.
Proof.
  intros p.
  destruct (app_scope_narrowed_by_order (λ s, s)
              (with_scopes (subject_principal "user:u1") ["slack"; "slack:read"]) "slack" "read" "post")
    as (H1 & H2 & _); try done; by vm_compute.
Defined.

Definition blank_permission : AccessPermission := {| ap_App := "slack"; ap_Operations := [" "] |}.

Lemma blank_operations_become_app_wide_witness :
  let p := with_scopes (subject_principal "user:u1")
             (ScopeStringsFromPermissionSet (CompilePermissions [blank_permission])) in
  permits (CompilePermissions [blank_permission]) "slack" "post" = false
  ∧ AllowsOperationPermission (λ s, s) (Some p) "slack" "post" = true.
Proof.
  intros p. apply (blank_operations_become_app_wide (λ s, s) blank_permission p "slack" "post"); try done.
  intros o Ho. apply list_elem_of_singleton in Ho. rewrite Ho. by vm_compute.
Defined.

Lemma identity_scope_unrestricts_turn_witness :
  let turn scopes := CompilePermissions
    (agentTurnPermissions (λ s, s) InvocationSurfaceHTTP (Some (with_scopes (subject_principal "user:u1") scopes))
       "" "" [sample_ref "slack" ""]) in
  permits (turn []) "github" "push" = false ∧ permits (turn ["openid"]) "github" "push" = true.
Proof.
  assert (names_app (sample_ref "slack" "") "slack") as Hn by (split; by vm_compute).
  assert (TrimSpace (tr_Operation (sample_ref "slack" "")) = "") as Ho by (by vm_compute).
  destruct (identity_scope_unrestricts_turn (λ s, s) eq_refl InvocationSurfaceHTTP
              (subject_principal "user:u1") "" "" (sample_ref "slack" "") "slack" "github" "push"
              Hn Ho ltac:(discriminate) eq_refl) as [H1 H2].
  split; [rewrite H1; reflexivity|exact H2].
Defined.

End Permissions.
