(* ===== verification/AccessDecisions.v ===== *)
(** * AccessDecisions: turning an evaluator's answer into an access decision

    Models [gestaltd/services/invocation/authorization_check.go],
    [authorization_resource.go] and the batched check of [authorization_batch.go].

    The evaluator is an interface; [AuthorizationProvider] is the part of it these
    functions call, and the class [Batching] is what a batch promises its callers.
    Subject properties are opaque here ([S]). *)

From stdpp Require Import base gmap strings list sorting sets.
From Stdlib Require Import ZArith Ascii Lia.
From S2P Require Import Prelude TurnScope Principals Permissions.

Set Default Goal Selector "!".

Module AccessDecisions.
Import Permissions.

Definition maxEvaluatedRelations : nat := 64.
Definition MaxBatchedAccessChecks : nat := 1000.

Record Resource := { rs_Type : string; rs_Id : string }.
#[export] Instance Resource_eq_dec : EqDecision Resource.
Proof. solve_decision. Defined.

(** ** Mapping an app to the resource the evaluator is asked about *)

Definition DedicatedAuthorizationResource (name : string) : Resource :=
  let name := TrimSpace name in {| rs_Type := name; rs_Id := name |}.

Definition AuthorizationResource (name : string) (kinds : gmap string ProviderKind) : Resource :=
  let name := TrimSpace name in
  match kinds !! name with
  | Some kind => {| rs_Type := kind; rs_Id := name |}
  | None => {| rs_Type := ProviderKindApp; rs_Id := name |}
  end.

Record AuthorizationResourceMapper := {
  am_kinds : gmap string ProviderKind; am_policies : gmap string string }.

Definition NewAuthorizationResourceMapper (kinds : gmap string ProviderKind)
    (policies : gmap string string) : AuthorizationResourceMapper :=
  {| am_kinds := kinds; am_policies := policies |}.

Definition policyAlias (m : AuthorizationResourceMapper) (appKey : string) : string :=
  TrimSpace (default "" (am_policies m !! appKey)).

Definition mapper_Policy (m : AuthorizationResourceMapper) (appKey : string) : string :=
  let appKey := TrimSpace appKey in
  let policy := policyAlias m appKey in
  if decide (policy = "") then appKey else policy.

Definition mapper_Resource (m : AuthorizationResourceMapper) (appKey : string) : Resource :=
  let appKey := TrimSpace appKey in
  let policy := policyAlias m appKey in
  if negb (bool_decide (policy = "")) then DedicatedAuthorizationResource policy
  else if existsb (λ kv, bool_decide (TrimSpace kv.2 = appKey)) (map_to_list (am_policies m))
  then DedicatedAuthorizationResource appKey
  else AuthorizationResource appKey (am_kinds m).

(** ** Questions and answers *)

Section access.
  Context {E S : Type}.

Record CheckAccessRequest := {
  rq_SubjectType : string; rq_SubjectId : string; rq_Properties : option S;
  rq_Action : string; rq_Resource : option Resource }.
Record CheckAccessResponse := { rp_Allowed : bool; rp_MatchedRelations : list string }.

Record AuthorizationProvider := {
  CheckAccess : CheckAccessRequest → result E (option CheckAccessResponse);
  CheckAccessMany : list CheckAccessRequest → result E (option (list (option CheckAccessResponse))) }.

Inductive AccessError :=
  | ErrAuthorizationUnavailable
  | ErrMalformedAuthorizationDecision
  | ErrBatchedAccessTooLarge
  | ErrProvider (e : E).

Definition SubjectAccessRequest (subjectID action : string) (resource : option Resource) : CheckAccessRequest :=
  {| rq_SubjectType := "subject"; rq_SubjectId := TrimSpace subjectID; rq_Properties := None;
     rq_Action := TrimSpace action; rq_Resource := resource |}.

Definition CheckSubjectAccess (authorization : AuthorizationProvider) (req : CheckAccessRequest)
    : result E bool :=
  match CheckAccess authorization req with
  | Err e => Err e
  | Ok None => Ok false
  | Ok (Some resp) => Ok (rp_Allowed resp)
  end.

Record ResourceAccessRequest := {
  rr_SubjectID : string; rr_Action : string; rr_Resource : option Resource;
  rr_AllowedRoles : list string; rr_SubjectProperties : option S }.
Record ResourceAccessDecision := { rd_Allowed : bool; rd_Role : string }.

Definition deny : ResourceAccessDecision := {| rd_Allowed := false; rd_Role := "" |}.

(** The subject's properties with the request's own, when it carries some. *)
Definition protoRequest (req : ResourceAccessRequest) : CheckAccessRequest :=
  let out := SubjectAccessRequest (rr_SubjectID req) (rr_Action req) (rr_Resource req) in
  match rr_SubjectProperties req with
  | None => out
  | Some properties =>
      {| rq_SubjectType := rq_SubjectType out; rq_SubjectId := rq_SubjectId out;
         rq_Properties := Some properties; rq_Action := rq_Action out; rq_Resource := rq_Resource out |}
  end.

Fixpoint boundedLoop (relations : list string) (seen : gset string) (out : list string) : list string :=
  match relations with
  | [] => out
  | relation :: relations =>
      let relation := TrimSpace relation in
      if decide (relation = "") then boundedLoop relations seen out
      else if decide (relation ∈ seen) then boundedLoop relations seen out
      else let out := out ++ [relation] in
           if decide (length out = maxEvaluatedRelations) then out
           else boundedLoop relations ({[relation]} ∪ seen) out
  end.

Definition boundedRelations (relations : list string) : list string := boundedLoop relations ∅ [].

Definition matchedSet (matchedRelations : list string) : gset string :=
  list_to_set (filter (λ r, r ≠ "") (map TrimSpace matchedRelations)).

Fixpoint firstMatched (matched : gset string) (allowedRoles : list string) : string :=
  match allowedRoles with
  | [] => ""
  | role :: roles =>
      let role := TrimSpace role in
      if decide (role ∈ matched) then role else firstMatched matched roles
  end.

Definition matchedAllowedRole (matchedRelations allowedRoles : list string) : string :=
  firstMatched (matchedSet matchedRelations) allowedRoles.

Definition resourceAccessDecision (resp : CheckAccessResponse) (allowedRoles : list string)
    : ResourceAccessDecision :=
  if negb (rp_Allowed resp) then deny else
  let roles := boundedRelations (rp_MatchedRelations resp) in
  if decide (allowedRoles = []) then {| rd_Allowed := true; rd_Role := default "" (head roles) |}
  else let role := matchedAllowedRole roles allowedRoles in
       if decide (role = "") then deny else {| rd_Allowed := true; rd_Role := role |}.

Definition CheckResourceAccess (authorization : option AuthorizationProvider) (req : ResourceAccessRequest)
    : result AccessError ResourceAccessDecision :=
  match authorization with
  | None => Err ErrAuthorizationUnavailable
  | Some provider =>
      let subjectID := TrimSpace (rr_SubjectID req) in
      let action := TrimSpace (rr_Action req) in
      if decide (subjectID = "" ∨ action = "" ∨ rr_Resource req = None) then Ok deny
      else match CheckAccess provider (protoRequest req) with
           | Err e => Err (ErrProvider e)
           | Ok None => Err ErrMalformedAuthorizationDecision
           | Ok (Some resp) => Ok (resourceAccessDecision resp (rr_AllowedRoles req))
           end
  end.

(** ** Batches *)

Definition degenerate (question : CheckAccessRequest) : Prop :=
  rq_SubjectId question = "" ∨ rq_Action question = "" ∨ rq_Resource question = None.
#[global] Instance degenerate_dec q : Decision (degenerate q).
Proof. unfold degenerate. apply _. Defined.

(** The indexes and questions of the requests that are asked. *)
Fixpoint batchQuestions (i : nat) (reqs : list ResourceAccessRequest) : list (nat * CheckAccessRequest) :=
  match reqs with
  | [] => []
  | req :: reqs =>
      let question := protoRequest req in
      if decide (degenerate question) then batchQuestions (i + 1) reqs
      else (i, question) :: batchQuestions (i + 1) reqs
  end.

(** Storing the answers at the indexes they belong to. *)
Fixpoint placeDecisions (reqs : list ResourceAccessRequest) (indexes : list nat)
    (answers : list (option CheckAccessResponse)) (decisions : list ResourceAccessDecision)
    : result AccessError (list ResourceAccessDecision) :=
  match indexes, answers with
  | i :: indexes, Some decision :: answers =>
      let roles := match reqs !! i with Some req => rr_AllowedRoles req | None => [] end in
      placeDecisions reqs indexes answers (<[i := resourceAccessDecision decision roles]> decisions)
  | i :: indexes, None :: answers => Err ErrMalformedAuthorizationDecision
  | _, _ => Ok decisions
  end.

Definition CheckResourceAccessMany (authorization : option AuthorizationProvider)
    (reqs : list ResourceAccessRequest) : result AccessError (list ResourceAccessDecision) :=
  match authorization with
  | None => Err ErrAuthorizationUnavailable
  | Some provider =>
      fail_if bool_decide (MaxBatchedAccessChecks < length reqs) with ErrBatchedAccessTooLarge ;;
      let decisions := replicate (length reqs) deny in
      let batch := batchQuestions 0 reqs in
      if decide (batch = []) then Ok decisions
      else match CheckAccessMany provider batch.*2 with
           | Err e => Err (ErrProvider e)
           | Ok None => Err ErrMalformedAuthorizationDecision
           | Ok (Some answers) =>
               fail_if negb (length answers =? length batch) with ErrMalformedAuthorizationDecision ;;
               placeDecisions reqs batch.*1 answers decisions
           end
  end.
End access.
#[global] Arguments CheckAccessRequest : clear implicits.
#[global] Arguments ResourceAccessRequest : clear implicits.
#[global] Arguments AuthorizationProvider : clear implicits.
#[global] Arguments AccessError : clear implicits.

(** What a batching evaluator promises: a batch is answered question by question. *)
Class Batching {E S} (provider : AuthorizationProvider E S) : Prop :=
  batching qs answers :
    qs ≠ [] → Forall2 (λ q d, CheckAccess provider q = Ok (Some d)) qs answers →
    CheckAccessMany provider qs = Ok (Some (map Some answers)).

(** ** Relations and roles *)

(** The distinct non-blank relations, in order of first occurrence. *)
Fixpoint distinctRelations (relations : list string) (seen : gset string) : list string :=
  match relations with
  | [] => []
  | r :: rs =>
      let r := TrimSpace r in
      if decide (r = "" ∨ r ∈ seen) then distinctRelations rs seen
      else r :: distinctRelations rs ({[r]} ∪ seen)
  end.

Lemma boundedLoop_take relations seen out :
  length out < maxEvaluatedRelations →
  boundedLoop relations seen out =
    out ++ take (maxEvaluatedRelations - length out) (distinctRelations relations seen).
Proof.
  revert seen out. induction relations as [|r rs IH]; intros seen out Hlen; cbn [boundedLoop distinctRelations].
  { by rewrite take_nil, app_nil_r. }
  cbn zeta. case_decide as Hr; [by rewrite decide_True, IH by auto|].
  case_decide as Hs; [by rewrite decide_True, IH by auto|].
  rewrite (decide_False (P := TrimSpace r = "" ∨ _)) by tauto.
  case_decide as Hl; rewrite length_app in Hl; cbn in Hl.
  - replace (maxEvaluatedRelations - length out) with 1 by lia. cbn. by rewrite take_0.
  - rewrite IH; rewrite length_app; cbn [length]; [|lia].
    replace (maxEvaluatedRelations - length out)
      with (Datatypes.S (maxEvaluatedRelations - (length out + 1))) by lia.
    cbn. by rewrite <- app_assoc.
Qed.

Lemma boundedRelations_take relations :
  boundedRelations relations = take maxEvaluatedRelations (distinctRelations relations ∅).
Proof. unfold boundedRelations. rewrite boundedLoop_take; [done|]. unfold maxEvaluatedRelations. cbn. lia. Qed.

Lemma boundedRelations_bound relations : length (boundedRelations relations) ≤ maxEvaluatedRelations.
Proof. rewrite boundedRelations_take, length_take. lia. Qed.

Lemma elem_of_distinctRelations relations seen r :
  r ∈ distinctRelations relations seen ↔ r ∈ map TrimSpace relations ∧ r ≠ "" ∧ r ∉ seen.
Proof.
  revert seen. induction relations as [|x rs IH]; intros seen; cbn [distinctRelations map]; [set_solver|].
  cbn zeta. rewrite elem_of_cons. case_decide as H.
  - rewrite IH. split; [tauto|]. intros ([->|?] & ? & ?); [tauto|done].
  - rewrite elem_of_cons, IH, elem_of_union, elem_of_singleton.
    destruct (decide (r = TrimSpace x)) as [->|]; tauto.
Qed.

Lemma elem_of_matchedSet relations r : r ∈ matchedSet relations ↔ r ∈ map TrimSpace relations ∧ r ≠ "".
Proof. unfold matchedSet. rewrite elem_of_list_to_set, list_elem_of_filter. tauto. Qed.

Lemma firstMatched_spec matched roles :
  "" ∉ matched →
  (firstMatched matched roles ≠ "" →
     firstMatched matched roles ∈ matched ∧ firstMatched matched roles ∈ map TrimSpace roles)
  ∧ (firstMatched matched roles = "" ↔ ∀ role, role ∈ map TrimSpace roles → role ∉ matched).
Proof.
  intros Hne. induction roles as [|role roles [IH1 IH2]]; cbn [firstMatched map]; cbn zeta.
  { split; [done|]. split; [set_solver|done]. }
  case_decide as H.
  - split; [intros _; split; [done|by left]|]. split; [intros He; by rewrite He in H|].
    intros Hall. exfalso. by apply (Hall (TrimSpace role)); [left|].
  - split; [intros Hf; destruct (IH1 Hf); split; [done|by right]|].
    rewrite IH2. split; intros Hall r; [|intros Hr; apply Hall; by right].
    intros [->|Hr]%elem_of_cons; auto.
Qed.

Lemma matchedAllowedRole_spec relations roles :
  matchedAllowedRole relations roles ≠ "" ↔
  ∃ role, role ≠ "" ∧ role ∈ map TrimSpace relations ∧ role ∈ map TrimSpace roles.
Proof.
  unfold matchedAllowedRole.
  assert ("" ∉ matchedSet relations) as Hne by (rewrite elem_of_matchedSet; tauto).
  destruct (firstMatched_spec _ roles Hne) as [H1 H2]. split.
  - intros H. destruct (H1 H) as [Hm Hr]. apply elem_of_matchedSet in Hm as [? ?]. eauto.
  - intros (role & Hn & Hm & Hr) H. apply H2 with role in H; [|done].
    apply H. by apply elem_of_matchedSet.
Qed.

(** ** Batches answer like single checks *)

Section batches.
  Context {E S : Type}.
  Implicit Types (r : ResourceAccessRequest S) (reqs : list (ResourceAccessRequest S)).

Lemma degenerate_iff r :
  degenerate (protoRequest r) ↔
  TrimSpace (rr_SubjectID r) = "" ∨ TrimSpace (rr_Action r) = "" ∨ rr_Resource r = None.
Proof. unfold degenerate, protoRequest. destruct (rr_SubjectProperties r); done. Qed.

Lemma elem_of_batchQuestions k reqs i q :
  (i, q) ∈ batchQuestions k reqs ↔
  ∃ j r, i = k + j ∧ reqs !! j = Some r ∧ q = protoRequest r ∧ ¬ degenerate q.
Proof.
  revert k. induction reqs as [|r reqs IH]; intros k; cbn [batchQuestions].
  { split; [by intros ?%elem_of_nil|]. by intros (? & ? & _ & ? & _). }
  cbn zeta. case_decide as Hd; rewrite ?elem_of_cons, IH.
  - split.
    + intros (j & r' & -> & Hj & -> & Hn). exists (Datatypes.S j), r'. split_and!; auto with lia.
    + intros ([|j] & r' & -> & Hj & -> & Hn); cbn in Hj; [by simplify_eq|].
      exists j, r'. split_and!; auto with lia.
  - split.
    + intros [[= -> ->]|(j & r' & -> & Hj & -> & Hn)].
      * exists 0, r. split_and!; auto with lia.
      * exists (Datatypes.S j), r'. split_and!; auto with lia.
    + intros ([|j] & r' & -> & Hj & -> & Hn); cbn in Hj.
      * left. simplify_eq. by rewrite Nat.add_0_r.
      * right. exists j, r'. split_and!; auto with lia.
Qed.

Lemma batchQuestions_NoDup k reqs : NoDup (batchQuestions k reqs).*1.
Proof.
  revert k. induction reqs as [|r reqs IH]; intros k; cbn [batchQuestions]; [constructor|].
  cbn zeta. case_decide; [apply IH|]. cbn. constructor; [|apply IH].
  rewrite list_elem_of_fmap. intros ([i q] & Hi & Hin). cbn in Hi.
  apply elem_of_batchQuestions in Hin as (j & ? & ? & _). lia.
Qed.

Lemma batchQuestions_lookup reqs n i q :
  batchQuestions 0 reqs !! n = Some (i, q) → ∃ r, reqs !! i = Some r ∧ q = protoRequest r ∧ ¬ degenerate q.
Proof.
  intros H%list_elem_of_lookup_2. apply elem_of_batchQuestions in H as (j & r & -> & ? & ? & ?). eauto.
Qed.

Definition rolesAt reqs (i : nat) : list string :=
  match reqs !! i with Some req => rr_AllowedRoles req | None => [] end.

Lemma placeDecisions_ok reqs indexes answers decisions ds :
  length indexes = length answers → NoDup indexes → (∀ i, i ∈ indexes → i < length decisions) →
  placeDecisions (E := E) reqs indexes answers decisions = Ok ds →
  length ds = length decisions
  ∧ (∀ n i, indexes !! n = Some i → ∃ resp, answers !! n = Some (Some resp)
       ∧ ds !! i = Some (resourceAccessDecision resp (rolesAt reqs i)))
  ∧ (∀ j, j ∉ indexes → ds !! j = decisions !! j).
Proof.
  revert answers decisions. induction indexes as [|i indexes IH]; intros answers decisions Hlen Hnd Hlt.
  { cbn. intros [= <-]. split_and!; [done| |done]. intros n i Hn. by rewrite lookup_nil in Hn. }
  destruct answers as [|[resp|] answers]; [done| |done]. cbn [placeDecisions]. cbn zeta.
  apply NoDup_cons in Hnd as [Hni Hnd]. intros H.
  destruct (IH answers (<[i:=resourceAccessDecision resp (rolesAt reqs i)]> decisions))
    as (Hl & Hin & Hout); [by injection Hlen|done| |done|].
  { intros j Hj. rewrite length_insert. apply Hlt. by right. }
  rewrite length_insert in Hl. split_and!; [done| |].
  - intros [|n] j; cbn.
    + intros [= <-]. exists resp. split; [done|]. rewrite Hout by done.
      apply list_lookup_insert_eq. apply Hlt. by left.
    + apply Hin.
  - intros j Hj. apply not_elem_of_cons in Hj as [Hne Hj]. rewrite Hout by done.
    by rewrite list_lookup_insert_ne by done.
Qed.

Lemma placeDecisions_total reqs indexes answers decisions :
  ∃ ds, placeDecisions (E := E) reqs indexes (map Some answers) decisions = Ok ds.
Proof.
  revert answers decisions. induction indexes as [|i indexes IH]; intros answers decisions; [by eexists|].
  destruct answers as [|resp answers]; [by eexists|]. cbn. apply IH.
Qed.

Lemma batch_index reqs i q : (i, q) ∈ batchQuestions 0 reqs → i < length reqs.
Proof.
  intros H. apply elem_of_batchQuestions in H as (j & r & -> & Hj & _). by apply lookup_lt_Some in Hj.
Qed.

(** The decisions of a batch whose answers are known. *)
Lemma batch_decisions reqs answers ds :
  length answers = length (batchQuestions 0 reqs) →
  placeDecisions (E := E) reqs (batchQuestions 0 reqs).*1 answers (replicate (length reqs) deny) = Ok ds →
  length ds = length reqs
  ∧ ∀ i r, reqs !! i = Some r →
      (degenerate (protoRequest r) ∧ ds !! i = Some deny)
      ∨ ∃ n resp, (batchQuestions 0 reqs).*2 !! n = Some (protoRequest r) ∧ answers !! n = Some (Some resp)
          ∧ ds !! i = Some (resourceAccessDecision resp (rr_AllowedRoles r)).
Proof.
  intros Hlen H. apply placeDecisions_ok in H as (Hl & Hin & Hout).
  - rewrite length_replicate in Hl. split; [done|]. intros i r Hr.
    destruct (decide (degenerate (protoRequest r))) as [Hd|Hd].
    + left. split; [done|]. rewrite Hout.
      * apply lookup_replicate. split; [done|]. by apply lookup_lt_Some in Hr.
      * rewrite list_elem_of_fmap. intros ([j q] & Hj & Hq). cbn in Hj. subst j.
        apply list_elem_of_lookup_1 in Hq as [n Hn]. apply batchQuestions_lookup in Hn as (r' & ? & -> & ?).
        by simplify_eq.
    + right. assert ((i, protoRequest r) ∈ batchQuestions 0 reqs) as Hq.
      { apply elem_of_batchQuestions. exists i, r. auto. }
      apply list_elem_of_lookup_1 in Hq as [n Hn]. destruct (Hin n i) as (resp & Ha & Hd').
      { by rewrite list_lookup_fmap, Hn. }
      exists n, resp. rewrite list_lookup_fmap, Hn. unfold rolesAt in Hd'. by rewrite Hr in Hd'.
  - by rewrite length_fmap.
  - apply batchQuestions_NoDup.
  - intros i (p & -> & Hp)%list_elem_of_fmap. destruct p as [j q]. rewrite length_replicate.
    by eapply batch_index.
Qed.

Lemma Forall2_lookup_same {A B} (P : A → B → Prop) l k :
  length k = length l → (∀ i x y, l !! i = Some x → k !! i = Some y → P x y) → Forall2 P l k.
Proof. intros Hl H. apply Forall2_same_length_lookup. auto. Qed.

(** C33. A batched check fails closed: every allow in its result was given by the evaluator
    in this batch, for exactly the question that the request asks, and with one of the
    roles the request insists on. *)
Theorem batch_fails_closed (authorization : option (AuthorizationProvider E S)) reqs ds :
  CheckResourceAccessMany authorization reqs = Ok ds →
  length ds = length reqs
  ∧ ∀ i r d, reqs !! i = Some r → ds !! i = Some d → rd_Allowed d = true →
      ∃ provider answers n resp,
        authorization = Some provider
        ∧ CheckAccessMany provider (batchQuestions 0 reqs).*2 = Ok (Some answers)
        ∧ (batchQuestions 0 reqs).*2 !! n = Some (protoRequest r)
        ∧ answers !! n = Some (Some resp) ∧ rp_Allowed resp = true
        ∧ (rr_AllowedRoles r = [] ∨
           (rd_Role d ∈ map TrimSpace (rr_AllowedRoles r) ∧ rd_Role d ∈ map TrimSpace (rp_MatchedRelations resp))).
Proof.
  unfold CheckResourceAccessMany. destruct authorization as [provider|]; [|done].
  destruct (bool_decide _); [done|]. cbn zeta. case_decide as Hb.
  { intros [= <-]. rewrite length_replicate. split; [done|].
    intros i r d _ Hd. apply lookup_replicate in Hd as [-> _]. done. }
  destruct (CheckAccessMany provider _) as [[answers|]|e] eqn:Hc; [|done..].
  destruct (negb _) eqn:Hl; [done|]. apply negb_false_iff, Nat.eqb_eq in Hl. intros H.
  apply batch_decisions in H as [Hlen Hds]; [|done]. split; [done|]. intros i r d Hr Hd Hall.
  destruct (Hds i r Hr) as [[_ Hdeny]|(n & resp & Hn & Ha & Hdec)]; [by simplify_eq|].
  exists provider, answers, n, resp. simplify_eq.
  unfold resourceAccessDecision in *. destruct (rp_Allowed resp) eqn:Hresp; [|done]. cbn [negb] in *.
  split_and!; try done. case_decide as Hroles; [by left|]. right. cbn zeta in *. case_decide as Hm; [done|].
  cbn [rd_Role]. clear Hall. unfold matchedAllowedRole in *.
  set (rels := boundedRelations (rp_MatchedRelations resp)) in *.
  assert ("" ∉ matchedSet rels) as Hne by (rewrite elem_of_matchedSet; tauto).
  destruct (firstMatched_spec _ (rr_AllowedRoles r) Hne) as [H1 _]. destruct (H1 Hm) as [Hmat Hrole].
  split; [done|]. apply elem_of_matchedSet in Hmat as [Hmat _].
  apply list_elem_of_fmap in Hmat as (x & Hx & Hin). subst rels.
  rewrite boundedRelations_take in Hin. apply elem_of_take in Hin as (k & Hk & _).
  apply list_elem_of_lookup_2, elem_of_distinctRelations in Hk as (Hk & _ & _).
  apply list_elem_of_fmap in Hk as (y & -> & Hy). rewrite Hx, TrimSpace_idem.
  by apply list_elem_of_fmap_2.
Qed.

Lemma Forall_choice {A B} (P : A → B → Prop) (l : list A) :
  (∀ x, x ∈ l → ∃ y, P x y) → ∃ k, Forall2 P l k.
Proof.
  induction l as [|x l IH]; intros H; [by exists []|].
  destruct (H x) as [y Hy]; [by left|]. destruct IH as [k Hk]; [intros z Hz; apply H; by right|].
  exists (y :: k). by constructor.
Qed.

(** For an evaluator that answers batches question by question, a batched check and
    the single checks of its requests give the same decisions, in the same order. *)
Theorem batch_agrees_with_single (provider : AuthorizationProvider E S) `{!Batching provider} reqs :
  length reqs ≤ MaxBatchedAccessChecks →
  (∀ r, r ∈ reqs → ¬ degenerate (protoRequest r) → ∃ d, CheckAccess provider (protoRequest r) = Ok (Some d)) →
  ∃ ds, CheckResourceAccessMany (Some provider) reqs = Ok ds
    ∧ Forall2 (λ r d, CheckResourceAccess (Some provider) r = Ok d) reqs ds.
Proof.
  intros Hle Hans. unfold CheckResourceAccessMany. rewrite bool_decide_false by lia. cbn zeta.
  assert (∀ r, CheckResourceAccess (Some provider) r =
    if decide (degenerate (protoRequest r)) then Ok deny
    else match CheckAccess provider (protoRequest r) with
         | Err e => Err (ErrProvider e)
         | Ok None => Err ErrMalformedAuthorizationDecision
         | Ok (Some resp) => Ok (resourceAccessDecision resp (rr_AllowedRoles r))
         end) as Hsingle.
  { intros r. unfold CheckResourceAccess. cbn zeta.
    destruct (decide (degenerate (protoRequest r))) as [H|H]; rewrite degenerate_iff in H;
      [by rewrite decide_True|by rewrite decide_False]. }
  case_decide as Hb.
  { exists (replicate (length reqs) deny). split; [done|]. apply Forall2_lookup_same.
    - by rewrite length_replicate.
    - intros i r d Hr Hd. apply lookup_replicate in Hd as [-> _]. rewrite Hsingle, decide_True; [done|].
      destruct (decide (degenerate (protoRequest r))) as [|Hn]; [done|]. exfalso.
      assert ((i, protoRequest r) ∈ batchQuestions 0 reqs) as Hin.
      { apply elem_of_batchQuestions. exists i, r. auto. }
      rewrite Hb in Hin. by apply elem_of_nil in Hin. }
  destruct (Forall_choice (λ q d, CheckAccess provider q = Ok (Some d)) (batchQuestions 0 reqs).*2)
    as [answers Hf].
  { intros q (p & -> & Hp)%list_elem_of_fmap. destruct p as [i q].
    apply list_elem_of_lookup_1 in Hp as [n Hn]. apply batchQuestions_lookup in Hn as (r & Hr & -> & Hd).
    apply Hans; [by eapply list_elem_of_lookup_2|done]. }
  assert ((batchQuestions 0 reqs).*2 ≠ []) as Hne by (by destruct (batchQuestions 0 reqs)).
  rewrite (batching _ _ Hne Hf).
  assert (length (map Some answers) = length (batchQuestions 0 reqs)) as Hlen.
  { rewrite length_map. apply Forall2_length in Hf. by rewrite length_fmap in Hf. }
  rewrite (proj2 (Nat.eqb_eq _ _) Hlen). cbn [negb].
  destruct (placeDecisions_total reqs (batchQuestions 0 reqs).*1 answers (replicate (length reqs) deny))
    as [ds Hds].
  exists ds. split; [done|]. apply batch_decisions in Hds as [Hl Hds]; [|done].
  apply Forall2_lookup_same; [done|]. intros i r d Hr Hd. rewrite Hsingle.
  destruct (Hds i r Hr) as [[Hdeg Hdeny]|(n & resp & Hn & Ha & Hdec)].
  - rewrite decide_True by done. by simplify_eq.
  - pose proof (Forall2_lookup_l _ _ _ _ _ Hf Hn) as (resp' & Hr' & Hcheck).
    rewrite list_lookup_fmap, Hr' in Ha. cbn in Ha. simplify_eq. rewrite Hcheck.
    rewrite decide_False; [done|]. rewrite list_lookup_fmap in Hn.
    destruct (batchQuestions 0 reqs !! n) as [[j q]|] eqn:Hq; [|done]. cbn in Hn. simplify_eq.
    apply batchQuestions_lookup in Hq as (? & _ & _ & ?). done.
Qed.
End batches.

(** ** Witnesses *)

(** An evaluator given by a function, which batches. *)
Definition answering {E S} (ask : CheckAccessRequest S → CheckAccessResponse) : AuthorizationProvider E S :=
  {| CheckAccess q := Ok (Some (ask q)); CheckAccessMany qs := Ok (Some (map (Some ∘ ask) qs)) |}.

#[export] Instance answering_batching {E S} (ask : CheckAccessRequest S → CheckAccessResponse) :
  Batching (E := E) (answering ask).
Proof.
  intros qs answers _ H. cbn. f_equal. f_equal. induction H as [|q d qs ds Hq _ IH]; [done|].
  cbn in *. injection Hq as <-. by f_equal.
Qed.

Definition read_only (q : CheckAccessRequest unit) : CheckAccessResponse :=
  {| rp_Allowed := String.prefix "read" (rq_Action q); rp_MatchedRelations := ["viewer"] |}.

Definition sample_request (action : string) (roles : list string) : ResourceAccessRequest unit :=
  {| rr_SubjectID := "user:u1"; rr_Action := action;
     rr_Resource := Some {| rs_Type := "app"; rs_Id := "slack" |};
     rr_AllowedRoles := roles; rr_SubjectProperties := None |}.
Definition sample_requests : list (ResourceAccessRequest unit) :=
  [sample_request "read.a" []; sample_request " " []; sample_request "write" []; sample_request "read.b" ["admin"]].

Lemma batch_agrees_with_single_witness :
  ∃ ds, CheckResourceAccessMany (Some (answering (E := unit) read_only)) sample_requests = Ok ds
    ∧ map rd_Allowed ds = [true; false; false; false]
    ∧ Forall2 (λ r d, CheckResourceAccess (Some (answering (E := unit) read_only)) r = Ok d) sample_requests ds.
Proof.
  destruct (batch_agrees_with_single (answering (E := unit) read_only) sample_requests) as (ds & Hds & Hall).
  - unfold MaxBatchedAccessChecks. cbn. lia.
  - intros r _ _. eexists. reflexivity.
  - exists ds. split_and!; [done| |done].
    assert (CheckResourceAccessMany (Some (answering (E := unit) read_only)) sample_requests
            = Ok [{| rd_Allowed := true; rd_Role := "viewer" |}; deny; deny; deny]) as H by (by vm_compute).
    rewrite H in Hds. by injection Hds as <-.
Defined.

Lemma batch_fails_closed_witness :
  ∃ ds, CheckResourceAccessMany (Some (answering (E := unit) read_only)) sample_requests = Ok ds
    ∧ length ds = 4.
Proof.
  destruct (CheckResourceAccessMany (Some (answering (E := unit) read_only)) sample_requests) as [ds|e] eqn:H;
    [|by vm_compute in H].
  exists ds. split; [done|]. by apply (batch_fails_closed (Some (answering (E := unit) read_only)) sample_requests ds H).
Defined.

End AccessDecisions.
