(* ===== verification/InvocationContext.v ===== *)
(** * InvocationContext: what a call carries, and the providers it reaches

    Models [gestaltd/services/invocation/context.go], [catalog_context.go],
    [credential_mode.go], [connection_overrides.go], the operation accessors of
    [capabilities.go], the errors of [errors.go], and the interfaces of
    [core/provider.go] and [core/provider_capabilities.go] as a record.

    A [context.Context] is what Go makes of it: a chain of key/value bindings of which
    the innermost wins.  An error is its sentinel; message texts are not modelled.
    Call parameters ([P]), what executing a call is ([R]) and errors of the provider ([E]) are
    opaque. *)

From stdpp Require Import base gmap strings list sorting sets.
From Stdlib Require Import ZArith Ascii Lia.
From S2P Require Import Prelude Catalog TurnScope Principals Permissions.

Set Default Goal Selector "!".

Module InvocationContext.
Import Catalog Principals Permissions.

(** ** Errors *)

Inductive sentinel :=
  | ErrProviderNotFound | ErrOperationNotFound | ErrNotAuthenticated | ErrAuthorizationDenied
  | ErrNoCredential | ErrReconnectRequired | ErrAmbiguousInstance | ErrUserResolution
  | ErrInternal | ErrScopeDenied | ErrInvalidInvocation | ErrStreamingUnsupported
  | ErrAuthorizationUnavailable | ErrMalformedAuthorizationDecision | ErrBatchedAccessTooLarge
  | ErrNoCatalog | ErrNotSupported.
#[export] Instance sentinel_eq_dec : EqDecision sentinel.
Proof. solve_decision. Defined.

(** [Wraps s]: [errors.Is] finds [s].  [SessionUnavailable]: the error of a session
    catalog ([core/provider_capabilities.go]) with its flag and cause.  [MaxDepthError],
    [RecursionError], [RateLimitError]: those of [guard_errors.go].  [Unspecific]: an error
    with a text and nothing to ask for.  [Foreign]: an error of a collaborator passed
    through. *)
Inductive Error (E : Type) :=
  | Wraps (s : sentinel)
  | SessionUnavailable (unsupported : bool) (cause : option (Error E))
  | MaxDepthError (depth max : Z)
  | RecursionError (provider operation : string)
  | RateLimitError (provider : string)
  | Unspecific
  | Foreign (e : E).
#[global] Arguments Wraps {E} s.
#[global] Arguments SessionUnavailable {E} unsupported cause.
#[global] Arguments MaxDepthError {E} depth max.
#[global] Arguments RecursionError {E} provider operation.
#[global] Arguments RateLimitError {E} provider.
#[global] Arguments Unspecific {E}.
#[global] Arguments Foreign {E} e.

(** What [errors.Is] and [errors.As] find behind the errors of session catalogs, which
    unwrap to their cause. *)
Fixpoint rootCause {E} (err : Error E) : Error E :=
  match err with
  | SessionUnavailable _ (Some cause) => rootCause cause
  | _ => err
  end.

(** ** Values of a context *)

Record InvocationMeta := { im_RequestID : string; im_Depth : Z; im_CallChain : list string }.
Record RequestMeta := { rm_ClientIP : string; rm_RemoteAddr : string; rm_UserAgent : string }.
Record CallerProvider := { cp_Kind : ProviderKind; cp_Name : string }.
Record AccessContext := { ac_Policy : string; ac_Role : string }.
Record CredentialContext := {
  cc_Mode : string; cc_SubjectID : string; cc_Connection : string; cc_Instance : string }.
Record RunAsAuditContext := {
  ra_AgentSubject : option TurnScope.RunAsSubject; ra_RunAsSubject : option TurnScope.RunAsSubject }.

Record HostContext := { hc_PublicBaseURL : string }.
Record ToolRefsContext := { tc_Set : bool; tc_Refs : list TurnScope.ToolRef }.
Record AgentInvocationContext := { ai_ProviderName : string; ai_SessionID : string; ai_TurnID : string }.

Definition no_agent : AgentInvocationContext := {| ai_ProviderName := ""; ai_SessionID := ""; ai_TurnID := "" |}.
#[export] Instance AgentInvocationContext_eq_dec : EqDecision AgentInvocationContext.
Proof. solve_decision. Defined.
#[export] Instance RequestMeta_eq_dec : EqDecision RequestMeta.
Proof. solve_decision. Defined.
#[export] Instance CredentialContext_eq_dec : EqDecision CredentialContext.
Proof. solve_decision. Defined.

Definition Entry := string.
Definition EntryHTTP : Entry := "HTTP".
Definition EntryGRPC : Entry := "gRPC".
Definition EntryInternal : Entry := "internal".
Definition InvocationSurfaceWorkflow : InvocationSurface := "workflow".
Definition InvocationSurfaceCrossApp : InvocationSurface := "cross_app".

(** One [context.WithValue] of the packages modelled here. *)
Inductive binding :=
  | BPrincipal (p : option Principal)
  | BMeta (meta : InvocationMeta)
  | BRequestMeta (meta : RequestMeta)
  | BSurface (s : InvocationSurface)
  | BEntry (e : Entry)
  | BHTTPBinding (b : string)
  | BCaller (c : CallerProvider)
  | BAccess (a : AccessContext)
  | BCredential (c : CredentialContext)
  | BConnection (c : string)
  | BIdempotencyKey (k : string)
  | BModeOverride (m : string)
  | BCatalogOperation (provider : string) (op : CatalogOperation)
  | BRunAsAudit (a : RunAsAuditContext)
  | BInternalConnectionAccess
  | BHost (h : HostContext)
  | BWorkflow (workflow : option (list (string * any)))
  | BToolRefs (t : ToolRefsContext)
  | BAgent (a : AgentInvocationContext)
  | BAuditEntry (loc : nat)
  | BInvokeHeaders (headers : gmap string string)
  | BOutboundHeaders (headers : gmap string string)
  | BConnectionParams (params : gmap string string)
  | BPublicOrigin (fullMethod : string).
Definition Context := list binding.

(** [ctx.Value]: the innermost binding that matches the key. *)
Fixpoint Value {A} (key : binding → option A) (ctx : Context) : option A :=
  match ctx with
  | [] => None
  | b :: ctx => match key b with Some v => Some v | None => Value key ctx end
  end.

Definition WithPrincipal (ctx : Context) (p : option Principal) : Context := BPrincipal (Canonicalized p) :: ctx.
Definition FromContext (ctx : Context) : option Principal :=
  Canonicalize (default None (Value (λ b, match b with BPrincipal p => Some p | _ => None end) ctx)).

Definition MetaFromContext (ctx : Context) : option InvocationMeta :=
  Value (λ b, match b with BMeta m => Some m | _ => None end) ctx.
Definition ContextWithMeta (ctx : Context) (meta : InvocationMeta) : Context := BMeta meta :: ctx.

(** [newID] is the fresh UUID; storing a missing request ID into the shared metadata is
    a binding in front of it. *)
Definition ensureMeta (newID : string) (ctx : Context) : Context * InvocationMeta :=
  match MetaFromContext ctx with
  | Some meta =>
      if decide (TrimSpace (im_RequestID meta) = "") then
        let meta := {| im_RequestID := newID; im_Depth := im_Depth meta; im_CallChain := im_CallChain meta |} in
        (ContextWithMeta ctx meta, meta)
      else (ctx, meta)
  | None =>
      let meta := {| im_RequestID := newID; im_Depth := 0; im_CallChain := [] |} in
      (ContextWithMeta ctx meta, meta)
  end.

Definition RequestMetaFromContext (ctx : Context) : RequestMeta :=
  default {| rm_ClientIP := ""; rm_RemoteAddr := ""; rm_UserAgent := "" |}
    (Value (λ b, match b with BRequestMeta m => Some m | _ => None end) ctx).
Definition WithRequestMeta (ctx : Context) (meta : RequestMeta) : Context := BRequestMeta meta :: ctx.

Definition WithRunAsAudit (ctx : Context) (agentSubject runAsSubject : option TurnScope.RunAsSubject) : Context :=
  match TurnScope.NormalizeRunAsSubject runAsSubject with
  | None => ctx
  | Some runAs =>
      BRunAsAudit {| ra_AgentSubject := TurnScope.NormalizeRunAsSubject agentSubject;
                     ra_RunAsSubject := Some runAs |} :: ctx
  end.
Definition RunAsAuditFromContext (ctx : Context) : RunAsAuditContext :=
  match Value (λ b, match b with BRunAsAudit a => Some a | _ => None end) ctx with
  | None => {| ra_AgentSubject := None; ra_RunAsSubject := None |}
  | Some a => {| ra_AgentSubject := TurnScope.NormalizeRunAsSubject (ra_AgentSubject a);
                 ra_RunAsSubject := TurnScope.NormalizeRunAsSubject (ra_RunAsSubject a) |}
  end.

Definition WithCredentialContext (ctx : Context) (cred : CredentialContext) : Context := BCredential cred :: ctx.
Definition CredentialContextFromContext (ctx : Context) : CredentialContext :=
  default {| cc_Mode := ""; cc_SubjectID := ""; cc_Connection := ""; cc_Instance := "" |}
    (Value (λ b, match b with BCredential c => Some c | _ => None end) ctx).

Definition WithCallerProvider (ctx : Context) (kind : ProviderKind) (name : string) : Context :=
  let kind := TrimSpace kind in let name := TrimSpace name in
  if decide (kind = "" ∨ name = "") then ctx else BCaller {| cp_Kind := kind; cp_Name := name |} :: ctx.
Definition CallerProviderFromContext (ctx : Context) : CallerProvider :=
  match Value (λ b, match b with BCaller c => Some c | _ => None end) ctx with
  | None => {| cp_Kind := ""; cp_Name := "" |}
  | Some c => {| cp_Kind := TrimSpace (cp_Kind c); cp_Name := TrimSpace (cp_Name c) |}
  end.

Definition WithAccessContext (ctx : Context) (access : AccessContext) : Context := BAccess access :: ctx.
Definition AccessContextFromContext (ctx : Context) : AccessContext :=
  default {| ac_Policy := ""; ac_Role := "" |}
    (Value (λ b, match b with BAccess a => Some a | _ => None end) ctx).

Definition WithInvocationSurface (ctx : Context) (s : InvocationSurface) : Context := BSurface s :: ctx.
Definition InvocationSurfaceFromContext (ctx : Context) : InvocationSurface :=
  default "" (Value (λ b, match b with BSurface s => Some s | _ => None end) ctx).

Definition WithEntry (ctx : Context) (e : Entry) : Context := if decide (e = "") then ctx else BEntry e :: ctx.
Definition EntryFromContext (ctx : Context) : Entry :=
  let e := default "" (Value (λ b, match b with BEntry e => Some e | _ => None end) ctx) in
  if decide (e = "") then EntryInternal else e.

Definition WithHTTPBinding (ctx : Context) (b : string) : Context :=
  let b := TrimSpace b in if decide (b = "") then ctx else BHTTPBinding b :: ctx.
Definition HTTPBindingFromContext (ctx : Context) : string :=
  TrimSpace (default "" (Value (λ b, match b with BHTTPBinding s => Some s | _ => None end) ctx)).

Definition WithInternalConnectionAccess (ctx : Context) : Context := BInternalConnectionAccess :: ctx.
Definition InternalConnectionAccessFromContext (ctx : Context) : bool :=
  bool_decide (is_Some (Value (λ b, match b with BInternalConnectionAccess => Some tt | _ => None end) ctx)).

Definition WithHostContext (ctx : Context) (host : HostContext) : Context := BHost host :: ctx.
Definition HostContextFromContext (ctx : Context) : HostContext :=
  default {| hc_PublicBaseURL := "" |} (Value (λ b, match b with BHost h => Some h | _ => None end) ctx).

(** Cloning a list of references keeps their values; the sharing it breaks is between
    this list and its source. *)
Definition WithToolRefsContext (ctx : Context) (refs : list TurnScope.ToolRef) : Context :=
  BToolRefs {| tc_Set := true; tc_Refs := refs |} :: ctx.
Definition ToolRefsContextFromContext (ctx : Context) : ToolRefsContext :=
  default {| tc_Set := false; tc_Refs := [] |} (Value (λ b, match b with BToolRefs t => Some t | _ => None end) ctx).

Definition normalizeAgentInvocationContext (agent : AgentInvocationContext) : AgentInvocationContext :=
  {| ai_ProviderName := TrimSpace (ai_ProviderName agent); ai_SessionID := TrimSpace (ai_SessionID agent);
     ai_TurnID := TrimSpace (ai_TurnID agent) |}.
Definition WithAgentInvocationContext (ctx : Context) (agent : AgentInvocationContext) : Context :=
  let agent := normalizeAgentInvocationContext agent in
  if decide (agent = no_agent) then ctx else BAgent agent :: ctx.
Definition AgentInvocationContextFromContext (ctx : Context) : AgentInvocationContext :=
  normalizeAgentInvocationContext (default no_agent (Value (λ b, match b with BAgent a => Some a | _ => None end) ctx)).

(** The workflow context is a Go map: its entries in an order of iteration, with a nil map
    as [None].  It is shared, never changed in place. *)
Definition workflowMap := list (string * any).

Fixpoint map_get (m : workflowMap) (key : string) : option any :=
  match m with
  | [] => None
  | (k, v) :: m => if decide (k = key) then Some v else map_get m key
  end.
Fixpoint map_set (m : workflowMap) (key : string) (value : any) : workflowMap :=
  match m with
  | [] => [(key, value)]
  | (k, v) :: m => if decide (k = key) then (k, value) :: m else (k, v) :: map_set m key value
  end.

(** Keys are trimmed, empty keys dropped, values copied; of keys that collide the last one
    wins. *)
Fixpoint cloneWorkflowContextValue (value : any) : any :=
  match value with
  | AMap m =>
      AMap ((fix copy (m : workflowMap) (out : workflowMap) : workflowMap :=
               match m with
               | [] => out
               | (k, v) :: m =>
                   let key := TrimSpace k in
                   copy m (if decide (key = "") then out else map_set out key (cloneWorkflowContextValue v))
               end) m [])
  | AList l => AList (map cloneWorkflowContextValue l)
  | v => v
  end.

Definition CloneWorkflowContext (src : option workflowMap) : option workflowMap :=
  match src with
  | None => None
  | Some m => match cloneWorkflowContextValue (AMap m) with
              | AMap (e :: out) => Some (e :: out)
              | _ => None
              end
  end.

Definition WithWorkflowContext (ctx : Context) (workflow : option workflowMap) : Context :=
  BWorkflow workflow :: ctx.
Definition WorkflowContextFromContext (ctx : Context) : option workflowMap :=
  default None (Value (λ b, match b with BWorkflow w => Some w | _ => None end) ctx).
Definition WorkflowContextString (value : option workflowMap) (key : string) : string :=
  match value ≫= (λ m, map_get m key) with Some (AString s) => s | _ => "" end.
Definition WithWorkflowContextString (ctx : Context) (key value : string) : Context :=
  let key := TrimSpace key in let value := TrimSpace value in
  if decide (key = "" ∨ value = "") then ctx else
  let workflow := WorkflowContextFromContext ctx in
  match default [] workflow with
  | [] => WithWorkflowContext ctx (Some [(key, AString value)])
  | m => if decide (TrimSpace (WorkflowContextString workflow key) = value) then ctx
         else WithWorkflowContext ctx (Some (map_set m key (AString value)))
  end.

Definition withAuditEntry (ctx : Context) (loc : nat) : Context := BAuditEntry loc :: ctx.
Definition auditEntryFromContext (ctx : Context) : option nat :=
  Value (λ b, match b with BAuditEntry l => Some l | _ => None end) ctx.

Definition WithConnection (ctx : Context) (connection : string) : Context := BConnection connection :: ctx.
Definition ConnectionFromContext (ctx : Context) : string :=
  default "" (Value (λ b, match b with BConnection c => Some c | _ => None end) ctx).

Definition WithIdempotencyKey (ctx : Context) (key : string) : Context :=
  let key := TrimSpace key in if decide (key = "") then ctx else BIdempotencyKey key :: ctx.
Definition IdempotencyKeyFromContext (ctx : Context) : string :=
  TrimSpace (default "" (Value (λ b, match b with BIdempotencyKey k => Some k | _ => None end) ctx)).

Definition WithPublicOrigin (ctx : Context) (fullMethod : string) : Context := BPublicOrigin fullMethod :: ctx.
Definition isPublicIngress (ctx : Context) : bool :=
  bool_decide (is_Some (Value (λ b, match b with BPublicOrigin m => Some m | _ => None end) ctx)).

Definition WithCatalogOperation (ctx : Context) (provider : string) (op : CatalogOperation) : Context :=
  BCatalogOperation provider op :: ctx.
Definition CatalogOperationFromContext (ctx : Context) (provider operation : string) : option CatalogOperation :=
  match Value (λ b, match b with BCatalogOperation p o => Some (p, o) | _ => None end) ctx with
  | None => None
  | Some (p, o) => if decide (p = provider ∧ op_ID o = operation) then Some o else None
  end.

Definition withResolvedPrincipal (ctx : Context) (p : option Principal) : Context :=
  match p with None => ctx | Some _ => WithPrincipal ctx p end.

Definition ApplyDelegation (ctx : Context) (p : option Principal) (runAs : option TurnScope.RunAsSubject)
    : Context * option Principal :=
  let runAs := TurnScope.NormalizeRunAsSubject runAs in
  match runAs with
  | None => (ctx, p)
  | Some _ =>
      let ctx := WithRunAsAudit ctx (AuditSubjectFromPrincipal p) runAs in
      let p := RunAsPrincipal p runAs in
      (WithPrincipal ctx p, p)
  end.

(** ** Optional steps *)

Definition when (c : bool) (f : Context → Context) (ctx : Context) : Context := if c then f ctx else ctx.
Definition whenSome {A} (o : option A) (f : A → Context → Context) (ctx : Context) : Context :=
  match o with Some a => f a ctx | None => ctx end.

Lemma Value_when {A} (k : binding → option A) c f ctx :
  (∀ x, Value k (f x) = Value k x) → Value k (when c f ctx) = Value k ctx.
Proof. intros H. by destruct c; cbn; rewrite ?H. Qed.

Lemma Value_whenSome {A B} (k : binding → option A) (o : option B) f ctx :
  (∀ b x, Value k (f b x) = Value k x) → Value k (whenSome o f ctx) = Value k ctx.
Proof. intros H. by destruct o; cbn; rewrite ?H. Qed.

(** A step for another key is looked through. *)
Ltac look_through :=
  repeat first
    [ rewrite Value_when
        by (intros; unfold WithRunAsAudit, WithCallerProvider, WithAgentInvocationContext; cbn zeta;
            repeat case_match; reflexivity)
    | rewrite Value_whenSome
        by (intros; unfold WithRunAsAudit, WithCallerProvider, WithAgentInvocationContext; cbn zeta;
            repeat case_match; reflexivity) ].

(** ** Connections *)

Definition AppConnectionName : string := "_app".
Definition AppConnectionAlias : string := "app".
Definition ResolveConnectionAlias (name : string) : string :=
  if decide (name = AppConnectionAlias) then AppConnectionName else name.

Definition ConnectionSurface := string.
Definition ConnectionSurfaceDefault : ConnectionSurface := "default".
Definition ConnectionSurfaceAPI : ConnectionSurface := "api".
Definition ConnectionSurfaceMCP : ConnectionSurface := "mcp".

(** [ConnectionOverrides]: an interface answering a name, or no override. *)
Definition ConnectionOverrides := option (ConnectionSurface → string → option string).

Definition ConnectionNameFor (overrides : ConnectionOverrides) (surface : ConnectionSurface)
    (static : gmap string string) (provider : string) : string :=
  match overrides ≫= (λ o, o surface provider) with
  | Some name => name
  | None => default "" (static !! provider)
  end.

(** ** Providers *)

Definition OperationTransport (op : CatalogOperation) : string :=
  let transport := TrimSpace (op_Transport op) in
  if bool_decide (transport = "") && negb (bool_decide (TrimSpace (op_Method op) = "")) then "rest" else transport.
Definition TransportApp : string := "app".

Section providers.
  Context {E P R : Type}.

Record GraphQLRequest := { gr_Document : string; gr_OperationName : string; gr_Variables : P }.

(** [core.Provider] and its optional interfaces, [None] when not implemented. *)
Record Provider := {
  pv_Name : string;
  pv_ConnectionMode : string;
  pv_ConnectionForOperation : string → string;
  pv_Catalog : option Catalog;
  pv_Execute : Context → string → P → string → R;
  pv_DefaultAppAccessOperations : option (list string * bool);
  pv_SupportsSessionCatalog : option bool;
  pv_CatalogForRequest : option (Context → string → result (Error E) (option Catalog));
  pv_RemoteCredentialDelegated : option bool;
  pv_ResolveStaticOperationForRequest : option (Context → string → option CatalogOperation);
  pv_ResolveConnectionForOperation : option (string → P → result E string);
  pv_OperationConnectionOverrideAllowed : option (string → P → bool);
  pv_ExecuteStream : option (Context → string → P → string → R);
  pv_InvokeGraphQL : option (Context → GraphQLRequest → string → R);
  pv_StaticHeaders : option (gmap string string) }.

Definition SupportsSessionCatalog (prov : option Provider) : bool :=
  match prov with
  | None => false
  | Some prov =>
      match pv_SupportsSessionCatalog prov with
      | Some supported => supported
      | None => bool_decide (is_Some (pv_CatalogForRequest prov))
      end
  end.

Definition wrapSessionCatalogUnavailable (r : result (Error E) (option Catalog))
    : result (Error E) (option Catalog) :=
  match r with
  | Ok _ | Err (SessionUnavailable _ _) => r
  | Err e => Err (SessionUnavailable false (Some e))
  end.

(** The flag tells whether the provider was asked. *)
Definition CatalogForRequest (ctx : Context) (prov : Provider) (token : string)
    : bool * result (Error E) (option Catalog) :=
  if negb (SupportsSessionCatalog (Some prov)) then (false, Ok None)
  else match pv_CatalogForRequest prov with
       | None => (true, Err (SessionUnavailable true (Some Unspecific)))
       | Some catalogForRequest => (true, wrapSessionCatalogUnavailable (catalogForRequest ctx token))
       end.

Definition providerDelegatesRemoteAuthorization (prov : option Provider) : bool :=
  match prov with None => false | Some prov => default false (pv_RemoteCredentialDelegated prov) end.

Section with_lower.
  Context (ToLower : string → string).

Definition normalizeCredentialModeOverride (mode : string) : string :=
  let normalized := TurnScope.NormalizeOptionalConnectionMode ToLower mode in
  if contains [TurnScope.ConnectionModeNone; TurnScope.ConnectionModeSubject] normalized then normalized else "".

Definition WithCredentialModeOverride (ctx : Context) (mode : string) : Context :=
  let mode := normalizeCredentialModeOverride mode in
  if decide (mode = "") then ctx else BModeOverride mode :: ctx.
Definition CredentialModeOverrideFromContext (ctx : Context) : string :=
  normalizeCredentialModeOverride
    (default "" (Value (λ b, match b with BModeOverride m => Some m | _ => None end) ctx)).

Definition effectiveConnectionMode (ctx : Context) (prov : option Provider) : string :=
  let override := CredentialModeOverrideFromContext ctx in
  if negb (bool_decide (override = "")) then override
  else match prov with
       | None => ""
       | Some prov => TurnScope.NormalizeConnectionMode ToLower (pv_ConnectionMode prov)
       end.
End with_lower.
End providers.
#[global] Arguments Provider : clear implicits.
#[global] Arguments GraphQLRequest : clear implicits.

End InvocationContext.
