(* ===== verification/RequestHeaders.v ===== *)
(** * RequestHeaders: header overrides of nested invocations

    Models [gestaltd/services/invocation/request_headers.go] and
    [gestaltd/services/egress/outbound_headers.go].

    A map of headers handed in is the list of its entries in an order of iteration, since
    two of its names may be one canonical name; stored maps have canonical names. *)

From stdpp Require Import base gmap strings list sorting sets.
From Stdlib Require Import ZArith Ascii Lia.
From S2P Require Import Prelude InvocationContext.

Set Default Goal Selector "!".

Module RequestHeaders.
Import InvocationContext.

(** The token characters of a header name. *)
Definition validHeaderFieldByte (a : ascii) : bool :=
  byte_in 48 57 a || byte_in 65 90 a || byte_in 97 122 a
  || existsb (λ n, byte_is n a) [33; 35; 36; 37; 38; 39; 42; 43; 45; 46; 94; 95; 96; 124; 126]%N.

Definition upper_ascii (a : ascii) : ascii :=
  if byte_in 97 122 a then ascii_of_N (N_of_ascii a - 32) else a.

Fixpoint capitalize (upper : bool) (l : bytes) : bytes :=
  match l with
  | [] => []
  | a :: l => let c := if upper then upper_ascii a else lower_ascii a in c :: capitalize (byte_is 45 c) l
  end.

(** [http.CanonicalHeaderKey] *)
Definition CanonicalHeaderKey (s : string) : string :=
  let l := String.list_ascii_of_string s in
  if forallb validHeaderFieldByte l then String.string_of_list_ascii (capitalize true l) else s.

(** The loop both normalizations share. *)
Definition normalizeHeader (normalized : gmap string string) (entry : string * string) : gmap string string :=
  let name := TrimSpace entry.1 in
  let value := TrimSpace entry.2 in
  if decide (name = "" ∨ value = "") then normalized else <[CanonicalHeaderKey name := value]> normalized.
Definition normalizeHeaders (headers : list (string * string)) : gmap string string :=
  foldl normalizeHeader ∅ headers.

Definition WithInvokeRequestHeaders (ctx : Context) (headers : list (string * string)) : Context :=
  let normalized := normalizeHeaders headers in
  if decide (normalized = ∅) then ctx else BInvokeHeaders normalized :: ctx.
Definition InvokeRequestHeadersFromContext (ctx : Context) : gmap string string :=
  default ∅ (Value (λ b, match b with BInvokeHeaders h => Some h | _ => None end) ctx).

Definition WithOutboundHeaderOverrides (ctx : Context) (headers : list (string * string)) : Context :=
  let normalized := normalizeHeaders headers in
  if decide (normalized = ∅) then ctx else BOutboundHeaders normalized :: ctx.
Definition OutboundHeaderOverridesFromContext (ctx : Context) : gmap string string :=
  default ∅ (Value (λ b, match b with BOutboundHeaders h => Some h | _ => None end) ctx).

Definition staticHeaderKey (staticHeaders : gmap string string) (requested : string) : option string :=
  let requested := TrimSpace requested in
  if decide (requested = "") then None
  else let canonical := CanonicalHeaderKey requested in
       if existsb (λ entry : string * string, bool_decide (CanonicalHeaderKey entry.1 = canonical))
            (map_to_list staticHeaders)
       then Some canonical else None.

Section overrides.
  Context {E P R : Type}.

Definition providerStaticHeaders (prov : Provider E P R) : gmap string string :=
  default ∅ (pv_StaticHeaders prov).

Fixpoint collectOverrides (staticHeaders : gmap string string) (requested : list (string * string))
    (overrides : gmap string string) : result (Error E) (gmap string string) :=
  match requested with
  | [] => Ok overrides
  | (name, value) :: requested =>
      match staticHeaderKey staticHeaders name with
      | None => Err (Wraps ErrInvalidInvocation)
      | Some staticKey => collectOverrides staticHeaders requested (<[staticKey := value]> overrides)
      end
  end.

Definition ApplyInvokeHeaderOverrides (ctx : Context) (prov : Provider E P R) : result (Error E) Context :=
  let requested := InvokeRequestHeadersFromContext ctx in
  if decide (requested = ∅) then Ok ctx
  else let staticHeaders := providerStaticHeaders prov in
       fail_if bool_decide (staticHeaders = ∅) with Wraps ErrInvalidInvocation ;;
       let! overrides := collectOverrides staticHeaders (map_to_list requested) ∅ in
       Ok (WithOutboundHeaderOverrides ctx (map_to_list overrides)).
End overrides.

(** ** Canonical names *)

Lemma lower_upper a : lower_ascii (lower_ascii a) = lower_ascii a ∧ upper_ascii (upper_ascii a) = upper_ascii a.
Proof. by destruct a as [[|] [|] [|] [|] [|] [|] [|] [|]]. Qed.

Lemma capitalize_idem upper l : capitalize upper (capitalize upper l) = capitalize upper l.
Proof.
  revert upper. induction l as [|a l IH]; intros upper; cbn; [done|].
  assert ((if upper then upper_ascii (if upper then upper_ascii a else lower_ascii a)
           else lower_ascii (if upper then upper_ascii a else lower_ascii a))
          = (if upper then upper_ascii a else lower_ascii a)) as ->.
  { destruct upper; apply lower_upper. }
  by rewrite IH.
Qed.

Lemma valid_case a :
  validHeaderFieldByte (upper_ascii a) = validHeaderFieldByte a
  ∧ validHeaderFieldByte (lower_ascii a) = validHeaderFieldByte a.
Proof. by destruct a as [[|] [|] [|] [|] [|] [|] [|] [|]]. Qed.

Lemma valid_capitalize upper l :
  forallb validHeaderFieldByte (capitalize upper l) = forallb validHeaderFieldByte l.
Proof.
  revert upper. induction l as [|a l IH]; intros upper; cbn; [done|]. rewrite IH. f_equal.
  destruct upper; apply valid_case.
Qed.

Lemma CanonicalHeaderKey_idem s : CanonicalHeaderKey (CanonicalHeaderKey s) = CanonicalHeaderKey s.
Proof.
  unfold CanonicalHeaderKey at 2 3. cbn zeta. destruct (forallb _ _) eqn:H; unfold CanonicalHeaderKey; cbn zeta.
  - rewrite String.list_ascii_of_string_of_list_ascii, valid_capitalize, H. by rewrite capitalize_idem.
  - by rewrite H.
Qed.

Lemma valid_ink a : validHeaderFieldByte a = true → ink a = true.
Proof. by destruct a as [[|] [|] [|] [|] [|] [|] [|] [|]]. Qed.

Lemma CanonicalHeaderKey_trimmed s : TrimSpace s = s → TrimSpace (CanonicalHeaderKey s) = CanonicalHeaderKey s.
Proof.
  intros Hs. unfold CanonicalHeaderKey. cbn zeta. destruct (forallb _ _) eqn:H; [|done].
  apply TrimSpace_ink. unfold ink_text. rewrite String.list_ascii_of_string_of_list_ascii.
  rewrite forallb_forall. intros a Ha. apply valid_ink. rewrite <- (valid_capitalize true), forallb_forall in H. auto.
Qed.

(** ** What may be overridden *)

Lemma normalizeHeaders_spec headers acc name value :
  foldl normalizeHeader acc headers !! name = Some value →
  acc !! name = Some value ∨
  ∃ k v, (k, v) ∈ headers ∧ name = CanonicalHeaderKey (TrimSpace k) ∧ value = TrimSpace v ∧ value ≠ "".
Proof.
  revert acc. induction headers as [|[k v] headers IH]; intros acc H; [by left|]. cbn [foldl] in H.
  apply IH in H as [H|(k' & v' & Hin & ? & ? & ?)].
  - unfold normalizeHeader in H. cbn zeta in H. case_decide as Hn; [by left|].
    apply lookup_insert_Some in H as [[<- <-]|[_ H]]; [|by left].
    right. exists k, v. cbn [fst snd] in *. split_and!; [left|done|done|tauto].
  - right. exists k', v'. split_and!; [by right|done..].
Qed.

Lemma collectOverrides_ok {E} static requested acc overrides :
  collectOverrides (E := E) static requested acc = Ok overrides →
  (∀ name value, (name, value) ∈ requested → is_Some (staticHeaderKey static name)) ∧
  ∀ name value, overrides !! name = Some value →
    acc !! name = Some value ∨ ∃ k, (k, value) ∈ requested ∧ staticHeaderKey static k = Some name.
Proof.
  revert acc. induction requested as [|[k v] requested IH]; intros acc H.
  - injection H as <-. split; [|by left]. intros ? ? Hin. by apply elem_of_nil in Hin.
  - cbn in H. destruct (staticHeaderKey static k) as [key|] eqn:Hk; [|done].
    apply IH in H as [H1 H2]. split.
    + intros name value Hin. apply elem_of_cons in Hin as [[= -> ->]|Hin]; [by rewrite Hk|eauto].
    + intros name value Ho. apply H2 in Ho as [Ho|(k' & Hin & Hk')].
      * apply lookup_insert_Some in Ho as [[<- <-]|[_ Ho]]; [|by left]. right. exists k. split; [left|done].
      * right. exists k'. split; [by right|done].
Qed.

Lemma staticHeaderKey_ok static requested name :
  staticHeaderKey static requested = Some name →
  name = CanonicalHeaderKey (TrimSpace requested) ∧
  ∃ declared value, static !! declared = Some value ∧ CanonicalHeaderKey declared = name.
Proof.
  unfold staticHeaderKey. case_decide as Hr; [done|]. destruct (existsb _ _) eqn:H; [|done]. intros [= <-].
  split; [done|]. apply existsb_exists in H as ([d v] & Hin & Hd). apply bool_decide_eq_true in Hd.
  exists d, v. split; [|done]. apply elem_of_map_to_list. by apply list_elem_of_In.
Qed.

(** A nested invocation overrides only headers that the provider declares: when header
    overrides are accepted, every requested header is a declared one, and every header
    that goes out with an override has the name of a declared header and the value that
    was requested for that name. *)
Theorem overrides_only_declared_headers {E P R} (ctx ctx' : Context) (prov : Provider E P R) :
  OutboundHeaderOverridesFromContext ctx = ∅ →
  ApplyInvokeHeaderOverrides ctx prov = Ok ctx' →
  (∀ name, is_Some (InvokeRequestHeadersFromContext ctx !! name) →
     ∃ declared, is_Some (providerStaticHeaders prov !! declared)
       ∧ CanonicalHeaderKey declared = CanonicalHeaderKey (TrimSpace name)) ∧
  ∀ name value, OutboundHeaderOverridesFromContext ctx' !! name = Some value →
    (∃ declared, is_Some (providerStaticHeaders prov !! declared)
       ∧ CanonicalHeaderKey declared = name) ∧
    ∃ k v, InvokeRequestHeadersFromContext ctx !! k = Some v ∧ value = TrimSpace v.
Proof.
  intros Hnone. unfold ApplyInvokeHeaderOverrides. cbn zeta. case_decide as Hr.
  { intros [= <-]. split; [intros name; by rewrite Hr, lookup_empty; intros [? ?]|].
    intros name value. by rewrite Hnone, lookup_empty. }
  destruct (bool_decide _) eqn:Hs; [done|]. rewrite rbind_ok. intros (overrides & Hc & [= <-]).
  apply collectOverrides_ok in Hc as [Hreq Hover]. split.
  - intros name [value Hv]. destruct (Hreq name value) as [key Hkey]; [by apply elem_of_map_to_list|].
    apply staticHeaderKey_ok in Hkey as (Heq & d & v & Hd & Hcan). exists d. split; [by exists v|].
    by rewrite Hcan.
  - intros name value. unfold WithOutboundHeaderOverrides. cbn zeta.
    destruct (decide (normalizeHeaders (map_to_list overrides) = ∅)) as [He|He].
    { by rewrite Hnone, lookup_empty. }
    cbn [OutboundHeaderOverridesFromContext Value default]. intros Hn.
    apply normalizeHeaders_spec in Hn as [Hn|(k & v & Hin & -> & -> & Hne)]; [by rewrite lookup_empty in Hn|].
    apply elem_of_map_to_list in Hin. apply Hover in Hin as [Hin|(k' & Hin & Hk')]; [by rewrite lookup_empty in Hin|].
    apply staticHeaderKey_ok in Hk' as (Hk & d & dv & Hd & Hcan). split.
    + exists d. split; [by exists dv|]. rewrite Hcan, Hk, CanonicalHeaderKey_trimmed by apply TrimSpace_idem.
      by rewrite CanonicalHeaderKey_idem.
    + exists k', v. split; [by apply elem_of_map_to_list|done].
Qed.

Definition sample_declaring : Provider unit unit unit :=
  {| pv_Name := "github"; pv_ConnectionMode := "none"; pv_ConnectionForOperation _ := "";
     pv_Catalog := None; pv_Execute _ _ _ _ := tt;
     pv_DefaultAppAccessOperations := None; pv_SupportsSessionCatalog := None; pv_CatalogForRequest := None;
     pv_RemoteCredentialDelegated := None; pv_ResolveStaticOperationForRequest := None;
     pv_ResolveConnectionForOperation := None; pv_OperationConnectionOverrideAllowed := None;
     pv_ExecuteStream := None; pv_InvokeGraphQL := None; pv_StaticHeaders := Some (<["x-api-version" := "1"]> ∅) |}.

Lemma overrides_only_declared_headers_witness :
  let ctx := WithInvokeRequestHeaders [] [("X-API-Version", " 2 "); ("", "x")] in
  ∃ ctx', ApplyInvokeHeaderOverrides ctx sample_declaring = Ok ctx'
    ∧ OutboundHeaderOverridesFromContext ctx' !! "X-Api-Version" = Some "2"
    ∧ ∃ declared, is_Some (providerStaticHeaders sample_declaring !! declared)
        ∧ CanonicalHeaderKey declared = "X-Api-Version".
Proof.
  intros ctx. destruct (ApplyInvokeHeaderOverrides ctx sample_declaring) as [ctx'|e] eqn:H; [|by vm_compute in H].
  exists ctx'. assert (OutboundHeaderOverridesFromContext ctx' !! "X-Api-Version" = Some "2") as H2.
  { assert (match ApplyInvokeHeaderOverrides ctx sample_declaring with
            | Ok c => OutboundHeaderOverridesFromContext c !! "X-Api-Version" | Err _ => None end = Some "2") as Hc
      by (by vm_compute).
    by rewrite H in Hc. }
  split_and!; [done|done|].
  apply (overrides_only_declared_headers ctx ctx' sample_declaring) in H as [_ H]; [|done].
  by apply (H "X-Api-Version" "2").
Defined.

End RequestHeaders.
