(* ===== verification/InvocationAuth.v ===== *)
(** * InvocationAuth: who may invoke what

    Models the authorization of [gestaltd/services/invocation]: [app_operation_policy.go],
    [app_access_resolver.go], [app_access_fallback.go], [invoke_authorization.go],
    [operation_surface.go], the listing of [authorization_batch.go],
    [FilterCatalogForPrincipal] of [catalog.go], the authorization methods of
    [broker.go], and [core/app_operation_policy.go].

    The provider registry, the user store, the profile and policy stores and the
    evaluator are interfaces; each answers one question with one answer.  [NewStruct] is
    the third-party constructor of subject properties. *)

From stdpp Require Import base gmap strings list sorting sets.
From Stdlib Require Import ZArith Ascii Lia.
From S2P Require Import Prelude Catalog AppAccess TurnScope Principals Permissions AccessDecisions InvocationContext.

Set Default Goal Selector "!".

Module InvocationAuth.
Import Catalog AppAccess Principals Permissions InvocationContext.

(** Values handed to [structpb.NewStruct]. *)
Inductive goValue := GString (s : string) | GStrings (l : list string).

(** An absent key inherits; a nil map is an empty one. *)
Definition AppOperationPolicy := gmap string (list string).

Definition policy_Resolve (p : AppOperationPolicy) (id : string) (baseline : list string)
    : list string * bool :=
  match p !! id with
  | None => (baseline, true)
  | Some roles => (roles, negb (bool_decide (roles = [])))
  end.

Definition policy_Catalog (p : AppOperationPolicy) (baseline : option Catalog) : option Catalog :=
  match baseline with
  | None => None
  | Some c =>
      if decide (p = ∅) then baseline
      else Some (set_Operations (Clone c)
             (omap (λ o, let '(roles, allowed) := policy_Resolve p (op_ID o) (op_AllowedRoles o) in
                         if (allowed : bool) then Some (set_AllowedRoles o roles) else None)
                (cat_Operations (Clone c))))
  end.

Inductive LookupError := LookupNotFound | LookupFailed.
Inductive ProfileStoreError (E : Type) := ProfileNotFound | ProfileFailed (e : E).
#[global] Arguments ProfileNotFound {E}.
#[global] Arguments ProfileFailed {E} e.

(** Whether an operation opts out of both public surfaces. *)
Definition privateOperation (o : CatalogOperation) : bool :=
  match op_API o, op_MCP o with
  | Some m, Some b => bool_decide (m = APIExposurePrivate) && negb b
  | _, _ => false
  end.

Definition verifiedInternalCaller (ctx : Context) : bool :=
  let caller := CallerProviderFromContext ctx in
  if bool_decide (cp_Name caller = "") || isPublicIngress ctx then false
  else contains [ProviderKindApp; ProviderKindWorkflow; ProviderKindAgent] (cp_Kind caller).

Definition operationExposedOnInvocationSurface (ctx : Context) (o : CatalogOperation) : bool :=
  let caller := CallerProviderFromContext ctx in
  let surface := InvocationSurfaceFromContext ctx in
  if isPublicIngress ctx then
    if decide (surface = InvocationSurfaceMCP) then OperationExposedOnMCP o else OperationExposedOnAPI o
  else if contains [ProviderKindApp; ProviderKindWorkflow] (cp_Kind caller) then true
  else if bool_decide (cp_Kind caller = ProviderKindAgent) && privateOperation o then true
  else if decide (surface = InvocationSurfaceHTTP) then OperationExposedOnAPI o
  else if decide (surface = InvocationSurfaceMCP) then OperationExposedOnMCP o
  else true.

Definition authorizationSurface (ctx : Context) : string :=
  let surface := InvocationSurfaceFromContext ctx in
  let caller := CallerProviderFromContext ctx in
  if negb (bool_decide (surface = "")) then surface
  else if decide (cp_Kind caller = ProviderKindWorkflow) then InvocationSurfaceWorkflow
  else if decide (cp_Kind caller = ProviderKindApp ∧ EntryFromContext ctx = EntryGRPC) then InvocationSurfaceCrossApp
  else if decide (EntryFromContext ctx = EntryHTTP) then InvocationSurfaceHTTP
  else UnknownAttrValue.

(** What an app contributes to judging a profile. *)
Record appAccessScope := {
  as_defaults : AppAccessDefaults;
  as_operations : gmap string CatalogOperation;
  as_sessionCatalog : bool }.

Definition no_defaults : AppAccessDefaults := AppAccessDefaultsFor None.
Definition no_scope : appAccessScope :=
  {| as_defaults := no_defaults; as_operations := ∅; as_sessionCatalog := false |}.

Definition unlistedSession (s : appAccessScope) (operationID : string) : bool :=
  if negb (as_sessionCatalog s) || bool_decide (operationID = GraphQLCapabilityID) then false
  else bool_decide (as_operations s !! operationID = None).

Definition scope_allows (s : appAccessScope) (profile : option AppAccessProfile) (operationID : string)
    (metadata : option CatalogOperation) : bool :=
  let other :=
    match as_operations s !! operationID with
    | Some operation => Allows profile operation (as_defaults s)
    | None => if unlistedSession s operationID then AllowsUnlisted profile operationID
              else Allows profile (zero_operation operationID) (as_defaults s)
    end in
  match metadata with
  | Some m => if decide (TrimSpace (op_ID m) = operationID) then Allows profile m (as_defaults s) else other
  | None => other
  end.

Section broker.
  Context {E S P R : Type}.
  Context (ToLower : string → string) (EqualFold : string → string → bool)
          (uuid_Parse : string → option string)
          (NewStruct : list (string * goValue) → option S).

(** The collaborators of the broker that authorization uses. *)
Record Authorizer := {
  au_providers : option (Context → string → result LookupError (Provider E P R));
  au_users : CredentialUserResolver E;
  au_appAccessProfiles : option (string → string → result (ProfileStoreError E) AppAccessProfile);
  au_history : option (OperationHistory E);
  au_appOperationPolicies : option (string → result E AppOperationPolicy);
  au_authorization : option (AccessDecisions.AuthorizationProvider E S);
  au_providerKinds : gmap string ProviderKind;
  au_authorizationPolicies : gmap string string }.

Implicit Types (b : Authorizer) (ctx : Context) (p : option Principal) (prov : option (Provider E P R)).

(** [b.providers.GetWithContext], with a failed lookup as no provider. *)
Definition getProvider b ctx (name : string) : option (Provider E P R) :=
  match au_providers b with
  | None => None
  | Some get => match get ctx name with Ok prov => Some prov | Err _ => None end
  end.

Definition appOperationPolicy b (app : string) : result (Error E) AppOperationPolicy :=
  match au_appOperationPolicies b with
  | None => Ok ∅
  | Some get => match get app with Ok policy => Ok policy | Err _ => Err (Wraps ErrAuthorizationUnavailable) end
  end.

Definition defaultsOf prov : AppAccessDefaults :=
  match prov with Some prov => AppAccessDefaultsFor (pv_DefaultAppAccessOperations prov) | None => no_defaults end.

(** [AppAccessResolver.Resolve] *)
Definition resolveProfile b prov (profile : option AppAccessProfile) : option AppAccessProfile :=
  match profile, prov with
  | Some q, Some prv =>
      if negb (Legacy q) || SupportsSessionCatalog prov then profile
      else (ResolveLegacyAppAccessProfile (au_history b) profile (pv_Catalog prv) (defaultsOf prov)).1.1
  | _, _ => profile
  end.

Definition resolveLegacyProfile b ctx (providerName : string) (profile : AppAccessProfile)
    : option AppAccessProfile :=
  match getProvider b ctx providerName with
  | None => Some profile
  | Some prov => resolveProfile b (Some prov) (Some profile)
  end.

Definition legacyAppAccessSubjectID p : string :=
  match Canonicalized p with
  | None => ""
  | Some q =>
      if negb (bool_decide (pr_Kind q = KindUser)) then "" else
      let subjectID := TrimSpace (pr_SubjectID q) in
      let userID := TrimSpace (UserIDFromSubjectID subjectID) in
      if bool_decide (userID = "") || ContainsAny userID "|:/\" then "" else subjectID
  end.

(** The user's stored profile, [Ok None] when there is none to enforce. *)
Definition appAccessProfile b ctx p (providerName : string) : result unit (option AppAccessProfile) :=
  match au_appAccessProfiles b, p with
  | Some get, Some _ =>
      if IsNonUserPrincipal p then Ok None else
      let read subjectID :=
        match get subjectID providerName with
        | Err ProfileNotFound => Ok None
        | Err (ProfileFailed _) => Err tt
        | Ok profile => if negb (Legacy profile) then Ok (Some profile)
                        else Ok (resolveLegacyProfile b ctx providerName profile)
        end in
      match ResolveAuthorizationSubjectID EqualFold uuid_Parse (au_users b) p with
      | Ok subjectID => read subjectID
      | Err (ErrOpaqueCredentialSubject _) =>
          let subjectID := legacyAppAccessSubjectID p in
          if decide (subjectID = "") then Err tt else read subjectID
      | Err _ => Err tt
      end
  | _, _ => Ok None
  end.

Definition checkAppAccess b ctx p prov (providerName : string) (operation : CatalogOperation)
    : result (Error E) unit :=
  match appAccessProfile b ctx p providerName with
  | Err _ => Err (Wraps ErrAuthorizationDenied)
  | Ok profile => if Allows profile operation (defaultsOf prov) then Ok tt else Err (Wraps ErrAuthorizationDenied)
  end.

(** The app's static operations by id: the last of several with one id. *)
Definition operationsByID (cat : option Catalog) : gmap string CatalogOperation :=
  match cat with
  | None => ∅
  | Some c => foldl (λ m o, <[op_ID o := o]> m) ∅ (cat_Operations c)
  end.

Definition appAccessScopeOf b ctx (providerName : string) : appAccessScope :=
  match getProvider b ctx providerName with
  | None => no_scope
  | Some prov => {| as_defaults := defaultsOf (Some prov); as_operations := operationsByID (pv_Catalog prov);
                    as_sessionCatalog := SupportsSessionCatalog (Some prov) |}
  end.

Definition checkUnlistedSessionOperation b ctx p (providerName operationID : string) (scope : appAccessScope)
    : result (Error E) unit :=
  if negb (unlistedSession scope operationID) then Ok tt
  else match appAccessProfile b ctx p providerName with
       | Err _ => Err (Wraps ErrAuthorizationDenied)
       | Ok profile => if scope_allows scope profile operationID None then Ok tt
                       else Err (Wraps ErrAuthorizationDenied)
       end.

(** ** The evaluator *)

Definition authorizationMapper b : AccessDecisions.AuthorizationResourceMapper :=
  AccessDecisions.NewAuthorizationResourceMapper (au_providerKinds b) (au_authorizationPolicies b).

Definition authorizationPolicy b (providerName : string) : string :=
  AccessDecisions.mapper_Policy (authorizationMapper b) providerName.

Definition authorizationResource b ctx (providerName : string) : AccessDecisions.Resource :=
  let providerName := TrimSpace providerName in
  let mapper := authorizationMapper b in
  if negb (bool_decide (TrimSpace (default "" (au_authorizationPolicies b !! providerName)) = ""))
  then AccessDecisions.mapper_Resource mapper providerName
  else match getProvider b ctx providerName with
       | Some _ => {| AccessDecisions.rs_Type := ProviderKindApp; AccessDecisions.rs_Id := providerName |}
       | None => AccessDecisions.mapper_Resource mapper providerName
       end.

Definition subjectAccessProperties p : option S :=
  let q := default zero_principal (Canonicalized p) in
  NewStruct [("scope", GString (Join (pr_Scopes q) " ")); ("client_id", GString (TrimSpace (pr_ClientID q)));
             ("audience", GStrings (pr_Audience q))].

Definition accessRequest p (subjectID : string) (resource : AccessDecisions.Resource) (action : string)
    : AccessDecisions.CheckAccessRequest S :=
  let req := AccessDecisions.SubjectAccessRequest (S := S) subjectID action (Some resource) in
  {| AccessDecisions.rq_SubjectType := AccessDecisions.rq_SubjectType req;
     AccessDecisions.rq_SubjectId := AccessDecisions.rq_SubjectId req;
     AccessDecisions.rq_Properties := subjectAccessProperties p;
     AccessDecisions.rq_Action := AccessDecisions.rq_Action req;
     AccessDecisions.rq_Resource := AccessDecisions.rq_Resource req |}.

(** The evaluator's answer, [None] when the subject or the answer is missing. *)
Definition authorizationDecision b (evaluator : AccessDecisions.AuthorizationProvider E S) ctx p
    (providerName operationID : string) : option AccessDecisions.CheckAccessResponse :=
  match ResolveCredentialSubjectID (au_users b) p with
  | Err _ => None
  | Ok subjectID =>
      match AccessDecisions.CheckAccess evaluator
              (accessRequest p subjectID (authorizationResource b ctx providerName) operationID) with
      | Ok (Some decision) => Some decision
      | _ => None
      end
  end.

Definition evaluateInvokeAuthorization b ctx p (providerName operationID : string) (allowedRoles : list string)
    : result (Error E) string :=
  match au_authorization b with
  | None => Ok ""
  | Some evaluator =>
      match authorizationDecision b evaluator ctx p providerName operationID with
      | None => Err (Wraps ErrAuthorizationDenied)
      | Some decision =>
          if negb (AccessDecisions.rp_Allowed decision) then Err (Wraps ErrAuthorizationDenied)
          else if decide (allowedRoles = []) then Ok ""
          else let role := AccessDecisions.matchedAllowedRole
                             (AccessDecisions.rp_MatchedRelations decision) allowedRoles in
               if decide (role = "") then Err (Wraps ErrAuthorizationDenied) else Ok role
      end
  end.

Definition authorizeOperation b ctx p (providerName : string) (operation : CatalogOperation)
    : result (Error E) Context :=
  let! role := evaluateInvokeAuthorization b ctx p providerName (op_ID operation) (op_AllowedRoles operation) in
  if decide (role = "") then Ok ctx
  else Ok (WithAccessContext ctx {| ac_Policy := authorizationPolicy b providerName; ac_Role := role |}).

(** The question about the calling provider itself. *)
Definition callerRequest b ctx (app : string) (operation : CatalogOperation)
    : AccessDecisions.ResourceAccessRequest S :=
  let caller := CallerProviderFromContext ctx in
  {| AccessDecisions.rr_SubjectID := cp_Kind caller +:+ ":" +:+ cp_Name caller;
     AccessDecisions.rr_Action := op_ID operation;
     AccessDecisions.rr_Resource := Some (authorizationResource b ctx app);
     AccessDecisions.rr_AllowedRoles := op_AllowedRoles operation;
     AccessDecisions.rr_SubjectProperties := None |}.

Definition authorizeInternalCaller b ctx (app : string) (operation : CatalogOperation) : result (Error E) unit :=
  match AccessDecisions.CheckResourceAccess (au_authorization b) (callerRequest b ctx app operation) with
  | Err _ => Err (Wraps ErrAuthorizationDenied)
  | Ok decision => if AccessDecisions.rd_Allowed decision then Ok tt else Err (Wraps ErrAuthorizationDenied)
  end.

(** ** Authorizing an invocation *)

Definition browserSession p : bool :=
  match p with Some q => bool_decide (pr_Source q = SourceBrowserSession) | None => false end.

Definition needsBrowserSession (operation : CatalogOperation) : bool :=
  match op_API operation with Some m => IsBrowserSession m | None => false end.

Definition authorizeInvocation b ctx p prov (app : string) (operation : CatalogOperation)
    : result (Error E) (Context * CatalogOperation) :=
  fail_if needsBrowserSession operation && negb (browserSession p) with Wraps ErrAuthorizationDenied ;;
  fail_if negb (AllowsOperationPermission ToLower p app (op_ID operation)) with Wraps ErrScopeDenied ;;
  let! _ := (if privateOperation operation then Ok tt else checkAppAccess b ctx p prov app operation) in
  let! policy := appOperationPolicy b app in
  let '(roles, allowed) := policy_Resolve policy (op_ID operation) (op_AllowedRoles operation) in
  fail_if negb allowed with Wraps ErrAuthorizationDenied ;;
  let operation := set_AllowedRoles operation roles in
  let private := privateOperation operation in
  fail_if private && bool_decide (au_authorization b = None) with Wraps ErrAuthorizationUnavailable ;;
  fail_if private && negb (verifiedInternalCaller ctx) with Wraps ErrAuthorizationDenied ;;
  let! ctx := (if negb (providerDelegatesRemoteAuthorization prov) || private
               then authorizeOperation b ctx p app operation else Ok ctx) in
  let! _ := (if private then authorizeInternalCaller b ctx app operation else Ok tt) in
  Ok (ctx, operation).

Definition CheckOperationAccess b ctx p (providerName operationID : string) : result (Error E) unit :=
  fail_if negb (AllowsOperationPermission ToLower p providerName operationID) with Wraps ErrAuthorizationDenied ;;
  let prov := getProvider b ctx providerName in
  let operation := default (zero_operation operationID)
                     (prov ≫= λ prv, OperationByID (pv_Catalog prv) operationID) in
  let! _ := checkUnlistedSessionOperation b ctx p providerName operationID (appAccessScopeOf b ctx providerName) in
  let! _ := authorizeInvocation b ctx p prov providerName operation in
  Ok tt.

Definition CheckProviderAccess b ctx p (providerName : string) : result (Error E) unit :=
  fail_if negb (AllowsProviderPermission ToLower p providerName) with Wraps ErrAuthorizationDenied ;;
  if providerDelegatesRemoteAuthorization (getProvider b ctx providerName) then Ok tt
  else match au_authorization b with
       | None => Ok tt
       | Some evaluator =>
           match authorizationDecision b evaluator ctx p providerName providerName with
           | Some decision => if AccessDecisions.rp_Allowed decision then Ok tt
                              else Err (Wraps ErrAuthorizationDenied)
           | None => Err (Wraps ErrAuthorizationDenied)
           end
       end.

(** ** Listing *)

Record OperationAccessQuery := {
  oq_Provider : string; oq_Operation : string; oq_AllowedRoles : list string;
  oq_Metadata : option CatalogOperation }.
Record OperationAccessDecision := { od_Err : option (Error E); od_AllowedRoles : list string }.

Definition operationAccessDenied : option (Error E) := Some (Wraps ErrAuthorizationDenied).
Definition operationAccessResult (decision : AccessDecisions.ResourceAccessDecision) : option (Error E) :=
  if AccessDecisions.rd_Allowed decision then None else operationAccessDenied.

(** What the loop remembers of a provider. *)
Record providerAccess := {
  pa_policy : AppOperationPolicy;
  pa_profile : result unit (option AppAccessProfile);
  pa_scope : appAccessScope;
  pa_delegatesRemote : bool }.

Definition loadAccess b ctx p (provider : string) : result (Error E) providerAccess :=
  let! policy := appOperationPolicy b provider in
  Ok {| pa_policy := policy; pa_profile := appAccessProfile b ctx p provider;
        pa_scope := appAccessScopeOf b ctx provider;
        pa_delegatesRemote := providerDelegatesRemoteAuthorization (getProvider b ctx provider) |}.

(** One query against the access of its provider: its result so far, and whether the
    evaluator has the last word. *)
Definition judgeQuery (access : providerAccess) (query : OperationAccessQuery)
    : OperationAccessDecision * bool :=
  let '(roles, allowed) := policy_Resolve (pa_policy access) (oq_Operation query) (oq_AllowedRoles query) in
  let profileAllows := match pa_profile access with
                       | Err _ => false
                       | Ok profile => scope_allows (pa_scope access) profile (oq_Operation query) (oq_Metadata query)
                       end in
  if negb allowed || negb profileAllows then
    ({| od_Err := operationAccessDenied; od_AllowedRoles := roles |}, false)
  else ({| od_Err := None; od_AllowedRoles := roles |}, negb (pa_delegatesRemote access)).

Fixpoint judgeQueries b ctx p (queries : list OperationAccessQuery) (cache : gmap string providerAccess)
    : result (Error E) (list (OperationAccessDecision * bool)) :=
  match queries with
  | [] => Ok []
  | query :: queries =>
      if negb (AllowsOperationPermission ToLower p (oq_Provider query) (oq_Operation query)) then
        let! rest := judgeQueries b ctx p queries cache in
        Ok (({| od_Err := operationAccessDenied; od_AllowedRoles := [] |}, false) :: rest)
      else
        let! access := match cache !! oq_Provider query with
                       | Some access => Ok access
                       | None => loadAccess b ctx p (oq_Provider query)
                       end in
        let! rest := judgeQueries b ctx p queries (<[oq_Provider query := access]> cache) in
        Ok (judgeQuery access query :: rest)
  end.

Definition listingRequest b ctx p (subjectID : string) (query : OperationAccessQuery) (roles : list string)
    : AccessDecisions.ResourceAccessRequest S :=
  {| AccessDecisions.rr_SubjectID := subjectID;
     AccessDecisions.rr_Action := oq_Operation query;
     AccessDecisions.rr_Resource := Some (authorizationResource b ctx (oq_Provider query));
     AccessDecisions.rr_AllowedRoles := roles;
     AccessDecisions.rr_SubjectProperties := subjectAccessProperties p |}.

(** The evaluator is asked in slices of at most [MaxBatchedAccessChecks]. *)
Fixpoint checkSlices (fuel : nat) (evaluator : option (AccessDecisions.AuthorizationProvider E S))
    (reqs : list (AccessDecisions.ResourceAccessRequest S))
    : result (Error E) (list AccessDecisions.ResourceAccessDecision) :=
  match reqs, fuel with
  | [], _ | _, 0 => Ok []
  | _, Datatypes.S fuel =>
      let slice := take AccessDecisions.MaxBatchedAccessChecks reqs in
      match AccessDecisions.CheckResourceAccessMany evaluator slice with
      | Err (AccessDecisions.ErrProvider e) => Err (Foreign e)
      | Err AccessDecisions.ErrMalformedAuthorizationDecision => Err (Wraps ErrMalformedAuthorizationDecision)
      | Err AccessDecisions.ErrBatchedAccessTooLarge => Err (Wraps ErrBatchedAccessTooLarge)
      | Err AccessDecisions.ErrAuthorizationUnavailable => Err (Wraps ErrAuthorizationUnavailable)
      | Ok decisions =>
          let! rest := checkSlices fuel evaluator (drop AccessDecisions.MaxBatchedAccessChecks reqs) in
          Ok (decisions ++ rest)
      end
  end.

(** The answers for the pending results, stored in their places. *)
Fixpoint fillPending (judged : list (OperationAccessDecision * bool))
    (decisions : list AccessDecisions.ResourceAccessDecision) : list OperationAccessDecision :=
  match judged with
  | [] => []
  | (d, false) :: judged => d :: fillPending judged decisions
  | (d, true) :: judged =>
      match decisions with
      | [] => d :: fillPending judged []
      | decision :: decisions =>
          {| od_Err := operationAccessResult decision; od_AllowedRoles := od_AllowedRoles d |}
            :: fillPending judged decisions
      end
  end.

(** The pending queries with the roles that were resolved for them. *)
Fixpoint pendingRequests b ctx p (subjectID : string) (queries : list OperationAccessQuery)
    (judged : list (OperationAccessDecision * bool)) : list (AccessDecisions.ResourceAccessRequest S) :=
  match queries, judged with
  | query :: queries, (d, pending) :: judged =>
      let rest := pendingRequests b ctx p subjectID queries judged in
      if (pending : bool) then listingRequest b ctx p subjectID query (od_AllowedRoles d) :: rest else rest
  | _, _ => []
  end.

Definition CheckOperationAccessMany b ctx p (queries : list OperationAccessQuery)
    : result (Error E) (list OperationAccessDecision) :=
  let! judged := judgeQueries b ctx p queries ∅ in
  if bool_decide (Forall (λ jd : OperationAccessDecision * bool, jd.2 = false) judged)
     || bool_decide (au_authorization b = None)
  then Ok judged.*1
  else match ResolveCredentialSubjectID (au_users b) p with
       | Err _ =>
           Ok (map (λ jd : OperationAccessDecision * bool,
                      if jd.2 then {| od_Err := operationAccessDenied; od_AllowedRoles := od_AllowedRoles jd.1 |}
                      else jd.1) judged)
       | Ok subjectID =>
           let reqs := pendingRequests b ctx p subjectID queries judged in
           let! decisions := checkSlices (length reqs) (au_authorization b) reqs in
           Ok (fillPending judged decisions)
       end.

Definition catalogQuery (provName : string) (o : CatalogOperation) : OperationAccessQuery :=
  {| oq_Provider := provName; oq_Operation := op_ID o; oq_AllowedRoles := op_AllowedRoles o;
     oq_Metadata := Some o |}.

(** The operations that are listed, with the roles they are listed with. *)
Fixpoint keepAllowed (ops : list CatalogOperation) (results : list OperationAccessDecision)
    : list CatalogOperation :=
  match ops, results with
  | o :: ops, r :: results =>
      match od_Err r with
      | None => set_AllowedRoles o (od_AllowedRoles r) :: keepAllowed ops results
      | Some _ => keepAllowed ops results
      end
  | _, _ => []
  end.

(** [checker] is [CheckOperationAccessMany] of the broker, or no filtering. *)
Definition FilterCatalogForPrincipal (cat : option Catalog) (provName : string) p
    (checker : option (option Principal → list OperationAccessQuery →
                       result (Error E) (list OperationAccessDecision)))
    : result (Error E) (option Catalog) :=
  match cat, checker with
  | Some c, Some CheckMany =>
      if decide (cat_Operations c = []) then Ok cat else
      let asked := filter (λ o, ¬ (needsBrowserSession o = true ∧ browserSession p = false)) (cat_Operations c) in
      let! results := CheckMany p (map (catalogQuery provName) asked) in
      fail_if negb (length results =? length asked) with Wraps ErrMalformedAuthorizationDecision ;;
      Ok (Some (set_Operations (Clone c) (keepAllowed asked results)))
  | _, _ => Ok cat
  end.
End broker.
#[global] Arguments Authorizer : clear implicits.

(** ** What an authorized invocation has passed *)

Section authorized.
  Context {E S P R : Type}.
  Context (ToLower : string → string) (EqualFold : string → string → bool)
          (uuid_Parse : string → option string)
          (NewStruct : list (string * goValue) → option S).
  Implicit Types (b : Authorizer E S P R) (ctx : Context) (p : option Principal)
    (prov : option (Provider E P R)).
  Abbreviation authorizeInvocation := (authorizeInvocation ToLower EqualFold uuid_Parse NewStruct).
  Abbreviation appAccessProfile := (appAccessProfile EqualFold uuid_Parse).

(** The evaluator, when there is one, allowed the caller to perform the operation, with
    one of the roles the operation insists on. *)
Definition evaluator_allows b ctx p (app op : string) (roles : list string) : Prop :=
  ∀ evaluator, au_authorization b = Some evaluator →
  ∃ subjectID resp,
    ResolveCredentialSubjectID (au_users b) p = Ok subjectID
    ∧ AccessDecisions.CheckAccess evaluator
        (accessRequest NewStruct p subjectID (authorizationResource b ctx app) op) = Ok (Some resp)
    ∧ AccessDecisions.rp_Allowed resp = true
    ∧ (roles = [] ∨ AccessDecisions.matchedAllowedRole (AccessDecisions.rp_MatchedRelations resp) roles ≠ "").

Lemma evaluate_ok b ctx p app op roles :
  (∃ role, evaluateInvokeAuthorization NewStruct b ctx p app op roles = Ok role)
  ↔ evaluator_allows b ctx p app op roles.
Proof.
  unfold evaluateInvokeAuthorization, evaluator_allows.
  destruct (au_authorization b) as [ev|]; [|split; [by intros _ ?|eauto]]. unfold authorizationDecision.
  split.
  - intros [role H] ev' [= <-].
    destruct (ResolveCredentialSubjectID (au_users b) p) as [s|e]; [|done].
    destruct (AccessDecisions.CheckAccess ev _) as [[resp|]|e] eqn:Hc; [|done..].
    exists s, resp. destruct (AccessDecisions.rp_Allowed resp) eqn:Ha; [|done]. cbn [negb] in H.
    split_and!; [done..|]. case_decide as Hr; [by left|]. cbn zeta in H. case_decide as Hm; [done|by right].
  - intros H. destruct (H ev eq_refl) as (s & resp & Hs & Hc & Ha & Hor). rewrite Hs, Hc, Ha. cbn [negb].
    case_decide as Hr; [eauto|]. cbn zeta. case_decide as Hm; [tauto|eauto].
Qed.

Lemma authorizeOperation_ok b ctx p app operation :
  (∃ ctx', authorizeOperation NewStruct b ctx p app operation = Ok ctx')
  ↔ evaluator_allows b ctx p app (op_ID operation) (op_AllowedRoles operation).
Proof.
  rewrite <- evaluate_ok. unfold authorizeOperation.
  destruct (evaluateInvokeAuthorization _ _ _ _ _ _ _) as [role|e]; cbn; [|naive_solver].
  case_decide; naive_solver.
Qed.

(** The conditions that do not involve the evaluator. *)
Record passes b ctx p prov (app : string) (operation : CatalogOperation) (roles : list string) : Prop := {
  ps_browser : needsBrowserSession operation = true → browserSession p = true;
  ps_scope : AllowsOperationPermission ToLower p app (op_ID operation) = true;
  ps_profile : privateOperation operation = false →
    ∃ profile, appAccessProfile b ctx p app = Ok profile ∧ Allows profile operation (defaultsOf prov) = true;
  ps_policy : ∃ policy, appOperationPolicy b app = Ok policy
    ∧ policy_Resolve policy (op_ID operation) (op_AllowedRoles operation) = (roles, true) }.

Lemma checkAppAccess_ok b ctx p prov app operation :
  checkAppAccess EqualFold uuid_Parse b ctx p prov app operation = Ok tt ↔
  ∃ profile, appAccessProfile b ctx p app = Ok profile ∧ Allows profile operation (defaultsOf prov) = true.
Proof.
  unfold checkAppAccess. destruct (appAccessProfile _ _ _ _) as [profile|e].
  - destruct (Allows profile _ _) eqn:Ha; split; [eauto|done|done|].
    intros (q & [= <-] & Hq). congruence.
  - split; [done|]. by intros (? & ? & _).
Qed.

(** The steps of [authorizeInvocation] up to the private-operation checks. *)
Lemma authorizeInvocation_split b ctx p prov app operation res :
  authorizeInvocation b ctx p prov app operation = Ok res ↔
  ∃ roles, passes b ctx p prov app operation roles ∧
    let operation' := set_AllowedRoles operation roles in
    (privateOperation operation = true → au_authorization b ≠ None ∧ verifiedInternalCaller ctx = true) ∧
    ∃ ctx', (if negb (providerDelegatesRemoteAuthorization prov) || privateOperation operation
             then authorizeOperation NewStruct b ctx p app operation' else Ok ctx) = Ok ctx'
      ∧ (privateOperation operation = true → authorizeInternalCaller b ctx' app operation' = Ok tt)
      ∧ res = (ctx', operation').
Proof.
  unfold InvocationAuth.authorizeInvocation. rewrite !fail_if_ok, rbind_ok. split.
  - intros (Hb & Hs & u & Hprof & Hpol). rewrite rbind_ok in Hpol. destruct Hpol as (policy & Hp & Hrest).
    destruct (policy_Resolve policy _ _) as [roles allowed] eqn:Hres. cbn zeta in Hrest.
    rewrite !fail_if_ok, rbind_ok in Hrest. destruct Hrest as (Hal & Hpr1 & Hpr2 & ctx' & Hctx & Hrest).
    rewrite rbind_ok in Hrest. destruct Hrest as (u' & Hcaller & Hret).
    change (privateOperation (set_AllowedRoles operation roles)) with (privateOperation operation) in *.
    exists roles. split.
    + split.
      * intros Hn. rewrite Hn in Hb. cbn in Hb. by destruct (browserSession p).
      * by destruct (AllowsOperationPermission _ _ _ _).
      * intros Hpriv. rewrite Hpriv in Hprof. destruct u. by apply checkAppAccess_ok.
      * exists policy. destruct allowed; [|done]. done.
    + cbn zeta. split.
      * intros Hpriv. rewrite Hpriv in *. cbn in Hpr1, Hpr2. split; [by apply bool_decide_eq_false in Hpr1|].
        by destruct (verifiedInternalCaller ctx).
      * exists ctx'. split; [exact Hctx|]. split; [|by injection Hret].
        intros Hpriv. rewrite Hpriv in Hcaller. by destruct u'.
  - intros (roles & [Hb Hs Hprof (policy & Hp & Hres)] & Hpriv & ctx' & Hctx & Hcaller & ->).
    split_and!.
    + destruct (needsBrowserSession operation); [|done]. by rewrite Hb.
    + by rewrite Hs.
    + exists tt. split.
      * destruct (privateOperation operation) eqn:Hpo; [done|]. apply checkAppAccess_ok. auto.
      * rewrite Hp. cbn [rbind]. rewrite Hres. cbn zeta.
        change (privateOperation (set_AllowedRoles operation roles)) with (privateOperation operation).
        rewrite !fail_if_ok, rbind_ok. destruct (privateOperation operation) eqn:Hpo.
        -- destruct (Hpriv eq_refl) as [H1 H2]. rewrite H2. split_and!; [done| |done|].
           { cbn [andb]. by apply bool_decide_eq_false. }
           exists ctx'. split; [exact Hctx|]. by rewrite Hcaller.
        -- split_and!; [done..|]. exists ctx'. split; [exact Hctx|done].
Qed.

(** C6. What an invocation that goes ahead has passed.  The operation is not reserved for a
    browser session or the caller has one; the token's scopes admit it; the app's policy
    keeps it, for the roles it is handed on with.  Unless the operation is private, the
    profile of the caller admits it (private operations are exempt from profiles).  Where the
    broker has an evaluator, it allows the caller with one of these roles, unless the
    provider delegates authorization to a remote one and the operation is not private.  A
    private operation comes from a verified provider, and the evaluator is asked about that
    provider as well and allows it.  (Without an evaluator there is no one to ask about the
    caller, so public operations pass.) *)
Theorem authorizeInvocation_requires b ctx p prov app operation ctx' operation' :
  authorizeInvocation b ctx p prov app operation = Ok (ctx', operation') →
  passes b ctx p prov app operation (op_AllowedRoles operation')
  ∧ operation' = set_AllowedRoles operation (op_AllowedRoles operation')
  ∧ (providerDelegatesRemoteAuthorization prov = false ∨ privateOperation operation = true →
     evaluator_allows b ctx p app (op_ID operation) (op_AllowedRoles operation'))
  ∧ (privateOperation operation = true →
     verifiedInternalCaller ctx = true ∧
     ∃ decision, AccessDecisions.CheckResourceAccess (au_authorization b) (callerRequest b ctx' app operation')
                   = Ok decision ∧ AccessDecisions.rd_Allowed decision = true).
Proof.
  intros H. apply authorizeInvocation_split in H as (roles & Hpass & Hpriv & c & Hctx & Hcaller & [= -> ->]).
  cbn [op_AllowedRoles set_AllowedRoles]. split_and!; [done|done| |].
  - intros Hor. assert (negb (providerDelegatesRemoteAuthorization prov) || privateOperation operation = true) as Hc.
    { destruct Hor as [->| ->]; [done|apply orb_true_r]. }
    rewrite Hc in Hctx.
    apply (proj1 (authorizeOperation_ok b ctx p app (set_AllowedRoles operation roles))). eauto.
  - intros Hpo. split; [by apply Hpriv|]. specialize (Hcaller Hpo). unfold authorizeInternalCaller in Hcaller.
    destruct (AccessDecisions.CheckResourceAccess _ _) as [d|]; [|done].
    exists d. split; [done|]. by destruct (AccessDecisions.rd_Allowed d).
Qed.

(** For public operations the conditions are also sufficient. *)
Lemma authorizeInvocation_public b ctx p prov app operation roles :
  privateOperation operation = false →
  (∃ ctx', authorizeInvocation b ctx p prov app operation = Ok (ctx', set_AllowedRoles operation roles)) ↔
  passes b ctx p prov app operation roles
  ∧ (providerDelegatesRemoteAuthorization prov = false → evaluator_allows b ctx p app (op_ID operation) roles).
Proof.
  intros Hpub. setoid_rewrite authorizeInvocation_split. rewrite Hpub.
  split.
  - intros (c & roles' & Hp & _ & ctx' & Hctx & _ & Heq).
    assert (roles' = roles) as ->.
    { injection Heq as _ Heq. done. }
    split; [done|]. intros Hrem. rewrite Hrem in Hctx. cbn [negb orb] in Hctx.
    apply (authorizeOperation_ok b ctx p app (set_AllowedRoles operation roles)). eauto.
  - intros [Hp Hev]. destruct (providerDelegatesRemoteAuthorization prov) eqn:Hrem.
    + exists ctx, roles. split; [done|]. split; [done|]. exists ctx. cbn [negb orb]. split_and!; done.
    + destruct (proj2 (authorizeOperation_ok b ctx p app (set_AllowedRoles operation roles))) as [c Hc];
        [by apply Hev|].
      exists c, roles. split; [done|]. split; [done|]. exists c. cbn [negb orb]. split_and!; done.
Qed.
End authorized.

(** ** Text with a printable byte is not blank *)

Lemma strip_keeps p1 p2 p3 (x : ascii) l :
  p1 x = false → (∀ b, p2 x b = false ∧ p2 b x = false) →
  (∀ b c, p3 x b c = false ∧ p3 b x c = false ∧ p3 b c x = false) →
  x ∈ l → x ∈ strip p1 p2 p3 l.
Proof.
  intros H1 H2 H3. remember (length l) as n eqn:Hn. revert l Hn.
  induction (lt_wf n) as [n _ IH]. intros [|a l1] Hn Hx; [by apply elem_of_nil in Hx|].
  cbn [strip]. destruct (p1 a) eqn:E1.
  { apply elem_of_cons in Hx as [->|Hx]; [congruence|]. eapply IH; [|done|done]. cbn in Hn. lia. }
  destruct l1 as [|b l2]; [done|]. destruct (p2 a b) eqn:E2.
  { destruct (H2 a) as [_ Ha], (H2 b) as [Hb _].
    apply elem_of_cons in Hx as [->|Hx]; [by rewrite (proj1 (H2 b)) in E2|].
    apply elem_of_cons in Hx as [->|Hx]; [congruence|]. eapply IH; [|done|done]. cbn in Hn. lia. }
  destruct l2 as [|c l3]; [done|]. destruct (p3 a b c) eqn:E3; [|done].
  apply elem_of_cons in Hx as [->|Hx]; [by rewrite (proj1 (H3 b c)) in E3|].
  apply elem_of_cons in Hx as [->|Hx]; [by rewrite (proj1 (proj2 (H3 a c))) in E3|].
  apply elem_of_cons in Hx as [->|Hx]; [by rewrite (proj2 (proj2 (H3 a b))) in E3|].
  eapply IH; [|done|done]. cbn in Hn. lia.
Qed.

Lemma TrimSpace_ink_nonblank (x : ascii) s :
  ink x = true → x ∈ String.list_ascii_of_string s → TrimSpace s ≠ "".
Proof.
  intros Hi Hx. assert (x ∈ String.list_ascii_of_string (TrimSpace s)) as H.
  { unfold TrimSpace. rewrite String.list_ascii_of_string_of_list_ascii.
    unfold trim_right, trim_left. rewrite elem_of_reverse.
    apply strip_keeps.
    - apply (ink_no_space x x x Hi).
    - intros b. destruct (ink_no_space x b b Hi) as (_ & ? & ? & _). done.
    - intros b c. destruct (ink_no_space x b c Hi) as (_ & _ & _ & ? & ? & ?).
      destruct (ink_no_space x c b Hi) as (_ & _ & _ & ? & ? & ?). done.
    - rewrite elem_of_reverse. apply strip_keeps; [apply (ink_no_space x x x Hi)| | |done].
      + intros b. destruct (ink_no_space x b b Hi) as (_ & ? & ? & _). done.
      + intros b c. destruct (ink_no_space x b c Hi) as (_ & _ & _ & ? & ? & ?). done. }
  intros He. rewrite He in H. by apply elem_of_nil in H.
Qed.

Section listing.
  Context {E S P R : Type}.
  Context (ToLower : string → string) (EqualFold : string → string → bool)
          (uuid_Parse : string → option string)
          (NewStruct : list (string * goValue) → option S).
  Implicit Types (b : Authorizer E S P R) (ctx : Context) (p : option Principal).
  Abbreviation authorizeInvocation := (authorizeInvocation ToLower EqualFold uuid_Parse NewStruct).
  Abbreviation loadAccess := (loadAccess EqualFold uuid_Parse).
  Abbreviation judgeQueries := (judgeQueries ToLower EqualFold uuid_Parse).
  Abbreviation CheckOperationAccessMany := (CheckOperationAccessMany ToLower EqualFold uuid_Parse NewStruct).

Lemma ResolveCredential_nonblank (users : CredentialUserResolver E) p s :
  ResolveCredentialSubjectID users p = Ok s → TrimSpace s ≠ "".
Proof.
  assert (∀ u, UserSubjectID u ≠ "" → TrimSpace (UserSubjectID u) ≠ "") as Huser.
  { intros u Hu. unfold UserSubjectID in *. case_decide; [done|].
    apply (TrimSpace_ink_nonblank "u"%char); [done|]. apply elem_of_cons. by left. }
  unfold ResolveCredentialSubjectID. destruct (Canonicalized p) as [q|]; [|done].
  destruct (IsNonUserPrincipal _).
  { unfold nonUserSubject. cbn zeta. case_decide; [done|]. intros [= <-]. by rewrite TrimSpace_idem. }
  cbn zeta. case_decide as Hid.
  { intros [= <-]. apply Huser. rewrite UserSubjectID_empty. tauto. }
  set (email := if decide (_ ∧ _ = true) then _ else _). clearbody email.
  case_decide; [done|]. destruct users as [find|]; [|done].
  destruct (find email) as [[db|]|e]; [|done..]. case_decide as Hdb; [done|]. intros [= <-].
  apply Huser. rewrite UserSubjectID_empty. intros He. by rewrite He in Hdb.
Qed.

(** The loop over the queries, without its cache. *)
Definition judged b ctx p (q : OperationAccessQuery) (j : OperationAccessDecision * bool) : Prop :=
  if AllowsOperationPermission ToLower p (oq_Provider q) (oq_Operation q)
  then ∃ access, loadAccess b ctx p (oq_Provider q) = Ok access ∧ j = judgeQuery access q
  else j = ({| od_Err := operationAccessDenied (E := E); od_AllowedRoles := [] |}, false).

Lemma judgeQueries_ok b ctx p queries cache js :
  (∀ name access, cache !! name = Some access → loadAccess b ctx p name = Ok access) →
  judgeQueries b ctx p queries cache = Ok js → Forall2 (judged b ctx p) queries js.
Proof.
  revert cache js. induction queries as [|q queries IH]; intros cache js Hcache; cbn [InvocationAuth.judgeQueries].
  { intros [= <-]. constructor. }
  destruct (AllowsOperationPermission _ _ _ _) eqn:Ha; cbn [negb]; rewrite rbind_ok.
  - intros (access & Hacc & Hrest). rewrite rbind_ok in Hrest. destruct Hrest as (rest & Hr & [= <-]).
    assert (loadAccess b ctx p (oq_Provider q) = Ok access) as Hload.
    { destruct (cache !! oq_Provider q) as [a|] eqn:Hc; [|done]. injection Hacc as <-. auto. }
    constructor; [unfold judged; rewrite Ha; eauto|]. eapply IH; [|exact Hr].
    intros name a. rewrite lookup_insert_Some. intros [[<- <-]|[_ ?]]; auto.
  - intros (rest & Hr & [= <-]). constructor; [unfold judged; by rewrite Ha|]. by eapply IH.
Qed.

(** What [fillPending] puts at each place. *)
Definition filled (Q : AccessDecisions.ResourceAccessRequest S → AccessDecisions.ResourceAccessDecision → Prop)
    b ctx p subjectID (q : OperationAccessQuery) (j : OperationAccessDecision * bool)
    (r : OperationAccessDecision (E := E)) : Prop :=
  if j.2 then ∃ decision, Q (listingRequest NewStruct b ctx p subjectID q (od_AllowedRoles j.1)) decision
                ∧ r = {| od_Err := operationAccessResult decision; od_AllowedRoles := od_AllowedRoles j.1 |}
  else r = j.1.

Lemma fillPending_spec Q b ctx p subjectID queries js decisions :
  length queries = length js →
  Forall2 Q (pendingRequests NewStruct b ctx p subjectID queries js) decisions →
  Forall3 (filled Q b ctx p subjectID) queries js (fillPending js decisions).
Proof.
  revert js decisions. induction queries as [|q queries IH]; intros [|[d pend] js] decisions Hl Hq;
    try done; cbn [pendingRequests fillPending] in *.
  { constructor. }
  injection Hl as Hl. destruct pend.
  - inversion Hq as [|r dec rs ds Hr Hrs]; subst. constructor; [unfold filled; cbn; eauto|]. by apply IH.
  - constructor; [done|]. by apply IH.
Qed.

Lemma checkSlices_ok (ev : AccessDecisions.AuthorizationProvider E S) `{!AccessDecisions.Batching ev} fuel reqs :
  (∀ q, ∃ d, AccessDecisions.CheckAccess ev q = Ok (Some d)) → length reqs ≤ fuel →
  ∃ ds, checkSlices fuel (Some ev) reqs = Ok ds
    ∧ Forall2 (λ r d, AccessDecisions.CheckResourceAccess (Some ev) r = Ok d) reqs ds.
Proof.
  intros Hans. revert reqs. induction fuel as [|fuel IH]; intros reqs Hlen.
  { destruct reqs; [|cbn in Hlen; lia]. exists []. split; [done|constructor]. }
  destruct reqs as [|r reqs]; [exists []; split; [done|constructor]|]. cbn [checkSlices].
  set (n := AccessDecisions.MaxBatchedAccessChecks).
  destruct (AccessDecisions.batch_agrees_with_single ev (take n (r :: reqs))) as (ds & Hds & Hf); [|auto|].
  { rewrite length_take. unfold n. lia. }
  destruct (IH (drop n (r :: reqs))) as (ds' & Hds' & Hf').
  { rewrite length_drop. cbn in Hlen |- *. assert (0 < n) by (unfold n, AccessDecisions.MaxBatchedAccessChecks; lia). lia. }
  rewrite Hds, Hds'. exists (ds ++ ds'). split; [done|].
  rewrite <- (take_drop n (r :: reqs)). by apply Forall2_app.
Qed.

(** An evaluator as the listing needs it: it batches, it answers, and it reports no more
    distinct relations than a decision may look at. *)
Record orderly (ev : AccessDecisions.AuthorizationProvider E S) : Prop := {
  ord_batching : AccessDecisions.Batching ev;
  ord_answers q : ∃ d, AccessDecisions.CheckAccess ev q = Ok (Some d)
    ∧ length (AccessDecisions.distinctRelations (AccessDecisions.rp_MatchedRelations d) ∅)
        ≤ AccessDecisions.maxEvaluatedRelations }.

Lemma matched_bounded rels roles :
  length (AccessDecisions.distinctRelations rels ∅) ≤ AccessDecisions.maxEvaluatedRelations →
  AccessDecisions.matchedAllowedRole (AccessDecisions.boundedRelations rels) roles ≠ ""
  ↔ AccessDecisions.matchedAllowedRole rels roles ≠ "".
Proof.
  intros Hlen. rewrite !AccessDecisions.matchedAllowedRole_spec, AccessDecisions.boundedRelations_take.
  rewrite take_ge by done.
  assert (∀ role, role ≠ "" → role ∈ map TrimSpace (AccessDecisions.distinctRelations rels ∅)
                  ↔ role ∈ map TrimSpace rels) as H.
  { intros role Hr. rewrite list_elem_of_fmap. split.
    - intros (x & -> & Hx). apply AccessDecisions.elem_of_distinctRelations in Hx as (Hx & _ & _).
      apply list_elem_of_fmap in Hx as (y & -> & Hy). rewrite TrimSpace_idem. by apply list_elem_of_fmap_2.
    - intros Hx. exists role. split; [|by apply AccessDecisions.elem_of_distinctRelations; set_solver].
      apply list_elem_of_fmap in Hx as (y & -> & _). by rewrite TrimSpace_idem. }
  naive_solver.
Qed.

Lemma listing_question b ctx p subjectID app (o : CatalogOperation) roles :
  AccessDecisions.protoRequest (listingRequest NewStruct b ctx p subjectID (catalogQuery app o) roles)
  = accessRequest NewStruct p subjectID (authorizationResource b ctx app) (op_ID o).
Proof.
  unfold AccessDecisions.protoRequest, listingRequest, accessRequest.
  cbn [AccessDecisions.rr_SubjectProperties AccessDecisions.rr_SubjectID AccessDecisions.rr_Action
       AccessDecisions.rr_Resource catalogQuery oq_Operation oq_Provider].
  by destruct (subjectAccessProperties NewStruct p).
Qed.

(** The evaluator's word in a listing is its word for the invocation. *)
Lemma listing_decision b ctx p ev subjectID app (o : CatalogOperation) roles decision :
  au_authorization b = Some ev → orderly ev →
  ResolveCredentialSubjectID (au_users b) p = Ok subjectID → TrimSpace (op_ID o) = op_ID o → op_ID o ≠ "" →
  AccessDecisions.CheckResourceAccess (Some ev)
    (listingRequest NewStruct b ctx p subjectID (catalogQuery app o) roles) = Ok decision →
  AccessDecisions.rd_Allowed decision = true ↔ evaluator_allows NewStruct b ctx p app (op_ID o) roles.
Proof.
  intros Hev Hord Hsub Ht Hne. unfold AccessDecisions.CheckResourceAccess. cbn zeta.
  cbn [listingRequest AccessDecisions.rr_SubjectID AccessDecisions.rr_Action AccessDecisions.rr_Resource
       AccessDecisions.rr_AllowedRoles catalogQuery oq_Operation oq_Provider].
  rewrite decide_False; cycle 1.
  { rewrite Ht. intros [H|[?|?]]; [|done..]. by apply ResolveCredential_nonblank in Hsub. }
  change (AccessDecisions.protoRequest _)
    with (AccessDecisions.protoRequest (listingRequest NewStruct b ctx p subjectID (catalogQuery app o) roles)).
  rewrite listing_question.
  destruct (ord_answers _ Hord (accessRequest NewStruct p subjectID (authorizationResource b ctx app) (op_ID o)))
    as (resp & Hresp & Hlen).
  rewrite Hresp. intros [= <-]. unfold AccessDecisions.resourceAccessDecision, evaluator_allows.
  pose proof (matched_bounded (AccessDecisions.rp_MatchedRelations resp) roles Hlen) as Hm.
  split.
  - intros H ev' Hev'. rewrite Hev in Hev'. injection Hev' as <-. exists subjectID, resp.
    destruct (AccessDecisions.rp_Allowed resp); [|done]. cbn [negb] in H. split_and!; [done..|].
    case_decide as Hr; [by left|right]. cbn zeta in H. case_decide as Hm'; [done|]. by apply Hm.
  - intros H. destruct (H ev Hev) as (s & resp' & Hs & Hc & Ha & Hor).
    assert (s = subjectID) as -> by congruence. rewrite Hresp in Hc. injection Hc as <-.
    rewrite Ha. cbn [negb]. case_decide as Hr; [done|]. cbn zeta. case_decide as Hm'; [|done].
    destruct Hor as [|Hor]; [done|]. by apply Hm in Hor.
Qed.

(** The result of one query against the invocation of its operation. *)
Definition agrees b ctx p prov app (o : CatalogOperation) (r : OperationAccessDecision (E := E)) : Prop :=
  match authorizeInvocation b ctx p prov app o with
  | Ok (_, o') => od_Err r = None ∧ o' = set_AllowedRoles o (od_AllowedRoles r)
  | Err _ => od_Err r ≠ None
  end.

(** The operations a listing is asked about. *)
Definition listable p (o : CatalogOperation) : Prop :=
  TrimSpace (op_ID o) = op_ID o ∧ privateOperation o = false
  ∧ (needsBrowserSession o = true → browserSession p = true).

Lemma agrees_intro b ctx p prov app o (r : OperationAccessDecision (E := E)) :
  privateOperation o = false →
  (∀ roles, passes ToLower EqualFold uuid_Parse b ctx p prov app o roles → roles = od_AllowedRoles r) →
  (od_Err r = None ↔
     passes ToLower EqualFold uuid_Parse b ctx p prov app o (od_AllowedRoles r)
     ∧ (providerDelegatesRemoteAuthorization prov = false →
        evaluator_allows NewStruct b ctx p app (op_ID o) (od_AllowedRoles r))) →
  agrees b ctx p prov app o r.
Proof.
  intros Hpub Huniq Hiff.
  rewrite <- (authorizeInvocation_public ToLower EqualFold uuid_Parse NewStruct) in Hiff by done.
  unfold agrees. destruct (authorizeInvocation b ctx p prov app o) as [[c o']|e] eqn:H.
  - pose proof H as H'. apply authorizeInvocation_split in H' as (roles & Hp & _ & c' & _ & _ & [= -> ->]).
    rewrite (Huniq roles Hp) in *. split; [|done]. apply Hiff. eauto.
  - intros Hn. apply Hiff in Hn as [? Hn]. congruence.
Qed.

Lemma judged_agrees b ctx p prov app (o : CatalogOperation) j (r : OperationAccessDecision (E := E)) :
  getProvider b ctx app = Some prov → listable p o → judged b ctx p (catalogQuery app o) j →
  od_AllowedRoles r = od_AllowedRoles j.1 →
  (j.2 = false → od_Err r = od_Err j.1) →
  (j.2 = true → od_Err r = None ↔ evaluator_allows NewStruct b ctx p app (op_ID o) (od_AllowedRoles r)) →
  agrees b ctx p (Some prov) app o r.
Proof.
  intros Hprov (Ht & Hpub & Hbr) Hj Hroles Hf Htr. unfold judged in Hj.
  cbn [catalogQuery oq_Provider oq_Operation] in Hj.
  destruct (AllowsOperationPermission ToLower p app (op_ID o)) eqn:Hscope; cycle 1.
  { subst j. apply agrees_intro; [done| |].
    - intros roles [_ Hs _ _]. congruence.
    - split; [|intros [[_ Hs _ _] _]; congruence]. intros Hn. exfalso.
      by rewrite (Hf eq_refl) in Hn. }
  destruct Hj as (access & Hload & ->). unfold InvocationAuth.loadAccess in Hload.
  rewrite rbind_ok in Hload. destruct Hload as (policy & Hpol & [= <-]).
  unfold judgeQuery in *. cbn [pa_policy pa_profile pa_scope pa_delegatesRemote catalogQuery oq_Operation
    oq_AllowedRoles oq_Metadata] in *.
  destruct (policy_Resolve policy (op_ID o) (op_AllowedRoles o)) as [roles allowed] eqn:Hres.
  set (profileAllows := match appAccessProfile EqualFold uuid_Parse b ctx p app with
                        | Ok profile => _ | Err _ => false end) in *.
  assert (profileAllows = true ↔ ∃ profile, appAccessProfile EqualFold uuid_Parse b ctx p app = Ok profile
            ∧ Allows profile o (defaultsOf (Some prov)) = true) as Hprof.
  { unfold profileAllows. destruct (appAccessProfile _ _ _ _ _ _) as [profile|e]; [|split; [done|by intros (? & ? & _)]].
    unfold scope_allows. rewrite decide_True by done. unfold appAccessScopeOf. rewrite Hprov. cbn [as_defaults].
    split; [eauto|]. by intros (q & [= <-] & ?). }
  assert (∀ rs, passes ToLower EqualFold uuid_Parse b ctx p (Some prov) app o rs ↔
                rs = roles ∧ allowed = true ∧ profileAllows = true) as Hpass.
  { intros rs. split.
    - intros [_ _ H1 (pol & H2 & H3)]. rewrite Hprof. rewrite Hpol in H2. injection H2 as <-.
      rewrite Hres in H3. injection H3 as -> ->. auto.
    - intros (-> & -> & Hpa). split; [done|done| |eauto]. intros _. by apply Hprof. }
  apply agrees_intro; [done| |].
  - intros rs Hrs. apply Hpass in Hrs as (-> & -> & Hpa). rewrite Hroles, Hpa. done.
  - rewrite Hpass. destruct (negb allowed || negb profileAllows) eqn:Hbad; cbn [fst snd od_AllowedRoles od_Err] in *.
    + split; [|intros [(_ & -> & Hpa) _]; by rewrite Hpa in Hbad]. intros Hn. exfalso.
      by rewrite (Hf eq_refl) in Hn.
    + apply orb_false_iff in Hbad as [Ha Hpa]. apply negb_false_iff in Ha, Hpa. rewrite Hroles.
      rewrite Hprov in Hf, Htr.
      destruct (providerDelegatesRemoteAuthorization (Some prov)) eqn:Hrem; cbn [negb] in *.
      * split; [done|]. intros _. by rewrite (Hf eq_refl).
      * rewrite Htr by done. rewrite Hroles. tauto.
Qed.

Lemma Forall3_impl_2 {A B C} (Q : A → B → C → Prop) (J : A → B → Prop) (T : A → C → Prop) la lb lc :
  Forall2 J la lb → Forall3 Q la lb lc → (∀ x y z, x ∈ la → J x y → Q x y z → T x z) → Forall2 T la lc.
Proof.
  intros HJ HQ HT. induction HQ as [|x y z la lb lc H HQ IH]; [constructor|].
  inversion HJ; subst. constructor; [apply (HT x y); [by left|done..]|].
  apply IH; [done|]. intros ? ? ? ?. apply HT. by right.
Qed.

(** Listing and invocation agree on every operation that is asked about. *)
Lemma listing_agrees b ctx p prov app (ops : list CatalogOperation) results :
  getProvider b ctx app = Some prov →
  (∀ ev, au_authorization b = Some ev → orderly ev) →
  (∀ o, o ∈ ops → listable p o) →
  CheckOperationAccessMany b ctx p (map (catalogQuery app) ops) = Ok results →
  Forall2 (agrees b ctx p (Some prov) app) ops results.
Proof.
  intros Hprov Hev Hops. unfold InvocationAuth.CheckOperationAccessMany. rewrite rbind_ok.
  intros (js & Hjs & H). apply judgeQueries_ok in Hjs; [|by intros ? ?; rewrite lookup_empty].
  assert (Forall2 (λ o j, judged b ctx p (catalogQuery app o) j) ops js) as Hj.
  { change (map (catalogQuery app) ops) with (catalogQuery app <$> ops) in Hjs. by rewrite Forall2_fmap_l in Hjs. }
  assert (∀ o, o ∈ ops → listable p o) as Hl by done.
  assert (∀ T : CatalogOperation → OperationAccessDecision * bool → OperationAccessDecision (E := E) → Prop,
    (∀ o j r, o ∈ ops → judged b ctx p (catalogQuery app o) j → T o j r → agrees b ctx p (Some prov) app o r) →
    Forall3 T ops js results → Forall2 (agrees b ctx p (Some prov) app) ops results) as Hdone.
  { intros T HT H3. eapply (Forall3_impl_2 T); [exact Hj|exact H3|]. exact HT. }
  destruct (bool_decide _ || bool_decide (au_authorization b = None)) eqn:Hshort.
  - injection H as <-. apply (Hdone (λ o j r, r = j.1 ∧ (j.2 = true → au_authorization b = None))).
    + intros o j r Ho Hjo [-> Hnone]. eapply judged_agrees; [done|auto|done|done|done|].
      intros Hp. specialize (Hnone Hp). split; [|intros _].
      * intros _ ev Hev'. congruence.
      * unfold judged in Hjo. cbn [catalogQuery oq_Provider oq_Operation] in Hjo.
        destruct (AllowsOperationPermission _ _ _ _); [|by subst j].
        destruct Hjo as (access & _ & ->). revert Hp. unfold judgeQuery.
        destruct (policy_Resolve _ _ _) as [roles allowed]. destruct (negb allowed || _); cbn; [discriminate|done].
    + assert (∀ o j, j ∈ js → o ∈ ops → j.2 = true → au_authorization b = None) as Hn.
      { intros o j Hin _ Hp. apply orb_true_iff in Hshort as [Hs|Hs]; [|by apply bool_decide_eq_true in Hs].
        apply bool_decide_eq_true in Hs. rewrite Forall_forall in Hs. by rewrite (Hs j Hin) in Hp. }
      clear -Hj Hn. induction Hj as [|o j ops js _ _ IH]; cbn; [constructor|]. constructor.
      * split; [done|]. apply (Hn o); by left.
      * apply IH. intros o' j' ? ?. apply (Hn o'); by right.
  - apply orb_false_iff in Hshort as [_ Hsome]. apply bool_decide_eq_false in Hsome.
    destruct (au_authorization b) as [ev|] eqn:Hau; [|done]. destruct (Hev ev eq_refl) as [Hbatch Hans].
    destruct (ResolveCredentialSubjectID (au_users b) p) as [subjectID|e] eqn:Hsub.
    + rewrite rbind_ok in H. destruct H as (decisions & Hdec & [= <-]).
      set (queries := map (catalogQuery app) ops) in *.
      destruct (checkSlices_ok ev (length (pendingRequests NewStruct b ctx p subjectID queries js))
                  (pendingRequests NewStruct b ctx p subjectID queries js)) as (ds & Hds & Hf); [|done|].
      { intros q. destruct (Hans q) as (d & ? & _). eauto. }
      rewrite Hds in Hdec. injection Hdec as <-.
      apply (fillPending_spec _ b ctx p subjectID queries js) in Hf; [|by apply Forall2_length in Hjs].
      apply (Hdone (λ o j r, filled (λ r d, AccessDecisions.CheckResourceAccess (Some ev) r = Ok d)
                               b ctx p subjectID (catalogQuery app o) j r)).
      * intros o j r Ho Hjo Hfill. unfold filled in Hfill.
        destruct j as [d [|]]; cbn [fst snd] in Hfill; [|subst r; by eapply judged_agrees; eauto].
        destruct Hfill as (decision & Hdec & ->). eapply judged_agrees; [done|auto|exact Hjo|done|done|].
        intros _. cbn [od_Err od_AllowedRoles].
        destruct (Hl o Ho) as (Ht & _).
        assert (op_ID o ≠ "") as Hne.
        { intros He. unfold judged in Hjo. cbn [catalogQuery oq_Provider oq_Operation] in Hjo. rewrite He in Hjo.
          destruct p as [p|]; cbn in Hjo; [rewrite decide_True in Hjo by auto|]; done. }
        rewrite <- (listing_decision b ctx p ev subjectID app o _ decision Hau (Hev ev eq_refl) Hsub Ht Hne Hdec).
        unfold operationAccessResult. by destruct (AccessDecisions.rd_Allowed decision).
      * unfold queries in Hf. clear -Hf Hj. revert Hf. generalize (fillPending js ds) as rs.
        induction Hj as [|o j ops js _ _ IH]; intros rs Hf; inversion Hf; subst; constructor; auto.
    + injection H as <-.
      apply (Hdone (λ o j r, r = if j.2 then {| od_Err := operationAccessDenied; od_AllowedRoles := od_AllowedRoles j.1 |}
                                 else j.1)).
      * intros o j r Ho Hjo ->. eapply judged_agrees; [done|auto|exact Hjo|by destruct j.2|by intros ->|].
        intros ->. cbn [od_Err]. split; [done|]. intros H. destruct (H ev Hau) as (s & _ & Hs & _). congruence.
      * clear -Hj. induction Hj; cbn; constructor; auto.
Qed.

(** C13. For a catalog without private operations, and an evaluator that answers batches,
    every question, and with at most 64 relations each (or no evaluator), a filtered
    catalog is the invocable part of the catalog, in order, with the roles the invocation
    would insist on: whenever the listing answers at all, an operation is listed if and only
    if invoking it is authorized.  (With more relations the listing may leave out an
    operation that can be invoked: [listing_hides_an_invocable_operation].) *)
Theorem filtered_catalog_is_invocable b ctx p prov app (c : Catalog) res :
  getProvider b ctx app = Some prov →
  (∀ ev, au_authorization b = Some ev → orderly ev) →
  (∀ o, o ∈ cat_Operations c → TrimSpace (op_ID o) = op_ID o ∧ privateOperation o = false) →
  FilterCatalogForPrincipal (Some c) app p (Some (CheckOperationAccessMany b ctx)) = Ok res →
  ∃ c', res = Some c' ∧
    cat_Operations c' = omap (λ o, match authorizeInvocation b ctx p (Some prov) app o with
                                   | Ok (_, o') => Some o'
                                   | Err _ => None
                                   end) (cat_Operations c).
Proof.
  intros Hprov Hev Hops. unfold FilterCatalogForPrincipal.
  case_decide as Hnil.
  { intros [= <-]. exists c. by rewrite Hnil. }
  cbn zeta. set (asked := filter _ (cat_Operations c)). rewrite rbind_ok. intros (results & Hmany & H).
  rewrite fail_if_ok in H. destruct H as [_ [= <-]]. eexists. split; [done|]. cbn [cat_Operations set_Operations].
  apply (listing_agrees b ctx p prov app asked results Hprov Hev) in Hmany; cycle 1.
  { intros o Ho. subst asked. apply list_elem_of_filter in Ho as [Hn Ho]. destruct (Hops o Ho) as [? ?].
    split_and!; [done|done|]. intros Hb. destruct (browserSession p) eqn:Hs; [done|]. exfalso. tauto. }
  transitivity (omap (λ o, match authorizeInvocation b ctx p (Some prov) app o with
                           | Ok (_, o') => Some o' | Err _ => None end) asked).
  - clearbody asked. clear -Hmany. induction Hmany as [|o r ops rs H Hmany IH]; [done|]. cbn.
    unfold agrees in H. destruct (authorizeInvocation b ctx p (Some prov) app o) as [[c' o']|e].
    + destruct H as [-> ->]. by f_equal.
    + by destruct (od_Err r).
  - subst asked. clear. induction (cat_Operations c) as [|o ops IH]; [done|]. rewrite filter_cons.
    destruct (decide (¬ (needsBrowserSession o = true ∧ browserSession p = false))) as [Hd|Hd]; cbn; [by rewrite IH|].
    rewrite IH. destruct (authorizeInvocation b ctx p (Some prov) app o) as [[c' o']|e] eqn:H; [|done]. exfalso.
    apply authorizeInvocation_split in H as (roles & [Hb _ _ _] & _). apply Hd. intros [H1 H2].
    rewrite Hb in H2 by done. done.
Qed.
End listing.

(** ** Findings *)

Section findings.
  Context {E S P R : Type}.
  Context (NewStruct : list (string * goValue) → option S).
  Implicit Types (b : Authorizer E S P R) (p : option Principal).

(** The subject properties meant for the evaluator are never sent: [structpb.NewStruct]
    refuses a [[]string], the audience is always handed over as one, and the error is
    dropped. *)
Lemma subject_properties_never_sent p :
  (∀ kvs, (∃ k l, (k, GStrings l) ∈ kvs) → NewStruct kvs = None) →
  subjectAccessProperties NewStruct p = None.
Proof.
  intros H. unfold subjectAccessProperties. apply H. exists "audience", (pr_Audience (default zero_principal (Canonicalized p))).
  cbn zeta. right. right. left.
Qed.
End findings.

(** A structure constructor as documented: strings only. *)
Definition strings_only (kvs : list (string * goValue)) : option (list (string * string)) :=
  mapM (λ kv : string * goValue, match kv.2 with GString s => Some (kv.1, s) | GStrings _ => None end) kvs.

Lemma strings_only_refuses kvs : (∃ k l, (k, GStrings l) ∈ kvs) → strings_only kvs = None.
Proof.
  intros (k & l & Hin). unfold strings_only. destruct (mapM _ kvs) as [out|] eqn:H; [|done].
  apply mapM_Some_1 in H. apply list_elem_of_lookup_1 in Hin as [i Hi].
  destruct (Forall2_lookup_l _ _ _ _ _ H Hi) as (? & _ & ?). done.
Qed.

Lemma subject_properties_never_sent_witness :
  strings_only [("scope", GString "slack")] = Some [("scope", "slack")]
  ∧ subjectAccessProperties strings_only (Some (subject_principal "user:u1")) = None.
Proof.
  split; [done|]. apply (subject_properties_never_sent strings_only). exact strings_only_refuses.
Defined.

(** ** A broker *)

Section sample.
  Import AccessDecisions.
  Local Abbreviation ask := (CheckAccessRequest (list (string * string)) → CheckAccessResponse).

Definition sample_op (id : string) (api : option APIExposureMode) (roles : list string) : CatalogOperation :=
  {| op_ID := id; op_ProviderID := ""; op_Method := "GET"; op_Path := "/"; op_Title := ""; op_Description := "";
     op_InputSchema := None; op_OutputSchema := None; op_Response := None; op_Annotations := no_annotations;
     op_AllowedRoles := roles; op_Parameters := []; op_RequiredScopes := []; op_Tags := []; op_ReadOnly := true;
     op_Visible := None; op_API := api; op_MCP := None; op_Transport := ""; op_Query := "";
     op_OperationName := "" |}.

Definition sample_ops : list CatalogOperation :=
  [sample_op "read.a" None ["viewer"]; sample_op "write" None []; sample_op "read.b" None ["admin"];
   sample_op "read.c" (Some APIExposureBrowserSession) []; sample_op "read.d" None []].

Definition sample_catalog : Catalog :=
  {| cat_Name := "slack"; cat_DisplayName := ""; cat_Description := ""; cat_IconSVG := "";
     cat_BaseURL := ""; cat_AuthStyle := ""; cat_Headers := ∅; cat_Operations := sample_ops |}.

Definition sample_slack : Provider unit unit unit :=
  {| pv_Name := "slack"; pv_ConnectionMode := "none"; pv_ConnectionForOperation _ := "";
     pv_Catalog := Some sample_catalog; pv_Execute _ _ _ _ := tt;
     pv_DefaultAppAccessOperations := None; pv_SupportsSessionCatalog := None; pv_CatalogForRequest := None;
     pv_RemoteCredentialDelegated := None; pv_ResolveStaticOperationForRequest := None;
     pv_ResolveConnectionForOperation := None; pv_OperationConnectionOverrideAllowed := None;
     pv_ExecuteStream := None; pv_InvokeGraphQL := None; pv_StaticHeaders := None |}.

Definition sample_broker (answer : ask) : Authorizer unit (list (string * string)) unit unit :=
  {| au_providers := Some (λ _ name, if decide (name = "slack") then Ok sample_slack else Err LookupNotFound);
     au_users := None; au_appAccessProfiles := None; au_history := None;
     au_appOperationPolicies := Some (λ _, Ok (<["read.d" := []]> ∅));
     au_authorization := Some (answering answer); au_providerKinds := ∅; au_authorizationPolicies := ∅ |}.

Definition readers (q : CheckAccessRequest (list (string * string))) : CheckAccessResponse :=
  {| rp_Allowed := String.prefix "read" (rq_Action q); rp_MatchedRelations := ["viewer"] |}.
Definition ascii_fold (s t : string) : bool := bool_decide (s = t).
Definition sample_caller : option Principal := Some (subject_principal "user:u1").
End sample.

Abbreviation sample_authorize answer p o :=
  (authorizeInvocation (λ s, s) ascii_fold (λ _, None) strings_only (sample_broker answer) [] p
     (Some sample_slack) "slack" o).
Abbreviation sample_list answer p :=
  (FilterCatalogForPrincipal (Some sample_catalog) "slack" p
     (Some (CheckOperationAccessMany (λ s, s) ascii_fold (λ _, None) strings_only (sample_broker answer) []))).

Lemma authorizeInvocation_requires_witness :
  ∃ ctx' o', sample_authorize readers sample_caller (sample_op "read.a" None ["viewer"]) = Ok (ctx', o')
    ∧ AccessContextFromContext ctx' = {| ac_Policy := "slack"; ac_Role := "viewer" |}
    ∧ evaluator_allows strings_only (sample_broker readers) [] sample_caller "slack" "read.a" (op_AllowedRoles o').
Proof.
  destruct (sample_authorize readers sample_caller (sample_op "read.a" None ["viewer"])) as [[ctx' o']|e] eqn:H;
    [|by vm_compute in H].
  exists ctx', o'.
  destruct (authorizeInvocation_requires (λ s, s) ascii_fold (λ _, None) strings_only (sample_broker readers) []
              sample_caller (Some sample_slack) "slack" (sample_op "read.a" None ["viewer"]) ctx' o' H)
    as (_ & _ & Hev & _).
  split_and!; [done| |by apply Hev; left].
  assert (sample_authorize readers sample_caller (sample_op "read.a" None ["viewer"])
          = Ok (WithAccessContext [] {| ac_Policy := "slack"; ac_Role := "viewer" |}, sample_op "read.a" None ["viewer"]))
    as Heq by (by vm_compute).
  rewrite Heq in H. by injection H as <- <-.
Defined.

Lemma readers_orderly : orderly (E := unit) (AccessDecisions.answering readers).
Proof.
  split; [apply AccessDecisions.answering_batching|]. intros q. exists (readers q). split; [done|].
  apply Nat.leb_le. by vm_compute.
Qed.

Lemma filtered_catalog_is_invocable_witness :
  ∃ c', sample_list readers sample_caller = Ok (Some c')
    ∧ map op_ID (cat_Operations c') = ["read.a"]
    ∧ cat_Operations c' = omap (λ o, match sample_authorize readers sample_caller o with
                                     | Ok (_, o') => Some o' | Err _ => None end) sample_ops.
Proof.
  destruct (sample_list readers sample_caller) as [res|e] eqn:H; [|by vm_compute in H].
  destruct (filtered_catalog_is_invocable (λ s, s) ascii_fold (λ _, None) strings_only (sample_broker readers) []
              sample_caller sample_slack "slack" sample_catalog res) as (c' & Hc & Hops); [done| | |exact H|].
  - intros ev [= <-]. exact readers_orderly.
  - intros o Ho. repeat (apply elem_of_cons in Ho as [->|Ho]; [done|]). by apply elem_of_nil in Ho.
  - exists c'. rewrite <- Hc. split_and!; [done| |exact Hops]. subst res. rewrite Hops. by vm_compute.
Defined.

(** Listing looks at the first 64 relations of a decision, invocation at all of them: an
    operation whose role comes later is invocable and not listed. *)
Definition digit2 (n : nat) : string :=
  String (ascii_of_nat (48 + n / 10)) (String (ascii_of_nat (48 + n mod 10)) "").
Definition crowded (q : AccessDecisions.CheckAccessRequest (list (string * string)))
    : AccessDecisions.CheckAccessResponse :=
  {| AccessDecisions.rp_Allowed := true;
     AccessDecisions.rp_MatchedRelations := map digit2 (seq 0 64) ++ ["viewer"] |}.

Lemma listing_hides_an_invocable_operation :
  (∃ ctx' o', sample_authorize crowded sample_caller (sample_op "read.a" None ["viewer"]) = Ok (ctx', o'))
  ∧ ∃ c', sample_list crowded sample_caller = Ok (Some c') ∧ "read.a" ∉ map op_ID (cat_Operations c').
Proof.
  split.
  - destruct (sample_authorize crowded sample_caller _) as [[ctx' o']|e] eqn:H; [by exists ctx', o'|by vm_compute in H].
  - destruct (sample_list crowded sample_caller) as [[c'|]|e] eqn:H; [|by vm_compute in H..].
    exists c'. split; [done|].
    assert (bool_decide ("read.a" ∈ match sample_list crowded sample_caller with
                                    | Ok (Some c) => map op_ID (cat_Operations c) | _ => [] end) = false) as Hb
      by (by vm_compute).
    rewrite H in Hb. by apply bool_decide_eq_false in Hb.
Qed.

(** An opaque user subject has no authorization subject, and an invocation asks the
    evaluator about it all the same. *)
Lemma opaque_subject_is_asked_about :
  let p := Some (subject_principal "user:auth0|abc") in
  ResolveAuthorizationSubjectID ascii_fold (λ _, None) (None : CredentialUserResolver unit) p
    = Err (ErrOpaqueCredentialSubject "user:auth0|abc")
  ∧ ∃ ctx' o', sample_authorize (λ q, {| AccessDecisions.rp_Allowed :=
                     bool_decide (AccessDecisions.rq_SubjectId q = "user:auth0|abc");
                     AccessDecisions.rp_MatchedRelations := [] |}) p (sample_op "read.b" None []) = Ok (ctx', o').
Proof.
  split; [by vm_compute|]. destruct (sample_authorize _ _ _) as [[ctx' o']|e] eqn:H; [by exists ctx', o'|].
  by vm_compute in H.
Qed.

End InvocationAuth.
