(* ===== verification/GuardedInvoker.v ===== *)
(** * GuardedInvoker: the guard in front of the broker

    Models [gestaltd/services/invocation/guarded.go], [ratelimit.go], [guard_errors.go],
    the construction of audit entries of [audit.go], and [core/audit.go].

    The four invocation methods share one body, [guarded].  The state of the process is
    explicit: the audit entries that contexts point to, the audit log, the rate limiters,
    the clock and the source of request IDs, and whatever else the inner invoker works on
    ([W]).  The inner invoker is any function on that state; it may itself call a guard.
    The token bucket of [golang.org/x/time/rate] is a parameter. *)

From stdpp Require Import base gmap strings list sorting sets.
From Stdlib Require Import ZArith Ascii Lia.
From S2P Require Import Prelude Catalog TurnScope Principals Permissions InvocationContext.

Set Default Goal Selector "!".

Module GuardedInvoker.
Import Catalog Principals Permissions InvocationContext.

Definition DefaultMaxDepth : Z := 5.
Definition DefaultRateLimit : Z := 100.
Definition DefaultRateBurst : Z := 20.

(** [core.AuditEntry]: the fields this package fills; an error is kept as itself. *)
Record AuditEntry (E : Type) := {
  ae_Timestamp : time; ae_RequestID : string; ae_Source : string; ae_SubjectID : string;
  ae_AgentSubjectID : string; ae_RunAsSubjectID : string; ae_AccessPolicy : string; ae_AccessRole : string;
  ae_CredentialMode : string; ae_CredentialSubjectID : string; ae_CredentialConnection : string;
  ae_CredentialInstance : string; ae_Provider : string; ae_Operation : string; ae_Depth : Z;
  ae_Allowed : bool; ae_Error : option (Error E); ae_ClientIP : string; ae_RemoteAddr : string;
  ae_UserAgent : string }.
#[global] Arguments Build_AuditEntry {E}.
#[global] Arguments ae_Timestamp {E}. #[global] Arguments ae_RequestID {E}. #[global] Arguments ae_Source {E}.
#[global] Arguments ae_SubjectID {E}. #[global] Arguments ae_AgentSubjectID {E}.
#[global] Arguments ae_RunAsSubjectID {E}. #[global] Arguments ae_AccessPolicy {E}.
#[global] Arguments ae_AccessRole {E}. #[global] Arguments ae_CredentialMode {E}.
#[global] Arguments ae_CredentialSubjectID {E}. #[global] Arguments ae_CredentialConnection {E}.
#[global] Arguments ae_CredentialInstance {E}. #[global] Arguments ae_Provider {E}.
#[global] Arguments ae_Operation {E}. #[global] Arguments ae_Depth {E}. #[global] Arguments ae_Allowed {E}.
#[global] Arguments ae_Error {E}. #[global] Arguments ae_ClientIP {E}. #[global] Arguments ae_RemoteAddr {E}.
#[global] Arguments ae_UserAgent {E}.

Definition set_verdict {E} (e : AuditEntry E) (allowed : bool) (error : option (Error E)) : AuditEntry E :=
  {| ae_Timestamp := ae_Timestamp e; ae_RequestID := ae_RequestID e; ae_Source := ae_Source e;
     ae_SubjectID := ae_SubjectID e; ae_AgentSubjectID := ae_AgentSubjectID e;
     ae_RunAsSubjectID := ae_RunAsSubjectID e; ae_AccessPolicy := ae_AccessPolicy e;
     ae_AccessRole := ae_AccessRole e; ae_CredentialMode := ae_CredentialMode e;
     ae_CredentialSubjectID := ae_CredentialSubjectID e; ae_CredentialConnection := ae_CredentialConnection e;
     ae_CredentialInstance := ae_CredentialInstance e; ae_Provider := ae_Provider e;
     ae_Operation := ae_Operation e; ae_Depth := ae_Depth e; ae_Allowed := allowed; ae_Error := error;
     ae_ClientIP := ae_ClientIP e; ae_RemoteAddr := ae_RemoteAddr e; ae_UserAgent := ae_UserAgent e |}.

Definition set_credential {E} (e : AuditEntry E) (mode subjectID connection instance : string) : AuditEntry E :=
  {| ae_Timestamp := ae_Timestamp e; ae_RequestID := ae_RequestID e; ae_Source := ae_Source e;
     ae_SubjectID := ae_SubjectID e; ae_AgentSubjectID := ae_AgentSubjectID e;
     ae_RunAsSubjectID := ae_RunAsSubjectID e; ae_AccessPolicy := ae_AccessPolicy e;
     ae_AccessRole := ae_AccessRole e; ae_CredentialMode := mode;
     ae_CredentialSubjectID := subjectID; ae_CredentialConnection := connection;
     ae_CredentialInstance := instance; ae_Provider := ae_Provider e;
     ae_Operation := ae_Operation e; ae_Depth := ae_Depth e; ae_Allowed := ae_Allowed e; ae_Error := ae_Error e;
     ae_ClientIP := ae_ClientIP e; ae_RemoteAddr := ae_RemoteAddr e; ae_UserAgent := ae_UserAgent e |}.

Definition subjectIDOf (s : option TurnScope.RunAsSubject) : string :=
  match s with Some s => TurnScope.ra_SubjectID s | None => "" end.

Definition buildAuditEntry {E} (now : time) (ctx : Context) (p : option Principal)
    (source providerName operation : string) (meta : InvocationMeta) : AuditEntry E :=
  let p := Canonicalized p in
  let reqMeta := RequestMetaFromContext ctx in
  let delegation := RunAsAuditFromContext ctx in
  let access := AccessContextFromContext ctx in
  {| ae_Timestamp := now; ae_RequestID := im_RequestID meta; ae_Source := source;
     ae_SubjectID := match p with Some p => pr_SubjectID p | None => "" end;
     ae_AgentSubjectID := match ra_RunAsSubject delegation with
                          | Some _ => subjectIDOf (ra_AgentSubject delegation) | None => "" end;
     ae_RunAsSubjectID := subjectIDOf (ra_RunAsSubject delegation);
     ae_AccessPolicy := ac_Policy access; ae_AccessRole := ac_Role access;
     ae_CredentialMode := ""; ae_CredentialSubjectID := ""; ae_CredentialConnection := "";
     ae_CredentialInstance := ""; ae_Provider := providerName; ae_Operation := operation;
     ae_Depth := im_Depth meta; ae_Allowed := false; ae_Error := None;
     ae_ClientIP := rm_ClientIP reqMeta; ae_RemoteAddr := rm_RemoteAddr reqMeta;
     ae_UserAgent := rm_UserAgent reqMeta |}.

Definition chainKey (providerName instance operation : string) : string :=
  let chainInstance := if decide (instance = "") then "default" else instance in
  providerName +:+ "/" +:+ chainInstance +:+ "/" +:+ operation.

(** [errors.Is] of the three errors that count as a refusal. *)
Definition denies {E} (e : Error E) : bool :=
  match rootCause e with
  | Wraps ErrAuthorizationDenied | Wraps ErrScopeDenied | Wraps ErrNotAuthenticated => true
  | _ => false
  end.

Section guard.
  Context {E W L : Type}.
  Context (NewLimiter : Z → Z → L) (AllowNow : time → L → bool * L) (uuid_New : nat → string).

(** [rateLimiter]: a limiter per provider, made when first asked for. *)
Record rateLimiter := { rl_limiters : gmap string L; rl_rps : Z; rl_burst : Z }.
Definition newRateLimiter (rps burst : Z) : rateLimiter :=
  {| rl_limiters := ∅; rl_rps := rps; rl_burst := burst |}.
Definition Allow (now : time) (r : rateLimiter) (provider : string) : bool * rateLimiter :=
  let limiter := default (NewLimiter (rl_rps r) (rl_burst r)) (rl_limiters r !! provider) in
  let '(ok, limiter) := AllowNow now limiter in
  (ok, {| rl_limiters := <[provider := limiter]> (rl_limiters r); rl_rps := rl_rps r; rl_burst := rl_burst r |}).

(** The state.  A limiter is found by the identity of its guard. *)
Record World := {
  w_entries : list (AuditEntry E);
  w_log : list (AuditEntry E);
  w_limiters : gmap nat rateLimiter;
  w_now : time;
  w_next : nat;
  w_rest : W }.

Definition set_entries (w : World) (entries : list (AuditEntry E)) : World :=
  {| w_entries := entries; w_log := w_log w; w_limiters := w_limiters w; w_now := w_now w; w_next := w_next w;
     w_rest := w_rest w |}.
Definition add_log (w : World) (entry : AuditEntry E) : World :=
  {| w_entries := w_entries w; w_log := w_log w ++ [entry]; w_limiters := w_limiters w; w_now := w_now w;
     w_next := w_next w; w_rest := w_rest w |}.
Definition set_limiters (w : World) (limiters : gmap nat rateLimiter) : World :=
  {| w_entries := w_entries w; w_log := w_log w; w_limiters := limiters; w_now := w_now w; w_next := w_next w;
     w_rest := w_rest w |}.
Definition set_next (w : World) (next : nat) : World :=
  {| w_entries := w_entries w; w_log := w_log w; w_limiters := w_limiters w; w_now := w_now w; w_next := next;
     w_rest := w_rest w |}.

(** [allowed] is [None] for every provider; [limited] tells whether there is a limiter;
    [audit] whether there is a sink. *)
Record GuardedInvoker := {
  g_id : nat; g_allowed : option (gset string); g_source : string; g_maxDepth : Z; g_audit : bool;
  g_limited : bool }.

Definition logAudit (g : GuardedInvoker) (w : World) (entry : AuditEntry E) : World :=
  if g_audit g then add_log w entry else w.

Definition check (g : GuardedInvoker) (meta : InvocationMeta) (providerName instance operation : string)
    (w : World) : option (Error E) * World :=
  if (g_maxDepth g <=? im_Depth meta)%Z then (Some (MaxDepthError (im_Depth meta) (g_maxDepth g)), w)
  else if contains (im_CallChain meta) (chainKey providerName instance operation)
  then (Some (RecursionError providerName operation), w)
  else if match g_allowed g with Some allowed => negb (bool_decide (providerName ∈ allowed)) | None => false end
  then (Some Unspecific, w)
  else match (if g_limited g then w_limiters w !! g_id g else None) with
       | None => (None, w)
       | Some limiter =>
           let '(ok, limiter) := Allow (w_now w) limiter providerName in
           (if (ok : bool) then None else Some (RateLimitError providerName),
            set_limiters w (<[g_id g := limiter]> (w_limiters w)))
       end.

Definition nextMeta (meta : InvocationMeta) (key : string) : InvocationMeta :=
  {| im_RequestID := im_RequestID meta; im_Depth := im_Depth meta + 1; im_CallChain := im_CallChain meta ++ [key] |}.

Definition SetCredentialAudit (ctx : Context) (mode subjectID connection instance : string) (w : World) : World :=
  match auditEntryFromContext ctx with
  | None => w
  | Some loc => set_entries w (alter (λ e, set_credential e mode subjectID connection instance) loc (w_entries w))
  end.

(** The caller the methods settle on. *)
Definition callerOf (ctx : Context) (p : option Principal) : Principal :=
  match p with
  | Some p => p
  | None => match FromContext ctx with Some p => p | None => zero_principal end
  end.

(** The metadata, with a request ID drawn if there is none. *)
Definition ensured (ctx : Context) (w : World) : Context * InvocationMeta * World :=
  let '(ctx', meta) := ensureMeta (uuid_New (w_next w)) ctx in
  let drawn := match MetaFromContext ctx with
               | Some meta => bool_decide (TrimSpace (im_RequestID meta) = "")
               | None => true
               end in
  (ctx', meta, if drawn then set_next w (Datatypes.S (w_next w)) else w).

(** The body of the four methods; [inner] is the call behind the guard. *)
Definition guarded {A} (g : GuardedInvoker) (ctx : Context) (p : option Principal)
    (providerName instance operation : string)
    (inner : Context → Principal → World → result (Error E) A * World) (w : World)
    : result (Error E) A * World :=
  let '(ctx, meta, w) := ensured ctx w in
  let p := callerOf ctx p in
  let entry := buildAuditEntry (w_now w) ctx (Some p) (g_source g) providerName operation meta in
  let loc := length (w_entries w) in
  let w := set_entries w (w_entries w ++ [entry]) in
  let ctx := withAuditEntry ctx loc in
  let '(refused, w) := check g meta providerName instance operation w in
  match refused with
  | Some err =>
      let entry := set_verdict entry false (Some err) in
      (Err err, logAudit g (set_entries w (<[loc := entry]> (w_entries w))) entry)
  | None =>
      let w := set_entries w (alter (λ e, set_verdict e true (ae_Error e)) loc (w_entries w)) in
      let ctx := ContextWithMeta ctx (nextMeta meta (chainKey providerName instance operation)) in
      let '(res, w) := inner ctx p w in
      let w := match res with
               | Ok _ => w
               | Err err => set_entries w (alter (λ e, set_verdict e (ae_Allowed e && negb (denies err)) (Some err))
                                             loc (w_entries w))
               end in
      (res, match w_entries w !! loc with Some entry => logAudit g w entry | None => w end)
  end.

(** The inner invoker and its optional interfaces. *)
Record Inner (P R SR O Q : Type) := {
  in_Invoke : Context → Principal → string → string → string → P → World → result (Error E) R * World;
  in_InvokeGraphQL : option (Context → Principal → string → string → Q → World → result (Error E) R * World);
  in_InvokeStream : option (Context → Principal → string → string → string → P → World → result (Error E) SR * World);
  in_InvokeMaybeStream :
    option (Context → Principal → string → string → string → P → World → result (Error E) O * World) }.

Section methods.
  Context {P R SR O Q : Type} (inner : Inner P R SR O Q).

Definition Invoke g ctx p (providerName instance operation : string) (params : P) : World → result (Error E) R * World :=
  guarded g ctx p providerName instance operation
    (λ ctx p, in_Invoke _ _ _ _ _ inner ctx p providerName instance operation params).

Definition InvokeGraphQL g ctx p (providerName instance : string) (request : Q) (w : World)
    : result (Error E) R * World :=
  match in_InvokeGraphQL _ _ _ _ _ inner with
  | None => (Err Unspecific, w)
  | Some invoke => guarded g ctx p providerName instance "graphql"
                     (λ ctx p, invoke ctx p providerName instance request) w
  end.

Definition InvokeStream g ctx p (providerName instance operation : string) (params : P) (w : World)
    : result (Error E) SR * World :=
  match in_InvokeStream _ _ _ _ _ inner with
  | None => (Err Unspecific, w)
  | Some invoke => guarded g ctx p providerName instance operation
                     (λ ctx p, invoke ctx p providerName instance operation params) w
  end.

Definition InvokeMaybeStream g ctx p (providerName instance operation : string) (params : P) (w : World)
    : result (Error E) O * World :=
  match in_InvokeMaybeStream _ _ _ _ _ inner with
  | None => (Err Unspecific, w)
  | Some invoke => guarded g ctx p providerName instance operation
                     (λ ctx p, invoke ctx p providerName instance operation params) w
  end.
End methods.

(** Capabilities, as the guard looks at them: each with its provider. *)
Definition ListCapabilities {C} (g : GuardedInvoker) (lister : option (list (string * C))) : list (string * C) :=
  match lister with
  | None => []
  | Some caps =>
      match g_allowed g with
      | None => caps
      | Some allowed => filter (λ cap : string * C, cap.1 ∈ allowed) caps
      end
  end.

(** [BuildAuditEntry]: an entry for work outside of the guard. *)
Definition BuildAuditEntry (ctx : Context) (p : option Principal) (source providerName operation : string)
    (w : World) : Context * AuditEntry E * World :=
  let '(ctx, meta, w) := ensured ctx w in
  let p := match p with None => FromContext ctx | Some _ => Canonicalized p end in
  (ctx, buildAuditEntry (w_now w) ctx p source providerName operation meta, w).

(** ** The decision of the guard *)

(** The state in which the check runs. *)
Definition entered g ctx p (providerName operation : string) (w : World) : Context * InvocationMeta * AuditEntry E * World :=
  let '(ctx, meta, w) := ensured ctx w in
  let entry := buildAuditEntry (w_now w) ctx (Some (callerOf ctx p)) (g_source g) providerName operation meta in
  (ctx, meta, entry, set_entries w (w_entries w ++ [entry])).

Definition verdict g ctx p (providerName instance operation : string) (w : World) : option (Error E) :=
  let '(_, meta, _, w) := entered g ctx p providerName operation w in
  (check g meta providerName instance operation w).1.

(** The context that an accepted call hands on. *)
Definition handed g ctx p (providerName instance operation : string) (w : World) : Context :=
  let '(ctx, meta, _, w') := entered g ctx p providerName operation w in
  ContextWithMeta (withAuditEntry ctx (length (w_entries w))) (nextMeta meta (chainKey providerName instance operation)).

Lemma set_limiters_same w l : w_entries (set_limiters w l) = w_entries w ∧ w_log (set_limiters w l) = w_log w.
Proof. done. Qed.

Lemma check_state g meta providerName instance operation w refused w' :
  check g meta providerName instance operation w = (refused, w') →
  w_entries w' = w_entries w ∧ w_log w' = w_log w ∧ w_rest w' = w_rest w ∧ w_next w' = w_next w ∧ w_now w' = w_now w.
Proof.
  unfold check. destruct (g_maxDepth g <=? im_Depth meta)%Z; [by intros [= <- <-]|].
  destruct (contains _ _); [by intros [= <- <-]|].
  match goal with |- context [if ?c then (Some Unspecific, _) else _] => destruct c end; [by intros [= <- <-]|].
  destruct (if g_limited g then _ else _) as [r|]; [|by intros [= <- <-]].
  destruct (Allow _ _ _) as [ok r']. by intros [= <- <-].
Qed.

Lemma check_accepts g meta providerName instance operation w w' :
  check g meta providerName instance operation w = (None, w') →
  (im_Depth meta < g_maxDepth g)%Z ∧ chainKey providerName instance operation ∉ im_CallChain meta
  ∧ (∀ allowed, g_allowed g = Some allowed → providerName ∈ allowed).
Proof.
  unfold check. destruct (g_maxDepth g <=? im_Depth meta)%Z eqn:Hd; [done|].
  unfold contains. destruct (bool_decide (_ ∈ im_CallChain meta)) eqn:Hc; [done|]. apply bool_decide_eq_false in Hc.
  destruct (g_allowed g) as [allowed|].
  - destruct (bool_decide (providerName ∈ allowed)) eqn:Ha; [|done]. apply bool_decide_eq_true in Ha. intros _.
    split_and!; [lia|done|]. by intros ? [= <-].
  - intros _. split_and!; [lia|done|done].
Qed.

Lemma ensured_state ctx w ctx' meta w' :
  ensured ctx w = (ctx', meta, w') →
  w_entries w' = w_entries w ∧ w_log w' = w_log w ∧ w_rest w' = w_rest w ∧ w_limiters w' = w_limiters w
  ∧ w_now w' = w_now w.
Proof.
  unfold ensured. destruct (ensureMeta _ _) as [c m]. match goal with |- context [if ?c then set_next _ _ else _] => destruct c end;
    by intros [= <- <- <-].
Qed.

(** The metadata in force after [ensureMeta]: depth and chain of the context, and a
    request ID. *)
Lemma ensured_meta ctx w ctx' meta w' :
  ensured ctx w = (ctx', meta, w') →
  im_Depth meta = match MetaFromContext ctx with Some m => im_Depth m | None => 0%Z end
  ∧ im_CallChain meta = match MetaFromContext ctx with Some m => im_CallChain m | None => [] end
  ∧ MetaFromContext ctx' = Some meta.
Proof.
  unfold ensured, ensureMeta. destruct (MetaFromContext ctx) as [m|] eqn:Hm.
  - case_decide as Hd; cbn zeta; [rewrite bool_decide_true by done|rewrite bool_decide_false by done];
      by intros [= <- <- <-].
  - by intros [= <- <- <-].
Qed.

(** A refused call does not reach the invoker behind the guard: the answer is the
    refusal, whatever the invoker would do, and the one trace is a denied entry. *)
Lemma guarded_refused {A} g ctx p providerName instance operation
    (inner : Context → Principal → World → result (Error E) A * World) w err :
  verdict g ctx p providerName instance operation w = Some err →
  ∃ entry w', guarded g ctx p providerName instance operation inner w = (Err err, w')
    ∧ w_log w' = w_log w ++ (if g_audit g then [entry] else [])
    ∧ w_entries w' = w_entries w ++ [entry] ∧ w_rest w' = w_rest w
    ∧ entry = set_verdict (entered g ctx p providerName operation w).1.2 false (Some err).
Proof.
  unfold verdict, guarded, entered. destruct (ensured ctx w) as [[ctx1 meta] w1] eqn:He.
  apply ensured_state in He as (Hent & Hlog & Hrest & _).
  destruct (check _ _ _ _ _ _) as [refused w2] eqn:Hc. cbn [fst snd]. intros ->.
  apply check_state in Hc as (Hent2 & Hlog2 & Hrest2 & _). cbn [w_entries w_log w_rest set_entries] in *.
  eexists _, _. split; [done|]. split_and!; [| | |done].
  - unfold logAudit. destruct (g_audit g); cbn; rewrite Hlog2; [by rewrite Hlog|by rewrite Hlog, app_nil_r].
  - unfold logAudit. destruct (g_audit g); cbn; rewrite Hent2; rewrite Hent;
      rewrite insert_app_r_alt by done; by rewrite Nat.sub_diag.
  - unfold logAudit. destruct (g_audit g); cbn; by rewrite Hrest2.
Qed.

(** ** Invokers that leave the audit trail alone *)

(** An entry that differs at most in the credential it records. *)
Definition credited (e e' : AuditEntry E) : Prop :=
  e' = set_credential e (ae_CredentialMode e') (ae_CredentialSubjectID e') (ae_CredentialConnection e')
         (ae_CredentialInstance e').

(** The log only grows, and entries that are there only learn their credential. *)
Definition tame {A} (inner : Context → Principal → World → result (Error E) A * World) : Prop :=
  ∀ ctx p w res w', inner ctx p w = (res, w') →
    w_log w `prefix_of` w_log w' ∧
    ∀ loc e, w_entries w !! loc = Some e → ∃ e', w_entries w' !! loc = Some e' ∧ credited e e'.

Lemma credited_refl e : credited e e.
Proof. by destruct e. Qed.

Lemma credited_verdict e e' : credited e e' → ∀ a err, credited (set_verdict e a err) (set_verdict e' a err).
Proof. unfold credited. intros -> a err. done. Qed.

Lemma credited_fields e e' : credited e e' →
  ae_Allowed e' = ae_Allowed e ∧ ae_Error e' = ae_Error e ∧ ae_Provider e' = ae_Provider e
  ∧ ae_Operation e' = ae_Operation e ∧ ae_SubjectID e' = ae_SubjectID e ∧ ae_Depth e' = ae_Depth e
  ∧ ae_RequestID e' = ae_RequestID e ∧ ae_Source e' = ae_Source e.
Proof. by intros ->. Qed.

(** What an accepted call does: it runs the invoker on the context it hands on, then logs
    the entry with the outcome. *)
Lemma guarded_accepted {A} g ctx p providerName instance operation
    (inner : Context → Principal → World → result (Error E) A * World) w :
  verdict g ctx p providerName instance operation w = None → tame inner →
  ∃ w1 res w2 entry w3,
    w_log w1 = w_log w ∧ w_rest w1 = w_rest w
    ∧ w_entries w1 = w_entries w ++ [set_verdict (entered g ctx p providerName operation w).1.2 true None]
    ∧ inner (handed g ctx p providerName instance operation w)
        (callerOf (entered g ctx p providerName operation w).1.1.1 p) w1 = (res, w2)
    ∧ guarded g ctx p providerName instance operation inner w = (res, w3)
    ∧ w_log w3 = w_log w2 ++ (if g_audit g then [entry] else [])
    ∧ credited (set_verdict (entered g ctx p providerName operation w).1.2
                  (match res with Ok _ => true | Err e => negb (denies e) end)
                  (match res with Ok _ => None | Err e => Some e end)) entry
    ∧ (∀ loc e, w_entries w !! loc = Some e → ∃ e', w_entries w3 !! loc = Some e' ∧ credited e e').
Proof.
  unfold verdict, guarded, entered, handed, entered. destruct (ensured ctx w) as [[ctx1 meta] w0] eqn:He.
  apply ensured_state in He as (Hent & Hlog & Hrest & _).
  destruct (check _ _ _ _ _ _) as [refused wc] eqn:Hc. cbn [fst snd]. intros -> Htame.
  apply check_state in Hc as (Hent2 & Hlog2 & Hrest2 & _). cbn [w_entries w_log w_rest set_entries] in *.
  set (entry0 := buildAuditEntry _ _ _ _ _ _ _) in *.
  set (w1 := set_entries wc _).
  assert (w_entries w1 = w_entries w ++ [set_verdict entry0 true None]) as H1.
  { unfold w1. cbn [w_entries set_entries]. rewrite Hent2, Hent. rewrite alter_app_r_alt by done.
    by rewrite Nat.sub_diag. }
  set (key := chainKey _ _ _) in *. rewrite Hent.
  set (ctx2 := ContextWithMeta _ _). set (p' := callerOf ctx1 p).
  destruct (inner ctx2 p' w1) as [res w2] eqn:Hinner.
  destruct (Htame _ _ _ _ _ Hinner) as [_ Hkeep].
  destruct (Hkeep (length (w_entries w)) (set_verdict entry0 true None)) as (e' & He' & Hcred).
  { rewrite H1. apply list_lookup_middle. done. }
  set (w3 := match res with Ok _ => w2 | Err err => _ end).
  set (a := match res with Ok _ => true | Err e => negb (denies e) end).
  set (err := match res with Ok _ => None | Err e => Some e end).
  assert (w_log w3 = w_log w2) as Hlog3 by (unfold w3; by destruct res).
  assert (w_entries w3 !! length (w_entries w) = Some (set_verdict e' a err)) as H3.
  { destruct (credited_fields _ _ Hcred) as (Ha & Herr & _). cbn in Ha, Herr. unfold w3, a, err. destruct res as [r|e].
    - rewrite He'. f_equal. destruct e'; cbn in *; by subst.
    - cbn [w_entries set_entries]. rewrite list_lookup_alter_eq, He'. cbn. by rewrite Ha. }
  exists w1, res, w2, (set_verdict e' a err), (logAudit g w3 (set_verdict e' a err)).
  assert (∀ e, w_log (logAudit g w3 e) = w_log w2 ++ (if g_audit g then [e] else [])) as Hla.
  { intros e. unfold logAudit. destruct (g_audit g); cbn; rewrite Hlog3; [done|by rewrite app_nil_r]. }
  assert (∀ e, w_entries (logAudit g w3 e) = w_entries w3) as Hle.
  { intros e. unfold logAudit. by destruct (g_audit g). }
  split_and!; [by unfold w1; cbn; rewrite Hlog2, Hlog|by unfold w1; cbn; rewrite Hrest2, Hrest|done|done| |by rewrite Hla| |].
  - fold w3. by rewrite H3.
  - exact (credited_verdict _ _ Hcred a err).
  - intros loc e Hl. rewrite Hle.
    destruct (Hkeep loc e) as (e'' & He'' & Hc''); [by rewrite H1, lookup_app_l by (by eapply lookup_lt_Some)|].
    exists e''. split; [|done]. unfold w3. destruct res; [done|]. cbn [w_entries set_entries].
    rewrite list_lookup_alter_ne; [done|]. apply lookup_lt_Some in Hl. lia.
Qed.

(** A guard in front of a tame invoker is tame: guards may be nested. *)
Lemma guarded_tame {A} g providerName instance operation
    (inner : Context → Principal → World → result (Error E) A * World) :
  tame inner → tame (λ ctx p, guarded g ctx (Some p) providerName instance operation inner).
Proof.
  intros Htame ctx p w res w' H.
  destruct (verdict g ctx (Some p) providerName instance operation w) as [err|] eqn:Hv.
  - apply (guarded_refused (A := A) _ _ _ _ _ _ inner) in Hv as (entry & w2 & Hg & Hlog & Hent & _).
    rewrite Hg in H. injection H as <- <-. rewrite Hlog, Hent. split; [by apply prefix_app_r|].
    intros loc e He. exists e. split; [by apply lookup_app_l_Some|apply credited_refl].
  - destruct (guarded_accepted g ctx (Some p) _ _ _ inner w Hv Htame)
      as (w1 & res1 & w2 & entry & w3 & Hl1 & _ & _ & Hin & Hg & Hl3 & _ & Hkeep).
    rewrite Hg in H. injection H as <- <-. split; [|done]. rewrite Hl3.
    apply Htame in Hin as [Hpre _]. rewrite Hl1 in Hpre. by apply prefix_app_r.
Qed.

(** C26. Every guarded call leaves exactly one audit entry of its own: what the log gained
    is what the calls nested in it logged (nothing when the guard refused the call, and
    otherwise what the inner invoker added to a log that was still the caller's), followed
    by one entry, whether the call was refused, failed or succeeded.  The entry names the
    provider, operation, subject and depth of the call, carries the error the caller gets,
    and is marked as allowed exactly when the guard let the call pass and the answer was
    not a denial. *)
Theorem guarded_audits_once {A} g ctx p providerName instance operation
    (inner : Context → Principal → World → result (Error E) A * World) w res w' :
  tame inner → g_audit g = true →
  guarded g ctx p providerName instance operation inner w = (res, w') →
  ∃ nested entry, w_log w' = w_log w ++ nested ++ [entry]
    ∧ match verdict g ctx p providerName instance operation w with
      | Some err => nested = [] ∧ res = Err err
      | None => ∃ w1 w2, w_log w1 = w_log w ∧ w_rest w1 = w_rest w
          ∧ inner (handed g ctx p providerName instance operation w)
              (callerOf (entered g ctx p providerName operation w).1.1.1 p) w1 = (res, w2)
          ∧ w_log w2 = w_log w ++ nested
      end
    ∧ ae_Provider entry = providerName ∧ ae_Operation entry = operation ∧ ae_Source entry = g_source g
    ∧ ae_Depth entry = match MetaFromContext ctx with Some m => im_Depth m | None => 0%Z end
    ∧ ae_SubjectID entry = pr_SubjectID (default zero_principal
                             (Canonicalized (Some (callerOf (entered g ctx p providerName operation w).1.1.1 p))))
    ∧ ae_Error entry = match res with Ok _ => None | Err e => Some e end
    ∧ (ae_Allowed entry = true ↔ verdict g ctx p providerName instance operation w = None
                                 ∧ ∀ e, res = Err e → denies e = false).
Proof.
  intros Htame Haudit H.
  assert (∀ a err e, credited (set_verdict (entered g ctx p providerName operation w).1.2 a err) e →
    ae_Provider e = providerName ∧ ae_Operation e = operation ∧ ae_Source e = g_source g
    ∧ ae_Depth e = match MetaFromContext ctx with Some m => im_Depth m | None => 0%Z end
    ∧ ae_SubjectID e = pr_SubjectID (default zero_principal
                             (Canonicalized (Some (callerOf (entered g ctx p providerName operation w).1.1.1 p))))
    ∧ ae_Error e = err ∧ ae_Allowed e = a) as Hfields.
  { intros a err e (-> & -> & -> & -> & -> & -> & _ & ->)%credited_fields. unfold entered.
    destruct (ensured ctx w) as [[ctx1 meta] w1] eqn:He. apply ensured_meta in He as (Hd & _). cbn.
    by split_and!. }
  destruct (verdict g ctx p providerName instance operation w) as [err|] eqn:Hv.
  - apply (guarded_refused (A := A) _ _ _ _ _ _ inner) in Hv as (entry & w2 & Hg & Hlog & _ & _ & ->).
    rewrite Hg in H. injection H as <- <-. rewrite Haudit in Hlog.
    eexists [], _. split; [exact Hlog|]. split; [done|]. destruct (Hfields false (Some err) _ (credited_refl _))
      as (? & ? & ? & ? & ? & ? & Ha).
    do 6 (split; [done|]). rewrite Ha. split; [done|]. by intros [? _].
  - destruct (guarded_accepted g ctx p _ _ _ inner w Hv Htame)
      as (w1 & res1 & w2 & entry & w3 & Hl1 & Hr1 & _ & Hin & Hg & Hl3 & Hcred & _).
    rewrite Hg in H. injection H as <- <-. rewrite Haudit in Hl3.
    pose proof (Htame _ _ _ _ _ Hin) as [[nested Hpre] _]. rewrite Hl1 in Hpre.
    exists nested, entry. rewrite Hl3, Hpre, <- app_assoc. split; [done|].
    split; [by exists w1, w2|].
    apply Hfields in Hcred as (? & ? & ? & ? & ? & ? & Ha). do 6 (split; [done|]). rewrite Ha.
    destruct res1 as [r|e]; [by split|]. split; [|by intros [_ He]; rewrite (He e eq_refl)].
    intros Hn. split; [done|]. intros e' [= <-]. by destruct (denies e).
Qed.

(** ** Nested invocations *)

Definition depthOf (ctx : Context) : Z := match MetaFromContext ctx with Some m => im_Depth m | None => 0 end.
Definition chainOf (ctx : Context) : list string :=
  match MetaFromContext ctx with Some m => im_CallChain m | None => [] end.

(** A context that carries the position of another one on: a context derived from it, or
    one restored from the request context a provider was given. *)
Definition carries (ctx ctx' : Context) : Prop := depthOf ctx' = depthOf ctx ∧ chainOf ctx' = chainOf ctx.

(** Calls made from within one another, under guards of depth at most [max]: the keys of the
    calls, outermost first, and the context of the innermost one. *)
Inductive nested (max : Z) (ctx0 : Context) : list string → Context → Prop :=
  | nested_start : nested max ctx0 [] ctx0
  | nested_call keys ctx ctx' g p providerName instance operation w :
      nested max ctx0 keys ctx → carries ctx ctx' → (g_maxDepth g ≤ max)%Z →
      verdict g ctx' p providerName instance operation w = None →
      nested max ctx0 (keys ++ [chainKey providerName instance operation])
        (handed g ctx' p providerName instance operation w).

Lemma handed_meta g ctx p providerName instance operation w :
  verdict g ctx p providerName instance operation w = None →
  (depthOf ctx < g_maxDepth g)%Z ∧ chainKey providerName instance operation ∉ chainOf ctx
  ∧ depthOf (handed g ctx p providerName instance operation w) = (depthOf ctx + 1)%Z
  ∧ chainOf (handed g ctx p providerName instance operation w)
    = chainOf ctx ++ [chainKey providerName instance operation].
Proof.
  unfold verdict, handed, entered, depthOf, chainOf. destruct (ensured ctx w) as [[ctx1 meta] w1] eqn:He.
  apply ensured_meta in He as (Hd & Hc & _).
  destruct (check _ _ _ _ _ _) as [refused w2] eqn:Hch. cbn [fst]. intros ->.
  apply check_accepts in Hch as (H1 & H2 & _). cbn. rewrite <- Hd, <- Hc. done.
Qed.

(** Invocations cannot recurse without end: from a request that enters with no
    invocation metadata, calls nest at most as deep as the largest depth a guard allows,
    and no call occurs within a call of the same provider, instance and operation. *)
Lemma nested_bounded max ctx0 keys ctx :
  nested max ctx0 keys ctx → MetaFromContext ctx0 = None →
  (Z.of_nat (length keys) ≤ Z.max 0 max)%Z ∧ NoDup keys
  ∧ depthOf ctx = Z.of_nat (length keys) ∧ chainOf ctx = keys.
Proof.
  intros H Hnone. induction H as [|keys ctx ctx' g p providerName instance operation w Hn IH [Hcd Hcc] Hmax Hv].
  - unfold depthOf, chainOf. rewrite Hnone. split_and!; [cbn; lia|constructor|done|done].
  - destruct IH as (Hlen & Hnd & Hd & Hc). apply handed_meta in Hv as (Hlt & Hnew & -> & ->).
    rewrite Hcd, Hcc, Hd, Hc in *. rewrite length_app. cbn [length].
    split_and!; [lia| |lia|done]. apply NoDup_app. split_and!; [done| |apply NoDup_singleton].
    intros x Hx ->%list_elem_of_singleton. done.
Qed.

(** ** Rate limits *)

(** The answers to a sequence of questions, each with its time and provider. *)
Fixpoint answers (r : rateLimiter) (asks : list (time * string)) : list bool :=
  match asks with
  | [] => []
  | (now, provider) :: asks => let '(ok, r) := Allow now r provider in ok :: answers r asks
  end.

(** The answers of one limiter asked at the given times. *)
Fixpoint alone (limiter : L) (times : list time) : list bool :=
  match times with
  | [] => []
  | now :: times => let '(ok, limiter) := AllowNow now limiter in ok :: alone limiter times
  end.

(** The part of a sequence that is about one provider. *)
Definition about {X} (provider : string) (asks : list (time * string)) (xs : list X) : list X :=
  omap (λ q : (time * string) * X, if decide (q.1.2 = provider) then Some q.2 else None) (zip asks xs).

Lemma answers_about r asks provider :
  about provider asks (answers r asks)
  = alone (default (NewLimiter (rl_rps r) (rl_burst r)) (rl_limiters r !! provider)) (about provider asks asks.*1).
Proof.
  revert r. induction asks as [|[now name] asks IH]; intros r; [done|]. unfold about in *. cbn [answers fmap list_fmap].
  unfold Allow. destruct (AllowNow now _) as [ok limiter] eqn:Ha. cbn [zip_with omap list_omap fst snd].
  case_decide as Hn.
  - subst name. cbn [alone]. rewrite Ha. f_equal. rewrite IH. cbn [rl_limiters rl_rps rl_burst].
    by rewrite lookup_insert_eq.
  - rewrite IH. cbn [rl_limiters rl_rps rl_burst]. by rewrite lookup_insert_ne by congruence.
Qed.

(** Providers are limited independently: in any interleaving of calls, the answers for
    one provider are those of a fresh limiter of its own, asked at the times of the calls
    for that provider. *)
Theorem rate_limits_are_independent rps burst asks provider :
  about provider asks (answers (newRateLimiter rps burst) asks)
  = alone (NewLimiter rps burst) (about provider asks asks.*1).
Proof. by rewrite answers_about. Qed.
End guard.
#[global] Arguments World : clear implicits.

(** Keys do not collide when the provider and the instance have no slash. *)
Lemma chainKey_inj p i o p' i' o' :
  has_byte p "/" = false → has_byte i "/" = false → has_byte p' "/" = false → has_byte i' "/" = false →
  chainKey p i o = chainKey p' i' o' →
  p = p' ∧ o = o' ∧ (if decide (i = "") then "default" else i) = (if decide (i' = "") then "default" else i').
Proof.
  intros Hp Hi Hp' Hi' H. unfold chainKey in H.
  assert (∀ j, has_byte j "/" = false → has_byte (if decide (j = "") then "default" else j) "/" = false) as Hd.
  { intros j Hj. by destruct (decide (j = "")). }
  assert (∀ a b a' b', has_byte a "/" = false → has_byte a' "/" = false →
            a +:+ "/" +:+ b = a' +:+ "/" +:+ b' → a = a' ∧ b = b') as Hcut.
  { intros a b a' b' Ha Ha' Heq. pose proof (Cut_app a b "/"%char Ha) as H1. pose proof (Cut_app a' b' "/"%char Ha') as H2.
    change ("/" +:+ b) with (String "/" b) in Heq. change ("/" +:+ b') with (String "/" b') in Heq.
    rewrite Heq, H2 in H1. by injection H1 as -> ->. }
  apply Hcut in H as [-> H]; [|done..]. apply Hcut in H as [-> ->]; auto.
Qed.

(** ** Two calls, one within the other *)

Definition sample_guard : GuardedInvoker :=
  {| g_id := 0; g_allowed := None; g_source := "http"; g_maxDepth := DefaultMaxDepth; g_audit := true;
     g_limited := true |}.

(** A limiter that lets two calls pass. *)
Definition twice (now : time) (n : Z) : bool * Z := ((0 <? n)%Z, (n - 1)%Z).
Definition sample_id (n : nat) : string := String (ascii_of_nat (48 + n)) "".
Definition sample_world : World unit unit Z :=
  {| w_entries := []; w_log := []; w_limiters := <[0 := newRateLimiter 1 2]> ∅; w_now := 7; w_next := 1; w_rest := tt |}.

Abbreviation sample_guarded := (guarded (E := unit) (W := unit) (λ _ burst, burst) twice sample_id sample_guard).

(** Slack is called, and calls itself again. *)
Definition inner_call (ctx : Context) (p : Principal) (w : World unit unit Z) : result (Error unit) nat * World unit unit Z :=
  (Ok 3, w).
Definition outer_call (ctx : Context) (p : Principal) (w : World unit unit Z) : result (Error unit) nat * World unit unit Z :=
  sample_guarded ctx (Some p) "slack" "" "read" inner_call w.

Lemma guarded_audits_once_witness :
  ∃ res w', sample_guarded [] None "slack" "default" "read" outer_call sample_world = (res, w')
    ∧ res = Err (RecursionError "slack" "read") ∧ map ae_Allowed (w_log w') = [false; true]
    ∧ ∃ nested entry, w_log w' = w_log sample_world ++ nested ++ [entry] ∧ length nested = 1
        ∧ ae_Error entry = Some (RecursionError "slack" "read").
Proof.
  destruct (sample_guarded [] None "slack" "default" "read" outer_call sample_world) as [res w'] eqn:H.
  exists res, w'. split; [done|].
  assert (sample_guarded [] None "slack" "default" "read" outer_call sample_world = (res, w')) as H' by exact H.
  apply guarded_audits_once in H as (nested & entry & Hlog & _ & _ & _ & _ & _ & _ & Herr & _); [| |done].
  - vm_compute in H'. injection H' as <- <-. split_and!; [done|done|]. exists nested, entry.
    split_and!; [done| |done]. apply (f_equal length) in Hlog. rewrite !length_app in Hlog.
    cbn in Hlog. lia.
  - unfold tame. intros ctx p w r w2 Hr. unfold outer_call in Hr. revert Hr. apply guarded_tame.
    intros c q v r' v' [= <- <-]. split; [done|]. intros loc e He. exists e. split; [done|apply credited_refl].
Defined.

Lemma nested_bounded_example :
  ∃ keys ctx, nested (E := unit) (W := unit) (λ _ burst : Z, burst) twice sample_id 5 [] keys ctx
    ∧ keys = ["slack/default/read"; "linear/default/list"]
    ∧ (Z.of_nat (length keys) ≤ 5)%Z ∧ depthOf ctx = 2%Z.
Proof.
  set (ctx1 := handed sample_id sample_guard [] None "slack" "" "read" sample_world).
  set (ctx2 := handed sample_id sample_guard ctx1 None "linear" "" "list" sample_world).
  assert (nested (E := unit) (W := unit) (λ _ burst : Z, burst) twice sample_id 5 []
            ([] ++ [chainKey "slack" "" "read"]) ctx1) as H1.
  { eapply nested_call; [apply nested_start|done|by vm_compute|by vm_compute]. }
  assert (nested (E := unit) (W := unit) (λ _ burst : Z, burst) twice sample_id 5 []
            (([] ++ [chainKey "slack" "" "read"]) ++ [chainKey "linear" "" "list"]) ctx2) as H2.
  { eapply nested_call; [exact H1|done|by vm_compute|by vm_compute]. }
  eexists _, _. split; [exact H2|]. split; [done|].
  apply nested_bounded in H2 as (Hlen & _ & Hd & _); [|done].
  split; [exact Hlen|]. by rewrite Hd.
Defined.

End GuardedInvoker.
