(* ===== verification/RequestContexts.v ===== *)
(** * RequestContexts: a call's context on the wire

    Models [gestaltd/services/appaccess/request_context.go] and the conversions it uses
    from [gestaltd/internal/agentwire/convert.go]: what a provider is told about the call
    it serves, and how the context is put together again when the provider calls back.

    A message is a record, a field that may be missing an option; the accessors of
    generated messages are nil-safe, so a missing message reads as a zero one.  [Struct]
    is [structpb.Struct], with [StructFromMap] and [AsMap]. *)

From stdpp Require Import base gmap strings list sorting sets.
From Stdlib Require Import ZArith Ascii Lia.
From S2P Require Import Prelude Catalog TurnScope Principals Permissions InvocationContext.

Set Default Goal Selector "!".

Module RequestContexts.
Import Catalog Principals Permissions InvocationContext.

(** ** Messages *)

Record InvocationMsg := {
  iv_RequestId : string; iv_Depth : Z; iv_CallChain : list string; iv_Surface : InvocationSurface;
  iv_InternalConnectionAccess : bool; iv_Connection : string }.

Definition empty_invocation : InvocationMsg :=
  {| iv_RequestId := ""; iv_Depth := 0; iv_CallChain := []; iv_Surface := ""; iv_InternalConnectionAccess := false;
     iv_Connection := "" |}.
#[export] Instance InvocationMsg_eq_dec : EqDecision InvocationMsg.
Proof. solve_decision. Defined.

Record RequestContext (Struct : Type) := {
  rc_Subject : option SubjectContext;
  rc_Credential : option CredentialContext;
  rc_Access : option AccessContext;
  rc_Workflow : option Struct;
  rc_Agent : option AgentInvocationContext;
  rc_ToolRefs : list TurnScope.ToolRef;
  rc_ToolRefsSet : bool;
  rc_Host : option HostContext;
  rc_AgentSubject : option SubjectContext;
  rc_Caller : option CallerProvider;
  rc_Invocation : option InvocationMsg;
  rc_RequestMeta : option RequestMeta }.
#[global] Arguments rc_Subject {Struct}. #[global] Arguments rc_Credential {Struct}.
#[global] Arguments rc_Access {Struct}. #[global] Arguments rc_Workflow {Struct}.
#[global] Arguments rc_Agent {Struct}. #[global] Arguments rc_ToolRefs {Struct}.
#[global] Arguments rc_ToolRefsSet {Struct}. #[global] Arguments rc_Host {Struct}.
#[global] Arguments rc_AgentSubject {Struct}. #[global] Arguments rc_Caller {Struct}.
#[global] Arguments rc_Invocation {Struct}. #[global] Arguments rc_RequestMeta {Struct}.

Definition zero_credential : CredentialContext :=
  {| cc_Mode := ""; cc_SubjectID := ""; cc_Connection := ""; cc_Instance := "" |}.
Definition zero_access : AccessContext := {| ac_Policy := ""; ac_Role := "" |}.
Definition zero_request_meta : RequestMeta := {| rm_ClientIP := ""; rm_RemoteAddr := ""; rm_UserAgent := "" |}.
Definition zero_host : HostContext := {| hc_PublicBaseURL := "" |}.
Definition zero_caller : CallerProvider := {| cp_Kind := ""; cp_Name := "" |}.
#[export] Instance AccessContext_eq_dec : EqDecision AccessContext.
Proof. solve_decision. Defined.
#[export] Instance HostContext_eq_dec : EqDecision HostContext.
Proof. solve_decision. Defined.

(** [agentwire] *)
Definition RunAsSubjectFromProto (subject : option SubjectContext) : option TurnScope.RunAsSubject :=
  match subject with
  | None => None
  | Some s => TurnScope.NormalizeRunAsSubject (Some {| TurnScope.ra_SubjectID := sx_Id s |})
  end.
Definition RunAsSubjectToProto (subject : option TurnScope.RunAsSubject) : option SubjectContext :=
  match TurnScope.NormalizeRunAsSubject subject with
  | None => None
  | Some s => Some {| sx_Id := TurnScope.ra_SubjectID s; sx_Email := ""; sx_DisplayName := ""; sx_Scopes := [];
                      sx_Permissions := [] |}
  end.

(** A tool reference crosses the wire with its fields and a normalised [RunAs]. *)
Definition toolRefOnWire (ref : TurnScope.ToolRef) : TurnScope.ToolRef :=
  {| TurnScope.tr_System := TurnScope.tr_System ref; TurnScope.tr_App := TurnScope.tr_App ref;
     TurnScope.tr_Operation := TurnScope.tr_Operation ref; TurnScope.tr_Connection := TurnScope.tr_Connection ref;
     TurnScope.tr_Instance := TurnScope.tr_Instance ref; TurnScope.tr_CredentialMode := TurnScope.tr_CredentialMode ref;
     TurnScope.tr_RunAs := TurnScope.NormalizeRunAsSubject (TurnScope.tr_RunAs ref);
     TurnScope.tr_Title := TurnScope.tr_Title ref; TurnScope.tr_Description := TurnScope.tr_Description ref |}.
Definition ToolRefsToProto (refs : list TurnScope.ToolRef) : list TurnScope.ToolRef := map toolRefOnWire refs.
Definition ToolRefsFromProto (refs : list TurnScope.ToolRef) : list TurnScope.ToolRef := map toolRefOnWire refs.

(** [int32(x)] *)
Definition int32 (x : Z) : Z := ((x + 2 ^ 31) mod 2 ^ 32 - 2 ^ 31)%Z.

(** [strings.TrimRight(s, "/")] *)
Fixpoint strip_slashes (l : bytes) : bytes :=
  match l with a :: l => if byte_is 47 a then strip_slashes l else a :: l | [] => [] end.
Definition TrimRightSlash (s : string) : string :=
  String.string_of_list_ascii (reverse (strip_slashes (reverse (String.list_ascii_of_string s)))).

Inductive code :=
  | InvalidArgument | NotFound | PermissionDenied | ResourceExhausted | FailedPrecondition | Aborted
  | Unimplemented | Internal | Unavailable | Unauthenticated | Unknown | OtherCode (n : N).
#[export] Instance code_eq_dec : EqDecision code.
Proof. solve_decision. Defined.

Section wire.
  Context {Struct : Type}.
  Context (ToLower : string → string).
  Context (StructFromMap : workflowMap → option Struct) (AsMap : Struct → workflowMap).
  Implicit Types (ctx : Context) (r : RequestContext Struct).

Definition subjectIDForPrincipal (p : option Principal) : string :=
  match Canonicalized p with Some p => pr_SubjectID p | None => "" end.

Definition subjectOf ctx : option SubjectContext :=
  match FromContext ctx with
  | None => None
  | Some p => Some
      {| sx_Id := subjectIDForPrincipal (Some p); sx_Email := subjectEmail (Some p);
         sx_DisplayName := subjectDisplayName (Some p); sx_Scopes := pr_Scopes p;
         sx_Permissions := permissionSetToSubjectPermissionContext (EffectivePermissions ToLower (Some p)) |}
  end.

(** [protoutil.StructFromMap]: no struct for an empty map. *)
Definition workflowOf ctx : result code (option Struct) :=
  match WorkflowContextFromContext ctx with
  | None | Some [] => Ok None
  | Some m => match StructFromMap m with Some s => Ok (Some s) | None => Err InvalidArgument end
  end.

Definition invocationOf ctx : InvocationMsg :=
  let meta := MetaFromContext ctx in
  {| iv_RequestId := match meta with Some m => im_RequestID m | None => "" end;
     iv_Depth := match meta with Some m => int32 (im_Depth m) | None => 0 end;
     iv_CallChain := match meta with Some m => im_CallChain m | None => [] end;
     iv_Surface := InvocationSurfaceFromContext ctx;
     iv_InternalConnectionAccess := InternalConnectionAccessFromContext ctx;
     iv_Connection := ConnectionFromContext ctx |}.

Definition nonzero {A} `{EqDecision A} (zero x : A) : option A := if decide (x = zero) then None else Some x.

Definition publicBaseURLOf ctx (publicBaseURL : string) : string :=
  let publicBaseURL := TrimRightSlash (TrimSpace publicBaseURL) in
  if decide (publicBaseURL = "") then TrimRightSlash (TrimSpace (hc_PublicBaseURL (HostContextFromContext ctx)))
  else publicBaseURL.

Definition callerFor ctx (caller : CallerProvider) : option CallerProvider :=
  let caller := if decide (cp_Kind caller = "" ∧ cp_Name caller = "") then CallerProviderFromContext ctx else caller in
  if decide (cp_Kind caller = "" ∨ cp_Name caller = "") then None else Some caller.

Definition is_none {A} (x : option A) : bool := match x with None => true | Some _ => false end.

Definition is_blank r : bool :=
  is_none (rc_Subject r) && is_none (rc_Credential r) && is_none (rc_Access r) && is_none (rc_Workflow r)
  && is_none (rc_Agent r) && negb (rc_ToolRefsSet r) && bool_decide (length (rc_ToolRefs r) = 0)
  && is_none (rc_Host r) && is_none (rc_AgentSubject r) && is_none (rc_Caller r) && is_none (rc_Invocation r)
  && is_none (rc_RequestMeta r).

Definition RequestContextProto ctx (publicBaseURL : string) (caller : CallerProvider)
    : result code (option (RequestContext Struct)) :=
  let! workflow := workflowOf ctx in
  let toolRefs := ToolRefsContextFromContext ctx in
  let base := publicBaseURLOf ctx publicBaseURL in
  let out :=
    {| rc_Subject := subjectOf ctx;
       rc_Credential := nonzero zero_credential (CredentialContextFromContext ctx);
       rc_Access := nonzero zero_access (AccessContextFromContext ctx);
       rc_Workflow := workflow;
       rc_Agent := nonzero no_agent (AgentInvocationContextFromContext ctx);
       rc_ToolRefs := if tc_Set toolRefs then ToolRefsToProto (tc_Refs toolRefs) else [];
       rc_ToolRefsSet := tc_Set toolRefs;
       rc_Host := if decide (base = "") then None else Some {| hc_PublicBaseURL := base |};
       rc_AgentSubject := RunAsSubjectToProto (ra_AgentSubject (RunAsAuditFromContext ctx));
       rc_Caller := callerFor ctx caller;
       rc_Invocation := nonzero empty_invocation (invocationOf ctx);
       rc_RequestMeta := nonzero zero_request_meta (RequestMetaFromContext ctx) |} in
  Ok (if is_blank out then None else Some out).

(** [MergeRequestContext] *)
Definition or_fallback {A} (x y : option A) : option A := match x with Some _ => x | None => y end.

Definition MergeRequestContext (existing fallback : option (RequestContext Struct))
    : option (RequestContext Struct) :=
  match existing, fallback with
  | None, _ => fallback
  | Some _, None => existing
  | Some r, Some f => Some
      {| rc_Subject := if decide (match rc_Subject r with Some s => sx_Id s | None => "" end = "")
                       then or_fallback (rc_Subject f) (rc_Subject r) else rc_Subject r;
         rc_Credential := or_fallback (rc_Credential r) (rc_Credential f);
         rc_Access := or_fallback (rc_Access r) (rc_Access f);
         rc_Workflow := or_fallback (rc_Workflow r) (rc_Workflow f);
         rc_Agent := or_fallback (rc_Agent r) (rc_Agent f);
         rc_ToolRefs := if negb (rc_ToolRefsSet r) && rc_ToolRefsSet f then rc_ToolRefs f else rc_ToolRefs r;
         rc_ToolRefsSet := rc_ToolRefsSet r || rc_ToolRefsSet f;
         rc_Host := or_fallback (rc_Host r) (rc_Host f);
         rc_AgentSubject := or_fallback (rc_AgentSubject r) (rc_AgentSubject f);
         rc_Caller := match rc_Caller r with
                      | None => rc_Caller f
                      | Some c => if decide (TrimSpace (cp_Kind c) = "" ∨ TrimSpace (cp_Name c) = "")
                                  then or_fallback (rc_Caller f) (Some c) else Some c
                      end;
         rc_Invocation := or_fallback (rc_Invocation r) (rc_Invocation f);
         rc_RequestMeta := or_fallback (rc_RequestMeta r) (rc_RequestMeta f) |}
  end.

(** ** What a provider is served with *)

Record ProviderRequestContext := {
  pc_callerName : string;
  pc_callerKind : ProviderKind;
  pc_principal : option Principal;
  pc_agentSubject : option TurnScope.RunAsSubject;
  pc_requestMeta : RequestMeta;
  pc_credential : CredentialContext;
  pc_invocation : option InvocationMeta;
  pc_surface : InvocationSurface;
  pc_internalConnection : bool;
  pc_connection : string;
  pc_workflow : option workflowMap;
  pc_agent : AgentInvocationContext;
  pc_access : AccessContext;
  pc_host : HostContext;
  pc_toolRefs : list TurnScope.ToolRef;
  pc_toolRefsSet : bool }.

Definition principalFromRequestContext ctx (r : option (RequestContext Struct)) : option Principal :=
  let carried := match r with None => None | Some r => PrincipalFromSubjectContext (rc_Subject r) end in
  match Canonicalized (FromContext ctx) with
  | None => carried
  | Some p => if decide (TrimSpace (pr_SubjectID p) = "") then carried else Some p
  end.

Definition SubjectIDFromRequestContext (r : option (RequestContext Struct)) : string :=
  match r with
  | None => ""
  | Some r => match PrincipalFromSubjectContext (rc_Subject r) with
              | Some p => TrimSpace (pr_SubjectID p)
              | None => ""
              end
  end.

Definition requestMetaFromRequestContext r : RequestMeta := default zero_request_meta (rc_RequestMeta r).
Definition credentialFromRequestContext r : CredentialContext := default zero_credential (rc_Credential r).
Definition workflowFromRequestContext r : option workflowMap :=
  match rc_Workflow r with None => None | Some s => CloneWorkflowContext (Some (AsMap s)) end.
Definition agentFromRequestContext r : AgentInvocationContext :=
  normalizeAgentInvocationContext (default no_agent (rc_Agent r)).
Definition invocationMetaFromRequestContext r : option InvocationMeta :=
  match rc_Invocation r with
  | None => None
  | Some inv => Some {| im_RequestID := TrimSpace (iv_RequestId inv); im_Depth := iv_Depth inv;
                        im_CallChain := iv_CallChain inv |}
  end.

Definition ProviderRequestContextFromProto ctx (reqCtx : option (RequestContext Struct))
    (expectedKind : ProviderKind) (expectedName : string) : result code ProviderRequestContext :=
  match reqCtx with
  | None => Err FailedPrecondition
  | Some r =>
      let caller := default zero_caller (rc_Caller r) in
      let callerKind := TrimSpace (cp_Kind caller) in
      let callerName := TrimSpace (cp_Name caller) in
      let expected := TrimSpace expectedName in
      fail_if negb (bool_decide (expectedKind = "")) && negb (bool_decide (callerKind = expectedKind))
        with FailedPrecondition ;;
      fail_if bool_decide (callerName = "") with FailedPrecondition ;;
      fail_if negb (bool_decide (expected = "")) && negb (bool_decide (callerName = expected))
        with PermissionDenied ;;
      Ok {| pc_callerName := callerName; pc_callerKind := callerKind;
            pc_principal := principalFromRequestContext ctx reqCtx;
            pc_agentSubject := RunAsSubjectFromProto (rc_AgentSubject r);
            pc_requestMeta := requestMetaFromRequestContext r;
            pc_credential := credentialFromRequestContext r;
            pc_invocation := invocationMetaFromRequestContext r;
            pc_surface := TrimSpace (iv_Surface (default empty_invocation (rc_Invocation r)));
            pc_internalConnection := iv_InternalConnectionAccess (default empty_invocation (rc_Invocation r));
            pc_connection := TrimSpace (iv_Connection (default empty_invocation (rc_Invocation r)));
            pc_workflow := workflowFromRequestContext r;
            pc_agent := agentFromRequestContext r;
            pc_access := default zero_access (rc_Access r);
            pc_host := default zero_host (rc_Host r);
            pc_toolRefs := if rc_ToolRefsSet r then ToolRefsFromProto (rc_ToolRefs r) else [];
            pc_toolRefsSet := rc_ToolRefsSet r |}
  end.

Definition connectionFor (connectionOverride connection credential : string) : string :=
  let first := TrimSpace connectionOverride in
  let second := if decide (first = "") then TrimSpace connection else first in
  if decide (second = "") then TrimSpace credential else second.

Definition Restore (c : ProviderRequestContext) ctx (connectionOverride : string) : Context :=
  let ctx := WithEntry ctx EntryGRPC in
  let ctx := whenSome (pc_principal c) (λ p x, WithPrincipal x (Canonicalized (Some p))) ctx in
  let ctx := whenSome (pc_agentSubject c)
               (λ s x, WithRunAsAudit x (Some s)
                         (RunAsSubjectFromProto (SubjectContextFromPrincipal ToLower (pc_principal c)))) ctx in
  let ctx := when (negb (bool_decide (pc_callerName c = "")) && negb (bool_decide (pc_callerKind c = "")))
               (λ x, WithCallerProvider x (pc_callerKind c) (pc_callerName c)) ctx in
  let ctx := whenSome (pc_invocation c) (λ meta x, ContextWithMeta x meta) ctx in
  let ctx := whenSome (nonzero zero_request_meta (pc_requestMeta c)) (λ m x, WithRequestMeta x m) ctx in
  let ctx := whenSome (nonzero zero_credential (pc_credential c)) (λ cred x, WithCredentialContext x cred) ctx in
  let ctx := whenSome (nonzero "" (pc_surface c)) (λ s x, WithInvocationSurface x s) ctx in
  let ctx := when (pc_internalConnection c && bool_decide (pc_agent c = no_agent)) WithInternalConnectionAccess ctx in
  let ctx := whenSome (pc_workflow c) (λ w x, WithWorkflowContext x (CloneWorkflowContext (Some w))) ctx in
  let ctx := whenSome (nonzero no_agent (pc_agent c)) (λ a x, WithAgentInvocationContext x a) ctx in
  let ctx := whenSome (nonzero zero_access (pc_access c)) (λ a x, WithAccessContext x a) ctx in
  let ctx := whenSome (nonzero zero_host (pc_host c)) (λ h x, WithHostContext x h) ctx in
  let ctx := when (pc_toolRefsSet c) (λ x, WithToolRefsContext x (pc_toolRefs c)) ctx in
  let connection := connectionFor connectionOverride (pc_connection c) (cc_Connection (pc_credential c)) in
  whenSome (nonzero "" connection) (λ s x, WithConnection x s) ctx.
End wire.

(** ** The round trip *)

Lemma default_nonzero {A} `{EqDecision A} (zero x : A) : default zero (nonzero zero x) = x.
Proof. unfold nonzero. by case_decide. Qed.

Lemma int32_small x : (- 2 ^ 31 ≤ x < 2 ^ 31)%Z → int32 x = x.
Proof. intros H. unfold int32. rewrite Z.mod_small by lia. lia. Qed.

Lemma is_blank_false {Struct} (r : RequestContext Struct) :
  is_blank r = true → rc_Caller r = None.
Proof. unfold is_blank. rewrite !andb_true_iff. intros H. destruct_and!. by destruct (rc_Caller r). Qed.

Section round_trip.
  Context {Struct : Type}.
  Context (ToLower : string → string).
  Context (StructFromMap : workflowMap → option Struct) (AsMap : Struct → workflowMap).

Definition no_audit : RunAsAuditContext := {| ra_AgentSubject := None; ra_RunAsSubject := None |}.

(** What survives: every part of the context that says who calls, from where, as what, on
    whose behalf and how deep; and what does not: how the caller was authenticated, the
    credential mode asked for, the idempotency key, the HTTP binding, the audit entry and
    the public entrance.  The provider was addressed as [caller] under [publicBaseURL]. *)
Record restored (publicBaseURL : string) (caller : CallerProvider) (ctx ctx' : Context) : Prop := {
  rs_principal p : FromContext ctx = Some p → TrimSpace (pr_SubjectID p) ≠ "" →
    ∃ q, FromContext ctx' = Some q ∧ pr_SubjectID q = TrimSpace (pr_SubjectID p)
      ∧ pr_Scopes q = pr_Scopes p ∧ pr_Source q = SourceUnknown
      ∧ pr_ClientID q = "" ∧ pr_Audience q = [];
  rs_anonymous : FromContext ctx = None → FromContext ctx' = None;
  rs_audit a p : ra_AgentSubject (RunAsAuditFromContext ctx) = Some a →
    FromContext ctx = Some p → TrimSpace (pr_SubjectID p) ≠ "" →
    RunAsAuditFromContext ctx'
    = {| ra_AgentSubject := Some a;
         ra_RunAsSubject := Some {| TurnScope.ra_SubjectID := TrimSpace (pr_SubjectID p) |} |};
  rs_no_audit : ra_AgentSubject (RunAsAuditFromContext ctx) = None → RunAsAuditFromContext ctx' = no_audit;
  rs_caller : ∃ k, callerFor ctx caller = Some k ∧ TrimSpace (cp_Name k) ≠ ""
    ∧ CallerProviderFromContext ctx'
      = if decide (TrimSpace (cp_Kind k) = "") then zero_caller
        else {| cp_Kind := TrimSpace (cp_Kind k); cp_Name := TrimSpace (cp_Name k) |};
  rs_host : HostContextFromContext ctx' = {| hc_PublicBaseURL := publicBaseURLOf ctx publicBaseURL |};
  rs_workflow m : WorkflowContextFromContext ctx = Some m → m ≠ [] →
    ∃ s, StructFromMap m = Some s
      ∧ WorkflowContextFromContext ctx' = CloneWorkflowContext (CloneWorkflowContext (Some (AsMap s)));
  rs_no_workflow : default [] (WorkflowContextFromContext ctx) = [] → WorkflowContextFromContext ctx' = None;
  rs_entry : EntryFromContext ctx' = EntryGRPC;
  rs_depth : match MetaFromContext ctx' with Some m => im_Depth m | None => 0%Z end
             = match MetaFromContext ctx with Some m => im_Depth m | None => 0%Z end;
  rs_chain : match MetaFromContext ctx' with Some m => im_CallChain m | None => [] end
             = match MetaFromContext ctx with Some m => im_CallChain m | None => [] end;
  rs_request : match MetaFromContext ctx' with Some m => im_RequestID m | None => "" end
               = TrimSpace (match MetaFromContext ctx with Some m => im_RequestID m | None => "" end);
  rs_meta : RequestMetaFromContext ctx' = RequestMetaFromContext ctx;
  rs_credential : CredentialContextFromContext ctx' = CredentialContextFromContext ctx;
  rs_access : AccessContextFromContext ctx' = AccessContextFromContext ctx;
  rs_agent : AgentInvocationContextFromContext ctx' = AgentInvocationContextFromContext ctx;
  rs_surface : InvocationSurfaceFromContext ctx' = TrimSpace (InvocationSurfaceFromContext ctx);
  rs_internal : InternalConnectionAccessFromContext ctx'
                = InternalConnectionAccessFromContext ctx
                  && bool_decide (AgentInvocationContextFromContext ctx = no_agent);
  rs_refs : ToolRefsContextFromContext ctx'
            = {| tc_Set := tc_Set (ToolRefsContextFromContext ctx);
                 tc_Refs := if tc_Set (ToolRefsContextFromContext ctx)
                            then map toolRefOnWire (tc_Refs (ToolRefsContextFromContext ctx)) else [] |};
  rs_connection : ConnectionFromContext ctx'
                  = connectionFor "" (ConnectionFromContext ctx) (cc_Connection (CredentialContextFromContext ctx));
  rs_lost : CredentialModeOverrideFromContext ToLower ctx' = CredentialModeOverrideFromContext ToLower []
    ∧ IdempotencyKeyFromContext ctx' = "" ∧ HTTPBindingFromContext ctx' = ""
    ∧ auditEntryFromContext ctx' = None ∧ isPublicIngress ctx' = false }.

Lemma toolRefOnWire_idem r : toolRefOnWire (toolRefOnWire r) = toolRefOnWire r.
Proof. unfold toolRefOnWire. cbn. by rewrite TurnScope.runAs_idem. Qed.

Lemma connectionFor_trimmed c cred : connectionFor "" (TrimSpace c) cred = connectionFor "" c cred.
Proof. unfold connectionFor. cbn zeta. by rewrite TrimSpace_idem. Qed.

Lemma normalizeAgent_idem a :
  normalizeAgentInvocationContext (normalizeAgentInvocationContext a) = normalizeAgentInvocationContext a.
Proof.
  unfold normalizeAgentInvocationContext. cbn [ai_ProviderName ai_SessionID ai_TurnID]. by rewrite !TrimSpace_idem.
Qed.

Lemma AgentFromContext_normal ctx :
  normalizeAgentInvocationContext (AgentInvocationContextFromContext ctx) = AgentInvocationContextFromContext ctx.
Proof. apply normalizeAgent_idem. Qed.

(** *** What a restored context holds *)
Section restore.
  Context (c : ProviderRequestContext) (o : string).
  Local Abbreviation ctx' := (Restore ToLower c [] o).

Lemma Restore_entry : EntryFromContext ctx' = EntryGRPC.
Proof. unfold EntryFromContext, Restore. cbn zeta. by look_through. Qed.

Lemma Restore_meta : MetaFromContext ctx' = pc_invocation c.
Proof. unfold MetaFromContext, Restore. cbn zeta. look_through. destruct (pc_invocation c); cbn; [done|]. by look_through. Qed.

Lemma Restore_principal : FromContext ctx' = Canonicalized (pc_principal c).
Proof.
  unfold FromContext, Restore. cbn zeta. look_through. destruct (pc_principal c) as [p|]; cbn; [|done].
  by rewrite !canonicalize_idem.
Qed.

Lemma Restore_requestMeta : RequestMetaFromContext ctx' = pc_requestMeta c.
Proof.
  unfold RequestMetaFromContext, Restore. cbn zeta. look_through.
  etrans; [|apply (default_nonzero zero_request_meta (pc_requestMeta c))].
  destruct (nonzero zero_request_meta (pc_requestMeta c)); cbn; [done|]. by look_through.
Qed.

Lemma Restore_credential : CredentialContextFromContext ctx' = pc_credential c.
Proof.
  unfold CredentialContextFromContext, Restore. cbn zeta. look_through.
  etrans; [|apply (default_nonzero zero_credential (pc_credential c))].
  destruct (nonzero zero_credential (pc_credential c)); cbn; [done|]. by look_through.
Qed.

Lemma Restore_access : AccessContextFromContext ctx' = pc_access c.
Proof.
  unfold AccessContextFromContext, Restore. cbn zeta. look_through.
  etrans; [|apply (default_nonzero zero_access (pc_access c))].
  destruct (nonzero zero_access (pc_access c)); cbn; [done|]. by look_through.
Qed.

Lemma Restore_surface : InvocationSurfaceFromContext ctx' = pc_surface c.
Proof.
  unfold InvocationSurfaceFromContext, Restore. cbn zeta. look_through.
  etrans; [|apply (default_nonzero "" (pc_surface c))].
  destruct (nonzero "" (pc_surface c)); cbn; [done|]. by look_through.
Qed.

Lemma Restore_agent : normalizeAgentInvocationContext (pc_agent c) = pc_agent c → AgentInvocationContextFromContext ctx' = pc_agent c.
Proof.
  intros Hn. unfold AgentInvocationContextFromContext, Restore. cbn zeta. look_through.
  unfold nonzero at 1. case_decide as Ha; cbn.
  - look_through. by rewrite Ha.
  - unfold WithAgentInvocationContext. rewrite Hn. rewrite decide_False by done. cbn. by rewrite Hn.
Qed.

Lemma Restore_internal :
  InternalConnectionAccessFromContext ctx' = pc_internalConnection c && bool_decide (pc_agent c = no_agent).
Proof.
  unfold InternalConnectionAccessFromContext, Restore. cbn zeta. look_through.
  destruct (pc_internalConnection c && _); cbn [when]; [done|]. by look_through.
Qed.

Lemma Restore_refs :
  ToolRefsContextFromContext ctx'
  = if pc_toolRefsSet c then {| tc_Set := true; tc_Refs := pc_toolRefs c |} else {| tc_Set := false; tc_Refs := [] |}.
Proof.
  unfold ToolRefsContextFromContext, Restore. cbn zeta. look_through.
  destruct (pc_toolRefsSet c); cbn; [done|]. by look_through.
Qed.

Lemma Restore_connection :
  ConnectionFromContext ctx' = connectionFor o (pc_connection c) (cc_Connection (pc_credential c)).
Proof.
  unfold ConnectionFromContext, Restore. cbn zeta.
  etrans; [|apply (default_nonzero "" (connectionFor o (pc_connection c) (cc_Connection (pc_credential c))))].
  destruct (nonzero "" (connectionFor _ _ _)) as [conn|]; cbn [whenSome]; [done|]. by look_through.
Qed.

Lemma Restore_host : HostContextFromContext ctx' = pc_host c.
Proof.
  unfold HostContextFromContext, Restore. cbn zeta. look_through.
  etrans; [|apply (default_nonzero zero_host (pc_host c))].
  destruct (nonzero zero_host (pc_host c)); cbn; [done|]. by look_through.
Qed.

Lemma Restore_workflow : WorkflowContextFromContext ctx' = CloneWorkflowContext (pc_workflow c).
Proof.
  unfold WorkflowContextFromContext, Restore. cbn zeta. look_through.
  destruct (pc_workflow c); cbn [whenSome]; [done|]. by look_through.
Qed.

Lemma Restore_caller :
  TrimSpace (pc_callerKind c) = pc_callerKind c → TrimSpace (pc_callerName c) = pc_callerName c →
  pc_callerName c ≠ "" →
  CallerProviderFromContext ctx' = if decide (pc_callerKind c = "") then zero_caller
    else {| cp_Kind := pc_callerKind c; cp_Name := pc_callerName c |}.
Proof.
  intros Hk Hn Hne. unfold CallerProviderFromContext, Restore. cbn zeta. look_through.
  rewrite (bool_decide_eq_false_2 (pc_callerName c = "")) by done. cbn [negb andb].
  destruct (decide (pc_callerKind c = "")) as [He|He].
  - rewrite bool_decide_eq_true_2 by done. cbn [negb when]. by look_through.
  - rewrite (bool_decide_eq_false_2 (pc_callerKind c = "")) by done. cbn [negb when]. unfold WithCallerProvider. cbn zeta.
    rewrite Hk, Hn, decide_False by tauto. cbn [Value cp_Kind cp_Name]. by rewrite Hk, Hn.
Qed.

Lemma Restore_audit :
  RunAsAuditFromContext ctx'
  = match pc_agentSubject c,
      RunAsSubjectFromProto (SubjectContextFromPrincipal ToLower (pc_principal c)) with
    | Some a, Some s => {| ra_AgentSubject := TurnScope.NormalizeRunAsSubject (Some a);
                           ra_RunAsSubject := TurnScope.NormalizeRunAsSubject (Some s) |}
    | _, _ => no_audit
    end.
Proof.
  unfold RunAsAuditFromContext, Restore. cbn zeta. look_through.
  destruct (pc_agentSubject c) as [a|]; cbn [whenSome]; [|by look_through].
  destruct (RunAsSubjectFromProto _) as [s|].
  - unfold WithRunAsAudit. cbn [TurnScope.NormalizeRunAsSubject Value ra_AgentSubject ra_RunAsSubject
      TurnScope.ra_SubjectID]. by rewrite !TrimSpace_idem.
  - unfold WithRunAsAudit. cbn [TurnScope.NormalizeRunAsSubject]. by look_through.
Qed.

(** Nothing is bound under the other keys. *)
Lemma Restore_lost :
  CredentialModeOverrideFromContext ToLower ctx' = CredentialModeOverrideFromContext ToLower []
  ∧ IdempotencyKeyFromContext ctx' = "" ∧ HTTPBindingFromContext ctx' = ""
  ∧ auditEntryFromContext ctx' = None ∧ isPublicIngress ctx' = false.
Proof.
  unfold CredentialModeOverrideFromContext, IdempotencyKeyFromContext, HTTPBindingFromContext,
    auditEntryFromContext, isPublicIngress, Restore. cbn zeta.
  split_and!; by look_through.
Qed.
End restore.

(** A subject on the wire says nothing about a client or an audience. *)
Lemma PrincipalFromSubjectContext_client s q :
  PrincipalFromSubjectContext s = Some q → pr_ClientID q = "" ∧ pr_Audience q = [].
Proof.
  unfold PrincipalFromSubjectContext. destruct s as [s|]; [|done]. cbn zeta.
  match goal with |- context [canonicalize ?x] => destruct (canonicalize_fields x) as (_ & _ & Hc & Ha & _) end.
  revert Hc Ha. match goal with |- context [canonicalize ?x] => generalize (canonicalize x) as w end.
  cbn [pr_ClientID pr_Audience]. intros w Hc Ha. repeat case_decide; intros [= <-]; done.
Qed.

(** The subject the provider is told about, read back. *)
Lemma carried_principal ctx (r : RequestContext Struct) p :
  FromContext ctx = Some p → rc_Subject r = subjectOf ToLower ctx → TrimSpace (pr_SubjectID p) ≠ "" →
  ∃ q, principalFromRequestContext [] (Some r) = Some q ∧ pr_SubjectID (canonicalize q) = TrimSpace (pr_SubjectID p)
    ∧ pr_Scopes (canonicalize q) = pr_Scopes p ∧ pr_Source (canonicalize q) = SourceUnknown
    ∧ pr_ClientID (canonicalize q) = "" ∧ pr_Audience (canonicalize q) = [].
Proof.
  intros Hp Hr Hs.
  assert (canonicalize p = p) as Hcan.
  { revert Hp. unfold FromContext. destruct (default None _) as [p0|]; [|done]. intros [= <-].
    apply canonicalize_idem. }
  assert (principalFromRequestContext [] (Some r)
          = PrincipalFromSubjectContext (SubjectContextFromPrincipal ToLower (Some p))) as ->.
  { unfold principalFromRequestContext. cbn [FromContext Value default Canonicalize Canonicalized
      fmap option_fmap option_map]. rewrite Hr. unfold subjectOf. rewrite Hp. unfold SubjectContextFromPrincipal,
      subjectIDForPrincipal. cbn [Canonicalized Canonicalize fmap option_fmap option_map]. by rewrite Hcan. }
  destruct (subject_context_carries_scopes ToLower p) as (q & Hq & H1 & H2 & H3 & _); [by rewrite Hcan|].
  destruct (PrincipalFromSubjectContext_client _ _ Hq) as [H4 H5].
  exists q. destruct (canonicalize_fields q) as (F1 & F2 & F3 & F4 & _).
  split_and!; [done| |congruence..]. rewrite canonicalize_subject; rewrite H1, Hcan; done.
Qed.

Lemma RunAsAudit_normal ctx :
  TurnScope.NormalizeRunAsSubject (ra_AgentSubject (RunAsAuditFromContext ctx))
  = ra_AgentSubject (RunAsAuditFromContext ctx).
Proof.
  unfold RunAsAuditFromContext. destruct (Value _ ctx) as [a|]; [|done]. apply TurnScope.runAs_idem.
Qed.

Lemma RunAsSubject_wire s : RunAsSubjectFromProto (RunAsSubjectToProto s) = TurnScope.NormalizeRunAsSubject s.
Proof.
  destruct s as [s|]; [|done]. unfold RunAsSubjectFromProto, RunAsSubjectToProto.
  cbn [TurnScope.NormalizeRunAsSubject TurnScope.ra_SubjectID sx_Id]. by rewrite !TrimSpace_idem.
Qed.

End round_trip.
(** A call of an agent's turn under a run-as subject, from within a workflow. *)
Definition sample_context : Context :=
  ContextWithMeta (WithPrincipal (WithConnection (WithRequestMeta
      (WithWorkflowContext (WithHostContext (WithRunAsAudit []
         (Some {| TurnScope.ra_SubjectID := "agent:a1" |}) (Some {| TurnScope.ra_SubjectID := "user:u1" |}))
         {| hc_PublicBaseURL := "https://gestalt.example/" |})
         (Some [(" runId ", AString "w1")]))
      {| rm_ClientIP := "10.0.0.1"; rm_RemoteAddr := ""; rm_UserAgent := "ua" |}) " main ") (Some sample_bearer))
    {| im_RequestID := " r1 "; im_Depth := 2; im_CallChain := ["slack/default/read"; "linear/default/list"] |}.
Definition sample_app : CallerProvider := {| cp_Kind := ProviderKindApp; cp_Name := "linear" |}.


End RequestContexts.
