(* ===== verification/AppServer.v ===== *)
(** * AppServer: apps, workflows and agents calling back

    Models [gestaltd/services/appaccess/app_server.go] and [workflow_authority.go], the
    request types of [gestaltd/services/invocation/agent_authorization.go], and the error
    statuses of [gestaltd/services/invocation/metrics.go].

    A call is prepared, then handed to an invoker; preparation decides everything there is
    to authorize, so it is a definition of its own.  The invoker works on a state of its
    own.  [AsMap] reads a third-party struct; [wide] is what the platform makes of a float
    that does not fit an [int64]. *)

From stdpp Require Import base gmap strings list sorting sets.
From Stdlib Require Import ZArith Ascii Lia Floats.
From S2P Require Import Prelude Catalog TurnScope Principals Permissions InvocationContext RequestHeaders GuardedInvoker.
From S2P Require Import RequestContexts.

Set Default Goal Selector "!".

Module AppServer.
Import Catalog Principals Permissions InvocationContext RequestHeaders RequestContexts.

(** ** The workflow context *)

Record WorkflowStepInvocation := {
  ws_ID : string; ws_Index : Z; ws_ProviderName : string; ws_RunID : string; ws_DefinitionID : string;
  ws_DefinitionGeneration : Z; ws_WorkflowKey : string; ws_WorkflowKeySet : bool; ws_Kind : string;
  ws_App : string; ws_Operation : string; ws_AgentProvider : string; ws_Model : string;
  ws_Connection : string; ws_Instance : string; ws_CredentialMode : string }.

Definition get (m : workflowMap) (key : string) : any := default ANil (map_get m key).

Definition workflowMapOf (value : any) : option workflowMap := match value with AMap m => Some m | _ => None end.

(** A list of maps is read element by element, as any other list. *)
Definition workflowSteps (value : any) : option (list any) := match value with AList l => Some l | _ => None end.

Definition workflowString (value : any) : string := match value with AString s => TrimSpace s | _ => "" end.

Section numbers.
  Context (wide : spec_float → Z).

Definition int64_range (z : Z) : bool := (- 2 ^ 63 <=? z)%Z && (z <? 2 ^ 63)%Z.

(** [math.Trunc(f) != f], then [int64(f)]. *)
Definition int64_of_float (f : spec_float) : option Z :=
  match f with
  | S754_zero _ => Some 0%Z
  | S754_nan => None
  | S754_infinity _ => Some (wide f)
  | S754_finite s m e =>
      let m := if (s : bool) then Zneg m else Zpos m in
      if (0 <=? e)%Z then let z := (m * 2 ^ e)%Z in Some (if int64_range z then z else wide f)
      else if (m mod 2 ^ (- e) =? 0)%Z then let z := (m / 2 ^ (- e))%Z in Some (if int64_range z then z else wide f)
      else None
  end.

Definition workflowInt64 (value : any) : option Z :=
  match value with
  | AInt 0 z | AInt 32 z | AInt 64 z => Some z
  | AFloat 64 f => int64_of_float f
  | _ => None
  end.

Definition workflowIndex (value : any) : option Z :=
  match workflowInt64 value with Some index => if (index <? 0)%Z then None else Some index | None => None end.

Definition WorkflowStepInvocationFromContext (workflow : option workflowMap) : result code WorkflowStepInvocation :=
  let workflow := default [] workflow in
  let providerName := workflowString (get workflow "providerName") in
  let runID := workflowString (get workflow "runId") in
  let definitionID := workflowString (get workflow "definitionId") in
  let definitionGeneration := workflowInt64 (get workflow "definitionGeneration") in
  fail_if bool_decide (providerName = "") || bool_decide (runID = "") || bool_decide (definitionID = "")
          || (default 0 definitionGeneration <=? 0)%Z with FailedPrecondition ;;
  fail_if bool_decide (map_get workflow "workflowKey" = None) with FailedPrecondition ;;
  match workflowMapOf (get workflow "currentStep") with
  | None => Err FailedPrecondition
  | Some currentStep =>
      let stepID := workflowString (get currentStep "id") in
      match workflowIndex (get currentStep "index") with
      | None => Err FailedPrecondition
      | Some stepIndex =>
          fail_if bool_decide (stepID = "") with FailedPrecondition ;;
          match workflowMapOf (get workflow "target") with
          | None => Err FailedPrecondition
          | Some target =>
              match (workflowSteps (get target "steps") ≫= λ steps, (steps !! Z.to_nat stepIndex) ≫= workflowMapOf) with
              | None => Err FailedPrecondition
              | Some step =>
                  fail_if negb (bool_decide (workflowString (get step "id") = stepID)) with FailedPrecondition ;;
                  Ok {| ws_ID := stepID; ws_Index := stepIndex; ws_ProviderName := providerName; ws_RunID := runID;
                        ws_DefinitionID := definitionID;
                        ws_DefinitionGeneration := default 0%Z definitionGeneration;
                        ws_WorkflowKey := workflowString (get workflow "workflowKey"); ws_WorkflowKeySet := true;
                        ws_Kind := workflowString (get step "kind"); ws_App := workflowString (get step "app");
                        ws_Operation := workflowString (get step "operation");
                        ws_AgentProvider := workflowString (get step "agentProvider");
                        ws_Model := workflowString (get step "model");
                        ws_Connection := workflowString (get step "connection");
                        ws_Instance := workflowString (get step "instance");
                        ws_CredentialMode := workflowString (get step "credentialMode") |}
              end
          end
      end
  end.
End numbers.

(** ** Requests *)

Record AgentAppAuthorizationRequest (Struct : Type) := {
  aq_AgentProviderName : string; aq_CallerKind : ProviderKind; aq_CallerName : string;
  aq_Agent : AgentInvocationContext; aq_Principal : option Principal; aq_App : string; aq_Operation : string;
  aq_Connection : string; aq_Instance : string; aq_CredentialMode : string;
  aq_RequestContext : RequestContext Struct }.

Record AgentAppAuthorization := {
  aa_Principal : option Principal; aa_CredentialMode : string; aa_Connection : string; aa_Instance : string;
  aa_RunAs : option TurnScope.RunAsSubject; aa_ToolRefs : list TurnScope.ToolRef; aa_ToolRefsSet : bool }.

Record AppInvokeRequest (Struct P : Type) := {
  rq_App : string; rq_Operation : string; rq_Context : option (RequestContext Struct); rq_Connection : string;
  rq_Instance : string; rq_CredentialMode : string; rq_RunAs : option SubjectContext; rq_IdempotencyKey : string;
  rq_Params : P; rq_Headers : list (string * string) }.
#[global] Arguments rq_App {Struct P}. #[global] Arguments rq_Operation {Struct P}.
#[global] Arguments rq_Context {Struct P}. #[global] Arguments rq_Connection {Struct P}.
#[global] Arguments rq_Instance {Struct P}. #[global] Arguments rq_CredentialMode {Struct P}.
#[global] Arguments rq_RunAs {Struct P}. #[global] Arguments rq_IdempotencyKey {Struct P}.
#[global] Arguments rq_Params {Struct P}. #[global] Arguments rq_Headers {Struct P}.

Record AppInvokeGraphQLRequest (Struct V : Type) := {
  gq_App : string; gq_Document : string; gq_Context : option (RequestContext Struct); gq_Connection : string;
  gq_Instance : string; gq_IdempotencyKey : string; gq_Variables : V; gq_Headers : list (string * string) }.
#[global] Arguments gq_App {Struct V}. #[global] Arguments gq_Document {Struct V}.
#[global] Arguments gq_Context {Struct V}. #[global] Arguments gq_Connection {Struct V}.
#[global] Arguments gq_Instance {Struct V}. #[global] Arguments gq_IdempotencyKey {Struct V}.
#[global] Arguments gq_Variables {Struct V}. #[global] Arguments gq_Headers {Struct V}.

Record requestInvocationContext (Struct : Type) := {
  ri_callerName : string; ri_callerProviderKind : ProviderKind; ri_principal : option Principal;
  ri_credential : CredentialContext; ri_credentialModeOverride : string;
  ri_delegationRunAs : option TurnScope.RunAsSubject; ri_workflow : option workflowMap;
  ri_agent : AgentInvocationContext; ri_agentToolRefs : list TurnScope.ToolRef; ri_agentToolRefsSet : bool;
  ri_authorizedConnection : string; ri_authorizedInstance : string; ri_authorizedSelectors : bool;
  ri_requestContext : RequestContext Struct }.
#[global] Arguments Build_requestInvocationContext {Struct}.
#[global] Arguments ri_callerName {Struct}. #[global] Arguments ri_callerProviderKind {Struct}.
#[global] Arguments ri_principal {Struct}. #[global] Arguments ri_credential {Struct}.
#[global] Arguments ri_credentialModeOverride {Struct}. #[global] Arguments ri_delegationRunAs {Struct}.
#[global] Arguments ri_workflow {Struct}. #[global] Arguments ri_agent {Struct}.
#[global] Arguments ri_agentToolRefs {Struct}. #[global] Arguments ri_agentToolRefsSet {Struct}.
#[global] Arguments ri_authorizedConnection {Struct}. #[global] Arguments ri_authorizedInstance {Struct}.
#[global] Arguments ri_authorizedSelectors {Struct}. #[global] Arguments ri_requestContext {Struct}.

(** The fields that authorization fills in. *)
Definition with_authorization {Struct} (c : requestInvocationContext Struct) (p : option Principal) (mode : string)
    (runAs : option TurnScope.RunAsSubject) (refs : list TurnScope.ToolRef) (refsSet : bool)
    (connection instance : string) (selectors : bool) : requestInvocationContext Struct :=
  {| ri_callerName := ri_callerName c; ri_callerProviderKind := ri_callerProviderKind c; ri_principal := p;
     ri_credential := ri_credential c; ri_credentialModeOverride := mode; ri_delegationRunAs := runAs;
     ri_workflow := ri_workflow c; ri_agent := ri_agent c; ri_agentToolRefs := refs; ri_agentToolRefsSet := refsSet;
     ri_authorizedConnection := connection; ri_authorizedInstance := instance; ri_authorizedSelectors := selectors;
     ri_requestContext := ri_requestContext c |}.

(** A call as it is handed to the invoker. *)
Record Call := { cl_ctx : Context; cl_principal : option Principal; cl_app : string; cl_instance : string;
                 cl_operation : string }.

Section server.
  Context {Struct P V : Type}.
  Context (ToLower : string → string) (AsMap : Struct → workflowMap) (wide : spec_float → Z).

(** [callerName] and the authorizer of the server; the invoker is passed where used. *)
Record Server := {
  sv_callerName : string;
  sv_agentAppAuth : option (Context → AgentAppAuthorizationRequest Struct → result code AgentAppAuthorization) }.

Implicit Types (s : Server) (ctx : Context) (r : RequestContext Struct).

Definition appInvokeCredentialMode (raw : string) : result code string :=
  let mode := TurnScope.NormalizeOptionalConnectionMode ToLower raw in
  if contains [""; TurnScope.ConnectionModeNone; TurnScope.ConnectionModeSubject] mode then Ok mode
  else Err InvalidArgument.

Definition requestContext s ctx (reqCtx : option (RequestContext Struct))
    : result code (requestInvocationContext Struct) :=
  match reqCtx with
  | None => Err FailedPrecondition
  | Some r =>
      let caller := default zero_caller (rc_Caller r) in
      let callerKind := TrimSpace (cp_Kind caller) in
      let callerName := TrimSpace (cp_Name caller) in
      fail_if bool_decide (callerName = "") with FailedPrecondition ;;
      fail_if negb (contains [ProviderKindApp; ProviderKindWorkflow; ProviderKindAgent] callerKind)
        with FailedPrecondition ;;
      let agent := agentFromRequestContext r in
      let expected := TrimSpace (sv_callerName s) in
      fail_if negb (bool_decide (expected = ""))
              && negb (bool_decide ((if decide (agent = no_agent) then callerName
                                     else TrimSpace (ai_ProviderName agent)) = expected)) with PermissionDenied ;;
      let verified := CallerProviderFromContext ctx in
      fail_if negb (bool_decide (cp_Name verified = "")) && negb (bool_decide (cp_Name verified = callerName))
        with PermissionDenied ;;
      Ok {| ri_callerName := callerName; ri_callerProviderKind := callerKind;
            ri_principal := principalFromRequestContext ctx reqCtx;
            ri_credential := credentialFromRequestContext r; ri_credentialModeOverride := "";
            ri_delegationRunAs := None; ri_workflow := workflowFromRequestContext AsMap r; ri_agent := agent;
            ri_agentToolRefs := []; ri_agentToolRefsSet := false; ri_authorizedConnection := "";
            ri_authorizedInstance := ""; ri_authorizedSelectors := false; ri_requestContext := r |}
  end.

Definition rejectRequestRunAsForSpecialCallers (c : requestInvocationContext Struct)
    (requestRunAs : option SubjectContext) : result code unit :=
  match requestRunAs with
  | None => Ok tt
  | Some runAs =>
      if decide (TrimSpace (sx_Id runAs) = "") then Ok tt
      else if contains [ProviderKindWorkflow; ProviderKindAgent] (ri_callerProviderKind c) then Err PermissionDenied
      else if decide (ri_agent c = no_agent) then Ok tt else Err PermissionDenied
  end.

Definition authorizeWorkflowAppInvocation (c : requestInvocationContext Struct)
    (targetApp targetOperation rawConnection rawInstance credentialMode : string) : result code unit :=
  let! step := WorkflowStepInvocationFromContext wide (ri_workflow c) in
  fail_if negb (bool_decide (ws_ProviderName step = ri_callerName c)) with PermissionDenied ;;
  fail_if negb (bool_decide (ws_Kind step = "app")) || negb (bool_decide (ws_App step = targetApp))
          || negb (bool_decide (ws_Operation step = targetOperation)) with PermissionDenied ;;
  fail_if negb (bool_decide (TrimSpace rawConnection = ws_Connection step)) with PermissionDenied ;;
  fail_if negb (bool_decide (TrimSpace rawInstance = ws_Instance step)) with PermissionDenied ;;
  let! stepCredentialMode := appInvokeCredentialMode (ws_CredentialMode step) in
  fail_if negb (bool_decide (stepCredentialMode = credentialMode)) with PermissionDenied ;;
  Ok tt.

Definition agentProviderNameOf s (c : requestInvocationContext Struct) : string :=
  let first := TrimSpace (ai_ProviderName (ri_agent c)) in
  let second := if decide (first = "") then TrimSpace (ri_callerName c) else first in
  if decide (second = "") then TrimSpace (sv_callerName s) else second.

Definition agentRequest s (c : requestInvocationContext Struct)
    (targetApp targetOperation rawConnection rawInstance credentialMode : string)
    : AgentAppAuthorizationRequest Struct :=
  {| aq_AgentProviderName := agentProviderNameOf s c; aq_CallerKind := ri_callerProviderKind c;
     aq_CallerName := ri_callerName c; aq_Agent := ri_agent c; aq_Principal := ri_principal c;
     aq_App := targetApp; aq_Operation := targetOperation; aq_Connection := TrimSpace rawConnection;
     aq_Instance := TrimSpace rawInstance; aq_CredentialMode := credentialMode;
     aq_RequestContext := ri_requestContext c |}.

Definition authorizeAgentAppInvocation s ctx (c : requestInvocationContext Struct)
    (targetApp targetOperation rawConnection rawInstance credentialMode : string)
    : result code AgentAppAuthorization :=
  match sv_agentAppAuth s with
  | None => Err FailedPrecondition
  | Some authorize => authorize ctx (agentRequest s c targetApp targetOperation rawConnection rawInstance credentialMode)
  end.

(** An empty mode keeps what is there. *)
Definition override_mode (mode current : string) : string := if decide (mode = "") then current else mode.

Definition requestContextForInvoke s ctx (reqCtx : option (RequestContext Struct))
    (targetApp targetOperation rawConnection rawInstance rawCredentialMode : string)
    (requestRunAs : option SubjectContext) : result code (requestInvocationContext Struct) :=
  let! c := requestContext s ctx reqCtx in
  let! credentialMode := appInvokeCredentialMode rawCredentialMode in
  let! _ := rejectRequestRunAsForSpecialCallers c requestRunAs in
  if negb (bool_decide (ri_agent c = no_agent)) then
    let! authorized := authorizeAgentAppInvocation s ctx c targetApp targetOperation rawConnection rawInstance
                         credentialMode in
    Ok (with_authorization c
          (match aa_Principal authorized with Some p => Some p | None => ri_principal c end)
          (override_mode (aa_CredentialMode authorized) (ri_credentialModeOverride c))
          (match TurnScope.NormalizeRunAsSubject (aa_RunAs authorized) with
           | Some runAs => Some runAs | None => ri_delegationRunAs c end)
          (if aa_ToolRefsSet authorized then aa_ToolRefs authorized else ri_agentToolRefs c)
          (aa_ToolRefsSet authorized || ri_agentToolRefsSet c)
          (TrimSpace (aa_Connection authorized)) (TrimSpace (aa_Instance authorized)) true)
  else if decide (ri_callerProviderKind c = ProviderKindWorkflow) then
    let! _ := authorizeWorkflowAppInvocation c targetApp targetOperation rawConnection rawInstance credentialMode in
    Ok (with_authorization c (ri_principal c) (override_mode credentialMode (ri_credentialModeOverride c))
          (ri_delegationRunAs c) (ri_agentToolRefs c) (ri_agentToolRefsSet c) (ri_authorizedConnection c)
          (ri_authorizedInstance c) (ri_authorizedSelectors c))
  else
    fail_if bool_decide (ri_callerProviderKind c = ProviderKindAgent) with FailedPrecondition ;;
    Ok (with_authorization c (ri_principal c) (override_mode credentialMode (ri_credentialModeOverride c))
          (match RunAsSubjectFromProto requestRunAs with
           | Some runAs => if decide (TrimSpace (TurnScope.ra_SubjectID runAs) = "") then ri_delegationRunAs c else Some runAs
           | None => ri_delegationRunAs c
           end) (ri_agentToolRefs c) (ri_agentToolRefsSet c) (ri_authorizedConnection c)
          (ri_authorizedInstance c) (ri_authorizedSelectors c)).

Definition requestContextForSurfaceInvoke s ctx (reqCtx : option (RequestContext Struct))
    : result code (requestInvocationContext Struct) :=
  let! c := requestContext s ctx reqCtx in
  fail_if negb (bool_decide (ri_agent c = no_agent)) || bool_decide (ri_callerProviderKind c = ProviderKindAgent)
    with PermissionDenied ;;
  fail_if bool_decide (ri_callerProviderKind c = ProviderKindWorkflow) with PermissionDenied ;;
  Ok c.

(** ** Restoring the context *)

Definition applyInheritedRequestContext ctx r : Context :=
  let ctx := whenSome (rc_AgentSubject r)
               (λ subj x, WithRunAsAudit x (RunAsSubjectFromProto (Some subj)) (RunAsSubjectFromProto (rc_Subject r))) ctx in
  let ctx := whenSome (rc_Host r) (λ h x, WithHostContext x h) ctx in
  when (rc_ToolRefsSet r) (λ x, WithToolRefsContext x (ToolRefsFromProto (rc_ToolRefs r))) ctx.

Definition connectionOf (c : requestInvocationContext Struct) (connectionOverride : string) : string :=
  if ri_authorizedSelectors c then TrimSpace connectionOverride
  else connectionFor connectionOverride
         (match rc_Invocation (ri_requestContext c) with Some inv => iv_Connection inv | None => "" end)
         (cc_Connection (ri_credential c)).

Definition restoreRequestInvocationContext ctx (c : requestInvocationContext Struct) (connectionOverride : string)
    : Context :=
  let r := ri_requestContext c in
  let ctx := WithEntry ctx EntryGRPC in
  let ctx := whenSome (ri_principal c) (λ p x, WithPrincipal x (Canonicalized (Some p))) ctx in
  let ctx := when (negb (bool_decide (ri_callerName c = "")) && negb (bool_decide (ri_callerProviderKind c = "")))
               (λ x, WithCallerProvider x (ri_callerProviderKind c) (ri_callerName c)) ctx in
  let ctx := whenSome (invocationMetaFromRequestContext r) (λ meta x, ContextWithMeta x meta) ctx in
  let ctx := whenSome (nonzero zero_request_meta (requestMetaFromRequestContext r)) (λ m x, WithRequestMeta x m) ctx in
  let ctx := whenSome (nonzero zero_credential (ri_credential c)) (λ cred x, WithCredentialContext x cred) ctx in
  let ctx := whenSome (nonzero "" (ri_credentialModeOverride c)) (λ m x, WithCredentialModeOverride ToLower x m) ctx in
  let ctx := whenSome (rc_Invocation r ≫= λ inv, nonzero "" (TrimSpace (iv_Surface inv)))
               (λ surface x, WithInvocationSurface x surface) ctx in
  let ctx := when (match rc_Invocation r with Some inv => iv_InternalConnectionAccess inv | None => false end
                   && negb (ri_authorizedSelectors c)) WithInternalConnectionAccess ctx in
  let ctx := whenSome (ri_workflow c) (λ w x, WithWorkflowContext x (CloneWorkflowContext (Some w))) ctx in
  let ctx := whenSome (nonzero no_agent (ri_agent c)) (λ a x, WithAgentInvocationContext x a) ctx in
  let ctx := applyInheritedRequestContext ctx r in
  let ctx := when (ri_agentToolRefsSet c) (λ x, WithToolRefsContext x (ri_agentToolRefs c)) ctx in
  whenSome (nonzero "" (connectionOf c connectionOverride)) (λ conn x, WithConnection x conn) ctx.

Definition prepareInvocationSelectors ctx (c : requestInvocationContext Struct) (rawConnection rawInstance : string)
    : Context * string :=
  if ri_authorizedSelectors c then
    (restoreRequestInvocationContext ctx c (ri_authorizedConnection c), ri_authorizedInstance c)
  else
    let connection := TrimSpace rawConnection in
    let instance := TrimSpace rawInstance in
    let instance := if decide (instance = "" ∧ connection = "") then cc_Instance (ri_credential c) else instance in
    (restoreRequestInvocationContext ctx c connection, instance).

(** ** Preparing a call *)

Definition prepare s ctx (req : option (AppInvokeRequest Struct P)) : result code Call :=
  match req with
  | None => Err InvalidArgument
  | Some req =>
      let targetApp := TrimSpace (rq_App req) in
      let targetOperation := TrimSpace (rq_Operation req) in
      fail_if bool_decide (targetApp = "") with InvalidArgument ;;
      fail_if bool_decide (targetOperation = "") with InvalidArgument ;;
      let! c := requestContextForInvoke s ctx (rq_Context req) targetApp targetOperation (rq_Connection req)
                  (rq_Instance req) (rq_CredentialMode req) (rq_RunAs req) in
      let '(invokeCtx, instance) := prepareInvocationSelectors ctx c (rq_Connection req) (rq_Instance req) in
      let invokeCtx := WithIdempotencyKey invokeCtx (rq_IdempotencyKey req) in
      let '(invokeCtx, p) := ApplyDelegation invokeCtx (ri_principal c) (ri_delegationRunAs c) in
      let invokeCtx := WithInvokeRequestHeaders invokeCtx (rq_Headers req) in
      Ok {| cl_ctx := invokeCtx; cl_principal := p; cl_app := targetApp; cl_instance := instance;
            cl_operation := targetOperation |}
  end.

Definition prepareGraphQL s ctx (req : option (AppInvokeGraphQLRequest Struct V)) : result code Call :=
  match req with
  | None => Err InvalidArgument
  | Some req =>
      let targetApp := TrimSpace (gq_App req) in
      fail_if bool_decide (targetApp = "") with InvalidArgument ;;
      fail_if bool_decide (TrimSpace (gq_Document req) = "") with InvalidArgument ;;
      let! c := requestContextForSurfaceInvoke s ctx (gq_Context req) in
      let '(invokeCtx, instance) := prepareInvocationSelectors ctx c (gq_Connection req) (gq_Instance req) in
      let invokeCtx := WithIdempotencyKey invokeCtx (gq_IdempotencyKey req) in
      let invokeCtx := WithInvokeRequestHeaders invokeCtx (gq_Headers req) in
      Ok {| cl_ctx := invokeCtx; cl_principal := ri_principal c; cl_app := targetApp; cl_instance := instance;
            cl_operation := "graphql" |}
  end.
End server.

(** ** Results and errors *)

Section errors.
  Context {E : Type}.
  (** The status a collaborator's error carries, and the HTTP status it stands for. *)
  Context (statusOf : E → option code) (httpStatusOf : E → option Z).

Definition invocationStatusError (err : Error E) : code :=
  match rootCause err with
  | Wraps ErrNotAuthenticated => Unauthenticated
  | Wraps ErrAuthorizationDenied | Wraps ErrScopeDenied => PermissionDenied
  | Wraps ErrAuthorizationUnavailable => Unavailable
  | Wraps ErrProviderNotFound | Wraps ErrOperationNotFound => NotFound
  | Wraps ErrInvalidInvocation => InvalidArgument
  | Wraps ErrStreamingUnsupported => FailedPrecondition
  | Wraps ErrNoCredential | Wraps ErrReconnectRequired => FailedPrecondition
  | Wraps ErrAmbiguousInstance => Aborted
  | MaxDepthError _ _ => ResourceExhausted
  | RateLimitError _ => ResourceExhausted
  | RecursionError _ _ => FailedPrecondition
  | Foreign e => default Unknown (statusOf e)
  | _ => Unknown
  end.

Definition validHTTPStatus (status : Z) : bool := (100 <=? status)%Z && (status <=? 599)%Z.

Definition OperationErrorHTTPStatus (err : option (Error E)) : Z :=
  match rootCause <$> err with
  | None => 0
  | Some (Wraps ErrProviderNotFound) | Some (Wraps ErrOperationNotFound) => 404
  | Some (Wraps ErrNotAuthenticated) => 401
  | Some (Wraps ErrAuthorizationDenied) | Some (Wraps ErrScopeDenied) => 403
  | Some (Wraps ErrNoCredential) | Some (Wraps ErrReconnectRequired) => 412
  | Some (Wraps ErrAmbiguousInstance) => 409
  | Some (Wraps ErrUserResolution) | Some (Wraps ErrInternal) => 500
  | Some (Wraps ErrInvalidInvocation) => 400
  | Some (Foreign e) => default 502 (httpStatusOf e)
  | Some _ => 502
  end%Z.

Definition OperationErrorResultStatus (err : Error E) : option Z :=
  match rootCause err with
  | Wraps ErrNoCredential | Wraps ErrReconnectRequired => Some (OperationErrorHTTPStatus (Some err))
  | _ => None
  end.

(** A result as it goes out: the answer of the provider, or a status with an error text. *)
Inductive Outcome (R : Type) := Answer (r : R) | ErrorResult (status : Z) (err : Error E).
#[global] Arguments Answer {R} r.
#[global] Arguments ErrorResult {R} status err.

Definition appOperationResult {R} (res : result (Error E) (option R)) : result code (Outcome R) :=
  match res with
  | Err err => match OperationErrorResultStatus err with
               | Some statusCode => Ok (ErrorResult (int32 statusCode) err)
               | None => Err (invocationStatusError err)
               end
  | Ok None => Err Internal
  | Ok (Some r) => Ok (Answer r)
  end.

Section methods.
  Context {Struct P V W R : Type}.
  Context (ToLower : string → string) (AsMap : Struct → workflowMap) (wide : spec_float → Z).

Definition Invoke (s : Server (Struct := Struct))
    (invoker : Context → option Principal → string → string → string → P → W → result (Error E) (option R) * W)
    ctx (req : option (AppInvokeRequest Struct P)) (w : W) : result code (Outcome R) * W :=
  match prepare ToLower AsMap wide s ctx req, req with
  | Ok call, Some req =>
      let '(res, w) := invoker (cl_ctx call) (cl_principal call) (cl_app call) (cl_instance call) (cl_operation call)
                         (rq_Params req) w in
      (appOperationResult res, w)
  | Err e, _ => (Err e, w)
  | Ok _, None => (Err InvalidArgument, w)
  end.

(** The reader of an open stream stands for its frames. *)
Definition InvokeStream (s : Server (Struct := Struct))
    (invoker : option (Context → option Principal → string → string → string → P → W → result (Error E) R * W))
    ctx (req : option (AppInvokeRequest Struct P)) (w : W) : result code R * W :=
  match prepare ToLower AsMap wide s ctx req, req with
  | Ok call, Some req =>
      match invoker with
      | None => (Err Unimplemented, w)
      | Some invoke =>
          let '(res, w) := invoke (cl_ctx call) (cl_principal call) (cl_app call) (cl_instance call)
                             (cl_operation call) (rq_Params req) w in
          (match res with Ok reader => Ok reader | Err err => Err (invocationStatusError err) end, w)
      end
  | Err e, _ => (Err e, w)
  | Ok _, None => (Err InvalidArgument, w)
  end.

(** [unary] wraps a unary result into an outcome. *)
Definition InvokeMaybeStream {O} (unary : option R → O) (s : Server (Struct := Struct))
    (invoker : Context → option Principal → string → string → string → P → W → result (Error E) (option R) * W)
    (maybe : option (Context → option Principal → string → string → string → P → W → result (Error E) O * W))
    ctx (req : option (AppInvokeRequest Struct P)) (w : W) : result code O * W :=
  match prepare ToLower AsMap wide s ctx req, req with
  | Ok call, Some req =>
      match maybe with
      | None =>
          let '(res, w) := invoker (cl_ctx call) (cl_principal call) (cl_app call) (cl_instance call)
                             (cl_operation call) (rq_Params req) w in
          (match res with Ok r => Ok (unary r) | Err err => Err (invocationStatusError err) end, w)
      | Some invoke =>
          let '(res, w) := invoke (cl_ctx call) (cl_principal call) (cl_app call) (cl_instance call)
                             (cl_operation call) (rq_Params req) w in
          (match res with Ok o => Ok o | Err err => Err (invocationStatusError err) end, w)
      end
  | Err e, _ => (Err e, w)
  | Ok _, None => (Err InvalidArgument, w)
  end.

Definition InvokeGraphQL (s : Server (Struct := Struct))
    (invoker : option (Context → option Principal → string → string → string → V → W → result (Error E) (option R) * W))
    ctx (req : option (AppInvokeGraphQLRequest Struct V)) (w : W) : result code (Outcome R) * W :=
  match prepareGraphQL ToLower AsMap s ctx req, req with
  | Ok call, Some req =>
      match invoker with
      | None => (Err Unimplemented, w)
      | Some invoke =>
          let '(res, w) := invoke (cl_ctx call) (cl_principal call) (cl_app call) (cl_instance call)
                             (TrimSpace (gq_Document req)) (gq_Variables req) w in
          (appOperationResult res, w)
      end
  | Err e, _ => (Err e, w)
  | Ok _, None => (Err InvalidArgument, w)
  end.
End methods.
End errors.

(** ** Who may call what *)

Section authorization.
  Context {Struct P : Type}.
  Context (ToLower : string → string) (AsMap : Struct → workflowMap) (wide : spec_float → Z).
  Implicit Types (s : Server (Struct := Struct)) (ctx : Context) (req : AppInvokeRequest Struct P).
  Abbreviation prepare := (prepare ToLower AsMap wide).

Lemma requestContext_ok s ctx r c :
  requestContext AsMap s ctx (Some r) = Ok c →
  ri_callerName c ≠ "" ∧ ri_callerProviderKind c ∈ [ProviderKindApp; ProviderKindWorkflow; ProviderKindAgent]
  ∧ (cp_Name (CallerProviderFromContext ctx) ≠ "" → ri_callerName c = cp_Name (CallerProviderFromContext ctx))
  ∧ ri_requestContext c = r ∧ ri_authorizedSelectors c = false ∧ ri_delegationRunAs c = None
  ∧ (sv_callerName s ≠ "" → TrimSpace (sv_callerName s) = sv_callerName s →
     (if decide (ri_agent c = no_agent) then ri_callerName c else TrimSpace (ai_ProviderName (ri_agent c)))
     = sv_callerName s).
Proof.
  unfold requestContext. cbn zeta. rewrite !fail_if_ok. intros (Hname & Hkind & Hexp & Hver & [= <-]).
  cbn [ri_callerName ri_callerProviderKind ri_requestContext ri_authorizedSelectors ri_delegationRunAs ri_agent].
  apply bool_decide_eq_false in Hname. apply negb_false_iff in Hkind.
  split_and!; [done| | |done..|].
  - unfold contains in Hkind. by apply bool_decide_eq_true in Hkind.
  - intros Hv. rewrite bool_decide_false in Hver by done. cbn in Hver. apply negb_false_iff, bool_decide_eq_true in Hver.
    done.
  - intros Hs Ht. rewrite Ht in Hexp. rewrite bool_decide_false in Hexp by done.
    cbn in Hexp. by apply negb_false_iff, bool_decide_eq_true in Hexp.
Qed.

(** What a request says about its caller, before anything is authorized. *)
Record reads_request ctx (r : RequestContext Struct) (c : requestInvocationContext Struct) : Prop := {
  rr_name : ri_callerName c = TrimSpace (cp_Name (default zero_caller (rc_Caller r)));
  rr_kind : ri_callerProviderKind c = TrimSpace (cp_Kind (default zero_caller (rc_Caller r)));
  rr_principal : ri_principal c = principalFromRequestContext ctx (Some r);
  rr_credential : ri_credential c = credentialFromRequestContext r;
  rr_workflow : ri_workflow c = workflowFromRequestContext AsMap r;
  rr_agent : ri_agent c = agentFromRequestContext r }.

Lemma requestContext_reads s ctx r c :
  requestContext AsMap s ctx (Some r) = Ok c →
  reads_request ctx r c ∧ ri_credentialModeOverride c = "" ∧ ri_agentToolRefsSet c = false.
Proof. unfold requestContext. cbn zeta. rewrite !fail_if_ok. by intros (_ & _ & _ & _ & [= <-]). Qed.

Lemma reject_ok (c : requestInvocationContext Struct) runAs :
  rejectRequestRunAsForSpecialCallers c (Some runAs) = Ok tt → TrimSpace (sx_Id runAs) ≠ "" →
  ri_callerProviderKind c ≠ ProviderKindWorkflow ∧ ri_callerProviderKind c ≠ ProviderKindAgent ∧ ri_agent c = no_agent.
Proof.
  intros H Hne. unfold rejectRequestRunAsForSpecialCallers in H. rewrite decide_False in H by done.
  unfold contains in H. destruct (bool_decide _) eqn:Hb in H; [done|]. apply bool_decide_eq_false in Hb.
  case_decide as Ha; [|done]. split_and!; [| |done]; intros Hk; apply Hb; rewrite Hk; [left|right; left].
Qed.

(** Who an app asks to run as: a subject with a name. *)
Definition requested_run_as (runAs : option SubjectContext) : option TurnScope.RunAsSubject :=
  match runAs with
  | None => None
  | Some x => if decide (TrimSpace (sx_Id x) = "") then None
              else Some {| TurnScope.ra_SubjectID := TrimSpace (sx_Id x) |}
  end.

(** What authorization settles for a call: the caller, run-as subject, credential mode and
    tool references (if any are set) it goes out with. *)
Record settled (c : requestInvocationContext Struct) (p : option Principal) (runAs : option TurnScope.RunAsSubject)
    (mode : string) (refs : option (list TurnScope.ToolRef)) : Prop := {
  se_principal : ri_principal c = p;
  se_run_as : ri_delegationRunAs c = runAs;
  se_mode : ri_credentialModeOverride c = mode;
  se_refs : (if ri_agentToolRefsSet c then Some (ri_agentToolRefs c) else None) = refs }.

(** The three ways a request is let through. *)
Inductive admitted s ctx (c0 : requestInvocationContext Struct) (app op conn inst mode : string)
    (asked : option TurnScope.RunAsSubject) (c : requestInvocationContext Struct) : Prop :=
  | admitted_agent authorize a :
      ri_agent c0 ≠ no_agent → sv_agentAppAuth s = Some authorize →
      authorize ctx (agentRequest s c0 app op conn inst mode) = Ok a →
      ri_authorizedSelectors c = true → ri_authorizedConnection c = TrimSpace (aa_Connection a) →
      ri_authorizedInstance c = TrimSpace (aa_Instance a) →
      settled c (match aa_Principal a with Some p => Some p | None => ri_principal c0 end)
        (TurnScope.NormalizeRunAsSubject (aa_RunAs a)) (aa_CredentialMode a)
        (if aa_ToolRefsSet a then Some (aa_ToolRefs a) else None) →
      admitted s ctx c0 app op conn inst mode asked c
  | admitted_workflow step :
      ri_agent c0 = no_agent → ri_callerProviderKind c0 = ProviderKindWorkflow →
      WorkflowStepInvocationFromContext wide (ri_workflow c0) = Ok step →
      ws_ProviderName step = ri_callerName c0 → ws_Kind step = "app" → ws_App step = app →
      ws_Operation step = op → ws_Connection step = TrimSpace conn → ws_Instance step = TrimSpace inst →
      appInvokeCredentialMode ToLower (ws_CredentialMode step) = Ok mode → ri_authorizedSelectors c = false →
      settled c (ri_principal c0) None mode None → admitted s ctx c0 app op conn inst mode asked c
  | admitted_app :
      ri_agent c0 = no_agent → ri_callerProviderKind c0 = ProviderKindApp → ri_authorizedSelectors c = false →
      settled c (ri_principal c0) asked mode None →
      admitted s ctx c0 app op conn inst mode asked c.

Lemma override_none mode : override_mode mode "" = mode.
Proof. unfold override_mode. by case_decide. Qed.

Lemma run_as_requested (runAs : option SubjectContext) :
  match RunAsSubjectFromProto runAs with
  | Some runAs => if decide (TrimSpace (TurnScope.ra_SubjectID runAs) = "") then None else Some runAs
  | None => None
  end = requested_run_as runAs.
Proof.
  destruct runAs as [x|]; [|done]. unfold RunAsSubjectFromProto, requested_run_as.
  cbn [TurnScope.NormalizeRunAsSubject TurnScope.ra_SubjectID]. by rewrite TrimSpace_idem.
Qed.

Lemma requestContextForInvoke_ok s ctx reqCtx app op conn inst rawMode runAs c :
  requestContextForInvoke ToLower AsMap wide s ctx reqCtx app op conn inst rawMode runAs = Ok c →
  ∃ r c0 mode, reqCtx = Some r ∧ requestContext AsMap s ctx (Some r) = Ok c0
    ∧ appInvokeCredentialMode ToLower rawMode = Ok mode
    ∧ rejectRequestRunAsForSpecialCallers c0 runAs = Ok tt
    ∧ ri_requestContext c = r ∧ ri_callerName c = ri_callerName c0
    ∧ ri_callerProviderKind c = ri_callerProviderKind c0 ∧ ri_credential c = ri_credential c0
    ∧ admitted s ctx c0 app op conn inst mode (requested_run_as runAs) c.
Proof.
  unfold requestContextForInvoke. rewrite rbind_ok. intros (c0 & Hc0 & H). rewrite rbind_ok in H.
  destruct H as (mode & Hmode & H). rewrite rbind_ok in H. destruct H as ([] & Hrej & H).
  destruct reqCtx as [r|]; [|done]. exists r, c0, mode.
  pose proof (requestContext_ok s ctx r c0 Hc0) as (_ & Hkind & _ & Hreq & Hsel & Hrun & _).
  pose proof (requestContext_reads s ctx r c0 Hc0) as (_ & Hmd & Hset).
  rewrite Hmd, Hset, ?override_none, Hrun in H. do 4 (split; [done|]).
  destruct (decide (ri_agent c0 = no_agent)) as [Ha|Ha].
  - rewrite bool_decide_true in H by done. cbn [negb] in H.
    destruct (decide (ri_callerProviderKind c0 = ProviderKindWorkflow)) as [Hw|Hw].
    + rewrite rbind_ok in H. destruct H as (u & Hauth & [= <-]). do 4 (split; [done|]).
      unfold authorizeWorkflowAppInvocation in Hauth.
      rewrite rbind_ok in Hauth. destruct Hauth as (step & Hstep & Hauth). rewrite !fail_if_ok, rbind_ok in Hauth.
      destruct Hauth as (Hn & Hk & Hcn & Hin & m & Hm & Hlast). rewrite fail_if_ok in Hlast. destruct Hlast as [Hmm _].
      rewrite !orb_false_iff in Hk. destruct Hk as [[Hk1 Hk2] Hk3].
      apply negb_false_iff, bool_decide_eq_true in Hn, Hk1, Hk2, Hk3, Hcn, Hin, Hmm. subst m.
      eapply admitted_workflow; eauto. by split.
    + rewrite fail_if_ok in H. destruct H as [Hag [= <-]]. apply bool_decide_eq_false in Hag.
      do 4 (split; [done|]). apply admitted_app; [done| |done|].
      * rewrite !elem_of_cons, elem_of_nil in Hkind. tauto.
      * split; [done| |done|done]. apply run_as_requested.
  - rewrite bool_decide_false in H by done. cbn [negb] in H. rewrite rbind_ok in H.
    destruct H as (a & Hauth & [= <-]). do 4 (split; [done|]). unfold authorizeAgentAppInvocation in Hauth.
    destruct (sv_agentAppAuth s) as [authorize|] eqn:Hs; [|done]. eapply admitted_agent; try done.
    split; [done| | |]; cbn.
    + by destruct (TurnScope.NormalizeRunAsSubject _).
    + by rewrite override_none.
    + by destruct (aa_ToolRefsSet a).
Qed.

(** Steps after the restoration that leave the connection and the metadata alone. *)
Lemma finish_passes {A} (k : binding → option A) ctx key p runAs headers :
  (∀ x, k (BIdempotencyKey x) = None) → (∀ x, k (BPrincipal x) = None) → (∀ x, k (BRunAsAudit x) = None) →
  (∀ x, k (BInvokeHeaders x) = None) →
  Value k (WithInvokeRequestHeaders (ApplyDelegation (WithIdempotencyKey ctx key) p runAs).1 headers) = Value k ctx.
Proof.
  intros H1 H2 H3 H4. unfold WithInvokeRequestHeaders. cbn zeta.
  assert (Value k (ApplyDelegation (WithIdempotencyKey ctx key) p runAs).1 = Value k ctx) as H.
  { unfold ApplyDelegation. cbn zeta. assert (Value k (WithIdempotencyKey ctx key) = Value k ctx) as Hi.
    { unfold WithIdempotencyKey. cbn zeta. destruct (decide _); [done|]. cbn. by rewrite H1. }
    destruct (TurnScope.NormalizeRunAsSubject runAs) as [run|]; [|exact Hi]. cbn [fst]. unfold WithPrincipal. cbn [Value].
    rewrite H2. unfold WithRunAsAudit. destruct (TurnScope.NormalizeRunAsSubject (Some run)); [|exact Hi].
    cbn [Value]. by rewrite H3. }
  destruct (decide (normalizeHeaders headers = ∅)); [exact H|]. cbn [Value]. by rewrite H4.
Qed.

Lemma prepare_ok s ctx req call :
  prepare s ctx (Some req) = Ok call →
  cl_app call = TrimSpace (rq_App req) ∧ cl_operation call = TrimSpace (rq_Operation req)
  ∧ cl_app call ≠ "" ∧ cl_operation call ≠ ""
  ∧ ∃ c, requestContextForInvoke ToLower AsMap wide s ctx (rq_Context req) (cl_app call) (cl_operation call)
           (rq_Connection req) (rq_Instance req) (rq_CredentialMode req) (rq_RunAs req) = Ok c
    ∧ let '(base, instance) := prepareInvocationSelectors ToLower ctx c (rq_Connection req) (rq_Instance req) in
      cl_instance call = instance
      ∧ cl_ctx call = WithInvokeRequestHeaders (ApplyDelegation (WithIdempotencyKey base (rq_IdempotencyKey req))
                         (ri_principal c) (ri_delegationRunAs c)).1 (rq_Headers req)
      ∧ cl_principal call = (ApplyDelegation (WithIdempotencyKey base (rq_IdempotencyKey req))
                         (ri_principal c) (ri_delegationRunAs c)).2.
Proof.
  unfold AppServer.prepare. cbn zeta. rewrite !fail_if_ok, rbind_ok. intros (Ha & Ho & c & Hc & H).
  apply bool_decide_eq_false in Ha, Ho.
  destruct (prepareInvocationSelectors ToLower ctx c _ _) as [base instance] eqn:Hb.
  destruct (ApplyDelegation _ _ _) as [dctx p] eqn:Hd. injection H as <-.
  cbn [cl_app cl_operation cl_instance cl_ctx cl_principal]. split_and!; [done..|]. exists c. rewrite Hb, Hd. done.
Qed.

(** A step for another key is looked through, also that of the credential mode. *)
Local Ltac look_restored :=
  repeat first
    [ rewrite Value_when
        by (intros; unfold WithRunAsAudit, WithCallerProvider, WithAgentInvocationContext, WithCredentialModeOverride;
            cbn zeta; repeat case_match; reflexivity)
    | rewrite Value_whenSome
        by (intros; unfold WithRunAsAudit, WithCallerProvider, WithAgentInvocationContext, WithCredentialModeOverride;
            cbn zeta; repeat case_match; reflexivity) ].

Section restored.
  Context (c : requestInvocationContext Struct) (ctx : Context) (o : string).
  Local Abbreviation ctx' := (restoreRequestInvocationContext ToLower ctx c o).

Lemma restore_connection :
  ConnectionFromContext ctx' = if decide (connectionOf c o = "") then ConnectionFromContext ctx else connectionOf c o.
Proof.
  unfold ConnectionFromContext, restoreRequestInvocationContext, applyInheritedRequestContext. cbn zeta.
  unfold nonzero at 1. case_decide as Hc; cbn [whenSome]; [by look_restored|done].
Qed.

Lemma restore_meta :
  MetaFromContext ctx' = match invocationMetaFromRequestContext (ri_requestContext c) with
                         | Some meta => Some meta | None => MetaFromContext ctx end.
Proof.
  unfold MetaFromContext, restoreRequestInvocationContext, applyInheritedRequestContext. cbn zeta. look_restored.
  destruct (invocationMetaFromRequestContext _); cbn; [done|]. by look_restored.
Qed.

Lemma restore_principal :
  FromContext ctx' = match ri_principal c with Some p => Some (canonicalize p) | None => FromContext ctx end.
Proof.
  unfold FromContext, restoreRequestInvocationContext, applyInheritedRequestContext. cbn zeta. look_restored.
  destruct (ri_principal c) as [p|]; cbn [whenSome].
  - cbn. by rewrite !canonicalize_idem.
  - unfold WithEntry. by case_decide.
Qed.

Lemma restore_caller :
  ri_callerName c ≠ "" → ri_callerProviderKind c ≠ "" → TrimSpace (ri_callerName c) = ri_callerName c →
  TrimSpace (ri_callerProviderKind c) = ri_callerProviderKind c →
  CallerProviderFromContext ctx' = {| cp_Kind := ri_callerProviderKind c; cp_Name := ri_callerName c |}.
Proof.
  intros Hn Hk Htn Htk.
  unfold CallerProviderFromContext, restoreRequestInvocationContext, applyInheritedRequestContext. cbn zeta.
  look_restored. rewrite (bool_decide_eq_false_2 (ri_callerName c = "")),
    (bool_decide_eq_false_2 (ri_callerProviderKind c = "")) by done. cbn [negb andb when].
  unfold WithCallerProvider. cbn zeta. rewrite Htk, Htn, decide_False by tauto.
  cbn [Value cp_Kind cp_Name]. by rewrite Htk, Htn.
Qed.

Lemma restore_mode :
  CredentialModeOverrideFromContext ToLower ctx'
  = let mode := normalizeCredentialModeOverride ToLower (ri_credentialModeOverride c) in
    if decide (ri_credentialModeOverride c = "" ∨ mode = "") then CredentialModeOverrideFromContext ToLower ctx
    else normalizeCredentialModeOverride ToLower mode.
Proof.
  cbn zeta. unfold CredentialModeOverrideFromContext, restoreRequestInvocationContext, applyInheritedRequestContext.
  cbn zeta. look_through. unfold nonzero at 1.
  destruct (decide (ri_credentialModeOverride c = "")) as [He|He]; cbn [whenSome].
  - rewrite decide_True by tauto. by look_through.
  - unfold WithCredentialModeOverride at 1. cbn zeta.
    destruct (decide (normalizeCredentialModeOverride ToLower (ri_credentialModeOverride c) = "")) as [Hm|Hm].
    + rewrite decide_True by tauto. by look_through.
    + by rewrite decide_False by tauto.
Qed.

Lemma restore_refs :
  ToolRefsContextFromContext ctx'
  = if ri_agentToolRefsSet c then {| tc_Set := true; tc_Refs := ri_agentToolRefs c |}
    else if rc_ToolRefsSet (ri_requestContext c)
    then {| tc_Set := true; tc_Refs := ToolRefsFromProto (rc_ToolRefs (ri_requestContext c)) |}
    else ToolRefsContextFromContext ctx.
Proof.
  unfold ToolRefsContextFromContext, restoreRequestInvocationContext, applyInheritedRequestContext. cbn zeta.
  look_restored. destruct (ri_agentToolRefsSet c); cbn [when]; [done|].
  destruct (rc_ToolRefsSet _); cbn [when]; [done|]. by look_restored.
Qed.
End restored.

(** The call after the restoration: only a run-as subject changes who it is for. *)
Section finished.
  Context (base : Context) (key : string) (p : option Principal) (runAs : option TurnScope.RunAsSubject)
          (headers : list (string * string)).
  Local Abbreviation delegated := (ApplyDelegation (WithIdempotencyKey base key) p runAs).
  Local Abbreviation final := (WithInvokeRequestHeaders delegated.1 headers).

Lemma headers_pass {A} (k : binding → option A) ctx :
  (∀ x, k (BInvokeHeaders x) = None) → Value k (WithInvokeRequestHeaders ctx headers) = Value k ctx.
Proof.
  intros H. unfold WithInvokeRequestHeaders. cbn zeta. case_decide; [done|]. cbn [Value]. by rewrite H.
Qed.

Lemma final_principal :
  FromContext final = match TurnScope.NormalizeRunAsSubject runAs with
                      | Some _ => RunAsPrincipal p runAs | None => FromContext base end
  ∧ delegated.2 = match TurnScope.NormalizeRunAsSubject runAs with
                  | Some _ => RunAsPrincipal p runAs | None => p end.
Proof.
  unfold FromContext. rewrite headers_pass by done. unfold ApplyDelegation. cbn zeta.
  destruct (TurnScope.NormalizeRunAsSubject runAs) as [x|] eqn:Hx; cbn [fst snd].
  - assert (RunAsPrincipal p (Some x) = RunAsPrincipal p runAs) as ->.
    { unfold RunAsPrincipal. by rewrite Hx, <-Hx, TurnScope.runAs_idem, Hx. }
    split; [|done]. unfold WithPrincipal. cbn [Value from_option]. unfold id, RunAsPrincipal. rewrite Hx.
    unfold Canonicalized, Canonicalize. cbn [fmap option_fmap option_map]. by rewrite !canonicalize_idem.
  - split; [|done]. unfold WithIdempotencyKey. cbn zeta. by case_decide.
Qed.

Lemma final_audit x :
  TurnScope.NormalizeRunAsSubject runAs = Some x →
  RunAsAuditFromContext final = {| ra_AgentSubject := AuditSubjectFromPrincipal p; ra_RunAsSubject := Some x |}.
Proof.
  intros Hx. unfold RunAsAuditFromContext. rewrite headers_pass by done. unfold ApplyDelegation. cbn zeta.
  rewrite Hx. cbn [fst]. assert (TurnScope.NormalizeRunAsSubject (Some x) = Some x) as Hn
    by (by rewrite <-Hx, TurnScope.runAs_idem).
  unfold WithPrincipal, WithRunAsAudit. rewrite Hn. cbn [Value ra_AgentSubject ra_RunAsSubject]. rewrite Hn.
  f_equal. rewrite TurnScope.runAs_idem. unfold AuditSubjectFromPrincipal.
  destruct (Canonicalized p); [|done]. apply TurnScope.runAs_idem.
Qed.
End finished.

(** How a call leaves: under the name of the caller [c0], for the principal [p] or the
    subject it runs as, with the credential mode and the tool references settled. *)
Record sent_as ctx (r : RequestContext Struct) (c0 : requestInvocationContext Struct) (call : Call)
    (p : option Principal) (runAs : option TurnScope.RunAsSubject) (mode : string)
    (refs : option (list TurnScope.ToolRef)) : Prop := {
  sa_caller : CallerProviderFromContext (cl_ctx call)
              = {| cp_Kind := ri_callerProviderKind c0; cp_Name := ri_callerName c0 |};
  sa_principal : cl_principal call = match runAs with Some _ => RunAsPrincipal p runAs | None => p end;
  sa_context : FromContext (cl_ctx call)
               = match cl_principal call with Some q => Some (canonicalize q) | None => FromContext ctx end;
  sa_audit x : runAs = Some x →
    RunAsAuditFromContext (cl_ctx call)
    = {| ra_AgentSubject := AuditSubjectFromPrincipal p; ra_RunAsSubject := Some x |};
  sa_mode : CredentialModeOverrideFromContext ToLower (cl_ctx call)
            = let m := normalizeCredentialModeOverride ToLower mode in
              if decide (mode = "" ∨ m = "") then CredentialModeOverrideFromContext ToLower ctx
              else normalizeCredentialModeOverride ToLower m;
  sa_refs : ToolRefsContextFromContext (cl_ctx call)
            = match refs with
              | Some refs => {| tc_Set := true; tc_Refs := refs |}
              | None => if rc_ToolRefsSet r then {| tc_Set := true; tc_Refs := ToolRefsFromProto (rc_ToolRefs r) |}
                        else ToolRefsContextFromContext ctx
              end }.

Lemma settled_sent s ctx r c0 c o key headers (call : Call) p runAs mode refs :
  requestContext AsMap s ctx (Some r) = Ok c0 → ri_requestContext c = r → ri_callerName c = ri_callerName c0 →
  ri_callerProviderKind c = ri_callerProviderKind c0 →
  settled c p runAs mode refs → TurnScope.NormalizeRunAsSubject runAs = runAs →
  let base := restoreRequestInvocationContext ToLower ctx c o in
  cl_ctx call = WithInvokeRequestHeaders (ApplyDelegation (WithIdempotencyKey base key) p runAs).1 headers →
  cl_principal call = (ApplyDelegation (WithIdempotencyKey base key) p runAs).2 →
  sent_as ctx r c0 call p runAs mode refs.
Proof.
  intros Hc0 Hr Hname Hkind [Hp Hrun Hmode Hrefs] Hnorm base Hctx Hprin.
  pose proof (requestContext_ok s ctx r c0 Hc0) as (Hne & Hk & _).
  pose proof (requestContext_reads s ctx r c0 Hc0) as ([Hrn Hrk _ _ _ _] & _).
  destruct (final_principal base key p runAs headers) as [Hfp Hcp]. rewrite <-Hctx in Hfp.
  rewrite <-Hprin in Hcp. rewrite Hnorm in Hfp, Hcp.
  assert (ri_callerProviderKind c0 ≠ "") as Hkne.
  { intros E. rewrite E in Hk. rewrite !elem_of_cons, elem_of_nil in Hk.
    by destruct Hk as [?|[?|[?|[]]]]. }
  split.
  - rewrite Hctx. unfold CallerProviderFromContext at 1. rewrite finish_passes by done.
    change (CallerProviderFromContext base = {| cp_Kind := ri_callerProviderKind c0; cp_Name := ri_callerName c0 |}).
    unfold base. rewrite restore_caller; rewrite ?Hname, ?Hkind; [done|done|done| |];
      rewrite ?Hrn, ?Hrk; apply TrimSpace_idem.
  - exact Hcp.
  - rewrite Hfp, Hcp. destruct runAs as [x|].
    + unfold RunAsPrincipal. rewrite Hnorm. cbn [Canonicalize fmap option_fmap option_map].
      by rewrite canonicalize_idem.
    + unfold base. rewrite restore_principal, Hp. by destruct p.
  - intros x Hx. rewrite Hctx. apply final_audit. by rewrite Hnorm.
  - rewrite Hctx. unfold CredentialModeOverrideFromContext at 1. rewrite finish_passes by done.
    pose proof (restore_mode c ctx o) as Hm. rewrite Hmode in Hm. exact Hm.
  - rewrite Hctx. unfold ToolRefsContextFromContext at 1. rewrite finish_passes by done.
    change (ToolRefsContextFromContext base = match refs with
      | Some refs => {| tc_Set := true; tc_Refs := refs |}
      | None => if rc_ToolRefsSet r then {| tc_Set := true; tc_Refs := ToolRefsFromProto (rc_ToolRefs r) |}
                else ToolRefsContextFromContext ctx end).
    unfold base. rewrite restore_refs, Hr, <-Hrefs. by destruct (ri_agentToolRefsSet c).
Qed.

(** The connection and instance of a call that nobody chose for the caller. *)
Definition own_selectors ctx (r : RequestContext Struct) (req : AppInvokeRequest Struct P) (call : Call) : Prop :=
  cl_instance call
  = (if decide (TrimSpace (rq_Instance req) = "" ∧ TrimSpace (rq_Connection req) = "")
     then cc_Instance (credentialFromRequestContext r) else TrimSpace (rq_Instance req))
  ∧ ConnectionFromContext (cl_ctx call)
    = let connection := connectionFor (TrimSpace (rq_Connection req))
                          (match rc_Invocation r with Some inv => iv_Connection inv | None => "" end)
                          (cc_Connection (credentialFromRequestContext r)) in
      if decide (connection = "") then ConnectionFromContext ctx else connection.


(** ** Recursion through providers *)

(** A call that goes back out keeps the position of the call that the provider serves. *)
Lemma callback_carries {Out : Type} (StructFromMap : workflowMap → option Out) ctx base caller (r : RequestContext Out)
    s ctx' req call r' :
  RequestContextProto ToLower StructFromMap ctx base caller = Ok (Some r) →
  (- 2 ^ 31 ≤ GuardedInvoker.depthOf ctx < 2 ^ 31)%Z → MetaFromContext ctx' = None →
  rq_Context req = Some r' → rc_Invocation r' = rc_Invocation r →
  prepare s ctx' (Some req) = Ok call → GuardedInvoker.carries ctx (cl_ctx call).
Proof.
  intros Hout Hdepth Hnone Hreq Hinv Hprep.
  apply prepare_ok in Hprep as (_ & _ & _ & _ & c & Hc & Hcall).
  apply requestContextForInvoke_ok in Hc as (r0 & c0 & mode & Hr0 & _ & _ & _ & Hrc & _ & _ & _ & _).
  rewrite Hreq in Hr0. injection Hr0 as <-.
  assert (∃ base', MetaFromContext (cl_ctx call)
                   = MetaFromContext (restoreRequestInvocationContext ToLower ctx' c base')) as [base' Hm].
  { unfold prepareInvocationSelectors in Hcall.
    destruct (ri_authorizedSelectors c); destruct Hcall as (_ & -> & _); eexists;
      unfold MetaFromContext at 1; rewrite finish_passes by done; reflexivity. }
  assert (rc_Invocation r = nonzero empty_invocation (invocationOf ctx)) as Hri.
  { revert Hout. unfold RequestContextProto. rewrite rbind_ok. intros (workflow & _ & [= Hr]).
    destruct (is_blank _); [done|]. injection Hr as <-. done. }
  assert (MetaFromContext (cl_ctx call)
          = match nonzero empty_invocation (invocationOf ctx) with
            | Some inv => Some {| im_RequestID := TrimSpace (iv_RequestId inv); im_Depth := iv_Depth inv;
                                  im_CallChain := iv_CallChain inv |}
            | None => None end) as Hmeta.
  { rewrite Hm, restore_meta. unfold invocationMetaFromRequestContext. rewrite Hrc, Hinv, Hri, Hnone.
    by destruct (nonzero _ _). }
  assert (GuardedInvoker.depthOf ctx = iv_Depth (invocationOf ctx) ∧ GuardedInvoker.chainOf ctx = iv_CallChain (invocationOf ctx)) as [Hd Hch].
  { revert Hdepth. unfold GuardedInvoker.depthOf, GuardedInvoker.chainOf, invocationOf. cbn [iv_Depth iv_CallChain].
    destruct (MetaFromContext ctx); [|done]. intros Hdepth. by rewrite int32_small. }
  unfold GuardedInvoker.carries. rewrite Hd, Hch. unfold GuardedInvoker.depthOf, GuardedInvoker.chainOf. rewrite Hmeta. clear. unfold nonzero.
  generalize (invocationOf ctx) as i. intros i. by destruct (decide (i = empty_invocation)) as [->|_].
Qed.
End authorization.

Section recursion.
  Context {E W L Struct P : Type}.
  Context (NewLimiter : Z → Z → L) (AllowNow : time → L → bool * L) (uuid_New : nat → string).
  Context (ToLower : string → string) (StructFromMap : workflowMap → option Struct) (AsMap : Struct → workflowMap)
          (wide : spec_float → Z).
  Abbreviation verdict := (GuardedInvoker.verdict (E := E) (W := W) NewLimiter AllowNow uuid_New).

(** Calls made from within one another: the guard lets a call pass, the provider that
    serves it is handed the request context, and calls back with that context's
    invocation, on a connection of its own.  The keys of the calls, outermost first, and
    the context of the innermost one. *)
Inductive recursing (max : Z) (ctx0 : Context) : list string → Context → Prop :=
  | recursing_first g p app instance op w :
      (GuardedInvoker.g_maxDepth g ≤ max)%Z → verdict g ctx0 p app instance op w = None →
      recursing max ctx0 [GuardedInvoker.chainKey app instance op]
        (GuardedInvoker.handed uuid_New g ctx0 p app instance op w)
  | recursing_callback keys ctx base caller r s ctx' (req : AppInvokeRequest Struct P) r' call g w :
      recursing max ctx0 keys ctx →
      RequestContextProto ToLower StructFromMap ctx base caller = Ok (Some r) →
      rq_Context req = Some r' → rc_Invocation r' = rc_Invocation r → MetaFromContext ctx' = None →
      prepare ToLower AsMap wide s ctx' (Some req) = Ok call →
      (GuardedInvoker.g_maxDepth g ≤ max)%Z →
      verdict g (cl_ctx call) (cl_principal call) (cl_app call) (cl_instance call) (cl_operation call) w = None →
      recursing max ctx0 (keys ++ [GuardedInvoker.chainKey (cl_app call) (cl_instance call) (cl_operation call)])
        (GuardedInvoker.handed uuid_New g (cl_ctx call) (cl_principal call) (cl_app call) (cl_instance call)
           (cl_operation call) w).

Lemma recursing_nested max ctx0 keys ctx :
  (max < 2 ^ 31)%Z → MetaFromContext ctx0 = None → recursing max ctx0 keys ctx →
  GuardedInvoker.nested (E := E) (W := W) NewLimiter AllowNow uuid_New max ctx0 keys ctx.
Proof.
  intros Hmax Hnone H.
  induction H as [g p app instance op w Hg Hv|keys ctx base caller r s ctx' req r' call g w Hrec IH Hout Hreq Hinv Hn Hp Hg Hv].
  - change [GuardedInvoker.chainKey app instance op] with ([] ++ [GuardedInvoker.chainKey app instance op]).
    eapply GuardedInvoker.nested_call; [apply GuardedInvoker.nested_start|done|done|exact Hv].
  - eapply GuardedInvoker.nested_call; [exact IH| |done|exact Hv].
    destruct (GuardedInvoker.nested_bounded NewLimiter AllowNow uuid_New _ _ _ _ IH Hnone) as (Hlen & _ & Hd & _).
    eapply (callback_carries ToLower AsMap wide StructFromMap); [exact Hout| |exact Hn|exact Hreq|exact Hinv|exact Hp].
    rewrite Hd. lia.
Qed.

(** C17. Apps cannot recurse through one another without end: as long as a provider calls
    back with the invocation it was given, calls nest at most as deep as the largest depth
    that a guard allows, and no call occurs within a call of the same provider, instance
    and operation. *)
Theorem recursion_through_apps_bounded max ctx0 keys ctx :
  (max < 2 ^ 31)%Z → MetaFromContext ctx0 = None → recursing max ctx0 keys ctx →
  (Z.of_nat (length keys) ≤ Z.max 0 max)%Z ∧ NoDup keys.
Proof.
  intros Hmax Hnone H. apply recursing_nested in H; [|done..].
  by destruct (GuardedInvoker.nested_bounded NewLimiter AllowNow uuid_New _ _ _ _ H Hnone) as (? & ? & _).
Qed.
End recursion.

(** ** A workflow step, and an app that is called and calls back *)

Definition sample_workflow : workflowMap :=
  [("providerName", AString "wf"); ("runId", AString "r1"); ("definitionId", AString "d1");
   ("definitionGeneration", AFloat 64 (S754_finite false 3 0)); ("workflowKey", AString "");
   ("currentStep", AMap [("id", AString "s1"); ("index", AFloat 64 (S754_zero false))]);
   ("target", AMap [("steps", AList [AMap [("id", AString "s1"); ("kind", AString "app"); ("app", AString "slack");
                                           ("operation", AString "post"); ("connection", AString "main")]])])].

Definition request_from (kind name : string) (workflow : option workflowMap) (inv : option InvocationMsg)
    : RequestContext workflowMap :=
  {| rc_Subject := None; rc_Credential := None; rc_Access := None; rc_Workflow := workflow; rc_Agent := None;
     rc_ToolRefs := []; rc_ToolRefsSet := false; rc_Host := None; rc_AgentSubject := None;
     rc_Caller := Some {| cp_Kind := kind; cp_Name := name |}; rc_Invocation := inv; rc_RequestMeta := None |}.
Definition sample_invoke (app op connection : string) (r : RequestContext workflowMap) : AppInvokeRequest workflowMap unit :=
  {| rq_App := app; rq_Operation := op; rq_Context := Some r; rq_Connection := connection; rq_Instance := "";
     rq_CredentialMode := ""; rq_RunAs := None; rq_IdempotencyKey := ""; rq_Params := tt; rq_Headers := [] |}.
Definition plain_server : Server (Struct := workflowMap) := {| sv_callerName := ""; sv_agentAppAuth := None |}.

Abbreviation sample_prepare := (prepare (λ s, s) (λ m : workflowMap, m) (λ _, 0%Z) plain_server []).

(** An agent whose authorizer lets it post as another user. *)
Definition sample_authorization : AgentAppAuthorization :=
  {| aa_Principal := Some sample_bearer; aa_CredentialMode := "subject"; aa_Connection := " team "; aa_Instance := "i1";
     aa_RunAs := Some {| TurnScope.ra_SubjectID := " user:u9 " |}; aa_ToolRefs := []; aa_ToolRefsSet := true |}.
Definition agent_server : Server (Struct := workflowMap) :=
  {| sv_callerName := ""; sv_agentAppAuth := Some (λ _ _, Ok sample_authorization) |}.
Definition agent_request : RequestContext workflowMap :=
  {| rc_Subject := None; rc_Credential := None; rc_Access := None; rc_Workflow := None;
     rc_Agent := Some {| ai_ProviderName := "claude"; ai_SessionID := "s1"; ai_TurnID := "t1" |};
     rc_ToolRefs := []; rc_ToolRefsSet := false; rc_Host := None; rc_AgentSubject := None;
     rc_Caller := Some {| cp_Kind := ProviderKindAgent; cp_Name := "claude" |}; rc_Invocation := None;
     rc_RequestMeta := None |}.


Section sample_recursion.
  Import GuardedInvoker.

Definition recursion_keys : list string := ["slack/default/post"; "linear/default/list"].

Lemma recursion_through_apps_bounded_witness :
  ∃ ctx, recursing (E := unit) (W := unit) (P := unit) (λ _ burst : Z, burst) twice sample_id (λ s, s)
           (λ m : workflowMap, Some m) (λ m, m) (λ _, 0%Z) 5 [] recursion_keys ctx
    ∧ (Z.of_nat (length recursion_keys) ≤ Z.max 0 5)%Z.
Proof.
  set (ctx1 := handed sample_id sample_guard [] None "slack" "" "post" sample_world).
  assert (recursing (E := unit) (W := unit) (P := unit) (λ _ burst : Z, burst) twice sample_id (λ s, s)
           (λ m : workflowMap, Some m) (λ m, m) (λ _, 0%Z) 5 [] [chainKey "slack" "" "post"] ctx1) as H1.
  { apply recursing_first; by vm_compute. }
  destruct (RequestContextProto (λ s, s) (λ m : workflowMap, Some m) ctx1 "" {| cp_Kind := "app"; cp_Name := "slack" |})
    as [[r|]|e] eqn:Hr; [|by vm_compute in Hr..].
  destruct (sample_prepare (Some (sample_invoke "linear" "list" "" r))) as [call|e] eqn:Hp.
  2:{ exfalso. assert (match RequestContextProto (λ s, s) (λ m : workflowMap, Some m) ctx1 ""
                               {| cp_Kind := "app"; cp_Name := "slack" |} with
                       | Ok (Some r) => is_ok (sample_prepare (Some (sample_invoke "linear" "list" "" r)))
                       | _ => true end = true) as Hok by (by vm_compute).
      by rewrite Hr, Hp in Hok. }
  assert (verdict (E := unit) (W := unit) (λ _ burst : Z, burst) twice sample_id sample_guard (cl_ctx call)
            (cl_principal call) (cl_app call) (cl_instance call) (cl_operation call) sample_world = None
          ∧ chainKey (cl_app call) (cl_instance call) (cl_operation call) = "linear/default/list") as [Hv Hk].
  { assert (match RequestContextProto (λ s, s) (λ m : workflowMap, Some m) ctx1 ""
                    {| cp_Kind := "app"; cp_Name := "slack" |} with
            | Ok (Some r) =>
                match sample_prepare (Some (sample_invoke "linear" "list" "" r)) with
                | Ok call =>
                    verdict (E := unit) (W := unit) (λ _ burst : Z, burst) twice sample_id sample_guard (cl_ctx call)
                      (cl_principal call) (cl_app call) (cl_instance call) (cl_operation call) sample_world = None
                    ∧ chainKey (cl_app call) (cl_instance call) (cl_operation call) = "linear/default/list"
                | Err _ => False end
            | _ => False end) as Hok by (by vm_compute).
    by rewrite Hr, Hp in Hok. }
  assert (recursing (E := unit) (W := unit) (P := unit) (λ _ burst : Z, burst) twice sample_id (λ s, s)
           (λ m : workflowMap, Some m) (λ m, m) (λ _, 0%Z) 5 []
           ([chainKey "slack" "" "post"] ++ [chainKey (cl_app call) (cl_instance call) (cl_operation call)])
           (handed sample_id sample_guard (cl_ctx call) (cl_principal call) (cl_app call) (cl_instance call)
              (cl_operation call) sample_world)) as H2.
  { eapply recursing_callback with (req := sample_invoke "linear" "list" "" r) (ctx' := []) (s := plain_server); [exact H1|exact Hr|reflexivity|reflexivity|reflexivity|exact Hp|by vm_compute|exact Hv]. }
  rewrite Hk in H2. eexists. split; [exact H2|].
  by apply recursion_through_apps_bounded in H2 as [Hlen _].
Defined.
End sample_recursion.

End AppServer.
