(* ===== verification/BrokerCredentials.v ===== *)
(** * BrokerCredentials: whose credential a call gets

    Models the credentials of [gestaltd/services/invocation/broker.go] (connection modes and
    identities, the chosen account, token resolution, the expansion of catalog targets),
    [broker_reconnect.go], [connection_runtime.go] and the connection parameters of
    [gestaltd/core/credential_metadata.go].

    The provider of external credentials is an interface on a state [W] of its own; what its
    errors are is told by [ErrorFacts].  [UnmarshalStrings] decodes a JSON object of
    strings, [Auth] is the configuration of a connection's authentication. *)

From stdpp Require Import base gmap strings list sorting sets.
From Stdlib Require Import ZArith Ascii Lia.
From S2P Require Import Prelude Catalog TurnScope CredentialSelection Principals Permissions AccessDecisions InvocationContext.
From S2P Require Import InvocationAuth GuardedInvoker.

Set Default Goal Selector "!".

Module BrokerCredentials.
Import Catalog Principals Permissions InvocationContext InvocationAuth.
Import CredentialSelection GuardedInvoker.

Record CatalogResolutionTarget := { ct_Connection : string; ct_Instance : string }.
#[export] Instance CatalogResolutionTarget_eq_dec : EqDecision CatalogResolutionTarget.
Proof. solve_decision. Defined.

Record ConnectionRuntimeCredential := { cn_Token : string; cn_ExpiresAt : option time }.

(** [core.ResolveExternalCredentialRequest] and its response. *)
Record ResolveRequest (Auth : Type) := {
  rr_Provider : string; rr_Connection : string; rr_ConnectionID : string; rr_Mode : string;
  rr_CredentialSubjectID : string; rr_Instance : string; rr_Auth : Auth; rr_ConnectionParams : gmap string string }.
#[global] Arguments rr_Provider {Auth}. #[global] Arguments rr_Connection {Auth}.
#[global] Arguments rr_ConnectionID {Auth}. #[global] Arguments rr_Mode {Auth}.
#[global] Arguments rr_CredentialSubjectID {Auth}. #[global] Arguments rr_Instance {Auth}.
#[global] Arguments rr_Auth {Auth}. #[global] Arguments rr_ConnectionParams {Auth}.

Record ResolveResponse := {
  rv_Token : string; rv_ExpiresAt : option time; rv_MetadataJSON : string; rv_Params : gmap string string;
  rv_Credential : option ExternalCredential }.

(** A copy of [credential] with another grant, as the in-place update leaves it. *)
Definition with_grant (c : ExternalCredential) (grant : option ExternalCredentialGrant) (now : time) : ExternalCredential :=
  {| ec_ID := ec_ID c; ec_Subject := ec_Subject c; ec_Audience := ec_Audience c; ec_Qualifier := ec_Qualifier c;
     ec_AccountKey := ec_AccountKey c; ec_Grant := grant; ec_Client := ec_Client c; ec_Opaque := ec_Opaque c;
     ec_MetadataJSON := ec_MetadataJSON c; ec_CreatedAt := ec_CreatedAt c; ec_UpdatedAt := now |}.

Definition WithConnectionParams (ctx : Context) (params : gmap string string) : Context := BConnectionParams params :: ctx.
Definition ConnectionParams (ctx : Context) : gmap string string :=
  default ∅ (Value (λ b, match b with BConnectionParams p => Some p | _ => None end) ctx).

(** What an error of a collaborator is, as [errors.Is] and [errors.As] tell. *)
Record ErrorFacts (E : Type) := {
  is_NotFound : E → bool;
  is_Ambiguous : E → bool;
  is_Reconnect : E → bool;
  is_Unauthorized : E → bool }.
#[global] Arguments is_NotFound {E}. #[global] Arguments is_Ambiguous {E}. #[global] Arguments is_Reconnect {E}.
#[global] Arguments is_Unauthorized {E}.

Section credentials.
  Context {E W L S P Res Auth : Type}.
  Context (ToLower : string → string) (UnmarshalStrings : string → option (gmap string string))
          (facts : ErrorFacts E).
  Abbreviation World := (GuardedInvoker.World E W L).
  (** Executing a call works on the state and answers a result. *)
  Abbreviation Run := (World → result (Error E) Res * World).
  Abbreviation Provider := (InvocationContext.Provider E P Run).

Record CredentialProvider := {
  cv_ListCredentials : string → string → W → result E (list (option ExternalCredential));
  cv_GetCredential : string → string → string → W → result E (option ExternalCredential);
  cv_UpsertCredential : ExternalCredential → W → result E unit * W;
  cv_ResolveCredential : ResolveRequest Auth → W → result E (option ResolveResponse) * W }.

Record ConnectionRuntimeInfo := {
  rt_ConnectionID : string; rt_Mode : string; rt_AuthConfig : Auth;
  rt_AuthConfigResolver : option (Context → result E Auth); rt_Params : gmap string string }.

Record Broker := {
  br_auth : Authorizer E S P Run;
  br_externalCreds : option CredentialProvider;
  br_connectionInstancePreferences : option (string → string → W → result E string);
  br_connMapper : option (string → string);
  br_mcpMapper : option (string → string);
  br_connectionRuntime : option (string → string → option ConnectionRuntimeInfo);
  br_zeroAuth : Auth }.

Implicit Types (b : Broker) (ctx : Context) (prov : Provider) (w : World).

(** [b.providers.GetWithContext], with the errors of its callers. *)
Definition lookupProvider b ctx (name : string) : result (Error E) Provider :=
  match au_providers (br_auth b) with
  | None => Err (Wraps ErrInternal)
  | Some get => match get ctx name with
                | Ok prov => Ok prov
                | Err LookupNotFound => Err (Wraps ErrProviderNotFound)
                | Err LookupFailed => Err (Wraps ErrInternal)
                end
  end.

Definition connectionRuntimeOf b (providerName connection : string) : option ConnectionRuntimeInfo :=
  match br_connectionRuntime b with None => None | Some resolve => resolve providerName connection end.

Definition resolveConnectionMode b ctx prov (providerName connection : string) : string :=
  let override := CredentialModeOverrideFromContext ToLower ctx in
  if negb (bool_decide (override = "")) then override
  else match connectionRuntimeOf b providerName connection with
       | Some info => if decide (rt_Mode info = "") then effectiveConnectionMode ToLower ctx (Some prov)
                      else TurnScope.NormalizeConnectionMode ToLower (rt_Mode info)
       | None => effectiveConnectionMode ToLower ctx (Some prov)
       end.

Definition connectionID b (providerName connection : string) : string :=
  let providerName := TrimSpace providerName in
  let connection := TrimSpace connection in
  let connection := if decide (connection = "") then AppConnectionName else connection in
  let own := match connectionRuntimeOf b providerName connection with
             | Some info => TrimSpace (rt_ConnectionID info)
             | None => ""
             end in
  if decide (own = "") then providerName +:+ ":" +:+ connection else own.

(** The account the subject has chosen, with the preference that was looked up. *)
Definition preferredInstance b (subjectID connID : string) w : result (Error E) string :=
  match br_connectionInstancePreferences b with
  | None => Ok ""
  | Some prefer => match prefer subjectID connID (w_rest w) with
                   | Ok preferred => Ok preferred
                   | Err _ => Err (Wraps ErrInternal)
                   end
  end.

Definition chosenCredentialInstance (credentials : list (option ExternalCredential)) (preferred : string) w
    : string * bool := ChooseCredentialInstance UnmarshalStrings credentials preferred (w_now w).

Definition resolveChosenInstance b (subjectID connID instance : string) w : result (Error E) string :=
  let instance := TrimSpace instance in
  if negb (bool_decide (instance = "")) then Ok instance
  else match br_externalCreds b with
       | None => Err (Wraps ErrInternal)
       | Some creds =>
           match cv_ListCredentials creds subjectID connID (w_rest w) with
           | Err _ => Err (Wraps ErrInternal)
           | Ok credentials =>
               let! preferred := preferredInstance b subjectID connID w in
               let '(chosen, ok) := chosenCredentialInstance credentials preferred w in
               Ok (if (ok : bool) then chosen else "")
           end
       end.

(** *** Targets of a catalog *)

Definition addTarget (target : CatalogResolutionTarget) (expanded : list CatalogResolutionTarget)
    : list CatalogResolutionTarget := if decide (target ∈ expanded) then expanded else expanded ++ [target].

Fixpoint expandTargets b (creds : CredentialProvider) (subjectID providerName : string)
    (targets expanded : list CatalogResolutionTarget) w : result (Error E) (list CatalogResolutionTarget) :=
  match targets with
  | [] => Ok expanded
  | target :: targets =>
      let target := {| ct_Connection := TrimSpace (ct_Connection target);
                       ct_Instance := TrimSpace (ct_Instance target) |} in
      if negb (bool_decide (ct_Instance target = "")) then
        expandTargets b creds subjectID providerName targets (addTarget target expanded) w
      else
        let connID := connectionID b providerName (ct_Connection target) in
        match cv_ListCredentials creds subjectID connID (w_rest w) with
        | Err _ => Err (Wraps ErrInternal)
        | Ok credentials =>
            let! preferred := preferredInstance b subjectID connID w in
            let '(chosen, ok) := chosenCredentialInstance credentials preferred w in
            let expanded :=
              if (ok : bool) then
                addTarget {| ct_Connection := ct_Connection target; ct_Instance := chosen |} expanded
              else if bool_decide (length (filter (λ c : option ExternalCredential, c ≠ None) credentials) = 0)
              then addTarget target expanded
              else expanded in
            expandTargets b creds subjectID providerName targets expanded w
        end
  end.

Definition ExpandCatalogTargets b ctx (p : option Principal) (providerName : string)
    (targets : list CatalogResolutionTarget) w : result (Error E) (list CatalogResolutionTarget) :=
  let targets := match targets with [] => [{| ct_Connection := ""; ct_Instance := "" |}] | _ => targets end in
  fail_if negb (AllowsProviderPermission ToLower p providerName) with Wraps ErrScopeDenied ;;
  let ctx := withResolvedPrincipal ctx p in
  let! prov := lookupProvider b ctx providerName in
  if negb (bool_decide (effectiveConnectionMode ToLower ctx (Some prov) = TurnScope.ConnectionModeSubject))
  then Ok targets
  else match br_externalCreds b with
       | None => Err (Wraps ErrInternal)
       | Some creds =>
           match ResolveCredentialSubjectID (au_users (br_auth b)) p with
           | Err _ => Err (Wraps ErrUserResolution)
           | Ok subjectID => expandTargets b creds subjectID providerName targets [] w
           end
       end.

(** *** Tokens *)

Definition set_rest w (rest : W) : World :=
  {| w_entries := w_entries w; w_log := w_log w; w_limiters := w_limiters w; w_now := w_now w;
     w_next := w_next w; w_rest := rest |}.

Definition credentialError (e : E) : Error E :=
  if is_NotFound facts e then Wraps ErrNoCredential
  else if is_Ambiguous facts e then Wraps ErrAmbiguousInstance
  else if is_Reconnect facts e then Wraps ErrReconnectRequired
  else Foreign e.

Definition ConnectionParamsFromMetadataJSON (metadataJSON : string) : option (gmap string string) :=
  if decide (TrimSpace metadataJSON = "") then Some ∅
  else match UnmarshalStrings metadataJSON with
       | None => None
       | Some params => Some (delete "account_key" (delete "account_identity" params))
       end.

Definition credentialContext (mode subjectID connection instance : string) : CredentialContext :=
  {| cc_Mode := mode; cc_SubjectID := subjectID; cc_Connection := connection; cc_Instance := instance |}.

(** The connection parameters of a resolution; malformed metadata has none. *)
Definition withResolvedParams ctx (stored : ExternalCredential) (resp : ResolveResponse) : Context :=
  let metadataJSON := if decide (rv_MetadataJSON resp = "") then ec_MetadataJSON stored else rv_MetadataJSON resp in
  let ctx := if decide (metadataJSON = "") then ctx
             else match ConnectionParamsFromMetadataJSON metadataJSON with
                  | Some params => if decide (params = ∅) then ctx else WithConnectionParams ctx params
                  | None => ctx
                  end in
  if decide (rv_Params resp = ∅) then ctx else WithConnectionParams ctx (rv_Params resp).

(** What [ResolveCredential] is asked. *)
Definition credentialRequest b ctx (subjectID providerName connection instance credentialMode : string)
    : ResolveRequest Auth :=
  let info := connectionRuntimeOf b providerName connection in
  let authConfig := match info with Some i => rt_AuthConfig i | None => br_zeroAuth b end in
  let authConfig := match info ≫= rt_AuthConfigResolver with
                    | Some resolve => match resolve ctx with Ok resolved => resolved | Err _ => authConfig end
                    | None => authConfig
                    end in
  {| rr_Provider := providerName; rr_Connection := connection; rr_ConnectionID := connectionID b providerName connection;
     rr_Mode := credentialMode; rr_CredentialSubjectID := subjectID; rr_Instance := instance; rr_Auth := authConfig;
     rr_ConnectionParams := match info with Some i => rt_Params i | None => ∅ end |}.

Definition resolveSubjectRuntimeCredential b ctx
    (subjectID providerName connection instance credentialMode credentialSubjectID : string) w
    : Context * result (Error E) ConnectionRuntimeCredential * World :=
  match br_externalCreds b with
  | None => (ctx, Err (Wraps ErrInternal), w)
  | Some creds =>
      match resolveChosenInstance b subjectID (connectionID b providerName connection) instance w with
      | Err e => (ctx, Err e, w)
      | Ok instance =>
          let credentialConnection := TrimSpace connection in
          let credentialConnection := if decide (credentialConnection = "") then AppConnectionName else credentialConnection in
          let ctx := WithCredentialContext ctx
                       (credentialContext credentialMode credentialSubjectID credentialConnection instance) in
          let '(res, rest) := cv_ResolveCredential creds
                                (credentialRequest b ctx subjectID providerName connection instance credentialMode)
                                (w_rest w) in
          let w := set_rest w rest in
          match res with
          | Err e => (ctx, Err (credentialError e), w)
          | Ok None => (ctx, Err (Wraps ErrInternal), w)
          | Ok (Some resp) =>
              match rv_Credential resp with
              | None => (ctx, Err (Wraps ErrNoCredential), w)
              | Some stored =>
                  let w := SetCredentialAudit ctx credentialMode credentialSubjectID credentialConnection
                             (ec_Qualifier stored) w in
                  let ctx := WithCredentialContext ctx
                               (credentialContext credentialMode credentialSubjectID credentialConnection
                                  (ec_Qualifier stored)) in
                  (withResolvedParams ctx stored resp,
                   Ok {| cn_Token := TrimSpace (rv_Token resp); cn_ExpiresAt := rv_ExpiresAt resp |}, w)
              end
          end
      end
  end.

Definition resolveSubjectCredential b ctx
    (subjectID providerName connection instance credentialMode credentialSubjectID : string) w
    : Context * result (Error E) string * World :=
  let '(ctx, res, w) := resolveSubjectRuntimeCredential b ctx subjectID providerName connection instance
                          credentialMode credentialSubjectID w in
  (ctx, match res with Ok credential => Ok (cn_Token credential) | Err e => Err e end, w).

Definition noCredential : CredentialContext := credentialContext TurnScope.ConnectionModeNone "" "" "".

Definition aliasOrApp (connection : string) : string :=
  let connection := ResolveConnectionAlias connection in
  if decide (connection = "") then AppConnectionName else connection.

Definition resolveToken b ctx prov (p : option Principal) (providerName connection instance : string) w
    : Context * result (Error E) string * World :=
  let mode := resolveConnectionMode b ctx prov providerName connection in
  if decide (mode = TurnScope.ConnectionModeNone) then
    (WithCredentialContext ctx noCredential, Ok "", SetCredentialAudit ctx TurnScope.ConnectionModeNone "" "" "" w)
  else if decide (mode = TurnScope.ConnectionModeSubject) then
    match ResolveCredentialSubjectID (au_users (br_auth b)) p with
    | Err _ => (ctx, Err (Wraps ErrUserResolution), w)
    | Ok subjectID =>
        if providerDelegatesRemoteAuthorization (Some prov) then
          let connection := aliasOrApp connection in
          match resolveChosenInstance b subjectID (connectionID b providerName connection) instance w with
          | Err e => (ctx, Err e, w)
          | Ok instance =>
              (WithCredentialContext ctx
                 (credentialContext TurnScope.ConnectionModeSubject subjectID connection instance), Ok "",
               SetCredentialAudit ctx TurnScope.ConnectionModeSubject subjectID connection instance w)
          end
        else resolveSubjectCredential b ctx subjectID providerName connection instance
               TurnScope.ConnectionModeSubject subjectID w
    end
  else (ctx, Err (Wraps ErrInternal), w).

Definition ResolveToken b ctx (p : option Principal) (providerName connection instance : string) w
    : Context * result (Error E) string * World :=
  if negb (AllowsProviderPermission ToLower p providerName) then (ctx, Err (Wraps ErrScopeDenied), w)
  else let ctx := withResolvedPrincipal ctx p in
       match lookupProvider b ctx providerName with
       | Err e => (ctx, Err e, w)
       | Ok prov => resolveToken b ctx prov p providerName connection instance w
       end.

Definition ResolveSubjectToken b ctx (subjectID providerName connection instance : string) w
    : Context * result (Error E) string * World :=
  let subjectID := TrimSpace subjectID in
  if decide (subjectID = "") then (ctx, Err (Wraps ErrUserResolution), w)
  else resolveSubjectCredential b ctx subjectID providerName connection instance TurnScope.ConnectionModeSubject
         subjectID w.

Definition emptyCredential : ConnectionRuntimeCredential := {| cn_Token := ""; cn_ExpiresAt := None |}.

Definition ResolveRuntimeConnectionCredential b ctx (p : option Principal) (providerName connection instance : string) w
    : Context * result (Error E) (ConnectionRuntimeCredential * ConnectionRuntimeInfo) * World :=
  if negb (InternalConnectionAccessFromContext ctx) then (ctx, Err (Wraps ErrAuthorizationDenied), w)
  else
    let providerName := TrimSpace providerName in
    let connection := aliasOrApp connection in
    match connectionRuntimeOf b providerName connection with
    | None => (ctx, Err (Wraps ErrNoCredential), w)
    | Some info =>
        let mode := TurnScope.NormalizeConnectionMode ToLower (rt_Mode info) in
        if decide (mode = TurnScope.ConnectionModeNone) then
          (WithCredentialContext ctx noCredential, Ok (emptyCredential, info),
           SetCredentialAudit ctx TurnScope.ConnectionModeNone "" "" "" w)
        else if decide (mode = TurnScope.ConnectionModeSubject) then
          match ResolveCredentialSubjectID (au_users (br_auth b)) p with
          | Err _ => (ctx, Err (Wraps ErrUserResolution), w)
          | Ok subjectID =>
              let '(ctx, res, w) := resolveSubjectRuntimeCredential b ctx subjectID providerName connection instance
                                      TurnScope.ConnectionModeSubject subjectID w in
              (ctx, match res with Ok credential => Ok (credential, info) | Err e => Err e end, w)
          end
        else (ctx, Err (Wraps ErrInternal), w)
    end.

(** *** Grants that the third party rejects *)

Definition StoredCredentialRejected (err : Error E) : bool :=
  match rootCause err with
  | Wraps ErrReconnectRequired => true
  | Foreign e => is_Reconnect facts e || is_Unauthorized facts e
  | _ => false
  end.

(** The credential the rejected call used, as far as the context or the subject's choice
    tells. *)
Definition rejectedInstance b (creds : CredentialProvider) (subjectID connID instance : string) w : option string :=
  if negb (bool_decide (instance = "")) then Some instance
  else match cv_ListCredentials creds subjectID connID (w_rest w) with
       | Err _ => None
       | Ok credentials =>
           let preferred := match br_connectionInstancePreferences b with
                            | None => ""
                            | Some prefer => match prefer subjectID connID (w_rest w) with Ok s => s | Err _ => "" end
                            end in
           let '(chosen, ok) := chosenCredentialInstance credentials preferred w in
           if (ok : bool) then Some chosen else None
       end.

Definition rejectedSubject b ctx (p : option Principal) : string :=
  let subjectID := TrimSpace (cc_SubjectID (CredentialContextFromContext ctx)) in
  if decide (subjectID = "") then
    match ResolveCredentialSubjectID (au_users (br_auth b)) p with Ok resolved => TrimSpace resolved | Err _ => "" end
  else subjectID.

Definition persistReconnectRequired b ctx (p : option Principal) (providerName connection instance : string)
    (err : Error E) w : World :=
  match br_externalCreds b with
  | None => w
  | Some creds =>
      let providerName := TrimSpace providerName in
      let subjectID := rejectedSubject b ctx p in
      if negb (StoredCredentialRejected err) || bool_decide (providerName = "") || bool_decide (subjectID = "") then w
      else
        let cred := CredentialContextFromContext ctx in
        let connection := if decide (connection = "") then cc_Connection cred else connection in
        let instance := if decide (instance = "") then cc_Instance cred else instance in
        let connection := ResolveConnectionAlias (TrimSpace connection) in
        let connID := connectionID b providerName connection in
        match rejectedInstance b creds subjectID connID (TrimSpace instance) w with
        | None => w
        | Some instance =>
            match cv_GetCredential creds subjectID connID instance (w_rest w) with
            | Ok (Some stored) =>
                match ec_Grant stored with
                | None => w
                | Some grant =>
                    let '(grant, changed) := MarkGrantReconnectRequired (Some grant) (w_now w) in
                    if (changed : bool) then
                      set_rest w (cv_UpsertCredential creds (with_grant stored grant (w_now w)) (w_rest w)).2
                    else w
                end
            | _ => w
            end
        end
  end.
End credentials.

(** ** The credential of a call *)

Section facts.
  Context {E W L S P Res Auth : Type}.
  Context (ToLower : string → string) (UnmarshalStrings : string → option (gmap string string))
          (facts : ErrorFacts E).
  Abbreviation Broker := (@Broker E W L S P Res Auth).
  Implicit Types (b : Broker) (ctx : Context) (w : GuardedInvoker.World E W L).
  Abbreviation resolveToken := (resolveToken ToLower UnmarshalStrings facts).

(** The audit entry of a call records a credential. *)
Definition audited ctx (cred : CredentialContext) w w' : Prop :=
  w_log w' = w_log w ∧ length (w_entries w') = length (w_entries w) ∧
  ∀ loc e, w_entries w !! loc = Some e →
    ∃ e', w_entries w' !! loc = Some e' ∧ credited e e' ∧
      (auditEntryFromContext ctx = Some loc →
       credentialContext (ae_CredentialMode e') (ae_CredentialSubjectID e') (ae_CredentialConnection e')
         (ae_CredentialInstance e') = cred).

Lemma SetCredentialAudit_rest ctx mode subjectID connection instance w :
  w_rest (SetCredentialAudit ctx mode subjectID connection instance w) = w_rest w.
Proof. unfold SetCredentialAudit. by destruct (auditEntryFromContext ctx). Qed.

Lemma SetCredentialAudit_audited ctx mode subjectID connection instance w :
  audited ctx (credentialContext mode subjectID connection instance) w
    (SetCredentialAudit ctx mode subjectID connection instance w).
Proof.
  unfold SetCredentialAudit. destruct (auditEntryFromContext ctx) as [l|] eqn:Hl.
  - cbn [w_log w_entries set_entries]. split; [done|]. split; [apply length_alter|]. intros loc e He.
    destruct (decide (l = loc)) as [->|Hne].
    + exists (set_credential e mode subjectID connection instance). cbn [w_entries set_entries].
      rewrite list_lookup_alter_eq, He. split_and!; [done|done|]. done.
    + exists e. cbn [w_entries set_entries]. rewrite list_lookup_alter_ne by done. split_and!; [done|apply credited_refl|].
      intros H. rewrite Hl in H. congruence.
  - split; [done|]. split; [done|]. intros loc e He. exists e. split_and!; [done|apply credited_refl|].
    intros H. congruence.
Qed.

Lemma withResolvedParams_credential ctx stored resp :
  CredentialContextFromContext (withResolvedParams UnmarshalStrings ctx stored resp) = CredentialContextFromContext ctx
  ∧ auditEntryFromContext (withResolvedParams UnmarshalStrings ctx stored resp) = auditEntryFromContext ctx.
Proof.
  unfold withResolvedParams, WithConnectionParams. cbn zeta.
  destruct (decide (rv_Params resp = ∅));
  match goal with |- context [if decide (?m = "") then ctx else _] => destruct (decide (m = "")); [done|] end;
  destruct (ConnectionParamsFromMetadataJSON _ _) as [params|]; try done; by destruct (decide (params = ∅)).
Qed.

(** The account a call settles on: the one it asks for, or the subject's choice. *)
Definition settled b (creds : CredentialProvider (E := E) (W := W) (Auth := Auth)) (subjectID connID asked instance : string) w : Prop :=
  if decide (TrimSpace asked = "") then
    ∃ credentials preferred,
      cv_ListCredentials creds subjectID connID (w_rest w) = Ok credentials
      ∧ preferredInstance b subjectID connID w = Ok preferred
      ∧ instance = (let '(chosen, ok) := chosenCredentialInstance UnmarshalStrings credentials preferred w in
                    if (ok : bool) then chosen else "")
  else instance = TrimSpace asked.

Lemma resolveChosenInstance_ok b creds subjectID connID asked instance w :
  br_externalCreds b = Some creds →
  resolveChosenInstance UnmarshalStrings b subjectID connID asked w = Ok instance →
  settled b creds subjectID connID asked instance w.
Proof.
  intros Hc. unfold resolveChosenInstance, settled. cbn zeta. destruct (decide (TrimSpace asked = "")) as [->|Hne].
  - rewrite bool_decide_true by done. cbn [negb]. rewrite Hc.
    destruct (cv_ListCredentials _ _ _ _) as [credentials|]; [|done]. rewrite rbind_ok.
    intros (preferred & Hp & H). exists credentials, preferred. split_and!; [done|done|].
    destruct (chosenCredentialInstance _ _ _ _) as [chosen ok]. by injection H as <-.
  - rewrite bool_decide_false by done. by intros [= <-].
Qed.

(** The answer came from the credential provider, which was asked for the credential of the
    subject, on the identity of the connection, with the account settled on. *)
Definition resolved_for b ctx (subjectID providerName connection instance : string)
    (credential : ConnectionRuntimeCredential) ctx' w w' : Prop :=
  ∃ creds resp stored req, br_externalCreds b = Some creds
    ∧ rr_CredentialSubjectID req = subjectID ∧ rr_Provider req = providerName
    ∧ rr_ConnectionID req = connectionID b providerName connection
    ∧ settled b creds subjectID (connectionID b providerName connection) instance (rr_Instance req) w
    ∧ cv_ResolveCredential creds req (w_rest w) = (Ok (Some resp), w_rest w')
    ∧ rv_Credential resp = Some stored
    ∧ credential = {| cn_Token := TrimSpace (rv_Token resp); cn_ExpiresAt := rv_ExpiresAt resp |}
    ∧ cc_SubjectID (CredentialContextFromContext ctx') = subjectID
    ∧ cc_Instance (CredentialContextFromContext ctx') = ec_Qualifier stored
    ∧ audited ctx (CredentialContextFromContext ctx') w w'.

Lemma resolveSubjectRuntimeCredential_ok b ctx subjectID providerName connection instance mode w ctx' credential w' :
  resolveSubjectRuntimeCredential UnmarshalStrings facts b ctx subjectID providerName connection instance mode subjectID w
    = (ctx', Ok credential, w') →
  resolved_for b ctx subjectID providerName connection instance credential ctx' w w'.
Proof.
  unfold resolveSubjectRuntimeCredential. destruct (br_externalCreds b) as [creds|] eqn:Hc; [|done].
  destruct (resolveChosenInstance _ _ _ _ _ _) as [chosen|e] eqn:Hi; [|done].
  apply (resolveChosenInstance_ok _ creds) in Hi; [|done]. cbn zeta.
  destruct (cv_ResolveCredential _ _ _) as [res rest] eqn:Hres.
  destruct res as [[resp|]|e]; [|done..]. destruct (rv_Credential resp) as [stored|] eqn:Hst; [|done].
  intros [= <- <- <-].
  match type of Hres with cv_ResolveCredential _ ?req _ = _ => exists creds, resp, stored, req end.
  match goal with |- context [withResolvedParams _ ?c _ _] => set (ctx1 := c) end.
  destruct (withResolvedParams_credential ctx1 stored resp) as [-> _].
  rewrite SetCredentialAudit_rest. cbn [w_rest set_rest].
  split_and!; try done. cbn [CredentialContextFromContext Value ctx1].
  match goal with |- audited _ _ _ (SetCredentialAudit ?c ?m ?s ?n ?i ?v) =>
    destruct (SetCredentialAudit_audited c m s n i v) as (H1 & H2 & H3) end.
  split; [exact H1|]. split; [exact H2|]. exact H3.
Qed.

(** C11. A call gets the credential of its own caller, and the audit entry says which.  When
    a token is resolved, either no credential was touched (the connection needs none, or a
    remote app will look up the caller's itself), or the token comes from the credential
    provider, asked for the subject the caller resolves to, for the connection of the call
    and the account that was asked for or that the subject chose; and in each case the
    entry that the context points to records exactly the credential of the context. *)
Theorem token_is_the_callers b ctx prov p providerName connection instance w ctx' token w' :
  resolveToken b ctx prov p providerName connection instance w = (ctx', Ok token, w') →
  audited ctx (CredentialContextFromContext ctx') w w' ∧
  ((token = "" ∧ w_rest w' = w_rest w ∧ CredentialContextFromContext ctx' = noCredential)
   ∨ ∃ subjectID, ResolveCredentialSubjectID (au_users (br_auth b)) p = Ok subjectID
     ∧ cc_SubjectID (CredentialContextFromContext ctx') = subjectID
     ∧ ((token = "" ∧ w_rest w' = w_rest w ∧ providerDelegatesRemoteAuthorization (Some prov) = true)
        ∨ ∃ credential, token = cn_Token credential
            ∧ resolved_for b ctx subjectID providerName connection instance credential ctx' w w')).
Proof.
  unfold BrokerCredentials.resolveToken. cbn zeta.
  destruct (decide (resolveConnectionMode _ _ _ _ _ _ = TurnScope.ConnectionModeNone)).
  { intros [= <- <- <-]. split; [apply SetCredentialAudit_audited|]. left.
    by rewrite SetCredentialAudit_rest. }
  destruct (decide (resolveConnectionMode _ _ _ _ _ _ = TurnScope.ConnectionModeSubject)); [|done].
  destruct (ResolveCredentialSubjectID _ p) as [subjectID|] eqn:Hs; [|done].
  destruct (providerDelegatesRemoteAuthorization (Some prov)) eqn:Hrem.
  - destruct (resolveChosenInstance _ _ _ _ _ _) as [chosen|]; [|done]. intros [= <- <- <-].
    split; [apply SetCredentialAudit_audited|]. right. exists subjectID. split_and!; [done|done|]. left.
    by rewrite SetCredentialAudit_rest.
  - unfold resolveSubjectCredential.
    destruct (resolveSubjectRuntimeCredential _ _ _ _ _ _ _ _ _ _ _) as [[ctx1 res] w1] eqn:Hr.
    destruct res as [credential|]; [|done]. intros [= <- <- <-].
    apply resolveSubjectRuntimeCredential_ok in Hr.
    pose proof Hr as (creds & resp & stored & req & _ & _ & _ & _ & _ & _ & _ & _ & Hsub & _ & Haud).
    split; [exact Haud|]. right. exists subjectID. split_and!; [done|done|]. right. by exists credential.
Qed.

(** A rejected grant is marked, and nothing else.  After a failed call the store is as
    it was, unless the error says that the stored credential was refused; then one
    credential is written back, with its grant marked for reconnecting: the one stored for
    the subject of the call's credential (or, before there was one, the subject the caller
    resolves to), the connection, and the account of the call. *)
Theorem only_the_rejected_grant_is_marked b ctx p providerName connection instance err w :
  let w' := persistReconnectRequired UnmarshalStrings facts b ctx p providerName connection instance err w in
  w_log w' = w_log w ∧ w_entries w' = w_entries w ∧
  (w_rest w' = w_rest w
   ∨ StoredCredentialRejected facts err = true ∧
     ∃ creds stored grant grant' subjectID connID account,
       br_externalCreds b = Some creds ∧ subjectID = rejectedSubject b ctx p ∧ subjectID ≠ ""
       ∧ cv_GetCredential creds subjectID connID account (w_rest w) = Ok (Some stored)
       ∧ connID = connectionID b (TrimSpace providerName)
                    (ResolveConnectionAlias (TrimSpace (if decide (connection = "")
                       then cc_Connection (CredentialContextFromContext ctx) else connection)))
       ∧ rejectedInstance UnmarshalStrings b creds subjectID connID
           (TrimSpace (if decide (instance = "") then cc_Instance (CredentialContextFromContext ctx) else instance)) w
         = Some account
       ∧ ec_Grant stored = Some grant
       ∧ MarkGrantReconnectRequired (Some grant) (w_now w) = (Some grant', true)
       ∧ w_rest w' = (cv_UpsertCredential creds (with_grant stored (Some grant') (w_now w)) (w_rest w)).2).
Proof.
  cbn zeta. unfold persistReconnectRequired. cbn zeta. destruct (br_externalCreds b) as [creds|]; [|by auto].
  destruct (negb (StoredCredentialRejected facts err) || _ || _) eqn:Hg; [by auto|].
  rewrite !orb_false_iff, negb_false_iff in Hg. destruct Hg as [[Hrej _] Hsub]. apply bool_decide_eq_false in Hsub.
  destruct (rejectedInstance _ _ _ _ _ _ _) as [account|] eqn:Hacc; [|by auto].
  destruct (cv_GetCredential _ _ _ _ _) as [[stored|]|] eqn:Hget; [|by auto..].
  destruct (ec_Grant stored) as [grant|] eqn:Hgrant; [|by auto].
  destruct (MarkGrantReconnectRequired (Some grant) (w_now w)) as [grant' changed] eqn:Hm.
  destruct changed; [|by auto]. cbn [w_log w_entries w_rest set_rest]. split_and!; [done|done|]. right. split; [done|].
  destruct grant' as [grant'|]; [|by cbn in Hm].
  eexists creds, stored, grant, grant', _, _, account. split_and!; eauto.
Qed.
End facts.

(** ** A store with one credential *)

Definition stored_alice : ExternalCredential :=
  {| ec_ID := "c1"; ec_Subject := "user:alice"; ec_Audience := "slack:_app"; ec_Qualifier := "work"; ec_AccountKey := "";
     ec_Grant := Some {| g_AccessToken := "t0k"; g_RefreshToken := ""; g_Scope := ""; g_ExpiresAt := None;
                         g_LastRefreshedAt := None; g_RefreshErrorCount := 0 |};
     ec_Client := None; ec_Opaque := None; ec_MetadataJSON := ""; ec_CreatedAt := 1%Z; ec_UpdatedAt := 1%Z |}.

Definition matches (subject audience : string) (c : ExternalCredential) : bool :=
  bool_decide (ec_Subject c = subject) && bool_decide (ec_Audience c = audience).

(** Errors are texts. *)
Definition sample_facts : ErrorFacts string :=
  {| is_NotFound e := bool_decide (e = "not found"); is_Ambiguous e := bool_decide (e = "ambiguous");
     is_Reconnect e := bool_decide (e = "reconnect"); is_Unauthorized e := bool_decide (e = "401") |}.

Definition sample_store : CredentialProvider (E := string) (W := list ExternalCredential) (Auth := unit) :=
  {| cv_ListCredentials subject audience w := Ok (map Some (List.filter (matches subject audience) w));
     cv_GetCredential subject audience qualifier w :=
       Ok (List.find (λ c, matches subject audience c && bool_decide (ec_Qualifier c = qualifier)) w);
     cv_UpsertCredential c w := (Ok tt, map (λ d, if decide (ec_ID d = ec_ID c) then c else d) w);
     cv_ResolveCredential req w :=
       (match List.find (λ c, matches (rr_CredentialSubjectID req) (rr_ConnectionID req) c
                              && bool_decide (ec_Qualifier c = rr_Instance req)) w with
        | None => Err "not found"
        | Some c => Ok (Some {| rv_Token := match ec_Grant c with Some g => g_AccessToken g | None => "" end;
                                rv_ExpiresAt := None; rv_MetadataJSON := ""; rv_Params := ∅; rv_Credential := Some c |})
        end, w) |}.

Definition sample_user_provider : InvocationContext.Provider string unit
    (GuardedInvoker.World string (list ExternalCredential) unit
     → result (Error string) unit * GuardedInvoker.World string (list ExternalCredential) unit) :=
  {| pv_Name := "slack"; pv_ConnectionMode := "subject"; pv_ConnectionForOperation _ := "";
     pv_Catalog := Some sample_catalog; pv_Execute _ _ _ token w :=
       (if decide (token = "t0k") then Err (Foreign "401") else Ok tt, w);
     pv_DefaultAppAccessOperations := None; pv_SupportsSessionCatalog := None; pv_CatalogForRequest := None;
     pv_RemoteCredentialDelegated := None; pv_ResolveStaticOperationForRequest := None;
     pv_ResolveConnectionForOperation := None; pv_OperationConnectionOverrideAllowed := None;
     pv_ExecuteStream := None; pv_InvokeGraphQL := None; pv_StaticHeaders := None |}.

Definition credential_broker : Broker (E := string) (W := list ExternalCredential) (L := unit)
    (S := list (string * string)) (P := unit) (Res := unit) (Auth := unit) :=
  {| br_auth := {| au_providers := Some (λ _ name, if decide (name = "slack") then Ok sample_user_provider
                                                  else Err LookupNotFound);
                   au_users := None; au_appAccessProfiles := None; au_history := None;
                   au_appOperationPolicies := None;
                   au_authorization := Some (AccessDecisions.answering readers);
                   au_providerKinds := ∅; au_authorizationPolicies := ∅ |};
     br_externalCreds := Some sample_store; br_connectionInstancePreferences := None; br_connMapper := None;
     br_mcpMapper := None; br_connectionRuntime := None; br_zeroAuth := tt |}.

Definition alice : option Principal := Some (subject_principal "user:alice").
Definition credential_world : GuardedInvoker.World string (list ExternalCredential) unit :=
  {| w_entries := []; w_log := []; w_limiters := ∅; w_now := 10%Z; w_next := 0; w_rest := [stored_alice] |}.

Lemma token_is_the_callers_witness :
  ∃ ctx' w', resolveToken (λ s, s) (λ _, None) sample_facts credential_broker [] sample_user_provider alice "slack" "" ""
               credential_world = (ctx', Ok "t0k", w')
    ∧ CredentialContextFromContext ctx' = credentialContext "subject" "user:alice" "_app" "work"
    ∧ audited [] (CredentialContextFromContext ctx') credential_world w'.
Proof.
  destruct (resolveToken (λ s, s) (λ _, None) sample_facts credential_broker [] sample_user_provider alice "slack" "" ""
              credential_world) as [[ctx' res] w'] eqn:H.
  assert (res = Ok "t0k" ∧ CredentialContextFromContext ctx' = credentialContext "subject" "user:alice" "_app" "work")
    as [-> Hctx].
  { assert (let '(c, r, _) := resolveToken (λ s, s) (λ _, None) sample_facts credential_broker [] sample_user_provider
                                alice "slack" "" "" credential_world in
            r = Ok "t0k" ∧ CredentialContextFromContext c = credentialContext "subject" "user:alice" "_app" "work")
      as Hc by (by vm_compute).
    by rewrite H in Hc. }
  exists ctx', w'. split_and!; [done|done|].
  by apply (token_is_the_callers (λ s, s) (λ _, None) sample_facts) in H as [H _].
Defined.

End BrokerCredentials.
