(* ===== verification/Schemas.v ===== *)
(** * Schemas: parameters and input schemas of operations

    Models [gestaltd/services/apps/declarative/schema.go], the conversions of
    [declarative/catalog.go] and [gestaltd/services/invocation/capabilities.go]: an operation
    that declares parameters gets a JSON schema, one that has a schema gets its parameters
    from it, and both are listed as capabilities.

    JSON is a pair of parameters: [Marshal] writes the document that [SynthesizeInputSchema]
    builds, [None] for a value JSON has no form for; [Unmarshal] reads the part of a document
    that [topLevelInputSchema] declares.  [ToLower] and [ToUpper] need the Unicode tables. *)

From stdpp Require Import base gmap strings list sorting sets.
From Stdlib Require Import ZArith Ascii Lia.
From S2P Require Import Prelude Catalog OperationPolicy Principals Permissions InvocationContext.

Set Default Goal Selector "!".

Module Schemas.
Import Catalog.

#[export] Instance CapabilityAnnotations_eq_dec : EqDecision CapabilityAnnotations.
Proof. solve_decision. Defined.

(** A property as it is written: empty descriptions and nil defaults are left out. *)
Record SchemaProperty := { sp_Type : string; sp_Description : option string; sp_Default : option any }.
Record InputSchema := { is_Properties : gmap string SchemaProperty; is_Required : list string }.

(** [topLevelInputSchema]: the type of every property, and the required names. *)
Record topLevelInputSchema := { tl_Properties : gmap string string; tl_Required : list string }.

(** [core.Capability]; [OperationParameter] is [core.Parameter] and keeps all its fields. *)
Record OperationParameter := {
  cp_Name : string; cp_Type : string; cp_Description : string; cp_Required : bool; cp_Default : any }.
Record Capability := {
  cap_Provider : string; cap_Operation : string; cap_Title : string; cap_Description : string;
  cap_Parameters : list OperationParameter; cap_InputSchema : option string; cap_Method : string;
  cap_Transport : string; cap_Annotations : CapabilityAnnotations }.

Definition ConvertParameters (params : list CatalogParameter) : list OperationParameter :=
  map (λ p, {| cp_Name := param_Name p; cp_Type := param_Type p; cp_Description := param_Description p;
               cp_Required := param_Required p; cp_Default := param_Default p |}) params.

Section schemas.
  Context (ToLower ToUpper : string → string)
          (Marshal : InputSchema → option string) (Unmarshal : string → option topLevelInputSchema).

Definition NormalizeType (t : string) : string :=
  let t := ToLower (TrimSpace t) in
  if contains ["integer"; "int"] t then "integer"
  else if contains ["number"; "float"; "double"] t then "number"
  else if contains ["boolean"; "bool"] t then "boolean"
  else if decide (t = "array") then "array"
  else if decide (t = "object") then "object"
  else if HasPrefix t "array<" || HasPrefix t "array[" then "array"
  else if HasPrefix t "object{" then "object"
  else "string".

Definition propertyOf (p : CatalogParameter) : SchemaProperty :=
  {| sp_Type := NormalizeType (param_Type p);
     sp_Description := if decide (param_Description p = "") then None else Some (param_Description p);
     sp_Default := match param_Default p with ANil => None | v => Some v end |}.

Definition inputSchema (params : list CatalogParameter) : InputSchema :=
  {| is_Properties := foldl (λ m p, <[param_Name p := propertyOf p]> m) ∅ params;
     is_Required := map param_Name (List.filter param_Required params) |}.

(** A document that cannot be written is no document. *)
Definition SynthesizeInputSchema (params : list CatalogParameter) : option string :=
  match params with [] => None | _ => Marshal (inputSchema params) end.

Definition AnnotationsFromMethod (method : string) : CapabilityAnnotations :=
  let m := ToUpper method in
  {| ReadOnlyHint := if contains ["GET"; "HEAD"] m then Some true else None;
     IdempotentHint := if decide (m = "PUT") then Some true else None;
     DestructiveHint := if decide (m = "DELETE") then Some true else None;
     OpenWorldHint := Some true |}.

(** A parameter read from a schema has a name, a type and whether it is required. *)
Definition plainParameter (name type : string) (required : bool) : CatalogParameter :=
  {| param_Name := name; param_WireName := ""; param_Type := NormalizeType type; param_Location := "";
     param_Description := ""; param_Required := required; param_Internal := false; param_Default := ANil |}.

Definition parametersFromInputSchema (raw : option string) : list CatalogParameter :=
  match raw with
  | None => []
  | Some raw =>
      if decide (raw = "") then []
      else match Unmarshal raw with
           | None => []
           | Some schema =>
               map (λ name, plainParameter name (default "" (tl_Properties schema !! name))
                              (contains (tl_Required schema) name))
                 (SortStrings (elements (dom (tl_Properties schema))))
           end
  end.

(** [CompileSchemas] on one operation. *)
Definition with_schema (o : CatalogOperation) (schema : option string) (params : list CatalogParameter)
    (annotations : CapabilityAnnotations) : CatalogOperation :=
  {| op_ID := op_ID o; op_ProviderID := op_ProviderID o; op_Method := op_Method o;
     op_Path := op_Path o; op_Title := op_Title o; op_Description := op_Description o;
     op_InputSchema := schema; op_OutputSchema := op_OutputSchema o; op_Response := op_Response o;
     op_Annotations := annotations; op_AllowedRoles := op_AllowedRoles o; op_Parameters := params;
     op_RequiredScopes := op_RequiredScopes o; op_Tags := op_Tags o; op_ReadOnly := op_ReadOnly o;
     op_Visible := op_Visible o; op_API := op_API o; op_MCP := op_MCP o; op_Transport := op_Transport o;
     op_Query := op_Query o; op_OperationName := op_OperationName o |}.

Definition compileOperation (o : CatalogOperation) : CatalogOperation :=
  let schema := match op_InputSchema o with
                | None => SynthesizeInputSchema (op_Parameters o)
                | Some s => Some s
                end in
  let params := match op_Parameters o with [] => parametersFromInputSchema schema | ps => ps end in
  let annotations := if decide (op_Annotations o = no_annotations) then AnnotationsFromMethod (op_Method o)
                     else op_Annotations o in
  with_schema o schema params annotations.

Definition CompileSchemas (c : Catalog) : Catalog := set_Operations c (map compileOperation (cat_Operations c)).

Definition OperationsList (c : option Catalog) : list OperationPolicy.Operation :=
  match c with
  | None => []
  | Some c =>
      omap (λ o, if bool_decide (op_Transport o = "graphql") && bool_decide (op_Query o = "") then None
                 else let method := ToUpper (TrimSpace (op_Method o)) in
                      Some {| OperationPolicy.co_Name := op_ID o;
                              OperationPolicy.co_Description := op_Description o;
                              OperationPolicy.co_Method :=
                                if bool_decide (method = "") && negb (bool_decide (op_Query o = "")) then "POST"
                                else method;
                              OperationPolicy.co_Parameters := op_Parameters o |})
        (cat_Operations c)
  end.

Definition capabilitiesFromCatalog (name : string) (c : Catalog) : list Capability :=
  omap (λ o, if decide (TrimSpace (op_ID o) = "") then None
             else Some {| cap_Provider := name; cap_Operation := op_ID o; cap_Title := op_Title o;
                          cap_Description := op_Description o;
                          cap_Parameters := ConvertParameters (op_Parameters o);
                          cap_InputSchema := op_InputSchema o;
                          cap_Method := ToUpper (TrimSpace (op_Method o));
                          cap_Transport := InvocationContext.OperationTransport o;
                          cap_Annotations := op_Annotations o |})
    (cat_Operations c).

Definition capabilitiesForProvider {E P R} (name : string) (prov : InvocationContext.Provider E P R)
    : list Capability :=
  match InvocationContext.pv_Catalog prov with Some c => capabilitiesFromCatalog name c | None => [] end.

(** ** Schemas and parameters *)

Definition typeNames : list string := ["integer"; "number"; "boolean"; "array"; "object"; "string"].

Lemma NormalizeType_names t : NormalizeType t ∈ typeNames.
Proof.
  clear ToUpper Marshal Unmarshal.
  unfold NormalizeType, typeNames. cbn zeta.
  repeat match goal with
  | |- context [if ?c then _ else _] => destruct c
  end; rewrite !elem_of_cons; tauto.
Qed.

Lemma NormalizeType_idem t :
  (∀ name, name ∈ typeNames → ToLower name = name) → NormalizeType (NormalizeType t) = NormalizeType t.
Proof.
  intros Hl. pose proof (NormalizeType_names t) as Hin. revert Hin. generalize (NormalizeType t) as n.
  intros n Hin. pose proof (Hl n Hin) as Hn. unfold NormalizeType. unfold typeNames in Hin.
  rewrite !elem_of_cons, elem_of_nil in Hin.
  destruct Hin as [->|[->|[->|[->|[->|[->|[]]]]]]];
  match goal with |- context [TrimSpace ?s] => change (TrimSpace s) with s end; rewrite Hn; reflexivity.
Qed.

Lemma properties_dom (params : list CatalogParameter) (m : gmap string SchemaProperty) :
  dom (foldl (λ m p, <[param_Name p := propertyOf p]> m) m params)
  = dom m ∪ list_to_set (map param_Name params).
Proof.
  revert m. induction params as [|p ps IH]; intros m; [cbn; by rewrite (right_id_L ∅ (∪))|].
  cbn [foldl map list_to_set]. rewrite IH, dom_insert_L.
  by rewrite (assoc_L (∪)), (comm_L (∪) {[_]}).
Qed.

Lemma properties_lookup (params : list CatalogParameter) p (m : gmap string SchemaProperty) :
  NoDup (map param_Name params) → p ∈ params →
  foldl (λ m p, <[param_Name p := propertyOf p]> m) m params !! param_Name p = Some (propertyOf p).
Proof.
  revert m. induction params as [|q ps IH]; intros m Hnd Hp; [by apply elem_of_nil in Hp|].
  cbn [map] in Hnd. apply NoDup_cons in Hnd as [Hq Hnd]. cbn [foldl].
  apply elem_of_cons in Hp as [->|Hp]; [|by apply IH].
  assert (∀ m' : gmap string SchemaProperty, m' !! param_Name q = Some (propertyOf q) →
    foldl (λ m p, <[param_Name p := propertyOf p]> m) m' ps !! param_Name q = Some (propertyOf q)) as Hkeep.
  { clear -Hq. induction ps as [|r ps IH]; intros m' Hm; [done|]. cbn [foldl]. apply IH.
    - intros Hin. apply Hq. by apply elem_of_cons; right.
    - rewrite lookup_insert_ne; [done|]. intros Heq. apply Hq. rewrite <- Heq. by apply elem_of_cons; left. }
  apply Hkeep. by rewrite lookup_insert_eq.
Qed.

(** What a reader of a written schema sees. *)
Definition readable (s : InputSchema) : topLevelInputSchema :=
  {| tl_Properties := sp_Type <$> is_Properties s; tl_Required := is_Required s |}.

Lemma required_names params p :
  NoDup (map param_Name params) → p ∈ params →
  contains (map param_Name (List.filter param_Required params)) (param_Name p) = param_Required p.
Proof.
  intros Hnd Hp. apply eq_true_iff_eq. rewrite contains_spec, list_elem_of_fmap. split.
  - intros (q & Heq & Hq). apply list_elem_of_In, filter_In in Hq as [Hq Hr]. apply list_elem_of_In in Hq.
    enough (p = q) as -> by done.
    clear Hr. induction params as [|r ps IH]; [by apply elem_of_nil in Hp|].
    cbn [map] in Hnd. apply NoDup_cons in Hnd as [Hnot Hnd].
    apply elem_of_cons in Hp as [->|Hp], Hq as [->|Hq]; [done| | |by apply IH].
    + exfalso. apply Hnot. rewrite Heq. by apply list_elem_of_fmap_2.
    + exfalso. apply Hnot. rewrite <- Heq. by apply list_elem_of_fmap_2.
  - intros Hr. exists p. split; [done|]. apply list_elem_of_In, filter_In. split; [by apply list_elem_of_In|done].
Qed.

(** The schema that is synthesized for an operation says what its parameters are: read
    back from the document, they are the declared ones in order of their names, each with
    its type in normal form and whether it is required.  [readable] is what the JSON
    library must read back from the document it wrote. *)
Theorem schema_round_trip params data :
  params ≠ [] → NoDup (map param_Name params) →
  (∀ name, name ∈ typeNames → ToLower name = name) →
  SynthesizeInputSchema params = Some data → data ≠ "" →
  Unmarshal data = Some (readable (inputSchema params)) →
  parametersFromInputSchema (Some data)
    ≡ₚ map (λ p, plainParameter (param_Name p) (param_Type p) (param_Required p)) params
  ∧ Sorted String.le (map param_Name (parametersFromInputSchema (Some data))).
Proof.
  intros _ Hnd Hl _ Hne Hread. unfold parametersFromInputSchema.
  destruct (decide (data = "")) as [->|_]; [done|]. rewrite Hread.
  cbn [tl_Properties tl_Required readable is_Properties is_Required inputSchema].
  rewrite dom_fmap_L, properties_dom, dom_empty_L, (left_id_L ∅ (∪)).
  set (f := λ name, plainParameter name _ _). split.
  - transitivity (map f (map param_Name params)).
    + apply Permutation_map. rewrite SortStrings_perm. by rewrite elements_list_to_set.
    + rewrite map_map. apply Permutation_refl'. apply map_ext_in. intros p Hp%list_elem_of_In.
      unfold f. rewrite lookup_fmap, properties_lookup by done. cbn [fmap option_fmap option_map default sp_Type propertyOf].
      rewrite required_names by done. unfold plainParameter, id. by rewrite NormalizeType_idem.
  - rewrite map_map. unfold f. cbn [param_Name plainParameter]. rewrite map_id. apply SortStrings_sorted.
Qed.

Lemma AnnotationsFromMethod_some method : AnnotationsFromMethod method ≠ no_annotations.
Proof. by intros [=]. Qed.

(** Compiling a catalog again changes nothing. *)
Lemma CompileSchemas_idempotent c : CompileSchemas (CompileSchemas c) = CompileSchemas c.
Proof.
  unfold CompileSchemas. destruct c. cbn [cat_Operations set_Operations]. f_equal.
  rewrite map_map. apply map_ext. intros o. unfold compileOperation. cbn zeta.
  assert (∀ a, (if decide ((if decide (a = no_annotations) then AnnotationsFromMethod (op_Method o) else a)
                             = no_annotations)
                then AnnotationsFromMethod (op_Method o)
                else if decide (a = no_annotations) then AnnotationsFromMethod (op_Method o) else a)
             = (if decide (a = no_annotations) then AnnotationsFromMethod (op_Method o) else a)) as Ha.
  { intros a. destruct (decide (a = no_annotations)) as [->|Hn].
    - destruct (decide (AnnotationsFromMethod _ = _)); done.
    - by destruct (decide (a = no_annotations)). }
  destruct (op_Parameters o) as [|p ps] eqn:Hp.
  - cbn [with_schema op_InputSchema op_Parameters op_Annotations op_Method SynthesizeInputSchema].
    rewrite Ha. destruct (op_InputSchema o) as [s|]; cbn [parametersFromInputSchema];
      [|unfold with_schema; cbn; reflexivity].
    set (params := if decide (s = "") then _ else _). unfold with_schema. cbn. f_equal. by destruct params.
  - cbn [with_schema op_InputSchema op_Parameters op_Annotations op_Method]. rewrite Ha.
    destruct (op_InputSchema o) as [s|]; [done|].
    by destruct (SynthesizeInputSchema (p :: ps)) eqn:Hs.
Qed.
End schemas.

(** ** An operation with two parameters *)

Definition sample_parameter (name type : string) (required : bool) : CatalogParameter :=
  {| param_Name := name; param_WireName := ""; param_Type := type; param_Location := "query";
     param_Description := "d"; param_Required := required; param_Internal := false; param_Default := ANil |}.

Lemma schema_round_trip_witness :
  ∃ out, parametersFromInputSchema (λ s, s)
           (λ _, Some (readable (inputSchema (λ s, s) [sample_parameter "to" "array<string>" true;
                                                       sample_parameter "limit" "int" false]))) (Some "{..}") = out
    ∧ map param_Name out = ["limit"; "to"] ∧ map param_Type out = ["integer"; "array"]
    ∧ Sorted String.le (map param_Name out).
Proof.
  eexists. split; [reflexivity|]. split; [by vm_compute|]. split; [by vm_compute|].
  apply (schema_round_trip (λ s, s) (λ _, Some "{..}")
           (λ _, Some (readable (inputSchema (λ s, s) [sample_parameter "to" "array<string>" true;
                                                       sample_parameter "limit" "int" false])))
           [sample_parameter "to" "array<string>" true; sample_parameter "limit" "int" false]);
    [done|by apply (bool_decide_unpack _); vm_compute|done|done|done|done].
Defined.

End Schemas.
