(* ===== verification/CatalogResolution.v ===== *)
(** * CatalogResolution: which operations an app has for a caller

    Models [gestaltd/services/invocation/catalog.go] and [catalog_selectors.go]: an app has a
    static catalog, and may have a catalog of its own for every session.  Listings merge the
    two ([resolveCatalog], [ResolveCatalogForTargetsWithMetadata]); a call looks up the one
    operation it names ([ResolveOperation]).  The connections that are tried come from
    [CatalogSelectorConfig].

    The token of a session comes from a [TokenResolver], which works on a state [World] of
    its own; [BrokerCredentials.ResolveToken] is one.  [Text] is the text of an error, [ToLower] and
    [ToUpper] need the Unicode tables, the JSON of schemas is the pair of functions of
    Schemas. *)

From stdpp Require Import base gmap strings list sorting sets.
From Stdlib Require Import ZArith Ascii Lia.
From S2P Require Import Prelude Catalog TurnScope Principals Permissions InvocationContext BrokerCredentials Schemas.

Set Default Goal Selector "!".

Module CatalogResolution.
Import Catalog Principals Permissions InvocationContext Schemas.
Import (hints) BrokerCredentials.

(** [strings.Contains] *)
Definition Contains (s sub : string) : bool :=
  match String.index 0 sub s with Some _ => true | None => false end.

(** ** Connections to try *)

Record CatalogSelectorConfig := {
  (** [MCPConnection] of the invoker, when it has that method. *)
  cs_InvokerMCPConnection : option (string → string);
  cs_CatalogConnection : gmap string string;
  cs_MCPConnection : gmap string string;
  cs_DefaultConnection : gmap string string;
  cs_Overrides : ConnectionOverrides }.

Definition catalogConnection (cfg : CatalogSelectorConfig) (providerName : string) : string :=
  ConnectionNameFor (cs_Overrides cfg) ConnectionSurfaceAPI (cs_CatalogConnection cfg) providerName.
Definition selectorMCPConnection (cfg : CatalogSelectorConfig) (providerName : string) : string :=
  ConnectionNameFor (cs_Overrides cfg) ConnectionSurfaceMCP (cs_MCPConnection cfg) providerName.
Definition defaultConnection (cfg : CatalogSelectorConfig) (providerName : string) : string :=
  ConnectionNameFor (cs_Overrides cfg) ConnectionSurfaceDefault (cs_DefaultConnection cfg) providerName.

Definition APICatalogConnections (cfg : CatalogSelectorConfig) (providerName explicit : string) : list string :=
  if negb (bool_decide (explicit = "")) then [ResolveConnectionAlias explicit]
  else
    let catalogConn := catalogConnection cfg providerName in
    let defaultConn := defaultConnection cfg providerName in
    let connections := if negb (bool_decide (catalogConn = "")) then [catalogConn]
                       else if negb (bool_decide (defaultConn = "")) then [defaultConn] else [] in
    let connections := if negb (bool_decide (defaultConn = "")) && negb (bool_decide (head connections = Some defaultConn))
                          && bool_decide (catalogConn = "")
                       then connections ++ [defaultConn] else connections in
    match connections with [] => [""] | _ => connections end.

Definition SessionCatalogConnections (cfg : CatalogSelectorConfig) (providerName explicit : string) : list string :=
  if negb (bool_decide (explicit = "")) then [ResolveConnectionAlias explicit]
  else
    let own := selectorMCPConnection cfg providerName in
    if negb (bool_decide (own = "")) then [own]
    else
      let invokers := match cs_InvokerMCPConnection cfg with Some f => f providerName | None => "" end in
      if negb (bool_decide (invokers = "")) then [invokers]
      else let conn := defaultConnection cfg providerName in
           if negb (bool_decide (conn = "")) then [conn] else [""].

Definition targetsOf (connections : list string) (instance : string) : list BrokerCredentials.CatalogResolutionTarget :=
  map (λ connection, {| BrokerCredentials.ct_Connection := connection; BrokerCredentials.ct_Instance := instance |}) connections.
Definition APICatalogTargets cfg (providerName explicit instance : string) :=
  targetsOf (APICatalogConnections cfg providerName explicit) instance.
Definition SessionCatalogTargets cfg (providerName explicit instance : string) :=
  targetsOf (SessionCatalogConnections cfg providerName explicit) instance.

(** ** Errors of session catalogs *)

Section errors.
  Context {E : Type} (ToLower : string → string) (Text : Error E → string).

Definition sessionCatalogAuthFailure (err : Error E) : bool :=
  let msg := ToLower (Text err) in
  Contains msg "unauthorized" || Contains msg "(401)" || Contains msg " 401 " || Contains msg "forbidden"
  || Contains msg "(403)" || Contains msg " 403 " || Contains msg "authorization required".

Definition ClassifySessionCatalogError (err : Error E) : Error E :=
  match rootCause err with
  | Wraps ErrNoCredential | Wraps ErrReconnectRequired => err
  | _ => if sessionCatalogAuthFailure err then Wraps ErrReconnectRequired else err
  end.

(** [errors.Is(err, core.ErrSessionCatalogUnavailable)], and [..Unsupported]. *)
Definition catalogUnavailable (err : Error E) : bool :=
  match err with SessionUnavailable _ _ => true | _ => false end.
Fixpoint sessionCatalogUnsupported (err : Error E) : bool :=
  match err with
  | SessionUnavailable unsupported cause =>
      unsupported || match cause with Some cause => sessionCatalogUnsupported cause | None => false end
  | _ => false
  end.
End errors.

(** ** Catalogs *)

Section resolution.
  Context {E P R World : Type}.
  Context (ToLower ToUpper : string → string) (Text : Error E → string)
          (Marshal : InputSchema → option string) (Unmarshal : string → option topLevelInputSchema).
  Abbreviation Provider := (InvocationContext.Provider E P R).
  Abbreviation TokenResolver :=
    (Context → option Principal → string → string → string → World → Context * result (Error E) string * World).
  Abbreviation CompileSchemas := (CompileSchemas ToLower ToUpper Marshal Unmarshal).
  Abbreviation compileOperation := (compileOperation ToLower ToUpper Marshal Unmarshal).
  Implicit Types (ctx : Context) (prov : Provider) (resolver : option TokenResolver) (p : option Principal) (w : World).

Record CatalogResolutionMetadata := { md_SessionAttempted : bool; md_SessionFailed : bool }.

Definition withoutCredential (connection instance : string) : CredentialContext :=
  {| cc_Mode := TurnScope.ConnectionModeNone; cc_SubjectID := ""; cc_Connection := connection; cc_Instance := instance |}.

(** The catalog, and whether it was asked for. *)
Definition resolveSessionCatalog ctx prov (provName : string) resolver p (connection instance : string) w
    : result (Error E) (option Catalog) * bool * World :=
  let asked :=
    match resolver, p with
    | Some resolve, Some _ =>
        let '(ctx, res, w) := resolve ctx p provName connection instance w in
        match res with
        | Err e => Some (Err e, true, w)
        | Ok token => Some ((CatalogForRequest ctx prov token).2, true, w)
        end
    | _, _ => None
    end in
  if negb (SupportsSessionCatalog (Some prov)) then (Ok None, false, w)
  else if decide (CredentialModeOverrideFromContext ToLower ctx = TurnScope.ConnectionModeNone) then
    let ctx := WithCredentialContext ctx (withoutCredential (TrimSpace connection) (TrimSpace instance)) in
    ((CatalogForRequest ctx prov "").2, true, w)
  else if decide (effectiveConnectionMode ToLower ctx (Some prov) = TurnScope.ConnectionModeNone) then
    match asked with
    | Some answer => answer
    | None => ((CatalogForRequest (WithCredentialContext ctx (withoutCredential "" "")) prov "").2, true, w)
    end
  else match asked with Some answer => answer | None => (Ok None, false, w) end.

(** The position of the last operation with an id. *)
Definition staticIndexes (ops : list CatalogOperation) : gmap string nat :=
  foldl (λ m io, <[op_ID io.2 := io.1]> m) ∅ (imap pair ops).

Definition mergeOperations (static session : list CatalogOperation) : list CatalogOperation :=
  foldl (λ merged o, match staticIndexes static !! op_ID o with
                     | Some idx => <[idx := o]> merged
                     | None => merged ++ [o]
                     end) static session.

Definition mergeCatalogs (staticCat sessionCat : option Catalog) : result (Error E) Catalog :=
  match staticCat, sessionCat with
  | None, None => Err Unspecific
  | Some c, None | None, Some c => Ok (CompileSchemas (Clone c))
  | Some c, Some s => Ok (CompileSchemas (set_Operations (Clone c)
                            (mergeOperations (cat_Operations (Clone c)) (cat_Operations s))))
  end.

Definition resolveCatalog ctx prov (provName : string) resolver p (connection instance : string) (strictSession : bool) w
    : result (Error E) Catalog * CatalogResolutionMetadata * World :=
  let staticCat := pv_Catalog prov in
  let '(session, attempted, w) := resolveSessionCatalog ctx prov provName resolver p connection instance w in
  match session with
  | Err e =>
      let meta := {| md_SessionAttempted := attempted; md_SessionFailed := true |} in
      if strictSession || bool_decide (staticCat = None)
      then (Err (ClassifySessionCatalogError ToLower Text e), meta, w)
      else (mergeCatalogs staticCat None, meta, w)
  | Ok sessionCat =>
      (mergeCatalogs staticCat sessionCat, {| md_SessionAttempted := attempted; md_SessionFailed := false |}, w)
  end.

(** The loop over the targets: the first catalog, or what was seen of the failures. *)
Fixpoint firstCatalog ctx prov (provName : string) resolver p (strictSession : bool)
    (targets : list BrokerCredentials.CatalogResolutionTarget)
    (firstErr : option (Error E)) (attempted sawUnavailable : bool) w
    : (Catalog * CatalogResolutionMetadata + option (Error E) * bool * bool) * World :=
  match targets with
  | [] => (inr (firstErr, attempted, sawUnavailable), w)
  | target :: targets =>
      let '(res, meta, w) := resolveCatalog ctx prov provName resolver p (BrokerCredentials.ct_Connection target)
                               (BrokerCredentials.ct_Instance target) strictSession w in
      match res with
      | Ok cat => (inl (cat, meta), w)
      | Err e => firstCatalog ctx prov provName resolver p strictSession targets
                   (match firstErr with Some _ => firstErr | None => Some e end)
                   (attempted || md_SessionAttempted meta) (sawUnavailable || catalogUnavailable e) w
      end
  end.

Definition ResolveCatalogForTargetsWithMetadata ctx prov (provName : string) resolver p
    (targets : list BrokerCredentials.CatalogResolutionTarget) (strictSession : bool) w
    : result (option (Error E)) Catalog * CatalogResolutionMetadata * World :=
  let targets := match targets with
                 | [] => [{| BrokerCredentials.ct_Connection := ""; BrokerCredentials.ct_Instance := "" |}]
                 | _ => targets
                 end in
  let '(found, w) := firstCatalog ctx prov provName resolver p strictSession targets None false false w in
  match found with
  | inl (cat, meta) => (Ok cat, meta, w)
  | inr (firstErr, attempted, sawUnavailable) =>
      let meta := {| md_SessionAttempted := attempted; md_SessionFailed := bool_decide (is_Some firstErr) |} in
      match pv_Catalog prov with
      | Some staticCat => if bool_decide (is_Some firstErr) && sawUnavailable
                          then (Ok (Clone staticCat), {| md_SessionAttempted := attempted; md_SessionFailed := true |}, w)
                          else (Err firstErr, meta, w)
      | None => (Err firstErr, meta, w)
      end
  end.

(** ** Operations *)

Fixpoint sessionOperation ctx prov (provName : string) resolver p (operation instance : string)
    (connections : list string) (firstErr : option (Error E)) (resolved : bool) w
    : result (Error E) (option (CatalogOperation * string)) * World :=
  match connections with
  | [] => (match firstErr with
           | Some e => if resolved then Ok None else Err e
           | None => Ok None
           end, w)
  | connection :: connections =>
      let '(res, attempted, w) := resolveSessionCatalog ctx prov provName resolver p connection instance w in
      match res with
      | Err e => sessionOperation ctx prov provName resolver p operation instance connections
                   (match firstErr with Some _ => firstErr | None => Some (ClassifySessionCatalogError ToLower Text e) end)
                   resolved w
      | Ok cat =>
          if negb attempted || match cat with None => true | Some _ => false end then
            sessionOperation ctx prov provName resolver p operation instance connections firstErr resolved w
          else match OperationByID cat operation with
               | Some op => (Ok (Some (op, connection)), w)
               | None => sessionOperation ctx prov provName resolver p operation instance connections firstErr true w
               end
      end
  end.

Definition resolveSessionOperation ctx prov (provName : string) resolver p (operation : string)
    (connections : list string) (instance : string) w : result (Error E) (option (CatalogOperation * string)) * World :=
  sessionOperation ctx prov provName resolver p operation instance
    (match connections with [] => [""] | _ => connections end) None false w.
(** The operation with its transport and the connection it was found on. *)
Definition ResolveOperation ctx prov (provName : string) resolver p (operation : string)
    (sessionConnections : list string) (instance : string) w
    : result (Error E) (CatalogOperation * string * string) * World :=
  let found (op : CatalogOperation) (connection : string) :=
    Ok (op, OperationTransport op, connection) : result (Error E) (CatalogOperation * string * string) in
  match CatalogOperationFromContext ctx provName operation with
  | Some op => (found op (ConnectionFromContext ctx), w)
  | None =>
      let staticOp := OperationByID (pv_Catalog prov) operation in
      let requestOp := match staticOp, pv_ResolveStaticOperationForRequest prov with
                       | Some _, Some resolve => resolve ctx operation
                       | _, _ => None
                       end in
      match requestOp with
      | Some op => (found op "", w)
      | None =>
          if negb (SupportsSessionCatalog (Some prov)) then
            (match staticOp with
             | Some op => found op ""
             | None =>
                 if bool_decide (is_Some (pv_ResolveStaticOperationForRequest prov)) then Err (Wraps ErrOperationNotFound)
                 else if providerDelegatesRemoteAuthorization (Some prov)
                 then Ok (zero_operation operation, TransportApp, "")
                 else Err (Wraps ErrOperationNotFound)
             end, w)
          else
            let '(res, w) := resolveSessionOperation ctx prov provName resolver p operation sessionConnections instance w in
            (match res with
             | Err e => match staticOp with
                        | Some op => if sessionCatalogUnsupported e then found op "" else Err e
                        | None => Err e
                        end
             | Ok (Some (op, connection)) => found op connection
             | Ok None => match staticOp with
                          | Some op => if decide (instance = "") then found op "" else Err (Wraps ErrOperationNotFound)
                          | None => Err (Wraps ErrOperationNotFound)
                          end
             end, w)
      end
  end.
End resolution.

Section connections.
  Context {E P R : Type}.
  Implicit Types (prov : InvocationContext.Provider E P R) (params : P).

Definition ResolveOperationConnection prov (operation : string) params : result (Error E) string :=
  match pv_ResolveConnectionForOperation prov with
  | Some resolve => match resolve operation params with
                    | Ok connection => Ok connection
                    | Err _ => Err (Wraps ErrInvalidInvocation)
                    end
  | None => Ok (pv_ConnectionForOperation prov operation)
  end.

Definition OperationConnectionOverrideAllowed prov (operation : string) params : bool :=
  match pv_OperationConnectionOverrideAllowed prov with
  | Some allowed => allowed operation params
  | None => false
  end
  || match OperationByID (pv_Catalog prov) operation with
     | Some op => bool_decide (OperationTransport op = TransportApp)
     | None => false
     end.
End connections.

(** ** What merging two catalogs gives *)

Definition opFind (id : string) (ops : list CatalogOperation) : option CatalogOperation :=
  List.find (λ o, bool_decide (op_ID o = id)) ops.

Lemma opFind_app id ops1 ops2 :
  opFind id (ops1 ++ ops2) = match opFind id ops1 with Some o => Some o | None => opFind id ops2 end.
Proof. unfold opFind. induction ops1 as [|o ops1 IH]; [done|]. cbn. by case_bool_decide. Qed.

Lemma opFind_Some id ops o : opFind id ops = Some o → o ∈ ops ∧ op_ID o = id.
Proof.
  unfold opFind. intros H. apply List.find_some in H as [Hin Hb].
  split; [by apply list_elem_of_In|by apply bool_decide_eq_true in Hb].
Qed.

Lemma opFind_None id ops : opFind id ops = None ↔ id ∉ map op_ID ops.
Proof.
  unfold opFind. induction ops as [|o ops IH]; [split; [intros _ H; by apply elem_of_nil in H|done]|].
  cbn [List.find map]. case_bool_decide as Hid.
  - split; [done|]. intros H. exfalso. apply H. by apply elem_of_cons; left.
  - rewrite IH, not_elem_of_cons. naive_solver.
Qed.

Lemma opFind_map (f : CatalogOperation → CatalogOperation) id ops :
  (∀ o, op_ID (f o) = op_ID o) → opFind id (map f ops) = f <$> opFind id ops.
Proof. intros Hf. unfold opFind. induction ops as [|o ops IH]; [done|]. cbn. rewrite Hf. by case_bool_decide. Qed.

Lemma opFind_filter (q : CatalogOperation → bool) id ops :
  (∀ o, op_ID o = id → q o = true) → opFind id (List.filter q ops) = opFind id ops.
Proof.
  intros Hq. unfold opFind. induction ops as [|o ops IH]; [done|]. cbn. destruct (q o) eqn:Ho; cbn.
  - by case_bool_decide.
  - rewrite IH. case_bool_decide as Hid; [|done]. by rewrite Hq in Ho.
Qed.

Lemma staticIndexes_spec (ops : list CatalogOperation) id :
  match staticIndexes ops !! id with
  | Some i => ∃ s, ops !! i = Some s ∧ op_ID s = id
  | None => id ∉ map op_ID ops
  end.
Proof.
  induction ops as [|o ops IH] using rev_ind; [unfold staticIndexes; cbn; rewrite lookup_empty; apply not_elem_of_nil|].
  unfold staticIndexes in *. rewrite imap_app, foldl_app. cbn [imap foldl fst snd].
  destruct (decide (op_ID o = id)) as [<-|Hne].
  - rewrite lookup_insert_eq. exists o. split; [|done]. rewrite ?Nat.add_0_r. by apply list_lookup_middle.
  - rewrite lookup_insert_ne by done. destruct (foldl _ _ _ !! id) as [i|].
    + destruct IH as (s & Hs & Hid). exists s. split; [|done]. by apply lookup_app_l_Some.
    + rewrite map_app, elem_of_app. cbn [map]. rewrite list_elem_of_singleton. naive_solver.
Qed.

(** Session operations replace static ones in place; the others follow. *)
Lemma mergeOperations_form static session :
  NoDup (map op_ID static) → NoDup (map op_ID session) →
  mergeOperations static session
  = map (λ s, default s (opFind (op_ID s) session)) static
    ++ List.filter (λ o, negb (contains (map op_ID static) (op_ID o))) session.
Proof.
  intros Hst. induction session as [|o session IH] using rev_ind.
  - intros _. cbn. rewrite app_nil_r. symmetry. apply map_id.
  - rewrite map_app. cbn [map]. intros (Hse & Hno & _)%NoDup_app. unfold mergeOperations in *.
    rewrite foldl_app. cbn [foldl]. rewrite IH by done. rewrite List.filter_app. cbn [List.filter].
    assert (opFind (op_ID o) session = None) as Hnone.
    { apply opFind_None. intros Hin. apply (Hno _ Hin). by apply list_elem_of_singleton. }
    pose proof (staticIndexes_spec static (op_ID o)) as Hidx.
    destruct (staticIndexes static !! op_ID o) as [i|].
    + destruct Hidx as (s & Hs & Hid).
      rewrite (proj2 (contains_spec (map op_ID static) (op_ID o))).
      2: { rewrite <- Hid. apply list_elem_of_fmap_2. by eapply list_elem_of_lookup_2. }
      cbn [negb]. rewrite app_nil_r, insert_app_l by (rewrite length_map; by eapply lookup_lt_Some). f_equal.
      apply list_eq. intros j. destruct (decide (i = j)) as [<-|Hij].
      * rewrite list_lookup_insert_eq by (rewrite length_map; by eapply lookup_lt_Some).
        rewrite list_lookup_fmap, Hs. cbn. rewrite opFind_app, Hid, Hnone. cbn. by rewrite bool_decide_true.
      * rewrite list_lookup_insert_ne by done. rewrite !list_lookup_fmap.
        destruct (static !! j) as [s'|] eqn:Hs'; [|done]. cbn. f_equal. rewrite opFind_app.
        destruct (opFind (op_ID s') session); [done|]. cbn. rewrite bool_decide_false; [done|].
        intros Heq. apply Hij. eapply (NoDup_lookup (map op_ID static));
          [done|by rewrite list_lookup_fmap, Hs|rewrite list_lookup_fmap, Hs'; cbn; congruence].
    + rewrite (proj2 (contains_false (map op_ID static) (op_ID o)) Hidx). cbn [negb]. rewrite app_assoc. f_equal. f_equal.
      apply map_ext_in. intros s Hs%list_elem_of_In. f_equal. rewrite opFind_app.
      destruct (opFind (op_ID s) session); [done|]. cbn. rewrite bool_decide_false; [done|].
      intros Heq. apply Hidx. rewrite Heq. by apply list_elem_of_fmap_2.
Qed.

Lemma mergeOperations_find static session id :
  NoDup (map op_ID static) → NoDup (map op_ID session) →
  opFind id (mergeOperations static session)
  = match opFind id session with Some o => Some o | None => opFind id static end.
Proof.
  intros Hst Hse. rewrite mergeOperations_form, opFind_app by done.
  set (f := λ s, default s (opFind (op_ID s) session)).
  rewrite (opFind_map f).
  2: { intros s. unfold f. destruct (opFind (op_ID s) session) as [o|] eqn:Ho; [|done].
       by apply opFind_Some in Ho as [_ Ho]. }
  destruct (opFind id static) as [s|] eqn:Hs; cbn.
  - apply opFind_Some in Hs as [_ <-]. unfold f. by destruct (opFind (op_ID s) session).
  - rewrite opFind_filter; [by destruct (opFind id session)|]. intros o <-.
    apply opFind_None in Hs. by rewrite (proj2 (contains_false _ _) Hs).
Qed.

Definition distinct (c : option Catalog) : Prop :=
  match c with Some c => NoDup (map op_ID (cat_Operations c)) | None => True end.

Lemma OperationByID_opFind c id :
  OperationByID (Some c) id = if decide (TrimSpace id = "") then None else opFind id (cat_Operations c).
Proof. done. Qed.

Section resolved.
  Context {E P R World : Type}.
  Context (ToLower ToUpper : string → string) (Text : Error E → string)
          (Marshal : InputSchema → option string) (Unmarshal : string → option topLevelInputSchema).
  Abbreviation Provider := (InvocationContext.Provider E P R).
  Abbreviation TokenResolver :=
    (Context → option Principal → string → string → string → World → Context * result (Error E) string * World).
  Implicit Types (ctx : Context) (prov : Provider) (resolver : option TokenResolver) (p : option Principal) (w : World).
  Abbreviation compileOperation := (Schemas.compileOperation ToLower ToUpper Marshal Unmarshal).
  Abbreviation mergeCatalogs := (mergeCatalogs (E := E) ToLower ToUpper Marshal Unmarshal).
  Abbreviation resolveCatalog := (resolveCatalog ToLower ToUpper Text Marshal Unmarshal).
  Abbreviation ResolveOperation := (ResolveOperation ToLower Text).
  Abbreviation resolveSessionCatalog := (resolveSessionCatalog ToLower).

Lemma mergeCatalogs_find static session cat id :
  mergeCatalogs static session = Ok cat → distinct static → distinct session →
  OperationByID (Some cat) id
  = compileOperation <$> match OperationByID session id with Some o => Some o | None => OperationByID static id end.
Proof.
  intros Hm Hst Hse. assert (∀ ops, opFind id (map compileOperation ops) = compileOperation <$> opFind id ops) as Hf.
  { intros ops. by apply opFind_map. }
  destruct static as [c|], session as [s|]; unfold CatalogResolution.mergeCatalogs in Hm; rewrite ?Clone_id in Hm;
    [| | |done]; injection Hm as <-;
    rewrite ?OperationByID_opFind; cbn [OperationByID]; unfold CompileSchemas;
    cbn [cat_Operations set_Operations]; rewrite ?Clone_id;
    (destruct (decide (TrimSpace id = "")); [done|]); rewrite Hf; f_equal.
  - by apply mergeOperations_find.
  - by change (List.find _ (cat_Operations s)) with (opFind id (cat_Operations s)); destruct (opFind id (cat_Operations s)).
Qed.

(** A session catalog comes from the provider. *)
Lemma resolveSessionCatalog_some ctx prov provName resolver p connection instance w c attempted w' :
  resolveSessionCatalog ctx prov provName resolver p connection instance w = (Ok (Some c), attempted, w') →
  attempted = true ∧ SupportsSessionCatalog (Some prov) = true
  ∧ ∃ ctx token, (CatalogForRequest ctx prov token).2 = Ok (Some c).
Proof.
  unfold CatalogResolution.resolveSessionCatalog. cbn zeta.
  destruct (SupportsSessionCatalog (Some prov)) eqn:Hs; cbn [negb]; [|done].
  assert (∀ o, (match resolver, p with
    | Some resolve, Some _ =>
        let '(ctx, res, w) := resolve ctx p provName connection instance w in
        match res with
        | Err e => Some (Err e, true, w)
        | Ok token => Some ((CatalogForRequest ctx prov token).2, true, w)
        end
    | _, _ => None
    end) = Some o → o = (Ok (Some c), attempted, w') →
    attempted = true ∧ true = true ∧ ∃ ctx token, (CatalogForRequest ctx prov token).2 = Ok (Some c)) as Hasked.
  { intros o Ho ->. destruct resolver as [resolve|]; [|done]. destruct p as [q|]; [|done].
    destruct (resolve ctx (Some q) provName connection instance w) as [[ctx' [token|e]] w1]; [|done].
    injection Ho as Hc <- <-. eauto. }
  destruct (decide (CredentialModeOverrideFromContext _ _ = _)); [intros [= Hc <- <-]; eauto|].
  destruct (decide (effectiveConnectionMode _ _ _ = _)).
  - destruct (match resolver with Some _ => _ | None => _ end) as [o|]; [intros Ho; by eapply Hasked|].
    intros [= Hc <- <-]. eauto.
  - destruct (match resolver with Some _ => _ | None => _ end) as [o|]; [intros Ho; by eapply Hasked|done].
Qed.

(** The lookup of a call among the operations of one session. *)
Lemma resolveSessionOperation_one ctx prov provName resolver p operation connection instance w res attempted w' :
  resolveSessionCatalog ctx prov provName resolver p connection instance w = (Ok res, attempted, w') →
  resolveSessionOperation ToLower Text ctx prov provName resolver p operation [connection] instance w
  = (Ok ((λ o, (o, connection)) <$> OperationByID res operation), w').
Proof.
  intros H. unfold resolveSessionOperation. cbn [sessionOperation]. rewrite H. destruct res as [c|].
  - apply resolveSessionCatalog_some in H as (-> & _ & _). cbn [negb orb]. by destruct (OperationByID (Some c) operation).
  - by rewrite orb_true_r.
Qed.

(** C32. What is listed is what is called, for a provider that resolves no operation itself
    for a request, does not delegate to a remote one and whose catalogs name each operation
    once.  For a single connection, no explicit instance and no operation fixed by the
    context, if the session of the listing did not fail, then its merged catalog has an
    operation exactly when a call of it resolves, and it is the one the call resolves to,
    schemas filled in; the session is asked the same way, with the same effect.  (Providers
    with static resolution for a request, remote ones, which pass unlisted operations
    through, failed sessions and several targets are outside the theorem.) *)
Theorem listed_is_resolved ctx prov provName resolver p connection strict operation w cat meta w' :
  CatalogOperationFromContext ctx provName operation = None →
  pv_ResolveStaticOperationForRequest prov = None → providerDelegatesRemoteAuthorization (Some prov) = false →
  distinct (pv_Catalog prov) →
  (∀ ctx token c, (CatalogForRequest ctx prov token).2 = Ok (Some c) → distinct (Some c)) →
  resolveCatalog ctx prov provName resolver p connection "" strict w = (Ok cat, meta, w') →
  md_SessionFailed meta = false →
  match ResolveOperation ctx prov provName resolver p operation [connection] "" w with
  | (Ok (op, transport, _), w2) =>
      w2 = w' ∧ OperationByID (Some cat) operation = Some (compileOperation op) ∧ transport = OperationTransport op
  | (Err e, w2) => w2 = w' ∧ OperationByID (Some cat) operation = None ∧ e = Wraps ErrOperationNotFound
  end.
Proof.
  intros Hctx Hreq Hrem Hst Hdistinct Hcat Hok. unfold CatalogResolution.resolveCatalog in Hcat.
  destruct (resolveSessionCatalog _ _ _ _ _ _ _ _) as [[res attempted] w1] eqn:Hs.
  destruct res as [session|e].
  2: { destruct (strict || _); injection Hcat as _ <- _; done. }
  injection Hcat as Hmerge _ <-.
  assert (distinct session) as Hse.
  { destruct session as [c|]; [|done]. apply resolveSessionCatalog_some in Hs as (_ & _ & c' & token & H). eauto. }
  rewrite (mergeCatalogs_find _ _ _ operation Hmerge Hst Hse).
  unfold CatalogResolution.ResolveOperation. cbn zeta. rewrite Hctx, Hreq.
  assert (match OperationByID (pv_Catalog prov) operation with Some _ => None | None => None (A := CatalogOperation) end
          = None) as -> by (by destruct (OperationByID (pv_Catalog prov) operation)).
  destruct (SupportsSessionCatalog (Some prov)) eqn:Hsup; cbn [negb].
  - rewrite (resolveSessionOperation_one _ _ _ _ _ operation _ _ _ _ _ _ Hs).
    destruct (OperationByID session operation) as [o|]; [done|]. cbn [fmap option_fmap option_map].
    by destruct (OperationByID (pv_Catalog prov) operation).
  - unfold CatalogResolution.resolveSessionCatalog in Hs. rewrite Hsup in Hs. injection Hs as <- <- <-.
    cbn [OperationByID]. destruct (OperationByID (pv_Catalog prov) operation); [done|].
    rewrite Hrem. done.
Qed.
End resolved.

(** ** An app whose sessions add an operation and change another *)

Definition titled (id title : string) : CatalogOperation :=
  {| op_ID := id; op_ProviderID := ""; op_Method := "GET"; op_Path := ""; op_Title := title;
     op_Description := ""; op_InputSchema := None; op_OutputSchema := None; op_Response := None;
     op_Annotations := no_annotations; op_AllowedRoles := []; op_Parameters := []; op_RequiredScopes := [];
     op_Tags := []; op_ReadOnly := false; op_Visible := None; op_API := None; op_MCP := None;
     op_Transport := ""; op_Query := ""; op_OperationName := "" |}.

Definition static_catalog : Catalog := set_Operations Catalog.sample_catalog [titled "list" "all"; titled "get" "one"].
Definition session_catalog : Catalog := set_Operations Catalog.sample_catalog [titled "get" "yours"; titled "send" "new"].

Definition session_provider : InvocationContext.Provider unit unit unit :=
  {| pv_Name := "mail"; pv_ConnectionMode := "subject"; pv_ConnectionForOperation _ := "";
     pv_Catalog := Some static_catalog; pv_Execute _ _ _ _ := tt;
     pv_DefaultAppAccessOperations := None; pv_SupportsSessionCatalog := Some true;
     pv_CatalogForRequest := Some (λ _ token, if decide (token = "t0k") then Ok (Some session_catalog)
                                              else Err (Foreign tt));
     pv_RemoteCredentialDelegated := None; pv_ResolveStaticOperationForRequest := None;
     pv_ResolveConnectionForOperation := None; pv_OperationConnectionOverrideAllowed := None;
     pv_ExecuteStream := None; pv_InvokeGraphQL := None; pv_StaticHeaders := None |}.

(** Every token counts. *)
Definition counting (ctx : Context) (p : option Principal) (provName connection instance : string) (w : nat)
    : Context * result (Error unit) string * nat := (ctx, Ok "t0k", S w).

Definition listing : result (Error unit) Catalog * CatalogResolutionMetadata * nat :=
  resolveCatalog (λ s, s) (λ s, s) (λ _, "") (λ _, None) (λ _, None) [] session_provider "mail" (Some counting)
    (Some (subject_principal "user:u1")) "" "" false 0.

Lemma listed_is_resolved_witness :
  ∃ cat, listing.1.1 = Ok cat ∧ map (λ o, (op_ID o, op_Title o)) (cat_Operations cat)
                               = [("list", "all"); ("get", "yours"); ("send", "new")]
    ∧ ∃ op, (ResolveOperation (λ s, s) (λ _, "") [] session_provider "mail" (Some counting)
               (Some (subject_principal "user:u1")) "get" [""] "" 0) = (Ok (op, "rest", ""), 1)
        ∧ OperationByID (Some cat) "get" = Some (compileOperation (λ s, s) (λ s, s) (λ _, None) (λ _, None) op).
Proof.
  destruct listing as [[res meta] w'] eqn:H. destruct res as [cat|e]; [|by vm_compute in H].
  exists cat. split; [done|]. split.
  { assert (match listing.1.1 with Ok cat => map (λ o, (op_ID o, op_Title o)) (cat_Operations cat)
                               = [("list", "all"); ("get", "yours"); ("send", "new")] | Err _ => False end) as Hc
      by (by vm_compute). by rewrite H in Hc. }
  exists (titled "get" "yours"). split; [by vm_compute|].
  assert (md_SessionFailed meta = false) as Hok.
  { assert (md_SessionFailed listing.1.2 = false) as Hm by (by vm_compute). by rewrite H in Hm. }
  pose proof (listed_is_resolved (λ s, s) (λ s, s) (λ _, "") (λ _, None) (λ _, None) [] session_provider "mail"
    (Some counting) (Some (subject_principal "user:u1")) "" false "get" 0 cat meta w') as Hthm.
  specialize (Hthm eq_refl eq_refl eq_refl).
  assert (ResolveOperation (λ s, s) (λ _, "") [] session_provider "mail" (Some counting)
            (Some (subject_principal "user:u1")) "get" [""] "" 0 = (Ok (titled "get" "yours", "rest", ""), 1)) as Hr
    by (by vm_compute).
  rewrite Hr in Hthm. apply Hthm; [by apply (bool_decide_unpack _); vm_compute| |exact H|exact Hok].
  intros ctx token c Hc. cbn in Hc. destruct (decide (token = "t0k")); [|done]. injection Hc as <-.
  by apply (bool_decide_unpack _); vm_compute.
Defined.

End CatalogResolution.
