(* ===== verification/GraphQL.v ===== *)
(** * GraphQL: raw queries and the operations of the catalog

    Models [gestaltd/services/invocation/operation_graphql.go]: a raw GraphQL request is
    reduced to the root fields it selects, through aliases and fragments, and every cataloged
    operation with one of these fields must admit the caller.

    The parser is third-party code: [ParseGraphqlDocumentString] is a parameter, and
    [Document] holds the arrays of its syntax tree the code walks.  The walk goes into
    fragments, each at most once on a path, and is run on fuel; [graphqlRootFields_total]
    shows the fuel suffices for every tree, so that running out is never observed. *)

From stdpp Require Import base gmap strings list sets.
From Stdlib Require Import ZArith Ascii Lia.
From S2P Require Import Prelude Catalog Principals Permissions InvocationContext InvocationAuth.

Set Default Goal Selector "!".

Module GraphQL.
Import Catalog Principals Permissions InvocationContext InvocationAuth.

(** ** Documents *)

(** References are signed integers, which the code checks against the arrays. *)
Inductive SelectionKind := SelectionKindField | SelectionKindInlineFragment | SelectionKindFragmentSpread | SelectionKindOther.
Record OperationDefinition := { df_Name : string; df_OperationType : Z; df_SelectionSet : Z }.
Record Fragment := { fg_HasSelections : bool; fg_SelectionSet : Z }.

Record Document := {
  doc_OperationDefinitions : list OperationDefinition;
  doc_SelectionSets : list (list Z);
  doc_Selections : list (SelectionKind * Z);
  doc_Fields : list string;
  doc_InlineFragments : list Fragment;
  doc_FragmentSpreads : list string;
  doc_FragmentDefinitionRef : string → option Z;
  doc_FragmentDefinitions : list Fragment }.

Definition at_ref {A} (l : list A) (ref : Z) : option A := if (ref <? 0)%Z then None else l !! Z.to_nat ref.

Definition graphqlRootField : Type := Z * string.

(** An error of the document, or a walk that did not end within its fuel. *)
Inductive DocumentError := Invalid | OutOfFuel.

Section document.
  Context (doc : Document).

Definition selectGraphQLOperation (operationName : string) : result DocumentError OperationDefinition :=
  if negb (bool_decide (operationName = "")) then
    match List.find (λ d, bool_decide (df_Name d = operationName)) (doc_OperationDefinitions doc) with
    | Some d => Ok d
    | None => Err Invalid
    end
  else match doc_OperationDefinitions doc with [d] => Ok d | _ => Err Invalid end.

(** The walk over one selection, given the walk over a selection set. *)
Definition collectSelection (operationType : Z)
    (walk : gset Z → Z → gset graphqlRootField → result DocumentError (gset graphqlRootField))
    (visiting : gset Z) (ref : Z) (fields : gset graphqlRootField) : result DocumentError (gset graphqlRootField) :=
  match at_ref (doc_Selections doc) ref with
  | None => Err Invalid
  | Some (SelectionKindField, ref) =>
      match at_ref (doc_Fields doc) ref with
      | Some name => fail_if bool_decide (name = "") with Invalid ;; Ok ({[(operationType, name)]} ∪ fields)
      | None => Err Invalid
      end
  | Some (SelectionKindInlineFragment, ref) =>
      match at_ref (doc_InlineFragments doc) ref with
      | Some f => fail_if negb (fg_HasSelections f) with Invalid ;; walk visiting (fg_SelectionSet f) fields
      | None => Err Invalid
      end
  | Some (SelectionKindFragmentSpread, ref) =>
      match at_ref (doc_FragmentSpreads doc) ref with
      | None => Err Invalid
      | Some name =>
          match doc_FragmentDefinitionRef doc name with
          | None => Err Invalid
          | Some fragmentRef =>
              match at_ref (doc_FragmentDefinitions doc) fragmentRef with
              | None => Err Invalid
              | Some f =>
                  fail_if negb (fg_HasSelections f) with Invalid ;;
                  fail_if bool_decide (fragmentRef ∈ visiting) with Invalid ;;
                  walk ({[fragmentRef]} ∪ visiting) (fg_SelectionSet f) fields
              end
          end
      end
  | Some (SelectionKindOther, _) => Err Invalid
  end.

Fixpoint collectSelections (operationType : Z)
    (walk : gset Z → Z → gset graphqlRootField → result DocumentError (gset graphqlRootField))
    (visiting : gset Z) (refs : list Z) (fields : gset graphqlRootField) : result DocumentError (gset graphqlRootField) :=
  match refs with
  | [] => Ok fields
  | ref :: refs => let! fields := collectSelection operationType walk visiting ref fields in
                   collectSelections operationType walk visiting refs fields
  end.

(** Marking a fragment for the walk below it and unmarking it afterwards is walking with a
    larger set. *)
Fixpoint collectGraphQLSelectionFields (fuel : nat) (operationType : Z) (visiting : gset Z) (selectionSet : Z)
    (fields : gset graphqlRootField) : result DocumentError (gset graphqlRootField) :=
  match fuel with
  | O => Err OutOfFuel
  | S fuel =>
      match at_ref (doc_SelectionSets doc) selectionSet with
      | None => Err Invalid
      | Some refs => collectSelections operationType (collectGraphQLSelectionFields fuel operationType) visiting refs fields
      end
  end.

Definition walkFuel : nat :=
  S (length (doc_FragmentDefinitions doc)) * S (length (doc_SelectionSets doc)) + 1.

Definition rootFieldsOf (operationName : string) : result DocumentError (gset graphqlRootField) :=
  let! operation := selectGraphQLOperation operationName in
  let! fields := collectGraphQLSelectionFields walkFuel (df_OperationType operation) ∅ (df_SelectionSet operation) ∅ in
  fail_if bool_decide (fields = ∅) with Invalid ;; Ok fields.
End document.

Section authorize.
  Context {E S P R : Type}.
  Context (ToLower : string → string) (EqualFold : string → string → bool)
          (uuid_Parse : string → option string)
          (NewStruct : list (string * goValue) → option S)
          (ParseGraphqlDocumentString : string → option Document).
  Implicit Types (b : Authorizer E S P R) (ctx : Context) (p : option Principal) (prov : Provider E P R).

Definition graphqlRootFields (document operationName : string) : result DocumentError (gset graphqlRootField) :=
  if decide (document = "") then Err Invalid
  else match ParseGraphqlDocumentString document with
       | None => Err Invalid
       | Some doc => rootFieldsOf doc operationName
       end.

(** The operations of the catalog by the fields of their own documents. *)
Fixpoint configureFields (ops : list CatalogOperation) (configured : gmap graphqlRootField (list CatalogOperation))
    : result (Error E) (gmap graphqlRootField (list CatalogOperation)) :=
  match ops with
  | [] => Ok configured
  | op :: ops =>
      if negb (bool_decide (op_Transport op = "graphql")) then configureFields ops configured
      else if decide (op_Query op = "") then
        if bool_decide (op_API op = Some APIExposurePrivate) then Err (Wraps ErrOperationNotFound)
        else configureFields ops configured
      else match graphqlRootFields (op_Query op) (op_OperationName op) with
           | Err _ => Err (Wraps ErrOperationNotFound)
           | Ok fields =>
               configureFields ops
                 (set_fold (λ field m, <[field := default [] (m !! field) ++ [op]]> m) configured fields)
           end
  end.

Definition authorizeCandidate b ctx p prov (providerName : string) (op : CatalogOperation) : result (Error E) unit :=
  fail_if negb (operationExposedOnInvocationSurface ctx op) with Wraps ErrOperationNotFound ;;
  let! _ := authorizeInvocation ToLower EqualFold uuid_Parse NewStruct b ctx p (Some prov) providerName op in
  Ok tt.

Definition authorizeField b ctx p prov (providerName : string)
    (configured : gmap graphqlRootField (list CatalogOperation)) (field : graphqlRootField) : result (Error E) unit :=
  match default [] (configured !! field) with
  | [] => Err (Wraps ErrOperationNotFound)
  | candidates => each (authorizeCandidate b ctx p prov providerName) candidates
  end.

(** The selected fields come in the order of a Go map; which of several refusals is
    reported depends on it, whether there is one does not. *)
Definition authorizeGraphQLOperation b ctx p prov (providerName : string) (request : GraphQLRequest P)
    : result (Error E) unit :=
  match pv_Catalog prov with
  | None => Ok tt
  | Some cat =>
      let! configured := configureFields (cat_Operations cat) ∅ in
      if decide (configured = ∅) then Ok tt
      else match graphqlRootFields (gr_Document request) (gr_OperationName request) with
           | Err _ => Err (Wraps ErrOperationNotFound)
           | Ok selected => each (authorizeField b ctx p prov providerName configured) (elements selected)
           end
  end.
End authorize.

(** ** The fields a document selects *)

Section selects.
  Context (doc : Document).

(** What a selection leads to: a field, or a selection set below it. *)
Definition target (ref : Z) : option (string + Z) :=
  match at_ref (doc_Selections doc) ref with
  | Some (SelectionKindField, ref) => inl <$> at_ref (doc_Fields doc) ref
  | Some (SelectionKindInlineFragment, ref) => inr ∘ fg_SelectionSet <$> at_ref (doc_InlineFragments doc) ref
  | Some (SelectionKindFragmentSpread, ref) =>
      name ← at_ref (doc_FragmentSpreads doc) ref;
      fragmentRef ← doc_FragmentDefinitionRef doc name;
      inr ∘ fg_SelectionSet <$> at_ref (doc_FragmentDefinitions doc) fragmentRef
  | _ => None
  end.

(** A selection set selects a field, itself or through fragments. *)
Inductive selects : Z → string → Prop :=
  | selects_field set refs ref name :
      at_ref (doc_SelectionSets doc) set = Some refs → ref ∈ refs → target ref = Some (inl name) → selects set name
  | selects_below set refs ref below name :
      at_ref (doc_SelectionSets doc) set = Some refs → ref ∈ refs → target ref = Some (inr below) →
      selects below name → selects set name.

Lemma collectSelection_ok operationType walk visiting ref fields out :
  collectSelection doc operationType walk visiting ref fields = Ok out →
  (∃ name, target ref = Some (inl name) ∧ out = {[(operationType, name)]} ∪ fields)
  ∨ (∃ visiting' below, target ref = Some (inr below) ∧ walk visiting' below fields = Ok out).
Proof.
  unfold collectSelection, target. destruct (at_ref (doc_Selections doc) ref) as [[[] r]|]; [| | |done|done].
  - destruct (at_ref (doc_Fields doc) r) as [name|]; [|done]. rewrite fail_if_ok. intros [_ [= <-]]. left. eauto.
  - destruct (at_ref (doc_InlineFragments doc) r) as [f|]; [|done]. rewrite fail_if_ok. intros [_ H]. right. eauto.
  - destruct (at_ref (doc_FragmentSpreads doc) r) as [name|]; [|done].
    destruct (doc_FragmentDefinitionRef doc name) as [fragmentRef|] eqn:Href; [|done].
    destruct (at_ref (doc_FragmentDefinitions doc) fragmentRef) as [f|] eqn:Hf; [|done].
    rewrite !fail_if_ok. intros (_ & _ & H). right. eexists _, _. split; [|exact H].
    cbn [mbind option_bind]. by rewrite Href; cbn [mbind option_bind]; rewrite Hf.
Qed.

Lemma collectSelections_exact operationType walk visiting refs fields out :
  collectSelections doc operationType walk visiting refs fields = Ok out →
  (∀ visiting below fields out, walk visiting below fields = Ok out →
     ∀ k, k ∈ out ↔ k ∈ fields ∨ k.1 = operationType ∧ selects below k.2) →
  ∀ k, k ∈ out ↔ k ∈ fields ∨ k.1 = operationType ∧ ∃ ref, ref ∈ refs ∧
    (target ref = Some (inl k.2) ∨ ∃ below, target ref = Some (inr below) ∧ selects below k.2).
Proof.
  intros H Hwalk k. revert fields H. induction refs as [|ref refs IH]; intros fields; cbn [collectSelections].
  - intros [= <-]. split; [by left|]. intros [Hk|(_ & ref & Hin & _)]; [done|by apply elem_of_nil in Hin].
  - rewrite rbind_ok. intros (fields' & Hone & Hrest). rewrite (IH _ Hrest).
    setoid_rewrite elem_of_cons.
    apply collectSelection_ok in Hone as [(name & Ht & ->)|(visiting' & below & Ht & Hw)].
    + rewrite elem_of_union, elem_of_singleton. split.
      * intros [[->|Hk]|(Hty & r & Hr & Hsel)]; [|by left|right; split; [done|]; exists r; auto].
        right. split; [done|]. exists ref. cbn. auto.
      * intros [Hk|(Hty & r & [->|Hr] & Hsel)]; [auto| |right; split; [done|]; by exists r].
        left. left. destruct Hsel as [Hn|(b & Hb & _)]; [|congruence].
        assert (name = k.2) as -> by congruence. by destruct k; cbn in *; subst.
    + rewrite (Hwalk _ _ _ _ Hw). split.
      * intros [[Hk|[Hty Hsel]]|(Hty & r & Hr & Hsel)]; [by left| |right; split; [done|]; exists r; auto].
        right. split; [done|]. exists ref. split; [by left|]. right. eauto.
      * intros [Hk|(Hty & r & [->|Hr] & Hsel)]; [by left; left| |right; split; [done|]; by exists r].
        left. right. split; [done|]. destruct Hsel as [Hn|(b & Hb & Hsel)]; [congruence|].
        by assert (b = below) as -> by congruence.
Qed.

Lemma collect_exact fuel operationType visiting set fields out :
  collectGraphQLSelectionFields doc fuel operationType visiting set fields = Ok out →
  ∀ k, k ∈ out ↔ k ∈ fields ∨ k.1 = operationType ∧ selects set k.2.
Proof.
  revert visiting set fields out. induction fuel as [|fuel IH]; intros visiting set fields out; [done|].
  cbn [collectGraphQLSelectionFields]. destruct (at_ref (doc_SelectionSets doc) set) as [refs|] eqn:Hset; [|done].
  intros H k. rewrite (collectSelections_exact _ _ _ _ _ _ H IH). apply or_iff_compat_l, and_iff_compat_l. split.
  - intros (ref & Hin & [Ht|(below & Ht & Hsel)]); [by eapply selects_field|by eapply selects_below].
  - intros Hsel. inversion Hsel as [? refs' ref ? Hs Hin Ht|? refs' ref below ? Hs Hin Ht Hb]; subst;
      rewrite Hset in Hs; injection Hs as <-; exists ref; split; eauto.
Qed.

(** The fields found are exactly those the chosen operation selects, through whatever
    fragments, and there is one. *)
Lemma rootFieldsOf_exact operationName fields :
  rootFieldsOf doc operationName = Ok fields →
  fields ≠ ∅ ∧ ∃ operation, selectGraphQLOperation doc operationName = Ok operation
    ∧ ∀ k, k ∈ fields ↔ k.1 = df_OperationType operation ∧ selects (df_SelectionSet operation) k.2.
Proof.
  unfold rootFieldsOf. rewrite rbind_ok. intros (operation & Hop & H). rewrite rbind_ok in H.
  destruct H as (fields' & Hc & H). rewrite fail_if_ok in H. destruct H as [Hne [= <-]].
  split; [by apply bool_decide_eq_false in Hne|]. exists operation. split; [done|].
  intros k. rewrite (collect_exact _ _ _ _ _ _ Hc). set_solver.
Qed.

(** ** The walk ends *)

(** Inline fragments nest: a rank that decreases into them, at most the number of selection
    sets.  The depth in the syntax tree, counted from the leaves, is one. *)
Definition nests (rank : Z → nat) : Prop :=
  (∀ set, rank set ≤ length (doc_SelectionSets doc)) ∧
  ∀ set refs ref inner f,
    at_ref (doc_SelectionSets doc) set = Some refs → ref ∈ refs →
    at_ref (doc_Selections doc) ref = Some (SelectionKindInlineFragment, inner) →
    at_ref (doc_InlineFragments doc) inner = Some f → rank (fg_SelectionSet f) < rank set.

Definition fragmentRefs : gset Z := list_to_set (Z.of_nat <$> seq 0 (length (doc_FragmentDefinitions doc))).

Lemma fragmentRefs_size : size fragmentRefs = length (doc_FragmentDefinitions doc).
Proof.
  unfold fragmentRefs. rewrite size_list_to_set; [by rewrite length_fmap, length_seq|].
  apply NoDup_fmap_2; [|apply NoDup_seq]. intros x y. lia.
Qed.

Lemma at_ref_fragment ref f : at_ref (doc_FragmentDefinitions doc) ref = Some f → ref ∈ fragmentRefs.
Proof.
  unfold at_ref, fragmentRefs. destruct (ref <? 0)%Z eqn:Hneg; [done|]. intros Hl%lookup_lt_Some.
  apply elem_of_list_to_set, list_elem_of_fmap. exists (Z.to_nat ref). split; [lia|]. apply elem_of_seq. lia.
Qed.

Lemma collectSelections_total operationType walk visiting refs fields :
  (∀ ref fields, ref ∈ refs → collectSelection doc operationType walk visiting ref fields ≠ Err OutOfFuel) →
  collectSelections doc operationType walk visiting refs fields ≠ Err OutOfFuel.
Proof.
  revert fields. induction refs as [|ref refs IH]; intros fields H; [done|]. cbn [collectSelections].
  pose proof (H ref fields) as Hone. destruct (collectSelection _ _ _ _ ref fields) as [fields'|e]; cbn [rbind].
  - apply IH. intros r fs Hr. apply H. by apply elem_of_cons; right.
  - intros [= ->]. apply Hone; [by apply elem_of_cons; left|done].
Qed.

Lemma collect_total rank fuel operationType visiting set fields :
  nests rank → visiting ⊆ fragmentRefs →
  (length (doc_FragmentDefinitions doc) - size visiting) * S (length (doc_SelectionSets doc)) + rank set < fuel →
  collectGraphQLSelectionFields doc fuel operationType visiting set fields ≠ Err OutOfFuel.
Proof.
  intros [Hmax Hrank]. revert visiting set fields. induction fuel as [|fuel IH]; intros visiting set fields Hv Hfuel; [by apply Nat.nlt_0_r in Hfuel|].
  cbn [collectGraphQLSelectionFields]. destruct (at_ref (doc_SelectionSets doc) set) as [refs|] eqn:Hset; [|done].
  apply collectSelections_total. intros ref fs Href. unfold collectSelection.
  destruct (at_ref (doc_Selections doc) ref) as [[[] r]|] eqn:Hsel; [| | |done|done].
  - destruct (at_ref (doc_Fields doc) r) as [name|]; [|done]. by destruct (bool_decide (name = "")).
  - destruct (at_ref (doc_InlineFragments doc) r) as [f|] eqn:Hf; [|done].
    destruct (negb (fg_HasSelections f)); [done|].
    apply IH; [done|]. pose proof (Hrank _ _ _ _ _ Hset Href Hsel Hf). lia.
  - destruct (at_ref (doc_FragmentSpreads doc) r) as [name|]; [|done].
    destruct (doc_FragmentDefinitionRef doc name) as [fragmentRef|]; [|done].
    destruct (at_ref (doc_FragmentDefinitions doc) fragmentRef) as [f|] eqn:Hf; [|done].
    destruct (negb (fg_HasSelections f)); [done|].
    destruct (bool_decide (fragmentRef ∈ visiting)) eqn:Hin; [done|]. apply bool_decide_eq_false in Hin.
    apply at_ref_fragment in Hf. pose proof (Hmax (fg_SelectionSet f)).
    assert ({[fragmentRef]} ∪ visiting ⊆ fragmentRefs) as Hsub by set_solver.
    pose proof (subseteq_size _ _ Hsub) as Hsize. rewrite fragmentRefs_size in Hsize.
    rewrite size_union, size_singleton in Hsize by set_solver.
    apply IH; [done|]. rewrite size_union, size_singleton by set_solver. nia.
Qed.

(** The walk over a query always ends: whatever fragments spread one another, also in a
    circle, the fuel of [rootFieldsOf] is enough. *)
Theorem graphqlRootFields_total rank operationName :
  nests rank → rootFieldsOf doc operationName ≠ Err OutOfFuel.
Proof.
  intros Hn. unfold rootFieldsOf, selectGraphQLOperation.
  assert (∀ d : OperationDefinition,
    (let! fields := collectGraphQLSelectionFields doc (walkFuel doc) (df_OperationType d) ∅ (df_SelectionSet d) ∅ in
     fail_if bool_decide (fields = ∅) with Invalid ;; Ok fields) ≠ Err OutOfFuel) as Hwalk.
  { intros d. assert (collectGraphQLSelectionFields doc (walkFuel doc) (df_OperationType d) ∅ (df_SelectionSet d) ∅
                      ≠ Err OutOfFuel) as Hc.
    { apply (collect_total rank); [done|set_solver|]. rewrite size_empty.
      pose proof (proj1 Hn (df_SelectionSet d)). unfold walkFuel. nia. }
    destruct (collectGraphQLSelectionFields _ _ _ _ _ _) as [fields|e]; cbn [rbind]; [|congruence].
    by destruct (bool_decide (fields = ∅)). }
  destruct (negb (bool_decide (operationName = ""))).
  - destruct (List.find _ _) as [d|]; [apply Hwalk|done].
  - destruct (doc_OperationDefinitions doc) as [|d [|]]; [done|apply Hwalk|done].
Qed.
End selects.

(** ** What an authorized query may reach *)

Section authorized.
  Context {E S P R : Type}.
  Context (ToLower : string → string) (EqualFold : string → string → bool)
          (uuid_Parse : string → option string)
          (NewStruct : list (string * goValue) → option S)
          (ParseGraphqlDocumentString : string → option Document).
  Implicit Types (b : Authorizer E S P R) (ctx : Context) (p : option Principal) (prov : Provider E P R).
  Abbreviation graphqlRootFields := (graphqlRootFields ParseGraphqlDocumentString).
  Abbreviation authorizeInvocation := (authorizeInvocation ToLower EqualFold uuid_Parse NewStruct).
  Abbreviation authorizeGraphQLOperation :=
    (authorizeGraphQLOperation ToLower EqualFold uuid_Parse NewStruct ParseGraphqlDocumentString).

(** A cataloged operation whose own document selects the root field. *)
Definition guards (op : CatalogOperation) (field : graphqlRootField) : Prop :=
  op_Transport op = "graphql" ∧ op_Query op ≠ "" ∧
  ∃ fields, graphqlRootFields (op_Query op) (op_OperationName op) = Ok fields ∧ field ∈ fields.

Lemma configure_one (op : CatalogOperation) (fields : gset graphqlRootField)
    (configured : gmap graphqlRootField (list CatalogOperation)) field o :
  o ∈ default [] (set_fold (λ field m, <[field := default [] (m !! field) ++ [op]]> m) configured fields !! field)
  ↔ o ∈ default [] (configured !! field) ∨ o = op ∧ field ∈ fields.
Proof.
  apply (set_fold_ind_L (λ m X, o ∈ default [] (m !! field) ↔ o ∈ default [] (configured !! field) ∨ o = op ∧ field ∈ X)).
  - set_solver.
  - intros k X m _ IH. destruct (decide (k = field)) as [->|Hne].
    + rewrite lookup_insert_eq. cbn [default]. unfold id. rewrite elem_of_app, IH, list_elem_of_singleton. set_solver.
    + rewrite lookup_insert_ne by done. rewrite IH. set_solver.
Qed.

Lemma configureFields_ok ops configured0 configured :
  configureFields (E := E) ParseGraphqlDocumentString ops configured0 = Ok configured →
  ∀ field op, op ∈ default [] (configured !! field) ↔ op ∈ default [] (configured0 !! field) ∨ op ∈ ops ∧ guards op field.
Proof.
  revert configured0. induction ops as [|op ops IH]; intros configured0; cbn [configureFields].
  - intros [= <-] field o. rewrite elem_of_nil. tauto.
  - assert (∀ (o : CatalogOperation) (A G G' B : Prop), (o = op → (G ↔ G')) →
      ((A ∨ o = op ∧ G') ∨ o ∈ ops ∧ G ↔ A ∨ o ∈ op :: ops ∧ G)) as Hstep.
    { intros o A G G' B HG. rewrite elem_of_cons. tauto. }
    assert (∀ (o : CatalogOperation) (A G : Prop), (o = op → ¬ G) → (A ∨ o ∈ ops ∧ G ↔ A ∨ o ∈ op :: ops ∧ G)) as Hskip.
    { intros o A G HG. rewrite elem_of_cons. tauto. }
    destruct (bool_decide (op_Transport op = "graphql")) eqn:Ht; cbn [negb].
    + apply bool_decide_eq_true in Ht. destruct (decide (op_Query op = "")) as [Hq|Hq].
      * destruct (bool_decide _); [done|]. intros H field o. rewrite (IH _ H). apply Hskip. intros -> (_ & Hn & _). done.
      * destruct (graphqlRootFields (op_Query op) (op_OperationName op)) as [fields|e] eqn:Hf; [|done].
        intros H field o. rewrite (IH _ H), configure_one. apply Hstep; [exact True|]. intros ->. unfold guards. split.
        -- intros (_ & _ & fields' & Hf' & Hin). by assert (fields' = fields) as -> by congruence.
        -- intros Hin. split_and!; [done|done|by exists fields].
    + apply bool_decide_eq_false in Ht. intros H field o. rewrite (IH _ H). apply Hskip. by intros -> (Hn & _).
Qed.

(** C19. A raw GraphQL query cannot go round a catalog that has GraphQL operations with
    documents.  An authorized query selects, by whatever name, alias or fragment it gets
    at them, only root fields that some of these operations select, and for each such field
    every operation that selects it is exposed to the caller and admits the caller.  The
    one other way to be let through is a provider without a catalog, or with one in which
    no operation's document selects anything: then there is nothing to check against, and
    the query passes unchecked. *)
Theorem graphql_fields_authorized b ctx p prov providerName request :
  authorizeGraphQLOperation b ctx p prov providerName request = Ok tt →
  pv_Catalog prov = None ∨ ∃ cat, pv_Catalog prov = Some cat ∧
  ((∀ op field, op ∈ cat_Operations cat → ¬ guards op field)
   ∨ ∃ selected, graphqlRootFields (gr_Document request) (gr_OperationName request) = Ok selected ∧ selected ≠ ∅
     ∧ ∀ field, field ∈ selected →
         (∃ op, op ∈ cat_Operations cat ∧ guards op field)
         ∧ ∀ op, op ∈ cat_Operations cat → guards op field →
             operationExposedOnInvocationSurface ctx op = true
             ∧ ∃ res, authorizeInvocation b ctx p (Some prov) providerName op = Ok res).
Proof.
  intros H. unfold GraphQL.authorizeGraphQLOperation in H.
  destruct (pv_Catalog prov) as [cat|]; [right; exists cat; split; [done|]|by left].
  apply rbind_ok in H as (configured & Hc & H). pose proof (configureFields_ok _ _ _ Hc) as Hconf.
  destruct (decide (configured = ∅)) as [->|_].
  { left. intros op field Hin Hg. pose proof (proj2 (Hconf field op) (or_intror (conj Hin Hg))) as Hd.
    rewrite lookup_empty in Hd. by apply elem_of_nil in Hd. }
  right. destruct (graphqlRootFields _ _) as [selected|e] eqn:Hsel; [|done].
  exists selected. split; [done|]. split.
  { unfold GraphQL.graphqlRootFields in Hsel. destruct (decide _); [done|].
    destruct (ParseGraphqlDocumentString _) as [doc|]; [|done]. by apply rootFieldsOf_exact in Hsel as [? _]. }
  rewrite each_ok in H. intros field Hfield. specialize (H field (proj2 (elem_of_elements _ _) Hfield)).
  unfold authorizeField in H. pose proof (Hconf field) as Hf. rewrite lookup_empty in Hf. cbn [default] in Hf.
  destruct (default [] (configured !! field)) as [|o os]; [done|]. rewrite each_ok in H. split.
  - exists o. destruct (proj1 (Hf o)) as [Hnil|]; [by apply elem_of_cons; left|by apply elem_of_nil in Hnil|done].
  - intros op Hop Hgop. specialize (H op (proj2 (Hf op) (or_intror (conj Hop Hgop)))).
    unfold authorizeCandidate in H. rewrite fail_if_ok, rbind_ok in H. destruct H as (Hexp & res & Hres & _).
    split; [by destruct (operationExposedOnInvocationSurface ctx op)|eauto].
Qed.
End authorized.

(** ** A query that hides its field in a fragment *)

Definition sample_document (sets : list (list Z)) (selections : list (SelectionKind * Z)) : Document :=
  {| doc_OperationDefinitions := [{| df_Name := ""; df_OperationType := 1; df_SelectionSet := 0 |}];
     doc_SelectionSets := sets; doc_Selections := selections; doc_Fields := ["issues"];
     doc_InlineFragments := []; doc_FragmentSpreads := ["F"];
     doc_FragmentDefinitionRef name := if decide (name = "F") then Some 0%Z else None;
     doc_FragmentDefinitions := [{| fg_HasSelections := true; fg_SelectionSet := 1 |}] |}.

Definition plain_query : Document := sample_document [[0%Z]] [(SelectionKindField, 0%Z)].
Definition hidden_query : Document :=
  sample_document [[0%Z]; [1%Z]] [(SelectionKindFragmentSpread, 0%Z); (SelectionKindField, 0%Z)].
Definition circular_query : Document :=
  sample_document [[0%Z]; [0%Z]] [(SelectionKindFragmentSpread, 0%Z)].

Definition sample_parser (document : string) : option Document :=
  if decide (document = "{issues}") then Some plain_query
  else if decide (document = "{...F} fragment F on Query {issues}") then Some hidden_query
  else None.

Definition issues_op : CatalogOperation :=
  {| op_ID := "read.issues"; op_ProviderID := ""; op_Method := ""; op_Path := ""; op_Title := ""; op_Description := "";
     op_InputSchema := None; op_OutputSchema := None; op_Response := None; op_Annotations := no_annotations;
     op_AllowedRoles := ["viewer"]; op_Parameters := []; op_RequiredScopes := []; op_Tags := []; op_ReadOnly := true;
     op_Visible := None; op_API := None; op_MCP := None; op_Transport := "graphql"; op_Query := "{issues}";
     op_OperationName := "" |}.

Definition graphql_provider : Provider unit unit unit :=
  {| pv_Name := "slack"; pv_ConnectionMode := "none"; pv_ConnectionForOperation _ := "";
     pv_Catalog := Some (set_Operations sample_catalog [issues_op]); pv_Execute _ _ _ _ := tt;
     pv_DefaultAppAccessOperations := None; pv_SupportsSessionCatalog := None; pv_CatalogForRequest := None;
     pv_RemoteCredentialDelegated := None; pv_ResolveStaticOperationForRequest := None;
     pv_ResolveConnectionForOperation := None; pv_OperationConnectionOverrideAllowed := None;
     pv_ExecuteStream := None; pv_InvokeGraphQL := None; pv_StaticHeaders := None |}.

Definition hidden_request : GraphQLRequest unit :=
  {| gr_Document := "{...F} fragment F on Query {issues}"; gr_OperationName := ""; gr_Variables := tt |}.

Lemma graphqlRootFields_total_witness :
  rootFieldsOf circular_query "" = Err Invalid ∧ rootFieldsOf circular_query "" ≠ Err OutOfFuel.
Proof.
  split; [by vm_compute|]. apply (graphqlRootFields_total circular_query (λ _, 0)). split; [intros; cbn; lia|].
  intros set refs ref inner f _ _ _ Hf. exfalso. unfold at_ref in Hf. cbn in Hf. by destruct (inner <? 0)%Z.
Defined.

Lemma graphql_fields_authorized_witness :
  ∃ selected, GraphQL.graphqlRootFields sample_parser (gr_Document hidden_request) "" = Ok selected
    ∧ elements selected = [(1%Z, "issues")]
    ∧ ∃ res, authorizeInvocation (λ s, s) ascii_fold (λ _, None) strings_only (sample_broker readers) [] sample_caller
               (Some graphql_provider) "slack" issues_op = Ok res.
Proof.
  assert (GraphQL.graphqlRootFields sample_parser "{issues}" "" = Ok {[(1%Z, "issues")]}) as Hown by reflexivity.
  assert (guards sample_parser issues_op (1%Z, "issues")) as Hg.
  { split_and!; [done|done|]. eexists. split; [exact Hown|]. by apply elem_of_singleton. }
  destruct (graphql_fields_authorized (λ s, s) ascii_fold (λ _, None) strings_only sample_parser (sample_broker readers)
              [] sample_caller graphql_provider "slack" hidden_request)
    as [Hno|(cat & Hcat & [Hno|(selected & Hsel & _ & Hall)])]; [by vm_compute|done| |].
  { injection Hcat as <-. exfalso. apply (Hno issues_op (1%Z, "issues")); [by apply elem_of_cons; left|done]. }
  injection Hcat as <-.
  assert (selected = {[(1%Z, "issues")]}) as ->.
  { assert (GraphQL.graphqlRootFields sample_parser (gr_Document hidden_request) "" = Ok {[(1%Z, "issues")]}) as H
      by (by vm_compute).
    change (gr_OperationName hidden_request) with "" in Hsel. rewrite H in Hsel. by injection Hsel as <-. }
  exists {[(1%Z, "issues")]}. split; [exact Hsel|]. split; [by vm_compute|].
  destruct (Hall (1%Z, "issues")) as [_ H]; [by apply elem_of_singleton|].
  destruct (H issues_op) as (_ & res & Hres); [by apply elem_of_cons; left|done|]. by exists res.
Defined.

End GraphQL.
