(* ===== verification/Broker.v ===== *)
(** * Broker: how a call reaches its provider

    Models the invocation methods of [gestaltd/services/invocation/broker.go]: [Invoke],
    [InvokeStream], [InvokeMaybeStream] and [InvokeGraphQL] with [resolveOperation], and the
    listing of capabilities.  The authorization is that of InvocationAuth, the operation that
    of CatalogResolution, the credential that of BrokerCredentials; a provider is a function
    on the state, as in BrokerCredentials, so that a call leaves the state of its credentials
    and of its audit entry behind.  Traces, metrics and recorded outcomes are not modelled. *)

From stdpp Require Import base gmap strings list sorting sets.
From Stdlib Require Import ZArith Ascii Lia.
From S2P Require Import Prelude Catalog AppAccess TurnScope CredentialSelection Principals Permissions AccessDecisions.
From S2P Require Import InvocationContext RequestHeaders InvocationAuth GuardedInvoker BrokerCredentials Schemas CatalogResolution GraphQL.

Set Default Goal Selector "!".

Module Broker.
Import Catalog Principals Permissions InvocationContext InvocationAuth GuardedInvoker BrokerCredentials.
Import (hints) CredentialSelection.

(** One of a single answer or a stream. *)
Inductive InvokeOutcome (Res : Type) := Unary (r : Res) | Stream (r : Res).
#[global] Arguments Unary {Res} r. #[global] Arguments Stream {Res} r.

Section broker.
  Context {E W L S P Res Auth : Type}.
  Context (ToLower ToUpper : string → string) (EqualFold : string → string → bool)
          (uuid_Parse : string → option string) (NewStruct : list (string * goValue) → option S)
          (UnmarshalStrings : string → option (gmap string string)) (facts : ErrorFacts E)
          (Text : Error E → string)
          (ParseGraphqlDocumentString : string → option GraphQL.Document).
  Abbreviation World := (GuardedInvoker.World E W L).
  Abbreviation Run := (World → result (Error E) Res * World).
  Abbreviation Provider := (InvocationContext.Provider E P Run).
  Abbreviation Broker := (@BrokerCredentials.Broker E W L S P Res Auth).
  Abbreviation authorizeInvocation := (authorizeInvocation ToLower EqualFold uuid_Parse NewStruct).
  Abbreviation ResolveToken := (ResolveToken ToLower UnmarshalStrings facts).
  Abbreviation resolveToken := (resolveToken ToLower UnmarshalStrings facts).
  Abbreviation persistReconnectRequired := (persistReconnectRequired UnmarshalStrings facts).
  Implicit Types (b : Broker) (ctx : Context) (prov : Provider) (p : option Principal) (params : P) (w : World).

Definition mapped (mapper : option (string → string)) (providerName : string) : string :=
  match mapper with Some connectionForProvider => connectionForProvider providerName | None => "" end.

Definition mcpConnection b (providerName : string) : string :=
  or_else (mapped (br_mcpMapper b) providerName) (mapped (br_connMapper b) providerName).

Definition resolveOperation b ctx p prov (providerName operation connection instance : string) w
    : result (Error E) (CatalogOperation * string * string) * World :=
  let sessionConnections :=
    if negb (bool_decide (connection = "")) then [connection]
    else let own := mcpConnection b providerName in
         if negb (bool_decide (own = "")) then [own] else [] in
  let '(res, w) := CatalogResolution.ResolveOperation ToLower Text ctx prov providerName (Some (ResolveToken b)) p
                     operation sessionConnections instance w in
  (let! found := res in
   fail_if negb (operationExposedOnInvocationSurface ctx found.1.1) with Wraps ErrOperationNotFound ;;
   Ok found, w).

(** The connection of a call: the one asked for, where the operation leaves the choice, or
    the operation's own, or the provider's. *)
Definition chooseConnection b prov (providerName operationID transport resolvedConnection asked : string) params
    : result (Error E) string :=
  let! operationConnection :=
    (if decide (TrimSpace asked = "") then Ok resolvedConnection
     else let! own := (if decide (resolvedConnection = "")
                       then CatalogResolution.ResolveOperationConnection prov operationID params
                       else Ok resolvedConnection) in
          let own := ResolveConnectionAlias own in
          let overrideAllowed := bool_decide (transport = TransportApp)
                                 || CatalogResolution.OperationConnectionOverrideAllowed prov operationID params in
          fail_if negb (bool_decide (own = "")) && negb (bool_decide (own = ResolveConnectionAlias asked))
                  && negb overrideAllowed with Wraps ErrInvalidInvocation ;;
          Ok own) in
  let conn := if decide (asked = "") then operationConnection else asked in
  let! conn := (if decide (conn = "") then CatalogResolution.ResolveOperationConnection prov operationID params
                else Ok conn) in
  Ok (if decide (conn = "") then mapped (br_connMapper b) providerName else conn).

(** A call that is ready to be made. *)
Record Prepared := {
  pd_ctx : Context; pd_prov : Provider; pd_op : CatalogOperation; pd_connection : string; pd_token : string }.

(** What the methods check before they look at the operation. *)
Definition permitted p (providerName : string) : result (Error E) unit :=
  match p with
  | None => Err (Wraps ErrNotAuthenticated)
  | Some _ => fail_if negb (AllowsProviderPermission ToLower p providerName) with Wraps ErrScopeDenied ;; Ok tt
  end.

Definition entering b ctx p (providerName : string) : result (Error E) Provider :=
  let! prov := lookupProvider b ctx providerName in
  let! _ := permitted p providerName in
  Ok prov.

(** From the operation that was found to the context and connection of its call. *)
Definition authorizedCall b ctx p prov (providerName : string) (found : CatalogOperation * string * string) params
    : result (Error E) (Context * CatalogOperation * string) :=
  let '(op, transport, resolvedConnection) := found in
  let asked := ConnectionFromContext ctx in
  let! (ctx, op) := authorizeInvocation (br_auth b) ctx p (Some prov) providerName op in
  let ctx := WithCatalogOperation ctx providerName op in
  let! conn := chooseConnection b prov providerName (op_ID op) transport resolvedConnection asked params in
  let! ctx := RequestHeaders.ApplyInvokeHeaderOverrides ctx prov in
  Ok (ctx, op, conn).

(** The token of the call; a grant that is rejected on the way is marked. *)
Definition withToken b ctx p prov (providerName connection instance : string) w
    : result (Error E) (Context * string) * World :=
  let '(ctx, res, w) := resolveToken b ctx prov p providerName connection instance w in
  match res with
  | Err e => (Err e, persistReconnectRequired b ctx p providerName connection instance e w)
  | Ok token => (Ok (ctx, token), w)
  end.

Definition prepareWith b ctx p prov (providerName instance operation : string) params w
    : result (Error E) Prepared * World :=
  let ctx := withResolvedPrincipal ctx p in
  let '(found, w) := resolveOperation b ctx p prov providerName operation (ConnectionFromContext ctx) instance w in
  match (let! found := found in authorizedCall b ctx p prov providerName found params) with
  | Err e => (Err e, w)
  | Ok (ctx, op, conn) =>
      let '(res, w) := withToken b ctx p prov providerName conn instance w in
      (let! (ctx, token) := res in
       Ok {| pd_ctx := ctx; pd_prov := prov; pd_op := op; pd_connection := conn; pd_token := token |}, w)
  end.

Definition prepare b ctx p (providerName instance operation : string) params w : result (Error E) Prepared * World :=
  match entering b ctx p providerName with
  | Err e => (Err e, w)
  | Ok prov => prepareWith b ctx p prov providerName instance operation params w
  end.

(** The answer of a provider; a grant it rejected is marked. *)
Definition settle {A} b ctx p (providerName connection instance : string) (answer : result (Error E) A * World)
    : result (Error E) A * World :=
  match answer with
  | (Err e, w) => (Err e, persistReconnectRequired b ctx p providerName connection instance e w)
  | (Ok r, w) => (Ok r, w)
  end.

(** The two ways to make a prepared call. *)
Definition execute b p (providerName instance operation : string) params (call : Prepared) w
    : result (Error E) Res * World :=
  settle b (pd_ctx call) p providerName (pd_connection call) instance
    (pv_Execute (pd_prov call) (pd_ctx call) operation params (pd_token call) w).

Definition executeStream b p (providerName instance operation : string) params (call : Prepared) w
    : result (Error E) Res * World :=
  match pv_ExecuteStream (pd_prov call) with
  | None => (Err (Wraps ErrStreamingUnsupported), w)
  | Some run => settle b (pd_ctx call) p providerName (pd_connection call) instance
                  (run (pd_ctx call) operation params (pd_token call) w)
  end.

Definition Invoke b ctx p (providerName instance operation : string) params w : result (Error E) Res * World :=
  let '(res, w) := prepare b ctx p providerName instance operation params w in
  match res with
  | Err e => (Err e, w)
  | Ok call => execute b p providerName instance operation params call w
  end.

Definition InvokeStream b ctx p (providerName instance operation : string) params w : result (Error E) Res * World :=
  let '(res, w) := prepare b ctx p providerName instance operation params w in
  match res with
  | Err e => (Err e, w)
  | Ok call =>
      if negb (IsStream (op_Response (pd_op call))) then (Err (Wraps ErrStreamingUnsupported), w)
      else executeStream b p providerName instance operation params call w
  end.

Definition outcome {A B} (f : A → B) (answer : result (Error E) A * World) : result (Error E) B * World :=
  (let! r := answer.1 in Ok (f r), answer.2).

(** The permission is checked for the principal as it came, the rest sees its canonical
    form. *)
Definition InvokeMaybeStream b ctx p (providerName instance operation : string) params w
    : result (Error E) (InvokeOutcome Res) * World :=
  match entering b ctx p providerName with
  | Err e => (Err e, w)
  | Ok prov =>
      let p := Canonicalized p in
      let '(res, w) := prepareWith b ctx p prov providerName instance operation params w in
      match res with
      | Err e => (Err e, w)
      | Ok call =>
          if IsStream (op_Response (pd_op call))
          then outcome Stream (executeStream b p providerName instance operation params call w)
          else outcome Unary (execute b p providerName instance operation params call w)
      end
  end.

Definition InvokeGraphQL b ctx p (providerName instance : string) (request : GraphQLRequest P) w
    : result (Error E) Res * World :=
  match lookupProvider b ctx providerName with
  | Err e => (Err e, w)
  | Ok prov =>
      match pv_InvokeGraphQL prov with
      | None => (Err (Wraps ErrOperationNotFound), w)
      | Some invoke =>
          let admitted :=
            let! _ := permitted p providerName in
            let ctx := withResolvedPrincipal ctx p in
            let! _ := GraphQL.authorizeGraphQLOperation ToLower EqualFold uuid_Parse NewStruct ParseGraphqlDocumentString
                        (br_auth b) ctx p prov providerName request in
            let operation := default (zero_operation AppAccess.GraphQLCapabilityID)
                               (OperationByID (pv_Catalog prov) AppAccess.GraphQLCapabilityID) in
            let! (ctx, _) := authorizeInvocation (br_auth b) ctx p (Some prov) providerName operation in
            let conn := or_else (ConnectionFromContext ctx) (mapped (br_connMapper b) providerName) in
            let! ctx := RequestHeaders.ApplyInvokeHeaderOverrides ctx prov in
            Ok (ctx, conn) in
          match admitted with
          | Err e => (Err e, w)
          | Ok (ctx, conn) =>
              let '(res, w) := withToken b ctx p prov providerName conn instance w in
              match res with
              | Err e => (Err e, w)
              | Ok (ctx, token) => settle b ctx p providerName conn instance (invoke ctx request token w)
              end
          end
      end
  end.

(** The names the registry lists, with the providers it has for them. *)
Definition ListCapabilities b (names : list string) : list Schemas.Capability :=
  match au_providers (br_auth b) with
  | None => []
  | Some get => concat (map (λ name, match get [] name with
                                     | Ok prov => Schemas.capabilitiesForProvider ToUpper name prov
                                     | Err _ => []
                                     end) names)
  end.
End broker.

(** ** The caller in canonical form *)

Section canonical.
  Context {E W L S P Res Auth : Type}.
  Context (ToLower : string → string) (EqualFold : string → string → bool)
          (uuid_Parse : string → option string) (NewStruct : list (string * goValue) → option S)
          (UnmarshalStrings : string → option (gmap string string)) (facts : ErrorFacts E)
          (Text : Error E → string).
  Abbreviation Run := (GuardedInvoker.World E W L → result (Error E) Res * GuardedInvoker.World E W L).
  Implicit Types (b : @BrokerCredentials.Broker E W L S P Res Auth) (ctx : Context)
    (prov : InvocationContext.Provider E P Run) (p : option Principal) (w : GuardedInvoker.World E W L).

Lemma Scopes_canonical ToLower' p app op :
  AllowsOperationPermission ToLower' (Canonicalized p) app op = AllowsOperationPermission ToLower' p app op
  ∧ AllowsProviderPermission ToLower' (Canonicalized p) app = AllowsProviderPermission ToLower' p app.
Proof.
  destruct p as [q|]; [|done]. change (Canonicalized (Some q)) with (Some (canonicalize q)).
  unfold AllowsOperationPermission, AllowsProviderPermission. by rewrite (proj1 (canonicalize_fields q)).
Qed.

Lemma withResolvedPrincipal_canonical ctx p : withResolvedPrincipal ctx (Canonicalized p) = withResolvedPrincipal ctx p.
Proof.
  destruct p as [q|]; [|done]. unfold withResolvedPrincipal, WithPrincipal. rewrite Canonicalized_idem.
  by change (Canonicalized (Some q)) with (Some (canonicalize q)).
Qed.

Lemma Subject_canonical (users : CredentialUserResolver E) p :
  ResolveCredentialSubjectID users (Canonicalized p) = ResolveCredentialSubjectID users p.
Proof. unfold ResolveCredentialSubjectID. by rewrite Canonicalized_idem. Qed.

Lemma browserSession_canonical p : browserSession (Canonicalized p) = browserSession p.
Proof.
  destruct p as [q|]; [|done]. change (Canonicalized (Some q)) with (Some (canonicalize q)). unfold browserSession.
  destruct (canonicalize_fields q) as (_ & -> & _). done.
Qed.

Lemma appAccessProfile_canonical (a : Authorizer E S P Run) ctx p app :
  appAccessProfile EqualFold uuid_Parse a ctx (Canonicalized p) app = appAccessProfile EqualFold uuid_Parse a ctx p app.
Proof.
  unfold appAccessProfile. destruct (au_appAccessProfiles a) as [get|]; [|done].
  unfold IsNonUserPrincipal, ResolveAuthorizationSubjectID, legacyAppAccessSubjectID. rewrite Canonicalized_idem.
  by destruct p as [q|].
Qed.

Lemma authorizeOperation_canonical (a : Authorizer E S P Run) ctx p app op :
  authorizeOperation NewStruct a ctx (Canonicalized p) app op = authorizeOperation NewStruct a ctx p app op.
Proof.
  unfold authorizeOperation, evaluateInvokeAuthorization, authorizationDecision, accessRequest, subjectAccessProperties.
  destruct (au_authorization a); [|done]. by rewrite Subject_canonical, Canonicalized_idem.
Qed.

(** Authorization looks at nothing that the canonical form changes. *)
Lemma authorizeInvocation_canonical (a : Authorizer E S P Run) ctx p (prov : option (InvocationContext.Provider E P Run)) app op :
  InvocationAuth.authorizeInvocation ToLower EqualFold uuid_Parse NewStruct a ctx (Canonicalized p) prov app op
  = InvocationAuth.authorizeInvocation ToLower EqualFold uuid_Parse NewStruct a ctx p prov app op.
Proof.
  unfold InvocationAuth.authorizeInvocation, checkAppAccess.
  rewrite browserSession_canonical, (proj1 (Scopes_canonical ToLower p app (op_ID op))), appAccessProfile_canonical.
  do 3 (match goal with |- (if ?c then _ else _) = _ => destruct c; [done|] end || idtac).
  destruct (if privateOperation op then _ else _); [|done]. cbn [rbind].
  destruct (appOperationPolicy a app) as [policy|]; [|done]. cbn [rbind].
  destruct (policy_Resolve policy _ _) as [roles allowed]. cbn zeta. by rewrite authorizeOperation_canonical.
Qed.

Lemma resolveToken_canonical b ctx prov p providerName connection instance w :
  resolveToken ToLower UnmarshalStrings facts b ctx prov (Canonicalized p) providerName connection instance w
  = resolveToken ToLower UnmarshalStrings facts b ctx prov p providerName connection instance w.
Proof. unfold resolveToken. by rewrite Subject_canonical. Qed.

Lemma ResolveToken_canonical b ctx p providerName connection instance w :
  BrokerCredentials.ResolveToken ToLower UnmarshalStrings facts b ctx (Canonicalized p) providerName connection instance w
  = BrokerCredentials.ResolveToken ToLower UnmarshalStrings facts b ctx p providerName connection instance w.
Proof.
  unfold BrokerCredentials.ResolveToken.
  rewrite (proj2 (Scopes_canonical ToLower p providerName "")), withResolvedPrincipal_canonical.
  destruct (negb _); [done|]. destruct (lookupProvider _ _ _) as [prov|]; [|done]. apply resolveToken_canonical.
Qed.

Lemma persist_canonical b ctx p providerName connection instance err w :
  BrokerCredentials.persistReconnectRequired UnmarshalStrings facts b ctx (Canonicalized p) providerName connection instance err w
  = BrokerCredentials.persistReconnectRequired UnmarshalStrings facts b ctx p providerName connection instance err w.
Proof.
  unfold BrokerCredentials.persistReconnectRequired. destruct (br_externalCreds b); [|done].
  assert (rejectedSubject b ctx (Canonicalized p) = rejectedSubject b ctx p) as ->; [|done].
  unfold rejectedSubject. by rewrite Subject_canonical.
Qed.

Lemma resolveSessionCatalog_canonical b ctx prov providerName p connection instance w :
  CatalogResolution.resolveSessionCatalog ToLower ctx prov providerName
    (Some (BrokerCredentials.ResolveToken ToLower UnmarshalStrings facts b)) (Canonicalized p) connection instance w
  = CatalogResolution.resolveSessionCatalog ToLower ctx prov providerName
    (Some (BrokerCredentials.ResolveToken ToLower UnmarshalStrings facts b)) p connection instance w.
Proof.
  unfold CatalogResolution.resolveSessionCatalog. rewrite ResolveToken_canonical. by destruct p.
Qed.

Lemma sessionOperation_canonical b ctx prov providerName p operation instance connections firstErr resolved w :
  CatalogResolution.sessionOperation ToLower Text ctx prov providerName
    (Some (BrokerCredentials.ResolveToken ToLower UnmarshalStrings facts b)) (Canonicalized p) operation instance connections
    firstErr resolved w
  = CatalogResolution.sessionOperation ToLower Text ctx prov providerName
    (Some (BrokerCredentials.ResolveToken ToLower UnmarshalStrings facts b)) p operation instance connections
    firstErr resolved w.
Proof.
  revert firstErr resolved w. induction connections as [|connection connections IH]; intros firstErr resolved w; [done|].
  cbn [CatalogResolution.sessionOperation]. rewrite resolveSessionCatalog_canonical.
  destruct (CatalogResolution.resolveSessionCatalog _ _ _ _ _ _ _ _ _) as [[[cat|e] attempted] w1]; [|apply IH].
  destruct (negb attempted || _); [apply IH|]. destruct (OperationByID cat operation); [done|apply IH].
Qed.

Lemma resolveOperation_canonical b ctx p prov providerName operation connection instance w :
  resolveOperation ToLower UnmarshalStrings facts Text b ctx (Canonicalized p) prov providerName operation connection instance w
  = resolveOperation ToLower UnmarshalStrings facts Text b ctx p prov providerName operation connection instance w.
Proof.
  unfold resolveOperation, CatalogResolution.ResolveOperation, CatalogResolution.resolveSessionOperation.
  by rewrite sessionOperation_canonical.
Qed.

Lemma prepareWith_canonical b ctx p prov providerName instance operation params w :
  prepareWith ToLower EqualFold uuid_Parse NewStruct UnmarshalStrings facts Text b ctx (Canonicalized p) prov providerName
    instance operation params w
  = prepareWith ToLower EqualFold uuid_Parse NewStruct UnmarshalStrings facts Text b ctx p prov providerName
    instance operation params w.
Proof.
  unfold prepareWith. rewrite withResolvedPrincipal_canonical, resolveOperation_canonical.
  destruct (resolveOperation _ _ _ _ _ _ _ _ _ _ _ _ _) as [[[[op transport] resolved]|e] w1]; [|done].
  cbn [rbind]. unfold authorizedCall. rewrite authorizeInvocation_canonical.
  destruct (rbind _ _) as [[[ctx1 op1] conn]|e]; [|done].
  assert (withToken ToLower UnmarshalStrings facts b ctx1 (Canonicalized p) prov providerName conn instance w1
          = withToken ToLower UnmarshalStrings facts b ctx1 p prov providerName conn instance w1) as ->; [|done].
  unfold withToken. rewrite resolveToken_canonical.
  destruct (resolveToken _ _ _ _ _ _ _ _ _ _ _) as [[ctx2 [token|e]] w2]; [done|]. by rewrite persist_canonical.
Qed.
End canonical.

(** ** What a call has passed when it is made *)

Section made.
  Context {E W L S P Res Auth : Type}.
  Context (ToLower : string → string) (EqualFold : string → string → bool)
          (uuid_Parse : string → option string) (NewStruct : list (string * goValue) → option S)
          (UnmarshalStrings : string → option (gmap string string)) (facts : ErrorFacts E)
          (Text : Error E → string).
  Abbreviation World := (GuardedInvoker.World E W L).
  Abbreviation Run := (World → result (Error E) Res * World).
  Abbreviation Provider := (InvocationContext.Provider E P Run).
  Abbreviation Broker := (@BrokerCredentials.Broker E W L S P Res Auth).
  Implicit Types (b : Broker) (ctx : Context) (prov : Provider) (p : option Principal) (params : P) (w : World).
  Abbreviation authorizeInvocation := (InvocationAuth.authorizeInvocation ToLower EqualFold uuid_Parse NewStruct).
  Abbreviation resolveToken := (BrokerCredentials.resolveToken ToLower UnmarshalStrings facts).
  Abbreviation prepare := (prepare ToLower EqualFold uuid_Parse NewStruct UnmarshalStrings facts Text).
  Abbreviation Invoke := (Invoke ToLower EqualFold uuid_Parse NewStruct UnmarshalStrings facts Text).
  Abbreviation InvokeStream := (InvokeStream ToLower EqualFold uuid_Parse NewStruct UnmarshalStrings facts Text).
  Abbreviation InvokeMaybeStream :=
    (InvokeMaybeStream ToLower EqualFold uuid_Parse NewStruct UnmarshalStrings facts Text).

(** The connection is the caller's choice only where the operation has none of its own, has
    the same, or lets it be overridden. *)
Definition may_choose prov (operationID transport resolvedConnection asked : string) params : Prop :=
  ∃ own, (if decide (resolvedConnection = "") then CatalogResolution.ResolveOperationConnection prov operationID params
          else Ok resolvedConnection) = Ok (own : string)
    ∧ (ResolveConnectionAlias own = "" ∨ ResolveConnectionAlias own = ResolveConnectionAlias asked
       ∨ transport = TransportApp ∨ CatalogResolution.OperationConnectionOverrideAllowed prov operationID params = true).

Lemma chooseConnection_asked b prov providerName operationID transport resolvedConnection asked params conn :
  chooseConnection b prov providerName operationID transport resolvedConnection asked params = Ok conn →
  TrimSpace asked ≠ "" → conn = asked ∧ may_choose prov operationID transport resolvedConnection asked params.
Proof.
  intros H Hasked. assert (asked ≠ "") as Hne by (by intros ->).
  unfold chooseConnection in H. destruct (decide (TrimSpace asked = "")) as [|_]; [done|].
  apply rbind_ok in H as (oc & Hoc & H). destruct (decide (asked = "")) as [|_]; [done|].
  destruct (decide (asked = "")) as [|_]; [done|]. cbn [rbind] in H. destruct (decide (asked = "")) as [|_]; [done|].
  injection H as <-. split; [done|].
  apply rbind_ok in Hoc as (own & Hown & Hoc). rewrite fail_if_ok in Hoc. destruct Hoc as [Hc _].
  exists own. split; [exact Hown|]. revert Hc. rewrite !andb_false_iff, !negb_false_iff.
  rewrite !bool_decide_eq_true, orb_true_iff, bool_decide_eq_true. tauto.
Qed.

(** The provider is the one asked for; the token's scopes reach it; the operation that was
    found is exposed where the call comes from and admits the caller; the connection was
    free to choose; and the token is the one of that connection, for that caller. *)
Record cleared b ctx p (providerName instance operation : string) params (call : Prepared (P := P)) w1 : Prop := {
  cl_provider : lookupProvider b ctx providerName = Ok (pd_prov call);
  cl_scope : AllowsProviderPermission ToLower p providerName = true;
  cl_operation : ∃ op transport resolved ctx1 ctx2 w0,
    operationExposedOnInvocationSurface (withResolvedPrincipal ctx p) op = true
    ∧ authorizeInvocation (br_auth b) (withResolvedPrincipal ctx p) p (Some (pd_prov call)) providerName op
      = Ok (ctx1, pd_op call)
    ∧ (TrimSpace (ConnectionFromContext ctx) ≠ "" →
       pd_connection call = ConnectionFromContext ctx
       ∧ may_choose (pd_prov call) (op_ID (pd_op call)) transport resolved (ConnectionFromContext ctx) params)
    ∧ RequestHeaders.ApplyInvokeHeaderOverrides (WithCatalogOperation ctx1 providerName (pd_op call)) (pd_prov call)
      = Ok ctx2
    ∧ resolveToken b ctx2 (pd_prov call) p providerName (pd_connection call) instance w0
      = (pd_ctx call, Ok (pd_token call), w1) }.

Lemma ConnectionFromContext_resolved ctx p :
  ConnectionFromContext (withResolvedPrincipal ctx p) = ConnectionFromContext ctx.
Proof. by destruct p. Qed.

Lemma prepare_cleared b ctx p providerName instance operation params w call w1 :
  prepare b ctx p providerName instance operation params w = (Ok call, w1) →
  cleared b ctx p providerName instance operation params call w1.
Proof.
  unfold Broker.prepare. destruct (entering _ _ _ _ _) as [prov|e] eqn:Hent; [|done].
  unfold entering in Hent. apply rbind_ok in Hent as (prov' & Hprov & Hent). apply rbind_ok in Hent as ([] & Hper & [= ->]).
  unfold prepareWith. destruct (resolveOperation _ _ _ _ _ _ _ _ _ _ _ _ _) as [found w0] eqn:Hfound.
  destruct (rbind found _) as [[[ctx2 op] conn]|e] eqn:Hcall; [|done].
  apply rbind_ok in Hcall as ([[op0 transport] resolved] & -> & Hcall).
  destruct (withToken _ _ _ _ _ _ _ _ _ _ _) as [res w2] eqn:Htok. intros [= Hres <-].
  apply rbind_ok in Hres as ([ctx3 token] & -> & [= <-]).
  unfold authorizedCall in Hcall. apply rbind_ok in Hcall as ([ctx1 op1] & Hauth & Hcall).
  apply rbind_ok in Hcall as (conn1 & Hconn & Hcall). apply rbind_ok in Hcall as (ctx4 & Hhdr & [= -> -> ->]).
  constructor; cbn [pd_ctx pd_prov pd_op pd_connection pd_token].
  - exact Hprov.
  - unfold permitted in Hper. destruct p; [|done]. rewrite fail_if_ok in Hper. by apply negb_false_iff, Hper.
  - unfold withToken in Htok. destruct (resolveToken b ctx2 prov p providerName conn instance w0) as [[c r] w3] eqn:Hr.
    destruct r as [tok|e]; [|done]. injection Htok as -> -> ->.
    exists op0, transport, resolved, ctx1, ctx2, w0. rewrite ConnectionFromContext_resolved in Hconn.
    split_and!; [|exact Hauth|intros Hasked; by eapply chooseConnection_asked|exact Hhdr|exact Hr].
    unfold resolveOperation in Hfound.
    destruct (CatalogResolution.ResolveOperation _ _ _ _ _ _ _ _ _ _ _) as [res0 w0']. injection Hfound as Hf _.
    apply rbind_ok in Hf as (f & _ & Hf). rewrite fail_if_ok in Hf. destruct Hf as [Hexp [= ->]].
    by apply negb_false_iff in Hexp.
Qed.

(** C4. A provider runs an operation for a caller only when the call is cleared: otherwise
    the answer is the refusal, and the provider is not asked.  A cleared call is made once,
    with the token of the caller's connection, and its answer is the provider's. *)
Theorem provider_runs_only_cleared_calls b ctx p providerName instance operation params w res w' :
  Invoke b ctx p providerName instance operation params w = (res, w') →
  (∃ e, prepare b ctx p providerName instance operation params w = (Err e, w') ∧ res = Err e)
  ∨ (∃ call w1 w2, cleared b ctx p providerName instance operation params call w1
      ∧ pv_Execute (pd_prov call) (pd_ctx call) operation params (pd_token call) w1 = (res, w2)
      ∧ w' = match res with
             | Ok _ => w2
             | Err e => BrokerCredentials.persistReconnectRequired UnmarshalStrings facts b (pd_ctx call) p providerName
                          (pd_connection call) instance e w2
             end).
Proof.
  unfold Broker.Invoke. destruct (prepare _ _ _ _ _ _ _ _) as [[call|e] w1] eqn:Hp.
  - intros H. right. apply prepare_cleared in Hp. unfold execute, settle in H.
    destruct (pv_Execute _ _ _ _ _ _) as [answer w2] eqn:Hx. exists call, w1, w2.
    destruct answer; injection H as <- <-; done.
  - intros [= <- <-]. left. eauto.
Qed.

(** Whether the operation a call resolves to answers with a stream. *)
Definition answers_stream b ctx p (providerName instance operation : string) params w : bool :=
  match (prepare b ctx p providerName instance operation params w).1 with
  | Ok call => IsStream (op_Response (pd_op call))
  | Err _ => false
  end.

(** C29. A caller that takes either kind of answer gets what the caller of the right kind
    gets: [InvokeMaybeStream] is [InvokeStream] for operations that answer with a stream and
    [Invoke] for the others, in its answer, its errors and its effects, although it checks
    and resolves on its own and for the canonical form of the caller. *)
Theorem either_answer_is_the_right_one b ctx p providerName instance operation params w :
  InvokeMaybeStream b ctx p providerName instance operation params w
  = if answers_stream b ctx p providerName instance operation params w
    then outcome Stream (InvokeStream b ctx p providerName instance operation params w)
    else outcome Unary (Invoke b ctx p providerName instance operation params w).
Proof.
  unfold Broker.InvokeMaybeStream, answers_stream, Broker.InvokeStream, Broker.Invoke, Broker.prepare.
  destruct (entering _ _ _ _ _) as [prov|e]; [|done]. rewrite prepareWith_canonical.
  destruct (prepareWith _ _ _ _ _ _ _ _ _ _ _ _ _ _ _ _) as [[call|e] w1]; cbn [fst]; [|done].
  assert (∀ ctx conn (answer : result (Error E) Res * World),
    settle UnmarshalStrings facts b ctx (Canonicalized p) providerName conn instance answer
    = settle UnmarshalStrings facts b ctx p providerName conn instance answer) as Hsettle.
  { intros c conn [[r|e] w2]; [done|]. unfold settle. by rewrite persist_canonical. }
  destruct (IsStream (op_Response (pd_op call))); cbn [negb].
  - unfold executeStream. destruct (pv_ExecuteStream (pd_prov call)); [|done]. by rewrite Hsettle.
  - unfold execute. by rewrite Hsettle.
Qed.
End made.

(** ** The audit trail behind the guard *)

Section quiet.
  Context {E W L : Type}.
  Implicit Types (ctx : Context) (w : GuardedInvoker.World E W L).

(** What [GuardedInvoker.tame] asks of an invoker, as a relation on states. *)
Definition quiet w w' : Prop :=
  w_log w `prefix_of` w_log w' ∧
  ∀ loc e, w_entries w !! loc = Some e → ∃ e', w_entries w' !! loc = Some e' ∧ credited e e'.

#[export] Instance quiet_preorder : PreOrder quiet.
Proof.
  split.
  - intros w. split; [done|]. intros loc e He. exists e. split; [done|apply credited_refl].
  - intros w1 w2 w3 [Hl1 He1] [Hl2 He2]. split; [by etransitivity|]. intros loc e He.
    apply He1 in He as (e' & He' & Hc'). apply He2 in He' as (e'' & He'' & Hc''). exists e''. split; [done|].
    unfold credited in *. rewrite Hc'', Hc' at 1. done.
Qed.

Lemma quiet_rest w rest : quiet w (set_rest w rest).
Proof. split; [done|]. intros loc e He. exists e. split; [done|apply credited_refl]. Qed.

Lemma quiet_credential ctx mode subjectID connection instance w :
  quiet w (SetCredentialAudit ctx mode subjectID connection instance w).
Proof.
  destruct (SetCredentialAudit_audited ctx mode subjectID connection instance w) as (Hlog & _ & Hent).
  split; [by rewrite Hlog|]. intros loc e He. destruct (Hent loc e He) as (e' & He' & Hc & _). eauto.
Qed.
End quiet.

Section tame.
  Context {E W L S P Res Auth : Type}.
  Context (ToLower : string → string) (EqualFold : string → string → bool)
          (uuid_Parse : string → option string) (NewStruct : list (string * goValue) → option S)
          (UnmarshalStrings : string → option (gmap string string)) (facts : ErrorFacts E)
          (Text : Error E → string) (ParseGraphqlDocumentString : string → option GraphQL.Document).
  Abbreviation World := (GuardedInvoker.World E W L).
  Abbreviation Run := (World → result (Error E) Res * World).
  Abbreviation Provider := (InvocationContext.Provider E P Run).
  Implicit Types (b : @BrokerCredentials.Broker E W L S P Res Auth) (ctx : Context) (prov : Provider)
    (p : option Principal) (params : P) (w : World) (run : Run).

(** A provider that leaves the audit trail alone, but for calls it makes itself. *)
Definition quiet_run run : Prop := ∀ w res w', run w = (res, w') → quiet w w'.
Definition quiet_provider prov : Prop :=
  (∀ ctx operation params token, quiet_run (pv_Execute prov ctx operation params token))
  ∧ (∀ f, pv_ExecuteStream prov = Some f → ∀ ctx operation params token, quiet_run (f ctx operation params token))
  ∧ (∀ f, pv_InvokeGraphQL prov = Some f → ∀ ctx request token, quiet_run (f ctx request token)).

Lemma resolveSubjectCredential_quiet b ctx subjectID providerName connection instance mode credentialSubjectID w ctx' res w' :
  resolveSubjectCredential UnmarshalStrings facts b ctx subjectID providerName connection instance mode credentialSubjectID w
  = (ctx', res, w') → quiet w w'.
Proof.
  unfold resolveSubjectCredential, resolveSubjectRuntimeCredential.
  destruct (br_externalCreds b) as [creds|]; [|by intros [= <- <- <-]].
  destruct (resolveChosenInstance _ _ _ _ _ _) as [chosen|err]; [|by intros [= <- <- <-]]. cbn zeta.
  destruct (cv_ResolveCredential creds _ _) as [[[resp|]|err] rest];
    [|intros [= <- <- <-]; apply quiet_rest|intros [= <- <- <-]; apply quiet_rest].
  destruct (rv_Credential resp) as [stored|]; [|intros [= <- <- <-]; apply quiet_rest].
  intros [= <- <- <-]. etransitivity; [apply quiet_rest|apply quiet_credential].
Qed.

Lemma resolveToken_quiet b ctx prov p providerName connection instance w ctx' res w' :
  resolveToken ToLower UnmarshalStrings facts b ctx prov p providerName connection instance w = (ctx', res, w') → quiet w w'.
Proof.
  unfold resolveToken. cbn zeta.
  destruct (decide (resolveConnectionMode _ _ _ _ _ _ = TurnScope.ConnectionModeNone));
    [intros [= <- <- <-]; apply quiet_credential|].
  destruct (decide (resolveConnectionMode _ _ _ _ _ _ = _)); [|by intros [= <- <- <-]].
  destruct (ResolveCredentialSubjectID _ p) as [subjectID|err]; [|by intros [= <- <- <-]].
  destruct (providerDelegatesRemoteAuthorization _); [|apply resolveSubjectCredential_quiet].
  destruct (resolveChosenInstance _ _ _ _ _ _); intros [= <- <- <-]; [apply quiet_credential|done].
Qed.

Lemma ResolveToken_quiet b ctx p providerName connection instance w ctx' res w' :
  BrokerCredentials.ResolveToken ToLower UnmarshalStrings facts b ctx p providerName connection instance w = (ctx', res, w') →
  quiet w w'.
Proof.
  unfold BrokerCredentials.ResolveToken. destruct (negb _); [by intros [= <- <- <-]|].
  destruct (lookupProvider _ _ _) as [prov|err]; [apply resolveToken_quiet|by intros [= <- <- <-]].
Qed.

Lemma persist_quiet b ctx p providerName connection instance err w :
  quiet w (BrokerCredentials.persistReconnectRequired UnmarshalStrings facts b ctx p providerName connection instance err w).
Proof.
  unfold BrokerCredentials.persistReconnectRequired. destruct (br_externalCreds b) as [creds|]; [|done].
  destruct (negb _ || _ || _); [done|]. destruct (rejectedInstance _ _ _ _ _ _ _) as [chosen|]; [|done].
  destruct (cv_GetCredential creds _ _ _ _) as [[stored|]|]; [|done|done].
  destruct (CredentialSelection.ec_Grant stored); [|done]. destruct (CredentialSelection.MarkGrantReconnectRequired _ _) as [grant' []]; [|done].
  apply quiet_rest.
Qed.

Lemma resolveSessionCatalog_quiet b ctx prov providerName p connection instance w res attempted w' :
  CatalogResolution.resolveSessionCatalog ToLower ctx prov providerName
    (Some (BrokerCredentials.ResolveToken ToLower UnmarshalStrings facts b)) p connection instance w = (res, attempted, w') →
  quiet w w'.
Proof.
  unfold CatalogResolution.resolveSessionCatalog. cbn zeta.
  destruct (negb (SupportsSessionCatalog _)); [by intros [= <- <- <-]|].
  destruct (decide (CredentialModeOverrideFromContext _ _ = _)); [by intros [= <- <- <-]|].
  assert (∀ d, (match (match p with
      | Some _ => let '(ctx1, r, w1) := BrokerCredentials.ResolveToken ToLower UnmarshalStrings facts b ctx p providerName
                                          connection instance w in
                  match r with
                  | Ok token => Some ((CatalogForRequest ctx1 prov token).2, true, w1)
                  | Err e => Some (Err e, true, w1)
                  end
      | None => None
      end) with Some answer => answer | None => (d, w) end) = (res, attempted, w') → quiet w w') as Hasked.
  { intros d. destruct p as [q|]; [|by intros [= _ <-]].
    destruct (BrokerCredentials.ResolveToken _ _ _ _ _ _ _ _ _ _) as [[ctx1 [token|err]] w1] eqn:Ht;
      apply ResolveToken_quiet in Ht; intros [= <- <- <-]; done. }
  destruct (decide (effectiveConnectionMode _ _ _ = _)); apply Hasked.
Qed.

Lemma resolveOperation_quiet b ctx p prov providerName operation connection instance w res w' :
  resolveOperation ToLower UnmarshalStrings facts Text b ctx p prov providerName operation connection instance w = (res, w') →
  quiet w w'.
Proof.
  assert (∀ connections firstErr resolved w res w',
    CatalogResolution.sessionOperation ToLower Text ctx prov providerName
      (Some (BrokerCredentials.ResolveToken ToLower UnmarshalStrings facts b)) p operation instance connections firstErr resolved w
    = (res, w') → quiet w w') as Hsession.
  { intros connections. induction connections as [|c cs IH]; intros firstErr resolved w1 r w2;
      cbn [CatalogResolution.sessionOperation]; [by intros [= _ <-]|].
    destruct (CatalogResolution.resolveSessionCatalog _ _ _ _ _ _ _ _ _) as [[[cat|err] attempted] w3] eqn:Hs;
      apply resolveSessionCatalog_quiet in Hs; [|intros H; etransitivity; [exact Hs|by eapply IH]].
    destruct (negb attempted || _); [intros H; etransitivity; [exact Hs|by eapply IH]|].
    destruct (OperationByID cat operation); [by intros [= _ <-]|intros H; etransitivity; [exact Hs|by eapply IH]]. }
  unfold resolveOperation, CatalogResolution.ResolveOperation, CatalogResolution.resolveSessionOperation. cbn zeta.
  destruct (CatalogOperationFromContext ctx providerName operation); [by intros [= _ <-]|].
  match goal with |- context [match ?o with Some op => (_, w) | None => _ end] => destruct o end; [by intros [= _ <-]|].
  destruct (negb (SupportsSessionCatalog _)); [by intros [= _ <-]|].
  destruct (CatalogResolution.sessionOperation _ _ _ _ _ _ _ _ _ _ _ _ _) as [r w1] eqn:Hs. intros [= _ <-].
  by eapply Hsession.
Qed.

Lemma withToken_quiet b ctx p prov providerName connection instance w res w' :
  withToken ToLower UnmarshalStrings facts b ctx p prov providerName connection instance w = (res, w') → quiet w w'.
Proof.
  unfold withToken. destruct (resolveToken _ _ _ _ _ _ _ _ _ _ _) as [[ctx' [token|err]] w1] eqn:Hr;
    apply resolveToken_quiet in Hr; intros [= _ <-]; [done|]. etransitivity; [exact Hr|apply persist_quiet].
Qed.

Lemma prepare_quiet b ctx p providerName instance operation params w res w' :
  prepare ToLower EqualFold uuid_Parse NewStruct UnmarshalStrings facts Text b ctx p providerName instance operation params w
  = (res, w') → quiet w w'.
Proof.
  unfold prepare, prepareWith. destruct (entering _ _ _ _ _) as [prov|err]; [|by intros [= _ <-]].
  destruct (resolveOperation _ _ _ _ _ _ _ _ _ _ _ _ _) as [found w0] eqn:Hf. apply resolveOperation_quiet in Hf.
  destruct (rbind found _) as [[[ctx2 op] conn]|e]; [|by intros [= _ <-]].
  destruct (withToken _ _ _ _ _ _ _ _ _ _ _) as [r w1] eqn:Ht. apply withToken_quiet in Ht.
  intros [= _ <-]. by etransitivity.
Qed.

Lemma settle_quiet b ctx p providerName connection instance run w res w' :
  quiet_run run → settle UnmarshalStrings facts b ctx p providerName connection instance (run w) = (res, w') → quiet w w'.
Proof.
  intros Hrun. unfold settle. destruct (run w) as [[r|e] w1] eqn:Hr; apply Hrun in Hr; intros [= _ <-]; [done|].
  etransitivity; [exact Hr|apply persist_quiet].
Qed.

Lemma prepare_provider b ctx p providerName instance operation params w call w' :
  prepare ToLower EqualFold uuid_Parse NewStruct UnmarshalStrings facts Text b ctx p providerName instance operation params w
  = (Ok call, w') → lookupProvider b ctx providerName = Ok (pd_prov call).
Proof. intros H. by apply prepare_cleared in H as [? _ _]. Qed.

Lemma execute_quiet b p providerName instance operation params (call : Prepared (P := P)) w res w' :
  quiet_provider (pd_prov call) →
  execute UnmarshalStrings facts b p providerName instance operation params call w = (res, w') → quiet w w'.
Proof. intros [Hrun _] H. by eapply settle_quiet; [|exact H]. Qed.

Lemma executeStream_quiet b p providerName instance operation params (call : Prepared (P := P)) w res w' :
  quiet_provider (pd_prov call) →
  executeStream UnmarshalStrings facts b p providerName instance operation params call w = (res, w') → quiet w w'.
Proof.
  intros (_ & Hrun & _). unfold executeStream. destruct (pv_ExecuteStream (pd_prov call)) as [f|]; [|by intros [= _ <-]].
  intros H. eapply settle_quiet; [|exact H]. by apply Hrun.
Qed.

Lemma InvokeMaybeStream_quiet b ctx p providerName instance operation params w res w' :
  (∀ prov, lookupProvider b ctx providerName = Ok prov → quiet_provider prov) →
  InvokeMaybeStream ToLower EqualFold uuid_Parse NewStruct UnmarshalStrings facts Text b ctx p providerName instance operation
    params w = (res, w') → quiet w w'.
Proof.
  intros Hprov. unfold InvokeMaybeStream. destruct (entering _ _ _ _ _) as [prov|err] eqn:He; [|by intros [= _ <-]].
  rewrite prepareWith_canonical. destruct (prepareWith _ _ _ _ _ _ _ _ _ _ _ _ _ _ _ _) as [[call|err] w1] eqn:Hp;
    (assert (prepare ToLower EqualFold uuid_Parse NewStruct UnmarshalStrings facts Text b ctx p providerName instance operation
               params w = prepareWith ToLower EqualFold uuid_Parse NewStruct UnmarshalStrings facts Text b ctx p prov
                            providerName instance operation params w) as Heq by (by unfold prepare; rewrite He));
    rewrite <- Heq in Hp; pose proof (prepare_quiet _ _ _ _ _ _ _ _ _ _ Hp) as Hq; [|by intros [= _ <-]].
  apply prepare_provider, Hprov in Hp.
  destruct (IsStream _); unfold outcome; intros [= _ <-]; (etransitivity; [exact Hq|]).
  - by eapply executeStream_quiet; [|apply surjective_pairing].
  - by eapply execute_quiet; [|apply surjective_pairing].
Qed.

Lemma InvokeGraphQL_quiet b ctx p providerName instance request w res w' :
  (∀ prov, lookupProvider b ctx providerName = Ok prov → quiet_provider prov) →
  InvokeGraphQL ToLower EqualFold uuid_Parse NewStruct UnmarshalStrings facts ParseGraphqlDocumentString b ctx p providerName
    instance request w = (res, w') → quiet w w'.
Proof.
  intros Hprov. unfold InvokeGraphQL. destruct (lookupProvider b ctx providerName) as [prov|err]; [|by intros [= _ <-]].
  destruct (pv_InvokeGraphQL prov) as [invoke|] eqn:Hi; [|by intros [= _ <-]]. cbn zeta.
  destruct (rbind (permitted _ _ _) _) as [[ctx1 conn]|err]; [|by intros [= _ <-]].
  destruct (withToken _ _ _ _ _ _ _ _ _ _ _) as [[[ctx2 token]|err] w1] eqn:Ht; apply withToken_quiet in Ht;
    [|by intros [= _ <-]].
  intros H. etransitivity; [exact Ht|]. eapply settle_quiet; [|exact H]. by apply (proj2 (proj2 (Hprov prov eq_refl))).
Qed.

(** The broker can stand behind a guard: when the providers leave the audit trail alone,
    so does every method of the broker, whatever credentials it resolves and whatever grants
    it marks on the way.  The log only grows by what providers log, and of an entry that is
    there only the credential changes. *)
Theorem broker_is_tame b providerName instance operation params request :
  (∀ ctx prov, lookupProvider b ctx providerName = Ok prov → quiet_provider prov) →
  tame (λ ctx (q : Principal), Invoke ToLower EqualFold uuid_Parse NewStruct UnmarshalStrings facts Text b ctx (Some q) providerName
                   instance operation params)
  ∧ tame (λ ctx (q : Principal), InvokeStream ToLower EqualFold uuid_Parse NewStruct UnmarshalStrings facts Text b ctx (Some q)
                     providerName instance operation params)
  ∧ tame (λ ctx (q : Principal), InvokeMaybeStream ToLower EqualFold uuid_Parse NewStruct UnmarshalStrings facts Text b ctx (Some q)
                     providerName instance operation params)
  ∧ tame (λ ctx (q : Principal), InvokeGraphQL ToLower EqualFold uuid_Parse NewStruct UnmarshalStrings facts ParseGraphqlDocumentString b
                     ctx (Some q) providerName instance request).
Proof.
  intros Hprov. split_and!; intros ctx p w res w'.
  - unfold Invoke. destruct (prepare _ _ _ _ _ _ _ _ _ _ _ _ _ _ _) as [[call|err] w1] eqn:Hp;
      pose proof (prepare_quiet _ _ _ _ _ _ _ _ _ _ Hp) as Hq; [|by intros [= _ <-]].
    apply prepare_provider, Hprov in Hp. intros H. exact (transitivity Hq (execute_quiet _ _ _ _ _ _ _ _ _ _ Hp H)).
  - unfold InvokeStream. destruct (prepare _ _ _ _ _ _ _ _ _ _ _ _ _ _ _) as [[call|err] w1] eqn:Hp;
      pose proof (prepare_quiet _ _ _ _ _ _ _ _ _ _ Hp) as Hq; [|by intros [= _ <-]].
    apply prepare_provider, Hprov in Hp. destruct (negb _); [by intros [= _ <-]|].
    intros H. exact (transitivity Hq (executeStream_quiet _ _ _ _ _ _ _ _ _ _ Hp H)).
  - apply InvokeMaybeStream_quiet. apply Hprov.
  - apply InvokeGraphQL_quiet. apply Hprov.
Qed.
End tame.

(** ** A rejected call *)

Abbreviation sample_prepare :=
  (prepare (λ s, s) ascii_fold (λ _, None) strings_only (λ _, None) sample_facts (λ _, "") credential_broker [] alice
     "slack" "" "read.a" tt credential_world).
Abbreviation sample_invoke :=
  (Invoke (λ s, s) ascii_fold (λ _, None) strings_only (λ _, None) sample_facts (λ _, "") credential_broker [] alice
     "slack" "" "read.a" tt credential_world).

Abbreviation refresh_errors w :=
  (map (λ c, CredentialSelection.g_RefreshErrorCount <$> CredentialSelection.ec_Grant c) (w_rest w)).

(** The provider rejects the stored grant, which is marked. *)
Lemma provider_runs_only_cleared_calls_witness :
  ∃ w', sample_invoke = (Err (Foreign "401"), w')
    ∧ refresh_errors credential_world = [Some 0%Z]
    ∧ refresh_errors w' = [Some 1%Z]
    ∧ ∃ call w1, cleared (λ s, s) ascii_fold (λ _, None) strings_only (λ _, None) sample_facts credential_broker [] alice
                   "slack" "" "read.a" tt call w1 ∧ pd_token call = "t0k".
Proof.
  destruct sample_invoke as [res w'] eqn:H. exists w'.
  assert (res = Err (Foreign "401") ∧ refresh_errors w' = [Some 1%Z]) as [-> Hw].
  { assert (sample_invoke.1 = Err (Foreign "401")
            ∧ refresh_errors sample_invoke.2 = [Some 1%Z]) as Hc by (by vm_compute).
    by rewrite H in Hc. }
  split_and!; [done|by vm_compute|done|].
  apply provider_runs_only_cleared_calls in H as [(e & Hp & _)|(call & w1 & w2 & Hc & Hx & _)].
  - exfalso. assert (is_ok sample_prepare.1 = true) as Hok by (by vm_compute). by rewrite Hp in Hok.
  - exists call, w1. split; [done|]. destruct Hc as [Hprov _ _]. injection Hprov as Hprov.
    rewrite <- Hprov in Hx. cbn in Hx. destruct (decide (pd_token call = "t0k")); [done|]. by injection Hx.
Defined.

Lemma broker_is_tame_witness :
  tame (λ ctx (q : Principal), Invoke (λ s, s) ascii_fold (λ _, None) strings_only (λ _, None) sample_facts (λ _, "")
                                 credential_broker ctx (Some q) "slack" "" "read.a" tt).
Proof.
  apply (broker_is_tame (λ s, s) ascii_fold (λ _, None) strings_only (λ _, None) sample_facts (λ _, "") (λ _, None)
           credential_broker "slack" "" "read.a" tt
           {| gr_Document := ""; gr_OperationName := ""; gr_Variables := tt |}).
  intros ctx prov Hl. injection Hl as <-. split_and!; [|done|done].
  intros c op params token w res w' [= _ <-]. done.
Defined.

End Broker.
