(* ===== verification/OwnedResources.v ===== *)
(** * OwnedResources: a rely/guarantee logic in which processes own tokens

    [RelyGuarantee] speaks about the shared state alone.  Where a process has taken
    something that it must give back (a use of an instance, a start it announced), the
    invariant has to count what the processes have taken.  Here every process owns a
    multiset of tokens of the prover's choice: the invariant relates the state to the sum
    of all of them, a call may exchange the caller's own tokens, and the tokens of the
    others are out of its reach.  Tokens exist in proofs only. *)

From stdpp Require Import base list gmultiset relations.
From S2P Require Import Prelude ObjectStore.

Set Default Goal Selector "!".

Section owned.
  Context {W : Type} `{Countable T} (G : relation W) `{!PreOrder G} (Inv : W → gmultiset T → Prop).

Fixpoint wpo {A} (m : prog W A) (Q : A → gmultiset T → W → Prop) (own : gmultiset T) (w : W) : Prop :=
  match m with
  | Ret a => ∀ w', G w w' → Q a own w'
  | Call B c k =>
      ∀ w' frame, G w w' → Inv w' (own ⊎ frame) →
        ∃ own', G w' (c w').2 ∧ Inv (c w').2 (own' ⊎ frame) ∧ wpo (k (c w').1) Q own' (c w').2
  end.

Lemma wpo_stable {A} (m : prog W A) Q own w w' : wpo m Q own w → G w w' → wpo m Q own w'.
Proof.
  destruct m as [a|B c k]; cbn; intros Hm HG.
  - intros w'' HG'. apply Hm. by etrans.
  - intros w'' frame HG'. apply Hm. by etrans.
Qed.

Lemma wpo_mono {A} (m : prog W A) Q R own w :
  wpo m Q own w → (∀ a own' w', G w w' → Q a own' w' → R a own' w') → wpo m R own w.
Proof.
  revert own w. induction m as [a|B c k IH]; cbn; intros own w Hm HQR.
  - intros w' HG. by apply HQR, Hm.
  - intros w' frame HG HI. destruct (Hm w' frame HG HI) as (own' & HG' & HI' & Hk).
    exists own'. split_and!; [done..|]. apply (IH _ _ _ Hk). intros a o w'' HG''. apply HQR.
    etrans; [exact HG|]. by etrans.
Qed.

Lemma wpo_bind {A B} (m : prog W A) (f : A → prog W B) Q own w :
  wpo m (λ a own' w', wpo (f a) Q own' w') own w → wpo (m ≫= f) Q own w.
Proof.
  unfold mbind, prog_bind. revert own w. induction m as [a|C c k IH]; cbn; intros own w Hm.
  - by apply Hm.
  - intros w' frame HG HI. destruct (Hm w' frame HG HI) as (own' & HG' & HI' & Hk).
    exists own'. auto.
Qed.

Lemma wpo_ret {A} (a : A) (Q : A → gmultiset T → W → Prop) own w : (∀ w', G w w' → Q a own w') → wpo (mret a) Q own w.
Proof. done. Qed.

Lemma wpo_atomic {A} (c : W → A * W) (Q : A → gmultiset T → W → Prop) own w :
  (∀ w' frame, G w w' → Inv w' (own ⊎ frame) →
     ∃ own', G w' (c w').2 ∧ Inv (c w').2 (own' ⊎ frame)
           ∧ ∀ w'', G (c w').2 w'' → Q (c w').1 own' w'') →
  wpo (atomic c) Q own w.
Proof. done. Qed.

(** What a process owns beside the tokens a program needs is still there afterwards. *)
Lemma wpo_frame {A} (m : prog W A) Q own rest w :
  wpo m Q own w → wpo m (λ a own' w', ∃ own0, own' = own0 ⊎ rest ∧ Q a own0 w') (own ⊎ rest) w.
Proof.
  revert own w. induction m as [a|B c k IH]; cbn; intros own w Hm.
  - intros w' HG. exists own. auto.
  - intros w' frame HG HI. rewrite <-(assoc_L _) in HI.
    destruct (Hm w' _ HG HI) as (own' & HG' & HI' & Hk).
    exists (own' ⊎ rest). rewrite <-(assoc_L _). auto.
Qed.

(** The processes of a configuration with what each of them owns. *)
Definition everything (owns : list (gmultiset T)) : gmultiset T := foldr disj_union ∅ owns.

Lemma everything_insert i own own' owns :
  owns !! i = Some own →
  ∃ frame, everything owns = own ⊎ frame ∧ everything (<[i := own']> owns) = own' ⊎ frame.
Proof.
  revert i. induction owns as [|o owns IH]; intros [|i]; [done..| |]; cbn.
  - intros [= ->]. by eexists.
  - intros Hi. destruct (IH i Hi) as (frame & E1 & E2). exists (o ⊎ frame).
    change (o ⊎ everything owns = own ⊎ (o ⊎ frame)
            ∧ o ⊎ everything (<[i:=own']> owns) = own' ⊎ (o ⊎ frame)).
    rewrite E1, E2. multiset_solver.
Qed.

Definition owned_pool {A} (Qs : nat → A → gmultiset T → W → Prop) (w : W) (ts : list (prog W A))
    (owns : list (gmultiset T)) : Prop :=
  Inv w (everything owns) ∧ Forall2 (λ _ _, True) ts owns ∧
  ∀ i m own, ts !! i = Some m → owns !! i = Some own → wpo m (Qs i) own w.

Lemma owned_step {A} (Qs : nat → A → gmultiset T → W → Prop) i w ts owns :
  owned_pool Qs w ts owns →
  G w (sched_step i (w, ts)).1
  ∧ ∃ owns', owned_pool Qs (sched_step i (w, ts)).1 (sched_step i (w, ts)).2 owns'.
Proof.
  intros (HI & Hlen & Hp). unfold sched_step. destruct (ts !! i) as [[a|B c k]|] eqn:Ei.
  - split; [done|]. by exists owns.
  - destruct (Forall2_lookup_l _ _ _ _ _ Hlen Ei) as (own & Eo & _).
    assert (∀ own', ∃ frame, everything owns = own ⊎ frame ∧ everything (<[i := own']> owns) = own' ⊎ frame) as Hf
      by (intros own'; by apply everything_insert).
    destruct (Hf ∅) as (frame & Ef & _). pose proof (Hp _ _ _ Ei Eo w frame) as Hc. rewrite Ef in HI.
    destruct (Hc ltac:(done) HI) as (own' & HG & HI' & Hk). destruct (c w) as [b w'] eqn:Ec. cbn in *.
    split; [done|]. exists (<[i := own']> owns). split_and!.
    + destruct (Hf own') as (frame' & Ef' & ->). assert (frame' = frame) as ->; [|done].
      rewrite Ef in Ef'. by apply (inj (disj_union own)) in Ef'.
    + by apply Forall2_insert.
    + intros j m o. destruct (decide (i = j)) as [<-|Hij].
      * rewrite list_lookup_insert_eq by (by eapply lookup_lt_Some).
        rewrite list_lookup_insert_eq by (by eapply lookup_lt_Some). by intros [= <-] [= <-].
      * rewrite !list_lookup_insert_ne by done. intros Hj Ho. eapply wpo_stable; [by eapply Hp|done].
  - split; [done|]. by exists owns.
Qed.

Theorem wpo_exec {A} (Qs : nat → A → gmultiset T → W → Prop) schedule w ts owns w' ts' :
  owned_pool Qs w ts owns → exec schedule (w, ts) = (w', ts') →
  G w w' ∧ ∃ owns', owned_pool Qs w' ts' owns'.
Proof.
  revert w ts owns. induction schedule as [|i s IH]; intros w ts owns Hp; cbn [exec].
  { intros [= <- <-]. split; [done|]. by exists owns. }
  intros He. destruct (owned_step Qs i w ts owns Hp) as (HG & owns1 & Hp1).
  destruct (sched_step i (w, ts)) as [w1 ts1]. destruct (IH _ _ _ Hp1 He) as (HG' & owns' & Hp').
  split; [by etrans|]. by exists owns'.
Qed.

(** A process that has ended has its postcondition. *)
Lemma owned_result {A} (Qs : nat → A → gmultiset T → W → Prop) w ts owns i m a :
  owned_pool Qs w ts owns → ts !! i = Some m → result_of m = Some a → ∃ own, Qs i a own w.
Proof.
  intros (_ & Hlen & Hp) Hi Hr. destruct (Forall2_lookup_l _ _ _ _ _ Hlen Hi) as (own & Ho & _).
  specialize (Hp i m own Hi Ho). destruct m as [a'|]; [|done]. cbn in Hr. injection Hr as ->.
  exists own. by apply Hp.
Qed.

(** Programs of processes that start with nothing. *)
Lemma owned_start {A} (Qs : nat → A → gmultiset T → W → Prop) w ts :
  Inv w ∅ → (∀ i m, ts !! i = Some m → wpo m (Qs i) ∅ w) → owned_pool Qs w ts (replicate (length ts) ∅).
Proof.
  intros HI Hts. split_and!.
  - assert (∀ n, everything (replicate n ∅) = ∅) as ->; [|done].
    intros n. induction n as [|n IHn]; [done|]. cbn. unfold everything in IHn. rewrite IHn. multiset_solver.
  - apply Forall2_same_length_lookup. by rewrite length_replicate.
  - intros i m own Hi Ho. apply lookup_replicate in Ho as [-> _]. by apply Hts.
Qed.
End owned.

(** Walk through the sequencing of a program, leaving its calls. *)
Ltac wpo_step :=
  lazymatch goal with
  | |- wpo _ _ (mret _) _ _ _ => apply wpo_ret
  | |- wpo _ _ (Ret _) _ _ _ => apply wpo_ret
  | |- wpo _ _ (_ ≫= _) _ _ _ => apply wpo_bind
  end.
