(* ===== verification/AgentWorkspace.v ===== *)
(** * AgentWorkspace: the git checkouts an agent session may ask for

    Models [gestaltd/core/agent/workspace.go] and the workspace policy of
    [gestaltd/internal/bootstrap/hosted_agent_pool.go]: where the checkouts of a workspace
    lie, which repository a git URL names, and which repositories a provider allows.

    The parts of the standard library that decide about security are modelled byte by byte:
    [path.Clean], [filepath.Rel] of absolute paths and [path.Match]; [url.Parse] and
    [strings.ToLower] are parameters. *)

From stdpp Require Import base gmap strings list.
From Stdlib Require Import ZArith Ascii Lia.
From S2P Require Import Prelude AppSources ToolNames RegistryConfig.

Set Default Goal Selector "!".

Module AgentWorkspace.
Import AppSources.

(** ** Paths *)

Definition slash : ascii := "/".
Abbreviation segments s := (Split s slash).
Abbreviation joined parts := (AppSources.Join parts slash).

(** [path.Clean]: the segments that remain, last first. *)
Definition clean_step (rooted : bool) (out : list string) (seg : string) : list string :=
  if decide (seg = "" ∨ seg = ".") then out
  else if decide (seg = "..") then
    match out with
    | [] => if rooted then [] else [".."]
    | top :: rest => if decide (top = "..") then ".." :: out else rest
    end
  else seg :: out.
Definition clean_segments (path : string) : list string :=
  reverse (foldl (clean_step (HasPrefix path "/")) [] (segments path)).
Definition Clean (path : string) : string :=
  let segs := clean_segments path in
  if HasPrefix path "/" then "/" +:+ joined segs
  else match segs with [] => "." | _ => joined segs end.

Example Clean_up : Clean "a/./b//../../../c/" = "../c".
Proof. reflexivity. Qed.
Example Clean_rooted : Clean "/../a/.." = "/".
Proof. reflexivity. Qed.

(** [filepath.IsAbs], and [filepath.Rel] of two absolute paths: up to their common
    ancestor and down again. *)
Definition IsAbs (path : string) : bool := HasPrefix path "/".
Fixpoint without_common (base targ : list string) : list string * list string :=
  match base, targ with
  | b :: base', t :: targ' => if decide (b = t) then without_common base' targ' else (base, targ)
  | _, _ => (base, targ)
  end.
Definition Rel (basepath targpath : string) : string :=
  let '(up, down) := without_common (clean_segments basepath) (clean_segments targpath) in
  match (replicate (length up) ".." ++ down)%list with [] => "." | rel => joined rel end.

(** ** [path.Match]

    A pattern is cut at its stars into chunks.  [None] is [ErrBadPattern]. *)

Definition byte_eq (a : ascii) (c : ascii) : bool := bool_decide (a = c).
Definition star_byte : ascii := "*".
Definition backslash : ascii := "\".

Fixpoint skip_stars (pattern : bytes) : bool * bytes :=
  match pattern with
  | a :: rest => if byte_eq a star_byte then (true, (skip_stars rest).2) else (false, pattern)
  | [] => (false, [])
  end.

(** The bytes up to the next star outside a class, and those from it on. *)
Fixpoint chunk_end (inrange : bool) (pattern : bytes) : bytes * bytes :=
  match pattern with
  | [] => ([], [])
  | a :: rest =>
      if byte_eq a backslash then
        match rest with
        | [] => ([a], [])
        | b :: rest' => let '(c, p) := chunk_end inrange rest' in (a :: b :: c, p)
        end
      else if byte_eq a star_byte && negb inrange then ([], pattern)
      else let inrange := if byte_eq a "[" then true else if byte_eq a "]" then false else inrange in
           let '(c, p) := chunk_end inrange rest in (a :: c, p)
  end.

Definition scanChunk (pattern : bytes) : bool * bytes * bytes :=
  let '(star, pattern) := skip_stars pattern in
  let '(chunk, rest) := chunk_end false pattern in (star, chunk, rest).

Definition getEsc (chunk : bytes) : option (N * bytes) :=
  match chunk with
  | [] => None
  | a :: rest =>
      if byte_eq a "-" || byte_eq a "]" then None
      else
        let chunk := if byte_eq a backslash then rest else chunk in
        match chunk with
        | [] => None
        | a :: rest =>
            let '(r, after) := ToolNames.decodeRune a rest in
            if bool_decide (r = ToolNames.RuneError ∧ length after = length rest) then None
            else match after with [] => None | _ => Some (r, after) end
        end
  end.

(** The ranges of a class, up to its end; [first] before the first range. *)
Fixpoint matchRanges (fuel : nat) (r : N) (chunk : bytes) (first matched : bool) : option (bool * bytes) :=
  match fuel with
  | O => None
  | S fuel =>
      let ranges :=
        '(lo, rest) ← getEsc chunk;
        '(hi, rest) ← match rest with
                      | a :: rest' => if byte_eq a "-" then getEsc rest' else Some (lo, rest)
                      | [] => Some (lo, rest)
                      end;
        matchRanges fuel r rest false (matched || ((lo <=? r)%N && (r <=? hi)%N)) in
      match chunk with
      | a :: rest => if byte_eq a "]" && negb first then Some (matched, rest) else ranges
      | [] => ranges
      end
  end.

(** [matchChunk]: [failed] once the text differs; the rest of the chunk is still checked.
    Every round takes a byte of the chunk. *)
Definition first_rune (s : bytes) : N * bytes :=
  match s with [] => (ToolNames.RuneError, []) | a :: rest => ToolNames.decodeRune a rest end.
Fixpoint matchChunk (fuel : nat) (chunk s : bytes) (failed : bool) : option (option bytes) :=
  match fuel, chunk with
  | _, [] => Some (if failed then None else Some s)
  | O, _ => None
  | S fuel, a :: chunk =>
      let failed := failed || bool_decide (s = []) in
      let literal c chunk :=
        match s with
        | b :: s' => if failed then matchChunk fuel chunk s true else matchChunk fuel chunk s' (negb (byte_eq c b))
        | [] => matchChunk fuel chunk s true
        end in
      if byte_eq a "[" then
        let '(r, s') := if failed then (0%N, s) else first_rune s in
        let '(negated, chunk) := match chunk with
                                 | b :: chunk' => if byte_eq b "^" then (true, chunk') else (false, chunk)
                                 | [] => (false, chunk)
                                 end in
        '(matched, chunk) ← matchRanges (S (length chunk)) r chunk true false;
        matchChunk fuel chunk s' (failed || Bool.eqb matched negated)
      else if byte_eq a "?" then
        if failed then matchChunk fuel chunk s true
        else matchChunk fuel chunk (first_rune s).2 (match s with b :: _ => byte_eq b slash | [] => true end)
      else if byte_eq a backslash then
        match chunk with [] => None | c :: chunk => literal c chunk end
      else literal a chunk
  end.
Definition matchChunkOf (chunk s : bytes) := matchChunk (length chunk) chunk s false.

(** After a star: the leftmost place at which the chunk matches, within the segment. *)
Fixpoint matchAfterStar (chunk : bytes) (last : bool) (name : bytes) : option (option bytes) :=
  match name with
  | [] => Some None
  | b :: name =>
      if byte_eq b slash then Some None
      else match matchChunkOf chunk name with
           | None => None
           | Some (Some t) => if last && bool_decide (t ≠ []) then matchAfterStar chunk last name else Some (Some t)
           | Some None => matchAfterStar chunk last name
           end
  end.

(** The chunks that are left are checked before a mismatch is reported. *)
Fixpoint checkRest (fuel : nat) (pattern : bytes) : option bool :=
  match fuel, pattern with
  | O, _ | _, [] => Some false
  | S fuel, _ =>
      let '(_, chunk, pattern) := scanChunk pattern in
      match matchChunkOf chunk [] with None => None | Some _ => checkRest fuel pattern end
  end.

Fixpoint matchLoop (fuel : nat) (pattern name : bytes) : option bool :=
  match fuel, pattern with
  | _, [] => Some (bool_decide (name = []))
  | O, _ => None
  | S fuel, _ =>
      let '(star, chunk, rest) := scanChunk pattern in
      if star && bool_decide (chunk = []) then Some (negb (existsb (λ b, byte_eq b slash) name))
      else
        let mismatch :=
          match (if star then matchAfterStar chunk (bool_decide (rest = [])) name else Some None) with
          | None => None
          | Some (Some t) => matchLoop fuel rest t
          | Some None => checkRest fuel rest
          end in
        match matchChunkOf chunk name with
        | None => None
        | Some (Some t) => if bool_decide (t = [] ∨ rest ≠ []) then matchLoop fuel rest t else mismatch
        | Some None => mismatch
        end
  end.

(** Every round takes a byte of the pattern. *)
Definition Match (pattern name : string) : option bool :=
  let pattern := String.list_ascii_of_string pattern in
  matchLoop (length pattern) pattern (String.list_ascii_of_string name).

Example Match_tests :
  (Match "github.com/*/app" "github.com/org/app", Match "github.com/*/app" "github.com/a/b/app",
   Match "a[b-d]?\*" "acx*", Match "*b*d" "abcbd", Match "[" "x", Match "a*[" "b")
  = (Some true, Some false, Some true, Some true, None, None).
Proof. vm_compute. reflexivity. Qed.

(** ** Workspaces *)

Record WorkspaceGitCheckout := { gc_URL : string; gc_Ref : string; gc_Path : string }.
Record Workspace := { ws_Checkouts : list WorkspaceGitCheckout; ws_CWD : string }.
Record PreparedWorkspace := { pw_Root : string; pw_CWD : string }.

Inductive PathError := PathRequired | PathBackslash | PathAbsolute | PathOutside.

Definition normalizeWorkspaceRelPath (value : string) : result PathError string :=
  let value := TrimSpace value in
  if decide (value = "") then Err PathRequired
  else if ContainsByte value "\" then Err PathBackslash
  else if HasPrefix value "/" then Err PathAbsolute
  else let cleaned := Clean value in
       if bool_decide (cleaned = "." ∨ cleaned = "..") || HasPrefix cleaned "../" then Err PathOutside else Ok cleaned.

Definition workspacePathContains (parent child : string) : bool :=
  let parent := TrimByte (Clean parent) "/" in
  let child := TrimByte (Clean child) "/" in
  bool_decide (parent = child) || HasPrefix child (parent +:+ "/").
Definition workspacePathOverlaps (a b : string) : bool := workspacePathContains a b || workspacePathContains b a.

(** *** Repositories *)

(** What the code reads of a parsed [url.URL]. *)
Record URL := {
  url_Scheme : string; url_Host : string; url_Path : string; url_RawQuery : string; url_Fragment : string; url_User : bool }.

Inductive GitError :=
  | GitURLRequired | GitURLParse | GitLocalPath | GitSchemeRequired | GitQuery | GitUserinfo
  | GitFileHost | GitFilePath | GitScheme (scheme : string) | GitPathRequired | GitPathInvalid.

Definition regexp_space : string := String.string_of_list_ascii (map ascii_of_nat [9; 10; 12; 13; 32]).

(** [scpGitURLPattern]: [user@host:path], without a slash or space in the user. *)
Definition scpGitURL (raw : string) : option (string * string) :=
  match Cut raw "@" with
  | None => None
  | Some (user, rest) =>
      if bool_decide (user = "") || ContainsAny user (regexp_space +:+ "/\") then None
      else match Cut rest ":" with
           | None => None
           | Some (host, path) =>
               if bool_decide (host = "" ∨ path = "") || ContainsAny host regexp_space || ContainsByte path "010" then None
               else Some (host, path)
           end
  end.

Section git.
Context (ToLower : string → string) (ParseURL : string → option URL).

Definition canonicalGitIdentity (host repoPath : string) : result GitError string :=
  let host := ToLower (TrimSpace host) in
  let repoPath := TrimSpace repoPath in
  if decide (repoPath = "") then Err GitPathRequired
  else
    let repoPath := TrimPrefix repoPath "/" in
    let repoPath := TrimSuffix (Clean repoPath) ".git" in
    if bool_decide (repoPath = "." ∨ repoPath = "") || HasPrefix repoPath "../" then Err GitPathInvalid
    else if decide (host = "") then Ok repoPath else Ok (host +:+ "/" +:+ repoPath).

Definition canonicalGitRepositoryIdentity (raw : string) (allowSchemeLess : bool) : result GitError string :=
  let raw := TrimSpace raw in
  if decide (raw = "") then Err GitURLRequired
  else match scpGitURL raw with
  | Some (host, path) => canonicalGitIdentity host path
  | None =>
      match ParseURL raw with
      | None => Err GitURLParse
      | Some parsed =>
          if decide (url_Scheme parsed = "") then
            if HasPrefix raw "/" || HasPrefix raw "." then Err GitLocalPath
            else if negb allowSchemeLess then Err GitSchemeRequired
            else canonicalGitIdentity "" raw
          else if bool_decide (url_RawQuery parsed ≠ "" ∨ url_Fragment parsed ≠ "") then Err GitQuery
          else if url_User parsed then Err GitUserinfo
          else
            let scheme := ToLower (url_Scheme parsed) in
            if bool_decide (scheme ∈ ["https"; "http"; "ssh"; "git"]) then canonicalGitIdentity (url_Host parsed) (url_Path parsed)
            else if decide (scheme = "file") then
              if bool_decide (url_Host parsed ≠ "" ∧ url_Host parsed ≠ "localhost") then Err GitFileHost
              else let localPath := Clean (url_Path parsed) in
                   if bool_decide (localPath = ".") || negb (HasPrefix localPath "/") then Err GitFilePath
                   else Ok ("file://" +:+ TrimSuffix localPath ".git")
            else Err (GitScheme (url_Scheme parsed))
      end
  end.
Definition CanonicalGitRepositoryIdentity (raw : string) := canonicalGitRepositoryIdentity raw false.
Definition CanonicalGitRepositoryAllowlistIdentity (raw : string) := canonicalGitRepositoryIdentity raw true.

(** *** Validation *)

Inductive WorkspaceError :=
  | CheckoutsRequired
  | CheckoutURLRequired (i : nat)
  | CheckoutPath (i : nat) (e : PathError)
  | CheckoutOverlaps (i : nat) (existing : string)
  | CheckoutURL (i : nat) (e : GitError)
  | WorkspaceCWD (e : PathError)
  | CWDOutside.

(** One round per checkout; [paths] are those before it. *)
Fixpoint validateCheckouts (i : nat) (checkouts : list WorkspaceGitCheckout) (paths : list string)
    : result WorkspaceError (list string) :=
  match checkouts with
  | [] => Ok paths
  | checkout :: checkouts =>
      if decide (TrimSpace (gc_URL checkout) = "") then Err (CheckoutURLRequired i)
      else match normalizeWorkspaceRelPath (gc_Path checkout) with
      | Err e => Err (CheckoutPath i e)
      | Ok normalized =>
          match find (λ existing, workspacePathOverlaps existing normalized) paths with
          | Some existing => Err (CheckoutOverlaps i existing)
          | None =>
              match CanonicalGitRepositoryIdentity (gc_URL checkout) with
              | Err e => Err (CheckoutURL i e)
              | Ok _ => validateCheckouts (S i) checkouts (paths ++ [normalized])
              end
          end
      end
  end.

Definition ValidateWorkspace (workspace : option Workspace) : result WorkspaceError unit :=
  match workspace with
  | None => Ok tt
  | Some w =>
      if decide (ws_Checkouts w = []) then Err CheckoutsRequired
      else let! paths := validateCheckouts 0 (ws_Checkouts w) [] in
           match normalizeWorkspaceRelPath (ws_CWD w) with
           | Err e => Err (WorkspaceCWD e)
           | Ok cwd => if existsb (λ p, workspacePathContains p cwd) paths then Ok tt else Err CWDOutside
           end
  end.

Fixpoint normalizeCheckouts (i : nat) (checkouts : list WorkspaceGitCheckout) : result WorkspaceError (list WorkspaceGitCheckout) :=
  match checkouts with
  | [] => Ok []
  | c :: checkouts =>
      match normalizeWorkspaceRelPath (gc_Path c) with
      | Err e => Err (CheckoutPath i e)
      | Ok normalized =>
          let! rest := normalizeCheckouts (S i) checkouts in
          Ok ({| gc_URL := TrimSpace (gc_URL c); gc_Ref := TrimSpace (gc_Ref c); gc_Path := normalized |} :: rest)
      end
  end.

Definition NormalizeWorkspace (src : option Workspace) : result WorkspaceError (option Workspace) :=
  match src with
  | None => Ok None
  | Some w =>
      let! checkouts := normalizeCheckouts 0 (ws_Checkouts w) in
      match normalizeWorkspaceRelPath (ws_CWD w) with
      | Err e => Err (WorkspaceCWD e)
      | Ok cwd =>
          let out := Some {| ws_Checkouts := checkouts; ws_CWD := cwd |} in
          let! _ := ValidateWorkspace out in Ok out
      end
  end.

(** ** The policy of a provider *)

Record RuntimePlacementWorkspaceGitConfig := { gp_AllowedRepositories : list string }.
Record RuntimePlacementWorkspaceConfig := { wp_PrepareTimeout : string; wp_Git : option RuntimePlacementWorkspaceGitConfig }.

Inductive PolicyError :=
  | AllowedRepositoriesRequired
  | InvalidCheckoutURL (i : nat) (e : GitError)
  | RepositoryNotAllowed (repository : string).

Fixpoint workspaceRepositoryAllowed_ (repository : string) (allowed : list string) : bool :=
  match allowed with
  | [] => false
  | candidate :: allowed =>
      let candidate := TrimSpace candidate in
      let admits :=
        if decide (candidate = "") then false
        else if ContainsByte candidate "*" then match Match candidate repository with Some true => true | _ => false end
        else let allowedIdentity := match CanonicalGitRepositoryAllowlistIdentity candidate with Ok a => a | Err _ => candidate end in
             bool_decide (allowedIdentity = repository) in
      if (admits : bool) then true else workspaceRepositoryAllowed_ repository allowed
  end.
Definition workspaceRepositoryAllowed (repository : string) := workspaceRepositoryAllowed_ (TrimSpace repository).

Fixpoint allowCheckouts (i : nat) (checkouts : list WorkspaceGitCheckout) (allowed : list string) : result PolicyError unit :=
  match checkouts with
  | [] => Ok tt
  | checkout :: checkouts =>
      match CanonicalGitRepositoryIdentity (gc_URL checkout) with
      | Err e => Err (InvalidCheckoutURL i e)
      | Ok repository =>
          if negb (workspaceRepositoryAllowed repository allowed) then Err (RepositoryNotAllowed repository)
          else allowCheckouts (S i) checkouts allowed
      end
  end.

Definition validateWorkspacePolicy (workspace : option Workspace) (policy : option RuntimePlacementWorkspaceConfig)
    : result PolicyError unit :=
  match workspace with
  | None => Ok tt
  | Some w =>
      let allowed := match p ← policy; wp_Git p with Some g => gp_AllowedRepositories g | None => [] end in
      if decide (allowed = []) then Err AllowedRepositoriesRequired else allowCheckouts 0 (ws_Checkouts w) allowed
  end.
End git.

Definition hostedAgentWorkspacePrepareTimeout (TimeParseDuration : string → option duration) (cfg : option RuntimePlacementWorkspaceConfig) : duration :=
  let defaultTimeout := (10 * Minute)%Z in
  match cfg with
  | None => defaultTimeout
  | Some c =>
      if decide (TrimSpace (wp_PrepareTimeout c) = "") then defaultTimeout
      else match RegistryConfig.ParseDuration TimeParseDuration (wp_PrepareTimeout c) with
           | Ok timeout => if (timeout <=? 0)%Z then defaultTimeout else timeout
           | Err _ => defaultTimeout
           end
  end.

(** *** What the runtime prepared *)

Inductive PreparedError := PreparedRequired | PreparedRootCWDRequired | PreparedNotAbsolute | PreparedOutside.

Definition preparedWorkspacePathWithin (root cwd : string) : bool :=
  let rel := Rel root cwd in
  bool_decide (rel = ".") || (bool_decide (rel ≠ "..") && negb (HasPrefix rel "../")).

Definition validatePreparedAgentWorkspace (workspace : option PreparedWorkspace) : result PreparedError PreparedWorkspace :=
  match workspace with
  | None => Err PreparedRequired
  | Some w =>
      let root := TrimSpace (pw_Root w) in
      let cwd := TrimSpace (pw_CWD w) in
      if decide (root = "" ∨ cwd = "") then Err PreparedRootCWDRequired
      else if negb (IsAbs root) || negb (IsAbs cwd) then Err PreparedNotAbsolute
      else if negb (preparedWorkspacePathWithin root cwd) then Err PreparedOutside
      else Ok {| pw_Root := root; pw_CWD := cwd |}
  end.

(** ** Cleaned paths *)

Definition plain (seg : string) : Prop := seg ≠ "" ∧ seg ≠ "." ∧ seg ≠ ".." ∧ ContainsByte seg slash = false.

(** A path as the list of the segments that lead to it from the root of the workspace. *)
Definition place (path : string) (segs : list string) : Prop :=
  normalizeWorkspaceRelPath path = Ok (joined segs) ∧ segs ≠ [] ∧ Forall plain segs.

Definition disjoint_places (a b : list string) : Prop := ¬ a `prefix_of` b ∧ ¬ b `prefix_of` a.

Definition stack_shape (rooted : bool) (out : list string) : Prop :=
  ∃ ps n, out = ps ++ replicate n ".." ∧ Forall plain ps ∧ (rooted = true → n = 0).

Lemma clean_step_shape rooted out seg :
  stack_shape rooted out → ContainsByte seg slash = false → stack_shape rooted (clean_step rooted out seg).
Proof.
  intros (ps & n & -> & Hps & Hn) Hseg. unfold clean_step. case_decide as H1; [by exists ps, n|]. case_decide as H2.
  - destruct ps as [|p ps]; cbn.
    + destruct n as [|n]; cbn.
      * destruct rooted; [by exists [], 0|by exists [], 1].
      * exists [], (S (S n)). split_and!; [done..|]. intros Hr. by specialize (Hn Hr).
    + apply Forall_cons in Hps as [(_ & _ & Hp & _) Hps]. rewrite decide_False by done. by exists ps, n.
  - exists (seg :: ps), n. split_and!; [done| |done]. constructor; [|done]. unfold plain. tauto.
Qed.

Lemma clean_fold_shape rooted segs out :
  stack_shape rooted out → Forall (λ s, ContainsByte s slash = false) segs →
  stack_shape rooted (foldl (clean_step rooted) out segs).
Proof.
  intros Ho Hs. revert out Ho. induction Hs as [|s segs Hs Hss IH]; intros out Ho; cbn; [done|].
  apply IH. by apply clean_step_shape.
Qed.

(** Only leading [..] remain, and none of a rooted path. *)
Lemma clean_segments_shape path :
  ∃ n segs, clean_segments path = replicate n ".." ++ segs ∧ Forall plain segs ∧ (HasPrefix path "/" = true → n = 0).
Proof.
  unfold clean_segments. destruct (clean_fold_shape (HasPrefix path "/") (segments path) []) as (ps & n & -> & Hps & Hn).
  - exists [], 0. auto.
  - apply Forall_forall. intros s Hs. by eapply Split_parts.
  - exists n, (reverse ps). rewrite reverse_app, reverse_replicate. split_and!; [done| |done].
    by rewrite Forall_reverse.
Qed.

Lemma plain_slash segs : Forall plain segs → Forall (λ s, ContainsByte s slash = false) segs.
Proof. intros H. eapply Forall_impl; [exact H|]. by intros s (_ & _ & _ & ?). Qed.

Lemma segments_joined segs :
  Forall (λ s, ContainsByte s slash = false) segs → segs ≠ [] → segments (joined segs) = segs.
Proof.
  induction 1 as [|s segs Hs Hss IH]; [done|]. intros _. destruct segs as [|s' segs].
  - by apply Split_single.
  - rewrite Join_cons by done. rewrite Split_app by done. by rewrite IH.
Qed.

Lemma segments_joined_app segs r :
  Forall (λ s, ContainsByte s slash = false) segs → segs ≠ [] →
  segments (joined segs +:+ String slash r) = segs ++ segments r.
Proof.
  induction 1 as [|s segs Hs Hss IH]; [done|]. intros _. destruct segs as [|s' segs].
  - by apply Split_app.
  - rewrite Join_cons by done. rewrite <-string_app_assoc, string_cons_app, Split_app by done. by rewrite IH.
Qed.

Lemma joined_app a b : a ≠ [] → b ≠ [] → joined (a ++ b) = joined a +:+ String slash (joined b).
Proof.
  intros Ha Hb. induction a as [|s a IH]; [done|]. destruct a as [|s' a].
  - cbn [app]. by rewrite Join_cons.
  - rewrite <-app_comm_cons, !Join_cons by done. rewrite IH by done. by rewrite <-string_app_assoc.
Qed.

Lemma clean_push rooted segs out : Forall plain segs → foldl (clean_step rooted) out segs = reverse segs ++ out.
Proof.
  intros H. revert out. induction H as [|s segs (H1 & H2 & H3 & _) Hs IH]; intros out; [done|]. cbn [foldl].
  rewrite IH. unfold clean_step. rewrite !decide_False by tauto. by rewrite reverse_cons, <-app_assoc.
Qed.

Lemma plain_unrooted segs : Forall plain segs → HasPrefix (joined segs) "/" = false.
Proof.
  intros [|s segs' (H1 & _ & _ & Hs) _]; [done|].
  assert (∃ a t, joined (s :: segs') = String a t ∧ a ≠ slash) as (a & t & -> & Ha).
  { destruct s as [|a s]; [done|]. cbn in Hs. apply orb_false_iff in Hs as [Ha%bool_decide_eq_false _].
    exists a. destruct segs'; [by exists s|]. rewrite Join_cons by done. rewrite string_cons_app. eauto. }
  unfold HasPrefix. cbn [String.prefix]. destruct (ascii_dec "/" a) as [<-|]; [by destruct Ha|done].
Qed.

Lemma clean_plain segs : Forall plain segs → segs ≠ [] → clean_segments (joined segs) = segs ∧ Clean (joined segs) = joined segs.
Proof.
  intros H Hne. assert (clean_segments (joined segs) = segs) as E.
  { unfold clean_segments. rewrite segments_joined by auto using plain_slash. rewrite clean_push by done.
    by rewrite app_nil_r, reverse_involutive. }
  split; [done|]. unfold Clean. rewrite E, plain_unrooted by done. by destruct segs.
Qed.

(** *** What normalization accepts *)

Lemma normalize_place path r : normalizeWorkspaceRelPath path = Ok r → ∃ segs, r = joined segs ∧ place path segs.
Proof.
  intros Hn. pose proof Hn as Hn'. unfold normalizeWorkspaceRelPath in Hn'. cbn zeta in Hn'.
  case_decide; [done|]. destruct (ContainsByte _ _); [done|]. destruct (HasPrefix (TrimSpace path) "/") eqn:Hr; [done|].
  destruct (_ || _) eqn:E; [done|]. apply orb_false_iff in E as [E1%bool_decide_eq_false E2]. injection Hn' as <-.
  destruct (clean_segments_shape (TrimSpace path)) as (n & segs & Hc & Hs & _). unfold Clean in *. rewrite Hr, Hc in *.
  exists (replicate n ".." ++ segs).
  destruct n as [|n]; cbn [replicate app] in *.
  - destruct segs as [|s segs]; [tauto|]. split; [done|]. by split_and!.
  - exfalso. destruct (replicate n ".." ++ segs) as [|s rest] eqn:Es; [tauto|].
    rewrite Join_cons in E2 by done. change (".." +:+ String slash ?x) with ("../" +:+ x) in E2.
    by rewrite HasPrefix_app in E2.
Qed.

(** *** Containment of places *)

Lemma TrimRight_app a b c : TrimRightByte b c = b → b ≠ "" → TrimRightByte (a +:+ b) c = a +:+ b.
Proof.
  intros Hb Hne. induction a as [|x a IH]; [done|]. rewrite string_cons_app. cbn. rewrite IH.
  destruct (a +:+ b) eqn:E; [|done]. destruct a; [by cbn in E|]. by rewrite string_cons_app in E.
Qed.

Lemma TrimRight_without s c : ContainsByte s c = false → TrimRightByte s c = s.
Proof.
  induction s as [|a s IH]; [done|]. cbn. intros [Ha%bool_decide_eq_false Hs]%orb_false_iff. rewrite IH by done.
  destruct s; [|done]. by rewrite decide_False.
Qed.

Lemma TrimRight_joined segs : Forall plain segs → TrimRightByte (joined segs) slash = joined segs.
Proof.
  intros H. destruct (decide (segs = [])) as [->|Hne]; [done|].
  destruct (exists_last Hne) as (init & s & ->). apply Forall_app in H as [_ [(H1 & _ & _ & Hs) _]%Forall_cons].
  destruct (decide (init = [])) as [->|Hi]; [by apply TrimRight_without|].
  rewrite joined_app by done. pose proof (TrimRight_app (joined init +:+ "/") s slash (TrimRight_without s slash Hs) H1) as Ht.
  rewrite <-string_app_assoc in Ht. exact Ht.
Qed.

Lemma TrimByte_joined segs : Forall plain segs → TrimByte (joined segs) slash = joined segs.
Proof.
  intros H. unfold TrimByte. assert (TrimLeftByte (joined segs) slash = joined segs) as ->; [|by apply TrimRight_joined].
  pose proof (plain_unrooted segs H) as Hp. destruct (joined segs) as [|a t]; [done|]. cbn. case_decide as Ha; [|done].
  subst a. unfold HasPrefix in Hp. cbn [String.prefix] in Hp. by destruct t.
Qed.

Lemma contains_places a b :
  Forall plain a → a ≠ [] → Forall plain b → b ≠ [] → workspacePathContains (joined a) (joined b) = true ↔ a `prefix_of` b.
Proof.
  intros Ha Hna Hb Hnb. unfold workspacePathContains. cbn zeta. rewrite (proj2 (clean_plain a Ha Hna)), (proj2 (clean_plain b Hb Hnb)).
  rewrite !TrimByte_joined by done. rewrite orb_true_iff, bool_decide_eq_true, HasPrefix_spec. split.
  - intros [E|[r E]].
    + rewrite <-(segments_joined a), <-(segments_joined b), E by auto using plain_slash. done.
    + exists (segments r). rewrite <-(segments_joined b), E by auto using plain_slash. rewrite <-string_app_assoc.
      change ("/" +:+ r) with (String slash r). by rewrite segments_joined_app by auto using plain_slash.
  - intros [[|t ts] ->]; [left; by rewrite app_nil_r|right]. exists (joined (t :: ts)).
    rewrite joined_app by done. by rewrite <-string_app_assoc.
Qed.

Lemma overlaps_places a b :
  Forall plain a → a ≠ [] → Forall plain b → b ≠ [] →
  workspacePathOverlaps (joined a) (joined b) = false ↔ disjoint_places a b.
Proof.
  intros. unfold workspacePathOverlaps, disjoint_places. rewrite orb_false_iff, <-!not_true_iff_false, !contains_places by done.
  done.
Qed.

(** ** Validation *)

Fixpoint apart (places : list (list string)) : Prop :=
  match places with
  | [] => True
  | a :: places => Forall (disjoint_places a) places ∧ apart places
  end.

Lemma apart_lookup places :
  apart places ↔ ∀ i j a b, i ≠ j → places !! i = Some a → places !! j = Some b → ¬ a `prefix_of` b.
Proof.
  induction places as [|x places IH]; [done|]. cbn [apart]. rewrite IH, Forall_forall. split.
  - intros [Hx Hp] [|i] [|j] a b Hij; cbn; [done|..].
    + intros [= <-] Hb. apply Hx. by eapply list_elem_of_lookup_2.
    + intros Ha [= <-]. apply Hx. by eapply list_elem_of_lookup_2.
    + apply Hp. lia.
  - intros Hp. split.
    + intros b Hb. apply list_elem_of_lookup_1 in Hb as [j Hj]. split; [by apply (Hp 0 (S j))|by apply (Hp (S j) 0)].
    + intros i j a b Hij. apply (Hp (S i) (S j)). lia.
Qed.

Section validation.
Context (ToLower : string → string) (ParseURL : string → option URL).

Definition valid_checkout (c : WorkspaceGitCheckout) (segs : list string) : Prop :=
  TrimSpace (gc_URL c) ≠ "" ∧ place (gc_Path c) segs
  ∧ ∃ repository, CanonicalGitRepositoryIdentity ToLower ParseURL (gc_URL c) = Ok repository.

Definition placed (p : string) (segs : list string) : Prop := p = joined segs ∧ segs ≠ [] ∧ Forall plain segs.

Lemma place_functional path a b : place path a → place path b → a = b.
Proof.
  intros (Ea & Hna & Ha) (Eb & Hnb & Hb). rewrite Ea in Eb. injection Eb as E.
  rewrite <-(segments_joined a), <-(segments_joined b), E by auto using plain_slash. done.
Qed.

Lemma find_overlap paths places segs :
  Forall2 placed paths places → segs ≠ [] → Forall plain segs →
  find (λ p, workspacePathOverlaps p (joined segs)) paths = None ↔ Forall (λ p, disjoint_places p segs) places.
Proof.
  intros Hp Hn Hs. induction Hp as [|p a paths places (-> & Hna & Ha) Hp IH]; [done|]. cbn. rewrite Forall_cons, <-IH.
  pose proof (overlaps_places a segs Ha Hna Hs Hn) as Ho. destruct (workspacePathOverlaps _ _).
  - split; [done|]. intros [Hd _]. by apply Ho in Hd.
  - split; [|by intros [_ ?]]. intros Hf. split; [by apply Ho|done].
Qed.

Lemma validateCheckouts_spec i checkouts paths places out :
  Forall2 placed paths places →
  validateCheckouts ToLower ParseURL i checkouts paths = Ok out ↔
  ∃ news, Forall2 valid_checkout checkouts news ∧ Forall (λ a, Forall (λ p, disjoint_places p a) places) news ∧ apart news
          ∧ out = paths ++ map (λ s, joined s) news.
Proof.
  revert i paths places. induction checkouts as [|c cs IH]; intros i paths places Hp; cbn [validateCheckouts].
  { split.
    - intros [= <-]. exists []. rewrite app_nil_r. by repeat constructor.
    - intros (news & ->%Forall2_nil_inv_l & _ & _ & ->). cbn. by rewrite app_nil_r. }
  split.
  - case_decide as Hu; [done|]. destruct (normalizeWorkspaceRelPath (gc_Path c)) as [n|e] eqn:En; [|done].
    destruct (normalize_place _ _ En) as (segs & -> & Hplace). pose proof Hplace as (_ & Hne & Hs).
    destruct (find _ _) eqn:Ef; [done|]. apply (find_overlap paths places) in Ef; [|done..].
    destruct (CanonicalGitRepositoryIdentity _ _ _) as [repository|e] eqn:Ec; [|done]. intros Hv.
    apply (IH _ _ (places ++ [segs])) in Hv as (news & Hnews & Hap & Hpart & ->);
      [|by apply Forall2_app; [|repeat constructor]].
    exists (segs :: news). split_and!.
    + constructor; [|done]. split_and!; [done..|eauto].
    + constructor; [done|]. eapply Forall_impl; [exact Hap|]. by intros a [? _]%Forall_app.
    + split; [|done]. apply Forall_forall. intros a Ha. rewrite Forall_forall in Hap.
      specialize (Hap a Ha). apply Forall_app in Hap as [_ [Hd _]%Forall_cons]. done.
    + cbn. by rewrite <-app_assoc.
  - intros (news & Hnews & Hap & Hpart & ->). destruct news as [|segs news]; [by apply Forall2_nil_inv_r in Hnews|].
    apply Forall2_cons in Hnews as [(Hu & Hplace & repository & Hr) Hnews]. pose proof Hplace as (En & Hne & Hs).
    rewrite decide_False by done. rewrite En. apply Forall_cons in Hap as [Hseg Hap]. destruct Hpart as [Hsegs Hpart].
    destruct (find _ _) eqn:Ef; [by apply (find_overlap paths places) in Hseg; [rewrite Ef in Hseg|..]|]. rewrite Hr.
    apply (IH _ _ (places ++ [segs])); [by apply Forall2_app; [|repeat constructor]|].
    exists news. split_and!; [done| |done|cbn; by rewrite <-app_assoc].
    rewrite Forall_forall in *. intros a Ha. apply Forall_app. split; [by apply Hap|]. repeat constructor; by apply Hsegs.
Qed.

Lemma valid_places checkouts places segs :
  Forall2 valid_checkout checkouts places → segs ∈ places → segs ≠ [] ∧ Forall plain segs.
Proof.
  induction 1 as [|c p checkouts places (_ & (_ & Hp) & _) _ IH]; [by intros ?%elem_of_nil|].
  intros [->|?]%elem_of_cons; auto.
Qed.

(** C25. [ValidateWorkspace] accepts a workspace exactly when it has checkouts, each has a URL that
    names a repository and a relative path that stays inside the workspace, no checkout lies in
    another one, and the working directory lies in one of them: for paths as lists of
    segments, none of which is empty, [.] or [..]. *)
Theorem ValidateWorkspace_correct w :
  ValidateWorkspace ToLower ParseURL (Some w) = Ok tt ↔
  ws_Checkouts w ≠ [] ∧
  ∃ places cwd,
    Forall2 valid_checkout (ws_Checkouts w) places ∧ place (ws_CWD w) cwd
    ∧ (∀ i j a b, i ≠ j → places !! i = Some a → places !! j = Some b → ¬ a `prefix_of` b)
    ∧ ∃ p, p ∈ places ∧ p `prefix_of` cwd.
Proof.
  unfold ValidateWorkspace. assert (∀ out, validateCheckouts ToLower ParseURL 0 (ws_Checkouts w) [] = Ok out ↔ _) as Hv
    by (intros out; by apply (validateCheckouts_spec 0 _ [] [])).
  assert (∀ places cwd, Forall2 valid_checkout (ws_Checkouts w) places → place (ws_CWD w) cwd →
            existsb (λ p, workspacePathContains p (joined cwd)) (map (λ s, joined s) places) = true
            ↔ ∃ p, p ∈ places ∧ p `prefix_of` cwd) as Hin.
  { intros places cwd Hp (_ & Hcn & Hcs). rewrite existsb_exists. split.
    - intros (p & (segs & <- & Hs)%in_map_iff & Hc). exists segs. apply list_elem_of_In in Hs. split; [done|].
      destruct (valid_places _ _ _ Hp Hs) as [Hn Hsegs].
      by apply contains_places in Hc.
    - intros (segs & Hs & Hc). exists (joined segs). destruct (valid_places _ _ _ Hp Hs) as [Hn Hsegs].
      split; [apply in_map_iff; exists segs; split; [done|by apply list_elem_of_In]|]. by apply contains_places. }
  split.
  - case_decide as Hne; [done|]. destruct (validateCheckouts _ _ _ _ _) as [paths|e] eqn:Ev; [|done]. cbn.
    destruct (proj1 (Hv paths) eq_refl) as (places & Hp & _ & Hap & ->).
    destruct (normalizeWorkspaceRelPath (ws_CWD w)) as [n|e] eqn:En; [|done].
    destruct (normalize_place _ _ En) as (cwd & -> & Hcwd). cbn [app] in *. destruct (existsb _ _) eqn:Ex; [|done]. intros _.
    split; [done|]. exists places, cwd. split_and!; [done..|by apply apart_lookup|]. by apply Hin.
  - intros (Hne & places & cwd & Hp & Hcwd & Hap & Hc). rewrite decide_False by done.
    rewrite (proj2 (Hv (map (λ s, joined s) places))).
    + cbn. pose proof Hcwd as (En & _). rewrite En. by rewrite (proj2 (Hin places cwd Hp Hcwd)).
    + exists places. split_and!; [done| |by apply apart_lookup|done]. apply Forall_forall. intros a _. constructor.
Qed.
End validation.

(** ** Prepared workspaces *)

Lemma without_common_spec a b :
  let '(u, d) := without_common a b in
  ∃ c, a = c ++ u ∧ b = c ++ d ∧ (u `prefix_of` d → u = []).
Proof.
  revert b. induction a as [|x a IH]; intros b; cbn; [by exists []|]. destruct b as [|y b].
  - exists []. split_and!; [done..|]. intros [t Ht]. by destruct t.
  - case_decide as Hxy.
    + subst y. specialize (IH b). destruct (without_common a b) as [u d]. destruct IH as (c & -> & -> & Hc). by exists (x :: c).
    + exists []. split_and!; [done..|]. intros [t Ht]. by injection Ht as ->.
Qed.

Lemma plain_not_up segs : Forall plain segs → segs ≠ [] → joined segs ≠ ".." ∧ HasPrefix (joined segs) "../" = false.
Proof.
  intros Hs Hne. pose proof (segments_joined segs (plain_slash _ Hs) Hne) as E. split.
  - intros Hj. rewrite Hj in E. cbn in E. subst segs. apply Forall_cons in Hs as [(_ & _ & Hs & _) _]. done.
  - apply not_true_iff_false. intros [r Hr]%HasPrefix_spec. rewrite Hr in E.
    change ("../" +:+ r) with (".." +:+ String slash r) in E. rewrite Split_app in E by done. subst segs.
    apply Forall_cons in Hs as [(_ & _ & Hs & _) _]. done.
Qed.

Lemma rooted_plain path : HasPrefix path "/" = true → Forall plain (clean_segments path).
Proof. intros Hr. destruct (clean_segments_shape path) as (n & segs & -> & Hs & Hn). by rewrite Hn. Qed.

(** A path lies within a root exactly when, cleaned, it goes on from it. *)
Lemma prepared_within root cwd :
  IsAbs cwd = true →
  preparedWorkspacePathWithin root cwd = true ↔ clean_segments root `prefix_of` clean_segments cwd.
Proof.
  intros Hcwd%rooted_plain. unfold preparedWorkspacePathWithin, Rel.
  pose proof (without_common_spec (clean_segments root) (clean_segments cwd)) as Hw.
  destruct (without_common _ _) as [u d]. destruct Hw as (c & -> & Ec & Hu). rewrite Ec in *.
  apply Forall_app in Hcwd as [_ Hd]. cbn zeta. transitivity (u = []).
  - destruct u as [|x u]; cbn [length replicate app].
    + destruct d as [|y d]; [done|]. destruct (plain_not_up (y :: d) Hd ltac:(done)) as [H1 H2]. rewrite H2.
      rewrite (bool_decide_eq_true_2 (joined (y :: d) ≠ "..")) by done. by rewrite orb_true_r.
    + split; [|done]. intros Ht. exfalso. destruct (replicate (length u) ".." ++ d)%list as [|y rest]; [done|].
      rewrite Join_cons in Ht by done. change (".." +:+ String slash ?t) with ("../" +:+ t) in Ht.
      rewrite HasPrefix_app, andb_false_r, orb_false_r in Ht. apply bool_decide_eq_true in Ht.
      by destruct (joined (y :: rest)).
  - split; [intros ->; rewrite app_nil_r; by exists d|]. intros Hp. by apply Hu, (prefix_app_inv c).
Qed.

Lemma prepared_inside w p :
  validatePreparedAgentWorkspace w = Ok p →
  IsAbs (pw_Root p) = true ∧ IsAbs (pw_CWD p) = true ∧ clean_segments (pw_Root p) `prefix_of` clean_segments (pw_CWD p).
Proof.
  unfold validatePreparedAgentWorkspace. destruct w as [w|]; [|done]. cbn zeta. case_decide; [done|].
  destruct (IsAbs (TrimSpace (pw_Root w))) eqn:Er; cbn [negb orb]; [|done].
  destruct (IsAbs (TrimSpace (pw_CWD w))) eqn:Ec; cbn [negb]; [|done].
  destruct (preparedWorkspacePathWithin _ _) eqn:Ew; cbn [negb]; [|done]. intros [= <-]. cbn.
  split_and!; [done..|]. by apply prepared_within.
Qed.

(** ** Policies *)

Definition literal_byte (a : ascii) : bool := negb (bool_decide (a ∈ [star_byte; backslash; "["; "]"; "?"]%char)).

Lemma literal_spec a :
  literal_byte a = true →
  byte_eq a star_byte = false ∧ byte_eq a backslash = false ∧ byte_eq a "[" = false ∧ byte_eq a "]" = false
  ∧ byte_eq a "?" = false.
Proof.
  unfold literal_byte. rewrite negb_true_iff, bool_decide_eq_false. intros Ha.
  unfold byte_eq. rewrite !bool_decide_eq_false. split_and!; intros ->; apply Ha; repeat constructor.
Qed.

Lemma chunk_end_literal lit rest :
  Forall (λ a, literal_byte a = true) lit → chunk_end false (lit ++ star_byte :: rest) = (lit, star_byte :: rest).
Proof.
  induction 1 as [|a lit Ha _ IH]; [done|]. apply literal_spec in Ha as (H1 & H2 & H3 & H4 & _). cbn.
  by rewrite H2, H1, H3, H4, IH.
Qed.

Lemma matchChunk_failed lit s fuel :
  Forall (λ a, literal_byte a = true) lit → length lit ≤ fuel → matchChunk fuel lit s true = Some None.
Proof.
  intros Hl. revert fuel s. induction Hl as [|a lit Ha _ IH]; intros [|fuel] s Hf; cbn in *; [done|done|lia|].
  apply literal_spec in Ha as (_ & H2 & H3 & _ & H5). rewrite H2, H3, H5. destruct s; apply IH; lia.
Qed.

Lemma matchChunk_literal lit s fuel :
  Forall (λ a, literal_byte a = true) lit → length lit ≤ fuel →
  (∀ t, s = lit ++ t → matchChunk fuel lit s false = Some (Some t))
  ∧ ((¬ ∃ t, s = lit ++ t) → matchChunk fuel lit s false = Some None).
Proof.
  intros Hl. revert fuel s. induction Hl as [|a lit Ha Hl IH]; intros fuel s Hf.
  { destruct fuel; cbn; (split; [by intros t ->|]; intros Hn; destruct Hn; by exists s). }
  destruct fuel as [|fuel]; [cbn in Hf; lia|]. cbn in Hf. apply literal_spec in Ha as (_ & H2 & H3 & _ & H5). cbn.
  rewrite H2, H3, H5. destruct s as [|b s].
  - split; [done|]. intros _. apply matchChunk_failed; [done|lia].
  - cbn. unfold byte_eq. destruct (decide (a = b)) as [->|Hab].
    + rewrite bool_decide_eq_true_2 by done. cbn. destruct (IH fuel s ltac:(lia)) as [I1 I2]. split.
      * intros t [= ->]. by apply I1.
      * intros Hn. apply I2. intros [t ->]. apply Hn. by exists t.
    + rewrite bool_decide_eq_false_2 by done. cbn. split; [by intros t [= ? ?]|]. intros _. apply matchChunk_failed; [done|lia].
Qed.

Lemma existsb_slash l : existsb (λ b, byte_eq b slash) l = ContainsByte (String.string_of_list_ascii l) slash.
Proof. induction l as [|a l IH]; [done|]. cbn. by rewrite IH. Qed.

Lemma list_ascii_app a b :
  String.list_ascii_of_string (a +:+ b) = String.list_ascii_of_string a ++ String.list_ascii_of_string b.
Proof. induction a as [|x a IH]; [done|]. rewrite string_cons_app. cbn. by rewrite IH. Qed.

Lemma string_of_list_app a b :
  String.string_of_list_ascii (a ++ b) = String.string_of_list_ascii a +:+ String.string_of_list_ascii b.
Proof. induction a as [|x a IH]; [done|]. cbn [app String.string_of_list_ascii]. by rewrite IH, string_cons_app. Qed.

(** An entry [host/owner/*] admits exactly what lies directly under it. *)
Lemma Match_directly_under lit name :
  Forall (λ a, literal_byte a = true) (String.list_ascii_of_string lit) →
  Match (lit +:+ "*") name = Some true ↔ ∃ last, name = lit +:+ last ∧ ContainsByte last slash = false.
Proof.
  intros Hl. unfold Match. rewrite list_ascii_app. set (l := String.list_ascii_of_string lit) in *.
  set (n := String.list_ascii_of_string name). change (String.list_ascii_of_string "*") with [star_byte].
  assert (∀ fuel t, matchLoop (S fuel) [star_byte] t = Some (negb (existsb (λ b, byte_eq b slash) t))) as Hstar by done.
  assert ((∃ last, name = lit +:+ last ∧ ContainsByte last slash = false)
          ↔ ∃ t, n = l ++ t ∧ existsb (λ b, byte_eq b slash) t = false) as ->.
  { split.
    - intros (x & -> & Hx). exists (String.list_ascii_of_string x). unfold n. rewrite list_ascii_app. split; [done|].
      by rewrite existsb_slash, String.string_of_list_ascii_of_string.
    - intros (t & Ht & Hx). exists (String.string_of_list_ascii t). rewrite existsb_slash in Hx. split; [|done].
      rewrite <-(String.string_of_list_ascii_of_string name). fold n. rewrite Ht, string_of_list_app.
      unfold l. by rewrite String.string_of_list_ascii_of_string. }
  rewrite length_app. cbn [length]. replace (length l + 1) with (S (length l)) by lia.
  destruct l as [|a l'] eqn:El.
  { cbn [app]. rewrite Hstar. split; [intros [= Ht%negb_true_iff]; by exists n|]. by intros (t & -> & ->). }
  rewrite <-El in *. assert (scanChunk (l ++ [star_byte]) = (false, l, [star_byte])) as Hscan.
  { unfold scanChunk. rewrite El. cbn [app skip_stars]. inversion Hl as [|? ? Ha]; [congruence|].
    assert (x = a) as -> by congruence. apply literal_spec in Ha as (-> & _). rewrite app_comm_cons, <-El.
    by rewrite chunk_end_literal. }
  assert (matchLoop (S (length l)) (l ++ [star_byte]) n
          = match matchChunkOf l n with
            | None => None
            | Some (Some t) => matchLoop (length l) [star_byte] t
            | Some None => Some false
            end) as ->.
  { destruct (l ++ [star_byte]) as [|b p] eqn:Ep; [by rewrite El in Ep|]. cbn [matchLoop]. rewrite Hscan. cbn [andb].
    destruct (matchChunkOf l n) as [[t|]|]; [|rewrite El; by destruct l'|done]. by rewrite bool_decide_eq_true_2 by (by right). }
  destruct (matchChunk_literal l n (length l) Hl ltac:(done)) as [H1 H2]. unfold matchChunkOf.
  destruct (decide (l `prefix_of` n)) as [[t Ht]|Hn].
  - rewrite (H1 t Ht). rewrite El at 1. cbn [length]. rewrite Hstar. split.
    + intros [= Hx%negb_true_iff]. by exists t.
    + intros (t' & Ht' & Hx). rewrite Ht in Ht'. apply (inj (app l)) in Ht' as <-. by rewrite Hx.
  - rewrite (H2 Hn). split; [done|]. intros (t & Ht & _). destruct Hn. by exists t.
Qed.

Section policy.
Context (ToLower : string → string) (ParseURL : string → option URL).

(** The repositories that an entry of an allow-list stands for. *)
Definition entry_admits (entry repository : string) : Prop :=
  let entry := TrimSpace entry in
  entry ≠ "" ∧
  if ContainsByte entry "*" then Match entry repository = Some true
  else match CanonicalGitRepositoryAllowlistIdentity ToLower ParseURL entry with Ok a => a | Err _ => entry end = repository.

Lemma allowed_spec repository allowed :
  workspaceRepositoryAllowed ToLower ParseURL repository allowed = true
  ↔ ∃ entry, entry ∈ allowed ∧ entry_admits entry (TrimSpace repository).
Proof.
  unfold workspaceRepositoryAllowed. generalize (TrimSpace repository). intros r. induction allowed as [|e allowed IH]; cbn.
  { split; [done|]. by intros (e & He%elem_of_nil & _). }
  match goal with |- (if ?admits then true else _) = true ↔ _ => assert (admits = true ↔ entry_admits e r) as He; [|destruct admits] end.
  - unfold entry_admits. cbn zeta. case_decide; [naive_solver|]. destruct (ContainsByte _ _).
    + destruct (Match _ _) as [[|]|]; naive_solver.
    + rewrite bool_decide_eq_true. tauto.
  - split; [|done]. intros _. exists e. split; [constructor|by apply He].
  - rewrite IH. split.
    + intros (e' & ? & ?). exists e'. split; [by constructor|done].
    + intros (e' & [->|?]%elem_of_cons & Ha); [by apply He in Ha|eauto].
Qed.

Lemma allowCheckouts_spec i checkouts allowed :
  allowCheckouts ToLower ParseURL i checkouts allowed = Ok tt
  ↔ Forall (λ c, ∃ repository, CanonicalGitRepositoryIdentity ToLower ParseURL (gc_URL c) = Ok repository
                               ∧ ∃ entry, entry ∈ allowed ∧ entry_admits entry (TrimSpace repository)) checkouts.
Proof.
  revert i. induction checkouts as [|c cs IH]; intros i; cbn; [by split|]. rewrite Forall_cons, <-(IH (S i)).
  destruct (CanonicalGitRepositoryIdentity _ _ (gc_URL c)) as [r|e].
  - pose proof (allowed_spec r allowed) as Ha. destruct (workspaceRepositoryAllowed _ _ _ _); cbn [negb].
    + split; [|tauto]. intros H. split; [|done]. exists r. split; [done|]. by apply Ha.
    + split; [done|]. intros [(r' & [= <-] & He) _]. by apply Ha in He.
  - split; [done|]. by intros [(r' & ? & _) _].
Qed.

Lemma policy_spec w policy :
  validateWorkspacePolicy ToLower ParseURL (Some w) policy = Ok tt
  ↔ ∃ p g, policy = Some p ∧ wp_Git p = Some g ∧ gp_AllowedRepositories g ≠ []
      ∧ Forall (λ c, ∃ repository, CanonicalGitRepositoryIdentity ToLower ParseURL (gc_URL c) = Ok repository
                 ∧ ∃ entry, entry ∈ gp_AllowedRepositories g ∧ entry_admits entry (TrimSpace repository)) (ws_Checkouts w).
Proof.
  unfold validateWorkspacePolicy. destruct policy as [p|]; cbn; [destruct (wp_Git p) as [g|] eqn:Eg; cbn|].
  - case_decide as Hn.
    + split; [done|]. intros (? & g' & [= <-] & ? & ? & _). congruence.
    + rewrite allowCheckouts_spec. split; [by exists p, g|]. intros (? & g' & [= <-] & ? & _ & ?). by simplify_eq.
  - split; [done|]. intros (? & g' & [= <-] & ? & _). congruence.
  - split; [done|]. by intros (? & g' & ? & _).
Qed.
End policy.

(** ** What is found *)

Definition sample_parse (raw : string) : option URL :=
  match Split raw slash with
  | "https:" :: "" :: host :: path =>
      Some {| url_Scheme := "https"; url_Host := host; url_Path := "/" +:+ joined path; url_RawQuery := ""; url_Fragment := "";
              url_User := false |}
  | _ => None
  end.

(** [NormalizeWorkspace] returns the cleaned working directory, but validates it trimmed once
    more: cleaning [./ app] leaves a leading space, so the directory it returns is not in the
    checkout in which it was found to be. *)
Lemma normalized_cwd_outside :
  ∃ w w', NormalizeWorkspace (λ s, s) sample_parse (Some w) = Ok (Some w')
          ∧ map gc_Path (ws_Checkouts w') = ["app"] ∧ ws_CWD w' = " app"
          ∧ workspacePathContains "app" (ws_CWD w') = false.
Proof.
  exists {| ws_Checkouts := [{| gc_URL := "https://git.example/org/app"; gc_Ref := ""; gc_Path := "app" |}]; ws_CWD := "./ app" |}.
  eexists. by vm_compute.
Qed.

(** A repository path that starts with [../] is refused; the path [..] alone is not. *)
Lemma parent_is_a_repository :
  CanonicalGitRepositoryIdentity (λ s, s) sample_parse "https://git.example/../x" = Err GitPathInvalid
  ∧ CanonicalGitRepositoryIdentity (λ s, s) sample_parse "https://git.example/.." = Ok "git.example/..".
Proof. by vm_compute. Qed.

End AgentWorkspace.
