(* ===== verification/HostedPool.v ===== *)
(** * HostedPool: the pool of hosted agent runtimes

    Models [gestaltd/internal/bootstrap/hosted_agent_pool.go] and the compatibility check of
    [hosted_runtime_compatibility.go].  A pool keeps between [MinReadyInstances] and
    [MaxReadyInstances] runtime instances ready, routes sessions, turns and interactions to
    the instance that has them, replaces instances that fail or near the end of their
    runtime session, and closes an instance after the calls on it have drained.

    The file has the state under the pool's mutex and the sections that run under it, each
    a function on [Pool], and the methods and goroutines as programs of such sections and of
    calls to the outside ([ObjectStore.prog]), so that they interleave as goroutines do.
    [HostedPoolSafety] proves what holds under every interleaving.

    - A pointer to an instance is its number; [pl_heap] has the mutable fields of every
      instance there ever was, [pl_backends] those that are members of the pool.
    - A goroutine that is started is a [Job] of the pool until a process runs it; the wait
      groups are counters.
    - Launching an instance and the calls to it and to its runtime are the parameters
      [Outside] on a state of their own; the calls that reach an instance, its closing and
      the preparation of a workspace are written to a trace.
    - A context is the number of rounds for which a loop finds it alive, and the error it
      has then.  Launching in a context that is done fails.
    - Where the code loops until its context is done or a wait group is empty, the model
      counts rounds, and the theorems hold for every number of them.  [ensureMinReady] and the
      acquisitions run out with the error of the context.  [claimRounds], whose loop in
      [CreateSession] has no such branch, releases the instance and answers the same error.
      [Close] polls the two wait groups and answers [None] when it runs out.  So each
      prefix of these loops is covered, and nothing is said about whether they end; the wait
      of [drainAndCloseBackend] is the one with a deadline, for which the rounds suffice.
    - The goroutines of [Ping] run one after the other; another process may run between any
      two of their steps.  The pings of probes and health checks are not written to the
      trace: they are not calls through a method, and hold no use of the instance.
    - Metrics and logging are left out. *)

From stdpp Require Import base gmap strings list sorting sets.
From Stdlib Require Import ZArith Lia.
From S2P Require Import Prelude ObjectStore AgentWorkspace.

Set Default Goal Selector "!".

Module HostedPool.

(** ** Runtime sessions *)

Record RuntimeSessionLifecycle := {
  lc_StartedAt : option time; lc_ExpiresAt : option time; lc_RecommendedDrainAt : option time }.
Record RuntimeSession := {
  rs_State : string; rs_Metadata : gmap string string; rs_Lifecycle : option RuntimeSessionLifecycle }.

Definition hostedRuntimeMetadataImageMatch := "runtime.imageMatch".
Definition hostedRuntimeMetadataExpectedImage := "runtime.expectedImage".
Definition hostedRuntimeMetadataCurrentImage := "runtime.currentImage".
Definition hostedRuntimeMetadataActualImage := "runtime.actualImage".
Definition hostedRuntimeMetadataTemplate := "runtime.template".

Definition SessionStateStopped := "stopped".
Definition SessionStateFailed := "failed".

(** Why an instance is given up; the code has the formatted message, empty for no reason. *)
Inductive Reason :=
  | ImageMismatch (template expected actual : string)
  | EnteredState (state : string)
  | Expired (at_ : time)
  | ReachedDrain (at_ : time)
  | ApproachingDrain (at_ : time).

(** [strconv.ParseBool] *)
Definition ParseBool (s : string) : option bool :=
  if bool_decide (s ∈ ["1"; "t"; "T"; "true"; "TRUE"; "True"]) then Some true
  else if bool_decide (s ∈ ["0"; "f"; "F"; "false"; "FALSE"; "False"]) then Some false
  else None.

Definition parseRuntimeImageMatch (raw : string) : option bool :=
  let raw := TrimSpace raw in if decide (raw = "") then None else ParseBool raw.

Definition hostedRuntimeImageMismatchReason (template expected actual : string) : Reason :=
  ImageMismatch (if decide (template = "") then "runtime template" else template)
    (if decide (expected = "") then "unknown" else expected) (if decide (actual = "") then "unknown" else actual).

Definition hostedRuntimeSessionCompatibilityReason (session : option RuntimeSession) : option Reason :=
  match session with
  | None => None
  | Some s =>
      let get key := TrimSpace (default "" (rs_Metadata s !! key)) in
      let actual := get hostedRuntimeMetadataActualImage in
      let current := get hostedRuntimeMetadataCurrentImage in
      let expected := get hostedRuntimeMetadataExpectedImage in
      let template := get hostedRuntimeMetadataTemplate in
      if bool_decide (current ≠ "" ∧ actual ≠ "" ∧ current ≠ actual)
      then Some (hostedRuntimeImageMismatchReason template current actual)
      else match parseRuntimeImageMatch (default "" (rs_Metadata s !! hostedRuntimeMetadataImageMatch)) with
           | Some false =>
               Some (hostedRuntimeImageMismatchReason template (if decide (current = "") then expected else current) actual)
           | _ => None
           end
  end.

(** ** Policy *)

Definition RuntimePlacementRestartPolicyAlways := "always".
Definition RuntimePlacementRestartPolicyNever := "never".

Record RuntimePlacementLifecyclePolicy := {
  lp_MinReadyInstances : Z; lp_MaxReadyInstances : Z; lp_StartupTimeout : duration;
  lp_HealthCheckInterval : duration; lp_RestartPolicy : string; lp_DrainTimeout : duration }.

Definition never (policy : RuntimePlacementLifecyclePolicy) : bool :=
  bool_decide (lp_RestartPolicy policy = RuntimePlacementRestartPolicyNever).

Definition hostedAgentRuntimeLifecycleSafetyMargin : duration := (5 * Second)%Z.
Definition pollInterval : duration := (25 * Millisecond)%Z.

Section times.
Context (policy : RuntimePlacementLifecyclePolicy).

Definition runtimeSessionExpiresAt (session : option RuntimeSession) : option time :=
  s ← session; l ← rs_Lifecycle s; lc_ExpiresAt l.

Definition runtimeSessionExpiryDrainAt (lifecycle : RuntimeSessionLifecycle) (expiresAt now : time) : time :=
  let reserve := (lp_StartupTimeout policy + lp_DrainTimeout policy + lp_HealthCheckInterval policy
                  + hostedAgentRuntimeLifecycleSafetyMargin)%Z in
  let drainAt := (expiresAt - reserve)%Z in
  let late := if negb (IsZero now) && After expiresAt now && Before drainAt now
              then (now + Sub expiresAt now / 2)%Z else drainAt in
  match lc_StartedAt lifecycle with
  | Some startedAt =>
      let lifetime := Sub expiresAt startedAt in
      let minDrainAt := (startedAt + lifetime / 2)%Z in
      if (0 <? lifetime)%Z && Before drainAt minDrainAt then minDrainAt else late
  | None => late
  end.

Definition runtimeSessionDrainAt (session : option RuntimeSession) (now : time) : option time :=
  match s ← session; rs_Lifecycle s with
  | None => None
  | Some lifecycle =>
      match lc_ExpiresAt lifecycle with
      | None => lc_RecommendedDrainAt lifecycle
      | Some expiresAt =>
          let expiryDrain := runtimeSessionExpiryDrainAt lifecycle expiresAt now in
          match lc_RecommendedDrainAt lifecycle with
          | Some recommended => Some (if Before expiryDrain recommended then expiryDrain else recommended)
          | None => Some expiryDrain
          end
      end
  end.

Definition failedOrStopped (session : RuntimeSession) : bool :=
  bool_decide (rs_State session = SessionStateFailed ∨ rs_State session = SessionStateStopped).

Definition runtimeSessionRetirementReason (session : option RuntimeSession) (drainAt : option time) (now : time)
    : option Reason :=
  match session with
  | None => None
  | Some s =>
      if failedOrStopped s then Some (EnteredState (rs_State s))
      else match hostedRuntimeSessionCompatibilityReason session with
           | Some reason => Some reason
           | None =>
               match drainAt with
               | None => None
               | Some drainAt =>
                   if Before now drainAt then None
                   else match runtimeSessionExpiresAt session with
                        | Some expiresAt => if Before now expiresAt then Some (ReachedDrain drainAt) else Some (Expired expiresAt)
                        | None => Some (ReachedDrain drainAt)
                        end
               end
           end
  end.

Definition runtimeSessionReplacementLeadTime : duration :=
  let lead := (lp_StartupTimeout policy + lp_HealthCheckInterval policy)%Z in
  let lead := if (lead <=? 0)%Z then lp_HealthCheckInterval policy else lead in
  if (lead <=? 0)%Z then Second else lead.

Definition runtimeSessionProactiveReplacementReason (startedAt : time) (session : option RuntimeSession)
    (drainAt : option time) (now : time) : option Reason :=
  match session, drainAt with
  | Some s, Some drainDeadline =>
      if failedOrStopped s then None
      else if negb (Before now drainDeadline) then None
      else let startAt := (drainDeadline - runtimeSessionReplacementLeadTime)%Z in
           let minStartAt := (startedAt + Sub drainDeadline startedAt / 2)%Z in
           let startAt := if negb (IsZero startedAt) && Before startedAt drainDeadline && Before startAt minStartAt
                          then minStartAt else startAt in
           if Before now startAt then None else Some (ApproachingDrain drainDeadline)
  | _, _ => None
  end.
End times.
(** ** Errors *)

(** What [errors.Is] and [grpcstatus.Code] find in an error of the outside. *)
Record ProviderErrorFacts := {
  ef_NotFound : bool; ef_Canceled : bool; ef_DeadlineExceeded : bool; ef_NotAvailable : bool; ef_transientCode : bool }.

Inductive PoolError (PE : Type) :=
  | PoolClosed
  | NotFound
  | ContextDone (deadlineExceeded : bool)
  | NotReady
  | NoReadyInstances
  | StaleInstance (reason : Reason)
  | RetiringInstance (reason : Reason)
  | RefreshFailed (cause : PoolError PE)
  | SessionWithoutID
  | NoWorkspacePolicy
  | WorkspaceRefused (e : AgentWorkspace.PolicyError)
  | PreparedUnsupported
  | PrepareUnsupported
  | NoWorkspaceProvider
  | PreparedInvalid (e : AgentWorkspace.PreparedError)
  | Provider (e : PE)
  | Unavailable (cause : PoolError PE).
Arguments PoolClosed {PE}.
Arguments NotFound {PE}.
Arguments ContextDone {PE} _.
Arguments NotReady {PE}.
Arguments NoReadyInstances {PE}.
Arguments StaleInstance {PE} _.
Arguments RetiringInstance {PE} _.
Arguments RefreshFailed {PE} _.
Arguments SessionWithoutID {PE}.
Arguments NoWorkspacePolicy {PE}.
Arguments WorkspaceRefused {PE} _.
Arguments PreparedUnsupported {PE}.
Arguments PrepareUnsupported {PE}.
Arguments NoWorkspaceProvider {PE}.
Arguments PreparedInvalid {PE} _.
Arguments Provider {PE} _.
Arguments Unavailable {PE} _.

Section errors.
Context {PE : Type} (facts : PE → ProviderErrorFacts).

Fixpoint isNotFound (err : PoolError PE) : bool :=
  match err with
  | NotFound => true
  | Provider e => ef_NotFound (facts e)
  | RefreshFailed cause | Unavailable cause => isNotFound cause
  | _ => false
  end.

Fixpoint isCanceled (err : PoolError PE) : bool :=
  match err with
  | ContextDone deadlineExceeded => negb deadlineExceeded
  | Provider e => ef_Canceled (facts e)
  | RefreshFailed cause | Unavailable cause => isCanceled cause
  | _ => false
  end.

(** [unavailableError] also unwraps to [ErrAgentProviderNotAvailable]. *)
Fixpoint isTransient (err : PoolError PE) : bool :=
  match err with
  | ContextDone deadlineExceeded => deadlineExceeded
  | Provider e => ef_DeadlineExceeded (facts e) || ef_NotAvailable (facts e) || ef_transientCode (facts e)
  | RefreshFailed cause => isTransient cause
  | Unavailable _ => true
  | _ => false
  end.

Definition isHostedAgentReadRetryableError (err : PoolError PE) : bool :=
  negb (isNotFound err) && negb (isCanceled err) && isTransient err.
End errors.

(** ** Sessions, turns and interactions *)

Definition SessionStateArchived := "archived".
Definition ExecutionStatusIsLive (status : string) : bool :=
  bool_decide (status ∈ ["pending"; "running"; "waiting_for_input"]).
Definition InteractionStateResolved := "resolved".
Definition InteractionStateCanceled := "canceled".

(** The fields the pool looks at, and the rest. *)
Record Session D := { se_ID : string; se_State : string; se_rest : D }.
Record Turn D := { tu_ID : string; tu_SessionID : string; tu_Status : string; tu_rest : D }.
Record Interaction D := {
  it_ID : string; it_TurnID : string; it_SessionID : string; it_State : string; it_rest : D }.
Arguments se_ID {D} _.
Arguments se_State {D} _.
Arguments se_rest {D} _.
Arguments tu_ID {D} _.
Arguments tu_SessionID {D} _.
Arguments tu_Status {D} _.
Arguments tu_rest {D} _.
Arguments it_ID {D} _.
Arguments it_TurnID {D} _.
Arguments it_SessionID {D} _.
Arguments it_State {D} _.
Arguments it_rest {D} _.

(** ** The state under the mutex *)

Record hostedAgentPoolBackend (H : Type) := mkBackend {
  bk_provider : H; bk_runtimeSessionID : string;
  bk_runtimeSession : option RuntimeSession; bk_startedAt : time;
  bk_runtimeDrainAt : option time; bk_forceCloseAt : option time;
  bk_active : nat; bk_liveTurns : gset string;
  bk_draining : bool; bk_replacing : bool; bk_closing : bool; bk_closed : bool }.
Arguments mkBackend {H} _ _ _ _ _ _ _ _ _ _ _ _.
Arguments bk_provider {H} _.
Arguments bk_runtimeSessionID {H} _.
Arguments bk_runtimeSession {H} _.
Arguments bk_startedAt {H} _.
Arguments bk_runtimeDrainAt {H} _.
Arguments bk_forceCloseAt {H} _.
Arguments bk_active {H} _.
Arguments bk_liveTurns {H} _.
Arguments bk_draining {H} _.
Arguments bk_replacing {H} _.
Arguments bk_closing {H} _.
Arguments bk_closed {H} _.

(** A goroutine that was started.  [closePart] is one that [Close] waits for. *)
Inductive Job :=
  | scaleOut
  | replacement (b : nat)
  | proactive (b : nat)
  | probe (b : nat)
  | closePart (b : nat).

Record Pool (H : Type) := mkPool {
  pl_nextID : nat; pl_nextPick : nat; pl_starting : nat; pl_closed : bool;
  pl_heap : gmap nat (hostedAgentPoolBackend H); pl_backends : list nat;
  pl_sessionBackends : gmap string nat; pl_turnBackends : gmap string nat;
  pl_interactionBackends : gmap string nat; pl_createKeyBackends : gmap string nat;
  pl_sessionWorkspaces : gmap string string;
  pl_jobs : list Job; pl_lifecycle : nat; pl_closing : nat }.
Arguments mkPool {H} _ _ _ _ _ _ _ _ _ _ _ _ _ _.
Arguments pl_nextID {H} _.
Arguments pl_nextPick {H} _.
Arguments pl_starting {H} _.
Arguments pl_closed {H} _.
Arguments pl_heap {H} _.
Arguments pl_backends {H} _.
Arguments pl_sessionBackends {H} _.
Arguments pl_turnBackends {H} _.
Arguments pl_interactionBackends {H} _.
Arguments pl_createKeyBackends {H} _.
Arguments pl_sessionWorkspaces {H} _.
Arguments pl_jobs {H} _.
Arguments pl_lifecycle {H} _.
Arguments pl_closing {H} _.

Section setters.
Context {H : Type}.
Implicit Types (k : hostedAgentPoolBackend H) (p : Pool H).

Definition set_runtime (session : option RuntimeSession) (drainAt forceCloseAt : option time) k :=
  let '(mkBackend pr sid _ st _ _ ac lt dr rp cg cd) := k in
  mkBackend pr sid session st drainAt forceCloseAt ac lt dr rp cg cd.
Definition set_active (f : nat → nat) k :=
  let '(mkBackend pr sid rs st da fc ac lt dr rp cg cd) := k in mkBackend pr sid rs st da fc (f ac) lt dr rp cg cd.
Definition set_liveTurns (f : gset string → gset string) k :=
  let '(mkBackend pr sid rs st da fc ac lt dr rp cg cd) := k in mkBackend pr sid rs st da fc ac (f lt) dr rp cg cd.
Definition set_draining k :=
  let '(mkBackend pr sid rs st da fc ac lt dr rp cg cd) := k in mkBackend pr sid rs st da fc ac lt true rp cg cd.
Definition set_replacing (v : bool) k :=
  let '(mkBackend pr sid rs st da fc ac lt dr rp cg cd) := k in mkBackend pr sid rs st da fc ac lt dr v cg cd.
Definition set_closing k :=
  let '(mkBackend pr sid rs st da fc ac lt dr rp cg cd) := k in mkBackend pr sid rs st da fc ac lt dr rp true cd.
Definition set_bclosed k :=
  let '(mkBackend pr sid rs st da fc ac lt dr rp cg cd) := k in mkBackend pr sid rs st da fc ac lt dr rp cg true.

Definition set_nextPick (v : nat) p :=
  let '(mkPool ni np st cl hp bs sb tb ib cb sw jb lc cg) := p in mkPool ni v st cl hp bs sb tb ib cb sw jb lc cg.
Definition set_starting (f : nat → nat) p :=
  let '(mkPool ni np st cl hp bs sb tb ib cb sw jb lc cg) := p in mkPool ni np (f st) cl hp bs sb tb ib cb sw jb lc cg.
Definition set_pclosed p :=
  let '(mkPool ni np st cl hp bs sb tb ib cb sw jb lc cg) := p in mkPool ni np st true hp bs sb tb ib cb sw jb lc cg.
Definition set_heap (f : gmap nat (hostedAgentPoolBackend H) → gmap nat (hostedAgentPoolBackend H)) p :=
  let '(mkPool ni np st cl hp bs sb tb ib cb sw jb lc cg) := p in mkPool ni np st cl (f hp) bs sb tb ib cb sw jb lc cg.
Definition set_backends (f : list nat → list nat) p :=
  let '(mkPool ni np st cl hp bs sb tb ib cb sw jb lc cg) := p in mkPool ni np st cl hp (f bs) sb tb ib cb sw jb lc cg.
Definition set_sessions (f : gmap string nat → gmap string nat) p :=
  let '(mkPool ni np st cl hp bs sb tb ib cb sw jb lc cg) := p in mkPool ni np st cl hp bs (f sb) tb ib cb sw jb lc cg.
Definition set_turns (f : gmap string nat → gmap string nat) p :=
  let '(mkPool ni np st cl hp bs sb tb ib cb sw jb lc cg) := p in mkPool ni np st cl hp bs sb (f tb) ib cb sw jb lc cg.
Definition set_interactions (f : gmap string nat → gmap string nat) p :=
  let '(mkPool ni np st cl hp bs sb tb ib cb sw jb lc cg) := p in mkPool ni np st cl hp bs sb tb (f ib) cb sw jb lc cg.
Definition set_createKeys (f : gmap string nat → gmap string nat) p :=
  let '(mkPool ni np st cl hp bs sb tb ib cb sw jb lc cg) := p in mkPool ni np st cl hp bs sb tb ib (f cb) sw jb lc cg.
Definition set_workspaces (f : gmap string string → gmap string string) p :=
  let '(mkPool ni np st cl hp bs sb tb ib cb sw jb lc cg) := p in mkPool ni np st cl hp bs sb tb ib cb (f sw) jb lc cg.
Definition set_jobs (f : list Job → list Job) p :=
  let '(mkPool ni np st cl hp bs sb tb ib cb sw jb lc cg) := p in mkPool ni np st cl hp bs sb tb ib cb sw (f jb) lc cg.
Definition set_lifecycle (f : nat → nat) p :=
  let '(mkPool ni np st cl hp bs sb tb ib cb sw jb lc cg) := p in mkPool ni np st cl hp bs sb tb ib cb sw jb (f lc) cg.
Definition set_closingParts (f : nat → nat) p :=
  let '(mkPool ni np st cl hp bs sb tb ib cb sw jb lc cg) := p in mkPool ni np st cl hp bs sb tb ib cb sw jb lc (f cg).

(** Assign to a field of the instance [b] points to. *)
Definition alter_backend (b : nat) (f : hostedAgentPoolBackend H → hostedAgentPoolBackend H) p := set_heap (alter f b) p.

(** [go ...] *)
Definition spawn (j : Job) p := set_jobs (λ js, js ++ [j]) p.
(** [p.lifecycleWG.Add(1); go ...] *)
Definition spawn_lifecycle (j : Job) p := spawn j (set_lifecycle S p).
End setters.

Definition empty_pool {H} : Pool H := mkPool 0 0 0 false ∅ [] ∅ ∅ ∅ ∅ ∅ [] 0 0.

(** ** Sections under the mutex *)

Section locked.
Context {H : Type} (policy : RuntimePlacementLifecyclePolicy).
Implicit Types (p : Pool H) (k : hostedAgentPoolBackend H) (b : nat) (now : time).

Definition backendAvailableLocked p b (allowDraining : bool) : bool :=
  match pl_heap p !! b with
  | None => false
  | Some k => negb (bk_closed k) && (allowDraining || negb (bk_draining k || bk_closing k)) && bool_decide (b ∈ pl_backends p)
  end.

Definition backendRuntimeDrainDueLocked k now : bool :=
  match bk_runtimeDrainAt k with None => false | Some drainAt => negb (Before now drainAt) end.

Definition backendRuntimeSessionStaleLocked k : bool :=
  bool_decide (hostedRuntimeSessionCompatibilityReason (bk_runtimeSession k) ≠ None).

Definition backendAcceptsNewWorkLocked p b now : bool :=
  backendAvailableLocked p b false
  && match pl_heap p !! b with
     | None => false
     | Some k => negb (backendRuntimeDrainDueLocked k now) && negb (backendRuntimeSessionStaleLocked k)
     end.

(** The instances that accept new work, and how many. *)
Definition accepting p now : list nat := filter (λ b, backendAcceptsNewWorkLocked p b now = true) (pl_backends p).
Definition readyCount p now : nat := length (accepting p now).

Definition active_of p b : nat := match pl_heap p !! b with Some k => bk_active k | None => 0 end.

Definition pickReadyBackendLocked p now : option nat * Pool H :=
  let ready := accepting p now in
  match ready with
  | [] => (None, p)
  | _ =>
      let idle := filter (λ b, active_of p b = 0) ready in
      let ready := match idle with [] => ready | _ => idle end in
      (ready !! (pl_nextPick p mod length ready), set_nextPick (S (pl_nextPick p)) p)
  end.

Definition canScaleOutLocked p now : bool :=
  (0 <? lp_MaxReadyInstances policy)%Z
  && (Z.of_nat (readyCount p now + pl_starting p) <? lp_MaxReadyInstances policy)%Z.

Definition startScaleOutLocked p now : Pool H :=
  if pl_closed p || negb (canScaleOutLocked p now) then p
  else spawn_lifecycle scaleOut (set_starting S p).

Definition availableBackends p (allowDraining : bool) : list nat :=
  filter (λ b, backendAvailableLocked p b allowDraining = true) (pl_backends p).
Definition readyBackends p : list nat := availableBackends p false.

(** The counts that are reported as metrics: ready, starting, draining. *)
Definition isDraining p now b : bool :=
  match pl_heap p !! b with
  | None => false
  | Some k => negb (bk_closed k) && (bk_draining k || bk_closing k || backendRuntimeDrainDueLocked k now)
  end.
Definition isReady p now b : bool :=
  match pl_heap p !! b with
  | None => false
  | Some k => negb (bk_closed k) && negb (bk_draining k || bk_closing k || backendRuntimeDrainDueLocked k now)
  end.
Definition instanceCountsLocked p now : nat * nat * nat :=
  (length (filter (λ b, isReady p now b = true) (pl_backends p)), pl_starting p,
   length (filter (λ b, isDraining p now b = true) (pl_backends p))).

(** One round of [acquireBackend]. *)
Inductive acquisition :=
  | acquireClosed
  | acquireNotReady
  | acquired (b : nat)
  | acquireStarting
  | acquireWait.

Definition acquireLocked (preferred : option nat) (allowDraining : bool) now p : acquisition * Pool H :=
  if pl_closed p then (acquireClosed, p)
  else match preferred with
       | Some b =>
           if backendAvailableLocked p b allowDraining then (acquired b, alter_backend b (set_active S) p)
           else (acquireNotReady, p)
       | None =>
           let '(picked, p) := pickReadyBackendLocked p now in
           match picked with
           | Some b =>
               let p := if (0 <? active_of p b) && canScaleOutLocked p now then startScaleOutLocked p now else p in
               (acquired b, alter_backend b (set_active S) p)
           | None => if canScaleOutLocked p now then (acquireStarting, set_starting S p) else (acquireWait, p)
           end
       end.

(** After the launch for an acquisition: the started instance is taken if it accepts work. *)
Definition startedLocked (started : option nat) now p : bool * Pool H :=
  let p := set_starting pred p in
  match started with
  | Some b => if backendAcceptsNewWorkLocked p b now then (true, alter_backend b (set_active S) p) else (false, p)
  | None => (false, p)
  end.

Definition releaseLocked b now p : unit * Pool H := (tt, alter_backend b (set_active pred) p).

(** The preferred instance of new work: [None] when the pool is closed. *)
Definition preferLocked b (allowDraining : bool) now p : option bool * Pool H :=
  if pl_closed p then (None, p)
  else
    let due := match pl_heap p !! b with
               | Some k => backendRuntimeDrainDueLocked k now || backendRuntimeSessionStaleLocked k
               | None => false
               end in
    if backendAcceptsNewWorkLocked p b now || (allowDraining && backendAvailableLocked p b true && negb due)
    then (Some true, alter_backend b (set_active S) p) else (Some false, p).

(** *** Routes *)

Definition lookup_key (m : gmap string nat) (key : string) : option nat :=
  let key := TrimSpace key in if decide (key = "") then None else m !! key.

Definition sessionBackend p (id : string) : option nat := lookup_key (pl_sessionBackends p) id.
Definition turnBackend p (id : string) : option nat := lookup_key (pl_turnBackends p) id.
Definition interactionBackend p (id : string) : option nat := lookup_key (pl_interactionBackends p) id.
Definition createKeyBackend p (key : string) : option nat :=
  if decide (key = "") then None else pl_createKeyBackends p !! key.

Definition recordSessionBackend (id : string) b p : Pool H :=
  let id := TrimSpace id in
  if bool_decide (id ≠ "") && backendAvailableLocked p b true then set_sessions <[id := b]> p else p.

Definition deleteSessionBackend (id : string) p : Pool H :=
  let id := TrimSpace id in if decide (id = "") then p else set_sessions (delete id) p.

Definition backendDraining p b : bool :=
  match pl_heap p !! b with Some k => bk_draining k && negb (bk_closed k) | None => false end.

Definition claimCreateKeyBackend (key : string) b p : nat * Pool H :=
  if decide (key = "") then (b, p)
  else match pl_createKeyBackends p !! key with
       | Some existing => (existing, p)
       | None => (b, set_createKeys <[key := b]> p)
       end.

Definition deleteCreateKeyBackend (key : string) p : Pool H :=
  if decide (key = "") then p else set_createKeys (delete key) p.

Definition recordSessionWorkspace (id workspaceRef : string) p : Pool H :=
  let id := TrimSpace id in
  if decide (id = "" ∨ workspaceRef = "") then p else set_workspaces <[id := workspaceRef]> p.

Definition takeSessionWorkspace (id : string) p : string * Pool H :=
  let id := TrimSpace id in
  if decide (id = "") then ("", p)
  else (default "" (pl_sessionWorkspaces p !! id), set_workspaces (delete id) p).

Definition recordTurnBackend (id : string) b p : Pool H :=
  let id := TrimSpace id in
  if bool_decide (id ≠ "") && backendAvailableLocked p b true then set_turns <[id := b]> p else p.

(** The second section of [recordTurn]; the first is [recordSessionBackend]. *)
Definition recordTurnLocked (turnID status : string) b p : Pool H :=
  if negb (backendAvailableLocked p b true) then p
  else if ExecutionStatusIsLive status
  then alter_backend b (set_liveTurns (λ ts, {[turnID]} ∪ ts)) (set_turns <[turnID := b]> p)
  else
    let p := match pl_heap p !! b with
             | Some k => if bk_draining k then set_turns <[turnID := b]> p else set_turns (delete turnID) p
             | None => p
             end in
    alter_backend b (set_liveTurns (λ ts, ts ∖ {[turnID]})) p.

Definition deleteTurnBackend (id : string) p : Pool H :=
  let id := TrimSpace id in
  if decide (id = "") then p
  else foldr (λ b p, alter_backend b (set_liveTurns (λ ts, ts ∖ {[id]})) p) (set_turns (delete id) p) (pl_backends p).

Definition recordInteractionLocked {D} (i : Interaction D) b p : Pool H :=
  if decide (it_ID i = "") then p
  else if negb (backendAvailableLocked p b true) then p
  else
    let draining := match pl_heap p !! b with Some k => bk_draining k | None => false end in
    let over := bool_decide (it_State i = InteractionStateResolved ∨ it_State i = InteractionStateCanceled) in
    let p := if over && negb draining then set_interactions (delete (it_ID i)) p else set_interactions <[it_ID i := b]> p in
    let turnID := TrimSpace (it_TurnID i) in
    let p := if decide (turnID = "") then p else set_turns <[turnID := b]> p in
    let sessionID := TrimSpace (it_SessionID i) in
    if decide (sessionID = "") then p else set_sessions <[sessionID := b]> p.

Definition deleteInteractionBackend (id : string) p : Pool H :=
  let id := TrimSpace id in if decide (id = "") then p else set_interactions (delete id) p.

(** *** The life of an instance *)

Record Instance := { in_provider : H; in_runtimeSessionID : string; in_runtimeSession : option RuntimeSession }.

(** [startBackend] after the launch: [None] when the pool was closed meanwhile. *)
Definition registerLocked (i : Instance) now p : option nat * Pool H :=
  if pl_closed p then (None, p)
  else
    let id := S (pl_nextID p) in
    let k := mkBackend (in_provider i) (in_runtimeSessionID i) (in_runtimeSession i) now
               (runtimeSessionDrainAt policy (in_runtimeSession i) now) (runtimeSessionExpiresAt (in_runtimeSession i))
               0 ∅ false false false false in
    let '(mkPool _ np st cl hp bs sb tb ib cb sw jb lc cg) := p in
    (Some id, mkPool id np st cl (<[id := k]> hp) (bs ++ [id]) sb tb ib cb sw jb lc cg).

(** What a refreshed runtime session changes: the drain time only moves forward. *)
Definition refreshLocked b (session : option RuntimeSession) (drainAt : option time) p : option time * Pool H :=
  if backendAvailableLocked p b true then
    let drainAt := match pl_heap p !! b with
                   | Some k => match bk_runtimeDrainAt k, drainAt with
                               | Some old, Some new => if Before old new then Some old else Some new
                               | Some old, None => Some old
                               | None, _ => drainAt
                               end
                   | None => drainAt
                   end in
    (drainAt, alter_backend b (set_runtime session drainAt (runtimeSessionExpiresAt session)) p)
  else (drainAt, p).

Definition markBackendDraining b p : bool * Pool H :=
  match pl_heap p !! b with
  | None => (false, p)
  | Some k => if bk_draining k || bk_closed k then (false, p) else (true, alter_backend b set_draining p)
  end.

Definition addLifecycleWork (j : Job) p : bool * Pool H :=
  if pl_closed p then (false, p) else (true, spawn_lifecycle j p).

Definition startProactiveReplacement b now p : Pool H :=
  if never policy then p
  else match pl_heap p !! b with
       | None => p
       | Some k =>
           if pl_closed p || bk_draining k || bk_closing k || bk_closed k || bk_replacing k
              || negb (backendAvailableLocked p b false) || negb (canScaleOutLocked p now) then p
           else spawn_lifecycle (proactive b) (set_starting S (alter_backend b (set_replacing true) p))
       end.

(** After the launch of a proactive replacement. *)
Definition replacedLocked b (ok : bool) p : Pool H :=
  let p := set_starting pred p in
  if backendAvailableLocked p b true
  then alter_backend b (λ k, set_replacing false (if ok then set_draining k else k)) p else p.

(** One round of [ensureMinReady]: whether to launch. *)
Definition ensureLocked now p : bool * Pool H :=
  if pl_closed p then (false, p)
  else if (lp_MinReadyInstances policy <=? Z.of_nat (readyCount p now + pl_starting p))%Z then (false, p)
  else (true, set_starting S p).

Fixpoint remove_first (b : nat) (l : list nat) : list nat :=
  match l with
  | [] => []
  | x :: l => if decide (x = b) then l else x :: remove_first b l
  end.

Definition removeBackendLocked b p : Pool H :=
  let '(mkPool ni np st cl hp bs sb tb ib cb sw jb lc cg) := p in
  let others (m : gmap string nat) := filter (λ kv, kv.2 ≠ b) m in
  mkPool ni np st cl hp (remove_first b bs) (others sb) (others tb) (others ib) (others cb)
    (filter (λ kv, sb !! kv.1 ≠ Some b) sw) jb lc cg.

Definition beginDrainLocked b p : bool * Pool H :=
  match pl_heap p !! b with
  | None => (false, p)
  | Some k =>
      if bk_closed k || bk_closing k then (false, p)
      else (true, alter_backend b (λ k, set_draining (set_closing k)) p)
  end.

(** One round of the wait: whether the instance is closed now. *)
Definition finishDrainLocked b (deadline now : time) p : bool * Pool H :=
  match pl_heap p !! b with
  | None => (true, p)
  | Some k =>
      if bool_decide (bk_active k = 0 ∧ bk_liveTurns k = ∅) || After now deadline
      then (true, removeBackendLocked b (alter_backend b set_bclosed p)) else (false, p)
  end.

(** The first section of [Close], the goroutines that it starts and its last section. *)
Definition closeLocked p : bool * Pool H :=
  if pl_closed p then (false, p)
  else
    let backends := pl_backends p in
    let p := set_pclosed p in
    let p := foldr (λ b p, alter_backend b (λ k, if bk_closed k then k else set_draining k) p) p backends in
    (true, foldl (λ p b, set_closingParts S (spawn (closePart b) p)) p backends).

Definition clearLocked p : Pool H :=
  let '(mkPool ni np st cl hp _ _ _ _ _ _ jb lc cg) := p in mkPool ni np st cl hp [] ∅ ∅ ∅ ∅ ∅ jb lc cg.
End locked.
Arguments Instance : clear implicits.
Arguments in_provider {H} _.
Arguments in_runtimeSessionID {H} _.
Arguments in_runtimeSession {H} _.

(** ** Methods and goroutines *)

(** The calls that reach an instance through a method, the closing of one with the deadline
    of its drain, and the preparation of a workspace by its runtime. *)
Inductive Op := opCreateSession (createKey : string) | opOther.
Inductive Event :=
  | called (b : nat) (op : Op)
  | providerClosed (b : nat) (deadline at_ : time)
  | preparing (b : nat) (workspace : AgentWorkspace.Workspace).

Record World (X H : Type) := mkWorld { w_pool : Pool H; w_now : time; w_ext : X; w_trace : list Event }.
Arguments mkWorld {X H} _ _ _ _.
Arguments w_pool {X H} _.
Arguments w_now {X H} _.
Arguments w_ext {X H} _.
Arguments w_trace {X H} _.

(** How many more rounds a loop finds the context alive, and what it is done with. *)
Record Ctx := { cx_rounds : nat; cx_deadlineExceeded : bool }.

(** Requests: what the pool routes by, and the rest. *)
Record CreateSessionRequest D := {
  cr_IdempotencyKey : string; cr_SubjectID : string; cr_Workspace : option AgentWorkspace.Workspace;
  cr_PreparedWorkspace : option AgentWorkspace.PreparedWorkspace; cr_rest : D }.
Record IDRequest D := { rq_ID : string; rq_rest : D }.
Record UpdateSessionRequest D := { up_SessionID : string; up_Archived : bool; up_rest : D }.
Record CreateTurnRequest D := { ct_TurnID : string; ct_SessionID : string; ct_rest : D }.
Arguments cr_IdempotencyKey {D} _.
Arguments cr_SubjectID {D} _.
Arguments cr_Workspace {D} _.
Arguments cr_PreparedWorkspace {D} _.
Arguments cr_rest {D} _.
Arguments rq_ID {D} _.
Arguments rq_rest {D} _.
Arguments up_SessionID {D} _.
Arguments up_Archived {D} _.
Arguments up_rest {D} _.
Arguments ct_TurnID {D} _.
Arguments ct_SessionID {D} _.
Arguments ct_rest {D} _.

(** What is outside the pool: launching, the instances ([H]), their runtime, workspaces. *)
Record Outside (X H PE D : Type) := {
  ou_Launch : X → result PE (Instance H) * X;
  ou_Close : H → X → result PE unit * X;
  ou_Ping : H → X → result PE unit * X;
  ou_GetRuntimeSession : H → string → X → result PE (option RuntimeSession) * X;
  ou_noRequest : D;
  ou_SupportsPreparedWorkspace : D → bool;
  ou_isWorkspaceProvider : H → bool;
  ou_Support : H → X → result PE bool * X;
  ou_PrepareWorkspace :
    H → string → string → AgentWorkspace.Workspace → duration → X → result PE (option AgentWorkspace.PreparedWorkspace) * X;
  ou_RemoveWorkspace : H → string → string → X → result PE unit * X;
  ou_NewString : X → string * X;
  ou_NewSHA1 : string → string;
  ou_CreateSession : H → CreateSessionRequest D → X → result PE (option (Session D)) * X;
  ou_GetSession : H → IDRequest D → X → result PE (option (Session D)) * X;
  ou_ListSessions : H → D → X → result PE (list (Session D)) * X;
  ou_UpdateSession : H → UpdateSessionRequest D → X → result PE (option (Session D)) * X;
  ou_CreateTurn : H → CreateTurnRequest D → X → result PE (option (Turn D)) * X;
  ou_GetTurn : H → IDRequest D → X → result PE (option (Turn D)) * X;
  ou_ListTurns : H → IDRequest D → X → result PE (list (Turn D)) * X;
  ou_CancelTurn : H → IDRequest D → X → result PE (option (Turn D)) * X;
  ou_ListTurnEvents : H → IDRequest D → X → result PE (list D) * X;
  ou_GetInteraction : H → IDRequest D → X → result PE (option (Interaction D)) * X;
  ou_ListInteractions : H → IDRequest D → X → result PE (list (Interaction D)) * X;
  ou_ResolveInteraction : H → IDRequest D → X → result PE (option (Interaction D)) * X;
  ou_GetCapabilities : H → D → X → result PE D * X }.
Arguments ou_Launch {X H PE D} _.
Arguments ou_Close {X H PE D} _.
Arguments ou_Ping {X H PE D} _.
Arguments ou_GetRuntimeSession {X H PE D} _.
Arguments ou_noRequest {X H PE D} _.
Arguments ou_SupportsPreparedWorkspace {X H PE D} _.
Arguments ou_isWorkspaceProvider {X H PE D} _.
Arguments ou_Support {X H PE D} _.
Arguments ou_PrepareWorkspace {X H PE D} _.
Arguments ou_RemoveWorkspace {X H PE D} _.
Arguments ou_NewString {X H PE D} _.
Arguments ou_NewSHA1 {X H PE D} _.
Arguments ou_CreateSession {X H PE D} _.
Arguments ou_GetSession {X H PE D} _.
Arguments ou_ListSessions {X H PE D} _.
Arguments ou_UpdateSession {X H PE D} _.
Arguments ou_CreateTurn {X H PE D} _.
Arguments ou_GetTurn {X H PE D} _.
Arguments ou_ListTurns {X H PE D} _.
Arguments ou_CancelTurn {X H PE D} _.
Arguments ou_ListTurnEvents {X H PE D} _.
Arguments ou_GetInteraction {X H PE D} _.
Arguments ou_ListInteractions {X H PE D} _.
Arguments ou_ResolveInteraction {X H PE D} _.
Arguments ou_GetCapabilities {X H PE D} _.

Section calls.
Context {X H : Type}.

(** A section under the mutex; it can read the clock. *)
Definition locked {A} (f : time → Pool H → A * Pool H) : prog (World X H) A :=
  atomic (λ w, let '(a, p) := f (w_now w) (w_pool w) in (a, mkWorld p (w_now w) (w_ext w) (w_trace w))).
Definition change (f : Pool H → Pool H) : prog (World X H) unit := locked (λ _ p, (tt, f p)).
Definition reading {A} (f : Pool H → A) : prog (World X H) A := locked (λ _ p, (f p, p)).
Definition clock : prog (World X H) time := atomic (λ w, (w_now w, w)).
Definition sleep (d : duration) : prog (World X H) unit :=
  atomic (λ w, (tt, mkWorld (w_pool w) (w_now w + d)%Z (w_ext w) (w_trace w))).
Definition outside {A} (f : X → A * X) : prog (World X H) A :=
  atomic (λ w, let '(a, x) := f (w_ext w) in (a, mkWorld (w_pool w) (w_now w) x (w_trace w))).

(** A call to the instance or to its runtime.  Every number in use has its record. *)
Definition toBackend {PE A} (events : time → list Event) (b : nat) (f : hostedAgentPoolBackend H → X → result PE A * X)
    : prog (World X H) (result (PoolError PE) A) :=
  atomic (λ w, match pl_heap (w_pool w) !! b with
               | None => (Err NotReady, w)
               | Some k =>
                   let '(r, x) := f k (w_ext w) in
                   (match r with Ok a => Ok a | Err e => Err (Provider e) end,
                    mkWorld (w_pool w) (w_now w) x (w_trace w ++ events (w_now w)))
               end).
Definition calling {PE A} (op : Op) (b : nat) (f : H → X → result PE A * X) : prog (World X H) (result (PoolError PE) A) :=
  toBackend (λ _, [called b op]) b (λ k, f (bk_provider k)).
End calls.

Section pool.
Context {X H PE D : Type} (name : string) (policy : RuntimePlacementLifecyclePolicy).
Context (facts : PE → ProviderErrorFacts) (out : Outside X H PE D).
Context (ToLower : string → string) (ParseURL : string → option AgentWorkspace.URL).
Context (TimeParseDuration : string → option duration) (workspaces : option AgentWorkspace.RuntimePlacementWorkspaceConfig).

Abbreviation M := (prog (World X H)).
Abbreviation res A := (result (PoolError PE) A).

Definition andThen {A B} (m : M (res A)) (k : A → M (res B)) : M (res B) :=
  r ← m; match r with Ok a => k a | Err e => mret (Err e) end.

Definition ctxErr (ctx : Ctx) : PoolError PE := ContextDone (cx_deadlineExceeded ctx).
Definition next (ctx : Ctx) : Ctx := {| cx_rounds := pred (cx_rounds ctx); cx_deadlineExceeded := cx_deadlineExceeded ctx |}.

(** [startBackend] *)
Definition startBackend (ctx : Ctx) : M (res nat) :=
  if decide (cx_rounds ctx = 0) then mret (Err (ctxErr ctx))
  else r ← outside (ou_Launch out);
       match r with
       | Err e => mret (Err (Provider e))
       | Ok i =>
           registered ← locked (registerLocked policy i);
           match registered with
           | Some b => mret (Ok b)
           | None => _ ← outside (ou_Close out (in_provider i)); mret (Err PoolClosed)
           end
       end.

(** The code goes on until enough instances are ready; the rounds bound it here. *)
Fixpoint ensureMinReady_rounds (n : nat) (ctx : Ctx) : M (res unit) :=
  launch ← locked (ensureLocked policy);
  if negb launch then mret (Ok tt)
  else r ← startBackend {| cx_rounds := n; cx_deadlineExceeded := cx_deadlineExceeded ctx |};
       _ ← change (set_starting pred);
       match r with
       | Err e => mret (Err e)
       | Ok _ => match n with O => mret (Err (ctxErr ctx)) | S n => ensureMinReady_rounds n ctx end
       end.
Definition ensureMinReady (ctx : Ctx) : M (res unit) := ensureMinReady_rounds (cx_rounds ctx) ctx.

(** The wait of [drainAndCloseBackend]; [None] would be a wait that did not end. *)
Fixpoint awaitDrain (fuel : nat) (b : nat) (deadline : time) : M (option unit) :=
  match fuel with
  | O => mret None
  | S fuel =>
      over ← locked (finishDrainLocked b deadline);
      if (over : bool) then mret (Some tt) else _ ← sleep pollInterval; awaitDrain fuel b deadline
  end.

(** One look at the instance more than the polls until the deadline. *)
Definition drainFuel (deadline now : time) : nat := S (Z.to_nat ((deadline - now) / pollInterval + 1)).

(** The closing of an instance in the trace. *)
Definition closeEvent (b : nat) (deadline now : time) : list Event := [providerClosed b deadline now].

Definition drainAndCloseBackend (b : nat) : M (option (res unit)) :=
  begun ← locked (λ _, beginDrainLocked b);
  if negb begun then mret (Some (Ok tt))
  else started ← clock;
       let deadline := (started + lp_DrainTimeout policy)%Z in
       deadline ← reading (λ p, match (match pl_heap p !! b with Some k => bk_forceCloseAt k | None => None end) with
                                | Some forceCloseAt => if Before forceCloseAt deadline then forceCloseAt else deadline
                                | None => deadline
                                end);
       now ← clock;
       over ← awaitDrain (drainFuel deadline now) b deadline;
       match over with
       | None => mret None
       | Some _ => r ← toBackend (closeEvent b deadline) b (λ k, ou_Close out (bk_provider k)); mret (Some r)
       end.

Definition replaceBackendAllowNever (b : nat) (allowRestartPolicyNever : bool) : M unit :=
  if never policy && negb allowRestartPolicyNever then mret tt
  else marked ← locked (λ _, markBackendDraining b);
       if negb marked then mret tt
       else _ ← locked (λ _, addLifecycleWork (replacement b)); mret tt.
Definition replaceBackend (b : nat) : M unit := replaceBackendAllowNever b false.

(** A probe or health check: not in the trace. *)
Definition pingBackend (b : nat) : M (res unit) := toBackend (λ _, []) b (λ k, ou_Ping out (bk_provider k)).

Definition maybeProbeAfterCallError {A} (b : nat) (r : res A) : M unit :=
  match r with
  | Ok _ => mret tt
  | Err e => if isNotFound facts e || never policy then mret tt else change (spawn (probe b))
  end.

(** [refreshBackendRuntimeSession] and its variant with a context of the caller. *)
Definition refreshBackendRuntimeSessionWithContext (ctx : Ctx) (b : nat)
    : M (res (option RuntimeSession * option time)) :=
  sessionID ← reading (λ p, match pl_heap p !! b with Some k => TrimSpace (bk_runtimeSessionID k) | None => "" end);
  if decide (sessionID = "") then mret (Ok (None, None))
  else if decide (cx_rounds ctx = 0) then mret (Err (RefreshFailed (ctxErr ctx)))
  else r ← toBackend (λ _, []) b (λ k, ou_GetRuntimeSession out (bk_provider k) sessionID);
       match r with
       | Err e => mret (Err (RefreshFailed e))
       | Ok session =>
           now ← clock;
           drainAt ← locked (λ _, refreshLocked b session (runtimeSessionDrainAt policy session now));
           mret (Ok (session, drainAt))
       end.
Definition refreshBackendRuntimeSession := refreshBackendRuntimeSessionWithContext.

Definition staleReason (p : Pool H) (b : nat) : option Reason :=
  match pl_heap p !! b with Some k => hostedRuntimeSessionCompatibilityReason (bk_runtimeSession k) | None => None end.

Definition ensureBackendFreshForNewWork (ctx : Ctx) (b : nat) : M (res unit) :=
  knownReason ← reading (λ p, staleReason p b);
  match knownReason with
  | Some reason => _ ← replaceBackendAllowNever b true; mret (Err (Unavailable (StaleInstance reason)))
  | None =>
      if negb (never policy) then mret (Ok tt)
      else r ← refreshBackendRuntimeSessionWithContext ctx b;
           match r with
           | Err e => _ ← replaceBackendAllowNever b true; mret (Err (Unavailable e))
           | Ok (session, drainAt) =>
               now ← clock;
               match runtimeSessionRetirementReason session drainAt now with
               | Some reason => _ ← replaceBackendAllowNever b true; mret (Err (Unavailable (RetiringInstance reason)))
               | None => mret (Ok tt)
               end
           end
  end.

(** [releaseBackend] returns the function; this is the call of it. *)
Definition releaseBackend (b : nat) : M unit := locked (releaseLocked b).

Fixpoint acquireBackend_rounds (n : nat) (ctx : Ctx) (preferred : option nat) (allowDraining : bool) : M (res nat) :=
  round ← locked (acquireLocked policy preferred allowDraining);
  match round with
  | acquireClosed => mret (Err PoolClosed)
  | acquireNotReady => mret (Err (Unavailable NotReady))
  | acquired b => mret (Ok b)
  | acquireStarting =>
      r ← startBackend {| cx_rounds := n; cx_deadlineExceeded := cx_deadlineExceeded ctx |};
      taken ← locked (startedLocked (match r with Ok b => Some b | Err _ => None end));
      match r with
      | Err e => mret (Err (Unavailable e))
      | Ok b => if (taken : bool) then mret (Ok b)
                else match n with O => mret (Err (ctxErr ctx)) | S n => acquireBackend_rounds n ctx preferred allowDraining end
      end
  | acquireWait =>
      match n with
      | O => mret (Err (ctxErr ctx))
      | S n => _ ← sleep pollInterval; acquireBackend_rounds n ctx preferred allowDraining
      end
  end.
Definition acquireBackend (ctx : Ctx) := acquireBackend_rounds (cx_rounds ctx) ctx.

(** The loop of [acquireBackendForNewWork] once there is no preferred instance. *)
Fixpoint acquireFresh (n : nat) (ctx : Ctx) : M (res nat) :=
  r ← acquireBackend {| cx_rounds := n; cx_deadlineExceeded := cx_deadlineExceeded ctx |} None false;
  match r with
  | Err e => mret (Err e)
  | Ok b =>
      fresh ← ensureBackendFreshForNewWork {| cx_rounds := n; cx_deadlineExceeded := cx_deadlineExceeded ctx |} b;
      match fresh with
      | Ok _ => mret (Ok b)
      | Err _ => _ ← releaseBackend b; match n with O => mret (Err (ctxErr ctx)) | S n => acquireFresh n ctx end
      end
  end.

Definition acquireBackendForNewWork (ctx : Ctx) (preferred : option nat) (allowDraining : bool) : M (res nat) :=
  match preferred with
  | None => acquireFresh (cx_rounds ctx) ctx
  | Some b =>
      taken ← locked (preferLocked b allowDraining);
      match taken with
      | None => mret (Err PoolClosed)
      | Some taken =>
          if negb taken
          then if decide (cx_rounds ctx = 0) then mret (Err (ctxErr ctx)) else acquireFresh (cx_rounds ctx) ctx
          else fresh ← ensureBackendFreshForNewWork ctx b;
               match fresh with
               | Ok _ => mret (Ok b)
               | Err _ => _ ← releaseBackend b;
                          if decide (cx_rounds ctx = 0) then mret (Err (ctxErr ctx)) else acquireFresh (cx_rounds ctx) ctx
               end
      end
  end.

(** *** Recording *)

Definition recordSession (session : option (Session D)) (b : nat) : M unit :=
  match session with
  | None => mret tt
  | Some s =>
      let sessionID := TrimSpace (se_ID s) in
      if decide (sessionID = "") then mret tt
      else draining ← reading (λ p, backendDraining p b);
           if bool_decide (se_State s = SessionStateArchived) && negb draining
           then change (deleteSessionBackend sessionID)
           else change (recordSessionBackend sessionID b)
  end.

Definition recordTurn (turn : option (Turn D)) (b : nat) : M unit :=
  match turn with
  | None => mret tt
  | Some t =>
      let turnID := TrimSpace (tu_ID t) in
      if decide (turnID = "") then mret tt
      else _ ← change (recordSessionBackend (tu_SessionID t) b);
           change (recordTurnLocked turnID (tu_Status t) b)
  end.

Definition recordInteraction (interaction : option (Interaction D)) (b : nat) : M unit :=
  match interaction with
  | None => mret tt
  | Some i => change (recordInteractionLocked i b)
  end.

Fixpoint forEach {A} (f : A → M unit) (l : list A) : M unit :=
  match l with [] => mret tt | a :: l => _ ← f a; forEach f l end.

(** *** Calls on an instance: acquire, call, release, probe after an error *)

Definition onBackend {A} (op : Op) (ctx : Ctx) (b : nat) (f : H → X → result PE A * X) : M (res A) :=
  andThen (acquireBackend ctx (Some b) true) (λ b,
    r ← calling op b f;
    _ ← releaseBackend b;
    _ ← maybeProbeAfterCallError b r;
    mret r).

Definition withBackendSession ctx b req := onBackend opOther ctx b (λ h, ou_GetSession out h req).
Definition withBackendTurn ctx b req := onBackend opOther ctx b (λ h, ou_GetTurn out h req).
Definition listTurnEventsFromBackend ctx b req := onBackend opOther ctx b (λ h, ou_ListTurnEvents out h req).
Definition getInteractionFromBackend ctx b req := onBackend opOther ctx b (λ h, ou_GetInteraction out h req).
Definition listTurnsFromBackend ctx b req : M (res (list (Turn D))) :=
  andThen (onBackend opOther ctx b (λ h, ou_ListTurns out h req)) (λ turns,
    _ ← forEach (λ t, recordTurn (Some t) b) turns; mret (Ok turns)).
Definition listInteractionsFromBackend ctx b req : M (res (list (Interaction D))) :=
  andThen (onBackend opOther ctx b (λ h, ou_ListInteractions out h req)) (λ interactions,
    _ ← forEach (λ i, recordInteraction (Some i) b) interactions; mret (Ok interactions)).

(** *** Reads: the instance that is known to have it, else every instance *)

Record misses := { ms_retryable : option (PoolError PE); ms_notFound : option (PoolError PE) }.
Definition no_misses : misses := {| ms_retryable := None; ms_notFound := None |}.

(** What the error of one instance means for the search: go on, or give up. *)
Definition miss (m : misses) (e : PoolError PE) : res misses :=
  if isNotFound facts e then Ok {| ms_retryable := ms_retryable m; ms_notFound := Some e |}
  else if isHostedAgentReadRetryableError facts e then Ok {| ms_retryable := Some e; ms_notFound := ms_notFound m |}
  else Err e.

Definition missing {A} (m : misses) : res A :=
  Err (match ms_retryable m, ms_notFound m with Some e, _ => e | None, Some e => e | None, None => NotFound end).

(** The instance that is known to have it; an entry that is wrong is forgotten. *)
Definition tryKnown {A} (known : option nat) (fetch : nat → M (res A)) (forget : Pool H → Pool H) : M (res (A + misses)) :=
  match known with
  | None => mret (Ok (inr no_misses))
  | Some b =>
      r ← fetch b;
      match r with
      | Ok a => mret (Ok (inl a))
      | Err e => _ ← (if isNotFound facts e then change forget else mret tt);
                 mret (rbind (miss no_misses e) (λ m, Ok (inr m)))
      end
  end.

Fixpoint searchOne {A} (fetch : nat → M (res A)) (backends : list nat) (m : misses) : M (res A) :=
  match backends with
  | [] => mret (missing m)
  | b :: backends =>
      r ← fetch b;
      match r with
      | Ok a => mret (Ok a)
      | Err e => match miss m e with Ok m => searchOne fetch backends m | Err e => mret (Err e) end
      end
  end.

Definition untried (known : option nat) (backends : list nat) : list nat :=
  filter (λ b, known ≠ Some b) backends.

Definition readOne {A} (known : option nat) (fetch : nat → M (res A)) (forget : Pool H → Pool H) : M (res A) :=
  andThen (tryKnown known fetch forget) (λ r,
    match r with
    | inl a => mret (Ok a)
    | inr m => backends ← reading (λ p, availableBackends p true); searchOne fetch (untried known backends) m
    end).

(** A successful list of one instance counts even when it is empty. *)
Fixpoint searchAll {A} (fetch : nat → M (res (list A))) (backends : list nat) (m : misses) (found : option (list A))
    : M (res (list A)) :=
  match backends with
  | [] => mret (match found, ms_retryable m, ms_notFound m with
                | Some out, _, _ => Ok out
                | None, Some e, _ => Err e
                | None, None, Some e => Err e
                | None, None, None => Ok []
                end)
  | b :: backends =>
      r ← fetch b;
      match r with
      | Ok l => searchAll fetch backends m (Some (default [] found ++ l))
      | Err e => match miss m e with Ok m => searchAll fetch backends m found | Err e => mret (Err e) end
      end
  end.

Definition readAll {A} (known : option nat) (fetch : nat → M (res (list A))) (forget : Pool H → Pool H) : M (res (list A)) :=
  andThen (tryKnown known fetch forget) (λ r,
    match r with
    | inl l => mret (Ok l)
    | inr m => backends ← reading (λ p, availableBackends p true); searchAll fetch (untried known backends) m None
    end).

Definition GetSession (ctx : Ctx) (req : IDRequest D) : M (res (option (Session D))) :=
  let sessionID := TrimSpace (rq_ID req) in
  known ← reading (λ p, sessionBackend p sessionID);
  readOne known (λ b, andThen (withBackendSession ctx b req) (λ s, _ ← recordSession s b; mret (Ok s)))
    (deleteSessionBackend sessionID).

Definition GetTurn (ctx : Ctx) (req : IDRequest D) : M (res (option (Turn D))) :=
  let turnID := TrimSpace (rq_ID req) in
  known ← reading (λ p, turnBackend p turnID);
  readOne known (λ b, andThen (withBackendTurn ctx b req) (λ t, _ ← recordTurn t b; mret (Ok t)))
    (deleteTurnBackend turnID).

Definition ListTurnEvents (ctx : Ctx) (req : IDRequest D) : M (res (list D)) :=
  let turnID := TrimSpace (rq_ID req) in
  known ← reading (λ p, turnBackend p turnID);
  readOne known (λ b, listTurnEventsFromBackend ctx b req) (deleteTurnBackend turnID).

Definition GetInteraction (ctx : Ctx) (req : IDRequest D) : M (res (option (Interaction D))) :=
  let interactionID := TrimSpace (rq_ID req) in
  known ← reading (λ p, interactionBackend p interactionID);
  readOne known (λ b, andThen (getInteractionFromBackend ctx b req) (λ i, _ ← recordInteraction i b; mret (Ok i)))
    (deleteInteractionBackend interactionID).

Definition ListTurns (ctx : Ctx) (req : IDRequest D) : M (res (list (Turn D))) :=
  let sessionID := TrimSpace (rq_ID req) in
  known ← reading (λ p, sessionBackend p sessionID);
  readAll known (λ b, listTurnsFromBackend ctx b req) (deleteSessionBackend sessionID).

Definition ListInteractions (ctx : Ctx) (req : IDRequest D) : M (res (list (Interaction D))) :=
  let turnID := TrimSpace (rq_ID req) in
  known ← reading (λ p, turnBackend p turnID);
  readAll known (λ b, listInteractionsFromBackend ctx b req) (deleteTurnBackend turnID).

(** *** Sessions *)

(** An empty idempotency key never dedups, so it yields no routing key. *)
Definition hostedAgentCreateKey (subjectID idempotencyKey : string) : string :=
  if decide (TrimSpace idempotencyKey = "") then ""
  else TrimSpace subjectID +:+ String (Ascii.ascii_of_nat 31) (TrimSpace idempotencyKey).

Definition hostedAgentWorkspaceRef (subjectID idempotencyKey : string) : M string :=
  if decide (TrimSpace idempotencyKey = "") then outside (ou_NewString out)
  else mret (ou_NewSHA1 out ("gestalt:agent-workspace:" +:+ TrimSpace name +:+ ":" +:+ TrimSpace subjectID +:+ ":"
                             +:+ TrimSpace idempotencyKey)).

(** Only what the policy of the provider allows reaches the runtime of an instance. *)
Definition isWorkspaceProvider (b : nat) (p : Pool H) : bool :=
  match pl_heap p !! b with Some k => ou_isWorkspaceProvider out (bk_provider k) | None => false end.

Definition prepareAgentWorkspace (b : nat) (workspace : AgentWorkspace.Workspace) (workspaceRef : string)
    : M (res AgentWorkspace.PreparedWorkspace) :=
  match workspaces with
  | None => mret (Err NoWorkspacePolicy)
  | Some cfg =>
      match AgentWorkspace.validateWorkspacePolicy ToLower ParseURL (Some workspace) (Some cfg) with
      | Err e => mret (Err (WorkspaceRefused e))
      | Ok _ =>
          andThen (calling opOther b (λ h, ou_GetCapabilities out h (ou_noRequest out))) (λ caps,
          if negb (ou_SupportsPreparedWorkspace out caps) then mret (Err PreparedUnsupported)
          else andThen (toBackend (λ _, []) b (λ k, ou_Support out (bk_provider k))) (λ support,
          if negb support then mret (Err PrepareUnsupported)
          else workspaceProvider ← reading (isWorkspaceProvider b);
          if negb workspaceProvider then mret (Err NoWorkspaceProvider)
          else let timeout := AgentWorkspace.hostedAgentWorkspacePrepareTimeout TimeParseDuration (Some cfg) in
               andThen (toBackend (λ _, [preparing b workspace]) b
                          (λ k, ou_PrepareWorkspace out (bk_provider k) (bk_runtimeSessionID k) workspaceRef workspace timeout))
                 (λ prepared, mret (match AgentWorkspace.validatePreparedAgentWorkspace prepared with
                                    | Ok p => Ok p
                                    | Err e => Err (PreparedInvalid e)
                                    end))))
      end
  end.

Definition removeAgentWorkspace (b : nat) (workspaceRef : string) : M unit :=
  workspaceProvider ← reading (isWorkspaceProvider b);
  if negb workspaceProvider then mret tt
  else _ ← toBackend (λ _, []) b (λ k, ou_RemoveWorkspace out (bk_provider k) (bk_runtimeSessionID k) workspaceRef); mret tt.

(** The loop that ends on the instance with the claim.  It takes another round only when the
    claim changed hands meanwhile; the code does not bound the rounds. *)
Fixpoint claimRounds (n : nat) (ctx : Ctx) (createKey : string) (b : nat) : M (res nat) :=
  owner ← locked (λ _, claimCreateKeyBackend createKey b);
  if decide (owner = b) then mret (Ok b)
  else _ ← releaseBackend b;
       andThen (acquireBackend ctx (Some owner) true) (λ b,
         match n with
         | O => _ ← releaseBackend b; mret (Err (ctxErr ctx))
         | S n => claimRounds n ctx createKey b
         end).

Definition sessionIDForSession (session : option (Session D)) : string := default "" (se_ID <$> session).

(** The prepared workspace of a request and its reference, if it asks for one. *)
Definition workspaceFor (b : nat) (createKey : string) (req : CreateSessionRequest D) (idempotencyKey : string)
    : M (res (CreateSessionRequest D * string)) :=
  match cr_Workspace req with
  | None => mret (Ok (req, ""))
  | Some workspace =>
      workspaceRef ← hostedAgentWorkspaceRef (cr_SubjectID req) idempotencyKey;
      r ← prepareAgentWorkspace b workspace workspaceRef;
      match r with
      | Err e =>
          _ ← removeAgentWorkspace b workspaceRef;
          _ ← change (deleteCreateKeyBackend createKey);
          mret (Err e)
      | Ok prepared =>
          mret (Ok ({| cr_IdempotencyKey := cr_IdempotencyKey req; cr_SubjectID := cr_SubjectID req; cr_Workspace := None;
                       cr_PreparedWorkspace := Some prepared; cr_rest := cr_rest req |}, workspaceRef))
      end
  end.

(** A session without an ID cannot keep a prepared workspace. *)
Definition identified (req : CreateSessionRequest D) (r : res (option (Session D))) : res (option (Session D)) :=
  match r, cr_PreparedWorkspace req with
  | Ok s, Some _ => if decide (TrimSpace (sessionIDForSession s) = "") then Err SessionWithoutID else r
  | _, _ => r
  end.

Definition CreateSession (ctx : Ctx) (req : CreateSessionRequest D) : M (res (option (Session D))) :=
  let idempotencyKey := TrimSpace (cr_IdempotencyKey req) in
  let createKey := hostedAgentCreateKey (cr_SubjectID req) idempotencyKey in
  preferred ← reading (λ p, createKeyBackend p createKey);
  andThen (acquireBackendForNewWork ctx preferred (bool_decide (preferred ≠ None))) (λ b,
  andThen (claimRounds (cx_rounds ctx) ctx createKey b) (λ b,
    w ← workspaceFor b createKey req idempotencyKey;
    match w with
    | Err e => _ ← releaseBackend b; mret (Err e)
    | Ok (providerReq, workspaceRef) =>
        r ← calling (opCreateSession createKey) b (λ h, ou_CreateSession out h providerReq);
        let r := identified providerReq r in
        _ ← (match r, cr_PreparedWorkspace providerReq with
             | Err _, Some _ => if decide (idempotencyKey = "") then removeAgentWorkspace b workspaceRef else mret tt
             | _, _ => mret tt
             end);
        _ ← releaseBackend b;
        _ ← maybeProbeAfterCallError b r;
        match r with
        | Err e => mret (Err e)
        | Ok session =>
            _ ← recordSession session b;
            _ ← (if decide (workspaceRef = "") then mret tt
                 else change (recordSessionWorkspace (sessionIDForSession session) workspaceRef));
            mret (Ok session)
        end
    end)).

(** Sessions seen before in the listing are left out; those without an ID are kept. *)
Fixpoint collectSessions (b : nat) (sessions : list (Session D)) (seen : gset string) (found : list (Session D))
    : M (gset string * list (Session D)) :=
  match sessions with
  | [] => mret (seen, found)
  | s :: sessions =>
      let sessionID := TrimSpace (se_ID s) in
      if bool_decide (sessionID ≠ "" ∧ sessionID ∈ seen) then collectSessions b sessions seen found
      else _ ← recordSession (Some s) b;
           collectSessions b sessions (if decide (sessionID = "") then seen else {[sessionID]} ∪ seen) (found ++ [s])
  end.

Fixpoint listSessionsOn (ctx : Ctx) (req : D) (backends : list nat) (seen : gset string) (found : list (Session D))
    (succeeded : bool) (retryableErr : option (PoolError PE)) : M (res (list (Session D))) :=
  match backends with
  | [] => mret (match succeeded, retryableErr with false, Some e => Err e | _, _ => Ok found end)
  | b :: backends =>
      r ← onBackend opOther ctx b (λ h, ou_ListSessions out h req);
      match r with
      | Err e => if isHostedAgentReadRetryableError facts e
                 then listSessionsOn ctx req backends seen found succeeded (Some e) else mret (Err e)
      | Ok sessions =>
          collected ← collectSessions b sessions seen found;
          listSessionsOn ctx req backends collected.1 collected.2 true retryableErr
      end
  end.

Definition ListSessions (ctx : Ctx) (req : D) : M (res (list (Session D))) :=
  backends ← reading (λ p, availableBackends p true);
  listSessionsOn ctx req backends ∅ [] false None.

(** The instance of an entry; an unknown entry is looked up first, which records it. *)
Definition located {A} (route : Pool H → string → option nat) (id : string) (get : M (res A)) (idOf : A → string)
    : M (res nat) :=
  known ← reading (λ p, route p id);
  match known with
  | Some b => mret (Ok b)
  | None =>
      andThen get (λ a,
        known ← reading (λ p, route p (idOf a));
        mret (match known with Some b => Ok b | None => Err NotFound end))
  end.

Definition UpdateSession (ctx : Ctx) (req : UpdateSessionRequest D) : M (res (option (Session D))) :=
  let sessionID := TrimSpace (up_SessionID req) in
  andThen (located sessionBackend sessionID (GetSession ctx {| rq_ID := sessionID; rq_rest := up_rest req |}) sessionIDForSession)
    (λ b, andThen (onBackend opOther ctx b (λ h, ou_UpdateSession out h req)) (λ session,
      if up_Archived req || bool_decide (default "" (se_State <$> session) = SessionStateArchived)
      then let cleanupID := if decide (sessionIDForSession session = "") then sessionID else sessionIDForSession session in
           workspaceRef ← locked (λ _, takeSessionWorkspace cleanupID);
           _ ← (if decide (workspaceRef = "") then mret tt else removeAgentWorkspace b workspaceRef);
           _ ← change (deleteSessionBackend cleanupID);
           mret (Ok session)
      else _ ← recordSession session b; mret (Ok session))).

(** *** Turns and interactions *)

Definition CreateTurn (ctx : Ctx) (req : CreateTurnRequest D) : M (res (option (Turn D))) :=
  let turnID := TrimSpace (ct_TurnID req) in
  preferred ← reading (λ p, (turnBackend p turnID, sessionBackend p (ct_SessionID req)));
  let allowDraining := bool_decide (preferred.1 ≠ None) in
  andThen (acquireBackendForNewWork ctx (match preferred.1 with Some b => Some b | None => preferred.2 end) allowDraining)
    (λ b,
      r ← calling opOther b (λ h, ou_CreateTurn out h req);
      _ ← releaseBackend b;
      _ ← maybeProbeAfterCallError b r;
      match r with
      | Err e => mret (Err e)
      | Ok turn => _ ← (match turn with Some _ => recordTurn turn b | None => change (recordTurnBackend turnID b) end);
                   mret (Ok turn)
      end).

Definition turnIDForTurn (turn : option (Turn D)) : string := default "" (tu_ID <$> turn).
Definition interactionIDForInteraction (i : option (Interaction D)) : string := default "" (it_ID <$> i).

Definition CancelTurn (ctx : Ctx) (req : IDRequest D) : M (res (option (Turn D))) :=
  let turnID := TrimSpace (rq_ID req) in
  andThen (located turnBackend turnID (GetTurn ctx {| rq_ID := turnID; rq_rest := rq_rest req |}) turnIDForTurn)
    (λ b, andThen (onBackend opOther ctx b (λ h, ou_CancelTurn out h req)) (λ turn, _ ← recordTurn turn b; mret (Ok turn))).

Definition ResolveInteraction (ctx : Ctx) (req : IDRequest D) : M (res (option (Interaction D))) :=
  let interactionID := TrimSpace (rq_ID req) in
  andThen (located interactionBackend interactionID (GetInteraction ctx {| rq_ID := interactionID; rq_rest := rq_rest req |})
             interactionIDForInteraction)
    (λ b, andThen (onBackend opOther ctx b (λ h, ou_ResolveInteraction out h req)) (λ i,
      _ ← recordInteraction i b; mret (Ok i))).

Definition GetCapabilities (ctx : Ctx) (req : D) : M (res D) :=
  andThen (acquireBackend ctx None false) (λ b,
    r ← calling opOther b (λ h, ou_GetCapabilities out h req);
    _ ← releaseBackend b;
    _ ← maybeProbeAfterCallError b r;
    mret r).

(** One of the goroutines of [Ping]; they are run one after the other here. *)
Definition pingOne (ctx : Ctx) (b : nat) : M (list (PoolError PE)) :=
  r ← acquireBackend ctx (Some b) true;
  match r with
  | Err e => mret [e]
  | Ok b => r ← calling opOther b (λ h, ou_Ping out h);
            _ ← releaseBackend b;
            mret (match r with Ok _ => [] | Err e => [e] end)
  end.

(** The code pings the instances in parallel. *)
Fixpoint pingAll (ctx : Ctx) (backends : list nat) : M (list (PoolError PE)) :=
  match backends with
  | [] => mret []
  | b :: backends => errs ← pingOne ctx b; rest ← pingAll ctx backends; mret (errs ++ rest)
  end.

(** The errors that are joined. *)
Definition Ping (ctx : Ctx) : M (list (PoolError PE)) :=
  backends ← reading readyBackends;
  match backends with [] => mret [Unavailable NoReadyInstances] | _ => pingAll ctx backends end.

(** *** The goroutines of the pool *)

(** Proactive replacement, and what [replaceBackendAllowNever] and [startScaleOutLocked]
    start.  [ctx] is the context of the pool, done once it is closed. *)
Definition ended (r : option (res unit)) : bool := match r with Some _ => true | None => false end.

Definition runJob (ctx : Ctx) (j : Job) : M bool :=
  match j with
  | scaleOut =>
      _ ← startBackend ctx;
      _ ← change (set_starting pred);
      _ ← change (set_lifecycle pred);
      mret true
  | replacement b =>
      _ ← ensureMinReady ctx;
      r ← drainAndCloseBackend b;
      _ ← change (set_lifecycle pred);
      mret (ended r)
  | proactive b =>
      r ← startBackend ctx;
      _ ← change (replacedLocked b (match r with Ok _ => true | Err _ => false end));
      match r with
      | Err _ => _ ← change (set_lifecycle pred); mret true
      | Ok _ => r ← drainAndCloseBackend b; _ ← change (set_lifecycle pred); mret (ended r)
      end
  | probe b =>
      r ← pingBackend b;
      match r with Ok _ => mret true | Err _ => _ ← replaceBackend b; mret true end
  | closePart b =>
      r ← drainAndCloseBackend b;
      _ ← change (set_closingParts pred);
      mret (ended r)
  end.

(** A process that runs the [i]th goroutine that was started. *)
Definition takeJob (i : nat) (p : Pool H) : option Job * Pool H :=
  match pl_jobs p !! i with
  | None => (None, p)
  | Some j => (Some j, set_jobs (λ js, take i js ++ drop (S i) js) p)
  end.
Definition runGoroutine (i : nat) (ctx : Ctx) : M bool :=
  j ← locked (λ _, takeJob i);
  match j with None => mret true | Some j => runJob ctx j end.

Definition healthCheck (ctx : Ctx) (b : nat) : M unit :=
  r ← refreshBackendRuntimeSession ctx b;
  match r with
  | Err _ => replaceBackend b
  | Ok (session, drainAt) =>
      now ← clock;
      match runtimeSessionRetirementReason session drainAt now with
      | Some _ => replaceBackend b
      | None =>
          r ← pingBackend b;
          match r with
          | Err _ => replaceBackend b
          | Ok _ =>
              now ← clock;
              startedAt ← reading (λ p, match pl_heap p !! b with Some k => bk_startedAt k | None => zero_time end);
              match runtimeSessionProactiveReplacementReason policy startedAt session drainAt now with
              | Some _ => locked (λ now p, (tt, startProactiveReplacement policy b now p))
              | None => mret tt
              end
          end
      end
  end.

(** One tick of [healthLoop], and as many as the pool lives for. *)
Definition healthRound (ctx : Ctx) : M unit :=
  _ ← ensureMinReady ctx;
  backends ← reading readyBackends;
  forEach (healthCheck ctx) backends.
Fixpoint healthLoop (ticks : nat) (ctx : Ctx) : M unit :=
  match ticks with O => mret tt | S ticks => _ ← healthRound ctx; healthLoop ticks ctx end.

(** [Close] waits for its goroutines and for those of the pool; [None] is a wait that has
    not ended within the rounds. *)
Fixpoint awaitIdle (n : nat) (idle : Pool H → bool) : M (option unit) :=
  over ← reading idle;
  if (over : bool) then mret (Some tt)
  else match n with O => mret None | S n => _ ← sleep pollInterval; awaitIdle n idle end.

Definition Close (rounds : nat) : M (option unit) :=
  first ← locked (λ _, closeLocked);
  if negb first then mret (Some tt)
  else drained ← awaitIdle rounds (λ p, bool_decide (pl_closing p = 0));
       match drained with
       | None => mret None
       | Some _ =>
           idle ← awaitIdle rounds (λ p, bool_decide (pl_lifecycle p = 0));
           match idle with None => mret None | Some _ => _ ← change clearLocked; mret (Some tt) end
       end.

(** [newHostedAgentProviderPool]: the first instances. *)
Fixpoint startMany (n : nat) (ctx : Ctx) : M (res unit) :=
  match n with O => mret (Ok tt) | S n => andThen (startBackend ctx) (λ _, startMany n ctx) end.
Definition newHostedAgentProviderPool (ctx : Ctx) (rounds : nat) : M (res unit) :=
  r ← startMany (Z.to_nat (lp_MinReadyInstances policy)) ctx;
  match r with Ok _ => mret (Ok tt) | Err e => _ ← Close rounds; mret (Err e) end.
End pool.

End HostedPool.
