(* ===== verification/HostedPoolInvariant.v ===== *)
(** * HostedPoolInvariant: what every section of the hosted agent pool keeps

    The invariant of [HostedPool] under concurrency.  It counts what each process has taken
    in tokens ([OwnedResources]): a use of an instance, a start it announced, the closing of
    an instance.  For every section under the mutex, and for the passing of time and the
    calls to the outside, a lemma says from which tokens to which it keeps the invariant;
    the sections that need none are [quiet].  [HostedPoolSafety] composes them. *)

From stdpp Require Import base gmap gmultiset strings list sorting sets relations.
From Stdlib Require Import ZArith Lia.
From S2P Require Import Prelude ObjectStore OwnedResources AgentWorkspace HostedPool.

Set Default Goal Selector "!".

Module HostedPoolInvariant.
Import HostedPool.

(** ** Tokens *)

Inductive Tok :=
  | Using (b : nat)     (* a use of an instance: [active] *)
  | Starting            (* a start that is announced in [starting] *)
  | Landed              (* the same, after its instance joined the pool *)
  | Draining (b : nat). (* the closing of an instance *)

#[export] Instance Tok_eq_dec : EqDecision Tok.
Proof. solve_decision. Defined.
#[export] Instance Tok_countable : Countable Tok.
Proof.
  refine (inj_countable'
    (λ t, match t with
          | Using b => inl (inl b) | Draining b => inl (inr b)
          | Starting => inr 0 | Landed => inr 1
          end)
    (λ s, match s with
          | inl (inl b) => Using b | inl (inr b) => Draining b
          | inr 0 => Starting | inr _ => Landed
          end) _).
  by intros [].
Defined.

Abbreviation tokens := (gmultiset Tok).

(** ** The invariant *)

Definition startsOf (j : Job) : nat := match j with scaleOut | proactive _ => 1 | _ => 0 end.
Definition starts (js : list Job) : nat := foldr (λ j n, startsOf j + n) 0 js.

Definition closesOf (b : nat) (e : Event) : nat :=
  match e with providerClosed b' _ _ => if decide (b' = b) then 1 else 0 | _ => 0 end.
Definition closes (b : nat) (tr : list Event) : nat := foldr (λ e n, closesOf b e + n) 0 tr.

(** After an instance was closed in time, no call reaches it. *)
Definition drained (tr : list Event) : Prop :=
  ∀ tr1 b d t tr2 op, tr = tr1 ++ providerClosed b d t :: tr2 → called b op ∈ tr2 → (d < t)%Z.

Section invariant.
Context {X H : Type} (policy : RuntimePlacementLifecyclePolicy) (current : Prop) (allowed : AgentWorkspace.Workspace → Prop).
Implicit Types (p : Pool H) (b : nat) (now : time) (tr : list Event) (m : tokens) (w : World X H).

Definition capacity : nat := Z.to_nat (lp_MinReadyInstances policy `max` lp_MaxReadyInstances policy).

Definition closingOf p b : nat :=
  match pl_heap p !! b with Some k => if bk_closing k then 1 else 0 | None => 0 end.

(** A closed instance that nobody uses; nobody can use it again. *)
Definition unused p b : Prop := ∃ k, pl_heap p !! b = Some k ∧ bk_closed k = true ∧ bk_active k = 0.

Definition routed p b : Prop :=
  ∃ key, pl_sessionBackends p !! key = Some b ∨ pl_turnBackends p !! key = Some b ∨ pl_interactionBackends p !! key = Some b.

Record PInv p now tr m : Prop := {
  iv_heap : ∀ b, is_Some (pl_heap p !! b) → b ≤ pl_nextID p;
  iv_nodup : NoDup (pl_backends p);
  iv_member : ∀ b, b ∈ pl_backends p → ∃ k, pl_heap p !! b = Some k ∧ bk_closed k = false;
  iv_using : ∀ b, active_of p b = multiplicity (Using b) m;
  iv_starting : pl_starting p = multiplicity Starting m + multiplicity Landed m + starts (pl_jobs p);
  iv_closing : ∀ b, multiplicity (Draining b) m + closes b tr = closingOf p b;
  iv_closed : ∀ b k, pl_heap p !! b = Some k → bk_closed k = true → bk_closing k = true;
  iv_settled : ∀ b d t, providerClosed b d t ∈ tr → (d < t)%Z ∨ unused p b;
  iv_drained : drained tr;
  iv_routes : ∀ b, routed p b → b ∈ pl_backends p;
  iv_current : current → ∀ b k, pl_heap p !! b = Some k → backendRuntimeSessionStaleLocked k = false;
  iv_capacity : current →
    readyCount p now + multiplicity Starting m + starts (pl_jobs p) ≤ capacity;
  iv_prepared : ∀ b ws, preparing b ws ∈ tr → allowed ws }.

Definition Inv w m : Prop := PInv (w_pool w) (w_now w) (w_trace w) m.

(** What every step does at most: instances stay, a closed one is not taken again, time and
    the trace go on. *)
Definition grows p p' : Prop :=
  ∀ b k, pl_heap p !! b = Some k →
    ∃ k', pl_heap p' !! b = Some k' ∧ (bk_closed k = true → bk_closed k' = true ∧ bk_active k' ≤ bk_active k).

Definition G w w' : Prop :=
  grows (w_pool w) (w_pool w') ∧ (w_now w ≤ w_now w')%Z ∧ w_trace w `prefix_of` w_trace w'.

#[export] Instance grows_preorder : PreOrder grows.
Proof.
  split.
  - intros p b k Hk. exists k. auto.
  - intros p1 p2 p3 H12 H23 b k Hk. destruct (H12 b k Hk) as (k2 & Hk2 & Hc2).
    destruct (H23 b k2 Hk2) as (k3 & Hk3 & Hc3). exists k3. split; [done|]. intros Hc.
    destruct (Hc2 Hc) as [Hc' Ha2]. destruct (Hc3 Hc') as [? ?]. split; [done|]. lia.
Qed.

#[export] Instance G_preorder : PreOrder G.
Proof.
  split.
  - intros w. split_and!; [done|lia|done].
  - intros w1 w2 w3 (? & ? & ?) (? & ? & ?). split_and!; [by etrans|lia|by etrans].
Qed.

(** A change of the pool that keeps the invariant, from the tokens [m] to [m']. *)
Definition keeps (now : time) (p p' : Pool H) (m m' : tokens) : Prop :=
  ∀ tr, PInv p now tr m → grows p p' ∧ PInv p' now tr m'.

Lemma keeps_refl now p m : keeps now p p m m.
Proof. intros tr HI. split; [reflexivity|done]. Qed.

Lemma keeps_trans now p1 p2 p3 m1 m2 m3 :
  keeps now p1 p2 m1 m2 → keeps now p2 p3 m2 m3 → keeps now p1 p3 m1 m3.
Proof. intros K1 K2 tr HI. destruct (K1 tr HI) as [G1 I1]. destruct (K2 tr I1) as [G2 I2]. split; [by etrans|done]. Qed.

(** ** Fewer instances accept work *)

Lemma accepting_spec p now b : b ∈ accepting p now ↔ b ∈ pl_backends p ∧ backendAcceptsNewWorkLocked p b now = true.
Proof. unfold accepting. rewrite list_elem_of_filter. tauto. Qed.

Lemma accepting_nodup p now : NoDup (pl_backends p) → NoDup (accepting p now).
Proof. intros. by apply NoDup_filter. Qed.

Lemma readyCount_le p now p' now' :
  NoDup (pl_backends p') → (∀ b, b ∈ accepting p' now' → b ∈ accepting p now) → readyCount p' now' ≤ readyCount p now.
Proof.
  intros Hn Hsub. unfold readyCount. apply submseteq_length, NoDup_submseteq; [by apply accepting_nodup|done].
Qed.

Lemma accepts_spec p b now :
  backendAcceptsNewWorkLocked p b now = true ↔
  ∃ k, pl_heap p !! b = Some k ∧ b ∈ pl_backends p ∧ bk_closed k = false ∧ bk_draining k = false ∧ bk_closing k = false
       ∧ backendRuntimeDrainDueLocked k now = false ∧ backendRuntimeSessionStaleLocked k = false.
Proof.
  unfold backendAcceptsNewWorkLocked, backendAvailableLocked. destruct (pl_heap p !! b) as [k|]; cbn.
  - rewrite !andb_true_iff, !negb_true_iff, orb_false_iff, bool_decide_eq_true. split.
    + intros [[[? [? ?]] ?] [? ?]]. exists k. auto 10.
    + intros (k' & [= <-] & ?). tauto.
  - split; [done|]. by intros (? & ? & _).
Qed.

Lemma available_spec p b allow :
  backendAvailableLocked p b allow = true ↔
  ∃ k, pl_heap p !! b = Some k ∧ b ∈ pl_backends p ∧ bk_closed k = false
       ∧ (allow = true ∨ (bk_draining k = false ∧ bk_closing k = false)).
Proof.
  unfold backendAvailableLocked. destruct (pl_heap p !! b) as [k|]; cbn.
  - rewrite !andb_true_iff, negb_true_iff, orb_true_iff, negb_true_iff, orb_false_iff, bool_decide_eq_true. split.
    + intros [[? ?] ?]. exists k. tauto.
    + intros (k' & [= <-] & ?). tauto.
  - split; [done|]. by intros (? & ? & _).
Qed.

Lemma accepting_of p now b k :
  b ∈ accepting p now → pl_heap p !! b = Some k →
  b ∈ pl_backends p ∧ bk_closed k = false ∧ bk_draining k = false ∧ bk_closing k = false
  ∧ backendRuntimeDrainDueLocked k now = false ∧ backendRuntimeSessionStaleLocked k = false.
Proof.
  intros Hb Hk. apply accepting_spec in Hb as [_ Hb]. apply accepts_spec in Hb as (k' & Hk' & Hb).
  rewrite Hk in Hk'. injection Hk' as <-. tauto.
Qed.

(** ** Changes that keep the invariant *)

Record benign (now : time) (k k' : hostedAgentPoolBackend H) : Prop := {
  bn_active : bk_active k' = bk_active k;
  bn_closing : bk_closing k' = bk_closing k;
  bn_closed : bk_closed k' = bk_closed k;
  bn_draining : bk_draining k = true → bk_draining k' = true;
  bn_due : backendRuntimeDrainDueLocked k now = true → backendRuntimeDrainDueLocked k' now = true;
  bn_stale : current → backendRuntimeSessionStaleLocked k = false → backendRuntimeSessionStaleLocked k' = false }.

Lemma benign_refl now k : benign now k k.
Proof. by split. Qed.

Record quiet (now : time) (p p' : Pool H) : Prop := {
  q_next : pl_nextID p' = pl_nextID p;
  q_backends : pl_backends p' = pl_backends p;
  q_starting : pl_starting p' = pl_starting p;
  q_starts : starts (pl_jobs p') = starts (pl_jobs p);
  q_heap : ∀ b, pl_heap p' !! b = pl_heap p !! b
                ∨ ∃ k k', pl_heap p !! b = Some k ∧ pl_heap p' !! b = Some k' ∧ benign now k k';
  q_routes : ∀ b, routed p' b → routed p b ∨ b ∈ pl_backends p }.

Lemma quiet_lookup now p p' b k :
  quiet now p p' → pl_heap p !! b = Some k → ∃ k', pl_heap p' !! b = Some k' ∧ benign now k k'.
Proof.
  intros Hq Hk. destruct (q_heap _ _ _ Hq b) as [->|(k0 & k' & Hk0 & Hk' & Hb)].
  - exists k. split; [done|apply benign_refl].
  - rewrite Hk in Hk0. injection Hk0 as <-. eauto.
Qed.

Lemma quiet_lookup' now p p' b k' :
  quiet now p p' → pl_heap p' !! b = Some k' → ∃ k, pl_heap p !! b = Some k ∧ benign now k k'.
Proof.
  intros Hq Hk'. destruct (q_heap _ _ _ Hq b) as [Heq|(k & k0 & Hk & Hk0 & Hb)].
  - rewrite Heq in Hk'. exists k'. split; [done|apply benign_refl].
  - rewrite Hk' in Hk0. injection Hk0 as <-. eauto.
Qed.

Lemma quiet_active now p p' b : quiet now p p' → active_of p' b = active_of p b.
Proof.
  intros Hq. unfold active_of. destruct (q_heap _ _ _ Hq b) as [->|(k & k' & -> & -> & Hb)]; [done|]. apply Hb.
Qed.

Lemma quiet_unused now p p' b : quiet now p p' → unused p b → unused p' b.
Proof.
  intros Hq (k & Hk & Hc & Ha). destruct (quiet_lookup _ _ _ _ _ Hq Hk) as (k' & Hk' & Hb). exists k'.
  split_and!; [done| |]; destruct Hb; congruence.
Qed.

Lemma quiet_accepting now p p' b tr m :
  current → PInv p now tr m → quiet now p p' → b ∈ accepting p' now → b ∈ accepting p now.
Proof.
  intros Hcur HI Hq Hb. rewrite accepting_spec in *. rewrite (q_backends _ _ _ Hq) in Hb. destruct Hb as [Hm Hb].
  split; [done|]. apply accepts_spec in Hb as (k' & Hk' & _ & Hcd & Hdr & Hcg & Hdue & Hst).
  destruct (quiet_lookup' _ _ _ _ _ Hq Hk') as (k & Hk & [_ Ecg Ecd Hd' Hdue' _]). apply accepts_spec. exists k.
  split_and!; [done|done|congruence| |congruence| |by eapply iv_current].
  - destruct (bk_draining k); [|done]. by rewrite Hd' in Hdr.
  - destruct (backendRuntimeDrainDueLocked k now); [|done]. by rewrite Hdue' in Hdue.
Qed.

Lemma quiet_keeps now p p' m : quiet now p p' → keeps now p p' m m.
Proof.
  intros Hq tr HI. split.
  - intros b k Hk. destruct (quiet_lookup _ _ _ _ _ Hq Hk) as (k' & Hk' & Hb). exists k'. split; [done|].
    destruct Hb. intros Hc. split; [congruence|lia].
  - pose proof HI as [Hheap Hnd Hmem Hus Hst Hcg Hcd Hset Hdr Hro Hcur Hcap Hprep]. split.
    + intros b [k' Hk']. rewrite (q_next _ _ _ Hq). destruct (quiet_lookup' _ _ _ _ _ Hq Hk') as (k & Hk & _). eauto.
    + by rewrite (q_backends _ _ _ Hq).
    + intros b Hb. rewrite (q_backends _ _ _ Hq) in Hb. destruct (Hmem b Hb) as (k & Hk & Hc).
      destruct (quiet_lookup _ _ _ _ _ Hq Hk) as (k' & Hk' & Hbn). exists k'. split; [done|]. destruct Hbn. congruence.
    + intros b. by rewrite (quiet_active _ _ _ _ Hq).
    + by rewrite (q_starting _ _ _ Hq), (q_starts _ _ _ Hq).
    + intros b. rewrite Hcg. unfold closingOf. destruct (q_heap _ _ _ Hq b) as [->|(k & k' & -> & -> & Hbn)]; [done|].
      destruct Hbn as [_ -> _ _ _ _]. done.
    + intros b k' Hk' Hc. destruct (quiet_lookup' _ _ _ _ _ Hq Hk') as (k & Hk & [_ -> Ec _ _ _]).
      rewrite Ec in Hc. eauto.
    + intros b d t Hev. destruct (Hset b d t Hev) as [?|Hu]; [by left|right]. by eapply quiet_unused.
    + done.
    + intros b Hr. rewrite (q_backends _ _ _ Hq). destruct (q_routes _ _ _ Hq b Hr); auto.
    + intros Hc b k' Hk'. destruct (quiet_lookup' _ _ _ _ _ Hq Hk') as (k & Hk & Hbn). apply Hbn; eauto.
    + intros Hc. rewrite (q_starts _ _ _ Hq). specialize (Hcap Hc).
      assert (readyCount p' now ≤ readyCount p now); [|lia].
      apply readyCount_le; [by rewrite (q_backends _ _ _ Hq)|]. intros b. by eapply quiet_accepting.
    + done.
Qed.

Lemma quiet_refl now p : quiet now p p.
Proof. split; auto. Qed.

Lemma quiet_trans now p1 p2 p3 : quiet now p1 p2 → quiet now p2 p3 → quiet now p1 p3.
Proof.
  intros H12 H23. split.
  - by rewrite (q_next _ _ _ H23), (q_next _ _ _ H12).
  - by rewrite (q_backends _ _ _ H23), (q_backends _ _ _ H12).
  - by rewrite (q_starting _ _ _ H23), (q_starting _ _ _ H12).
  - by rewrite (q_starts _ _ _ H23), (q_starts _ _ _ H12).
  - intros b. destruct (pl_heap p1 !! b) as [k1|] eqn:E1.
    + right. destruct (quiet_lookup _ _ _ _ _ H12 E1) as (k2 & E2 & B12).
      destruct (quiet_lookup _ _ _ _ _ H23 E2) as (k3 & E3 & B23). exists k1, k3. split_and!; [done..|].
      destruct B12, B23. split; [congruence..|auto|auto|auto].
    + left. destruct (q_heap _ _ _ H12 b) as [E2|(? & ? & E2 & _)]; [|congruence].
      destruct (q_heap _ _ _ H23 b) as [E3|(? & ? & E3 & _)]; congruence.
  - intros b Hr. destruct (q_routes _ _ _ H23 b Hr) as [Hr2|Hr2].
    + by apply (q_routes _ _ _ H12).
    + right. by rewrite <-(q_backends _ _ _ H12).
Qed.

(** *** Quiet changes *)

Lemma quiet_alter now p b f :
  (∀ k, pl_heap p !! b = Some k → benign now k (f k)) → quiet now p (alter_backend b f p).
Proof.
  intros Hf. destruct p as [ni np st cl hp bs sb tb ib cb sw jb lc cg]. cbn in *. split; cbn; auto.
  intros b'. destruct (decide (b = b')) as [<-|Hne].
  - rewrite lookup_alter_eq. destruct (hp !! b) as [k|]; cbn; [|by left]. right. exists k, (f k). auto.
  - rewrite lookup_alter_ne by done. by left.
Qed.

Definition only_routes (p : Pool H) (old new : gmap string nat) : Prop :=
  ∀ key b, new !! key = Some b → old !! key = Some b ∨ b ∈ pl_backends p.

Lemma quiet_sessions now p f :
  only_routes p (pl_sessionBackends p) (f (pl_sessionBackends p)) → quiet now p (set_sessions f p).
Proof.
  intros Hf. destruct p as [ni np st cl hp bs sb tb ib cb sw jb lc cg]. cbn in *. split; cbn; auto.
  intros b (key & Hr). cbn in Hr. unfold routed. cbn. destruct Hr as [Hr|Hr]; [|by eauto].
  apply Hf in Hr as [?|?]; [left; exists key; auto|auto].
Qed.

Lemma quiet_turns now p f :
  only_routes p (pl_turnBackends p) (f (pl_turnBackends p)) → quiet now p (set_turns f p).
Proof.
  intros Hf. destruct p as [ni np st cl hp bs sb tb ib cb sw jb lc cg]. cbn in *. split; cbn; auto.
  intros b (key & Hr). cbn in Hr. unfold routed. cbn. destruct Hr as [?|[Hr|?]]; [by eauto| |by eauto].
  apply Hf in Hr as [?|?]; [left; exists key; auto|auto].
Qed.

Lemma quiet_interactions now p f :
  only_routes p (pl_interactionBackends p) (f (pl_interactionBackends p)) → quiet now p (set_interactions f p).
Proof.
  intros Hf. destruct p as [ni np st cl hp bs sb tb ib cb sw jb lc cg]. cbn in *. split; cbn; auto.
  intros b (key & Hr). cbn in Hr. unfold routed. cbn. destruct Hr as [?|[?|Hr]]; [by eauto|by eauto|].
  apply Hf in Hr as [?|?]; [left; exists key; auto|auto].
Qed.

Lemma only_routes_insert p (r : gmap string nat) key b : b ∈ pl_backends p → only_routes p r (<[key := b]> r).
Proof. intros Hb key' b' Hl. apply lookup_insert_Some in Hl as [[_ <-]|[_ ?]]; auto. Qed.

Lemma only_routes_delete p (r : gmap string nat) key : only_routes p r (delete key r).
Proof. intros key' b' Hl. apply lookup_delete_Some in Hl as [_ ?]. auto. Qed.

Lemma available_member p b allow : backendAvailableLocked p b allow = true → b ∈ pl_backends p.
Proof. intros Ha. apply available_spec in Ha as (? & _ & ? & _). done. Qed.

#[local] Hint Resolve quiet_refl only_routes_insert only_routes_delete available_member : core.

Lemma quiet_recordSessionBackend now id b p : quiet now p (recordSessionBackend id b p).
Proof.
  unfold recordSessionBackend. cbn zeta. destruct (_ && _) eqn:E; [|auto]. apply andb_true_iff in E as [_ E].
  apply quiet_sessions. eauto.
Qed.

Lemma quiet_deleteSessionBackend now id p : quiet now p (deleteSessionBackend id p).
Proof. unfold deleteSessionBackend. cbn zeta. case_decide; [auto|]. apply quiet_sessions. auto. Qed.

Lemma quiet_recordTurnBackend now id b p : quiet now p (recordTurnBackend id b p).
Proof.
  unfold recordTurnBackend. cbn zeta. destruct (_ && _) eqn:E; [|auto]. apply andb_true_iff in E as [_ E].
  apply quiet_turns. eauto.
Qed.

Lemma benign_live now k f : benign now k (set_liveTurns f k).
Proof. destruct k. by split. Qed.

Lemma quiet_recordTurn now id status b p : quiet now p (recordTurnLocked id status b p).
Proof.
  unfold recordTurnLocked. destruct (backendAvailableLocked p b true) eqn:E; cbn [negb]; [|auto].
  apply available_member in E. destruct (ExecutionStatusIsLive status).
  - eapply quiet_trans; [|apply quiet_alter; intros; apply benign_live]. apply quiet_turns. auto.
  - eapply quiet_trans; [|apply quiet_alter; intros; apply benign_live].
    destruct (pl_heap p !! b) as [k|]; [|auto]. destruct (bk_draining k); apply quiet_turns; auto.
Qed.

Lemma quiet_deleteTurnBackend now id p : quiet now p (deleteTurnBackend id p).
Proof.
  unfold deleteTurnBackend. cbn zeta. case_decide; [auto|].
  assert (∀ l p0, quiet now p0 (foldr (λ b p, alter_backend b (set_liveTurns (λ ts, ts ∖ {[TrimSpace id]})) p) p0 l)) as Hl.
  { intros l p0. induction l as [|b l IH]; cbn; [auto|]. eapply quiet_trans; [exact IH|].
    apply quiet_alter. intros. apply benign_live. }
  eapply quiet_trans; [|apply Hl]. apply quiet_turns. auto.
Qed.

Lemma backends_sessions f p : pl_backends (set_sessions (H := H) f p) = pl_backends p.
Proof. by destruct p. Qed.
Lemma backends_turns f p : pl_backends (set_turns (H := H) f p) = pl_backends p.
Proof. by destruct p. Qed.
Lemma backends_interactions f p : pl_backends (set_interactions (H := H) f p) = pl_backends p.
Proof. by destruct p. Qed.

Lemma quiet_recordInteraction {D} now (i : Interaction D) b p : quiet now p (recordInteractionLocked i b p).
Proof.
  unfold recordInteractionLocked. case_decide; [auto|]. destruct (backendAvailableLocked p b true) eqn:E; cbn [negb]; [|auto].
  apply available_member in E. cbn zeta.
  match goal with |- context [if ?c then set_interactions (delete _) p else _] =>
    set (p1 := if c then set_interactions (delete (it_ID i)) p else set_interactions <[it_ID i:=b]> p) end.
  assert (quiet now p p1) as H1 by (subst p1; destruct (_ && _); apply quiet_interactions; auto).
  assert (pl_backends p1 = pl_backends p) as Eb by (subst p1; destruct (_ && _); apply backends_interactions).
  set (p2 := if decide (TrimSpace (it_TurnID i) = "") then p1 else set_turns <[TrimSpace (it_TurnID i):=b]> p1).
  assert (quiet now p p2) as H2.
  { subst p2. case_decide; [done|]. eapply quiet_trans; [exact H1|]. apply quiet_turns, only_routes_insert. by rewrite Eb. }
  assert (pl_backends p2 = pl_backends p) as Eb2 by (subst p2; case_decide; [done|by rewrite backends_turns]).
  change (quiet now p (if decide (TrimSpace (it_SessionID i) = "") then p2 else set_sessions <[TrimSpace (it_SessionID i):=b]> p2)).
  case_decide; [done|]. eapply quiet_trans; [exact H2|]. apply quiet_sessions, only_routes_insert. by rewrite Eb2.
Qed.

Lemma quiet_deleteInteractionBackend now id p : quiet now p (deleteInteractionBackend id p).
Proof. unfold deleteInteractionBackend. cbn zeta. case_decide; [auto|]. apply quiet_interactions. auto. Qed.

Lemma quiet_createKeys now f p : quiet now p (set_createKeys f p).
Proof. destruct p. split; cbn; auto. Qed.
Lemma quiet_workspaces now f p : quiet now p (set_workspaces f p).
Proof. destruct p. split; cbn; auto. Qed.
Lemma quiet_nextPick now v p : quiet now p (set_nextPick v p).
Proof. destruct p. split; cbn; auto. Qed.
Lemma quiet_lifecycle now f p : quiet now p (set_lifecycle f p).
Proof. destruct p. split; cbn; auto. Qed.
Lemma quiet_closingParts now f p : quiet now p (set_closingParts f p).
Proof. destruct p. split; cbn; auto. Qed.
Lemma quiet_pclosed now p : quiet now p (set_pclosed p).
Proof. destruct p. split; cbn; auto. Qed.

Lemma started_app js js' : starts (js ++ js') = starts js + starts js'.
Proof. induction js as [|j js IH]; cbn; [done|]. unfold starts in *. lia. Qed.

Lemma quiet_spawn now j p : startsOf j = 0 → quiet now p (spawn j p).
Proof.
  intros Hj. unfold spawn. destruct p as [ni np st cl hp bs sb tb ib cb sw jb lc cg]. cbn. split; cbn; auto.
  rewrite started_app. change (starts [j]) with (startsOf j + 0). unfold starts. lia.
Qed.

Lemma quiet_claim now key b p : quiet now p (claimCreateKeyBackend key b p).2.
Proof.
  unfold claimCreateKeyBackend. case_decide; [cbn; auto|]. destruct (_ !! _); cbn; [auto|]. apply quiet_createKeys.
Qed.
Lemma quiet_deleteCreateKey now key p : quiet now p (deleteCreateKeyBackend key p).
Proof. unfold deleteCreateKeyBackend. case_decide; [auto|]. apply quiet_createKeys. Qed.
Lemma quiet_recordWorkspace now id r p : quiet now p (recordSessionWorkspace id r p).
Proof. unfold recordSessionWorkspace. cbn zeta. case_decide; [auto|]. apply quiet_workspaces. Qed.
Lemma quiet_takeWorkspace now id p : quiet now p (takeSessionWorkspace id p).2.
Proof. unfold takeSessionWorkspace. cbn zeta. case_decide; cbn; [auto|]. apply quiet_workspaces. Qed.

Lemma benign_draining now k : benign now k (set_draining k).
Proof. destruct k. by split. Qed.

Lemma quiet_markDraining now b p : quiet now p (markBackendDraining b p).2.
Proof.
  unfold markBackendDraining. destruct (pl_heap p !! b) as [k|]; [|cbn; auto]. destruct (_ || _); cbn [snd]; [auto|].
  apply quiet_alter. intros. apply benign_draining.
Qed.

Lemma quiet_addLifecycleWork now b p : quiet now p (addLifecycleWork (replacement b) p).2.
Proof.
  unfold addLifecycleWork. destruct (pl_closed p); cbn [snd]; [auto|]. unfold spawn_lifecycle.
  eapply quiet_trans; [apply quiet_lifecycle|by apply quiet_spawn].
Qed.

Lemma quiet_close now p : quiet now p (closeLocked p).2.
Proof.
  unfold closeLocked. destruct (pl_closed p); cbn [snd]; [auto|]. cbn zeta. cbn [snd].
  assert (∀ l p0, quiet now p0 (foldr (λ b p, alter_backend b (λ k, if bk_closed k then k else set_draining k) p) p0 l)) as H1.
  { intros l p0. induction l as [|b l IH]; cbn; [auto|]. eapply quiet_trans; [exact IH|].
    apply quiet_alter. intros k _. destruct (bk_closed k); [apply benign_refl|apply benign_draining]. }
  assert (∀ l p0, quiet now p0 (foldl (λ p b, set_closingParts S (spawn (closePart b) p)) p0 l)) as H2.
  { intros l. induction l as [|b l IH]; intros p0; cbn; [auto|]. eapply quiet_trans; [|apply IH].
    eapply quiet_trans; [by apply (quiet_spawn now (closePart b))|apply quiet_closingParts]. }
  eapply quiet_trans; [apply quiet_pclosed|]. eapply quiet_trans; [apply H1|apply H2].
Qed.

(** A refreshed session is as current as the runtime's answer. *)
Lemma quiet_refresh now b session drainAt p :
  (current → hostedRuntimeSessionCompatibilityReason session = None) →
  quiet now p (refreshLocked b session drainAt p).2.
Proof.
  intros Hses. unfold refreshLocked. destruct (backendAvailableLocked p b true); cbn [snd]; [|auto].
  apply quiet_alter. intros k Hk. rewrite Hk. destruct k as [pr sid rs sa da fc ac lt dr rp cg cd]. cbn. split; cbn; auto.
  - unfold backendRuntimeDrainDueLocked. cbn. destruct da as [old|]; [|discriminate]. destruct drainAt as [new|]; [|auto].
    rewrite negb_true_iff. unfold Before. destruct (old <? new)%Z eqn:E; rewrite negb_true_iff; [auto|].
    rewrite !Z.ltb_ge in *. lia.
  - intros Hc _. unfold backendRuntimeSessionStaleLocked. cbn. rewrite (Hses Hc).
    apply bool_decide_eq_false_2. intros Hne. by apply Hne.
Qed.

(** *** Changes that take or give back a token *)

Lemma heap_alter b f p : pl_heap (alter_backend b f p) = alter f b (pl_heap p).
Proof. by destruct p. Qed.
Lemma backends_alter b (f : hostedAgentPoolBackend H → _) p : pl_backends (alter_backend b f p) = pl_backends p.
Proof. by destruct p. Qed.

Lemma lookup_alter_backend b f p b' k' :
  pl_heap (alter_backend b f p) !! b' = Some k' →
  ∃ k, pl_heap p !! b' = Some k ∧ k' = if decide (b' = b) then f k else k.
Proof.
  rewrite heap_alter. destruct (decide (b' = b)) as [->|Hne].
  - rewrite lookup_alter_eq. destruct (pl_heap p !! b) as [k|]; [|done]. intros [= <-]. eauto.
  - rewrite lookup_alter_ne by done. eauto.
Qed.

Lemma lookup_alter_backend_some b f p b' k :
  pl_heap p !! b' = Some k → pl_heap (alter_backend b f p) !! b' = Some (if decide (b' = b) then f k else k).
Proof.
  intros Hk. rewrite heap_alter. destruct (decide (b' = b)) as [->|Hne].
  - by rewrite lookup_alter_eq, Hk.
  - by rewrite lookup_alter_ne.
Qed.

(** Changing one instance and the tokens that stand for it. *)
Record mild (now : time) (k k' : hostedAgentPoolBackend H) : Prop := {
  ml_closed : bk_closed k' = bk_closed k;
  ml_closing : bk_closing k = true → bk_closing k' = true;
  ml_draining : bk_draining k = true → bk_draining k' = true;
  ml_drainAt : bk_runtimeDrainAt k' = bk_runtimeDrainAt k;
  ml_session : bk_runtimeSession k' = bk_runtimeSession k;
  ml_active : bk_closed k = true → bk_active k' ≤ bk_active k }.

Lemma mild_accepting now p b f b' :
  (∀ k, pl_heap p !! b = Some k → mild now k (f k)) →
  b' ∈ accepting (alter_backend b f p) now → b' ∈ accepting p now.
Proof.
  intros Hf. rewrite !accepting_spec, backends_alter. intros [Hb' Ha]. split; [done|].
  apply accepts_spec in Ha as (k' & Hk' & _ & Ha). apply lookup_alter_backend in Hk' as (k & Hk & ->).
  apply accepts_spec. exists k. split_and!; [done|done|..]; destruct (decide (b' = b)) as [->|]; try tauto;
    destruct (Hf k Hk) as [Ecd Ecg Edr Eda Ese _]; destruct Ha as (Hcd & Hdr & Hcg & Hdue & Hst).
  - congruence.
  - destruct (bk_draining k); [|done]. by rewrite Edr in Hdr.
  - destruct (bk_closing k); [|done]. by rewrite Ecg in Hcg.
  - unfold backendRuntimeDrainDueLocked in *. by rewrite Eda in Hdue.
  - unfold backendRuntimeSessionStaleLocked in *. by rewrite Ese in Hst.
Qed.

Lemma keeps_alter now p m m' b f :
  (∀ k, pl_heap p !! b = Some k → mild now k (f k)) →
  (∀ b', active_of p b' = multiplicity (Using b') m → active_of (alter_backend b f p) b' = multiplicity (Using b') m') →
  (∀ b', closingOf (alter_backend b f p) b' + multiplicity (Draining b') m = closingOf p b' + multiplicity (Draining b') m') →
  (∀ t, t = Starting ∨ t = Landed → multiplicity t m' = multiplicity t m) →
  keeps now p (alter_backend b f p) m m'.
Proof.
  intros Hf Hact Hcls Hm tr [Hheap Hnd Hmem Hus Hst Hcg Hcd Hset Hdr Hro Hcur Hcap Hprep]. split; [|split].
  - intros b' k Hk. eexists. split; [by apply lookup_alter_backend_some|]. intros Hc.
    destruct (decide (b' = b)) as [->|]; [|done]. destruct (Hf k Hk). split; [congruence|auto].
  - intros b' [k' Hk']. apply lookup_alter_backend in Hk' as (k & Hk & _). destruct p. eauto.
  - by rewrite backends_alter.
  - intros b' Hb'. rewrite backends_alter in Hb'. destruct (Hmem b' Hb') as (k & Hk & Hc).
    eexists. split; [by apply lookup_alter_backend_some|]. destruct (decide (b' = b)) as [->|]; [|done].
    destruct (Hf k Hk). congruence.
  - intros b'. apply Hact, Hus.
  - rewrite !Hm by auto. by destruct p.
  - intros b'. specialize (Hcg b'). specialize (Hcls b'). lia.
  - intros b' k' Hk' Hc. apply lookup_alter_backend in Hk' as (k & Hk & ->). specialize (Hcd _ _ Hk).
    destruct (decide (b' = b)) as [->|]; [|auto]. destruct (Hf k Hk) as [Ec Eg _ _ _ _]. rewrite Ec in Hc. auto.
  - intros b' d t Hev. destruct (Hset b' d t Hev) as [?|(k & Hk & Hc & Ha)]; [by left|right].
    eexists. split; [by apply lookup_alter_backend_some|]. destruct (decide (b' = b)) as [->|]; [|done].
    destruct (Hf k Hk) as [Ec _ _ _ _ Eact]. specialize (Eact Hc). split; [congruence|lia].
  - done.
  - intros b' Hr. rewrite backends_alter. apply Hro. by destruct p.
  - intros Hc b' k' Hk'. apply lookup_alter_backend in Hk' as (k & Hk & ->). specialize (Hcur Hc _ _ Hk).
    destruct (decide (b' = b)) as [->|]; [|done]. unfold backendRuntimeSessionStaleLocked in *.
    by rewrite (ml_session _ _ _ (Hf k Hk)).
  - intros Hc. rewrite Hm by auto.
    assert (starts (pl_jobs (alter_backend b f p)) = starts (pl_jobs p)) as -> by (by destruct p).
    specialize (Hcap Hc). assert (readyCount (alter_backend b f p) now ≤ readyCount p now); [|lia].
    apply readyCount_le; [by rewrite backends_alter|]. intros b'. by apply mild_accepting.
  - done.
Qed.

Lemma closing_alter b f p b' :
  closingOf (alter_backend b f p) b'
  = match pl_heap p !! b' with
    | Some k => if bk_closing (if decide (b' = b) then f k else k) then 1 else 0
    | None => 0
    end.
Proof.
  unfold closingOf. destruct (pl_heap p !! b') as [k|] eqn:Hk.
  - by rewrite (lookup_alter_backend_some _ _ _ _ _ Hk).
  - destruct (pl_heap (alter_backend _ _ _) !! b') eqn:Hk'; [|done].
    apply lookup_alter_backend in Hk' as (? & ? & _). congruence.
Qed.

Lemma active_of_alter b f p b' :
  active_of (alter_backend b f p) b'
  = match pl_heap p !! b' with
    | Some k => bk_active (if decide (b' = b) then f k else k)
    | None => 0
    end.
Proof.
  unfold active_of. destruct (pl_heap p !! b') as [k|] eqn:Hk.
  - by rewrite (lookup_alter_backend_some _ _ _ _ _ Hk).
  - destruct (pl_heap (alter_backend _ _ _) !! b') eqn:Hk'; [|done].
    apply lookup_alter_backend in Hk' as (? & ? & _). congruence.
Qed.

(** Changing the count of uses. *)
Lemma keeps_active now p m m' b f :
  (∀ k, pl_heap p !! b = Some k → bk_closed k = true → f (bk_active k) ≤ bk_active k) →
  (∀ b', active_of p b' = multiplicity (Using b') m →
         active_of (alter_backend b (set_active f) p) b' = multiplicity (Using b') m') →
  (∀ t, (∀ b', t ≠ Using b') → multiplicity t m' = multiplicity t m) →
  keeps now p (alter_backend b (set_active f) p) m m'.
Proof.
  intros Hcl Hact Hm. apply keeps_alter; [|done| |].
  - intros k Hk. specialize (Hcl k Hk). by destruct k.
  - intros b'. rewrite Hm by done. rewrite closing_alter. unfold closingOf.
    destruct (pl_heap p !! b') as [k|]; [|done]. destruct (decide _); [|done]. by destruct k.
  - intros t [->| ->]; by apply Hm.
Qed.

Lemma active_alter b f p b' :
  active_of (alter_backend b (set_active f) p) b'
  = match pl_heap p !! b' with
    | Some k => if decide (b' = b) then f (bk_active k) else bk_active k
    | None => 0
    end.
Proof. rewrite active_of_alter. destruct (pl_heap p !! b') as [k|]; [|done]. destruct (decide _); [|done]. by destruct k. Qed.

Lemma keeps_use now p m b k :
  pl_heap p !! b = Some k → bk_closed k = false →
  keeps now p (alter_backend b (set_active S) p) m ({[+ Using b +]} ⊎ m).
Proof.
  intros Hk Hc. apply keeps_active.
  - intros k' Hk'. congruence.
  - intros b' Hb'. rewrite active_alter. unfold active_of in Hb'. rewrite multiplicity_disj_union, <-Hb'.
    destruct (decide (b' = b)) as [->|Hne].
    + rewrite Hk, multiplicity_singleton_eq. lia.
    + rewrite multiplicity_singleton_ne by congruence. by destruct (pl_heap p !! b').
  - intros t Ht. rewrite multiplicity_disj_union, multiplicity_singleton_ne by auto. lia.
Qed.

Lemma keeps_release now p m b :
  keeps now p (alter_backend b (set_active pred) p) ({[+ Using b +]} ⊎ m) m.
Proof.
  apply keeps_active.
  - intros k _ _. lia.
  - intros b' Hb'. rewrite active_alter. unfold active_of in Hb'. rewrite multiplicity_disj_union in Hb'.
    destruct (decide (b' = b)) as [->|Hne].
    + rewrite multiplicity_singleton_eq in Hb'. destruct (pl_heap p !! b); lia.
    + rewrite multiplicity_singleton_ne in Hb' by congruence. destruct (pl_heap p !! b'); lia.
  - intros t Ht. rewrite multiplicity_disj_union, multiplicity_singleton_ne by auto. lia.
Qed.

(** Changing the announced starts. *)
Lemma keeps_starting now p m m' f js :
  (∀ t, t ≠ Starting → t ≠ Landed → multiplicity t m' = multiplicity t m) →
  (pl_starting p = multiplicity Starting m + multiplicity Landed m + starts (pl_jobs p) →
   f (pl_starting p) = multiplicity Starting m' + multiplicity Landed m' + starts (js (pl_jobs p))) →
  (readyCount p now + multiplicity Starting m + starts (pl_jobs p) ≤ capacity →
   pl_starting p = multiplicity Starting m + multiplicity Landed m + starts (pl_jobs p) →
   readyCount p now + multiplicity Starting m' + starts (js (pl_jobs p)) ≤ capacity) →
  keeps now p (set_jobs js (set_starting f p)) m m'.
Proof.
  intros Hm Hst' Hcap'. destruct p as [ni np st cl hp bs sb tb ib cb sw jb lc cg].
  intros tr [Hheap Hnd Hmem Hus Hst Hcg Hcd Hset Hdr Hro Hcur Hcap Hprep]. split.
  - intros b k Hk. exists k. auto.
  - split; try done.
    + intros b. rewrite Hm by done. apply Hus.
    + cbn. by apply Hst'.
    + intros b. rewrite Hm by done. apply Hcg.
    + intros Hc. cbn. apply Hcap'; [by apply Hcap|done].
Qed.

Lemma set_jobs_id p : set_jobs (λ js, js) p = p.
Proof. by destruct p. Qed.

(** Announcing a start while there is room. *)
Lemma keeps_announce now p m :
  readyCount p now + pl_starting p < capacity → keeps now p (set_starting S p) m ({[+ Starting +]} ⊎ m).
Proof.
  intros Hroom. rewrite <-(set_jobs_id (set_starting S p)). apply keeps_starting.
  - intros t H1 _. rewrite multiplicity_disj_union, multiplicity_singleton_ne by done. lia.
  - rewrite !multiplicity_disj_union, multiplicity_singleton_eq, multiplicity_singleton_ne by done. lia.
  - rewrite multiplicity_disj_union, multiplicity_singleton_eq. lia.
Qed.

Lemma keeps_started now p m t :
  t = Starting ∨ t = Landed → keeps now p (set_starting pred p) ({[+ t +]} ⊎ m) m.
Proof.
  intros Ht. rewrite <-(set_jobs_id (set_starting pred p)). apply keeps_starting.
  - intros t' H1 H2. rewrite multiplicity_disj_union, multiplicity_singleton_ne; [lia|]. destruct Ht; congruence.
  - rewrite !multiplicity_disj_union. destruct Ht as [->| ->].
    + rewrite multiplicity_singleton_eq, multiplicity_singleton_ne by done. lia.
    + rewrite multiplicity_singleton_ne, multiplicity_singleton_eq by done. lia.
  - rewrite multiplicity_disj_union. lia.
Qed.

Lemma keeps_spawn_start now p m j :
  startsOf j = 1 → readyCount p now + pl_starting p < capacity → keeps now p (spawn_lifecycle j (set_starting S p)) m m.
Proof.
  intros Hj Hroom.
  assert (spawn_lifecycle j (set_starting S p) = set_lifecycle S (set_jobs (λ js, js ++ [j]) (set_starting S p))) as ->.
  { by destruct p. }
  eapply keeps_trans; [|apply quiet_keeps, (quiet_lifecycle _ S)].
  apply keeps_starting; [done| |]; rewrite started_app; change (starts [j]) with (startsOf j + 0); lia.
Qed.

Lemma starts_split js i j : js !! i = Some j → starts js = startsOf j + starts (take i js ++ drop (S i) js).
Proof.
  intros Hi. rewrite <-(take_drop_middle js i j Hi) at 1. rewrite !started_app. cbn. unfold starts. lia.
Qed.

Definition tokensOf (j : Job) : tokens := if decide (startsOf j = 1) then {[+ Starting +]} else ∅.

Lemma keeps_takeJob now p m i j p' :
  takeJob i p = (Some j, p') → keeps now p p' m (tokensOf j ⊎ m).
Proof.
  unfold takeJob. destruct (pl_jobs p !! i) as [j'|] eqn:Hi; [|done]. intros [= <- <-].
  assert (set_jobs (λ js, take i js ++ drop (S i) js) p
          = set_jobs (λ js, take i js ++ drop (S i) js) (set_starting (λ n, n) p)) as -> by (by destruct p).
  pose proof (starts_split _ _ _ Hi) as Hs. unfold tokensOf.
  assert (startsOf j' = 1 ∨ startsOf j' = 0) as Hj by (destruct j'; cbn; auto).
  apply keeps_starting; destruct Hj as [Hj|Hj]; rewrite Hj in *; rewrite ?decide_True, ?decide_False by done.
  - intros t H1 _. rewrite multiplicity_disj_union, multiplicity_singleton_ne by done. lia.
  - intros t _ _. by rewrite (left_id_L ∅ _).
  - rewrite !multiplicity_disj_union, multiplicity_singleton_eq, multiplicity_singleton_ne by done. lia.
  - rewrite (left_id_L ∅ _). lia.
  - rewrite multiplicity_disj_union, multiplicity_singleton_eq. lia.
  - rewrite (left_id_L ∅ _). lia.
Qed.

(** A new instance. *)
Lemma ready_register now p i b p' :
  registerLocked policy i now p = (Some b, p') → (∀ b, is_Some (pl_heap p !! b) → b ≤ pl_nextID p) →
  (∀ b, b ∈ pl_backends p → is_Some (pl_heap p !! b)) → NoDup (pl_backends p) →
  readyCount p' now ≤ S (readyCount p now) ∧ pl_jobs p' = pl_jobs p.
Proof.
  unfold registerLocked. destruct (pl_closed p); [done|]. destruct p as [ni np st cl hp bs sb tb ib cb sw jb lc cg].
  intros [= <- <-] Hheap Hmem Hnd. cbn in Hheap, Hmem, Hnd. split; [|done].
  assert (S ni ∉ bs) as Hbs by (intros Hb; specialize (Hheap _ (Hmem _ Hb)); lia).
  unfold readyCount. match goal with |- length ?l1 ≤ S (length ?l2) => change (length l1 ≤ length (S ni :: l2)) end.
  apply submseteq_length, NoDup_submseteq.
  { apply accepting_nodup, NoDup_app. cbn. split_and!; [done| |apply NoDup_singleton].
    by intros b Hb ->%list_elem_of_singleton. }
  intros b [Hb Ha]%accepting_spec. cbn in Hb. apply elem_of_app in Hb as [Hb|Hb%list_elem_of_singleton];
    [apply list_elem_of_further|subst b; apply list_elem_of_here].
  apply accepting_spec. split; [done|]. apply accepts_spec in Ha as (k & Hk & _ & Ha). cbn in Hk.
  rewrite lookup_insert_ne in Hk by (intros <-; done). apply accepts_spec. exists k. tauto.
Qed.

Lemma keeps_register now p m m' i b p' :
  registerLocked policy i now p = (Some b, p') →
  (current → hostedRuntimeSessionCompatibilityReason (in_runtimeSession i) = None) →
  (∀ t, t ≠ Starting → t ≠ Landed → multiplicity t m' = multiplicity t m) →
  multiplicity Starting m' + multiplicity Landed m' = multiplicity Starting m + multiplicity Landed m →
  (current → readyCount p now + multiplicity Starting m + starts (pl_jobs p) ≤ capacity →
   S (readyCount p now) + multiplicity Starting m' + starts (pl_jobs p) ≤ capacity) →
  keeps now p p' m m'.
Proof.
  intros Hreg Hcom Hm Hsum Hroom tr HI.
  assert (readyCount p' now ≤ S (readyCount p now)) as Hready.
  { eapply ready_register; [exact Hreg|apply HI| |apply HI]. intros b' Hb'. destruct (iv_member _ _ _ _ HI b' Hb') as (k & ? & _). eauto. }
  revert Hreg HI Hready Hroom.
  unfold registerLocked. destruct (pl_closed p); [done|]. destruct p as [ni np st cl hp bs sb tb ib cb sw jb lc cg].
  intros [= <- <-] [Hheap Hnd Hmem Hus Hst Hcg Hcd Hset Hdr Hro Hcur Hcap Hprep] Hready Hroom.
  cbn -[Nat.le readyCount starts] in *.
  assert (hp !! S ni = None) as Hnew.
  { destruct (hp !! S ni) eqn:E; [|done]. specialize (Hheap (S ni) ltac:(eauto)). lia. }
  assert (∀ b k, hp !! b = Some k → b ≠ S ni) as Hold by (intros b k Hk ->; congruence).
  split.
  - intros b k Hk. exists k. cbn in *. rewrite lookup_insert_ne by (by apply not_eq_sym, (Hold b k)). auto.
  - assert (S ni ∉ bs) as Hbs by (intros Hb; destruct (Hmem _ Hb) as (k & Hk & _); congruence).
    split; cbn -[Nat.le readyCount starts].
    + intros b [k Hk]. destruct (decide (b = S ni)) as [->|Hne]; [lia|]. rewrite lookup_insert_ne in Hk by done.
      specialize (Hheap b ltac:(eauto)). lia.
    + apply NoDup_app. split_and!; [done| |apply NoDup_singleton]. intros b Hb ->%list_elem_of_singleton. done.
    + intros b [Hb|Hb%list_elem_of_singleton]%elem_of_app.
      * destruct (Hmem _ Hb) as (k & Hk & Hc). exists k. rewrite lookup_insert_ne by (by apply not_eq_sym, (Hold b k)). done.
      * subst b. rewrite lookup_insert_eq. eauto.
    + intros b. rewrite Hm by done. unfold active_of in *. cbn in *. destruct (decide (b = S ni)) as [->|Hne].
      * specialize (Hus (S ni)). rewrite Hnew in Hus. by rewrite lookup_insert_eq.
      * rewrite lookup_insert_ne by done. apply Hus.
    + lia.
    + intros b. rewrite Hm by done. rewrite Hcg. unfold closingOf. cbn. destruct (decide (b = S ni)) as [->|Hne].
      * by rewrite lookup_insert_eq, Hnew.
      * by rewrite lookup_insert_ne by done.
    + intros b k Hk. destruct (decide (b = S ni)) as [->|Hne].
      * rewrite lookup_insert_eq in Hk. by injection Hk as <-.
      * rewrite lookup_insert_ne in Hk by done. eauto.
    + intros b d t Hev. destruct (Hset b d t Hev) as [?|(k & Hk & ?)]; [by left|right]. exists k. cbn in *.
      rewrite lookup_insert_ne by (by apply not_eq_sym, (Hold b k)). done.
    + done.
    + intros b Hr. apply elem_of_app. left. by apply Hro.
    + intros Hc b k Hk. destruct (decide (b = S ni)) as [->|Hne].
      * rewrite lookup_insert_eq in Hk. injection Hk as <-. unfold backendRuntimeSessionStaleLocked. cbn.
        rewrite (Hcom Hc). apply bool_decide_eq_false_2. intros Hn. by apply Hn.
      * rewrite lookup_insert_ne in Hk by done. eauto.
    + intros Hc. specialize (Hroom Hc (Hcap Hc)). cbn -[Nat.le readyCount starts] in Hready. lia.
    + done.
Qed.

(** The closing of an instance begins: its goroutine owns it. *)
Lemma keeps_beginDrain now p m b p' :
  beginDrainLocked b p = (true, p') → keeps now p p' m ({[+ Draining b +]} ⊎ m).
Proof.
  unfold beginDrainLocked. destruct (pl_heap p !! b) as [k|] eqn:Hk; [|done].
  destruct (bk_closed k || bk_closing k) eqn:Hcc; [done|]. apply orb_false_iff in Hcc as [Hnc Hng]. intros [= <-].
  apply keeps_alter.
  - intros k0 _. by destruct k0.
  - intros b' Hb'. rewrite multiplicity_disj_union, multiplicity_singleton_ne by done. unfold active_of in Hb'.
    rewrite active_of_alter. destruct (pl_heap p !! b') as [k0|]; [|done]. destruct (decide _); [|done]. by destruct k0.
  - intros b'. rewrite closing_alter, multiplicity_disj_union. unfold closingOf. destruct (decide (b' = b)) as [->|Hne].
    + rewrite Hk, Hng, multiplicity_singleton_eq. destruct k. cbn. lia.
    + rewrite multiplicity_singleton_ne by congruence. done.
  - intros t Ht. rewrite multiplicity_disj_union, multiplicity_singleton_ne; [done|]. by destruct Ht as [->| ->].
Qed.

(** The instance leaves the pool. *)
Lemma remove_first_spec b l x : NoDup l → x ∈ remove_first b l ↔ x ∈ l ∧ x ≠ b.
Proof.
  intros Hnd. induction Hnd as [|y l Hy Hnd IH]; cbn.
  - split; [intros Hx|intros [Hx _]]; by apply elem_of_nil in Hx.
  - destruct (decide (y = b)) as [->|Hne].
    + rewrite elem_of_cons. split; [|tauto]. intros Hx. split; [by right|]. by intros ->.
    + rewrite !elem_of_cons, IH. split; [|tauto]. intros [->|?]; tauto.
Qed.

Lemma remove_first_nodup b l : NoDup l → NoDup (remove_first b l).
Proof.
  intros Hnd. induction Hnd as [|y l Hy Hnd IH]; cbn; [constructor|]. destruct (decide _); [done|].
  constructor; [|done]. rewrite remove_first_spec by done. tauto.
Qed.

Lemma keeps_remove now p m b k :
  pl_heap p !! b = Some k → bk_closing k = true →
  keeps now p (removeBackendLocked b (alter_backend b set_bclosed p)) m m.
Proof.
  intros Hk Hclg tr [Hheap Hnd Hmem Hus Hst Hcg Hcd Hset Hdr Hro Hcur Hcap Hprep].
  set (p' := removeBackendLocked b (alter_backend b set_bclosed p)).
  assert (pl_heap p' = alter set_bclosed b (pl_heap p)) as Eh by (by destruct p).
  assert (pl_backends p' = remove_first b (pl_backends p)) as Eb by (by destruct p).
  assert (∀ b', pl_heap p' !! b' = match pl_heap p !! b' with
                                   | Some k0 => Some (if decide (b' = b) then set_bclosed k0 else k0) | None => None end) as El.
  { intros b'. rewrite Eh. destruct (decide (b' = b)) as [->|Hne].
    - rewrite lookup_alter_eq. by destruct (pl_heap p !! b).
    - rewrite lookup_alter_ne by done. by destruct (pl_heap p !! b'). }
  split; [|split].
  - intros b' k' Hk'. exists (if decide (b' = b) then set_bclosed k' else k'). rewrite El, Hk'. split; [done|].
    intros Hc. destruct (decide _); [|done]. by destruct k'.
  - intros b' Hb'. rewrite El in Hb'. assert (is_Some (pl_heap p !! b')) as H' by (by destruct (pl_heap p !! b')).
    specialize (Hheap b' H'). by destruct p.
  - rewrite Eb. by apply remove_first_nodup.
  - intros b'. rewrite Eb, remove_first_spec by done. intros [Hb' Hne]. destruct (Hmem b' Hb') as (k' & Hk' & Hc).
    exists k'. rewrite El, Hk', decide_False by done. done.
  - intros b'. rewrite <-Hus. unfold active_of. rewrite El. destruct (pl_heap p !! b') as [k'|]; [|done].
    destruct (decide _); [|done]. by destruct k'.
  - by destruct p.
  - intros b'. rewrite Hcg. unfold closingOf. rewrite El. destruct (pl_heap p !! b') as [k'|]; [|done].
    destruct (decide _); [|done]. by destruct k'.
  - intros b' k' Hk' Hc. rewrite El in Hk'. destruct (pl_heap p !! b') as [k0|] eqn:Hk0; [|done]. injection Hk' as <-.
    destruct (decide (b' = b)) as [->|]; [|by eauto]. rewrite Hk in Hk0. injection Hk0 as <-. by destruct k.
  - intros b' d t Hev. destruct (Hset b' d t Hev) as [?|(k0 & Hk0 & Hc & Ha)]; [by left|right].
    exists (if decide (b' = b) then set_bclosed k0 else k0). rewrite El, Hk0. destruct (decide _); [|done]. by destruct k0.
  - done.
  - intros b' (key & Hr). rewrite Eb. apply remove_first_spec; [done|].
    assert (routed p b' ∧ b' ≠ b) as [Hr' Hne]; [|by auto].
    unfold routed. destruct p as [ni np st cl hp bs sb tb ib cb sw jb lc cg]. cbn in *.
    destruct Hr as [Hr|[Hr|Hr]]; apply map_lookup_filter_Some in Hr as [Hr Hne]; eauto 10.
  - intros Hc b' k' Hk'. rewrite El in Hk'. destruct (pl_heap p !! b') as [k0|] eqn:Hk0; [|done]. injection Hk' as <-.
    specialize (Hcur Hc _ _ Hk0). destruct (decide _); [|done]. by destruct k0.
  - intros Hc. specialize (Hcap Hc). assert (starts (pl_jobs p') = starts (pl_jobs p)) as -> by (by destruct p).
    assert (readyCount p' now ≤ readyCount p now); [|lia]. apply readyCount_le; [rewrite Eb; by apply remove_first_nodup|].
    intros b'. rewrite !accepting_spec, Eb, remove_first_spec by done. intros [[Hb' Hne] Ha]. split; [done|].
    apply accepts_spec in Ha as (k' & Hk' & _ & Ha). rewrite El in Hk'. destruct (pl_heap p !! b') as [k0|] eqn:Hk0; [|done].
    injection Hk' as <-. rewrite decide_False in Ha by done. apply accepts_spec. exists k0. tauto.
  - done.
Qed.

Lemma keeps_clear now p m : keeps now p (clearLocked p) m m.
Proof.
  destruct p as [ni np st cl hp bs sb tb ib cb sw jb lc cg].
  intros tr [Hheap Hnd Hmem Hus Hst Hcg Hcd Hset Hdr Hro Hcur Hcap Hprep]. split; [|split; try done].
  - intros b k Hk. exists k. auto.
  - constructor.
  - intros b Hb. by apply elem_of_nil in Hb.
  - intros b (key & Hr). cbn in Hr. rewrite !lookup_empty in Hr. naive_solver.
  - intros Hc. specialize (Hcap Hc). cbn -[starts] in *. lia.
Qed.

(** Time goes on. *)
Lemma PInv_later p now now' tr m : (now ≤ now')%Z → PInv p now tr m → PInv p now' tr m.
Proof.
  intros Hle [Hheap Hnd Hmem Hus Hst Hcg Hcd Hset Hdr Hro Hcur Hcap Hprep]. split; try done. intros Hc. specialize (Hcap Hc).
  assert (readyCount p now' ≤ readyCount p now); [|lia]. apply readyCount_le; [done|]. intros b.
  rewrite !accepting_spec. intros [Hb Ha]. split; [done|]. apply accepts_spec in Ha as (k & Hk & Ha).
  apply accepts_spec. exists k. split_and!; [done|tauto..| |tauto]. destruct Ha as (_ & _ & _ & _ & Hdue & _).
  unfold backendRuntimeDrainDueLocked in *. destruct (bk_runtimeDrainAt k) as [d|]; [|done].
  apply negb_false_iff in Hdue. apply negb_false_iff. unfold Before in *. apply Z.ltb_lt in Hdue. apply Z.ltb_lt. lia.
Qed.

(** A call to an instance in use, and the closing of one. *)
Lemma closes_app b tr tr' : closes b (tr ++ tr') = closes b tr + closes b tr'.
Proof. induction tr as [|e tr IH]; cbn; [done|]. unfold closes in *. lia. Qed.

Lemma drained_snoc tr e :
  drained tr → (∀ b op d t, e = called b op → providerClosed b d t ∈ tr → (d < t)%Z) → drained (tr ++ [e]).
Proof.
  intros Hdr He tr1 b d t tr2 op Etr Hop. destruct tr2 as [|e' tr2 _] using rev_ind.
  { by apply elem_of_nil in Hop. }
  rewrite app_comm_cons, (assoc_L _) in Etr. apply app_inj_tail in Etr as [-> <-].
  apply elem_of_app in Hop as [Hop|Hop%list_elem_of_singleton]; [by eapply Hdr|].
  eapply He; [by rewrite Hop|]. apply elem_of_app. right. apply list_elem_of_here.
Qed.

Lemma PInv_called p now tr m b op :
  PInv p now tr m → 0 < multiplicity (Using b) m → PInv p now (tr ++ [called b op]) m.
Proof.
  intros [Hheap Hnd Hmem Hus Hst Hcg Hcd Hset Hdr Hro Hcur Hcap Hprep] Hm. split; try done.
  - intros b'. rewrite closes_app. cbn. rewrite Nat.add_0_r. apply Hcg.
  - intros b' d t Hev. apply elem_of_app in Hev as [Hev|Hev%list_elem_of_singleton]; [by eauto|done].
  - apply drained_snoc; [done|]. intros b' op' d t [= <- <-] Hev. destruct (Hset b d t Hev) as [?|(k & Hk & Hc & Ha)]; [done|].
    specialize (Hus b). unfold active_of in Hus. rewrite Hk in Hus. lia.
  - intros b' ws Hev. apply elem_of_app in Hev as [Hev|Hev%list_elem_of_singleton]; [by eauto|done].
Qed.

Lemma PInv_providerClosed p now tr m b d t :
  PInv p now tr ({[+ Draining b +]} ⊎ m) → (d < t)%Z ∨ unused p b → PInv p now (tr ++ [providerClosed b d t]) m.
Proof.
  intros [Hheap Hnd Hmem Hus Hst Hcg Hcd Hset Hdr Hro Hcur Hcap Hprep] Hd. split; try done.
  - intros b'. rewrite Hus, multiplicity_disj_union, multiplicity_singleton_ne by done. done.
  - rewrite Hst, !multiplicity_disj_union, !multiplicity_singleton_ne by done. done.
  - intros b'. rewrite <-Hcg, closes_app, multiplicity_disj_union. cbn. destruct (decide (b = b')) as [->|Hne].
    + rewrite multiplicity_singleton_eq. lia.
    + rewrite multiplicity_singleton_ne by congruence. lia.
  - intros b' d' t' Hev. apply elem_of_app in Hev as [Hev|Hev%list_elem_of_singleton]; [by eauto|]. by injection Hev as -> -> ->.
  - by apply drained_snoc.
  - intros Hc. specialize (Hcap Hc). rewrite multiplicity_disj_union, multiplicity_singleton_ne in Hcap by done. lia.
  - intros b' ws Hev. apply elem_of_app in Hev as [Hev|Hev%list_elem_of_singleton]; [by eauto|done].
Qed.

Lemma PInv_preparing p now tr m b ws : PInv p now tr m → allowed ws → PInv p now (tr ++ [preparing b ws]) m.
Proof.
  intros [Hheap Hnd Hmem Hus Hst Hcg Hcd Hset Hdr Hro Hcur Hcap Hprep] Hw. split; try done.
  - intros b'. rewrite closes_app. cbn. rewrite Nat.add_0_r. apply Hcg.
  - intros b' d t Hev. apply elem_of_app in Hev as [Hev|Hev%list_elem_of_singleton]; [by eauto|done].
  - by apply drained_snoc.
  - intros b' ws' Hev. apply elem_of_app in Hev as [Hev|Hev%list_elem_of_singleton]; [by eauto|].
    by injection Hev as -> ->.
Qed.
End invariant.
End HostedPoolInvariant.
