(* ===== verification/HostedPoolSafety.v ===== *)
(** * HostedPoolSafety: what holds of the pool of hosted agent runtimes under concurrency

    Any number of method calls, goroutines and health checks on one pool, under every
    interleaving of their sections under the mutex and of the calls to the outside; the
    sections keep the invariant of [HostedPoolInvariant].

    - [calls_drain_before_close]: an instance is closed once, and after it was closed a
      call reaches it only when the wait for its calls had run out of time.
    - [pool_within_capacity]: never more instances accept work than the policy allows.
    - [routes_lead_to_members]: sessions, turns and interactions are routed to open members.
    - [only_allowed_repositories_prepared]: workspaces are prepared within the policy.
    - [drains_end]: the wait for an instance to drain ends by its deadline.
    - The routing of creates by idempotency key has two gaps: [claim_lost_to_failed_prepare]
      and [claim_of_closed_instance]; and a runtime whose instances never accept work is
      asked for instances without end ([launches_without_end]). *)

From stdpp Require Import base gmap gmultiset strings list sorting sets relations.
From Stdlib Require Import ZArith Lia.
From S2P Require Import Prelude ObjectStore OwnedResources AgentWorkspace HostedPool HostedPoolInvariant.

Set Default Goal Selector "!".

Module HostedPoolSafety.
Import HostedPool HostedPoolInvariant.

Section specs.
Context {X H PE D : Type} (name : string) (policy : RuntimePlacementLifecyclePolicy).
Context (facts : PE → ProviderErrorFacts) (out : Outside X H PE D).
Context (ToLower : string → string) (ParseURL : string → option AgentWorkspace.URL).
Context (TimeParseDuration : string → option duration) (workspaces : option AgentWorkspace.RuntimePlacementWorkspaceConfig).
Context (current : Prop).
Context (Hlaunch : current → ∀ x i x', ou_Launch out x = (Ok i, x') →
                     hostedRuntimeSessionCompatibilityReason (in_runtimeSession i) = None).
Context (Hsession : current → ∀ h id x s x', ou_GetRuntimeSession out h id x = (Ok s, x') →
                      hostedRuntimeSessionCompatibilityReason s = None).

Definition allowed (ws : AgentWorkspace.Workspace) : Prop :=
  AgentWorkspace.validateWorkspacePolicy ToLower ParseURL (Some ws) workspaces = Ok tt.

Abbreviation M := (prog (World X H)).
Abbreviation wp := (wpo (G (X := X) (H := H)) (Inv policy current allowed)).
Abbreviation res A := (result (PoolError PE) A).

(** ** Specifications of programs *)

(** From the tokens [pre] to a result and tokens in [post]. *)
Definition spec {A} (m : M A) (pre : tokens) (post : A → tokens → Prop) : Prop :=
  ∀ w, wp m (λ a own _, post a own) pre w.

Definition exactly {A} (f : A → tokens) : A → tokens → Prop := λ a own, own = f a.
Definition nothing {A} : A → tokens → Prop := exactly (λ _, ∅).

Lemma spec_ret {A} (a : A) pre (post : A → tokens → Prop) : post a pre → spec (mret a) pre post.
Proof. intros Hp w. by apply wpo_ret. Qed.

Lemma spec_mono {A} (m : M A) pre (post post' : A → tokens → Prop) :
  spec m pre post → (∀ a own, post a own → post' a own) → spec m pre post'.
Proof. intros Hm Himp w. eapply wpo_mono; [apply _|apply Hm|]. auto. Qed.

Lemma spec_bind {A B} (m : M A) (k : A → M B) pre rest post post' :
  spec m pre post → (∀ a own, post a own → spec (k a) (own ⊎ rest) post') → spec (m ≫= k) (pre ⊎ rest) post'.
Proof.
  intros Hm Hk w. apply wpo_bind; [apply _|]. eapply wpo_mono; [apply _|apply wpo_frame, Hm|].
  intros a own w' _ (own0 & -> & Hp). by apply Hk.
Qed.

Lemma spec_then {A B} (m : M A) (k : A → M B) pre post post' :
  spec m pre post → (∀ a own, post a own → spec (k a) own post') → spec (m ≫= k) pre post'.
Proof. intros Hm Hk w. apply wpo_bind; [apply _|]. eapply wpo_mono; [apply _|apply Hm|]. intros a own w' _ Hp. by apply Hk. Qed.

Lemma spec_exactly {A B} (m : M A) (k : A → M B) pre f post :
  spec m pre (exactly f) → (∀ a, spec (k a) (f a) post) → spec (m ≫= k) pre post.
Proof. intros Hm Hk. eapply spec_then; [exact Hm|]. by intros a own ->. Qed.

(** Programs that take and give back nothing. *)
Lemma spec_tame {A B} (m : M A) (k : A → M B) pre post :
  spec m ∅ nothing → (∀ a, spec (k a) pre post) → spec (m ≫= k) pre post.
Proof.
  intros Hm Hk. rewrite <-(left_id_L ∅ disj_union pre). eapply spec_bind; [exact Hm|].
  intros a own ->. rewrite (left_id_L ∅ _). apply Hk.
Qed.

Lemma spec_locked {A} (f : time → Pool H → A * Pool H) pre g :
  (∀ now p m, keeps policy current allowed now p (f now p).2 (pre ⊎ m) (g (f now p).1 ⊎ m)) →
  spec (locked (X := X) f) pre (exactly g).
Proof.
  intros Hf w0. apply wpo_atomic. intros w frame _ HI. specialize (Hf (w_now w) (w_pool w) frame _ HI).
  destruct (f (w_now w) (w_pool w)) as [a p']. cbn in *. destruct Hf as [Hg HI']. exists (g a). split_and!; [|done..].
  split_and!; [done|cbn; lia|done].
Qed.

Lemma spec_quiet {A} (f : time → Pool H → A * Pool H) :
  (∀ now p, quiet current now p (f now p).2) → spec (locked (X := X) f) ∅ nothing.
Proof. intros Hf. apply spec_locked. intros now p m. rewrite (left_id_L ∅ _). by apply quiet_keeps. Qed.

Lemma spec_change f : (∀ now p, quiet current now p (f p)) → spec (change (X := X) (H := H) f) ∅ nothing.
Proof. intros Hf. by apply spec_quiet. Qed.

Lemma spec_reading {A} (f : Pool H → A) : spec (reading (X := X) f) ∅ nothing.
Proof. apply spec_quiet. intros. apply quiet_refl. Qed.

Lemma spec_clock : spec (clock (X := X) (H := H)) ∅ nothing.
Proof. intros w0. apply wpo_atomic. intros w frame _ HI. exists ∅. split_and!; [reflexivity|done..]. Qed.

Lemma spec_sleep d : (0 ≤ d)%Z → spec (sleep (X := X) (H := H) d) ∅ nothing.
Proof.
  intros Hd w0. apply wpo_atomic. intros w frame _ HI. exists ∅. cbn. split_and!; [|eapply PInv_later; [|exact HI]; cbn; lia|done].
  split_and!; [reflexivity|cbn; lia|done].
Qed.

Lemma spec_outside {A} (f : X → A * X) : spec (outside (H := H) f) ∅ nothing.
Proof.
  intros w0. apply wpo_atomic. intros w frame _ HI. destruct (f (w_ext w)) as [a x]. exists ∅. split_and!; [|done..].
  split_and!; [reflexivity|cbn; lia|done].
Qed.

(** A call to the runtime of an instance; it is not in the trace. *)
Lemma spec_toBackend {A} b (f : hostedAgentPoolBackend H → X → result PE A * X) : spec (toBackend (λ _, []) b f) ∅ nothing.
Proof.
  intros w0. apply wpo_atomic. intros w frame _ HI. exists ∅. destruct (pl_heap (w_pool w) !! b) as [k|].
  - destruct (f k (w_ext w)) as [r x]. cbn. rewrite (right_id_L [] _). split_and!; [|done..].
    split_and!; [reflexivity|cbn; lia|done].
  - split_and!; [reflexivity|done..].
Qed.

(** A call to an instance in use. *)
Lemma spec_calling {A} op b (f : H → X → result PE A * X) :
  spec (calling op b f) {[+ Using b +]} (exactly (λ _, {[+ Using b +]})).
Proof.
  intros w0. apply wpo_atomic. intros w frame _ HI. eexists. destruct (pl_heap (w_pool w) !! b) as [k|].
  - destruct (f (bk_provider k) (w_ext w)) as [r x]. cbn. split_and!; [| |done].
    + split_and!; [reflexivity|cbn; lia|by apply prefix_app_r].
    + apply PInv_called; [done|]. rewrite multiplicity_disj_union, multiplicity_singleton_eq. lia.
  - split_and!; [reflexivity|done..].
Qed.

Lemma spec_call {A B} op b (f : H → X → result PE A * X) (k : res A → M B) post :
  (∀ r, spec (k r) {[+ Using b +]} post) → spec (calling op b f ≫= k) {[+ Using b +]} post.
Proof. intros Hk. eapply spec_exactly; [apply spec_calling|done]. Qed.

Lemma spec_release {B} b (k : unit → M B) post :
  (∀ u, spec (k u) ∅ post) → spec (releaseBackend b ≫= k) {[+ Using b +]} post.
Proof.
  intros Hk. eapply (spec_exactly _ _ _ (λ _, ∅)); [|done]. apply spec_locked. intros now p m. cbn [releaseLocked snd].
  rewrite (left_id_L ∅ _). apply keeps_release.
Qed.

Lemma spec_andThen {A B} (m : M (res A)) (k : A → M (res B)) pre post :
  spec m ∅ nothing → (∀ e, post (Err e) pre) → (∀ a, spec (k a) pre post) → spec (andThen m k) pre post.
Proof. intros Hm He Hk. apply spec_tame; [done|]. intros [a|e]; [apply Hk|by apply spec_ret]. Qed.

(** What a process has after it acquired an instance. *)
Definition held (r : res nat) : tokens := match r with Ok b => {[+ Using b +]} | Err _ => ∅ end.

Lemma spec_held {B} (m : M (res nat)) (k : nat → M (res B)) pre post :
  spec m pre (exactly held) → (∀ e, post (Err e) ∅) → (∀ b, spec (k b) {[+ Using b +]} post) →
  spec (andThen m k) pre post.
Proof. intros Hm He Hk. eapply spec_exactly; [exact Hm|]. intros [b|e]; [apply Hk|by apply spec_ret]. Qed.

(** ** Starting instances *)

(** The start that was announced, after the launch. *)
Definition landing (r : res nat) : tokens := match r with Ok _ => {[+ Landed +]} | Err _ => {[+ Starting +]} end.

Lemma keeps_land now (p : Pool H) m i :
  (current → hostedRuntimeSessionCompatibilityReason (in_runtimeSession i) = None) →
  keeps policy current allowed now p (registerLocked policy i now p).2 ({[+ Starting +]} ⊎ m)
    ((if registerLocked policy i now p is (Some _, _) then {[+ Landed +]} else {[+ Starting +]}) ⊎ m).
Proof.
  intros Hi. destruct (registerLocked policy i now p) as [[b|] p'] eqn:E; cbn [snd].
  - eapply keeps_register; [exact E|done|..].
    + intros t H1 H2. by rewrite !multiplicity_disj_union, !multiplicity_singleton_ne by done.
    + rewrite !multiplicity_disj_union, !multiplicity_singleton_eq, !multiplicity_singleton_ne by done. lia.
    + intros _. rewrite !multiplicity_disj_union, multiplicity_singleton_eq, multiplicity_singleton_ne by done. lia.
  - unfold registerLocked in E. destruct (pl_closed p); [injection E as <-; apply keeps_refl|]. by destruct p.
Qed.

Lemma spec_launch :
  spec (outside (H := H) (ou_Launch out)) ∅
    (λ r own, own = ∅ ∧ ∀ i, r = Ok i → current → hostedRuntimeSessionCompatibilityReason (in_runtimeSession i) = None).
Proof.
  intros w0. apply wpo_atomic. intros w frame _ HI. destruct (ou_Launch out (w_ext w)) as [r x] eqn:E. exists ∅. split_and!.
  - split_and!; [reflexivity|cbn; lia|done].
  - done.
  - intros w'' _. split; [done|]. cbn. intros i -> Hc. by eapply Hlaunch.
Qed.

Lemma spec_startBackend ctx : spec (startBackend policy out ctx) {[+ Starting +]} (exactly landing).
Proof.
  unfold startBackend. case_decide; [by apply spec_ret|]. rewrite <-(left_id_L ∅ disj_union {[+ Starting +]}).
  eapply spec_bind; [apply spec_launch|]. cbn. intros r own [-> Hr]. rewrite (left_id_L ∅ _).
  destruct r as [i|e]; [|by apply spec_ret].
  eapply (spec_exactly _ _ _ (λ r, if r is Some _ then {[+ Landed +]} else {[+ Starting +]})).
  - apply spec_locked. intros now p m. specialize (keeps_land now p m i (Hr i eq_refl)).
    by destruct (registerLocked policy i now p) as [[b|] p'].
  - intros [b|]; [by apply spec_ret|]. apply spec_tame; [apply spec_outside|]. intros _. by apply spec_ret.
Qed.

Lemma spec_startedOver t : t = Starting ∨ t = Landed → spec (change (set_starting (H := H) pred)) {[+ t +]} nothing.
Proof. intros Ht. apply spec_locked. intros now p m. rewrite (left_id_L ∅ _). by apply keeps_started. Qed.

Lemma capacity_min n : (Z.of_nat n < lp_MinReadyInstances policy)%Z → n < capacity policy.
Proof. unfold capacity. lia. Qed.
Lemma capacity_max n : (Z.of_nat n < lp_MaxReadyInstances policy)%Z → n < capacity policy.
Proof. unfold capacity. lia. Qed.

Lemma spec_ensureLocked :
  spec (locked (X := X) (H := H) (ensureLocked policy)) ∅ (exactly (λ launch : bool, if launch then {[+ Starting +]} else ∅)).
Proof.
  apply spec_locked. intros now p m. unfold ensureLocked. rewrite (left_id_L ∅ _).
  destruct (pl_closed p); cbn [fst snd]; [rewrite (left_id_L ∅ _); apply keeps_refl|].
  destruct (_ <=? _)%Z eqn:E; cbn [fst snd]; [rewrite (left_id_L ∅ _); apply keeps_refl|].
  apply keeps_announce, capacity_min. lia.
Qed.

Lemma landing_over r : spec (change (set_starting (H := H) pred)) (landing r) nothing.
Proof. destruct r; apply spec_startedOver; auto. Qed.

Lemma spec_ensureMinReady ctx : spec (ensureMinReady policy out ctx) ∅ nothing.
Proof.
  unfold ensureMinReady. generalize (cx_rounds ctx). intros n. induction n as [|n IH]; cbn [ensureMinReady_rounds].
  all: eapply spec_exactly; [apply spec_ensureLocked|]; intros [|]; cbn [negb]; [|by apply spec_ret].
  all: eapply spec_exactly; [apply spec_startBackend|]; intros r.
  all: eapply spec_exactly; [apply landing_over|]; intros []; destruct r; [|by apply spec_ret].
  - by apply spec_ret.
  - apply IH.
Qed.

(** ** Taking an instance *)

Definition taking (a : acquisition) : tokens :=
  match a with acquired b => {[+ Using b +]} | acquireStarting => {[+ Starting +]} | _ => ∅ end.

Lemma canScaleOut_room (p : Pool H) now : canScaleOutLocked policy p now = true → readyCount p now + pl_starting p < capacity policy.
Proof. unfold canScaleOutLocked. rewrite andb_true_iff. intros [_ Hc]. apply capacity_max. lia. Qed.

Lemma keeps_scaleOut now (p : Pool H) m : keeps policy current allowed now p (startScaleOutLocked policy p now) m m.
Proof.
  unfold startScaleOutLocked. destruct (pl_closed p); cbn [orb]; [apply keeps_refl|].
  destruct (canScaleOutLocked policy p now) eqn:E; cbn [negb]; [|apply keeps_refl].
  apply keeps_spawn_start; [done|]. by apply canScaleOut_room.
Qed.

Lemma heap_scaleOut (p : Pool H) now : pl_heap (startScaleOutLocked policy p now) = pl_heap p.
Proof. unfold startScaleOutLocked. destruct (_ || _); by destruct p. Qed.

Lemma pick_accepting (p : Pool H) now b p' :
  pickReadyBackendLocked p now = (Some b, p') → b ∈ accepting p now ∧ p' = set_nextPick (S (pl_nextPick p)) p.
Proof.
  unfold pickReadyBackendLocked. destruct (accepting p now) as [|b0 bs] eqn:E; [done|]. cbn zeta. rewrite <-E.
  intros [= Hb <-]. split; [|done]. apply list_elem_of_lookup_2 in Hb.
  destruct (filter _ _) eqn:Ef; [done|]. rewrite <-Ef in Hb. by apply list_elem_of_filter in Hb as [_ Hb].
Qed.

Lemma keeps_acquire preferred allow now (p : Pool H) m :
  keeps policy current allowed now p (acquireLocked policy preferred allow now p).2 m
    (taking (acquireLocked policy preferred allow now p).1 ⊎ m).
Proof.
  unfold acquireLocked. destruct (pl_closed p); cbn [fst snd taking]; [rewrite (left_id_L ∅ _); apply keeps_refl|].
  destruct preferred as [b|].
  - destruct (backendAvailableLocked p b allow) eqn:E; cbn [fst snd taking]; [|rewrite (left_id_L ∅ _); apply keeps_refl].
    apply available_spec in E as (k & Hk & _ & Hc & _). by eapply keeps_use.
  - destruct (pickReadyBackendLocked p now) as [[b|] p'] eqn:E.
    + apply pick_accepting in E as [Hb ->]. cbn [fst snd taking]. apply accepting_spec in Hb as [_ Hb].
      apply accepts_spec in Hb as (k & Hk & _ & Hc & _). set (p1 := set_nextPick _ p).
      assert (pl_heap p1 = pl_heap p) as Hh by (by destruct p).
      eapply keeps_trans; [apply quiet_keeps, quiet_nextPick|].
      eapply (keeps_trans _ _ _ _ _ (if _ : bool then _ else p1)).
      2: { eapply (keeps_use _ _ _ _ _ _ _ k); [|done]. destruct (_ && _); rewrite ?heap_scaleOut, Hh; done. }
      destruct (_ && _); [apply keeps_scaleOut|apply keeps_refl].
    + assert (p' = p) as ->.
      { unfold pickReadyBackendLocked in E. destruct (accepting p now) as [|b0 bs] eqn:Ea; [by injection E|].
        injection E as Hb <-. exfalso. apply lookup_ge_None in Hb.
        match type of Hb with length ?l ≤ _ => assert (0 < length l) as Hl end.
        { destruct (filter _ _) eqn:Ef; cbn; lia. }
        pose proof (Nat.mod_upper_bound (pl_nextPick p) _ (not_eq_sym (Nat.lt_neq _ _ Hl))). lia. }
      destruct (canScaleOutLocked policy p now) eqn:Ec; cbn [fst snd taking];
        [|rewrite (left_id_L ∅ _); apply keeps_refl].
      by apply keeps_announce, canScaleOut_room.
Qed.

Lemma spec_acquireLocked preferred allow :
  spec (locked (X := X) (H := H) (acquireLocked policy preferred allow)) ∅ (exactly taking).
Proof. apply spec_locked. intros now p m. rewrite (left_id_L ∅ _). apply keeps_acquire. Qed.

(** The start is over; the instance may be taken. *)
Lemma spec_startedLocked r :
  spec (locked (X := X) (H := H) (startedLocked (match r : res nat with Ok b => Some b | Err _ => None end))) (landing r)
    (exactly (λ taken : bool, match r with Ok b => if taken then {[+ Using b +]} else ∅ | Err _ => ∅ end)).
Proof.
  apply spec_locked. intros now p m. unfold startedLocked. cbn zeta.
  assert (keeps policy current allowed now p (set_starting pred p) (landing r ⊎ m) m) as K
    by (destruct r; apply keeps_started; auto).
  destruct r as [b|e]; cbn [fst snd]; [|by rewrite (left_id_L ∅ _)].
  destruct (backendAcceptsNewWorkLocked _ b now) eqn:E; cbn [fst snd]; [|by rewrite (left_id_L ∅ _)].
  eapply keeps_trans; [exact K|]. apply accepts_spec in E as (k & Hk & _ & Hc & _). by eapply keeps_use.
Qed.

Lemma spec_acquireBackend ctx preferred allow : spec (acquireBackend policy out ctx preferred allow) ∅ (exactly held).
Proof.
  unfold acquireBackend. generalize (cx_rounds ctx). intros n. induction n as [|n IH]; cbn [acquireBackend_rounds].
  all: eapply spec_exactly; [apply spec_acquireLocked|]; intros [| |b| |]; cbn [taking]; try by apply spec_ret.
  all: try (eapply spec_exactly; [apply spec_startBackend|]; intros r;
            eapply spec_exactly; [apply spec_startedLocked|]; intros taken; destruct r as [b|e]; [destruct taken|];
            try by apply spec_ret).
  - apply IH.
  - apply spec_tame; [apply spec_sleep; done|]. intros []. apply IH.
Qed.

Lemma keeps_prefer b allow now (p : Pool H) m :
  keeps policy current allowed now p (preferLocked b allow now p).2 m
    ((if (preferLocked b allow now p).1 is Some true then {[+ Using b +]} else ∅) ⊎ m).
Proof.
  unfold preferLocked. destruct (pl_closed p); cbn [fst snd]; [rewrite (left_id_L ∅ _); apply keeps_refl|].
  cbn zeta. destruct (backendAcceptsNewWorkLocked p b now) eqn:E; cbn [orb fst snd].
  { apply accepts_spec in E as (k & Hk & _ & Hc & _). by eapply keeps_use. }
  destruct (allow && backendAvailableLocked p b true && _) eqn:E2; cbn [fst snd]; [|rewrite (left_id_L ∅ _); apply keeps_refl].
  apply andb_true_iff in E2 as [[_ E2]%andb_true_iff _]. apply available_spec in E2 as (k & Hk & _ & Hc & _). by eapply keeps_use.
Qed.

Lemma spec_preferLocked b allow :
  spec (locked (X := X) (H := H) (preferLocked b allow)) ∅
    (exactly (λ r : option bool, if r is Some true then {[+ Using b +]} else ∅)).
Proof. apply spec_locked. intros now p m. rewrite (left_id_L ∅ _). apply keeps_prefer. Qed.

(** ** Programs that take nothing *)

Create HintDb tame.
#[local] Hint Resolve spec_reading spec_clock spec_outside spec_toBackend : tame.

(** Walk through a program whose parts take nothing. *)
Ltac tame :=
  repeat first
    [ progress intros
    | progress cbn zeta
    | by apply spec_ret
    | solve [auto with tame]
    | match goal with
      | |- spec (match ?x with _ => _ end) _ _ => destruct x
      | |- spec (andThen _ _) _ nothing => apply spec_andThen; [|done|]
      | |- spec (_ ≫= _) _ _ => apply spec_tame
      end ].

Lemma spec_replaceAllowNever b allow : spec (replaceBackendAllowNever (X := X) (H := H) policy b allow) ∅ nothing.
Proof.
  unfold replaceBackendAllowNever. tame; apply spec_quiet; intros; [apply quiet_markDraining|apply quiet_addLifecycleWork].
Qed.
#[local] Hint Resolve spec_replaceAllowNever : tame.

Lemma spec_replaceBackend b : spec (replaceBackend (X := X) (H := H) policy b) ∅ nothing.
Proof. apply spec_replaceAllowNever. Qed.

Lemma spec_pingBackend b : spec (pingBackend out b) ∅ nothing.
Proof. unfold pingBackend. tame. Qed.

Lemma spec_maybeProbe {A} b (r : res A) : spec (maybeProbeAfterCallError policy facts (X := X) (H := H) b r) ∅ nothing.
Proof. unfold maybeProbeAfterCallError. tame. apply spec_change. intros. by apply quiet_spawn. Qed.
#[local] Hint Resolve spec_replaceBackend spec_pingBackend spec_maybeProbe : tame.

Lemma spec_GetRuntimeSession b id :
  spec (toBackend (λ _, []) b (λ k, ou_GetRuntimeSession out (bk_provider k) id)) ∅
    (λ r own, own = ∅ ∧ ∀ s, r = Ok s → current → hostedRuntimeSessionCompatibilityReason s = None).
Proof.
  intros w0. apply wpo_atomic. intros w frame _ HI. exists ∅. destruct (pl_heap (w_pool w) !! b) as [k|].
  - destruct (ou_GetRuntimeSession out (bk_provider k) id (w_ext w)) as [r x] eqn:E. cbn. rewrite (right_id_L [] _). split_and!.
    + split_and!; [reflexivity|cbn; lia|done].
    + done.
    + intros w'' _. split; [done|]. destruct r as [s'|e]; intros s; [|done]. intros [= <-] Hc. by eapply Hsession.
  - split_and!; [reflexivity|done..].
Qed.

Lemma spec_refresh ctx b : spec (refreshBackendRuntimeSessionWithContext policy out ctx b) ∅ nothing.
Proof.
  unfold refreshBackendRuntimeSessionWithContext. apply spec_tame; [apply spec_reading|]. intros id.
  case_decide; [by apply spec_ret|]. case_decide; [by apply spec_ret|]. eapply spec_then; [apply spec_GetRuntimeSession|].
  cbn. intros r own [-> Hr]. destruct r as [s|e]; [|by apply spec_ret]. apply spec_tame; [apply spec_clock|]. intros now.
  apply spec_tame; [|tame]. apply spec_quiet. intros. apply quiet_refresh. by apply Hr.
Qed.
#[local] Hint Resolve spec_refresh : tame.

Lemma spec_ensureFresh ctx b : spec (ensureBackendFreshForNewWork policy out ctx b) ∅ nothing.
Proof. unfold ensureBackendFreshForNewWork. tame. Qed.
#[local] Hint Resolve spec_ensureFresh : tame.

Lemma spec_freshOrRelease ctx b (k : M (res nat)) :
  spec k ∅ (exactly held) →
  spec (fresh ← ensureBackendFreshForNewWork policy out ctx b;
        match fresh with Ok _ => mret (Ok b) | Err _ => _ ← releaseBackend b; k end) {[+ Using b +]} (exactly held).
Proof.
  intros Hk. apply spec_tame; [apply spec_ensureFresh|]. intros [_|e]; [by apply spec_ret|]. apply spec_release. by intros [].
Qed.

Lemma spec_acquireFresh n ctx : spec (acquireFresh policy out n ctx) ∅ (exactly held).
Proof.
  induction n as [|n IH]; cbn [acquireFresh].
  all: eapply spec_exactly; [apply spec_acquireBackend|]; intros [b|e]; [|by apply spec_ret].
  all: apply spec_freshOrRelease.
  - by apply spec_ret.
  - apply IH.
Qed.

Lemma spec_acquireForNewWork ctx preferred allow :
  spec (acquireBackendForNewWork policy out ctx preferred allow) ∅ (exactly held).
Proof.
  unfold acquireBackendForNewWork. destruct preferred as [b|]; [|apply spec_acquireFresh].
  assert (spec (if decide (cx_rounds ctx = 0) then mret (Err (ctxErr ctx)) else acquireFresh policy out (cx_rounds ctx) ctx)
            ∅ (exactly held)) as Hk.
  { case_decide; [by apply spec_ret|apply spec_acquireFresh]. }
  eapply spec_exactly; [apply spec_preferLocked|]. intros [[|]|]; cbn [negb]; [| |by apply spec_ret].
  - by apply spec_freshOrRelease.
  - apply Hk.
Qed.

(** ** Recording *)

Lemma spec_recordSession s b : spec (recordSession (X := X) (H := H) (D := D) s b) ∅ nothing.
Proof.
  unfold recordSession. tame; apply spec_change; intros; [apply quiet_deleteSessionBackend|apply quiet_recordSessionBackend].
Qed.

Lemma spec_recordTurn t b : spec (recordTurn (X := X) (H := H) (D := D) t b) ∅ nothing.
Proof. unfold recordTurn. tame; apply spec_change; intros; [apply quiet_recordSessionBackend|apply quiet_recordTurn]. Qed.

Lemma spec_recordInteraction i b : spec (recordInteraction (X := X) (H := H) (D := D) i b) ∅ nothing.
Proof. unfold recordInteraction. tame. apply spec_change. intros. apply quiet_recordInteraction. Qed.

Lemma spec_forEach {A} (f : A → M unit) l : (∀ a, spec (f a) ∅ nothing) → spec (forEach f l) ∅ nothing.
Proof. intros Hf. induction l; cbn; tame. Qed.
#[local] Hint Resolve spec_recordSession spec_recordTurn spec_recordInteraction spec_forEach : tame.

(** ** Calls *)

Lemma spec_onBackend {A} op ctx b (f : H → X → result PE A * X) :
  spec (onBackend policy facts out op ctx b f) ∅ nothing.
Proof.
  unfold onBackend. eapply spec_held; [apply spec_acquireBackend|done|]. intros b'. apply spec_call. intros r.
  apply spec_release. intros _. tame.
Qed.
#[local] Hint Resolve spec_onBackend : tame.

Lemma spec_tryKnown {A} known (fetch : nat → M (res A)) forget :
  (∀ b, spec (fetch b) ∅ nothing) → (∀ now p, quiet current now p (forget p)) →
  spec (tryKnown facts known fetch forget) ∅ nothing.
Proof. intros Hf Hq. unfold tryKnown. tame. by apply spec_change. Qed.

Lemma spec_searchOne {A} (fetch : nat → M (res A)) backends m :
  (∀ b, spec (fetch b) ∅ nothing) → spec (searchOne facts fetch backends m) ∅ nothing.
Proof. intros Hf. revert m. induction backends; intros m; cbn; tame. Qed.

Lemma spec_searchAll {A} (fetch : nat → M (res (list A))) backends m found :
  (∀ b, spec (fetch b) ∅ nothing) → spec (searchAll facts fetch backends m found) ∅ nothing.
Proof. intros Hf. revert m found. induction backends; intros m found; cbn; tame. Qed.
#[local] Hint Resolve spec_tryKnown spec_searchOne spec_searchAll : tame.

Lemma spec_readOne {A} known (fetch : nat → M (res A)) forget :
  (∀ b, spec (fetch b) ∅ nothing) → (∀ now p, quiet current now p (forget p)) →
  spec (readOne facts known fetch forget) ∅ nothing.
Proof. intros Hf Hq. unfold readOne. tame. Qed.

Lemma spec_readAll {A} known (fetch : nat → M (res (list A))) forget :
  (∀ b, spec (fetch b) ∅ nothing) → (∀ now p, quiet current now p (forget p)) →
  spec (readAll facts known fetch forget) ∅ nothing.
Proof. intros Hf Hq. unfold readAll. tame. Qed.

(** ** The methods *)

#[local] Hint Resolve quiet_deleteSessionBackend quiet_deleteTurnBackend quiet_deleteInteractionBackend : tame.
#[local] Hint Resolve spec_readOne spec_readAll : tame.

Lemma spec_GetSession ctx req : spec (GetSession policy facts out ctx req) ∅ nothing.
Proof. unfold GetSession, withBackendSession. tame. apply spec_readOne; tame. Qed.
Lemma spec_GetTurn ctx req : spec (GetTurn policy facts out ctx req) ∅ nothing.
Proof. unfold GetTurn, withBackendTurn. tame. apply spec_readOne; tame. Qed.
Lemma spec_ListTurnEvents ctx req : spec (ListTurnEvents policy facts out ctx req) ∅ nothing.
Proof. unfold ListTurnEvents, listTurnEventsFromBackend. tame. Qed.
Lemma spec_GetInteraction ctx req : spec (GetInteraction policy facts out ctx req) ∅ nothing.
Proof. unfold GetInteraction, getInteractionFromBackend. tame. apply spec_readOne; tame. Qed.
Lemma spec_ListTurns ctx req : spec (ListTurns policy facts out ctx req) ∅ nothing.
Proof. unfold ListTurns, listTurnsFromBackend. tame. apply spec_readAll; tame. Qed.
Lemma spec_ListInteractions ctx req : spec (ListInteractions policy facts out ctx req) ∅ nothing.
Proof. unfold ListInteractions, listInteractionsFromBackend. tame. apply spec_readAll; tame. Qed.
#[local] Hint Resolve spec_GetSession spec_GetTurn spec_GetInteraction : tame.

Lemma spec_removeWorkspace b r : spec (removeAgentWorkspace out b r) ∅ nothing.
Proof. unfold removeAgentWorkspace. tame. Qed.
Lemma spec_deleteCreateKey key : spec (change (X := X) (H := H) (deleteCreateKeyBackend key)) ∅ nothing.
Proof. apply spec_change. intros. apply quiet_deleteCreateKey. Qed.
Lemma spec_takeWorkspace id : spec (locked (X := X) (H := H) (λ _, takeSessionWorkspace id)) ∅ nothing.
Proof. apply spec_quiet. intros. apply quiet_takeWorkspace. Qed.
Lemma spec_recordWorkspace id r : spec (change (X := X) (H := H) (recordSessionWorkspace id r)) ∅ nothing.
Proof. apply spec_change. intros. apply quiet_recordWorkspace. Qed.
Lemma spec_deleteSession id : spec (change (X := X) (H := H) (deleteSessionBackend id)) ∅ nothing.
Proof. apply spec_change. intros. apply quiet_deleteSessionBackend. Qed.
Lemma spec_recordTurnBackend id b : spec (change (X := X) (H := H) (recordTurnBackend id b)) ∅ nothing.
Proof. apply spec_change. intros. apply quiet_recordTurnBackend. Qed.
#[local] Hint Resolve spec_removeWorkspace spec_deleteCreateKey spec_takeWorkspace spec_recordWorkspace : tame.
#[local] Hint Resolve spec_deleteSession spec_recordTurnBackend : tame.

(** Preparing a workspace for an instance in use; only an allowed one gets to its runtime. *)
Lemma spec_preparing {A} b ws (f : hostedAgentPoolBackend H → X → result PE A * X) :
  allowed ws → spec (toBackend (λ _, [preparing b ws]) b f) ∅ nothing.
Proof.
  intros Hws w0. apply wpo_atomic. intros w frame _ HI. exists ∅. destruct (pl_heap (w_pool w) !! b) as [k|].
  - destruct (f k (w_ext w)) as [r x]. cbn. split_and!; [|by apply PInv_preparing|done].
    split_and!; [reflexivity|cbn; lia|by apply prefix_app_r].
  - split_and!; [reflexivity|done..].
Qed.

Definition in_use {A} (b : nat) : A → tokens → Prop := exactly (λ _, {[+ Using b +]}).

Lemma spec_prepare b ws r :
  spec (prepareAgentWorkspace out ToLower ParseURL TimeParseDuration workspaces b ws r) {[+ Using b +]} (in_use b).
Proof.
  unfold prepareAgentWorkspace. destruct workspaces as [cfg|] eqn:Ew; [|by apply spec_ret].
  destruct (AgentWorkspace.validateWorkspacePolicy _ _ _ _) as [[]|e] eqn:Ev; [|by apply spec_ret].
  eapply spec_exactly; [apply spec_calling|]. intros [caps|e]; [|by apply spec_ret].
  destruct (negb _); [by apply spec_ret|]. apply spec_andThen; [apply spec_toBackend|done|]. intros support.
  destruct (negb _); [by apply spec_ret|]. apply spec_tame; [apply spec_reading|]. intros provider.
  destruct (negb _); [by apply spec_ret|]. cbn zeta. apply spec_andThen; [|done|by intros; apply spec_ret].
  apply spec_preparing. unfold allowed. by rewrite Ew.
Qed.

Lemma spec_workspaceFor b key (req : CreateSessionRequest D) idem :
  spec (workspaceFor name out ToLower ParseURL TimeParseDuration workspaces b key req idem) {[+ Using b +]} (in_use b).
Proof.
  unfold workspaceFor. destruct (cr_Workspace req) as [ws|]; [|by apply spec_ret].
  apply spec_tame; [unfold hostedAgentWorkspaceRef; tame|]. intros r.
  eapply spec_exactly; [apply spec_prepare|]. intros [p|e]; [by apply spec_ret|].
  apply spec_tame; [tame|]. intros _. apply spec_tame; [tame|]. intros _. by apply spec_ret.
Qed.

Lemma spec_claimRounds n ctx key b : spec (claimRounds policy out n ctx key b) {[+ Using b +]} (exactly held).
Proof.
  revert b. induction n as [|n IH]; intros b; cbn [claimRounds].
  all: eapply spec_tame; [apply spec_quiet; intros; apply quiet_claim|]; intros owner.
  all: case_decide; [by apply spec_ret|]; apply spec_release; intros _.
  all: eapply spec_held; [apply spec_acquireBackend|done|]; intros b'.
  - apply spec_release. intros _. by apply spec_ret.
  - apply IH.
Qed.

Lemma spec_CreateSession ctx req : spec (CreateSession name policy facts out ToLower ParseURL TimeParseDuration workspaces ctx req) ∅ nothing.
Proof.
  unfold CreateSession. cbn zeta. apply spec_tame; [apply spec_reading|]. intros preferred.
  eapply spec_held; [apply spec_acquireForNewWork|done|]. intros b0.
  eapply spec_held; [apply spec_claimRounds|done|]. intros b. eapply spec_exactly; [apply spec_workspaceFor|].
  intros [[providerReq workspaceRef]|e].
  - apply spec_call. intros r. apply spec_tame; [tame|]. intros _. apply spec_release. intros _. tame.
  - apply spec_release. intros _. tame.
Qed.

Lemma spec_collectSessions b (sessions : list (Session D)) seen found :
  spec (collectSessions (X := X) (H := H) b sessions seen found) ∅ nothing.
Proof. revert seen found. induction sessions; intros seen found; cbn [collectSessions]; tame. Qed.
#[local] Hint Resolve spec_collectSessions : tame.

Lemma spec_listSessionsOn ctx req backends seen found ok e :
  spec (listSessionsOn policy facts out ctx req backends seen found ok e) ∅ nothing.
Proof. revert seen found ok e. induction backends; intros seen found ok e; cbn; tame. Qed.
#[local] Hint Resolve spec_listSessionsOn : tame.

Lemma spec_ListSessions ctx req : spec (ListSessions policy facts out ctx req) ∅ nothing.
Proof. unfold ListSessions. tame. Qed.

Lemma spec_located {A} route id (get : M (res A)) idOf : spec get ∅ nothing → spec (located route id get idOf) ∅ nothing.
Proof. intros Hg. unfold located. tame. Qed.
#[local] Hint Resolve spec_located : tame.

Lemma spec_UpdateSession ctx req : spec (UpdateSession policy facts out ctx req) ∅ nothing.
Proof. unfold UpdateSession. tame. Qed.
Lemma spec_CancelTurn ctx req : spec (CancelTurn policy facts out ctx req) ∅ nothing.
Proof. unfold CancelTurn. tame. Qed.
Lemma spec_ResolveInteraction ctx req : spec (ResolveInteraction policy facts out ctx req) ∅ nothing.
Proof. unfold ResolveInteraction. tame. Qed.

Lemma spec_CreateTurn ctx req : spec (CreateTurn policy facts out ctx req) ∅ nothing.
Proof.
  unfold CreateTurn. cbn zeta. apply spec_tame; [apply spec_reading|]. intros preferred.
  eapply spec_held; [apply spec_acquireForNewWork|done|]. intros b. apply spec_call. intros r.
  apply spec_release. intros _. tame.
Qed.

Lemma spec_GetCapabilities ctx req : spec (GetCapabilities policy facts out ctx req) ∅ nothing.
Proof.
  unfold GetCapabilities. eapply spec_held; [apply spec_acquireBackend|done|]. intros b. apply spec_call. intros r.
  apply spec_release. intros _. tame.
Qed.

Lemma spec_pingAll ctx backends : spec (pingAll policy out ctx backends) ∅ nothing.
Proof.
  induction backends as [|b backends IH]; cbn; [by apply spec_ret|]. apply spec_tame; [|tame]. unfold pingOne.
  eapply spec_exactly; [apply spec_acquireBackend|]. intros [b'|e]; [|by apply spec_ret].
  apply spec_call. intros r. apply spec_release. intros _. tame.
Qed.
#[local] Hint Resolve spec_pingAll : tame.

Lemma spec_Ping ctx : spec (Ping policy out ctx) ∅ nothing.
Proof. unfold Ping. tame. Qed.

(** ** Closing an instance *)

(** The wait was long enough, or the calls are over. *)
Definition settled b deadline (w : World X H) : Prop := (deadline < w_now w)%Z ∨ unused (w_pool w) b.

Lemma settled_later b deadline (w w' : World X H) : G w w' → settled b deadline w → settled b deadline w'.
Proof.
  intros (Hg & Ht & _) [Hd|(k & Hk & Hc & Ha)]; [left; lia|right]. destruct (Hg b k Hk) as (k' & Hk' & Hc').
  exists k'. destruct (Hc' Hc). split_and!; [done|done|lia].
Qed.

Lemma draining_backend (w : World X H) b frame :
  Inv policy current allowed w ({[+ Draining b +]} ⊎ frame) → ∃ k, pl_heap (w_pool w) !! b = Some k ∧ bk_closing k = true.
Proof.
  intros HI. pose proof (iv_closing _ _ _ _ _ _ _ HI b) as Hc. rewrite multiplicity_disj_union, multiplicity_singleton_eq in Hc.
  unfold closingOf in Hc. destruct (pl_heap (w_pool w) !! b) as [k|]; [|lia]. exists k. split; [done|].
  destruct (bk_closing k); [done|lia].
Qed.

Lemma wp_clock own (w : World X H) : wp clock (λ t own' w', own' = own ∧ (t ≤ w_now w')%Z) own w.
Proof.
  apply wpo_atomic. intros w' frame _ HI. exists own. split_and!; [reflexivity|done|]. cbn.
  intros w'' (_ & Ht & _). split; [done|lia].
Qed.

Lemma wp_sleep d own (w : World X H) : (0 ≤ d)%Z → wp (sleep d) (λ _ own' w', own' = own ∧ (w_now w + d ≤ w_now w')%Z) own w.
Proof.
  intros Hd. apply wpo_atomic. intros w' frame (_ & Ht & _) HI. exists own. cbn.
  split_and!; [|eapply PInv_later; [|exact HI]; cbn; lia|].
  - split_and!; [reflexivity|cbn; lia|done].
  - intros w'' (_ & Ht' & _). cbn in Ht'. split; [done|lia].
Qed.

Lemma wp_finishDrain b deadline (w : World X H) :
  wp (locked (finishDrainLocked b deadline))
    (λ (over : bool) own w', own = {[+ Draining b +]} ∧ ((deadline < w_now w)%Z → over = true)
                             ∧ (over = true → settled b deadline w'))
    {[+ Draining b +]} w.
Proof.
  apply wpo_atomic. intros w' frame (_ & Ht & _) HI. destruct (draining_backend _ _ _ HI) as (k & Hk & Hcg).
  exists {[+ Draining b +]}. unfold finishDrainLocked. rewrite Hk. destruct (bool_decide _ || _) eqn:E; cbn.
  - destruct (keeps_remove policy current allowed (w_now w') _ _ b k Hk Hcg _ HI) as [Hg HI']. split_and!; [|exact HI'|].
    + split_and!; [exact Hg|cbn; lia|done].
    + intros w'' Hw. split_and!; [done..|]. intros _. eapply settled_later; [exact Hw|].
      apply orb_true_iff in E as [[Ha _]%bool_decide_eq_true|E]; [right|left].
      * exists (set_bclosed k). cbn. assert (pl_heap (removeBackendLocked b (alter_backend b set_bclosed (w_pool w')))
          = alter set_bclosed b (pl_heap (w_pool w'))) as -> by (by destruct (w_pool w')).
        rewrite lookup_alter_eq, Hk. by destruct k.
      * unfold After in E. cbn. lia.
  - split_and!; [split_and!; [reflexivity|cbn; lia|done]|done|]. intros w'' _. split_and!; [done| |done]. intros Hd.
    apply orb_false_iff in E as [_ E]. unfold After in E. lia.
Qed.

Lemma wp_awaitDrain b deadline fuel (w : World X H) :
  (deadline < w_now w + pollInterval * Z.of_nat fuel)%Z →
  wp (awaitDrain (S fuel) b deadline) (λ r own w', r = Some tt ∧ own = {[+ Draining b +]} ∧ settled b deadline w')
    {[+ Draining b +]} w.
Proof.
  revert w. induction fuel as [|fuel IH]; intros w Hf.
  all: cbn [awaitDrain]; apply wpo_bind; [apply _|]; eapply wpo_mono; [apply _|apply wp_finishDrain|].
  all: cbn; intros over own w1 (_ & Ht & _) (-> & Hover & Hset); destruct over.
  1, 3: apply wpo_ret; intros w2 Hw; split_and!; [done..|by eapply settled_later, Hset].
  - specialize (Hover ltac:(lia)). done.
  - apply wpo_bind; [apply _|]. eapply wpo_mono; [apply _|by apply (wp_sleep pollInterval)|].
    cbn beta. intros _ own w2 _ (-> & Ht2). apply IH. lia.
Qed.

Lemma wp_close b deadline w (f : hostedAgentPoolBackend H → X → result PE unit * X) :
  settled b deadline w → wp (toBackend (closeEvent b deadline) b f) (λ _ own _, own = ∅) {[+ Draining b +]} w.
Proof.
  intros Hs. apply wpo_atomic. intros w' frame Hw HI. destruct (draining_backend _ _ _ HI) as (k & Hk & _). rewrite Hk.
  destruct (f k (w_ext w')) as [r x]. exists ∅. cbn [fst snd]. split_and!; [| |done].
  - split_and!; [reflexivity|cbn; lia|by apply prefix_app_r].
  - rewrite (left_id_L ∅ _). unfold Inv. cbn. apply PInv_providerClosed; [exact HI|]. by eapply settled_later in Hs.
Qed.

Lemma drainFuel_enough deadline now : (deadline < now + pollInterval * Z.of_nat (pred (drainFuel deadline now)))%Z.
Proof.
  unfold drainFuel. cbn [pred]. assert (0 < pollInterval)%Z as Hp by done.
  pose proof (Z.mul_succ_div_gt (deadline - now) pollInterval Hp). unfold Z.succ in *. nia.
Qed.

Lemma spec_beginDrain b :
  spec (locked (X := X) (H := H) (λ _, beginDrainLocked b)) ∅ (exactly (λ begun : bool, if begun then {[+ Draining b +]} else ∅)).
Proof.
  apply spec_locked. intros now p m. rewrite (left_id_L ∅ _). destruct (beginDrainLocked b p) as [[|] p'] eqn:E; cbn [fst snd].
  - by apply keeps_beginDrain.
  - rewrite (left_id_L ∅ _). unfold beginDrainLocked in E. destruct (pl_heap p !! b) as [k|]; [destruct (_ || _)|];
      simplify_eq; apply keeps_refl.
Qed.

Lemma spec_drainAndClose b : spec (drainAndCloseBackend policy out b) ∅ (λ r own, ended r = true ∧ own = ∅).
Proof.
  unfold drainAndCloseBackend. eapply spec_exactly; [apply spec_beginDrain|]. intros [|]; cbn [negb]; [|by apply spec_ret].
  apply spec_tame; [apply spec_clock|]. intros started. cbn zeta. apply spec_tame; [apply spec_reading|]. intros deadline w.
  apply wpo_bind; [apply _|]. eapply wpo_mono; [apply _|apply wp_clock|]. cbn beta. intros now own w1 _ [-> Hnow].
  apply wpo_bind; [apply _|]. pose proof (drainFuel_enough deadline now) as Hfuel.
  change (drainFuel deadline now) with (S (pred (drainFuel deadline now))).
  eapply wpo_mono; [apply _|apply wp_awaitDrain; lia|].
  cbn beta. intros r own w2 _ (-> & -> & Hs). apply wpo_bind; [apply _|].
  eapply wpo_mono; [apply _|by apply wp_close|]. cbn beta. intros r own w3 _ ->. by apply wpo_ret.
Qed.

(** ** The goroutines *)

Definition finished : bool → tokens → Prop := λ ok own, ok = true ∧ own = ∅.

Lemma spec_lifecycle f : spec (change (X := X) (set_lifecycle (H := H) f)) ∅ nothing.
Proof. apply spec_change. intros. apply quiet_lifecycle. Qed.
Lemma spec_closingParts f : spec (change (X := X) (set_closingParts (H := H) f)) ∅ nothing.
Proof. apply spec_change. intros. apply quiet_closingParts. Qed.
#[local] Hint Resolve spec_lifecycle spec_closingParts spec_ensureMinReady : tame.

Lemma quiet_replacing now b v (dr : bool) (p : Pool H) :
  quiet current now p (alter_backend b (λ k, set_replacing v (if dr then set_draining k else k)) p).
Proof. apply quiet_alter. intros k _. destruct dr, k; by split. Qed.

Lemma spec_replaced b r :
  spec (change (X := X) (H := H) (replacedLocked b (match r : res nat with Ok _ => true | Err _ => false end))) (landing r) nothing.
Proof.
  apply spec_locked. intros now p m. rewrite (left_id_L ∅ _). cbn [snd]. unfold replacedLocked. cbn zeta.
  assert (keeps policy current allowed now p (set_starting pred p) (landing r ⊎ m) m) as K
    by (destruct r; apply keeps_started; auto).
  destruct (backendAvailableLocked _ b true); [|done]. eapply keeps_trans; [exact K|].
  apply quiet_keeps. destruct r; [apply (quiet_replacing now b false true)|apply (quiet_replacing now b false false)].
Qed.

(** The closing at the end of a goroutine. *)
Lemma spec_drainThen b (k : unit → M unit) :
  spec (k tt) ∅ nothing →
  spec (r ← drainAndCloseBackend policy out b; _ ← k tt; mret (ended r)) ∅ finished.
Proof.
  intros Hk. eapply spec_then; [apply spec_drainAndClose|]. cbn. intros r own [Hr ->]. apply spec_tame; [exact Hk|].
  intros _. by apply spec_ret.
Qed.

Lemma spec_runJob ctx j : spec (runJob policy out ctx j) (tokensOf j) finished.
Proof.
  destruct j as [|b|b|b|b]; cbn -[drainAndCloseBackend ensureMinReady startBackend]; unfold tokensOf; cbn [startsOf];
    rewrite ?decide_True, ?decide_False by done.
  - eapply spec_exactly; [apply spec_startBackend|]. intros r. eapply spec_exactly; [apply landing_over|]. intros [].
    apply spec_tame; [tame|]. intros _. by apply spec_ret.
  - apply spec_tame; [tame|]. intros _. apply (spec_drainThen b (λ _, change (set_lifecycle pred))). tame.
  - eapply spec_exactly; [apply spec_startBackend|]. intros r. eapply spec_exactly; [apply spec_replaced|]. intros [].
    destruct r.
    + apply (spec_drainThen b (λ _, change (set_lifecycle pred))). tame.
    + apply spec_tame; [tame|]. intros _. by apply spec_ret.
  - apply spec_tame; [tame|]. intros [u|e]; [by apply spec_ret|]. apply spec_tame; [tame|]. intros _. by apply spec_ret.
  - apply (spec_drainThen b (λ _, change (set_closingParts pred))). tame.
Qed.

Lemma spec_runGoroutine i ctx : spec (runGoroutine policy out i ctx) ∅ finished.
Proof.
  unfold runGoroutine. eapply (spec_exactly _ _ _ (λ j, match j with Some j => tokensOf j | None => ∅ end)).
  - apply spec_locked. intros now p m. rewrite (left_id_L ∅ _). destruct (takeJob i p) as [[j|] p'] eqn:E; cbn [fst snd].
    + by eapply keeps_takeJob.
    + rewrite (left_id_L ∅ _). unfold takeJob in E. destruct (_ !! _); [done|]. injection E as <-. apply keeps_refl.
  - intros [j|]; [apply spec_runJob|by apply spec_ret].
Qed.

Lemma keeps_proactive now b (p : Pool H) m : keeps policy current allowed now p (startProactiveReplacement policy b now p) m m.
Proof.
  unfold startProactiveReplacement. destruct (never policy); [apply keeps_refl|].
  destruct (pl_heap p !! b) as [k|] eqn:Hk; [|apply keeps_refl]. destruct (_ || _) eqn:E; [apply keeps_refl|].
  apply orb_false_iff in E as [_ Hroom%negb_false_iff]. apply canScaleOut_room in Hroom. intros tr HI.
  eapply (keeps_trans _ _ _ _ _ (alter_backend b (set_replacing true) p)); [apply quiet_keeps| |exact HI].
  - apply quiet_alter. intros k0 _. by destruct k0.
  - apply keeps_spawn_start; [done|]. assert (pl_starting (alter_backend b (set_replacing true) p) = pl_starting p) as ->
      by (by destruct p).
    eapply Nat.le_lt_trans; [|exact Hroom]. apply Nat.add_le_mono_r, readyCount_le.
    + rewrite backends_alter. apply HI.
    + intros b'. apply mild_accepting. intros k0 _. by destruct k0.
Qed.

Lemma spec_healthCheck ctx b : spec (healthCheck policy out ctx b) ∅ nothing.
Proof.
  assert (spec (locked (X := X) (λ now p, (tt, startProactiveReplacement (H := H) policy b now p))) ∅ nothing) as Hp.
  { apply spec_locked. intros now p m. rewrite (left_id_L ∅ _). apply keeps_proactive. }
  unfold healthCheck, refreshBackendRuntimeSession. tame.
Qed.
#[local] Hint Resolve spec_healthCheck : tame.

Lemma spec_healthLoop ticks ctx : spec (healthLoop policy out ticks ctx) ∅ nothing.
Proof. induction ticks; cbn [healthLoop]; unfold healthRound; tame. Qed.

Lemma spec_awaitIdle n idle : spec (awaitIdle (X := X) (H := H) n idle) ∅ nothing.
Proof. assert (spec (sleep (X := X) (H := H) pollInterval) ∅ nothing) by by apply spec_sleep. induction n; cbn [awaitIdle]; tame. Qed.
#[local] Hint Resolve spec_awaitIdle : tame.

Lemma spec_Close rounds : spec (Close (X := X) (H := H) rounds) ∅ nothing.
Proof.
  unfold Close. apply spec_tame; [apply spec_quiet; intros; apply quiet_close|]. intros first.
  assert (spec (change (X := X) (H := H) clearLocked) ∅ nothing) as Hc.
  { apply spec_locked. intros now p m. rewrite (left_id_L ∅ _). apply keeps_clear. }
  tame.
Qed.

(** ** Processes *)

(** The methods of the pool, its goroutines, its health checks, and what happens outside:
    time passes and the outside changes. *)
Inductive Process :=
  | doCreateSession (ctx : Ctx) (req : CreateSessionRequest D)
  | doGetSession (ctx : Ctx) (req : IDRequest D)
  | doListSessions (ctx : Ctx) (req : D)
  | doUpdateSession (ctx : Ctx) (req : UpdateSessionRequest D)
  | doCreateTurn (ctx : Ctx) (req : CreateTurnRequest D)
  | doGetTurn (ctx : Ctx) (req : IDRequest D)
  | doListTurns (ctx : Ctx) (req : IDRequest D)
  | doCancelTurn (ctx : Ctx) (req : IDRequest D)
  | doListTurnEvents (ctx : Ctx) (req : IDRequest D)
  | doGetInteraction (ctx : Ctx) (req : IDRequest D)
  | doListInteractions (ctx : Ctx) (req : IDRequest D)
  | doResolveInteraction (ctx : Ctx) (req : IDRequest D)
  | doGetCapabilities (ctx : Ctx) (req : D)
  | doPing (ctx : Ctx)
  | aGoroutine (i : nat) (ctx : Ctx)
  | healthChecks (ticks : nat) (ctx : Ctx)
  | doClose (rounds : nat)
  | timePasses (d : N)
  | outsideChanges (f : X → X).

(** [false] only for a wait to drain that did not end. *)
Definition over {A} (m : M A) : M bool := _ ← m; mret true.
Definition program (proc : Process) : M bool :=
  match proc with
  | doCreateSession ctx req => over (CreateSession name policy facts out ToLower ParseURL TimeParseDuration workspaces ctx req)
  | doGetSession ctx req => over (GetSession policy facts out ctx req)
  | doListSessions ctx req => over (ListSessions policy facts out ctx req)
  | doUpdateSession ctx req => over (UpdateSession policy facts out ctx req)
  | doCreateTurn ctx req => over (CreateTurn policy facts out ctx req)
  | doGetTurn ctx req => over (GetTurn policy facts out ctx req)
  | doListTurns ctx req => over (ListTurns policy facts out ctx req)
  | doCancelTurn ctx req => over (CancelTurn policy facts out ctx req)
  | doListTurnEvents ctx req => over (ListTurnEvents policy facts out ctx req)
  | doGetInteraction ctx req => over (GetInteraction policy facts out ctx req)
  | doListInteractions ctx req => over (ListInteractions policy facts out ctx req)
  | doResolveInteraction ctx req => over (ResolveInteraction policy facts out ctx req)
  | doGetCapabilities ctx req => over (GetCapabilities policy facts out ctx req)
  | doPing ctx => over (Ping policy out ctx)
  | aGoroutine i ctx => runGoroutine policy out i ctx
  | healthChecks ticks ctx => over (healthLoop policy out ticks ctx)
  | doClose rounds => over (Close rounds)
  | timePasses d => over (sleep (Z.of_N d))
  | outsideChanges f => over (outside (λ x, (tt, f x)))
  end.

Lemma spec_over {A} (m : M A) : spec m ∅ nothing → spec (over m) ∅ finished.
Proof. intros Hm. apply spec_tame; [done|]. intros _. by apply spec_ret. Qed.

Lemma spec_program proc : spec (program proc) ∅ finished.
Proof.
  destruct proc; cbn [program]; try apply spec_over.
  - apply spec_CreateSession.
  - apply spec_GetSession.
  - apply spec_ListSessions.
  - apply spec_UpdateSession.
  - apply spec_CreateTurn.
  - apply spec_GetTurn.
  - apply spec_ListTurns.
  - apply spec_CancelTurn.
  - apply spec_ListTurnEvents.
  - apply spec_GetInteraction.
  - apply spec_ListInteractions.
  - apply spec_ResolveInteraction.
  - apply spec_GetCapabilities.
  - apply spec_Ping.
  - apply spec_runGoroutine.
  - apply spec_healthLoop.
  - apply spec_Close.
  - apply spec_sleep. lia.
  - apply spec_outside.
Qed.

(** ** The beginning, and all that follows *)

Lemma PInv_empty now : PInv policy current allowed (H := H) empty_pool now [] ∅.
Proof.
  split; cbn -[multiplicity]; try done.
  - intros b [k Hk]. done.
  - constructor.
  - intros b Hb. by apply elem_of_nil in Hb.
  - intros b d t Hev. by apply elem_of_nil in Hev.
  - intros tr1 b d t tr2 op Htr. by destruct tr1.
  - intros b (key & Hr). cbn in Hr. rewrite !lookup_empty in Hr. naive_solver.
  - intros _. rewrite multiplicity_empty. lia.
  - intros b ws Hev. by apply elem_of_nil in Hev.
Qed.

Definition room (n : nat) (w : World X H) : Prop :=
  readyCount (w_pool w) (w_now w) + starts (pl_jobs (w_pool w)) + n ≤ capacity policy.

Lemma start_Inv ctx n w b w' :
  Inv policy current allowed w ∅ → room (S n) w → run (startBackend policy out ctx) w = (Ok b, w') →
  Inv policy current allowed w' ∅ ∧ room n w'.
Proof.
  intros HI Hroom. unfold startBackend. case_decide; [discriminate|]. rewrite run_bind. unfold outside. rewrite run_atomic.
  destruct (ou_Launch out (w_ext w)) as [[i|e] x] eqn:E; [|discriminate].
  rewrite run_bind. unfold locked. rewrite run_atomic. cbn [w_now w_pool].
  destruct (registerLocked policy i (w_now w) (w_pool w)) as [[b'|] p'] eqn:Er;
    [|rewrite run_bind; destruct (run _ _); discriminate].
  intros [= <- <-]. unfold room in *. cbn [w_pool w_now].
  destruct (ready_register _ _ _ _ _ _ Er) as [Hle Ej]; [apply HI| |apply HI|].
  { intros b0 Hb0. destruct (iv_member _ _ _ _ _ _ _ HI b0 Hb0) as (k & ? & _). eauto. }
  split; [|rewrite Ej; lia].
  eapply keeps_register; [exact Er|intros; by eapply Hlaunch|done|done| |exact HI].
  intros _ _. rewrite multiplicity_empty. cbn [w_now]. lia.
Qed.

Lemma startMany_Inv ctx n w w0 :
  Inv policy current allowed w ∅ → room n w → run (startMany policy out n ctx) w = (Ok tt, w0) → Inv policy current allowed w0 ∅.
Proof.
  revert w. induction n as [|n IH]; intros w HI Hroom; cbn [startMany].
  - by intros [= <-].
  - unfold andThen. rewrite run_bind. destruct (run (startBackend policy out ctx) w) as [[b|e] w1] eqn:E; [|done].
    destruct (start_Inv _ _ _ _ _ HI Hroom E) as [HI1 Hroom1]. by apply IH.
Qed.

Lemma constructed_Inv ctx rounds now x w0 :
  run (newHostedAgentProviderPool policy out ctx rounds) (mkWorld empty_pool now x []) = (Ok tt, w0) →
  Inv policy current allowed w0 ∅.
Proof.
  unfold newHostedAgentProviderPool. rewrite run_bind.
  destruct (run (startMany _ _ _ _) _) as [[[]|e] w1] eqn:E.
  - intros [= <-]. eapply startMany_Inv; [| |exact E].
    + apply PInv_empty.
    + unfold room, capacity. cbn. lia.
  - rewrite run_bind. destruct (run (Close rounds) w1); discriminate.
Qed.

(** The worlds and processes that a pool can get to after its construction. *)
Definition reached (procs : list Process) (w : World X H) (ts : list (M bool)) : Prop :=
  ∃ ctx rounds now x w0 schedule,
    run (newHostedAgentProviderPool policy out ctx rounds) (mkWorld empty_pool now x []) = (Ok tt, w0)
    ∧ exec schedule (w0, program <$> procs) = (w, ts).

Lemma reached_Inv procs w ts :
  reached procs w ts → (∃ m, Inv policy current allowed w m) ∧ ∀ i m ok, ts !! i = Some m → result_of m = Some ok → ok = true.
Proof.
  intros (ctx & rounds & now & x & w0 & schedule & Hrun & Hexec). apply constructed_Inv in Hrun.
  destruct (wpo_exec G (Inv policy current allowed) (λ _ ok own _, finished ok own) _ _ _ _ _ _
              (owned_start G (Inv policy current allowed) (λ _ ok own _, finished ok own) w0 (program <$> procs) Hrun
                 ltac:(intros i m Hi; apply list_lookup_fmap_Some in Hi as (proc & -> & _); apply spec_program)) Hexec)
    as (_ & owns & Hp).
  split.
  - exists (everything owns). apply Hp.
  - intros i m ok Hi Hr. destruct (owned_result _ _ _ _ _ _ _ _ _ Hp Hi Hr) as (own & Hok & _). done.
Qed.
End specs.

(** ** What holds under every interleaving *)

(** C2. An instance of the hosted agent pool is closed at most once, and no call reaches an
    instance after it was closed, unless the wait for its calls had run out of time: under
    every interleaving of the methods of the pool, its goroutines, health checks and [Close],
    whatever the instances and their runtime answer. *)
Theorem calls_drain_before_close {X H PE D} name policy facts (out : Outside X H PE D) ToLower ParseURL TimeParseDuration workspaces procs w ts :
  reached name policy facts out ToLower ParseURL TimeParseDuration workspaces procs w ts →
  (∀ b, closes b (w_trace w) ≤ 1)
  ∧ ∀ before b deadline at_ after op,
      w_trace w = before ++ providerClosed b deadline at_ :: after → called b op ∈ after → (deadline < at_)%Z.
Proof.
  intros Hr. destruct (reached_Inv name policy facts out ToLower ParseURL TimeParseDuration workspaces False ltac:(done) ltac:(done) _ _ _ Hr) as [[m HI] _].
  split; [|apply HI]. intros b. pose proof (iv_closing _ _ _ _ _ _ _ HI b) as Hc. unfold closingOf in Hc.
  destruct (pl_heap (w_pool w) !! b) as [k|]; [destruct (bk_closing k)|]; lia.
Qed.

(** C8. Under every interleaving, the instances of the hosted agent pool that accept work are
    never more than the larger of its [MinReadyInstances] and [MaxReadyInstances], however
    many acquisitions, scale-outs, replacements and health checks start instances at once:
    as long as the runtime does not report an image other than the current one. *)
Theorem pool_within_capacity {X H PE D} name policy facts (out : Outside X H PE D) ToLower ParseURL TimeParseDuration workspaces procs w ts :
  (∀ x i x', ou_Launch out x = (Ok i, x') → hostedRuntimeSessionCompatibilityReason (in_runtimeSession i) = None) →
  (∀ h id x s x', ou_GetRuntimeSession out h id x = (Ok s, x') → hostedRuntimeSessionCompatibilityReason s = None) →
  reached name policy facts out ToLower ParseURL TimeParseDuration workspaces procs w ts →
  (Z.of_nat (readyCount (w_pool w) (w_now w))
   ≤ Z.max 0 (Z.max (lp_MinReadyInstances policy) (lp_MaxReadyInstances policy)))%Z.
Proof.
  intros Hl Hs Hr. destruct (reached_Inv name policy facts out ToLower ParseURL TimeParseDuration workspaces True (λ _, Hl) (λ _, Hs) _ _ _ Hr) as [[m HI] _].
  pose proof (iv_capacity _ _ _ _ _ _ _ HI Logic.I) as Hc. unfold capacity in Hc. lia.
Qed.

(** C18. Every session, turn and interaction that the hosted agent pool routes to an instance is
    routed to a member of the pool that is not closed, and no instance is a member twice. *)
Theorem routes_lead_to_members {X H PE D} name policy facts (out : Outside X H PE D) ToLower ParseURL TimeParseDuration workspaces procs w ts :
  reached name policy facts out ToLower ParseURL TimeParseDuration workspaces procs w ts →
  NoDup (pl_backends (w_pool w))
  ∧ ∀ key b,
      (sessionBackend (w_pool w) key = Some b ∨ turnBackend (w_pool w) key = Some b
       ∨ interactionBackend (w_pool w) key = Some b) → backendAvailableLocked (w_pool w) b true = true.
Proof.
  intros Hr. destruct (reached_Inv name policy facts out ToLower ParseURL TimeParseDuration workspaces False ltac:(done) ltac:(done) _ _ _ Hr) as [[m HI] _].
  split; [apply HI|]. intros key b Hkey.
  assert (routed (w_pool w) b) as Hb%(iv_routes _ _ _ _ _ _ _ HI).
  { unfold sessionBackend, turnBackend, interactionBackend, lookup_key in Hkey. exists (TrimSpace key).
    destruct (decide _); [naive_solver|done]. }
  destruct (iv_member _ _ _ _ _ _ _ HI b Hb) as (k & Hk & Hc). apply available_spec. exists k. auto.
Qed.

(** C5. A hosted agent pool has a runtime prepare a workspace only when the policy of the provider
    allows it: each of its checkouts has a URL that names a repository, and an entry of the
    configured allow-list admits that repository. *)
Theorem only_allowed_repositories_prepared {X H PE D} name policy facts (out : Outside X H PE D) ToLower ParseURL TimeParseDuration workspaces procs w ts b ws :
  reached name policy facts out ToLower ParseURL TimeParseDuration workspaces procs w ts → preparing b ws ∈ w_trace w →
  ∃ config git, workspaces = Some config ∧ AgentWorkspace.wp_Git config = Some git
    ∧ ∀ checkout, checkout ∈ AgentWorkspace.ws_Checkouts ws →
        ∃ repository entry,
          AgentWorkspace.CanonicalGitRepositoryIdentity ToLower ParseURL (AgentWorkspace.gc_URL checkout) = Ok repository
          ∧ entry ∈ AgentWorkspace.gp_AllowedRepositories git
          ∧ AgentWorkspace.entry_admits ToLower ParseURL entry (TrimSpace repository).
Proof.
  intros Hr Hev. destruct (reached_Inv name policy facts out ToLower ParseURL TimeParseDuration workspaces False ltac:(done) ltac:(done) _ _ _ Hr) as [[m HI] _].
  pose proof (iv_prepared _ _ _ _ _ _ _ HI b ws Hev) as Ha. apply AgentWorkspace.policy_spec in Ha as (p & g & Hp & Hg & _ & Hall).
  exists p, g. split_and!; [done..|]. intros c Hc. rewrite Forall_forall in Hall.
  destruct (Hall c Hc) as (r & Hid & e & He & Had). eauto.
Qed.

(** C24. The wait for an instance of the hosted agent pool to drain ends by its deadline.
    The model gives [drainAndCloseBackend] one look at the instance more than the polls that
    fit between the beginning of the wait and the deadline, and a goroutine whose drain has
    used them up without seeing the instance idle or the deadline passed answers [false].
    Under every interleaving of the methods of the pool, its goroutines, health checks and
    [Close], no goroutine that has come to its end has answered so.  (Other loops of the
    pool are not spoken about: [launches_without_end] shows one that has no end.) *)
Theorem drains_end {X H PE D} name policy facts (out : Outside X H PE D) ToLower ParseURL TimeParseDuration workspaces procs w ts i ok :
  reached name policy facts out ToLower ParseURL TimeParseDuration workspaces procs w ts →
  (m ← ts !! i; result_of m) = Some ok → ok = true.
Proof.
  intros Hr Hok. destruct (ts !! i) as [m|] eqn:Hm; [|done].
  by apply (proj2 (reached_Inv name policy facts out ToLower ParseURL TimeParseDuration workspaces False ltac:(done) ltac:(done) _ _ _ Hr) i m).
Qed.

(** ** Samples *)

Definition sample_policy : RuntimePlacementLifecyclePolicy :=
  {| lp_MinReadyInstances := 2; lp_MaxReadyInstances := 2; lp_StartupTimeout := Second; lp_HealthCheckInterval := Second;
     lp_RestartPolicy := RuntimePlacementRestartPolicyAlways; lp_DrainTimeout := Second |}.

(** The instances are numbered, the first does not answer pings; [sa_prepares] says of the
    preparations to come whether they work. *)
Record Sample := { sa_instances : nat; sa_prepares : list bool }.
Definition sample_outside : Outside Sample nat unit string :=
  {| ou_Launch x := (Ok {| in_provider := sa_instances x; in_runtimeSessionID := ""; in_runtimeSession := None |},
                     {| sa_instances := S (sa_instances x); sa_prepares := sa_prepares x |});
     ou_Close _ x := (Ok tt, x); ou_Ping h x := (if decide (h = 0) then Err tt else Ok tt, x); ou_GetRuntimeSession _ _ x := (Ok None, x);
     ou_noRequest := ""; ou_SupportsPreparedWorkspace _ := true; ou_isWorkspaceProvider _ := true; ou_Support _ x := (Ok true, x);
     ou_PrepareWorkspace _ _ workspaceRef _ _ x :=
       (match sa_prepares x with
        | false :: _ => Err tt
        | _ => Ok (Some {| AgentWorkspace.pw_Root := "/work"; AgentWorkspace.pw_CWD := "/work/app" |})
        end, {| sa_instances := sa_instances x; sa_prepares := tail (sa_prepares x) |});
     ou_RemoveWorkspace _ _ _ x := (Ok tt, x); ou_NewString x := ("uuid", x); ou_NewSHA1 s := s;
     ou_CreateSession _ req x :=
       (Ok (Some {| se_ID := "session"; se_State := "active"; se_rest := cr_rest req |}), x);
     ou_GetSession _ _ x := (Err tt, x); ou_ListSessions _ _ x := (Ok [], x); ou_UpdateSession _ _ x := (Err tt, x);
     ou_CreateTurn _ _ x := (Err tt, x); ou_GetTurn _ _ x := (Err tt, x); ou_ListTurns _ _ x := (Ok [], x);
     ou_CancelTurn _ _ x := (Err tt, x); ou_ListTurnEvents _ _ x := (Ok [], x); ou_GetInteraction _ _ x := (Err tt, x);
     ou_ListInteractions _ _ x := (Ok [], x); ou_ResolveInteraction _ _ x := (Err tt, x);
     ou_GetCapabilities _ _ x := (Ok "capabilities", x) |}.
Definition sample_workspaces : option AgentWorkspace.RuntimePlacementWorkspaceConfig :=
  Some {| AgentWorkspace.wp_PrepareTimeout := "";
          AgentWorkspace.wp_Git := Some {| AgentWorkspace.gp_AllowedRepositories := ["git.example/org/*"] |} |}.
Definition sample_workspace : AgentWorkspace.Workspace :=
  {| AgentWorkspace.ws_Checkouts :=
       [{| AgentWorkspace.gc_URL := "https://git.example/org/app.git"; AgentWorkspace.gc_Ref := "main"; AgentWorkspace.gc_Path := "app" |}];
     AgentWorkspace.ws_CWD := "app" |}.
Definition sample_facts : unit → ProviderErrorFacts := λ _,
  {| ef_NotFound := false; ef_Canceled := false; ef_DeadlineExceeded := false; ef_NotAvailable := false; ef_transientCode := false |}.
Definition sample_ctx : Ctx := {| cx_rounds := 2; cx_deadlineExceeded := true |}.
Definition sample_request (workspace : option AgentWorkspace.Workspace) : CreateSessionRequest string :=
  {| cr_IdempotencyKey := "key"; cr_SubjectID := "user:1"; cr_Workspace := workspace; cr_PreparedWorkspace := None; cr_rest := "" |}.
Definition sample_create (workspace : option AgentWorkspace.Workspace) : Process (X := Sample) (D := string) :=
  doCreateSession sample_ctx (sample_request workspace).
Definition sample_key : string := hostedAgentCreateKey "user:1" "key".

Abbreviation sample_program := (program "pool" sample_policy sample_facts sample_outside (λ s, s) AgentWorkspace.sample_parse (λ _, None) sample_workspaces).
Abbreviation sample_reached := (reached "pool" sample_policy sample_facts sample_outside (λ s, s) AgentWorkspace.sample_parse (λ _, None) sample_workspaces).

Definition sample_start (prepares : list bool) : World Sample nat :=
  (run (newHostedAgentProviderPool sample_policy sample_outside sample_ctx 0)
     (mkWorld empty_pool 1000 {| sa_instances := 0; sa_prepares := prepares |} [])).2.
Definition sample_exec (prepares : list bool) procs schedule := exec schedule (sample_start prepares, sample_program <$> procs).

Lemma sample_reaches prepares procs schedule :
  sample_reached procs (sample_exec prepares procs schedule).1 (sample_exec prepares procs schedule).2.
Proof.
  exists sample_ctx, 0, 1000%Z, {| sa_instances := 0; sa_prepares := prepares |}, (sample_start prepares), schedule.
  split; [by vm_compute|]. unfold sample_exec. by destruct (exec _ _).
Qed.

(** A create that has taken its instance, [Close], the goroutine that closes the instance
    and comes to the deadline while the create is still at work. *)
Definition late_procs : list (Process (X := Sample) (D := string)) :=
  [sample_create None; doClose 0; aGoroutine 0 sample_ctx; timePasses 2000000000].
Definition late_schedule : list nat :=
  replicate 4 0 ++ replicate 2 1 ++ replicate 6 2 ++ [3] ++ replicate 6 2 ++ replicate 20 0.


Definition lost_procs : list (Process (X := Sample) (D := string)) :=
  [sample_create (Some sample_workspace); sample_create (Some sample_workspace); sample_create (Some sample_workspace)].
Definition lost_schedule : list nat := replicate 8 0 ++ replicate 20 1 ++ replicate 20 2 ++ replicate 20 0.

(** A create has taken its instance; a health check finds the instance dead and the
    goroutine replaces it, past the deadline; then the create claims its key. *)
Definition stuck_procs : list (Process (X := Sample) (D := string)) :=
  [sample_create None; healthChecks 1 sample_ctx; aGoroutine 0 sample_ctx; timePasses 2000000000].
Definition stuck_schedule : list nat :=
  replicate 3 0 ++ replicate 20 1 ++ replicate 10 2 ++ [3] ++ replicate 10 2 ++ replicate 20 0.

(** The runtime goes over to another image, which no launched instance has. *)
Definition stale_outside : Outside Sample nat unit string :=
  {| ou_Launch x :=
       (Ok {| in_provider := sa_instances x; in_runtimeSessionID := "";
              in_runtimeSession := Some {| rs_State := "running"; rs_Metadata := {[hostedRuntimeMetadataImageMatch := "false"]};
                                           rs_Lifecycle := None |} |},
        {| sa_instances := S (sa_instances x); sa_prepares := sa_prepares x |});
     ou_Close := ou_Close sample_outside; ou_Ping := ou_Ping sample_outside;
     ou_GetRuntimeSession := ou_GetRuntimeSession sample_outside; ou_PrepareWorkspace := ou_PrepareWorkspace sample_outside;
     ou_noRequest := ""; ou_SupportsPreparedWorkspace _ := true; ou_isWorkspaceProvider _ := true;
     ou_Support := ou_Support sample_outside;
     ou_RemoveWorkspace := ou_RemoveWorkspace sample_outside; ou_NewString := ou_NewString sample_outside;
     ou_NewSHA1 := ou_NewSHA1 sample_outside; ou_CreateSession := ou_CreateSession sample_outside;
     ou_GetSession := ou_GetSession sample_outside; ou_ListSessions := ou_ListSessions sample_outside;
     ou_UpdateSession := ou_UpdateSession sample_outside; ou_CreateTurn := ou_CreateTurn sample_outside;
     ou_GetTurn := ou_GetTurn sample_outside; ou_ListTurns := ou_ListTurns sample_outside;
     ou_CancelTurn := ou_CancelTurn sample_outside; ou_ListTurnEvents := ou_ListTurnEvents sample_outside;
     ou_GetInteraction := ou_GetInteraction sample_outside; ou_ListInteractions := ou_ListInteractions sample_outside;
     ou_ResolveInteraction := ou_ResolveInteraction sample_outside; ou_GetCapabilities := ou_GetCapabilities sample_outside |}.

(** ** Witnesses *)

(** The create that is late is at its instance after it was closed, past the deadline. *)
Lemma calls_drain_before_close_witness :
  ∃ w : World Sample nat, w_trace w = [providerClosed 1 1000001000 2025001000; called 1 (opCreateSession sample_key)]
       ∧ (∀ b, closes b (w_trace w) ≤ 1)
       ∧ ∀ before b deadline at_ after op,
           w_trace w = before ++ providerClosed b deadline at_ :: after → called b op ∈ after → (deadline < at_)%Z.
Proof.
  exists (sample_exec [] late_procs late_schedule).1. split; [by vm_compute|].
  exact (calls_drain_before_close "pool" sample_policy sample_facts sample_outside (λ s, s) AgentWorkspace.sample_parse (λ _, None) sample_workspaces late_procs _ _
           (sample_reaches [] late_procs late_schedule)).
Defined.

Lemma pool_within_capacity_witness :
  let w := (sample_exec [] stuck_procs stuck_schedule).1 in
  readyCount (w_pool w) (w_now w) = 2
  ∧ (Z.of_nat (readyCount (w_pool w) (w_now w))
     ≤ Z.max 0 (Z.max (lp_MinReadyInstances sample_policy) (lp_MaxReadyInstances sample_policy)))%Z.
Proof.
  intros w. split; [by vm_compute|].
  apply (pool_within_capacity "pool" sample_policy sample_facts sample_outside (λ s, s) AgentWorkspace.sample_parse (λ _, None) sample_workspaces stuck_procs w
           (sample_exec [] stuck_procs stuck_schedule).2).
  - by intros x i x' [= <- <-].
  - by intros h id x s x' [= <- <-].
  - apply sample_reaches.
Defined.

Lemma routes_lead_to_members_witness :
  let w := (sample_exec [true; false] lost_procs lost_schedule).1 in
  sessionBackend (w_pool w) "session" = Some 1 ∧ backendAvailableLocked (w_pool w) 1 true = true.
Proof.
  intros w. assert (sessionBackend (w_pool w) "session" = Some 1) as Hs by by vm_compute. split; [exact Hs|].
  exact (proj2 (routes_lead_to_members "pool" sample_policy sample_facts sample_outside (λ s, s) AgentWorkspace.sample_parse (λ _, None) sample_workspaces lost_procs w _
                  (sample_reaches [true; false] lost_procs lost_schedule)) "session" 1 (or_introl Hs)).
Defined.

(** The goroutine that drains an instance in use, before and after the deadline. *)
Lemma drains_end_witness :
  let after n := sample_exec [] late_procs (take n late_schedule) in
  let ended n := m ← (after n).2 !! 2; result_of m in
  ended 9 = None ∧ is_Some (ended 39) ∧ ∀ ok, ended 39 = Some ok → ok = true.
Proof.
  intros after ended. split; [by vm_compute|].
  split; [exists true; by vm_compute|]. intros ok Hok.
  exact (drains_end "pool" sample_policy sample_facts sample_outside (λ s, s) AgentWorkspace.sample_parse (λ _, None) sample_workspaces late_procs _ _ 2 ok
           (sample_reaches [] late_procs (take 39 late_schedule)) Hok).
Defined.

Lemma only_allowed_repositories_prepared_witness :
  preparing 1 sample_workspace ∈ w_trace (sample_exec [true; false] lost_procs lost_schedule).1
  ∧ ∃ config git, sample_workspaces = Some config ∧ AgentWorkspace.wp_Git config = Some git
    ∧ ∀ checkout, checkout ∈ AgentWorkspace.ws_Checkouts sample_workspace →
        ∃ repository entry,
          AgentWorkspace.CanonicalGitRepositoryIdentity (λ s, s) AgentWorkspace.sample_parse (AgentWorkspace.gc_URL checkout) = Ok repository
          ∧ entry ∈ AgentWorkspace.gp_AllowedRepositories git
          ∧ AgentWorkspace.entry_admits (λ s, s) AgentWorkspace.sample_parse entry (TrimSpace repository).
Proof.
  assert (preparing 1 sample_workspace ∈ w_trace (sample_exec [true; false] lost_procs lost_schedule).1) as Hev.
  { apply (list_elem_of_lookup_2 _ 1). by vm_compute. }
  split; [exact Hev|].
  exact (only_allowed_repositories_prepared "pool" sample_policy sample_facts sample_outside (λ s, s) AgentWorkspace.sample_parse
           (λ _, None) sample_workspaces lost_procs _ _ 1 sample_workspace
           (sample_reaches [true; false] lost_procs lost_schedule) Hev).
Defined.

(** ** What is found *)

(** [CreateSession]: "every create with the same key — concurrent or a retry after an
    ambiguous failure — lands on the one backend whose provider can dedup it".  A create whose
    workspace cannot be prepared drops the claim on the key while another create that has the
    same claim is at work; the next one lands on another instance, and both succeed. *)
Lemma claim_lost_to_failed_prepare :
  ∃ procs w ts,
    sample_reached procs w ts ∧ procs = replicate 3 (sample_create (Some sample_workspace))
    ∧ (∃ before, w_trace w = before ++ [called 2 (opCreateSession sample_key); called 1 (opCreateSession sample_key)])
    ∧ backendAvailableLocked (w_pool w) 1 false = true ∧ backendAvailableLocked (w_pool w) 2 false = true.
Proof.
  eexists lost_procs, _, _. split; [exact (sample_reaches [true; false] lost_procs lost_schedule)|]. split; [done|].
  split; [exists (take 6 (w_trace (sample_exec [true; false] lost_procs lost_schedule).1))|]; by vm_compute.
Qed.

(** A create can claim its key for an instance that was closed in the meantime.  The claim
    is then never dropped: with instances ready, creates with the key fail from then on. *)
Lemma claim_of_closed_instance :
  ∃ procs w ts,
    sample_reached procs w ts
    ∧ pl_createKeyBackends (w_pool w) !! sample_key = Some 1 ∧ 1 ∉ pl_backends (w_pool w)
    ∧ readyCount (w_pool w) (w_now w) = 2
    ∧ let '(r, w') := run (CreateSession "pool" sample_policy sample_facts sample_outside (λ s, s) AgentWorkspace.sample_parse (λ _, None) sample_workspaces sample_ctx (sample_request None)) w in
      r = Err (Unavailable NotReady) ∧ pl_createKeyBackends (w_pool w') !! sample_key = Some 1.
Proof.
  eexists stuck_procs, _, _. split; [exact (sample_reaches [] stuck_procs stuck_schedule)|].
  split; [by vm_compute|]. split; [by apply (bool_decide_unpack _); vm_compute|]. by vm_compute.
Qed.

(** While no launched instance accepts work, [ensureMinReady] launches on: with at most two
    instances allowed, twenty rounds of it leave twenty instances in the pool. *)
Lemma launches_without_end :
  let w := (run (ensureMinReady (D := string) sample_policy stale_outside {| cx_rounds := 20; cx_deadlineExceeded := false |})
              (mkWorld empty_pool 1000 {| sa_instances := 0; sa_prepares := [] |} [])).2 in
  lp_MaxReadyInstances sample_policy = 2%Z ∧ length (pl_backends (w_pool w)) = 20.
Proof. by vm_compute. Qed.
End HostedPoolSafety.
